(* ===== verification/_CoqProject ===== *)
-Q . S2P
Prelude.v
Mem.v
Kmalloc.v
KmallocInv.v
KmallocLayout.v
KmallocSpec.v
KmallocThms.v
Events.v
EventTree.v
EventThms.v
StringC.v
Pmm.v
Paging.v
Vmm.v
VmmThms.v
MemInit.v
Alloc.v
Hw.v
Time.v
Interrupts.v
Madt.v
Lapic.v
Ioapic.v
Thread.v
Sched.v
ThreadLists.v
SchedInv.v
SchedOps.v
SchedThms.v
SchedRuns.v
Cpu.v
Asm.v
Boot.v
Digits.v
Font.v
Tty.v
Npf.v
NpfThms.v
NpfFormat.v
Log.v
Tables.v
UacpiUtil.v
UacpiFmt.v
UacpiFmtThms.v
UacpiLog.v
UacpiIo.v
UacpiGas.v
UacpiRegs.v
UacpiLock.v
UacpiOpcodes.v
UacpiExec.v
UacpiExecSim.v
UacpiExecThms.v
UacpiNamespace.v
UacpiNamespaceThms.v
UacpiNamespaceEdit.v
UacpiOsi.v
UacpiResources.v
TablesThms.v
Main.v
DeviceInit.v
MainThms.v
