(* ===== verification/Prelude.v ===== *)
(** * flurry: a verification of the kernel

    flurry is a small x86-64 kernel: the Limine boot loader enters [kentry]
    (kernel/boot/entry.c), which copies the boot information and calls
    [kinit] (kernel/main.c).  [kinit] initialises the console, the GDT and
    IDT, the interrupt table, the physical memory manager, the page tables,
    the kernel heap, the ACPI tables, the clocks, the interrupt controllers
    and the system call registers, and starts the scheduler, which from then
    on runs threads out of a queue of timed events driven by the local APIC
    timer.

    ** How the code is modelled

    A C function is a state transformer of the monad [M] below: it returns,
    panics ([kpanic], a failed [kassert]), faults (an access outside the
    mapped memory or an array, or behaviour C leaves undefined) or runs out
    of the bound of a loop ([NoFuel]).  Unsigned integers are [Z] with the
    wrap-around written out.  Heap objects of the allocator and of the page
    tables are bytes of a partial memory (Mem.v); the objects of the
    multitasking code are records in maps from addresses, allocated through
    the interface of Alloc.v, whose laws the allocator of Kmalloc.v meets.
    Device counters are functions supplied by the environment and device
    writes are recorded in order (Hw.v).  A component's state is a record; a
    larger state that contains it is an instance of [Has], and [zoom] runs
    the component's code there.  Definitions have the names of the source
    functions and are executable.

    ** Files

    - Prelude.v: integers, the monad, the total correctness predicate [wp],
      tactics; Mem.v: byte-addressed memory.
    - Kmalloc.v (kernel/memory/kmalloc.c), KmallocInv.v, KmallocLayout.v,
      KmallocSpec.v, KmallocThms.v: the heap allocator with boundary tags,
      its invariant (a partition of the heap into chunks, no two adjacent
      free ones, the doubly linked free list), the abstract allocator and
      the refinement.
    - Events.v (kernel/multitasking/events.c), EventTree.v, EventThms.v: the
      event queue, a binary search tree with parent links, as a list ordered
      by time.
    - StringC.v (kernel/string.c).
    - Pmm.v (pmm.c), Paging.v (paging.c), Vmm.v and VmmThms.v (vmm.c and the
      mapping part of [kmalloc_init]): frames, four-level page tables with
      the TLB, the kernel address space; MemInit.v: the three memory
      managers started one after the other, with the direct map.
    - Alloc.v: the heap as an interface ([Allocator], [AllocatorLaws]) with
      Kmalloc.v as an instance.
    - Hw.v (asm_wrappers.h, msr.h, common.c), Time.v (timer.c, hpet.c,
      tsc.c), Interrupts.v (interrupts.c), Madt.v (madt.c), Lapic.v
      (lapic.c), Ioapic.v (ioapic.c), Cpu.v (gdt.c, idt.c, syscall.c).
    - Asm.v (isr.asm, gdt.asm, [switch_context] of sched.asm): the assembly,
      one definition per instruction that touches the stack, over the
      registers and a byte-addressed memory.
    - Thread.v (thread.c, process.c, the thread lists of sched.c), Sched.v
      (sched.c, sched.asm) and ThreadLists.v, SchedInv.v, SchedOps.v,
      SchedThms.v, SchedRuns.v: the scheduler as a machine whose steps are
      the pieces of code between two points where an interrupt can arrive.
    - Boot.v (entry.c, elf.c), Digits.v, Font.v (log/font.h), Tty.v
      (log/tty.c), Npf.v and NpfThms.v (include/nanoprintf.h as configured by
      log.c), NpfFormat.v (formats as data with the text C gives them, without
      the code's parser), Log.v (log.c).
    - Tables.v (uacpi/source/tables.c, the array of dynamic_array.h, and the
      host functions of kernel/acpi/uacpi_interface.c) and TablesThms.v: the
      firmware tables that [madt_init] and [hpet_init] look up.
    - UacpiUtil.v (the character and number functions of
      uacpi/source/utilities.c), UacpiFmt.v and UacpiFmtThms.v (the formatter
      of uacpi/source/stdlib.c), UacpiLog.v (the messages of the library, from
      the macros of internal/log.h to [uacpi_kernel_log] on the console).
    - UacpiIo.v (the buffer fields of uacpi/source/io.c), UacpiGas.v (its
      generic address structures, over the class [AcpiHost] of the host
      functions), UacpiRegs.v (uacpi/source/registers.c): bit fields of
      buffers and of the fixed hardware registers; UacpiLock.v
      (uacpi/source/mutex.c): the locks, as programs whose loads, stores and
      mutex operations interleave.
    - UacpiOpcodes.v (uacpi/source/opcodes.c and internal/opcodes.h): the
      tables of the AML instructions with their parse programs; UacpiExec.v
      ([exec_op] of uacpi/source/interpreter.c, the loop that runs these
      programs), UacpiExecSim.v and UacpiExecThms.v: the programs explored
      over summaries of the items an instruction collects.
    - UacpiNamespace.v (uacpi/source/namespace.c, shareable.c), with
      UacpiNamespaceThms.v (lookup, paths, iteration) and
      UacpiNamespaceEdit.v (installing and uninstalling): the tree of named
      nodes; UacpiOsi.v (uacpi/source/osi.c): the interfaces that [_OSI] asks
      for; UacpiResources.v (uacpi/source/resources.c): the descriptors of
      resources and the iteration over a buffer of them.
    - Main.v (kernel/main.c, the [_init] functions that use several
      components), DeviceInit.v, MainThms.v: [kinit] over one record that
      holds the state of every component, and what it establishes.

    ** What the theorems show

    - Heap: every state reached by allocations, frees and client writes is
      well formed; allocation is first fit, free coalesces, nothing else
      changes; panics happen exactly when no chunk fits.  Requests are of less
      than [2 ^ 64 - 47] bytes; what larger ones do is shown apart.
    - Event queue and thread lists: they refine an ordered list and a FIFO
      queue over all sequences of operations.
    - Scheduler: in runs in which interrupts arrive only outside the critical
      points ([label_ok] in SchedThms.v) each thread has a place (running,
      about to be put back after a switch, ready, asleep with its event
      queued, or done as the boot thread), and no step fails except for lack
      of memory; at two of the critical points, where the hardware can
      interrupt, executable runs show a lost thread and a panic.
    - Memory: the page table operations change one translation; [vmm_init]
      and [kmalloc_init] establish what the heap assumes, each heap page on a
      frame of its own, with the number of frames they take counted table by
      table.
    - Start: on a machine with enough frames, well-formed firmware tables
      and a clock that runs, [kinit] reaches the scheduler, and in runs without
      interrupts at the scheduler's critical points no later step fails except
      for lack of heap memory.
    - Devices: the register values written, the exactness of the time
      conversions, the routing of interrupts, the parsing of the MADT.
    - ACPI tables: [acpi_init] records the tables of the firmware in order, a
      lookup returns the first table with the signature, and dropping the
      reference restores the state.
    - Assembly: an interrupt leaves the interrupted code as it was, a thread
      that was switched from goes on where it called [switch_context], a new
      thread starts in its entry functions, and [gdt_init] leaves the segment
      registers loaded from the new table.
    - ACPI support: the library's formatter prints what its own reference
      definition says and terminates, the number reader reads back what the
      formatter prints, a message reaches the console exactly if its level
      asks for it.
    - ACPI registers: writing and reading a bit field of a buffer, a whole
      register of the firmware tables or a readable field of an enable or
      control register round-trips and changes nothing else; a field of a
      status register clears the others; the fast paths for whole bytes equal
      the general bit copy.
    - ACPI locks: the reader-writer lock excludes in every interleaving.
    - AML instructions: every opcode has a specification whose program has the
      form its properties announce; whatever the AML code and the results of
      the functions called, each step of [exec_op] finds the program bytes and
      items it uses, and an argument is delivered to the instruction that
      waits for it, apart from two defects that are shown.
    - ACPI namespace: installing appends to the children of a node and
      uninstalling removes from them, the path of a node leads back to it, and
      the iteration without a stack is the traversal by recursion.
    - ACPI interfaces and resources: the list of interfaces refines a map;
      the iteration over a resource buffer is safe on any bytes and takes a
      template apart into the descriptors it was made of.
    - Output: the formatter prints, for every format written as data, the text
      an independent definition of the printf directives gives, terminates on
      every input, stays inside its buffers;
      the log sends the truncated text; the console draws the glyphs.
    - Defects: theorems that state what the code does where that is not what
      it means to do (the findings of the manifest).

    ** Bounds

    Loops over linked structures take fuel that the theorems instantiate:
    the number of chunks for the free list, the height of the event tree,
    the number of entries of a table; where a C loop runs a fixed number of
    times the recursion is on that number.  [npf_loop] gets the length of the
    format, since each turn consumes a character, and the digit loops 64,
    since a 64-bit number has at most 64 digits; both are proved enough, and
    [vsnprintf_loop] and [repr_loop] of UacpiFmt.v have the same bounds.
    [timer_wait_ns] needs one unit per reading of the clock, and its theorem
    gives the number.  [table_install] calls itself for the DSDT of a FADT;
    two levels are proved enough for well-formed tables.  [kinit] waits on
    the clock six times, so its clock has to advance within six times the
    fuel of one wait, and the MADT has at most as many entries as the fuel.
    The loops of UacpiGas.v get the number of bits of the register, since each
    turn consumes at least one.  The count of readers in UacpiLock.v has 64
    bits; its theorem is about runs of less than 2^64 steps, which cannot wrap
    it around.  The 0xFFFF attempts to take the global lock are a constant of
    the source.  UacpiExecSim.v keeps up to 12 items of an instruction (5 for
    packages and fields, whose number of elements is not bounded) exactly, and
    of a longer array its beginning and its last item; the exploration of all programs takes 2000 units of fuel, and
    that it ends before is part of what is computed.  The loops of
    UacpiNamespace.v are bounded by the number of nodes, of which the
    iteration visits each twice, and that of UacpiResources.v by the number of
    bytes; the theorems show that these bounds are enough.

    ** Not modelled

    - In Main.v the heap keeps a memory of its own (the frames that
      [kmalloc_init] maps belong to it alone), while the firmware tables and
      the boot modules are read through the page tables.
    - The scheduler of Sched.v takes [switch_context] as one step on its
      thread records; Asm.v shows what its instructions do to the registers
      and stacks, and the two are not composed into one state.
    - [thread_ucreate], which has no body to speak of.
    - Log messages of the components (except in Log.v itself), which do not
      affect their state.
    - The floating point and write-back parts of nanoprintf, which log.c
      compiles out.
    - The host functions behind the mutexes, spinlocks and ports of uacpi:
      those of kernel/acpi/uacpi_interface.c only stop with an assertion, so
      UacpiGas.v, UacpiRegs.v and UacpiLock.v take them as parameters with the
      behaviour kernel_api.h documents.
    - The objects of AML: UacpiExec.v has the kinds of the items and takes
      contents, AML bytes and the results of the functions called as arbitrary
      answers, and a handler of an instruction as the items it reads and
      changes; UacpiNamespace.v has the types of objects and the links between
      them, not their reference counts.  The set-up and the removal of the
      whole namespace are left out, and callbacks of its iteration do not
      change it.
    - The conversion between resource descriptors and native structures.
    - The rest of uacpi/ (event.c, notify.c, opregion.c, sleep.c,
      default_handlers.c, most of types.c): the kernel looks up tables and
      does not start the interpreter.  Of tables.c, [uacpi_initialize_tables]
      and [uacpi_table_load], which enter that code, are left out, and its
      messages, which change nothing but the console (UacpiLog.v), are not
      threaded through it.
    - limine/ (boot loader) and the parts of limine.h that entry.c does not
      use. *)

From stdpp Require Export base gmap list strings numbers sorting relations.

Declare Scope kernel_scope.
Delimit Scope kernel_scope with kernel.

Local Open Scope Z_scope.

(** ** Machine integers

    An unsigned C integer of [w] bits is a [Z] in [0, 2^w); every
    operation that can leave the range is followed by [wrap w]. *)

Definition wrap (w z : Z) : Z := z mod 2 ^ w.

Abbreviation u8 := (wrap 8).
Abbreviation u16 := (wrap 16).
Abbreviation u32 := (wrap 32).
Abbreviation u64 := (wrap 64).

(** [~z] at 64 bits. *)
Definition lnot64 (z : Z) : Z := u64 (Z.lnot z).

Definition in_range (w z : Z) : Prop := 0 ≤ z < 2 ^ w.

Notation "x +64 y" := (u64 (x + y)) (at level 50, left associativity) : kernel_scope.
Notation "x -64 y" := (u64 (x - y)) (at level 50, left associativity) : kernel_scope.
Notation "x *64 y" := (u64 (x * y)) (at level 40, left associativity) : kernel_scope.

(** ** Outcomes and the kernel monad

    A C function that reads and writes a component's state is a state
    transformer.  [Panic] is [kpanic] (and a failed [kassert]): the machine
    halts.  [Fault] is an access to an address that is not mapped.
    [NoFuel] is the bound on a loop running out; theorems about loops show
    that it does not occur. *)

Inductive res (A : Type) : Type :=
| Ok (a : A)
| Panic (msg : string)
| Fault (addr : Z)
| NoFuel.
Arguments Ok {A} _.
Arguments Panic {A} _.
Arguments Fault {A} _.
Arguments NoFuel {A}.

Definition M (S A : Type) : Type := S → res (A * S).

#[export] Instance M_ret (S : Type) : MRet (M S) := λ A a s, Ok (a, s).
#[export] Instance M_bind (S : Type) : MBind (M S) := λ A B k c s,
  match c s with
  | Ok (a, s') => k a s'
  | Panic msg => Panic msg
  | Fault addr => Fault addr
  | NoFuel => NoFuel
  end.

Definition gets {S A : Type} (f : S → A) : M S A := λ s, Ok (f s, s).
Definition modify {S : Type} (f : S → S) : M S unit := λ s, Ok (tt, f s).
Definition fault {S A : Type} (addr : Z) : M S A := λ _, Fault addr.
Definition kpanic {S A : Type} (msg : string) : M S A := λ _, Panic msg.
Definition nofuel {S A : Type} : M S A := λ _, NoFuel.
Definition kassert {S : Type} (b : bool) (msg : string) : M S unit :=
  if b then mret tt else kpanic msg.

(** Running a component's code inside a state that contains its state. *)
Class Has (T S : Type) := { prj : S → T; upd : T → S → S }.

Class HasLaws (T S : Type) `{Has T S} := {
  prj_upd : ∀ t s, prj (upd t s) = t;
  upd_prj : ∀ s, upd (prj s) s = s;
  upd_upd : ∀ t t' s, upd t (upd t' s) = upd t s
}.

Definition zoom {T S A : Type} `{Has T S} (c : M T A) : M S A := λ s,
  match c (prj s) with
  | Ok (a, t) => Ok (a, upd t s)
  | Panic msg => Panic msg
  | Fault addr => Fault addr
  | NoFuel => NoFuel
  end.

(** ** Total correctness: [wp c Q s] says that [c] run in [s] returns, with
    no panic, fault or exhausted bound, and its result satisfies [Q]. *)

Definition wp {S A : Type} (c : M S A) (Q : A → S → Prop) (s : S) : Prop :=
  match c s with Ok (a, s') => Q a s' | _ => False end.

Definition panics {S A : Type} (c : M S A) (s : S) : Prop :=
  match c s with Panic _ => True | _ => False end.

Section wp_rules.
Context {S : Type}.

Lemma wp_ret {A} (a : A) Q (s : S) : Q a s → wp (mret a) Q s.
Proof. done. Qed.

Lemma wp_bind {A B} (c : M S A) (k : A → M S B) Q s :
  wp c (λ a, wp (k a) Q) s → wp (c ≫= k) Q s.
Proof. unfold wp, mbind, M_bind. by destruct (c s) as [[]| | |]. Qed.

Lemma wp_mono {A} (c : M S A) (Q Q' : A → S → Prop) s :
  wp c Q s → (∀ a s', Q a s' → Q' a s') → wp c Q' s.
Proof. unfold wp. destruct (c s) as [[]| | |]; naive_solver. Qed.

Lemma wp_eq {A} (c c' : M S A) Q s : c s = c' s → wp c' Q s → wp c Q s.
Proof. unfold wp. by intros ->. Qed.

Lemma wp_gets {A} (f : S → A) Q s : Q (f s) s → wp (gets f) Q s.
Proof. done. Qed.

Lemma wp_modify (f : S → S) (Q : unit → S → Prop) s : Q tt (f s) → wp (modify f) Q s.
Proof. done. Qed.

Lemma wp_kassert (b : bool) msg (Q : unit → S → Prop) s :
  b = true → Q tt s → wp (kassert b msg) Q s.
Proof. by intros ->. Qed.

Lemma wp_ok {A} (c : M S A) Q s :
  wp c Q s ↔ ∃ a s', c s = Ok (a, s') ∧ Q a s'.
Proof.
  unfold wp. split.
  - destruct (c s) as [[a s']| | |]; [eauto|done..].
  - by intros (a & s' & -> & ?).
Qed.

Lemma wp_if {A} (b : bool) (c1 c2 : M S A) Q s :
  (b = true → wp c1 Q s) → (b = false → wp c2 Q s) → wp (if b then c1 else c2) Q s.
Proof. destruct b; auto. Qed.

Lemma panics_bind_l {A B} (c : M S A) (k : A → M S B) s :
  panics c s → panics (c ≫= k) s.
Proof. unfold panics, mbind, M_bind. by destruct (c s) as [[]| | |]. Qed.

Lemma panics_bind_r {A B} (c : M S A) (k : A → M S B) s :
  wp c (λ a, panics (k a)) s → panics (c ≫= k) s.
Proof. unfold wp, panics, mbind, M_bind. by destruct (c s) as [[]| | |]. Qed.

Lemma bind_ok {A B} (c : M S A) (k : A → M S B) s a s' :
  c s = Ok (a, s') → (c ≫= k) s = k a s'.
Proof. unfold mbind, M_bind. by intros ->. Qed.

Lemma bind_assoc {A B C} (c : M S A) (f : A → M S B) (g : B → M S C) s :
  ((c ≫= f) ≫= g) s = (c ≫= (λ a, f a ≫= g)) s.
Proof. unfold mbind, M_bind. by destruct (c s) as [[]| | |]. Qed.

Lemma wp_bind_assoc {A B C} (c : M S A) (f : A → M S B) (g : B → M S C) Q s :
  wp ((c ≫= f) ≫= g) Q s → wp (c ≫= (λ a, f a ≫= g)) Q s.
Proof. apply wp_eq. symmetry. apply bind_assoc. Qed.
End wp_rules.

Lemma wp_zoom {T S A} `{Has T S} (c : M T A) (Q : A → S → Prop) s :
  wp c (λ a t, Q a (upd t s)) (prj s) → wp (zoom c) Q s.
Proof. unfold wp, zoom. by destruct (c (prj s)) as [[]| | |]. Qed.

Create HintDb kernel.
#[export] Hint Resolve wp_ret wp_gets wp_modify wp_kassert : kernel.

(** ** Tactics *)

(** Linear arithmetic with division and remainder by constants. *)
Ltac dlia := Z.to_euclidean_division_equations; lia.

(** One step of a symbolic run. *)
Ltac wp_step :=
  lazymatch goal with
  | |- wp (_ ≫= _) _ _ => apply wp_bind
  | |- wp (mret _) _ _ => apply wp_ret
  | |- wp (gets _) _ _ => apply wp_gets
  | |- wp (modify _) _ _ => apply wp_modify
  | |- wp (kassert _ _) _ _ => apply wp_kassert
  end; cbn beta.

Ltac wp_steps := repeat wp_step.

(** ** Integer lemmas *)

Lemma wrap_small w z : 0 ≤ z < 2 ^ w → wrap w z = z.
Proof. apply Z.mod_small. Qed.

Lemma wrap_range w z : 0 ≤ w → 0 ≤ wrap w z < 2 ^ w.
Proof. intros. apply Z.mod_pos_bound, Z.pow_pos_nonneg; lia. Qed.

Lemma wrap_wrap w z : 0 ≤ w → wrap w (wrap w z) = wrap w z.
Proof. intros. apply wrap_small, wrap_range; done. Qed.

(** Closing a range goal after a [wrap] that does not wrap. *)
Ltac unwrap :=
  repeat match goal with
  | |- context [wrap ?w ?z] => rewrite (wrap_small w z) by (simpl; lia)
  end.

Lemma testbit_small w z i : 0 ≤ z < 2 ^ w → w ≤ i → Z.testbit z i = false.
Proof.
  intros Hz Hi. destruct (decide (w < 0)).
  { rewrite Z.pow_neg_r in Hz by lia. lia. }
  rewrite <-(Z.mod_small z (2 ^ w)) by done. apply Z.mod_pow2_bits_high. lia.
Qed.

Lemma land_range w a b : 0 ≤ w → 0 ≤ a < 2 ^ w → 0 ≤ Z.land a b < 2 ^ w.
Proof.
  intros Hw Ha.
  assert (Z.land a b = (Z.land a b) mod 2 ^ w) as ->;
    [|apply Z.mod_pos_bound, Z.pow_pos_nonneg; lia].
  apply Z.bits_inj'. intros i Hi. rewrite Z.testbit_mod_pow2 by lia.
  destruct (Z.ltb_spec i w); [done|]. simpl.
  rewrite Z.land_spec, (testbit_small w a i); [done|lia..].
Qed.

Lemma lor_range w a b :
  0 ≤ w → 0 ≤ a < 2 ^ w → 0 ≤ b < 2 ^ w → 0 ≤ Z.lor a b < 2 ^ w.
Proof.
  intros Hw Ha Hb.
  assert (Z.lor a b = (Z.lor a b) mod 2 ^ w) as ->;
    [|apply Z.mod_pos_bound, Z.pow_pos_nonneg; lia].
  apply Z.bits_inj'. intros i Hi. rewrite Z.testbit_mod_pow2 by lia.
  destruct (Z.ltb_spec i w); [done|]. simpl.
  rewrite Z.lor_spec, (testbit_small w a i), (testbit_small w b i); [done|lia..].
Qed.

(** Disjoint bit fields: [lor] of a multiple of [2^k] and a value below it. *)
Lemma lor_add_disjoint k a b :
  0 ≤ k → a mod 2 ^ k = 0 → 0 ≤ b < 2 ^ k → Z.lor a b = a + b.
Proof.
  intros Hk Ha Hb. assert (Z.land a b = 0) as Hab.
  { apply Z.bits_inj'. intros i Hi. rewrite Z.land_spec, Z.bits_0.
    destruct (decide (i < k)).
    - rewrite <-(Z.mod_pow2_bits_low a k i), Ha, Z.bits_0 by lia. done.
    - rewrite (testbit_small k b i) by lia. apply andb_false_r. }
  rewrite <-Z.lxor_lor, <-Z.add_nocarry_lxor by done. done.
Qed.

Lemma land_ones_mod k a : 0 ≤ k → Z.land a (2 ^ k - 1) = a mod 2 ^ k.
Proof. intros. by rewrite <-Z.land_ones, Z.ones_equiv by lia. Qed.

(** Clearing the low [k] bits of a [w]-bit value. *)
Lemma land_high_mask w k a :
  0 ≤ k ≤ w → 0 ≤ a < 2 ^ w → Z.land a (2 ^ w - 2 ^ k) = a - a mod 2 ^ k.
Proof.
  intros Hk Ha.
  assert (a - a mod 2 ^ k = Z.shiftl (Z.shiftr a k) k) as ->.
  { rewrite Z.shiftl_mul_pow2, Z.shiftr_div_pow2 by lia.
    pose proof (Z.div_mod a (2 ^ k)). lia. }
  assert (2 ^ w - 2 ^ k = Z.shiftl (Z.ones (w - k)) k) as ->.
  { rewrite Z.shiftl_mul_pow2, Z.ones_equiv by lia.
    rewrite Z.mul_pred_l, <-Z.pow_add_r by lia. do 2 f_equal; lia. }
  apply Z.bits_inj'. intros i Hi. rewrite Z.land_spec, !Z.shiftl_spec by lia.
  destruct (decide (i < k)).
  { rewrite !(Z.testbit_neg_r _ (i - k)) by lia. apply andb_false_r. }
  rewrite Z.shiftr_spec by lia. replace (i - k + k) with i by lia.
  destruct (decide (i < w)).
  - rewrite Z.ones_spec_low by lia. apply andb_true_r.
  - rewrite (testbit_small w a i) by lia. done.
Qed.
