(* ===== verification/Mem.v ===== *)
(** * Byte-addressed memory

    The memory the C code sees: a partial map from addresses to bytes, [None]
    where nothing is mapped.  Multi-byte accesses are little endian, as on
    x86-64.  The monadic accessors [rd]/[wr] fault on an unmapped byte; they
    work in every component state that contains a memory ([Has mem S]). *)

From S2P Require Import Prelude.
Local Open Scope Z_scope.

Definition mem : Type := Z → option Z.

Definition load8 (m : mem) (a : Z) : option Z := (λ b, b mod 256) <$> m a.
Definition store8 (m : mem) (a v : Z) : mem :=
  λ x, if x =? a then Some (v mod 256) else m x.

Fixpoint load (n : nat) (m : mem) (a : Z) : option Z :=
  match n with
  | O => Some 0
  | S n' => b ← load8 m a; r ← load n' m (a + 1); Some (b + 256 * r)
  end.

Fixpoint store (n : nat) (m : mem) (a v : Z) : mem :=
  match n with
  | O => m
  | S n' => store n' (store8 m a v) (a + 1) (v `div` 256)
  end.

Fixpoint mapped (n : nat) (m : mem) (a : Z) : bool :=
  match n with
  | O => true
  | S n' => bool_decide (is_Some (m a)) && mapped n' m (a + 1)
  end.

Arguments load : simpl never.
Arguments store : simpl never.
Arguments mapped : simpl never.

(** The monadic accesses, of [n] bytes. *)
Definition rd {S : Type} `{Has mem S} (n : nat) (a : Z) : M S Z := λ s,
  match load n (prj s) a with Some v => Ok (v, s) | None => Fault a end.

Definition wr {S : Type} `{Has mem S} (n : nat) (a v : Z) : M S unit := λ s,
  if mapped n (prj s) a then Ok (tt, upd (store n (prj s) a v) s) else Fault a.

Abbreviation rd8 := (rd 1).
Abbreviation rd16 := (rd 2).
Abbreviation rd32 := (rd 4).
Abbreviation rd64 := (rd 8).
Abbreviation wr8 := (wr 1).
Abbreviation wr16 := (wr 2).
Abbreviation wr32 := (wr 4).
Abbreviation wr64 := (wr 8).

#[export] Instance mem_has_mem : Has mem mem := {| prj := id; upd := λ m _, m |}.
#[export] Instance mem_has_mem_laws : HasLaws mem mem.
Proof. by split. Qed.

(** Two memories that agree on every byte of [lo, hi). *)
Definition agree (m m' : mem) (lo hi : Z) : Prop := ∀ x, lo ≤ x < hi → m' x = m x.

(** Two memories that map the same addresses. *)
Definition same_dom (m m' : mem) : Prop := ∀ x, is_Some (m' x) ↔ is_Some (m x).

#[export] Instance same_dom_equiv : Equivalence same_dom.
Proof.
  split.
  - by intros m x.
  - intros m m' H x. by rewrite (H x).
  - intros m1 m2 m3 H1 H2 x. by rewrite (H2 x), (H1 x).
Qed.

Section lemmas.
Implicit Types (m : mem) (a b v : Z) (n k : nat).

Lemma load_S n m a :
  load (S n) m a = (b ← load8 m a; r ← load n m (a + 1); Some (b + 256 * r)).
Proof. done. Qed.
Lemma store_S n m a v :
  store (S n) m a v = store n (store8 m a v) (a + 1) (v `div` 256).
Proof. done. Qed.

Lemma store8_eq m a v : store8 m a v a = Some (v mod 256).
Proof. unfold store8. by rewrite Z.eqb_refl. Qed.

Lemma mapped_spec n m a :
  mapped n m a = true ↔ ∀ x, a ≤ x < a + Z.of_nat n → is_Some (m x).
Proof.
  revert a. induction n as [|n IH]; intros a; unfold mapped; fold mapped.
  { split; [intros _ x Hx; lia|done]. }
  rewrite andb_true_iff, bool_decide_eq_true, IH. split.
  - intros [Ha Hn] x Hx. destruct (decide (x = a)) as [->|]; [done|].
    apply Hn. lia.
  - intros Hn. split; [apply Hn; lia|]. intros x Hx. apply Hn. lia.
Qed.

Lemma load_is_Some n m a : is_Some (load n m a) ↔ mapped n m a = true.
Proof.
  revert a. induction n as [|n IH]; intros a.
  { split; eauto. }
  rewrite load_S. unfold load8, mapped; fold mapped.
  rewrite andb_true_iff, bool_decide_eq_true, <-IH.
  destruct (m a) as [x|]; simpl; [|split; [by intros []|by intros [[] _]]].
  destruct (load n m (a + 1)); simpl.
  - split; eauto.
  - split; [by intros []|by intros [_ []]].
Qed.

Lemma load_range n m a v : load n m a = Some v → 0 ≤ v < 256 ^ Z.of_nat n.
Proof.
  revert a v. induction n as [|n IH]; intros a v.
  { unfold load. intros [= <-]. simpl. lia. }
  rewrite load_S. unfold load8. destruct (m a) as [x|]; simpl; [|done].
  destruct (load n m (a + 1)) as [r|] eqn:Hr; simpl; [|done]. intros [= <-].
  apply IH in Hr. rewrite Nat2Z.inj_succ, Z.pow_succ_r by lia.
  pose proof (Z.mod_pos_bound x 256). lia.
Qed.

Lemma load_ext n m m' a :
  (∀ x, a ≤ x < a + Z.of_nat n → m' x = m x) → load n m' a = load n m a.
Proof.
  revert a. induction n as [|n IH]; intros a Hext; [done|].
  rewrite !load_S. unfold load8. rewrite Hext by lia.
  rewrite IH; [done|]. intros x Hx. apply Hext. lia.
Qed.

Lemma store_other n m a v x : ¬ (a ≤ x < a + Z.of_nat n) → store n m a v x = m x.
Proof.
  revert m a v. induction n as [|n IH]; intros m a v Hx; [done|].
  rewrite store_S, IH by lia. unfold store8.
  destruct (Z.eqb_spec x a); [lia|done].
Qed.

Lemma load_store_ne n k m a v b :
  b + Z.of_nat k ≤ a ∨ a + Z.of_nat n ≤ b → load k (store n m a v) b = load k m b.
Proof. intros Hab. apply load_ext. intros x Hx. apply store_other. lia. Qed.

Lemma load_store_eq n m a v :
  load n (store n m a v) a = Some (v mod 256 ^ Z.of_nat n).
Proof.
  revert m a v. induction n as [|n IH]; intros m a v.
  { unfold load. simpl. by rewrite Z.mod_1_r. }
  rewrite load_S, store_S. unfold load8.
  rewrite store_other, store8_eq by lia. simpl.
  rewrite IH. simpl. f_equal.
  rewrite Nat2Z.inj_succ, Z.pow_succ_r, Z.mod_mod by lia.
  rewrite Z.rem_mul_r by (try apply Z.pow_pos_nonneg; lia). done.
Qed.

(** An access of [n + k] bytes is an access of [n] bytes and one of [k]. *)
Lemma load_app n k m a x y :
  load n m a = Some x → load k m (a + Z.of_nat n) = Some y → load (n + k) m a = Some (x + 256 ^ Z.of_nat n * y).
Proof.
  revert a x. induction n as [|n IH]; intros a x.
  { unfold load at 1. intros [= <-]. rewrite Z.add_0_r. intros Hy. simpl. rewrite Hy. f_equal. lia. }
  rewrite load_S. change (S n + k)%nat with (S (n + k)). rewrite load_S. unfold load8.
  destruct (m a) as [b|]; simpl; [|done]. destruct (load n m (a + 1)) as [r|] eqn:Hr; simpl; [|done].
  intros [= <-] Hy. rewrite (IH (a + 1) r Hr) by (by replace (a + 1 + Z.of_nat n) with (a + Z.of_nat (S n)) by lia).
  simpl. f_equal. rewrite Nat2Z.inj_succ, Z.pow_succ_r by lia. lia.
Qed.

Lemma store_app n k m a v :
  store (n + k) m a v = store k (store n m a v) (a + Z.of_nat n) (v `div` 256 ^ Z.of_nat n).
Proof.
  revert m a v. induction n as [|n IH]; intros m a v.
  { simpl. by rewrite Z.add_0_r, Z.div_1_r. }
  change (S n + k)%nat with (S (n + k)). rewrite !store_S, IH. f_equal; [lia|].
  rewrite Nat2Z.inj_succ, Z.pow_succ_r by lia. by rewrite Z.div_div by lia.
Qed.

Lemma store_ext n m m' a v x : (∀ y, m y = m' y) → store n m a v x = store n m' a v x.
Proof.
  revert m m' a v. induction n as [|n IH]; intros m m' a v H; [apply H|]. rewrite !store_S. apply IH.
  intros y. unfold store8. by destruct (y =? a).
Qed.

(** Only the low bytes of the value are stored. *)
Lemma store_mod n m a v x : store n m a (v mod 256 ^ Z.of_nat n) x = store n m a v x.
Proof.
  revert m a v. induction n as [|n IH]; intros m a v; [done|]. rewrite !store_S.
  rewrite Nat2Z.inj_succ, Z.pow_succ_r by lia. rewrite Z.rem_mul_r by (try apply Z.pow_pos_nonneg; lia).
  replace ((v mod 256 + 256 * ((v `div` 256) mod 256 ^ Z.of_nat n)) `div` 256) with ((v `div` 256) mod 256 ^ Z.of_nat n)
    by (rewrite Z.mul_comm, Z.div_add, (Z.div_small (v mod 256)) by (try apply Z.mod_pos_bound; lia); lia).
  rewrite IH. apply store_ext. intros y. unfold store8. destruct (y =? a); [|done].
  rewrite Z.mul_comm, Z.mod_add, Z.mod_mod by lia. done.
Qed.

Lemma store_is_Some n m a v x : is_Some (m x) → is_Some (store n m a v x).
Proof.
  revert m a v. induction n as [|n IH]; intros m a v Hx; [done|].
  rewrite store_S. apply IH. unfold store8. destruct (x =? a); eauto.
Qed.

Lemma store_same_dom n m a v : mapped n m a = true → same_dom m (store n m a v).
Proof.
  rewrite mapped_spec. intros Hm x. split; [|apply store_is_Some].
  intros Hx. destruct (decide (a ≤ x < a + Z.of_nat n)); [by apply Hm|].
  by rewrite store_other in Hx.
Qed.

Lemma mapped_same_dom n m m' a : same_dom m m' → mapped n m' a = mapped n m a.
Proof.
  intros Hd. apply eq_bool_prop_intro. rewrite !Is_true_true, !mapped_spec.
  split; intros H x Hx; specialize (H x Hx); by apply Hd.
Qed.

Lemma mapped_store n m a v k b :
  mapped n m a = true → mapped k (store n m a v) b = mapped k m b.
Proof. intros Ha. by apply mapped_same_dom, store_same_dom. Qed.

Lemma agree_refl m lo hi : agree m m lo hi.
Proof. by intros x _. Qed.

Lemma agree_trans m1 m2 m3 lo hi :
  agree m1 m2 lo hi → agree m2 m3 lo hi → agree m1 m3 lo hi.
Proof. intros H1 H2 x Hx. rewrite H2 by done. by apply H1. Qed.

Lemma agree_load m m' lo hi n a :
  agree m m' lo hi → lo ≤ a → a + Z.of_nat n ≤ hi → load n m' a = load n m a.
Proof. intros H ??. apply load_ext. intros x Hx. apply H. lia. Qed.

Lemma agree_store n m a v lo hi :
  hi ≤ a ∨ a + Z.of_nat n ≤ lo → agree m (store n m a v) lo hi.
Proof. intros H x Hx. apply store_other. lia. Qed.
End lemmas.

Section wp_mem.
Context {S : Type} `{HasLaws mem S}.

Lemma wp_rd n a v (Q : Z → S → Prop) s :
  load n (prj s) a = Some v → Q v s → wp (rd n a) Q s.
Proof. unfold wp, rd. by intros ->. Qed.

Lemma wp_wr n a v (Q : unit → S → Prop) s :
  mapped n (prj s) a = true → Q tt (upd (store n (prj s) a v) s) → wp (wr n a v) Q s.
Proof. unfold wp, wr. by intros ->. Qed.
End wp_mem.

#[export] Hint Resolve agree_refl : kernel.

(** 64-bit instances of the load/store laws, in the form rewriting uses. *)
Lemma load64_store64_eq m a v : 0 ≤ v < 2 ^ 64 → load 8 (store 8 m a v) a = Some v.
Proof. intros. rewrite load_store_eq. f_equal. apply Z.mod_small. simpl. lia. Qed.

Lemma load64_store64_ne m a v b :
  b + 8 ≤ a ∨ a + 8 ≤ b → load 8 (store 8 m a v) b = load 8 m b.
Proof. intros. apply load_store_ne. lia. Qed.

Lemma load64_range m a v : load 8 m a = Some v → 0 ≤ v < 2 ^ 64.
Proof. intros H%load_range. done. Qed.

(** ** Memory with more bytes *)

Definition mem_below (m m' : mem) : Prop := ∀ x b, m x = Some b → m' x = Some b.

Lemma load_below n m m' a v : mem_below m m' → load n m a = Some v → load n m' a = Some v.
Proof.
  intros H. revert a v. induction n as [|n IH]; intros a v; [done|]. rewrite !load_S. unfold load8.
  destruct (m a) as [b|] eqn:E; [|done]. rewrite (H _ _ E). simpl.
  destruct (load n m (a + 1)) as [w|] eqn:E1; [|done]. by rewrite (IH _ _ E1).
Qed.

Lemma mapped_below n m m' a : mem_below m m' → mapped n m a = true → mapped n m' a = true.
Proof. intros H Hm. apply mapped_spec. intros x Hx. rewrite mapped_spec in Hm. destruct (Hm x Hx) as [b E]. exists b. by apply H. Qed.

(** [f] reads the same in a memory with more bytes. *)
Definition stable {A : Type} (f : mem → option A) : Prop :=
  ∀ m m' v, mem_below m m' → f m = Some v → f m' = Some v.

Lemma stable_bind {A B} (f : mem → option A) (k : A → mem → option B) :
  stable f → (∀ a, stable (k a)) → stable (λ m, f m ≫= λ a, k a m).
Proof.
  intros Hf Hk m m' v Hb E. apply bind_Some in E as (a & E1 & E2).
  apply bind_Some. exists a. split; [by eapply Hf|by eapply Hk].
Qed.
Lemma stable_const {A} (o : option A) : stable (λ _, o).
Proof. by intros m m' v _. Qed.
Lemma stable_load n a : stable (λ m, load n m a).
Proof. intros m m' v. apply load_below. Qed.
Lemma stable_if {A} (b : mem → bool) (f : mem → option A) :
  (∀ m m', mem_below m m' → b m = true → b m' = true) → stable f → stable (λ m, if b m then f m else None).
Proof. intros Hb Hf m m' v H. destruct (b m) eqn:E; [|done]. rewrite (Hb _ _ H E). by apply Hf. Qed.

(** Closing a [stable] goal by the shape of the reader. *)
Ltac stable_tac :=
  repeat first
    [ apply stable_load | apply stable_const | apply stable_bind; [|intros ?] ].
