(* ===== verification/Kmalloc.v ===== *)
(** * The kernel heap: kernel/memory/kmalloc.c

    The heap is the virtual range [HEAP_START, HEAP_END), cut into chunks
    that start with a metadata word; free chunks are on a doubly linked list
    threaded through the chunks and carry their size again in their last
    word.  This file translates the code, one definition per function, over a
    state that holds the memory and the static [freelist_head].  The
    invariant and the theorems are in KmallocInv and KmallocSpec. *)

From S2P Require Import Prelude Mem.
Local Open Scope Z_scope.
Local Open Scope kernel_scope.

Definition NULL : Z := 0.
Definition HEAP_START : Z := 0xffff810000000000.
Definition HEAP_SIZE : Z := 0x200000.
Definition HEAP_END : Z := HEAP_START + HEAP_SIZE.
Definition HEAP_ALIGNMENT : Z := 8.
Definition CHUNK_SIZE_MASK : Z := lnot64 (HEAP_ALIGNMENT - 1).
Definition FLAG_IS_FREE : Z := 0x1.
Definition FLAG_IS_PREV_FREE : Z := 0x2.

(** struct free_node_t { size_t chunk_metadata; prev; next }, its field
    offsets, and the sizes of the three structs. *)
Definition off_prev : Z := 8.
Definition off_next : Z := 16.
Definition sizeof_free_node_t : Z := 24.
Definition sizeof_free_footer_t : Z := 8.
Definition sizeof_alloc_hdr_t : Z := 8.

(** The static data of kmalloc.c, with the memory it works in. *)
Record heap := Heap { h_mem : mem; freelist_head : Z }.

#[export] Instance heap_has_mem : Has mem heap :=
  {| prj := h_mem; upd := λ m s, Heap m (freelist_head s) |}.
#[export] Instance heap_has_mem_laws : HasLaws mem heap.
Proof. split; [done|by intros []|done]. Qed.

Definition set_freelist_head (p : Z) : M heap unit := modify (λ s, Heap (h_mem s) p).

(** ALIGN_UP of flurry/common.h at 64 bits. *)
Definition ALIGN_UP (x align : Z) : Z := Z.land (x +64 (align - 1)) (lnot64 (align - 1)).

Definition align_sz (sz : Z) : Z := ALIGN_UP sz HEAP_ALIGNMENT.

Definition FREE_CHUNK_MIN_SZ : Z := align_sz (sizeof_free_node_t + sizeof_free_footer_t).

Definition get_sz (chunk : Z) : M heap Z :=
  metadata ← rd64 chunk; mret (Z.land metadata CHUNK_SIZE_MASK).

Definition set_sz (chunk sz : Z) : M heap unit :=
  md ← rd64 chunk; wr64 chunk (Z.land md (lnot64 CHUNK_SIZE_MASK));;
  md ← rd64 chunk; wr64 chunk (Z.lor md (Z.land sz CHUNK_SIZE_MASK)).

Definition get_flag (chunk flag : Z) : M heap bool :=
  md ← rd64 chunk; mret (negb (Z.land md flag =? 0)).

Definition set_flag (chunk flag : Z) : M heap unit :=
  md ← rd64 chunk; wr64 chunk (Z.lor md flag).

Definition unset_flag (chunk flag : Z) : M heap unit :=
  md ← rd64 chunk; wr64 chunk (Z.land md (lnot64 flag)).

Definition is_in_heap_bounds (addr : Z) : bool := (HEAP_START <=? addr) && (addr <? HEAP_END).

Definition freelist_add_node (node : Z) : M heap unit :=
  head ← gets freelist_head;
  if head =? NULL then
    set_freelist_head node;;
    wr64 (node + off_prev) NULL;;
    wr64 (node + off_next) NULL
  else
    wr64 (node + off_prev) NULL;;
    wr64 (node + off_next) head;;
    wr64 (head + off_prev) node;;
    set_freelist_head node.

Definition freelist_remove_node (node : Z) : M heap unit :=
  kassert (negb (node =? NULL)) "???";;
  prev ← rd64 (node + off_prev);
  (if negb (prev =? NULL) then
     prev ← rd64 (node + off_prev);
     next ← rd64 (node + off_next);
     wr64 (prev + off_next) next
   else mret tt);;
  next ← rd64 (node + off_next);
  (if negb (next =? NULL) then
     next ← rd64 (node + off_next);
     prev ← rd64 (node + off_prev);
     wr64 (next + off_prev) prev
   else mret tt);;
  head ← gets freelist_head;
  if node =? head then
    next ← rd64 (head + off_next);
    set_freelist_head next
  else mret tt.

(** The search loop of [kmalloc]: the first free chunk of the list with a
    size equal to [alloc_sz] or at least [alloc_sz + FREE_CHUNK_MIN_SZ];
    returns the values of [free] and [free_sz] after the loop. *)
Fixpoint kmalloc_search (fuel : nat) (alloc_sz free free_sz : Z) : M heap (Z * Z) :=
  if free =? NULL then mret (free, free_sz) else
  match fuel with
  | O => nofuel
  | S fuel' =>
      free_sz ← get_sz free;
      if (free_sz =? alloc_sz) || (alloc_sz +64 FREE_CHUNK_MIN_SZ <=? free_sz)
      then mret (free, free_sz)
      else next ← rd64 (free + off_next); kmalloc_search fuel' alloc_sz next free_sz
  end.

(** There are at most HEAP_SIZE / FREE_CHUNK_MIN_SZ = 65536 chunks. *)
Definition SEARCH_FUEL : nat := Z.to_nat 65537.
Lemma SEARCH_FUEL_val : Z.of_nat SEARCH_FUEL = 65537.
Proof. apply Z2Nat.id. lia. Qed.
#[global] Opaque SEARCH_FUEL.

(** The size of the chunk that serves a request of [sz] bytes. *)
Definition kmalloc_alloc_sz (sz : Z) : Z :=
  let alloc_sz := align_sz (sz +64 sizeof_alloc_hdr_t) in
  if alloc_sz <? FREE_CHUNK_MIN_SZ then FREE_CHUNK_MIN_SZ else alloc_sz.

(** What [kmalloc] does to the chunk it has found and taken off the list: it
    is used whole, or cut in two and the rest goes back on the list. *)
Definition kmalloc_carve (free free_sz alloc_sz : Z) : M heap unit :=
  if free_sz =? alloc_sz then
    let next_addr := free +64 free_sz in
    if is_in_heap_bounds next_addr then unset_flag next_addr FLAG_IS_PREV_FREE
    else mret tt
  else
    let remain := free +64 alloc_sz in
    set_sz remain (free_sz -64 alloc_sz);;
    set_flag remain FLAG_IS_FREE;;
    unset_flag remain FLAG_IS_PREV_FREE;;
    freelist_add_node remain;;
    rsz ← get_sz remain;
    let remain_end_addr := remain +64 rsz in
    let remain_footer := remain_end_addr -64 sizeof_free_footer_t in
    rsz ← get_sz remain;
    wr64 remain_footer rsz.

Definition kmalloc (sz : Z) : M heap Z :=
  let alloc_sz := kmalloc_alloc_sz sz in
  head ← gets freelist_head;
  '(free, free_sz) ← kmalloc_search SEARCH_FUEL alloc_sz head 0;
  if free =? NULL then kpanic "Kheap out of memory" else
  freelist_remove_node free;;
  kmalloc_carve free free_sz alloc_sz;;
  set_sz free alloc_sz;;
  unset_flag free FLAG_IS_FREE;;
  mret (free +64 sizeof_alloc_hdr_t).

(** The four branches of [kfree], on whether the neighbours are free. *)
Definition kfree_alone (to_free next : Z) : M heap unit :=
  sz ← get_sz to_free;
  let new_footer := (to_free +64 sz) -64 sizeof_free_footer_t in
  sz ← get_sz to_free;
  wr64 new_footer sz;;
  set_flag to_free FLAG_IS_FREE;;
  freelist_add_node to_free;;
  (if is_in_heap_bounds next then set_flag next FLAG_IS_PREV_FREE else mret tt).

Definition kfree_prev (to_free next : Z) : M heap unit :=
  let prev_footer := to_free -64 sizeof_free_footer_t in
  psz ← rd64 prev_footer;
  let prev := to_free -64 psz in
  prev_sz ← get_sz prev;
  sz ← get_sz to_free;
  let new_sz := prev_sz +64 sz in
  set_sz prev new_sz;;
  let new_footer := (prev +64 new_sz) -64 sizeof_free_footer_t in
  wr64 new_footer new_sz;;
  (if is_in_heap_bounds next then set_flag next FLAG_IS_PREV_FREE else mret tt).

Definition kfree_next (to_free next : Z) : M heap unit :=
  sz ← get_sz to_free;
  next_sz ← get_sz next;
  let new_sz := sz +64 next_sz in
  set_sz to_free new_sz;;
  let new_footer := (to_free +64 new_sz) -64 sizeof_free_footer_t in
  wr64 new_footer new_sz;;
  freelist_remove_node next;;
  set_flag to_free FLAG_IS_FREE;;
  freelist_add_node to_free.

Definition kfree_both (to_free next : Z) : M heap unit :=
  let prev_footer := to_free -64 sizeof_free_footer_t in
  psz ← rd64 prev_footer;
  let prev := to_free -64 psz in
  prev_sz ← get_sz prev;
  sz ← get_sz to_free;
  next_sz ← get_sz next;
  let new_sz := (prev_sz +64 sz) +64 next_sz in
  set_sz prev new_sz;;
  let new_footer := (prev +64 new_sz) -64 sizeof_free_footer_t in
  wr64 new_footer new_sz;;
  freelist_remove_node next.

Definition kfree (ptr : Z) : M heap unit :=
  kassert (is_in_heap_bounds ptr) "kmalloc: free address out of heap bounds";;
  let to_free := ptr -64 sizeof_alloc_hdr_t in
  dbl ← get_flag to_free FLAG_IS_FREE;
  kassert (negb dbl) "kmalloc: double free";;
  tsz ← get_sz to_free;
  let next := to_free +64 tsz in
  coalesce_with_prev ← get_flag to_free FLAG_IS_PREV_FREE;
  coalesce_with_next ← (if is_in_heap_bounds next then get_flag next FLAG_IS_FREE
                        else mret false);
  if negb coalesce_with_prev && negb coalesce_with_next then kfree_alone to_free next
  else if coalesce_with_prev && negb coalesce_with_next then kfree_prev to_free next
  else if negb coalesce_with_prev && coalesce_with_next then kfree_next to_free next
  else kfree_both to_free next.

(** The part of [kmalloc_init] after the mapping loop: one free chunk. *)
Definition kmalloc_init_freelist : M heap unit :=
  let head := HEAP_START in
  set_sz head (align_sz HEAP_SIZE);;
  set_flag head FLAG_IS_FREE;;
  unset_flag head FLAG_IS_PREV_FREE;;
  freelist_add_node head.

(** ** Runs on a concrete heap *)

(** A mapped heap with nothing in it, and nothing mapped elsewhere. *)
Definition heap0 : heap :=
  Heap (λ a, if is_in_heap_bounds a then Some 0 else None) NULL.

Example run_alloc_free :
  match (kmalloc_init_freelist;; p ← kmalloc 100; q ← kmalloc 1; kfree p;; kfree q;;
         r ← kmalloc 24; mret [p; q; r]) heap0 with
  | Ok (l, _) => l = [HEAP_START + 8; HEAP_START + 120; HEAP_START + 8]
  | _ => False
  end.
Proof. vm_compute. reflexivity. Qed.
