(* ===== verification/KmallocInv.v ===== *)
(** * The heap invariant

    An abstract heap is the list of the chunks of the heap in address order,
    each a size and a free flag, with the addresses on the free list in list
    order.  [heap_inv] relates it to the words in memory.  The lemmas give
    the effect of the accessors, of the list operations and of a write on
    the invariant. *)

From S2P Require Import Prelude Mem Kmalloc.
Local Open Scope Z_scope.
Local Open Scope kernel_scope.

(** ** Metadata words *)

(** [w] encodes size [sz], bit 0 = free, bit 1 = previous chunk free. *)
Definition md_word (w sz : Z) (fr pf : bool) : Prop :=
  ∃ f, w = sz + f ∧ 0 ≤ f < 8 ∧ Z.testbit f 0 = fr ∧ Z.testbit f 1 = pf.

Definition size_word (sz : Z) : Prop := 0 ≤ sz < 2 ^ 64 ∧ sz mod 8 = 0.

Definition hdr (m : mem) (a sz : Z) (fr pf : bool) : Prop :=
  size_word sz ∧ ∃ w, load 8 m a = Some w ∧ md_word w sz fr pf.

(** [m'] is [m] with only the words at the addresses [ws] written. *)
Definition chg (m m' : mem) (ws : list Z) : Prop :=
  same_dom m m' ∧ ∀ x, Forall (λ w, ¬ (w ≤ x < w + 8)) ws → m' x = m x.

(** ** Chunk lists *)

Abbreviation chunks := (list (Z * bool)).

Record place := Place { pa : Z; psz : Z; pfr : bool; ppf : bool; pnext : bool }.

Definition nonempty {A} (l : list A) : bool := match l with [] => false | _ => true end.

(** The chunks with their addresses; [nx]: something follows the list;
    [pf]: the chunk before the list is free. *)
Fixpoint places (nx pf : bool) (a : Z) (cs : chunks) : list place :=
  match cs with
  | [] => []
  | (sz, fr) :: cs' => Place a sz fr pf (nx || nonempty cs') :: places nx fr (a + sz) cs'
  end.

Fixpoint total (cs : chunks) : Z :=
  match cs with [] => 0 | (sz, _) :: cs' => sz + total cs' end.

Fixpoint last_free (pf : bool) (cs : chunks) : bool :=
  match cs with [] => pf | (_, fr) :: cs' => last_free fr cs' end.

Definition starts_free (cs : chunks) : bool :=
  match cs with (_, fr) :: _ => fr | [] => false end.

(** Sizes are multiples of 8, large enough for the free-chunk structs, and
    no two free chunks are adjacent. *)
Fixpoint layout (pf : bool) (cs : chunks) : Prop :=
  match cs with
  | [] => True
  | (sz, fr) :: cs' => 32 ≤ sz ∧ sz mod 8 = 0 ∧ (pf && fr) = false ∧ layout fr cs'
  end.

Fixpoint free_addrs (a : Z) (cs : chunks) : list Z :=
  match cs with
  | [] => []
  | (sz, fr) :: cs' => (if fr then [a] else []) ++ free_addrs (a + sz) cs'
  end.

Definition place_ok (m : mem) (p : place) : Prop :=
  hdr m (pa p) (psz p) (pfr p) (ppf p) ∧
  (pfr p = true → pnext p = true → load 8 m (pa p + psz p - 8) = Some (psz p)).

(** A doubly linked list segment: the nodes [fl] from [cur], with the
    predecessor [prev] before the first node and [nxt] after the last. *)
Fixpoint dseg (m : mem) (prev cur : Z) (fl : list Z) (nxt : Z) : Prop :=
  match fl with
  | [] => cur = nxt
  | x :: fl' => cur = x ∧ load 8 m (x + off_prev) = Some prev ∧
      ∃ nx, load 8 m (x + off_next) = Some nx ∧ dseg m x nx fl' nxt
  end.

Definition dll (m : mem) (prev cur : Z) (fl : list Z) : Prop := dseg m prev cur fl NULL.

Record aheap := AHeap { a_chunks : chunks; a_free : list Z }.

Definition heap_mapped (m : mem) : Prop := ∀ x, HEAP_START ≤ x < HEAP_END → is_Some (m x).

Record heap_inv (h : aheap) (s : heap) : Prop := {
  inv_layout : layout false (a_chunks h);
  inv_total : total (a_chunks h) = HEAP_SIZE;
  inv_places : Forall (place_ok (h_mem s)) (places false false HEAP_START (a_chunks h));
  inv_dll : dll (h_mem s) NULL (freelist_head s) (a_free h);
  inv_free : a_free h ≡ₚ free_addrs HEAP_START (a_chunks h);
  inv_mapped : heap_mapped (h_mem s)
}.

(** ** Metadata lemmas *)

Lemma mask_val : CHUNK_SIZE_MASK = 2 ^ 64 - 2 ^ 3.
Proof. reflexivity. Qed.
Lemma not_mask_val : lnot64 CHUNK_SIZE_MASK = 2 ^ 3 - 1.
Proof. reflexivity. Qed.

Lemma size_word_le sz : size_word sz → 0 ≤ sz ≤ 2 ^ 64 - 8.
Proof. intros [? ?]. dlia. Qed.

Lemma md_word_any w : 0 ≤ w < 2 ^ 64 →
  ∃ sz fr pf, size_word sz ∧ md_word w sz fr pf.
Proof.
  intros Hw. exists (w - w mod 8), (Z.testbit (w mod 8) 0), (Z.testbit (w mod 8) 1).
  split; [split; dlia|]. exists (w mod 8). repeat split; dlia.
Qed.

Lemma md_word_range w sz fr pf : size_word sz → md_word w sz fr pf → 0 ≤ w < 2 ^ 64.
Proof. intros Hsz%size_word_le (f & -> & ? & _). lia. Qed.

Lemma md_get_sz w sz fr pf :
  size_word sz → md_word w sz fr pf → Z.land w CHUNK_SIZE_MASK = sz.
Proof.
  intros Hsz Hw. pose proof (md_word_range _ _ _ _ Hsz Hw).
  rewrite mask_val, land_high_mask by lia.
  destruct Hsz, Hw as (f & -> & ? & _). dlia.
Qed.

Lemma lor_add8 sz f : size_word sz → 0 ≤ f < 8 → Z.lor sz f = sz + f.
Proof. intros [_ Hsz] Hf. by apply (lor_add_disjoint 3). Qed.

(** A flag operation acts on the low three bits only. *)
Lemma md_low_land sz f k :
  size_word sz → 0 ≤ f < 8 → 0 ≤ k < 8 → Z.land (sz + f) k = Z.land f k.
Proof.
  intros Hsz Hf Hk. rewrite <-lor_add8, Z.land_lor_distr_l by done.
  assert (Z.land sz k = 0) as ->; [|by rewrite Z.lor_0_l].
  apply Z.bits_inj'. intros i Hi. rewrite Z.land_spec, Z.bits_0.
  destruct (decide (i < 3)).
  - rewrite <-(Z.mod_pow2_bits_low sz 3 i) by lia.
    destruct Hsz as [_ Hsz]. change (2 ^ 3) with 8. by rewrite Hsz, Z.bits_0.
  - rewrite (testbit_small 3 k i) by lia. apply andb_false_r.
Qed.

Lemma md_low_lor sz f k :
  size_word sz → 0 ≤ f < 8 → 0 ≤ k < 8 → Z.lor (sz + f) k = sz + Z.lor f k.
Proof.
  intros Hsz Hf Hk. rewrite <-!lor_add8 by (done || by apply (lor_range 3)).
  by rewrite Z.lor_assoc.
Qed.

Lemma md_low_clear sz f k :
  size_word sz → 0 ≤ f < 8 → 0 ≤ k < 8 →
  Z.land (sz + f) (lnot64 k) = sz + Z.land f (Z.lnot k).
Proof.
  intros Hsz Hf Hk. pose proof (size_word_le _ Hsz).
  assert (Z.land (sz + f) (lnot64 k) = Z.land (sz + f) (Z.lnot k)) as ->.
  { unfold lnot64, wrap. apply Z.bits_inj'. intros i Hi.
    rewrite !Z.land_spec, Z.testbit_mod_pow2 by lia.
    destruct (Z.ltb_spec i 64); [done|].
    by rewrite (testbit_small 64 (sz + f)) by lia. }
  rewrite <-!lor_add8 by (done || by apply (land_range 3)).
  rewrite Z.land_lor_distr_l. f_equal.
  apply Z.bits_inj'. intros i Hi. rewrite Z.land_spec, Z.lnot_spec by lia.
  destruct (decide (i < 3)).
  - rewrite <-(Z.mod_pow2_bits_low sz 3 i) by lia.
    destruct Hsz as [_ Hsz]. change (2 ^ 3) with 8. by rewrite Hsz, Z.bits_0.
  - rewrite (testbit_small 3 k i) by lia. apply andb_true_r.
Qed.

(** Case analysis on the three low bits. *)
Ltac low_bits f :=
  let H := fresh in
  assert (f = 0 ∨ f = 1 ∨ f = 2 ∨ f = 3 ∨ f = 4 ∨ f = 5 ∨ f = 6 ∨ f = 7) as H by lia;
  repeat (destruct H as [->|H]); [..|subst f].

Lemma md_get_free w sz fr pf :
  size_word sz → md_word w sz fr pf → negb (Z.land w FLAG_IS_FREE =? 0) = fr.
Proof.
  intros Hsz (f & -> & Hf & <- & _). unfold FLAG_IS_FREE. rewrite md_low_land by (done || lia).
  low_bits f; reflexivity.
Qed.

Lemma md_get_prev w sz fr pf :
  size_word sz → md_word w sz fr pf → negb (Z.land w FLAG_IS_PREV_FREE =? 0) = pf.
Proof.
  intros Hsz (f & -> & Hf & _ & <-). unfold FLAG_IS_PREV_FREE.
  rewrite md_low_land by (done || lia). low_bits f; reflexivity.
Qed.

Lemma md_set_sz w sz fr pf sz' :
  size_word sz → md_word w sz fr pf → size_word sz' →
  md_word (Z.lor (Z.land w (lnot64 CHUNK_SIZE_MASK)) (Z.land sz' CHUNK_SIZE_MASK)) sz' fr pf.
Proof.
  intros Hsz (f & -> & Hf & Hfr & Hpf) Hsz'. exists f. repeat split; try done; try lia.
  rewrite not_mask_val, land_ones_mod by lia.
  rewrite mask_val, land_high_mask by (destruct Hsz'; lia).
  replace (sz' - sz' mod 2 ^ 3) with sz' by (destruct Hsz'; change (2 ^ 3) with 8; lia).
  rewrite Z.lor_comm, lor_add8; [|done|apply Z.mod_pos_bound; lia].
  destruct Hsz. change (2 ^ 3) with 8. dlia.
Qed.

Lemma md_set_free w sz fr pf :
  size_word sz → md_word w sz fr pf → md_word (Z.lor w FLAG_IS_FREE) sz true pf.
Proof.
  intros Hsz (f & -> & Hf & _ & <-). exists (Z.lor f FLAG_IS_FREE).
  unfold FLAG_IS_FREE. rewrite md_low_lor by (done || lia). low_bits f; done.
Qed.

Lemma md_set_prev w sz fr pf :
  size_word sz → md_word w sz fr pf → md_word (Z.lor w FLAG_IS_PREV_FREE) sz fr true.
Proof.
  intros Hsz (f & -> & Hf & <- & _). exists (Z.lor f FLAG_IS_PREV_FREE).
  unfold FLAG_IS_PREV_FREE. rewrite md_low_lor by (done || lia). low_bits f; done.
Qed.

Lemma md_unset_free w sz fr pf :
  size_word sz → md_word w sz fr pf → md_word (Z.land w (lnot64 FLAG_IS_FREE)) sz false pf.
Proof.
  intros Hsz (f & -> & Hf & _ & <-). exists (Z.land f (Z.lnot FLAG_IS_FREE)).
  unfold FLAG_IS_FREE. rewrite md_low_clear by (done || lia). low_bits f; done.
Qed.

Lemma md_unset_prev w sz fr pf :
  size_word sz → md_word w sz fr pf → md_word (Z.land w (lnot64 FLAG_IS_PREV_FREE)) sz fr false.
Proof.
  intros Hsz (f & -> & Hf & <- & _). exists (Z.land f (Z.lnot FLAG_IS_PREV_FREE)).
  unfold FLAG_IS_PREV_FREE. rewrite md_low_clear by (done || lia). low_bits f; done.
Qed.

(** ** Changed words *)

Lemma chg_refl m : chg m m [].
Proof. by split. Qed.

Lemma chg_trans m1 m2 m3 l1 l2 : chg m1 m2 l1 → chg m2 m3 l2 → chg m1 m3 (l1 ++ l2).
Proof.
  intros [D1 H1] [D2 H2]. split; [by etrans|].
  intros x [Hx1 Hx2]%Forall_app. rewrite H2 by done. by apply H1.
Qed.

Lemma chg_store m a v : mapped 8 m a = true → chg m (store 8 m a v) [a].
Proof.
  intros Ha. split; [by apply store_same_dom|].
  intros x [Hx _]%Forall_cons. by apply store_other.
Qed.

Lemma chg_load m m' ws b :
  chg m m' ws → Forall (λ w, b + 8 ≤ w ∨ w + 8 ≤ b) ws → load 8 m' b = load 8 m b.
Proof.
  intros [_ H] Hws. apply load_ext. intros x Hx. apply H.
  eapply Forall_impl; [done|]. simpl. lia.
Qed.

Lemma chg_agree m m' ws lo hi :
  chg m m' ws → Forall (λ w, hi ≤ w ∨ w + 8 ≤ lo) ws → agree m m' lo hi.
Proof.
  intros [_ H] Hws x Hx. apply H. eapply Forall_impl; [done|]. simpl. lia.
Qed.

Lemma chg_hdr m m' ws b sz fr pf :
  chg m m' ws → Forall (λ w, b + 8 ≤ w ∨ w + 8 ≤ b) ws → hdr m b sz fr pf → hdr m' b sz fr pf.
Proof. intros Hc Hws [Hsz H]. split; [done|]. by rewrite (chg_load _ _ _ _ Hc Hws). Qed.

Lemma chg_heap_mapped m m' ws : chg m m' ws → heap_mapped m → heap_mapped m'.
Proof. intros [Hd _] Hm x Hx. apply Hd. by apply Hm. Qed.

Lemma heap_mapped_word m a :
  heap_mapped m → HEAP_START ≤ a → a + 8 ≤ HEAP_END → mapped 8 m a = true.
Proof. intros Hm ??. apply mapped_spec. intros x Hx. apply Hm. lia. Qed.

Lemma heap_mapped_hdr m a :
  heap_mapped m → HEAP_START ≤ a → a + 8 ≤ HEAP_END → ∃ sz fr pf, hdr m a sz fr pf.
Proof.
  intros Hm Hlo Hhi. pose proof (heap_mapped_word m a Hm Hlo Hhi) as Ha.
  apply load_is_Some in Ha as [w Hw].
  destruct (md_word_any w (load64_range _ _ _ Hw)) as (sz & fr & pf & Hsz & Hmd).
  exists sz, fr, pf. split; [done|]. by exists w.
Qed.

Lemma hdr_mapped m a sz fr pf : hdr m a sz fr pf → mapped 8 m a = true.
Proof. intros [_ (w & Hw & _)]. apply load_is_Some. eauto. Qed.

(** ** The accessors *)

Section accessors.
Implicit Types (m : mem) (h a : Z).

(** Writing the word at [a] so that its metadata becomes [sz fr pf]. *)
Lemma hdr_store m a w sz fr pf :
  size_word sz → md_word w sz fr pf → hdr (store 8 m a w) a sz fr pf.
Proof.
  intros Hsz Hw. split; [done|]. exists w. split; [|done].
  apply load64_store64_eq. by eapply md_word_range.
Qed.

Lemma wp_get_sz m h a sz fr pf Q :
  hdr m a sz fr pf → Q sz (Heap m h) → wp (get_sz a) Q (Heap m h).
Proof.
  intros [Hsz (w & Hw & Hmd)] HQ. apply wp_bind, (wp_rd _ _ w); [done|].
  apply wp_ret. by erewrite md_get_sz.
Qed.

Lemma wp_get_free m h a sz fr pf Q :
  hdr m a sz fr pf → Q fr (Heap m h) → wp (get_flag a FLAG_IS_FREE) Q (Heap m h).
Proof.
  intros [Hsz (w & Hw & Hmd)] HQ. apply wp_bind, (wp_rd _ _ w); [done|].
  apply wp_ret. by erewrite md_get_free.
Qed.

Lemma wp_get_prev m h a sz fr pf Q :
  hdr m a sz fr pf → Q pf (Heap m h) → wp (get_flag a FLAG_IS_PREV_FREE) Q (Heap m h).
Proof.
  intros [Hsz (w & Hw & Hmd)] HQ. apply wp_bind, (wp_rd _ _ w); [done|].
  apply wp_ret. by erewrite md_get_prev.
Qed.

Lemma wp_read m h a v (Q : Z → heap → Prop) :
  load 8 m a = Some v → Q v (Heap m h) → wp (rd64 a) Q (Heap m h).
Proof. intros Ha. by apply wp_rd. Qed.

Lemma wp_write m h a v (Q : unit → heap → Prop) :
  mapped 8 m a = true → (∀ m', m' = store 8 m a v → chg m m' [a] → Q tt (Heap m' h)) →
  wp (wr64 a v) Q (Heap m h).
Proof. intros Ha HQ. apply wp_wr; [done|]. apply HQ; [done|]. by apply chg_store. Qed.

Lemma wp_set_sz m h a sz fr pf sz' (Q : unit → heap → Prop) :
  hdr m a sz fr pf → size_word sz' →
  (∀ m', chg m m' [a] → hdr m' a sz' fr pf → Q tt (Heap m' h)) →
  wp (set_sz a sz') Q (Heap m h).
Proof.
  intros Hh Hsz' HQ. pose proof (hdr_mapped _ _ _ _ _ Hh) as Ha.
  destruct Hh as [Hsz (w & Hw & Hmd)].
  apply wp_bind, (wp_rd _ _ w); [done|]. apply wp_bind, wp_write; [done|].
  intros m1 Hm1 C1. set (w1 := Z.land w (lnot64 CHUNK_SIZE_MASK)) in *.
  assert (0 ≤ w1 < 2 ^ 64) as Hr1 by (apply land_range; [lia|by eapply load64_range]).
  apply wp_bind, (wp_rd _ _ w1); [simpl; subst m1; by apply load64_store64_eq|].
  apply wp_write; [subst m1; by rewrite mapped_store|].
  intros m2 -> C2. apply HQ.
  - subst m1. split; [by etrans; [apply C1|apply C2]|].
    intros x Hx. destruct C1 as [_ C1], C2 as [_ C2]. by rewrite C2, C1.
  - apply hdr_store; [done|]. by apply (md_set_sz w sz).
Qed.

(** A read-modify-write of the metadata. *)
Lemma wp_rmw m h a sz fr pf fr' pf' g (Q : unit → heap → Prop) :
  (∀ w, size_word sz → md_word w sz fr pf → md_word (g w) sz fr' pf') →
  hdr m a sz fr pf →
  (∀ m', chg m m' [a] → hdr m' a sz fr' pf' → Q tt (Heap m' h)) →
  wp (md ← rd64 a; wr64 a (g md)) Q (Heap m h).
Proof.
  intros Hg Hh HQ. pose proof (hdr_mapped _ _ _ _ _ Hh) as Ha.
  destruct Hh as [Hsz (w & Hw & Hmd)].
  apply wp_bind, (wp_rd _ _ w); [done|]. apply wp_write; [done|].
  intros m1 -> C1. apply HQ; [done|]. apply hdr_store; auto.
Qed.

Lemma wp_set_free m h a sz fr pf (Q : unit → heap → Prop) :
  hdr m a sz fr pf → (∀ m', chg m m' [a] → hdr m' a sz true pf → Q tt (Heap m' h)) →
  wp (set_flag a FLAG_IS_FREE) Q (Heap m h).
Proof. apply wp_rmw. intros w. apply md_set_free. Qed.

Lemma wp_set_prev m h a sz fr pf (Q : unit → heap → Prop) :
  hdr m a sz fr pf → (∀ m', chg m m' [a] → hdr m' a sz fr true → Q tt (Heap m' h)) →
  wp (set_flag a FLAG_IS_PREV_FREE) Q (Heap m h).
Proof. apply wp_rmw. intros w. apply md_set_prev. Qed.

Lemma wp_unset_free m h a sz fr pf (Q : unit → heap → Prop) :
  hdr m a sz fr pf → (∀ m', chg m m' [a] → hdr m' a sz false pf → Q tt (Heap m' h)) →
  wp (unset_flag a FLAG_IS_FREE) Q (Heap m h).
Proof. apply wp_rmw. intros w. apply md_unset_free. Qed.

Lemma wp_unset_prev m h a sz fr pf (Q : unit → heap → Prop) :
  hdr m a sz fr pf → (∀ m', chg m m' [a] → hdr m' a sz fr false → Q tt (Heap m' h)) →
  wp (unset_flag a FLAG_IS_PREV_FREE) Q (Heap m h).
Proof. apply wp_rmw. intros w. apply md_unset_prev. Qed.
End accessors.

(** ** The free list *)

(** [w] is the [prev] or [next] field of a node of [fl]. *)
Definition is_link (fl : list Z) (w : Z) : Prop :=
  ∃ y, y ∈ fl ∧ (w = y + off_prev ∨ w = y + off_next).

(** A node's links lie in the heap and the nodes do not overlap. *)
Record nodes_ok (fl : list Z) : Prop := {
  nodes_in : ∀ y, y ∈ fl → HEAP_START ≤ y ∧ y + 24 ≤ HEAP_END;
  nodes_sep : ∀ y z, y ∈ fl → z ∈ fl → y = z ∨ y + 24 ≤ z ∨ z + 24 ≤ y;
  nodes_nodup : NoDup fl
}.

Lemma dseg_frame m m' ws prev cur fl nxt :
  dseg m prev cur fl nxt → chg m m' ws →
  (∀ y w, y ∈ fl → w ∈ ws → w ≤ y ∨ y + 24 ≤ w) → dseg m' prev cur fl nxt.
Proof.
  intros Hd Hc. revert prev cur Hd.
  induction fl as [|x fl IH]; intros prev cur Hd Hws; simpl in *; [done|].
  destruct Hd as (-> & Hp & nx & Hn & Hd). unfold off_prev, off_next in *.
  assert (Forall (λ w, w ≤ x ∨ x + 24 ≤ w) ws).
  { apply Forall_forall. intros w ?. apply Hws; [apply list_elem_of_here|done]. }
  split; [done|]. split.
  { rewrite (chg_load _ _ _ _ Hc); [done|]. eapply Forall_impl; [done|]. simpl; lia. }
  exists nx. split.
  { rewrite (chg_load _ _ _ _ Hc); [done|]. eapply Forall_impl; [done|]. simpl; lia. }
  apply IH; [done|]. intros y w ??. apply Hws; [by apply list_elem_of_further|done].
Qed.

Lemma dseg_head m prev cur fl nxt : dseg m prev cur fl nxt → cur = default nxt (head fl).
Proof. destruct fl; simpl; [done|]. by intros (-> & _). Qed.

Lemma dseg_app m prev cur l1 l2 nxt :
  dseg m prev cur (l1 ++ l2) nxt ↔
  ∃ mid, dseg m prev cur l1 mid ∧ dseg m (default prev (last l1)) mid l2 nxt.
Proof.
  revert prev cur. induction l1 as [|y l1 IH]; intros prev cur; simpl.
  { split; [eauto|]. by intros (? & -> & ?). }
  setoid_rewrite IH. rewrite last_cons. split.
  - intros (-> & Hp & nx & Hn & mid & H1 & H2). exists mid. split.
    + split; [done|]. split; [done|]. eauto.
    + by destruct (last l1).
  - intros (mid & (-> & Hp & nx & Hn & H1) & H2). split; [done|]. split; [done|].
    exists nx. split; [done|]. exists mid. split; [done|]. by destruct (last l1).
Qed.

Lemma sep_app_disjoint l1 x l2 :
  nodes_ok (l1 ++ x :: l2) → ∀ y, y ∈ l1 ++ l2 → y + 24 ≤ x ∨ x + 24 ≤ y.
Proof.
  intros Hok y Hy. pose proof (nodes_nodup _ Hok) as Hnd.
  rewrite <-Permutation_middle in Hnd. apply NoDup_cons in Hnd as [Hx _].
  destruct (nodes_sep _ Hok y x) as [->|]; [set_solver|set_solver|done|lia].
Qed.

(** Redirecting the [next] field of the last node of a segment. *)
Lemma dseg_set_next m prev cur l y nxt nxt' :
  nodes_ok (l ++ [y]) → in_range 64 nxt' → dseg m prev cur (l ++ [y]) nxt →
  mapped 8 m (y + off_next) = true →
  dseg (store 8 m (y + off_next) nxt') prev cur (l ++ [y]) nxt'.
Proof.
  intros Hok Hr Hd Hm. pose proof (sep_app_disjoint _ _ _ Hok) as Hsep.
  rewrite app_nil_r in Hsep. apply dseg_app in Hd as (mid & H1 & H2).
  apply dseg_app. exists mid. unfold off_next, off_prev in *. split.
  - eapply dseg_frame; [done|by apply chg_store|].
    intros z w Hz ->%list_elem_of_singleton. specialize (Hsep z Hz). lia.
  - simpl in *. unfold off_next, off_prev in *.
    destruct H2 as (-> & Hp & _). split; [done|]. split.
    + by rewrite load64_store64_ne by lia.
    + exists nxt'. by rewrite load64_store64_eq.
Qed.

(** Redirecting the [prev] field of the first node of a list. *)
Lemma dseg_set_prev m prev cur x l nxt prev' :
  nodes_ok (x :: l) → in_range 64 prev' → dseg m prev cur (x :: l) nxt →
  mapped 8 m (x + off_prev) = true →
  dseg (store 8 m (x + off_prev) prev') prev' cur (x :: l) nxt.
Proof.
  intros Hok Hr Hd Hm. pose proof (sep_app_disjoint [] x l Hok) as Hsep. simpl in *.
  unfold off_next, off_prev in *.
  destruct Hd as (-> & Hp & nx & Hn & Hd). split; [done|]. split.
  { by rewrite load64_store64_eq. }
  exists nx. split; [by rewrite load64_store64_ne by lia|].
  eapply dseg_frame; [done|by apply chg_store|].
  intros z w Hz ->%list_elem_of_singleton. specialize (Hsep z Hz). lia.
Qed.

Lemma nodes_ok_sublist l1 l2 : l1 `sublist_of` l2 → nodes_ok l2 → nodes_ok l1.
Proof.
  intros Hs [H1 H2 H3].
  assert (∀ y, y ∈ l1 → y ∈ l2) by (intros y Hy; by eapply elem_of_sublist).
  split; eauto. by eapply sublist_NoDup.
Qed.

Lemma nodes_ok_mapped fl y m :
  nodes_ok fl → y ∈ fl → heap_mapped m →
  mapped 8 m (y + off_prev) = true ∧ mapped 8 m (y + off_next) = true.
Proof.
  intros Hok Hy Hm. destruct (nodes_in _ Hok y Hy). unfold off_prev, off_next.
  split; apply heap_mapped_word; (done || lia).
Qed.

Lemma nodes_ok_range fl y : nodes_ok fl → y ∈ fl → in_range 64 y ∧ y ≠ NULL.
Proof.
  intros Hok Hy. destruct (nodes_in _ Hok y Hy).
  unfold HEAP_END, HEAP_SIZE, HEAP_START, NULL, in_range in *. lia.
Qed.

Lemma nodes_ok_head_range fl : nodes_ok fl → in_range 64 (default NULL (head fl)).
Proof.
  intros Hok. destruct fl as [|y fl]; [done|]. apply (nodes_ok_range _ y Hok). set_solver.
Qed.

Lemma nodes_ok_last_range fl : nodes_ok fl → in_range 64 (default NULL (last fl)).
Proof.
  intros Hok. destruct (last fl) as [y|] eqn:Hy; [|done].
  apply (nodes_ok_range _ y Hok). apply last_Some in Hy as [l ->]. set_solver.
Qed.

(** First half of the removal of [x]: the predecessor's [next]. *)
Lemma remove_link_prev m h h' l1 x l2 nx (Q : unit → heap → Prop) :
  nodes_ok (l1 ++ x :: l2) → heap_mapped m → in_range 64 nx →
  load 8 m (x + off_prev) = Some (default NULL (last l1)) →
  load 8 m (x + off_next) = Some nx →
  dseg m NULL h l1 x →
  (∀ m' ws, chg m m' ws → Forall (is_link l1) ws →
     dseg m' NULL (if l1 is [] then nx else h) l1 nx → Q tt (Heap m' h')) →
  wp (if negb (default NULL (last l1) =? NULL) then
        prev ← rd64 (x + off_prev); next ← rd64 (x + off_next);
        wr64 (prev + off_next) next
      else mret tt) Q (Heap m h').
Proof.
  intros Hok Hm Hr Hp Hn Hd HQ.
  destruct l1 as [|y l1 _] using rev_ind; simpl in *.
  { apply wp_ret, (HQ m []); [apply chg_refl|done|done]. }
  rewrite last_snoc in *. simpl in *.
  assert (nodes_ok (l1 ++ [y])) as Hok1.
  { eapply nodes_ok_sublist; [|done]. by apply sublist_inserts_r. }
  destruct (nodes_ok_range _ y Hok1) as [_ Hy0]; [set_solver|].
  destruct (nodes_ok_mapped _ y m Hok1) as [_ Hmy]; [set_solver|done|].
  destruct (Z.eqb_spec y NULL); [done|]. simpl.
  apply wp_bind, (wp_rd _ _ y); [done|]. apply wp_bind, (wp_rd _ _ nx); [done|].
  apply wp_write; [done|]. intros m' -> C. apply (HQ _ _ C).
  - apply Forall_singleton. exists y. split; [set_solver|by right].
  - replace (if l1 ++ [y] is [] then nx else h) with h by (by destruct l1).
    by eapply dseg_set_next.
Qed.

(** Second half: the successor's [prev]. *)
Lemma remove_link_next m h l1 x l2 (Q : unit → heap → Prop) :
  nodes_ok (l1 ++ x :: l2) → heap_mapped m →
  load 8 m (x + off_prev) = Some (default NULL (last l1)) →
  load 8 m (x + off_next) = Some (default NULL (head l2)) →
  dseg m x (default NULL (head l2)) l2 NULL →
  (∀ m' ws, chg m m' ws → Forall (is_link l2) ws →
     dseg m' (default NULL (last l1)) (default NULL (head l2)) l2 NULL → Q tt (Heap m' h)) →
  wp (if negb (default NULL (head l2) =? NULL) then
        next ← rd64 (x + off_next); prev ← rd64 (x + off_prev);
        wr64 (next + off_prev) prev
      else mret tt) Q (Heap m h).
Proof.
  intros Hok Hm Hp Hn Hd HQ.
  destruct l2 as [|z l2]; simpl in *.
  { apply wp_ret, (HQ m []); [apply chg_refl|done|done]. }
  assert (nodes_ok (z :: l2)) as Hok2.
  { eapply nodes_ok_sublist; [|done]. by apply sublist_inserts_l, sublist_cons. }
  destruct (nodes_ok_range _ z Hok2) as [_ Hz0]; [set_solver|].
  destruct (nodes_ok_mapped _ z m Hok2) as [Hmz _]; [set_solver|done|].
  destruct (Z.eqb_spec z NULL); [done|]. simpl.
  apply wp_bind, (wp_rd _ _ z); [done|].
  apply wp_bind, (wp_rd _ _ (default NULL (last l1))); [done|].
  apply wp_write; [done|]. intros m' -> C. apply (HQ _ _ C).
  - apply Forall_singleton. exists z. split; [set_solver|by left].
  - eapply dseg_set_prev; [done| |done|done].
    apply nodes_ok_last_range. eapply nodes_ok_sublist; [|exact Hok]. by apply sublist_inserts_r.
Qed.

Lemma is_link_mono l l' w : (∀ y, y ∈ l → y ∈ l') → is_link l w → is_link l' w.
Proof. intros Hl (y & Hy & Hw). exists y. auto. Qed.

(** Links of the nodes [l] do not touch a node outside [l]. *)
Lemma link_sep fl l y w :
  nodes_ok fl → y ∈ fl → (∀ z, z ∈ l → z ∈ fl) → y ∉ l → is_link l w → w ≤ y ∨ y + 24 ≤ w.
Proof.
  intros Hok Hy Hl Hyl (z & Hz & Hw). unfold off_prev, off_next in *.
  destruct (nodes_sep _ Hok y z) as [->|]; [done|by apply Hl|done|lia].
Qed.

Lemma links_sep fl l y ws :
  nodes_ok fl → y ∈ fl → (∀ z, z ∈ l → z ∈ fl) → y ∉ l → Forall (is_link l) ws →
  Forall (λ w, w ≤ y ∨ y + 24 ≤ w) ws.
Proof. intros. eapply Forall_impl; [done|]. intros w ?. by eapply link_sep. Qed.

Lemma chg_node_links m m' ws x :
  chg m m' ws → Forall (λ w, w ≤ x ∨ x + 24 ≤ w) ws →
  load 8 m' (x + off_prev) = load 8 m (x + off_prev) ∧
  load 8 m' (x + off_next) = load 8 m (x + off_next).
Proof.
  intros C Hws. unfold off_prev, off_next.
  split; apply (chg_load _ _ _ _ C); (eapply Forall_impl; [done|]); simpl; lia.
Qed.

Lemma dseg_frame_links fl l l' m m' ws prev cur nxt :
  nodes_ok fl → (∀ z, z ∈ l → z ∈ fl) → (∀ z, z ∈ l' → z ∈ fl) → l ## l' →
  dseg m prev cur l nxt → chg m m' ws → Forall (is_link l') ws → dseg m' prev cur l nxt.
Proof.
  intros Hok Hl Hl' Hdis Hd C Hws. eapply dseg_frame; [done..|].
  intros y w Hy Hw. rewrite Forall_forall in Hws.
  eapply link_sep; [done|by apply Hl|exact Hl'| |by apply Hws].
  intros Hy'. by apply (Hdis y).
Qed.

Lemma nodes_ok_parts l1 x l2 :
  nodes_ok (l1 ++ x :: l2) → nodes_ok l1 ∧ nodes_ok l2 ∧ (x ∉ l1) ∧ (x ∉ l2) ∧ l1 ## l2.
Proof.
  intros Hok. pose proof (nodes_nodup _ Hok) as Hnd.
  apply NoDup_app in Hnd as (_ & H1 & H2). apply NoDup_cons in H2 as [H2 _].
  split_and!; [| |set_solver|done|set_solver];
    (eapply nodes_ok_sublist; [|exact Hok]);
    [by apply sublist_inserts_r|by apply sublist_inserts_l, sublist_cons].
Qed.

Lemma wp_freelist_remove m h l1 x l2 (Q : unit → heap → Prop) :
  nodes_ok (l1 ++ x :: l2) → heap_mapped m → dll m NULL h (l1 ++ x :: l2) →
  (∀ m' h' ws, chg m m' ws → Forall (is_link (l1 ++ l2)) ws → dll m' NULL h' (l1 ++ l2) →
     Q tt (Heap m' h')) →
  wp (freelist_remove_node x) Q (Heap m h).
Proof.
  intros Hok Hm Hd HQ. unfold dll in *.
  destruct (nodes_ok_range _ x Hok) as [_ Hx0]; [set_solver +|].
  destruct (nodes_ok_parts _ _ _ Hok) as (Hok1 & Hok2 & Hx1 & Hx2 & Hdis).
  apply dseg_app in Hd as (mid & H1 & -> & Hp & nx & Hn & H2).
  pose proof (dseg_head _ _ _ _ _ H2) as ->.
  unfold freelist_remove_node. wp_step. wp_step; [by destruct (Z.eqb_spec x NULL)|].
  apply wp_bind, (wp_read _ _ _ _ _ Hp), wp_bind.
  apply (remove_link_prev m h h l1 x l2 (default NULL (head l2)));
    [done|done|by apply nodes_ok_head_range|done|done|done|].
  intros m1 ws1 C1 L1 H1'.
  destruct (chg_node_links _ _ _ x C1) as [Ep1 En1].
  { apply (links_sep (l1 ++ x :: l2) l1); [done|set_solver +|set_solver +|done|done]. }
  apply wp_bind, (wp_read _ _ _ (default NULL (head l2))); [by rewrite En1|]. apply wp_bind.
  apply (remove_link_next m1 h l1 x l2);
    [done|by eapply chg_heap_mapped|by rewrite Ep1|by rewrite En1| |].
  { eapply (dseg_frame_links _ l2 l1); [exact Hok|set_solver +|set_solver +|set_solver + Hdis|done..]. }
  intros m2 ws2 C2 L2 H2'.
  destruct (chg_node_links _ _ _ x C2) as [Ep2 En2].
  { apply (links_sep (l1 ++ x :: l2) l2); [done|set_solver +|set_solver +|done|done]. }
  assert (dseg m2 NULL (if l1 is [] then default NULL (head l2) else h) (l1 ++ l2) NULL) as Hall.
  { apply dseg_app. exists (default NULL (head l2)). split; [|done].
    eapply (dseg_frame_links _ l1 l2); [exact Hok|set_solver +|set_solver +|done..]. }
  assert (Forall (is_link (l1 ++ l2)) (ws1 ++ ws2)) as L12.
  { apply Forall_app. split; eapply Forall_impl; try done;
      intros w; apply is_link_mono; set_solver +. }
  pose proof (chg_trans _ _ _ _ _ C1 C2) as C12.
  apply wp_bind, wp_gets. simpl. destruct (Z.eqb_spec x h) as [->|Hxh].
  - assert (l1 = []) as -> by (destruct l1 as [|y l1]; [done|destruct H1 as (-> & _); set_solver + Hx1]).
    apply wp_bind, (wp_read _ _ _ (default NULL (head l2))); [by rewrite En2, En1|].
    apply wp_modify. by eapply HQ.
  - apply wp_ret. eapply HQ; [done..|]. destruct l1; [by destruct Hxh|done].
Qed.

Lemma wp_freelist_add m h x fl (Q : unit → heap → Prop) :
  nodes_ok (x :: fl) → heap_mapped m → dll m NULL h fl →
  (∀ m' ws, chg m m' ws → Forall (is_link (x :: fl)) ws → dll m' NULL x (x :: fl) →
     Q tt (Heap m' x)) →
  wp (freelist_add_node x) Q (Heap m h).
Proof.
  intros Hok Hm Hd HQ. unfold dll in *.
  destruct (nodes_ok_parts [] x fl Hok) as (_ & Hok2 & _ & Hx & _).
  destruct (nodes_ok_mapped _ x m Hok) as [Mp Mn]; [set_solver +|done|].
  pose proof (nodes_ok_head_range _ Hok2) as Hr.
  pose proof (dseg_head _ _ _ _ _ Hd) as Hh. subst h.
  unfold freelist_add_node. apply wp_bind, wp_gets. simpl.
  destruct fl as [|z fl]; simpl in *.
  - apply wp_bind, wp_modify, wp_bind, wp_write; [done|]. intros m1 E1 C1.
    apply wp_write; [subst; by rewrite mapped_store|]. intros m2 E2 C2.
    apply (HQ _ _ (chg_trans _ _ _ _ _ C1 C2)).
    + repeat constructor; exists x; (split; [set_solver +|auto]).
    + unfold off_next, off_prev in *. split; [done|]. subst. split.
      { rewrite load64_store64_ne, load64_store64_eq by (unfold NULL, in_range in *; lia). done. }
      exists NULL. by rewrite load64_store64_eq.
  - destruct (nodes_ok_range _ z Hok2) as [Rz Hz0]; [set_solver +|].
    destruct (nodes_ok_range _ x Hok) as [Rx Hx0]; [set_solver +|].
    destruct (nodes_ok_mapped _ z m Hok2) as [Mz _]; [set_solver +|done|].
    pose proof (sep_app_disjoint [] x (z :: fl) Hok z ltac:(set_solver +)) as Hxz.
    destruct (Z.eqb_spec z NULL); [done|].
    apply wp_bind, wp_write; [done|]. intros m1 E1 C1.
    apply wp_bind, wp_write; [subst; by rewrite mapped_store|]. intros m2 E2 C2.
    pose proof (chg_trans _ _ _ _ _ C1 C2) as C12.
    assert (mapped 8 m2 (z + off_prev) = true) as Mz2
      by (subst; by rewrite !mapped_store by by rewrite ?mapped_store).
    apply wp_bind, wp_write; [done|]. intros m3 E3 C3. apply wp_modify.
    apply (HQ _ _ (chg_trans _ _ _ _ _ C12 C3)).
    + repeat constructor; [exists x|exists x|exists z]; (split; [set_solver +|auto]).
    + assert (dseg m2 NULL z (z :: fl) NULL) as Hd2.
      { eapply (dseg_frame_links _ (z :: fl) [x]);
          [exact Hok|set_solver +|set_solver +|set_solver + Hx|exact Hd|exact C12|].
        repeat constructor; exists x; (split; [set_solver +|auto]). }
      subst m3. pose proof (dseg_set_prev _ _ _ _ _ _ x Hok2 Rx Hd2 Mz2) as Hd3.
      subst. unfold off_next, off_prev in *. simpl. split; [done|]. split.
      { rewrite load64_store64_ne, load64_store64_ne, load64_store64_eq by (unfold NULL, in_range in *; lia). done. }
      exists z. by rewrite load64_store64_ne, load64_store64_eq by (unfold NULL, in_range in *; lia).
Qed.
