(* ===== verification/KmallocLayout.v ===== *)
(** * Chunk lists and the heap invariant

    Splitting a chunk list at a chunk, the frame of the chunks around the
    place where an operation works, and [heap_inv_splice]: an operation that
    replaces the chunks [mid] by [mid'] and writes only there, to free-list
    links and to the header after [mid] preserves the invariant. *)

From S2P Require Import Prelude Mem Kmalloc KmallocInv.
Local Open Scope Z_scope.

(** The allocated chunks, with their addresses and sizes. *)
Fixpoint allocated (a : Z) (cs : chunks) : list (Z * Z) :=
  match cs with
  | [] => []
  | (sz, fr) :: cs' => (if fr : bool then [] else [(a, sz)]) ++ allocated (a + sz) cs'
  end.

(** The size of the chunk at [y]. *)
Fixpoint size_at (a : Z) (cs : chunks) (y : Z) : Z :=
  match cs with
  | [] => 0
  | (sz, _) :: cs' => if y =? a then sz else size_at (a + sz) cs' y
  end.

(** [w] lies outside [a, e) or is a link of one of the nodes [fl]. *)
Definition word_off (a e : Z) (fl : list Z) (w : Z) : Prop :=
  w + 8 ≤ a ∨ e ≤ w ∨ is_link fl w.

(** The words an operation on the chunks between [xs] and [xe] may write. *)
Definition touch (L R : chunks) (xs xe : Z) (w : Z) : Prop :=
  is_link (free_addrs HEAP_START L ++ free_addrs xe R) w ∨ (xs ≤ w ∧ w + 8 ≤ xe) ∨
  (w = xe ∧ nonempty R = true).

Section chunk_lists.
Implicit Types (cs L R : chunks) (a : Z) (pf nx : bool).

Lemma total_app L R : total (L ++ R) = total L + total R.
Proof. induction L as [|[sz fr] L IH]; simpl; lia. Qed.

Lemma last_free_app pf L R : last_free pf (L ++ R) = last_free (last_free pf L) R.
Proof. revert pf. induction L as [|[sz fr] L IH]; intros pf; simpl; auto. Qed.

Lemma layout_app pf L R : layout pf (L ++ R) ↔ layout pf L ∧ layout (last_free pf L) R.
Proof.
  revert pf. induction L as [|[sz fr] L IH]; intros pf; simpl; [tauto|].
  rewrite IH. tauto.
Qed.

Lemma places_app nx pf a L R :
  places nx pf a (L ++ R) =
  places (nx || nonempty R) pf a L ++ places nx (last_free pf L) (a + total L) R.
Proof.
  revert pf a. induction L as [|[sz fr] L IH]; intros pf a; simpl.
  { by rewrite Z.add_0_r. }
  rewrite IH, Z.add_assoc. do 2 f_equal.
  by destruct nx, L, R.
Qed.

Lemma free_addrs_app a L R :
  free_addrs a (L ++ R) = free_addrs a L ++ free_addrs (a + total L) R.
Proof.
  revert a. induction L as [|[sz fr] L IH]; intros a; simpl; [by rewrite Z.add_0_r|].
  by rewrite IH, Z.add_assoc, app_assoc.
Qed.

Lemma allocated_app a L R :
  allocated a (L ++ R) = allocated a L ++ allocated (a + total L) R.
Proof.
  revert a. induction L as [|[sz fr] L IH]; intros a; simpl; [by rewrite Z.add_0_r|].
  by rewrite IH, Z.add_assoc, app_assoc.
Qed.

Lemma total_length pf cs : layout pf cs → 32 * Z.of_nat (length cs) ≤ total cs.
Proof.
  revert pf. induction cs as [|[sz fr] cs IH]; intros pf; simpl; [lia|].
  intros (? & _ & _ & H%IH). lia.
Qed.

Lemma total_nonneg pf cs : layout pf cs → 0 ≤ total cs.
Proof. intros H%total_length. lia. Qed.

Lemma total_mod8 pf cs : layout pf cs → total cs mod 8 = 0.
Proof.
  revert pf. induction cs as [|[sz fr] cs IH]; intros pf; simpl; [done|].
  intros (_ & ? & _ & H%IH). dlia.
Qed.

Lemma free_addrs_length a cs : (length (free_addrs a cs) ≤ length cs)%nat.
Proof.
  revert a. induction cs as [|[sz fr] cs IH]; intros a; simpl; [lia|].
  rewrite length_app. specialize (IH (a + sz)). destruct fr; simpl; lia.
Qed.

Lemma free_addrs_range pf a cs y :
  layout pf cs → y ∈ free_addrs a cs → a ≤ y ∧ y + 32 ≤ a + total cs.
Proof.
  revert pf a. induction cs as [|[sz fr] cs IH]; intros pf a; simpl; [set_solver|].
  intros (? & _ & _ & Hl). pose proof (total_nonneg _ _ Hl).
  rewrite elem_of_app. intros [Hy|Hy].
  - destruct fr; [|by apply elem_of_nil in Hy]. apply list_elem_of_singleton in Hy. lia.
  - apply (IH _ _ Hl) in Hy. lia.
Qed.

Lemma free_addrs_split a cs y :
  y ∈ free_addrs a cs → ∃ L sz R, cs = L ++ (sz, true) :: R ∧ y = a + total L.
Proof.
  revert a. induction cs as [|[sz fr] cs IH]; intros a; simpl; [set_solver|].
  rewrite elem_of_app. intros [Hy|Hy].
  - destruct fr; [|by apply elem_of_nil in Hy]. apply list_elem_of_singleton in Hy.
    exists [], sz, cs. simpl. split; [done|lia].
  - apply IH in Hy as (L & sz' & R & -> & ->). exists ((sz, fr) :: L), sz', R.
    simpl. split; [done|lia].
Qed.

Lemma allocated_split a cs b sz :
  (b, sz) ∈ allocated a cs → ∃ L R, cs = L ++ (sz, false) :: R ∧ b = a + total L.
Proof.
  revert a. induction cs as [|[sz' fr] cs IH]; intros a; simpl; [set_solver|].
  rewrite elem_of_app. intros [Hy|Hy].
  - destruct fr; [by apply elem_of_nil in Hy|]. apply list_elem_of_singleton in Hy.
    simplify_eq. exists [], cs. simpl. split; [done|lia].
  - apply IH in Hy as (L & R & -> & ->). exists ((sz', fr) :: L), R.
    simpl. split; [done|lia].
Qed.

Lemma allocated_range pf a cs b sz :
  layout pf cs → (b, sz) ∈ allocated a cs →
  a ≤ b ∧ b + sz ≤ a + total cs ∧ 32 ≤ sz ∧ sz mod 8 = 0.
Proof.
  intros Hl Hb. apply allocated_split in Hb as (L & R & -> & ->).
  apply layout_app in Hl as [HL (? & ? & _ & HR)]. rewrite total_app. simpl.
  apply total_nonneg in HL, HR. lia.
Qed.

Lemma allocated_free_sep pf a cs b sz y :
  layout pf cs → (b, sz) ∈ allocated a cs → y ∈ free_addrs a cs → b + sz ≤ y ∨ y + 32 ≤ b.
Proof.
  revert pf a. induction cs as [|[sz' fr] cs IH]; intros pf a Hl; simpl in *; [set_solver|].
  destruct Hl as (? & ? & _ & Hl). rewrite !elem_of_app. intros [Hb|Hb] [Hy|Hy].
  - destruct fr; by apply elem_of_nil in Hb || by apply elem_of_nil in Hy.
  - apply (free_addrs_range _ _ _ _ Hl) in Hy.
    destruct fr; [by apply elem_of_nil in Hb|]. apply list_elem_of_singleton in Hb.
    simplify_eq. lia.
  - apply (allocated_range _ _ _ _ _ Hl) in Hb.
    destruct fr; [|by apply elem_of_nil in Hy]. apply list_elem_of_singleton in Hy. lia.
  - by eapply IH.
Qed.

Lemma free_nodes_ok pf a cs :
  layout pf cs → HEAP_START ≤ a → a + total cs ≤ HEAP_END → nodes_ok (free_addrs a cs).
Proof.
  intros Hl Ha He. split.
  - intros y Hy%(free_addrs_range pf a cs); [lia|done].
  - clear Ha He. revert pf a Hl.
    induction cs as [|[sz fr] cs IH]; intros pf a Hl y z; simpl in *; [set_solver|].
    destruct Hl as (? & _ & _ & Hl). rewrite !elem_of_app.
    assert (∀ x, x ∈ (if fr then [a] else []) → x = a) as Hx by (destruct fr; set_solver +).
    intros [->%Hx|Hy] [->%Hx|Hz]; [lia|..].
    + apply (free_addrs_range _ _ _ _ Hl) in Hz. lia.
    + apply (free_addrs_range _ _ _ _ Hl) in Hy. lia.
    + by eapply IH.
  - clear Ha He. revert pf a Hl.
    induction cs as [|[sz fr] cs IH]; intros pf a Hl; simpl in *; [constructor|].
    destruct Hl as (? & _ & _ & Hl). destruct fr; simpl; [|by eapply IH].
    constructor; [|by eapply IH]. intros Hy%(free_addrs_range _ _ _ _ Hl). lia.
Qed.

Lemma nodes_ok_perm l l' : l ≡ₚ l' → nodes_ok l' → nodes_ok l.
Proof.
  intros Hp [H1 H2 H3]. split.
  - intros y. rewrite Hp. apply H1.
  - intros y z. rewrite Hp. apply H2.
  - by rewrite Hp.
Qed.

(** *** Frames *)

Lemma place_frame m m' ws p :
  chg m m' ws → 32 ≤ psz p →
  Forall (λ w, w + 8 ≤ pa p ∨ pa p + 8 ≤ w ∧ (w + 8 ≤ pa p + psz p - 8 ∨ pa p + psz p ≤ w)) ws →
  place_ok m p → place_ok m' p.
Proof.
  intros C Hsz Hws [Hh Hf]. split.
  - eapply chg_hdr; [done| |done]. eapply Forall_impl; [done|]. simpl. lia.
  - intros Hfr Hnx. rewrite (chg_load _ _ _ _ C); [by apply Hf|].
    eapply Forall_impl; [done|]. simpl. lia.
Qed.

Lemma places_frame m m' ws nx pf a L :
  layout pf L → chg m m' ws →
  Forall (word_off a (a + total L) (free_addrs a L)) ws →
  Forall (place_ok m) (places nx pf a L) → Forall (place_ok m') (places nx pf a L).
Proof.
  intros Hl C. revert pf a Hl.
  induction L as [|[sz fr] L IH]; intros pf a Hl Hws Hp; simpl in *; [constructor|].
  destruct Hl as (Hsz & Hm & _ & Hl). pose proof (total_nonneg _ _ Hl) as Hn.
  inversion_clear Hp as [|? ? H1 H2].
  assert (∀ w, is_link ((if fr then [a] else []) ++ free_addrs (a + sz) L) w →
    (w = a + 8 ∨ w = a + 16) ∨ (a + sz + 8 ≤ w ∧ is_link (free_addrs (a + sz) L) w)) as Hlink.
  { intros w (y & [Hy|Hy]%elem_of_app & Hw); unfold off_prev, off_next in *.
    - destruct fr; [|by apply elem_of_nil in Hy]. apply list_elem_of_singleton in Hy. lia.
    - right. pose proof (free_addrs_range _ _ _ _ Hl Hy). split; [lia|]. by exists y. }
  constructor.
  - eapply place_frame; [done|done| |done]. eapply Forall_impl; [exact Hws|].
    intros w [?|[?|Hw%Hlink]]; simpl; lia.
  - apply IH; [done| |done]. eapply Forall_impl; [exact Hws|].
    intros w [?|[?|[?|[? ?]]%Hlink]]; unfold word_off; [lia|lia|lia|auto].
Qed.
End chunk_lists.

(** ** Splicing *)

Lemma nonempty_app {A} (l k : list A) : nonempty (l ++ k) = nonempty l || nonempty k.
Proof. by destruct l. Qed.

(** A link of a free node around [mid] is a word the operation may touch. *)
Lemma touch_link L R xs xe l w :
  (∀ y, y ∈ l → y ∈ free_addrs HEAP_START L ∨ y ∈ free_addrs xe R) →
  is_link l w → touch L R xs xe w.
Proof.
  intros Hl (y & Hy & Hw). left. exists y. split; [|done]. apply elem_of_app. auto.
Qed.

Lemma touch_in L R xs xe w : xs ≤ w → w + 8 ≤ xe → touch L R xs xe w.
Proof. unfold touch. auto. Qed.

Lemma touch_R L R xs xe w : w = xe → nonempty R = true → touch L R xs xe w.
Proof. unfold touch. auto. Qed.

#[export] Hint Resolve touch_in touch_R : kernel.

Section splice.
Variables (L mid R : chunks) (fl : list Z) (m : mem) (h : Z).
Let xs := HEAP_START + total L.
Let xe := xs + total mid.
Hypothesis Hinv : heap_inv (AHeap (L ++ mid ++ R) fl) (Heap m h).
Hypothesis Hne : nonempty mid = true.

Lemma splice_layout :
  layout false L ∧ layout (last_free false L) mid ∧
  layout (last_free (last_free false L) mid) R ∧ xe + total R = HEAP_END ∧
  xs + 32 ≤ xe ∧ HEAP_START ≤ xs.
Proof.
  destruct Hinv as [Hl Ht _ _ _ _]. simpl in *.
  rewrite !layout_app in Hl. destruct Hl as (HL & Hmid & HR).
  rewrite !total_app in Ht. subst xs xe. unfold HEAP_END.
  pose proof (total_length _ _ Hmid). pose proof (total_nonneg _ _ HL).
  destruct mid; [done|]. simpl length in *. repeat split; try done; lia.
Qed.

Lemma splice_places :
  Forall (place_ok m) (places true false HEAP_START L) ∧
  Forall (place_ok m) (places (nonempty R) (last_free false L) xs mid) ∧
  Forall (place_ok m) (places false (last_free (last_free false L) mid) xe R).
Proof.
  destruct Hinv as [_ _ Hp _ _ _]. simpl in *.
  rewrite !places_app, !Forall_app, nonempty_app, Hne in Hp. done.
Qed.

Lemma splice_nodes : nodes_ok fl.
Proof.
  destruct Hinv as [Hl Ht _ _ Hfl _]. simpl in *.
  eapply nodes_ok_perm; [done|]. eapply free_nodes_ok; [done|done|]. by rewrite Ht.
Qed.

Lemma splice_free :
  fl ≡ₚ free_addrs HEAP_START L ++ free_addrs xs mid ++ free_addrs xe R.
Proof. destruct Hinv as [_ _ _ _ Hfl _]. simpl in *. by rewrite !free_addrs_app in Hfl. Qed.

Lemma splice_R_free y : y ∈ free_addrs xe R → xe ≤ y ∧ y + 32 ≤ HEAP_END.
Proof.
  destruct splice_layout as (_ & _ & HR & He & _).
  intros Hy%(free_addrs_range _ _ _ _ HR). lia.
Qed.

Lemma splice_L_free y : y ∈ free_addrs HEAP_START L → HEAP_START ≤ y ∧ y + 32 ≤ xs.
Proof.
  destruct splice_layout as (HL & _ & _ & He & _).
  intros Hy%(free_addrs_range _ _ _ _ HL). subst xs. lia.
Qed.

(** Words touched lie in the heap's chunks around [xe]: away from a node
    of [L] or [R]. *)
Lemma touch_node y w :
  y ∈ free_addrs HEAP_START L ∨ y ∈ free_addrs xe R →
  (xs ≤ w ∧ w + 8 ≤ xe) ∨ w = xe → w ≤ y ∨ y + 24 ≤ w.
Proof.
  destruct splice_layout as (_ & _ & _ & _ & ? & _).
  intros [Hy%splice_L_free|Hy%splice_R_free] Hw; lia.
Qed.

Lemma splice_payload m' ws b sz :
  chg m m' ws → Forall (touch L R xs xe) ws →
  (b, sz) ∈ allocated HEAP_START L ++ allocated xe R → agree m m' (b + 8) (b + sz).
Proof.
  destruct splice_layout as (HL & Hmid & HR & He & Hm32 & Hxs).
  intros C Hws Hb. eapply chg_agree; [done|]. eapply Forall_impl; [done|].
  apply elem_of_app in Hb.
  assert (∀ y, y ∈ free_addrs HEAP_START L ++ free_addrs xe R → b + sz ≤ y ∨ y + 32 ≤ b) as Hy.
  { intros y Hy. apply elem_of_app in Hy. destruct Hb as [Hb|Hb], Hy as [Hy|Hy].
    - pose proof (allocated_free_sep _ _ _ _ _ _ HL Hb Hy). lia.
    - apply splice_R_free in Hy. apply (allocated_range _ _ _ _ _ HL) in Hb. subst xs. lia.
    - apply splice_L_free in Hy. apply (allocated_range _ _ _ _ _ HR) in Hb. lia.
    - pose proof (allocated_free_sep _ _ _ _ _ _ HR Hb Hy). lia. }
  assert ((b + sz ≤ xs ∨ xe ≤ b) ∧ 32 ≤ sz) as [Hbs ?].
  { destruct Hb as [Hb|Hb]; [apply (allocated_range _ _ _ _ _ HL) in Hb; subst xs; lia|].
    apply (allocated_range _ _ _ _ _ HR) in Hb. lia. }
  intros w [(y & Hyin & Hw)|[?|[? _]]]; [|lia|lia].
  apply Hy in Hyin. unfold off_prev, off_next in *. lia.
Qed.

Lemma splice_frame_L m' ws :
  chg m m' ws → Forall (touch L R xs xe) ws → Forall (place_ok m') (places true false HEAP_START L).
Proof.
  destruct splice_layout as (HL & Hmid & HR & He & Hm32 & Hxs), splice_places as (PL & _ & _).
  intros C Hws. eapply places_frame; [done..| |done]. eapply Forall_impl; [done|].
  intros w [(y & Hy & Hw)|[?|[? _]]]; unfold word_off; [|subst xs; lia|subst xs; lia].
  apply elem_of_app in Hy as [Hy|Hy%splice_R_free].
  - right. right. by exists y.
  - unfold off_prev, off_next in *. subst xs. lia.
Qed.

Lemma splice_frame_R m' ws pf :
  chg m m' ws → Forall (touch L R xs xe) ws →
  (∀ sz fr R', R = (sz, fr) :: R' → hdr m' xe sz fr pf) →
  Forall (place_ok m') (places false pf xe R).
Proof.
  destruct splice_layout as (HL & Hmid & HR & He & Hm32 & Hxs), splice_places as (_ & _ & PR).
  pose proof splice_L_free as HLf.
  intros C Hws Hhd. clearbody xe xs. clear Hinv.
  destruct R as [|[sz fr] R']; [constructor|]. simpl in *.
  inversion_clear PR as [|? ? [_ H1] H2]. destruct HR as (Hsz & _ & _ & HR).
  pose proof (total_nonneg _ _ HR).
  assert (∀ w, touch L ((sz, fr) :: R') xs xe w →
    w + 8 ≤ xe ∨ w = xe ∨ w = xe + 8 ∨ w = xe + 16 ∨
    xe + sz + 8 ≤ w ∧ is_link (free_addrs (xe + sz) R') w) as Hcase.
  { intros w [(y & Hy & Hw)|[?|[? _]]]; [|lia|lia]. unfold off_prev, off_next in *.
    rewrite elem_of_app in Hy. destruct Hy as [Hy%HLf|Hy]; [lia|].
    simpl in Hy. rewrite elem_of_app in Hy. destruct Hy as [Hy|Hy].
    - destruct fr; [|by apply elem_of_nil in Hy]. apply list_elem_of_singleton in Hy. lia.
    - pose proof (free_addrs_range _ _ _ _ HR Hy). do 4 right. split; [lia|]. by exists y. }
  constructor.
  - split; simpl in *; [by eapply Hhd|]. intros Hfr Hnx.
    rewrite (chg_load _ _ _ _ C); [by apply H1|]. eapply Forall_impl; [done|].
    intros w Hw%Hcase. lia.
  - eapply places_frame; [done..| |done]. eapply Forall_impl; [done|].
    intros w Hw%Hcase. unfold word_off. destruct Hw as [?|[?|[?|[?|[? ?]]]]]; auto with lia.
Qed.

(** The invariant after an operation that replaces [mid] by [mid']. *)
Lemma heap_inv_splice mid' fl' m' h' ws :
  chg m m' ws → Forall (touch L R xs xe) ws →
  nonempty mid' = true → total mid' = total mid →
  layout (last_free false L) mid' →
  last_free (last_free false L) mid' && starts_free R = false →
  Forall (place_ok m') (places (nonempty R) (last_free false L) xs mid') →
  (∀ sz fr R', R = (sz, fr) :: R' → hdr m' xe sz fr (last_free (last_free false L) mid')) →
  dll m' NULL h' fl' →
  fl' ≡ₚ free_addrs HEAP_START L ++ free_addrs xs mid' ++ free_addrs xe R →
  heap_inv (AHeap (L ++ mid' ++ R) fl') (Heap m' h').
Proof.
  destruct splice_layout as (HL & Hmid & HR & He & Hm32 & Hxs).
  intros C Hws Hne' Ht Hl' Hadj Hp' Hhd Hd Hfl. split; simpl.
  - rewrite !layout_app. split_and!; [done|done|].
    destruct R as [|[sz fr] R']; simpl in *; tauto.
  - destruct Hinv as [_ Htot _ _ _ _]. simpl in Htot. rewrite !total_app in *. lia.
  - rewrite !places_app, !Forall_app, nonempty_app, Hne'. simpl. split_and!.
    + by eapply splice_frame_L.
    + done.
    + rewrite Ht. by eapply splice_frame_R.
  - done.
  - rewrite !free_addrs_app, Ht. done.
  - eapply chg_heap_mapped; [done|]. by destruct Hinv.
Qed.
End splice.

(** ** The search loop *)

Definition fits (alloc_sz sz : Z) : Prop := sz = alloc_sz ∨ alloc_sz + 32 ≤ sz.

#[export] Instance fits_dec asz sz : Decision (fits asz sz).
Proof. unfold fits. apply _. Defined.

Lemma wp_kmalloc_search m h szof asz fuel l (Q : Z * Z → heap → Prop) :
  0 ≤ asz → asz + 32 < 2 ^ 64 →
  (∀ y, y ∈ l → y ≠ NULL ∧ ∃ fr pf, hdr m y (szof y) fr pf) →
  (length l ≤ fuel)%nat →
  (∀ l1 x l2, l = l1 ++ x :: l2 → Forall (λ y, ¬ fits asz (szof y)) l1 → fits asz (szof x) →
     Q (x, szof x) (Heap m h)) →
  (∀ fsz, Forall (λ y, ¬ fits asz (szof y)) l → Q (NULL, fsz) (Heap m h)) →
  ∀ prev cur fsz, dll m prev cur l → wp (kmalloc_search fuel asz cur fsz) Q (Heap m h).
Proof.
  intros Hasz Hov. revert fuel Q.
  induction l as [|x l IH]; intros fuel Q Hh Hfuel Hfound Hnone prev cur fsz Hd.
  { unfold dll in Hd. simpl in Hd. subst cur. destruct fuel; by apply Hnone. }
  destruct Hd as (-> & Hp & nx & Hn & Hd).
  destruct fuel as [|fuel]; simpl in Hfuel; [lia|].
  destruct (Hh x) as (Hx0 & fr & pf & Hx); [set_solver +|]. simpl.
  destruct (Z.eqb_spec x NULL); [done|].
  apply wp_bind. eapply wp_get_sz; [done|].
  change FREE_CHUNK_MIN_SZ with 32. rewrite wrap_small by lia.
  destruct (Z.eqb_spec (szof x) asz) as [E|E]; simpl.
  { apply (Hfound [] x l); [done|constructor|by left]. }
  destruct (Z.leb_spec (asz + 32) (szof x)) as [E'|E'].
  { apply (Hfound [] x l); [done|constructor|by right]. }
  assert (¬ fits asz (szof x)) by (unfold fits; lia).
  apply wp_bind, (wp_read _ _ _ nx); [done|].
  eapply (IH fuel); [| | | |exact Hd].
  - intros y Hy. apply Hh. by apply list_elem_of_further.
  - lia.
  - intros l1 z l2 -> Hl1 Hz. eapply (Hfound (x :: l1)); [done|by constructor|done].
  - intros fsz' Hl. apply Hnone. by constructor.
Qed.
