(* ===== verification/KmallocSpec.v ===== *)
(** * The allocator refines an abstract heap

    [alloc_step] and [free_step] are the abstract allocator: first fit with
    splitting, and freeing with coalescing on both sides, on a list of
    chunks.  The theorems show that [kmalloc] and [kfree] implement them,
    fail exactly when they must, and leave the other blocks alone. *)

From S2P Require Import Prelude Mem Kmalloc KmallocInv KmallocLayout.
Local Open Scope Z_scope.
Local Open Scope kernel_scope.

(** [l1] holds no chunk that fits: the chunk after it is the first fit. *)
Definition no_fit (asz : Z) (cs : chunks) (l : list Z) : Prop :=
  Forall (λ y, ¬ fits asz (size_at HEAP_START cs y)) l.

Inductive alloc_step (asz : Z) : aheap → Z → aheap → Prop :=
| alloc_exact L R l1 l2 x :
    x = HEAP_START + total L →
    no_fit asz (L ++ [(asz, true)] ++ R) l1 →
    alloc_step asz (AHeap (L ++ [(asz, true)] ++ R) (l1 ++ x :: l2)) x
      (AHeap (L ++ [(asz, false)] ++ R) (l1 ++ l2))
| alloc_split L fsz R l1 l2 x :
    x = HEAP_START + total L →
    asz + 32 ≤ fsz →
    no_fit asz (L ++ [(fsz, true)] ++ R) l1 →
    alloc_step asz (AHeap (L ++ [(fsz, true)] ++ R) (l1 ++ x :: l2)) x
      (AHeap (L ++ [(asz, false); (fsz - asz, true)] ++ R) (x + asz :: l1 ++ l2)).

(** Freeing the allocated chunk at [x]: the four coalescing cases. *)
Inductive free_step (x : Z) : aheap → aheap → Prop :=
| free_alone L sz R fl :
    x = HEAP_START + total L → last_free false L = false → starts_free R = false →
    free_step x (AHeap (L ++ [(sz, false)] ++ R) fl)
      (AHeap (L ++ [(sz, true)] ++ R) (x :: fl))
| free_prev L psz sz R fl :
    x = HEAP_START + total L + psz → starts_free R = false →
    free_step x (AHeap (L ++ [(psz, true); (sz, false)] ++ R) fl)
      (AHeap (L ++ [(psz + sz, true)] ++ R) fl)
| free_next L sz nsz R l1 l2 :
    x = HEAP_START + total L → last_free false L = false →
    free_step x (AHeap (L ++ [(sz, false); (nsz, true)] ++ R) (l1 ++ x + sz :: l2))
      (AHeap (L ++ [(sz + nsz, true)] ++ R) (x :: l1 ++ l2))
| free_both L psz sz nsz R l1 l2 :
    x = HEAP_START + total L + psz →
    free_step x
      (AHeap (L ++ [(psz, true); (sz, false); (nsz, true)] ++ R) (l1 ++ x + sz :: l2))
      (AHeap (L ++ [(psz + sz + nsz, true)] ++ R) (l1 ++ l2)).

(** The contents of the allocated chunks of both heaps is the same. *)
Definition payload_kept (h h' : aheap) (m m' : mem) : Prop :=
  ∀ b sz, (b, sz) ∈ allocated HEAP_START (a_chunks h) →
    (b, sz) ∈ allocated HEAP_START (a_chunks h') → agree m m' (b + 8) (b + sz).

(** ** Sizes *)

Lemma align_sz_spec n : 0 ≤ n → n + 7 < 2 ^ 64 →
  n ≤ align_sz n < n + 8 ∧ align_sz n mod 8 = 0.
Proof.
  intros H0 H1. unfold align_sz, ALIGN_UP, HEAP_ALIGNMENT.
  rewrite wrap_small by lia.
  change (lnot64 (8 - 1)) with (2 ^ 64 - 2 ^ 3).
  rewrite land_high_mask by lia. change (2 ^ 3) with 8. dlia.
Qed.

Lemma kmalloc_alloc_sz_spec sz : 0 ≤ sz < 2 ^ 64 - 47 →
  let asz := kmalloc_alloc_sz sz in
  sz + 8 ≤ asz ∧ 32 ≤ asz ∧ asz ≤ Z.max 32 (sz + 15) ∧ asz mod 8 = 0.
Proof.
  intros Hsz. unfold kmalloc_alloc_sz, sizeof_alloc_hdr_t. rewrite (wrap_small 64) by lia.
  destruct (align_sz_spec (sz + 8)) as [H1 H2]; [lia..|].
  change FREE_CHUNK_MIN_SZ with 32. destruct (Z.ltb_spec (align_sz (sz + 8)) 32); [|lia].
  split_and!; done || lia.
Qed.

Lemma size_at_mid pf a L sz fr R :
  layout pf (L ++ (sz, fr) :: R) → size_at a (L ++ (sz, fr) :: R) (a + total L) = sz.
Proof.
  revert pf a. induction L as [|[sz' fr'] L IH]; intros pf a Hl; simpl.
  { by rewrite Z.add_0_r, Z.eqb_refl. }
  destruct Hl as (? & _ & _ & Hl). pose proof Hl as Hl'.
  apply layout_app in Hl' as [HL _]. apply total_nonneg in HL.
  destruct (Z.eqb_spec (a + (sz' + total L)) a); [lia|].
  rewrite Z.add_assoc. by eapply IH.
Qed.

(** ** Reading the invariant *)

Lemma heap_bounds x : is_in_heap_bounds x = true ↔ HEAP_START ≤ x < HEAP_END.
Proof. unfold is_in_heap_bounds. rewrite andb_true_iff, Z.leb_le, Z.ltb_lt. lia. Qed.

Lemma heap_consts : HEAP_START = 0xffff810000000000 ∧ HEAP_END = HEAP_START + 0x200000.
Proof. done. Qed.

Ltac heap_lia := pose proof heap_consts; unfold in_range in *; lia.

Lemma inv_node_hdr h s y :
  heap_inv h s → y ∈ a_free h →
  y ≠ NULL ∧ ∃ fr pf, hdr (h_mem s) y (size_at HEAP_START (a_chunks h) y) fr pf.
Proof.
  intros [Hl Ht Hp _ Hf _] Hy. rewrite Hf in Hy.
  pose proof (free_addrs_range _ _ _ _ Hl Hy).
  split; [unfold NULL; heap_lia|].
  apply free_addrs_split in Hy as (L & sz & R & E & ->). rewrite E in *.
  erewrite size_at_mid by done. rewrite places_app, Forall_app in Hp.
  destruct Hp as [_ Hp]. inversion_clear Hp as [|? ? [Hh _] _]. simpl in Hh. eauto.
Qed.

Lemma inv_free_length h s : heap_inv h s → (length (a_free h) ≤ SEARCH_FUEL)%nat.
Proof.
  intros [Hl Ht _ _ Hf _]. rewrite Hf.
  pose proof (free_addrs_length HEAP_START (a_chunks h)).
  pose proof (total_length _ _ Hl). pose proof SEARCH_FUEL_val. unfold HEAP_SIZE in *. lia.
Qed.

(** The chunk found by the search, and the chunks around it. *)
Lemma inv_split h s l1 x l2 :
  heap_inv h s → a_free h = l1 ++ x :: l2 →
  ∃ L sz R, a_chunks h = L ++ [(sz, true)] ++ R ∧ x = HEAP_START + total L ∧
    size_at HEAP_START (a_chunks h) x = sz.
Proof.
  intros [Hl _ _ _ Hf _] E.
  assert (x ∈ free_addrs HEAP_START (a_chunks h)) as Hx by (rewrite <-Hf, E; set_solver +).
  apply free_addrs_split in Hx as (L & sz & R & Ec & ->).
  exists L, sz, R. split_and!; [done..|]. rewrite Ec in *. by eapply size_at_mid.
Qed.

(** *** The region an operation works on

    [region] collects what the invariant says about the chunks [mid] between
    [xs] and [xe], and about what surrounds them. *)

Record region (L mid R : chunks) (fl : list Z) (m : mem) (h xs xe : Z) : Prop := {
  rg_inv : heap_inv (AHeap (L ++ mid ++ R) fl) (Heap m h);
  rg_ne : nonempty mid = true;
  rg_xs : xs = HEAP_START + total L;
  rg_xe : xe = xs + total mid;
  rg_lo : HEAP_START ≤ xs;
  rg_sz : xs + 32 ≤ xe;
  rg_hi : xe ≤ HEAP_END;
  rg_L : layout false L;
  rg_mid : layout (last_free false L) mid;
  rg_R : layout (last_free (last_free false L) mid) R;
  rg_places : Forall (place_ok m) (places (nonempty R) (last_free false L) xs mid);
  rg_bounds : is_in_heap_bounds xe = nonempty R;
  rg_next : ∀ sz fr R', R = (sz, fr) :: R' → hdr m xe sz fr (last_free (last_free false L) mid);
  rg_nodes : nodes_ok fl;
  rg_mapped : heap_mapped m;
  rg_dll : dll m NULL h fl;
  rg_free : fl ≡ₚ free_addrs HEAP_START L ++ free_addrs xs mid ++ free_addrs xe R
}.

Lemma region_intro L mid R fl m h xs xe :
  heap_inv (AHeap (L ++ mid ++ R) fl) (Heap m h) → nonempty mid = true →
  xs = HEAP_START + total L → xe = xs + total mid → region L mid R fl m h xs xe.
Proof.
  intros Hinv Hne -> ->.
  destruct (splice_layout _ _ _ _ _ _ Hinv Hne) as (HL & Hmid & HR & He & ? & ?).
  destruct (splice_places _ _ _ _ _ _ Hinv Hne) as (_ & Pm & PR).
  pose proof (total_length _ _ HR) as Hlen.
  split; try done.
  - lia.
  - destruct R as [|c R]; simpl nonempty; simpl length in Hlen.
    + simpl in He. unfold is_in_heap_bounds. apply andb_false_iff. right.
      apply Z.ltb_ge. lia.
    + apply heap_bounds. lia.
  - intros sz fr R' ->. by inversion_clear PR as [|? ? [Hh _] _].
  - by eapply splice_nodes.
  - by destruct Hinv.
  - by destruct Hinv.
  - by apply (splice_free _ _ _ _ _ _ Hinv).
Qed.

(** The free nodes around [mid]. *)
Definition outer (L R : chunks) (xe : Z) : list Z :=
  free_addrs HEAP_START L ++ free_addrs xe R.

Section region.
Context {L mid R : chunks} {fl : list Z} {m : mem} {h xs xe : Z}.
Hypothesis Hrg : region L mid R fl m h xs xe.

Lemma outer_node y : y ∈ outer L R xe → y + 32 ≤ xs ∨ xe ≤ y.
Proof.
  destruct Hrg as [Hinv Hne -> ->]. unfold outer. rewrite elem_of_app.
  intros [Hy%(splice_L_free _ _ _ _ _ _ Hinv Hne)|
          Hy%(splice_R_free _ _ _ _ _ _ Hinv Hne)]; lia.
Qed.

(** Links of nodes around [mid] avoid [mid] and the header after it. *)
Lemma outer_links l ws :
  l ≡ₚ outer L R xe → Forall (is_link l) ws → Forall (λ w, w + 8 ≤ xs ∨ xe + 8 ≤ w) ws.
Proof.
  intros Hl Hws. eapply Forall_impl; [exact Hws|].
  intros w (y & Hy & Hw). rewrite Hl in Hy. apply outer_node in Hy.
  unfold off_prev, off_next in *. lia.
Qed.

Lemma outer_touch l ws :
  l ≡ₚ outer L R xe → Forall (is_link l) ws → Forall (touch L R xs xe) ws.
Proof.
  intros Hl Hws. eapply Forall_impl; [exact Hws|]. intros w. apply touch_link.
  intros y. rewrite Hl. apply elem_of_app.
Qed.

(** Writes inside [mid] and to the header after it leave the other nodes. *)
Lemma outer_dll l m0 m' ws prev cur :
  l ≡ₚ outer L R xe → dll m0 prev cur l → chg m0 m' ws →
  Forall (λ w, (xs ≤ w ∧ w + 8 ≤ xe) ∨ w = xe) ws → dll m' prev cur l.
Proof.
  intros Hl Hd C Hws. eapply dseg_frame; [exact Hd|exact C|].
  intros y w Hy Hw. rewrite Forall_forall in Hws. apply Hws in Hw.
  rewrite Hl in Hy. apply outer_node in Hy. pose proof (rg_sz _ _ _ _ _ _ _ _ Hrg). lia.
Qed.

Lemma region_splice mid' fl' m' h' ws :
  chg m m' ws → Forall (touch L R xs xe) ws →
  nonempty mid' = true → total mid' = total mid →
  layout (last_free false L) mid' →
  last_free (last_free false L) mid' && starts_free R = false →
  Forall (place_ok m') (places (nonempty R) (last_free false L) xs mid') →
  (∀ sz fr R', R = (sz, fr) :: R' → hdr m' xe sz fr (last_free (last_free false L) mid')) →
  dll m' NULL h' fl' →
  fl' ≡ₚ free_addrs HEAP_START L ++ free_addrs xs mid' ++ free_addrs xe R →
  heap_inv (AHeap (L ++ mid' ++ R) fl') (Heap m' h').
Proof. destruct Hrg as [Hinv Hne -> ->]. apply (heap_inv_splice _ _ _ _ _ _ Hinv Hne). Qed.

Lemma outer_nodes l : l ≡ₚ outer L R xe → nodes_ok l.
Proof.
  intros Hl. eapply nodes_ok_perm; [exact Hl|]. destruct Hrg as [? _ _ _ _ _ _ _ _ _ _ _ _ Hok _ _ Hf].
  eapply nodes_ok_sublist; [|exact (nodes_ok_perm _ _ (symmetry Hf) Hok)].
  unfold outer. apply sublist_app; [done|by apply sublist_inserts_l].
Qed.

(** A new node inside [mid] may be put on the list of the others. *)
Lemma outer_nodes_cons y l :
  xs ≤ y → y + 24 ≤ xe → l ≡ₚ outer L R xe → nodes_ok (y :: l).
Proof.
  intros Hy1 Hy2 Hl. pose proof (outer_nodes l Hl) as [H1 H2 H3].
  assert (∀ z, z ∈ l → z + 24 ≤ y ∨ y + 24 ≤ z) as Hsep.
  { intros z Hz. rewrite Hl in Hz. apply outer_node in Hz. lia. }
  destruct Hrg. split.
  - intros z [->|Hz]%elem_of_cons; [lia|auto].
  - intros z1 z2 [->|Hz1]%elem_of_cons [->|Hz2]%elem_of_cons; [by left|..|auto].
    + specialize (Hsep _ Hz2). lia.
    + specialize (Hsep _ Hz1). lia.
  - constructor; [|done]. intros Hy%Hsep. lia.
Qed.

Lemma outer_links_cons y l ws :
  xs ≤ y → y + 24 ≤ xe → l ≡ₚ outer L R xe → Forall (is_link (y :: l)) ws →
  Forall (touch L R xs xe) ws ∧
  Forall (λ w, w + 8 ≤ xs ∨ xe + 8 ≤ w ∨ w = y + 8 ∨ w = y + 16) ws.
Proof.
  intros Hy1 Hy2 Hl Hws. rewrite <-Forall_and. eapply Forall_impl; [exact Hws|].
  intros w (z & [->|Hz]%elem_of_cons & Hw); unfold off_prev, off_next in *.
  - split; [apply touch_in|]; lia.
  - split; [|rewrite Hl in Hz; apply outer_node in Hz; lia].
    eapply (touch_link _ _ _ _ l); [|by exists z]. intros v. rewrite Hl. apply elem_of_app.
Qed.

Lemma region_word w : xs ≤ w → w + 8 ≤ xe → ∀ m' ws, chg m m' ws → mapped 8 m' w = true.
Proof.
  intros H1 H2 m' ws C. destruct Hrg. apply heap_mapped_word; [|lia..].
  by eapply chg_heap_mapped.
Qed.
End region.

(** Updating the previous-free flag of the chunk after [mid], if any. *)
Lemma wp_next_flag (b : bool) (R : chunks) xe pf m h (Q : unit → heap → Prop) :
  is_in_heap_bounds xe = nonempty R →
  (∀ sz fr R', R = (sz, fr) :: R' → hdr m xe sz fr pf) →
  (∀ m' ws, chg m m' ws → Forall (λ w, w = xe ∧ nonempty R = true) ws →
     (∀ sz fr R', R = (sz, fr) :: R' → hdr m' xe sz fr b) → Q tt (Heap m' h)) →
  wp (if is_in_heap_bounds xe then
        (if b then set_flag else unset_flag) xe FLAG_IS_PREV_FREE else mret tt) Q (Heap m h).
Proof.
  intros -> Hh HQ. destruct R as [|[sz fr] R]; simpl.
  - apply wp_ret, (HQ m []); [apply chg_refl|constructor|done].
  - specialize (Hh _ _ _ eq_refl).
    destruct b; [eapply wp_set_prev|eapply wp_unset_prev]; try exact Hh;
      intros m' C Hh'; (eapply HQ; [exact C|by repeat constructor|]); by intros ??? [= <- <- _].
Qed.

(** The word conditions of a composed write list. *)
Ltac solve_word :=
  simpl; intros; destruct_and?; first [lia | apply touch_in; lia | by apply touch_R].
Ltac solve_words :=
  repeat match goal with
  | |- Forall _ (_ ++ _) => apply Forall_app; split
  | |- Forall _ (_ :: _) => constructor
  | |- Forall _ [] => constructor
  | |- Forall _ _ => assumption
  end;
  try match goal with
  | H : Forall _ ?ws |- Forall _ ?ws => eapply Forall_impl; [exact H|]; solve [solve_word]
  end; try solve_word.

(** ** The exact fit *)

Lemma wp_carve_exact L sz R l1 x l2 m h :
  heap_inv (AHeap (L ++ [(sz, true)] ++ R) (l1 ++ x :: l2)) (Heap m h) →
  x = HEAP_START + total L →
  wp (freelist_remove_node x;; kmalloc_carve x sz sz;; set_sz x sz;;
      unset_flag x FLAG_IS_FREE;; mret (x +64 sizeof_alloc_hdr_t))
    (λ p s', p = x + 8 ∧
       heap_inv (AHeap (L ++ [(sz, false)] ++ R) (l1 ++ l2)) s' ∧
       ∃ ws, chg m (h_mem s') ws ∧ Forall (touch L R x (x + sz)) ws) (Heap m h).
Proof.
  intros Hinv Hx.
  pose proof (region_intro L [(sz, true)] R _ m h x (x + sz) Hinv eq_refl Hx
    ltac:(simpl; lia)) as Hrg.
  pose proof Hrg as [_ _ _ _ ? ? ? HL Hmid HR Pm Hnb Hnh Hok Hm Hd Hf].
  simpl in Hmid, Pm, Hf, Hnh. inversion_clear Pm as [|? ? [Hh _] _]. simpl in Hh.
  assert (l1 ++ l2 ≡ₚ outer L R (x + sz)) as Hrest.
  { unfold outer. rewrite <-!Permutation_middle in Hf. by apply Permutation_cons_inv in Hf. }
  apply wp_bind. eapply wp_freelist_remove; [done..|]. intros m1 h1 ws1 C1 L1 D1.
  pose proof (outer_touch (xs := x) _ _ Hrest L1) as T1.
  pose proof (outer_links Hrg _ _ Hrest L1) as O1.
  apply wp_bind. unfold kmalloc_carve. rewrite Z.eqb_refl, (wrap_small 64) by heap_lia.
  eapply (wp_next_flag false); [done| |].
  { intros ??? E. eapply chg_hdr; [exact C1| |by eapply Hnh]. solve_words. }
  intros m2 ws2 C2 W2 N2.
  apply wp_bind. eapply wp_set_sz; [|by destruct Hh|].
  { eapply chg_hdr; [exact C2|solve_words|]. eapply chg_hdr; [exact C1|solve_words|exact Hh]. }
  intros m3 C3 Hh3. apply wp_bind. eapply wp_unset_free; [exact Hh3|].
  intros m4 C4 Hh4. apply wp_ret.
  pose proof (chg_trans _ _ _ _ _ C1 (chg_trans _ _ _ _ _ C2 (chg_trans _ _ _ _ _ C3 C4))) as C.
  assert (Forall (touch L R x (x + sz)) (ws1 ++ ws2 ++ [x] ++ [x])) as T.
  { solve_words. }
  split; [rewrite wrap_small; unfold sizeof_alloc_hdr_t in *; heap_lia|]. split; [|eauto].
  apply (region_splice Hrg _ _ _ _ _ C T); [done|done| |done| | | |].
  - simpl in *. rewrite andb_false_r. tauto.
  - constructor; [|constructor]. by split.
  - intros ??? E. eapply (chg_hdr m2 m4); [exact (chg_trans _ _ _ _ _ C3 C4)|solve_words|].
    simpl. by eapply N2.
  - eapply (outer_dll Hrg); [done|exact D1|
      exact (chg_trans _ _ _ _ _ C2 (chg_trans _ _ _ _ _ C3 C4))|solve_words].
  - done.
Qed.

(** ** The split *)

Lemma wp_carve_split L fsz asz R l1 x l2 m h :
  heap_inv (AHeap (L ++ [(fsz, true)] ++ R) (l1 ++ x :: l2)) (Heap m h) →
  x = HEAP_START + total L → 32 ≤ asz → asz mod 8 = 0 → asz + 32 ≤ fsz →
  wp (freelist_remove_node x;; kmalloc_carve x fsz asz;; set_sz x asz;;
      unset_flag x FLAG_IS_FREE;; mret (x +64 sizeof_alloc_hdr_t))
    (λ p s', p = x + 8 ∧
       heap_inv (AHeap (L ++ [(asz, false); (fsz - asz, true)] ++ R) (x + asz :: l1 ++ l2)) s' ∧
       ∃ ws, chg m (h_mem s') ws ∧ Forall (touch L R x (x + fsz)) ws) (Heap m h).
Proof.
  intros Hinv Hx Ha1 Ha2 Hfit.
  pose proof (region_intro L [(fsz, true)] R _ m h x (x + fsz) Hinv eq_refl Hx
    ltac:(simpl; lia)) as Hrg.
  pose proof Hrg as [_ _ _ _ ? ? ? HL Hmid HR Pm Hnb Hnh Hok Hm Hd Hf].
  simpl in Hmid, Pm, Hf, Hnh. inversion_clear Pm as [|? ? [Hh _] _]. simpl in Hh.
  destruct Hmid as (_ & Hmod & Hadj & _).
  assert (size_word asz ∧ size_word (fsz - asz)) as [Sa Sr].
  { split; (split; [heap_lia|dlia]). }
  assert (l1 ++ l2 ≡ₚ outer L R (x + fsz)) as Hrest.
  { unfold outer. rewrite <-!Permutation_middle in Hf. by apply Permutation_cons_inv in Hf. }
  apply wp_bind. eapply wp_freelist_remove; [done..|]. intros m1 h1 ws1 C1 L1 D1.
  pose proof (outer_touch (xs := x) _ _ Hrest L1) as T1.
  pose proof (outer_links Hrg _ _ Hrest L1) as O1.
  apply wp_bind. unfold kmalloc_carve. destruct (Z.eqb_spec fsz asz); [lia|].
  rewrite !(wrap_small 64 (x + asz)), !(wrap_small 64 (fsz - asz)) by heap_lia.
  set (r := x + asz) in *.
  pose proof (chg_heap_mapped _ _ _ C1 Hm) as Hm1.
  destruct (heap_mapped_hdr m1 r Hm1) as (sz0 & fr0 & pf0 & Hr0); [lia..|].
  apply wp_bind. eapply wp_set_sz; [exact Hr0|done|]. intros m2 C2 Hr2.
  apply wp_bind. eapply wp_set_free; [exact Hr2|]. intros m3 C3 Hr3.
  apply wp_bind. eapply wp_unset_prev; [exact Hr3|]. intros m4 C4 Hr4.
  pose proof (chg_trans _ _ _ _ _ C2 (chg_trans _ _ _ _ _ C3 C4)) as C24.
  pose proof (chg_heap_mapped _ _ _ C24 Hm1) as Hm4.
  apply wp_bind. eapply (wp_freelist_add _ _ r (l1 ++ l2)).
  { apply (outer_nodes_cons Hrg); [lia..|done]. }
  { exact Hm4. }
  { eapply (outer_dll Hrg); [done|exact D1|exact C24|solve_words]. }
  intros m5 ws5 C5 L5 D5.
  destruct (outer_links_cons Hrg r _ _ ltac:(lia) ltac:(lia) Hrest L5) as [T5 O5].
  assert (hdr m5 r (fsz - asz) true false) as Hr5.
  { eapply chg_hdr; [exact C5|solve_words|exact Hr4]. }
  apply wp_bind. eapply wp_get_sz; [exact Hr5|]. apply wp_bind. eapply wp_get_sz; [exact Hr5|].
  unfold sizeof_free_footer_t.
  rewrite (wrap_small 64 (r + (fsz - asz))), (wrap_small 64 (r + (fsz - asz) - 8)) by heap_lia.
  set (ft := r + (fsz - asz) - 8).
  pose proof (chg_trans _ _ _ _ _ C1 (chg_trans _ _ _ _ _ C24 C5)) as C15.
  apply wp_write. { eapply (region_word Hrg); [lia..|exact C15]. }
  intros m6 E6 C6. apply wp_bind. eapply wp_set_sz; [|done|].
  { eapply chg_hdr; [exact C6|solve_words|]. eapply chg_hdr; [exact C15|solve_words|exact Hh]. }
  intros m7 C7 Hh7. apply wp_bind. eapply wp_unset_free; [exact Hh7|].
  intros m8 C8 Hh8. apply wp_ret.
  pose proof (chg_trans _ _ _ _ _ C7 C8) as C78.
  pose proof (chg_trans _ _ _ _ _ C15 (chg_trans _ _ _ _ _ C6 C78)) as C.
  split; [rewrite wrap_small; unfold sizeof_alloc_hdr_t in *; heap_lia|].
  split; [|eexists; split; [exact C|solve_words]].
  eapply (region_splice Hrg); [exact C|solve_words|done|simpl; lia| | | | | |].
  - simpl. rewrite andb_false_r. destruct Sr. split_and!; done || lia.
  - simpl in *. destruct R as [|[? []] ?]; simpl in *; tauto.
  - simpl. constructor; [by split|]. constructor; [split; simpl|constructor].
    + eapply chg_hdr; [exact C78|solve_words|]. eapply chg_hdr; [exact C6|solve_words|exact Hr5].
    + intros _ _. rewrite (chg_load _ _ _ _ C78) by solve_words.
      subst m6 ft. apply load64_store64_eq. by destruct Sr.
  - intros ??? E. eapply chg_hdr; [exact C|solve_words|]. simpl. by eapply Hnh.
  - eapply (dseg_frame _ _ (([ft] ++ [x] ++ [x]))); [exact D5|exact (chg_trans _ _ _ _ _ C6 C78)|].
    intros y w [->|Hy]%elem_of_cons Hw; [set_unfold in Hw; lia|].
    rewrite Hrest in Hy. apply (outer_node Hrg) in Hy. set_unfold in Hw. lia.
  - simpl. rewrite Z.add_assoc || idtac. rewrite Hrest. unfold outer.
    replace (x + asz + (fsz - asz)) with (x + fsz) by lia. by rewrite Permutation_middle.
Qed.

(** ** The four branches of kfree *)

Section kfree_branches.
Variables (L R : chunks) (fl : list Z) (m : mem) (h x : Z).

(** Unfolding a [wrap] that does not wrap, for the sizes and addresses of
    the heap. *)
Ltac unwrap64 :=
  repeat match goal with
  | |- context [wrap 64 ?e] =>
      lazymatch e with
      | context [wrap _ _] => fail
      | _ => rewrite (wrap_small 64 e) by heap_lia
      end
  end.

Lemma wp_kfree_alone sz :
  heap_inv (AHeap (L ++ [(sz, false)] ++ R) fl) (Heap m h) →
  x = HEAP_START + total L → last_free false L = false → starts_free R = false →
  wp (kfree_alone x (x + sz)) (λ _ s',
    heap_inv (AHeap (L ++ [(sz, true)] ++ R) (x :: fl)) s' ∧
    ∃ ws, chg m (h_mem s') ws ∧ Forall (touch L R x (x + sz)) ws) (Heap m h).
Proof.
  intros Hinv Hx HLf HRf.
  pose proof (region_intro L [(sz, false)] R _ m h x (x + sz) Hinv eq_refl Hx
    ltac:(simpl; lia)) as Hrg.
  pose proof Hrg as [_ _ _ _ ? ? ? HL Hmid HR Pm Hnb Hnh Hok Hm Hd Hf].
  simpl in Hmid, Pm, Hf, Hnh. inversion_clear Pm as [|? ? [Hh _] _]. simpl in Hh.
  destruct Hmid as (_ & Hmod & _).
  assert (size_word sz) as Ssz by (split; [heap_lia|dlia]).
  unfold kfree_alone. apply wp_bind. eapply wp_get_sz; [exact Hh|].
  apply wp_bind. eapply wp_get_sz; [exact Hh|]. unfold sizeof_free_footer_t. unwrap64.
  apply wp_bind, wp_write. { eapply (region_word Hrg); [lia..|apply chg_refl]. }
  intros m1 E1 C1. apply wp_bind. eapply wp_set_free.
  { eapply chg_hdr; [exact C1|solve_words|exact Hh]. }
  intros m2 C2 Hh2. pose proof (chg_trans _ _ _ _ _ C1 C2) as C12.
  apply wp_bind. eapply (wp_freelist_add _ _ x fl).
  { by apply (outer_nodes_cons Hrg); [lia..|]. }
  { by eapply chg_heap_mapped. }
  { eapply (outer_dll Hrg); [done|exact Hd|exact C12|solve_words]. }
  intros m3 ws3 C3 L3 D3.
  destruct (outer_links_cons Hrg x _ _ ltac:(lia) ltac:(lia) Hf L3) as [T3 O3].
  pose proof (chg_trans _ _ _ _ _ C12 C3) as C13.
  eapply (wp_next_flag true R _ false); [done| |].
  { intros ??? E. eapply chg_hdr; [exact C13|solve_words|by eapply Hnh]. }
  intros m4 ws4 C4 W4 N4. pose proof (chg_trans _ _ _ _ _ C13 C4) as C.
  split; [|eexists; split; [exact C|solve_words]].
  eapply (region_splice Hrg); [exact C|solve_words|done|done| | | |exact N4| |].
  - simpl. rewrite HLf. split_and!; done || lia.
  - by rewrite HRf, andb_false_r.
  - constructor; [split; simpl|constructor].
    + eapply chg_hdr; [exact C4|solve_words|]. eapply chg_hdr; [exact C3|solve_words|exact Hh2].
    + intros _ _. rewrite (chg_load _ _ _ _ (chg_trans _ _ _ _ _ C2 (chg_trans _ _ _ _ _ C3 C4)))
        by solve_words.
      subst m1. apply load64_store64_eq. by destruct Ssz.
  - eapply dseg_frame; [exact D3|exact C4|].
    intros y w Hy Hw. rewrite Forall_forall in W4. apply W4 in Hw as [-> _].
    apply elem_of_cons in Hy as [->|Hy]; [lia|]. rewrite Hf in Hy.
    apply (outer_node Hrg) in Hy. lia.
  - simpl. rewrite Hf. by rewrite Permutation_middle.
Qed.

Lemma wp_kfree_prev psz sz :
  heap_inv (AHeap (L ++ [(psz, true); (sz, false)] ++ R) fl) (Heap m h) →
  x = HEAP_START + total L → starts_free R = false →
  wp (kfree_prev (x + psz) (x + psz + sz)) (λ _ s',
    heap_inv (AHeap (L ++ [(psz + sz, true)] ++ R) fl) s' ∧
    ∃ ws, chg m (h_mem s') ws ∧ Forall (touch L R x (x + psz + sz)) ws) (Heap m h).
Proof.
  intros Hinv Hx HRf.
  pose proof (region_intro L [(psz, true); (sz, false)] R _ m h x (x + psz + sz) Hinv eq_refl Hx
    ltac:(simpl; lia)) as Hrg.
  pose proof Hrg as [_ _ _ _ ? ? ? HL Hmid HR Pm Hnb Hnh Hok Hm Hd Hf].
  simpl in Hmid, Pm, Hf, Hnh. inversion_clear Pm as [|? ? [Hp Hpf] Pm'].
  inversion_clear Pm' as [|? ? [Hh _] _]. simpl in Hh, Hp, Hpf.
  destruct Hmid as (Hp32 & Hpmod & Hadj & Hs32 & Hmod & _).
  rewrite orb_true_r in Hpf. specialize (Hpf eq_refl eq_refl).
  assert (size_word (psz + sz)) as Ssz by (split; [heap_lia|dlia]).
  unfold kfree_prev, sizeof_free_footer_t. unwrap64.
  apply wp_bind. eapply wp_read; [exact Hpf|].
  rewrite (wrap_small 64 (x + psz - psz)) by heap_lia. replace (x + psz - psz) with x by lia.
  apply wp_bind. eapply wp_get_sz; [exact Hp|]. apply wp_bind. eapply wp_get_sz; [exact Hh|].
  unwrap64. apply wp_bind. eapply wp_set_sz; [exact Hp|done|]. intros m1 C1 Hp1.
  apply wp_bind, wp_write. { eapply (region_word Hrg); [lia..|exact C1]. }
  intros m2 E2 C2. pose proof (chg_trans _ _ _ _ _ C1 C2) as C12.
  eapply (wp_next_flag true R _ false); [done| |].
  { intros ??? E. eapply chg_hdr; [exact C12|solve_words|by eapply Hnh]. }
  intros m3 ws3 C3 W3 N3. pose proof (chg_trans _ _ _ _ _ C12 C3) as C.
  split; [|eexists; split; [exact C|solve_words]].
  eapply (region_splice Hrg); [exact C|solve_words|done|simpl; lia| | | |exact N3| |].
  - simpl. destruct Ssz. split_and!; done || lia.
  - by rewrite HRf, andb_false_r.
  - constructor; [split; simpl|constructor].
    + eapply chg_hdr; [exact C3|solve_words|]. eapply chg_hdr; [exact C2|solve_words|exact Hp1].
    + intros _ _. rewrite (chg_load _ _ _ _ C3) by solve_words.
      subst m2. apply load64_store64_eq. by destruct Ssz.
  - eapply dseg_frame; [exact Hd|exact C|]. intros y w Hy Hw.
    assert (w = x ∨ w = x + psz + sz - 8 ∨ w = x + psz + sz) as Hw'.
    { rewrite Forall_forall in W3. set_unfold in Hw. naive_solver lia. }
    rewrite Hf in Hy. simpl in Hy. rewrite !elem_of_app, !elem_of_cons in Hy.
    assert (y = x ∨ y ∈ outer L R (x + psz + sz)) as [->|Hy'%(outer_node Hrg)]
      by (unfold outer; set_solver + Hy); lia.
  - simpl. by rewrite Hf.
Qed.

Lemma wp_kfree_next sz nsz l1 l2 :
  heap_inv (AHeap (L ++ [(sz, false); (nsz, true)] ++ R) (l1 ++ x + sz :: l2)) (Heap m h) →
  x = HEAP_START + total L → last_free false L = false →
  wp (kfree_next x (x + sz)) (λ _ s',
    heap_inv (AHeap (L ++ [(sz + nsz, true)] ++ R) (x :: l1 ++ l2)) s' ∧
    ∃ ws, chg m (h_mem s') ws ∧ Forall (touch L R x (x + sz + nsz)) ws) (Heap m h).
Proof.
  intros Hinv Hx HLf.
  pose proof (region_intro L [(sz, false); (nsz, true)] R _ m h x (x + sz + nsz) Hinv eq_refl Hx
    ltac:(simpl; lia)) as Hrg.
  pose proof Hrg as [_ _ _ _ ? ? ? HL Hmid HR Pm Hnb Hnh Hok Hm Hd Hf].
  simpl in Hmid, Pm, Hf, Hnh. inversion_clear Pm as [|? ? [Hh _] Pm'].
  inversion_clear Pm' as [|? ? [Hn _] _]. simpl in Hh, Hn.
  destruct Hmid as (Hs32 & Hmod & _ & Hn32 & Hnmod & _).
  assert (size_word (sz + nsz)) as Ssz by (split; [heap_lia|dlia]).
  assert (l1 ++ l2 ≡ₚ outer L R (x + sz + nsz)) as Hrest.
  { unfold outer. rewrite <-!Permutation_middle in Hf. by apply Permutation_cons_inv in Hf. }
  unfold kfree_next, sizeof_free_footer_t.
  apply wp_bind. eapply wp_get_sz; [exact Hh|]. apply wp_bind. eapply wp_get_sz; [exact Hn|].
  unwrap64. apply wp_bind. eapply wp_set_sz; [exact Hh|done|]. intros m1 C1 Hh1.
  apply wp_bind, wp_write. { eapply (region_word Hrg); [lia..|exact C1]. }
  intros m2 E2 C2. pose proof (chg_trans _ _ _ _ _ C1 C2) as C12.
  apply wp_bind. eapply (wp_freelist_remove _ _ l1 (x + sz) l2);
    [done|by eapply chg_heap_mapped| |].
  { eapply dseg_frame; [exact Hd|exact C12|]. intros y w Hy Hw. set_unfold in Hw.
    apply elem_of_app in Hy. rewrite elem_of_cons in Hy.
    assert (y = x + sz ∨ y ∈ l1 ++ l2) as [->|Hy'] by (set_solver + Hy); [lia|].
    rewrite Hrest in Hy'. apply (outer_node Hrg) in Hy'. lia. }
  intros m3 h3 ws3 C3 L3 D3.
  pose proof (outer_touch (xs := x) _ _ Hrest L3) as T3.
  pose proof (outer_links Hrg _ _ Hrest L3) as O3.
  apply wp_bind. eapply wp_set_free.
  { eapply chg_hdr; [exact C3|solve_words|]. eapply chg_hdr; [exact C2|solve_words|exact Hh1]. }
  intros m4 C4 Hh4.
  pose proof (chg_trans _ _ _ _ _ C12 (chg_trans _ _ _ _ _ C3 C4)) as C14.
  eapply (wp_freelist_add _ _ x (l1 ++ l2)).
  { by apply (outer_nodes_cons Hrg); [lia..|]. }
  { by eapply chg_heap_mapped. }
  { eapply (outer_dll Hrg); [done|exact D3|exact C4|solve_words]. }
  intros m5 ws5 C5 L5 D5.
  destruct (outer_links_cons Hrg x _ _ ltac:(lia) ltac:(lia) Hrest L5) as [T5 O5].
  pose proof (chg_trans _ _ _ _ _ C14 C5) as C.
  split; [|eexists; split; [exact C|solve_words]].
  eapply (region_splice Hrg); [exact C|solve_words|done|simpl; lia| | | | |exact D5|].
  - simpl. rewrite HLf. destruct Ssz. split_and!; done || lia.
  - simpl in *. destruct R as [|[? []] ?]; simpl in *; tauto.
  - constructor; [split; simpl|constructor].
    + eapply chg_hdr; [exact C5|solve_words|exact Hh4].
    + intros _ _. rewrite (chg_load _ _ _ _ (chg_trans _ _ _ _ _ C3 (chg_trans _ _ _ _ _ C4 C5)))
        by solve_words.
      subst m2. rewrite Z.add_assoc. apply load64_store64_eq. by destruct Ssz.
  - intros ??? E. eapply chg_hdr; [exact C|solve_words|]. simpl. by eapply Hnh.
  - simpl. rewrite Hrest. unfold outer. by rewrite Permutation_middle.
Qed.

Lemma wp_kfree_both psz sz nsz l1 l2 :
  heap_inv (AHeap (L ++ [(psz, true); (sz, false); (nsz, true)] ++ R)
    (l1 ++ x + psz + sz :: l2)) (Heap m h) →
  x = HEAP_START + total L →
  wp (kfree_both (x + psz) (x + psz + sz)) (λ _ s',
    heap_inv (AHeap (L ++ [(psz + sz + nsz, true)] ++ R) (l1 ++ l2)) s' ∧
    ∃ ws, chg m (h_mem s') ws ∧ Forall (touch L R x (x + psz + sz + nsz)) ws) (Heap m h).
Proof.
  intros Hinv Hx.
  pose proof (region_intro L [(psz, true); (sz, false); (nsz, true)] R _ m h x
    (x + psz + sz + nsz) Hinv eq_refl Hx ltac:(simpl; lia)) as Hrg.
  pose proof Hrg as [_ _ _ _ ? ? ? HL Hmid HR Pm Hnb Hnh Hok Hm Hd Hf].
  simpl in Hmid, Pm, Hf, Hnh. inversion_clear Pm as [|? ? [Hp Hpf] Pm'].
  inversion_clear Pm' as [|? ? [Hh _] Pm'']. inversion_clear Pm'' as [|? ? [Hn _] _].
  simpl in Hh, Hn, Hp, Hpf. rewrite orb_true_r in Hpf. specialize (Hpf eq_refl eq_refl).
  destruct Hmid as (Hp32 & Hpmod & Hadj & Hs32 & Hmod & _ & Hn32 & Hnmod & _).
  assert (size_word (psz + sz + nsz)) as Ssz by (split; [heap_lia|dlia]).
  assert (l1 ++ l2 ≡ₚ x :: outer L R (x + psz + sz + nsz)) as Hrest.
  { unfold outer. rewrite <-!Permutation_middle in Hf. rewrite Permutation_swap in Hf.
    apply Permutation_cons_inv in Hf. rewrite Hf. by rewrite Permutation_middle. }
  unfold kfree_both, sizeof_free_footer_t. unwrap64.
  apply wp_bind. eapply wp_read; [exact Hpf|].
  rewrite (wrap_small 64 (x + psz - psz)) by heap_lia. replace (x + psz - psz) with x by lia.
  apply wp_bind. eapply wp_get_sz; [exact Hp|]. apply wp_bind. eapply wp_get_sz; [exact Hh|].
  apply wp_bind. eapply wp_get_sz; [exact Hn|]. unwrap64.
  apply wp_bind. eapply wp_set_sz; [exact Hp|done|]. intros m1 C1 Hp1.
  apply wp_bind, wp_write. { eapply (region_word Hrg); [lia..|exact C1]. }
  intros m2 E2 C2. pose proof (chg_trans _ _ _ _ _ C1 C2) as C12.
  eapply (wp_freelist_remove _ _ l1 (x + psz + sz) l2);
    [done|by eapply chg_heap_mapped| |].
  { eapply dseg_frame; [exact Hd|exact C12|]. intros y w Hy Hw. set_unfold in Hw.
    apply elem_of_app in Hy. rewrite elem_of_cons in Hy.
    assert (y = x + psz + sz ∨ y ∈ l1 ++ l2) as [->|Hy'] by (set_solver + Hy); [lia|].
    rewrite Hrest in Hy'. apply elem_of_cons in Hy' as [->|Hy'%(outer_node Hrg)]; lia. }
  intros m3 h3 ws3 C3 L3 D3. pose proof (chg_trans _ _ _ _ _ C12 C3) as C.
  destruct (outer_links_cons Hrg x (outer L R (x + psz + sz + nsz)) ws3) as [T3 O3];
    [lia|lia|done| |].
  { eapply Forall_impl; [exact L3|]. intros w. apply is_link_mono.
    intros y. by rewrite Hrest. }
  split; [|eexists; split; [exact C|solve_words]].
  eapply (region_splice Hrg); [exact C|solve_words|done|simpl; lia| | | | |exact D3|].
  - simpl. destruct Ssz. split_and!; done || lia.
  - simpl in *. destruct R as [|[? []] ?]; simpl in *; tauto.
  - constructor; [split; simpl|constructor].
    + eapply chg_hdr; [exact C3|solve_words|]. eapply chg_hdr; [exact C2|solve_words|exact Hp1].
    + intros _ _. rewrite (chg_load _ _ _ _ C3) by solve_words.
      subst m2. rewrite !Z.add_assoc. apply load64_store64_eq. by destruct Ssz.
  - intros ??? E. eapply chg_hdr; [exact C|solve_words|]. simpl. by eapply Hnh.
  - simpl. rewrite Hrest. unfold outer. by rewrite Permutation_middle.
Qed.
End kfree_branches.
