(* ===== verification/KmallocThms.v ===== *)
(** * Theorems about the kernel heap

    The properties of [kmalloc], [kfree] and the heap's initial state, from
    the refinement lemmas of KmallocSpec. *)

From S2P Require Import Prelude Mem Kmalloc KmallocInv KmallocLayout KmallocSpec.
Local Open Scope Z_scope.
Local Open Scope kernel_scope.

(** The heap as a transition system: allocation, freeing, and clients that
    write to the payload of their blocks. *)
Inductive heap_step : heap → heap → Prop :=
| step_kmalloc s sz p s' :
    0 ≤ sz < 2 ^ 64 - 47 → kmalloc sz s = Ok (p, s') → heap_step s s'
| step_kfree s h b sz s' :
    heap_inv h s → (b, sz) ∈ allocated HEAP_START (a_chunks h) →
    kfree (b + 8) s = Ok (tt, s') → heap_step s s'
| step_client s h b sz a v s' :
    heap_inv h s → (b, sz) ∈ allocated HEAP_START (a_chunks h) → b + 8 ≤ a < b + sz →
    s' = Heap (store8 (h_mem s) a v) (freelist_head s) → heap_step s s'.

(** The chunk list of a heap with nothing allocated. *)
Definition heap_empty : aheap := AHeap [(HEAP_SIZE, true)] [HEAP_START].

(** ** Lemmas *)

Lemma payload_kept_touch L mid mid' R fl fl' m h m' ws xs xe :
  heap_inv (AHeap (L ++ mid ++ R) fl) (Heap m h) → nonempty mid = true →
  xs = HEAP_START + total L → xe = xs + total mid → total mid' = total mid →
  allocated xs mid = [] ∨ allocated xs mid' = [] →
  chg m m' ws → Forall (touch L R xs xe) ws →
  payload_kept (AHeap (L ++ mid ++ R) fl) (AHeap (L ++ mid' ++ R) fl') m m'.
Proof.
  intros Hinv Hne -> -> Ht Hdis C T b sz Hb Hb'.
  eapply (splice_payload L mid R); [exact Hinv|done|exact C|exact T|].
  simpl in *. rewrite !allocated_app, !elem_of_app in *. rewrite Ht in Hb'.
  destruct Hb as [?|[Hb|?]]; [auto| |auto]. destruct Hb' as [?|[Hb'|?]]; [auto| |auto].
  destruct Hdis as [E|E]; rewrite E in *; by apply elem_of_nil in Hb || by apply elem_of_nil in Hb'.
Qed.

(** The result of the search in a heap that satisfies the invariant. *)
Lemma search_result h s asz :
  heap_inv h s → 0 ≤ asz → asz + 32 < 2 ^ 64 →
  (∃ l1 x l2, a_free h = l1 ++ x :: l2 ∧ no_fit asz (a_chunks h) l1 ∧
     fits asz (size_at HEAP_START (a_chunks h) x) ∧
     kmalloc_search SEARCH_FUEL asz (freelist_head s) 0 s =
       Ok ((x, size_at HEAP_START (a_chunks h) x), s)) ∨
  (no_fit asz (a_chunks h) (a_free h) ∧
   ∃ fsz, kmalloc_search SEARCH_FUEL asz (freelist_head s) 0 s = Ok ((NULL, fsz), s)).
Proof.
  intros Hinv H0 H1. destruct s as [m hd].
  assert (wp (kmalloc_search SEARCH_FUEL asz hd 0) (λ r s', s' = Heap m hd ∧
    ((∃ l1 l2, a_free h = l1 ++ r.1 :: l2 ∧ no_fit asz (a_chunks h) l1 ∧
       fits asz r.2 ∧ r.2 = size_at HEAP_START (a_chunks h) r.1) ∨
     (r.1 = NULL ∧ no_fit asz (a_chunks h) (a_free h)))) (Heap m hd)) as Hwp.
  { eapply (wp_kmalloc_search m hd (size_at HEAP_START (a_chunks h)) asz SEARCH_FUEL (a_free h));
      [done|done| | | | |by destruct Hinv].
    - intros y Hy. by apply (inv_node_hdr _ _ _ Hinv).
    - by eapply inv_free_length.
    - intros l1 x l2 E Hn Hf. split; [done|]. left. exists l1, l2. done.
    - intros fsz Hn. split; [done|]. right. done. }
  apply wp_ok in Hwp as ([x fsz] & s' & E & -> & Hcase). simpl in *.
  destruct Hcase as [(l1 & l2 & ? & ? & ? & ->)|[-> ?]].
  - left. exists l1, x, l2. done.
  - right. split; [done|]. by exists fsz.
Qed.

Lemma kmalloc_cases h s sz :
  heap_inv h s → 0 ≤ sz < 2 ^ 64 - 47 →
  let asz := kmalloc_alloc_sz sz in
  (∃ x h', alloc_step asz h x h' ∧
     wp (kmalloc sz) (λ p s', p = x + 8 ∧ heap_inv h' s' ∧
       payload_kept h h' (h_mem s) (h_mem s')) s) ∨
  (no_fit asz (a_chunks h) (a_free h) ∧ kmalloc sz s = Panic "Kheap out of memory").
Proof.
  intros Hinv Hsz asz. destruct (kmalloc_alloc_sz_spec sz Hsz) as (A1 & A2 & A3 & A4).
  fold asz in A1, A2, A3, A4.
  assert (∀ r, kmalloc_search SEARCH_FUEL asz (freelist_head s) 0 s = Ok (r, s) →
    kmalloc sz s = (let '(free, free_sz) := r in
      if free =? NULL then kpanic "Kheap out of memory" else
      freelist_remove_node free;; kmalloc_carve free free_sz asz;; set_sz free asz;;
      unset_flag free FLAG_IS_FREE;; mret (free +64 sizeof_alloc_hdr_t)) s) as Hrun.
  { intros [x fsz] E. unfold kmalloc. fold asz.
    rewrite (bind_ok _ _ s (freelist_head s) s) by done. cbn beta.
    by rewrite (bind_ok _ _ s (x, fsz) s) by exact E. }
  destruct (search_result h s asz Hinv) as
    [(l1 & x & l2 & Ef & Hno & Hfit & E)|[Hno [fsz E]]]; [lia..| |].
  2: { right. split; [done|]. by rewrite (Hrun _ E). }
  left. apply Hrun in E. clear Hrun.
  destruct (inv_node_hdr _ _ x Hinv) as [Hx0 _]; [rewrite Ef; set_solver +|].
  destruct (inv_split _ _ _ _ _ Hinv Ef) as (L & fsz & R & Ec & Hx & Hsize).
  rewrite Hsize in Hfit, E. cbn beta iota in E.
  rewrite (proj2 (Z.eqb_neq x NULL) Hx0) in E. cbn beta iota in E.
  destruct h as [cs fl], s as [m hd]. simpl in *. subst cs fl.
  destruct Hfit as [->|Hfit].
  - exists x, (AHeap (L ++ [(asz, false)] ++ R) (l1 ++ l2)). split; [by constructor|].
    eapply wp_eq; [exact E|]. eapply wp_mono; [exact (wp_carve_exact L asz R l1 x l2 m hd Hinv Hx)|].
    intros p s' (-> & Hi & ws & C & T). split_and!; [done..|].
    by (apply (payload_kept_touch L [(asz, true)] _ R _ _ m hd _ ws x (x + asz));
      [| | |simpl; lia|simpl; lia|left| |]).
  - exists x, (AHeap (L ++ [(asz, false); (fsz - asz, true)] ++ R) (x + asz :: l1 ++ l2)).
    split; [by constructor|].
    eapply wp_eq; [exact E|]. eapply wp_mono; [exact (wp_carve_split L fsz asz R l1 x l2 m hd Hinv Hx A2 A4 Hfit)|].
    intros p s' (-> & Hi & ws & C & T). split_and!; [done..|].
    by (apply (payload_kept_touch L [(fsz, true)] _ R _ _ m hd _ ws x (x + fsz));
      [| | |simpl; lia|simpl; lia|left| |]).
Qed.

Lemma last_free_snoc pf L :
  last_free pf L = true → pf = false → ∃ L' psz, L = L' ++ [(psz, true)].
Proof.
  destruct L as [|[sz fr] L _] using rev_ind; simpl; [congruence|].
  rewrite last_free_app. simpl. intros -> _. eauto.
Qed.

(** [kfree] on an allocated chunk runs the branch its neighbours select. *)
Lemma kfree_dispatch L sz R fl m hd b :
  heap_inv (AHeap (L ++ [(sz, false)] ++ R) fl) (Heap m hd) → b = HEAP_START + total L →
  kfree (b + 8) (Heap m hd) =
    (if negb (last_free false L) && negb (starts_free R) then kfree_alone b (b + sz)
     else if last_free false L && negb (starts_free R) then kfree_prev b (b + sz)
     else if negb (last_free false L) && starts_free R then kfree_next b (b + sz)
     else kfree_both b (b + sz)) (Heap m hd).
Proof.
  intros Hinv Hb.
  pose proof (region_intro L [(sz, false)] R _ m hd b (b + sz) Hinv eq_refl Hb
    ltac:(simpl; lia)) as [_ _ _ _ ? ? ? _ _ _ Pm Hnb Hnh _ _ _ _].
  simpl in Pm, Hnh. inversion_clear Pm as [|? ? [Hh _] _]. simpl in Hh.
  assert (∀ A (c : M heap A) (k : A → M heap unit) v,
    wp c (λ a s', a = v ∧ s' = Heap m hd) (Heap m hd) → (c ≫= k) (Heap m hd) = k v (Heap m hd)) as Hb1.
  { intros A c k v (a & s' & E & -> & ->)%wp_ok. by apply bind_ok. }
  unfold kfree. rewrite (Hb1 _ _ _ tt).
  2: { apply wp_kassert; [apply heap_bounds; lia|done]. }
  unfold sizeof_alloc_hdr_t. replace (b + 8 - 8) with b by lia.
  rewrite (wrap_small 64 b) by heap_lia. cbn beta.
  rewrite (Hb1 _ _ _ false) by (eapply wp_get_free; [exact Hh|done]).
  rewrite (Hb1 _ _ _ tt) by by apply wp_kassert.
  rewrite (Hb1 _ _ _ sz) by (eapply wp_get_sz; [exact Hh|done]).
  rewrite (wrap_small 64 (b + sz)) by heap_lia. cbn beta.
  rewrite (Hb1 _ _ _ (last_free false L)) by (eapply wp_get_prev; [exact Hh|done]).
  rewrite (Hb1 _ _ _ (starts_free R)); [done|]. rewrite Hnb.
  destruct R as [|[nsz nfr] R']; simpl; [by apply wp_ret|].
  by eapply wp_get_free; [by eapply Hnh|].
Qed.

Lemma kfree_cases h s b sz :
  heap_inv h s → (b, sz) ∈ allocated HEAP_START (a_chunks h) →
  ∃ h', free_step b h h' ∧
    wp (kfree (b + 8)) (λ _ s', heap_inv h' s' ∧ payload_kept h h' (h_mem s) (h_mem s')) s.
Proof.
  intros Hinv Hal. apply allocated_split in Hal as (L & R & Ec & Hb).
  destruct h as [cs fl], s as [m hd]. simpl in *. subst cs.
  pose proof (kfree_dispatch L sz R fl m hd b Hinv Hb) as E.
  assert (∀ nsz R', R = (nsz, true) :: R' → ∃ l1 l2, fl = l1 ++ b + sz :: l2) as Hnext.
  { intros nsz R' ->. apply list_elem_of_split. destruct Hinv as [_ _ _ _ -> _]. simpl.
    rewrite free_addrs_app, elem_of_app. right. simpl. rewrite <-Hb. by left. }
  assert (starts_free R = true → ∃ nsz R', R = (nsz, true) :: R') as HR.
  { destruct R as [|[nsz []] R']; simpl; eauto; done. }
  destruct (last_free false L) eqn:EL, (starts_free R) eqn:ER; simpl in E.
  - apply last_free_snoc in EL as (L' & psz & ->); [|done].
    destruct (HR eq_refl) as (nsz & R' & ->). destruct (Hnext _ _ eq_refl) as (l1 & l2 & ->).
    rewrite total_app in Hb. simpl in Hb. set (x := HEAP_START + total L') in *.
    replace b with (x + psz) in * by lia. rewrite <-!app_assoc in *. simpl in Hinv.
    exists (AHeap (L' ++ [(psz + sz + nsz, true)] ++ R') (l1 ++ l2)).
    split; [by apply free_both|]. eapply wp_eq; [exact E|].
    eapply wp_mono; [exact (wp_kfree_both L' R' m hd x psz sz nsz l1 l2 Hinv eq_refl)|].
    intros _ s' (Hi & ws & C & T). split; [done|].
    by (apply (payload_kept_touch L' [(psz, true); (sz, false); (nsz, true)] _ R' _ _ m hd _ ws x
      (x + psz + sz + nsz)); [| | |simpl; lia|simpl; lia|right| |]).
  - apply last_free_snoc in EL as (L' & psz & ->); [|done].
    rewrite total_app in Hb. simpl in Hb. set (x := HEAP_START + total L') in *.
    replace b with (x + psz) in * by lia. rewrite <-!app_assoc in *. simpl in Hinv.
    exists (AHeap (L' ++ [(psz + sz, true)] ++ R) fl).
    split; [by apply free_prev|]. eapply wp_eq; [exact E|].
    eapply wp_mono; [exact (wp_kfree_prev L' R fl m hd x psz sz Hinv eq_refl ER)|].
    intros _ s' (Hi & ws & C & T). split; [done|].
    by (apply (payload_kept_touch L' [(psz, true); (sz, false)] _ R _ _ m hd _ ws x
      (x + psz + sz)); [| | |simpl; lia|simpl; lia|right| |]).
  - destruct (HR eq_refl) as (nsz & R' & ->). destruct (Hnext _ _ eq_refl) as (l1 & l2 & ->).
    exists (AHeap (L ++ [(sz + nsz, true)] ++ R') (b :: l1 ++ l2)).
    split; [by apply free_next|]. eapply wp_eq; [exact E|].
    eapply wp_mono; [exact (wp_kfree_next L R' m hd b sz nsz l1 l2 Hinv Hb EL)|].
    intros _ s' (Hi & ws & C & T). split; [done|].
    by (apply (payload_kept_touch L [(sz, false); (nsz, true)] _ R' _ _ m hd _ ws b
      (b + sz + nsz)); [| | |simpl; lia|simpl; lia|right| |]).
  - exists (AHeap (L ++ [(sz, true)] ++ R) (b :: fl)).
    split; [by apply free_alone|]. eapply wp_eq; [exact E|].
    eapply wp_mono; [exact (wp_kfree_alone L R fl m hd b sz Hinv Hb EL ER)|].
    intros _ s' (Hi & ws & C & T). split; [done|].
    by (apply (payload_kept_touch L [(sz, false)] _ R _ _ m hd _ ws b
      (b + sz)); [| | |simpl; lia|simpl; lia|right| |]).
Qed.

(** What an abstract allocation gives: a new allocated chunk, the others
    kept. *)
Lemma alloc_step_block h x h' s asz :
  alloc_step asz h x h' → heap_inv h s → 32 ≤ asz →
  allocated HEAP_START (a_chunks h') ≡ₚ (x, asz) :: allocated HEAP_START (a_chunks h) ∧
  HEAP_START ≤ x ∧ x + asz ≤ HEAP_END ∧ x mod 8 = 0 ∧
  (∀ b bsz, (b, bsz) ∈ allocated HEAP_START (a_chunks h) → b + bsz ≤ x ∨ x + asz ≤ b).
Proof.
  intros Hstep [Hl Ht _ _ _ _] Hasz.
  assert (∃ L fsz R, a_chunks h = L ++ [(fsz, true)] ++ R ∧ x = HEAP_START + total L ∧
    asz ≤ fsz ∧ allocated HEAP_START (a_chunks h') =
      allocated HEAP_START L ++ (x, asz) :: allocated (x + fsz) R)
    as (L & fsz & R & Ec & Hx & Hle & Ea).
  { destruct Hstep as [L R l1 l2 x Hx|L fsz R l1 l2 x Hx Hle]; simpl.
    - exists L, asz, R. rewrite allocated_app. simpl. rewrite Hx. done.
    - exists L, fsz, R. rewrite allocated_app. simpl. rewrite Hx.
      replace (HEAP_START + total L + asz + (fsz - asz)) with (HEAP_START + total L + fsz) by lia.
      split_and!; done || lia. }
  rewrite Ea, Ec in *. apply layout_app in Hl as (HL & _ & _ & _ & HR). simpl in HR.
  rewrite !total_app in Ht. simpl in Ht. pose proof (total_nonneg _ _ HL).
  pose proof (total_nonneg _ _ HR).
  rewrite allocated_app. simpl. rewrite <-Hx. split_and!.
  - by rewrite Permutation_middle.
  - lia.
  - unfold HEAP_END. lia.
  - pose proof (total_mod8 _ _ HL). rewrite Hx. pose proof heap_consts. dlia.
  - intros b bsz [Hb|Hb]%elem_of_app.
    + apply (allocated_range _ _ _ _ _ HL) in Hb. lia.
    + apply (allocated_range _ _ _ _ _ HR) in Hb. lia.
Qed.

Lemma free_step_block h b sz h' s :
  free_step b h h' → heap_inv h s → (b, sz) ∈ allocated HEAP_START (a_chunks h) →
  allocated HEAP_START (a_chunks h) ≡ₚ (b, sz) :: allocated HEAP_START (a_chunks h').
Proof.
  intros Hstep [Hl _ _ _ _ _] Hb.
  assert (∃ sz', allocated HEAP_START (a_chunks h) ≡ₚ
    (b, sz') :: allocated HEAP_START (a_chunks h')) as [sz' Hp].
  { destruct Hstep as [L sz' R fl Hx|L psz sz' R fl Hx|L sz' nsz R l1 l2 Hx|L psz sz' nsz R l1 l2 Hx];
      exists sz'; simpl; rewrite !allocated_app; simpl; rewrite Hx, ?Z.add_assoc;
      by rewrite Permutation_middle. }
  assert (sz' = sz) as <-; [|done].
  assert ((b, sz') ∈ allocated HEAP_START (a_chunks h)) as Hb' by (rewrite Hp; by left).
  apply allocated_split in Hb as (L & R & Ec & EL), Hb' as (L' & R' & Ec' & EL').
  pose proof (size_at_mid false HEAP_START L sz false R) as H1.
  pose proof (size_at_mid false HEAP_START L' sz' false R') as H2.
  rewrite <-Ec, <-EL in H1. rewrite <-Ec', <-EL' in H2. rewrite <-H1, <-H2 by done. done.
Qed.

(** Client writes stay in the payload of a block, which the invariant does
    not read. *)
Lemma heap_inv_client h s b sz a v :
  heap_inv h s → (b, sz) ∈ allocated HEAP_START (a_chunks h) → b + 8 ≤ a < b + sz →
  heap_inv h (Heap (store8 (h_mem s) a v) (freelist_head s)).
Proof.
  intros Hinv Hb Ha. pose proof Hinv as [Hl Ht Hp Hd Hf Hm].
  pose proof Hb as Hb0. apply allocated_split in Hb as (L & R & Ec & EL).
  destruct h as [cs fl], s as [m hd]. simpl in *. subst cs.
  pose proof (allocated_range _ _ _ _ _ Hl Hb0) as (? & ? & _).
  assert (∀ n c, c + Z.of_nat n ≤ b + 8 ∨ b + sz ≤ c → load n (store8 m a v) c = load n m c) as Hld.
  { intros n c Hc. apply load_ext. intros y Hy. unfold store8.
    destruct (Z.eqb_spec y a); [lia|done]. }
  assert (∀ c sz' fr pf, c + 8 ≤ b + 8 ∨ b + sz ≤ c → hdr m c sz' fr pf →
    hdr (store8 m a v) c sz' fr pf) as Hhd.
  { intros c sz' fr pf Hc [? ?]. split; [done|]. by rewrite Hld by lia. }
  split; simpl; [done..| | |done|].
  - apply layout_app in Hl as (HL & Hs & _ & _ & HR). simpl in HR.
    rewrite places_app, Forall_app in *. destruct Hp as [PL PR]. rewrite <-EL in *.
    assert (∀ nx pf c cs, layout pf cs → c + total cs ≤ b ∨ b + sz ≤ c →
      Forall (place_ok m) (places nx pf c cs) → Forall (place_ok (store8 m a v)) (places nx pf c cs)) as Hseg.
    { intros nx pf c cs. revert pf c. induction cs as [|[s fr] cs IH]; intros pf c Hl Hc Hpl;
        simpl in *; [done|]. destruct Hl as (? & ? & _ & Hl). pose proof (total_nonneg _ _ Hl).
      inversion_clear Hpl as [|? ? [Hh Hft] Hrest]. constructor; [|apply IH; done || lia].
      split; simpl in *; [apply Hhd; [lia|done]|]. intros. rewrite Hld by lia. auto. }
    split; [apply Hseg; [done|lia|done]|]. simpl in *.
    inversion_clear PR as [|? ? [Hh _] Hrest]. constructor; [|apply Hseg; done || lia].
    split; [apply Hhd; [left; simpl; lia|done]|done].
  - assert (∀ y, y ∈ fl → b + sz ≤ y ∨ y + 32 ≤ b) as Hsep.
    { intros y Hy. rewrite Hf in Hy. by eapply allocated_free_sep. }
    clear -Hd Hsep Hld. unfold dll in *. revert Hd. generalize NULL at 1 3 as pv. revert hd.
    induction fl as [|y fl IH]; intros cur pv Hd; simpl in *; [done|].
    destruct Hd as (-> & H1 & nx & H2 & H3). unfold off_prev, off_next in *.
    specialize (Hsep y ltac:(by left)) as Hy. rewrite !Hld by lia.
    split_and!; [done..|]. exists nx. split; [done|]. apply IH; [|done].
    intros z Hz. apply Hsep. by right.
  - intros c Hc. unfold store8. destruct (c =? a); [done|]. by apply Hm.
Qed.

Lemma heap_inv_init m :
  heap_mapped m → wp kmalloc_init_freelist (λ _ s, heap_inv heap_empty s) (Heap m NULL).
Proof.
  intros Hm. unfold kmalloc_init_freelist.
  change (align_sz HEAP_SIZE) with HEAP_SIZE.
  destruct (heap_mapped_hdr m HEAP_START Hm) as (sz0 & fr0 & pf0 & H0); [heap_lia..|].
  apply wp_bind. eapply wp_set_sz; [exact H0|done|]. intros m1 C1 H1.
  apply wp_bind. eapply wp_set_free; [exact H1|]. intros m2 C2 H2.
  apply wp_bind. eapply wp_unset_prev; [exact H2|]. intros m3 C3 H3.
  pose proof (chg_trans _ _ _ _ _ C1 (chg_trans _ _ _ _ _ C2 C3)) as C.
  pose proof (chg_heap_mapped _ _ _ C Hm) as Hm3.
  eapply (wp_freelist_add _ _ HEAP_START []); [|done|done|].
  { eapply (free_nodes_ok false HEAP_START [(HEAP_SIZE, true)]); done. }
  intros m4 ws C4 L4 D4. split; simpl; try done.
  - constructor; [|constructor]. split; simpl; [|done].
    eapply chg_hdr; [exact C4| |exact H3]. eapply Forall_impl; [exact L4|].
    intros w (y & ->%list_elem_of_singleton & Hw). unfold off_prev, off_next in *. lia.
  - by eapply chg_heap_mapped.
Qed.

(** A chunk of a list is determined by its address. *)
Lemma chunk_at_inj pf L c R L' c' R' :
  layout pf (L ++ c :: R) → L ++ c :: R = L' ++ c' :: R' → total L = total L' →
  L = L' ∧ c = c' ∧ R = R'.
Proof.
  revert pf L'. induction L as [|[sz fr] L IH]; intros pf [|[sz' fr'] L'] Hl E Ht; simpl in *.
  - by simplify_eq.
  - simplify_eq. destruct Hl as (? & _ & _ & [HL _]%layout_app).
    apply total_nonneg in HL. lia.
  - simplify_eq. destruct Hl as (? & _ & _ & [HL _]%layout_app).
    apply total_nonneg in HL. lia.
  - simplify_eq. destruct Hl as (_ & _ & _ & Hl).
    destruct (IH _ L' Hl) as (-> & -> & ->); [done|lia|done].
Qed.

(** Freeing the chunk just allocated restores the chunk list. *)
Lemma alloc_free_chunks asz h x h1 h2 s s1 :
  heap_inv h s → heap_inv h1 s1 → alloc_step asz h x h1 → free_step x h1 h2 →
  a_chunks h2 = a_chunks h.
Proof.
  intros [Hl _ _ _ _ _] [Hl1 _ _ _ _ _] Halloc Hfree.
  assert (∃ L fsz R R1, a_chunks h = L ++ (fsz, true) :: R ∧ a_chunks h1 = L ++ (asz, false) :: R1 ∧
    x = HEAP_START + total L ∧
    (fsz = asz ∧ R1 = R ∨ R1 = (fsz - asz, true) :: R)) as (L & fsz & R & R1 & E & E1 & Hx & Hcase).
  { destruct Halloc as [L R l1 l2 x Hx|L fsz R l1 l2 x Hx]; simpl;
      [exists L, asz, R, R|exists L, fsz, R, ((fsz - asz, true) :: R)]; auto 10. }
  rewrite E in Hl. apply layout_app in Hl as (HL & _ & _ & Hadj & HR).
  rewrite andb_true_r in Hadj. rewrite E.
  assert (∀ L' c R', a_chunks h1 = L' ++ c :: R' → x = HEAP_START + total L' →
    L' = L ∧ c = (asz, false) ∧ R' = R1) as Hat.
  { intros L' c R' E' Hx'. rewrite E1 in Hl1, E'.
    destruct (chunk_at_inj _ _ _ _ _ _ _ Hl1 E') as (-> & <- & ->); [lia|done]. }
  assert (starts_free R1 = false → fsz = asz ∧ R1 = R) as HR1 by (intros ?; by destruct Hcase as [? | ->]).
  assert (∀ nsz R', R1 = (nsz, true) :: R' → nsz = fsz - asz ∧ R' = R) as HR1'.
  { intros nsz R' ER. destruct Hcase as [[_ ->] | ->]; [|by simplify_eq].
    rewrite ER in HR. simpl in HR. destruct HR as (_ & _ & ? & _). done. }
  destruct Hfree as [L' sz R' fl Hx' _ HsR|L' psz sz R' fl Hx' HsR|
    L' sz nsz R' l1 l2 Hx' _|L' psz sz nsz R' l1 l2 Hx']; simpl in *.
  - destruct (Hat L' _ R' eq_refl Hx') as (-> & [= ->] & ->). by destruct (HR1 HsR) as [-> ->].
  - destruct (Hat (L' ++ [(psz, true)]) (sz, false) R') as (<- & _ & _).
    { by rewrite <-app_assoc. } { rewrite total_app. simpl. lia. }
    by rewrite last_free_app in Hadj.
  - destruct (Hat L' _ _ eq_refl Hx') as (-> & [= ->] & EQ).
    destruct (HR1' _ _ (symmetry EQ)) as [-> ->]. do 3 f_equal. lia.
  - destruct (Hat (L' ++ [(psz, true)]) (sz, false) ((nsz, true) :: R')) as (<- & _ & _).
    { by rewrite <-app_assoc. } { rewrite total_app. simpl. lia. }
    by rewrite last_free_app in Hadj.
Qed.

(** ** The claims *)

(** C3: On a heap that satisfies the invariant, a request for which some free
    chunk fits is served: [kmalloc] returns, without fault or panic, the
    payload address of the first chunk of the free list that fits, cut to the
    aligned size, in a heap that satisfies the invariant, and the contents of
    every block that was allocated is unchanged. *)
Theorem kmalloc_allocates h s sz :
  heap_inv h s → 0 ≤ sz < 2 ^ 64 - 47 →
  Exists (λ y, fits (kmalloc_alloc_sz sz) (size_at HEAP_START (a_chunks h) y)) (a_free h) →
  ∃ x h', alloc_step (kmalloc_alloc_sz sz) h x h' ∧
    wp (kmalloc sz) (λ p s', p = x + 8 ∧ heap_inv h' s' ∧
      payload_kept h h' (h_mem s) (h_mem s')) s.
Proof.
  intros Hinv Hsz Hex. destruct (kmalloc_cases h s sz Hinv Hsz) as [?|[Hno _]]; [done|].
  unfold no_fit in Hno. exfalso. apply Exists_exists in Hex as (y & Hy & Hf). rewrite Forall_forall in Hno.
  by apply (Hno y).
Qed.

(** The block [kmalloc] returns: it is 8-byte aligned, lies in the heap
    with room for the [sz] bytes asked for, overlaps no block that was already
    allocated, and every such block stays allocated. *)
Theorem kmalloc_block h s sz p s' :
  heap_inv h s → 0 ≤ sz < 2 ^ 64 - 47 → kmalloc sz s = Ok (p, s') →
  ∃ h' asz, heap_inv h' s' ∧ sz + 8 ≤ asz ∧
    allocated HEAP_START (a_chunks h') ≡ₚ (p - 8, asz) :: allocated HEAP_START (a_chunks h) ∧
    p mod 8 = 0 ∧ HEAP_START ≤ p ∧ p + sz ≤ HEAP_END ∧
    (∀ b bsz, (b, bsz) ∈ allocated HEAP_START (a_chunks h) → b + bsz ≤ p - 8 ∨ p + sz ≤ b).
Proof.
  intros Hinv Hsz E. destruct (kmalloc_alloc_sz_spec sz Hsz) as (A1 & A2 & _).
  destruct (kmalloc_cases h s sz Hinv Hsz) as [(x & h' & Hstep & Hwp)|[_ E']]; [|congruence].
  unfold wp in Hwp. rewrite E in Hwp. destruct Hwp as (-> & Hi & _).
  destruct (alloc_step_block _ _ _ _ _ Hstep Hinv A2) as (Hp & H1 & H2 & H3 & H4).
  exists h', (kmalloc_alloc_sz sz). replace (x + 8 - 8) with x by lia.
  split_and!; [done|done|done|dlia|lia|lia|].
  intros b bsz Hb. specialize (H4 b bsz Hb). lia.
Qed.

(** [kmalloc] panics exactly when no free chunk fits the request. *)
Theorem kmalloc_out_of_memory h s sz :
  heap_inv h s → 0 ≤ sz < 2 ^ 64 - 47 →
  kmalloc sz s = Panic "Kheap out of memory" ↔
  Forall (λ y, ¬ fits (kmalloc_alloc_sz sz) (size_at HEAP_START (a_chunks h) y)) (a_free h).
Proof.
  intros Hinv Hsz. destruct (kmalloc_cases h s sz Hinv Hsz) as [(x & h' & Hstep & Hwp)|[Hno E]].
  - unfold wp in Hwp. split; [by destruct (kmalloc sz s) as [[]| | |]|].
    intros Hno. exfalso. rewrite Forall_forall in Hno.
    destruct Hinv as [Hl _ _ _ _ _].
    destruct Hstep as [L R l1 l2 x Hx|L fsz R l1 l2 x Hx Hle]; simpl in *;
      apply (Hno x); try (set_solver +); rewrite Hx; erewrite size_at_mid by exact Hl;
      unfold fits; lia.
  - done.
Qed.

(** C4: Freeing an allocated block returns, merges the chunk with the free
    chunks on either side, leaves exactly the other blocks allocated with
    their contents, and preserves the invariant. *)
Theorem kfree_frees h s b sz :
  heap_inv h s → (b, sz) ∈ allocated HEAP_START (a_chunks h) →
  ∃ h', free_step b h h' ∧
    allocated HEAP_START (a_chunks h) ≡ₚ (b, sz) :: allocated HEAP_START (a_chunks h') ∧
    wp (kfree (b + 8)) (λ _ s', heap_inv h' s' ∧ payload_kept h h' (h_mem s) (h_mem s')) s.
Proof.
  intros Hinv Hb. destruct (kfree_cases h s b sz Hinv Hb) as (h' & Hstep & Hwp).
  exists h'. split_and!; [done| |done]. by eapply free_step_block.
Qed.

(** [kmalloc_init] (its part after the pages are mapped) turns any mapped
    heap memory, whatever it contains, into the heap with one free chunk of
    [HEAP_SIZE] bytes. *)
Theorem kmalloc_init_establishes m :
  heap_mapped m → wp kmalloc_init_freelist (λ _ s, heap_inv heap_empty s) (Heap m NULL).
Proof. apply heap_inv_init. Qed.

(** C2: Whatever sequence of allocations, frees of allocated blocks and client
    writes inside allocated blocks runs after initialisation, the invariant
    holds, and the next allocation returns or panics for lack of memory: it
    does not fault, and its search loop ends.  The requests, those before and
    the next one, are of less than [2 ^ 64 - 47] bytes: the bound is the
    least size at which the additions of [kmalloc] wrap around
    ([kmalloc_huge_faults], [kmalloc_size_wraps]). *)
Theorem heap_reachable_safe m s0 s sz :
  heap_mapped m → kmalloc_init_freelist (Heap m NULL) = Ok (tt, s0) →
  rtc heap_step s0 s → 0 ≤ sz < 2 ^ 64 - 47 →
  (∃ h, heap_inv h s) ∧
  ((∃ p s', kmalloc sz s = Ok (p, s')) ∨ kmalloc sz s = Panic "Kheap out of memory").
Proof.
  intros Hm E0 Hrtc Hsz.
  assert (∃ h, heap_inv h s) as [h Hinv].
  { pose proof (heap_inv_init m Hm) as H0. unfold wp in H0. rewrite E0 in H0.
    assert (∃ h, heap_inv h s0) as H0' by eauto. clear E0 H0.
    induction Hrtc as [|s1 s2 s3 Hstep _ IH]; [done|]. apply IH. destruct H0' as [h Hi].
    destruct Hstep as [s1 sz1 p s2 Hsz1 E|s1 h1 b bsz s2 Hi1 Hb E|s1 h1 b bsz a v s2 Hi1 Hb Ha ->].
    - destruct (kmalloc_cases h s1 sz1 Hi Hsz1) as [(x & h' & _ & Hwp)|[_ E']]; [|congruence].
      unfold wp in Hwp. rewrite E in Hwp. destruct Hwp as (_ & ? & _). eauto.
    - destruct (kfree_cases h1 s1 b bsz Hi1 Hb) as (h' & _ & Hwp).
      unfold wp in Hwp. rewrite E in Hwp. destruct Hwp as [? _]. eauto.
    - eauto using heap_inv_client. }
  split; [eauto|].
  destruct (kmalloc_cases h s sz Hinv Hsz) as [(x & h' & _ & Hwp)|[_ E']]; [|auto].
  left. apply wp_ok in Hwp as (p & s' & ? & _). eauto.
Qed.

(** Freeing the block [kmalloc] just returned restores the chunk list of
    the heap before the allocation, and its free chunks. *)
Theorem kmalloc_kfree_roundtrip h s sz p s1 :
  heap_inv h s → 0 ≤ sz < 2 ^ 64 - 47 → kmalloc sz s = Ok (p, s1) →
  wp (kfree p) (λ _ s2, ∃ fl, fl ≡ₚ a_free h ∧ heap_inv (AHeap (a_chunks h) fl) s2) s1.
Proof.
  intros Hinv Hsz E. destruct (kmalloc_alloc_sz_spec sz Hsz) as (_ & A2 & _).
  destruct (kmalloc_cases h s sz Hinv Hsz) as [(x & h1 & Hstep & Hwp)|[_ E']]; [|congruence].
  unfold wp in Hwp. rewrite E in Hwp. destruct Hwp as (-> & Hi1 & _).
  destruct (alloc_step_block _ _ _ _ _ Hstep Hinv A2) as (Hp & _).
  destruct (kfree_cases h1 s1 x (kmalloc_alloc_sz sz) Hi1) as (h2 & Hfree & Hwp2).
  { rewrite Hp. by left. }
  eapply wp_mono; [exact Hwp2|]. intros _ s2 [Hi2 _].
  pose proof (alloc_free_chunks _ _ _ _ _ _ _ Hinv Hi1 Hstep Hfree) as Ec.
  exists (a_free h2). rewrite <-Ec. split; [|by destruct h2].
  destruct Hi2 as [_ _ _ _ -> _], Hinv as [_ _ _ _ -> _]. by rewrite Ec.
Qed.

(** [kfree] of a chunk that is on the free list is refused with the double
    free panic. *)
Theorem kfree_double_free h s b :
  heap_inv h s → b ∈ a_free h → kfree (b + 8) s = Panic "kmalloc: double free".
Proof.
  intros [Hl Ht Hp _ Hf _] Hb. rewrite Hf in Hb. destruct s as [m hd].
  pose proof (free_addrs_range _ _ _ _ Hl Hb) as [? ?].
  apply free_addrs_split in Hb as (L & sz & R & E & Eb). rewrite E in *.
  rewrite places_app, Forall_app in Hp. destruct Hp as [_ Hp].
  inversion_clear Hp as [|? ? [Hh _] _]. simpl in Hh. rewrite <-Eb in Hh.
  pose proof heap_consts as [? ?]. unfold HEAP_SIZE in *.
  unfold kfree. rewrite (proj2 (heap_bounds (b + 8))) by lia.
  rewrite (bind_ok _ _ _ tt (Heap m hd)) by done. unfold sizeof_alloc_hdr_t.
  replace (b + 8 - 8) with b by lia. rewrite (wrap_small 64 b) by lia. cbn beta.
  destruct (wp_ok (get_flag b FLAG_IS_FREE) (λ v s', v = true ∧ s' = Heap m hd) (Heap m hd))
    as [(v & s' & Eg & -> & ->) _].
  { by eapply wp_get_free. }
  by rewrite (bind_ok _ _ _ _ _ Eg).
Qed.

(** A second [kfree] of a block that was merged into the free chunk before
    it is not refused, and afterwards the heap hands out a block that is still
    in use: with three blocks [p], [q], [r], freeing [p], [q] and [q] again
    lets the second of two further allocations return [r]. *)
Theorem kfree_double_free_missed :
  match (kmalloc_init_freelist;;
         p ← kmalloc 24; q ← kmalloc 24; r ← kmalloc 24;
         kfree p;; kfree q;; kfree q;;
         a ← kmalloc 56; b ← kmalloc 24; mret (r, b)) heap0 with
  | Ok ((r, b), _) => b = r
  | _ => False
  end.
Proof. vm_compute. reflexivity. Qed.

(** A request within 15 bytes of [2^64] wraps around: the chunk that
    serves it has the minimum size of 32 bytes. *)
Theorem kmalloc_size_wraps sz :
  2 ^ 64 - 15 ≤ sz < 2 ^ 64 → kmalloc_alloc_sz sz = 32.
Proof.
  intros Hsz. unfold kmalloc_alloc_sz, align_sz, ALIGN_UP, sizeof_alloc_hdr_t, HEAP_ALIGNMENT.
  change FREE_CHUNK_MIN_SZ with 32.
  assert (Z.land ((sz +64 8) +64 (8 - 1)) (lnot64 (8 - 1)) < 32) as Hlt.
  { change (lnot64 (8 - 1)) with (2 ^ 64 - 2 ^ 3).
    rewrite land_high_mask by (split; try apply wrap_range; lia). unfold wrap.
    change (2 ^ 3) with 8. change (2 ^ 64) with 18446744073709551616 in *. dlia. }
  destruct (Z.ltb_spec (Z.land ((sz +64 8) +64 (8 - 1)) (lnot64 (8 - 1))) 32); [done|lia].
Qed.

(** ** Witnesses: the theorems at a concrete heap *)

Definition heap1 : heap :=
  match kmalloc_init_freelist heap0 with Ok (_, s) => s | _ => heap0 end.

Lemma heap0_mapped : heap_mapped (h_mem heap0).
Proof.
  intros x Hx. simpl. rewrite (proj2 (heap_bounds x)) by lia. eauto.
Qed.

Lemma heap1_inv : heap_inv heap_empty heap1.
Proof.
  pose proof (heap_inv_init _ heap0_mapped) as H. unfold wp in H. unfold heap1.
  change heap0 with (Heap (h_mem heap0) NULL) in *.
  by destruct (kmalloc_init_freelist _) as [[]| | |].
Qed.

Lemma heap0_init : kmalloc_init_freelist (Heap (h_mem heap0) NULL) = Ok (tt, heap1).
Proof.
  pose proof (heap_inv_init _ heap0_mapped) as H. unfold wp in H. unfold heap1.
  change (Heap (h_mem heap0) NULL) with heap0 in *.
  by destruct (kmalloc_init_freelist heap0) as [[[] s]| | |].
Qed.

Definition heap2 : heap :=
  match kmalloc 100 heap1 with Ok (_, s) => s | _ => heap1 end.

Lemma heap1_kmalloc : kmalloc 100 heap1 = Ok (HEAP_START + 8, heap2).
Proof.
  assert (match kmalloc 100 heap1 with Ok (p, _) => p = HEAP_START + 8 | _ => False end) as H
    by (vm_compute; reflexivity).
  unfold heap2. destruct (kmalloc 100 heap1) as [[p s]| | |]; [by rewrite H|done..].
Qed.

Lemma heap2_inv :
  ∃ h, heap_inv h heap2 ∧ (HEAP_START, 112) ∈ allocated HEAP_START (a_chunks h).
Proof.
  destruct (kmalloc_cases heap_empty heap1 100 heap1_inv ltac:(lia))
    as [(x & h & Hstep & Hwp)|[_ E]]; [|by rewrite heap1_kmalloc in E].
  unfold wp in Hwp. rewrite heap1_kmalloc in Hwp. destruct Hwp as (Hx & Hi & _).
  exists h. split; [done|].
  destruct (alloc_step_block _ _ _ _ _ Hstep heap1_inv) as [-> _]; [vm_compute; congruence|].
  replace x with HEAP_START by lia. by left.
Qed.

Lemma kmalloc_allocates_witness :
  ∃ x h', alloc_step (kmalloc_alloc_sz 100) heap_empty x h' ∧
    wp (kmalloc 100) (λ p s', p = x + 8 ∧ heap_inv h' s' ∧
      payload_kept heap_empty h' (h_mem heap1) (h_mem s')) heap1.
Proof.
  apply kmalloc_allocates; [apply heap1_inv|lia|].
  apply Exists_cons_hd. right. vm_compute. congruence.
Defined.

Lemma kmalloc_block_witness :
  ∃ h' asz, heap_inv h' heap2 ∧ 100 + 8 ≤ asz ∧
    allocated HEAP_START (a_chunks h') ≡ₚ
      (HEAP_START + 8 - 8, asz) :: allocated HEAP_START (a_chunks heap_empty) ∧
    (HEAP_START + 8) mod 8 = 0 ∧ HEAP_START ≤ HEAP_START + 8 ∧ HEAP_START + 8 + 100 ≤ HEAP_END ∧
    (∀ b bsz, (b, bsz) ∈ allocated HEAP_START (a_chunks heap_empty) →
       b + bsz ≤ HEAP_START + 8 - 8 ∨ HEAP_START + 8 + 100 ≤ b).
Proof.
  apply (kmalloc_block heap_empty heap1 100); [apply heap1_inv|lia|apply heap1_kmalloc].
Defined.

Lemma kmalloc_out_of_memory_witness :
  kmalloc 0x200000 heap1 = Panic "Kheap out of memory" ↔
  Forall (λ y, ¬ fits (kmalloc_alloc_sz 0x200000) (size_at HEAP_START (a_chunks heap_empty) y))
    (a_free heap_empty).
Proof. apply (kmalloc_out_of_memory heap_empty heap1); [apply heap1_inv|lia]. Defined.

Lemma kfree_frees_witness :
  ∃ h h', heap_inv h heap2 ∧ free_step HEAP_START h h' ∧
    allocated HEAP_START (a_chunks h) ≡ₚ (HEAP_START, 112) :: allocated HEAP_START (a_chunks h') ∧
    wp (kfree (HEAP_START + 8)) (λ _ s', heap_inv h' s' ∧
      payload_kept h h' (h_mem heap2) (h_mem s')) heap2.
Proof.
  destruct heap2_inv as (h & Hi & Hb).
  destruct (kfree_frees h heap2 HEAP_START 112 Hi Hb) as (h' & H). exists h, h'. by split.
Defined.

Lemma kmalloc_init_establishes_witness :
  wp kmalloc_init_freelist (λ _ s, heap_inv heap_empty s) (Heap (h_mem heap0) NULL).
Proof. apply kmalloc_init_establishes, heap0_mapped. Defined.

Lemma heap_reachable_safe_witness :
  (∃ h, heap_inv h heap2) ∧
  ((∃ p s', kmalloc 8 heap2 = Ok (p, s')) ∨ kmalloc 8 heap2 = Panic "Kheap out of memory").
Proof.
  apply (heap_reachable_safe (h_mem heap0) heap1);
    [apply heap0_mapped|apply heap0_init| |lia].
  eapply rtc_once, (step_kmalloc heap1 100); [lia|apply heap1_kmalloc].
Defined.

Lemma kmalloc_kfree_roundtrip_witness :
  wp (kfree (HEAP_START + 8)) (λ _ s2, ∃ fl, fl ≡ₚ a_free heap_empty ∧
    heap_inv (AHeap (a_chunks heap_empty) fl) s2) heap2.
Proof.
  apply (kmalloc_kfree_roundtrip heap_empty heap1 100);
    [apply heap1_inv|lia|apply heap1_kmalloc].
Defined.

Lemma kfree_double_free_witness : kfree (HEAP_START + 8) heap1 = Panic "kmalloc: double free".
Proof. apply (kfree_double_free heap_empty); [apply heap1_inv|by left]. Defined.

(** Sizes from [2 ^ 64 - 47] to [2 ^ 64 - 16]: the test
    for a chunk that is large enough wraps around, the first chunk is taken
    for it, and on the fresh heap the rest of the chunk is written in front of
    the heap, which faults. *)
Lemma kmalloc_huge_faults :
  Forall (λ k, ∃ a, kmalloc (2 ^ 64 - k) heap1 = Fault a) (seqZ 16 32).
Proof.
  assert (forallb (λ k, match kmalloc (2 ^ 64 - k) heap1 with Fault _ => true | _ => false end) (seqZ 16 32) = true)
    as H by (vm_compute; reflexivity).
  rewrite forallb_forall in H. apply List.Forall_forall. intros k Hk. specialize (H k Hk). cbn beta in H.
  destruct (kmalloc (2 ^ 64 - k) heap1) as [| |a|]; try discriminate. by exists a.
Qed.

Lemma kmalloc_size_wraps_witness : kmalloc_alloc_sz (2 ^ 64 - 1) = 32.
Proof. apply kmalloc_size_wraps. lia. Defined.
