(* ===== verification/Events.v ===== *)
(** * The event queue: kernel/multitasking/events.c

    Timer events are kept in a binary search tree of heap objects with left,
    right and parent pointers, ordered by time.  The state is the store of
    the [Event] objects, keyed by their addresses, and the static
    [event_root]; an access through NULL or to an address that holds no event
    faults.  Loops along a path are bounded by the number of events. *)

From S2P Require Import Prelude.
Local Open Scope Z_scope.

(** The functions the kernel stores in an event's [callback]. *)
Inductive EventCallback := cb_null | cb_switch_thread | cb_thread_wake.

#[export] Instance EventCallback_eq_dec : EqDecision EventCallback.
Proof. solve_decision. Defined.

Record Event := MkEvent {
  ev_owner : Z;
  ev_time : Z;
  ev_enqueued : bool;
  ev_callback : EventCallback;
  ev_kind : string;
  ev_callback_arg : Z;
  ev_left : Z;
  ev_right : Z;
  ev_parent : Z
}.

Definition set_left (p : Z) (e : Event) : Event :=
  MkEvent (ev_owner e) (ev_time e) (ev_enqueued e) (ev_callback e) (ev_kind e)
    (ev_callback_arg e) p (ev_right e) (ev_parent e).
Definition set_right (p : Z) (e : Event) : Event :=
  MkEvent (ev_owner e) (ev_time e) (ev_enqueued e) (ev_callback e) (ev_kind e)
    (ev_callback_arg e) (ev_left e) p (ev_parent e).
Definition set_parent (p : Z) (e : Event) : Event :=
  MkEvent (ev_owner e) (ev_time e) (ev_enqueued e) (ev_callback e) (ev_kind e)
    (ev_callback_arg e) (ev_left e) (ev_right e) p.
Definition set_enqueued (b : bool) (e : Event) : Event :=
  MkEvent (ev_owner e) (ev_time e) b (ev_callback e) (ev_kind e)
    (ev_callback_arg e) (ev_left e) (ev_right e) (ev_parent e).
Definition set_time (t : Z) (e : Event) : Event :=
  MkEvent (ev_owner e) t (ev_enqueued e) (ev_callback e) (ev_kind e)
    (ev_callback_arg e) (ev_left e) (ev_right e) (ev_parent e).

Definition ev_null : Z := 0.

(** The static data of events.c, with the events in memory. *)
Record evq := MkEvq { evs : gmap Z Event; event_root : Z }.

Definition get_event (p : Z) : M evq Event := λ s,
  match evs s !! p with Some e => Ok (e, s) | None => Fault p end.

(** [p->field = v] for a field setter. *)
Definition upd_event (p : Z) (f : Event → Event) : M evq unit := λ s,
  match evs s !! p with
  | Some e => Ok (tt, MkEvq (<[p := f e]> (evs s)) (event_root s))
  | None => Fault p
  end.

Definition set_event_root (p : Z) : M evq unit := modify (λ s, MkEvq (evs s) p).

(** The value [event_create] stores in a new event; [enqueued] is not named
    in the compound literal and so is false. *)
Definition event_init : Event :=
  MkEvent ev_null 0 false cb_null "NONE" ev_null ev_null ev_null ev_null.

(** The walk of [event_bst_insert]: from [current], the last node before the
    walk falls off the tree. *)
Fixpoint bst_walk (fuel : nat) (t current parent : Z) : M evq Z :=
  if current =? ev_null then mret parent else
  match fuel with
  | O => nofuel
  | S fuel' =>
      c ← get_event current;
      if t <? ev_time c then bst_walk fuel' t (ev_left c) current
      else bst_walk fuel' t (ev_right c) current
  end.

Definition event_bst_insert (node : Z) : M evq unit :=
  root ← gets event_root;
  if root =? ev_null then set_event_root node else
  n ← get_event node;
  fuel ← gets (λ s, size (evs s));
  parent ← bst_walk fuel (ev_time n) root ev_null;
  upd_event node (set_parent parent);;
  n ← get_event node;
  p ← get_event parent;
  if ev_time n <? ev_time p then upd_event parent (set_left node)
  else upd_event parent (set_right node).

Definition bst_transplant (u v : Z) : M evq unit :=
  eu ← get_event u;
  (if ev_parent eu =? ev_null then set_event_root v
   else
     p ← get_event (ev_parent eu);
     if u =? ev_left p then upd_event (ev_parent eu) (set_left v)
     else upd_event (ev_parent eu) (set_right v));;
  if negb (v =? ev_null) then
    eu ← get_event u;
    upd_event v (set_parent (ev_parent eu))
  else mret tt.

(** The loop of [bst_minimum]. *)
Fixpoint bst_leftmost (fuel : nat) (node : Z) : M evq Z :=
  n ← get_event node;
  if ev_left n =? ev_null then mret node else
  match fuel with
  | O => nofuel
  | S fuel' => bst_leftmost fuel' (ev_left n)
  end.

Definition bst_minimum (node : Z) : M evq Z :=
  if node =? ev_null then mret ev_null else
  fuel ← gets (λ s, size (evs s));
  bst_leftmost fuel node.

Definition bst_delete (node : Z) : M evq unit :=
  n ← get_event node;
  if ev_left n =? ev_null then bst_transplant node (ev_right n)
  else if ev_right n =? ev_null then bst_transplant node (ev_left n)
  else
    y ← bst_minimum (ev_right n);
    ey ← get_event y;
    (if negb (ev_parent ey =? node) then
       bst_transplant y (ev_right ey);;
       n ← get_event node;
       upd_event y (set_right (ev_right n));;
       ey ← get_event y;
       if negb (ev_right ey =? ev_null) then upd_event (ev_right ey) (set_parent y) else mret tt
     else mret tt);;
    bst_transplant node y;;
    n ← get_event node;
    upd_event y (set_left (ev_left n));;
    ey ← get_event y;
    if negb (ev_left ey =? ev_null) then upd_event (ev_left ey) (set_parent y) else mret tt.

(** [to->left = to->right = to->parent = NULL]. *)
Definition clear_links (p : Z) : M evq unit :=
  upd_event p (set_parent ev_null);; upd_event p (set_right ev_null);;
  upd_event p (set_left ev_null).

Definition event_remove (to_remove : Z) : M evq unit :=
  root ← gets event_root;
  if (root =? ev_null) || (to_remove =? ev_null) then mret tt else
  bst_delete to_remove;;
  clear_links to_remove;;
  upd_event to_remove (set_enqueued false).

Definition event_enqueue (to_insert : Z) : M evq unit :=
  kassert (negb (to_insert =? ev_null)) "Event to be inserted is null";;
  e ← get_event to_insert;
  (if ev_enqueued e then event_remove to_insert else mret tt);;
  clear_links to_insert;;
  event_bst_insert to_insert;;
  upd_event to_insert (set_enqueued true).

Definition event_peek_next : M evq Z :=
  root ← gets event_root; bst_minimum root.

Definition event_dequeue : M evq Z :=
  root ← gets event_root;
  kassert (negb (root =? ev_null)) "event_dequeue(): event_queue is empty";;
  min_event ← bst_minimum root;
  bst_delete min_event;;
  mret min_event.

(** [print_event_bst_inorder]: what is logged for each node, in the order of
    the calls. *)
Fixpoint print_event_bst_inorder (fuel : nat) (node : Z) : M evq (list (Z * string * Z)) :=
  if node =? ev_null then mret [] else
  match fuel with
  | O => nofuel
  | S fuel' =>
      n ← get_event node;
      l ← print_event_bst_inorder fuel' (ev_left n);
      r ← print_event_bst_inorder fuel' (ev_right n);
      mret (l ++ (ev_owner n, ev_kind n, ev_time n) :: r)
  end.

Definition print_event_queue : M evq (list (Z * string * Z)) :=
  root ← gets event_root;
  if root =? ev_null then mret [] else
  fuel ← gets (λ s, size (evs s));
  print_event_bst_inorder fuel root.

(** ** Runs *)

(** Events 1, 2, ..., n with the given times, none enqueued. *)
Definition evq_of (times : list Z) : evq :=
  MkEvq (list_to_map (imap (λ i t, (Z.of_nat i + 1,
    MkEvent ev_null t false cb_null "NONE" ev_null ev_null ev_null ev_null)) times)) ev_null.

Example run_queue :
  match (event_enqueue 1;; event_enqueue 2;; event_enqueue 3;; event_enqueue 4;;
         event_remove 2;; event_enqueue 1;; l ← print_event_queue; mret (map snd l))
        (evq_of [30; 10; 30; 20]) with
  | Ok (l, _) => l = [20; 30; 30]
  | _ => False
  end.
Proof. vm_compute. reflexivity. Qed.
