(* ===== verification/EventTree.v ===== *)
(** * The event tree and its in-order list

    [tree_at] relates the events in memory to a functional tree of pointers,
    [ctx_at] to a tree with a hole; the lemmas give the effect of
    [bst_transplant], [bst_minimum], [bst_delete] and [event_bst_insert] on
    the in-order list of the tree. *)

From S2P Require Import Prelude Events.
Local Open Scope Z_scope.

Inductive tree := Leaf | Node (l : tree) (x : Z) (r : tree).

Fixpoint inorder (t : tree) : list Z :=
  match t with Leaf => [] | Node l x r => inorder l ++ x :: inorder r end.

Definition links (e : Event) : Z * Z * Z := (ev_left e, ev_right e, ev_parent e).
Definition lk (m : gmap Z Event) (x : Z) : option (Z * Z * Z) := links <$> m !! x.

(** Everything of an event that is not a tree link. *)
Definition data (e : Event) : Event := set_left ev_null (set_right ev_null (set_parent ev_null e)).

(** The tree [t] at pointer [p], below the node [par]. *)
Fixpoint tree_at (m : gmap Z Event) (par p : Z) (t : tree) : Prop :=
  match t with
  | Leaf => p = ev_null
  | Node l x r => p = x ∧ x ≠ ev_null ∧
      ∃ pl pr, lk m x = Some (pl, pr, par) ∧ tree_at m x pl l ∧ tree_at m x pr r
  end.

(** A path to a hole, innermost step first: [true] for a left child, with the
    node and its other subtree. *)
Abbreviation path := (list (bool * Z * tree)).

Fixpoint plug (c : path) (t : tree) : tree :=
  match c with
  | [] => t
  | (true, x, sib) :: c' => plug c' (Node t x sib)
  | (false, x, sib) :: c' => plug c' (Node sib x t)
  end.

Fixpoint cbefore (c : path) : list Z :=
  match c with
  | [] => []
  | (true, _, _) :: c' => cbefore c'
  | (false, x, sib) :: c' => cbefore c' ++ inorder sib ++ [x]
  end.

Fixpoint cafter (c : path) : list Z :=
  match c with
  | [] => []
  | (true, x, sib) :: c' => x :: inorder sib ++ cafter c'
  | (false, _, _) :: c' => cafter c'
  end.

Definition cnodes (c : path) : list Z := cbefore c ++ cafter c.

Fixpoint ctx_at (m : gmap Z Event) (root hole par : Z) (c : path) : Prop :=
  match c with
  | [] => root = hole ∧ par = ev_null
  | (b, x, sib) :: c' => par = x ∧ x ≠ ev_null ∧
      ∃ psib gp, lk m x = Some (if b : bool then (hole, psib, gp) else (psib, hole, gp)) ∧
        tree_at m x psib sib ∧ ctx_at m root x gp c'
  end.

(** [m'] differs from [m] in the links of the events [ps] only. *)
Definition ev_frame (ps : list Z) (m m' : gmap Z Event) : Prop :=
  (∀ x, x ∉ ps → m' !! x = m !! x) ∧ (∀ x, data <$> m' !! x = data <$> m !! x).

(** ** Trees and paths *)

Lemma inorder_plug c t : inorder (plug c t) = cbefore c ++ inorder t ++ cafter c.
Proof.
  revert t. induction c as [|[[[] x] sib] c IH]; intros t; simpl.
  - by rewrite app_nil_r.
  - rewrite IH. simpl. by rewrite <-!app_assoc.
  - rewrite IH. simpl. by rewrite <-!app_assoc.
Qed.

Lemma plug_app c1 c2 t : plug (c1 ++ c2) t = plug c2 (plug c1 t).
Proof. revert t. induction c1 as [|[[[] x] sib] c1 IH]; intros t; simpl; auto. Qed.

Lemma tree_split t x : x ∈ inorder t → ∃ c l r, t = plug c (Node l x r).
Proof.
  induction t as [|l IHl y r IHr]; simpl; [set_solver|].
  rewrite elem_of_app, elem_of_cons. intros [Hx|[->|Hx]].
  - destruct (IHl Hx) as (c & l' & r' & ->). exists (c ++ [(true, y, r)]), l', r'.
    by rewrite plug_app.
  - by exists [], l, r.
  - destruct (IHr Hx) as (c & l' & r' & ->). exists (c ++ [(false, y, l)]), l', r'.
    by rewrite plug_app.
Qed.

Lemma plug_at m root c t :
  tree_at m ev_null root (plug c t) ↔
  ∃ hole par, ctx_at m root hole par c ∧ tree_at m par hole t.
Proof.
  revert t. induction c as [|[[b x] sib] c IH]; intros t; simpl.
  { split; [eauto|]. by intros (? & ? & [-> ->] & ?). }
  assert (tree_at m ev_null root (plug ((b, x, sib) :: c) t) ↔
    tree_at m ev_null root (plug c (if b then Node t x sib else Node sib x t))) as ->
    by by destruct b.
  rewrite IH. split.
  - intros (hole & par & Hc & Ht).
    destruct b; simpl in Ht; destruct Ht as (-> & Hx & pl & pr & Hl & H1 & H2);
      [exists pl, x|exists pr, x]; (split; [|done]);
      (split; [done|]); (split; [done|]); [exists pr, par|exists pl, par]; done.
  - intros (hole & par & (-> & Hx & psib & gp & Hl & Hs & Hc) & Ht).
    exists x, gp. split; [done|].
    destruct b; simpl; (split; [done|]); (split; [done|]); eauto.
Qed.

Lemma tree_at_frame m m' par p t :
  (∀ x, x ∈ inorder t → lk m' x = lk m x) → tree_at m par p t → tree_at m' par p t.
Proof.
  revert par p. induction t as [|l IHl x r IHr]; intros par p Hf; simpl in *; [done|].
  intros (-> & Hx & pl & pr & Hl & H1 & H2). split; [done|]. split; [done|].
  exists pl, pr. rewrite Hf by set_solver +. split; [done|].
  split; [apply IHl|apply IHr]; try done; intros; apply Hf; set_solver.
Qed.

Lemma ctx_at_frame m m' root hole par c :
  (∀ x, x ∈ cnodes c → lk m' x = lk m x) → ctx_at m root hole par c →
  ctx_at m' root hole par c.
Proof.
  revert hole par. induction c as [|[[b x] sib] c IH]; intros hole par Hf; simpl in *; [done|].
  intros (-> & Hx & psib & gp & Hl & Hs & Hc). split; [done|]. split; [done|].
  assert (∀ y, y = x ∨ y ∈ inorder sib ∨ y ∈ cnodes c → lk m' y = lk m y) as Hf'.
  { intros y Hy. apply Hf. unfold cnodes in *. destruct b; simpl; set_solver + Hy. }
  exists psib, gp. rewrite Hf' by auto. split; [done|]. split.
  - eapply tree_at_frame; [|done]. auto.
  - apply IH; [|done]. auto.
Qed.

Lemma tree_at_root m par p t : tree_at m par p t → p = ev_null ↔ t = Leaf.
Proof. destruct t; simpl; [done|]. intros (-> & ? & _). done. Qed.

Lemma tree_at_nodes m par p t x : tree_at m par p t → x ∈ inorder t → is_Some (m !! x) ∧ x ≠ ev_null.
Proof.
  revert par p. induction t as [|l IHl y r IHr]; intros par p; simpl; [set_solver|].
  intros (-> & Hy & pl & pr & Hl & H1 & H2). rewrite elem_of_app, elem_of_cons.
  intros [Hx|[->|Hx]]; [by eapply IHl| |by eapply IHr].
  split; [|done]. unfold lk in Hl. destruct (m !! y); [eauto|done].
Qed.

(** The number of nodes is at most the number of events. *)
Lemma tree_at_size m par p t :
  tree_at m par p t → NoDup (inorder t) → (length (inorder t) ≤ size m)%nat.
Proof.
  intros Ht Hnd. rewrite <-size_dom.
  rewrite <-(size_list_to_set (C := gset Z) _ Hnd). apply subseteq_size.
  intros x Hx. apply elem_of_list_to_set in Hx. apply elem_of_dom.
  by eapply tree_at_nodes.
Qed.

(** ** Frames *)

Lemma ev_frame_refl ps m : ev_frame ps m m.
Proof. by split. Qed.

Lemma ev_frame_trans ps m1 m2 m3 : ev_frame ps m1 m2 → ev_frame ps m2 m3 → ev_frame ps m1 m3.
Proof.
  intros [A1 B1] [A2 B2]. split; intros x; [intros Hx|].
  - rewrite A2, A1; done.
  - by rewrite B2, B1.
Qed.

Lemma ev_frame_mono ps ps' m m' : ps ⊆ ps' → ev_frame ps m m' → ev_frame ps' m m'.
Proof. intros Hs [A B]. split; [|done]. intros x Hx. apply A. set_solver. Qed.

#[export] Instance ev_frame_proper :
  Proper (Permutation ==> eq ==> eq ==> iff) ev_frame.
Proof.
  intros ps ps' Hp m _ <- m' _ <-. unfold ev_frame.
  split; intros [A B]; (split; [|done]); intros x Hx; apply A; [by rewrite Hp|by rewrite <-Hp].
Qed.

Lemma ev_frame_lk ps m m' x : ev_frame ps m m' → x ∉ ps → lk m' x = lk m x.
Proof. intros [A _] Hx. unfold lk. by rewrite A. Qed.

Lemma ev_frame_tree ps m m' par p t :
  ev_frame ps m m' → inorder t ## ps → tree_at m par p t → tree_at m' par p t.
Proof.
  intros F Hd. apply tree_at_frame. intros x Hx. eapply ev_frame_lk; [done|]. set_solver.
Qed.

Lemma ev_frame_ctx ps m m' root hole par c :
  ev_frame ps m m' → cnodes c ## ps → ctx_at m root hole par c → ctx_at m' root hole par c.
Proof.
  intros F Hd. apply ctx_at_frame. intros x Hx. eapply ev_frame_lk; [done|]. set_solver.
Qed.

Lemma lk_lookup m x v : lk m x = Some v → ∃ e, m !! x = Some e ∧ links e = v.
Proof. unfold lk. intros (e & -> & ->)%fmap_Some. eauto. Qed.

(** ** Field accesses *)

Section fields.
Implicit Types (m : gmap Z Event) (r p : Z).

Lemma wp_get_event m r p e Q :
  m !! p = Some e → Q e (MkEvq m r) → wp (get_event p) Q (MkEvq m r).
Proof. unfold wp, get_event. simpl. by intros ->. Qed.

Lemma wp_get_links m r p a b c Q :
  lk m p = Some (a, b, c) →
  (∀ e, m !! p = Some e → ev_left e = a → ev_right e = b → ev_parent e = c → Q e (MkEvq m r)) →
  wp (get_event p) Q (MkEvq m r).
Proof.
  unfold lk. intros Hl HQ. destruct (m !! p) as [e|] eqn:E; [|done].
  injection Hl as <- <- <-. eapply wp_get_event; [done|]. auto.
Qed.

Lemma wp_upd_event m r p f e (Q : unit → evq → Prop) :
  m !! p = Some e → Q tt (MkEvq (<[p := f e]> m) r) → wp (upd_event p f) Q (MkEvq m r).
Proof. unfold wp, upd_event. simpl. by intros ->. Qed.

Lemma wp_upd_links m r p f a b c l' (Q : unit → evq → Prop) :
  lk m p = Some (a, b, c) →
  (∀ e, links e = (a, b, c) → links (f e) = l' ∧ data (f e) = data e) →
  (∀ m', ev_frame [p] m m' → lk m' p = Some l' → Q tt (MkEvq m' r)) →
  wp (upd_event p f) Q (MkEvq m r).
Proof.
  unfold lk. intros Hl Hf HQ. destruct (m !! p) as [e|] eqn:E; [|done]. simpl in Hl.
  destruct (Hf e) as [H1 H2]; [congruence|].
  eapply wp_upd_event; [done|]. apply HQ.
  - split.
    + intros x Hx. rewrite lookup_insert_ne; [done|]. set_solver.
    + intros x. destruct (decide (x = p)) as [->|].
      * rewrite lookup_insert_eq, E. simpl. by rewrite H2.
      * by rewrite lookup_insert_ne.
  - rewrite lookup_insert_eq. simpl. by f_equal.
Qed.

Lemma wp_set_left m r p a b c v (Q : unit → evq → Prop) :
  lk m p = Some (a, b, c) →
  (∀ m', ev_frame [p] m m' → lk m' p = Some (v, b, c) → Q tt (MkEvq m' r)) →
  wp (upd_event p (set_left v)) Q (MkEvq m r).
Proof.
  intros Hl. eapply wp_upd_links; [done|]. intros [] [= -> -> ->]. done.
Qed.

Lemma wp_set_right m r p a b c v (Q : unit → evq → Prop) :
  lk m p = Some (a, b, c) →
  (∀ m', ev_frame [p] m m' → lk m' p = Some (a, v, c) → Q tt (MkEvq m' r)) →
  wp (upd_event p (set_right v)) Q (MkEvq m r).
Proof.
  intros Hl. eapply wp_upd_links; [done|]. intros [] [= -> -> ->]. done.
Qed.

Lemma wp_set_parent m r p a b c v (Q : unit → evq → Prop) :
  lk m p = Some (a, b, c) →
  (∀ m', ev_frame [p] m m' → lk m' p = Some (a, b, v) → Q tt (MkEvq m' r)) →
  wp (upd_event p (set_parent v)) Q (MkEvq m r).
Proof.
  intros Hl. eapply wp_upd_links; [done|]. intros [] [= -> -> ->]. done.
Qed.

(** Moving the tree at [p] below another node, as the code does it. *)
Lemma wp_reparent m r par p t v (Q : unit → evq → Prop) :
  tree_at m par p t → NoDup (inorder t) →
  (∀ m', ev_frame (inorder t) m m' → tree_at m' v p t → Q tt (MkEvq m' r)) →
  wp (if negb (p =? ev_null) then upd_event p (set_parent v) else mret tt) Q (MkEvq m r).
Proof.
  intros Ht Hnd HQ. destruct t as [|l x rt]; simpl in Ht.
  { subst p. simpl. apply wp_ret, HQ; [apply ev_frame_refl|done]. }
  destruct Ht as (-> & Hx & pl & pr & Hl & H1 & H2).
  destruct (Z.eqb_spec x ev_null); [done|]. simpl.
  eapply wp_set_parent; [done|]. intros m' F Hl'.
  simpl in Hnd. rewrite <-Permutation_middle, NoDup_cons in Hnd. destruct Hnd as [Hnx _].
  apply HQ.
  - eapply ev_frame_mono; [|done]. simpl. set_solver +.
  - simpl. split; [done|]. split; [done|]. exists pl, pr. split; [done|].
    split; eapply ev_frame_tree; try done; set_solver + Hnx.
Qed.
End fields.

(** ** Transplant *)

Lemma cnodes_cons b x sib c : cnodes ((b, x, sib) :: c) ≡ₚ x :: inorder sib ++ cnodes c.
Proof.
  unfold cnodes. destruct b; simpl.
  - rewrite <-Permutation_middle. f_equiv. rewrite !(assoc_L (++)).
    apply Permutation_app_tail, Permutation_app_comm.
  - transitivity ((x :: inorder sib ++ cbefore c) ++ cafter c);
      [|by simpl; rewrite <-(assoc_L (++))].
    apply Permutation_app_tail. rewrite (assoc_L (++)), <-Permutation_cons_append.
    f_equiv. apply Permutation_app_comm.
Qed.

Lemma inorder_plug_perm c t : inorder (plug c t) ≡ₚ inorder t ++ cnodes c.
Proof.
  rewrite inorder_plug. unfold cnodes. rewrite !(assoc_L (++)).
  apply Permutation_app_tail, Permutation_app_comm.
Qed.

Lemma tree_at_head m par p t : tree_at m par p t → p ≠ ev_null → p ∈ inorder t.
Proof. destruct t; simpl; [done|]. intros (-> & _) _. set_solver +. Qed.

Lemma wp_transplant m root u v par pv ul ur c tv (Q : unit → evq → Prop) :
  ctx_at m root u par c → lk m u = Some (ul, ur, par) → u ≠ ev_null →
  tree_at m pv v tv → NoDup (u :: cnodes c ++ inorder tv) →
  (∀ m' root', ctx_at m' root' v par c → tree_at m' par v tv →
     ev_frame (cnodes c ++ inorder tv) m m' → Q tt (MkEvq m' root')) →
  wp (bst_transplant u v) Q (MkEvq m root).
Proof.
  intros Hc Hu Hu0 Hv Hnd HQ. apply NoDup_cons in Hnd as [Hnu Hnd].
  apply NoDup_app in Hnd as (Hndc & Hdis & Hndt).
  unfold bst_transplant. apply wp_bind. eapply wp_get_links; [done|].
  intros eu _ _ _ ->. apply wp_bind.
  (* the second half, from any state that agrees outside the path *)
  assert (∀ m1 root1, ctx_at m1 root1 v par c → ev_frame (cnodes c) m m1 →
    wp (if negb (v =? ev_null) then
          eu ← get_event u; upd_event v (set_parent (ev_parent eu))
        else mret tt) Q (MkEvq m1 root1)) as Hsnd.
  { intros m1 root1 Hc1 F1.
    assert (tree_at m1 pv v tv) as Hv1 by (eapply ev_frame_tree; [done| |done]; set_solver + Hdis).
    assert (lk m1 u = Some (ul, ur, par)) as Hu1
      by (rewrite (ev_frame_lk _ _ _ _ F1); [done|set_solver + Hnu]).
    assert (∀ m2, ev_frame (inorder tv) m1 m2 → tree_at m2 par v tv → Q tt (MkEvq m2 root1)) as HQ1.
    { intros m2 F2 Hv2. apply HQ; [|done|].
      - eapply ev_frame_ctx; [done| |done]. set_solver + Hdis.
      - eapply ev_frame_trans; (eapply ev_frame_mono; [|eassumption]); set_solver +. }
    pose proof (wp_reparent m1 root1 pv v tv par Q Hv1 Hndt HQ1) as Hwp.
    destruct (negb (v =? ev_null)); [|done].
    apply wp_bind. eapply wp_get_links; [done|]. by intros e _ _ _ ->. }
  destruct c as [|[[b x] sib] c]; simpl in Hc.
  { destruct Hc as [-> ->]. simpl. apply wp_modify. apply Hsnd; [done|apply ev_frame_refl]. }
  destruct Hc as (-> & Hx & psib & gp & Hl & Hs & Hc).
  destruct (Z.eqb_spec x ev_null); [done|].
  rewrite cnodes_cons in Hndc, Hnu. apply NoDup_cons in Hndc as [Hndc _].
  assert (u ≠ psib) as Hpu.
  { intros <-. eapply tree_at_head in Hs; [|done]. set_solver + Hs Hnu. }
  assert (∀ m1, ev_frame [x] m m1 →
    lk m1 x = Some (if b then (v, psib, gp) else (psib, v, gp)) →
    ctx_at m1 root v x ((b, x, sib) :: c) ∧ ev_frame (cnodes ((b, x, sib) :: c)) m m1) as Hm1.
  { intros m1 F Hl1. split.
    - simpl. split; [done|]. split; [done|]. exists psib, gp. split; [done|].
      split; [eapply ev_frame_tree|eapply ev_frame_ctx]; try done; set_solver + Hndc.
    - eapply ev_frame_mono; [|done]. rewrite cnodes_cons. set_solver +. }
  apply wp_bind. destruct b; (eapply wp_get_links; [done|]); intros e _ -> _ _.
  - rewrite Z.eqb_refl. eapply wp_set_left; [done|]. intros m1 F Hl1.
    apply Hsnd; by apply Hm1.
  - destruct (Z.eqb_spec u psib); [done|]. eapply wp_set_right; [done|]. intros m1 F Hl1.
    apply Hsnd; by apply Hm1.
Qed.

(** ** The leftmost node *)

Lemma cbefore_app c1 c2 : cbefore (c1 ++ c2) = cbefore c2 ++ cbefore c1.
Proof.
  induction c1 as [|[[[] x] sib] c1 IH]; simpl; [by rewrite app_nil_r|done|].
  by rewrite IH, <-(assoc_L (++)).
Qed.

Lemma cafter_app c1 c2 : cafter (c1 ++ c2) = cafter c1 ++ cafter c2.
Proof.
  induction c1 as [|[[[] x] sib] c1 IH]; simpl; [done| |done].
  by rewrite IH, <-(assoc_L (++)).
Qed.

Lemma wp_leftmost m root fuel par p t (Q : Z → evq → Prop) :
  tree_at m par p t → p ≠ ev_null → (length (inorder t) ≤ fuel)%nat →
  (∀ cl y yr, t = plug cl (Node Leaf y yr) → cbefore cl = [] → Q y (MkEvq m root)) →
  wp (bst_leftmost fuel p) Q (MkEvq m root).
Proof.
  revert fuel par p Q. induction t as [|l IHl x r _]; intros fuel par p Q; simpl; [done|].
  intros (-> & Hx & pl & pr & Hlk & Hl & Hr) _ Hf HQ. rewrite length_app in Hf. simpl in Hf.
  destruct fuel as [|fuel]; [lia|]. cbn [bst_leftmost].
  apply wp_bind. eapply wp_get_links; [done|]. intros e _ -> _ _.
  destruct (Z.eqb_spec pl ev_null) as [Hn|Hn].
  - apply wp_ret. apply (HQ [] x r); [|done]. simpl.
    by rewrite (proj1 (tree_at_root _ _ _ _ Hl) Hn).
  - eapply IHl; [done|done|lia|]. intros cl y yr -> Hcl.
    apply (HQ (cl ++ [(true, x, r)]) y yr); [by rewrite plug_app|]. by rewrite cbefore_app.
Qed.

(** ** Deletion *)

(** The last steps of [bst_delete]: [y], which has no left child, takes the
    place of [u] and its left subtree. *)
Lemma wp_delete_finish m root u y par pv pl pr c l r (Q : unit → evq → Prop) :
  ctx_at m root u par c → lk m u = Some (pl, pr, par) → u ≠ ev_null →
  tree_at m u pl l → tree_at m pv y (Node Leaf y r) →
  NoDup (u :: cnodes c ++ inorder l ++ y :: inorder r) →
  (∀ m' root', tree_at m' ev_null root' (plug c (Node l y r)) →
     ev_frame (cnodes c ++ inorder l ++ y :: inorder r) m m' → Q tt (MkEvq m' root')) →
  wp (bst_transplant u y;;
      n ← get_event u;
      upd_event y (set_left (ev_left n));;
      ey ← get_event y;
      if negb (ev_left ey =? ev_null) then upd_event (ev_left ey) (set_parent y) else mret tt)
    Q (MkEvq m root).
Proof.
  intros Hc Hu Hu0 Hl Hy Hnd HQ. apply wp_bind.
  pose proof Hnd as Hnd'. apply NoDup_cons in Hnd' as [Hnu Hnd'].
  apply NoDup_app in Hnd' as (Hndc & Hdc & Hndl).
  apply NoDup_app in Hndl as (Hndl & Hdl & Hndy).
  eapply (wp_transplant m root u y par pv pl pr c (Node Leaf y r)); [done..| |].
  { cbn [inorder app]. apply NoDup_cons. split; [set_solver + Hnu|].
    apply NoDup_app. split; [done|]. split; [set_solver + Hdc|done]. }
  intros m1 root1 Hc1 Hy1 F1. cbn [inorder app] in F1.
  assert (lk m1 u = Some (pl, pr, par)) as Hu1
    by (rewrite (ev_frame_lk _ _ _ _ F1); [done|set_solver + Hnu]).
  assert (tree_at m1 u pl l) as Hl1
    by (eapply ev_frame_tree; [done| |done]; set_solver + Hdc Hdl).
  apply wp_bind. eapply wp_get_links; [done|]. intros e _ -> _ _.
  simpl in Hy1. destruct Hy1 as (_ & Hy0 & ? & pr' & Hly & -> & Hr1).
  apply NoDup_cons in Hndy as [Hyr Hndr].
  apply wp_bind. eapply wp_set_left; [done|]. intros m2 F2 Hly2.
  apply wp_bind. eapply wp_get_links; [done|]. intros e2 _ -> _ _.
  assert (tree_at m2 u pl l) as Hl2
    by (eapply ev_frame_tree; [done| |done]; set_solver + Hdl).
  eapply wp_reparent; [done|done|]. intros m3 F3 Hl3. apply HQ.
  - apply plug_at. exists y, par. split.
    + eapply ev_frame_ctx; [exact F3|set_solver + Hdc|].
      eapply ev_frame_ctx; [exact F2|set_solver + Hdc|done].
    + simpl. split; [done|]. split; [done|]. exists pl, pr'.
      rewrite (ev_frame_lk _ _ _ _ F3) by set_solver + Hdl. split; [done|]. split; [done|].
      eapply ev_frame_tree; [exact F3|set_solver + Hdl|].
      eapply ev_frame_tree; [exact F2|set_solver + Hyr|done].
  - eapply ev_frame_trans; [|eapply ev_frame_trans].
    + eapply ev_frame_mono; [|exact F1]. set_solver +.
    + eapply ev_frame_mono; [|exact F2]. set_solver +.
    + eapply ev_frame_mono; [|exact F3]. set_solver +.
Qed.

(** The nodes of a tree split at [u], as the deletion uses them. *)
Lemma plug_node_perm c l u r :
  inorder (plug c (Node l u r)) ≡ₚ u :: cnodes c ++ inorder l ++ inorder r.
Proof.
  rewrite inorder_plug_perm. simpl. rewrite <-Permutation_middle. simpl.
  by rewrite (Permutation_app_comm _ (cnodes c)).
Qed.

(** The successor [y] of [u] is unlinked from below the right child of [u]
    and takes over the right subtree. *)
Lemma wp_delete_splice m root u y c cl l yr pyr (Q : unit → evq → Prop) :
  tree_at m ev_null root (plug (cl ++ (false, u, l) :: c) (Node Leaf y yr)) →
  ev_right <$> m !! y = Some pyr →
  NoDup (u :: cnodes c ++ inorder l ++ y :: inorder (plug cl yr)) →
  (∀ m' root' par pv pl pr, ctx_at m' root' u par c → lk m' u = Some (pl, pr, par) →
     tree_at m' u pl l → tree_at m' pv y (Node Leaf y (plug cl yr)) →
     ev_frame (u :: cnodes c ++ inorder l ++ y :: inorder (plug cl yr)) m m' →
     Q tt (MkEvq m' root')) →
  wp (bst_transplant y pyr;;
      n ← get_event u;
      upd_event y (set_right (ev_right n));;
      ey ← get_event y;
      if negb (ev_right ey =? ev_null) then upd_event (ev_right ey) (set_parent y) else mret tt)
    Q (MkEvq m root).
Proof.
  intros Ht Hpyr Hnd HQ. apply plug_at in Ht as (? & pary & Hc & Hy). simpl in Hy.
  destruct Hy as (-> & Hy0 & ? & pr & Hly & -> & Hyr).
  assert (pr = pyr) as ->.
  { unfold lk in Hly. destruct (m !! y) as [[]|]; [|done]. injection Hly as _ ? _.
    injection Hpyr as ?. simpl in *. congruence. }
  set (c' := cl ++ (false, u, l) :: c) in *.
  assert (u :: cnodes c ++ inorder l ++ y :: inorder (plug cl yr) ≡ₚ
          y :: cnodes c' ++ inorder yr) as Hperm.
  { rewrite (Permutation_app_comm (cnodes c')), <-inorder_plug_perm. unfold c'.
    rewrite plug_app. cbn [plug]. rewrite plug_node_perm.
    rewrite (assoc_L (++)), <-Permutation_middle, <-(assoc_L (++)). apply perm_swap. }
  pose proof Hnd as Hnd'. rewrite Hperm in Hnd'.
  apply wp_bind. eapply wp_transplant; [done..|]. intros m1 root1 Hc1 Hyr1 F1.
  assert (tree_at m1 ev_null root1 (plug c (Node l u (plug cl yr)))) as Ht1.
  { change (plug c (Node l u (plug cl yr))) with (plug ((false, u, l) :: c) (plug cl yr)).
    rewrite <-plug_app. apply plug_at. eauto. }
  apply plug_at in Ht1 as (? & par & Hcu & Hu). simpl in Hu.
  destruct Hu as (-> & Hu0 & pl & pr' & Hu & Hl1 & Hr1).
  assert (lk m1 y = Some (ev_null, pyr, pary)) as Hly1.
  { rewrite (ev_frame_lk _ _ _ _ F1); [done|]. by apply NoDup_cons in Hnd' as [? _]. }
  apply NoDup_cons in Hnd as [Hnu Hnd].
  apply NoDup_app in Hnd as (_ & Hdc & Hnd). apply NoDup_app in Hnd as (_ & Hdl & Hnd).
  apply NoDup_cons in Hnd as [Hyn Hndr].
  apply wp_bind. eapply wp_get_links; [done|]. intros eu _ _ -> _.
  apply wp_bind. eapply wp_set_right; [done|]. intros m2 F2 Hly2.
  apply wp_bind. eapply wp_get_links; [done|]. intros ey _ _ -> _.
  assert (tree_at m2 u pr' (plug cl yr)) as Hr2
    by (eapply ev_frame_tree; [done| |done]; set_solver + Hyn).
  eapply wp_reparent; [done..|]. intros m3 F3 Hr3.
  assert (ev_frame (y :: inorder (plug cl yr)) m1 m3) as F13.
  { eapply ev_frame_trans; (eapply ev_frame_mono; [|eassumption]); set_solver +. }
  apply (HQ m3 root1 par pary pl pr').
  - eapply ev_frame_ctx; [exact F13|set_solver + Hdc|done].
  - rewrite (ev_frame_lk _ _ _ _ F13) by set_solver + Hnu. done.
  - eapply ev_frame_tree; [exact F13|set_solver + Hdl|done].
  - simpl. split; [done|]. split; [done|]. exists ev_null, pr'.
    rewrite (ev_frame_lk _ _ _ _ F3) by done. done.
  - eapply ev_frame_trans; (eapply ev_frame_mono; [|eassumption]); [|set_solver +].
    rewrite Hperm. set_solver +.
Qed.

Lemma wp_bst_delete m root u c l r (Q : unit → evq → Prop) :
  tree_at m ev_null root (plug c (Node l u r)) → NoDup (inorder (plug c (Node l u r))) →
  (∀ m' root' t, tree_at m' ev_null root' t →
     inorder t = cbefore c ++ (inorder l ++ inorder r) ++ cafter c →
     ev_frame (u :: inorder t) m m' → Q tt (MkEvq m' root')) →
  wp (bst_delete u) Q (MkEvq m root).
Proof.
  intros Ht Hnd HQ. rewrite plug_node_perm in Hnd.
  pose proof Ht as Ht'. apply plug_at in Ht' as (? & par & Hc & Hu).
  simpl in Hu. destruct Hu as (-> & Hu0 & pl & pr & Hu & Hl & Hr).
  unfold bst_delete. apply wp_bind. eapply wp_get_links; [done|]. intros e _ -> -> _.
  destruct (Z.eqb_spec pl ev_null) as [Hpl|Hpl].
  { apply (tree_at_root _ _ _ _ Hl) in Hpl as ->. cbn [inorder app] in *.
    eapply wp_transplant; [done..|]. intros m' root' Hc' Hr' F.
    apply (HQ m' root' (plug c r)); [apply plug_at; eauto|by rewrite inorder_plug|].
    eapply ev_frame_mono; [|done]. rewrite inorder_plug_perm. set_solver +. }
  destruct (Z.eqb_spec pr ev_null) as [Hpr|Hpr].
  { apply (tree_at_root _ _ _ _ Hr) in Hpr as ->. cbn [inorder app] in *.
    rewrite !app_nil_r in *.
    eapply wp_transplant; [done..|]. intros m' root' Hc' Hr' F.
    apply (HQ m' root' (plug c l)); [apply plug_at; eauto|by rewrite inorder_plug|].
    eapply ev_frame_mono; [|done]. rewrite inorder_plug_perm. set_solver +. }
  apply wp_bind. unfold bst_minimum. destruct (Z.eqb_spec pr ev_null); [done|].
  apply wp_bind, wp_gets. eapply wp_leftmost; [done|done| |].
  { simpl. eapply tree_at_size; [done|]. apply NoDup_cons in Hnd as [_ Hnd].
    by apply NoDup_app in Hnd as (_ & _ & [_ [_ ?]]%NoDup_app). }
  intros cl y yr -> Hcl.
  assert (inorder (plug cl (Node Leaf y yr)) = y :: inorder (plug cl yr)) as Ein
    by (rewrite !inorder_plug, Hcl; done).
  rewrite Ein in *.
  assert (∀ m1 root1 par1 pv pl1 pr1, ctx_at m1 root1 u par1 c → lk m1 u = Some (pl1, pr1, par1) →
    tree_at m1 u pl1 l → tree_at m1 pv y (Node Leaf y (plug cl yr)) →
    ev_frame (u :: cnodes c ++ inorder l ++ y :: inorder (plug cl yr)) m m1 →
    wp (bst_transplant u y;;
      n ← get_event u;
      upd_event y (set_left (ev_left n));;
      ey ← get_event y;
      if negb (ev_left ey =? ev_null) then upd_event (ev_left ey) (set_parent y) else mret tt)
    Q (MkEvq m1 root1)) as Hfin.
  { intros m1 root1 par1 pv pl1 pr1 Hc1 Hu1 Hl1 Hy1 F1.
    eapply wp_delete_finish; [done..|]. intros m2 root2 Ht2 F2.
    apply (HQ m2 root2 _ Ht2).
    - rewrite inorder_plug. simpl. rewrite <-!(assoc_L (++)). done.
    - rewrite (inorder_plug_perm c). cbn [inorder].
      eapply ev_frame_trans; (eapply ev_frame_mono; [|eassumption]); set_solver +. }
  assert (tree_at m ev_null root (plug (cl ++ (false, u, l) :: c) (Node Leaf y yr))) as Hty
    by (by rewrite plug_app).
  pose proof Hty as Hty'. apply plug_at in Hty' as (? & pary & Hc' & Hy). simpl in Hy.
  destruct Hy as (-> & Hy0 & ? & pyr & Hly & -> & Hyr).
  apply wp_bind. eapply wp_get_links; [done|]. intros ey Hey _ Hright ->.
  apply wp_bind. destruct (Z.eqb_spec pary u) as [->|Hpu]; cbn [negb].
  - apply wp_ret. destruct cl as [|[[b x] sib] cl].
    + eapply (Hfin m root par u pl pr); [done..| |apply ev_frame_refl]. simpl. eauto 10.
    + simpl in Hc'. destruct Hc' as (-> & _). apply NoDup_cons in Hnd as [Hnu _].
      destruct Hnu. rewrite inorder_plug_perm, cnodes_cons. set_solver +.
  - rewrite Hright. eapply wp_delete_splice; [done| |done|].
    { by rewrite Hey, <-Hright. }
    eauto.
Qed.

(** ** Insertion *)

Definition time_in (m : gmap Z Event) (x : Z) : Z := from_option ev_time 0 (m !! x).

Definition by_time (m : gmap Z Event) (l : list Z) : Prop :=
  StronglySorted (λ x y, time_in m x ≤ time_in m y) l.

Lemma ev_frame_time ps m m' x : ev_frame ps m m' → time_in m' x = time_in m x.
Proof.
  intros [_ B]. specialize (B x). unfold time_in.
  destruct (m !! x) as [[]|], (m' !! x) as [[]|]; simplify_eq/=; done.
Qed.

Definition path_parent (par : Z) (c : path) : Z :=
  match c with [] => par | (_, x, _) :: _ => x end.

Lemma path_parent_app par c x sib b :
  path_parent par (c ++ [(b, x, sib)]) = path_parent x c.
Proof. by destruct c as [|[[] ?] ?]. Qed.

Lemma StronglySorted_mid {A} (R : A → A → Prop) l1 x l2 :
  StronglySorted R (l1 ++ x :: l2) →
  StronglySorted R l1 ∧ StronglySorted R l2 ∧ Forall (λ y, R y x) l1 ∧ Forall (R x) l2.
Proof.
  intros (H1 & H2 & [H3 H4]%StronglySorted_cons)%StronglySorted_app. split_and!; try done.
  apply Forall_forall. intros y Hy. apply H1; set_solver.
Qed.

(** The walk ends at the hole between the events that are not later than
    [tm] and the later ones. *)
Lemma wp_bst_walk m root fuel tm par p t (Q : Z → evq → Prop) :
  tree_at m par p t → (length (inorder t) ≤ fuel)%nat → by_time m (inorder t) →
  (∀ c, t = plug c Leaf → Forall (λ y, time_in m y ≤ tm) (cbefore c) →
     Forall (λ y, tm < time_in m y) (cafter c) → Q (path_parent par c) (MkEvq m root)) →
  wp (bst_walk fuel tm p par) Q (MkEvq m root).
Proof.
  revert fuel par p Q. induction t as [|l IHl x r IHr]; intros fuel par p Q; simpl.
  { intros -> _ _ HQ. destruct fuel; apply wp_ret, (HQ []); done. }
  intros (-> & Hx & pl & pr & Hlk & Hl & Hr) Hf Hs HQ. rewrite length_app in Hf. simpl in Hf.
  apply StronglySorted_mid in Hs as (Hsl & Hsr & Hlx & Hxr).
  destruct fuel as [|fuel]; [lia|]. cbn [bst_walk]. destruct (Z.eqb_spec x ev_null); [done|].
  apply wp_bind. eapply wp_get_links; [done|]. intros e He -> -> _.
  assert (ev_time e = time_in m x) as -> by (unfold time_in; by rewrite He).
  destruct (Z.ltb_spec tm (time_in m x)) as [Hlt|Hge].
  - eapply IHl; [done|lia|done|]. intros c -> Hb Ha.
    specialize (HQ (c ++ [(true, x, r)])). rewrite path_parent_app in HQ.
    apply HQ; [by rewrite plug_app|by rewrite cbefore_app|].
    rewrite cafter_app. simpl. apply Forall_app. split; [done|]. constructor; [done|].
    rewrite app_nil_r. eapply Forall_impl; [done|]. simpl. lia.
  - eapply IHr; [done|lia|done|]. intros c -> Hb Ha.
    specialize (HQ (c ++ [(false, x, l)])). rewrite path_parent_app in HQ.
    apply HQ; [by rewrite plug_app| |by rewrite cafter_app, app_nil_r].
    rewrite cbefore_app. simpl. rewrite !Forall_app. split; [|done]. split; [|by constructor].
    eapply Forall_impl; [done|]. simpl. lia.
Qed.

Lemma wp_event_bst_insert m root x t (Q : unit → evq → Prop) :
  tree_at m ev_null root t → lk m x = Some (ev_null, ev_null, ev_null) → x ≠ ev_null →
  NoDup (x :: inorder t) → by_time m (inorder t) →
  (∀ m' root' t' l1 l2, tree_at m' ev_null root' t' →
     inorder t = l1 ++ l2 → inorder t' = l1 ++ x :: l2 →
     Forall (λ y, time_in m y ≤ time_in m x) l1 → Forall (λ y, time_in m x < time_in m y) l2 →
     ev_frame (inorder t') m m' → Q tt (MkEvq m' root')) →
  wp (event_bst_insert x) Q (MkEvq m root).
Proof.
  intros Ht Hx Hx0 Hnd Hs HQ. apply NoDup_cons in Hnd as [Hnx Hnd].
  unfold event_bst_insert. apply wp_bind, wp_gets. simpl.
  destruct (Z.eqb_spec root ev_null) as [Hr|Hr].
  { apply (tree_at_root _ _ _ _ Ht) in Hr as ->. apply wp_modify.
    apply (HQ m x (Node Leaf x Leaf) [] []); simpl; eauto 10 using ev_frame_refl. }
  apply wp_bind. eapply wp_get_links; [done|]. intros e He _ _ _.
  assert (ev_time e = time_in m x) as Htx by (unfold time_in; by rewrite He).
  apply wp_bind, wp_gets. apply wp_bind.
  eapply wp_bst_walk; [done|by eapply tree_at_size|done|]. intros c -> Hb Ha. rewrite Htx in *.
  destruct c as [|[[b y] sib] c]; [done|]. simpl path_parent.
  assert (b = (time_in m x <? time_in m y)) as Hdir.
  { destruct b; simpl in Hb, Ha; symmetry;
      [apply Z.ltb_lt; by inversion Ha|apply Z.ltb_ge].
    rewrite !Forall_app, Forall_singleton in Hb. tauto. }
  apply wp_bind. eapply wp_set_parent; [done|]. intros m1 F1 Hx1.
  apply plug_at in Ht as (? & ? & Hc & ->).
  eapply ev_frame_ctx in Hc; [|exact F1|]; last first.
  { rewrite inorder_plug_perm in Hnx. set_solver + Hnx. }
  simpl in Hc. destruct Hc as (-> & Hy0 & psib & gp & Hy & Hsib & Hc).
  apply wp_bind. eapply wp_get_links; [done|]. intros e1 He1 _ _ _.
  destruct (lk_lookup _ _ _ Hy) as (ey & Hey & _). apply wp_bind. eapply wp_get_event; [done|].
  assert (ev_time e1 = time_in m x ∧ ev_time ey = time_in m y) as [-> ->].
  { rewrite <-!(ev_frame_time _ _ _ _ F1). unfold time_in. by rewrite He1, Hey. }
  rewrite <-Hdir.
  assert (∀ m2, ev_frame [y] m1 m2 → lk m2 y = Some (if b then (x, psib, gp) else (psib, x, gp)) →
    Q tt (MkEvq m2 root)) as Hfin.
  { intros m2 F2 Hy2. rewrite inorder_plug_perm, cnodes_cons in Hnx, Hnd. simpl in Hnx, Hnd.
    apply NoDup_cons in Hnd as [Hny _].
    eapply (HQ m2 root (plug ((b, y, sib) :: c) (Node Leaf x Leaf))).
    - apply plug_at. exists x, y. split; simpl.
      + split; [done|]. split; [done|]. exists psib, gp. split; [done|].
        split; [eapply ev_frame_tree|eapply ev_frame_ctx]; try done; set_solver + Hny.
      + split; [done|]. split; [done|]. exists ev_null, ev_null.
        rewrite (ev_frame_lk _ _ _ _ F2) by set_solver + Hnx. done.
    - by rewrite inorder_plug.
    - by rewrite inorder_plug.
    - done.
    - done.
    - rewrite inorder_plug_perm, cnodes_cons. simpl.
      eapply ev_frame_trans; (eapply ev_frame_mono; [|eassumption]); set_solver +. }
  destruct b; [eapply wp_set_left|eapply wp_set_right]; done.
Qed.
