(* ===== verification/EventThms.v ===== *)
(** * The event queue as a priority queue

    The promise of events.c: the events in the tree are a list ordered by
    time, first in first out among equal times.  [evq_inv] is the invariant
    of the tree, the flags and the store; the theorems give each operation's
    effect on the list, and [queue_refines] a simulation of an abstract queue
    over whole runs. *)

From S2P Require Import Prelude Events EventTree.
Local Open Scope Z_scope.

(** ** The abstract queue *)

(** Insertion behind every element that is not later. *)
Fixpoint insert_by (tm : Z → Z) (x : Z) (l : list Z) : list Z :=
  match l with
  | [] => [x]
  | y :: l' => if tm x <? tm y then x :: l else y :: insert_by tm x l'
  end.

Definition remove_event (x : Z) (l : list Z) : list Z := filter (λ y, y ≠ x) l.

Lemma insert_by_split tm x l1 l2 :
  Forall (λ y, tm y ≤ tm x) l1 → Forall (λ y, tm x < tm y) l2 →
  insert_by tm x (l1 ++ l2) = l1 ++ x :: l2.
Proof.
  intros H1 H2. induction H1 as [|y l1 Hy _ IH]; simpl.
  - destruct H2 as [|z l2 Hz _]; simpl; [done|]. by destruct (Z.ltb_spec (tm x) (tm z)); [|lia].
  - destruct (Z.ltb_spec (tm x) (tm y)); [lia|]. by rewrite IH.
Qed.

Lemma insert_by_perm tm x l : insert_by tm x l ≡ₚ x :: l.
Proof.
  induction l as [|y l IH]; simpl; [done|]. destruct (tm x <? tm y); [done|].
  rewrite IH. apply perm_swap.
Qed.

Lemma insert_by_ext tm tm' x l :
  (∀ y, y ∈ x :: l → tm y = tm' y) → insert_by tm x l = insert_by tm' x l.
Proof.
  induction l as [|y l IH]; simpl; intros He; [done|].
  rewrite (He x), (He y) by set_solver +. destruct (tm' x <? tm' y); [done|].
  rewrite IH; [done|]. intros z Hz. apply He. set_solver + Hz.
Qed.

Lemma remove_event_id x l : x ∉ l → remove_event x l = l.
Proof.
  unfold remove_event. induction l as [|y l IH]; intros Hx; [done|].
  rewrite filter_cons_True by set_solver + Hx. f_equal. apply IH. set_solver + Hx.
Qed.

Lemma remove_event_mid x l1 l2 : NoDup (l1 ++ x :: l2) → remove_event x (l1 ++ x :: l2) = l1 ++ l2.
Proof.
  intros Hnd. rewrite <-Permutation_middle, NoDup_cons in Hnd. destruct Hnd as [Hx _].
  rewrite <-(remove_event_id x (l1 ++ l2)) by done.
  unfold remove_event. by rewrite !filter_app, filter_cons_False by naive_solver.
Qed.

Lemma elem_of_remove_event x y l : y ∈ remove_event x l ↔ y ≠ x ∧ y ∈ l.
Proof. unfold remove_event. by rewrite list_elem_of_filter. Qed.

(** ** Invariant *)

(** What the queue never changes in an event. *)
Definition payload (e : Event) : Event := set_enqueued false (data e).

Definition same_payload (m m' : gmap Z Event) : Prop :=
  ∀ x, payload <$> m' !! x = payload <$> m !! x.

Definition evq_inv (s : evq) (l : list Z) : Prop :=
  (∃ t, tree_at (evs s) ev_null (event_root s) t ∧ inorder t = l) ∧ NoDup l ∧
  ∀ x e, evs s !! x = Some e → ev_enqueued e = bool_decide (x ∈ l).

Lemma ev_frame_payload ps m m' : ev_frame ps m m' → same_payload m m'.
Proof.
  intros [_ B] x. specialize (B x).
  destruct (m !! x) as [[]|], (m' !! x) as [[]|]; simplify_eq/=; done.
Qed.

#[export] Instance same_payload_preorder : PreOrder same_payload.
Proof.
  split; [by intros m x|]. intros m1 m2 m3 A B x. by rewrite B, A.
Qed.

Lemma same_payload_time m m' x : same_payload m m' → time_in m' x = time_in m x.
Proof.
  intros A. specialize (A x). unfold time_in.
  destruct (m !! x) as [[]|], (m' !! x) as [[]|]; simplify_eq/=; done.
Qed.

Lemma ev_frame_enqueued ps m m' x e' :
  ev_frame ps m m' → m' !! x = Some e' →
  ∃ e, m !! x = Some e ∧ ev_enqueued e' = ev_enqueued e.
Proof.
  intros [_ B] He. specialize (B x). rewrite He in B.
  destruct (m !! x) as [e|]; [|done]. exists e. split; [done|].
  destruct e, e'; by simplify_eq/=.
Qed.

Lemma ev_frame_is_Some ps m m' x e : ev_frame ps m m' → m !! x = Some e → is_Some (m' !! x).
Proof. intros [_ B] He. specialize (B x). rewrite He in B. destruct (m' !! x); [eauto|done]. Qed.

Lemma by_time_ext m m' l :
  (∀ x, x ∈ l → time_in m' x = time_in m x) → by_time m l → by_time m' l.
Proof.
  intros He Hs. induction Hs as [|x l Hs IH Hx]; [constructor|].
  constructor; [apply IH; set_solver|].
  rewrite Forall_forall in Hx |- *. intros y Hy. rewrite !He by set_solver. auto.
Qed.

Lemma by_time_mid m l1 x l2 :
  by_time m (l1 ++ l2) → Forall (λ y, time_in m y ≤ time_in m x) l1 →
  Forall (λ y, time_in m x < time_in m y) l2 → by_time m (l1 ++ x :: l2).
Proof.
  intros (H12 & H1 & H2)%StronglySorted_app F1 F2. apply StronglySorted_app.
  rewrite Forall_forall in F1, F2. split_and!; [|done|].
  - intros y z Hy. rewrite elem_of_cons. intros [->|Hz]; auto.
  - constructor; [done|]. apply Forall_forall. intros y Hy. specialize (F2 y Hy). lia.
Qed.

(** ** Operations *)

Lemma wp_clear_links m r p v (Q : unit → evq → Prop) :
  lk m p = Some v →
  (∀ m', ev_frame [p] m m' → lk m' p = Some (ev_null, ev_null, ev_null) → Q tt (MkEvq m' r)) →
  wp (clear_links p) Q (MkEvq m r).
Proof.
  destruct v as [[a b] c]. intros Hl HQ. unfold clear_links.
  apply wp_bind. eapply wp_set_parent; [done|]. intros m1 F1 Hl1.
  apply wp_bind. eapply wp_set_right; [done|]. intros m2 F2 Hl2.
  eapply wp_set_left; [done|]. intros m3 F3 Hl3. apply HQ; [|done].
  eauto using ev_frame_trans.
Qed.

Lemma wp_set_enqueued m r p e b (Q : unit → evq → Prop) :
  m !! p = Some e →
  (∀ m', m' = <[p := set_enqueued b e]> m → same_payload m m' →
     (∀ x, lk m' x = lk m x) → Q tt (MkEvq m' r)) →
  wp (upd_event p (set_enqueued b)) Q (MkEvq m r).
Proof.
  intros He HQ. eapply wp_upd_event; [done|]. apply HQ; [done|..];
    intros x; unfold lk; (destruct (decide (x = p)) as [->|];
      [rewrite lookup_insert_eq, He|by rewrite lookup_insert_ne]); by destruct e.
Qed.

(** Setting the flag of [x] makes the flags agree with a list that differs
    from the old one at [x] only. *)
Lemma flags_insert ps m m1 x e1 b (l l' : list Z) :
  (∀ y e, m !! y = Some e → ev_enqueued e = bool_decide (y ∈ l)) →
  ev_frame ps m m1 → (∀ y, y ≠ x → y ∈ l' ↔ y ∈ l) → b = bool_decide (x ∈ l') →
  ∀ y e, <[x := set_enqueued b e1]> m1 !! y = Some e → ev_enqueued e = bool_decide (y ∈ l').
Proof.
  intros Hf F Hl Hb y e. destruct (decide (y = x)) as [->|Hyx].
  - rewrite lookup_insert_eq. by intros [= <-].
  - rewrite lookup_insert_ne by done. intros He.
    destruct (ev_frame_enqueued _ _ _ _ _ F He) as (e0 & He0 & ->).
    rewrite (Hf _ _ He0). apply bool_decide_ext. by rewrite Hl.
Qed.

Lemma wp_event_remove s l x :
  evq_inv s l → x ∈ l →
  wp (event_remove x) (λ _ s', evq_inv s' (remove_event x l) ∧ same_payload (evs s) (evs s')) s.
Proof.
  destruct s as [m root]. intros ((t & Ht & <-) & Hnd & Hfl) Hx. simpl in *.
  destruct (tree_split _ _ Hx) as (c & tl & tr & ->).
  assert (root ≠ ev_null ∧ x ≠ ev_null) as [Hr Hx0].
  { split; [|by eapply tree_at_nodes]. intros Hr. apply (tree_at_root _ _ _ _ Ht) in Hr.
    rewrite Hr in Hx. set_solver + Hx. }
  assert (remove_event x (inorder (plug c (Node tl x tr))) =
    cbefore c ++ (inorder tl ++ inorder tr) ++ cafter c) as Erm.
  { rewrite inorder_plug in Hnd |- *. simpl in *.
    rewrite <-!(assoc_L (++)) in *. simpl in *. rewrite !(assoc_L (++)) in *.
    rewrite remove_event_mid by done. by rewrite (assoc_L (++)). }
  unfold event_remove. apply wp_bind, wp_gets. cbn [event_root].
  rewrite (proj2 (Z.eqb_neq _ _) Hr), (proj2 (Z.eqb_neq _ _) Hx0). cbn [orb].
  apply wp_bind. eapply wp_bst_delete; [done..|]. intros m1 root1 t1 Ht1 Ein F1.
  rewrite <-Erm in Ein.
  assert (x ∉ inorder t1) as Hx1 by (rewrite Ein, elem_of_remove_event; naive_solver).
  destruct (tree_at_nodes _ _ _ _ _ Ht Hx) as [[e He] _].
  assert (∃ v, lk m1 x = Some v) as [v Hv].
  { destruct (ev_frame_is_Some _ _ _ _ _ F1 He) as [e1 He1]. unfold lk. rewrite He1. eauto. }
  apply wp_bind. eapply wp_clear_links; [done|]. intros m2 F2 Hx2.
  destruct (lk_lookup _ _ _ Hx2) as (e2 & He2 & _).
  assert (ev_frame (x :: inorder t1) m m2) as F12.
  { eapply ev_frame_trans; [done|]. eapply ev_frame_mono; [|done]. set_solver +. }
  eapply wp_set_enqueued; [done|]. intros m3 -> Hp Hl3. split.
  - rewrite <-Ein in *. split; [|split].
    + exists t1. split; [|done]. eapply tree_at_frame; [intros; apply Hl3|].
      eapply ev_frame_tree; [exact F2| |done]. set_solver + Hx1.
    + rewrite Ein. by apply NoDup_filter.
    + eapply flags_insert; [done..| |].
      * intros y Hy. rewrite Ein, elem_of_remove_event. naive_solver.
      * symmetry. by apply bool_decide_eq_false.
  - etrans; [by eapply ev_frame_payload|done].
Qed.

Lemma wp_event_enqueue s l x :
  evq_inv s l → is_Some (evs s !! x) → x ≠ ev_null → by_time (evs s) (remove_event x l) →
  wp (event_enqueue x) (λ _ s',
    evq_inv s' (insert_by (time_in (evs s)) x (remove_event x l)) ∧
    by_time (evs s') (insert_by (time_in (evs s)) x (remove_event x l)) ∧
    same_payload (evs s) (evs s')) s.
Proof.
  intros Hinv [e He] Hx0 Hs. unfold event_enqueue. apply wp_bind, wp_kassert.
  { by rewrite (proj2 (Z.eqb_neq _ _) Hx0). }
  apply wp_bind. destruct s as [m root]. eapply wp_get_event; [done|]. apply wp_bind.
  apply (wp_mono _ (λ _ s', evq_inv s' (remove_event x l) ∧ same_payload m (evs s'))).
  { pose proof (proj2 (proj2 Hinv) _ _ He) as Hf. rewrite Hf. case_bool_decide.
    - by apply wp_event_remove.
    - apply wp_ret. rewrite remove_event_id; done. }
  clear Hinv. intros _ [m1 root1] [((t & Ht & Ein) & Hnd & Hfl) Hp1]. simpl in *.
  assert (∃ e1, m1 !! x = Some e1) as [e1 He1].
  { specialize (Hp1 x). rewrite He in Hp1. destruct (m1 !! x); [eauto|done]. }
  assert (x ∉ inorder t) as Hxt by (rewrite Ein, elem_of_remove_event; naive_solver).
  apply wp_bind. eapply wp_clear_links; [unfold lk; by rewrite He1|]. intros m2 F2 Hx2.
  assert (∀ y, time_in m2 y = time_in m y) as Ht2.
  { intros y. rewrite (ev_frame_time _ _ _ _ F2). by apply same_payload_time. }
  apply wp_bind. eapply (wp_event_bst_insert m2 root1 x t); [|done|done| | |].
  { eapply ev_frame_tree; [done| |done]. set_solver + Hxt. }
  { apply NoDup_cons. split; [done|]. by rewrite Ein. }
  { rewrite Ein. eapply by_time_ext; [|done]. auto. }
  intros m3 root3 t3 l1 l2 Ht3 E12 E3 Hl1 Hl2 F3.
  assert (insert_by (time_in m) x (remove_event x l) = inorder t3) as Eins.
  { rewrite <-Ein, E12, E3. apply insert_by_split; (eapply Forall_impl; [done|]);
      intros y; simpl; by rewrite !Ht2. }
  rewrite Eins.
  assert (∃ e3, m3 !! x = Some e3) as [e3 He3].
  { edestruct (tree_at_nodes m3 ev_null root3 t3 x) as [[e3 He3] _]; [done| |eauto].
    rewrite E3. set_solver +. }
  eapply wp_set_enqueued; [done|]. intros m4 Em4 Hp4 Hl4.
  assert (same_payload m m4) as Hp.
  { etrans; [exact Hp1|]. etrans; [by eapply ev_frame_payload|].
    etrans; [by eapply ev_frame_payload|done]. }
  split_and!; [|eapply by_time_ext|done].
  - split; [|split]; simpl.
    + exists t3. split; [|done]. eapply tree_at_frame; [intros; apply Hl4|done].
    + rewrite <-Eins, insert_by_perm, <-Ein. apply NoDup_cons. split; [done|by rewrite Ein].
    + subst m4. eapply (flags_insert (x :: inorder t3) m1 m3); [done| | |].
      * eapply ev_frame_trans; (eapply ev_frame_mono; [|eassumption]); set_solver +.
      * intros y Hy. rewrite <-Ein, E3, E12. set_solver + Hy.
      * symmetry. apply bool_decide_eq_true. rewrite E3. set_solver +.
  - intros y _. simpl. rewrite (same_payload_time _ _ _ Hp). symmetry. apply Ht2.
  - rewrite E3. apply by_time_mid; [|done..]. rewrite <-E12, Ein.
    eapply by_time_ext; [|done]. auto.
Qed.

Lemma wp_event_peek_next s l :
  evq_inv s l → wp event_peek_next (λ x s', x = hd ev_null l ∧ s' = s) s.
Proof.
  destruct s as [m root]. intros ((t & Ht & <-) & Hnd & _). simpl in *.
  unfold event_peek_next. apply wp_bind, wp_gets. unfold bst_minimum. cbn [event_root].
  destruct (Z.eqb_spec root ev_null) as [Hr|Hr].
  { apply wp_ret. apply (tree_at_root _ _ _ _ Ht) in Hr as ->. done. }
  apply wp_bind, wp_gets. eapply wp_leftmost; [done..|by eapply tree_at_size|].
  intros cl y yr -> Hcl. split; [|done]. by rewrite inorder_plug, Hcl.
Qed.

Lemma wp_print_inorder m root fuel par p t :
  tree_at m par p t → (length (inorder t) ≤ fuel)%nat →
  wp (print_event_bst_inorder fuel p) (λ r s', s' = MkEvq m root ∧
    map Some r = map (λ x, (λ e, (ev_owner e, ev_kind e, ev_time e)) <$> m !! x) (inorder t))
    (MkEvq m root).
Proof.
  revert fuel par p. induction t as [|l IHl x r IHr]; intros fuel par p; simpl.
  { intros -> _. by destruct fuel. }
  intros (-> & Hx & pl & pr & Hlk & Hl & Hr) Hf. rewrite length_app in Hf. simpl in Hf.
  destruct fuel as [|fuel]; [lia|]. simpl. destruct (Z.eqb_spec x ev_null); [done|].
  apply wp_bind. eapply wp_get_links; [done|]. intros e He -> -> _.
  apply wp_bind. eapply wp_mono; [eapply IHl; [done|lia]|]. intros rl ? [-> El].
  apply wp_bind. eapply wp_mono; [eapply IHr; [done|lia]|]. intros rr ? [-> Er].
  apply wp_ret. split; [done|]. rewrite !map_app. simpl. by rewrite El, Er, He.
Qed.

(** [event_dequeue] unlinks the earliest event and leaves its flag set. *)
Lemma wp_event_dequeue s x l :
  evq_inv s (x :: l) →
  wp event_dequeue (λ y s', y = x ∧
    (∃ t, tree_at (evs s') ev_null (event_root s') t ∧ inorder t = l) ∧
    same_payload (evs s) (evs s') ∧ ev_enqueued <$> evs s' !! x = Some true) s.
Proof.
  intros Hinv. pose proof Hinv as ((t & Ht & Ein) & Hnd & Hfl).
  destruct s as [m root]. simpl in *.
  destruct (root =? ev_null) eqn:Er.
  { apply Z.eqb_eq in Er as Hr. apply (tree_at_root _ _ _ _ Ht) in Hr as ->. done. }
  unfold event_dequeue. apply wp_bind, wp_gets. simpl. rewrite Er. apply wp_bind, wp_kassert; [done|].
  apply wp_bind. unfold bst_minimum. rewrite Er. apply wp_bind, wp_gets.
  apply Z.eqb_neq in Er. eapply wp_leftmost; [done..| |].
  { simpl. eapply tree_at_size; [done|by rewrite Ein]. }
  intros cl y yr -> Hcl. rewrite inorder_plug, Hcl in Ein. simpl in Ein.
  injection Ein as -> <-.
  apply wp_bind. eapply wp_bst_delete; [done| |].
  { by rewrite inorder_plug, Hcl. }
  intros m1 root1 t1 Ht1 E1 F1. rewrite Hcl in E1. apply wp_ret. split; [done|].
  split; [eauto|]. split; [by eapply ev_frame_payload|].
  destruct (tree_at_nodes _ _ _ _ x Ht) as [[e He] _].
  { rewrite inorder_plug, Hcl. set_solver +. }
  destruct (ev_frame_is_Some _ _ _ _ _ F1 He) as [e1 He1]. simpl. rewrite He1. simpl.
  destruct (ev_frame_enqueued _ _ _ _ _ F1 He1) as (e0 & He0 & ->).
  rewrite (Hfl _ _ He0), bool_decide_eq_true_2 by set_solver +. done.
Qed.

(** ** Runs *)

(** The operations as the scheduler uses them: an event's time is set and the
    event enqueued, whether it is in the queue or not; the earliest event is
    looked at; the earliest event is removed if it is due. *)
Inductive qop := QSchedule (x t : Z) | QPeek | QPopDue (now : Z).

(** The head of the loop of [handle_next_event]: the event whose callback
    runs next, removed from the queue. *)
Definition pop_due_event (now : Z) : M evq Z :=
  event ← event_peek_next;
  if event =? ev_null then mret ev_null else
  e ← get_event event;
  if now <? ev_time e then mret ev_null else
  event_remove event;; mret event.

Definition run_qop (o : qop) : M evq Z :=
  match o with
  | QSchedule x t => upd_event x (set_time t);; event_enqueue x;; mret ev_null
  | QPeek => event_peek_next
  | QPopDue now => pop_due_event now
  end.

Fixpoint run_qops (os : list qop) : M evq (list Z) :=
  match os with
  | [] => mret []
  | o :: os' => r ← run_qop o; rs ← run_qops os'; mret (r :: rs)
  end.

(** The specification: a list of events with their times. *)
Fixpoint spec_insert (x t : Z) (q : list (Z * Z)) : list (Z * Z) :=
  match q with
  | [] => [(x, t)]
  | (y, u) :: q' => if t <? u then (x, t) :: q else (y, u) :: spec_insert x t q'
  end.

Definition spec_qop (o : qop) (q : list (Z * Z)) : Z * list (Z * Z) :=
  match o with
  | QSchedule x t => (ev_null, spec_insert x t (filter (λ p, p.1 ≠ x) q))
  | QPeek => (match q with [] => ev_null | (x, _) :: _ => x end, q)
  | QPopDue now =>
      match q with
      | [] => (ev_null, q)
      | (x, t) :: q' => if now <? t then (ev_null, q) else (x, q')
      end
  end.

Fixpoint spec_qops (os : list qop) (q : list (Z * Z)) : list Z * list (Z * Z) :=
  match os with
  | [] => ([], q)
  | o :: os' => let '(r, q') := spec_qop o q in
                let '(rs, q'') := spec_qops os' q' in (r :: rs, q'')
  end.

(** The simulation relation. *)
Definition evq_rel (s : evq) (q : list (Z * Z)) : Prop :=
  evq_inv s (map fst q) ∧ by_time (evs s) (map fst q) ∧
  map (time_in (evs s)) (map fst q) = map snd q.

Definition qop_valid (m : gmap Z Event) (o : qop) : Prop :=
  match o with QSchedule x _ => is_Some (m !! x) ∧ x ≠ ev_null | _ => True end.

Lemma StronglySorted_filter {A} (R : A → A → Prop) P `{∀ x, Decision (P x)} l :
  StronglySorted R l → StronglySorted R (filter P l).
Proof.
  induction 1 as [|x l Hs IH Hx]; [constructor|]. rewrite filter_cons.
  destruct (decide (P x)); [|done]. constructor; [done|].
  apply Forall_forall. intros y [_ Hy]%list_elem_of_filter. rewrite Forall_forall in Hx. auto.
Qed.

Lemma spec_remove_fst x (q : list (Z * Z)) : map fst (filter (λ p, p.1 ≠ x) q) = remove_event x (map fst q).
Proof.
  unfold remove_event. induction q as [|[y u] q IH]; simpl; [done|].
  rewrite !filter_cons. simpl. destruct (decide (y ≠ x)); simpl; by rewrite IH.
Qed.

Section spec_times.
Variable tm : Z → Z.
Implicit Types q : list (Z * Z).

Lemma spec_insert_fst x q :
  map tm (map fst q) = map snd q →
  map fst (spec_insert x (tm x) q) = insert_by tm x (map fst q).
Proof.
  induction q as [|[y u] q IH]; simpl; [done|]. intros [= <- Hq].
  destruct (tm x <? tm y); simpl; [done|]. by rewrite IH.
Qed.

Lemma spec_insert_times x q :
  map tm (map fst q) = map snd q →
  map tm (map fst (spec_insert x (tm x) q)) = map snd (spec_insert x (tm x) q).
Proof.
  induction q as [|[y u] q IH]; simpl; [done|]. intros [= <- Hq].
  destruct (tm x <? tm y); simpl; [by rewrite Hq|]. by rewrite IH.
Qed.
End spec_times.

Lemma filter_times (tm tm' : Z → Z) x (q : list (Z * Z)) :
  (∀ y, y ≠ x → tm' y = tm y) → map tm (map fst q) = map snd q →
  map tm' (map fst (filter (λ p, p.1 ≠ x) q)) = map snd (filter (λ p, p.1 ≠ x) q).
Proof.
  intros He. induction q as [|[y u] q IH]; simpl; [done|]. intros [= <- Hq].
  rewrite filter_cons. simpl. destruct (decide (y ≠ x)); simpl; rewrite IH; [|done..].
  by rewrite He.
Qed.

Lemma map_time_ext m m' l :
  same_payload m m' → map (time_in m') l = map (time_in m) l.
Proof. intros Hp. apply map_ext. intros. by apply same_payload_time. Qed.

Lemma same_payload_dom m m' : same_payload m m' → dom m' = dom m.
Proof.
  intros Hp. apply set_eq. intros x. rewrite !elem_of_dom. specialize (Hp x).
  destruct (m !! x), (m' !! x); simplify_eq/=; split; intros [? [=]]; eauto.
Qed.

(** Writing an event's time keeps the tree. *)
Lemma evq_inv_set_time m root l x e t :
  evq_inv (MkEvq m root) l → m !! x = Some e →
  evq_inv (MkEvq (<[x := set_time t e]> m) root) l.
Proof.
  intros ((tr & Ht & Hin) & Hnd & Hfl) He. split; [|split; [done|]]; simpl in *.
  - exists tr. split; [|done]. eapply tree_at_frame; [|done]. intros y _. unfold lk.
    destruct (decide (y = x)) as [->|]; [rewrite lookup_insert_eq, He|by rewrite lookup_insert_ne].
    by destruct e.
  - intros y ey. destruct (decide (y = x)) as [->|].
    + rewrite lookup_insert_eq. intros [= <-]. rewrite <-(Hfl _ _ He). by destruct e.
    + rewrite lookup_insert_ne by done. apply Hfl.
Qed.

Lemma schedule_refines s q x t :
  evq_rel s q → is_Some (evs s !! x) → x ≠ ev_null →
  wp (run_qop (QSchedule x t)) (λ r s', r = ev_null ∧
    evq_rel s' (spec_insert x t (filter (λ p, p.1 ≠ x) q)) ∧ dom (evs s') = dom (evs s)) s.
Proof.
  destruct s as [m root]. intros (Hinv & Hs & Htm) [e He] Hx0. simpl in *.
  unfold run_qop. apply wp_bind. eapply wp_upd_event; [done|].
  set (m1 := <[x := set_time t e]> m).
  assert (time_in m1 x = t) as Hx1 by (unfold time_in, m1; by rewrite lookup_insert_eq).
  assert (∀ y, y ≠ x → time_in m1 y = time_in m y) as Hy1
    by (intros y Hy; unfold time_in, m1; by rewrite lookup_insert_ne).
  apply wp_bind. eapply wp_mono.
  { apply (wp_event_enqueue (MkEvq m1 root) (map fst q) x); [by apply evq_inv_set_time| |done|].
    - simpl. unfold m1. rewrite lookup_insert_eq. eauto.
    - eapply by_time_ext, StronglySorted_filter, Hs. intros y [Hy _]%elem_of_remove_event. by apply Hy1. }
  intros _ s' (Hinv' & Hs' & Hp). apply wp_ret. split; [done|]. cbn [evs] in *.
  pose proof (filter_times _ (time_in m1) x q Hy1 Htm) as Hf.
  rewrite <-spec_remove_fst, <-spec_insert_fst, Hx1 in Hinv', Hs' by done.
  split; [split; [done|split; [done|]]|].
  - rewrite (map_time_ext _ _ _ Hp). simpl. rewrite <-Hx1. by apply spec_insert_times.
  - rewrite (same_payload_dom _ _ Hp). simpl. unfold m1. rewrite dom_insert_lookup_L; [done|eauto].
Qed.

Lemma pop_due_refines s q now :
  evq_rel s q →
  wp (run_qop (QPopDue now)) (λ r s', r = (spec_qop (QPopDue now) q).1 ∧
    evq_rel s' (spec_qop (QPopDue now) q).2 ∧ dom (evs s') = dom (evs s)) s.
Proof.
  intros (Hinv & Hs & Htm). unfold run_qop, pop_due_event. apply wp_bind.
  eapply wp_mono; [by apply wp_event_peek_next|]. intros x ? [-> ->].
  destruct q as [|[x t] q]; simpl.
  { apply wp_ret. split; [done|]. split; [|done]. split; [done|]. by split. }
  simpl in Htm. injection Htm as Hx Htm.
  pose proof Hinv as ((tr & Htr & Hin) & Hnd & Hfl).
  destruct (tree_at_nodes _ _ _ _ x Htr) as [[e He] Hx0]; [rewrite Hin; simpl; set_solver +|].
  rewrite (proj2 (Z.eqb_neq _ _) Hx0).
  apply wp_bind. destruct s as [m root]. eapply wp_get_event; [done|].
  assert (ev_time e = t) as -> by (rewrite <-Hx; unfold time_in; simpl; simpl in He; by rewrite He).
  destruct (now <? t); simpl.
  { apply wp_ret. split; [done|]. split; [|done]. split; [done|]. split; [done|].
    simpl in *. by rewrite Hx, Htm. }
  apply wp_bind. eapply wp_mono; [eapply wp_event_remove; [done|simpl; set_solver +]|].
  intros _ s' [Hinv' Hp]. apply wp_ret. split; [done|]. cbn [map fst] in Hinv', Hnd, Hs.
  pose proof (remove_event_mid x [] _ Hnd) as Erm. cbn [app] in Erm. rewrite Erm in Hinv'.
  split; [|by apply same_payload_dom]. split; [done|]. split.
  - eapply by_time_ext; [intros; by apply same_payload_time|].
    by apply StronglySorted_cons in Hs as [_ ?].
  - by rewrite (map_time_ext _ _ _ Hp).
Qed.

Lemma qop_refines s q o :
  evq_rel s q → qop_valid (evs s) o →
  wp (run_qop o) (λ r s', r = (spec_qop o q).1 ∧ evq_rel s' (spec_qop o q).2 ∧
    dom (evs s') = dom (evs s)) s.
Proof.
  destruct o as [x t| |now]; intros HR Hv.
  - destruct Hv. by apply schedule_refines.
  - eapply wp_mono; [apply wp_event_peek_next, HR|]. intros r ? [-> ->].
    by destruct q as [|[]].
  - by apply pop_due_refines.
Qed.

(** ** Claims *)

(** Enqueueing an event, whether it is already queued or not, puts it
    behind every queued event that is not later and before every later one,
    even when its time was changed while it was queued; the queue stays
    ordered by time and every flag agrees with it. *)
Theorem event_enqueue_inserts s l x :
  evq_inv s l → is_Some (evs s !! x) → x ≠ ev_null → by_time (evs s) (remove_event x l) →
  wp (event_enqueue x) (λ _ s',
    evq_inv s' (insert_by (time_in (evs s)) x (remove_event x l)) ∧
    by_time (evs s') (insert_by (time_in (evs s)) x (remove_event x l)) ∧
    same_payload (evs s) (evs s')) s.
Proof. apply wp_event_enqueue. Qed.

(** Removing a queued event takes exactly it out of the list, whatever
    its place in the tree, and clears its flag. *)
Theorem event_remove_removes s l x :
  evq_inv s l → x ∈ l →
  wp (event_remove x) (λ _ s', evq_inv s' (remove_event x l) ∧ same_payload (evs s) (evs s')) s.
Proof. apply wp_event_remove. Qed.

(** On a queue ordered by time, [event_peek_next] returns NULL exactly
    when the queue is empty, and otherwise a queued event that no queued
    event precedes; it changes nothing. *)
Theorem event_peek_next_earliest s l :
  evq_inv s l → by_time (evs s) l →
  wp event_peek_next (λ x s', s' = s ∧ (x = ev_null ↔ l = []) ∧
    (x ≠ ev_null → x ∈ l ∧ ∀ y, y ∈ l → time_in (evs s) x ≤ time_in (evs s) y)) s.
Proof.
  intros Hinv Hs. eapply wp_mono; [by apply wp_event_peek_next|]. intros x ? [-> ->].
  split; [done|]. destruct l as [|x l]; simpl; [naive_solver|].
  destruct Hinv as ((t & Ht & Hin) & _).
  destruct (tree_at_nodes _ _ _ _ x Ht) as [_ Hx0]; [rewrite Hin; set_solver +|].
  split; [naive_solver|]. intros _. split; [set_solver +|].
  apply StronglySorted_cons in Hs as [Hs _]. rewrite Forall_forall in Hs.
  intros y. rewrite elem_of_cons. intros [->|Hy]; [lia|auto].
Qed.

(** C8: over any sequence of the scheduler's uses of the queue, events.c
    returns what a list ordered by time returns, with no panic, fault or
    loop that does not end, and the final states are related again. *)
Theorem queue_refines os s q :
  evq_rel s q → Forall (qop_valid (evs s)) os →
  wp (run_qops os) (λ rs s', rs = (spec_qops os q).1 ∧ evq_rel s' (spec_qops os q).2) s.
Proof.
  revert s q. induction os as [|o os IH]; intros s q HR Hv; simpl; [by apply wp_ret|].
  apply Forall_cons in Hv as [Ho Hv].
  apply wp_bind. eapply wp_mono; [by apply qop_refines|]. intros r s1 (-> & HR1 & Hd).
  destruct (spec_qop o q) as [r q1]. simpl in *.
  apply wp_bind. eapply wp_mono; [apply (IH s1 q1); [done|]|].
  { eapply Forall_impl; [done|]. intros [x t| |now]; simpl; [|done..].
    rewrite <-!elem_of_dom. by rewrite Hd. }
  intros rs s2 (-> & HR2). destruct (spec_qops os q1). by apply wp_ret.
Qed.

(** [print_event_queue] logs the queued events in the order in which
    they will be returned. *)
Theorem print_event_queue_inorder s l :
  evq_inv s l →
  wp print_event_queue (λ r s', s' = s ∧
    map Some r = map (λ x, (λ e, (ev_owner e, ev_kind e, ev_time e)) <$> evs s !! x) l) s.
Proof.
  destruct s as [m root]. intros ((t & Ht & <-) & Hnd & _). simpl in *.
  unfold print_event_queue. apply wp_bind, wp_gets. cbn [event_root].
  destruct (Z.eqb_spec root ev_null) as [Hr|Hr].
  { apply (tree_at_root _ _ _ _ Ht) in Hr as ->. by apply wp_ret. }
  apply wp_bind, wp_gets. eapply wp_print_inorder; [done|by eapply tree_at_size].
Qed.

(** [event_dequeue] returns the earliest event and unlinks it, but
    leaves it marked as enqueued. *)
Theorem event_dequeue_keeps_flag s x l :
  evq_inv s (x :: l) →
  wp event_dequeue (λ y s', y = x ∧
    (∃ t, tree_at (evs s') ev_null (event_root s') t ∧ inorder t = l) ∧
    same_payload (evs s) (evs s') ∧ ev_enqueued <$> evs s' !! x = Some true) s.
Proof. apply wp_event_dequeue. Qed.

(** An event that was dequeued and is enqueued again can drop another
    event from the queue: with the times 2, 1, 3, 0 the event of time 3 is
    lost. *)
Theorem event_dequeue_requeue_loses :
  wp (event_enqueue 1;; event_enqueue 2;; event_enqueue 3;; y ← event_dequeue;
      event_enqueue 4;; event_enqueue y;; l ← print_event_queue; mret (y, map snd l))
    (λ r _, r = (2, [0; 1; 2])) (evq_of [2; 1; 3; 0]).
Proof. vm_compute. reflexivity. Qed.

(** ** Witnesses *)

(** Three queued events; the time of the first is then changed. *)
Definition queue_demo : evq :=
  match (event_enqueue 1;; event_enqueue 2;; event_enqueue 3) (evq_of [30; 10; 20]) with
  | Ok (_, s) => s
  | _ => evq_of []
  end.

Lemma queue_demo_inv : evq_inv queue_demo [2; 3; 1].
Proof.
  split; [|split].
  - exists (Node (Node Leaf 2 (Node Leaf 3 Leaf)) 1 Leaf). split; [|reflexivity].
    simpl. split; [reflexivity|]. split; [done|]. exists 2, 0. split; [reflexivity|].
    split; [|reflexivity]. split; [reflexivity|]. split; [done|]. exists 0, 3.
    split; [reflexivity|]. split; [reflexivity|]. split; [reflexivity|]. split; [done|].
    exists 0, 0. done.
  - apply (bool_decide_unpack _). vm_compute. exact I.
  - apply (map_Forall_lookup (λ x e, ev_enqueued e = bool_decide (x ∈ [2; 3; 1]))).
    apply (bool_decide_unpack _). vm_compute. exact I.
Qed.

Lemma queue_demo_sorted : by_time (evs queue_demo) [2; 3; 1].
Proof.
  constructor; [constructor; [constructor; [constructor|constructor]|]|]; repeat constructor;
    vm_compute; discriminate.
Qed.

Lemma event_enqueue_inserts_witness :
  wp (event_enqueue 3) (λ _ s', evq_inv s' [2; 3; 1]) queue_demo.
Proof.
  refine (wp_mono _ _ _ _ (event_enqueue_inserts queue_demo [2; 3; 1] 3 queue_demo_inv _ _ _) _).
  - vm_compute. eauto.
  - done.
  - constructor; [constructor; [constructor|constructor]|]; repeat constructor;
      vm_compute; discriminate.
  - intros _ s' [H _]. exact H.
Defined.

Lemma event_remove_removes_witness :
  wp (event_remove 1) (λ _ s', evq_inv s' [2; 3]) queue_demo.
Proof.
  refine (wp_mono _ _ _ _ (event_remove_removes queue_demo [2; 3; 1] 1 queue_demo_inv _) _).
  - set_solver.
  - intros _ s' [H _]. exact H.
Defined.

Lemma event_peek_next_earliest_witness :
  wp event_peek_next (λ x s', s' = queue_demo ∧ (x ≠ 0 → x ∈ [2; 3; 1])) queue_demo.
Proof.
  refine (wp_mono _ _ _ _ (event_peek_next_earliest queue_demo [2; 3; 1]
    queue_demo_inv queue_demo_sorted) _).
  intros x s' (Hs & _ & Hx). split; [exact Hs|]. intros Hx0. exact (proj1 (Hx Hx0)).
Defined.

Lemma queue_refines_witness :
  wp (run_qops [QPopDue 15; QSchedule 3 40; QPeek; QPopDue 20])
    (λ rs _, rs = [2; 0; 1; 0]) queue_demo.
Proof.
  refine (wp_mono _ _ _ _ (queue_refines _ queue_demo [(2, 10); (3, 20); (1, 30)] _ _) _).
  - split; [exact queue_demo_inv|]. split; [exact queue_demo_sorted|reflexivity].
  - repeat constructor; vm_compute; eauto; discriminate.
  - intros rs s' [-> _]. reflexivity.
Defined.

Lemma print_event_queue_inorder_witness :
  wp print_event_queue (λ r _, map Some r =
    [Some (0, "NONE"%string, 10); Some (0, "NONE"%string, 20); Some (0, "NONE"%string, 30)])
    queue_demo.
Proof.
  refine (wp_mono _ _ _ _ (print_event_queue_inorder queue_demo [2; 3; 1] queue_demo_inv) _).
  intros r s' [_ ->]. reflexivity.
Defined.

Lemma event_dequeue_keeps_flag_witness :
  wp event_dequeue (λ y s', y = 2 ∧ ev_enqueued <$> evs s' !! 2 = Some true) queue_demo.
Proof.
  refine (wp_mono _ _ _ _ (event_dequeue_keeps_flag queue_demo 2 [3; 1] queue_demo_inv) _).
  intros y s' (Hy & _ & _ & Hf). split; [exact Hy|exact Hf].
Defined.
