(* ===== verification/StringC.v ===== *)
(** * Memory and string routines: kernel/string.c

    The byte loops of string.c over any state that contains a memory, and
    what they guarantee: overlap-safe moves, fills, lexicographic comparison
    and the copy of a terminated string.  A loop bounded by [n] runs
    [Z.to_nat n] times; [strcpy] takes a bound on the length of its source. *)

From S2P Require Import Prelude Mem.
Local Open Scope Z_scope.

Section code.
Context {S : Type} `{Has mem S}.

Fixpoint strcpy_loop (fuel : nat) (strDest strSrc : Z) : M S unit :=
  match fuel with
  | O => nofuel
  | Datatypes.S fuel' =>
      c ← rd8 strSrc;
      wr8 strDest c;;
      if c =? 0 then mret tt else strcpy_loop fuel' (strDest + 1) (strSrc + 1)
  end.

Definition strcpy (fuel : nat) (strDest strSrc : Z) : M S Z :=
  strcpy_loop fuel strDest strSrc;; mret strDest.

(** [for (i = i; i < i + k; i++) pdest[i] = psrc[i]]. *)
Fixpoint copy_up (k : nat) (i pdest psrc : Z) : M S unit :=
  match k with
  | O => mret tt
  | Datatypes.S k' =>
      b ← rd8 (psrc + i);
      wr8 (pdest + i) b;;
      copy_up k' (i + 1) pdest psrc
  end.

(** [for (i = k; i > 0; i--) pdest[i-1] = psrc[i-1]]. *)
Fixpoint copy_down (k : nat) (pdest psrc : Z) : M S unit :=
  match k with
  | O => mret tt
  | Datatypes.S k' =>
      b ← rd8 (psrc + Z.of_nat k');
      wr8 (pdest + Z.of_nat k') b;;
      copy_down k' pdest psrc
  end.

Definition memcpy (dest src n : Z) : M S Z :=
  copy_up (Z.to_nat n) 0 dest src;; mret dest.

Fixpoint memset_loop (len : nat) (ptr val : Z) : M S unit :=
  match len with
  | O => mret tt
  | Datatypes.S len' => wr8 ptr (u8 val);; memset_loop len' (ptr + 1) val
  end.

Definition memset (dest val len : Z) : M S Z :=
  memset_loop (Z.to_nat len) dest val;; mret dest.

Definition memmove (dest src n : Z) : M S Z :=
  (if dest <? src then copy_up (Z.to_nat n) 0 dest src
   else if src <? dest then copy_down (Z.to_nat n) dest src
   else mret tt);;
  mret dest.

Fixpoint memcmp_loop (k : nat) (i p1 p2 : Z) : M S Z :=
  match k with
  | O => mret 0
  | Datatypes.S k' =>
      a ← rd8 (p1 + i);
      b ← rd8 (p2 + i);
      if negb (a =? b) then mret (if a <? b then -1 else 1)
      else memcmp_loop k' (i + 1) p1 p2
  end.

Definition memcmp (s1 s2 n : Z) : M S Z := memcmp_loop (Z.to_nat n) 0 s1 s2.
End code.

(** ** Specifications *)

(** Every byte of [a, a + n) is mapped. *)
Definition mapped_range (m : mem) (a n : Z) : Prop := ∀ x, a ≤ x < a + n → is_Some (m x).

(** [m'] has the [n] bytes [m] has at [src] at [dest], and is [m] elsewhere. *)
Definition moved (m m' : mem) (dest src n : Z) : Prop :=
  (∀ i, 0 ≤ i < n → load8 m' (dest + i) = load8 m (src + i)) ∧
  (∀ x, ¬ (dest ≤ x < dest + n) → m' x = m x).

Definition filled (m m' : mem) (dest val n : Z) : Prop :=
  (∀ x, dest ≤ x < dest + n → m' x = Some (u8 val)) ∧
  (∀ x, ¬ (dest ≤ x < dest + n) → m' x = m x).

Definition bytes_at (m : mem) (a : Z) (n : nat) : list Z :=
  (λ i, default 0 (load8 m (a + i))) <$> seqZ 0 (Z.of_nat n).

Fixpoint lex_compare (l1 l2 : list Z) : Z :=
  match l1, l2 with
  | a :: l1', b :: l2' => if a =? b then lex_compare l1' l2' else if a <? b then -1 else 1
  | _, _ => 0
  end.

Lemma load1 m a : load 1 m a = load8 m a.
Proof.
  rewrite load_S. unfold load. destruct (load8 m a); simpl; [|done]. f_equal. lia.
Qed.

Lemma load8_ext m m' x : m' x = m x → load8 m' x = load8 m x.
Proof. unfold load8. by intros ->. Qed.

Lemma load8_store8 m a b x :
  load8 m a = Some b → load8 (store8 m x b) x = Some b.
Proof.
  unfold load8, store8. rewrite Z.eqb_refl. intros (c & Hc & ->)%fmap_Some. simpl.
  by rewrite !Z.mod_mod by lia.
Qed.

Section proofs.
Context {S : Type} `{HasLaws mem S}.
Implicit Types (s : S) (m : mem).

Lemma wp_rd8 a b (Q : Z → S → Prop) s : load8 (prj s) a = Some b → Q b s → wp (rd8 a) Q s.
Proof. intros Hb. apply wp_rd. by rewrite load1. Qed.

Lemma wp_wr8 a v (Q : unit → S → Prop) s :
  is_Some (prj s a) → Q tt (upd (store8 (prj s) a v) s) → wp (wr8 a v) Q s.
Proof.
  intros Ha HQ. apply wp_wr; [|done]. apply mapped_spec. intros x Hx.
  by replace x with a by lia.
Qed.

Lemma load8_mapped m a : is_Some (m a) → ∃ b, load8 m a = Some b.
Proof. intros [x Hx]. unfold load8. rewrite Hx. simpl. eauto. Qed.

Lemma store8_mapped m a v x : is_Some (m x) → is_Some (store8 m a v x).
Proof. unfold store8. destruct (x =? a); eauto. Qed.

Lemma copy_up_spec k i dest src (Q : unit → S → Prop) s :
  0 ≤ i → dest ≤ src ∨ src + i + Z.of_nat k ≤ dest + i →
  mapped_range (prj s) (src + i) (Z.of_nat k) → mapped_range (prj s) (dest + i) (Z.of_nat k) →
  (∀ m', moved (prj s) m' (dest + i) (src + i) (Z.of_nat k) → Q tt (upd m' s)) →
  wp (copy_up k i dest src) Q s.
Proof.
  revert i s. induction k as [|k IH]; intros i s Hi Hd Hs Hm HQ; cbn [copy_up].
  { apply wp_ret. rewrite <-(upd_prj s). apply HQ. split; [lia|done]. }
  destruct (load8_mapped (prj s) (src + i)) as [b Hb]; [apply Hs; lia|].
  apply wp_bind. eapply wp_rd8; [done|].
  apply wp_bind. apply wp_wr8; [apply Hm; lia|].
  apply IH; [lia|lia|..]; rewrite ?prj_upd.
  { intros x Hx. apply store8_mapped, Hs. lia. }
  { intros x Hx. apply store8_mapped, Hm. lia. }
  intros m' [H1 H2]. rewrite upd_upd. apply HQ. split.
  - intros j Hj. destruct (decide (j = 0)) as [->|].
    + rewrite !Z.add_0_r, Hb. rewrite <-(load8_store8 _ _ _ (dest + i) Hb).
      apply load8_ext. apply H2. lia.
    + replace (dest + i + j) with (dest + (i + 1) + (j - 1)) by lia.
      rewrite H1 by lia. replace (src + (i + 1) + (j - 1)) with (src + i + j) by lia.
      apply load8_ext. unfold store8. destruct (Z.eqb_spec (src + i + j) (dest + i)); [lia|done].
  - intros x Hx. rewrite H2 by lia. unfold store8. destruct (Z.eqb_spec x (dest + i)); [lia|done].
Qed.

Lemma copy_down_spec k dest src (Q : unit → S → Prop) s :
  src ≤ dest → mapped_range (prj s) src (Z.of_nat k) → mapped_range (prj s) dest (Z.of_nat k) →
  (∀ m', moved (prj s) m' dest src (Z.of_nat k) → Q tt (upd m' s)) →
  wp (copy_down k dest src) Q s.
Proof.
  revert s. induction k as [|k IH]; intros s Hd Hs Hm HQ; cbn [copy_down].
  { apply wp_ret. rewrite <-(upd_prj s). apply HQ. split; [lia|done]. }
  destruct (load8_mapped (prj s) (src + Z.of_nat k)) as [b Hb]; [apply Hs; lia|].
  apply wp_bind. eapply wp_rd8; [done|].
  apply wp_bind. apply wp_wr8; [apply Hm; lia|].
  apply IH; [lia|..]; rewrite ?prj_upd.
  { intros x Hx. apply store8_mapped, Hs. lia. }
  { intros x Hx. apply store8_mapped, Hm. lia. }
  intros m' [H1 H2]. rewrite upd_upd. apply HQ. split.
  - intros j Hj. destruct (decide (j = Z.of_nat k)) as [->|].
    + rewrite Hb. rewrite <-(load8_store8 _ _ _ (dest + Z.of_nat k) Hb).
      apply load8_ext. apply H2. lia.
    + rewrite H1 by lia. apply load8_ext. unfold store8.
      destruct (Z.eqb_spec (src + j) (dest + Z.of_nat k)); [lia|done].
  - intros x Hx. rewrite H2 by lia. unfold store8.
    destruct (Z.eqb_spec x (dest + Z.of_nat k)); [lia|done].
Qed.

Lemma memset_loop_spec k ptr val (Q : unit → S → Prop) s :
  mapped_range (prj s) ptr (Z.of_nat k) →
  (∀ m', filled (prj s) m' ptr val (Z.of_nat k) → Q tt (upd m' s)) →
  wp (memset_loop k ptr val) Q s.
Proof.
  revert ptr s. induction k as [|k IH]; intros ptr s Hm HQ; cbn [memset_loop].
  { apply wp_ret. rewrite <-(upd_prj s). apply HQ. split; [lia|done]. }
  apply wp_bind. apply wp_wr8; [apply Hm; lia|]. apply IH; rewrite ?prj_upd.
  { intros x Hx. apply store8_mapped, Hm. lia. }
  intros m' [H1 H2]. rewrite upd_upd. apply HQ. split.
  - intros x Hx. destruct (decide (x = ptr)) as [->|]; [|apply H1; lia].
    rewrite H2 by lia. rewrite store8_eq. f_equal. unfold wrap. by rewrite Z.mod_mod.
  - intros x Hx. rewrite H2 by lia. unfold store8. destruct (Z.eqb_spec x ptr); [lia|done].
Qed.

Lemma wp_memset dest val n (Q : Z → S → Prop) s :
  0 ≤ n → mapped_range (prj s) dest n →
  (∀ m', filled (prj s) m' dest val n → Q dest (upd m' s)) →
  wp (memset dest val n) Q s.
Proof.
  intros Hn Hm HQ. unfold memset. apply wp_bind.
  apply memset_loop_spec; rewrite Z2Nat.id by lia; [done|]. intros m' Hf. by apply wp_ret, HQ.
Qed.

Lemma wp_memcpy dest src n (Q : Z → S → Prop) s :
  0 ≤ n → dest ≤ src ∨ src + n ≤ dest →
  mapped_range (prj s) src n → mapped_range (prj s) dest n →
  (∀ m', moved (prj s) m' dest src n → Q dest (upd m' s)) →
  wp (memcpy dest src n) Q s.
Proof.
  intros Hn Hd Hs Hm HQ. unfold memcpy. apply wp_bind.
  apply copy_up_spec; rewrite ?Z2Nat.id, ?Z.add_0_r by lia; [lia|lia|done|done|].
  intros m' Hmv. by apply wp_ret, HQ.
Qed.

Lemma wp_memmove dest src n (Q : Z → S → Prop) s :
  0 ≤ n → mapped_range (prj s) src n → mapped_range (prj s) dest n →
  (∀ m', moved (prj s) m' dest src n → Q dest (upd m' s)) →
  wp (memmove dest src n) Q s.
Proof.
  intros Hn Hs Hm HQ. unfold memmove. apply wp_bind.
  destruct (Z.ltb_spec dest src); [|destruct (Z.ltb_spec src dest)].
  - apply copy_up_spec; rewrite ?Z2Nat.id, ?Z.add_0_r by lia; [lia|lia|done|done|].
    intros m' Hmv. by apply wp_ret, HQ.
  - apply copy_down_spec; rewrite ?Z2Nat.id by lia; [lia|done|done|].
    intros m' Hmv. by apply wp_ret, HQ.
  - apply wp_ret, wp_ret. rewrite <-(upd_prj s). apply HQ.
    replace src with dest by lia. done.
Qed.

Lemma strcpy_loop_spec fuel k dest src (Q : unit → S → Prop) s :
  (k < fuel)%nat → dest ≤ src ∨ src + Z.of_nat k < dest →
  mapped_range (prj s) dest (Z.of_nat k + 1) →
  (∀ i, 0 ≤ i < Z.of_nat k → ∃ c, load8 (prj s) (src + i) = Some c ∧ c ≠ 0) →
  load8 (prj s) (src + Z.of_nat k) = Some 0 →
  (∀ m', moved (prj s) m' dest src (Z.of_nat k + 1) → Q tt (upd m' s)) →
  wp (strcpy_loop fuel dest src) Q s.
Proof.
  revert k dest src s. induction fuel as [|fuel IH]; intros k dest src s Hf Hd Hm Hc Hz HQ; [lia|].
  assert (∃ b, load8 (prj s) src = Some b ∧ (b = 0 ↔ k = 0%nat)) as (b & Hb & Hbk).
  { destruct k as [|k]; [exists 0; rewrite Z.add_0_r in Hz; naive_solver|].
    destruct (Hc 0) as (c & Hc0 & Hn); [lia|]. rewrite Z.add_0_r in Hc0. naive_solver. }
  cbn [strcpy_loop]. apply wp_bind. eapply wp_rd8; [done|].
  apply wp_bind. apply wp_wr8; [apply Hm; lia|].
  assert (∀ x, x ≠ dest → store8 (prj s) dest b x = prj s x) as Ho.
  { intros x Hx. unfold store8. by rewrite (proj2 (Z.eqb_neq _ _) Hx). }
  pose proof (load8_store8 _ _ _ dest Hb) as Hdb.
  destruct (Z.eqb_spec b 0) as [Hb0|Hb0].
  { apply wp_ret. apply HQ. rewrite (proj1 Hbk Hb0). split.
    - intros i Hi. replace i with 0 by lia. by rewrite !Z.add_0_r, Hb.
    - intros x Hx. apply Ho. lia. }
  destruct k as [|k]; [naive_solver|].
  apply (IH k); [lia|lia|..]; rewrite ?prj_upd.
  { intros x Hx. apply store8_mapped, Hm. lia. }
  { intros i Hi. destruct (Hc (1 + i)) as (c & Hc1 & ?); [lia|]. exists c. split; [|done].
    rewrite <-Hc1, Z.add_assoc. apply load8_ext, Ho. lia. }
  { rewrite <-Hz. replace (src + 1 + Z.of_nat k) with (src + Z.of_nat (Datatypes.S k)) by lia.
    apply load8_ext, Ho. lia. }
  intros m' [H1 H2]. rewrite upd_upd. apply HQ. split.
  - intros i Hi. destruct (decide (i = 0)) as [->|].
    + rewrite !Z.add_0_r, Hb, <-Hdb. apply load8_ext, H2. lia.
    + replace (dest + i) with (dest + 1 + (i - 1)) by lia. rewrite H1 by lia.
      replace (src + 1 + (i - 1)) with (src + i) by lia. apply load8_ext, Ho. lia.
  - intros x Hx. rewrite H2 by lia. apply Ho. lia.
Qed.

Lemma bytes_at_S m a i k :
  bytes_at m (a + i) (Datatypes.S k) = default 0 (load8 m (a + i)) :: bytes_at m (a + (i + 1)) k.
Proof.
  unfold bytes_at. rewrite seqZ_cons, fmap_cons by lia. cbn beta. rewrite Z.add_0_r. f_equal.
  replace (Z.pred (Z.of_nat (Datatypes.S k))) with (Z.of_nat k) by lia.
  change (Z.succ 0) with (1 + 0). rewrite <-fmap_add_seqZ, <-list_fmap_compose.
  apply list_fmap_ext. intros j x _. simpl. do 2 f_equal. lia.
Qed.

Lemma memcmp_loop_spec k i p1 p2 s :
  mapped_range (prj s) (p1 + i) (Z.of_nat k) → mapped_range (prj s) (p2 + i) (Z.of_nat k) →
  wp (memcmp_loop k i p1 p2) (λ r s', s' = s ∧
    r = lex_compare (bytes_at (prj s) (p1 + i) k) (bytes_at (prj s) (p2 + i) k)) s.
Proof.
  revert i. induction k as [|k IH]; intros i H1 H2; cbn [memcmp_loop]; [by apply wp_ret|].
  destruct (load8_mapped (prj s) (p1 + i)) as [a Ha]; [apply H1; lia|].
  destruct (load8_mapped (prj s) (p2 + i)) as [b Hb]; [apply H2; lia|].
  apply wp_bind. eapply wp_rd8; [done|]. apply wp_bind. eapply wp_rd8; [done|].
  rewrite !bytes_at_S, Ha, Hb. simpl. destruct (a =? b); simpl; [|by apply wp_ret].
  apply IH; intros x Hx; [apply H1|apply H2]; lia.
Qed.
End proofs.

(** ** Claims *)

Section claims.
Context {S : Type} `{HasLaws mem S}.

(** [memmove] puts the [n] bytes that were at [src] at [dest] and
    changes nothing else, for every overlap of the two ranges. *)
Theorem memmove_moves dest src n (s : S) :
  0 ≤ n → mapped_range (prj s) src n → mapped_range (prj s) dest n →
  wp (memmove dest src n) (λ r s', r = dest ∧
    ∃ m', s' = upd m' s ∧ moved (prj s) m' dest src n) s.
Proof. intros. apply wp_memmove; eauto. Qed.

(** [memcmp] is the lexicographic order of the two byte ranges; it
    changes nothing. *)
Theorem memcmp_lexicographic s1 s2 n (s : S) :
  0 ≤ n → mapped_range (prj s) s1 n → mapped_range (prj s) s2 n →
  wp (memcmp s1 s2 n) (λ r s', s' = s ∧
    r = lex_compare (bytes_at (prj s) s1 (Z.to_nat n)) (bytes_at (prj s) s2 (Z.to_nat n))) s.
Proof.
  intros Hn H1 H2. unfold memcmp.
  pose proof (memcmp_loop_spec (Z.to_nat n) 0 s1 s2 s) as Hl.
  rewrite !Z.add_0_r, Z2Nat.id in Hl by lia. auto.
Qed.

(** [strcpy] copies a string of [k] characters with its terminator and
    changes nothing else, when the destination does not start inside the
    source. *)
Theorem strcpy_copies fuel k dest src (s : S) :
  (k < fuel)%nat → dest ≤ src ∨ src + Z.of_nat k < dest →
  mapped_range (prj s) dest (Z.of_nat k + 1) →
  (∀ i, 0 ≤ i < Z.of_nat k → ∃ c, load8 (prj s) (src + i) = Some c ∧ c ≠ 0) →
  load8 (prj s) (src + Z.of_nat k) = Some 0 →
  wp (strcpy fuel dest src) (λ r s', r = dest ∧
    ∃ m', s' = upd m' s ∧ moved (prj s) m' dest src (Z.of_nat k + 1)) s.
Proof.
  intros. unfold strcpy. apply wp_bind. eapply strcpy_loop_spec; [done..|].
  intros m' Hm. apply wp_ret. eauto.
Qed.
End claims.

(** ** Witnesses *)

(** Sixteen bytes 1, 2, ..., 16 at address 0, with a zero at 3. *)
Definition bytes16 : mem := λ x,
  if (0 <=? x) && (x <? 16) then Some (if x =? 3 then 0 else x + 1) else None.

Lemma bytes16_mapped a n : 0 ≤ a → a + n ≤ 16 → mapped_range bytes16 a n.
Proof.
  intros ?? x Hx. unfold bytes16. rewrite (proj2 (Z.leb_le _ _)), (proj2 (Z.ltb_lt _ _)) by lia.
  simpl. eauto.
Qed.

Lemma memmove_moves_witness :
  wp (memmove 2 0 8) (λ r s', r = 2 ∧ load8 s' 9 = Some 8) bytes16.
Proof.
  refine (wp_mono _ _ _ _ (memmove_moves 2 0 8 bytes16 _ _ _) _).
  - lia.
  - apply bytes16_mapped; lia.
  - apply bytes16_mapped; lia.
  - intros r s' (Hr & m' & -> & H1 & _). split; [exact Hr|]. exact (H1 7 ltac:(lia)).
Defined.

Lemma memcmp_lexicographic_witness :
  wp (memcmp 0 8 4) (λ r s', s' = bytes16 ∧ r = -1) bytes16.
Proof.
  refine (wp_mono _ _ _ _ (memcmp_lexicographic 0 8 4 bytes16 _ _ _) _).
  - lia.
  - apply bytes16_mapped; lia.
  - apply bytes16_mapped; lia.
  - intros r s' [Hs Hr]. split; [exact Hs|exact Hr].
Defined.

Lemma strcpy_copies_witness :
  wp (strcpy 10 8 0) (λ r s', r = 8 ∧ load8 s' 10 = Some 3 ∧ load8 s' 11 = Some 0) bytes16.
Proof.
  refine (wp_mono _ _ _ _ (strcpy_copies 10 3 8 0 bytes16 _ _ _ _ _) _).
  - lia.
  - lia.
  - apply bytes16_mapped; lia.
  - intros i Hi. assert (i = 0 ∨ i = 1 ∨ i = 2) as [-> | [-> | ->]] by lia;
      (eexists; split; [reflexivity|discriminate]).
  - reflexivity.
  - intros r s' (Hr & m' & -> & H1 & _).
    split; [exact Hr|]. split; [exact (H1 2 ltac:(lia))|exact (H1 3 ltac:(lia))].
Defined.
