(* ===== verification/Pmm.v ===== *)
(** * Physical page frames: kernel/memory/pmm.c

    Free page frames form a singly linked list threaded through the frames
    themselves, reached through the higher-half direct map at [hhdm_offset].
    The state holds the memory, the static [hhdm_offset] and
    [free_list_head]; [free_frames] relates it to the list of free frames. *)

From S2P Require Import Prelude Mem StringC.
Local Open Scope Z_scope.
Local Open Scope kernel_scope.

Definition PAGE_SIZE : Z := 4096.

Inductive PhysMemoryRegionType :=
| PhysMemType_Usable
| PhysMemType_RESERVED
| PhysMemType_ACPI_RECLAIMABLE
| PhysMemType_ACPI_NVS
| PhysMemType_BAD_MEMORY
| PhysMemType_BOOTLOADER_RECLAIMABLE
| PhysMemType_KERNEL_AND_MODULES
| PhysMemType_FRAMEBUFFER.

#[export] Instance PhysMemoryRegionType_eq_dec : EqDecision PhysMemoryRegionType.
Proof. solve_decision. Defined.

Record PhysMemoryRegion := MkRegion { base : Z; length_ : Z; type : PhysMemoryRegionType }.

(** The [entries] array with its [entry_count] elements. *)
Definition PhysMemoryMap : Type := list PhysMemoryRegion.

(** struct FreePage { PhysAddr address; FreePage *next }. *)
Definition off_page_next : Z := 8.

Record pmm := MkPmm { p_mem : mem; p_hhdm_offset : Z; free_list_head : Z }.

#[export] Instance pmm_has_mem : Has mem pmm :=
  {| prj := p_mem; upd := λ m s, MkPmm m (p_hhdm_offset s) (free_list_head s) |}.
#[export] Instance pmm_has_mem_laws : HasLaws mem pmm.
Proof. split; [done|by intros []|done]. Qed.

Definition set_free_list_head (p : Z) : M pmm unit :=
  modify (λ s, MkPmm (p_mem s) (p_hhdm_offset s) p).

(** The loop over one region, from [addr]; returns [num_of_page_frames]. *)
Fixpoint pmm_init_region (fuel : nat) (addr stop frames : Z) : M pmm Z :=
  if addr <? stop then
    match fuel with
    | O => nofuel
    | S fuel' =>
        off ← gets p_hhdm_offset;
        let page := addr +64 off in
        wr64 page addr;;
        head ← gets free_list_head;
        wr64 (page + off_page_next) head;;
        set_free_list_head page;;
        pmm_init_region fuel' (addr +64 PAGE_SIZE) stop (frames +64 1)
    end
  else mret frames.

(** The loop over the memory map, from the entry the list starts with. *)
Fixpoint pmm_init_regions (entries : PhysMemoryMap) (frames : Z) : M pmm Z :=
  match entries with
  | [] => mret frames
  | entry :: rest =>
      if negb (bool_decide (type entry = PhysMemType_Usable)) then pmm_init_regions rest frames
      else
        frames ← pmm_init_region (Z.to_nat (length_ entry `div` PAGE_SIZE + 1))
                   (base entry) (base entry +64 length_ entry) frames;
        pmm_init_regions rest frames
  end.

(** The loop starts at [i = 1].  Returns the number of frames that is logged. *)
Definition pmm_init (offset : Z) (memory_map : PhysMemoryMap) : M pmm Z :=
  modify (λ s, MkPmm (p_mem s) offset (free_list_head s));;
  pmm_init_regions (drop 1 memory_map) 0.

Definition pmm_alloc : M pmm Z :=
  page ← gets free_list_head;
  if page =? 0 then mret 0 else
  next ← rd64 (page + off_page_next);
  set_free_list_head next;;
  addr ← rd64 page;
  off ← gets p_hhdm_offset;
  memset (addr +64 off) 0 PAGE_SIZE;;
  mret addr.

Definition pmm_free (addr : Z) : M pmm unit :=
  head ← gets free_list_head;
  wr64 (addr + off_page_next) head;;
  set_free_list_head addr.

(** ** The list of free frames *)

(** A frame address: page aligned, and its direct-map page is inside the
    address space and mapped. *)
Definition frame_ok (m : mem) (off p : Z) : Prop :=
  0 ≤ p < 2 ^ 52 ∧ p mod PAGE_SIZE = 0 ∧ 0 < p + off ∧ p + off + PAGE_SIZE ≤ 2 ^ 64 ∧
  mapped_range m (p + off) PAGE_SIZE.

Fixpoint frame_list (m : mem) (off head : Z) (l : list Z) : Prop :=
  match l with
  | [] => head = 0
  | p :: l' => head = p + off ∧ load 8 m head = Some p ∧
      ∃ next, load 8 m (head + off_page_next) = Some next ∧ frame_list m off next l'
  end.

(** The free frames of a state, in the order they will be allocated. *)
Definition free_frames (s : pmm) (l : list Z) : Prop :=
  frame_list (p_mem s) (p_hhdm_offset s) (free_list_head s) l ∧ NoDup l ∧
  Forall (frame_ok (p_mem s) (p_hhdm_offset s)) l ∧ 0 ≤ p_hhdm_offset s.

(** [m'] is [m] on the direct-map page of [p]. *)
Definition same_page (m m' : mem) (off p : Z) : Prop :=
  agree m m' (p + off) (p + off + PAGE_SIZE).

(** [m'] is [m] outside the direct-map pages of the frames [l]. *)
Definition touches (off : Z) (l : list Z) (m m' : mem) : Prop :=
  same_dom m m' ∧ ∀ q, q mod PAGE_SIZE = 0 → q ∉ l → same_page m m' off q.

Lemma touches_refl off m : touches off [] m m.
Proof. split; [done|]. intros q _ _. apply agree_refl. Qed.

Lemma touches_trans off l1 l2 m1 m2 m3 :
  touches off l1 m1 m2 → touches off l2 m2 m3 → touches off (l1 ++ l2) m1 m3.
Proof.
  intros [D1 A1] [D2 A2]. split; [by etrans|]. intros q Hq Hn. apply not_elem_of_app in Hn as [Hn1 Hn2].
  eapply agree_trans; [by apply A1|by apply A2].
Qed.

Lemma touches_mono off l1 l2 m1 m2 : l1 ⊆ l2 → touches off l1 m1 m2 → touches off l2 m1 m2.
Proof. intros Hl [D A]. split; [done|]. intros q Hq Hn. apply A; [done|]. set_solver. Qed.

Lemma frames_disjoint p q : p mod PAGE_SIZE = 0 → q mod PAGE_SIZE = 0 → p ≠ q →
  p + PAGE_SIZE ≤ q ∨ q + PAGE_SIZE ≤ p.
Proof. unfold PAGE_SIZE. intros. dlia. Qed.

Lemma frame_list_same m m' off head l :
  Forall (same_page m m' off) l → frame_list m off head l → frame_list m' off head l.
Proof.
  intros Hs. revert head. induction Hs as [|p l Hp _ IH]; intros head; simpl; [done|].
  intros (-> & Ha & next & Hn & Hl). split; [done|].
  rewrite !(agree_load _ _ _ _ _ _ Hp) by (unfold off_page_next, PAGE_SIZE; lia). eauto.
Qed.

Lemma frame_ok_dom m m' off p : same_dom m m' → frame_ok m off p → frame_ok m' off p.
Proof.
  intros Hd (A & B & C & D & E). refine (conj A (conj B (conj C (conj D _)))). intros x Hx. by apply Hd, E.
Qed.

Lemma filled_same_dom m m' a v n : mapped_range m a n → filled m m' a v n → same_dom m m'.
Proof.
  intros Hm [H1 H2] x. destruct (decide (a ≤ x < a + n)) as [Hx|Hx].
  - rewrite H1 by done. split; [intros _; by apply Hm|eauto].
  - by rewrite H2.
Qed.

(** [pmm_alloc] takes the first free frame and clears it; with no free frame
    it returns 0 and does nothing. *)
Lemma wp_pmm_alloc s p l (Q : Z → pmm → Prop) :
  free_frames s (p :: l) →
  (∀ m' head', filled (p_mem s) m' (p + p_hhdm_offset s) 0 PAGE_SIZE →
     same_dom (p_mem s) m' →
     free_frames (MkPmm m' (p_hhdm_offset s) head') l →
     Q p (MkPmm m' (p_hhdm_offset s) head')) →
  wp pmm_alloc Q s.
Proof.
  destruct s as [m off head]. intros (Hl & Hnd & Hok & Ho) HQ. simpl in *.
  destruct Hl as (-> & Ha & next & Hn & Hl).
  apply Forall_cons in Hok as [Hp Hok]. destruct Hp as (Hp1 & Hp2 & Hp3 & Hp4 & Hp5).
  unfold pmm_alloc. apply wp_bind, wp_gets. simpl.
  destruct (Z.eqb_spec (p + off) 0); [lia|].
  apply wp_bind. eapply wp_rd; [done|]. apply wp_bind, wp_modify. simpl.
  apply wp_bind. eapply wp_rd; [done|]. apply wp_bind, wp_gets. simpl.
  rewrite (wrap_small 64 (p + off)) by (unfold PAGE_SIZE in *; lia).
  apply wp_bind. apply wp_memset; [done|done|]. intros m' Hf. apply wp_ret. simpl.
  pose proof (filled_same_dom _ _ _ _ _ Hp5 Hf) as Hd.
  apply HQ; [done|done|]. apply NoDup_cons in Hnd as [Hpl Hnd].
  split; [|split; [done|split; [|done]]]; simpl.
  - eapply frame_list_same; [|done]. rewrite Forall_forall in Hok |- *. intros q Hq x Hx.
    destruct (Hok q Hq) as (_ & Hq2 & _). destruct Hf as [_ Hf]. apply Hf.
    assert (p ≠ q) as Hpq by (intros ->; done).
    pose proof (frames_disjoint p q Hp2 Hq2 Hpq). lia.
  - eapply Forall_impl; [done|]. intros q. by apply frame_ok_dom.
Qed.

(** ** Initialisation *)

(** The [n] frames from [a], in ascending order, and those of a region. *)
Definition frames_from (a n : Z) : list Z := (λ i, a + i * PAGE_SIZE) <$> seqZ 0 n.

Definition region_frames (e : PhysMemoryRegion) : list Z :=
  frames_from (base e) (length_ e `div` PAGE_SIZE).

(** The usable frames of the entries after the first. *)
Definition usable_frames (memory_map : PhysMemoryMap) : list Z :=
  mjoin (region_frames <$> filter (λ e, type e = PhysMemType_Usable) (drop 1 memory_map)).

(** Adding one frame to the list. *)
Lemma wp_push_frame {A} s p l (k : M pmm A) (Q : A → pmm → Prop) :
  free_frames s l → frame_ok (p_mem s) (p_hhdm_offset s) p → p ∉ l →
  (∀ s', free_frames s' (p :: l) → p_hhdm_offset s' = p_hhdm_offset s →
     touches (p_hhdm_offset s) [p] (p_mem s) (p_mem s') → wp k Q s') →
  wp (wr64 (p + p_hhdm_offset s) p;;
      head ← gets free_list_head;
      wr64 (p + p_hhdm_offset s + off_page_next) head;;
      set_free_list_head (p + p_hhdm_offset s);; k) Q s.
Proof.
  destruct s as [m off head]. intros (Hl & Hnd & Hok & Ho) Hp Hpl HQ. simpl in *.
  pose proof Hp as (Hp1 & Hp2 & Hp3 & Hp4 & Hp5). unfold off_page_next, PAGE_SIZE in *.
  assert (∀ a, p + off ≤ a → a + 8 ≤ p + off + 4096 → mapped 8 m a = true) as Hm8.
  { intros a ??. apply mapped_spec. intros x Hx. apply Hp5. lia. }
  apply wp_bind. apply wp_wr; simpl; [apply Hm8; lia|].
  apply wp_bind, wp_gets. simpl.
  apply wp_bind. apply wp_wr; simpl; [rewrite mapped_store by (apply Hm8; lia); apply Hm8; lia|].
  apply wp_bind, wp_modify. simpl.
  set (m' := store 8 (store 8 m (p + off) p) (p + off + 8) head).
  assert (same_dom m m') as Hd.
  { etrans; apply store_same_dom; [apply Hm8; lia|].
    rewrite mapped_store by (apply Hm8; lia). apply Hm8; lia. }
  assert (0 ≤ head < 2 ^ 64) as Hhead.
  { destruct l as [|q l]; simpl in Hl; [lia|]. destruct Hl as (-> & _).
    apply Forall_cons in Hok as [(? & ? & ? & ? & _) _]. unfold PAGE_SIZE in *. lia. }
  assert (touches off [p] m m') as Ht.
  { split; [done|]. intros q Hq Hpq%not_elem_of_cons. 
    assert (p ≠ q) as Hne by naive_solver. pose proof (frames_disjoint p q Hp2 Hq Hne) as Hdis. unfold PAGE_SIZE in Hdis.
    eapply agree_trans; apply agree_store; unfold PAGE_SIZE; lia. }
  apply HQ; [|done|exact Ht]. split; [|split; [|split; [|done]]]; simpl.
  - split; [done|]. unfold m'. rewrite load64_store64_ne by lia.
    rewrite load64_store64_eq by lia. split; [done|]. exists head.
    unfold off_page_next. rewrite load64_store64_eq by lia. split; [done|].
    eapply frame_list_same; [|done]. rewrite Forall_forall in Hok |- *. intros q Hq.
    destruct (Hok q Hq) as (_ & Hq2 & _). apply Ht; [done|]. apply not_elem_of_cons.
    split; [intros ->; done|apply not_elem_of_nil].
  - by apply NoDup_cons.
  - constructor; [by eapply frame_ok_dom|].
    eapply Forall_impl; [done|]. intros q. by apply frame_ok_dom.
Qed.

Lemma frames_from_S a n :
  frames_from a (Z.of_nat (S n)) = a :: frames_from (a + PAGE_SIZE) (Z.of_nat n).
Proof.
  unfold frames_from. rewrite seqZ_cons, fmap_cons by lia. cbn beta. f_equal; [lia|].
  replace (Z.pred (Z.of_nat (S n))) with (Z.of_nat n) by lia. change (Z.succ 0) with (1 + 0).
  rewrite <-fmap_add_seqZ, <-list_fmap_compose. apply list_fmap_ext. intros j x _. simpl. lia.
Qed.

Lemma elem_of_frames_from a n p :
  p ∈ frames_from a n ↔ ∃ i, p = a + i * PAGE_SIZE ∧ 0 ≤ i < n.
Proof.
  unfold frames_from. rewrite list_elem_of_fmap. setoid_rewrite elem_of_seqZ.
  split; intros (i & -> & Hi); exists i; (split; [done|lia]).
Qed.

Lemma wp_pmm_init_region fuel addr n frames s l (Q : Z → pmm → Prop) :
  (n ≤ fuel)%nat → free_frames s l → 0 ≤ addr → addr + Z.of_nat n * PAGE_SIZE < 2 ^ 64 →
  Forall (frame_ok (p_mem s) (p_hhdm_offset s)) (frames_from addr (Z.of_nat n)) →
  (∀ p, p ∈ frames_from addr (Z.of_nat n) → p ∉ l) →
  (∀ s' frames', free_frames s' (reverse (frames_from addr (Z.of_nat n)) ++ l) →
     p_hhdm_offset s' = p_hhdm_offset s →
     touches (p_hhdm_offset s) (frames_from addr (Z.of_nat n)) (p_mem s) (p_mem s') → Q frames' s') →
  wp (pmm_init_region fuel addr (addr + Z.of_nat n * PAGE_SIZE) frames) Q s.
Proof.
  revert n addr frames s l.
  induction fuel as [|fuel IH]; intros n addr frames s l Hn Hl H0 Ha Hok Hni HQ.
  { replace n with 0%nat in * by lia. cbn [pmm_init_region]. rewrite (proj2 (Z.ltb_ge _ _)) by lia.
    apply wp_ret, HQ; [done|done|apply touches_refl]. }
  cbn [pmm_init_region]. destruct n as [|n].
  { rewrite (proj2 (Z.ltb_ge _ _)) by lia. apply wp_ret, HQ; [done|done|apply touches_refl]. }
  rewrite (proj2 (Z.ltb_lt _ _)) by (unfold PAGE_SIZE in *; lia).
  rewrite !frames_from_S in *. apply Forall_cons in Hok as [Hp Hok].
  apply wp_bind, wp_gets. pose proof Hp as (Hp1 & Hp2 & Hp3 & Hp4 & _).
  rewrite (wrap_small 64 (addr + p_hhdm_offset s)) by (unfold PAGE_SIZE in *; lia).
  apply (wp_push_frame _ _ l); [done|done|apply Hni; set_solver +|].
  intros s1 Hl1 Ho1 Hd1. rewrite wrap_small by (unfold PAGE_SIZE in *; lia).
  replace (addr + Z.of_nat (S n) * PAGE_SIZE) with (addr + PAGE_SIZE + Z.of_nat n * PAGE_SIZE) in * by lia.
  apply (IH n _ _ _ (addr :: l)); [lia|done|unfold PAGE_SIZE; lia|done|..].
  { rewrite Ho1. eapply Forall_impl; [done|]. intros q. apply frame_ok_dom, Hd1. }
  { intros p Hp'. apply not_elem_of_cons. split; [|apply Hni; set_solver + Hp'].
    apply elem_of_frames_from in Hp' as (i & -> & Hi). unfold PAGE_SIZE. lia. }
  intros s' fr Hl' Ho' Hd'. apply HQ.
  - by rewrite reverse_cons, <-(assoc_L (++)).
  - by rewrite Ho'.
  - rewrite Ho1 in Hd'. exact (touches_trans _ [_] _ _ _ _ Hd1 Hd').
Qed.

(** What the boot protocol promises of the usable entries: page aligned
    bases and lengths inside the physical address space, and no two entries
    share a frame. *)
Definition region_aligned (e : PhysMemoryRegion) : Prop :=
  type e = PhysMemType_Usable →
  base e mod PAGE_SIZE = 0 ∧ length_ e mod PAGE_SIZE = 0 ∧ 0 ≤ base e ∧ 0 ≤ length_ e ∧
  base e + length_ e < 2 ^ 52.

Lemma wp_pmm_init_regions entries frames s l (Q : Z → pmm → Prop) :
  let us := mjoin (region_frames <$> filter (λ e, type e = PhysMemType_Usable) entries) in
  free_frames s l → Forall region_aligned entries →
  Forall (frame_ok (p_mem s) (p_hhdm_offset s)) us → NoDup (us ++ l) →
  (∀ s' frames', free_frames s' (reverse us ++ l) →
     p_hhdm_offset s' = p_hhdm_offset s →
     touches (p_hhdm_offset s) us (p_mem s) (p_mem s') → Q frames' s') →
  wp (pmm_init_regions entries frames) Q s.
Proof.
  revert frames s l. induction entries as [|e entries IH]; intros frames s l us Hl Hal Hok Hnd HQ.
  { apply wp_ret, HQ; [done|done|apply touches_refl]. }
  apply Forall_cons in Hal as [He Hal]. cbn [pmm_init_regions]. unfold us in *. clear us.
  rewrite filter_cons in *. case_decide as Hu; cycle 1.
  { rewrite bool_decide_eq_false_2 by done. by apply (IH frames s l). }
  rewrite bool_decide_eq_true_2 by done. cbn [negb].
  rewrite fmap_cons in *. cbn [mjoin list_join] in *.
  destruct (He Hu) as (Hb & Hlm & Hb0 & Hl0 & Htop).
  apply Forall_app in Hok as [Hok1 Hok2].
  set (us := mjoin _) in *.
  assert (length_ e = Z.of_nat (Z.to_nat (length_ e `div` PAGE_SIZE)) * PAGE_SIZE) as Hlen
    by (unfold PAGE_SIZE in *; dlia).
  set (n := Z.to_nat (length_ e `div` PAGE_SIZE)) in *.
  assert (region_frames e = frames_from (base e) (Z.of_nat n)) as Hrf.
  { unfold region_frames, n. rewrite Z2Nat.id; [done|]. unfold PAGE_SIZE in *. dlia. }
  rewrite Hrf in *.
  apply wp_bind. rewrite wrap_small by lia. rewrite Hlen at 2.
  rewrite <-(assoc_L (++)) in Hnd. apply NoDup_app in Hnd as (Hn1 & Hn2 & Hn3).
  eapply wp_pmm_init_region; [|done|done| |done| |].
  { unfold n, PAGE_SIZE in *. lia. }
  { rewrite <-Hlen. lia. }
  { intros p Hp. specialize (Hn2 p Hp). set_solver + Hn2. }
  intros s1 fr Hl1 Ho1 Hd1. eapply IH; [done|done|..].
  { rewrite Ho1. eapply Forall_impl; [done|]. intros q. apply frame_ok_dom, Hd1. }
  { fold us. rewrite (assoc_L (++)), (Permutation_app_comm us), <-(assoc_L (++)).
    apply NoDup_app. split; [by rewrite reverse_Permutation|].
    split; [|done]. intros x Hx. apply Hn2. by rewrite reverse_Permutation in Hx. }
  fold us. intros s2 fr2 Hl2 Ho2 Hd2. apply HQ.
  - by rewrite reverse_app, <-(assoc_L (++)).
  - by rewrite Ho2.
  - rewrite Ho1 in Hd2. exact (touches_trans _ _ _ _ _ _ Hd1 Hd2).
Qed.

Lemma wp_pmm_init offset memory_map s :
  free_list_head s = 0 → 0 ≤ offset → Forall region_aligned (drop 1 memory_map) →
  Forall (frame_ok (p_mem s) offset) (usable_frames memory_map) →
  NoDup (usable_frames memory_map) →
  wp (pmm_init offset memory_map) (λ _ s',
    free_frames s' (reverse (usable_frames memory_map)) ∧ p_hhdm_offset s' = offset ∧
    touches offset (usable_frames memory_map) (p_mem s) (p_mem s')) s.
Proof.
  intros Hh Ho Hal Hok Hnd. unfold pmm_init. apply wp_bind, wp_modify.
  eapply (wp_pmm_init_regions _ _ _ []); simpl; [|done|done|by rewrite app_nil_r|].
  - split; [done|]. split; [constructor|]. split; [constructor|done].
  - intros s' _ Hl Hoff Hd. rewrite app_nil_r in Hl. done.
Qed.

(** ** Claims *)

(** C16: [pmm_init] turns every usable frame of the memory map after its
    first entry into a free frame, the last one first; it maps no new address
    and writes to no other frame. *)
Theorem pmm_init_frames offset memory_map s :
  free_list_head s = 0 → 0 ≤ offset → Forall region_aligned (drop 1 memory_map) →
  Forall (frame_ok (p_mem s) offset) (usable_frames memory_map) →
  NoDup (usable_frames memory_map) →
  wp (pmm_init offset memory_map) (λ _ s',
    free_frames s' (reverse (usable_frames memory_map)) ∧ p_hhdm_offset s' = offset ∧
    touches offset (usable_frames memory_map) (p_mem s) (p_mem s')) s.
Proof. apply wp_pmm_init. Qed.

(** [pmm_alloc] returns 0 and changes nothing exactly when no frame is
    free, and otherwise returns the first free frame, cleared, takes it from
    the list and touches no other byte. *)
Theorem pmm_alloc_takes s l :
  free_frames s l →
  wp pmm_alloc (λ p s',
    match l with
    | [] => p = 0 ∧ s' = s
    | q :: l' => p = q ∧ free_frames s' l' ∧ p_hhdm_offset s' = p_hhdm_offset s ∧
        filled (p_mem s) (p_mem s') (q + p_hhdm_offset s) 0 PAGE_SIZE
    end) s.
Proof.
  intros Hl. destruct l as [|p l].
  - destruct s as [m off head]. destruct Hl as (Hh & _). simpl in Hh. subst head.
    unfold pmm_alloc. by apply wp_bind, wp_gets, wp_ret.
  - apply (wp_pmm_alloc s p l); [done|]. done.
Qed.

(** A frame that is freed through its physical address: the code neither
    adds [hhdm_offset] nor restores [page->address]. *)

(** Even when physical memory is mapped at its own address, a frame that
    is allocated and freed is not allocated again: the next [pmm_alloc] reads
    the cleared [address] of the frame, clears the page at 0 instead and
    returns 0, which its callers take for a frame or for exhaustion. *)
Theorem pmm_free_loses_frame s p l :
  free_frames s (p :: l) → p_hhdm_offset s = 0 → mapped_range (p_mem s) 0 PAGE_SIZE →
  wp (a ← pmm_alloc; pmm_free a;; b ← pmm_alloc; mret (a, b)) (λ r _, r = (p, 0)) s.
Proof.
  intros Hl Ho Hz. pose proof Hl as (_ & _ & Hok & _).
  apply Forall_cons in Hok as [(Hp1 & Hp2 & Hp3 & Hp4 & Hp5) _].
  rewrite Ho, ?Z.add_0_r in *. unfold PAGE_SIZE in *.
  apply wp_bind. apply (wp_pmm_alloc s p l); [done|]. intros m' head' Hf Hd _.
  rewrite Ho, ?Z.add_0_r in *.
  apply wp_bind. unfold pmm_free. apply wp_bind, wp_gets. simpl. unfold off_page_next.
  assert (mapped 8 m' (p + 8) = true) as Hm.
  { apply mapped_spec. intros x Hx. apply Hd, Hp5. lia. }
  apply wp_bind. apply wp_wr; simpl; [done|]. apply wp_modify. simpl.
  apply wp_bind. unfold pmm_alloc. apply wp_bind, wp_gets. simpl.
  destruct (Z.eqb_spec p 0); [lia|]. unfold off_page_next.
  assert (load 8 m' p = Some 0) as Hz8.
  { destruct Hf as [Hf _]. assert (∀ k a, p ≤ a → a + Z.of_nat k ≤ p + 4096 → load k m' a = Some 0)
      as Hk; [|apply Hk; lia].
    induction k as [|k IH]; intros a ??; [done|]. rewrite load_S, IH by lia.
    unfold load8. by rewrite Hf by (unfold PAGE_SIZE; lia). }
  apply wp_bind. eapply wp_rd; [simpl; apply load_store_eq|].
  apply wp_bind, wp_modify. simpl. apply wp_bind.
  eapply wp_rd; [simpl; rewrite load64_store64_ne by lia; done|].
  apply wp_bind, wp_gets. simpl p_hhdm_offset. rewrite wrap_small by lia.
  apply wp_bind. apply wp_memset; [done| |].
  { simpl. intros x Hx. apply store_is_Some, Hd, Hz. unfold PAGE_SIZE in *. simpl in *. lia. }
  intros m2 _. by apply wp_ret, wp_ret.
Qed.

(** ** Witnesses *)

(** Four pages of memory in the direct map; the entries describe one ignored
    frame and two usable ones. *)
Definition pmm_demo_mem (off : Z) (f : Z → Z) : mem := λ x,
  if (off <=? x) && (x <? off + 4 * PAGE_SIZE) then Some (f x) else None.
Definition pmm_demo_map : PhysMemoryMap :=
  [MkRegion 0 PAGE_SIZE PhysMemType_Usable; MkRegion PAGE_SIZE (2 * PAGE_SIZE) PhysMemType_Usable].

(** A list with the frame 4096 alone, whose bytes are those of its address. *)
Definition pmm_demo_one (off : Z) : pmm :=
  MkPmm (pmm_demo_mem off (λ x, if x =? off + PAGE_SIZE + 1 then 16 else 0)) off (PAGE_SIZE + off).

Lemma pmm_demo_mapped off f a n :
  off ≤ a → a + n ≤ off + 4 * PAGE_SIZE → mapped_range (pmm_demo_mem off f) a n.
Proof.
  intros ?? x Hx. unfold pmm_demo_mem.
  rewrite (proj2 (Z.leb_le _ _)), (proj2 (Z.ltb_lt _ _)) by lia. simpl. eauto.
Qed.

Lemma pmm_demo_ok off f p :
  0 ≤ off < 2 ^ 60 → p = PAGE_SIZE ∨ p = 2 * PAGE_SIZE → frame_ok (pmm_demo_mem off f) off p.
Proof.
  intros Ho [-> | ->]; (split; [done|]); (split; [done|]); unfold PAGE_SIZE in *;
    (split; [lia|]); (split; [lia|]); apply pmm_demo_mapped; unfold PAGE_SIZE; lia.
Qed.

Lemma pmm_demo_one_frames off :
  off = 0 ∨ off = 0x10000 → free_frames (pmm_demo_one off) [PAGE_SIZE].
Proof.
  intros Ho. split; [|split; [|split]].
  - destruct Ho as [-> | ->]; (split; [reflexivity|]); (split; [reflexivity|]); by exists 0.
  - apply NoDup_singleton.
  - constructor; [|constructor]. apply (pmm_demo_ok off); [|auto]. destruct Ho; subst; lia.
  - simpl. destruct Ho; subst; lia.
Qed.

Lemma pmm_init_frames_witness :
  wp (pmm_init 0x10000 pmm_demo_map) (λ _ s', free_frames s' [8192; 4096])
    (MkPmm (pmm_demo_mem 0x10000 (λ _, 7)) 0 0).
Proof.
  assert (usable_frames pmm_demo_map = [PAGE_SIZE; 2 * PAGE_SIZE]) as Hu by reflexivity.
  refine (wp_mono _ _ _ _ (pmm_init_frames 0x10000 pmm_demo_map
    (MkPmm (pmm_demo_mem 0x10000 (λ _, 7)) 0 0) _ _ _ _ _) _); rewrite ?Hu.
  - reflexivity.
  - discriminate.
  - repeat constructor; discriminate.
  - constructor; [|constructor; [|constructor]]; apply pmm_demo_ok; lia.
  - apply (bool_decide_unpack _). vm_compute. exact I.
  - intros n s' [H _]. exact H.
Defined.

Lemma pmm_alloc_takes_witness :
  wp pmm_alloc (λ p s', p = 4096 ∧ free_frames s' []) (pmm_demo_one 0x10000).
Proof.
  refine (wp_mono _ _ _ _ (pmm_alloc_takes (pmm_demo_one 0x10000) [PAGE_SIZE] _) _).
  - apply pmm_demo_one_frames. lia.
  - intros p s' (Hp & Hl & _). split; [exact Hp|exact Hl].
Defined.

Lemma pmm_free_loses_frame_witness :
  wp (a ← pmm_alloc; pmm_free a;; b ← pmm_alloc; mret (a, b)) (λ r _, r = (4096, 0))
    (pmm_demo_one 0).
Proof.
  refine (pmm_free_loses_frame (pmm_demo_one 0) 4096 [] _ _ _).
  - apply (pmm_demo_one_frames 0). lia.
  - reflexivity.
  - apply pmm_demo_mapped; unfold PAGE_SIZE; lia.
Defined.
