(* ===== verification/Paging.v ===== *)
(** * Page tables: kernel/memory/paging.c

    Four-level x86-64 page tables in frames of the physical allocator, edited
    through the direct map.  [walk] is the hardware's table walk; [pt_inv] is
    the invariant that the tables of all address spaces are disjoint trees of
    allocated frames; the lemmas give what mapping and unmapping a page do to
    the walks of every address space, and to the TLB. *)

From S2P Require Import Prelude Mem StringC Pmm.
Local Open Scope Z_scope.
Local Open Scope kernel_scope.

Definition VM_FLAG_PRESENT : Z := Z.shiftl 1 0.
Definition VM_FLAG_WRITE : Z := Z.shiftl 1 1.
Definition VM_FLAG_USER : Z := Z.shiftl 1 2.
Definition VM_FLAG_NO_CACHE : Z := Z.shiftl 1 4.
Definition VM_FLAG_NX : Z := Z.shiftl 1 63.
Definition VM_FLAG_DEFAULT : Z := 0.
Definition PHYS_ADDR_MASK : Z := 0x000FFFFFFFFFF000.
Definition PML_ENTRY_COUNT : Z := 512.

(** The static data of paging.c, and the parts of the CPU it uses: [cr3] and
    the TLB, which caches leaf entries by virtual page number. *)
Record paging := MkPaging {
  pg_pmm : pmm;
  pg_hhdm_offset : Z;
  cr3 : Z;
  tlb : gmap Z Z
}.

#[export] Instance paging_has_pmm : Has pmm paging :=
  {| prj := pg_pmm; upd := λ p s, MkPaging p (pg_hhdm_offset s) (cr3 s) (tlb s) |}.
#[export] Instance paging_has_pmm_laws : HasLaws pmm paging.
Proof. split; [done|by intros []|done]. Qed.
#[export] Instance paging_has_mem : Has mem paging :=
  {| prj := λ s, p_mem (pg_pmm s); upd := λ m s, upd (upd m (pg_pmm s)) s |}.
#[export] Instance paging_has_mem_laws : HasLaws mem paging.
Proof. split; [done|by intros [[]]|done]. Qed.

Definition paging_set_hhdm_offset (offset : Z) : M paging unit :=
  modify (λ s, MkPaging (pg_pmm s) offset (cr3 s) (tlb s)).

Definition entry_present (e : Z) : bool := negb (Z.land e VM_FLAG_PRESENT =? 0).

Definition is_entry_present (entry : Z) : M paging bool :=
  e ← rd64 entry; mret (entry_present e).

(** [invlpg]: the CPU drops its cached translation of the page. *)
Definition invlpg (addr : Z) : M paging unit :=
  modify (λ s, MkPaging (pg_pmm s) (pg_hhdm_offset s) (cr3 s) (delete (Z.shiftr addr 12) (tlb s))).

(** A write to [cr3] drops every cached translation. *)
Definition write_cr3 (v : Z) : M paging unit :=
  modify (λ s, MkPaging (pg_pmm s) (pg_hhdm_offset s) v ∅).

Definition read_cr3 : M paging Z := gets cr3.

Definition get_next_pml (pml pml_index : Z) : M paging Z :=
  off ← gets pg_hhdm_offset;
  let table := pml +64 off in
  let entry := table + 8 * pml_index in
  present ← is_entry_present entry;
  if (present : bool) then e ← rd64 entry; mret (Z.land e PHYS_ADDR_MASK)
  else
    p ← zoom pmm_alloc;
    wr64 entry (Z.lor (Z.lor (Z.lor p VM_FLAG_PRESENT) VM_FLAG_WRITE) VM_FLAG_USER);;
    e ← rd64 entry; mret (Z.land e PHYS_ADDR_MASK).

(** [(virt >> sh) & 0x1ff] as a uint16_t. *)
Definition pml_index (virt sh : Z) : Z := u16 (Z.land (Z.shiftr virt sh) 0x1ff).

Definition get_pml1_entry (pml4 virt : Z) : M paging Z :=
  pml3 ← get_next_pml pml4 (pml_index virt 39);
  pml2 ← get_next_pml pml3 (pml_index virt 30);
  pml1 ← get_next_pml pml2 (pml_index virt 21);
  off ← gets pg_hhdm_offset;
  mret ((pml1 +64 off) + 8 * pml_index virt 12).

Definition invlpg_if_needed (pml4 virt : Z) : M paging unit :=
  current_pml4 ← read_cr3;
  if pml4 =? current_pml4 then invlpg virt else mret tt.

Definition paging_load_pml4 (pml4 : Z) : M paging unit := write_cr3 pml4.

(** [flags] is a uint16_t: the argument is converted at the call. *)
Definition paging_map_page (pml4 virt phys flags : Z) : M paging unit :=
  let flags := u16 flags in
  entry ← get_pml1_entry pml4 virt;
  wr64 entry (Z.lor (Z.lor phys VM_FLAG_PRESENT) flags);;
  invlpg_if_needed pml4 virt.

Definition paging_unmap_page (pml4 virt : Z) : M paging unit :=
  entry ← get_pml1_entry pml4 virt;
  wr64 entry 0;;
  invlpg_if_needed pml4 virt.

(** ** The hardware's walk *)

Definition ent (m : mem) (off p i : Z) : option Z := load 8 m (p + off + 8 * i).

(** The leaf entry at the end of the index path [path] from the table [tbl],
    if every entry on the way and the leaf are present. *)
Fixpoint walk (m : mem) (off tbl : Z) (path : list Z) : option Z :=
  match path with
  | [] => None
  | i :: path' =>
      e ← ent m off tbl i;
      if entry_present e then
        match path' with [] => Some e | _ => walk m off (Z.land e PHYS_ADDR_MASK) path' end
      else None
  end.

Definition indices (virt : Z) : list Z :=
  [pml_index virt 39; pml_index virt 30; pml_index virt 21; pml_index virt 12].

Definition translate (s : paging) (pml4 virt : Z) : option Z :=
  walk (p_mem (pg_pmm s)) (pg_hhdm_offset s) pml4 (indices virt).

(** The table at the end of an index path, through present entries. *)
Fixpoint table_at (m : mem) (off tbl : Z) (path : list Z) : option Z :=
  match path with
  | [] => Some tbl
  | i :: path' =>
      e ← ent m off tbl i;
      if entry_present e then table_at m off (Z.land e PHYS_ADDR_MASK) path' else None
  end.

(** The paths of the three tables below the root on the way to [virt]. *)
Definition upper_paths (virt : Z) : list (list Z) :=
  [[pml_index virt 39]; [pml_index virt 39; pml_index virt 30];
   [pml_index virt 39; pml_index virt 30; pml_index virt 21]].

(** How many of the paths [P] have no table in the address space [r]. *)
Definition missing (s : paging) (r : Z) (P : list (list Z)) : nat :=
  length (filter (λ path, table_at (p_mem (pg_pmm s)) (pg_hhdm_offset s) r path = None) P).

(** Paths of tables. *)
Definition table_path (path : list Z) : Prop := (length path ≤ 3)%nat ∧ Forall (λ j, 0 ≤ j < 512) path.
Abbreviation short := (Forall table_path).

(** ** The invariant *)

(** Which table each frame is: the address space it belongs to, by its
    root, and the index path to it. *)
Abbreviation owners := (gmap Z (Z * list Z)).

(** The entries of upper-level tables that are present point to the table at
    the extended path. *)
Definition pt_closed (m : mem) (off : Z) (own : owners) : Prop :=
  ∀ p r path i e, own !! p = Some (r, path) → (length path < 3)%nat → 0 ≤ i < 512 →
    ent m off p i = Some e → entry_present e = true →
    own !! Z.land e PHYS_ADDR_MASK = Some (r, path ++ [i]).

Definition pt_inv (s : paging) (own : owners) (free : list Z) : Prop :=
  free_frames (pg_pmm s) free ∧ pg_hhdm_offset s = p_hhdm_offset (pg_pmm s) ∧
  (∀ p rp, own !! p = Some rp → frame_ok (p_mem (pg_pmm s)) (pg_hhdm_offset s) p ∧
     (p ∉ free) ∧ (length rp.2 ≤ 3)%nat) ∧
  pt_closed (p_mem (pg_pmm s)) (pg_hhdm_offset s) own.

Definition is_root (own : owners) (r : Z) : Prop := own !! r = Some (r, []).

(** ** Walks under changes of one entry *)

Section walks.
Context (m m' : mem) (off : Z) (own : owners).
Context (Hclosed : pt_closed m off own).

Lemma ent_range p i e : ent m off p i = Some e → 0 ≤ e < 2 ^ 64.
Proof. apply load64_range. Qed.

(** The entries of the tables agree, except at [(p, i)]. *)
Definition same_entries_but (p i : Z) : Prop :=
  ∀ p' rp i', own !! p' = Some rp → 0 ≤ i' < 512 → (p', i') ≠ (p, i) →
    ent m' off p' i' = ent m off p' i'.

(** An absent entry is replaced by a pointer to an empty table. *)
Lemma walk_link p r path i e e' q tbl r' path' ix :
  same_entries_but p i → own !! p = Some (r, path) → (length path < 3)%nat →
  ent m off p i = Some e → entry_present e = false →
  ent m' off p i = Some e' → Z.land e' PHYS_ADDR_MASK = q →
  (∀ j, 0 ≤ j < 512 → ent m' off q j = Some 0) →
  own !! tbl = Some (r', path') → (length path' + length ix = 4)%nat →
  Forall (λ j, 0 ≤ j < 512) ix →
  walk m' off tbl ix = walk m off tbl ix.
Proof.
  intros Hsame Hp Hlen He Hne He' Hq Hz. revert tbl path'.
  induction ix as [|j js IH]; intros tbl path' Ht Hl Hjs; [done|].
  apply Forall_cons in Hjs as [Hj Hjs]. simpl in *.
  destruct (decide ((tbl, j) = (p, i))) as [[= -> ->]|Hdiff].
  - rewrite He, He'. simpl. rewrite Hne. destruct (entry_present e'); [|done].
    rewrite Hp in Ht. injection Ht as <- <-.
    destruct js as [|j' js]; [simpl in Hl; lia|]. apply Forall_cons in Hjs as [Hj' _].
    rewrite Hq. simpl. by rewrite Hz.
  - rewrite (Hsame _ _ _ Ht Hj Hdiff). destruct (ent m off tbl j) as [f|] eqn:Hf; [|done].
    simpl. destruct (entry_present f) eqn:Hpf; [|done]. destruct js as [|j' js]; [done|].
    eapply (IH _ (path' ++ [j])); [|rewrite length_app; simpl in *; lia|done].
    eapply Hclosed; [done|simpl in *; lia|done..].
Qed.

(** A leaf entry is replaced: only the walks that end in it change. *)
Lemma walk_leaf_other p r path i tbl r' path' ix :
  same_entries_but p i → own !! p = Some (r, path) → (length path = 3)%nat →
  own !! tbl = Some (r', path') → (length path' + length ix = 4)%nat →
  Forall (λ j, 0 ≤ j < 512) ix → ¬ (r' = r ∧ path' ++ ix = path ++ [i]) →
  walk m' off tbl ix = walk m off tbl ix.
Proof.
  intros Hsame Hp Hlen. revert tbl path'.
  induction ix as [|j js IH]; intros tbl path' Ht Hl Hjs Hn; [done|].
  apply Forall_cons in Hjs as [Hj Hjs]. simpl in *.
  destruct (decide ((tbl, j) = (p, i))) as [[= -> ->]|Hdiff].
  - rewrite Hp in Ht. injection Ht as <- <-. destruct js; [naive_solver|simpl in *; lia].
  - rewrite (Hsame _ _ _ Ht Hj Hdiff). destruct (ent m off tbl j) as [f|] eqn:Hf; [|done].
    simpl. destruct (entry_present f) eqn:Hpf; [|done]. destruct js as [|j' js]; [done|].
    eapply (IH _ (path' ++ [j])); [|rewrite length_app; simpl in *; lia|done|].
    + eapply Hclosed; [done|simpl in *; lia|done..].
    + by rewrite <-(assoc_L (++)).
Qed.
End walks.

Lemma pml_index_range virt sh : 0 ≤ pml_index virt sh < 512.
Proof.
  unfold pml_index. change 0x1ff with (2 ^ 9 - 1). rewrite land_ones_mod by lia.
  assert (0 ≤ Z.shiftr virt sh mod 2 ^ 9 < 2 ^ 9) as Hr by (apply Z.mod_pos_bound; lia).
  rewrite wrap_small; lia.
Qed.

Lemma indices_range virt : Forall (λ j, 0 ≤ j < 512) (indices virt).
Proof. repeat constructor; apply pml_index_range. Qed.

(** ** Entries as memory *)

Lemma ent_store_eq m off p i v :
  0 ≤ v < 2 ^ 64 → ent (store 8 m (p + off + 8 * i) v) off p i = Some v.
Proof. apply load64_store64_eq. Qed.

Lemma ent_store_ne m off p i v p' i' :
  p mod PAGE_SIZE = 0 → p' mod PAGE_SIZE = 0 → 0 ≤ i < 512 → 0 ≤ i' < 512 →
  (p', i') ≠ (p, i) → ent (store 8 m (p + off + 8 * i) v) off p' i' = ent m off p' i'.
Proof.
  intros Hp Hp' Hi Hi' Hne. apply load64_store64_ne. destruct (decide (p = p')) as [->|Hpp].
  - assert (i ≠ i') by congruence. lia.
  - pose proof (frames_disjoint _ _ Hp Hp' Hpp). unfold PAGE_SIZE in *. lia.
Qed.

Lemma load_zero m a n k :
  (∀ x, a ≤ x < a + n → m x = Some 0) → Z.of_nat k ≤ n → load k m a = Some 0.
Proof.
  revert a n. induction k as [|k IH]; intros a n Hz Hk; [done|].
  rewrite load_S, (IH _ (n - 1)); [|intros x Hx; apply Hz; lia|lia].
  unfold load8. by rewrite Hz by lia.
Qed.

Lemma ent_mapped m off p i :
  frame_ok m off p → 0 ≤ i < 512 → mapped 8 m (p + off + 8 * i) = true.
Proof.
  intros (_ & _ & _ & _ & Hm) Hi. apply mapped_spec. intros x Hx. apply Hm.
  unfold PAGE_SIZE. lia.
Qed.

Lemma ent_is_Some m off p i : frame_ok m off p → 0 ≤ i < 512 → ∃ e, ent m off p i = Some e.
Proof. intros Hp Hi. apply load_is_Some, ent_mapped; done. Qed.

(** The entry [get_next_pml] writes. *)
Lemma table_entry p :
  0 ≤ p < 2 ^ 52 → p mod PAGE_SIZE = 0 →
  let e := Z.lor (Z.lor (Z.lor p VM_FLAG_PRESENT) VM_FLAG_WRITE) VM_FLAG_USER in
  0 ≤ e < 2 ^ 64 ∧ entry_present e = true ∧ Z.land e PHYS_ADDR_MASK = p.
Proof.
  intros Hp Ha. rewrite <-!Z.lor_assoc.
  change (Z.lor VM_FLAG_PRESENT (Z.lor VM_FLAG_WRITE VM_FLAG_USER)) with 7.
  rewrite (lor_add_disjoint 12 p 7); [|lia|exact Ha|lia]. simpl.
  split; [lia|]. split.
  - unfold entry_present, VM_FLAG_PRESENT. change (Z.shiftl 1 0) with (2 ^ 1 - 1).
    rewrite land_ones_mod by lia. unfold PAGE_SIZE in *.
    destruct (Z.eqb_spec ((p + 7) mod 2 ^ 1) 0) as [E|]; [|done]. simpl in E. dlia.
  - change PHYS_ADDR_MASK with (2 ^ 52 - 2 ^ 12).
    change (2 ^ 12) with 4096 in *. unfold PAGE_SIZE in *.
    rewrite (land_high_mask 52 12) by (try change (2 ^ 52) with 4503599627370496 in *; dlia).
    change (2 ^ 12) with 4096. dlia.
Qed.

(** ** Descending through the tables *)

Definition pg_mem (s : paging) : mem := p_mem (pg_pmm s).

(** [s'] is [s] with tables for some of the paths [V] of the address space
    [r], each of which took a free frame; entries that were present and all
    translations are as before. *)
Record pt_extends (r : Z) (V : list (list Z)) (s : paging) (own : owners) (free : list Z)
    (s' : paging) (own' : owners) (free' : list Z) : Prop := {
  ext_inv : pt_inv s' own' free';
  ext_own : own ⊆ own';
  ext_free : ∃ l, free = l ++ free' ∧ (length l ≤ length V)%nat ∧
    ∀ P, V ⊆ P → short P → (length l + missing s' r P ≤ missing s r P)%nat;
  ext_entries : ∀ p rp i e, own !! p = Some rp → 0 ≤ i < 512 →
    ent (pg_mem s) (pg_hhdm_offset s) p i = Some e → entry_present e = true →
    ent (pg_mem s') (pg_hhdm_offset s') p i = Some e;
  ext_walks : ∀ r v, is_root own r → translate s' r v = translate s r v;
  ext_cpu : pg_hhdm_offset s' = pg_hhdm_offset s ∧ cr3 s' = cr3 s ∧ tlb s' = tlb s;
  ext_dom : same_dom (pg_mem s) (pg_mem s');
  ext_mem : ∀ p, p mod PAGE_SIZE = 0 → own' !! p = None →
    same_page (pg_mem s) (pg_mem s') (pg_hhdm_offset s) p;
  ext_new : ∀ p rp, own' !! p = Some rp → own !! p = Some rp ∨ p ∈ free
}.

Lemma pt_extends_refl r V s own free : pt_inv s own free → pt_extends r V s own free s own free.
Proof.
  intros H. split; auto; [exists []; simpl; split_and!; [done|lia|intros; lia]|done|].
  intros p _ _. apply agree_refl.
Qed.

Lemma pt_extends_trans r V1 V2 s1 o1 f1 s2 o2 f2 s3 o3 f3 :
  pt_extends r V1 s1 o1 f1 s2 o2 f2 → pt_extends r V2 s2 o2 f2 s3 o3 f3 →
  pt_extends r (V1 ++ V2) s1 o1 f1 s3 o3 f3.
Proof.
  intros A B. split.
  - apply B.
  - etrans; [apply A|apply B].
  - destruct (ext_free _ _ _ _ _ _ _ _ A) as (l1 & -> & ? & M1), (ext_free _ _ _ _ _ _ _ _ B) as (l2 & -> & ? & M2).
    exists (l1 ++ l2). rewrite !length_app, (assoc_L (++)). split_and!; [done|lia|].
    intros P [H1 H2]%list_subseteq_app_iff_l HP. specialize (M1 P H1 HP). specialize (M2 P H2 HP). lia.
  - intros p rp i e Hp Hi He Hpr. eapply B; [eapply lookup_weaken; [done|apply A]|done| |done].
    by eapply A.
  - intros r' v Hr. rewrite (ext_walks _ _ _ _ _ _ _ _ B); [by apply A|].
    eapply lookup_weaken; [done|apply A].
  - destruct (ext_cpu _ _ _ _ _ _ _ _ A) as (? & ? & ?), (ext_cpu _ _ _ _ _ _ _ _ B) as (? & ? & ?).
    split_and!; congruence.
  - etrans; [apply A|apply B].
  - intros p Hp Hn. eapply agree_trans; [apply A; [done|]|].
    + eapply lookup_weaken_None; [done|apply B].
    + destruct (ext_cpu _ _ _ _ _ _ _ _ A) as (<- & _). by apply B.
  - intros p rp Hp. destruct (ext_new _ _ _ _ _ _ _ _ B _ _ Hp) as [H|H]; [by apply A|].
    destruct (ext_free _ _ _ _ _ _ _ _ A) as (l & -> & _). right. set_solver + H.
Qed.

(** ** Counting tables *)

Lemma filter_length_le {A} (Q Q' : A → Prop) `{∀ x, Decision (Q x), ∀ x, Decision (Q' x)} l :
  (∀ x, x ∈ l → Q' x → Q x) → (length (filter Q' l) ≤ length (filter Q l))%nat.
Proof.
  induction l as [|x l IH]; intros HQ; [done|]. rewrite !filter_cons.
  specialize (IH (λ y Hy, HQ y (list_elem_of_further _ _ _ Hy))). pose proof (HQ x (list_elem_of_here _ _)) as Hx.
  repeat case_decide; simpl; try lia. tauto.
Qed.

Lemma filter_length_lt {A} (Q Q' : A → Prop) `{∀ x, Decision (Q x), ∀ x, Decision (Q' x)} l x :
  (∀ y, y ∈ l → Q' y → Q y) → x ∈ l → Q x → ¬ Q' x → (length (filter Q' l) < length (filter Q l))%nat.
Proof.
  intros HQ Hx Hq Hq'. apply list_elem_of_split in Hx as (l1 & l2 & ->).
  rewrite !filter_app, !filter_cons, !length_app. rewrite (decide_True _ _ Hq), (decide_False _ _ Hq'). simpl.
  pose proof (filter_length_le Q Q' l1) as H1. pose proof (filter_length_le Q Q' l2) as H2.
  specialize (H1 ltac:(set_solver)). specialize (H2 ltac:(set_solver)). lia.
Qed.

Lemma table_at_app m off t p1 p2 : table_at m off t (p1 ++ p2) = q ← table_at m off t p1; table_at m off q p2.
Proof.
  revert t. induction p1 as [|i p1 IH]; intros t; simpl; [done|].
  destruct (ent m off t i) as [e|]; simpl; [|done]. destruct (entry_present e); [apply IH|done].
Qed.

(** The tables found this way are those of the invariant. *)
Lemma table_at_own m off own t r path0 path q :
  pt_closed m off own → own !! t = Some (r, path0) → (length path0 + length path ≤ 3)%nat →
  Forall (λ j, 0 ≤ j < 512) path → table_at m off t path = Some q → own !! q = Some (r, path0 ++ path).
Proof.
  intros Hcl. revert t path0. induction path as [|i path IH]; intros t path0 Ht Hl Hr Hq; simpl in *.
  { injection Hq as <-. by rewrite app_nil_r. }
  apply Forall_cons in Hr as [Hi Hr]. destruct (ent m off t i) as [e|] eqn:He; simpl in Hq; [|done].
  destruct (entry_present e) eqn:Hp; [|done].
  replace (path0 ++ i :: path) with ((path0 ++ [i]) ++ path) by by rewrite <-(assoc_L (++)).
  eapply IH; [|rewrite length_app; simpl; lia|done|done]. eapply Hcl; try done. lia.
Qed.

Lemma table_at_mono m m' off own t r path0 path q :
  pt_closed m off own → own !! t = Some (r, path0) → (length path0 + length path ≤ 3)%nat →
  Forall (λ j, 0 ≤ j < 512) path →
  (∀ p rp i e, own !! p = Some rp → (length rp.2 < 3)%nat → 0 ≤ i < 512 → ent m off p i = Some e →
     entry_present e = true → ent m' off p i = Some e) →
  table_at m off t path = Some q → table_at m' off t path = Some q.
Proof.
  intros Hcl Ht Hl Hr Hent. revert t path0 Ht Hl Hr. induction path as [|i path IH]; intros t path0 Ht Hl Hr; simpl in *; [done|].
  apply Forall_cons in Hr as [Hi Hr]. destruct (ent m off t i) as [e|] eqn:He; simpl; [|done].
  destruct (entry_present e) eqn:Hp; [|done]. assert (length path0 < 3)%nat as Hl3 by lia.
  rewrite (Hent _ _ _ _ Ht Hl3 Hi He Hp). simpl. rewrite Hp.
  apply (IH _ (path0 ++ [i])); [|rewrite length_app; simpl; lia|done]. by eapply Hcl.
Qed.

Definition tables_kept (s s' : paging) (r : Z) : Prop :=
  ∀ path, table_path path → table_at (pg_mem s') (pg_hhdm_offset s') r path = None →
    table_at (pg_mem s) (pg_hhdm_offset s) r path = None.

Lemma missing_le s s' r P : tables_kept s s' r → short P → (missing s' r P ≤ missing s r P)%nat.
Proof.
  intros Hk HP. apply filter_length_le. intros path Hin. apply Hk. by rewrite Forall_forall in HP; apply HP.
Qed.

Lemma missing_lt s s' r P path :
  tables_kept s s' r → short P → path ∈ P → table_at (pg_mem s) (pg_hhdm_offset s) r path = None →
  is_Some (table_at (pg_mem s') (pg_hhdm_offset s') r path) → (missing s' r P < missing s r P)%nat.
Proof.
  intros Hk HP Hin H0 [q H1]. eapply filter_length_lt; [|exact Hin|exact H0|unfold pg_mem in H1; by rewrite H1].
  intros p Hp. apply Hk. by rewrite Forall_forall in HP; apply HP.
Qed.

Lemma missing_pos s r P path :
  path ∈ P → table_at (pg_mem s) (pg_hhdm_offset s) r path = None → (0 < missing s r P)%nat.
Proof.
  intros Hin H0. assert (path ∈ filter (λ p, table_at (p_mem (pg_pmm s)) (pg_hhdm_offset s) r p = None) P) as Hf
    by by apply list_elem_of_filter.
  unfold missing. destruct (filter _ P); [by apply not_elem_of_nil in Hf|simpl; lia].
Qed.

Lemma missing_length s r P : (missing s r P ≤ length P)%nat.
Proof. apply length_filter. Qed.

Lemma missing_upper s r virt P :
  upper_paths virt ⊆ P → (missing s r (upper_paths virt) ≤ missing s r P)%nat.
Proof.
  intros HV. apply submseteq_length, NoDup_submseteq.
  - apply NoDup_filter. repeat constructor; set_solver +.
  - intros path [Hn Hin]%list_elem_of_filter. apply list_elem_of_filter. split; [done|by apply HV].
Qed.

(** A write inside a frame that is not free keeps the free list. *)
Lemma free_frames_store m off head l p i v :
  free_frames (MkPmm m off head) l → frame_ok m off p → p ∉ l → 0 ≤ i < 512 →
  free_frames (MkPmm (store 8 m (p + off + 8 * i) v) off head) l.
Proof.
  intros (Hl & Hnd & Hok & Ho) Hp Hpl Hi. simpl in *.
  pose proof (store_same_dom _ _ _ v (ent_mapped _ _ _ _ Hp Hi)) as Hd.
  split; [|split; [done|split; [|done]]]; simpl.
  - eapply frame_list_same; [|done]. rewrite Forall_forall in Hok |- *. intros q Hq.
    destruct (Hok q Hq) as (_ & Hq2 & _). destruct Hp as (_ & Hp2 & _).
    assert (p ≠ q) as Hpq by (intros ->; done).
    pose proof (frames_disjoint _ _ Hp2 Hq2 Hpq) as Hdis.
    apply agree_store. unfold PAGE_SIZE in *. lia.
  - eapply Forall_impl; [done|]. intros q. by apply frame_ok_dom.
Qed.

(** Linking a cleared frame [q] into an absent entry. *)
Section link.
Context (s : paging) (own : owners) (q : Z) (free : list Z).
Context (pml r : Z) (path : list Z) (i e : Z) (m1 : mem) (head1 : Z).
Let off := pg_hhdm_offset s.
Let e' := Z.lor (Z.lor (Z.lor q VM_FLAG_PRESENT) VM_FLAG_WRITE) VM_FLAG_USER.
Let m2 := store 8 m1 (pml + off + 8 * i) e'.
Let own' := <[q := (r, path ++ [i])]> own.
Context (Hinv : pt_inv s own (q :: free)).
Context (Hpml : own !! pml = Some (r, path)) (Hlen : (length path < 3)%nat) (Hi : 0 ≤ i < 512).
Context (He : ent (pg_mem s) off pml i = Some e) (Hne : entry_present e = false).
Context (Hfill : filled (pg_mem s) m1 (q + off) 0 PAGE_SIZE) (Hdom : same_dom (pg_mem s) m1).
Context (Hfree : free_frames (MkPmm m1 off head1) free).
Context (Hroot : is_root own r) (Hpath : table_path path).
Context (Hat : table_at (pg_mem s) off r path = Some pml).

Lemma link_q : frame_ok (pg_mem s) off q ∧ own !! q = None ∧ q ∉ free.
Proof.
  destruct Hinv as ((_ & Hnd & Hok & _) & Hoff & Hown & _).
  apply Forall_cons in Hok as [Hok _]. split; [unfold off; by rewrite Hoff|]. split.
  - apply eq_None_not_Some. intros [rp Hrp]. destruct (Hown _ _ Hrp) as (_ & Hn & _).
    set_solver + Hn.
  - by apply NoDup_cons in Hnd as [? _].
Qed.

Lemma link_own p rp :
  own !! p = Some rp → frame_ok (pg_mem s) off p ∧ (p ∉ free) ∧ p ≠ q ∧ (length rp.2 ≤ 3)%nat.
Proof.
  intros Hp. destruct Hinv as (_ & _ & Hown & _). destruct (Hown _ _ Hp) as (? & Hn & ?).
  split_and!; [done|set_solver + Hn|set_solver + Hn|done].
Qed.

Lemma link_entry : 0 ≤ e' < 2 ^ 64 ∧ entry_present e' = true ∧ Z.land e' PHYS_ADDR_MASK = q.
Proof. destruct link_q as [(? & ? & _) _]. by apply table_entry. Qed.

Lemma link_same : same_entries_but (pg_mem s) m2 off own pml i.
Proof.
  intros p rp j Hp Hj Hd. unfold m2.
  destruct (link_own _ _ Hp) as ((_ & Hpm & _) & _ & Hpq & _).
  destruct (link_own _ _ Hpml) as ((_ & Hpm' & _) & _).
  destruct link_q as ((_ & Hq2 & _) & _).
  rewrite ent_store_ne by done. apply load_ext. intros x Hx. apply Hfill.
  pose proof (frames_disjoint _ _ Hpm Hq2 Hpq). unfold PAGE_SIZE in *. lia.
Qed.

Lemma link_new : ent m2 off pml i = Some e'.
Proof. apply ent_store_eq, link_entry. Qed.

Lemma link_zero j : 0 ≤ j < 512 → ent m2 off q j = Some 0.
Proof.
  intros Hj. destruct link_q as ((_ & Hq2 & _) & _).
  destruct (link_own _ _ Hpml) as ((_ & Hpm' & _) & _ & Hpq & _).
  unfold m2. rewrite ent_store_ne by (try done; congruence).
  apply (load_zero _ _ 8); [|done]. intros x Hx.
  destruct Hfill as [Hf _]. rewrite Hf; [done|]. unfold PAGE_SIZE. lia.
Qed.

Lemma link_dom : same_dom (pg_mem s) m2.
Proof.
  etrans; [exact Hdom|]. apply store_same_dom. rewrite (mapped_same_dom _ _ _ _ Hdom).
  apply ent_mapped; [by eapply link_own|done].
Qed.

Lemma link_mem p : p mod PAGE_SIZE = 0 → own' !! p = None → same_page (pg_mem s) m2 off p.
Proof.
  unfold own'. intros Hp [Hn Hpq]%lookup_insert_None x Hx.
  destruct link_q as ((_ & Hq2 & _) & _). destruct (link_own _ _ Hpml) as ((_ & Hpm & _) & _).
  pose proof (frames_disjoint _ _ Hp Hq2 ltac:(done)) as D1.
  assert (p ≠ pml) as Hpp by (intros ->; congruence).
  pose proof (frames_disjoint _ _ Hp Hpm Hpp) as D2.
  unfold m2, PAGE_SIZE in *. rewrite store_other by lia. apply Hfill. unfold PAGE_SIZE. lia.
Qed.

Lemma link_closed : pt_closed m2 off own'.
Proof.
  intros p r' path' j f Hp Hl Hj Hf Hpr. unfold own' in *.
  destruct (decide (p = q)) as [->|Hpq].
  { rewrite link_zero in Hf by done. by injection Hf as <-. }
  rewrite lookup_insert_ne in Hp by done.
  destruct (decide ((p, j) = (pml, i))) as [[= -> ->]|Hd].
  - rewrite link_new in Hf. injection Hf as <-. destruct link_entry as (_ & _ & ->).
    rewrite Hpml in Hp. injection Hp as <- <-. by rewrite lookup_insert_eq.
  - rewrite (link_same _ _ _ Hp Hj Hd) in Hf. destruct Hinv as (_ & _ & _ & Hcl).
    pose proof (Hcl _ _ _ _ _ Hp Hl Hj Hf Hpr) as Hc.
    rewrite lookup_insert_ne; [done|]. intros Hq. destruct link_q as (_ & Hn & _). congruence.
Qed.

Lemma link_kept p rp j f :
  own !! p = Some rp → 0 ≤ j < 512 → ent (pg_mem s) off p j = Some f → entry_present f = true →
  ent m2 off p j = Some f.
Proof.
  intros Hp Hj Hf Hpr. rewrite <-Hf. apply (link_same _ _ _ Hp Hj). intros [= -> ->]. congruence.
Qed.

Lemma link_at : table_at m2 off r path = Some pml ∧ table_at m2 off r (path ++ [i]) = Some q.
Proof.
  assert (table_at m2 off r path = Some pml) as H.
  { eapply (table_at_mono (pg_mem s) m2 off own r r []); [apply Hinv|done|simpl; lia|apply Hpath| |done].
    intros. by eapply link_kept. }
  split; [done|]. rewrite table_at_app, H. simpl. rewrite link_new. simpl. destruct link_entry as (_ & -> & ->). done.
Qed.

Lemma link_extends :
  pt_extends r [path ++ [i]] s own (q :: free) (MkPaging (MkPmm m2 off head1) off (cr3 s) (tlb s)) own' free.
Proof.
  destruct link_q as (Hqok & Hqn & Hqf). split; simpl.
  - split; [|split; [done|split; [|exact link_closed]]]; simpl.
    + destruct (link_own _ _ Hpml) as (Hpok & Hpf & _). apply free_frames_store; try done.
      by eapply frame_ok_dom.
    + intros p rp Hp. unfold own' in Hp. destruct (decide (p = q)) as [->|].
      * rewrite lookup_insert_eq in Hp. injection Hp as <-. simpl. rewrite length_app. simpl.
        split; [by eapply frame_ok_dom, Hqok; apply link_dom|]. split; [done|lia].
      * rewrite lookup_insert_ne in Hp by done. destruct (link_own _ _ Hp) as (? & ? & _ & ?).
        split; [by eapply frame_ok_dom; [apply link_dom|]|done].
  - by apply insert_subseteq.
  - exists [q]. split; [done|]. split; [simpl; lia|]. intros P HV HP.
    eapply (missing_lt _ _ _ _ (path ++ [i])); [|done|apply HV; set_solver +| |].
    + intros p [Hl Hr] Hn. apply eq_None_not_Some. intros [t Ht]. simpl in Hn.
      erewrite table_at_mono in Hn; [done|apply Hinv|exact Hroot|simpl; lia|done| |exact Ht].
      intros. by eapply link_kept.
    + fold off. rewrite table_at_app, Hat. simpl. rewrite He. simpl. by rewrite Hne.
    + destruct link_at as [_ H]. by exists q.
  - intros p rp j f Hp Hj Hf Hpr. by eapply link_kept.
  - intros r' v Hr'. unfold translate.
    apply (walk_link (pg_mem s) m2 off own) with (p := pml) (r := r) (path := path) (i := i) (e := e)
      (e' := e') (q := q) (r' := r') (path' := []); try done.
    + apply Hinv.
    + exact link_same.
    + exact link_new.
    + apply link_entry.
    + exact link_zero.
    + apply indices_range.
  - done.
  - exact link_dom.
  - intros p Hp Hn. exact (link_mem p Hp Hn).
  - intros p rp. unfold own'. intros [[<- _]|[_ ?]]%lookup_insert_Some; [right; set_solver +|by left].
Qed.
End link.

Lemma wp_get_next_pml s own free pml r path i (Q : Z → paging → Prop) :
  pt_inv s own free → is_root own r → (length path < 3)%nat → Forall (λ j, 0 ≤ j < 512) path → 0 ≤ i < 512 →
  table_at (pg_mem s) (pg_hhdm_offset s) r path = Some pml →
  (table_at (pg_mem s) (pg_hhdm_offset s) r (path ++ [i]) = None → free ≠ []) →
  (∀ s' own' free' q e, pt_extends r [path ++ [i]] s own free s' own' free' →
     own' !! q = Some (r, path ++ [i]) →
     ent (pg_mem s') (pg_hhdm_offset s') pml i = Some e → entry_present e = true →
     Z.land e PHYS_ADDR_MASK = q →
     table_at (pg_mem s') (pg_hhdm_offset s') r (path ++ [i]) = Some q → Q q s') →
  wp (get_next_pml pml i) Q s.
Proof.
  intros Hinv Hroot Hlen Hpath Hi Hat Hfree HQ. pose proof Hinv as (Hff & Hoff & Hown & Hcl).
  assert (own !! pml = Some (r, path)) as Hpml.
  { eapply (table_at_own _ _ own r r []); [done|done|simpl; lia|done|exact Hat]. }
  destruct (Hown _ _ Hpml) as (Hpok & _).
  destruct (ent_is_Some _ _ _ i Hpok Hi) as [e He].
  pose proof Hpok as (Hp1 & Hp2 & Hp3 & Hp4 & Hp5).
  unfold get_next_pml. apply wp_bind, wp_gets.
  rewrite (wrap_small 64) by (unfold PAGE_SIZE in *; lia).
  apply wp_bind. unfold is_entry_present. apply wp_bind. eapply wp_rd; [exact He|]. apply wp_ret.
  assert (table_at (pg_mem s) (pg_hhdm_offset s) r (path ++ [i]) =
    if entry_present e then Some (Z.land e PHYS_ADDR_MASK) else None) as Hnext.
  { rewrite table_at_app, Hat. simpl. unfold pg_mem. by rewrite He. }
  destruct (entry_present e) eqn:Hpr.
  { apply wp_bind. eapply wp_rd; [exact He|]. apply wp_ret.
    eapply HQ; [by apply pt_extends_refl|by eapply Hcl|exact He|done|done|done]. }
  specialize (Hfree Hnext). destruct free as [|q free]; [done|].
  apply wp_bind, wp_zoom. eapply (wp_pmm_alloc _ q free); [exact Hff|].
  intros m1 head1 Hfill Hdom Hfree1. simpl in *. rewrite <-Hoff in *.
  assert (table_path path) as Htp by (split; [lia|done]).
  pose proof (link_extends s own q free pml r path i e m1 head1 Hinv Hpml Hlen Hi He Hpr
    Hfill Hdom Hfree1 Hroot Htp Hat) as Hext. simpl in Hext.
  pose proof (link_at s own q free pml r path i e m1 Hinv Hpml Hlen Hi He Hpr Hfill Hroot Htp Hat) as [_ Hlat].
  pose proof (link_entry s own q free Hinv) as (Hr & Hpe & Hq).
  pose proof (link_new s own q free pml i m1 Hinv) as Hn.
  apply wp_bind. apply wp_wr.
  { simpl. rewrite (mapped_same_dom _ _ _ _ Hdom). by apply ent_mapped. }
  simpl. apply wp_bind. eapply wp_rd; [exact Hn|]. apply wp_ret.
  eapply HQ; [exact Hext| |exact Hn|done|done|]; rewrite Hq; [apply lookup_insert_eq|exact Hlat].
Qed.

(** The upper three levels of the walk of [virt] are linked and end in [pml1]. *)
Definition reaches (m : mem) (off : Z) (own : owners) (pml4 virt pml1 : Z) : Prop :=
  ∃ pml3 pml2 e4 e3 e2,
    own !! pml3 = Some (pml4, [pml_index virt 39]) ∧
    own !! pml2 = Some (pml4, [pml_index virt 39; pml_index virt 30]) ∧
    own !! pml1 = Some (pml4, [pml_index virt 39; pml_index virt 30; pml_index virt 21]) ∧
    (ent m off pml4 (pml_index virt 39) = Some e4 ∧ entry_present e4 = true ∧
       Z.land e4 PHYS_ADDR_MASK = pml3) ∧
    (ent m off pml3 (pml_index virt 30) = Some e3 ∧ entry_present e3 = true ∧
       Z.land e3 PHYS_ADDR_MASK = pml2) ∧
    (ent m off pml2 (pml_index virt 21) = Some e2 ∧ entry_present e2 = true ∧
       Z.land e2 PHYS_ADDR_MASK = pml1).

Lemma upper_paths_short virt : short (upper_paths virt).
Proof.
  pose proof (pml_index_range virt) as Hr. repeat constructor; simpl; try lia; try apply Hr.
Qed.

(** What is left of the frames is enough for what is left to build. *)
Lemma ext_enough r V s own free s' own' free' P :
  pt_extends r V s own free s' own' free' → V ⊆ P → short P →
  (missing s r P ≤ length free)%nat → (missing s' r P ≤ length free')%nat.
Proof.
  intros X HV HP Hn. destruct (ext_free _ _ _ _ _ _ _ _ X) as (l & -> & _ & M). specialize (M P HV HP).
  rewrite length_app in Hn. lia.
Qed.

Lemma wp_get_pml1_entry s own free pml4 virt (Q : Z → paging → Prop) :
  pt_inv s own free → is_root own pml4 → (missing s pml4 (upper_paths virt) ≤ length free)%nat →
  (∀ s' own' free' pml1, pt_extends pml4 (upper_paths virt) s own free s' own' free' →
     reaches (pg_mem s') (pg_hhdm_offset s') own' pml4 virt pml1 →
     Q (pml1 + pg_hhdm_offset s' + 8 * pml_index virt 12) s') →
  wp (get_pml1_entry pml4 virt) Q s.
Proof.
  intros Hinv Hroot Hlen HQ. pose proof (pml_index_range virt) as Hix.
  pose proof (upper_paths_short virt) as HP. set (P := upper_paths virt) in *.
  assert (∀ s' (free' : list Z) path, (missing s' pml4 P ≤ length free')%nat → path ∈ P →
    table_at (pg_mem s') (pg_hhdm_offset s') pml4 path = None → free' ≠ []) as Hf.
  { intros s' free' path Hm Hin Hn ->. pose proof (missing_pos _ _ _ _ Hin Hn). simpl in Hm. lia. }
  unfold get_pml1_entry. apply wp_bind.
  eapply (wp_get_next_pml _ _ _ _ _ []); [done|done|simpl; lia|constructor|done|done|
    apply Hf; [done|set_solver +]|].
  intros s1 own1 free1 pml3 e4 X1 Hp3 He4 Hpr4 Hm4 Hat1. cbn [app] in Hp3, Hat1, X1.
  assert (is_root own1 pml4) as Hroot1 by (eapply lookup_weaken; [done|apply X1]).
  pose proof (ext_enough _ _ _ _ _ _ _ _ P X1 ltac:(set_solver +) HP Hlen) as Hlen1.
  apply wp_bind. eapply (wp_get_next_pml _ _ _ _ _ [pml_index virt 39]); [apply X1|done|simpl; lia|repeat constructor; apply Hix|done|done|
    apply Hf; [done|set_solver +]|].
  intros s2 own2 free2 pml2 e3 X2 Hp2 He3 Hpr3 Hm3 Hat2. cbn [app] in Hp2, Hat2, X2.
  assert (is_root own2 pml4) as Hroot2 by (eapply lookup_weaken; [done|apply X2]).
  pose proof (ext_enough _ _ _ _ _ _ _ _ P X2 ltac:(set_solver +) HP Hlen1) as Hlen2.
  pose proof (pt_extends_trans _ _ _ _ _ _ _ _ _ _ _ _ X1 X2) as X12.
  apply wp_bind. eapply (wp_get_next_pml _ _ _ _ _ [pml_index virt 39; pml_index virt 30]); [apply X2|done|simpl; lia|repeat constructor; apply Hix|done|done|
    apply Hf; [done|set_solver +]|].
  intros s3 own3 free3 pml1 e2 X3 Hp1 He2 Hpr2 Hm2 Hat3. cbn [app] in Hp1, X3.
  pose proof (pt_extends_trans _ _ _ _ _ _ _ _ _ _ _ _ X12 X3) as X.
  pose proof (pt_extends_trans _ _ _ _ _ _ _ _ _ _ _ _ X2 X3) as X23.
  apply wp_bind, wp_gets. apply wp_ret.
  destruct (proj1 (proj2 (proj2 (ext_inv _ _ _ _ _ _ _ _ X))) _ _ Hp1) as ((? & ? & ? & ? & _) & _).
  rewrite wrap_small by (unfold PAGE_SIZE in *; lia).
  apply (HQ s3 own3 free3 pml1 X). exists pml3, pml2, e4, e3, e2. split_and!; try done.
  - eapply lookup_weaken; [done|apply X23].
  - eapply lookup_weaken; [done|apply X3].
  - by eapply (ext_entries _ _ _ _ _ _ _ _ X23).
  - eapply (ext_entries _ _ _ _ _ _ _ _ X3); [|done..]. eapply lookup_weaken; [exact Hp3|apply X2].
Qed.

(** ** Writing the leaf *)

Section leaf.
Context (s : paging) (own : owners) (free : list Z) (pml4 virt pml1 v : Z).
Let off := pg_hhdm_offset s.
Let i := pml_index virt 12.
Let m2 := store 8 (pg_mem s) (pml1 + off + 8 * i) v.
Context (Hinv : pt_inv s own free) (Hroot : is_root own pml4) (Hv : 0 ≤ v < 2 ^ 64).
Context (Hreach : reaches (pg_mem s) off own pml4 virt pml1).

Lemma leaf_own : own !! pml1 = Some (pml4, [pml_index virt 39; pml_index virt 30; pml_index virt 21]).
Proof. by destruct Hreach as (? & ? & ? & ? & ? & _ & _ & ? & _). Qed.

Lemma leaf_ok : frame_ok (pg_mem s) off pml1 ∧ pml1 ∉ free.
Proof. destruct Hinv as (_ & _ & Hown & _). by destruct (Hown _ _ leaf_own) as (? & ? & _). Qed.

Lemma leaf_same : same_entries_but (pg_mem s) m2 off own pml1 i.
Proof.
  intros p rp j Hp Hj Hd. destruct leaf_ok as ((_ & Hm & _) & _).
  destruct Hinv as (_ & _ & Hown & _). destruct (Hown _ _ Hp) as ((_ & Hpm & _) & _).
  apply ent_store_ne; try done. apply pml_index_range.
Qed.

Lemma leaf_hit : walk m2 off pml4 (indices virt) = if entry_present v then Some v else None.
Proof.
  destruct Hreach as (pml3 & pml2 & e4 & e3 & e2 & H3 & H2 & H1 & (A4 & B4 & C4) &
    (A3 & B3 & C3) & (A2 & B2 & C2)).
  unfold indices. cbn [walk].
  rewrite (leaf_same _ _ _ Hroot (pml_index_range _ _)), A4 by (intros [= -> _]; congruence).
  simpl. rewrite B4, C4.
  rewrite (leaf_same _ _ _ H3 (pml_index_range _ _)), A3 by (intros [= -> _]; congruence).
  simpl. rewrite B3, C3.
  rewrite (leaf_same _ _ _ H2 (pml_index_range _ _)), A2 by (intros [= -> _]; congruence).
  simpl. rewrite B2, C2. unfold m2. by rewrite ent_store_eq.
Qed.

Lemma leaf_miss r w :
  is_root own r → ¬ (r = pml4 ∧ indices w = indices virt) →
  walk m2 off r (indices w) = walk (pg_mem s) off r (indices w).
Proof.
  intros Hr Hn. eapply (walk_leaf_other _ _ _ own) with (p := pml1) (r := pml4) (path' := []).
  - apply Hinv.
  - exact leaf_same.
  - exact leaf_own.
  - done.
  - exact Hr.
  - done.
  - apply indices_range.
  - done.
Qed.

Lemma leaf_kept tb : tables_kept s (MkPaging (upd m2 (pg_pmm s)) off (cr3 s) tb) pml4.
Proof.
  intros path [Hl Hr] Hn. apply eq_None_not_Some. intros [t Ht]. simpl in Hn.
  erewrite table_at_mono in Hn; [done|apply Hinv|exact Hroot|simpl; lia|done| |exact Ht].
  intros p rp j e Hp Hl3 Hj He _. fold off in He. rewrite <-He. apply (leaf_same _ _ _ Hp Hj).
  intros [= -> _]. rewrite leaf_own in Hp. injection Hp as <-. simpl in Hl3. lia.
Qed.

Lemma leaf_dom : same_dom (pg_mem s) m2.
Proof. apply store_same_dom, ent_mapped; [apply leaf_ok|apply pml_index_range]. Qed.

Lemma leaf_mem p : p mod PAGE_SIZE = 0 → own !! p = None → same_page (pg_mem s) m2 off p.
Proof.
  intros Hp Hn. destruct leaf_ok as ((_ & Hm & _) & _).
  assert (p ≠ pml1) as Hne by (intros ->; rewrite leaf_own in Hn; done).
  pose proof (frames_disjoint _ _ Hp Hm Hne). pose proof (pml_index_range virt 12).
  apply agree_store. unfold PAGE_SIZE, i in *. lia.
Qed.

Lemma leaf_inv tb : pt_inv (MkPaging (upd m2 (pg_pmm s)) off (cr3 s) tb) own free.
Proof.
  destruct leaf_ok as (Hok & Hnf). destruct Hinv as (Hff & Hoff & Hown & Hcl).
  pose proof (pml_index_range virt 12) as Hir.
  pose proof leaf_dom as Hd.
  assert (free_frames (MkPmm (pg_mem s) off (free_list_head (pg_pmm s))) free) as Hff'.
  { unfold off. rewrite Hoff. unfold pg_mem. by destruct (pg_pmm s). }
  split; [|split; [done|split]]; simpl.
  - rewrite <-Hoff. by apply free_frames_store.
  - intros p rp Hp. destruct (Hown _ _ Hp) as (? & ? & ?).
    split; [by eapply frame_ok_dom|done].
  - intros p r path j e Hp Hl Hj He Hpr. eapply Hcl; try done. rewrite <-He. symmetry.
    apply (leaf_same _ _ _ Hp Hj). intros [= -> ->]. rewrite leaf_own in Hp.
    injection Hp as <- <-. simpl in Hl. lia.
Qed.
End leaf.

(** ** The TLB *)

(** Canonical addresses, which are the ones the CPU translates. *)
Definition canonical (v : Z) : Prop := 0 ≤ v < 2 ^ 47 ∨ 2 ^ 64 - 2 ^ 47 ≤ v < 2 ^ 64.

(** Every cached translation is the one of the current tables. *)
Definition tlb_ok (s : paging) : Prop :=
  ∀ vp e, tlb s !! vp = Some e →
    canonical (vp * 4096) ∧ translate s (cr3 s) (vp * 4096) = Some e.

Lemma pml_index_div v sh : 0 ≤ sh → pml_index v sh = (v `div` 2 ^ sh) mod 512.
Proof.
  intros Hs. unfold pml_index. change 0x1ff with (2 ^ 9 - 1).
  rewrite land_ones_mod, Z.shiftr_div_pow2 by lia. change (2 ^ 9) with 512.
  apply wrap_small. pose proof (Z.mod_pos_bound (v `div` 2 ^ sh) 512). lia.
Qed.

(** The indices of a canonical address determine its page. *)
Lemma indices_page a b :
  canonical a → canonical b → indices a = indices b → a `div` 4096 = b `div` 4096.
Proof.
  unfold indices. rewrite !pml_index_div by lia. intros Ha Hb [= H4 H3 H2 H1].
  assert (∀ x, x `div` 2 ^ 21 = (x `div` 4096) `div` 512 ∧
    x `div` 2 ^ 30 = ((x `div` 4096) `div` 512) `div` 512 ∧
    x `div` 2 ^ 39 = (((x `div` 4096) `div` 512) `div` 512) `div` 512) as Hd.
  { intros x. rewrite !Z.div_div by lia. done. }
  destruct (Hd a) as (A1 & A2 & A3), (Hd b) as (B1 & B2 & B3).
  rewrite A1, B1 in H2. rewrite A2, B2 in H3. rewrite A3, B3 in H4.
  change (2 ^ 12) with 4096 in H1. clear Hd A1 A2 A3 B1 B2 B3. unfold canonical in *.
  set (x := a `div` 4096) in *. set (y := b `div` 4096) in *.
  assert (0 ≤ x < 2 ^ 35 ∨ 2 ^ 52 - 2 ^ 35 ≤ x < 2 ^ 52) as Hx by (unfold x; dlia).
  assert (0 ≤ y < 2 ^ 35 ∨ 2 ^ 52 - 2 ^ 35 ≤ y < 2 ^ 52) as Hy by (unfold y; dlia).
  clearbody x y. clear Ha Hb a b. dlia.
Qed.

Lemma indices_align v : indices (Z.shiftr v 12 * 4096) = indices v.
Proof.
  rewrite Z.shiftr_div_pow2 by lia. unfold indices. rewrite !pml_index_div by lia.
  assert (∀ k, 0 ≤ k → (v `div` 2 ^ 12 * 4096) `div` 2 ^ (12 + k) = v `div` 2 ^ (12 + k)) as Hk.
  { intros k ?. rewrite Z.pow_add_r, <-!Z.div_div by (try apply Z.pow_pos_nonneg; lia).
    change (2 ^ 12) with 4096. by rewrite Z.div_mul. }
  change (2 ^ 39) with (2 ^ (12 + 27)). change (2 ^ 30) with (2 ^ (12 + 18)).
  change (2 ^ 21) with (2 ^ (12 + 9)). rewrite !Hk by lia.
  pose proof (Hk 0) as H0. change (12 + 0) with 12 in H0. rewrite H0 by lia. done.
Qed.

(** ** Mapping and unmapping *)

(** What writing the leaf entry [v] of [virt] in the address space [pml4]
    comes to. *)
Record leaf_written (s : paging) (own : owners) (free : list Z) (pml4 virt v : Z)
    (s' : paging) (own' : owners) (free' : list Z) : Prop := {
  lw_inv : pt_inv s' own' free';
  lw_own : own ⊆ own';
  lw_free : ∃ l, free = l ++ free' ∧ (length l ≤ 3)%nat ∧
    ∀ P, upper_paths virt ⊆ P → short P → (length l + missing s' pml4 P ≤ missing s pml4 P)%nat;
  lw_cpu : pg_hhdm_offset s' = pg_hhdm_offset s ∧ cr3 s' = cr3 s;
  lw_hit : translate s' pml4 virt = if entry_present v then Some v else None;
  lw_miss : ∀ r w, is_root own r → ¬ (r = pml4 ∧ indices w = indices virt) →
    translate s' r w = translate s r w;
  lw_tlb : tlb_ok s → is_root own (cr3 s) → canonical virt → tlb_ok s';
  lw_dom : same_dom (pg_mem s) (pg_mem s');
  lw_mem : ∀ p, p mod PAGE_SIZE = 0 → own' !! p = None →
    same_page (pg_mem s) (pg_mem s') (pg_hhdm_offset s) p;
  lw_new : ∀ p rp, own' !! p = Some rp → own !! p = Some rp ∨ p ∈ free
}.

Lemma leaf_tlb s s' own pml4 virt :
  (∀ r w, is_root own r → ¬ (r = pml4 ∧ indices w = indices virt) →
     translate s' r w = translate s r w) →
  cr3 s' = cr3 s →
  tlb s' = (if pml4 =? cr3 s then delete (Z.shiftr virt 12) (tlb s) else tlb s) →
  tlb_ok s → is_root own (cr3 s) → canonical virt → tlb_ok s'.
Proof.
  intros Hm Hc Ht Hok Hr Hcan vp e Hvp. rewrite Hc, Ht in *.
  assert (tlb s !! vp = Some e ∧ ¬ (cr3 s = pml4 ∧ vp = Z.shiftr virt 12)) as [Hvp' Hne].
  { destruct (Z.eqb_spec pml4 (cr3 s)) as [E|E]; [|split; [done|naive_solver]].
    apply lookup_delete_Some in Hvp as [? ?]. naive_solver. }
  destruct (Hok _ _ Hvp') as [Hcv He]. split; [done|]. rewrite Hm; [done|done|].
  intros [E Hi]. apply Hne. split; [done|].
  pose proof (indices_page _ _ Hcv Hcan Hi) as Hp. rewrite Z.div_mul in Hp by lia.
  by rewrite Z.shiftr_div_pow2.
Qed.

Lemma wp_leaf_write s own free pml4 virt v :
  pt_inv s own free → is_root own pml4 → (missing s pml4 (upper_paths virt) ≤ length free)%nat → 0 ≤ v < 2 ^ 64 →
  wp (entry ← get_pml1_entry pml4 virt; wr64 entry v;; invlpg_if_needed pml4 virt)
    (λ _ s', ∃ own' free', leaf_written s own free pml4 virt v s' own' free') s.
Proof.
  intros Hinv Hroot Hlen Hv. apply wp_bind. eapply wp_get_pml1_entry; [done..|].
  intros s1 own1 free1 pml1 X Hreach. pose proof (ext_inv _ _ _ _ _ _ _ _ X) as Hinv1.
  assert (is_root own1 pml4) as Hroot1 by (eapply lookup_weaken; [done|apply X]).
  pose proof (leaf_ok _ _ _ _ _ _ Hinv1 Hreach) as [Hok _].
  apply wp_bind. apply wp_wr; [apply ent_mapped; [done|apply pml_index_range]|].
  destruct (ext_cpu _ _ _ _ _ _ _ _ X) as (Ho & Hc & Ht).
  assert (∀ tb, tb = (if pml4 =? cr3 s then delete (Z.shiftr virt 12) (tlb s) else tlb s) →
    leaf_written s own free pml4 virt v
      (MkPaging (upd (store 8 (pg_mem s1) (pml1 + pg_hhdm_offset s1 + 8 * pml_index virt 12) v)
        (pg_pmm s1)) (pg_hhdm_offset s1) (cr3 s1) tb) own1 free1) as HL.
  { intros tb Htb.
    set (s2 := MkPaging _ _ _ tb).
    assert (∀ r w, is_root own r → ¬ (r = pml4 ∧ indices w = indices virt) →
      translate s2 r w = translate s r w) as Hmiss.
    { intros r w Hr Hn. rewrite <-(ext_walks _ _ _ _ _ _ _ _ X) by done.
      assert (is_root own1 r) as Hr1 by (eapply lookup_weaken; [done|apply X]).
      unfold translate, s2. eapply (leaf_miss s1) with (pml4 := pml4) (virt := virt); done. }
    split; try done.
    - by apply leaf_inv with (pml4 := pml4).
    - apply X.
    - destruct (ext_free _ _ _ _ _ _ _ _ X) as (l & Hl & Hl3 & M). exists l. split_and!; [done|done|].
      intros P HV HP. specialize (M P HV HP).
      pose proof (missing_le _ _ pml4 P (leaf_kept s1 own1 free1 pml4 virt pml1 v Hinv1 Hroot1 Hreach tb) HP).
      unfold s2. lia.
    - unfold translate. by eapply (leaf_hit s1).
    - by eapply leaf_tlb.
    - etrans; [apply X|]. by eapply leaf_dom.
    - intros p Hp Hn. eapply agree_trans; [by apply X|].
      rewrite <-Ho. eapply leaf_mem; [done..].
    - apply X. }
  unfold invlpg_if_needed, read_cr3. apply wp_bind, wp_gets. simpl. rewrite Hc in HL |- *.
  destruct (pml4 =? cr3 s) eqn:E; [apply wp_modify|apply wp_ret]; exists own1, free1;
    apply HL; simpl; by rewrite Ht.
Qed.

(** ** Claims *)

(** C13: after [paging_map_page] the page of [virt] in the address space
    [pml4] translates to [phys] with the present bit and the low sixteen
    flag bits; every other page of every address space translates as before;
    the tables stay disjoint trees of allocated frames, a frame is taken for
    each of the at most three tables that were missing and a free frame for
    each of these is all that is needed, and the TLB caches no stale
    translation. *)
Theorem paging_map_page_maps s own free pml4 virt phys flags :
  pt_inv s own free → is_root own pml4 → (missing s pml4 (upper_paths virt) ≤ length free)%nat → 0 ≤ phys < 2 ^ 64 →
  wp (paging_map_page pml4 virt phys flags) (λ _ s', ∃ own' free',
    leaf_written s own free pml4 virt (Z.lor (Z.lor phys VM_FLAG_PRESENT) (u16 flags)) s' own' free' ∧
    translate s' pml4 virt = Some (Z.lor (Z.lor phys VM_FLAG_PRESENT) (u16 flags))) s.
Proof.
  intros Hinv Hroot Hlen Hp. unfold paging_map_page.
  assert (0 ≤ Z.lor (Z.lor phys VM_FLAG_PRESENT) (u16 flags) < 2 ^ 64) as Hr.
  { pose proof (wrap_range 16 flags). repeat (apply lor_range; [lia| |]); try done. lia. }
  eapply wp_mono; [by apply wp_leaf_write|]. intros _ s' (own' & free' & HL).
  exists own', free'. split; [done|]. rewrite (lw_hit _ _ _ _ _ _ _ _ _ HL).
  assert (entry_present (Z.lor (Z.lor phys VM_FLAG_PRESENT) (u16 flags)) = true) as ->; [|done].
  unfold entry_present. apply negb_true_iff, Z.eqb_neq. intros H0.
  apply (f_equal (λ z, Z.testbit z 0)) in H0.
  rewrite Z.land_spec, !Z.lor_spec, Z.bits_0 in H0.
  change (Z.testbit VM_FLAG_PRESENT 0) with true in H0.
  by rewrite orb_true_r, orb_true_l in H0.
Qed.

(** C14: after [paging_unmap_page] the page of [virt] in the address space
    [pml4] has no translation, in the tables and in the TLB, and every other
    page of every address space translates as before. *)
Theorem paging_unmap_page_unmaps s own free pml4 virt :
  pt_inv s own free → is_root own pml4 → (missing s pml4 (upper_paths virt) ≤ length free)%nat →
  wp (paging_unmap_page pml4 virt) (λ _ s', ∃ own' free',
    leaf_written s own free pml4 virt 0 s' own' free' ∧ translate s' pml4 virt = None) s.
Proof.
  intros Hinv Hroot Hlen. eapply wp_mono; [by apply wp_leaf_write|].
  intros _ s' (own' & free' & HL). exists own', free'. split; [done|].
  by rewrite (lw_hit _ _ _ _ _ _ _ _ _ HL).
Qed.

(** ** Witnesses *)

(** A machine with seven frames from 0x1000 in a direct map at 0x10000: four
    linked tables for 0xffff810000000000 and three free frames. *)
Definition paging_demo_bytes : gmap Z Z := list_to_map
  [(0x11810, 0x07); (0x11811, 0x20); (0x12000, 0x07); (0x12001, 0x30); (0x13000, 0x07);
   (0x13001, 0x40); (0x15001, 0x50); (0x15009, 0x60); (0x1500a, 0x01); (0x16001, 0x60);
   (0x16009, 0x70); (0x1600a, 0x01); (0x17001, 0x70)].

Definition paging_demo_mem : mem := λ x,
  if (0x10000 <=? x) && (x <? 0x18000) then Some (default 0 (paging_demo_bytes !! x)) else None.

Definition paging_demo : paging :=
  MkPaging (MkPmm paging_demo_mem 0x10000 0x15000) 0x10000 0x1000 ∅.

Definition paging_demo_own : owners := list_to_map
  [(0x1000, (0x1000, [])); (0x2000, (0x1000, [258])); (0x3000, (0x1000, [258; 0]));
   (0x4000, (0x1000, [258; 0; 0]))].

Example run_paging :
  match (paging_map_page 0x1000 0xffff810000001000 0x5000 (Z.lor VM_FLAG_WRITE VM_FLAG_NX);;
         a ← gets (λ s, translate s 0x1000 0xffff810000001abc);
         b ← gets (λ s, translate s 0x1000 0xffff810000002abc);
         paging_unmap_page 0x1000 0xffff810000001000;;
         c ← gets (λ s, translate s 0x1000 0xffff810000001000);
         mret (a, b, c)) paging_demo with
  | Ok (r, _) => r = (Some 0x5003, None, None)
  | _ => False
  end.
Proof. vm_compute. reflexivity. Qed.

(** An executable form of [pt_closed]. *)
Definition pt_closed_b (m : mem) (off : Z) (own : owners) : bool :=
  forallb (λ '(p, (r, path)), (3 <=? length path)%nat ||
    forallb (λ i, match ent m off p i with
                  | Some e => negb (entry_present e) ||
                      bool_decide (own !! Z.land e PHYS_ADDR_MASK = Some (r, path ++ [i]))
                  | None => true
                  end) (seqZ 0 512)) (map_to_list own).

Lemma pt_closed_b_ok m off own : pt_closed_b m off own = true → pt_closed m off own.
Proof.
  unfold pt_closed_b. rewrite forallb_forall. intros Hb p r path i e Hp Hl Hi He Hpr.
  specialize (Hb (p, (r, path))). rewrite <-list_elem_of_In, elem_of_map_to_list in Hb.
  specialize (Hb Hp). apply orb_true_iff in Hb as [Hb|Hb]; [apply Nat.leb_le in Hb; lia|].
  rewrite forallb_forall in Hb. specialize (Hb i).
  rewrite <-list_elem_of_In, elem_of_seqZ in Hb. specialize (Hb ltac:(lia)).
  rewrite He, Hpr in Hb. by apply bool_decide_eq_true in Hb.
Qed.

Lemma paging_demo_frame p :
  p ∈ [0x1000; 0x2000; 0x3000; 0x4000; 0x5000; 0x6000; 0x7000] → frame_ok paging_demo_mem 0x10000 p.
Proof.
  intros Hp. assert (0 ≤ p < 2 ^ 52 ∧ p mod PAGE_SIZE = 0 ∧ 0x1000 ≤ p ≤ 0x7000) as (H1 & H2 & H3).
  { revert p Hp. apply Forall_forall. repeat constructor; done. }
  unfold PAGE_SIZE in *. split; [done|]. split; [done|]. split; [lia|]. split; [unfold PAGE_SIZE; lia|].
  intros x Hx. unfold paging_demo_mem, PAGE_SIZE in *.
  rewrite (proj2 (Z.leb_le _ _)), (proj2 (Z.ltb_lt _ _)) by lia. simpl. eauto.
Qed.

Lemma paging_demo_inv : pt_inv paging_demo paging_demo_own [0x5000; 0x6000; 0x7000].
Proof.
  split; [|split; [reflexivity|split]].
  - split; [|split; [|split]].
    + simpl. repeat (split; [reflexivity|]; split; [reflexivity|]; eexists; split; [reflexivity|]).
      reflexivity.
    + apply (bool_decide_unpack _). vm_compute. exact I.
    + repeat (constructor; [apply paging_demo_frame; set_solver +|]). constructor.
    + discriminate.
  - assert (map_Forall (λ p rp, p ∈ [0x1000; 0x2000; 0x3000; 0x4000] ∧
      (p ∉ [0x5000; 0x6000; 0x7000]) ∧ (length rp.2 ≤ 3)%nat) paging_demo_own) as Hm.
    { apply (bool_decide_unpack _). vm_compute. exact I. }
    intros p rp Hp. destruct (Hm p rp Hp) as (Hin & Hn & Hl). split; [|done].
    apply paging_demo_frame. set_solver + Hin.
  - apply pt_closed_b_ok. vm_compute. reflexivity.
Qed.

Lemma paging_map_page_maps_witness :
  wp (paging_map_page 0x1000 0xffff810000001000 0x5000 VM_FLAG_WRITE)
    (λ _ s', translate s' 0x1000 0xffff810000001000 = Some 0x5003) paging_demo.
Proof.
  refine (wp_mono _ _ _ _ (paging_map_page_maps paging_demo paging_demo_own
    [0x5000; 0x6000; 0x7000] 0x1000 0xffff810000001000 0x5000 VM_FLAG_WRITE
    paging_demo_inv _ _ _) _).
  - reflexivity.
  - etrans; [apply missing_length|]. simpl. lia.
  - lia.
  - intros _ s' (own' & free' & _ & H). exact H.
Defined.

Lemma paging_unmap_page_unmaps_witness :
  wp (paging_unmap_page 0x1000 0xffff810000001000)
    (λ _ s', translate s' 0x1000 0xffff810000001000 = None) paging_demo.
Proof.
  refine (wp_mono _ _ _ _ (paging_unmap_page_unmaps paging_demo paging_demo_own
    [0x5000; 0x6000; 0x7000] 0x1000 0xffff810000001000 paging_demo_inv _ _) _).
  - reflexivity.
  - etrans; [apply missing_length|]. simpl. lia.
  - intros _ s' (own' & free' & _ & H). exact H.
Defined.
