(* ===== verification/Vmm.v ===== *)
(** * The kernel's address space: kernel/memory/vmm.c

    [vmm_init] builds the kernel's page tables: the sections of the kernel
    image, then every region of the memory map through the direct map.  The
    linker symbols that delimit the sections are a record, an argument of
    [vmm_init].  [virt_mem] is the memory that code running on the current
    tables sees; [kmalloc_init] maps the heap and builds its first chunk in
    that memory. *)

From S2P Require Import Prelude Mem StringC Pmm Paging Kmalloc.
Local Open Scope Z_scope.
Local Open Scope kernel_scope.

(** The symbols of the linker script. *)
Record KernelImage := MkImage {
  TEXT_START : Z; TEXT_END : Z;
  RODATA_START : Z; RODATA_END : Z;
  DATA_START : Z; DATA_END : Z;
  LIMINE_REQ_START : Z; LIMINE_REQ_END : Z
}.

Record KernelAddress := MkKernelAddress { virt : Z; phys : Z }.

Record vmm := MkVmm { vm_paging : paging; vm_hhdm_offset : Z; kernel_pml4 : Z }.

#[export] Instance vmm_has_paging : Has paging vmm :=
  {| prj := vm_paging; upd := λ p s, MkVmm p (vm_hhdm_offset s) (kernel_pml4 s) |}.
#[export] Instance vmm_has_paging_laws : HasLaws paging vmm.
Proof. split; [done|by intros []|done]. Qed.
#[export] Instance vmm_has_pmm : Has pmm vmm :=
  {| prj := λ s, pg_pmm (vm_paging s); upd := λ p s, upd (upd p (vm_paging s)) s |}.
#[export] Instance vmm_has_pmm_laws : HasLaws pmm vmm.
Proof. split; [done|by intros [[]]|done]. Qed.

Definition align_up (addr align : Z) : Z := Z.land ((addr +64 align) -64 1) (lnot64 (align -64 1)).
Definition align_down (addr align : Z) : Z := Z.land addr (lnot64 (align -64 1)).

Definition vmm_get_kernel_pml4 : M vmm Z := gets kernel_pml4.

Definition vmm_load_pml4 (pml4 : Z) : M vmm unit := zoom (paging_load_pml4 pml4).

Definition vmm_map (pml4 virt phys flags : Z) : M vmm unit :=
  zoom (paging_map_page pml4 virt phys flags).

Definition vmm_unmap (pml4 virt : Z) : M vmm unit := zoom (paging_unmap_page pml4 virt).

Definition vmm_kmap (virt phys flags : Z) : M vmm unit :=
  pml4 ← gets kernel_pml4; zoom (paging_map_page pml4 virt phys flags).

Definition vmm_kunmap (virt : Z) : M vmm unit :=
  pml4 ← gets kernel_pml4; zoom (paging_unmap_page pml4 virt).

(** [for (a = a; a < stop; a += PAGE_SIZE) vmm_kmap(va(a), pa(a), flags)]:
    the shape of the five mapping loops. *)
Fixpoint kmap_loop (fuel : nat) (a stop : Z) (va pa : Z → Z) (flags : Z) : M vmm unit :=
  if a <? stop then
    match fuel with
    | O => nofuel
    | S fuel' =>
        vmm_kmap (va a) (pa a) flags;;
        kmap_loop fuel' (a +64 PAGE_SIZE) stop va pa flags
    end
  else mret tt.

(** The number of pages from [a] to [stop]. *)
Definition page_count (a stop : Z) : nat := Z.to_nat ((stop - a + (PAGE_SIZE - 1)) `div` PAGE_SIZE).

(** The loop over one section of the kernel image. *)
Definition map_section (start stop kernel_virt_to_phys_offset flags : Z) : M vmm unit :=
  kmap_loop (page_count start stop) start stop
    (λ virt, virt) (λ virt, virt -64 kernel_virt_to_phys_offset) flags.

Definition region_start (entry : PhysMemoryRegion) : Z := align_down (base entry) PAGE_SIZE.
Definition region_end (entry : PhysMemoryRegion) : Z :=
  align_up (base entry +64 length_ entry) PAGE_SIZE.

Fixpoint map_regions (entries : PhysMemoryMap) : M vmm unit :=
  match entries with
  | [] => mret tt
  | entry :: rest =>
      off ← gets vm_hhdm_offset;
      let start := region_start entry in
      let stop := region_end entry in
      kmap_loop (page_count start stop) start stop
        (λ phys, phys +64 off) (λ phys, phys) (Z.lor VM_FLAG_WRITE VM_FLAG_NX);;
      map_regions rest
  end.

(** The mapping loops of [vmm_init], in their order. *)
Definition map_kernel (img : KernelImage) (memmap : PhysMemoryMap) (delta : Z) : M vmm unit :=
  map_section (TEXT_START img) (TEXT_END img) delta VM_FLAG_DEFAULT;;
  map_section (RODATA_START img) (RODATA_END img) delta VM_FLAG_NX;;
  map_section (DATA_START img) (DATA_END img) delta (Z.lor VM_FLAG_WRITE VM_FLAG_NX);;
  map_section (LIMINE_REQ_START img) (LIMINE_REQ_END img) delta VM_FLAG_NX;;
  map_regions memmap.

Definition vmm_init (img : KernelImage) (offset : Z) (memmap : PhysMemoryMap)
    (kernel_address : KernelAddress) : M vmm unit :=
  modify (λ s, MkVmm (vm_paging s) offset (kernel_pml4 s));;
  zoom (paging_set_hhdm_offset offset);;
  p ← zoom pmm_alloc;
  modify (λ s, MkVmm (vm_paging s) (vm_hhdm_offset s) p);;
  map_kernel img memmap (virt kernel_address -64 phys kernel_address);;
  pml4 ← gets kernel_pml4;
  vmm_load_pml4 pml4.

(** ** Memory through the tables *)

(** The byte that code sees at [x]: the walk of the current tables gives the
    frame, whose bytes are in the direct map. *)
Definition virt_mem (s : paging) : mem := λ x,
  match translate s (cr3 s) x with
  | Some e => pg_mem s (Z.land e PHYS_ADDR_MASK + x mod PAGE_SIZE + pg_hhdm_offset s)
  | None => None
  end.

(** Running a component on a state of its own. *)
Definition run_on {T S : Type} (c : M T unit) (t : T) : M S T := λ s,
  match c t with
  | Ok (_, t') => Ok (t', s)
  | Panic msg => Panic msg
  | Fault a => Fault a
  | NoFuel => NoFuel
  end.

(** The mapping loop of [kmalloc_init]. *)
Fixpoint kmalloc_map_heap (fuel : nat) (virt : Z) : M vmm unit :=
  if virt <? HEAP_END then
    match fuel with
    | O => nofuel
    | S fuel' =>
        phys ← zoom pmm_alloc;
        vmm_kmap virt phys (Z.lor VM_FLAG_WRITE VM_FLAG_NX);;
        kmalloc_map_heap fuel' (virt +64 PAGE_SIZE)
    end
  else mret tt.

(** [kmalloc_init]: the heap is mapped, then its first chunk is built in the
    memory the tables give; the result is the state of the allocator. *)
Definition kmalloc_init : M vmm heap :=
  kmalloc_map_heap (page_count HEAP_START HEAP_END) HEAP_START;;
  m ← gets (λ s, virt_mem (vm_paging s));
  run_on kmalloc_init_freelist (Heap m NULL).

(** ** Requests *)

(** A sequence of calls of [vmm_kmap], and the translations after it. *)
Definition request : Type := Z * Z * Z.

Definition leaf_entry (phys flags : Z) : Z := Z.lor (Z.lor phys VM_FLAG_PRESENT) (u16 flags).

Fixpoint after_requests (rs : list request) (tr : Z → option Z) : Z → option Z :=
  match rs with
  | [] => tr
  | (v, p, f) :: rs' => after_requests rs' (λ w,
      if bool_decide (indices w = indices v) then Some (leaf_entry p f) else tr w)
  end.

Definition loop_requests (a : Z) (n : nat) (va pa : Z → Z) (flags : Z) : list request :=
  (λ x, (va x, pa x, flags)) <$> frames_from a (Z.of_nat n).

Definition section_requests (start stop delta flags : Z) : list request :=
  loop_requests start (page_count start stop) (λ v, v) (λ v, v -64 delta) flags.

Definition region_requests (off : Z) (entry : PhysMemoryRegion) : list request :=
  loop_requests (region_start entry) (page_count (region_start entry) (region_end entry))
    (λ p, p +64 off) (λ p, p) (Z.lor VM_FLAG_WRITE VM_FLAG_NX).

(** The tables the requests need. *)
Definition table_paths (rs : list request) : list (list Z) := mjoin ((λ r, upper_paths r.1.1) <$> rs).

(** The requests of [vmm_init]. *)
Definition boot_requests (img : KernelImage) (off : Z) (memmap : PhysMemoryMap)
    (delta : Z) : list request :=
  section_requests (TEXT_START img) (TEXT_END img) delta VM_FLAG_DEFAULT ++
  section_requests (RODATA_START img) (RODATA_END img) delta VM_FLAG_NX ++
  section_requests (DATA_START img) (DATA_END img) delta (Z.lor VM_FLAG_WRITE VM_FLAG_NX) ++
  section_requests (LIMINE_REQ_START img) (LIMINE_REQ_END img) delta VM_FLAG_NX ++
  mjoin (region_requests off <$> memmap).

Lemma after_requests_app rs1 rs2 tr v :
  after_requests (rs1 ++ rs2) tr v = after_requests rs2 (after_requests rs1 tr) v.
Proof. revert tr. induction rs1 as [|[[w p] f] rs1 IH]; intros tr; [done|]. apply IH. Qed.

Lemma after_requests_ext rs tr tr' v :
  (∀ w, tr w = tr' w) → after_requests rs tr v = after_requests rs tr' v.
Proof.
  revert tr tr'. induction rs as [|[[u p] f] rs IH]; intros tr tr' He; [apply He|].
  apply IH. intros w. by rewrite He.
Qed.

(** ** The invariant *)

Definition vmm_inv (s : vmm) (own : owners) (free : list Z) : Prop :=
  pt_inv (vm_paging s) own free ∧ is_root own (kernel_pml4 s) ∧
  vm_hhdm_offset s = pg_hhdm_offset (vm_paging s).

(** The free frames suffice for the tables that are missing on the paths [P],
    and for [k] other uses. *)
Definition enough (k : nat) (P : list (list Z)) (s : vmm) (free : list Z) : Prop :=
  (k + missing (vm_paging s) (kernel_pml4 s) P ≤ length free)%nat.

(** [s'] is [s] after the requests [rs]. *)
Record requested (rs : list request) (s : vmm) (own : owners) (free : list Z)
    (s' : vmm) (own' : owners) (free' : list Z) : Prop := {
  rq_inv : vmm_inv s' own' free';
  rq_own : own ⊆ own';
  rq_free : ∃ l, free = l ++ free' ∧ ∀ P, table_paths rs ⊆ P → short P →
    (length l + missing (vm_paging s') (kernel_pml4 s) P ≤ missing (vm_paging s) (kernel_pml4 s) P)%nat;
  rq_same : kernel_pml4 s' = kernel_pml4 s ∧ vm_hhdm_offset s' = vm_hhdm_offset s ∧
    cr3 (vm_paging s') = cr3 (vm_paging s);
  rq_maps : ∀ v, translate (vm_paging s') (kernel_pml4 s) v =
    after_requests rs (translate (vm_paging s) (kernel_pml4 s)) v;
  rq_dom : same_dom (pg_mem (vm_paging s)) (pg_mem (vm_paging s'));
  rq_mem : ∀ p, p mod PAGE_SIZE = 0 → own' !! p = None →
    same_page (pg_mem (vm_paging s)) (pg_mem (vm_paging s')) (vm_hhdm_offset s) p;
  rq_new : ∀ p rp, own' !! p = Some rp → own !! p = Some rp ∨ p ∈ free
}.

Lemma table_paths_app rs1 rs2 : table_paths (rs1 ++ rs2) = table_paths rs1 ++ table_paths rs2.
Proof. unfold table_paths. by rewrite fmap_app, join_app. Qed.

Lemma table_paths_short rs : short (table_paths rs).
Proof.
  unfold table_paths. apply Forall_join, Forall_fmap, Forall_true. intros r. apply upper_paths_short.
Qed.

Lemma requested_enough k P rs s own free s' own' free' :
  requested rs s own free s' own' free' → table_paths rs ⊆ P → short P →
  enough k P s free → enough k P s' free'.
Proof.
  intros R HP Hs Hk. destruct (rq_free _ _ _ _ _ _ _ R) as (l & -> & M). specialize (M P HP Hs).
  destruct (rq_same _ _ _ _ _ _ _ R) as (Hr & _). unfold enough in *. rewrite Hr. rewrite length_app in Hk. lia.
Qed.

Lemma requested_nil s own free : vmm_inv s own free → requested [] s own free s own free.
Proof.
  intros H. split.
  - exact H.
  - reflexivity.
  - exists []. split; [done|]. intros. simpl. lia.
  - auto.
  - intros v. reflexivity.
  - reflexivity.
  - intros p _ _. apply agree_refl.
  - auto.
Qed.

Lemma requested_app rs1 rs2 s1 o1 f1 s2 o2 f2 s3 o3 f3 :
  requested rs1 s1 o1 f1 s2 o2 f2 → requested rs2 s2 o2 f2 s3 o3 f3 →
  requested (rs1 ++ rs2) s1 o1 f1 s3 o3 f3.
Proof.
  intros A B. destruct (rq_same _ _ _ _ _ _ _ A) as (A1 & A2 & A3).
  destruct (rq_same _ _ _ _ _ _ _ B) as (B1 & B2 & B3). split.
  - apply B.
  - etrans; [apply A|apply B].
  - destruct (rq_free _ _ _ _ _ _ _ A) as (l1 & -> & M1), (rq_free _ _ _ _ _ _ _ B) as (l2 & -> & M2).
    exists (l1 ++ l2). rewrite !length_app, (assoc_L (++)). split; [done|].
    intros P HP Hs. rewrite table_paths_app in HP. apply list_subseteq_app_iff_l in HP as [H1 H2].
    specialize (M1 P H1 Hs). specialize (M2 P H2 Hs). rewrite A1 in M2. lia.
  - split_and!; congruence.
  - intros v. rewrite after_requests_app, <-A1, (rq_maps _ _ _ _ _ _ _ B), A1.
    apply after_requests_ext. intros w. by apply A.
  - etrans; [apply A|apply B].
  - intros p Hp Hn. eapply agree_trans; [apply A; [done|]|].
    + eapply lookup_weaken_None; [done|apply B].
    + rewrite <-A2. by apply B.
  - intros p rp Hp. destruct (rq_new _ _ _ _ _ _ _ B _ _ Hp) as [H|H]; [by apply A|].
    destruct (rq_free _ _ _ _ _ _ _ A) as (l & -> & _). right. set_solver + H.
Qed.

Lemma leaf_entry_range p f : 0 ≤ p < 2 ^ 64 → 0 ≤ leaf_entry p f < 2 ^ 64.
Proof.
  intros Hp. pose proof (wrap_range 16 f). unfold leaf_entry.
  repeat (apply lor_range; [lia| |]); try done. lia.
Qed.

Lemma leaf_entry_present p f : entry_present (leaf_entry p f) = true.
Proof.
  unfold entry_present, leaf_entry. apply negb_true_iff, Z.eqb_neq. intros H0.
  apply (f_equal (λ z, Z.testbit z 0)) in H0.
  rewrite Z.land_spec, !Z.lor_spec, Z.bits_0 in H0.
  change (Z.testbit VM_FLAG_PRESENT 0) with true in H0.
  by rewrite orb_true_r, orb_true_l in H0.
Qed.

Lemma wp_vmm_kmap k P s own free v p f :
  vmm_inv s own free → upper_paths v ⊆ P → enough k P s free → 0 ≤ p < 2 ^ 64 →
  wp (vmm_kmap v p f) (λ _ s', ∃ own' free', requested [(v, p, f)] s own free s' own' free') s.
Proof.
  intros (Hinv & Hroot & Hoff) HP Hlen Hp. unfold vmm_kmap, paging_map_page. apply wp_bind, wp_gets.
  apply wp_zoom. eapply wp_mono; [apply wp_leaf_write; [exact Hinv|exact Hroot| |]|].
  { pose proof (missing_upper (vm_paging s) (kernel_pml4 s) v P HP). unfold enough in Hlen. simpl. lia. }
  { by apply leaf_entry_range. }
  intros _ s' (own' & free' & HL). exists own', free'. simpl.
  destruct (lw_cpu _ _ _ _ _ _ _ _ _ HL) as [Ho Hc]. change (prj s) with (vm_paging s) in *. split.
  - split; [apply HL|]. split; [eapply lookup_weaken; [exact Hroot|apply HL]|].
    simpl. congruence.
  - apply HL.
  - destruct (lw_free _ _ _ _ _ _ _ _ _ HL) as (l & Hl & _ & M). exists l. split; [done|].
    intros Q HQ. apply M. unfold table_paths in HQ. simpl in HQ. set_solver + HQ.
  - auto.
  - intros w. cbn [after_requests vm_paging]. case_bool_decide as Hi.
    + pose proof (lw_hit _ _ _ _ _ _ _ _ _ HL) as Hh.
      fold (leaf_entry p f) in Hh. rewrite leaf_entry_present in Hh.
      unfold translate in *. by rewrite Hi, Hh.
    + apply HL; [done|]. naive_solver.
  - apply HL.
  - intros q Hq Hn. rewrite Hoff. by apply HL.
  - apply HL.
Qed.

Lemma loop_requests_S a n va pa f :
  loop_requests a (S n) va pa f = (va a, pa a, f) :: loop_requests (a + PAGE_SIZE) n va pa f.
Proof. unfold loop_requests. by rewrite frames_from_S. Qed.

Lemma length_loop_requests a n va pa f : length (loop_requests a n va pa f) = n.
Proof.
  revert a. induction n as [|n IH]; intros a; [done|]. rewrite loop_requests_S. simpl. by rewrite IH.
Qed.

Lemma page_count_S a stop :
  a < stop → page_count a stop = S (page_count (a + PAGE_SIZE) stop).
Proof. unfold page_count, PAGE_SIZE. intros. dlia. Qed.

Lemma page_count_0 a stop : stop ≤ a → page_count a stop = 0%nat.
Proof. unfold page_count, PAGE_SIZE. intros. dlia. Qed.

Lemma wp_kmap_loop k P fuel a stop va pa f s own free :
  vmm_inv s own free → fuel = page_count a stop →
  table_paths (loop_requests a fuel va pa f) ⊆ P → short P → enough k P s free →
  0 ≤ a → stop + PAGE_SIZE ≤ 2 ^ 64 → (∀ x, a ≤ x < stop → 0 ≤ pa x < 2 ^ 64) →
  wp (kmap_loop fuel a stop va pa f) (λ _ s', ∃ own' free',
    requested (loop_requests a fuel va pa f) s own free s' own' free') s.
Proof.
  revert a s own free. induction fuel as [|fuel IH]; intros a s own free Hinv Hf HP Hsh Hlen Ha Hs Hpa;
    cbn [kmap_loop]; destruct (Z.ltb_spec a stop) as [Hlt|Hge].
  - rewrite page_count_S in Hf by done. done.
  - apply wp_ret. exists own, free. by apply requested_nil.
  - apply wp_bind. eapply wp_mono; [apply (wp_vmm_kmap k P); [done| |done|apply Hpa; lia]|].
    { rewrite loop_requests_S in HP. unfold table_paths in HP. simpl in HP. set_solver + HP. }
    intros _ s1 (own1 & free1 & R1). unfold PAGE_SIZE in *.
    rewrite loop_requests_S in HP. change (?r :: ?l) with ([r] ++ l) in HP. rewrite table_paths_app in HP.
    apply list_subseteq_app_iff_l in HP as [HP1 HP2].
    pose proof (requested_enough _ _ _ _ _ _ _ _ _ R1 HP1 Hsh Hlen) as Hlen1.
    rewrite wrap_small by lia. rewrite page_count_S in Hf by done.
    eapply wp_mono; [apply (IH (a + 4096) s1 own1 free1)|].
    + apply R1.
    + by injection Hf.
    + done.
    + done.
    + done.
    + lia.
    + done.
    + intros x Hx. apply Hpa. lia.
    + intros _ s2 (own2 & free2 & R2). exists own2, free2. rewrite loop_requests_S.
      exact (requested_app _ _ _ _ _ _ _ _ _ _ _ R1 R2).
  - rewrite page_count_0 in Hf by done. done.
Qed.

(** Sections and regions whose loops do not run past the address space. *)
Definition section_ok (start stop : Z) : Prop := 0 ≤ start ∧ stop + PAGE_SIZE ≤ 2 ^ 64.
Definition region_ok (entry : PhysMemoryRegion) : Prop :=
  section_ok (region_start entry) (region_end entry).

Lemma wp_map_section k P start stop delta f s own free :
  vmm_inv s own free → section_ok start stop →
  table_paths (section_requests start stop delta f) ⊆ P → short P → enough k P s free →
  wp (map_section start stop delta f) (λ _ s', ∃ own' free',
    requested (section_requests start stop delta f) s own free s' own' free') s.
Proof.
  intros Hinv [H1 H2] HP Hsh Hlen. eapply wp_kmap_loop; try done. intros x Hx. by apply wrap_range.
Qed.

Lemma wp_map_regions k P entries s own free :
  vmm_inv s own free → Forall region_ok entries →
  table_paths (mjoin (region_requests (vm_hhdm_offset s) <$> entries)) ⊆ P → short P → enough k P s free →
  wp (map_regions entries) (λ _ s', ∃ own' free',
    requested (mjoin (region_requests (vm_hhdm_offset s) <$> entries)) s own free s' own' free') s.
Proof.
  revert s own free. induction entries as [|e es IH]; intros s own free Hinv Hok HP Hsh Hlen.
  { apply wp_ret. exists own, free. by apply requested_nil. }
  apply Forall_cons in Hok as [[He1 He2] Hok]. 
  change (mjoin (region_requests (vm_hhdm_offset s) <$> e :: es)) with
    (region_requests (vm_hhdm_offset s) e ++ mjoin (region_requests (vm_hhdm_offset s) <$> es)) in *.
  rewrite table_paths_app in HP. apply list_subseteq_app_iff_l in HP as [HP1 HP2].
  cbn [map_regions]. apply wp_bind, wp_gets. cbv zeta.
  apply wp_bind. eapply wp_mono; [apply (wp_kmap_loop k P); try done|].
  { unfold PAGE_SIZE in *. lia. }
  intros _ s1 (own1 & free1 & R1). change (requested (region_requests (vm_hhdm_offset s) e) s own free s1 own1 free1) in R1.
  pose proof (requested_enough _ _ _ _ _ _ _ _ _ R1 HP1 Hsh Hlen) as Hlen1.
  destruct (rq_same _ _ _ _ _ _ _ R1) as (_ & Ho & _). rewrite <-Ho in HP2.
  eapply wp_mono; [apply (IH s1 own1 free1); [apply R1|done|done|done|done]|].
  intros _ s2 (own2 & free2 & R2). rewrite Ho in R2. exists own2, free2.
  exact (requested_app _ _ _ _ _ _ _ _ _ _ _ R1 R2).
Qed.

(** ** Initialisation *)

(** A frame of zeros is the root of an empty address space. *)
Lemma root_inv m off head p free c t :
  free_frames (MkPmm m off head) free → frame_ok m off p → p ∉ free →
  (∀ x, p + off ≤ x < p + off + PAGE_SIZE → m x = Some 0) →
  let s := MkPaging (MkPmm m off head) off c t in
  pt_inv s {[p := (p, [])]} free ∧ is_root {[p := (p, [])]} p ∧ ∀ v, translate s p v = None.
Proof.
  intros Hf Hok Hpf Hz s.
  assert (∀ i, 0 ≤ i < 512 → ent m off p i = Some 0) as He.
  { intros i Hi. apply (load_zero _ _ 8); [|done]. intros x Hx. apply Hz. unfold PAGE_SIZE. lia. }
  split; [|split].
  - split; [done|]. split; [done|]. split.
    + intros q rp [<- <-]%lookup_singleton_Some. split; [done|]. split; [done|simpl; lia].
    + intros q r path i e [<- [= <- <-]]%lookup_singleton_Some _ Hi Hent Hpr. simpl in *.
      rewrite He in Hent by done. by injection Hent as <-.
  - apply lookup_singleton_eq.
  - intros v. unfold translate, indices. cbn [walk].
    change (p_mem (pg_pmm s)) with m. change (pg_hhdm_offset s) with off.
    rewrite He by apply pml_index_range. done.
Qed.

(** The frame [pmm_alloc] returns is one. *)
Lemma new_root m off head p free m' head' c t :
  free_frames (MkPmm m off head) (p :: free) → filled m m' (p + off) 0 PAGE_SIZE →
  same_dom m m' → free_frames (MkPmm m' off head') free →
  let s := MkPaging (MkPmm m' off head') off c t in
  pt_inv s {[p := (p, [])]} free ∧ is_root {[p := (p, [])]} p ∧ ∀ v, translate s p v = None.
Proof.
  intros (_ & Hnd & Hok & _) [Hz _] Hd Hf.
  apply Forall_cons in Hok as [Hok _]. apply NoDup_cons in Hnd as [Hpf _].
  apply root_inv; [done|by eapply frame_ok_dom|done|done].
Qed.

Definition image_ok (img : KernelImage) : Prop :=
  section_ok (TEXT_START img) (TEXT_END img) ∧ section_ok (RODATA_START img) (RODATA_END img) ∧
  section_ok (DATA_START img) (DATA_END img) ∧
  section_ok (LIMINE_REQ_START img) (LIMINE_REQ_END img).

(** A step of the chain of mapping loops. *)
Lemma requested_step {A} rs rs' s0 own0 free0 (c : M vmm A) s own free :
  requested rs s0 own0 free0 s own free →
  (vmm_inv s own free → wp c (λ _ s', ∃ own' free', requested rs' s own free s' own' free') s) →
  wp c (λ _ s', ∃ own' free', requested (rs ++ rs') s0 own0 free0 s' own' free') s.
Proof.
  intros R Hc. eapply wp_mono; [apply Hc, R|]. intros a s' (own' & free' & R').
  exists own', free'. by eapply requested_app.
Qed.

Lemma wp_map_kernel k P img memmap delta s own free :
  vmm_inv s own free → image_ok img → Forall region_ok memmap →
  table_paths (boot_requests img (vm_hhdm_offset s) memmap delta) ⊆ P → short P → enough k P s free →
  wp (map_kernel img memmap delta) (λ _ s', ∃ own' free',
    requested (boot_requests img (vm_hhdm_offset s) memmap delta) s own free s' own' free') s.
Proof.
  intros Hinv (I1 & I2 & I3 & I4) Hreg HP Hsh Hlen. unfold boot_requests, map_kernel in *.
  rewrite !table_paths_app, !list_subseteq_app_iff_l in HP. destruct HP as (P1 & P2 & P3 & P4 & P5).
  apply wp_bind. eapply wp_mono; [by apply (wp_map_section k P)|].
  intros _ s1 (o1 & f1 & R1). pose proof (requested_enough _ _ _ _ _ _ _ _ _ R1 P1 Hsh Hlen) as L1.
  eapply requested_step; [exact R1|]. intros V1.
  apply wp_bind. eapply wp_mono; [by apply (wp_map_section k P)|].
  intros _ s2 (o2 & f2 & R2). pose proof (requested_enough _ _ _ _ _ _ _ _ _ R2 P2 Hsh L1) as L2.
  eapply requested_step; [exact R2|]. intros V2.
  apply wp_bind. eapply wp_mono; [by apply (wp_map_section k P)|].
  intros _ s3 (o3 & f3 & R3). pose proof (requested_enough _ _ _ _ _ _ _ _ _ R3 P3 Hsh L2) as L3.
  eapply requested_step; [exact R3|]. intros V3.
  apply wp_bind. eapply wp_mono; [by apply (wp_map_section k P)|].
  intros _ s4 (o4 & f4 & R4). pose proof (requested_enough _ _ _ _ _ _ _ _ _ R4 P4 Hsh L3) as L4.
  eapply requested_step; [exact R4|]. intros V4.
  assert (vm_hhdm_offset s4 = vm_hhdm_offset s) as Ho.
  { destruct (rq_same _ _ _ _ _ _ _ R1) as (_ & ? & _), (rq_same _ _ _ _ _ _ _ R2) as (_ & ? & _),
      (rq_same _ _ _ _ _ _ _ R3) as (_ & ? & _), (rq_same _ _ _ _ _ _ _ R4) as (_ & ? & _). congruence. }
  rewrite <-Ho in *. by eapply wp_map_regions.
Qed.

(** ** The heap *)

(** Taking a frame that is not a table changes no entry of any table. *)
Lemma pt_pop m off head c t own q free m' head' :
  let s := MkPaging (MkPmm m off head) off c t in
  let s' := MkPaging (MkPmm m' off head') off c t in
  pt_inv s own (q :: free) → filled m m' (q + off) 0 PAGE_SIZE → same_dom m m' →
  free_frames (MkPmm m' off head') free →
  pt_inv s' own free ∧ own !! q = None ∧
  ∀ r, is_root own r → tables_kept s s' r ∧ ∀ v, translate s' r v = translate s r v.
Proof.
  intros s s' (Hff & _ & Hown & Hcl) [_ Hfill] Hd Hf. simpl in *.
  assert (frame_ok m off q ∧ q ∉ free) as [Hqok Hqf].
  { destruct Hff as (_ & Hnd & Hok & _). simpl in Hok. apply Forall_cons in Hok as [? _].
    by apply NoDup_cons in Hnd as [? _]. }
  assert (own !! q = None) as Hq.
  { apply eq_None_not_Some. intros [rp Hrp]. destruct (Hown _ _ Hrp) as (_ & Hn & _). set_solver + Hn. }
  assert (∀ p rp i, own !! p = Some rp → 0 ≤ i < 512 → ent m' off p i = ent m off p i) as Hent.
  { intros p rp i Hp Hi. apply load_ext. intros x Hx. apply Hfill.
    destruct (Hown _ _ Hp) as ((_ & Hpm & _) & _). destruct Hqok as (_ & Hqm & _).
    assert (p ≠ q) as Hpq by (intros ->; congruence).
    pose proof (frames_disjoint _ _ Hpm Hqm Hpq). unfold PAGE_SIZE in *. lia. }
  split; [|split; [done|]].
  - split; [done|]. split; [done|]. split; simpl.
    + intros p rp Hp. destruct (Hown _ _ Hp) as (? & Hn & ?).
      split; [by eapply frame_ok_dom|]. split; [set_solver + Hn|done].
    + intros p r path i e Hp Hl Hi He. erewrite Hent in He by done. eapply Hcl; done.
  - intros r Hr. split.
    { intros path [Hl Hj] Hn. apply eq_None_not_Some. intros [x Hx].
      assert (table_at m' off r path = Some x) as Hx'.
      { eapply (table_at_mono m m'); [exact Hcl|exact Hr|done|done| |exact Hx].
        intros p rp i e Hp _ Hi He _. by erewrite Hent. }
      change (table_at m' off r path = None) in Hn. congruence. }
    intros v. unfold translate. simpl pg_hhdm_offset. simpl pg_pmm. simpl p_mem.
    assert (∀ ix tbl path, own !! tbl = Some (r, path) → (length path + length ix = 4)%nat →
      Forall (λ j, 0 ≤ j < 512) ix → walk m' off tbl ix = walk m off tbl ix) as Hw.
    { induction ix as [|j ix IH]; intros tbl path Ht Hl Hj; [done|].
      apply Forall_cons in Hj as [Hj Hix]. cbn [walk]. erewrite Hent by done.
      destruct (ent m off tbl j) as [e|] eqn:He; [|done]. simpl.
      destruct (entry_present e) eqn:Hpr; [|done]. destruct ix as [|j' ix]; [done|].
      eapply (IH _ (path ++ [j])); [|rewrite length_app; simpl in *; lia|done].
      eapply Hcl; [done|simpl in *; lia|done..]. }
    eapply Hw; [exact Hr|done|apply indices_range].
Qed.
