(* ===== verification/VmmThms.v ===== *)
(** * The kernel's address space: theorems

    The translations [vmm_init] establishes, what the flag conversion of
    [paging_map_page] loses, and the heap that [kmalloc_init] maps: zeroed
    memory on distinct frames, in which the allocator's invariant holds. *)

From S2P Require Import Prelude Mem StringC Pmm Paging Kmalloc KmallocInv KmallocSpec KmallocThms Vmm.
Local Open Scope Z_scope.
Local Open Scope kernel_scope.

Definition heap_flags : Z := Z.lor VM_FLAG_WRITE VM_FLAG_NX.

Definition heap_page (i : nat) : Z := HEAP_START + Z.of_nat i * PAGE_SIZE.

(** The first pages of the heap are mapped to the frames [fs], which hold
    zeros and are neither free nor tables. *)
Definition heap_frames (s : vmm) (own : owners) (free fs : list Z) : Prop :=
  NoDup fs ∧ ∀ i f, fs !! i = Some f →
    frame_ok (pg_mem (vm_paging s)) (vm_hhdm_offset s) f ∧ own !! f = None ∧ (f ∉ free) ∧
    (∀ x, f + vm_hhdm_offset s ≤ x < f + vm_hhdm_offset s + PAGE_SIZE →
       pg_mem (vm_paging s) x = Some 0) ∧
    translate (vm_paging s) (kernel_pml4 s) (heap_page i) = Some (leaf_entry f heap_flags).

Lemma heap_page_canonical i : (i < 512)%nat → canonical (heap_page i).
Proof. intros Hi. right. unfold heap_page, HEAP_START, PAGE_SIZE. simpl. lia. Qed.

Lemma heap_page_indices i j :
  (i < 512)%nat → (j < 512)%nat → indices (heap_page i) = indices (heap_page j) → i = j.
Proof.
  intros Hi Hj He%indices_page; [|by apply heap_page_canonical..].
  unfold heap_page, HEAP_START, PAGE_SIZE in He. dlia.
Qed.

(** [s'] has more tables and fewer free frames than [s]: the frames that were
    neither tables nor free are as they were. *)
Record grows (s : vmm) (own : owners) (free : list Z)
    (s' : vmm) (own' : owners) (free' : list Z) : Prop := {
  gr_inv : vmm_inv s' own' free';
  gr_own : own ⊆ own';
  gr_free : ∃ l, free = l ++ free';
  gr_same : kernel_pml4 s' = kernel_pml4 s ∧ vm_hhdm_offset s' = vm_hhdm_offset s ∧
    cr3 (vm_paging s') = cr3 (vm_paging s);
  gr_dom : same_dom (pg_mem (vm_paging s)) (pg_mem (vm_paging s'));
  gr_mem : ∀ p, p mod PAGE_SIZE = 0 → own !! p = None → p ∉ free →
    same_page (pg_mem (vm_paging s)) (pg_mem (vm_paging s')) (vm_hhdm_offset s) p;
  gr_new : ∀ p rp, own' !! p = Some rp → own !! p = Some rp ∨ p ∈ free
}.

Lemma grows_refl s own free : vmm_inv s own free → grows s own free s own free.
Proof. intros H. split; auto; [by exists []|done|]. intros p _ _ _. apply agree_refl. Qed.

(** A frame that was neither a table nor free remains so. *)
Lemma grows_other s own free s' own' free' f :
  grows s own free s' own' free' → own !! f = None → f ∉ free → own' !! f = None ∧ f ∉ free'.
Proof.
  intros G Hf Hff. destruct (gr_free _ _ _ _ _ _ G) as [l ->]. split; [|set_solver + Hff].
  apply eq_None_not_Some. intros [rp Hrp]. destruct (gr_new _ _ _ _ _ _ G _ _ Hrp); congruence.
Qed.

Lemma grows_trans s1 o1 f1 s2 o2 f2 s3 o3 f3 :
  grows s1 o1 f1 s2 o2 f2 → grows s2 o2 f2 s3 o3 f3 → grows s1 o1 f1 s3 o3 f3.
Proof.
  intros A B. destruct (gr_same _ _ _ _ _ _ A) as (A1 & A2 & A3).
  destruct (gr_same _ _ _ _ _ _ B) as (B1 & B2 & B3). split.
  - apply B.
  - etrans; [apply A|apply B].
  - destruct (gr_free _ _ _ _ _ _ A) as [l1 ->], (gr_free _ _ _ _ _ _ B) as [l2 ->].
    exists (l1 ++ l2). by rewrite (assoc_L (++)).
  - split_and!; congruence.
  - etrans; [apply A|apply B].
  - intros p Hp Hn Hf. destruct (grows_other _ _ _ _ _ _ p A Hn Hf) as [Hn2 Hf2].
    eapply agree_trans; [by apply A|]. rewrite <-A2. by apply B.
  - intros p rp Hp. destruct (gr_new _ _ _ _ _ _ B _ _ Hp) as [H|H]; [by apply A|].
    destruct (gr_free _ _ _ _ _ _ A) as [l ->]. right. set_solver + H.
Qed.

Lemma requested_grows rs s own free s' own' free' :
  requested rs s own free s' own' free' → grows s own free s' own' free'.
Proof.
  intros R. split; try apply R.
  - destruct (rq_free _ _ _ _ _ _ _ R) as (l & -> & _). by exists l.
  - intros p Hp Hn Hf. apply R; [done|]. apply eq_None_not_Some. intros [rp Hrp].
    destruct (rq_new _ _ _ _ _ _ _ R _ _ Hrp); congruence.
Qed.

(** [pmm_alloc] from the kernel's state. *)
Lemma wp_alloc_frame s own q free (Q : Z → vmm → Prop) :
  vmm_inv s own (q :: free) →
  (∀ s', grows s own (q :: free) s' own free → own !! q = None → (q ∉ free) →
     frame_ok (pg_mem (vm_paging s')) (vm_hhdm_offset s) q →
     (∀ x, q + vm_hhdm_offset s ≤ x < q + vm_hhdm_offset s + PAGE_SIZE →
        pg_mem (vm_paging s') x = Some 0) →
     tables_kept (vm_paging s) (vm_paging s') (kernel_pml4 s) →
     (∀ v, translate (vm_paging s') (kernel_pml4 s) v = translate (vm_paging s) (kernel_pml4 s) v) →
     Q q s') →
  wp (zoom pmm_alloc) Q s.
Proof.
  destruct s as [[[m off head] off' c t] voff kp]. intros (Hinv & Hroot & Hvo) HQ. simpl in *.
  pose proof Hinv as (Hff & Hoff & _). simpl in *. subst off' voff.
  apply wp_zoom. eapply (wp_pmm_alloc _ q free); [done|]. simpl. intros m' head' Hf Hd Hff'.
  destruct (pt_pop _ _ _ _ _ _ _ _ _ _ Hinv Hf Hd Hff') as (Hinv' & Hq & Hr).
  destruct Hff as (_ & Hnd & Hok & _). simpl in Hok.
  apply Forall_cons in Hok as [Hok _]. apply NoDup_cons in Hnd as [Hqf _].
  destruct (Hr kp Hroot) as [Hk Htr]. pose proof Hok as (_ & Hqm & _).
  apply HQ; simpl; try done; [|by eapply frame_ok_dom|apply Hf].
  split; simpl; try done; [by exists [q]| |auto].
  intros p Hp _ Hpf x Hx. apply Hf. assert (p ≠ q) as Hpq by set_solver + Hpf.
  pose proof (frames_disjoint _ _ Hp Hqm Hpq). lia.
Qed.

(** The pages [V] aside, [s'] translates as [s]. *)
Definition same_walks_but (V : list Z) (s s' : vmm) : Prop :=
  ∀ v, Forall (λ w, indices v ≠ indices w) V →
    translate (vm_paging s') (kernel_pml4 s') v = translate (vm_paging s) (kernel_pml4 s) v.

Lemma heap_map_step k P s own q free fs :
  vmm_inv s own (q :: free) → heap_frames s own (q :: free) fs →
  upper_paths (heap_page (length fs)) ⊆ P → short P → enough (S k) P s (q :: free) →
  (length fs < 512)%nat →
  wp (phys ← zoom pmm_alloc; vmm_kmap (heap_page (length fs)) phys heap_flags)
    (λ _ s', ∃ own' free', grows s own (q :: free) s' own' free' ∧ enough k P s' free' ∧
       heap_frames s' own' free' (fs ++ [q]) ∧ same_walks_but [heap_page (length fs)] s s') s.
Proof.
  intros Hinv [Hnd Hfs] HP Hsh Hlen Hl. apply wp_bind. apply (wp_alloc_frame s own q free); [done|].
  intros s1 G1 Hqo Hqf Hqok Hz1 Hk1 Htr1.
  destruct (gr_same _ _ _ _ _ _ G1) as (Kp1 & Ho1 & Hc1).
  assert (enough k P s1 free) as Hen1.
  { unfold enough in *. pose proof (missing_le _ _ _ _ Hk1 Hsh). rewrite Kp1. simpl in Hlen. lia. }
  eapply wp_mono; [apply (wp_vmm_kmap k P); [apply G1|done|done|]|].
  { destruct Hqok as (? & _). lia. }
  intros _ s2 (own2 & free2 & R). exists own2, free2. pose proof (requested_grows _ _ _ _ _ _ _ R) as G2.
  pose proof (grows_trans _ _ _ _ _ _ _ _ _ G1 G2) as G.
  destruct (gr_same _ _ _ _ _ _ G) as (Kp & Ho & Hc).
  assert (∀ v, translate (vm_paging s2) (kernel_pml4 s2) v =
    if bool_decide (indices v = indices (heap_page (length fs))) then Some (leaf_entry q heap_flags)
    else translate (vm_paging s) (kernel_pml4 s) v) as Htr.
  { intros v. rewrite Kp, <-Kp1, (rq_maps _ _ _ _ _ _ _ R). cbn [after_requests]. by rewrite Kp1, Htr1. }
  split_and!; [done| | |].
  { eapply requested_enough; [exact R|exact HP|done|done]. }
  2: { intros v Hv. apply Forall_cons in Hv as [Hv _]. by rewrite Htr, bool_decide_eq_false_2. }
  assert (q ∉ fs) as Hqfs.
  { intros [i Hi]%list_elem_of_lookup. destruct (Hfs _ _ Hi) as (_ & _ & Hn & _). set_solver + Hn. }
  split; [apply NoDup_app; split; [done|split; [set_solver + Hqfs|apply NoDup_singleton]]|].
  rewrite Ho. intros i f Hi. apply lookup_app_Some in Hi as [Hi|[Hge Hi]].
  - destruct (Hfs _ _ Hi) as (Hok & Hf & Hff & Hz & Ht). apply lookup_lt_Some in Hi as Hil.
    destruct (grows_other _ _ _ _ _ _ f G Hf Hff) as [Hf2 Hff2]. pose proof Hok as (_ & Hfm & _).
    split_and!; [eapply frame_ok_dom; [apply G|done]|done|done| |].
    + intros x Hx. rewrite (gr_mem _ _ _ _ _ _ G f Hfm Hf Hff) by done. by apply Hz.
    + rewrite Htr, bool_decide_eq_false_2; [done|]. intros He%heap_page_indices; lia.
  - apply list_lookup_singleton_Some in Hi as [Hi0 Eq]. subst f. assert (i = length fs) as -> by lia.
    destruct (grows_other _ _ _ _ _ _ q G2 Hqo Hqf) as [Hq2 Hqf2]. pose proof Hqok as (_ & Hqm & _).
    split_and!; [eapply frame_ok_dom; [apply G2|done]|done|done| |].
    + intros x Hx. rewrite (gr_mem _ _ _ _ _ _ G2 q Hqm Hqo Hqf) by (by rewrite Ho1). by apply Hz1.
    + by rewrite Htr, bool_decide_eq_true_2.
Qed.

(** The 512 pages of the heap lie under one table of the lowest level. *)
Lemma heap_page_paths i : (i < 512)%nat → upper_paths (heap_page i) = upper_paths HEAP_START.
Proof.
  intros Hi. assert (i ∈ seq 0 512) as Hin by (apply elem_of_seq; lia).
  assert (Forall (λ j, upper_paths (heap_page j) = upper_paths HEAP_START) (seq 0 512)) as Ha
    by (apply (bool_decide_unpack _); vm_compute; exact I).
  rewrite Forall_forall in Ha. by apply Ha.
Qed.

Definition heap_pages : list Z := heap_page <$> seq 0 512.

Lemma wp_map_heap k P n s own free fs :
  (length fs + n = 512)%nat → vmm_inv s own free → heap_frames s own free fs →
  upper_paths HEAP_START ⊆ P → short P → enough (n + k) P s free →
  wp (kmalloc_map_heap n (heap_page (length fs)))
    (λ _ s', ∃ own' free' fs', grows s own free s' own' free' ∧
       enough k P s' free' ∧ heap_frames s' own' free' fs' ∧
       length fs' = 512%nat ∧ same_walks_but heap_pages s s' ∧ (∀ f, f ∈ fs' → f ∈ fs ∨ f ∈ free)) s.
Proof.
  revert s own free fs. induction n as [|n IH]; intros s own free fs Hn Hinv Hfs HP Hsh Hlen;
    cbn [kmalloc_map_heap].
  { rewrite (proj2 (Z.ltb_ge _ _)) by (unfold heap_page, HEAP_END, HEAP_SIZE, PAGE_SIZE; lia).
    apply wp_ret. exists own, free, fs. split_and!; try done; [by apply grows_refl|lia|auto]. }
  rewrite (proj2 (Z.ltb_lt _ _)) by (unfold heap_page, HEAP_END, HEAP_SIZE, PAGE_SIZE; lia).
  destruct free as [|q free]; [unfold enough in Hlen; simpl in Hlen; lia|].
  apply wp_bind_assoc. apply wp_bind.
  eapply wp_mono; [apply (heap_map_step (n + k) P s own q free fs);
    [done|done|rewrite heap_page_paths by lia; done|done|done|lia]|].
  intros _ s1 (own1 & free1 & G1 & Hen1 & Hfs1 & Hw1).
  assert (heap_page (length fs) +64 PAGE_SIZE = heap_page (length (fs ++ [q]))) as ->.
  { rewrite length_app. unfold heap_page, HEAP_START, PAGE_SIZE. simpl length.
    rewrite wrap_small by (simpl; lia). lia. }
  eapply wp_mono; [apply (IH s1 own1 free1); [rewrite length_app; simpl; lia|apply G1|done..]|].
  intros _ s2 (own2 & free2 & fs2 & G2 & Hen2 & Hfs2 & Hl2 & Hw2 & Hin2). exists own2, free2, fs2.
  split_and!; try done; [by eapply grows_trans| |].
  2: { destruct (gr_free _ _ _ _ _ _ G1) as [l E]. intros f Hf.
    destruct (Hin2 f Hf) as [[H|H%list_elem_of_singleton]%elem_of_app|H]; [by left|subst f; right; by apply list_elem_of_here|].
    right. rewrite E. apply elem_of_app. by right. }
  intros v Hv. rewrite Hw2, Hw1; try done.
  apply Forall_singleton. rewrite Forall_forall in Hv. apply Hv, list_elem_of_fmap.
  exists (length fs). split; [done|]. apply elem_of_seq. lia.
Qed.

Lemma leaf_entry_frame f :
  0 ≤ f < 2 ^ 52 → f mod PAGE_SIZE = 0 → Z.land (leaf_entry f heap_flags) PHYS_ADDR_MASK = f.
Proof.
  intros Hf Ha. unfold leaf_entry. rewrite <-Z.lor_assoc.
  change (Z.lor VM_FLAG_PRESENT (u16 heap_flags)) with 3.
  rewrite (lor_add_disjoint 12 f 3); [|lia|exact Ha|lia].
  change PHYS_ADDR_MASK with (2 ^ 52 - 2 ^ 12). unfold PAGE_SIZE in *.
  rewrite (land_high_mask 52 12) by (try change (2 ^ 52) with 4503599627370496 in *; dlia).
  change (2 ^ 12) with 4096. dlia.
Qed.

(** A heap address: its page, and the translation of its page. *)
Lemma heap_addr x :
  HEAP_START ≤ x < HEAP_END →
  ∃ i, (i < 512)%nat ∧ indices x = indices (heap_page i) ∧
    x = heap_page i + x mod PAGE_SIZE ∧ i = Z.to_nat ((x - HEAP_START) `div` PAGE_SIZE).
Proof.
  unfold HEAP_END, HEAP_SIZE. intros Hx. exists (Z.to_nat ((x - HEAP_START) `div` PAGE_SIZE)).
  assert (x = heap_page (Z.to_nat ((x - HEAP_START) `div` PAGE_SIZE)) + x mod PAGE_SIZE) as E.
  { unfold heap_page, HEAP_START, PAGE_SIZE in *. dlia. }
  split_and!; [unfold PAGE_SIZE; dlia| |done|done].
  rewrite <-(indices_align x). f_equal. rewrite Z.shiftr_div_pow2 by lia.
  change (2 ^ 12) with 4096. unfold heap_page, HEAP_START, PAGE_SIZE in *. dlia.
Qed.

(** The heap seen through the tables: zeros. *)
Lemma heap_frames_virt s own free fs x :
  vmm_inv s own free → heap_frames s own free fs → length fs = 512%nat →
  cr3 (vm_paging s) = kernel_pml4 s → HEAP_START ≤ x < HEAP_END →
  virt_mem (vm_paging s) x = Some 0.
Proof.
  intros (_ & _ & Ho) [_ Hfs] Hl Hc Hx. destruct (heap_addr x Hx) as (i & Hi & Hix & Ex & _).
  destruct (lookup_lt_is_Some_2 fs i) as [f Hf]; [lia|].
  destruct (Hfs _ _ Hf) as ((Hf1 & Hf2 & _) & _ & _ & Hz & Ht).
  unfold virt_mem. rewrite Hc.
  assert (translate (vm_paging s) (kernel_pml4 s) x = Some (leaf_entry f heap_flags)) as ->
    by (unfold translate in *; by rewrite Hix).
  rewrite leaf_entry_frame by done. rewrite <-Ho. apply Hz.
  pose proof (Z.mod_pos_bound x PAGE_SIZE). unfold PAGE_SIZE in *. lia.
Qed.

(** ** Initialisation *)

(** The address space after [vmm_init]: its tables took frames of the free
    list [free], and no other frame was written. *)
Record vmm_started (rs : list request) (offset : Z) (m : mem) (free : list Z)
    (s' : vmm) (own' : owners) (free' : list Z) : Prop := {
  vs_inv : vmm_inv s' own' free';
  vs_cpu : cr3 (vm_paging s') = kernel_pml4 s' ∧ tlb (vm_paging s') = ∅ ∧ vm_hhdm_offset s' = offset;
  vs_free : ∃ l, free = l ++ free';
  vs_own : ∀ p rp, own' !! p = Some rp → p ∈ free;
  vs_dom : same_dom m (pg_mem (vm_paging s'));
  vs_mem : ∀ p, p mod PAGE_SIZE = 0 → p ∉ free → same_page m (pg_mem (vm_paging s')) offset p;
  vs_maps : ∀ v, translate (vm_paging s') (kernel_pml4 s') v = after_requests rs (λ _, None) v
}.

Lemma wp_vmm_init k P img offset memmap ka s free :
  let rs := boot_requests img offset memmap (virt ka -64 phys ka) in
  free_frames (pg_pmm (vm_paging s)) free → p_hhdm_offset (pg_pmm (vm_paging s)) = offset →
  image_ok img → Forall region_ok memmap → table_paths rs ⊆ P → short P →
  (1 + (k + length P) ≤ length free)%nat →
  wp (vmm_init img offset memmap ka) (λ _ s', ∃ own' free',
    vmm_started rs offset (pg_mem (vm_paging s)) free s' own' free' ∧ enough k P s' free') s.
Proof.
  destruct s as [[[m off head] off' c t] voff kp]. intros rs Hff Ho Himg Hreg HP Hsh Hlen.
  simpl in *. subst off. destruct free as [|p free]; [simpl in Hlen; lia|].
  unfold vmm_init. apply wp_bind, wp_modify. simpl. apply wp_bind, wp_zoom, wp_modify. simpl.
  apply wp_bind, wp_zoom. simpl. eapply (wp_pmm_alloc _ p free); [done|]. simpl.
  intros m' head' Hfill Hd Hff'.
  destruct (new_root _ _ _ _ _ _ _ c t Hff Hfill Hd Hff') as (Hinv & Hroot & Hnone).
  apply wp_bind, wp_modify. simpl. apply wp_bind.
  eapply wp_mono; [apply (wp_map_kernel k P _ _ _ _ {[p := (p, [])]} free); [|done|done|done|done|]|].
  - split; [exact Hinv|]. split; [exact Hroot|done].
  - unfold enough. pose proof (missing_length (MkPaging (MkPmm m' offset head') offset c t) p P). simpl in *. lia.
  - intros _ s' (own' & free' & R). simpl in R. apply wp_bind, wp_gets. apply wp_zoom, wp_modify.
    pose proof (requested_enough k _ _ _ _ _ _ _ _ R HP Hsh) as Hen.
    pose proof (requested_grows _ _ _ _ _ _ _ R) as G.
    destruct (rq_same _ _ _ _ _ _ _ R) as (Hk & Hv & Hc). simpl in *. exists own', free'. split; [split|].
    + destruct (rq_inv _ _ _ _ _ _ _ R) as (H1 & H2 & H3). by split.
    + done.
    + destruct (gr_free _ _ _ _ _ _ G) as [l ->]. by exists (p :: l).
    + intros q rp Hq. destruct (gr_new _ _ _ _ _ _ G _ _ Hq) as [[<- _]%lookup_singleton_Some|]; set_solver.
    + etrans; [exact Hd|]. apply G.
    + intros q Hq Hqf. apply not_elem_of_cons in Hqf as [Hqp Hqf]. eapply agree_trans; [|apply G; [done| |done]].
      * intros x Hx. apply Hfill. destruct Hff as (_ & _ & Hok & _).
        apply Forall_cons in Hok as [(_ & Hpm & _) _]. pose proof (frames_disjoint _ _ Hq Hpm Hqp). simpl in *. lia.
      * by apply lookup_singleton_ne.
    + intros v. unfold translate. simpl. pose proof (rq_maps _ _ _ _ _ _ _ R v) as Hm.
      simpl in Hm. rewrite <-Hk in Hm at 1. unfold translate in Hm at 1. simpl in Hm. rewrite Hm.
      apply after_requests_ext, Hnone.
    + apply Hen. unfold enough. simpl.
      pose proof (missing_length (MkPaging (MkPmm m' offset head') offset c t) p P). lia.
Qed.

(** [kmalloc_init]: the heap's pages are mapped to frames of zeros. *)
Lemma wp_kmalloc_init k P s own free :
  vmm_inv s own free → cr3 (vm_paging s) = kernel_pml4 s →
  upper_paths HEAP_START ⊆ P → short P → enough (512 + k) P s free →
  wp kmalloc_init (λ h s', heap_inv heap_empty h ∧
    ∃ own' free' fs, grows s own free s' own' free' ∧ enough k P s' free' ∧
      heap_frames s' own' free' fs ∧ length fs = 512%nat ∧ same_walks_but heap_pages s s' ∧ fs ⊆ free) s.
Proof.
  intros Hinv Hc HP Hsh Hlen. unfold kmalloc_init. apply wp_bind.
  change (page_count HEAP_START HEAP_END) with 512%nat.
  change HEAP_START with (heap_page (length (@nil Z))) at 1.
  eapply wp_mono; [apply (wp_map_heap k P 512 s own free []); [done|done| |done..]|].
  { split; [constructor|]. intros i f Hi. by rewrite lookup_nil in Hi. }
  intros _ s' (own' & free' & fs & G & Hen & Hfs & Hl & Hw & Hin).
  destruct (gr_same _ _ _ _ _ _ G) as (Hk' & _ & Hc').
  apply wp_bind, wp_gets. unfold wp, run_on.
  assert (heap_mapped (virt_mem (vm_paging s'))) as Hm.
  { intros x Hx. exists 0. eapply heap_frames_virt; [apply G|done|done|congruence|done]. }
  pose proof (heap_inv_init _ Hm) as Hh. unfold wp in Hh.
  destruct (kmalloc_init_freelist (Heap (virt_mem (vm_paging s')) NULL)) as [[u h]| | |]; [|done..].
  split; [done|]. exists own', free', fs. split_and!; try done.
  intros f Hf. destruct (Hin f Hf) as [[]%not_elem_of_nil|]; done.
Qed.

(** ** Claims *)

(** With a free frame for the root and one for every table on the way to
    a page it maps, [vmm_init] leaves the CPU on the kernel's
    tables, with an empty TLB, and every address translates as the last
    request of the boot sequence for its page says: the sections of the
    kernel image at their load address and every region of the memory map in
    the direct map; no other address has a translation.  The tables are
    frames of the free list and no other frame is written. *)
Theorem vmm_init_maps img offset memmap ka s free :
  let rs := boot_requests img offset memmap (virt ka -64 phys ka) in
  free_frames (pg_pmm (vm_paging s)) free → p_hhdm_offset (pg_pmm (vm_paging s)) = offset →
  image_ok img → Forall region_ok memmap →
  (1 + length (remove_dups (table_paths rs)) ≤ length free)%nat →
  wp (vmm_init img offset memmap ka) (λ _ s', ∃ own' free',
    vmm_started rs offset (pg_mem (vm_paging s)) free s' own' free') s.
Proof.
  intros rs Hff Ho Himg Hreg Hlen.
  eapply wp_mono; [apply (wp_vmm_init 0 (remove_dups (table_paths rs))); try done|].
  - intros path. by rewrite elem_of_remove_dups.
  - apply Forall_forall. intros path. rewrite elem_of_remove_dups.
    pose proof (table_paths_short rs) as H. rewrite Forall_forall in H. apply H.
  - intros _ s' (own' & free' & H & _). by exists own', free'.
Qed.

(** Whatever flags [vmm_kmap] is given, the entry it writes has bit 63
    clear: the conversion of the flags to 16 bits drops [VM_FLAG_NX], so no
    mapping is ever non-executable. *)
Theorem vmm_kmap_drops_nx s own free v p f :
  vmm_inv s own free → enough 0 (upper_paths v) s free → 0 ≤ p < 2 ^ 52 →
  wp (vmm_kmap v p f) (λ _ s', ∃ e,
    translate (vm_paging s') (kernel_pml4 s') v = Some e ∧ Z.testbit e 63 = false) s.
Proof.
  intros Hinv Hlen Hp. eapply wp_mono; [eapply wp_vmm_kmap; [done|done|done|lia]|].
  intros _ s' (own' & free' & R). exists (leaf_entry p f).
  destruct (rq_same _ _ _ _ _ _ _ R) as (-> & _). rewrite (rq_maps _ _ _ _ _ _ _ R).
  cbn [after_requests]. rewrite bool_decide_eq_true_2 by done. split; [done|].
  unfold leaf_entry. rewrite !Z.lor_spec.
  rewrite (testbit_small 52 p 63), (testbit_small 16 (u16 f) 63) by (try apply wrap_range; lia).
  done.
Qed.

(** On the kernel's tables, with frames for the 512 pages of the heap
    and for the tables that are missing on the way to them, [kmalloc_init]
    maps the heap to 512 distinct frames that are neither tables nor free,
    changes no other translation and no other frame in use, and returns
    an allocator state that satisfies the heap invariant with the whole heap
    as one free chunk: the mapped pages are the memory the allocator assumes. *)
Theorem kmalloc_init_heap s own free :
  vmm_inv s own free → cr3 (vm_paging s) = kernel_pml4 s →
  enough 512 (upper_paths HEAP_START) s free →
  wp kmalloc_init (λ h s', heap_inv heap_empty h ∧
    ∃ own' free' fs, grows s own free s' own' free' ∧ heap_frames s' own' free' fs ∧
      same_walks_but heap_pages s s' ∧
      ∀ x, HEAP_START ≤ x < HEAP_END → ∃ f,
        fs !! Z.to_nat ((x - HEAP_START) `div` PAGE_SIZE) = Some f ∧
        translate (vm_paging s') (cr3 (vm_paging s')) x = Some (leaf_entry f heap_flags)) s.
Proof.
  intros Hinv Hc Hlen. eapply wp_mono; [by apply (wp_kmalloc_init 0 (upper_paths HEAP_START)); [..|apply upper_paths_short|]|].
  intros h s' (Hh & own' & free' & fs & G & _ & Hfs & Hl & Hw & _). split; [done|].
  exists own', free', fs. split_and!; try done.
  intros x Hx. destruct (heap_addr x Hx) as (i & Hi & Hix & _ & ->).
  destruct (lookup_lt_is_Some_2 fs (Z.to_nat ((x - HEAP_START) `div` PAGE_SIZE))) as [f Hf]; [lia|].
  exists f. split; [done|]. destruct Hfs as [_ Hfs]. destruct (Hfs _ _ Hf) as (_ & _ & _ & _ & Ht).
  destruct (gr_same _ _ _ _ _ _ G) as (Hk' & _ & ->). rewrite Hc, <-Hk'. unfold translate in *. by rewrite Hix.
Qed.

(** ** Witnesses *)

Definition vmm_demo : vmm := MkVmm paging_demo 0x10000 0x1000.

Lemma vmm_demo_inv : vmm_inv vmm_demo paging_demo_own [0x5000; 0x6000; 0x7000].
Proof. split; [exact paging_demo_inv|]. split; reflexivity. Qed.

Lemma vmm_kmap_drops_nx_witness :
  wp (vmm_kmap 0xffff810000001000 0x5000 (Z.lor VM_FLAG_WRITE VM_FLAG_NX)) (λ _ s', ∃ e,
    translate (vm_paging s') (kernel_pml4 s') 0xffff810000001000 = Some e ∧
    Z.testbit e 63 = false) vmm_demo.
Proof.
  refine (vmm_kmap_drops_nx vmm_demo paging_demo_own [0x5000; 0x6000; 0x7000] _ _ _
    vmm_demo_inv _ _).
  - unfold enough. pose proof (missing_length (vm_paging vmm_demo) (kernel_pml4 vmm_demo)
      (upper_paths 0xffff810000001000)) as H. simpl length in *. exact H.
  - lia.
Defined.

(** Memory given by its aligned words. *)
Definition words_mem (w : Z → Z) (lo hi : Z) : mem := λ x,
  if (lo <=? x) && (x <? hi) then Some ((w (x - x mod 8) `div` 256 ^ (x mod 8)) mod 256) else None.

Lemma words_mem_load w lo hi a :
  a mod 8 = 0 → lo ≤ a → a + 8 ≤ hi → 0 ≤ w a < 2 ^ 64 → load 8 (words_mem w lo hi) a = Some (w a).
Proof.
  intros Ha Hlo Hhi Hw.
  assert (∀ n k, (k + n ≤ 8)%nat → load n (words_mem w lo hi) (a + Z.of_nat k) =
    Some ((w a `div` 256 ^ Z.of_nat k) mod 256 ^ Z.of_nat n)) as Hl.
  { induction n as [|n IH]; intros k Hk; [unfold load; simpl; by rewrite Z.mod_1_r|].
    rewrite load_S. replace (a + Z.of_nat k + 1) with (a + Z.of_nat (S k)) by lia.
    rewrite IH by lia. unfold load8, words_mem.
    rewrite (proj2 (Z.leb_le _ _)), (proj2 (Z.ltb_lt _ _)) by lia. simpl andb. cbn iota.
    assert ((a + Z.of_nat k) mod 8 = Z.of_nat k) as -> by dlia.
    replace (a + Z.of_nat k - Z.of_nat k) with a by lia. simpl. f_equal.
    rewrite Z.mod_mod by lia. rewrite !Nat2Z.inj_succ, !Z.pow_succ_r by lia.
    rewrite (Z.mul_comm 256 (256 ^ Z.of_nat k)), <-Z.div_div
      by (try apply Z.pow_nonzero; try apply Z.pow_pos_nonneg; lia).
    rewrite Z.rem_mul_r by (try apply Z.pow_pos_nonneg; lia). done. }
  specialize (Hl 8%nat 0%nat ltac:(lia)). rewrite Z.add_0_r, Z.div_1_r in Hl.
  rewrite Hl. f_equal. apply Z.mod_small. done.
Qed.

(** [N] free frames from 0x1000 and one more frame of zeros, in a direct map
    at 2^28. *)
Definition demo_off : Z := 2 ^ 28.
Definition demo_words (N a : Z) : Z :=
  let p := (a - demo_off) - (a - demo_off) mod PAGE_SIZE in
  if N * PAGE_SIZE <? p then 0
  else if a =? p + demo_off then p
  else if a =? p + demo_off + 8 then (if p =? N * PAGE_SIZE then 0 else p + PAGE_SIZE + demo_off)
  else 0.
Definition demo_mem (N : Z) : mem :=
  words_mem (demo_words N) demo_off (demo_off + (N + 2) * PAGE_SIZE).

Lemma demo_frame_ok N p :
  0 ≤ N < 2 ^ 20 → p mod PAGE_SIZE = 0 → 0 ≤ p ≤ (N + 1) * PAGE_SIZE →
  frame_ok (demo_mem N) demo_off p.
Proof.
  intros HN Hm Hp. unfold demo_off, PAGE_SIZE in *. split; [lia|]. split; [done|].
  split; [lia|]. split; [unfold PAGE_SIZE; lia|]. intros x Hx. unfold PAGE_SIZE in *.
  unfold demo_mem, words_mem, demo_off, PAGE_SIZE.
  rewrite (proj2 (Z.leb_le _ _)), (proj2 (Z.ltb_lt _ _)) by lia. simpl. eauto.
Qed.

Lemma demo_page_base i : ((i * PAGE_SIZE) mod PAGE_SIZE = 0) ∧ ((i * PAGE_SIZE + 8) mod PAGE_SIZE = 8).
Proof. unfold PAGE_SIZE. dlia. Qed.

Lemma demo_words_spec N i :
  0 ≤ i ≤ N → let p := i * PAGE_SIZE in
  demo_words N (p + demo_off) = p ∧
  demo_words N (p + demo_off + 8) = if p =? N * PAGE_SIZE then 0 else p + PAGE_SIZE + demo_off.
Proof.
  intros Hi p. unfold demo_words. destruct (demo_page_base i) as [H0 H8]. fold p in H0, H8.
  replace (p + demo_off - demo_off) with p by lia.
  replace (p + demo_off + 8 - demo_off) with (p + 8) by lia. rewrite H0, H8.
  replace (p + 8 - 8) with p by lia. rewrite Z.sub_0_r.
  rewrite (proj2 (Z.ltb_ge _ _)) by (unfold p, PAGE_SIZE; lia). rewrite !Z.eqb_refl.
  rewrite (proj2 (Z.eqb_neq (p + demo_off + 8) (p + demo_off))) by lia. done.
Qed.

Lemma demo_frame_list N k i :
  0 ≤ N < 2 ^ 20 → 1 ≤ i → i + Z.of_nat k = N + 1 → (0 < k)%nat →
  frame_list (demo_mem N) demo_off (i * PAGE_SIZE + demo_off) (frames_from (i * PAGE_SIZE) (Z.of_nat k)).
Proof.
  revert i. induction k as [|k IH]; intros i HN Hi Hk Hpos; [lia|].
  rewrite frames_from_S. cbn [frame_list]. split; [done|].
  destruct (demo_words_spec N i) as [W0 W8]; [lia|].
  assert (load 8 (demo_mem N) (i * PAGE_SIZE + demo_off) = Some (i * PAGE_SIZE)) as ->.
  { unfold demo_mem. rewrite words_mem_load; rewrite ?W0; unfold demo_off, PAGE_SIZE in *; try dlia.
    done. }
  split; [done|].
  assert (load 8 (demo_mem N) (i * PAGE_SIZE + demo_off + off_page_next) =
    Some (if i * PAGE_SIZE =? N * PAGE_SIZE then 0 else i * PAGE_SIZE + PAGE_SIZE + demo_off)) as ->.
  { unfold demo_mem, off_page_next. rewrite words_mem_load; rewrite ?W8; [done|..];
      try (unfold demo_off, PAGE_SIZE in *; dlia).
    destruct (i * PAGE_SIZE =? N * PAGE_SIZE); unfold demo_off, PAGE_SIZE in *; lia. }
  eexists. split; [done|]. destruct (Z.eqb_spec (i * PAGE_SIZE) (N * PAGE_SIZE)) as [E|E].
  - destruct k; [done|]. unfold PAGE_SIZE in *. lia.
  - replace (i * PAGE_SIZE + PAGE_SIZE) with ((i + 1) * PAGE_SIZE) by lia.
    apply IH; try lia. unfold PAGE_SIZE in *. lia.
Qed.

Lemma demo_free_frames N :
  0 < N < 2 ^ 20 →
  free_frames (MkPmm (demo_mem N) demo_off (PAGE_SIZE + demo_off)) (frames_from PAGE_SIZE N).
Proof.
  intros HN. split; [|split; [|split]]; simpl.
  - pose proof (demo_frame_list N (Z.to_nat N) 1) as H. rewrite Z.mul_1_l, Z2Nat.id in H by lia.
    apply H; lia.
  - unfold frames_from. apply NoDup_fmap; [|apply NoDup_seqZ]. intros x y. unfold PAGE_SIZE. lia.
  - apply Forall_forall. intros p (i & -> & Hi)%elem_of_frames_from.
    apply demo_frame_ok; unfold PAGE_SIZE in *; dlia.
  - unfold demo_off. lia.
Qed.

Definition demo_image : KernelImage :=
  MkImage 0xffffffff80000000 0xffffffff80001000 0 0 0 0 0 0.

Lemma vmm_init_maps_witness :
  wp (vmm_init demo_image demo_off [] (MkKernelAddress 0xffffffff80000000 0x200000))
    (λ _ s', cr3 (vm_paging s') = kernel_pml4 s' ∧
       translate (vm_paging s') (kernel_pml4 s') 0xffffffff80000abc = Some 0x200001)
    (MkVmm (MkPaging (MkPmm (demo_mem 8) demo_off (PAGE_SIZE + demo_off)) 0 0 ∅) 0 0).
Proof.
  refine (wp_mono _ _ _ _ (vmm_init_maps demo_image demo_off []
    (MkKernelAddress 0xffffffff80000000 0x200000)
    (MkVmm (MkPaging (MkPmm (demo_mem 8) demo_off (PAGE_SIZE + demo_off)) 0 0 ∅) 0 0)
    (frames_from PAGE_SIZE 8) _ _ _ _ _) _).
  - apply (demo_free_frames 8). lia.
  - reflexivity.
  - repeat split; simpl; discriminate.
  - constructor.
  - apply Nat.leb_le. vm_compute. reflexivity.
  - intros _ s' (own' & free' & H). split; [apply H|].
    rewrite (vs_maps _ _ _ _ _ _ _ H). vm_compute. reflexivity.
Defined.

Lemma kmalloc_init_heap_witness :
  wp kmalloc_init (λ h _, heap_inv heap_empty h)
    (MkVmm (MkPaging (MkPmm (demo_mem 515) demo_off (PAGE_SIZE + demo_off)) demo_off
      (516 * PAGE_SIZE) ∅) demo_off (516 * PAGE_SIZE)).
Proof.
  refine (wp_mono _ _ _ _ (kmalloc_init_heap _ {[516 * PAGE_SIZE := (516 * PAGE_SIZE, [])]}
    (frames_from PAGE_SIZE 515) _ _ _) _).
  - assert (∀ x, 516 * PAGE_SIZE + demo_off ≤ x < 516 * PAGE_SIZE + demo_off + PAGE_SIZE →
      demo_mem 515 x = Some 0) as Hz.
    { unfold demo_mem, words_mem, demo_words, demo_off, PAGE_SIZE. intros x Hx.
      rewrite (proj2 (Z.leb_le _ _)), (proj2 (Z.ltb_lt _ _)) by lia. simpl andb. cbn iota.
      rewrite (proj2 (Z.ltb_lt _ _)) by dlia. by rewrite Z.div_0_l by (apply Z.pow_nonzero; dlia). }
    destruct (root_inv (demo_mem 515) demo_off (PAGE_SIZE + demo_off) (516 * PAGE_SIZE)
      (frames_from PAGE_SIZE 515) (516 * PAGE_SIZE) ∅) as (H1 & H2 & _).
    + apply demo_free_frames. lia.
    + apply demo_frame_ok; [lia|reflexivity|unfold PAGE_SIZE; lia].
    + intros (i & Hi & ?)%elem_of_frames_from. unfold PAGE_SIZE in *. lia.
    + exact Hz.
    + split; [exact H1|]. split; [exact H2|reflexivity].
  - reflexivity.
  - unfold enough, frames_from. rewrite length_fmap, length_seqZ.
    change (Z.to_nat 515) with (512 + length (upper_paths HEAP_START))%nat.
    apply Nat.add_le_mono_l, missing_length.
  - intros h s' [H _]. exact H.
Defined.
