(* ===== verification/MemInit.v ===== *)
(** * The memory after initialisation

    The direct map that [vmm_init] builds: every page of every region of the
    memory map is seen at its physical address plus the offset, so the code
    that runs on the new tables reads there the bytes it read before, and the
    page-table code reaches its tables.  [pmm_init], [vmm_init] and
    [kmalloc_init] are composed over the memory the boot loader leaves. *)

From S2P Require Import Prelude Mem StringC Pmm Paging Kmalloc KmallocInv KmallocSpec KmallocThms Vmm VmmThms.
Local Open Scope Z_scope.
Local Open Scope kernel_scope.

(** ** The direct map *)

(** The lowest address of the upper half. *)
Definition UPPER_HALF : Z := 0xffff800000000000.

(** The virtual address space: the direct map below the heap, the kernel
    image above it. *)
Record layout_ok (img : KernelImage) (off : Z) (memmap : PhysMemoryMap) : Prop := {
  lo_off : UPPER_HALF ≤ off ∧ off mod PAGE_SIZE = 0;
  lo_regions : Forall (λ e, 0 ≤ base e +64 length_ e ∧ off + region_end e ≤ HEAP_START ∧
    0 ≤ base e < 2 ^ 64) memmap;
  lo_image : image_ok img;
  lo_sections : HEAP_END ≤ TEXT_START img ∧ HEAP_END ≤ RODATA_START img ∧ HEAP_END ≤ DATA_START img ∧
    HEAP_END ≤ LIMINE_REQ_START img
}.

(** The pages of a region, and of all regions. *)
Definition region_pages (e : PhysMemoryRegion) : list Z :=
  frames_from (region_start e) (Z.of_nat (page_count (region_start e) (region_end e))).
Definition covered (memmap : PhysMemoryMap) (p : Z) : Prop := ∃ e, e ∈ memmap ∧ p ∈ region_pages e.

Lemma align_down_page a : 0 ≤ a < 2 ^ 64 → align_down a PAGE_SIZE = a - a mod PAGE_SIZE.
Proof.
  intros Ha. unfold align_down, PAGE_SIZE. change (lnot64 (4096 -64 1)) with (2 ^ 64 - 2 ^ 12).
  by rewrite (land_high_mask 64 12) by lia.
Qed.

(** A page of a region: aligned, inside the direct map. *)
Lemma region_page img off memmap e p :
  layout_ok img off memmap → e ∈ memmap → p ∈ region_pages e →
  p mod PAGE_SIZE = 0 ∧ 0 ≤ p ∧ off + p < HEAP_START.
Proof.
  intros [_ Hr _ _] He (i & -> & Hi)%elem_of_frames_from. rewrite Forall_forall in Hr.
  destruct (Hr e He) as (_ & Hend & Hb). unfold region_start in *. rewrite align_down_page in * by done.
  unfold page_count, PAGE_SIZE in *. dlia.
Qed.

Lemma covered_page img off memmap p :
  layout_ok img off memmap → covered memmap p →
  p mod PAGE_SIZE = 0 ∧ 0 ≤ p ∧ off + p < HEAP_START.
Proof. intros Hl (e & He & Hp). by eapply region_page. Qed.

(** Addresses of the upper half: the page determines the indices. *)
Lemma upper_indices a b :
  UPPER_HALF ≤ a < 2 ^ 64 → UPPER_HALF ≤ b < 2 ^ 64 → indices a = indices b →
  a `div` 4096 = b `div` 4096.
Proof. unfold UPPER_HALF. intros Ha Hb. apply indices_page; right; lia. Qed.

Lemma indices_same_page a b : a `div` 4096 = b `div` 4096 → indices a = indices b.
Proof.
  intros E. rewrite <-(indices_align a), <-(indices_align b), !Z.shiftr_div_pow2 by lia.
  change (2 ^ 12) with 4096. by rewrite E.
Qed.

(** The last request decides; here they all say the same. *)
Lemma after_requests_hit rs tr v e :
  (∀ w p f, (w, p, f) ∈ rs → indices v = indices w → leaf_entry p f = e) →
  tr v = Some e ∨ (∃ w p f, (w, p, f) ∈ rs ∧ indices v = indices w) →
  after_requests rs tr v = Some e.
Proof.
  revert tr. induction rs as [|[[w p] f] rs IH]; intros tr Hall Hhit; cbn [after_requests].
  { destruct Hhit as [|(? & ? & ? & Hin & _)]; [done|]. by apply not_elem_of_nil in Hin. }
  apply IH; [intros; eapply Hall; [by apply list_elem_of_further|done]|].
  case_bool_decide as Hi.
  - left. f_equal. eapply Hall; [by apply list_elem_of_here|done].
  - destruct Hhit as [|(w' & p' & f' & Hin & Hi')]; [by left|].
    apply elem_of_cons in Hin as [[= -> -> ->]|Hin]; [done|]. right. by exists w', p', f'.
Qed.

Lemma elem_of_loop_requests a n va pa f r :
  r ∈ loop_requests a n va pa f ↔ ∃ x, r = (va x, pa x, f) ∧ x ∈ frames_from a (Z.of_nat n).
Proof. unfold loop_requests. by rewrite list_elem_of_fmap. Qed.

(** The requests for sections are above the heap. *)
Lemma section_request a stop delta f w p fl :
  section_ok a stop → HEAP_END ≤ a → (w, p, fl) ∈ section_requests a stop delta f →
  HEAP_END ≤ w < 2 ^ 64.
Proof.
  intros [_ Hs] Ha (x & [= -> -> ->] & (i & -> & Hi)%elem_of_frames_from)%elem_of_loop_requests.
  unfold page_count, PAGE_SIZE in *. dlia.
Qed.

(** Each request of [vmm_init] is for the image or for a page of a region. *)
Lemma boot_request img off memmap delta w p f :
  layout_ok img off memmap → (w, p, f) ∈ boot_requests img off memmap delta →
  HEAP_END ≤ w < 2 ^ 64 ∨ (covered memmap p ∧ w = p + off ∧ f = heap_flags).
Proof.
  intros Hl Hin. pose proof Hl as [[Ho _] Hr (I1 & I2 & I3 & I4) (S1 & S2 & S3 & S4)].
  unfold boot_requests in Hin. rewrite !elem_of_app in Hin.
  destruct Hin as [H|[H|[H|[H|H]]]]; [left; by (eapply section_request; [| |exact H])..|]. right.
  apply list_elem_of_join in H as (l & Hl1 & (e & -> & He)%list_elem_of_fmap).
  apply elem_of_loop_requests in Hl1 as (x & [= -> -> ->] & Hx).
  destruct (region_page _ _ _ _ _ Hl He Hx) as (_ & Hx0 & Hx1).
  split; [by exists e|]. split; [|done]. apply wrap_small. unfold UPPER_HALF, HEAP_START in *. lia.
Qed.

(** Pages of the direct map are those of the regions. *)
Lemma direct_indices img off memmap p q i :
  layout_ok img off memmap → covered memmap p → covered memmap q → 0 ≤ i < PAGE_SIZE →
  indices (p + off + i) = indices (q + off) → p = q.
Proof.
  intros Hl Hp Hq Hi He. pose proof (lo_off _ _ _ Hl) as [Ho1 Ho2].
  destruct (covered_page _ _ _ _ Hl Hp) as (Hp1 & Hp2 & Hp3), (covered_page _ _ _ _ Hl Hq) as (Hq1 & Hq2 & Hq3).
  apply upper_indices in He; unfold UPPER_HALF, HEAP_START, PAGE_SIZE in *; dlia.
Qed.

(** The address [x] is not on the page of one of the addresses [D]. *)
Definition apart (D : list Z) (x : Z) : Prop := Forall (λ w, indices x ≠ indices w) D.

(** Every page of every region translates to itself in the direct map,
    except the pages of [D], where devices are mapped. *)
Definition direct_map (memmap : PhysMemoryMap) (off : Z) (D : list Z) (s : vmm) : Prop :=
  ∀ p i, covered memmap p → 0 ≤ i < PAGE_SIZE → apart D (p + off + i) →
    translate (vm_paging s) (kernel_pml4 s) (p + off + i) = Some (leaf_entry p heap_flags).

Lemma boot_direct_map img off memmap delta p i :
  layout_ok img off memmap → covered memmap p → 0 ≤ i < PAGE_SIZE →
  after_requests (boot_requests img off memmap delta) (λ _, None) (p + off + i) =
    Some (leaf_entry p heap_flags).
Proof.
  intros Hl Hp Hi. pose proof (lo_off _ _ _ Hl) as [Ho1 Ho2].
  destruct (covered_page _ _ _ _ Hl Hp) as (Hp1 & Hp2 & Hp3).
  apply after_requests_hit.
  - intros w q f Hin He. destruct (boot_request _ _ _ _ _ _ _ Hl Hin) as [Hw|(Hq & -> & ->)].
    + apply upper_indices in He; unfold HEAP_END, HEAP_START, HEAP_SIZE, UPPER_HALF, PAGE_SIZE in *; dlia.
    + by rewrite (direct_indices _ _ _ _ _ _ Hl Hp Hq Hi He).
  - right. destruct Hp as (e & He & Hp). exists (p +64 off), p, heap_flags. split.
    + unfold boot_requests. rewrite !elem_of_app. do 4 right. apply list_elem_of_join.
      exists (region_requests off e). split; [|apply list_elem_of_fmap; by exists e].
      apply elem_of_loop_requests. by exists p.
    + apply indices_same_page. rewrite wrap_small by (unfold UPPER_HALF, HEAP_START in *; lia).
      unfold PAGE_SIZE in *. dlia.
Qed.

(** What the running code reads in the direct map. *)
Lemma direct_mem img off memmap D s p i :
  layout_ok img off memmap → direct_map memmap off D s → vm_hhdm_offset s = pg_hhdm_offset (vm_paging s) →
  vm_hhdm_offset s = off → cr3 (vm_paging s) = kernel_pml4 s → covered memmap p → 0 ≤ i < PAGE_SIZE →
  apart D (p + off + i) →
  virt_mem (vm_paging s) (p + off + i) = pg_mem (vm_paging s) (p + off + i).
Proof.
  intros Hl Hd Ho1 Ho2 Hc Hp Hi HD. destruct (lo_off _ _ _ Hl) as [Hof1 Hof2].
  destruct (covered_page _ _ _ _ Hl Hp) as (Hp1 & Hp2 & Hp3). unfold virt_mem. rewrite Hc, Hd by done.
  rewrite leaf_entry_frame; [|unfold UPPER_HALF, HEAP_START in *; lia|done]. f_equal.
  rewrite <-Ho1, Ho2. unfold PAGE_SIZE in *. dlia.
Qed.

(** Pages that are requested later are taken out of it. *)
Lemma direct_map_keep off memmap V D s s' :
  same_walks_but V s s' → direct_map memmap off D s → direct_map memmap off (V ++ D) s'.
Proof. intros Hw Hd p i Hp Hi HD. apply Forall_app in HD as [HV HD]. rewrite Hw by done. by apply Hd. Qed.

Lemma heap_pages_apart img off memmap :
  layout_ok img off memmap →
  ∀ p i, covered memmap p → 0 ≤ i < PAGE_SIZE → apart heap_pages (p + off + i).
Proof.
  intros Hl p i Hp Hi. apply Forall_fmap, Forall_forall. intros j Hj%elem_of_seq He.
  destruct (covered_page _ _ _ _ Hl Hp) as (Hp1 & Hp2 & Hp3). destruct (lo_off _ _ _ Hl) as [Hof1 Hof2].
  apply upper_indices in He; unfold compose, heap_page, UPPER_HALF, HEAP_START, PAGE_SIZE in *; dlia.
Qed.

(** ** From the boot loader's memory to the three allocators *)

(** The boot loader's memory [m]: the usable frames are mapped in the direct
    map and there are enough of them. *)
Record memory_ok (img : KernelImage) (off : Z) (memmap : PhysMemoryMap) (delta : Z) (P : list (list Z)) (m : mem) : Prop := {
  mo_layout : layout_ok img off memmap;
  mo_aligned : Forall region_aligned (drop 1 memmap);
  mo_frames : Forall (frame_ok m off) (usable_frames memmap);
  mo_nodup : NoDup (usable_frames memmap);
  mo_boot : table_paths (boot_requests img off memmap delta) ⊆ P;
  mo_heap : upper_paths HEAP_START ⊆ P;
  mo_short : short P;
  mo_enough : (1 + 512 + length P ≤ length (usable_frames memmap))%nat
}.

(** The kernel's address space while it runs: the direct map, except for the
    devices at [D]; the heap, whose [i]th page is mapped to the [i]th of the
    distinct frames [fs], which are neither tables nor free; frames left for
    the tables on the paths [P]; and [m] unchanged outside the usable
    frames. *)
Record memory_ready (off : Z) (memmap : PhysMemoryMap) (P : list (list Z)) (m : mem) (fs D : list Z) (s : vmm)
    (own : owners) (free : list Z) : Prop := {
  my_inv : vmm_inv s own free;
  my_cpu : cr3 (vm_paging s) = kernel_pml4 s;
  my_off : vm_hhdm_offset s = off;
  my_enough : enough 0 P s free;
  my_direct : direct_map memmap off D s;
  my_heap : length fs = 512%nat ∧ NoDup fs ∧ ∀ i f, fs !! i = Some f → own !! f = None ∧ (f ∉ free) ∧
    (apart D (heap_page i) →
     translate (vm_paging s) (kernel_pml4 s) (heap_page i) = Some (leaf_entry f heap_flags));
  my_used : ∀ p, (p ∈ free ∨ is_Some (own !! p)) ∨ p ∈ fs → p ∈ usable_frames memmap;
  my_mem : ∀ p, p mod PAGE_SIZE = 0 → p ∉ usable_frames memmap →
    same_page m (pg_mem (vm_paging s)) off p
}.

(** The three calls of [kinit] in kernel/main.c; the result is the state of
    the heap. *)
Definition memory_init (img : KernelImage) (offset : Z) (memmap : PhysMemoryMap) (ka : KernelAddress) : M vmm heap :=
  zoom (pmm_init offset memmap);;
  vmm_init img offset memmap ka;;
  kmalloc_init.

Lemma regions_ok img off memmap : layout_ok img off memmap → Forall region_ok memmap.
Proof.
  intros [[Ho _] Hr _ _]. eapply Forall_impl; [exact Hr|]. intros e (_ & He & Hb). unfold region_ok, section_ok.
  unfold region_start. rewrite align_down_page by done. unfold UPPER_HALF, HEAP_START, PAGE_SIZE in *. dlia.
Qed.

(** A region of whole pages is covered. *)
Lemma usable_covered img off memmap p :
  layout_ok img off memmap → Forall region_aligned (drop 1 memmap) → p ∈ usable_frames memmap → covered memmap p.
Proof.
  intros Hl Ha Hp. unfold usable_frames in Hp. apply list_elem_of_join in Hp as (l & Hp & (e & -> & He)%list_elem_of_fmap).
  apply list_elem_of_filter in He as [Hu He]. rewrite Forall_forall in Ha.
  destruct (Ha e He Hu) as (A1 & A2 & A3 & A4 & A5). 
  assert (e ∈ memmap) as Hin by (rewrite <-(take_drop 1 memmap); apply elem_of_app; by right).
  exists e. split; [done|]. apply elem_of_frames_from in Hp as (i & -> & Hi).
  apply elem_of_frames_from. exists i. unfold region_start, region_end, align_up.
  rewrite (wrap_small 64 (base e + length_ e)) by lia.
  rewrite (wrap_small 64 (base e + length_ e + PAGE_SIZE)), wrap_small by (unfold PAGE_SIZE; lia).
  fold (align_down (base e + length_ e + PAGE_SIZE - 1) PAGE_SIZE).
  rewrite !align_down_page by (unfold PAGE_SIZE; lia).
  unfold page_count, PAGE_SIZE in *. dlia.
Qed.

Lemma wp_memory_init img offset memmap ka P s :
  memory_ok img offset memmap (virt ka -64 phys ka) P (pg_mem (vm_paging s)) →
  free_list_head (pg_pmm (vm_paging s)) = 0 →
  wp (memory_init img offset memmap ka) (λ h s', heap_inv heap_empty h ∧
    ∃ own free fs, memory_ready offset memmap P (pg_mem (vm_paging s)) fs [] s' own free) s.
Proof.
  intros [Hl Ha Hok Hnd HP1 HP2 Hsh Hlen] Hh. pose proof (lo_off _ _ _ Hl) as [Ho _].
  unfold memory_init. apply wp_bind, wp_zoom.
  eapply wp_mono; [apply wp_pmm_init; [done|unfold UPPER_HALF in Ho; lia|done..]|].
  intros _ pm (Hff & Hof & Ht). set (us := usable_frames memmap) in *. set (s1 := upd pm s).
  apply wp_bind. eapply wp_mono.
  { apply (wp_vmm_init 512 P img offset memmap ka s1 (reverse us)); [done|done|apply Hl|by eapply regions_ok|done|done|].
    rewrite length_reverse. lia. }
  intros _ s2 (own2 & free2 & V & En2).
  destruct (vs_cpu _ _ _ _ _ _ _ V) as (C2 & _ & O2).
  eapply wp_mono; [apply (wp_kmalloc_init 0 P s2 own2 free2); [apply V|done..]|].
  intros h s3 (Hheap & own & free & fs & G & En & [Hfn Hfs] & Hlfs & Hw & Hin). split; [done|].
  destruct (gr_same _ _ _ _ _ _ G) as (K3 & O3 & C3). exists own, free, fs. split.
  - apply G.
  - congruence.
  - congruence.
  - done.
  - intros p i Hp Hi _. rewrite Hw by by eapply heap_pages_apart.
    rewrite (vs_maps _ _ _ _ _ _ _ V). by apply boot_direct_map.
  - split_and!; [done|done|]. intros i f Hi. by destruct (Hfs _ _ Hi) as (_ & ? & ? & _ & ?).
  - assert (∀ p, p ∈ free2 → p ∈ us) as Hf2.
    { intros p Hp. destruct (vs_free _ _ _ _ _ _ _ V) as [l E]. apply elem_of_reverse. rewrite E. set_solver + Hp. }
    destruct (gr_free _ _ _ _ _ _ G) as [l2 E2].
    intros p [[Hp|[rp Hp]]|Hp]; [apply Hf2; rewrite E2; set_solver + Hp|..].
    + destruct (gr_new _ _ _ _ _ _ G _ _ Hp) as [H|H]; [|by apply Hf2].
      apply elem_of_reverse. by eapply (vs_own _ _ _ _ _ _ _ V).
    + by apply Hf2, Hin.
  - intros p Hp Hpu. assert (p ∉ reverse us) as Hpr by (by rewrite elem_of_reverse).
    eapply agree_trans; [apply Ht; done|]. eapply agree_trans; [by apply (vs_mem _ _ _ _ _ _ _ V)|].
    rewrite <-O2. apply G; [done|..].
    + apply eq_None_not_Some. intros [rp Hrp]. by apply (vs_own _ _ _ _ _ _ _ V) in Hrp.
    + destruct (vs_free _ _ _ _ _ _ _ V) as [l E]. rewrite E in Hpr. set_solver + Hpr.
Qed.

(** ** Mapping a device, reading firmware *)

Lemma wp_kmap_device off memmap P m fs D s own free w p f :
  memory_ready off memmap P m fs D s own free → upper_paths w ⊆ P → short P → 0 ≤ p < 2 ^ 64 →
  wp (vmm_kmap w p f) (λ _ s', ∃ own' free', memory_ready off memmap P m fs (w :: D) s' own' free') s.
Proof.
  intros [Hi Hc Ho He Hd (Hl & Hn & Hf) Hu Hm] HP Hsh Hp.
  eapply wp_mono; [by eapply (wp_vmm_kmap 0 P)|]. intros _ s' (own' & free' & R). exists own', free'.
  pose proof (requested_grows _ _ _ _ _ _ _ R) as G. destruct (gr_same _ _ _ _ _ _ G) as (K1 & K2 & K3).
  assert (∀ q, q ∉ usable_frames memmap → own !! q = None ∧ q ∉ free) as Hout.
  { intros q Hq. split; [apply eq_None_not_Some|]; intros H; apply Hq, Hu; auto. }
  split.
  - apply R.
  - congruence.
  - congruence.
  - eapply requested_enough; [exact R|exact HP|done|done].
  - eapply (direct_map_keep _ _ [w]); [|done]. intros v Hv. apply Forall_cons in Hv as [Hv _].
    rewrite K1, (rq_maps _ _ _ _ _ _ _ R). cbn [after_requests]. by rewrite bool_decide_eq_false_2.
  - split_and!; [done|done|]. intros j q Hq. destruct (Hf j q Hq) as (Hqo & Hqf & Htr).
    destruct (grows_other _ _ _ _ _ _ q G Hqo Hqf). split_and!; [done|done|].
    intros [Hw HD]%Forall_cons. rewrite K1, (rq_maps _ _ _ _ _ _ _ R). cbn [after_requests].
    rewrite bool_decide_eq_false_2 by done. by apply Htr.
  - destruct (gr_free _ _ _ _ _ _ G) as [l El]. intros q [[Hq|[rp Hq]]|Hq]; apply Hu; [|..|by right].
    + left; left. rewrite El. set_solver + Hq.
    + left. destruct (gr_new _ _ _ _ _ _ G _ _ Hq); eauto.
  - intros q Hq Hqu. destruct (Hout q Hqu). eapply agree_trans; [by apply Hm|]. rewrite <-Ho. by apply G.
Qed.

(** Firmware memory: bytes of the direct map outside the usable frames. *)
Definition firmware_mem (off : Z) (memmap : PhysMemoryMap) (D : list Z) (m fw : mem) : Prop :=
  ∀ x b, fw x = Some b → m x = Some b ∧ apart D x ∧
    ∃ p i, x = p + off + i ∧ 0 ≤ i < PAGE_SIZE ∧ covered memmap p ∧ p ∉ usable_frames memmap.

Lemma firmware_seen img off memmap P m fw fs D D' s own free :
  layout_ok img off memmap → firmware_mem off memmap D' m fw → D ⊆ D' →
  memory_ready off memmap P m fs D s own free → mem_below fw (virt_mem (vm_paging s)).
Proof.
  intros Hl Hfw HD [(_ & _ & Ho') Hc Ho _ Hd _ _ Hm] x b Hx.
  destruct (Hfw x b Hx) as (Hb & Ha & p & i & -> & Hi & Hp & Hpu).
  destruct (covered_page _ _ _ _ Hl Hp) as (Hpm & _ & _).
  rewrite (direct_mem img off memmap D); try done.
  - rewrite (Hm p Hpm Hpu) by lia. done.
  - unfold apart in *. rewrite Forall_forall in Ha |- *. intros w Hw. by apply Ha, HD.
Qed.

(** What the running code reads in the heap. *)
Lemma heap_mem s f i k :
  vm_hhdm_offset s = pg_hhdm_offset (vm_paging s) → cr3 (vm_paging s) = kernel_pml4 s →
  0 ≤ f < 2 ^ 52 → f mod PAGE_SIZE = 0 → 0 ≤ k < PAGE_SIZE →
  translate (vm_paging s) (kernel_pml4 s) (heap_page i) = Some (leaf_entry f heap_flags) →
  virt_mem (vm_paging s) (heap_page i + k) = pg_mem (vm_paging s) (f + vm_hhdm_offset s + k).
Proof.
  intros Ho Hc Hf Hfm Hk Ht. unfold virt_mem. rewrite Hc.
  assert (indices (heap_page i + k) = indices (heap_page i)) as Hi.
  { apply indices_same_page. unfold heap_page, HEAP_START, PAGE_SIZE in *. dlia. }
  unfold translate in *. rewrite Hi, Ht, leaf_entry_frame, <-Ho by done. f_equal.
  unfold heap_page, HEAP_START, PAGE_SIZE in *. dlia.
Qed.

(** ** Claim *)

(** C15: the three memory managers start on one another.  From the memory the
    boot loader leaves, with a free frame for every table that is needed, for
    every page of the heap and for the root, the three calls return with the
    heap's invariant, on the kernel's page tables.  The [i]th of the heap's
    512 pages translates to the [i]th of 512 distinct usable frames that are
    neither page tables nor free, and the running code reads those frames
    there; tables and free frames are usable frames too, no other frame was
    written, and the running code sees every page of the memory map in the
    direct map, the page tables among them. *)
Theorem memory_init_ready img offset memmap ka P s :
  memory_ok img offset memmap (virt ka -64 phys ka) P (pg_mem (vm_paging s)) →
  free_list_head (pg_pmm (vm_paging s)) = 0 →
  wp (memory_init img offset memmap ka) (λ h s', heap_inv heap_empty h ∧
    ∃ own free fs, memory_ready offset memmap P (pg_mem (vm_paging s)) fs [] s' own free ∧
      (∀ i f k, fs !! i = Some f → 0 ≤ k < PAGE_SIZE →
        virt_mem (vm_paging s') (heap_page i + k) = pg_mem (vm_paging s') (f + offset + k)) ∧
      ∀ p i, covered memmap p → 0 ≤ i < PAGE_SIZE →
        virt_mem (vm_paging s') (p + offset + i) = pg_mem (vm_paging s') (p + offset + i)) s.
Proof.
  intros Hm Hh. eapply wp_mono; [by apply (wp_memory_init _ _ _ _ P)|].
  intros h s' (Hi & own & free & fs & Hr). split; [done|]. exists own, free, fs. split; [done|].
  destruct Hr as [(_ & _ & Ho') Hc Ho _ Hd (_ & _ & Hf) Hu _]. split.
  - intros i f k Hfi Hk. destruct (Hf i f Hfi) as (_ & _ & Ht). rewrite <-Ho.
    assert (f ∈ usable_frames memmap) as Hfu by (apply Hu; right; by eapply list_elem_of_lookup_2).
    pose proof (mo_frames _ _ _ _ _ _ Hm) as Hfr. rewrite Forall_forall in Hfr.
    destruct (Hfr f Hfu) as (? & ? & _). apply heap_mem; try done. apply Ht. constructor.
  - intros p i Hp Hi'. by eapply direct_mem; [apply Hm|done..|constructor].
Qed.
