(* ===== verification/Alloc.v ===== *)
(** * The allocator interface

    What kmalloc.c promises to the parts of the kernel that keep objects on
    the heap: the address returned is not NULL and not that of another live
    object, and the only panic is the one for lack of memory.  Clients are
    proved against [AllocatorLaws]; [heap_allocator_laws] shows that the heap
    keeps the promise. *)

From S2P Require Import Prelude Mem Kmalloc KmallocInv KmallocLayout KmallocSpec KmallocThms.
Local Open Scope Z_scope.

Definition oom : string := "Kheap out of memory".

Class Allocator (A : Type) := {
  al_alloc : Z → M A Z;
  al_free : Z → M A unit;
  al_rep : A → gset Z → Prop
}.

(** Total correctness up to running out of memory. *)
Definition wpo {S A : Type} (c : M S A) (Q : A → S → Prop) (s : S) : Prop :=
  match c s with
  | Ok (a, s') => Q a s'
  | Panic msg => msg = oom
  | _ => False
  end.

Class AllocatorLaws (A : Type) `{Allocator A} := {
  al_alloc_spec : ∀ a L n, al_rep a L → 0 ≤ n < 2 ^ 32 →
    wpo (al_alloc n) (λ p a', p ≠ 0 ∧ (p ∉ L) ∧ al_rep a' ({[p]} ∪ L)) a;
  al_free_spec : ∀ a L p, al_rep a L → p ∈ L →
    wp (al_free p) (λ _ a', al_rep a' (L ∖ {[p]})) a
}.

Section wpo_rules.
Context {S : Type}.

Lemma wp_wpo {A} (c : M S A) Q s : wp c Q s → wpo c Q s.
Proof. unfold wp, wpo. by destruct (c s) as [[]| | |]. Qed.

Lemma wpo_ret {A} (a : A) Q (s : S) : Q a s → wpo (mret a) Q s.
Proof. done. Qed.

Lemma wpo_bind {A B} (c : M S A) (k : A → M S B) Q s :
  wpo c (λ a, wpo (k a) Q) s → wpo (c ≫= k) Q s.
Proof. unfold wpo, mbind, M_bind. by destruct (c s) as [[]| | |]. Qed.

Lemma wpo_mono {A} (c : M S A) (Q Q' : A → S → Prop) s :
  wpo c Q s → (∀ a s', Q a s' → Q' a s') → wpo c Q' s.
Proof. unfold wpo. destruct (c s) as [[]| | |]; naive_solver. Qed.

Lemma wpo_gets {A} (f : S → A) Q s : Q (f s) s → wpo (gets f) Q s.
Proof. done. Qed.

Lemma wpo_modify (f : S → S) (Q : unit → S → Prop) s : Q tt (f s) → wpo (modify f) Q s.
Proof. done. Qed.

Lemma wpo_kassert (b : bool) msg (Q : unit → S → Prop) s :
  b = true → Q tt s → wpo (kassert b msg) Q s.
Proof. by intros ->. Qed.
End wpo_rules.

Lemma wpo_zoom {T S A} `{Has T S} (c : M T A) (Q : A → S → Prop) s :
  wpo c (λ a t, Q a (upd t s)) (prj s) → wpo (zoom c) Q s.
Proof. unfold wpo, zoom. by destruct (c (prj s)) as [[]| | |]. Qed.

#[export] Hint Resolve wpo_ret wpo_gets wpo_modify wpo_kassert : kernel.

(** ** The heap as an allocator *)

(** The live objects are the payloads of the allocated chunks. *)
Definition heap_live (h : aheap) : gset Z :=
  list_to_set ((λ b, b.1 + 8) <$> allocated HEAP_START (a_chunks h)).

#[export] Instance heap_allocator : Allocator heap := {|
  al_alloc := kmalloc;
  al_free := kfree;
  al_rep := λ s L, ∃ h, heap_inv h s ∧ L = heap_live h
|}.

Lemma heap_live_addr h p : p ∈ heap_live h ↔ ∃ sz, (p - 8, sz) ∈ allocated HEAP_START (a_chunks h).
Proof.
  unfold heap_live. rewrite elem_of_list_to_set, list_elem_of_fmap. split.
  - intros ([b sz] & -> & Hb). exists sz. simpl. by replace (b + 8 - 8) with b by lia.
  - intros [sz Hb]. exists (p - 8, sz). simpl. split; [lia|done].
Qed.

(** No address is that of two chunks. *)
Lemma allocated_NoDup pf a cs :
  layout pf cs → NoDup ((λ b : Z * Z, b.1 + 8) <$> allocated a cs).
Proof.
  revert pf a. induction cs as [|[sz fr] cs IH]; intros pf a Hl; simpl; [constructor|].
  assert (∃ pf', layout pf' cs ∧ 0 < sz) as (pf' & Hl' & Hsz).
  { pose proof Hl as (? & ? & _ & Hl'). eexists. split; [exact Hl'|lia]. }
  destruct fr; simpl; [by eapply IH|]. apply NoDup_cons. split; [|by eapply IH].
  intros ([b bsz] & Hb & Hin)%list_elem_of_fmap. simpl in Hb.
  pose proof (allocated_range _ _ _ _ _ Hl' Hin). lia.
Qed.

#[export] Instance heap_allocator_laws : AllocatorLaws heap.
Proof.
  split.
  - intros s L n (h & Hinv & ->) Hn.
    destruct (kmalloc_alloc_sz_spec n) as (A1 & A2 & _); [lia|].
    destruct (kmalloc_cases h s n Hinv) as [(x & h' & Hstep & Hwp)|[_ E]]; [lia| |].
    + apply wp_wpo. eapply wp_mono; [exact Hwp|]. intros p s' (-> & Hinv' & _).
      destruct (alloc_step_block _ _ _ _ _ Hstep Hinv A2) as (Hp & H1 & H2 & _ & H4).
      split; [unfold HEAP_START in H1; lia|]. split.
      * intros (sz & Hb)%heap_live_addr. replace (x + 8 - 8) with x in Hb by lia.
        destruct Hinv as [Hl _ _ _ _ _]. pose proof (allocated_range _ _ _ _ _ Hl Hb).
        specialize (H4 _ _ Hb). lia.
      * exists h'. split; [done|]. unfold heap_live. rewrite Hp. done.
    + unfold wpo. simpl. by rewrite E.
  - intros s L p (h & Hinv & ->) Hp. apply heap_live_addr in Hp as [sz Hb].
    destruct (kfree_cases h s _ sz Hinv Hb) as (h' & Hstep & Hwp).
    replace (p - 8 + 8) with p in Hwp by lia. eapply wp_mono; [exact Hwp|].
    intros _ s' [Hinv' _]. exists h'. split; [done|].
    pose proof (free_step_block _ _ _ _ _ Hstep Hinv Hb) as Hperm.
    destruct Hinv as [Hl _ _ _ _ _]. apply (allocated_NoDup _ HEAP_START) in Hl.
    unfold heap_live. rewrite Hperm in Hl |- *. simpl in *.
    apply NoDup_cons in Hl as [Hnp _]. replace (p - 8 + 8) with p in * by lia.
    rewrite <-(elem_of_list_to_set (C := gset Z)) in Hnp. set_solver + Hnp.
Qed.
