(* ===== verification/Hw.v ===== *)
(** * The hardware the drivers talk to

    Device reads take their values from the environment: each free-running
    counter is a function from the number of reads so far to its value.
    Device writes (memory-mapped registers, ports) are recorded in order;
    model-specific registers are a map.  include/flurry/asm_wrappers.h,
    include/flurry/cpu/msr.h and kernel/common.c are translated here. *)

From S2P Require Import Prelude.
Local Open Scope Z_scope.

Record hw := MkHw {
  mmio : list (Z * Z);          (** register writes, the latest first *)
  ports : list (Z * Z);         (** port writes, the latest first *)
  msrs : gmap Z Z;
  tsc_src : nat → Z; tsc_reads : nat;
  hpet_src : nat → Z; hpet_reads : nat;
  apic_src : nat → Z; apic_reads : nat
}.

(** A store to a device register. *)
Definition mmio_write (addr val : Z) : M hw unit :=
  modify (λ h, MkHw ((addr, val) :: mmio h) (ports h) (msrs h) (tsc_src h) (tsc_reads h)
    (hpet_src h) (hpet_reads h) (apic_src h) (apic_reads h)).

Definition write_portb (port value : Z) : M hw unit :=
  modify (λ h, MkHw (mmio h) ((port, u8 value) :: ports h) (msrs h) (tsc_src h) (tsc_reads h)
    (hpet_src h) (hpet_reads h) (apic_src h) (apic_reads h)).

(** [rdtsc]. *)
Definition rdtsc : M hw Z := λ h,
  Ok (u64 (tsc_src h (tsc_reads h)),
      MkHw (mmio h) (ports h) (msrs h) (tsc_src h) (S (tsc_reads h))
        (hpet_src h) (hpet_reads h) (apic_src h) (apic_reads h)).

(** A read of the main counter of the HPET. *)
Definition hpet_counter : M hw Z := λ h,
  Ok (u64 (hpet_src h (hpet_reads h)),
      MkHw (mmio h) (ports h) (msrs h) (tsc_src h) (tsc_reads h)
        (hpet_src h) (S (hpet_reads h)) (apic_src h) (apic_reads h)).

(** A read of the current count register of the local APIC. *)
Definition apic_counter : M hw Z := λ h,
  Ok (u32 (apic_src h (apic_reads h)),
      MkHw (mmio h) (ports h) (msrs h) (tsc_src h) (tsc_reads h)
        (hpet_src h) (hpet_reads h) (apic_src h) (S (apic_reads h))).

(** [rdmsr]: the value of a register in its two halves, eax and edx. *)
Definition read_msr (msr : Z) : M hw (Z * Z) :=
  gets (λ h, let v := default 0 (msrs h !! msr) in (u32 v, u32 (Z.shiftr v 32))).

Definition write_msr (msr eax edx : Z) : M hw unit :=
  modify (λ h, MkHw (mmio h) (ports h)
    (<[msr := Z.lor (u32 eax) (Z.shiftl (u32 edx) 32)]> (msrs h)) (tsc_src h) (tsc_reads h)
    (hpet_src h) (hpet_reads h) (apic_src h) (apic_reads h)).

Definition msr_read (msr : Z) : M hw Z :=
  r ← read_msr msr; mret (Z.lor (fst r) (u64 (Z.shiftl (snd r) 32))).

Definition msr_write (msr value : Z) : M hw unit :=
  write_msr msr (u32 value) (u32 (Z.shiftr value 32)).

(** ** kernel/common.c and include/flurry/common.h *)

Definition clamp (value min max : Z) : Z :=
  if value <? min then min else if max <? value then max else value.

Definition from_ms (ms : Z) : Z := u64 (ms * 1000000).

Lemma clamp_range value min max : min ≤ max → min ≤ clamp value min max ≤ max.
Proof.
  intros. unfold clamp. destruct (Z.ltb_spec value min); [lia|].
  destruct (Z.ltb_spec max value); lia.
Qed.

Lemma clamp_id value min max : min ≤ value ≤ max → clamp value min max = value.
Proof.
  intros. unfold clamp. rewrite (proj2 (Z.ltb_ge value min)), (proj2 (Z.ltb_ge max value)) by lia.
  done.
Qed.

(** The two halves of a 64-bit value put together again. *)
Lemma halves v : 0 ≤ v < 2 ^ 64 → Z.lor (u32 v) (Z.shiftl (u32 (Z.shiftr v 32)) 32) = v.
Proof.
  intros Hv. rewrite Z.lor_comm, Z.shiftl_mul_pow2, Z.shiftr_div_pow2 by lia.
  unfold wrap. rewrite (Z.mod_small (v `div` 2 ^ 32)) by dlia.
  rewrite (lor_add_disjoint 32); [|lia|by apply Z.mod_mul|dlia].
  change (2 ^ 32) with 4294967296 in *. dlia.
Qed.

(** Setting bits of a model-specific register keeps its other bits. *)
Lemma wp_msr_set_bits msr bits h (Q : unit → hw → Prop) :
  0 ≤ default 0 (msrs h !! msr) < 2 ^ 64 → 0 ≤ bits < 2 ^ 64 →
  Q tt (MkHw (mmio h) (ports h) (<[msr := Z.lor (default 0 (msrs h !! msr)) bits]> (msrs h))
    (tsc_src h) (tsc_reads h) (hpet_src h) (hpet_reads h) (apic_src h) (apic_reads h)) →
  wp (v ← msr_read msr; msr_write msr (Z.lor v bits)) Q h.
Proof.
  intros Hv Hb HQ. apply wp_bind. unfold msr_read, read_msr. apply wp_bind, wp_gets, wp_ret.
  cbn [fst snd]. set (v := default 0 (msrs h !! msr)) in *.
  rewrite (wrap_small 64 (Z.shiftl _ 32)); cycle 1.
  { rewrite Z.shiftl_mul_pow2, Z.shiftr_div_pow2 by lia. unfold wrap.
    change (2 ^ 32) with 4294967296 in *. change (2 ^ 64) with 18446744073709551616 in *. dlia. }
  rewrite halves by done. unfold msr_write, write_msr. apply wp_modify.
  rewrite !(wrap_wrap 32) by lia. rewrite halves; [done|]. by apply lor_range.
Qed.
