(* ===== verification/Time.v ===== *)
(** * Clocks: kernel/time/timer.c, kernel/acpi/hpet.c, kernel/hardware/tsc.c

    The HPET is the reference clock behind the [Timer] interface; the TSC is
    calibrated against it.  The capability and configuration registers of the
    device are arguments; the lookup of its address in the firmware tables,
    [hpet_init], is in Main.v.  A wait is bounded by a number of reads. *)

From S2P Require Import Prelude Mem Pmm Paging Vmm Hw.
Local Open Scope Z_scope.
Local Open Scope kernel_scope.

(** The functions a [Timer] is filled with. *)
Inductive Timer := timer_none | timer_hpet.

Record clocks := MkClocks {
  ck_hw : hw;
  ck_vmm : vmm;
  hpet_hhdm_offset : Z;
  hpet_regs : Z;
  hpet_period : Z;
  timer : Timer;
  clock_base_ns : Z;
  tsc_freq : Z
}.

#[export] Instance clocks_has_hw : Has hw clocks := {|
  prj := ck_hw;
  upd := λ h s, MkClocks h (ck_vmm s) (hpet_hhdm_offset s) (hpet_regs s) (hpet_period s)
    (timer s) (clock_base_ns s) (tsc_freq s) |}.
#[export] Instance clocks_has_vmm : Has vmm clocks := {|
  prj := ck_vmm;
  upd := λ v s, MkClocks (ck_hw s) v (hpet_hhdm_offset s) (hpet_regs s) (hpet_period s)
    (timer s) (clock_base_ns s) (tsc_freq s) |}.

(** ** hpet.c *)

(** The offsets of struct HpetRegisters. *)
Definition HPET_CAPABILITIES : Z := 0x0.
Definition HPET_CONFIGURATION : Z := 0x10.
Definition HPET_MAIN_COUNTER : Z := 0xf0.

(** The registers [hpet_setup] reads, as the device gives them. *)
Record hpet_device := MkHpetDevice { hpet_capabilities : Z; hpet_configuration : Z }.

Definition hpet_get_elapsed_ns : M clocks Z :=
  main_counter ← zoom hpet_counter;
  period ← gets hpet_period;
  mret (main_counter *64 (period `div` 1000000)).

Definition hpet_reset : M clocks unit :=
  regs ← gets hpet_regs; zoom (mmio_write (regs + HPET_MAIN_COUNTER) 0).

Definition hpet_setup (dev : hpet_device) (addr : Z) : M clocks unit :=
  off ← gets hpet_hhdm_offset;
  zoom (vmm_kmap (addr +64 off) addr (Z.lor VM_FLAG_WRITE VM_FLAG_NX));;
  modify (λ s, MkClocks (ck_hw s) (ck_vmm s) (hpet_hhdm_offset s) (addr +64 off)
    (Z.shiftr (hpet_capabilities dev) 32) (timer s) (clock_base_ns s) (tsc_freq s));;
  regs ← gets hpet_regs;
  zoom (mmio_write (regs + HPET_CONFIGURATION) (Z.lor (hpet_configuration dev) 1)).

(** [hhdm_offset = offset] in [hpet_init]. *)
Definition set_hpet_offset (offset : Z) : M clocks unit :=
  modify (λ s, MkClocks (ck_hw s) (ck_vmm s) offset (hpet_regs s) (hpet_period s)
    (timer s) (clock_base_ns s) (tsc_freq s)).

(** ** timer.c *)

(** The two assignments to [timer] in [timer_init]. *)
Definition set_timer_hpet : M clocks unit :=
  modify (λ s, MkClocks (ck_hw s) (ck_vmm s) (hpet_hhdm_offset s) (hpet_regs s) (hpet_period s)
    timer_hpet (clock_base_ns s) (tsc_freq s)).

Definition timer_get_elapsed_ns : M clocks Z :=
  t ← gets timer;
  match t with timer_none => fault 0 | timer_hpet => hpet_get_elapsed_ns end.

Definition timer_set_elapsed_ns (value : Z) : M clocks unit :=
  modify (λ s, MkClocks (ck_hw s) (ck_vmm s) (hpet_hhdm_offset s) (hpet_regs s) (hpet_period s)
    (timer s) value (tsc_freq s));;
  t ← gets timer;
  match t with timer_none => fault 0 | timer_hpet => hpet_reset end.

(** [while (time > timer_get_elapsed_ns())]. *)
Fixpoint timer_wait_loop (fuel : nat) (time : Z) : M clocks unit :=
  now ← timer_get_elapsed_ns;
  if now <? time then
    match fuel with O => nofuel | S fuel' => timer_wait_loop fuel' time end
  else mret tt.

Definition timer_wait_ns (fuel : nat) (value : Z) : M clocks unit :=
  start ← timer_get_elapsed_ns;
  timer_wait_loop fuel (start +64 value).

(** ** tsc.c *)

Definition ONE_SECOND : Z := 1000000000.

Definition tsc_read : M clocks Z := zoom rdtsc.

Definition tsc_ns_to_ticks (time : Z) : M clocks Z :=
  freq ← gets tsc_freq; mret ((freq *64 time) `div` ONE_SECOND).

(** With the frequency as an argument; division by zero traps. *)
Definition ticks_to_ns (freq ticks : Z) : Z :=
  let quot := ticks `div` freq in
  let rem := ticks mod freq in
  (quot *64 ONE_SECOND) +64 ((rem *64 ONE_SECOND) `div` freq).

Definition tsc_ticks_to_ns (ticks : Z) : M clocks Z :=
  freq ← gets tsc_freq;
  if freq =? 0 then kpanic "Divide By Zero" else mret (ticks_to_ns freq ticks).

Definition tsc_read_ns : M clocks Z := ticks ← tsc_read; tsc_ticks_to_ns ticks.

Definition tsc_init (fuel : nat) : M clocks unit :=
  let ten_ms := 10000000 in
  tsc_start ← tsc_read;
  timer_wait_ns fuel ten_ms;;
  tsc_end ← tsc_read;
  modify (λ s, MkClocks (ck_hw s) (ck_vmm s) (hpet_hhdm_offset s) (hpet_regs s) (hpet_period s)
    (timer s) (clock_base_ns s) ((tsc_end -64 tsc_start) *64 100)).

(** ** Lemmas *)

Lemma ticks_to_ns_exact freq ticks :
  0 < freq ≤ 18446744073 → 0 ≤ ticks < 2 ^ 64 → (ticks * ONE_SECOND) `div` freq < 2 ^ 64 →
  ticks_to_ns freq ticks = (ticks * ONE_SECOND) `div` freq.
Proof.
  intros Hf Ht Hr. unfold ticks_to_ns, ONE_SECOND in *. cbv zeta.
  pose proof (Z.div_mod ticks freq ltac:(lia)) as Hdm.
  pose proof (Z.mod_pos_bound ticks freq ltac:(lia)) as Hm.
  assert (0 ≤ ticks `div` freq) as Hq by (apply Z.div_pos; lia).
  set (q := ticks `div` freq) in *. set (r := ticks mod freq) in *.
  assert ((ticks * 1000000000) `div` freq = q * 1000000000 + (r * 1000000000) `div` freq) as E.
  { rewrite Hdm. replace ((freq * q + r) * 1000000000) with (q * 1000000000 * freq + r * 1000000000) by lia.
    by rewrite Z.div_add_l by lia. }
  assert (0 ≤ (r * 1000000000) `div` freq) as Hrq by (apply Z.div_pos; lia).
  rewrite E in *. rewrite (wrap_small 64 (r * 1000000000)) by lia.
  rewrite (wrap_small 64 (q * 1000000000)) by lia. apply wrap_small. lia.
Qed.

(** The state after [k] reads of the HPET. *)
Definition hpet_read (k : nat) (s : clocks) : clocks :=
  let h := ck_hw s in
  MkClocks (MkHw (mmio h) (ports h) (msrs h) (tsc_src h) (tsc_reads h)
    (hpet_src h) (hpet_reads h + k) (apic_src h) (apic_reads h)) (ck_vmm s) (hpet_hhdm_offset s)
    (hpet_regs s) (hpet_period s) (timer s) (clock_base_ns s) (tsc_freq s).

Lemma hpet_read_add j k s : hpet_read k (hpet_read j s) = hpet_read (j + k) s.
Proof. unfold hpet_read. simpl. by rewrite Nat.add_assoc. Qed.

(** The time the timer shows at its [n]-th read. *)
Definition elapsed_at (s : clocks) (n : nat) : Z :=
  u64 (hpet_src (ck_hw s) n) *64 (hpet_period s `div` 1000000).

Lemma wp_elapsed s (Q : Z → clocks → Prop) :
  timer s = timer_hpet → Q (elapsed_at s (hpet_reads (ck_hw s))) (hpet_read 1 s) →
  wp timer_get_elapsed_ns Q s.
Proof.
  intros Ht HQ. unfold timer_get_elapsed_ns. apply wp_bind, wp_gets. rewrite Ht.
  unfold hpet_get_elapsed_ns. apply wp_bind. apply wp_zoom. unfold hpet_counter, wp. simpl.
  unfold hpet_read, elapsed_at in HQ. rewrite Nat.add_1_r in HQ. destruct s as [[]]. exact HQ.
Qed.

Lemma wp_wait_loop fuel time s k (Q : unit → clocks → Prop) :
  timer s = timer_hpet → (k ≤ fuel)%nat →
  time ≤ elapsed_at s (hpet_reads (ck_hw s) + k) →
  (∀ j, (j < k)%nat → elapsed_at s (hpet_reads (ck_hw s) + j) < time) →
  Q tt (hpet_read (S k) s) →
  wp (timer_wait_loop fuel time) Q s.
Proof.
  revert k s. induction fuel as [|fuel IH]; intros k s Ht Hk Hge Hlt HQ;
    cbn [timer_wait_loop]; apply wp_bind; (apply wp_elapsed; [done|]).
  - replace k with 0%nat in * by lia. rewrite Nat.add_0_r in Hge.
    rewrite (proj2 (Z.ltb_ge _ _)) by done. by apply wp_ret.
  - destruct k as [|k].
    + rewrite Nat.add_0_r in Hge. rewrite (proj2 (Z.ltb_ge _ _)) by done. by apply wp_ret.
    + pose proof (Hlt 0%nat ltac:(lia)) as H0. rewrite Nat.add_0_r in H0.
      rewrite (proj2 (Z.ltb_lt _ _)) by done.
      apply (IH k (hpet_read 1 s)); [done|lia|..]; cbn [ck_hw hpet_read hpet_reads].
      * by replace (hpet_reads (ck_hw s) + 1 + k)%nat with (hpet_reads (ck_hw s) + S k)%nat by lia.
      * intros j Hj. specialize (Hlt (S j) ltac:(lia)).
        by replace (hpet_reads (ck_hw s) + 1 + j)%nat with (hpet_reads (ck_hw s) + S j)%nat by lia.
      * by rewrite hpet_read_add.
Qed.

(** The first index at which a decidable property holds. *)
Lemma first_index (P : nat → Prop) `{∀ n, Decision (P n)} k :
  P k → ∃ j, (j ≤ k)%nat ∧ P j ∧ ∀ i, (i < j)%nat → ¬ P i.
Proof.
  revert P H. induction k as [|k IH]; intros P HP Hk; [exists 0%nat; split_and!; [done|done|lia]|].
  destruct (decide (P 0%nat)) as [H0|H0]; [exists 0%nat; split_and!; [lia|done|lia]|].
  destruct (IH (λ n, P (S n)) _ Hk) as (j & Hj & Pj & Hlt).
  exists (S j). split_and!; [lia|done|]. intros [|i] Hi; [done|]. apply Hlt. lia.
Qed.

(** A wait ends within [fuel] reads when the clock advances far enough. *)
Lemma wp_timer_wait fuel value k s :
  let n := hpet_reads (ck_hw s) in
  timer s = timer_hpet → (k ≤ fuel)%nat → elapsed_at s n + value < 2 ^ 64 → 0 ≤ value →
  elapsed_at s n + value ≤ elapsed_at s (S n + k) →
  wp (timer_wait_ns fuel value) (λ _ s', ∃ j, (j ≤ k)%nat ∧ s' = hpet_read (S (S j)) s ∧
    elapsed_at s n + value ≤ elapsed_at s (S n + j) ∧
    ∀ i, (i < j)%nat → elapsed_at s (S n + i) < elapsed_at s n + value) s.
Proof.
  intros n Ht Hk Hov Hv Hge. unfold timer_wait_ns. apply wp_bind. apply wp_elapsed; [done|]. fold n.
  assert (0 ≤ elapsed_at s n) as H0 by (apply wrap_range; lia).
  rewrite wrap_small by lia.
  destruct (first_index (λ j, elapsed_at s n + value ≤ elapsed_at s (S n + j)) k Hge)
    as (j & Hj & Pj & Hlt).
  apply (wp_wait_loop _ _ _ j); [done|lia|..]; cbn [ck_hw hpet_read hpet_reads]; fold n; rewrite ?Nat.add_1_r; [done|..].
  - intros i Hi. specialize (Hlt i Hi). change (elapsed_at (hpet_read 1 s)) with (elapsed_at s). lia.
  - exists j. split; [done|]. split; [by rewrite hpet_read_add|]. split; [done|].
    intros i Hi. specialize (Hlt i Hi). lia.
Qed.

(** ** Claims *)

(** [tsc_ticks_to_ns] is the exact, rounded down conversion of a tick
    count to nanoseconds for every TSC frequency up to 18.4 GHz, although the
    product of ticks and nanoseconds per second does not fit in 64 bits. *)
Theorem tsc_ticks_to_ns_exact ticks s :
  0 < tsc_freq s ≤ 18446744073 → 0 ≤ ticks < 2 ^ 64 →
  (ticks * ONE_SECOND) `div` tsc_freq s < 2 ^ 64 →
  wp (tsc_ticks_to_ns ticks) (λ ns s', s' = s ∧ ns = (ticks * ONE_SECOND) `div` tsc_freq s) s.
Proof.
  intros Hf Ht Hr. unfold tsc_ticks_to_ns. apply wp_bind, wp_gets.
  rewrite (proj2 (Z.eqb_neq _ _)) by lia. apply wp_ret. split; [done|]. by apply ticks_to_ns_exact.
Qed.

(** C22: with the HPET as the timer, [timer_wait_ns] returns as soon as the
    clock it reads has advanced by [value] nanoseconds and not before: if the
    deadline fits in 64 bits and one of the next [k + 1] readings reaches it,
    the last reading is the first that is at least [value] after the reading
    it started with.  The bound of the loop is any number from [k] on. *)
Theorem timer_wait_ns_waits fuel value k s :
  let n := hpet_reads (ck_hw s) in
  timer s = timer_hpet → (k ≤ fuel)%nat → elapsed_at s n + value < 2 ^ 64 → 0 ≤ value →
  elapsed_at s n + value ≤ elapsed_at s (S n + k) →
  wp (timer_wait_ns fuel value) (λ _ s', ∃ j, (j ≤ k)%nat ∧
    hpet_reads (ck_hw s') = (S n + S j)%nat ∧
    elapsed_at s n + value ≤ elapsed_at s (S n + j) ∧
    ∀ i, (i < j)%nat → elapsed_at s (S n + i) < elapsed_at s n + value) s.
Proof.
  intros n Ht Hk Hov Hv Hge. eapply wp_mono; [by apply (wp_timer_wait fuel value k)|].
  intros _ s' (j & Hj & -> & H). exists j. split; [done|]. split; [simpl; fold n; lia|done].
Qed.

(** The HPET clock runs slow: the period is truncated to whole
    nanoseconds before it is multiplied, so the time shown is behind the
    counter's time by the truncated femtoseconds of every tick (with a period
    of 69,841,279 fs, by 1.2 percent). *)
Theorem hpet_elapsed_lags s :
  let c := u64 (hpet_src (ck_hw s) (hpet_reads (ck_hw s))) in
  0 ≤ hpet_period s → c * (hpet_period s `div` 1000000) < 2 ^ 64 →
  wp hpet_get_elapsed_ns (λ ns _,
    ns * 1000000 + c * (hpet_period s mod 1000000) = c * hpet_period s) s.
Proof.
  intros c Hp Hov. unfold hpet_get_elapsed_ns. apply wp_bind, wp_zoom. unfold wp, hpet_counter.
  fold c. simpl.
  assert (0 ≤ c) as Hc by (apply wrap_range; lia).
  assert (0 ≤ hpet_period s `div` 1000000) by (apply Z.div_pos; lia).
  rewrite wrap_small by (split; [apply Z.mul_nonneg_nonneg; lia|done]).
  pose proof (Z.div_mod (hpet_period s) 1000000 ltac:(lia)) as Hd. nia.
Qed.

(** ** Witnesses *)

Definition hw_demo : hw :=
  MkHw [] [] ∅ (λ n, 3000000000 * Z.of_nat n) 0 (λ n, 1000 * Z.of_nat n) 0 (λ _, 0) 0.
Definition clocks_demo : clocks :=
  MkClocks hw_demo (MkVmm (MkPaging (MkPmm (λ _, None) 0 0) 0 0 ∅) 0 0) 0 0 69841279
    timer_hpet 0 3000000000.

Lemma tsc_ticks_to_ns_exact_witness :
  wp (tsc_ticks_to_ns (2 ^ 63)) (λ ns s', s' = clocks_demo ∧ ns = 3074457345618258602) clocks_demo.
Proof.
  refine (wp_mono _ _ _ _ (tsc_ticks_to_ns_exact (2 ^ 63) clocks_demo _ _ _) _).
  - simpl. lia.
  - lia.
  - vm_compute. reflexivity.
  - intros ns s' [Hs Hn]. split; [exact Hs|]. rewrite Hn. vm_compute. reflexivity.
Defined.

Lemma timer_wait_ns_waits_witness :
  wp (timer_wait_ns 10 200000) (λ _ s', ∃ j, (j ≤ 3)%nat ∧ hpet_reads (ck_hw s') = (1 + S j)%nat)
    clocks_demo.
Proof.
  refine (wp_mono _ _ _ _ (timer_wait_ns_waits 10 200000 3 clocks_demo _ _ _ _ _) _).
  - reflexivity.
  - lia.
  - vm_compute. reflexivity.
  - lia.
  - vm_compute. discriminate.
  - intros _ s' (j & Hj & Hr & _). exists j. split; [exact Hj|exact Hr].
Defined.

Lemma hpet_elapsed_lags_witness :
  wp hpet_get_elapsed_ns (λ ns _, ns * 1000000 + 0 * 841279 = 0 * 69841279) clocks_demo.
Proof.
  refine (hpet_elapsed_lags clocks_demo _ _).
  - discriminate.
  - vm_compute. reflexivity.
Defined.
