(* ===== verification/Interrupts.v ===== *)
(** * Interrupt dispatch: kernel/interrupts/interrupts.c

    The table of handlers, indexed by vector, and the allocation of vectors.
    What the handlers print is kept as the list of [kprintf] calls. *)

From S2P Require Import Prelude.
Local Open Scope Z_scope.

Definition IDT_MAX_DESCRIPTORS : Z := 256.
Definition ISA_IRQ_BASE : Z := 0x30.
Definition PIC_HANDLED_IRQ_COUNT : Z := 8.
Definition PIC1_IRQ_BASE : Z := 0x20.
Definition PIC2_IRQ_BASE : Z := 0x28.
Definition FIRST_USABLE_VECTOR : Z := 0x40.
Definition LAST_USABLE_VECTOR : Z := 0xef.

(** The functions that are installed as handlers, and the null pointer. *)
Inductive IntHandler :=
| no_handler
| unknown_int_handler
| pic_irq_handler
| cpu_exception_handler
| lapic_spurious_handler
| handle_next_event_handler.

#[export] Instance IntHandler_eq_dec : EqDecision IntHandler.
Proof. solve_decision. Defined.

(** The part of the interrupt frame the handlers look at. *)
Record InterruptCtx := MkCtx { vector : Z; error_code : Z }.

(** A call of [kprintf]: the format and its arguments. *)
Definition print_call : Type := string * list (Z + string).

Record interrupts := MkInterrupts {
  last_allocated_vector : Z;
  int_handlers : list IntHandler;
  printed : list print_call        (** the latest first *)
}.

(** The static data before [interrupts_init]. *)
Definition interrupts_static : interrupts :=
  MkInterrupts FIRST_USABLE_VECTOR (replicate 256 no_handler) [].

Definition kprintf_call (fmt : string) (args : list (Z + string)) : M interrupts unit :=
  modify (λ s, MkInterrupts (last_allocated_vector s) (int_handlers s) ((fmt, args) :: printed s)).

(** [int_handlers[vec] = handler]. *)
Definition set_int_handler (vec : Z) (handler : IntHandler) : M interrupts unit := λ s,
  if (0 <=? vec) && (vec <? IDT_MAX_DESCRIPTORS) then
    Ok (tt, MkInterrupts (last_allocated_vector s) (<[Z.to_nat vec := handler]> (int_handlers s))
              (printed s))
  else Fault vec.

Definition run_unknown_int_handler (ctx : InterruptCtx) : M interrupts unit :=
  kprintf_call "Unknown interrupt handler, vector: %d\n" [inl (vector ctx)];;
  kpanic "unknown interrupt".

Definition run_pic_irq_handler (ctx : InterruptCtx) : M interrupts unit :=
  kprintf_call "Unexpected PIC IRQ received, vector: %d\n" [inl (vector ctx)].

(** The fields of the selector error code that are printed. *)
Definition gp_external (code : Z) : Z := u32 (Z.land code 1).
Definition gp_table_indicator (code : Z) : Z := u32 (Z.land (Z.shiftr code 2) 1).
Definition gp_selector_index (code : Z) : Z := u32 (Z.shiftr code 3).

Definition run_cpu_exception_handler (ctx : InterruptCtx) : M interrupts unit :=
  kprintf_call "PANIC: " [];;
  (if vector ctx =? 0 then kprintf_call "Divide By Zero\n" []
   else if vector ctx =? 13 then
     let code := error_code ctx in
     let ti := gp_table_indicator code in
     kprintf_call "General Protection Fault\n" [];;
     kprintf_call "Error Code: 0x%x\n" [inl code];;
     kprintf_call "  External: 0x%x\n" [inl (gp_external code)];;
     kprintf_call "  Table Indicator: 0x%x (%s)\n"
       [inl ti; inr (if ti =? 0 then "GDT"%string else "LDT"%string)];;
     kprintf_call "  Selector Index: 0x%x\n" [inl (gp_selector_index code)]
   else if vector ctx =? 14 then kprintf_call "Page Fault\n" []
   else kprintf_call "IDK" []);;
  kpanic "cpu exception".

Definition run_lapic_spurious_handler : M interrupts unit :=
  kprintf_call "[LAPIC] spurious interrupt\n" [].

(** [interrupt_dispatch]: the handler of the vector runs; the scheduler's
    handler is returned for its caller to run. *)
Definition interrupt_dispatch (ctx : InterruptCtx) : M interrupts (option IntHandler) := λ s,
  match int_handlers s !! Z.to_nat (vector ctx) with
  | None => Fault (vector ctx)
  | Some h =>
      match h with
      | no_handler => Fault 0
      | unknown_int_handler => (run_unknown_int_handler ctx;; mret None) s
      | pic_irq_handler => (run_pic_irq_handler ctx;; mret None) s
      | cpu_exception_handler => (run_cpu_exception_handler ctx;; mret None) s
      | lapic_spurious_handler => (run_lapic_spurious_handler;; mret None) s
      | handle_next_event_handler => Ok (Some h, s)
      end
  end.

Definition interrupts_get_isa_irq_vec (isa_irq : Z) : Z := u8 (ISA_IRQ_BASE + isa_irq).

Definition interrupts_alloc_vector : M interrupts Z :=
  last ← gets last_allocated_vector;
  kassert (last =? LAST_USABLE_VECTOR) "All usable vectors are exhausted";;
  let ret := u8 last in
  modify (λ s, MkInterrupts (u16 (last_allocated_vector s + 1)) (int_handlers s) (printed s));;
  mret ret.

Definition interrupts_set_handler (vec : Z) (handler : IntHandler) : M interrupts unit :=
  set_int_handler (u8 vec) handler.

(** [for (i = i; i < i + n; i++) int_handlers[i] = h]. *)
Fixpoint fill_handlers (n : nat) (i : Z) (h : IntHandler) : M interrupts unit :=
  match n with
  | O => mret tt
  | S n' => set_int_handler i h;; fill_handlers n' (i + 1) h
  end.

Fixpoint fill_pic_handlers (n : nat) (pic_irq : Z) : M interrupts unit :=
  match n with
  | O => mret tt
  | S n' =>
      set_int_handler (pic_irq + PIC1_IRQ_BASE) pic_irq_handler;;
      set_int_handler (pic_irq + PIC2_IRQ_BASE) pic_irq_handler;;
      fill_pic_handlers n' (pic_irq + 1)
  end.

Definition interrupts_init : M interrupts unit :=
  fill_handlers (Z.to_nat IDT_MAX_DESCRIPTORS) 0 unknown_int_handler;;
  fill_handlers 32 0 cpu_exception_handler;;
  fill_pic_handlers (Z.to_nat PIC_HANDLED_IRQ_COUNT) 0.

(** ** Claims *)

(** The handler of a vector after initialisation: exceptions, the two
    remapped interrupt controllers, the rest. *)
Definition default_handler (v : Z) : IntHandler :=
  if v <? 32 then cpu_exception_handler else if v <? 48 then pic_irq_handler else unknown_int_handler.

Lemma wp_set_int_handler vec h s (Q : unit → interrupts → Prop) :
  0 ≤ vec < 256 →
  Q tt (MkInterrupts (last_allocated_vector s) (<[Z.to_nat vec := h]> (int_handlers s)) (printed s)) →
  wp (set_int_handler vec h) Q s.
Proof.
  intros Hv HQ. unfold wp, set_int_handler, IDT_MAX_DESCRIPTORS.
  by rewrite (proj2 (Z.leb_le _ _)), (proj2 (Z.ltb_lt _ _)) by lia.
Qed.

Lemma wp_fill_handlers n i h s (Q : unit → interrupts → Prop) :
  0 ≤ i → i + Z.of_nat n ≤ 256 →
  (∀ l, length l = length (int_handlers s) →
     (∀ j : nat, i ≤ Z.of_nat j < i + Z.of_nat n → (j < length (int_handlers s))%nat → l !! j = Some h) →
     (∀ j : nat, ¬ (i ≤ Z.of_nat j < i + Z.of_nat n) → l !! j = int_handlers s !! j) →
     Q tt (MkInterrupts (last_allocated_vector s) l (printed s))) →
  wp (fill_handlers n i h) Q s.
Proof.
  revert i s. induction n as [|n IH]; intros i s Hi Hn HQ; cbn [fill_handlers].
  { apply wp_ret. destruct s. apply HQ; simpl; [done|lia|done]. }
  apply wp_bind. apply wp_set_int_handler; [lia|]. apply IH; [lia|lia|]. simpl.
  intros l Hl H1 H2. apply HQ.
  - etrans; [exact Hl|apply length_insert].
  - pose proof (length_insert (int_handlers s) (Z.to_nat i) h) as Hli. simpl in Hli. intros j Hj Hlen. destruct (decide (Z.of_nat j = i)) as [<-|].
    + rewrite H2 by lia. rewrite Nat2Z.id. by apply list_lookup_insert_eq.
    + apply H1; [lia|]. by rewrite Hli.
  - intros j Hj. rewrite H2 by lia. rewrite list_lookup_insert_ne; [done|lia].
Qed.

Lemma wp_fill_pic n i s (Q : unit → interrupts → Prop) :
  0 ≤ i → i + Z.of_nat n ≤ 8 → length (int_handlers s) = 256%nat →
  (∀ l, length l = 256%nat →
     (∀ j : nat, i + 32 ≤ Z.of_nat j < i + 32 + Z.of_nat n ∨ i + 40 ≤ Z.of_nat j < i + 40 + Z.of_nat n →
        l !! j = Some pic_irq_handler) →
     (∀ j : nat, ¬ (i + 32 ≤ Z.of_nat j < i + 32 + Z.of_nat n) →
        ¬ (i + 40 ≤ Z.of_nat j < i + 40 + Z.of_nat n) → l !! j = int_handlers s !! j) →
     Q tt (MkInterrupts (last_allocated_vector s) l (printed s))) →
  wp (fill_pic_handlers n i) Q s.
Proof.
  revert i s. induction n as [|n IH]; intros i s Hi Hn Hlen HQ; cbn [fill_pic_handlers].
  { apply wp_ret. destruct s. apply HQ; simpl; [done|lia|done]. }
  unfold PIC1_IRQ_BASE, PIC2_IRQ_BASE.
  apply wp_bind. apply wp_set_int_handler; [lia|].
  apply wp_bind. apply wp_set_int_handler; [lia|].
  apply IH; [lia|lia|cbn [int_handlers]; by rewrite !length_insert|]. cbn [int_handlers]. intros l Hl H1 H2. apply HQ; [done|..].
  - intros j Hj. destruct (decide (Z.of_nat j = i + 40)) as [Ej|].
    { rewrite H2 by lia. replace (Z.to_nat (i + 40)) with j by lia.
      apply list_lookup_insert_eq. rewrite length_insert. lia. }
    destruct (decide (Z.of_nat j = i + 32)) as [Ej|]; [|apply H1; lia].
    rewrite H2 by lia. rewrite list_lookup_insert_ne by lia.
    replace (Z.to_nat (i + 32)) with j by lia. apply list_lookup_insert_eq. lia.
  - intros j Hj Hj'. rewrite H2 by lia. by rewrite !list_lookup_insert_ne by lia.
Qed.

(** After [interrupts_init] every one of the 256 vectors has a handler:
    the exception handler below 32, the handler for the disabled PICs up to
    47, and the handler that panics from 48 on. *)
Theorem interrupts_init_handlers s :
  length (int_handlers s) = 256%nat →
  wp interrupts_init (λ _ s', last_allocated_vector s' = last_allocated_vector s ∧
    length (int_handlers s') = 256%nat ∧
    ∀ v, 0 ≤ v < 256 → int_handlers s' !! Z.to_nat v = Some (default_handler v)) s.
Proof.
  intros Hl. unfold interrupts_init. apply wp_bind. apply wp_fill_handlers; [lia|done|].
  rewrite Hl. intros l1 L1 A1 _. apply wp_bind. apply wp_fill_handlers; [lia|done|].
  cbn [int_handlers]. rewrite L1. intros l2 L2 A2 B2.
  apply wp_fill_pic; [lia|done|exact L2|]. cbn [int_handlers last_allocated_vector].
  intros l3 L3 A3 B3. split; [done|]. split; [exact L3|]. intros v Hv. unfold default_handler.
  assert ((Z.to_nat v < 256)%nat) as Hn by (clear -Hv; lia).
  clear Hl L1 L2 L3. change (Z.of_nat (Z.to_nat IDT_MAX_DESCRIPTORS)) with 256 in A1.
  change (Z.of_nat (Z.to_nat PIC_HANDLED_IRQ_COUNT)) with 8 in *.
  destruct (Z.ltb_spec v 32); [|destruct (Z.ltb_spec v 48)].
  - rewrite B3 by (clear -H Hv; lia). apply A2; [clear -H Hv; lia|exact Hn].
  - apply A3. clear -H H0 Hv. lia.
  - rewrite B3, B2 by (clear -H H0 Hv; lia). apply A1; [clear -H H0 Hv; lia|exact Hn].
Qed.

(** Before [interrupts_init] every handler is the null pointer, and
    [idt_init], which comes first, has enabled interrupts: an interrupt in
    between jumps to address 0. *)
Theorem interrupt_before_init_faults v code :
  0 ≤ v < 256 → interrupt_dispatch (MkCtx v code) interrupts_static = Fault 0.
Proof.
  intros Hv. unfold interrupt_dispatch, interrupts_static. cbn [int_handlers vector].
  by rewrite lookup_replicate_2 by lia.
Qed.

(** [interrupts_alloc_vector] panics although vectors are free: its
    assertion holds only for the last usable vector, so on the state the
    kernel starts with, whose next vector is the first usable one, the call
    halts the machine. *)
Theorem interrupts_alloc_vector_panics s :
  last_allocated_vector s ≠ LAST_USABLE_VECTOR →
  interrupts_alloc_vector s = Panic "All usable vectors are exhausted".
Proof.
  intros Hn. unfold interrupts_alloc_vector.
  rewrite (bind_ok _ _ _ (last_allocated_vector s) s) by done.
  rewrite (proj2 (Z.eqb_neq _ _)) by done. done.
Qed.

(** A handler that is installed for a vector is the one that is
    dispatched to when the vector fires, whatever other vectors were
    installed before; here for the scheduler's handler. *)
Theorem interrupts_set_handler_dispatch vec code s :
  0 ≤ vec < 256 → length (int_handlers s) = 256%nat →
  wp (interrupts_set_handler vec handle_next_event_handler;;
      interrupt_dispatch (MkCtx vec code)) (λ r s',
    r = Some handle_next_event_handler ∧
    ∀ j, j ≠ Z.to_nat vec → int_handlers s' !! j = int_handlers s !! j) s.
Proof.
  intros Hv Hl. unfold interrupts_set_handler. rewrite wrap_small by lia.
  apply wp_bind. apply wp_set_int_handler; [done|]. unfold wp, interrupt_dispatch. simpl.
  rewrite list_lookup_insert_eq by lia. split; [done|]. intros j Hj.
  simpl. by rewrite list_lookup_insert_ne.
Qed.

(** ** Witnesses *)

Lemma interrupts_init_handlers_witness :
  wp interrupts_init (λ _ s', ∀ v, 0 ≤ v < 256 →
    int_handlers s' !! Z.to_nat v = Some (default_handler v)) interrupts_static.
Proof.
  refine (wp_mono _ _ _ _ (interrupts_init_handlers interrupts_static _) _).
  - reflexivity.
  - intros _ s' (_ & _ & H). exact H.
Defined.

Lemma interrupts_alloc_vector_panics_witness :
  interrupts_alloc_vector interrupts_static = Panic "All usable vectors are exhausted".
Proof. apply interrupts_alloc_vector_panics. discriminate. Defined.

Lemma interrupts_set_handler_dispatch_witness :
  wp (interrupts_set_handler 32 handle_next_event_handler;;
      interrupt_dispatch (MkCtx 32 0)) (λ r _, r = Some handle_next_event_handler) interrupts_static.
Proof.
  refine (wp_mono _ _ _ _ (interrupts_set_handler_dispatch 32 0 interrupts_static _ _) _).
  - lia.
  - reflexivity.
  - intros r s' [H _]. exact H.
Defined.
