(* ===== verification/Madt.v ===== *)
(** * The interrupt controllers of the machine: kernel/acpi/madt.c

    [madt_init] walks the entries of the MADT and keeps five lists of
    records.  The table is memory the firmware wrote, found by uACPI: its
    address, if it is found, and the memory are arguments.  The records are
    allocated on the heap, linked at the head of their lists and never
    changed afterwards, so the lists are Rocq lists, head first; the
    allocations go through the allocator interface. *)

From S2P Require Import Prelude Mem Kmalloc KmallocInv KmallocThms Alloc.
Local Open Scope Z_scope.
Local Open Scope kernel_scope.

Definition MADT_ACTIVE_HIGH : Z := 0x1.
Definition MADT_ACTIVE_LOW : Z := 0x3.
Definition MADT_TRIGGER_EDGE : Z := 0x4.
Definition MADT_TRIGGER_LEVEL : Z := 0xc.

Record MadtLApic := MkLApic { la_acpi_id : Z; la_lapic_id : Z; la_flags : Z }.
Record MadtLApicNmi := MkLApicNmi { ln_uid : Z; ln_flags : Z; ln_lint : Z }.
Record MadtIoApic := MkIoApic { io_ioapic_id : Z; io_reserved : Z; io_ioapic_addr : Z; io_gsi_base : Z }.
Record MadtIoApicIso := MkIso { iso_bus : Z; iso_source : Z; iso_gsi : Z; iso_flags : Z }.
Record MadtIoApicNmi := MkIoApicNmi { in_flags : Z; in_gsi : Z }.

(** The entry types of the ACPI specification that the code looks at. *)
Definition ACPI_MADT_ENTRY_TYPE_LAPIC : Z := 0.
Definition ACPI_MADT_ENTRY_TYPE_IOAPIC : Z := 1.
Definition ACPI_MADT_ENTRY_TYPE_INTERRUPT_SOURCE_OVERRIDE : Z := 2.
Definition ACPI_MADT_ENTRY_TYPE_NMI_SOURCE : Z := 3.
Definition ACPI_MADT_ENTRY_TYPE_LAPIC_NMI : Z := 4.

(** sizeof(struct acpi_madt), and the sizes of the records. *)
Definition sizeof_acpi_madt : Z := 44.
Definition sizeof_MadtLApic : Z := 11.
Definition sizeof_MadtLApicNmi : Z := 16.
Definition sizeof_MadtIoApic : Z := 18.
Definition sizeof_MadtIoApicIso : Z := 24.
Definition sizeof_MadtIoApicNmi : Z := 16.

(** The five lists of the file. *)
Record madt_lists := MkLists {
  lapics : list MadtLApic;
  lapic_nmis : list MadtLApicNmi;
  ioapics : list MadtIoApic;
  ioapic_nmis : list MadtIoApicNmi;
  ioapic_isos : list MadtIoApicIso
}.

Definition no_lists : madt_lists := MkLists [] [] [] [] [].

Section madt.
Context {A : Type} `{Allocator A}.

Record madt_data := MkMadt { md_alloc : A; md_lists : madt_lists }.

#[local] Instance madt_has_alloc : Has A madt_data :=
  {| prj := md_alloc; upd := λ a s, MkMadt a (md_lists s) |}.

Definition set_lists (f : madt_lists → madt_lists) : M madt_data unit :=
  modify (λ s, MkMadt (md_alloc s) (f (md_lists s))).

Definition madt_get_lapics : M madt_data (list MadtLApic) := gets (λ s, lapics (md_lists s)).
Definition madt_get_lapic_nmis : M madt_data (list MadtLApicNmi) := gets (λ s, lapic_nmis (md_lists s)).
Definition madt_get_ioapics : M madt_data (list MadtIoApic) := gets (λ s, ioapics (md_lists s)).
Definition madt_get_ioapic_isos : M madt_data (list MadtIoApicIso) := gets (λ s, ioapic_isos (md_lists s)).
Definition madt_get_ioapic_nmis : M madt_data (list MadtIoApicNmi) := gets (λ s, ioapic_nmis (md_lists s)).

(** The table in memory. *)
Variable tbl : mem.

Definition field (n : nat) (a : Z) : M madt_data Z := λ s,
  match load n tbl a with Some v => Ok (v, s) | None => Fault a end.

Definition get_lapic_entry (entry : Z) : M madt_data unit :=
  zoom (al_alloc sizeof_MadtLApic);;
  uid ← field 1 (entry + 2);
  id ← field 1 (entry + 3);
  flags ← field 4 (entry + 4);
  set_lists (λ l, MkLists (MkLApic uid id (u8 flags) :: lapics l) (lapic_nmis l) (ioapics l)
    (ioapic_nmis l) (ioapic_isos l)).

Definition get_ioapic_entry (entry : Z) : M madt_data unit :=
  zoom (al_alloc sizeof_MadtIoApic);;
  id ← field 1 (entry + 2);
  rsvd ← field 1 (entry + 3);
  address ← field 4 (entry + 4);
  gsi_base ← field 4 (entry + 8);
  set_lists (λ l, MkLists (lapics l) (lapic_nmis l) (MkIoApic id rsvd address gsi_base :: ioapics l)
    (ioapic_nmis l) (ioapic_isos l)).

Definition get_lapic_nmi_entry (entry : Z) : M madt_data unit :=
  zoom (al_alloc sizeof_MadtLApicNmi);;
  uid ← field 1 (entry + 2);
  flags ← field 2 (entry + 3);
  lint ← field 1 (entry + 5);
  set_lists (λ l, MkLists (lapics l) (MkLApicNmi uid flags lint :: lapic_nmis l) (ioapics l)
    (ioapic_nmis l) (ioapic_isos l)).

Definition get_ioapic_iso_entry (entry : Z) : M madt_data unit :=
  zoom (al_alloc sizeof_MadtIoApicIso);;
  bus ← field 1 (entry + 2);
  source ← field 1 (entry + 3);
  gsi ← field 4 (entry + 4);
  flags ← field 2 (entry + 8);
  set_lists (λ l, MkLists (lapics l) (lapic_nmis l) (ioapics l) (ioapic_nmis l)
    (MkIso bus source gsi flags :: ioapic_isos l)).

Definition get_ioapic_nmi_entry (entry : Z) : M madt_data unit :=
  zoom (al_alloc sizeof_MadtIoApicNmi);;
  flags ← field 2 (entry + 2);
  gsi ← field 4 (entry + 4);
  set_lists (λ l, MkLists (lapics l) (lapic_nmis l) (ioapics l)
    (MkIoApicNmi flags gsi :: ioapic_nmis l) (ioapic_isos l)).

Definition get_entry (type entry : Z) : M madt_data unit :=
  if type =? ACPI_MADT_ENTRY_TYPE_LAPIC then get_lapic_entry entry
  else if type =? ACPI_MADT_ENTRY_TYPE_LAPIC_NMI then get_lapic_nmi_entry entry
  else if type =? ACPI_MADT_ENTRY_TYPE_IOAPIC then get_ioapic_entry entry
  else if type =? ACPI_MADT_ENTRY_TYPE_INTERRUPT_SOURCE_OVERRIDE then get_ioapic_iso_entry entry
  else if type =? ACPI_MADT_ENTRY_TYPE_NMI_SOURCE then get_ioapic_nmi_entry entry
  else mret tt.

(** [while (offset < madt->hdr.length - sizeof *madt)]; the length is the
    32-bit field at offset 4 of the header, the difference is 64-bit. *)
Fixpoint madt_loop (fuel : nat) (madt offset : Z) : M madt_data unit :=
  len ← field 4 (madt + 4);
  if offset <? len -64 sizeof_acpi_madt then
    match fuel with
    | O => nofuel
    | S fuel' =>
        let entry := madt + sizeof_acpi_madt + offset in
        type ← field 1 entry;
        get_entry type entry;;
        length ← field 1 (entry + 1);
        madt_loop fuel' madt (offset +64 length)
    end
  else mret tt.

(** [table]: the address of the MADT, if uACPI finds it.  The lookup in front
    of the loop and the release of the table behind it are in
    [madt_init_table] of Main.v. *)
Definition madt_init (fuel : nat) (table : option Z) : M madt_data unit :=
  match table with
  | None => kpanic "[ACPI] MADT table not found"
  | Some madt => madt_loop fuel madt 0
  end.
End madt.
Arguments madt_data A : clear implicits.
Arguments MkMadt {A} _ _.
Arguments md_alloc {A} _.
Arguments md_lists {A} _.

(** ** The table format *)

(** The entries of a MADT that the ACPI specification defines and the code
    reads, and any other entry, with its payload. *)
Inductive madt_entry :=
| ELapic (uid id flags : Z)
| EIoapic (id rsvd address gsi_base : Z)
| EIso (bus source gsi flags : Z)
| ENmi (flags gsi : Z)
| ELapicNmi (uid flags lint : Z)
| EOther (type : Z) (payload : list Z).

(** The [n] bytes of a value, little endian. *)
Fixpoint le (n : nat) (v : Z) : list Z :=
  match n with O => [] | S n' => v mod 256 :: le n' (v `div` 256) end.

Definition encode_entry (e : madt_entry) : list Z :=
  match e with
  | ELapic uid id flags => [0; 8; uid; id] ++ le 4 flags
  | EIoapic id rsvd address gsi_base => [1; 12; id; rsvd] ++ le 4 address ++ le 4 gsi_base
  | EIso bus source gsi flags => [2; 10; bus; source] ++ le 4 gsi ++ le 2 flags
  | ENmi flags gsi => [3; 8] ++ le 2 flags ++ le 4 gsi
  | ELapicNmi uid flags lint => [4; 6; uid] ++ le 2 flags ++ [lint]
  | EOther type payload => [type; Z.of_nat (length payload) + 2] ++ payload
  end.

(** What one entry adds to the lists. *)
Definition add_entry (e : madt_entry) (l : madt_lists) : madt_lists :=
  match e with
  | ELapic uid id flags =>
      MkLists (MkLApic uid id (flags mod 256) :: lapics l) (lapic_nmis l) (ioapics l)
        (ioapic_nmis l) (ioapic_isos l)
  | EIoapic id rsvd address gsi_base =>
      MkLists (lapics l) (lapic_nmis l) (MkIoApic id rsvd address gsi_base :: ioapics l)
        (ioapic_nmis l) (ioapic_isos l)
  | EIso bus source gsi flags =>
      MkLists (lapics l) (lapic_nmis l) (ioapics l) (ioapic_nmis l)
        (MkIso bus source gsi flags :: ioapic_isos l)
  | ENmi flags gsi =>
      MkLists (lapics l) (lapic_nmis l) (ioapics l) (MkIoApicNmi flags gsi :: ioapic_nmis l)
        (ioapic_isos l)
  | ELapicNmi uid flags lint =>
      MkLists (lapics l) (MkLApicNmi uid flags lint :: lapic_nmis l) (ioapics l)
        (ioapic_nmis l) (ioapic_isos l)
  | EOther _ _ => l
  end.

Definition byte (b : Z) : Prop := 0 ≤ b < 256.

(** The field ranges of the format. *)
Definition entry_ok (e : madt_entry) : Prop :=
  match e with
  | ELapic uid id flags => byte uid ∧ byte id ∧ in_range 32 flags
  | EIoapic id rsvd address gsi_base => byte id ∧ byte rsvd ∧ in_range 32 address ∧ in_range 32 gsi_base
  | EIso bus source gsi flags => byte bus ∧ byte source ∧ in_range 32 gsi ∧ in_range 16 flags
  | ENmi flags gsi => in_range 16 flags ∧ in_range 32 gsi
  | ELapicNmi uid flags lint => byte uid ∧ in_range 16 flags ∧ byte lint
  | EOther type payload => 5 ≤ type < 256 ∧ Forall byte payload ∧ (length payload ≤ 253)%nat
  end.

(** The bytes [l] are in memory at [a]. *)
Definition bytes_in (m : mem) (a : Z) (l : list Z) : Prop :=
  ∀ i b, l !! i = Some b → m (a + Z.of_nat i) = Some b.

(** A MADT with the given entries at [madt]. *)
Definition madt_table (m : mem) (madt : Z) (es : list madt_entry) : Prop :=
  load 4 m (madt + 4) = Some (sizeof_acpi_madt + Z.of_nat (length (mjoin (encode_entry <$> es)))) ∧
  bytes_in m (madt + sizeof_acpi_madt) (mjoin (encode_entry <$> es)).

(** ** Reading the format *)

Lemma bytes_in_app m a l1 l2 :
  bytes_in m a (l1 ++ l2) ↔ bytes_in m a l1 ∧ bytes_in m (a + Z.of_nat (length l1)) l2.
Proof.
  split.
  - intros Hb. split; intros i b Hi.
    + apply Hb. by apply lookup_app_l_Some.
    + replace (a + Z.of_nat (length l1) + Z.of_nat i) with (a + Z.of_nat (length l1 + i)) by lia.
      apply Hb. rewrite lookup_app_r by lia. by replace (length l1 + i - length l1)%nat with i by lia.
  - intros [H1 H2] i b Hi. apply lookup_app_Some in Hi as [Hi|[Hge Hi]]; [by apply H1|].
    replace (a + Z.of_nat i) with (a + Z.of_nat (length l1) + Z.of_nat (i - length l1)) by lia.
    by apply H2.
Qed.

Lemma bytes_in_cons m a b l : bytes_in m a (b :: l) ↔ m a = Some b ∧ bytes_in m (a + 1) l.
Proof.
  assert (bytes_in m a [b] ↔ m a = Some b) as Hs.
  { split.
    - intros Hb. specialize (Hb 0%nat b eq_refl). by rewrite Z.add_0_r in Hb.
    - intros Hb i c [-> ->]%list_lookup_singleton_Some. by rewrite Z.add_0_r. }
  change (b :: l) with ([b] ++ l). by rewrite bytes_in_app, Hs.
Qed.

Lemma length_le n v : length (le n v) = n.
Proof. revert v. induction n as [|n IH]; intros v; simpl; [done|]. by rewrite IH. Qed.

Lemma load_bytes_le n m a v :
  bytes_in m a (le n v) → 0 ≤ v < 256 ^ Z.of_nat n → load n m a = Some v.
Proof.
  revert a v. induction n as [|n IH]; intros a v Hb Hv.
  { unfold load. simpl in *. f_equal. lia. }
  cbn [le] in Hb. apply bytes_in_cons in Hb as [Ha Hb].
  rewrite Nat2Z.inj_succ, Z.pow_succ_r in Hv by lia.
  rewrite load_S. unfold load8. rewrite Ha. simpl. rewrite (IH _ (v `div` 256)); [|done|dlia].
  simpl. f_equal. rewrite Z.mod_mod by lia. pose proof (Z.div_mod v 256). lia.
Qed.

Lemma load_byte m a b : m a = Some b → byte b → load 1 m a = Some b.
Proof.
  intros Ha Hb. apply load_bytes_le; [|simpl; unfold byte in Hb; lia].
  cbn [le]. apply bytes_in_cons. unfold byte in Hb. rewrite Z.mod_small by lia.
  split; [done|]. by intros i c Hc.
Qed.

Arguments le : simpl never.

Section parse.
Context {A : Type} `{AllocatorLaws A}.
#[local] Existing Instance madt_has_alloc.
Implicit Types (s : madt_data A) (L : gset Z).

(** [s'] is [s] with the given lists and a valid allocator state. *)
Definition madt_next (l : madt_lists) (s' : madt_data A) : Prop :=
  md_lists s' = l ∧ ∃ L, al_rep (md_alloc s') L.

Lemma wpo_field tbl n a v (Q : Z → madt_data A → Prop) s :
  load n tbl a = Some v → Q v s → wpo (field tbl n a) Q s.
Proof. unfold wpo, field. by intros ->. Qed.

(** The records' memory. *)
Lemma wpo_alloc_record n s (Q : Z → madt_data A → Prop) L :
  al_rep (md_alloc s) L → 0 ≤ n < 2 ^ 32 →
  (∀ p s', md_lists s' = md_lists s → (∃ L', al_rep (md_alloc s') L') → Q p s') →
  wpo (zoom (al_alloc n)) Q s.
Proof.
  intros HL Hn HQ. apply wpo_zoom. eapply wpo_mono; [by apply al_alloc_spec|].
  intros p a' (_ & _ & HL'). apply HQ; [done|]. simpl. eauto.
Qed.
End parse.

(** Reading the fields of an entry whose bytes are known. *)
Ltac read_fields :=
  repeat (apply wpo_bind; eapply wpo_field;
    [first [apply load_byte; [eassumption|assumption]
           |apply load_bytes_le; [eassumption|assumption]]|]);
  apply wpo_modify.

Section parse_claims.
Context {A : Type} `{AllocatorLaws A}.
#[local] Existing Instance madt_has_alloc.
Implicit Types (s : madt_data A) (L : gset Z).

Lemma wpo_get_entry tbl entry e type s L :
  entry_ok e → bytes_in tbl entry (encode_entry e) → hd_error (encode_entry e) = Some type →
  al_rep (md_alloc s) L →
  wpo (get_entry tbl type entry) (λ _ s', madt_next (add_entry e (md_lists s)) s') s.
Proof.
  intros Hok Hb Ht HL.
  destruct e as [uid id flags|id rsvd address gsi|bus source gsi flags|flags gsi|uid flags lint|ty pl];
    simpl in Hok; cbn [encode_entry hd_error] in Ht; injection Ht as <-; unfold get_entry;
    cbn [encode_entry app] in Hb; rewrite ?bytes_in_cons in Hb; rewrite ?bytes_in_app in Hb;
    rewrite ?bytes_in_cons in Hb; rewrite ?length_le in Hb; rewrite <-?Z.add_assoc in Hb; simpl in Hb.
  - destruct Hok as (? & ? & ?), Hb as (_ & _ & ? & ? & ?). simpl.
    apply wpo_bind. eapply wpo_alloc_record; [done|done|]. intros _ s1 E1 HL1. rewrite <-E1.
    read_fields. by split.
  - destruct Hok as (? & ? & ? & ?), Hb as (_ & _ & ? & ? & ? & ?). simpl.
    apply wpo_bind. eapply wpo_alloc_record; [done|done|]. intros _ s1 E1 HL1. rewrite <-E1.
    read_fields. by split.
  - destruct Hok as (? & ? & ? & ?), Hb as (_ & _ & ? & ? & ? & ?). simpl.
    apply wpo_bind. eapply wpo_alloc_record; [done|done|]. intros _ s1 E1 HL1. rewrite <-E1.
    read_fields. by split.
  - destruct Hok as (? & ?), Hb as (_ & _ & ? & ?). simpl.
    apply wpo_bind. eapply wpo_alloc_record; [done|done|]. intros _ s1 E1 HL1. rewrite <-E1.
    read_fields. by split.
  - destruct Hok as (? & ? & ?), Hb as (_ & _ & ? & ? & ? & _). simpl.
    apply wpo_bind. eapply wpo_alloc_record; [done|done|]. intros _ s1 E1 HL1. rewrite <-E1.
    read_fields. by split.
  - destruct Hok as (Hty & _).
    unfold ACPI_MADT_ENTRY_TYPE_LAPIC, ACPI_MADT_ENTRY_TYPE_LAPIC_NMI, ACPI_MADT_ENTRY_TYPE_IOAPIC,
      ACPI_MADT_ENTRY_TYPE_INTERRUPT_SOURCE_OVERRIDE, ACPI_MADT_ENTRY_TYPE_NMI_SOURCE.
    rewrite !(proj2 (Z.eqb_neq ty _)) by lia. apply wpo_ret. split; [done|eauto].
Qed.

Lemma encode_entry_hdr e :
  entry_ok e → ∃ type rest, encode_entry e = type :: Z.of_nat (length (encode_entry e)) :: rest ∧
    byte type ∧ byte (Z.of_nat (length (encode_entry e))) ∧ (2 ≤ length (encode_entry e))%nat.
Proof.
  destruct e as [| | | | |ty pl]; intros Hok; simpl in *;
    try (eexists _, _; split; [done|]; unfold byte; simpl; lia).
  destruct Hok as (? & ? & ?). exists ty, pl. unfold byte. split; [|lia].
  do 2 f_equal. lia.
Qed.

Lemma entries_split pre e es :
  mjoin (encode_entry <$> (pre ++ e :: es)) =
  mjoin (encode_entry <$> pre) ++ encode_entry e ++ mjoin (encode_entry <$> es).
Proof.
  induction pre as [|e' pre IH]; [done|].
  change (mjoin (encode_entry <$> (e' :: pre) ++ e :: es)) with
    (encode_entry e' ++ mjoin (encode_entry <$> (pre ++ e :: es))).
  rewrite IH, (assoc_L (++)). done.
Qed.

Lemma wpo_madt_loop fuel tbl madt es pre s L :
  (length es ≤ fuel)%nat → Forall entry_ok es → madt_table tbl madt (pre ++ es) →
  Z.of_nat (length (mjoin (encode_entry <$> (pre ++ es)))) < 2 ^ 31 →
  al_rep (md_alloc s) L →
  wpo (madt_loop tbl fuel madt (Z.of_nat (length (mjoin (encode_entry <$> pre)))))
    (λ _ s', madt_next (fold_left (λ l e, add_entry e l) es (md_lists s)) s') s.
Proof.
  revert fuel pre s L. induction es as [|e es IH]; intros fuel pre s L Hf Hok Htab Hlen HL.
  - rewrite app_nil_r in Htab. destruct Htab as [Hl _].
    assert (wpo (mret tt) (λ _ s', madt_next (md_lists s) s') s) as Hret by (apply wpo_ret; split; eauto).
    rewrite app_nil_r in Hlen.
    destruct fuel; cbn [madt_loop]; apply wpo_bind; (eapply wpo_field; [done|]);
      unfold sizeof_acpi_madt; rewrite wrap_small by lia;
      rewrite (proj2 (Z.ltb_ge _ _)) by lia; done.
  - destruct fuel as [|fuel]; [simpl in Hf; lia|]. apply Forall_cons in Hok as [He Hok].
    pose proof Htab as [Hl Hb]. rewrite entries_split in Hb, Hl, Hlen. rewrite !length_app in Hl, Hlen.
    apply bytes_in_app in Hb as [_ Hb]. apply bytes_in_app in Hb as [Hb _].
    destruct (encode_entry_hdr e He) as (ty & rest & Ee & Hty & Hlb & H2).
    pose proof Hb as Hb'. rewrite Ee in Hb'. rewrite !bytes_in_cons in Hb'. destruct Hb' as (Hb0 & Hb1 & _).
    set (off := length (mjoin (encode_entry <$> pre))) in *.
    cbn [madt_loop]. apply wpo_bind. eapply wpo_field; [done|].
    unfold sizeof_acpi_madt in *. rewrite wrap_small by lia.
    rewrite (proj2 (Z.ltb_lt _ _)) by lia. cbv zeta.
    apply wpo_bind. eapply wpo_field; [by apply load_byte|].
    apply wpo_bind. eapply wpo_mono; [eapply wpo_get_entry; [done|done|by rewrite Ee|done]|].
    intros _ s1 [E1 [L1 HL1]]. apply wpo_bind. eapply wpo_field; [by apply load_byte|].
    rewrite wrap_small by lia.
    assert (Z.of_nat off + Z.of_nat (length (encode_entry e)) =
      Z.of_nat (length (mjoin (encode_entry <$> (pre ++ [e]))))) as ->.
    { rewrite entries_split, !length_app. unfold off. simpl. lia. }
    cbn [fold_left]. rewrite <-E1. eapply IH; [simpl in Hf; lia|done|..|done].
    + by rewrite <-(assoc_L (++)).
    + rewrite <-(assoc_L (++)). change ([e] ++ es) with (e :: es). rewrite entries_split, !length_app. fold off. lia.
Qed.

(** C20: for every table with well-formed entries, [madt_init] ends with the
    records of all its entries of the five known types, each list in reverse
    order of the table, and skips the other entries; its only failure is
    running out of heap. *)
Theorem madt_init_parses fuel tbl madt es s L :
  al_rep (md_alloc s) L → Forall entry_ok es → madt_table tbl madt es → (length es ≤ fuel)%nat →
  Z.of_nat (length (mjoin (encode_entry <$> es))) < 2 ^ 31 →
  wpo (madt_init tbl fuel (Some madt))
    (λ _ s', md_lists s' = fold_left (λ l e, add_entry e l) es (md_lists s)) s.
Proof.
  intros HL Hok Htab Hf Hlen. eapply wpo_mono; [by apply (wpo_madt_loop fuel tbl madt es [] s L)|].
  by intros _ s' [? _].
Qed.

(** An entry of an unknown type with length zero makes [madt_init] loop
    for ever: no number of iterations is enough. *)
Theorem madt_init_zero_length_hangs fuel tbl madt len ty s :
  load 4 tbl (madt + 4) = Some len → sizeof_acpi_madt < len < 2 ^ 32 →
  load 1 tbl (madt + sizeof_acpi_madt) = Some ty → 5 ≤ ty →
  load 1 tbl (madt + sizeof_acpi_madt + 1) = Some 0 →
  madt_init (A := A) tbl fuel (Some madt) s = NoFuel.
Proof.
  intros Hl Hr Ht Hty Hz. unfold madt_init. unfold sizeof_acpi_madt in *.
  assert (∀ s', get_entry (A := A) tbl ty (madt + 44) s' = Ok (tt, s')) as Hg.
  { intros s'. unfold get_entry, ACPI_MADT_ENTRY_TYPE_LAPIC, ACPI_MADT_ENTRY_TYPE_LAPIC_NMI,
      ACPI_MADT_ENTRY_TYPE_IOAPIC, ACPI_MADT_ENTRY_TYPE_INTERRUPT_SOURCE_OVERRIDE,
      ACPI_MADT_ENTRY_TYPE_NMI_SOURCE.
    rewrite !(proj2 (Z.eqb_neq ty _)) by lia. done. }
  assert (∀ n a v s', load n tbl a = Some v → field (A := A) tbl n a s' = Ok (v, s')) as Hfi
    by (intros n a v s' E; unfold field; by rewrite E).
  revert s.
  induction fuel as [|fuel IH]; intros s; cbn [madt_loop]; rewrite (bind_ok _ _ _ _ _ (Hfi _ _ _ s Hl));
    unfold sizeof_acpi_madt; rewrite wrap_small by lia; rewrite (proj2 (Z.ltb_lt _ _)) by lia; [done|].
  cbv zeta. replace (madt + 44 + 0) with (madt + 44) by lia.
  rewrite (bind_ok _ _ _ _ _ (Hfi _ _ _ s Ht)).
  rewrite (bind_ok _ _ _ _ _ (Hg s)). rewrite (bind_ok _ _ _ _ _ (Hfi _ _ _ s Hz)).
  apply IH.
Qed.
End parse_claims.

(** ** Witnesses *)

Definition mem_of_bytes (a : Z) (l : list Z) : mem := λ x,
  if a <=? x then l !! Z.to_nat (x - a) else None.

Lemma mem_of_bytes_in a l : bytes_in (mem_of_bytes a l) a l.
Proof.
  intros i b Hi. unfold mem_of_bytes. rewrite (proj2 (Z.leb_le _ _)) by lia.
  by replace (Z.to_nat (a + Z.of_nat i - a)) with i by lia.
Qed.

Definition madt_demo_entries : list madt_entry :=
  [ELapic 0 1 1; EIoapic 2 0 0xfec00000 0; EIso 0 9 9 0xd; EOther 9 [1; 2]; ELapicNmi 0xff 5 1].
Definition madt_demo_bytes : list Z :=
  let body := mjoin (encode_entry <$> madt_demo_entries) in
  replicate 4 0 ++ le 4 (44 + Z.of_nat (length body)) ++ replicate 36 0 ++ body.
Definition madt_demo_mem : mem := mem_of_bytes 0x1000 madt_demo_bytes.

Lemma madt_init_parses_witness :
  wpo (madt_init madt_demo_mem 5 (Some 0x1000)) (λ _ s',
    md_lists s' = MkLists [MkLApic 0 1 1] [MkLApicNmi 0xff 5 1] [MkIoApic 2 0 0xfec00000 0]
      [] [MkIso 0 9 9 0xd]) (MkMadt heap1 no_lists).
Proof.
  refine (wpo_mono _ _ _ _ (madt_init_parses 5 madt_demo_mem 0x1000 madt_demo_entries
    (MkMadt heap1 no_lists) (heap_live heap_empty) _ _ _ _ _) _).
  - exists heap_empty. split; [exact heap1_inv|reflexivity].
  - repeat constructor; unfold byte, in_range; simpl; try lia.
  - split; [vm_compute; reflexivity|].
    pose proof (mem_of_bytes_in 0x1000 madt_demo_bytes) as H. unfold madt_demo_bytes in H.
    apply bytes_in_app in H as [_ H]. apply bytes_in_app in H as [_ H].
    apply bytes_in_app in H as [_ H]. exact H.
  - simpl. lia.
  - vm_compute. reflexivity.
  - intros _ s' ->. reflexivity.
Defined.

Lemma madt_init_zero_length_hangs_witness :
  madt_init (mem_of_bytes 0x1000 (replicate 4 0 ++ le 4 48 ++ replicate 36 0 ++ [9; 0; 0; 0])) 1000
    (Some 0x1000) (MkMadt heap1 no_lists) = NoFuel.
Proof.
  refine (madt_init_zero_length_hangs 1000 _ 0x1000 48 9 _ _ _ _ _ _).
  - vm_compute. reflexivity.
  - unfold sizeof_acpi_madt. lia.
  - vm_compute. reflexivity.
  - lia.
  - vm_compute. reflexivity.
Defined.
