(* ===== verification/Lapic.v ===== *)
(** * The local APIC: kernel/hardware/lapic.c

    The timer that drives the scheduler, the non-maskable interrupt lines and
    the legacy PICs that are switched off.  Register writes go to the write
    log of the hardware model; the lists of the MADT are arguments. *)

From S2P Require Import Prelude Mem Pmm Paging Vmm Hw Time Interrupts Madt.
Local Open Scope Z_scope.
Local Open Scope kernel_scope.

Definition IA32_APIC_BASE_MSR : Z := 0x1B.
Definition IA32_APIC_BASE_MSR_ENABLE : Z := 0x800.
Definition LAPIC_SOFTWARE_ENABLE : Z := Z.shiftl 1 8.
Definition LAPIC_SPURIOUS_VECTOR : Z := 0xF0.
Definition LAPIC_NMI_ALL_CPUS : Z := 0xFF.
Definition LAPIC_DELIV_MODE_NMI : Z := 0x400.
Definition LVT_TIMER_ONE_SHOT : Z := 0x0.
Definition LVT_TIMER_PERIODIC : Z := 0x20000.
Definition UINT32_MAX : Z := 2 ^ 32 - 1.

Definition REG_EOI : Z := 0xb0.
Definition REG_SPURIOUS : Z := 0xf0.
Definition REG_LVT_TIMER : Z := 0x320.
Definition REG_LVT_LINT0 : Z := 0x350.
Definition REG_LVT_LINT1 : Z := 0x360.
Definition REG_TIMER_INIT_COUNT : Z := 0x380.
Definition REG_TIMER_CURR_COUNT : Z := 0x390.
Definition REG_TIMER_DIV : Z := 0x3e0.

Definition PIC1_COMMAND_PORT : Z := 0x20.
Definition PIC1_DATA_PORT : Z := 0x21.
Definition PIC2_COMMAND_PORT : Z := 0xa0.
Definition PIC2_DATA_PORT : Z := 0xa1.
Definition IRQ_SLAVE_PIC_TO_MASTER_PIC : Z := 2.
Definition ICW1_ICW4_PRESENT : Z := 0x01.
Definition ICW1_INIT : Z := 0x10.
Definition ICW4_8086 : Z := 0x01.

Record lapic := MkLapic {
  lp_clocks : clocks;
  lp_int : interrupts;
  lapic_hhdm_offset : Z;
  lapic_phys_base : Z;
  lapic_base : Z;
  lapic_calibration_ticks : Z
}.

#[export] Instance lapic_has_clocks : Has clocks lapic := {|
  prj := lp_clocks;
  upd := λ c s, MkLapic c (lp_int s) (lapic_hhdm_offset s) (lapic_phys_base s) (lapic_base s)
    (lapic_calibration_ticks s) |}.
#[export] Instance lapic_has_int : Has interrupts lapic := {|
  prj := lp_int;
  upd := λ i s, MkLapic (lp_clocks s) i (lapic_hhdm_offset s) (lapic_phys_base s) (lapic_base s)
    (lapic_calibration_ticks s) |}.
#[export] Instance lapic_has_hw : Has hw lapic := {|
  prj := λ s, ck_hw (lp_clocks s);
  upd := λ h s, upd (upd h (lp_clocks s)) s |}.
#[export] Instance lapic_has_vmm : Has vmm lapic := {|
  prj := λ s, ck_vmm (lp_clocks s);
  upd := λ v s, upd (upd v (lp_clocks s)) s |}.

Definition outb (port value : Z) : M lapic unit := zoom (write_portb port value).

Definition disable_pic : M lapic unit :=
  outb PIC1_COMMAND_PORT (Z.lor ICW1_INIT ICW1_ICW4_PRESENT);;
  outb PIC2_COMMAND_PORT (Z.lor ICW1_INIT ICW1_ICW4_PRESENT);;
  outb PIC1_DATA_PORT PIC1_IRQ_BASE;;
  outb PIC2_DATA_PORT PIC2_IRQ_BASE;;
  outb PIC1_DATA_PORT (Z.shiftl 1 IRQ_SLAVE_PIC_TO_MASTER_PIC);;
  outb PIC2_DATA_PORT IRQ_SLAVE_PIC_TO_MASTER_PIC;;
  outb PIC1_DATA_PORT ICW4_8086;;
  outb PIC2_DATA_PORT ICW4_8086;;
  outb PIC1_DATA_PORT 0xff;;
  outb PIC2_DATA_PORT 0xff.

Definition write_reg (reg val : Z) : M lapic unit :=
  base ← gets lapic_base; zoom (mmio_write (base + reg) (u32 val)).

(** The one register that is read. *)
Definition read_curr_count : M lapic Z := zoom apic_counter.

(** [(edx & 0x0f) << 32] shifts a 32-bit value by 32, which C leaves
    undefined: the value the compiled code gives is an argument. *)
Definition cpu_get_apic_base (shl32 : Z → Z) : M lapic Z :=
  r ← zoom (read_msr IA32_APIC_BASE_MSR);
  mret (Z.lor (Z.land (fst r) 0xfffff000) (shl32 (Z.land (snd r) 0x0f))).

Definition cpu_set_apic_base (apic : Z) : M lapic unit :=
  let edx := u32 (Z.land (Z.shiftr apic 32) 0x0f) in
  let eax := u32 (Z.lor (Z.land apic 0xfffff0000) IA32_APIC_BASE_MSR_ENABLE) in
  zoom (write_msr IA32_APIC_BASE_MSR eax edx).

(** The polarity bits [configure_nmis] derives from the flags of an entry. *)
Definition nmi_lvt_flags (flags : Z) : Z :=
  if Z.land flags MADT_ACTIVE_HIGH =? MADT_ACTIVE_HIGH then MADT_ACTIVE_HIGH
  else if Z.land flags MADT_ACTIVE_LOW =? MADT_ACTIVE_LOW then MADT_ACTIVE_LOW
  else 0.

Fixpoint configure_nmis (cpus : list MadtLApic) (nmis : list MadtLApicNmi) : M lapic unit :=
  match nmis with
  | [] => mret tt
  | nmi :: rest =>
      (* madt_get_lapics()->acpi_id is read only when the first test holds *)
      match (if negb (ln_uid nmi =? LAPIC_NMI_ALL_CPUS) then
               match cpus with [] => None | cpu :: _ => Some (negb (ln_uid nmi =? la_acpi_id cpu)) end
             else Some false) with
      | None => fault 0
      | Some true => configure_nmis cpus rest
      | Some false =>
          let lvt_flags := nmi_lvt_flags (ln_flags nmi) in
          (if ln_lint nmi =? 0 then
             write_reg REG_LVT_LINT0 (Z.lor (Z.lor lvt_flags LAPIC_DELIV_MODE_NMI) 0x4)
           else if ln_lint nmi =? 1 then
             write_reg REG_LVT_LINT1 (Z.lor (Z.lor lvt_flags LAPIC_DELIV_MODE_NMI) 0x4)
           else mret tt);;
          configure_nmis cpus rest
      end
  end.

Definition lapic_timer_stop : M lapic unit := write_reg REG_TIMER_INIT_COUNT 0.

Definition calibration_interval_ns : Z := 100000000.

(** The calibration loop, [iterations] times; returns [total_ticks]. *)
Fixpoint calibrate_loop (fuel iterations : nat) (total_ticks : Z) : M lapic Z :=
  match iterations with
  | O => mret total_ticks
  | S iterations' =>
      write_reg REG_TIMER_INIT_COUNT UINT32_MAX;;
      zoom (timer_wait_ns fuel calibration_interval_ns);;
      current_count ← read_curr_count;
      let ticks_elapsed := u32 (UINT32_MAX - current_count) in
      calibrate_loop fuel iterations' (total_ticks +64 ticks_elapsed)
  end.

Definition calibrate_timer (fuel : nat) : M lapic unit :=
  write_reg REG_TIMER_DIV 0x3;;
  total_ticks ← calibrate_loop fuel 5 0;
  modify (λ s, MkLapic (lp_clocks s) (lp_int s) (lapic_hhdm_offset s) (lapic_phys_base s)
    (lapic_base s) (total_ticks `div` 5)).

Definition lapic_ticks (calibration_ticks ns : Z) : Z := (ns *64 calibration_ticks) `div` 100000000.

Definition ns_to_lapic_ticks (ns : Z) : M lapic Z :=
  c ← gets lapic_calibration_ticks; mret (lapic_ticks c ns).

Definition lapic_eoi : M lapic unit := write_reg REG_EOI 0.

Definition lapic_timer_one_shot (ns vec : Z) : M lapic unit :=
  t ← ns_to_lapic_ticks ns;
  let ticks := u32 (clamp t 1 UINT32_MAX) in
  write_reg REG_LVT_TIMER (Z.lor LVT_TIMER_ONE_SHOT vec);;
  write_reg REG_TIMER_INIT_COUNT ticks.

Definition lapic_timer_periodic (ns vec : Z) : M lapic unit :=
  t ← ns_to_lapic_ticks ns;
  let ticks := u32 (clamp t 1 UINT32_MAX) in
  write_reg REG_LVT_TIMER (Z.lor LVT_TIMER_PERIODIC vec);;
  write_reg REG_TIMER_INIT_COUNT ticks.

Definition lapic_timer_tsc_deadline (deadline vec : Z) : M lapic unit :=
  now ← zoom tsc_read_ns;
  lapic_timer_one_shot (deadline -64 now) vec.

Definition lapic_init (shl32 : Z → Z) (fuel : nat) (madt : madt_lists) (offset : Z) : M lapic unit :=
  modify (λ s, MkLapic (lp_clocks s) (lp_int s) offset (lapic_phys_base s) (lapic_base s)
    (lapic_calibration_ticks s));;
  disable_pic;;
  phys ← cpu_get_apic_base shl32;
  modify (λ s, MkLapic (lp_clocks s) (lp_int s) (lapic_hhdm_offset s) phys
    (phys +64 lapic_hhdm_offset s) (lapic_calibration_ticks s));;
  base ← gets lapic_base;
  zoom (vmm_kmap base phys (Z.lor VM_FLAG_WRITE VM_FLAG_NO_CACHE));;
  cpu_set_apic_base phys;;
  zoom (interrupts_set_handler LAPIC_SPURIOUS_VECTOR lapic_spurious_handler);;
  lapic_timer_stop;;
  write_reg REG_SPURIOUS (Z.lor LAPIC_SOFTWARE_ENABLE LAPIC_SPURIOUS_VECTOR);;
  configure_nmis (lapics madt) (lapic_nmis madt);;
  calibrate_timer fuel.

(** ** Claims *)

(** C21: programming the one-shot timer arms it: for an interval whose
    product with the calibration fits in 64 bits, the vector is written first,
    then a count between 1 and 2^32 - 1; the count is the exact quotient, rounded
    down, where that is at least one tick and fits in the register, and
    elsewhere it is clamped to this range. *)
Theorem lapic_timer_one_shot_arms ns vec s :
  0 ≤ ns → 0 ≤ lapic_calibration_ticks s → ns * lapic_calibration_ticks s < 2 ^ 64 →
  wp (lapic_timer_one_shot ns vec) (λ _ s', ∃ ticks,
    mmio (ck_hw (lp_clocks s')) =
      (lapic_base s + REG_TIMER_INIT_COUNT, ticks) :: (lapic_base s + REG_LVT_TIMER, u32 vec) ::
      mmio (ck_hw (lp_clocks s)) ∧
    1 ≤ ticks < 2 ^ 32 ∧
    (calibration_interval_ns ≤ ns * lapic_calibration_ticks s →
     ns * lapic_calibration_ticks s < 2 ^ 32 * calibration_interval_ns →
     ticks = (ns * lapic_calibration_ticks s) `div` calibration_interval_ns)) s.
Proof.
  intros Hn Hc Hov. unfold lapic_timer_one_shot, ns_to_lapic_ticks, lapic_ticks, calibration_interval_ns.
  apply wp_bind, wp_bind, wp_gets, wp_ret. rewrite (wrap_small 64) by nia.
  set (t := (ns * lapic_calibration_ticks s) `div` 100000000).
  assert (1 ≤ clamp t 1 UINT32_MAX ≤ UINT32_MAX) as Hcl by (apply clamp_range; unfold UINT32_MAX; lia).
  rewrite (wrap_small 32 (clamp t 1 UINT32_MAX)) by (unfold UINT32_MAX in *; lia).
  apply wp_bind. unfold write_reg. apply wp_bind, wp_gets, wp_zoom, wp_modify.
  apply wp_bind, wp_gets, wp_zoom, wp_modify. simpl.
  exists (clamp t 1 UINT32_MAX).
  split; [by rewrite (wrap_small 32 (clamp t 1 UINT32_MAX)) by (unfold UINT32_MAX in *; lia)|].
  split; [unfold UINT32_MAX in *; lia|]. intros H1 H2. apply clamp_id.
  unfold t, UINT32_MAX. clear -H1 H2. set (x := ns * _) in *. clearbody x. simpl in *. dlia.
Qed.

(** A deadline that has already passed gets the longest delay instead of
    the shortest: the remaining time wraps around, and with any calibration
    up to 10^13 ticks the count is clamped to 2^32 - 1. *)
Theorem lapic_timer_late_deadline late vec s :
  1 ≤ late ≤ 1000000 → 1 ≤ lapic_calibration_ticks s ≤ 10000000000000 →
  wp (lapic_timer_one_shot (0 -64 late) vec) (λ _ s',
    hd_error (mmio (ck_hw (lp_clocks s'))) =
      Some (lapic_base s + REG_TIMER_INIT_COUNT, UINT32_MAX)) s.
Proof.
  intros Hl Hc. unfold lapic_timer_one_shot, ns_to_lapic_ticks, lapic_ticks.
  apply wp_bind, wp_bind, wp_gets, wp_ret.
  assert ((0 -64 late) = 2 ^ 64 - late) as -> by (unfold wrap; dlia).
  set (c := lapic_calibration_ticks s) in *.
  assert ((2 ^ 64 - late) *64 c = 2 ^ 64 - late * c) as ->.
  { unfold wrap. replace ((2 ^ 64 - late) * c) with (2 ^ 64 - late * c + (c - 1) * 2 ^ 64) by lia.
    rewrite Z.mod_add by lia. apply Z.mod_small. nia. }
  assert (UINT32_MAX < (2 ^ 64 - late * c) `div` 100000000) as Hbig.
  { unfold UINT32_MAX. apply Z.lt_le_trans with ((2 ^ 64 - 10000000000000000000) `div` 100000000);
      [vm_compute; reflexivity|]. apply Z.div_le_mono; [lia|]. nia. }
  assert (clamp ((2 ^ 64 - late * c) `div` 100000000) 1 UINT32_MAX = UINT32_MAX) as ->.
  { unfold clamp. rewrite (proj2 (Z.ltb_ge _ _)), (proj2 (Z.ltb_lt _ _)) by (unfold UINT32_MAX in *; lia).
    done. }
  apply wp_bind. unfold write_reg. apply wp_bind, wp_gets, wp_zoom, wp_modify.
  apply wp_bind, wp_gets, wp_zoom, wp_modify. done.
Qed.

(** Writing the APIC base back moves the APIC: the mask has one zero too
    many, so bits 12 to 15 of the address are cleared and the base read
    afterwards differs from the one that was mapped, unless the address is a
    multiple of 64 KiB. *)
Theorem cpu_set_apic_base_moves shl32 apic s :
  shl32 0 = 0 → 0 ≤ apic < 2 ^ 32 → apic mod 4096 = 0 →
  wp (cpu_set_apic_base apic;; cpu_get_apic_base shl32)
    (λ a _, a = apic - apic mod 2 ^ 16) s.
Proof.
  intros Hs Ha Hal. unfold cpu_set_apic_base, cpu_get_apic_base, IA32_APIC_BASE_MSR_ENABLE.
  assert (Z.shiftr apic 32 = 0) as -> by (rewrite Z.shiftr_div_pow2 by lia; apply Z.div_small; lia).
  assert (Z.land apic 0xfffff0000 = apic - apic mod 2 ^ 16) as ->.
  { change 0xfffff0000 with (2 ^ 36 - 2 ^ 16). apply land_high_mask; lia. }
  set (b := apic - apic mod 2 ^ 16).
  assert (0 ≤ b < 2 ^ 32 ∧ b mod 2 ^ 16 = 0) as [Hb Hbm].
  { unfold b. change (2 ^ 16) with 65536. change (2 ^ 32) with 4294967296 in *. dlia. }
  rewrite (lor_add_disjoint 16 b 0x800) by (try done; lia).
  change (2 ^ 16) with 65536 in *. change (2 ^ 32) with 4294967296 in *.
  rewrite (wrap_small 32) by (simpl; dlia).
  apply wp_bind, wp_zoom, wp_modify. apply wp_bind, wp_zoom. unfold read_msr. apply wp_gets.
  apply wp_ret. simpl. rewrite lookup_insert_eq. simpl.
  change (Z.shiftl (u32 (u32 0)) 32) with 0. rewrite Z.lor_0_r.
  rewrite !(wrap_small 32 (b + 2048)) by (simpl; dlia).
  rewrite Z.shiftr_div_pow2 by lia. rewrite (Z.div_small (b + 2048)) by (simpl; dlia).
  change (Z.land (u32 0) 15) with 0. rewrite Hs, Z.lor_0_r.
  change 4294963200 with (2 ^ 32 - 2 ^ 12). rewrite land_high_mask by (simpl; dlia).
  change (2 ^ 12) with 4096. dlia.
Qed.

(** ** Witnesses *)

Definition lapic_demo : lapic :=
  MkLapic clocks_demo interrupts_static 0 0xfee00000 0xfee00000 6250000.

Lemma lapic_timer_one_shot_arms_witness :
  wp (lapic_timer_one_shot 3000000 32) (λ _ s',
    mmio (ck_hw (lp_clocks s')) = [(0xfee00380, 187500); (0xfee00320, 32)]) lapic_demo.
Proof.
  refine (wp_mono _ _ _ _ (lapic_timer_one_shot_arms 3000000 32 lapic_demo _ _ _) _).
  - lia.
  - simpl. lia.
  - vm_compute. reflexivity.
  - intros _ s' (ticks & Hm & _ & Ht). rewrite Hm, Ht; [reflexivity|..].
    + vm_compute. discriminate.
    + vm_compute. reflexivity.
Defined.

Lemma lapic_timer_late_deadline_witness :
  wp (lapic_timer_one_shot (0 -64 1) 32) (λ _ s',
    hd_error (mmio (ck_hw (lp_clocks s'))) = Some (0xfee00380, UINT32_MAX)) lapic_demo.
Proof.
  refine (lapic_timer_late_deadline 1 32 lapic_demo _ _).
  - lia.
  - simpl. lia.
Defined.

Lemma cpu_set_apic_base_moves_witness :
  wp (cpu_set_apic_base 0xfee01000;; cpu_get_apic_base (λ x, x)) (λ a _, a = 0xfee00000) lapic_demo.
Proof.
  refine (cpu_set_apic_base_moves (λ x, x) 0xfee01000 lapic_demo _ _ _).
  - reflexivity.
  - lia.
  - reflexivity.
Defined.
