(* ===== verification/Ioapic.v ===== *)
(** * The I/O APIC: kernel/hardware/ioapic.c

    The chip has two memory-mapped registers: writing a register number to
    IOREGSEL selects the register that IOWIN accesses.  [ioapic_regs]
    interprets the log of writes that way, so the theorems speak of the
    redirection table the chip ends up with. *)

From S2P Require Import Prelude Mem Pmm Paging Vmm Hw Time Interrupts Madt.
Local Open Scope Z_scope.
Local Open Scope kernel_scope.

Definition ISA_IRQ_COUNT : Z := 16.
Definition IOREGSEL : Z := 0x0.
Definition IOWIN : Z := 0x10.
Definition IOAPICVER : Z := 0x1.
Definition IOREDTBL : Z := 0x10.
Definition IOAPIC_DELIV_MODE_FIXED : Z := 0x0.
Definition IOAPIC_DEST_MODE_PHYSICAL : Z := 0x0.
Definition IOAPIC_ACTIVE_HIGH : Z := 0x0.
Definition IOAPIC_ACTIVE_LOW : Z := 0x2000.
Definition IOAPIC_TRIGGER_EDGE : Z := 0x0.
Definition IOAPIC_TRIGGER_LEVEL : Z := 0x8000.

Definition ioapic_dest (lapic_id : Z) : Z := u64 (Z.shiftl lapic_id 56).

(** The static data, with the clocks' state for the mapping and the log. *)
Record ioapic_st := MkIoapic {
  ia_clocks : clocks;
  ioapic_hhdm_offset : Z;
  ioapic_addr : Z;
  ioapic : option MadtIoApic
}.

#[export] Instance ioapic_has_clocks : Has clocks ioapic_st := {|
  prj := ia_clocks;
  upd := λ c s, MkIoapic c (ioapic_hhdm_offset s) (ioapic_addr s) (ioapic s) |}.
#[export] Instance ioapic_has_hw : Has hw ioapic_st := {|
  prj := λ s, ck_hw (ia_clocks s);
  upd := λ h s, upd (upd h (ia_clocks s)) s |}.
#[export] Instance ioapic_has_vmm : Has vmm ioapic_st := {|
  prj := λ s, ck_vmm (ia_clocks s);
  upd := λ v s, upd (upd v (ia_clocks s)) s |}.

(** [*(volatile uint32_t * ) (ioapic_addr + r + hhdm_offset) = val]. *)
Definition ioapic_store (r val : Z) : M ioapic_st unit :=
  addr ← gets ioapic_addr;
  off ← gets ioapic_hhdm_offset;
  zoom (mmio_write (addr +64 r +64 off) (u32 val)).

(** Reading returns what the chip holds in the selected register. *)
Definition read_reg (chip : Z → Z) (reg : Z) : M ioapic_st Z :=
  ioapic_store IOREGSEL (u8 reg);; mret (u32 (chip (u8 reg))).

Definition write_reg (reg val : Z) : M ioapic_st unit :=
  ioapic_store IOREGSEL (u8 reg);; ioapic_store IOWIN val.

Definition ioapic_get_max_redir_entry (chip : Z → Z) : M ioapic_st Z :=
  v ← read_reg chip IOAPICVER; mret (Z.land (Z.shiftr v 16) 0xff).

Definition write_redtbl (gsi val : Z) : M ioapic_st unit :=
  io ← gets ioapic;
  match io with
  | None => fault 0
  | Some io =>
      let relative_gsi := u32 (gsi - io_gsi_base io) in
      let redir_entry_reg_lo := u32 (IOREDTBL + 2 * relative_gsi) in
      let redir_entry_reg_hi := u32 (IOREDTBL + 2 * relative_gsi + 1) in
      write_reg redir_entry_reg_lo (Z.land val 0xffffffff);;
      write_reg redir_entry_reg_hi (Z.shiftr val 32)
  end.

Fixpoint find_iso_by_isa_irq (iso_entries : list MadtIoApicIso) (isa_irq : Z) : option MadtIoApicIso :=
  match iso_entries with
  | [] => None
  | iso :: rest => if iso_source iso =? isa_irq then Some iso else find_iso_by_isa_irq rest isa_irq
  end.

(** The redirection entry built from an override. *)
Definition iso_redtbl_entry (isa_irq_vec flags lapic_id : Z) : Z :=
  let e := Z.lor 0 isa_irq_vec in
  let e :=
    if Z.land flags MADT_ACTIVE_HIGH =? MADT_ACTIVE_HIGH then Z.lor e IOAPIC_ACTIVE_HIGH
    else if Z.land flags MADT_ACTIVE_LOW =? MADT_ACTIVE_LOW then Z.lor e IOAPIC_ACTIVE_LOW
    else e in
  let e :=
    if Z.land flags MADT_TRIGGER_EDGE =? MADT_TRIGGER_EDGE then Z.lor e IOAPIC_TRIGGER_EDGE
    else if Z.land flags MADT_TRIGGER_LEVEL =? MADT_TRIGGER_LEVEL then Z.lor e IOAPIC_TRIGGER_LEVEL
    else e in
  Z.lor e (ioapic_dest lapic_id).

(** The one for an interrupt without an override. *)
Definition isa_redtbl_entry (isa_irq_vec lapic_id : Z) : Z :=
  let e := Z.lor 0 isa_irq_vec in
  let e := Z.lor e IOAPIC_DELIV_MODE_FIXED in
  let e := Z.lor e IOAPIC_DEST_MODE_PHYSICAL in
  let e := Z.lor e IOAPIC_ACTIVE_HIGH in
  let e := Z.lor e IOAPIC_TRIGGER_EDGE in
  Z.lor e (ioapic_dest lapic_id).

Definition ioapic_unmask_isa_irq (madt : madt_lists) (isa_irq : Z) : M ioapic_st unit :=
  kassert (isa_irq <? ISA_IRQ_COUNT) "idk, isa_irq < 'ISA_IRQ_COUNT'";;
  match lapics madt with
  | [] => fault 0
  | cpu :: _ =>
      let isa_irq_vec := interrupts_get_isa_irq_vec isa_irq in
      match find_iso_by_isa_irq (ioapic_isos madt) isa_irq with
      | Some iso =>
          write_redtbl (iso_gsi iso) (iso_redtbl_entry isa_irq_vec (iso_flags iso) (la_lapic_id cpu))
      | None => write_redtbl isa_irq (isa_redtbl_entry isa_irq_vec (la_lapic_id cpu))
      end
  end.

Definition ioapic_init (madt : madt_lists) (offset : Z) : M ioapic_st unit :=
  match ioapics madt with
  | [] => fault 0
  | io :: _ =>
      modify (λ s, MkIoapic (ia_clocks s) offset (io_ioapic_addr io) (Some io));;
      zoom (vmm_kmap (io_ioapic_addr io +64 offset) (io_ioapic_addr io)
              (Z.lor VM_FLAG_WRITE VM_FLAG_NX))
  end.

(** ** The chip *)

(** The registers of the chip at [sel]/[win] after a log of writes, oldest
    last: the selected register number, and the contents. *)
Fixpoint ioapic_regs (sel win : Z) (log : list (Z * Z)) : Z * gmap Z Z :=
  match log with
  | [] => (0, ∅)
  | (a, v) :: log' =>
      let '(cur, regs) := ioapic_regs sel win log' in
      if a =? sel then (v, regs) else if a =? win then (cur, <[cur := v]> regs) else (cur, regs)
  end.

Definition chip_regs (s : ioapic_st) : gmap Z Z :=
  (ioapic_regs (ioapic_addr s + ioapic_hhdm_offset s) (ioapic_addr s + IOWIN + ioapic_hhdm_offset s)
    (mmio (ck_hw (ia_clocks s)))).2.

Definition ioapic_ok (s : ioapic_st) : Prop :=
  0 ≤ ioapic_addr s < 2 ^ 32 ∧ 0 ≤ ioapic_hhdm_offset s ∧
  ioapic_addr s + IOWIN + ioapic_hhdm_offset s < 2 ^ 64.

Lemma wp_write_reg reg val s (Q : unit → ioapic_st → Prop) :
  ioapic_ok s → 0 ≤ reg < 256 → 0 ≤ val < 2 ^ 32 →
  (∀ s', chip_regs s' = <[reg := val]> (chip_regs s) → ioapic s' = ioapic s → ioapic_ok s' → Q tt s') →
  wp (write_reg reg val) Q s.
Proof.
  intros Hok Hr Hv HQ. pose proof Hok as (H1 & H2 & H3). unfold IOWIN in *.
  unfold write_reg, ioapic_store, IOREGSEL, IOWIN. rewrite (wrap_small 8 reg) by lia.
  rewrite !(wrap_small 32 reg), !(wrap_small 32 val) by lia.
  apply wp_bind. apply wp_bind, wp_gets. apply wp_bind, wp_gets. apply wp_zoom, wp_modify.
  apply wp_bind, wp_gets. apply wp_bind, wp_gets. apply wp_zoom, wp_modify.
  apply HQ; [|done|done]. simpl.
  rewrite !(wrap_small 64 (ioapic_addr s + _)) by lia. rewrite !(wrap_small 64) by lia.
  unfold chip_regs, IOWIN. simpl. rewrite Z.add_0_r.
  rewrite (proj2 (Z.eqb_neq (ioapic_addr s + 16 + _) (ioapic_addr s + _))) by lia.
  rewrite !Z.eqb_refl. by destruct (ioapic_regs _ _ _).
Qed.

(** ** Claims *)

(** Unmasking an ISA interrupt writes one redirection entry and nothing
    else: the two halves, at the registers of the override's interrupt line
    if there is an override and of the same number if not, carry the ISA
    vector and the local APIC of the first processor. *)
Theorem ioapic_unmask_isa_irq_routes madt isa_irq s cpu cpus io :
  let vec := interrupts_get_isa_irq_vec isa_irq in
  let '(gsi, e) :=
    match find_iso_by_isa_irq (ioapic_isos madt) isa_irq with
    | Some iso => (iso_gsi iso, iso_redtbl_entry vec (iso_flags iso) (la_lapic_id cpu))
    | None => (isa_irq, isa_redtbl_entry vec (la_lapic_id cpu))
    end in
  0 ≤ isa_irq < 16 → lapics madt = cpu :: cpus → ioapic s = Some io → ioapic_ok s →
  0 ≤ gsi - io_gsi_base io < 100 → 0 ≤ e < 2 ^ 64 →
  wp (ioapic_unmask_isa_irq madt isa_irq) (λ _ s',
    chip_regs s' = <[IOREDTBL + 2 * (gsi - io_gsi_base io) + 1 := Z.shiftr e 32]>
      (<[IOREDTBL + 2 * (gsi - io_gsi_base io) := e mod 2 ^ 32]> (chip_regs s))) s.
Proof.
  intros vec. set (d := match find_iso_by_isa_irq _ _ with Some _ => _ | None => _ end).
  destruct d as [gsi e] eqn:Ed. intros Hi Hl Hio Hok Hg He.
  assert (wp (write_redtbl gsi e) (λ _ s',
    chip_regs s' = <[IOREDTBL + 2 * (gsi - io_gsi_base io) + 1 := Z.shiftr e 32]>
      (<[IOREDTBL + 2 * (gsi - io_gsi_base io) := e mod 2 ^ 32]> (chip_regs s))) s) as Hw.
  { unfold write_redtbl. apply wp_bind, wp_gets. rewrite Hio. cbv zeta. unfold IOREDTBL.
    rewrite !(wrap_small 32 (gsi - _)) by lia. rewrite !(wrap_small 32 (16 + _)) by lia.
    rewrite (wrap_small 32 (16 + _ + 1)) by lia.
    apply wp_bind. apply wp_write_reg; [done|lia| |].
    { change 0xffffffff with (2 ^ 32 - 1). rewrite land_ones_mod by lia. by apply Z.mod_pos_bound. }
    intros s1 E1 Hio1 Hok1. apply wp_write_reg; [done|lia| |].
    { rewrite Z.shiftr_div_pow2 by lia. dlia. }
    intros s2 E2 _ _. rewrite E2, E1. change 0xffffffff with (2 ^ 32 - 1).
    by rewrite land_ones_mod by lia. }
  unfold ioapic_unmask_isa_irq. apply wp_bind, wp_kassert; [apply Z.ltb_lt; unfold ISA_IRQ_COUNT; lia|].
  rewrite Hl. cbv zeta. fold vec. unfold d in Ed.
  destruct (find_iso_by_isa_irq (ioapic_isos madt) isa_irq); injection Ed as -> ->; done.
Qed.

(** An override is never programmed as active low or level triggered:
    the test for active high (edge) also holds for the flags of active low
    (level) and comes first, so bits 13 and 15 of the entry stay clear for
    all flags, unlike the redirection entry the flags ask for. *)
Theorem iso_polarity_lost vec flags lapic_id :
  0 ≤ vec < 256 → 0 ≤ lapic_id < 256 →
  let e := iso_redtbl_entry vec flags lapic_id in
  Z.testbit e 13 = false ∧ Z.testbit e 15 = false.
Proof.
  intros Hv Hl. unfold iso_redtbl_entry.
  assert (∀ f hi lo, Z.land lo hi = hi → Z.land f lo = lo → Z.land f hi = hi) as Hsub.
  { intros f hi lo E1 E2. rewrite <-E1 at 2. rewrite <-E2, <-Z.land_assoc. by rewrite E1. }
  assert (∀ i, 8 ≤ i < 56 → Z.testbit vec i = false ∧ Z.testbit (ioapic_dest lapic_id) i = false) as Hb.
  { intros i Hi. split; [apply (testbit_small 8); lia|]. unfold ioapic_dest, wrap.
    rewrite Z.testbit_mod_pow2 by lia. rewrite Z.shiftl_spec_low by lia. by rewrite andb_false_r. }
  assert ((if Z.land flags MADT_ACTIVE_HIGH =? MADT_ACTIVE_HIGH then Z.lor (Z.lor 0 vec) IOAPIC_ACTIVE_HIGH
    else if Z.land flags MADT_ACTIVE_LOW =? MADT_ACTIVE_LOW then Z.lor (Z.lor 0 vec) IOAPIC_ACTIVE_LOW
    else Z.lor 0 vec) = vec) as ->.
  { unfold IOAPIC_ACTIVE_HIGH. rewrite Z.lor_0_l, Z.lor_0_r. destruct (Z.eqb_spec (Z.land flags MADT_ACTIVE_HIGH) MADT_ACTIVE_HIGH) as [|Hn]; [done|].
    destruct (Z.eqb_spec (Z.land flags MADT_ACTIVE_LOW) MADT_ACTIVE_LOW) as [E|]; [|done].
    destruct Hn. by apply (Hsub flags MADT_ACTIVE_HIGH MADT_ACTIVE_LOW). }
  assert ((if Z.land flags MADT_TRIGGER_EDGE =? MADT_TRIGGER_EDGE then Z.lor vec IOAPIC_TRIGGER_EDGE
    else if Z.land flags MADT_TRIGGER_LEVEL =? MADT_TRIGGER_LEVEL then Z.lor vec IOAPIC_TRIGGER_LEVEL
    else vec) = vec) as ->.
  { unfold IOAPIC_TRIGGER_EDGE. rewrite Z.lor_0_r.
    destruct (Z.eqb_spec (Z.land flags MADT_TRIGGER_EDGE) MADT_TRIGGER_EDGE) as [|Hn]; [done|].
    destruct (Z.eqb_spec (Z.land flags MADT_TRIGGER_LEVEL) MADT_TRIGGER_LEVEL) as [E|]; [|done].
    destruct Hn. by apply (Hsub flags MADT_TRIGGER_EDGE MADT_TRIGGER_LEVEL). }
  rewrite !Z.lor_spec. destruct (Hb 13 ltac:(lia)) as [-> ->], (Hb 15 ltac:(lia)) as [-> ->]. done.
Qed.

(** ** Witnesses *)

Definition ioapic_demo : ioapic_st :=
  MkIoapic clocks_demo 0xffff800000000000 0xfec00000 (Some (MkIoApic 0 0 0xfec00000 0)).
Definition ioapic_demo_madt : madt_lists :=
  MkLists [MkLApic 0 1 1] [] [MkIoApic 0 0 0xfec00000 0] [] [MkIso 0 0 2 0].

Lemma ioapic_unmask_isa_irq_routes_witness :
  wp (ioapic_unmask_isa_irq ioapic_demo_madt 0) (λ _ s',
    chip_regs s' = <[0x15 := 0x01000000]> (<[0x14 := 0x30]> ∅)) ioapic_demo.
Proof.
  refine (ioapic_unmask_isa_irq_routes ioapic_demo_madt 0 ioapic_demo (MkLApic 0 1 1) []
    (MkIoApic 0 0 0xfec00000 0) _ _ _ _ _ _).
  - lia.
  - reflexivity.
  - reflexivity.
  - unfold ioapic_ok, IOWIN. simpl. lia.
  - simpl. lia.
  - vm_compute. split; [discriminate|reflexivity].
Defined.

Lemma iso_polarity_lost_witness :
  let e := iso_redtbl_entry 0x39 0xf 1 in Z.testbit e 13 = false ∧ Z.testbit e 15 = false.
Proof. apply iso_polarity_lost; lia. Defined.
