(* ===== verification/Thread.v ===== *)
(** * Threads, processes and thread lists: kernel/multitasking/thread.c,
      process.c and the first part of sched.c

    The state of the multitasking code: the objects it keeps on the heap, by
    address, each kind in a map of its own; the static variables; the event
    queue, the local APIC and the allocator it calls.  A new block holds
    whatever its memory held before: [fresh_thread], [fresh_proc] and
    [fresh_stack] stand for these contents. *)

From S2P Require Import Prelude Mem Pmm Paging Vmm Hw Time Interrupts Madt Lapic Events Alloc.
Local Open Scope Z_scope.
Local Open Scope kernel_scope.

(** ** Data *)

Definition STACK_SIZE : Z := 4096 * 4.
Definition THREAD_MAX_NAME_LENGTH : nat := 64.
Definition PROCESS_MAX_NAME_LENGTH : nat := 64.

Inductive ThreadStatus :=
| THREAD_READY
| THREAD_RUNNING
| THREAD_SLEEPING
| THREAD_BLOCKED
| THREAD_DONE.

#[export] Instance ThreadStatus_eq_dec : EqDecision ThreadStatus.
Proof. solve_decision. Defined.

(** The functions whose addresses are stored in initial stacks. *)
Inductive code := fn_init_thread | fn_one | fn_two | fn_idle | fn_reap | fn_other (addr : Z).

(** What [switch_context] pops: the saved registers, the flags, and the two
    addresses that are returned to. *)
Record InitialKStack := MkKStack {
  ks_r12 : Z; ks_r13 : Z; ks_r14 : Z; ks_r15 : Z; ks_rbp : Z; ks_rbx : Z;
  ks_rflags : Z;
  ks_init_thread : code;
  ks_entry : code
}.

Record Thread := MkThread {
  t_rsp : Z;
  t_cr3 : Z;
  t_rsp_base : Z;
  t_tid : Z;
  t_process : Z;
  t_name : string;
  t_status : ThreadStatus;
  t_event : Z;
  t_sleep_until : Z;
  t_next : Z
}.

Definition set_rsp (v : Z) (t : Thread) : Thread :=
  MkThread v (t_cr3 t) (t_rsp_base t) (t_tid t) (t_process t) (t_name t) (t_status t) (t_event t)
    (t_sleep_until t) (t_next t).
Definition set_rsp_base (v : Z) (t : Thread) : Thread :=
  MkThread (t_rsp t) (t_cr3 t) v (t_tid t) (t_process t) (t_name t) (t_status t) (t_event t)
    (t_sleep_until t) (t_next t).
Definition set_tid (v : Z) (t : Thread) : Thread :=
  MkThread (t_rsp t) (t_cr3 t) (t_rsp_base t) v (t_process t) (t_name t) (t_status t) (t_event t)
    (t_sleep_until t) (t_next t).
Definition set_process (v : Z) (t : Thread) : Thread :=
  MkThread (t_rsp t) (t_cr3 t) (t_rsp_base t) (t_tid t) v (t_name t) (t_status t) (t_event t)
    (t_sleep_until t) (t_next t).
Definition set_name (v : string) (t : Thread) : Thread :=
  MkThread (t_rsp t) (t_cr3 t) (t_rsp_base t) (t_tid t) (t_process t) v (t_status t) (t_event t)
    (t_sleep_until t) (t_next t).
Definition set_status (v : ThreadStatus) (t : Thread) : Thread :=
  MkThread (t_rsp t) (t_cr3 t) (t_rsp_base t) (t_tid t) (t_process t) (t_name t) v (t_event t)
    (t_sleep_until t) (t_next t).
Definition set_event (v : Z) (t : Thread) : Thread :=
  MkThread (t_rsp t) (t_cr3 t) (t_rsp_base t) (t_tid t) (t_process t) (t_name t) (t_status t) v
    (t_sleep_until t) (t_next t).

Record Process := MkProcess {
  pr_pid : Z; pr_name : string; pr_pml4 : Z; pr_threads : Z; pr_next : Z
}.

Record ThreadListNode := MkNode { tn_thread : Z; tn_next : Z }.
Record ThreadList := MkTList { tl_head : Z; tl_tail : Z }.

(** The sizes passed to [kmalloc]. *)
Definition sizeof_Thread : Z := 136.
Definition sizeof_Process : Z := 96.
Definition sizeof_Event : Z := 72.
Definition sizeof_ThreadListNode : Z := 16.
Definition sizeof_ThreadList : Z := 16.
Definition sizeof_InitialKStack : Z := 72.

(** ** Control

    A stack is the list of the points its functions return to, innermost
    first.  These are the points between which the scheduler runs without a
    change of stack; [saved] holds the stacks of the threads that were
    switched from, with the interrupt flag of the saved rflags. *)
Inductive frame :=
| FRun (entry : code)        (** the thread's own code *)
| FBoot                      (** the boot code, in sched_init *)
| FInitThread (prev : Z)     (** init_thread, at its start *)
| FResched (old : Z)         (** switch_thread, after switch_context returned *)
| FYield                     (** thread_sleep, before thread_yield *)
| FHandle                    (** handle_next_event, at its start *)
| FLoop                      (** handle_next_event, at the head of its loop *)
| FRemove (event : Z)        (** handle_next_event, before event_remove *)
| FIret.                     (** the interrupt stub, before iret *)

#[export] Instance code_eq_dec : EqDecision code.
Proof. solve_decision. Defined.
#[export] Instance frame_eq_dec : EqDecision frame.
Proof. solve_decision. Defined.

(** ** State *)

Record objs := MkObjs {
  threads : gmap Z Thread;
  procs : gmap Z Process;
  nodes : gmap Z ThreadListNode;
  tlists : gmap Z ThreadList;
  stacks : gmap Z InitialKStack;
  saved : gmap Z (list frame * bool)
}.

(** The static variables, and the interrupt flag. *)
Record vars := MkVars {
  tid_counter : Z;
  pid_counter : Z;
  kernel_process : Z;
  ready_threads : Z;
  finished_threads : Z;
  idle_thread : Z;
  current_thread : Z;
  IRQ_disable_counter : Z;
  IF : bool
}.

Section kernel.
Context {A : Type} `{Allocator A}.

Record kern := MkKern { k_alloc : A; k_lapic : lapic; k_evq : evq; k_objs : objs; k_vars : vars }.

#[export] Instance kern_has_alloc : Has A kern := {|
  prj := k_alloc; upd := λ a s, MkKern a (k_lapic s) (k_evq s) (k_objs s) (k_vars s) |}.
#[export] Instance kern_has_lapic : Has lapic kern := {|
  prj := k_lapic; upd := λ l s, MkKern (k_alloc s) l (k_evq s) (k_objs s) (k_vars s) |}.
#[export] Instance kern_has_evq : Has evq kern := {|
  prj := k_evq; upd := λ q s, MkKern (k_alloc s) (k_lapic s) q (k_objs s) (k_vars s) |}.
#[export] Instance kern_has_objs : Has objs kern := {|
  prj := k_objs; upd := λ o s, MkKern (k_alloc s) (k_lapic s) (k_evq s) o (k_vars s) |}.
#[export] Instance kern_has_vars : Has vars kern := {|
  prj := k_vars; upd := λ v s, MkKern (k_alloc s) (k_lapic s) (k_evq s) (k_objs s) v |}.

Definition kmalloc_obj (size : Z) : M kern Z := zoom (al_alloc size).
Definition kfree_obj (p : Z) : M kern unit := zoom (al_free p).

Definition get_var {B : Type} (f : vars → B) : M kern B := gets (λ s, f (k_vars s)).
Definition set_vars (f : vars → vars) : M kern unit := zoom (modify f).

Definition get_thread (p : Z) : M kern Thread := λ s,
  match threads (k_objs s) !! p with Some t => Ok (t, s) | None => Fault p end.
Definition put_thread (p : Z) (t : Thread) : M kern unit :=
  zoom (modify (λ o, MkObjs (<[p := t]> (threads o)) (procs o) (nodes o) (tlists o) (stacks o) (saved o))).
(** [p->field = v]. *)
Definition upd_thread (p : Z) (f : Thread → Thread) : M kern unit :=
  t ← get_thread p; put_thread p (f t).

Definition put_proc (p : Z) (pr : Process) : M kern unit :=
  zoom (modify (λ o, MkObjs (threads o) (<[p := pr]> (procs o)) (nodes o) (tlists o) (stacks o) (saved o))).
Definition put_stack (p : Z) (st : InitialKStack) : M kern unit :=
  zoom (modify (λ o, MkObjs (threads o) (procs o) (nodes o) (tlists o) (<[p := st]> (stacks o)) (saved o))).

Definition get_node (p : Z) : M kern ThreadListNode := λ s,
  match nodes (k_objs s) !! p with Some n => Ok (n, s) | None => Fault p end.
Definition put_nodes (f : gmap Z ThreadListNode → gmap Z ThreadListNode) : M kern unit :=
  zoom (modify (λ o, MkObjs (threads o) (procs o) (f (nodes o)) (tlists o) (stacks o) (saved o))).
Definition get_list (p : Z) : M kern ThreadList := λ s,
  match tlists (k_objs s) !! p with Some l => Ok (l, s) | None => Fault p end.
Definition put_list (p : Z) (l : ThreadList) : M kern unit :=
  zoom (modify (λ o, MkObjs (threads o) (procs o) (nodes o) (<[p := l]> (tlists o)) (stacks o) (saved o))).

(** ** Thread lists *)

Definition thread_list_new : M kern Z :=
  list ← kmalloc_obj sizeof_ThreadList;
  put_list list (MkTList 0 0);;
  mret list.

Definition thread_list_add (list t : Z) : M kern unit :=
  node ← kmalloc_obj sizeof_ThreadListNode;
  put_nodes (<[node := MkNode t 0]>);;
  l ← get_list list;
  if tl_head l =? 0 then put_list list (MkTList node node)
  else
    (tail ← get_node (tl_tail l);
     put_nodes (<[tl_tail l := MkNode (tn_thread tail) node]>));;
    put_list list (MkTList (tl_head l) node).

(** [kfree(head)] ends the life of the node. *)
Definition thread_list_get_next (list : Z) : M kern Z :=
  l ← get_list list;
  let head := tl_head l in
  if head =? 0 then mret 0 else
  n ← get_node head;
  put_list list (MkTList (tn_next n) (if tn_next n =? 0 then 0 else tl_tail l));;
  kfree_obj head;;
  put_nodes (delete head);;
  mret (tn_thread n).

(** ** Events, processes and threads *)

Definition event_create : M kern Z :=
  new_event ← kmalloc_obj sizeof_Event;
  zoom (modify (λ q : evq, MkEvq (<[new_event := event_init]> (evs q)) (event_root q)));;
  mret new_event.

Definition event_destroy (to_destroy : Z) : M kern unit :=
  kfree_obj to_destroy;;
  zoom (modify (λ q : evq, MkEvq (delete to_destroy (evs q)) (event_root q))).

Variable fresh_thread : Z → Thread.
Variable fresh_proc : Z → Process.
Variable fresh_stack : Z → InitialKStack.

(** [strcpy] into an array of [n] characters; beyond its end it writes over
    what follows the array. *)
Definition fits (n : nat) (name : string) : bool := (String.length name <? n)%nat.

Definition process_create (name : string) (pml4 : Z) : M kern Z :=
  process ← kmalloc_obj sizeof_Process;
  pid ← get_var pid_counter;
  set_vars (λ v, MkVars (tid_counter v) (u64 (pid_counter v + 1)) (kernel_process v) (ready_threads v)
    (finished_threads v) (idle_thread v) (current_thread v) (IRQ_disable_counter v) (IF v));;
  if negb (fits PROCESS_MAX_NAME_LENGTH name) then fault process else
  let f := fresh_proc process in
  put_proc process (MkProcess pid name pml4 (pr_threads f) (pr_next f));;
  mret process.

Definition set_event_owner (p : Z) (e : Event) : Event :=
  MkEvent p (ev_time e) (ev_enqueued e) (ev_callback e) (ev_kind e) (ev_callback_arg e)
    (ev_left e) (ev_right e) (ev_parent e).

Definition thread_kcreate (name : string) (entry : code) (proc : Z) : M kern Z :=
  t ← kmalloc_obj sizeof_Thread;
  put_thread t (fresh_thread t);;
  (if fits THREAD_MAX_NAME_LENGTH name then upd_thread t (set_name name) else fault t);;
  tid ← get_var tid_counter;
  set_vars (λ v, MkVars (u64 (tid_counter v + 1)) (pid_counter v) (kernel_process v) (ready_threads v)
    (finished_threads v) (idle_thread v) (current_thread v) (IRQ_disable_counter v) (IF v));;
  upd_thread t (set_tid tid);;
  upd_thread t (set_process proc);;
  rsp_base ← kmalloc_obj STACK_SIZE;
  upd_thread t (set_rsp_base rsp_base);;
  let stack := rsp_base +64 STACK_SIZE -64 sizeof_InitialKStack in
  let f := fresh_stack stack in
  put_stack stack (MkKStack (ks_r12 f) (ks_r13 f) (ks_r14 f) (ks_r15 f) (ks_rbp f) (ks_rbx f)
    0x202 fn_init_thread entry);;
  upd_thread t (set_rsp stack);;
  event ← event_create;
  upd_thread t (set_event event);;
  zoom (upd_event event (set_event_owner t));;
  upd_thread t (set_status THREAD_READY);;
  mret t.
End kernel.
Arguments kern A : clear implicits.
