(* ===== verification/Sched.v ===== *)
(** * The scheduler: kernel/multitasking/sched.c and sched.asm

    One processor runs; a context switch replaces the stack of the running
    thread by a saved one.  A C function that can switch returns the stack to
    go on with, and [step] executes the running stack up to its next control
    point.  [irq] is the arrival of the timer interrupt, possible between any
    two control points while the interrupt flag is set and the one-shot timer
    is armed.  [sched_step] combines the two: what a thread's own code does
    (compute, yield, sleep) and when the interrupt comes is up to the
    environment. *)

From S2P Require Import Prelude Mem Pmm Paging Vmm Hw Time Interrupts Madt Lapic Events Alloc Thread.
Local Open Scope Z_scope.
Local Open Scope kernel_scope.

Definition SCHED_THREAD_QUANTUM : Z := 3000000.
Definition TIMER_VECTOR : Z := 32.

(** [*e] with the fields the scheduler sets before it enqueues an event. *)
Definition set_call (time : Z) (cb : EventCallback) (arg : Z) (kind : string) (e : Event) : Event :=
  MkEvent (ev_owner e) time (ev_enqueued e) cb kind arg (ev_left e) (ev_right e) (ev_parent e).

(** What the code of a thread does next. *)
Inductive action := ACompute | AYield | ASleep (ns : Z).

(** The loops of [one] and [two] between two messages; [idle] pauses and
    [reap] takes finished threads off their list. *)
Definition thread_action (entry : code) : action :=
  match entry with
  | fn_one => ASleep (from_ms 1000)
  | fn_two => ASleep (from_ms 3000)
  | _ => ACompute
  end.

Section sched.
Context {A : Type} `{Allocator A}.

Definition set_irq_counter (f : Z → Z) : M (kern A) unit :=
  set_vars (λ v, MkVars (tid_counter v) (pid_counter v) (kernel_process v) (ready_threads v)
    (finished_threads v) (idle_thread v) (current_thread v) (f (IRQ_disable_counter v)) (IF v)).
(** [cli] and [sti]. *)
Definition set_IF (b : bool) : M (kern A) unit :=
  set_vars (λ v, MkVars (tid_counter v) (pid_counter v) (kernel_process v) (ready_threads v)
    (finished_threads v) (idle_thread v) (current_thread v) (IRQ_disable_counter v) b).
Definition set_current (t : Z) : M (kern A) unit :=
  set_vars (λ v, MkVars (tid_counter v) (pid_counter v) (kernel_process v) (ready_threads v)
    (finished_threads v) (idle_thread v) t (IRQ_disable_counter v) (IF v)).

Definition lock_scheduler : M (kern A) unit :=
  set_IF false;; set_irq_counter (λ n, n + 1).

Definition unlock_scheduler : M (kern A) unit :=
  set_irq_counter (λ n, n - 1);;
  n ← get_var IRQ_disable_counter;
  if n =? 0 then set_IF true else mret tt.

(** [tsc_read_ns] through the local APIC's state, which contains the clocks. *)
Definition now_ns : M (kern A) Z := zoom (zoom tsc_read_ns : M lapic Z).

(** [current_thread->event->time = ...; ...->callback = ...; ...;
    event_enqueue(current_thread->event)]. *)
Definition schedule_current (time : Z) (cb : EventCallback) (arg : Z) (kind : string) : M (kern A) unit :=
  cur ← get_var current_thread;
  c ← get_thread cur;
  zoom (upd_event (t_event c) (set_call time cb arg kind));;
  zoom (event_enqueue (t_event c)).

Definition maybe_reschedule_thread (thread : Z) : M (kern A) unit :=
  lock_scheduler;;
  idle ← get_var idle_thread;
  (if negb (thread =? idle) then
     t ← get_thread thread;
     match t_status t with
     | THREAD_READY | THREAD_RUNNING =>
         upd_thread thread (set_status THREAD_READY);;
         ready ← get_var ready_threads;
         thread_list_add ready thread
     | _ => mret tt
     end
   else mret tt);;
  now ← now_ns;
  schedule_current (now +64 SCHED_THREAD_QUANTUM) cb_switch_thread 0 "switch";;
  unlock_scheduler.

Definition get_next_thread : M (kern A) Z :=
  ready ← get_var ready_threads;
  ready_t ← thread_list_get_next ready;
  if negb (ready_t =? 0) then mret ready_t else get_var idle_thread.

(** sched.asm: the stack of [old], which goes on with [rest], is saved and
    that of [new] loaded; the result [old] is passed on in rax to a thread
    that had called [switch_context], in rdi to a new one. *)
Definition switch_context (old new : Z) (rest : list frame) : M (kern A) (list frame) :=
  f ← get_var IF;
  get_thread old;;
  zoom (modify (λ o, MkObjs (threads o) (procs o) (nodes o) (tlists o) (stacks o)
    (<[old := (rest, f)]> (saved o))));;
  n ← get_thread new;
  o ← gets k_objs;
  match saved o !! new with
  | Some (rest', f') => set_IF f';; mret (FResched old :: rest')
  | None =>
      match stacks o !! t_rsp n with
      | Some st =>
          set_IF (Z.testbit (ks_rflags st) 9);;
          mret (match ks_init_thread st with
                | fn_init_thread => [FInitThread old; FRun (ks_entry st)]
                | f => [FRun f]
                end)
      | None => fault (t_rsp n)
      end
  end.

(** [rest]: where the caller goes on. *)
Definition switch_thread (rest : list frame) : M (kern A) (list frame) :=
  this ← get_var current_thread;
  next ← get_next_thread;
  if next =? this then
    now ← now_ns;
    schedule_current (now +64 SCHED_THREAD_QUANTUM) cb_switch_thread 0 "switch same";;
    mret rest
  else
    set_current next;;
    upd_thread next (set_status THREAD_RUNNING);;
    switch_context this next rest.

Definition timer_fire_at (time : Z) : M (kern A) unit :=
  now ← now_ns;
  zoom (lapic_timer_one_shot (time -64 now) TIMER_VECTOR).

Definition thread_wake (t : Z) : M (kern A) unit :=
  th ← get_thread t;
  kassert (bool_decide (t_status th = THREAD_SLEEPING)) "trying to wake an already awake thread";;
  upd_thread t (set_status THREAD_READY);;
  ready ← get_var ready_threads;
  thread_list_add ready t.

Definition thread_yield (rest : list frame) : M (kern A) (list frame) := switch_thread rest.

(** [thread_sleep] up to its call of [thread_yield]. *)
Definition thread_sleep_locked (time : Z) : M (kern A) unit :=
  lock_scheduler;;
  now ← now_ns;
  let wake_time := now +64 time in
  cur ← get_var current_thread;
  upd_thread cur (set_status THREAD_SLEEPING);;
  schedule_current wake_time cb_thread_wake cur "wake";;
  unlock_scheduler.

(** The call of an event's callback. *)
Definition run_callback (cb : EventCallback) (arg : Z) (rest : list frame) : M (kern A) (list frame) :=
  match cb with
  | cb_null => fault 0
  | cb_switch_thread => switch_thread rest
  | cb_thread_wake => thread_wake arg;; mret rest
  end.

(** The end of [handle_next_event]. *)
Definition arm_next : M (kern A) unit :=
  next ← zoom event_peek_next;
  if next =? ev_null then mret tt else
  e ← zoom (get_event next);
  timer_fire_at (ev_time e).

(** The head of the loop of [handle_next_event]: the next control point. *)
Definition handle_loop : M (kern A) (list frame) :=
  event ← zoom event_peek_next;
  if event =? ev_null then arm_next;; mret [] else
  e ← zoom (get_event event);
  now ← now_ns;
  if now <? ev_time e then arm_next;; mret [] else mret [FRemove event].

(** The rest of the loop's body. *)
Definition handle_event (event : Z) (rest : list frame) : M (kern A) (list frame) :=
  zoom (event_remove event);;
  e ← zoom (get_event event);
  run_callback (ev_callback e) (ev_callback_arg e) rest.

(** ** The machine *)

(** From the running stack to the next control point. *)
Definition step (a : action) (stk : list frame) : M (kern A) (list frame) :=
  match stk with
  | [] => mret []
  | FRun _ :: rest =>
      match a with
      | ACompute => mret stk
      | AYield => thread_yield stk
      | ASleep ns => thread_sleep_locked ns;; mret (FYield :: stk)
      end
  | FBoot :: _ => mret stk
  | FInitThread prev :: rest => maybe_reschedule_thread prev;; mret (FHandle :: rest)
  | FResched old :: rest => maybe_reschedule_thread old;; mret rest
  | FYield :: rest => thread_yield rest
  | FHandle :: rest => zoom lapic_eoi;; mret (FLoop :: rest)
  | FLoop :: rest =>
      k ← handle_loop;
      mret (match k with [] => rest | _ => k ++ FLoop :: rest end)
  | FRemove event :: rest => handle_event event rest
  | FIret :: rest => set_IF true;; mret rest
  end.

(** The one-shot timer is armed by a non-zero initial count and disarmed when
    it fires; [fired] is the length the log of device writes had then. *)
Fixpoint last_count (base : Z) (log : list (Z * Z)) : option Z :=
  match log with
  | [] => None
  | (a, v) :: log' => if a =? base + REG_TIMER_INIT_COUNT then Some v else last_count base log'
  end.

Definition timer_armed (fired : nat) (s : kern A) : bool :=
  let log := mmio (ck_hw (lp_clocks (k_lapic s))) in
  match last_count (lapic_base (k_lapic s)) (take (length log - fired) log) with
  | Some n => negb (n =? 0)
  | None => false
  end.

(** The interrupt: the processor clears the flag and the dispatcher calls the
    handler of the vector. *)
Definition irq (stk : list frame) : M (kern A) (list frame) :=
  set_IF false;;
  h ← zoom (zoom (interrupt_dispatch (MkCtx TIMER_VECTOR 0)) : M lapic _);
  match h with
  | Some handle_next_event_handler => mret (FHandle :: FIret :: stk)
  | _ => mret (FIret :: stk)
  end.

Record machine := MkMachine { mc_stack : list frame; mc_kern : kern A; mc_fired : nat }.

Inductive label := LStep (a : action) | LIrq.

Definition irq_enabled (mc : machine) : bool :=
  IF (k_vars (mc_kern mc)) && timer_armed (mc_fired mc) (mc_kern mc).

Definition sched_step (l : label) (mc : machine) : res machine :=
  match (match l with
         | LStep a => step a (mc_stack mc) (mc_kern mc)
         | LIrq => irq (mc_stack mc) (mc_kern mc)
         end) with
  | Ok (stk, s) =>
      Ok (MkMachine stk s (match l with
                           | LIrq => length (mmio (ck_hw (lp_clocks (k_lapic (mc_kern mc)))))
                           | _ => mc_fired mc
                           end))
  | Panic msg => Panic msg
  | Fault addr => Fault addr
  | NoFuel => NoFuel
  end.

(** [reap]: the finished threads are taken off their list, their names logged;
    one round of the outer loop. *)
Fixpoint reap_round (fuel : nat) : M (kern A) (list string) :=
  finished ← get_var finished_threads;
  to_be_reaped ← thread_list_get_next finished;
  if to_be_reaped =? 0 then mret [] else
  match fuel with
  | O => nofuel
  | S fuel' => t ← get_thread to_be_reaped; l ← reap_round fuel'; mret (t_name t :: l)
  end.

(** ** Initialisation *)

Variable fresh_thread : Z → Thread.
Variable fresh_proc : Z → Process.
Variable fresh_stack : Z → InitialKStack.

(** Up to the call of [handle_next_event], which runs on the boot stack. *)
Definition sched_init_data : M (kern A) unit :=
  ready ← thread_list_new;
  finished ← thread_list_new;
  pml4 ← zoom (zoom vmm_get_kernel_pml4 : M lapic Z);
  set_vars (λ v, MkVars (tid_counter v) (pid_counter v) (kernel_process v) ready finished
    (idle_thread v) (current_thread v) (IRQ_disable_counter v) (IF v));;
  kp ← process_create fresh_proc "kernel" pml4;
  set_vars (λ v, MkVars (tid_counter v) (pid_counter v) kp (ready_threads v) (finished_threads v)
    (idle_thread v) (current_thread v) (IRQ_disable_counter v) (IF v));;
  init ← kmalloc_obj sizeof_Thread;
  put_thread init (fresh_thread init);;
  upd_thread init (set_name "init");;
  event ← event_create;
  upd_thread init (set_event event);;
  upd_thread init (set_status THREAD_DONE);;
  idle ← thread_kcreate fresh_thread fresh_stack "idle" fn_idle kp;
  set_vars (λ v, MkVars (tid_counter v) (pid_counter v) (kernel_process v) (ready_threads v)
    (finished_threads v) idle (current_thread v) (IRQ_disable_counter v) (IF v));;
  t_one ← thread_kcreate fresh_thread fresh_stack "one" fn_one kp;
  t_two ← thread_kcreate fresh_thread fresh_stack "two" fn_two kp;
  thread_list_add ready t_one;;
  thread_list_add ready t_two;;
  set_current init;;
  zoom (zoom (interrupts_set_handler TIMER_VECTOR handle_next_event_handler) : M lapic unit);;
  zoom (upd_event event (λ e, set_call (ev_time e) cb_switch_thread (ev_callback_arg e) (ev_kind e) e));;
  zoom (event_enqueue event).

Definition sched_init : M (kern A) (list frame) :=
  sched_init_data;; mret [FHandle; FBoot].
End sched.
Arguments machine A : clear implicits.
