(* ===== verification/ThreadLists.v ===== *)
(** * Thread lists as first-in first-out queues

    A thread list is a chain of heap nodes with a head and a tail pointer.
    [tlist_rep] relates it to the list of its threads; [thread_list_add]
    appends and [thread_list_get_next] removes the first, for every allocator
    that keeps its promise.  [base] is the part of the scheduler's invariant
    that speaks of memory. *)

From S2P Require Import Prelude Mem Pmm Paging Vmm Hw Time Interrupts Madt Lapic Events EventTree EventThms Alloc Thread Sched.
Local Open Scope Z_scope.
Local Open Scope kernel_scope.

(** ** Representation *)

(** The nodes from [h], with their threads. *)
Fixpoint chain (N : gmap Z ThreadListNode) (h : Z) (nl : list (Z * Z)) : Prop :=
  match nl with
  | [] => h = 0
  | (n, t) :: nl' => h = n ∧ n ≠ 0 ∧ ∃ nx, N !! n = Some (MkNode t nx) ∧ chain N nx nl'
  end.

Definition tlist_rep (o : objs) (p : Z) (R : list Z) : Prop :=
  ∃ l nl, tlists o !! p = Some l ∧ chain (nodes o) (tl_head l) nl ∧ NoDup nl.*1 ∧ nl.*2 = R ∧
    tl_tail l = default 0 (last nl.*1).

Section chains.
Implicit Types (N : gmap Z ThreadListNode) (nl : list (Z * Z)).

Lemma chain_ext N N' h nl :
  (∀ n, n ∈ nl.*1 → N' !! n = N !! n) → chain N h nl → chain N' h nl.
Proof.
  revert h. induction nl as [|[n t] nl IH]; intros h He; simpl; [done|].
  intros (-> & Hn & nx & Hl & Hc). split; [done|]. split; [done|]. exists nx.
  rewrite He by set_solver +. split; [done|]. apply IH; [|done]. intros m Hm. apply He. set_solver + Hm.
Qed.

Lemma chain_nodes N h nl n : chain N h nl → n ∈ nl.*1 → n ≠ 0 ∧ is_Some (N !! n).
Proof.
  revert h. induction nl as [|[m t] nl IH]; intros h; simpl; [set_solver|].
  intros (-> & Hm & nx & Hl & Hc) [->|Hn]%elem_of_cons; [|by eapply IH]. eauto.
Qed.

Lemma chain_head N h nl : chain N h nl → h = 0 ↔ nl = [].
Proof. destruct nl as [|[n t] nl]; simpl; [naive_solver|]. intros (-> & Hn & _). by split. Qed.

(** Linking a new node behind the last. *)
Lemma chain_snoc N h nl n0 t0 node t :
  chain N h (nl ++ [(n0, t0)]) → NoDup (nl ++ [(n0, t0)]).*1 → node ∉ (nl ++ [(n0, t0)]).*1 → node ≠ 0 →
  chain (<[n0 := MkNode t0 node]> (<[node := MkNode t 0]> N)) h ((nl ++ [(n0, t0)]) ++ [(node, t)]).
Proof.
  revert h. induction nl as [|[m u] nl IH]; intros h; simpl.
  - intros (-> & Hn & nx & Hl & ->) _ Hnode H0. split; [done|]. split; [done|]. exists node.
    rewrite lookup_insert_eq. split; [done|]. split; [done|]. split; [done|]. exists 0.
    rewrite lookup_insert_ne, lookup_insert_eq by set_solver + Hnode. done.
  - intros (-> & Hm & nx & Hl & Hc) [Hm' Hnd]%NoDup_cons Hnode H0. split; [done|]. split; [done|].
    exists nx. rewrite fmap_app in Hm', Hnode. simpl in Hm', Hnode.
    rewrite !lookup_insert_ne by set_solver + Hm' Hnode. split; [done|].
    apply IH; [done|done| |done]. rewrite fmap_app. set_solver + Hnode.
Qed.

Lemma chain_last N h nl n0 t0 : chain N h (nl ++ [(n0, t0)]) → ∃ nx, N !! n0 = Some (MkNode t0 nx).
Proof.
  revert h. induction nl as [|[m u] nl IH]; intros h; simpl.
  - intros (-> & _ & nx & Hl & _). eauto.
  - intros (-> & _ & nx & _ & Hc). by eapply IH.
Qed.
End chains.

(** ** Memory *)

Section base.
Context {A : Type} {AL : Allocator A} {LAWS : AllocatorLaws A}.

(** The objects are live, and no node is another object. *)
Definition heap_ok (a : A) (q : evq) (o : objs) : Prop :=
  ∃ L, al_rep a L ∧ dom (nodes o) ⊆ L ∧
    dom (threads o) ∪ dom (tlists o) ∪ dom (evs q) ⊆ L ∖ dom (nodes o).

(** The clock is calibrated and the scheduler's interrupt handler installed. *)
Definition lapic_ok (l : lapic) : Prop :=
  tsc_freq (lp_clocks l) ≠ 0 ∧
  int_handlers (lp_int l) !! Z.to_nat TIMER_VECTOR = Some handle_next_event_handler.

Record base (a : A) (l : lapic) (q : evq) (o : objs) (v : vars) (R E : list Z) : Prop := {
  b_heap : heap_ok a q o;
  b_ready : tlist_rep o (ready_threads v) R;
  b_evq : evq_inv q E;
  b_time : by_time (evs q) E;
  b_lapic : lapic_ok l
}.

Definition with_nodes (N : gmap Z ThreadListNode) (TL : gmap Z ThreadList) (o : objs) : objs :=
  MkObjs (threads o) (procs o) N TL (stacks o) (saved o).
Definition with_threads (T : gmap Z Thread) (o : objs) : objs :=
  MkObjs T (procs o) (nodes o) (tlists o) (stacks o) (saved o).

(** ** Operations on a list *)

(** A block that is allocated is none of the objects. *)
Lemma wpo_kmalloc_obj a l q o v n (Q : Z → kern A → Prop) :
  heap_ok a q o → 0 ≤ n < 2 ^ 32 →
  (∀ p a' L, p ≠ 0 → p ∉ dom (threads o) ∪ dom (tlists o) ∪ dom (evs q) ∪ dom (nodes o) →
     al_rep a' ({[p]} ∪ L) → dom (nodes o) ⊆ L → p ∉ L →
     dom (threads o) ∪ dom (tlists o) ∪ dom (evs q) ⊆ L ∖ dom (nodes o) → Q p (MkKern a' l q o v)) →
  wpo (kmalloc_obj n) Q (MkKern a l q o v).
Proof.
  intros (L & Hrep & HN & HO) Hn HQ. unfold kmalloc_obj. apply wpo_zoom. simpl.
  eapply wpo_mono; [by eapply al_alloc_spec|]. intros p a' (Hp & HpL & Hrep'). simpl.
  eapply HQ; [done| |done|done|done|done]. set_solver + HN HO HpL.
Qed.

Lemma wpo_thread_list_add a l q o v p R t (Q : unit → kern A → Prop) :
  heap_ok a q o → tlist_rep o p R →
  (∀ a' N TL, heap_ok a' q (with_nodes N TL o) → tlist_rep (with_nodes N TL o) p (R ++ [t]) →
     (∀ p', p' ≠ p → TL !! p' = tlists o !! p') →
     Q tt (MkKern a' l q (with_nodes N TL o) v)) →
  wpo (thread_list_add p t) Q (MkKern a l q o v).
Proof.
  intros Hheap (tl & nl & Hl & Hc & Hnd & <- & Htl) HQ. unfold thread_list_add.
  apply wpo_bind. eapply wpo_kmalloc_obj; [done|unfold sizeof_ThreadListNode; lia|].
  intros node a' L H0 Hf Hrep HN HpL HO.
  assert (p ∈ dom (tlists o)) as Hpd by (apply elem_of_dom; eauto).
  assert (node ∉ nl.*1) as Hnl.
  { intros [_ [? ?%elem_of_dom_2]]%(chain_nodes _ _ _ _ Hc). set_solver. }
  assert (∀ N TL, dom N = {[node]} ∪ dom (nodes o) → dom TL = dom (tlists o) →
    heap_ok a' q (with_nodes N TL o)) as Hheap'.
  { intros N TL EN ET. exists ({[node]} ∪ L). simpl. rewrite EN, ET.
    split; [done|]. split; [set_solver + HN|]. set_solver + HO Hf. }
  apply wpo_bind. unfold put_nodes. apply wpo_zoom, wpo_modify. simpl.
  apply wpo_bind. unfold get_list, wpo at 1. simpl. rewrite Hl.
  destruct (Z.eqb_spec (tl_head tl) 0) as [E|E].
  - apply (chain_head _ _ _ Hc) in E as ->. unfold put_list. apply wpo_zoom, wpo_modify. simpl.
    apply HQ.
    + apply Hheap'; [by rewrite dom_insert_L|]. rewrite dom_insert_L. set_solver + Hpd.
    + exists (MkTList node node), [(node, t)]. simpl. rewrite lookup_insert_eq.
      split_and!; [done|done|done| |apply NoDup_singleton|done|done].
      exists 0. by rewrite lookup_insert_eq.
    + intros p' Hp'. by rewrite lookup_insert_ne.
  - destruct nl as [|[n0 t0] nl _] using rev_ind.
    { destruct E. by apply (chain_head _ _ _ Hc). }
    rewrite fmap_app, last_app in Htl. simpl in Htl.
    destruct (chain_last _ _ _ _ _ Hc) as [nx Hn0].
    assert (n0 ≠ node) as Hne by (rewrite fmap_app in Hnl; set_solver + Hnl).
    apply wpo_bind. rewrite Htl. apply wpo_bind. unfold get_node, wpo at 1. simpl.
    rewrite lookup_insert_ne, Hn0 by done. unfold put_nodes. apply wpo_zoom, wpo_modify. simpl.
    unfold put_list. apply wpo_zoom, wpo_modify. simpl. apply HQ.
    + apply Hheap'; [|rewrite dom_insert_L; set_solver + Hpd]. rewrite !dom_insert_L.
      apply elem_of_dom_2 in Hn0. set_solver + Hn0.
    + exists (MkTList (tl_head tl) node), ((nl ++ [(n0, t0)]) ++ [(node, t)]). simpl.
      rewrite lookup_insert_eq, !fmap_app, !last_app. simpl.
      split_and!; [done|by apply chain_snoc| |done|done].
      rewrite fmap_app in Hnd, Hnl. simpl in Hnd, Hnl. apply NoDup_app.
      split_and!; [done| |apply NoDup_singleton]. set_solver + Hnl.
    + intros p' Hp'. by rewrite lookup_insert_ne.
Qed.

Lemma wp_thread_list_get_next a l q o v p R (Q : Z → kern A → Prop) :
  heap_ok a q o → tlist_rep o p R → 0 ∉ R →
  (R = [] → Q 0 (MkKern a l q o v)) →
  (∀ t R' a' N TL, R = t :: R' → heap_ok a' q (with_nodes N TL o) →
     tlist_rep (with_nodes N TL o) p R' → (∀ p', p' ≠ p → TL !! p' = tlists o !! p') →
     Q t (MkKern a' l q (with_nodes N TL o) v)) →
  wp (thread_list_get_next p) Q (MkKern a l q o v).
Proof.
  intros (L & Hrep & HN & HO) (tl & nl & Hl & Hc & Hnd & <- & Htl) H0 Hnil Hcons.
  unfold thread_list_get_next. apply wp_bind. unfold get_list, wp at 1. simpl. rewrite Hl.
  destruct nl as [|[n t] nl]; simpl in Hc.
  { rewrite Hc. by apply wp_ret, Hnil. }
  destruct Hc as (-> & Hn & nx & Hnode & Hc). rewrite (proj2 (Z.eqb_neq _ _) Hn).
  apply wp_bind. unfold get_node, wp at 1. simpl. rewrite Hnode. simpl.
  apply wp_bind. unfold put_list. apply wp_zoom, wp_modify. simpl.
  apply elem_of_dom_2 in Hnode as Hnd'.
  apply wp_bind. unfold kfree_obj. apply wp_zoom. simpl.
  eapply wp_mono; [apply (al_free_spec _ L); [done|set_solver + HN Hnd']|]. intros [] a' Hrep'. simpl in Hrep'.
  apply wp_bind. unfold put_nodes. apply wp_zoom, wp_modify. simpl. apply wp_ret.
  apply NoDup_cons in Hnd as [Hnn Hnd]. apply elem_of_dom_2 in Hl as Hpd.
  eapply Hcons; [done| | |].
  - exists (L ∖ {[n]}). simpl. split; [done|]. rewrite dom_delete_L, dom_insert_L.
    split; [set_solver + HN|]. set_solver + HO Hpd Hnd'.
  - eexists _, nl. simpl. rewrite lookup_insert_eq. simpl. split_and!; [done| |done|done|].
    + eapply chain_ext; [|done]. intros m Hm. apply lookup_delete_ne. by intros <-.
    + destruct (Z.eqb_spec nx 0) as [E|E]; simpl.
      * by apply (chain_head _ _ _ Hc) in E as ->.
      * destruct nl as [|[m u] nl]; [by destruct E|]. rewrite Htl. done.
  - intros p' Hp'. by rewrite lookup_insert_ne.
Qed.
End base.
