(* ===== verification/SchedInv.v ===== *)
(** * The scheduler's invariant

    [thr_inv] says where every thread is: running, waiting in the ready list,
    asleep with a wake-up event in the queue, or, between a switch and the
    rescheduling that follows it, just switched from.  It is a relation on
    the maps alone; the lemmas [thr_*] give its transitions.  [kinv] adds the
    memory invariant [base], the saved contexts and the shape of the running
    stack. *)

From S2P Require Import Prelude Mem Pmm Paging Vmm Hw Time Interrupts Madt Lapic Events EventTree EventThms Alloc Thread Sched ThreadLists.
Local Open Scope Z_scope.
Local Open Scope kernel_scope.

(** ** Phases *)

(** Where the running stack is, as far as the threads are concerned. *)
Inductive phase := PNormal | PPending (old : Z) | PYield | PRemove (event : Z).

#[export] Instance phase_eq_dec : EqDecision phase.
Proof. solve_decision. Defined.

Definition phase_of (stk : list frame) : phase :=
  match stk with
  | FInitThread old :: _ | FResched old :: _ => PPending old
  | FYield :: _ => PYield
  | FRemove x :: _ => PRemove x
  | _ => PNormal
  end.

Definition plain (f : frame) : bool :=
  match f with FRun _ | FBoot | FHandle | FLoop | FIret => true | _ => false end.

Definition is_bottom (f : frame) : bool := match f with FRun _ | FBoot => true | _ => false end.

(** A stack that can be returned to. *)
Definition plain_stack (k : list frame) : Prop :=
  Forall (λ f, plain f = true) k ∧ ∃ f, last k = Some f ∧ is_bottom f = true.

(** The running stack: only its top may be inside the scheduler. *)
Definition stack_ok (stk : list frame) : Prop :=
  match stk with
  | [] => False
  | f :: rest => if plain f then plain_stack stk else plain_stack rest
  end.

(** ** Threads *)

(** The callback of an event, with its argument. *)
Definition cb_of (m : gmap Z Event) (x : Z) : option (EventCallback * Z) :=
  (λ e, (ev_callback e, ev_callback_arg e)) <$> m !! x.

Record thr_inv (T : gmap Z Thread) (cb : Z → option (EventCallback * Z)) (R : list Z) (Q : gset Z)
    (c idle : Z) (ph : phase) : Prop := {
  ti_null : T !! 0 = None;
  ti_idle : is_Some (T !! idle);
  ti_idle_status : ∀ th, T !! idle = Some th → t_status th = THREAD_READY ∨ t_status th = THREAD_RUNNING;
  ti_cur : ∃ th, T !! c = Some th ∧
    (c ≠ idle → if decide (ph = PYield) then t_status th = THREAD_SLEEPING
                else t_status th = THREAD_RUNNING ∨ t_status th = THREAD_DONE);
  ti_event : ∀ t th, T !! t = Some th → t_event th ≠ 0 ∧ is_Some (cb (t_event th));
  ti_inj : ∀ t t' th th', T !! t = Some th → T !! t' = Some th' → t_event th = t_event th' → t = t';
  ti_nodup : NoDup R;
  ti_ready : ∀ t, t ∈ R → t ≠ idle ∧ t ≠ c ∧ ∃ th, T !! t = Some th ∧ t_status th = THREAD_READY;
  ti_queue : ∀ x, x ∈ Q →
    (∃ arg, cb x = Some (cb_switch_thread, arg)) ∨
    (∃ t th, cb x = Some (cb_thread_wake, t) ∧ T !! t = Some th ∧
       t_status th = THREAD_SLEEPING ∧ t_event th = x);
  ti_status : ∀ t th, T !! t = Some th → t ≠ idle →
    match t_status th with
    | THREAD_READY => t ∈ R
    | THREAD_RUNNING => t = c ∨ ph = PPending t
    | THREAD_SLEEPING => t_event th ∈ Q ∧ cb (t_event th) = Some (cb_thread_wake, t) ∧
        (t = c → ph = PYield)
    | THREAD_BLOCKED => False
    | THREAD_DONE => True
    end;
  ti_phase : match ph with
    | PPending old => old ≠ c ∧ ∃ th, T !! old = Some th ∧ (old ≠ idle → t_status th ≠ THREAD_READY)
    | PYield => c ≠ idle
    | PRemove x => x ∈ Q
    | PNormal => True
    end
}.

(** Every thread but the idle one is accounted for. *)
Definition placed (T : gmap Z Thread) (cb : Z → option (EventCallback * Z)) (R : list Z) (Q : gset Z)
    (c : Z) (ph : phase) (t : Z) (th : Thread) : Prop :=
  match t_status th with
  | THREAD_READY => t ∈ R ∧ t ≠ c
  | THREAD_RUNNING => t = c ∨ ph = PPending t
  | THREAD_SLEEPING => t_event th ∈ Q ∧ cb (t_event th) = Some (cb_thread_wake, t)
  | THREAD_BLOCKED => False
  | THREAD_DONE => True
  end.

Section thr.
Implicit Types (T : gmap Z Thread) (cb : Z → option (EventCallback * Z)) (R : list Z) (Q : gset Z).

Lemma thr_placed T cb R Q c idle ph t th :
  thr_inv T cb R Q c idle ph → T !! t = Some th → t ≠ idle → placed T cb R Q c ph t th.
Proof.
  intros I Ht Hi. pose proof (ti_status _ _ _ _ _ _ _ I _ _ Ht Hi) as Hs. unfold placed.
  destruct (t_status th) eqn:E; try done.
  - split; [done|]. by apply (ti_ready _ _ _ _ _ _ _ I).
  - naive_solver.
Qed.

(** Changing a thread's status changes neither its event nor the others. *)
Lemma lookup_status T t th st x : T !! t = Some th →
  ∀ th', <[t := set_status st th]> T !! x = Some th' →
  (x = t ∧ th' = set_status st th) ∨ (x ≠ t ∧ T !! x = Some th').
Proof. intros Ht th'. rewrite lookup_insert_Some. naive_solver. Qed.

(** A phase without obligations can be left. *)
Lemma thr_normal T cb R Q c idle x :
  thr_inv T cb R Q c idle (PRemove x) → thr_inv T cb R Q c idle PNormal.
Proof. intros []. split; try done. intros t th Ht Hi. specialize (ti_status0 t th Ht Hi). by destruct (t_status th); naive_solver. Qed.

Lemma thr_remove T cb R Q c idle x :
  thr_inv T cb R Q c idle PNormal → x ∈ Q → thr_inv T cb R Q c idle (PRemove x).
Proof. intros [] Hx. split; try done. intros t th Ht Hi. specialize (ti_status0 t th Ht Hi). by destruct (t_status th); naive_solver. Qed.

(** An event that switches threads leaves the queue. *)
Lemma thr_dequeue_switch T cb R Q c idle x arg :
  thr_inv T cb R Q c idle PNormal → cb x = Some (cb_switch_thread, arg) →
  thr_inv T cb R (Q ∖ {[x]}) c idle PNormal.
Proof.
  intros [] Hx. split; try done; [set_solver|].
  intros t th Ht Hi. specialize (ti_status0 t th Ht Hi). destruct (t_status th); try done.
  destruct ti_status0 as (H1 & H2 & H3). split_and!; [|done..].
  apply elem_of_difference. split; [done|]. intros E%elem_of_singleton. congruence.
Qed.

(** The wake-up event of [t] leaves the queue and [t] becomes ready. *)
Lemma thr_wake T cb R Q c idle x t th :
  thr_inv T cb R Q c idle PNormal → x ∈ Q → cb x = Some (cb_thread_wake, t) → T !! t = Some th →
  thr_inv (<[t := set_status THREAD_READY th]> T) cb (R ++ [t]) (Q ∖ {[x]}) c idle PNormal ∧
  t_status th = THREAD_SLEEPING.
Proof.
  intros [] Hx Hcb Ht.
  destruct (ti_queue0 x Hx) as [[arg E]|(t' & th' & E & Ht' & Hs & He)]; [congruence|].
  rewrite Hcb in E. injection E as <-. rewrite Ht in Ht'. injection Ht' as <-.
  assert (t ≠ idle) as Hti by (intros ->; destruct (ti_idle_status0 _ Ht); congruence).
  assert (t ≠ c) as Htc.
  { intros ->. destruct ti_cur0 as (th0 & H0 & H1). rewrite Ht in H0. injection H0 as <-.
    specialize (H1 Hti). rewrite Hs in H1. simpl in H1. destruct H1; congruence. }
  split; [|done]. split; try done.
  - rewrite lookup_insert_ne; [done|]. intros ->. congruence.
  - rewrite lookup_insert_is_Some'. by right.
  - intros th'. rewrite lookup_insert_ne by done. auto.
  - rewrite lookup_insert_ne by done. done.
  - intros y th' [[-> ->]|[_ Hy]]%(lookup_status _ _ _ _ _ Ht); simpl; eauto.
  - intros y y' th1 th2 [[-> ->]|[? H1]]%(lookup_status _ _ _ _ _ Ht)
      [[-> ->]|[? H2]]%(lookup_status _ _ _ _ _ Ht); simpl; eauto.
  - apply NoDup_app. split_and!; [done| |apply NoDup_singleton].
    intros y Hy ->%list_elem_of_singleton. destruct (ti_ready0 _ Hy) as (_ & _ & ? & ? & ?). congruence.
  - intros y [Hy|Hy%list_elem_of_singleton]%elem_of_app; [|subst y].
    + destruct (ti_ready0 _ Hy) as (H1 & H2 & th' & H3 & H4). split_and!; [done..|].
      exists th'. rewrite lookup_insert_ne by congruence. done.
    + split_and!; [done..|]. eexists. by rewrite lookup_insert_eq.
  - intros y [Hy Hyx]%elem_of_difference. destruct (ti_queue0 y Hy) as [|(t' & th' & E & Ht' & Hs' & He')]; [by left|].
    right. exists t', th'. rewrite lookup_insert_ne; [done|]. intros <-. set_solver.
  - intros y th' [[-> ->]|[Hyt Hy]]%(lookup_status _ _ _ _ _ Ht) Hi; simpl; [set_solver|].
    specialize (ti_status0 y th' Hy Hi). destruct (t_status th'); try done; [set_solver|].
    destruct ti_status0 as (H1 & H2 & H3). split_and!; [|done..].
    apply elem_of_difference. split; [done|]. intros E%elem_of_singleton. congruence.
Qed.

(** The current thread's event is set to switch threads and enqueued. *)
Lemma thr_quantum T cb cb' R Q c idle th arg :
  thr_inv T cb R Q c idle PNormal → T !! c = Some th →
  cb' (t_event th) = Some (cb_switch_thread, arg) → (∀ x, x ≠ t_event th → cb' x = cb x) →
  thr_inv T cb' R (Q ∪ {[t_event th]}) c idle PNormal.
Proof.
  intros [] Hc Hx Ho.
  assert (∀ t th', T !! t = Some th' → t_status th' = THREAD_SLEEPING → t_event th' ≠ t_event th) as Hne.
  { intros t th' Ht Hs E. assert (t = c) as -> by eauto. rewrite Hc in Ht. injection Ht as <-.
    destruct ti_cur0 as (th0 & H0 & H1). rewrite Hc in H0. injection H0 as <-. simpl in H1.
    destruct (decide (c = idle)) as [->|Hi]; [destruct (ti_idle_status0 _ Hc); congruence|].
    destruct (H1 Hi); congruence. }
  split; try done.
  - intros t th' Ht. destruct (ti_event0 _ _ Ht) as [? H2]. split; [done|].
    destruct (decide (t_event th' = t_event th)) as [->|E]; [eauto|by rewrite Ho].
  - intros x Hq. destruct (decide (x = t_event th)) as [->|E]; [eauto|].
    assert (x ∈ Q) as Hq' by set_solver + Hq E. rewrite (Ho x E).
    destruct (ti_queue0 x Hq') as [|(t & th' & ? & ? & ? & ?)]; [by left|]. right. eauto 10.
  - intros t th' Ht Hi. specialize (ti_status0 t th' Ht Hi).
    destruct (t_status th') eqn:Hs; try done. destruct ti_status0 as (H1 & H2 & H3).
    rewrite Ho by eauto. split_and!; [set_solver + H1|done..].
Qed.

(** The current thread falls asleep. *)
Lemma thr_sleep T cb cb' R Q c idle th :
  thr_inv T cb R Q c idle PNormal → T !! c = Some th → c ≠ idle →
  cb' (t_event th) = Some (cb_thread_wake, c) → (∀ x, x ≠ t_event th → cb' x = cb x) →
  thr_inv (<[c := set_status THREAD_SLEEPING th]> T) cb' R (Q ∪ {[t_event th]}) c idle PYield.
Proof.
  intros [] Hc Hci Hx Ho. split; try done.
  - rewrite lookup_insert_ne; [done|]. intros ->. congruence.
  - rewrite lookup_insert_is_Some'. by right.
  - intros th'. rewrite lookup_insert_ne by done. auto.
  - eexists. rewrite lookup_insert_eq. split; [done|]. done.
  - intros t th' Ht. assert (∃ th0, T !! t = Some th0 ∧ t_event th' = t_event th0) as (th0 & H0 & ->).
    { apply (lookup_status _ _ _ _ _ Hc) in Ht as [[-> ->]|[_ Ht]]; eauto. }
    destruct (ti_event0 _ _ H0) as [? H2]. split; [done|].
    destruct (decide (t_event th0 = t_event th)) as [->|E]; [eauto|by rewrite Ho].
  - intros y y' th1 th2 [[-> ->]|[? H1]]%(lookup_status _ _ _ _ _ Hc)
      [[-> ->]|[? H2]]%(lookup_status _ _ _ _ _ Hc); simpl; eauto.
  - intros t Ht. destruct (ti_ready0 _ Ht) as (H1 & H2 & H3). split_and!; [done..|].
    by rewrite lookup_insert_ne.
  - intros x Hq. destruct (decide (x = t_event th)) as [->|E].
    { right. eexists c, _. rewrite lookup_insert_eq. by split_and!. }
    assert (x ∈ Q) as Hq' by set_solver + Hq E. rewrite (Ho x E).
    destruct (ti_queue0 x Hq') as [|(t & th' & H1 & H2 & H3 & H4)]; [by left|]. right.
    exists t, th'. rewrite lookup_insert_ne; [done|]. intros ->. congruence.
  - intros t th' [[-> ->]|[Htc Ht]]%(lookup_status _ _ _ _ _ Hc) Hi; simpl.
    { split_and!; [set_solver +|done..]. }
    specialize (ti_status0 t th' Ht Hi). destruct (t_status th'); try done.
    { destruct ti_status0 as [|]; [done|]. done. }
    destruct ti_status0 as (H1 & H2 & H3).
    rewrite Ho by (intros E; destruct Htc; eauto). split_and!; [set_solver + H1|done..].
Qed.

(** The switch to [next]: the first ready thread, or the idle thread. *)
Lemma thr_switch T cb R R' Q c idle next ph th :
  thr_inv T cb R Q c idle ph → ph = PNormal ∨ ph = PYield → next ≠ c → T !! next = Some th →
  (R = next :: R' ∨ (R = [] ∧ R' = [] ∧ next = idle)) →
  thr_inv (<[next := set_status THREAD_RUNNING th]> T) cb R' Q next idle (PPending c).
Proof.
  intros [] Hph Hnc Ht HR.
  assert (∀ t, t ∈ R' → t ∈ R ∧ t ≠ next) as Hsub.
  { intros t Hin. destruct HR as [->|(-> & -> & ->)]; [|set_solver].
    apply NoDup_cons in ti_nodup0 as [Hn _]. split; [set_solver|]. by intros ->. }
  assert (next ≠ idle → R = next :: R') as Hni by (intros Hn; destruct HR as [|(_ & _ & ->)]; done).
  split; try done.
  - rewrite lookup_insert_ne; [done|]. intros ->. congruence.
  - rewrite lookup_insert_is_Some'. by right.
  - intros th' [[-> ->]|[_ H]]%(lookup_status _ _ _ _ _ Ht); [by right|auto].
  - eexists. rewrite lookup_insert_eq. split; [done|]. intros _. simpl. by left.
  - intros t th' [[-> ->]|[_ H]]%(lookup_status _ _ _ _ _ Ht); simpl; eauto.
  - intros y y' th1 th2 [[-> ->]|[? H1]]%(lookup_status _ _ _ _ _ Ht)
      [[-> ->]|[? H2]]%(lookup_status _ _ _ _ _ Ht); simpl; eauto.
  - destruct HR as [->|(_ & -> & _)]; [by apply NoDup_cons in ti_nodup0 as []|constructor].
  - intros t Hin. destruct (Hsub _ Hin) as [H1 H2]. destruct (ti_ready0 _ H1) as (? & ? & ?).
    split_and!; [done..|]. by rewrite lookup_insert_ne.
  - intros x Hq. destruct (ti_queue0 x Hq) as [|(t & th' & H1 & H2 & H3 & H4)]; [by left|]. right.
    exists t, th'. rewrite lookup_insert_ne; [done|]. intros <-. rewrite Ht in H2. injection H2 as ->.
    destruct (decide (next = idle)) as [->|Hn]; [destruct (ti_idle_status0 _ Ht); congruence|].
    destruct (ti_ready0 next) as (_ & _ & ? & ? & ?); [rewrite Hni by done; set_solver +|]. congruence.
  - intros t th' [[-> ->]|[Hn H]]%(lookup_status _ _ _ _ _ Ht) Hi; simpl; [by left|].
    specialize (ti_status0 t th' H Hi). destruct (t_status th'); try done.
    + destruct HR as [->|(-> & -> & ->)]; set_solver.
    + right. destruct ti_status0 as [->|E]; [done|]. destruct Hph; congruence.
    + naive_solver.
  - split; [done|]. destruct ti_cur0 as (th0 & H0 & H1). exists th0. rewrite lookup_insert_ne by done.
    split; [done|]. intros Hci. specialize (H1 Hci).
    destruct Hph as [-> | ->]; simpl in H1; [destruct H1|]; congruence.
Qed.

(** The thread that was switched from goes to the end of the ready list, or
    stays where it is. *)
Lemma thr_resched T cb R Q c idle old th :
  thr_inv T cb R Q c idle (PPending old) → T !! old = Some th → old ≠ idle →
  (t_status th = THREAD_READY ∨ t_status th = THREAD_RUNNING) →
  thr_inv (<[old := set_status THREAD_READY th]> T) cb (R ++ [old]) Q c idle PNormal.
Proof.
  intros [] Ht Hi Hs. destruct ti_phase0 as (Hoc & th0 & H0 & Hnr).
  rewrite Ht in H0. injection H0 as <-. specialize (Hnr Hi).
  assert (old ∉ R) as HoR.
  { intros Hin. destruct (ti_ready0 _ Hin) as (_ & _ & ? & ? & ?). congruence. }
  split; try done.
  - rewrite lookup_insert_ne; [done|]. intros ->. congruence.
  - rewrite lookup_insert_is_Some'. by right.
  - intros th'. rewrite lookup_insert_ne by done. auto.
  - rewrite lookup_insert_ne by done. done.
  - intros y th' [[-> ->]|[_ Hy]]%(lookup_status _ _ _ _ _ Ht); simpl; eauto.
  - intros y y' th1 th2 [[-> ->]|[? H1]]%(lookup_status _ _ _ _ _ Ht)
      [[-> ->]|[? H2]]%(lookup_status _ _ _ _ _ Ht); simpl; eauto.
  - apply NoDup_app. split_and!; [done| |apply NoDup_singleton].
    intros y Hy ->%list_elem_of_singleton. done.
  - intros y [Hy|Hy%list_elem_of_singleton]%elem_of_app; [|subst y].
    + destruct (ti_ready0 _ Hy) as (H1 & H2 & H3). split_and!; [done..|].
      rewrite lookup_insert_ne; [done|]. by intros ->.
    + split_and!; [done..|]. eexists. by rewrite lookup_insert_eq.
  - intros x Hq. destruct (ti_queue0 x Hq) as [|(t & th' & H1 & H2 & H3 & H4)]; [by left|]. right.
    exists t, th'. rewrite lookup_insert_ne; [done|]. intros <-. destruct Hs; congruence.
  - intros t th' [[-> ->]|[Hn Hl]]%(lookup_status _ _ _ _ _ Ht) Hti; simpl; [set_solver +|].
    specialize (ti_status0 t th' Hl Hti). destruct (t_status th'); try done; [set_solver|..].
    + left. destruct ti_status0 as [|[= ->]]; done.
    + naive_solver.
Qed.

Lemma thr_resched_skip T cb R Q c idle old th :
  thr_inv T cb R Q c idle (PPending old) → T !! old = Some th →
  (old ≠ idle → t_status th ≠ THREAD_READY ∧ t_status th ≠ THREAD_RUNNING) →
  thr_inv T cb R Q c idle PNormal.
Proof.
  intros [] Ht Hs. split; try done. intros t th' Hl Hti.
  specialize (ti_status0 t th' Hl Hti). destruct (t_status th') eqn:E; try done.
  - left. destruct ti_status0 as [|[= ->]]; [done|]. rewrite Ht in Hl. injection Hl as ->.
    destruct (Hs Hti) as [_ []]. done.
  - naive_solver.
Qed.
End thr.
