(* ===== verification/SchedOps.v ===== *)
(** * Every step of the scheduler keeps its invariant

    [kinv] is the invariant of the machine.  The lemmas below follow the
    functions of sched.c; [step_kinv] and [irq_kinv] put them together. *)

From S2P Require Import Prelude Mem Pmm Paging Vmm Hw Time Interrupts Madt Lapic Events EventTree EventThms Alloc Thread Sched ThreadLists SchedInv.
Local Open Scope Z_scope.
Local Open Scope kernel_scope.

Section ops.
Context {A : Type} {AL : Allocator A} {LAWS : AllocatorLaws A}.
Implicit Types (a : A) (l : lapic) (q : evq) (o : objs) (v : vars) (R E : list Z).

(** A thread that is not running can be switched to. *)
Definition resumable o (t : Z) (th : Thread) : Prop :=
  match saved o !! t with
  | Some (k, _) => plain_stack k
  | None => ∃ st, stacks o !! t_rsp th = Some st ∧ ks_init_thread st = fn_init_thread
  end.

Definition ctx_ok o (c : Z) : Prop := ∀ t th, threads o !! t = Some th → t ≠ c → resumable o t th.

Record kinv_at a l q o v (stk : list frame) R E : Prop := {
  ki_base : base a l q o v R E;
  ki_thr : thr_inv (threads o) (cb_of (evs q)) R (list_to_set E) (current_thread v) (idle_thread v)
             (phase_of stk);
  ki_ctx : ctx_ok o (current_thread v);
  ki_stack : stack_ok stk;
  ki_irq : IRQ_disable_counter v = 0
}.

Definition kinv (s : kern A) (stk : list frame) : Prop :=
  ∃ R E, kinv_at (k_alloc s) (k_lapic s) (k_evq s) (k_objs s) (k_vars s) stk R E.

(** ** Pieces *)

Lemma wp_now a l q o v (Q : Z → kern A → Prop) :
  lapic_ok l → (∀ n l', lapic_ok l' → Q n (MkKern a l' q o v)) →
  wp now_ns Q (MkKern a l q o v).
Proof.
  intros [Hf Hh] HQ. unfold now_ns. apply wp_zoom, wp_zoom. unfold tsc_read_ns.
  apply wp_bind. unfold tsc_read. apply wp_zoom. unfold rdtsc, wp at 1. simpl.
  unfold tsc_ticks_to_ns. apply wp_bind, wp_gets. simpl. rewrite (proj2 (Z.eqb_neq _ _) Hf).
  apply wp_ret. simpl. apply HQ. by split.
Qed.

Lemma base_lapic a l l' q o v R E : lapic_ok l' → base a l q o v R E → base a l' q o v R E.
Proof. intros ? []. by split. Qed.

(** The static variables [base] depends on. *)
Lemma base_vars a l q o v v' R E :
  ready_threads v' = ready_threads v → base a l q o v R E → base a l q o v' R E.
Proof. intros Ev []. split; try done. by rewrite Ev. Qed.

Lemma base_threads a l q o v R E T :
  dom T = dom (threads o) → base a l q o v R E → base a l q (with_threads T o) v R E.
Proof.
  intros ED []. split; try done.
  destruct b_heap as (L & H1 & H2 & H3). exists L. simpl. by rewrite ED.
Qed.

Lemma dom_upd (T : gmap Z Thread) t th th' : T !! t = Some th → dom (<[t := th']> T) = dom T.
Proof. intros Ht. apply dom_insert_lookup_L. eauto. Qed.

Lemma base_saved a l q o v R E sv :
  base a l q o v R E →
  base a l q (MkObjs (threads o) (procs o) (nodes o) (tlists o) (stacks o) sv) v R E.
Proof. intros []. by split. Qed.

Lemma wp_get_thread a l q o v t th (Q : Thread → kern A → Prop) :
  threads o !! t = Some th → Q th (MkKern a l q o v) → wp (get_thread t) Q (MkKern a l q o v).
Proof. intros Ht HQ. unfold wp, get_thread. simpl. by rewrite Ht. Qed.

Lemma wp_upd_thread a l q o v t th f (Q : unit → kern A → Prop) :
  threads o !! t = Some th →
  Q tt (MkKern a l q (with_threads (<[t := f th]> (threads o)) o) v) →
  wp (upd_thread t f) Q (MkKern a l q o v).
Proof.
  intros Ht HQ. unfold upd_thread. apply wp_bind. eapply wp_get_thread; [done|].
  unfold put_thread. by apply wp_zoom, wp_modify.
Qed.

(** A change of an event's fields that are not links or flags. *)
Lemma evq_inv_payload m root E x e e' :
  evq_inv (MkEvq m root) E → m !! x = Some e →
  (ev_left e', ev_right e', ev_parent e') = (ev_left e, ev_right e, ev_parent e) →
  ev_enqueued e' = ev_enqueued e → evq_inv (MkEvq (<[x := e']> m) root) E.
Proof.
  intros ((tr & Ht & Hin) & Hnd & Hfl) He Hl Hq. split; [|split; [done|]]; simpl in *.
  - exists tr. split; [|done]. eapply tree_at_frame; [|done]. intros y _. unfold lk.
    destruct (decide (y = x)) as [->|]; [rewrite lookup_insert_eq, He|by rewrite lookup_insert_ne].
    destruct e, e'; naive_solver.
  - intros y ey. destruct (decide (y = x)) as [->|].
    + rewrite lookup_insert_eq. intros [= <-]. rewrite Hq. by apply Hfl.
    + rewrite lookup_insert_ne by done. apply Hfl.
Qed.

Lemma same_payload_cb m m' x : same_payload m m' → cb_of m' x = cb_of m x.
Proof.
  intros Hp. specialize (Hp x). unfold cb_of.
  destruct (m !! x) as [[]|], (m' !! x) as [[]|]; simplify_eq/=; done.
Qed.

Lemma heap_ok_evq a q q' o : dom (evs q') = dom (evs q) → heap_ok a q o → heap_ok a q' o.
Proof. intros ED (L & H1 & H2 & H3). exists L. by rewrite ED. Qed.

(** What [schedule_current] does to the queue. *)
Lemma wp_schedule_current a l q o v R E th time cb arg kind (Q : unit → kern A → Prop) :
  base a l q o v R E → threads o !! current_thread v = Some th →
  t_event th ≠ 0 → is_Some (cb_of (evs q) (t_event th)) →
  (∀ q' E', base a l q' o v R E' →
     (list_to_set E' : gset Z) = list_to_set E ∪ {[t_event th]} →
     cb_of (evs q') (t_event th) = Some (cb, arg) →
     (∀ x, x ≠ t_event th → cb_of (evs q') x = cb_of (evs q) x) →
     Q tt (MkKern a l q' o v)) →
  wp (schedule_current time cb arg kind) Q (MkKern a l q o v).
Proof.
  intros [Hheap Hready Hevq Htime Hlapic] Hth H0 Hev HQ. destruct q as [m root].
  set (x := t_event th) in *. unfold cb_of in Hev. apply fmap_is_Some in Hev as [e He]. simpl in He.
  unfold schedule_current. apply wp_bind, wp_gets. simpl.
  apply wp_bind. eapply wp_get_thread; [done|]. fold x.
  apply wp_bind. apply wp_zoom. simpl. eapply wp_upd_event; [done|]. simpl.
  set (m1 := <[x := set_call time cb arg kind e]> m).
  assert (∀ y, y ≠ x → time_in m1 y = time_in m y) as Hy1
    by (intros y Hy; unfold time_in, m1; by rewrite lookup_insert_ne).
  apply wp_zoom. simpl. eapply wp_mono.
  { apply (wp_event_enqueue (MkEvq m1 root) E x); [| |done|].
    - by apply (evq_inv_payload _ _ _ _ e).
    - simpl. unfold m1. rewrite lookup_insert_eq. eauto.
    - eapply by_time_ext, StronglySorted_filter, Htime. intros y [Hy _]%elem_of_remove_event. by apply Hy1. }
  intros [] q' (Hinv' & Hs' & Hp). simpl in *. eapply HQ.
  - split; [|done|exact Hinv'|exact Hs'|done]. eapply heap_ok_evq; [|exact Hheap].
    rewrite (same_payload_dom _ _ Hp). simpl. unfold m1. apply dom_insert_lookup_L. eauto.
  - apply set_eq. intros y. rewrite elem_of_union, elem_of_singleton, !elem_of_list_to_set.
    rewrite insert_by_perm, elem_of_cons, elem_of_remove_event.
    destruct (decide (y = x)); naive_solver.
  - rewrite (same_payload_cb _ _ _ Hp). unfold cb_of, m1. by rewrite lookup_insert_eq.
  - intros y Hy. rewrite (same_payload_cb _ _ _ Hp). unfold cb_of, m1. by rewrite lookup_insert_ne.
Qed.

Lemma wp_get_next_thread a l q o v R E c ph (Q : Z → kern A → Prop) :
  base a l q o v R E →
  thr_inv (threads o) (cb_of (evs q)) R (list_to_set E) c (idle_thread v) ph →
  (∀ next R' a' N TL, base a' l q (with_nodes N TL o) v R' E →
     (R = next :: R' ∨ (R = [] ∧ R' = [] ∧ next = idle_thread v)) →
     Q next (MkKern a' l q (with_nodes N TL o) v)) →
  wp get_next_thread Q (MkKern a l q o v).
Proof.
  intros Hb I HQ. unfold get_next_thread. apply wp_bind, wp_gets. simpl. apply wp_bind.
  assert (0 ∉ R) as H0.
  { intros Hin. destruct (ti_ready _ _ _ _ _ _ _ I _ Hin) as (_ & _ & th & Hth & _).
    rewrite (ti_null _ _ _ _ _ _ _ I) in Hth. done. }
  pose proof Hb as [Hheap Hready Hevq Htime Hlapic].
  eapply wp_thread_list_get_next; [done|done|done|..].
  - intros ->. apply wp_gets. simpl. replace o with (with_nodes (nodes o) (tlists o) o) by (by destruct o).
    eapply HQ; [by destruct o|]. by right.
  - intros t R' a' N TL -> Hheap' Hready' _. rewrite (proj2 (Z.eqb_neq t 0)) by set_solver + H0.
    apply wp_ret. eapply HQ; [|by left]. by split.
Qed.

(** ** Stacks *)

Lemma plain_phase k : plain_stack k → phase_of k = PNormal ∧ stack_ok k.
Proof.
  intros [Hp [f [Hl Hb]]]. destruct k as [|g k]; [done|]. apply Forall_cons in Hp as Hp'.
  destruct Hp' as [Hg _]. split; [by destruct g|]. simpl. rewrite Hg. split; [done|]. eauto.
Qed.

(** Returning from a frame that is not the last. *)
Lemma plain_tail f k : plain_stack (f :: k) → is_bottom f = false → plain_stack k.
Proof.
  intros [Hp [g [Hl Hb]]] Hf. apply Forall_cons in Hp as [_ Hp]. split; [done|].
  destruct k as [|h k]; [|eauto]. simpl in Hl. congruence.
Qed.

Lemma plain_cons f k : plain f = true → plain_stack k → plain_stack (f :: k).
Proof.
  intros Hf [Hp [g [Hl Hb]]]. split; [by constructor|]. exists g. split; [|done].
  destruct k; [done|]. by rewrite last_cons_cons.
Qed.

Definition with_IF (b : bool) v : vars :=
  MkVars (tid_counter v) (pid_counter v) (kernel_process v) (ready_threads v)
    (finished_threads v) (idle_thread v) (current_thread v) (IRQ_disable_counter v) b.
Definition with_current (t : Z) v : vars :=
  MkVars (tid_counter v) (pid_counter v) (kernel_process v) (ready_threads v)
    (finished_threads v) (idle_thread v) t (IRQ_disable_counter v) (IF v).
Definition with_saved (sv : gmap Z (list frame * bool)) o : objs :=
  MkObjs (threads o) (procs o) (nodes o) (tlists o) (stacks o) sv.

Lemma wp_switch_context a l q o v old new th rest (Q : list frame → kern A → Prop) :
  is_Some (threads o !! old) → threads o !! new = Some th → new ≠ old → resumable o new th →
  plain_stack rest →
  (∀ stk b, stack_ok stk → phase_of stk = PPending old →
     Q stk (MkKern a l q (with_saved (<[old := (rest, IF v)]> (saved o)) o) (with_IF b v))) →
  wp (switch_context old new rest) Q (MkKern a l q o v).
Proof.
  intros [tho Ho] Hn Hne Hres Hrest HQ. unfold switch_context. apply wp_bind, wp_gets. simpl.
  apply wp_bind. eapply wp_get_thread; [done|]. apply wp_bind. apply wp_zoom, wp_modify. simpl.
  apply wp_bind. eapply wp_get_thread; [done|]. apply wp_bind, wp_gets. simpl.
  rewrite lookup_insert_ne by done. unfold resumable in Hres.
  destruct (saved o !! new) as [[k f]|].
  - apply wp_bind. unfold set_IF, set_vars. apply wp_zoom, wp_modify. simpl. apply wp_ret.
    by apply (HQ (FResched old :: k) f).
  - destruct Hres as (st & -> & Hst). apply wp_bind. unfold set_IF, set_vars. apply wp_zoom, wp_modify.
    simpl. apply wp_ret. rewrite Hst. apply (HQ [FInitThread old; FRun (ks_entry st)]); [|done].
    simpl. split; [by repeat constructor|]. by eexists.
Qed.

Lemma ctx_switch o old new th rest b st :
  ctx_ok o old → threads o !! new = Some th → plain_stack rest →
  ctx_ok (with_saved (<[old := (rest, b)]> (saved o))
            (with_threads (<[new := set_status st th]> (threads o)) o)) new.
Proof.
  intros Hctx Hn Hrest t th' Ht Htn. simpl in Ht. unfold resumable. simpl.
  rewrite lookup_insert_ne in Ht by done. destruct (decide (t = old)) as [->|Hto].
  - by rewrite lookup_insert_eq.
  - rewrite lookup_insert_ne by done. by apply Hctx.
Qed.

(** Only the ready list and the statuses change in between. *)
Lemma ctx_status o c t th st N TL :
  ctx_ok o c → threads o !! t = Some th →
  ctx_ok (with_nodes N TL (with_threads (<[t := set_status st th]> (threads o)) o)) c.
Proof.
  intros Hctx Ht y th' [[-> ->]|[_ Hy]]%(lookup_status _ _ _ _ _ Ht) Hc.
  - by apply (Hctx t th).
  - by apply Hctx.
Qed.

(** ** The functions of sched.c *)

Lemma wp_switch_thread a l q o v R E ph rest (Q : list frame → kern A → Prop) :
  base a l q o v R E →
  thr_inv (threads o) (cb_of (evs q)) R (list_to_set E) (current_thread v) (idle_thread v) ph →
  ph = PNormal ∨ ph = PYield → ctx_ok o (current_thread v) → IRQ_disable_counter v = 0 →
  plain_stack rest → (∀ stk s', kinv s' stk → Q stk s') →
  wp (switch_thread rest) Q (MkKern a l q o v).
Proof.
  intros Hb I Hph Hctx Hirq Hrest HQ. unfold switch_thread. apply wp_bind, wp_gets. simpl.
  apply wp_bind. eapply wp_get_next_thread; [done..|]. intros next R' a' N TL Hb' HR.
  set (c := current_thread v) in *.
  assert (∃ th, threads o !! next = Some th) as [th Hth].
  { destruct HR as [->|(_ & _ & ->)].
    - destruct (ti_ready _ _ _ _ _ _ _ I next) as (_ & _ & th & ? & _); [set_solver +|eauto].
    - apply (ti_idle _ _ _ _ _ _ _ I). }
  destruct (Z.eqb_spec next c) as [->|Hne].
  - assert (R = [] ∧ R' = [] ∧ c = idle_thread v) as (-> & -> & Hci).
    { destruct HR as [->|]; [|done]. destruct (ti_ready _ _ _ _ _ _ _ I c) as (_ & [] & _); [set_solver +|done]. }
    assert (ph = PNormal) as ->.
    { destruct Hph as [|Hph]; [done|]. pose proof (ti_phase _ _ _ _ _ _ _ I) as Hp. by rewrite Hph in Hp. }
    destruct (ti_event _ _ _ _ _ _ _ I _ _ Hth) as [He0 He].
    apply wp_bind, wp_now; [apply Hb'|]. intros n l' Hl'. apply wp_bind.
    eapply wp_schedule_current; [by eapply base_lapic|done..|].
    intros q' E' Hb'' HE Hcb Hcb'. apply wp_ret, HQ. destruct (plain_phase _ Hrest) as [Hphr Hsr].
    exists [], E'. split; simpl; [done| |done|done|done].
    rewrite Hphr, HE. by eapply thr_quantum.
  - apply wp_bind. unfold set_current, set_vars. apply wp_zoom, wp_modify. simpl.
    apply wp_bind. eapply wp_upd_thread; [done|]. simpl.
    eapply (wp_switch_context _ _ _ _ _ _ _ (set_status THREAD_RUNNING th)).
    + simpl. rewrite lookup_insert_ne by done. destruct (ti_cur _ _ _ _ _ _ _ I) as (? & ? & _). eauto.
    + simpl. by rewrite lookup_insert_eq.
    + done.
    + apply (Hctx _ _ Hth Hne).
    + done.
    + intros stk b Hstk Hphs. apply HQ. exists R', E. split; simpl; [|rewrite Hphs|..|done|done].
      * apply base_saved. apply (base_vars _ _ _ _ v); [done|]. eapply base_threads; [by eapply dom_upd|exact Hb'].
      * by eapply thr_switch.
      * by apply (ctx_switch (with_nodes N TL o) c next th rest (IF v) THREAD_RUNNING).
Qed.

Lemma wp_unlock a l q o v (Q : unit → kern A → Prop) :
  IRQ_disable_counter v = 1 →
  (∀ v', ready_threads v' = ready_threads v → idle_thread v' = idle_thread v →
     current_thread v' = current_thread v → IRQ_disable_counter v' = 0 → IF v' = true →
     Q tt (MkKern a l q o v')) →
  wp unlock_scheduler Q (MkKern a l q o v).
Proof.
  intros Hi HQ. unfold unlock_scheduler. apply wp_bind. unfold set_irq_counter, set_vars.
  apply wp_zoom, wp_modify. apply wp_bind, wp_gets. simpl. rewrite Hi. simpl.
  unfold set_IF, set_vars. apply wp_zoom, wp_modify. simpl. by apply HQ.
Qed.

(** The end of [maybe_reschedule_thread], with the scheduler locked. *)
Lemma wp_quantum a l q o v R E stk (Q : unit → kern A → Prop) :
  base a l q o v R E →
  thr_inv (threads o) (cb_of (evs q)) R (list_to_set E) (current_thread v) (idle_thread v) PNormal →
  ctx_ok o (current_thread v) → IRQ_disable_counter v = 1 → stack_ok stk → phase_of stk = PNormal →
  (∀ s', kinv s' stk → Q tt s') →
  wp (now ← now_ns;
      schedule_current (now +64 SCHED_THREAD_QUANTUM) cb_switch_thread 0 "switch";;
      unlock_scheduler) Q (MkKern a l q o v).
Proof.
  intros Hb I Hctx Hirq Hstk Hph HQ. apply wp_bind, wp_now; [apply Hb|]. intros n l' Hl'.
  destruct (ti_cur _ _ _ _ _ _ _ I) as (th & Hth & _).
  destruct (ti_event _ _ _ _ _ _ _ I _ _ Hth) as [He0 He].
  apply wp_bind. eapply wp_schedule_current; [by eapply base_lapic|done..|].
  intros q' E' Hb' HE Hcb Hcb'. apply wp_unlock; [done|]. intros v' V1 V2 V3 V4 _. apply HQ.
  exists R, E'. split; simpl; rewrite ?V2, ?V3; [|rewrite Hph, HE|done..].
  - by eapply base_vars.
  - by eapply thr_quantum.
Qed.

Lemma wpo_maybe_reschedule a l q o v R E old stk (Q : unit → kern A → Prop) :
  base a l q o v R E →
  thr_inv (threads o) (cb_of (evs q)) R (list_to_set E) (current_thread v) (idle_thread v) (PPending old) →
  ctx_ok o (current_thread v) → IRQ_disable_counter v = 0 → stack_ok stk → phase_of stk = PNormal →
  (∀ s', kinv s' stk → Q tt s') →
  wpo (maybe_reschedule_thread old) Q (MkKern a l q o v).
Proof.
  intros Hb I Hctx Hirq Hstk Hph HQ. unfold maybe_reschedule_thread, lock_scheduler.
  apply wpo_bind, wpo_bind. unfold set_IF, set_irq_counter, set_vars.
  apply wpo_zoom, wpo_modify, wpo_zoom, wpo_modify. simpl.
  apply wpo_bind, wpo_gets. simpl.
  match goal with |- context [MkKern a l q o ?v'] => set (v1 := v') end.
  assert (base a l q o v1 R E) as Hb1 by (by apply (base_vars _ _ _ _ v)).
  assert (IRQ_disable_counter v1 = 1) as Hi1 by (simpl; lia).
  destruct (ti_phase _ _ _ _ _ _ _ I) as (Hoc & th & Hth & Hnr).
  apply wpo_bind. destruct (Z.eqb_spec old (idle_thread v)) as [Hi|Hi]; simpl.
  { apply wpo_ret, wp_wpo. eapply wp_quantum; [exact Hb1| |done|done|done|done|done].
    eapply thr_resched_skip; [done..|]. by intros []. }
  assert (t_status th ≠ THREAD_READY → t_status th ≠ THREAD_RUNNING →
    thr_inv (threads o) (cb_of (evs q)) R (list_to_set E) (current_thread v1) (idle_thread v1) PNormal) as Hskip.
  { intros H1 H2. by eapply thr_resched_skip. }
  apply wpo_bind, wp_wpo. eapply wp_get_thread; [done|].
  destruct (t_status th) eqn:Es; try (apply wpo_ret, wp_wpo; eapply wp_quantum;
    [exact Hb1|by apply Hskip|done..]).
  all: apply wpo_bind, wp_wpo; eapply wp_upd_thread; [done|]; apply wpo_bind, wpo_gets; simpl;
    (eapply wpo_thread_list_add; [|by apply Hb1|]);
    [destruct Hb1 as [(L & H1 & H2 & H3) _ _ _ _]; exists L; simpl; by rewrite (dom_upd _ _ _ _ Hth)|];
    intros a' N TL Hheap' Hready' _; apply wp_wpo; (eapply wp_quantum; [| | |done..]);
    [split; [done|done|apply Hb1..]|eapply thr_resched; [done..|rewrite Es; auto]|].
  all: by apply ctx_status.
Qed.

Lemma wpo_thread_wake a l q o v R E t th (Q : unit → kern A → Prop) :
  base a l q o v R E → threads o !! t = Some th → t_status th = THREAD_SLEEPING →
  (∀ a' N TL, base a' l q (with_nodes N TL (with_threads (<[t := set_status THREAD_READY th]> (threads o)) o))
       v (R ++ [t]) E →
     Q tt (MkKern a' l q (with_nodes N TL (with_threads (<[t := set_status THREAD_READY th]> (threads o)) o)) v)) →
  wpo (thread_wake t) Q (MkKern a l q o v).
Proof.
  intros Hb Ht Hs HQ. unfold thread_wake. apply wpo_bind, wp_wpo. eapply wp_get_thread; [done|].
  apply wpo_bind, wpo_kassert; [by rewrite bool_decide_eq_true|].
  apply wpo_bind, wp_wpo. eapply wp_upd_thread; [done|]. apply wpo_bind, wpo_gets. simpl.
  eapply base_threads in Hb; [|by eapply (dom_upd _ _ _ (set_status THREAD_READY th))].
  eapply wpo_thread_list_add; [apply Hb|apply Hb|]. intros a' N TL Hh Hr _. apply HQ.
  destruct Hb. by split.
Qed.

Lemma wp_thread_sleep_locked a l q o v R E ns stk (Q : unit → kern A → Prop) :
  base a l q o v R E →
  thr_inv (threads o) (cb_of (evs q)) R (list_to_set E) (current_thread v) (idle_thread v) PNormal →
  ctx_ok o (current_thread v) → IRQ_disable_counter v = 0 → current_thread v ≠ idle_thread v →
  stack_ok (FYield :: stk) → (∀ s', kinv s' (FYield :: stk) → Q tt s') →
  wp (thread_sleep_locked ns) Q (MkKern a l q o v).
Proof.
  intros Hb I Hctx Hirq Hci Hstk HQ. unfold thread_sleep_locked, lock_scheduler.
  apply wp_bind, wp_bind. unfold set_IF, set_irq_counter, set_vars.
  apply wp_zoom, wp_modify, wp_zoom, wp_modify. simpl.
  match goal with |- context [MkKern a l q o ?v'] => set (v1 := v') end.
  assert (base a l q o v1 R E) as Hb1 by (by apply (base_vars _ _ _ _ v)).
  assert (IRQ_disable_counter v1 = 1) as Hi1 by (simpl; lia).
  apply wp_bind, wp_now; [apply Hb|]. intros n l' Hl'. apply wp_bind, wp_gets. simpl.
  destruct (ti_cur _ _ _ _ _ _ _ I) as (th & Hth & _).
  destruct (ti_event _ _ _ _ _ _ _ I _ _ Hth) as [He0 He].
  apply wp_bind. eapply wp_upd_thread; [done|].
  apply wp_bind. eapply (wp_schedule_current _ _ _ _ _ R E (set_status THREAD_SLEEPING th)).
  - eapply base_lapic, base_threads; [done|by eapply dom_upd|done].
  - simpl. by rewrite lookup_insert_eq.
  - done.
  - done.
  - intros q' E' Hb' HE Hcb Hcb'. change (t_event (set_status _ th)) with (t_event th) in *.
    apply wp_unlock; [done|]. intros v' V1 V2 V3 V4 _. apply HQ.
    exists R, E'. split; simpl; rewrite ?V2, ?V3; [|rewrite HE| |done|done].
    + by eapply base_vars.
    + by eapply thr_sleep.
    + intros t th' Ht Htc. by apply (ctx_status o _ _ _ THREAD_SLEEPING (nodes o) (tlists o) Hctx Hth).
Qed.

(** Writes to the local APIC. *)
Lemma wp_apic_write a l q o v reg val (Q : unit → kern A → Prop) :
  lapic_ok l → (∀ l', lapic_ok l' → Q tt (MkKern a l' q o v)) →
  wp (zoom (write_reg reg val)) Q (MkKern a l q o v).
Proof.
  intros Hl HQ. apply wp_zoom. unfold write_reg. apply wp_bind, wp_gets. apply wp_zoom, wp_modify.
  simpl. by apply HQ.
Qed.

Lemma wp_timer_fire_at a l q o v time (Q : unit → kern A → Prop) :
  lapic_ok l → (∀ l', lapic_ok l' → Q tt (MkKern a l' q o v)) →
  wp (timer_fire_at time) Q (MkKern a l q o v).
Proof.
  intros Hl HQ. unfold timer_fire_at. apply wp_bind, wp_now; [done|]. intros n l1 Hl1.
  apply wp_zoom. unfold lapic_timer_one_shot. apply wp_bind. unfold ns_to_lapic_ticks.
  apply wp_bind, wp_gets, wp_ret. cbv zeta. apply wp_bind. unfold write_reg.
  apply wp_bind, wp_gets, wp_zoom, wp_modify. apply wp_bind, wp_gets, wp_zoom, wp_modify. by apply HQ.
Qed.

(** The head of the queue exists. *)
Lemma evq_head q E : evq_inv q E → E ≠ [] →
  hd ev_null E ≠ ev_null ∧ hd ev_null E ∈ E ∧ is_Some (evs q !! hd ev_null E).
Proof.
  intros ((tr & Ht & Hin) & _ & _) Hne. destruct E as [|x E]; [done|]. simpl.
  destruct (tree_at_nodes _ _ _ _ x Ht) as [? ?]; [rewrite Hin; set_solver +|].
  split_and!; [done|set_solver +|done].
Qed.

Lemma wp_peek a l q o v E (Q : Z → kern A → Prop) :
  evq_inv q E → Q (hd ev_null E) (MkKern a l q o v) →
  wp (zoom event_peek_next) Q (MkKern a l q o v).
Proof.
  intros Hq HQ. apply wp_zoom. eapply wp_mono; [by apply wp_event_peek_next|]. by intros x s' [-> ->].
Qed.

Lemma wp_arm_next a l q o v E (Q : unit → kern A → Prop) :
  evq_inv q E → lapic_ok l → (∀ l', lapic_ok l' → Q tt (MkKern a l' q o v)) →
  wp arm_next Q (MkKern a l q o v).
Proof.
  intros Hq Hl HQ. unfold arm_next. apply wp_bind. eapply wp_peek; [done|].
  destruct (Z.eqb_spec (hd ev_null E) ev_null) as [|Hne]; [by apply wp_ret, HQ|].
  destruct (evq_head _ _ Hq) as (_ & _ & e & He); [by intros ->|].
  apply wp_bind, wp_zoom. simpl. destruct q as [m root]. eapply wp_get_event; [done|].
  by apply wp_timer_fire_at.
Qed.

Lemma wp_handle_loop a l q o v E (Q : list frame → kern A → Prop) :
  evq_inv q E → lapic_ok l →
  (∀ l' k, lapic_ok l' → k = [] ∨ (∃ x, k = [FRemove x] ∧ x ∈ E) → Q k (MkKern a l' q o v)) →
  wp handle_loop Q (MkKern a l q o v).
Proof.
  intros Hq Hl HQ. unfold handle_loop. apply wp_bind. eapply wp_peek; [done|].
  destruct (Z.eqb_spec (hd ev_null E) ev_null) as [|Hne].
  { apply wp_bind. eapply wp_arm_next; [done..|]. intros l' Hl'. apply wp_ret, HQ; auto. }
  destruct (evq_head _ _ Hq) as (_ & Hin & e & He); [by intros ->|].
  apply wp_bind, wp_zoom. simpl. destruct q as [m root]. eapply wp_get_event; [done|].
  apply wp_bind, wp_now; [done|]. intros n l1 Hl1. destruct (n <? ev_time e).
  - apply wp_bind. eapply wp_arm_next; [done..|]. intros l' Hl'. apply wp_ret, HQ; auto.
  - apply wp_ret, HQ; [done|]. right. eauto.
Qed.

Lemma wpo_handle_event a l q o v R E x rest (Q : list frame → kern A → Prop) :
  base a l q o v R E →
  thr_inv (threads o) (cb_of (evs q)) R (list_to_set E) (current_thread v) (idle_thread v) (PRemove x) →
  ctx_ok o (current_thread v) → IRQ_disable_counter v = 0 → plain_stack rest →
  (∀ stk s', kinv s' stk → Q stk s') →
  wpo (handle_event x rest) Q (MkKern a l q o v).
Proof.
  intros Hb I Hctx Hirq Hrest HQ. pose proof (ti_phase _ _ _ _ _ _ _ I) as Hx. simpl in Hx.
  apply thr_normal in I. unfold handle_event. apply wpo_bind, wpo_zoom, wp_wpo. simpl.
  eapply wp_mono; [apply (wp_event_remove _ E); [apply Hb|by apply elem_of_list_to_set in Hx]|].
  intros [] q' [Hq' Hp]. simpl.
  assert ((list_to_set (remove_event x E) : gset Z) = list_to_set E ∖ {[x]}) as HE.
  { apply set_eq. intros y. rewrite elem_of_difference, !elem_of_list_to_set, elem_of_remove_event. set_solver. }
  assert (base a l q' o v R (remove_event x E)) as Hb'.
  { destruct Hb. split; try done.
    - eapply heap_ok_evq; [|done]. by apply same_payload_dom.
    - eapply by_time_ext; [intros; by apply same_payload_time|]. by apply StronglySorted_filter. }
  assert (∀ y, cb_of (evs q') y = cb_of (evs q) y) as Hcb by (intros y; by apply same_payload_cb).
  assert (∀ T R' Q' c i ph, thr_inv T (cb_of (evs q)) R' Q' c i ph →
    thr_inv T (cb_of (evs q')) R' Q' c i ph) as Hext.
  { intros T R' Q' c i ph []. split; try done; setoid_rewrite Hcb; done. }
  destruct (plain_phase _ Hrest) as [Hphr Hsr].
  pose proof (ti_queue _ _ _ _ _ _ _ I _ Hx) as Hcase.
  assert (∃ e, evs q' !! x = Some e ∧ cb_of (evs q) x = Some (ev_callback e, ev_callback_arg e)) as (e & He & Ecb).
  { assert (is_Some (cb_of (evs q') x)) as Hs.
    { rewrite Hcb. destruct Hcase as [[? ->]|(? & ? & -> & _)]; eauto. }
    unfold cb_of in Hs. apply fmap_is_Some in Hs as [e He]. exists e. split; [done|].
    rewrite <-Hcb. unfold cb_of. by rewrite He. }
  apply wpo_bind, wpo_zoom, wp_wpo. simpl. destruct q' as [m' root']. eapply wp_get_event; [done|]. simpl.
  rewrite Ecb in Hcase. destruct Hcase as [[arg [= E1 E2]]|(t & th & [= E1 E2] & Hth & Hs & He')]; rewrite E1; simpl.
  - apply wp_wpo. eapply (wp_switch_thread _ _ _ _ _ _ _ PNormal); [done| |by left|done..]. rewrite HE. apply Hext.
    eapply thr_dequeue_switch; [done|]. by rewrite Ecb, E1.
  - apply wpo_bind. rewrite E2. eapply wpo_thread_wake; [done..|]. intros a' N TL Hb''.
    apply wpo_ret, HQ. exists (R ++ [t]), (remove_event x E). split; simpl; [done| | |done|done].
    + rewrite Hphr, HE. apply Hext. eapply thr_wake; [done..| |done]. by rewrite Ecb, E1, E2.
    + by apply ctx_status.
Qed.

(** ** Steps *)

(** The idle thread only pauses. *)
Definition action_ok (s : kern A) (act : action) : Prop :=
  current_thread (k_vars s) = idle_thread (k_vars s) → act = ACompute.

Theorem step_kinv s stk act :
  kinv s stk → action_ok s act → wpo (step act stk) (λ stk' s', kinv s' stk') s.
Proof.
  destruct s as [a l q o v]. intros (R & E & [Hb I Hctx Hstk Hirq]) Hact. simpl in *.
  assert (∀ l' stk', lapic_ok l' → stack_ok stk' → phase_of stk' = PNormal → phase_of stk = PNormal →
    kinv (MkKern a l' q o v) stk') as Hkeep.
  { intros l' stk' Hl' Hs' Hp' Hp. exists R, E. split; simpl; [by eapply base_lapic|by rewrite Hp', <-Hp|done..]. }
  destruct stk as [|f rest]; [done|]. simpl in Hstk. destruct f; simpl in Hstk |- *.
  - destruct act as [| |ns].
    + apply wpo_ret. by apply Hkeep; [apply Hb|..].
    + apply wp_wpo. unfold thread_yield. eapply wp_switch_thread; [done|done|by left|done..].
    + apply wpo_bind, wp_wpo. eapply (wp_thread_sleep_locked _ _ _ _ _ _ _ _ (FRun entry :: rest)); [done..| | |].
      * intros Hc. by specialize (Hact Hc).
      * done.
      * intros s' Hs'. by apply wpo_ret.
  - apply wpo_ret. by apply Hkeep; [apply Hb|..].
  - apply wpo_bind. eapply (wpo_maybe_reschedule _ _ _ _ _ _ _ _ (FHandle :: rest)); [done|done|done|done| |done|].
    + simpl. by apply plain_cons.
    + intros s' Hs'. by apply wpo_ret.
  - destruct (plain_phase _ Hstk) as [Hp Hs]. apply wpo_bind.
    eapply (wpo_maybe_reschedule _ _ _ _ _ _ _ _ rest); [done..|]. intros s' Hs'. by apply wpo_ret.
  - apply wp_wpo. unfold thread_yield. eapply wp_switch_thread; [done|done|by right|done..].
  - apply wpo_bind, wp_wpo. unfold lapic_eoi. apply wp_apic_write; [apply Hb|]. intros l' Hl'.
    apply wpo_ret. apply Hkeep; [done| |done|done]. simpl. apply plain_cons; [done|]. by eapply plain_tail.
  - apply wpo_bind, wp_wpo. eapply wp_handle_loop; [apply Hb|apply Hb|].
    intros l' k Hl' Hk. apply wpo_ret. destruct Hk as [->|(x & -> & Hx)].
    + destruct (plain_phase rest) as [Hp Hs]; [by eapply plain_tail|]. by apply Hkeep.
    + exists R, E. split; simpl; [by eapply base_lapic| |done|done|done].
      apply thr_remove; [done|]. by apply elem_of_list_to_set.
  - eapply wpo_handle_event; [done..|]; by intros.
  - apply wpo_bind. unfold set_IF, set_vars. apply wpo_zoom, wpo_modify. simpl. apply wpo_ret.
    destruct (plain_phase rest) as [Hp Hs]; [by eapply plain_tail|].
    exists R, E. split; simpl; [by apply (base_vars _ _ _ _ v)|by rewrite Hp|done..].
Qed.

(** The points at which an interrupt leaves the scheduler's data alone. *)
Definition irq_safe (stk : list frame) : Prop := phase_of stk = PNormal.

Theorem irq_kinv s stk :
  kinv s stk → irq_safe stk → wp (irq stk) (λ stk' s', kinv s' stk') s.
Proof.
  destruct s as [a l q o v]. intros (R & E & [Hb I Hctx Hstk Hirq]) Hsafe. simpl in *.
  assert (plain_stack stk) as Hpl.
  { destruct stk as [|f rest]; [done|]. unfold irq_safe in Hsafe. simpl in Hstk. by destruct f. }
  unfold irq. apply wp_bind. unfold set_IF, set_vars. apply wp_zoom, wp_modify. simpl.
  pose proof (b_lapic _ _ _ _ _ _ _ Hb) as [Hf Hh].
  assert (interrupt_dispatch (MkCtx TIMER_VECTOR 0) (lp_int l) =
    Ok (Some handle_next_event_handler, lp_int l)) as Hd.
  { unfold interrupt_dispatch. cbn [vector]. by rewrite Hh. }
  apply wp_bind, wp_zoom, wp_zoom. apply wp_ok. eexists _, _. split; [exact Hd|].
  apply wp_ret. simpl. exists R, E. split; simpl; [| |done| |done].
  - apply (base_vars _ _ _ _ v); [done|]. eapply base_lapic; [|exact Hb]. by split.
  - by rewrite <-Hsafe.
  - by apply plain_cons, plain_cons.
Qed.
End ops.
