(* ===== verification/SchedThms.v ===== *)
(** * What the scheduler guarantees

    [sched_init] establishes the invariant, every step keeps it as long as no
    interrupt arrives inside the scheduler's own critical points, and in every
    state reached this way each thread is in its place.  The last section
    runs the scheduler with interrupts at those points. *)

From S2P Require Import Prelude Mem Pmm Paging Vmm Hw Time Interrupts Madt Lapic Events EventTree EventThms Alloc Thread Sched ThreadLists SchedInv SchedOps.
Local Open Scope Z_scope.
Local Open Scope kernel_scope.

(** ** Initialisation *)

Section init.
Context {A : Type} {AL : Allocator A} {LAWS : AllocatorLaws A}.
Variable fresh_thread : Z → Thread.
Variable fresh_proc : Z → Process.
Variable fresh_stack : Z → InitialKStack.
Implicit Types (a : A) (l : lapic) (q : evq) (o : objs) (v : vars).

(** Before the first switch: no event is enqueued and no context saved. *)
Record created (q : evq) (o : objs) : Prop := {
  cr_root : event_root q = ev_null;
  cr_flags : ∀ x e, evs q !! x = Some e → ev_enqueued e = false;
  cr_null : threads o !! 0 = None;
  cr_event : ∀ t th, threads o !! t = Some th → t_event th ≠ 0 ∧ is_Some (evs q !! t_event th);
  cr_inj : ∀ t t' th th', threads o !! t = Some th → threads o !! t' = Some th' →
    t_event th = t_event th' → t = t';
  cr_saved : saved o = ∅
}.

Definition add_thread t th e ev o q : Prop :=
  t ≠ 0 ∧ threads o !! t = None ∧ e ≠ 0 ∧ evs q !! e = None ∧ t_event th = e ∧ ev_enqueued ev = false.

Lemma created_add q o t th e ev N TL ST P :
  created q o → add_thread t th e ev o q →
  created (MkEvq (<[e := ev]> (evs q)) (event_root q))
    (MkObjs (<[t := th]> (threads o)) P N TL ST (saved o)).
Proof.
  intros [] (Ht0 & Ht & He0 & He & Hev & Hf).
  assert (∀ t' th', threads o !! t' = Some th' → t_event th' ≠ e) as Hne.
  { intros t' th' Ht' Ee. destruct (cr_event0 _ _ Ht') as [_ [? ?]]. congruence. }
  split; simpl; try done.
  - intros x e'. rewrite lookup_insert_Some. naive_solver.
  - by rewrite lookup_insert_ne.
  - intros t' th'. rewrite lookup_insert_Some, lookup_insert_is_Some'. naive_solver.
  - intros t1 t2 th1 th2. rewrite !lookup_insert_Some. naive_solver.
Qed.

Lemma heap_ok_alloc_thread a L p q o th P ST SV :
  al_rep a ({[p]} ∪ L) → dom (nodes o) ⊆ L → p ∉ L →
  dom (threads o) ∪ dom (tlists o) ∪ dom (evs q) ⊆ L ∖ dom (nodes o) →
  heap_ok a q (MkObjs (<[p := th]> (threads o)) P (nodes o) (tlists o) ST SV).
Proof.
  intros Hr HN Hp HO. exists ({[p]} ∪ L). simpl. rewrite dom_insert_L.
  split; [done|]. split; [set_solver + HN|]. set_solver + HO HN Hp.
Qed.

Lemma heap_ok_alloc_event a L p q o e :
  al_rep a ({[p]} ∪ L) → dom (nodes o) ⊆ L → p ∉ L →
  dom (threads o) ∪ dom (tlists o) ∪ dom (evs q) ⊆ L ∖ dom (nodes o) →
  heap_ok a (MkEvq (<[p := e]> (evs q)) (event_root q)) o.
Proof.
  intros Hr HN Hp HO. exists ({[p]} ∪ L). simpl. rewrite dom_insert_L.
  split; [done|]. split; [set_solver + HN|]. set_solver + HO HN Hp.
Qed.

Lemma heap_ok_alloc_other a L p q o :
  al_rep a ({[p]} ∪ L) → dom (nodes o) ⊆ L →
  dom (threads o) ∪ dom (tlists o) ∪ dom (evs q) ⊆ L ∖ dom (nodes o) → heap_ok a q o.
Proof. intros Hr HN HO. exists ({[p]} ∪ L). split; [done|]. set_solver + HN HO. Qed.

(** A thread made by [thread_kcreate]. *)
Definition new_thread (o : objs) (name : string) (entry : code) (proc tid t : Z) (th : Thread) (st : InitialKStack) : Prop :=
  t_status th = THREAD_READY ∧ t_name th = name ∧ t_tid th = tid ∧ t_process th = proc ∧
  t_rsp th = t_rsp_base th +64 STACK_SIZE -64 sizeof_InitialKStack ∧
  ks_init_thread st = fn_init_thread ∧ ks_entry st = entry ∧ ks_rflags st = 0x202.

Definition with_tid (n : Z) v : vars :=
  MkVars n (pid_counter v) (kernel_process v) (ready_threads v)
    (finished_threads v) (idle_thread v) (current_thread v) (IRQ_disable_counter v) (IF v).

Lemma wpo_thread_kcreate a l q o v name entry proc (Q : Z → kern A → Prop) :
  heap_ok a q o → (String.length name < 64)%nat →
  (∀ t th e st a', new_thread o name entry proc (tid_counter v) t th st →
     add_thread t th e (set_event_owner t event_init) o q →
     heap_ok a' (MkEvq (<[e := set_event_owner t event_init]> (evs q)) (event_root q))
       (with_threads (<[t := th]> (threads o)) o) →
     Q t (MkKern a' l (MkEvq (<[e := set_event_owner t event_init]> (evs q)) (event_root q))
            (MkObjs (<[t := th]> (threads o)) (procs o) (nodes o) (tlists o)
               (<[t_rsp th := st]> (stacks o)) (saved o)) (with_tid (u64 (tid_counter v + 1)) v))) →
  wpo (thread_kcreate fresh_thread fresh_stack name entry proc) Q (MkKern a l q o v).
Proof.
  intros Hh Hname HQ. unfold thread_kcreate.
  apply wpo_bind. eapply wpo_kmalloc_obj; [done|unfold sizeof_Thread; lia|].
  intros t a1 L1 Ht0 Htf Hr1 HN1 HtL HO1.
  apply wpo_bind. unfold put_thread. apply wpo_zoom, wpo_modify. simpl.
  apply wpo_bind. unfold fits, THREAD_MAX_NAME_LENGTH. rewrite (proj2 (Nat.ltb_lt _ _) Hname).
  apply wp_wpo. eapply wp_upd_thread; [simpl; by rewrite lookup_insert_eq|]. simpl.
  apply wpo_bind, wpo_gets. simpl. apply wpo_bind. unfold set_vars. apply wpo_zoom, wpo_modify. simpl.
  do 2 (apply wpo_bind, wp_wpo; (eapply wp_upd_thread; [simpl; by rewrite lookup_insert_eq|]); simpl).
  unfold with_threads at 1. simpl. rewrite !insert_insert_eq.
  apply wpo_bind. eapply wpo_kmalloc_obj; [|unfold STACK_SIZE; lia|].
  { by eapply (heap_ok_alloc_thread a1 L1 t q o). }
  intros base a2 L2 Hb0 Hbf Hr2 HN2 HbL HO2. simpl in Hbf, HN2, HO2.
  apply wpo_bind, wp_wpo. eapply wp_upd_thread; [simpl; by rewrite lookup_insert_eq|]. simpl.
  apply wpo_bind. unfold put_stack. apply wpo_zoom, wpo_modify. simpl.
  apply wpo_bind, wp_wpo. eapply wp_upd_thread; [simpl; by rewrite lookup_insert_eq|]. simpl.
  unfold with_threads at 1. simpl. rewrite !insert_insert_eq.
  apply wpo_bind. unfold event_create. apply wpo_bind.
  eapply wpo_kmalloc_obj; [|unfold sizeof_Event; lia|].
  { eapply (heap_ok_alloc_other a2 L2 base); simpl; [done|done|].
    rewrite dom_insert_L in HO2 |- *. done. }
  intros e a3 L3 He0 Hef Hr3 HN3 HeL HO3. simpl in Hef, HN3, HO3.
  apply wpo_bind, wpo_zoom, wpo_modify. simpl. apply wpo_ret.
  apply wpo_bind, wp_wpo. eapply wp_upd_thread; [simpl; by rewrite lookup_insert_eq|]. simpl.
  apply wpo_bind, wpo_zoom. simpl. apply wp_wpo. eapply wp_upd_event; [by rewrite lookup_insert_eq|]. simpl.
  apply wpo_bind, wp_wpo. eapply wp_upd_thread; [simpl; by rewrite lookup_insert_eq|]. simpl.
  apply wpo_ret. unfold with_threads. simpl. rewrite !insert_insert_eq.
  match goal with |- Q t (MkKern _ _ _ (MkObjs (<[t := ?th']> _) _ _ _ (<[_ := ?st']> _) _) _) =>
    apply (HQ t th' e st') end.
  - by split_and!.
  - split_and!; [done| |done| |done|done]; apply not_elem_of_dom; [set_solver + Htf|set_solver + Hef].
  - rewrite dom_insert_L in HO3. exists ({[e]} ∪ L3). simpl. rewrite !dom_insert_L.
    split; [done|]. split; [set_solver + HN3|]. set_solver + HO3 HeL HN3.
Qed.

Lemma wpo_thread_list_new a l q o v (Q : Z → kern A → Prop) :
  heap_ok a q o →
  (∀ p a', p ≠ 0 → tlists o !! p = None →
     heap_ok a' q (with_nodes (nodes o) (<[p := MkTList 0 0]> (tlists o)) o) →
     Q p (MkKern a' l q (with_nodes (nodes o) (<[p := MkTList 0 0]> (tlists o)) o) v)) →
  wpo thread_list_new Q (MkKern a l q o v).
Proof.
  intros Hh HQ. unfold thread_list_new. apply wpo_bind.
  eapply wpo_kmalloc_obj; [done|unfold sizeof_ThreadList; lia|].
  intros p a' L Hp0 Hpf Hr HN HpL HO. apply wpo_bind. unfold put_list. apply wpo_zoom, wpo_modify. simpl.
  apply wpo_ret, HQ; [done|apply not_elem_of_dom; set_solver + Hpf|].
  exists ({[p]} ∪ L). simpl. rewrite dom_insert_L. split; [done|]. split; [set_solver + HN|].
  set_solver + HO HN HpL.
Qed.

Lemma wpo_process_create a l q o v name pml4 (Q : Z → kern A → Prop) :
  heap_ok a q o → (String.length name < 64)%nat →
  (∀ p pr a', heap_ok a' q o → pr_pid pr = pid_counter v → pr_name pr = name → pr_pml4 pr = pml4 →
     Q p (MkKern a' l q (MkObjs (threads o) (<[p := pr]> (procs o)) (nodes o) (tlists o) (stacks o) (saved o))
            (MkVars (tid_counter v) (u64 (pid_counter v + 1)) (kernel_process v) (ready_threads v)
    (finished_threads v) (idle_thread v) (current_thread v) (IRQ_disable_counter v) (IF v)))) →
  wpo (process_create fresh_proc name pml4) Q (MkKern a l q o v).
Proof.
  intros Hh Hname HQ. unfold process_create. apply wpo_bind.
  eapply wpo_kmalloc_obj; [done|unfold sizeof_Process; lia|].
  intros p a' L Hp0 Hpf Hr HN HpL HO. apply wpo_bind, wpo_gets. simpl.
  apply wpo_bind. unfold set_vars. apply wpo_zoom, wpo_modify. simpl.
  unfold fits, PROCESS_MAX_NAME_LENGTH. rewrite (proj2 (Nat.ltb_lt _ _) Hname). simpl.
  apply wpo_bind. unfold put_proc. apply wpo_zoom, wpo_modify. simpl. apply wpo_ret, HQ; [|done..].
  by eapply heap_ok_alloc_other.
Qed.

(** The boot thread and the threads created so far. *)
Record roster (o : objs) (init ev : Z) (S : list Z) : Prop := {
  ro_nodup : NoDup (init :: S);
  ro_init : ∃ th, threads o !! init = Some th ∧ t_status th = THREAD_DONE ∧ t_event th = ev;
  ro_ready : ∀ t, t ∈ S → ∃ th, threads o !! t = Some th ∧ t_status th = THREAD_READY ∧
    ∃ st, stacks o !! t_rsp th = Some st ∧ ks_init_thread st = fn_init_thread;
  ro_all : ∀ t th, threads o !! t = Some th → t ∈ init :: S
}.

Lemma roster_add o init ei S name entry proc tid t th e ev q st :
  roster o init ei S → new_thread o name entry proc tid t th st → add_thread t th e ev o q →
  roster (MkObjs (<[t := th]> (threads o)) (procs o) (nodes o) (tlists o)
    (<[t_rsp th := st]> (stacks o)) (saved o)) init ei (S ++ [t]).
Proof.
  intros [Hnd (thi & Hi & Hid & Hie) Hr Hall] (Hs & _ & _ & _ & _ & Hst & _ & _) (Ht0 & Ht & _).
  assert (t ∉ init :: S) as HtS.
  { intros Hin. apply elem_of_cons in Hin as [->|Hin]; [congruence|].
    destruct (Hr _ Hin) as (? & ? & _). congruence. }
  split; simpl.
  - change (NoDup ((init :: S) ++ [t])). apply NoDup_app. split_and!; [done| |apply NoDup_singleton].
    intros y Hy ->%list_elem_of_singleton. done.
  - exists thi. rewrite lookup_insert_ne by congruence. done.
  - intros y [Hy|Hy%list_elem_of_singleton]%elem_of_app; [|subst y].
    + destruct (Hr _ Hy) as (thy & H1 & H2 & sty & H3 & H4). exists thy.
      rewrite lookup_insert_ne by congruence. split; [done|]. split; [done|].
      destruct (decide (t_rsp thy = t_rsp th)) as [E|E].
      * exists st. by rewrite E, lookup_insert_eq.
      * exists sty. by rewrite lookup_insert_ne.
    + exists th. rewrite lookup_insert_eq. split; [done|]. split; [done|]. exists st.
      by rewrite lookup_insert_eq.
  - intros y thy [[-> _]|[_ Hy]]%lookup_insert_Some; [set_solver +|].
    apply Hall in Hy. set_solver + Hy.
Qed.

Lemma created_base q o : created q o → evq_inv q [] ∧ by_time (evs q) [].
Proof.
  intros []. split; [|constructor]. split; [|split; [constructor|]].
  - exists Leaf. rewrite cr_root0. done.
  - intros x e Hx. by rewrite (cr_flags0 _ _ Hx).
Qed.

(** The state [sched_init] starts in. *)
Definition boot_ok (s : kern A) : Prop :=
  (∃ L, al_rep (k_alloc s) L) ∧ tsc_freq (lp_clocks (k_lapic s)) ≠ 0 ∧
  length (int_handlers (lp_int (k_lapic s))) = 256%nat ∧ k_evq s = MkEvq ∅ ev_null ∧
  k_objs s = MkObjs ∅ ∅ ∅ ∅ ∅ ∅ ∧ IRQ_disable_counter (k_vars s) = 0.

(** The invariant for the boot thread, running, and three threads. *)
Lemma thr_initial q o init idle t1 t2 ev arg :
  created q o → roster o init ev [idle; t1; t2] →
  cb_of (evs q) ev = Some (cb_switch_thread, arg) →
  thr_inv (threads o) (cb_of (evs q)) [t1; t2] {[ev]} init idle PNormal.
Proof.
  intros [] [Hnd (thi & Hi & Hid & Hie) Hr Hall] Hcb.
  rewrite !NoDup_cons in Hnd. destruct Hnd as (N1 & N2 & N3 & _ & _).
  assert (∀ t th, threads o !! t = Some th → t ≠ init → t_status th = THREAD_READY) as Hst.
  { intros t th Ht Hti. pose proof (Hall _ _ Ht) as [->|Hin]%elem_of_cons; [done|].
    destruct (Hr _ Hin) as (th' & Ht' & Hs & _). congruence. }
  split; try done.
  - destruct (Hr idle) as (th & ? & _); [set_solver +|eauto].
  - intros th Hth. left. eapply Hst; [done|]. intros ->. set_solver + N1.
  - exists thi. split; [done|]. intros _. simpl. by right.
  - intros t th Ht. destruct (cr_event0 _ _ Ht) as [? H2]. split; [done|].
    unfold cb_of. by apply fmap_is_Some.
  - rewrite !NoDup_cons. split_and!; [done|set_solver +|constructor].
  - intros t Ht. destruct (Hr t) as (th & Hth & Hs & _); [set_solver + Ht|].
    split_and!; [set_solver + Ht N2|set_solver + Ht N1|eauto].
  - intros x ->%elem_of_singleton. eauto.
  - intros t th Ht Hti. destruct (decide (t = init)) as [->|Hne].
    + replace th with thi by congruence. by rewrite Hid.
    + rewrite (Hst _ _ Ht Hne). apply Hall in Ht. set_solver + Ht Hti Hne.
Qed.

(** The boot thread's own object. *)
Lemma wpo_boot_thread a l q o v (K : Z → Z → M (kern A) unit) (Q : unit → kern A → Prop) :
  heap_ok a q o → created q o → threads o = ∅ →
  (∀ init th e a',
     let q' := MkEvq (<[e := event_init]> (evs q)) (event_root q) in
     let o' := with_threads (<[init := th]> (threads o)) o in
     created q' o' → roster o' init e [] → heap_ok a' q' o' →
     wpo (K init e) Q (MkKern a' l q' o' v)) →
  wpo (init ← kmalloc_obj sizeof_Thread;
       put_thread init (fresh_thread init);;
       upd_thread init (set_name "init");;
       event ← event_create;
       upd_thread init (set_event event);;
       upd_thread init (set_status THREAD_DONE);;
       K init event) Q (MkKern a l q o v).
Proof.
  intros Hh Hcr HT HK. apply wpo_bind. eapply wpo_kmalloc_obj; [done|unfold sizeof_Thread; lia|].
  intros t a1 L1 Ht0 Htf Hr1 HN1 HtL HO1.
  apply wpo_bind. unfold put_thread. apply wpo_zoom, wpo_modify. simpl.
  apply wpo_bind, wp_wpo. eapply wp_upd_thread; [simpl; by rewrite lookup_insert_eq|]. simpl.
  unfold with_threads at 1. simpl. rewrite !insert_insert_eq.
  apply wpo_bind. unfold event_create. apply wpo_bind.
  eapply wpo_kmalloc_obj; [by eapply (heap_ok_alloc_thread a1 L1 t q o)|unfold sizeof_Event; lia|].
  intros e a3 L3 He0 Hef Hr3 HN3 HeL HO3. simpl in Hef, HN3, HO3. rewrite dom_insert_L in HO3.
  apply wpo_bind, wpo_zoom, wpo_modify. simpl. apply wpo_ret.
  do 2 (apply wpo_bind, wp_wpo; (eapply wp_upd_thread; [simpl; by rewrite lookup_insert_eq|]); simpl).
  unfold with_threads. simpl. rewrite !insert_insert_eq.
  match goal with |- wpo _ _ (MkKern _ _ _ (MkObjs (<[t := ?th']> _) _ _ _ _ _) _) =>
    apply (HK t th' e a3) end.
  - apply created_add; [done|]. split_and!; [done| |done| |done|done]; apply not_elem_of_dom;
      [set_solver + Htf|set_solver + Hef].
  - split; simpl; [apply NoDup_singleton|eexists; by rewrite lookup_insert_eq|set_solver|].
    intros y thy. rewrite HT, insert_empty. intros [-> _]%lookup_singleton_Some. set_solver +.
  - exists ({[e]} ∪ L3). simpl. rewrite !dom_insert_L.
    split; [done|]. split; [set_solver + HN3|]. set_solver + HO3 HeL HN3.
Qed.

(** From the threads and the ready list to the first event. *)
Lemma wp_sched_start a l q o v init idle t1 t2 ev :
  heap_ok a q o → created q o → roster o init ev [idle; t1; t2] → tlist_rep o (ready_threads v) [t1; t2] →
  idle_thread v = idle → IRQ_disable_counter v = 0 → tsc_freq (lp_clocks l) ≠ 0 →
  length (int_handlers (lp_int l)) = 256%nat →
  wp (set_current init;;
      zoom (zoom (interrupts_set_handler TIMER_VECTOR handle_next_event_handler) : M lapic unit);;
      zoom (upd_event ev (λ e, set_call (ev_time e) cb_switch_thread (ev_callback_arg e) (ev_kind e) e));;
      zoom (event_enqueue ev)) (λ _ s', kinv s' [FHandle; FBoot]) (MkKern a l q o v).
Proof.
  intros Hh Hcr Hro Htl Hidle Hirq Hf Hlen. destruct q as [m root].
  destruct (ro_init _ _ _ _ Hro) as (th & Hth & _ & Hev).
  destruct (cr_event _ _ Hcr _ _ Hth) as [He0 [e He]]. rewrite Hev in He0, He. simpl in He.
  apply wp_bind. unfold set_current, set_vars. apply wp_zoom, wp_modify. simpl.
  apply wp_bind, wp_zoom, wp_zoom. unfold interrupts_set_handler, set_int_handler, wp at 1.
  rewrite wrap_small by (unfold TIMER_VECTOR; lia). simpl.
  apply wp_bind, wp_zoom. simpl. eapply wp_upd_event; [done|]. simpl.
  set (e' := set_call _ _ _ _ e). set (m' := <[ev := e']> m).
  assert (created (MkEvq m' root) o) as Hcr'.
  { destruct Hcr. split; try done.
    - intros x ex. simpl. unfold m'. rewrite lookup_insert_Some. intros [[<- <-]|[_ Hx]]; [|by eapply cr_flags0].
      unfold e'. simpl. by eapply cr_flags0.
    - intros t th' Ht. destruct (cr_event0 _ _ Ht). split; [done|]. simpl. unfold m'.
      rewrite lookup_insert_is_Some'. by right. }
  destruct (created_base _ _ Hcr') as [Hinv Hbt].
  apply wp_zoom. simpl. eapply wp_mono.
  { apply (wp_event_enqueue (MkEvq m' root) [] ev); [done| |done|done].
    simpl. unfold m'. rewrite lookup_insert_eq. eauto. }
  intros [] q' (Hinv' & Hs' & Hp). simpl in *. exists [t1; t2], [ev]. split; simpl.
  - split; [|done|done|done|].
    + eapply heap_ok_evq; [|exact Hh]. rewrite (same_payload_dom _ _ Hp). simpl. unfold m'.
      apply dom_insert_lookup_L. eauto.
    + split; [done|]. simpl. unfold TIMER_VECTOR. apply list_lookup_insert_eq. rewrite Hlen.
      apply Nat2Z.inj_lt. rewrite Z2Nat.id; lia.
  - rewrite union_empty_r_L, Hidle.
    assert (∀ x, cb_of (evs q') x = cb_of m' x) as Hcb by (intros; by apply same_payload_cb).
    assert (thr_inv (threads o) (cb_of m') [t1; t2] {[ev]} init idle PNormal) as I.
    { eapply (thr_initial (MkEvq m' root) o _ _ _ _ ev); [done|done|].
      unfold cb_of, m'. simpl. by rewrite lookup_insert_eq. }
    destruct I. split; try done; setoid_rewrite Hcb; done.
  - intros t th' Ht Hti. pose proof (ro_all _ _ _ _ Hro _ _ Ht) as [->|Hin]%elem_of_cons; [done|].
    unfold resumable. rewrite (cr_saved _ _ Hcr), lookup_empty.
    destruct (ro_ready _ _ _ _ Hro _ Hin) as (th2 & H1 & _ & st & H2 & H3). simplify_eq. eauto.
  - split; [by repeat constructor|]. by eexists.
  - done.
Qed.

Lemma wpo_sched_init s :
  boot_ok s → wpo (sched_init fresh_thread fresh_proc fresh_stack) (λ stk s', kinv s' stk) s.
Proof.
  destruct s as [a l q o v]. unfold boot_ok. simpl.
  intros ((L0 & Hrep) & Hf & Hlen & -> & -> & Hirq).
  unfold sched_init. apply wpo_bind. unfold sched_init_data.
  apply wpo_bind, wpo_thread_list_new.
  { exists L0. simpl. split; [done|]. set_solver. }
  intros ready a1 Hr0 _ Hh1. apply wpo_bind, wpo_thread_list_new; [done|].
  intros fin a2 Hf0 Hfin Hh2. simpl in Hfin, Hh2. rewrite insert_empty in Hfin, Hh2.
  apply wpo_bind, wp_wpo. apply wp_zoom, wp_zoom, wp_gets. simpl.
  apply wpo_bind. unfold set_vars. apply wpo_zoom, wpo_modify. simpl. rewrite insert_empty.
  assert (ready ≠ fin) as Hrf by (intros ->; by rewrite lookup_singleton_eq in Hfin).
  apply wpo_bind, wpo_process_create; [exact Hh2|simpl; lia|]. intros kp pr a3 Hh3 _ _ _.
  apply wpo_bind, wpo_zoom, wpo_modify. simpl.
  apply wpo_boot_thread; [exact Hh3|by split|done|]. simpl.
  intros init th e a4 Hcr4 Hro4 Hh4.
  apply wpo_bind, wpo_thread_kcreate; [exact Hh4|simpl; lia|]. simpl.
  intros idle th1 e1 st1 a5 Hn1 Ha1 Hh5.
  apply (roster_add _ _ _ _ _ _ _ _ _ _ _ _ _ _ Hro4 Hn1) in Ha1 as Hro5. 
  apply (created_add _ _ _ _ _ _ ∅ ∅ ∅ ∅ Hcr4) in Ha1 as Hcr5.
  apply wpo_bind, wpo_zoom, wpo_modify. simpl in Hro5, Hcr5 |- *.
  apply wpo_bind, wpo_thread_kcreate; [exact Hh5|simpl; lia|]. simpl.
  intros one th2 e2 st2 a6 Hn2 Ha2 Hh6.
  apply (roster_add _ _ _ _ _ _ _ _ _ _ _ _ _ _ Hro5 Hn2) in Ha2 as Hro6. 
  apply (created_add _ _ _ _ _ _ ∅ ∅ ∅ ∅ Hcr5) in Ha2 as Hcr6.
  apply wpo_bind, wpo_thread_kcreate; [exact Hh6|simpl; lia|]. simpl in Hro6, Hcr6 |- *.
  intros two th3 e3 st3 a7 Hn3 Ha3 Hh7.
  apply (roster_add _ _ _ _ _ _ _ _ _ _ _ _ _ _ Hro6 Hn3) in Ha3 as Hro7. 
  apply (created_add _ _ _ _ _ _ ∅ ∅ ∅ ∅ Hcr6) in Ha3 as Hcr7.
  simpl in Hro7, Hcr7.
  apply wpo_bind. eapply (wpo_thread_list_add _ _ _ _ _ ready []); [exact Hh7| |].
  { eexists (MkTList 0 0), []. simpl. rewrite lookup_insert_ne, lookup_singleton_eq by done.
    split_and!; [done|done|constructor|done|done]. }
  intros a8 N8 TL8 Hh8 Htl8 _. apply wpo_bind.
  eapply (wpo_thread_list_add _ _ _ _ _ ready [one]); [exact Hh8|done|].
  intros a9 N9 TL9 Hh9 Htl9 _. apply wp_wpo.
  eapply wp_mono; [apply (wp_sched_start _ _ _ _ _ init idle one two e); [exact Hh9| | |exact Htl9|done..]|].
  - destruct Hcr7. by split.
  - destruct Hro7. by split.
  - intros [] s' Hs'. by apply wpo_ret.
Qed.
End init.

(** ** Runs *)

Section reach.
Context {A : Type} {AL : Allocator A} {LAWS : AllocatorLaws A}.

(** What may happen next: the idle thread computes, any other thread may
    yield or sleep; the interrupt arrives when it is enabled and the running
    stack is not at one of the scheduler's critical points, which are the
    phases other than [PNormal]: in the middle of a switch, before the old
    thread is back in the ready list; in [thread_sleep] between
    [unlock_scheduler] and [thread_yield]; and in the event handler between
    the callback, whose [unlock_scheduler] enables interrupts, and
    [event_remove].  The hardware does deliver interrupts at such points:
    [sleep_race_loses_thread] and [handler_nested_panics] of SchedRuns.v show
    what happens then.  The theorems below are about the runs without them. *)
Definition label_ok (mc : machine A) (l : label) : Prop :=
  match l with
  | LStep act => action_ok (mc_kern mc) act
  | LIrq => irq_enabled mc = true ∧ irq_safe (mc_stack mc)
  end.

Inductive sched_reach (mc0 : machine A) : machine A → Prop :=
| reach_init : sched_reach mc0 mc0
| reach_step mc l mc' :
    sched_reach mc0 mc → label_ok mc l → sched_step l mc = Ok mc' → sched_reach mc0 mc'.

Definition minv (mc : machine A) : Prop := kinv (mc_kern mc) (mc_stack mc).

Lemma sched_step_minv mc l :
  minv mc → label_ok mc l →
  match sched_step l mc with Ok mc' => minv mc' | Panic msg => msg = oom | _ => False end.
Proof.
  intros Hi Hl. unfold sched_step. destruct l as [act|].
  - pose proof (step_kinv _ _ act Hi Hl) as Hs. unfold wpo in Hs.
    by destruct (step act (mc_stack mc) (mc_kern mc)) as [[]| | |].
  - destruct Hl as [_ Hsafe]. pose proof (irq_kinv _ _ Hi Hsafe) as Hs. unfold wp in Hs.
    by destruct (irq (mc_stack mc) (mc_kern mc)) as [[]| | |].
Qed.

Lemma sched_reach_minv mc0 mc : minv mc0 → sched_reach mc0 mc → minv mc.
Proof.
  intros H0. induction 1 as [|mc l mc' _ IH Hl Hs]; [done|].
  pose proof (sched_step_minv _ _ IH Hl) as Hm. by rewrite Hs in Hm.
Qed.

Lemma sched_init_minv ft fp fs s stk s' :
  boot_ok s → sched_init ft fp fs s = Ok (stk, s') → minv (MkMachine stk s' 0).
Proof.
  intros Hb E. pose proof (wpo_sched_init ft fp fs s Hb) as Hw. unfold wpo in Hw. by rewrite E in Hw.
Qed.
End reach.

(** ** Thread lists *)

Inductive lop := LAdd (t : Z) | LNext.

Section lists.
Context {A : Type} {AL : Allocator A} {LAWS : AllocatorLaws A}.

Fixpoint run_lops (p : Z) (os : list lop) : M (kern A) (list Z) :=
  match os with
  | [] => mret []
  | LAdd t :: os' => thread_list_add p t;; run_lops p os'
  | LNext :: os' => t ← thread_list_get_next p; ts ← run_lops p os'; mret (t :: ts)
  end.

(** The reference: a queue of threads, 0 when it is empty. *)
Fixpoint spec_lops (os : list lop) (R : list Z) : list Z * list Z :=
  match os with
  | [] => ([], R)
  | LAdd t :: os' => spec_lops os' (R ++ [t])
  | LNext :: os' =>
      let '(ts, R') := spec_lops os' (tail R) in (hd 0 R :: ts, R')
  end.

(** C7: a thread list is a first-in first-out queue: over any sequence of
    additions and removals the threads handed out are those of the reference
    queue, and the list is left representing its contents; the only failure
    is running out of memory. *)
Theorem thread_list_refines (os : list lop) (s : kern A) p R :
  heap_ok (k_alloc s) (k_evq s) (k_objs s) → tlist_rep (k_objs s) p R → 0 ∉ R →
  Forall (λ op, op ≠ LAdd 0) os →
  wpo (run_lops p os) (λ ts s', ts = (spec_lops os R).1 ∧
    heap_ok (k_alloc s') (k_evq s') (k_objs s') ∧ tlist_rep (k_objs s') p (spec_lops os R).2) s.
Proof.
  revert s R. induction os as [|op os IH]; intros s R Hh Hr H0 Hos; simpl.
  { by apply wpo_ret. }
  apply Forall_cons in Hos as [Hop Hos]. destruct s as [a l q o v]. destruct op as [t|].
  - apply wpo_bind. eapply wpo_thread_list_add; [done..|]. intros a' N TL Hh' Hr' _.
    apply IH; [done|done| |done]. rewrite not_elem_of_app, list_elem_of_singleton. naive_solver.
  - apply wpo_bind, wp_wpo.
    assert (∀ s' t, heap_ok (k_alloc s') (k_evq s') (k_objs s') → tlist_rep (k_objs s') p (tail R) →
      t = hd 0 R → wpo (ts ← run_lops p os; mret (t :: ts)) (λ ts s2,
        ts = (let '(ts', R') := spec_lops os (tail R) in (hd 0 R :: ts', R')).1 ∧
        heap_ok (k_alloc s2) (k_evq s2) (k_objs s2) ∧
        tlist_rep (k_objs s2) p (let '(ts', R') := spec_lops os (tail R) in (hd 0 R :: ts', R')).2) s') as Hk.
    { intros s' t Hh' Hr' ->. apply wpo_bind. eapply wpo_mono; [apply (IH s' (tail R)); [done|done| |done]|].
      - destruct R; [done|]. set_solver + H0.
      - intros ts s2 (-> & H1 & H2). apply wpo_ret. by destruct (spec_lops os (tail R)). }
    eapply wp_thread_list_get_next; [done..| |].
    + intros ->. by apply Hk.
    + intros t R' a' N TL -> Hh' Hr' _. by apply Hk.
Qed.
End lists.

(** ** Claims *)

Section claims.
Context {A : Type} {AL : Allocator A} {LAWS : AllocatorLaws A}.
Variable fresh_thread : Z → Thread.
Variable fresh_proc : Z → Process.
Variable fresh_stack : Z → InitialKStack.



(** [sched_init] starts the scheduler: from boot it returns, or runs out
    of memory, with the boot thread about to handle the first event, the two
    threads ready in the order of their creation and the idle thread in
    reserve. *)
Theorem sched_init_starts (s : kern A) :
  boot_ok s →
  wpo (sched_init fresh_thread fresh_proc fresh_stack) (λ stk s', stk = [FHandle; FBoot] ∧
    kinv s' stk) s.
Proof.
  intros Hb. pose proof (wpo_sched_init fresh_thread fresh_proc fresh_stack s Hb) as Hw.
  unfold wpo in *. destruct (sched_init _ _ _ s) as [[stk s']| | |] eqn:E; [|done..]. split; [|done].
  unfold sched_init, mbind, M_bind, mret, M_ret in E.
  destruct (sched_init_data fresh_thread fresh_proc fresh_stack s) as [[]| | |]; by simplify_eq.
Qed.

(** A new thread starts where it should: switching to a thread that
    [thread_kcreate] made enters [init_thread] with the thread switched from
    as its argument, then the thread's entry function, with interrupts
    enabled. *)
Theorem thread_kcreate_starts (s : kern A) name entry proc old rest :
  heap_ok (k_alloc s) (k_evq s) (k_objs s) → (String.length name < 64)%nat →
  is_Some (threads (k_objs s) !! old) → dom (saved (k_objs s)) ⊆ dom (threads (k_objs s)) →
  wpo (t ← thread_kcreate fresh_thread fresh_stack name entry proc; switch_context old t rest)
    (λ stk s', stk = [FInitThread old; FRun entry] ∧ IF (k_vars s') = true) s.
Proof.
  destruct s as [a l q o v]. simpl. intros Hh Hn [tho Ho] Hd. apply wpo_bind.
  eapply wpo_thread_kcreate; [done..|]. intros t th e st a' (_ & _ & _ & _ & _ & Hi & He & Hf) (Ht0 & Ht & _) _.
  assert (t ≠ old) as Hto by congruence. apply wp_wpo.
  unfold switch_context. apply wp_bind, wp_gets. simpl.
  apply wp_bind. eapply wp_get_thread; [simpl; by rewrite lookup_insert_ne|].
  apply wp_bind. apply wp_zoom, wp_modify. simpl.
  apply wp_bind. eapply wp_get_thread; [simpl; by rewrite lookup_insert_eq|].
  apply wp_bind, wp_gets. simpl. rewrite lookup_insert_ne by done.
  assert (saved o !! t = None) as ->.
  { apply not_elem_of_dom. intros Hin. apply Hd, elem_of_dom in Hin as [? ?]. congruence. }
  rewrite lookup_insert_eq. apply wp_bind. unfold set_IF, set_vars. apply wp_zoom, wp_modify. simpl.
  apply wp_ret. rewrite Hi, He, Hf. done.
Qed.
End claims.
