(* ===== verification/SchedRuns.v ===== *)
(** * Runs of the scheduler

    Concrete runs from boot, on an allocator that never reuses memory: the
    witnesses of the theorems on the scheduler, and what happens when the
    timer interrupt arrives at the critical points the theorems exclude. *)

From S2P Require Import Prelude Mem Pmm Paging Vmm Hw Time Interrupts Madt Lapic Events EventTree EventThms Alloc Thread Sched ThreadLists SchedInv SchedOps SchedThms.
Local Open Scope Z_scope.
Local Open Scope kernel_scope.

(** ** A simple allocator *)

Record bump := MkBump { bump_next : Z }.

#[export] Instance bump_allocator : Allocator bump := {|
  al_alloc := λ n s, Ok (bump_next s, MkBump (bump_next s + Z.max 16 n));
  al_free := λ _, mret tt;
  al_rep := λ s L, 0 < bump_next s ∧ ∀ p, p ∈ L → p < bump_next s |}.

#[export] Instance bump_allocator_laws : AllocatorLaws bump.
Proof.
  split.
  - intros [n] L k [Hn HL] Hk. unfold wpo. simpl in *. split_and!; [lia| |lia|].
    + intros Hin. specialize (HL _ Hin). lia.
    + intros p [->%elem_of_singleton|Hp]%elem_of_union; [lia|]. specialize (HL _ Hp). lia.
  - intros [n] L p [Hn HL] Hp. apply wp_ret. split; [done|]. intros p' Hp'. apply HL. set_solver.
Qed.

(** ** Boot *)

(** The machine at boot; the time-stamp counter counts nanoseconds and shows
    the given times, one per reading. *)
Definition boot (times : list Z) : kern bump :=
  MkKern (MkBump 4096)
    (MkLapic (MkClocks (MkHw [] [] ∅ (λ n, nth n times 0) 0 (λ _, 0) 0 (λ _, 0) 0)
       (ck_vmm clocks_demo) 0 0 69841279 timer_hpet 0 1000000000)
       interrupts_static 0 0xfee00000 0xfee00000 6250000)
    (MkEvq ∅ ev_null) (MkObjs ∅ ∅ ∅ ∅ ∅ ∅) (MkVars 0 0 0 0 0 0 0 0 false).

Definition demo_thread (_ : Z) : Thread := MkThread 0 0 0 0 0 "" THREAD_BLOCKED 0 0 0.
Definition demo_proc (_ : Z) : Process := MkProcess 0 "" 0 0 0.
Definition demo_stack (_ : Z) : InitialKStack := MkKStack 0 0 0 0 0 0 0 fn_idle fn_idle.

(** A run of labels from a state, as long as interrupts are enabled where
    they are taken. *)
Fixpoint run_labels (ls : list label) (r : res (machine bump)) : res (machine bump) :=
  match ls, r with
  | l :: ls', Ok mc =>
      if (match l with LIrq => irq_enabled mc | _ => true end) then run_labels ls' (sched_step l mc)
      else Fault 0
  | _, _ => r
  end.

Definition start (times : list Z) : res (machine bump) :=
  match sched_init demo_thread demo_proc demo_stack (boot times) with
  | Ok (stk, s) => Ok (MkMachine stk s 0)
  | Panic msg => Panic msg
  | Fault a => Fault a
  | NoFuel => NoFuel
  end.

Lemma boot_is_ok times : boot_ok (boot times).
Proof. split_and!; try done. exists ∅. simpl. split; [lia|]. set_solver. Qed.

(** The threads in the ready list, from the nodes. *)
Fixpoint walk_list (fuel : nat) (N : gmap Z ThreadListNode) (h : Z) : list Z :=
  match fuel, N !! h with
  | S fuel', Some n => tn_thread n :: walk_list fuel' N (tn_next n)
  | _, _ => []
  end.
Definition ready_list (s : kern bump) : list Z :=
  walk_list 16 (nodes (k_objs s))
    (from_option tl_head 0 (tlists (k_objs s) !! ready_threads (k_vars s))).

(** The thread of a name. *)
Definition named (name : string) (s : kern bump) : option (Z * Thread) :=
  list_find (λ p, bool_decide (t_name p.2 = name)) (map_to_list (threads (k_objs s))) ≫= λ p, Some p.2.

Abbreviation go := (LStep ACompute).
Abbreviation sleep ns := (LStep (ASleep ns)).

(** From [sched_init] to the code of thread one: the boot thread handles the
    first event and switches to it. *)
Definition to_one : list label := [go; go; go; go; go; go].

(** ** Witnesses *)

Definition demo_times : list Z := [10; 20; 30; 40; 50; 60; 70; 80; 90; 100].

#[export] Instance action_eq_dec : EqDecision action.
Proof. solve_decision. Defined.

(** A run in which the excluded interrupts do not occur. *)
Fixpoint run_safe (ls : list label) (mc : machine bump) : option (machine bump) :=
  match ls with
  | [] => Some mc
  | l :: ls' =>
      let v := k_vars (mc_kern mc) in
      let ok := match l with
                | LStep act => bool_decide (current_thread v ≠ idle_thread v) || bool_decide (act = ACompute)
                | LIrq => irq_enabled mc && bool_decide (phase_of (mc_stack mc) = PNormal)
                end in
      if ok then match sched_step l mc with Ok mc' => run_safe ls' mc' | _ => None end else None
  end.

Lemma run_safe_reach mc0 ls mc mc' :
  sched_reach mc0 mc → run_safe ls mc = Some mc' → sched_reach mc0 mc'.
Proof.
  revert mc. induction ls as [|l ls IH]; intros mc Hr; simpl; [by intros [= <-]|].
  match goal with |- (if ?b then _ else _) = _ → _ => destruct b eqn:Hok; [|done] end.
  destruct (sched_step l mc) as [mc1| | |] eqn:Hs; [|done..]. apply IH. eapply reach_step; [done| |done].
  destruct l as [act|]; simpl.
  - apply orb_true_iff in Hok as [H%bool_decide_eq_true|H%bool_decide_eq_true]; unfold action_ok; naive_solver.
  - apply andb_true_iff in Hok as [H1 H2%bool_decide_eq_true]. done.
Qed.

Definition is_ok {B : Type} (r : res B) : bool := match r with Ok _ => true | _ => false end.
Lemma is_ok_inv {B : Type} (r : res B) : is_ok r = true → ∃ x, r = Ok x.
Proof. destruct r; [eauto|done..]. Qed.

Abbreviation demo_init := (sched_init demo_thread demo_proc demo_stack (boot demo_times)).

Lemma demo_init_ok : is_ok demo_init = true.
Proof. vm_compute. reflexivity. Qed.

(** Thread one starts, sleeps, and thread two takes over. *)
Definition demo_run : list label := to_one ++ [sleep 1000; go; go; go; go].

Lemma demo_run_ok :
  match demo_init with Ok (stk, s) => bool_decide (is_Some (run_safe demo_run (MkMachine stk s 0))) | _ => false end = true.
Proof. vm_compute. reflexivity. Qed.

Lemma demo_reach : ∃ stk s mc, demo_init = Ok (stk, s) ∧ sched_reach (MkMachine stk s 0) mc.
Proof.
  destruct (is_ok_inv _ demo_init_ok) as [[stk s] E]. pose proof demo_run_ok as Hr. rewrite E in Hr.
  apply bool_decide_eq_true in Hr as [mc Hmc]. exists stk, s, mc. split; [done|].
  eapply run_safe_reach; [apply reach_init|done].
Qed.



Lemma sched_init_starts_witness :
  wpo (sched_init demo_thread demo_proc demo_stack) (λ stk s', stk = [FHandle; FBoot] ∧ kinv s' stk)
    (boot demo_times).
Proof. apply (sched_init_starts demo_thread demo_proc demo_stack). apply boot_is_ok. Defined.

Definition list_demo : kern bump :=
  MkKern (MkBump 4096) lapic_demo (MkEvq ∅ ev_null)
    (MkObjs {[0x20 := demo_thread 0]} ∅ ∅ {[0x10 := MkTList 0 0]} ∅ ∅) (MkVars 0 0 0 0 0 0 0 0 false).

Lemma list_demo_heap : heap_ok (k_alloc list_demo) (k_evq list_demo) (k_objs list_demo).
Proof.
  exists {[0x10; 0x20]}. split; [split; [done|]|split; [set_solver|]].
  - intros p. rewrite elem_of_union, !elem_of_singleton. simpl. lia.
  - simpl. rewrite !dom_singleton_L, !dom_empty_L. set_solver.
Qed.

Lemma thread_list_refines_witness :
  wpo (run_lops 0x10 [LAdd 5; LAdd 6; LNext; LAdd 7; LNext; LNext; LNext]) (λ ts _, ts = [5; 6; 7; 0])
    list_demo.
Proof.
  refine (wpo_mono _ _ _ _ (thread_list_refines
    [LAdd 5; LAdd 6; LNext; LAdd 7; LNext; LNext; LNext] list_demo 0x10 [] list_demo_heap _ _ _) _).
  - exists (MkTList 0 0), []. split; [reflexivity|]. split; [reflexivity|].
    split; [constructor|]. split; reflexivity.
  - intros H. inversion H.
  - repeat constructor; discriminate.
  - intros ts s' [H _]. exact H.
Defined.

Lemma thread_kcreate_starts_witness :
  wpo (t ← thread_kcreate demo_thread demo_stack "one" fn_one 0; switch_context 0x20 t [FBoot])
    (λ stk s', stk = [FInitThread 0x20; FRun fn_one] ∧ IF (k_vars s') = true) list_demo.
Proof.
  refine (thread_kcreate_starts demo_thread demo_stack list_demo "one" fn_one 0 0x20 [FBoot]
    list_demo_heap _ _ _).
  - simpl. lia.
  - exists (demo_thread 0). reflexivity.
  - simpl. rewrite dom_empty_L. apply empty_subseteq.
Defined.

(** ** Interrupts at the critical points *)

(** A thread that nothing will run again: it is marked asleep, does not run,
    is not ready, and its event is not in the queue. *)
Definition lost (name : string) (s : kern bump) : bool :=
  match named name s with
  | Some (t, th) =>
      bool_decide (t_status th = THREAD_SLEEPING) && negb (t =? current_thread (k_vars s)) &&
      negb (existsb (Z.eqb t) (ready_list s)) &&
      negb (from_option ev_enqueued true (evs (k_evq s) !! t_event th))
  | None => false
  end.

Definition race_times : list Z :=
  [10; 20; 30; 40; 50; 2000; 2010; 2020; 2030; 2040; 2050; 2060; 2070;
   3002080; 3002090; 3002100; 3002110; 3002120; 3002130; 3002140].
Definition race_run : list label :=
  to_one ++ [sleep 1000; LIrq; go; go; go; go; go; go; go; go; go;
             sleep 10000000; go; go; sleep 10000000; go; LIrq; go; go; go; go; go; go; go; go; go].

(** An interrupt between [unlock_scheduler] and [thread_yield] in
    [thread_sleep] loses a thread.  The handler wakes the thread that is
    about to yield, which puts it in the ready list a second time when it
    does; its next sleep returns at once with the thread still marked asleep
    and without a wake-up event, and at the end of its quantum it is dropped
    for good, while the kernel goes on with the idle thread. *)
Theorem sleep_race_loses_thread :
  match run_labels race_run (start race_times) with
  | Ok mc => mc_stack mc = [FRun fn_idle] ∧ lost "one" (mc_kern mc) = true
  | _ => False
  end.
Proof. vm_compute. split; reflexivity. Qed.

Definition nested_times : list Z :=
  [10; 20; 30; 40; 3000100; 3000110; 3000120; 3000130; 3000140; 3000150; 3000160; 3000170;
   3000180; 3000190; 3000200; 3000210].
Definition nested_run : list label :=
  to_one ++ [LIrq; go; go; go; go; go; go; sleep 5; go; go; go; LIrq; go; go; go; go; go; go].

(** The interrupt handler is not safe to interrupt, although
    [unlock_scheduler] enables interrupts inside it: when the timer fires
    between [event_peek_next] and [event_remove], the nested handler wakes
    the thread, and the outer one wakes it again, which is a kernel panic. *)
Theorem handler_nested_panics :
  match run_labels nested_run (start nested_times) with
  | Panic msg => msg = "trying to wake an already awake thread"%string
  | _ => False
  end.
Proof. vm_compute. reflexivity. Qed.

Definition rearm_times : list Z :=
  [10; 20; 30; 40; 50; 60; 70; 80; 4000000; 4000010; 4000020; 4000030; 4000040].
Definition rearm_run : list label :=
  to_one ++ [sleep 1000; go; go; go; go; LIrq; go; go; go; go; go; go].

(** A thread that is switched to from the timer interrupt while it was in
    [thread_sleep] runs without a timer: [handle_next_event] arms the timer
    only when it returns, on the stack of the thread that was preempted.
    Thread one runs with interrupts on, thread two is ready and the switch
    event is queued, but no interrupt can come any more. *)
Theorem switch_leaves_timer_off :
  match run_labels rearm_run (start rearm_times) with
  | Ok mc => mc_stack mc = [FRun fn_one] ∧ IF (k_vars (mc_kern mc)) = true ∧
      ready_list (mc_kern mc) ≠ [] ∧ event_root (k_evq (mc_kern mc)) ≠ ev_null ∧
      timer_armed (mc_fired mc) (mc_kern mc) = false
  | _ => False
  end.
Proof. vm_compute. split_and!; (reflexivity || discriminate). Qed.
