(* ===== verification/Cpu.v ===== *)
(** * Descriptor tables and system calls: kernel/cpu/gdt/gdt.c,
      kernel/cpu/idt/idt.c, kernel/syscalls/syscall.c

    The entries the code builds are read back the way the processor reads
    them ([seg_*], [gate_*]); the theorems compare the two. *)

From S2P Require Import Prelude Hw.
Local Open Scope Z_scope.
Local Open Scope kernel_scope.

(** ** gdt.c *)

(** The fields of [TSS], in order, with their sizes in bytes. *)
Definition TSS_fields : list (string * Z) :=
  [("reserved1"%string, 4); ("rsp0"%string, 8); ("rsp1"%string, 8); ("rsp2"%string, 8);
   ("reserved2"%string, 8); ("ist1"%string, 8); ("ist2"%string, 8); ("ist3"%string, 8);
   ("ist4"%string, 8); ("ist5"%string, 8); ("ist6"%string, 8); ("ist7"%string, 8);
   ("reserved3"%string, 8); ("reserved4"%string, 2); ("iopb"%string, 2)].
Definition sizeof_TSS : Z := foldr (λ f n, f.2 + n) 0 TSS_fields.

Definition gdt_encode_entry (limit base access flags : Z) : Z :=
  Z.lor (Z.lor (Z.lor (Z.lor (Z.lor (Z.lor
    (Z.land limit 0xffff)
    (u64 (Z.shiftl (Z.land base 0xffff) 16)))
    (u64 (Z.shiftl (Z.land base 0xff0000) 32)))
    (u64 (Z.shiftl (Z.land access 0xff) 40)))
    (u64 (Z.shiftl (Z.shiftr (Z.land limit 0xf0000) 16) 48)))
    (u64 (Z.shiftl (Z.land flags 0xf) 52)))
    (u64 (Z.shiftl (Z.shiftr (Z.land base 0xff000000) 24) 56)).

Definition kernel_code_entry : Z := gdt_encode_entry 0xfffff 0x0 0x9a 0xa.
Definition kernel_data_entry : Z := gdt_encode_entry 0xfffff 0x0 0x92 0xc.
Definition user_code_entry : Z := gdt_encode_entry 0xfffff 0x0 0xfa 0xa.
Definition user_data_entry : Z := gdt_encode_entry 0xfffff 0x0 0xf2 0xc.
Definition tss_entry (tss : Z) : Z := gdt_encode_entry sizeof_TSS (Z.land tss 0xffffffff) 0x89 0x40.

(** The table [gdt_init] loads, [tss] being the address of the TSS; the last
    component is the value of [tss.iopb]. *)
Definition gdt_init (tss : Z) : list Z * Z :=
  ([0x0; kernel_code_entry; kernel_data_entry; user_code_entry; user_data_entry;
    tss_entry tss; Z.land (Z.shiftr tss 32) 0xffffffff], 56).

(** What the processor reads in an entry. *)
Definition bits (e lo n : Z) : Z := Z.land (Z.shiftr e lo) (Z.ones n).
Definition seg_limit (e : Z) : Z := bits e 0 16 + 2 ^ 16 * bits e 48 4.
Definition seg_base (e : Z) : Z := bits e 16 24 + 2 ^ 24 * bits e 56 8.
Definition seg_access (e : Z) : Z := bits e 40 8.
Definition seg_flags (e : Z) : Z := bits e 52 4.

(** ** idt.c *)

Definition K_CODE_SELECTOR : Z := 0x08.
Definition INT_GATE : Z := 0x8E.
Definition TRAP_GATE : Z := 0x8F.

Record IdtDescriptor := MkIdt {
  isr_low : Z; kernel_cs : Z; ist : Z; attributes : Z; isr_mid : Z; isr_high : Z; reserved : Z
}.

Definition idt_descriptor (isr flags : Z) : IdtDescriptor :=
  MkIdt (Z.land isr 0xFFFF) K_CODE_SELECTOR 0 (u8 flags) (Z.land (Z.shiftr isr 16) 0xFFFF)
    (Z.land (Z.shiftr isr 32) 0xFFFFFFFF) 0.

Record idt_st := MkIdtSt { idt : list IdtDescriptor; idtr_base : Z; idtr_limit : Z; idt_if : bool }.

(** [idt[vector] = ...]; [vector] is a byte, the table has 256 entries. *)
Definition idt_set_descriptor (vector isr flags : Z) : M idt_st unit := λ s,
  match idt s !! Z.to_nat (u8 vector) with
  | Some _ => Ok (tt, MkIdtSt (<[Z.to_nat (u8 vector) := idt_descriptor isr flags]> (idt s))
                        (idtr_base s) (idtr_limit s) (idt_if s))
  | None => Fault vector
  end.

(** The loop, from [vector] with [n] vectors to go. *)
Fixpoint idt_loop (isr_array : Z → Z) (n : nat) (vector : Z) : M idt_st unit :=
  match n with
  | O => mret tt
  | S n' => idt_set_descriptor vector (isr_array vector) 0x8E;; idt_loop isr_array n' (vector + 1)
  end.

(** [idt_addr]: where the table is; [lidt] loads the register and [sti]
    enables interrupts. *)
Definition idt_init (idt_addr : Z) (isr_array : Z → Z) : M idt_st unit :=
  modify (λ s, MkIdtSt (idt s) idt_addr (u16 (16 * 256 - 1)) (idt_if s));;
  idt_loop isr_array 256 0;;
  modify (λ s, MkIdtSt (idt s) (idtr_base s) (idtr_limit s) true).

(** What the processor reads in a gate. *)
Definition gate_offset (d : IdtDescriptor) : Z := isr_low d + 2 ^ 16 * isr_mid d + 2 ^ 32 * isr_high d.
Definition gate_type (d : IdtDescriptor) : Z := bits (attributes d) 0 4.
Definition gate_dpl (d : IdtDescriptor) : Z := bits (attributes d) 5 2.
Definition gate_present (d : IdtDescriptor) : bool := Z.testbit (attributes d) 7.

(** ** syscall.c *)

Definition MSR_EFER : Z := 0xC0000080.
Definition MSR_STAR : Z := 0xC0000081.
Definition MSR_FMASK : Z := 0xC0000084.
Definition MSR_EFER_SYSCALL_ENABLE : Z := Z.shiftl 1 0.
Definition MSR_FMASK_IF_DISABLE : Z := Z.shiftl 1 9.
Definition STAR_VALUE : Z := 0x0013000800000000.

Definition syscall_init : M hw unit :=
  (v ← msr_read MSR_EFER; msr_write MSR_EFER (Z.lor v MSR_EFER_SYSCALL_ENABLE));;
  msr_write MSR_STAR STAR_VALUE;;
  (v ← msr_read MSR_FMASK; msr_write MSR_FMASK (Z.lor v MSR_FMASK_IF_DISABLE)).

(** The selectors the processor derives from STAR: SYSCALL loads CS and SS
    from bits 32-47, SYSRET (to 64-bit code) from bits 48-63. *)
Definition syscall_cs (star : Z) : Z := Z.land (bits star 32 16) 0xfffc.
Definition sysret_cs (star : Z) : Z := bits star 48 16 + 16.
Definition sysret_ss (star : Z) : Z := bits star 48 16 + 8.

(** The entry a selector refers to. *)
Definition selected (gdt : list Z) (selector : Z) : option Z := gdt !! Z.to_nat (Z.shiftr selector 3).

(** The executable bit of the access byte tells code from data. *)
Definition is_code (e : Z) : bool := Z.testbit (seg_access e) 3.

(** ** Lemmas *)

Lemma bits_div e lo n : 0 ≤ lo → 0 ≤ n → bits e lo n = (e `div` 2 ^ lo) mod 2 ^ n.
Proof. intros. unfold bits. by rewrite Z.land_ones, Z.shiftr_div_pow2 by lia. Qed.

(** The entry as a sum, when no field overlaps another. *)
Lemma gdt_encode_sum limit base access flags :
  0 ≤ limit < 2 ^ 20 → 0 ≤ base < 2 ^ 32 → 0 ≤ access < 256 → 0 ≤ flags < 16 →
  Z.land base 0xff0000 = 0 →
  gdt_encode_entry limit base access flags =
    limit mod 2 ^ 16 + 2 ^ 16 * (base mod 2 ^ 16) + 2 ^ 40 * access + 2 ^ 48 * (limit `div` 2 ^ 16) +
    2 ^ 52 * flags + 2 ^ 56 * (base `div` 2 ^ 24).
Proof.
  intros Hl Hb Ha Hf H0. unfold gdt_encode_entry. rewrite H0. change (u64 (Z.shiftl 0 32)) with 0.
  rewrite Z.lor_0_r.
  change 0xffff with (2 ^ 16 - 1). change 0xff with (2 ^ 8 - 1). change 0xf with (2 ^ 4 - 1).
  change 0xf0000 with (2 ^ 20 - 2 ^ 16). change 0xff000000 with (2 ^ 32 - 2 ^ 24).
  rewrite !land_ones_mod, !land_high_mask by lia.
  rewrite !Z.shiftr_div_pow2, !Z.shiftl_mul_pow2 by lia.
  assert ((limit - limit mod 2 ^ 16) `div` 2 ^ 16 = limit `div` 2 ^ 16) as -> by (simpl; dlia).
  assert ((base - base mod 2 ^ 24) `div` 2 ^ 24 = base `div` 2 ^ 24) as -> by (simpl; dlia).
  rewrite (Z.mod_small access), (Z.mod_small flags) by (simpl; lia).
  pose proof (Z.mod_pos_bound limit (2 ^ 16) ltac:(lia)). pose proof (Z.mod_pos_bound base (2 ^ 16) ltac:(lia)).
  assert (0 ≤ limit `div` 2 ^ 16 < 2 ^ 4) as Hlh by (simpl; dlia).
  assert (0 ≤ base `div` 2 ^ 24 < 2 ^ 8) as Hbh by (simpl; dlia).
  set (l0 := limit mod 2 ^ 16) in *. set (b0 := base mod 2 ^ 16) in *.
  set (l1 := limit `div` 2 ^ 16) in *. set (b1 := base `div` 2 ^ 24) in *.
  clearbody l0 b0 l1 b1. simpl in *.
  rewrite !(wrap_small 64) by (simpl; lia).
  assert (∀ k x y, 0 ≤ k → 0 ≤ x < 2 ^ k → Z.lor x (y * 2 ^ k) = x + y * 2 ^ k) as Hor.
  { intros k x y Hk Hx. rewrite Z.lor_comm, (lor_add_disjoint k); [lia|done| |done].
    apply Z.mod_mul, Z.pow_nonzero; lia. }
  change 65536 with (2 ^ 16). change 1099511627776 with (2 ^ 40). change 281474976710656 with (2 ^ 48).
  change 4503599627370496 with (2 ^ 52). change 72057594037927936 with (2 ^ 56).
  rewrite (Hor 16), (Hor 40), (Hor 48), (Hor 52), (Hor 56) by (simpl; lia). lia.
Qed.

Lemma idt_loop_spec isr_array n v s :
  length (idt s) = 256%nat → 0 ≤ v → v + Z.of_nat n = 256 →
  wp (idt_loop isr_array n v) (λ _ s', length (idt s') = 256%nat ∧
    idtr_base s' = idtr_base s ∧ idtr_limit s' = idtr_limit s ∧ idt_if s' = idt_if s ∧
    ∀ i, 0 ≤ i < 256 → idt s' !! Z.to_nat i =
      if i <? v then idt s !! Z.to_nat i else Some (idt_descriptor (isr_array i) 0x8E)) s.
Proof.
  revert v s. induction n as [|n IH]; intros v s Hlen Hv Hn; cbn [idt_loop].
  { apply wp_ret. split_and!; try done. intros i Hi. by rewrite (proj2 (Z.ltb_lt i v)) by lia. }
  assert (is_Some (idt s !! Z.to_nat v)) as [d Hd] by (apply lookup_lt_is_Some; rewrite Hlen; lia).
  apply wp_bind. unfold idt_set_descriptor, wp at 1. rewrite wrap_small by lia. rewrite Hd.
  eapply wp_mono; [apply IH; simpl; [by rewrite length_insert|lia|lia]|].
  intros _ s' (H1 & H2 & H3 & H4 & H5). split_and!; try done. intros i Hi. rewrite (H5 i Hi). simpl.
  destruct (Z.ltb_spec i (v + 1)) as [Hlt|Hge], (Z.ltb_spec i v); try lia; [| |done].
  - by rewrite list_lookup_insert_ne by lia.
  - replace i with v by lia. apply list_lookup_insert_eq. rewrite Hlen. lia.
Qed.

(** ** Claims *)

(** Encoding a segment descriptor and reading it as the processor does
    gives back the limit, the access byte and the flags, and the base as long
    as bits 16 to 23 of the base are zero. *)
Theorem gdt_encode_roundtrip limit base access flags :
  0 ≤ limit < 2 ^ 20 → 0 ≤ base < 2 ^ 32 → 0 ≤ access < 256 → 0 ≤ flags < 16 →
  Z.land base 0xff0000 = 0 →
  let e := gdt_encode_entry limit base access flags in
  seg_limit e = limit ∧ seg_base e = base ∧ seg_access e = access ∧ seg_flags e = flags.
Proof.
  intros Hl Hb Ha Hf H0. cbv zeta. unfold seg_limit, seg_base, seg_access, seg_flags.
  rewrite !bits_div by lia. rewrite (gdt_encode_sum limit base access flags) by done.
  assert (base mod 2 ^ 24 = base mod 2 ^ 16) as Hmid.
  { change 0xff0000 with (Z.land 0xffffff (2 ^ 32 - 2 ^ 16)) in H0. rewrite Z.land_assoc in H0.
    change 0xffffff with (2 ^ 24 - 1) in H0. rewrite land_ones_mod in H0 by lia.
    rewrite land_high_mask in H0 by (simpl; dlia). simpl in *. dlia. }
  simpl in *. split_and!; dlia.
Qed.

(** A bit of a field that is shifted into place. *)
Lemma field_bit x k i : 0 ≤ k → 0 ≤ i < 64 →
  Z.testbit (u64 (Z.shiftl x k)) i = Z.testbit x (i - k).
Proof. intros Hk Hi. unfold wrap. by rewrite Z.mod_pow2_bits_low, Z.shiftl_spec by lia. Qed.

Lemma mid_mask i : 0 ≤ i → Z.testbit 0xff0000 i = (16 <=? i) && (i <? 24).
Proof.
  intros Hi. change 0xff0000 with (Z.shiftl (Z.ones 8) 16). rewrite Z.shiftl_spec by lia.
  rewrite Z.testbit_ones by lia. destruct (Z.leb_spec 16 i), (Z.ltb_spec i 24);
    destruct (Z.leb_spec 0 (i - 16)), (Z.ltb_spec (i - 16) 8); try lia; done.
Qed.

Lemma bits_bit e lo n i : 0 ≤ lo → 0 ≤ i < n → Z.testbit (bits e lo n) i = Z.testbit e (i + lo).
Proof.
  intros Hlo Hi. unfold bits. rewrite Z.land_spec, Z.shiftr_spec, Z.ones_spec_low by lia. apply andb_true_r.
Qed.

(** The bits of an entry that depend on the middle of the base. *)
Lemma gdt_encode_mid limit base access flags i :
  32 ≤ i < 40 → Z.testbit (gdt_encode_entry limit base access flags) i = false.
Proof.
  intros Hi. unfold gdt_encode_entry. rewrite !Z.lor_spec, !field_bit, !Z.land_spec by lia.
  rewrite (testbit_small 16 0xffff i), (testbit_small 16 0xffff (i - 16)) by lia.
  rewrite mid_mask by lia. rewrite (proj2 (Z.leb_gt 16 (i - 32))) by lia.
  rewrite !(Z.testbit_neg_r _ (i - 40)), !(Z.testbit_neg_r _ (i - 48)), !(Z.testbit_neg_r _ (i - 52)),
    !(Z.testbit_neg_r _ (i - 56)) by lia. by rewrite !andb_false_r.
Qed.

Lemma gdt_encode_spill limit base access flags i :
  16 ≤ i < 24 → Z.testbit base i = true →
  Z.testbit (gdt_encode_entry limit base access flags) (i + 32) = true.
Proof.
  intros Hi Hb. unfold gdt_encode_entry.
  assert (Z.testbit (u64 (Z.shiftl (Z.land base 0xff0000) 32)) (i + 32) = true) as H.
  { rewrite field_bit, Z.land_spec by lia. replace (i + 32 - 32) with i by lia.
    rewrite Hb, mid_mask by lia. rewrite (proj2 (Z.leb_le 16 i)), (proj2 (Z.ltb_lt i 24)) by lia. done. }
  rewrite !Z.lor_spec, H. by rewrite !orb_true_r.
Qed.

(** Bits 16 to 23 of a segment base go to the wrong place: they are
    shifted by 32 instead of 16, so the processor reads zero there, and they
    land in the limit and the flags.  A TSS whose address has such bits set
    gets a descriptor with another base and another limit or other flags. *)
Theorem gdt_base_misplaced base :
  0 ≤ base < 2 ^ 32 → Z.land base 0xff0000 ≠ 0 →
  let e := gdt_encode_entry sizeof_TSS base 0x89 0x40 in
  seg_base e ≠ base ∧ Z.land (seg_base e) 0xff0000 = 0 ∧
  (seg_limit e, seg_flags e) ≠ (sizeof_TSS, 0).
Proof.
  intros Hb H0. cbv zeta. set (e := gdt_encode_entry _ _ _ _).
  assert (Z.land (seg_base e) 0xff0000 = 0) as Hz.
  { apply Z.bits_inj'. intros i Hi. rewrite Z.land_spec, Z.bits_0, mid_mask by lia.
    destruct (Z.leb_spec 16 i), (Z.ltb_spec i 24); simpl; rewrite ?andb_false_r, ?andb_true_r; try done.
    unfold seg_base. rewrite <-(Z.mod_pow2_bits_low _ 24) by lia.
    rewrite (Z.mul_comm (2 ^ 24)), Z.mod_add by lia. rewrite Z.mod_small.
    - rewrite bits_bit by lia. apply gdt_encode_mid. lia.
    - rewrite bits_div by lia. by apply Z.mod_pos_bound. }
  split; [by intros E; rewrite E in Hz|]. split; [done|]. intros [= E1 E2].
  destruct H0. apply Z.bits_inj'. intros i Hi. rewrite Z.land_spec, Z.bits_0, mid_mask by lia.
  destruct (Z.leb_spec 16 i), (Z.ltb_spec i 24); simpl; rewrite ?andb_false_r, ?andb_true_r; try done.
  destruct (Z.testbit base i) eqn:Hbit; [|done]. exfalso.
  pose proof (gdt_encode_spill sizeof_TSS base 0x89 0x40 i ltac:(lia) Hbit) as Hs. fold e in Hs.
  destruct (decide (i < 20)).
  - assert (bits e 48 4 = 0) as E3.
    { change sizeof_TSS with 104 in E1. unfold seg_limit in E1.
      assert (0 ≤ bits e 0 16 ∧ 0 ≤ bits e 48 4) by (rewrite !bits_div by lia; split; by apply Z.mod_pos_bound).
      change (2 ^ 16) with 65536 in E1. lia. }
    pose proof (bits_bit e 48 4 (i - 16) ltac:(lia) ltac:(lia)) as Hb'. rewrite E3, Z.bits_0 in Hb'.
    replace (i - 16 + 48) with (i + 32) in Hb' by lia. congruence.
  - pose proof (bits_bit e 52 4 (i - 20) ltac:(lia) ltac:(lia)) as Hb'. unfold seg_flags in E2.
    rewrite E2, Z.bits_0 in Hb'. replace (i - 20 + 52) with (i + 32) in Hb' by lia. congruence.
Qed.

(** [idt_init] fills the whole table: the processor reads in every gate
    the address of its stub, the kernel code selector, and a present
    interrupt gate for ring 0. *)
Theorem idt_init_gates idt_addr isr_array s :
  length (idt s) = 256%nat → (∀ v, 0 ≤ isr_array v < 2 ^ 64) →
  wp (idt_init idt_addr isr_array) (λ _ s', idtr_base s' = idt_addr ∧ idtr_limit s' = 4095 ∧
    ∀ v, 0 ≤ v < 256 → ∃ d, idt s' !! Z.to_nat v = Some d ∧ gate_offset d = isr_array v ∧
      kernel_cs d = K_CODE_SELECTOR ∧ gate_type d = 0xE ∧ gate_dpl d = 0 ∧ gate_present d = true) s.
Proof.
  intros Hlen Hisr. unfold idt_init. apply wp_bind, wp_modify. apply wp_bind.
  eapply wp_mono; [apply idt_loop_spec; simpl; [done|lia|lia]|]. intros _ s1 (_ & H2 & H3 & _ & H5).
  apply wp_modify. simpl. split; [done|]. split; [done|]. intros v Hv. exists (idt_descriptor (isr_array v) 0x8E).
  rewrite (H5 v Hv), (proj2 (Z.ltb_ge v 0)) by lia. split_and!; try done.
  unfold gate_offset, idt_descriptor. simpl. specialize (Hisr v).
  change 0xFFFF with (2 ^ 16 - 1). change 0xFFFFFFFF with (2 ^ 32 - 1).
  rewrite !land_ones_mod, !Z.shiftr_div_pow2 by lia. simpl in *. dlia.
Qed.

(** [syscall_init] enables SYSCALL and masks interrupts on entry without
    touching the other bits of EFER and FMASK, and leaves every other
    register but STAR alone. *)
Theorem syscall_init_sets h :
  0 ≤ default 0 (msrs h !! MSR_EFER) < 2 ^ 64 → 0 ≤ default 0 (msrs h !! MSR_FMASK) < 2 ^ 64 →
  wp syscall_init (λ _ h', msrs h' =
    <[MSR_FMASK := Z.lor (default 0 (msrs h !! MSR_FMASK)) MSR_FMASK_IF_DISABLE]>
      (<[MSR_STAR := STAR_VALUE]>
        (<[MSR_EFER := Z.lor (default 0 (msrs h !! MSR_EFER)) MSR_EFER_SYSCALL_ENABLE]> (msrs h)))) h.
Proof.
  intros He Hf. unfold syscall_init. apply wp_bind. apply wp_msr_set_bits; [done|by vm_compute|].
  apply wp_bind. unfold msr_write at 1, write_msr. apply wp_modify. cbn [msrs].
  apply wp_msr_set_bits; cbn [msrs].
  - by rewrite !lookup_insert_ne by done.
  - by vm_compute.
  - rewrite !lookup_insert_ne by done. done.
Qed.

(** The STAR value does not fit the table [gdt_init] loads: SYSCALL would
    enter through the kernel code segment, but SYSRET would load the user data
    segment into CS and the user code segment into SS, since the table has
    user code before user data where syscall.c describes the opposite order. *)
Theorem sysret_segments_swapped tss :
  selected (gdt_init tss).1 (syscall_cs STAR_VALUE) = Some kernel_code_entry ∧
  selected (gdt_init tss).1 (sysret_cs STAR_VALUE) = Some user_data_entry ∧
  selected (gdt_init tss).1 (sysret_ss STAR_VALUE) = Some user_code_entry ∧
  is_code user_data_entry = false.
Proof. split_and!; reflexivity. Qed.

(** ** Witnesses *)

Lemma gdt_encode_roundtrip_witness :
  let e := gdt_encode_entry 0xfffff 0x12003456 0x9a 0xa in
  seg_limit e = 0xfffff ∧ seg_base e = 0x12003456 ∧ seg_access e = 0x9a ∧ seg_flags e = 0xa.
Proof. apply gdt_encode_roundtrip; [lia..|reflexivity]. Defined.

Lemma gdt_base_misplaced_witness :
  let e := gdt_encode_entry sizeof_TSS 0x80123000 0x89 0x40 in
  seg_base e ≠ 0x80123000 ∧ Z.land (seg_base e) 0xff0000 = 0 ∧
  (seg_limit e, seg_flags e) ≠ (sizeof_TSS, 0).
Proof. apply gdt_base_misplaced; [lia|vm_compute; discriminate]. Defined.

Definition idt_demo : idt_st := MkIdtSt (replicate 256 (MkIdt 0 0 0 0 0 0 0)) 0 0 false.

Lemma idt_init_gates_witness :
  wp (idt_init 0xffffffff80010000 (λ v, 0xffffffff80000000 + 16 * v mod 65536)) (λ _ s',
    ∃ d, idt s' !! 3%nat = Some d ∧ gate_offset d = 0xffffffff80000030) idt_demo.
Proof.
  refine (wp_mono _ _ _ _ (idt_init_gates 0xffffffff80010000
    (λ v, 0xffffffff80000000 + 16 * v mod 65536) idt_demo _ _) _).
  - reflexivity.
  - intros v. pose proof (Z.mod_pos_bound (16 * v) 65536 ltac:(lia)). lia.
  - intros _ s' (_ & _ & H). destruct (H 3 ltac:(lia)) as (d & H1 & H2 & _).
    exists d. split; [exact H1|exact H2].
Defined.

Lemma syscall_init_sets_witness :
  wp syscall_init (λ _ h', msrs h' !! MSR_EFER = Some 0x501)
    (MkHw [] [] {[MSR_EFER := 0x500]} (λ _, 0) 0 (λ _, 0) 0 (λ _, 0) 0).
Proof.
  refine (wp_mono _ _ _ _ (syscall_init_sets
    (MkHw [] [] {[MSR_EFER := 0x500]} (λ _, 0) 0 (λ _, 0) 0 (λ _, 0) 0) _ _) _).
  - vm_compute. split; [discriminate|reflexivity].
  - vm_compute. split; [discriminate|reflexivity].
  - intros _ h' H. rewrite H. vm_compute. reflexivity.
Defined.
