(* ===== verification/Asm.v ===== *)
(** * The assembly files: interrupts/isr.asm, multitasking/sched.asm, cpu/gdt/gdt.asm

    The processor as these files see it: the general registers, the flags,
    the segment and table registers and byte-addressed memory.  An
    instruction is a state transformer; a routine is the sequence of its
    instructions.  What the processor does when it delivers an interrupt is
    [deliver].  A C function that assembly code calls is an argument, run
    with the return address on top of the stack, as [call] leaves it. *)

From S2P Require Import Prelude Mem Cpu.
Local Open Scope Z_scope.
Local Open Scope kernel_scope.

Inductive reg :=
| RAX | RBX | RCX | RDX | RDI | RSI | RBP | RSP | R8 | R9 | R10 | R11 | R12 | R13 | R14 | R15.

#[export] Instance reg_eq_dec : EqDecision reg.
Proof. solve_decision. Defined.

Inductive sreg := CS | SS | DS | ES | FS | GS.

#[export] Instance sreg_eq_dec : EqDecision sreg.
Proof. solve_decision. Defined.

Record cpu := MkCpu {
  regs : reg → Z;
  segs : sreg → Z;
  rflags : Z;
  rip : Z;
  gdtr_limit : Z;
  gdtr_base : Z;
  tr : Z;
  cpu_mem : mem
}.

#[export] Instance cpu_has_mem : Has mem cpu := {|
  prj := cpu_mem;
  upd := λ m s, MkCpu (regs s) (segs s) (rflags s) (rip s) (gdtr_limit s) (gdtr_base s) (tr s) m
|}.
#[export] Instance cpu_has_mem_laws : HasLaws mem cpu.
Proof. split; by intros; repeat match goal with s : cpu |- _ => destruct s end. Qed.

(** ** Instructions *)

Definition set_fn {K : Type} `{EqDecision K} (k : K) (v : Z) (f : K → Z) : K → Z :=
  λ k', if decide (k' = k) then v else f k'.

Definition get (r : reg) : M cpu Z := gets (λ s, regs s r).
Definition set (r : reg) (v : Z) : M cpu unit :=
  modify (λ s, MkCpu (set_fn r v (regs s)) (segs s) (rflags s) (rip s) (gdtr_limit s) (gdtr_base s) (tr s) (cpu_mem s)).
Definition set_seg (r : sreg) (v : Z) : M cpu unit :=
  modify (λ s, MkCpu (regs s) (set_fn r v (segs s)) (rflags s) (rip s) (gdtr_limit s) (gdtr_base s) (tr s) (cpu_mem s)).
Definition set_rflags (v : Z) : M cpu unit :=
  modify (λ s, MkCpu (regs s) (segs s) v (rip s) (gdtr_limit s) (gdtr_base s) (tr s) (cpu_mem s)).
Definition jump (v : Z) : M cpu unit :=
  modify (λ s, MkCpu (regs s) (segs s) (rflags s) v (gdtr_limit s) (gdtr_base s) (tr s) (cpu_mem s)).

Definition push (v : Z) : M cpu unit :=
  sp ← get RSP;
  set RSP (sp -64 8);;
  wr64 (sp -64 8) v.

Definition pop : M cpu Z :=
  sp ← get RSP;
  v ← rd64 sp;
  set RSP (sp +64 8);;
  mret v.

Definition push_reg (r : reg) : M cpu unit := v ← get r; push v.
Definition pop_reg (r : reg) : M cpu unit := v ← pop; set r v.
Definition ret : M cpu unit := v ← pop; jump v.

(** Calling a C function at [f]; [after] is the next instruction. *)
Definition call (after : Z) (f : M cpu unit) : M cpu unit := push after;; f;; ret.

Fixpoint push_all (rs : list reg) : M cpu unit :=
  match rs with [] => mret tt | r :: rs' => push_reg r;; push_all rs' end.
Fixpoint pop_all (rs : list reg) : M cpu unit :=
  match rs with [] => mret tt | r :: rs' => pop_reg r;; pop_all rs' end.

(** ** isr.asm *)

Definition PUSH_REGS : M cpu unit :=
  push_all [RAX; RBX; RCX; RDX; RDI; RSI; RBP; R8; R9; R10; R11; R12; R13; R14; R15].
Definition POP_REGS : M cpu unit :=
  pop_all [R15; R14; R13; R12; R11; R10; R9; R8; RBP; RSI; RDI; RDX; RCX; RBX; RAX].

(** In 64-bit mode the return takes the stack back as well. *)
Definition iretq : M cpu unit :=
  ip ← pop; c ← pop; fl ← pop; sp ← pop; s ← pop;
  jump ip;; set_seg CS c;; set_rflags fl;; set RSP sp;; set_seg SS s.

Section isr.
(** [interrupt_dispatch], and the address after the call of it. *)
Variable interrupt_dispatch : M cpu unit.
Variable after_call : Z.

Definition interrupt_stub : M cpu unit :=
  PUSH_REGS;;
  sp ← get RSP;
  set RDI sp;;
  call after_call interrupt_dispatch;;
  POP_REGS;;
  sp ← get RSP;
  set RSP (sp +64 16);;
  iretq.

Definition isr_err_stub (n : Z) : M cpu unit := push n;; interrupt_stub.
Definition isr_no_err_stub (n : Z) : M cpu unit := push 0;; push n;; interrupt_stub.

(** The vectors for which the file uses [isr_err_stub]. *)
Definition err_stubs : list Z := [8; 10; 11; 12; 13; 14; 17; 21; 29; 30].

(** The routine at [isr_array[n]]. *)
Definition isr_stub (n : Z) : M cpu unit :=
  if bool_decide (n ∈ err_stubs) then isr_err_stub n else isr_no_err_stub n.
End isr.

(** The interrupt frame in memory: flurry/interrupts/interrupts.h. *)
Definition ctx_offset (field : reg) : Z :=
  match field with
  | R15 => 0 | R14 => 8 | R13 => 16 | R12 => 24 | R11 => 32 | R10 => 40 | R9 => 48 | R8 => 56
  | RBP => 64 | RSI => 72 | RDI => 80 | RDX => 88 | RCX => 96 | RBX => 104 | RAX => 112
  | RSP => 160
  end.
Definition ctx_vector : Z := 120.
Definition ctx_error_code : Z := 128.
Definition ctx_rip : Z := 136.
Definition ctx_cs : Z := 144.
Definition ctx_rflags : Z := 152.
Definition ctx_ss : Z := 168.
Definition sizeof_InterruptCtx : Z := 176.

(** ** The processor: delivering an interrupt through an interrupt gate

    The stack pointer is aligned to 16 bytes, the interrupted context is
    pushed, then the error code of the exceptions that have one; interrupts
    are disabled. *)

Definition has_error_code (n : Z) : bool :=
  bool_decide (n ∈ [8; 10; 11; 12; 13; 14; 17; 21; 29; 30]).

Definition deliver (n error handler_cs : Z) : M cpu unit :=
  s ← gets id;
  set RSP (Z.land (regs s RSP) (lnot64 15));;
  push (segs s SS);; push (regs s RSP);; push (rflags s);; push (segs s CS);; push (rip s);;
  (if has_error_code n then push error else mret tt);;
  set_rflags (Z.land (rflags s) (lnot64 (Z.shiftl 1 9)));;
  set_seg CS handler_cs.

(** ** sched.asm *)

(** [Thread.rsp] is the first field. *)
Definition Thread_rsp : Z := 0.

Definition pushfq : M cpu unit := fl ← gets rflags; push fl.
Definition popfq : M cpu unit := fl ← pop; set_rflags fl.

(** [switch_context(old: rdi, new: rsi)], entered with the return address on
    the stack. *)
Definition switch_context_asm : M cpu unit :=
  pushfq;;
  push_all [RBX; RBP; R15; R14; R13; R12];;
  old ← get RDI; sp ← get RSP; wr64 (old +64 Thread_rsp) sp;;
  new ← get RSI; sp' ← rd64 (new +64 Thread_rsp); set RSP sp';;
  pop_all [R12; R13; R14; R15; RBP; RBX];;
  popfq;;
  old ← get RDI; set RAX old;;
  ret.

(** ** gdt.asm *)

(** [gdtr] is the address of the ten bytes; [lgdt] reads them. *)
Definition set_gdt (gdtr : Z) : M cpu unit :=
  di ← get RDI; wr16 gdtr (u16 di);;
  si ← get RSI; wr64 (gdtr +64 2) si;;
  limit ← rd16 gdtr; base ← rd64 (gdtr +64 2);
  modify (λ s, MkCpu (regs s) (segs s) (rflags s) (rip s) limit base (tr s) (cpu_mem s));;
  ret.

(** Writing the low 16 bits of rax. *)
Definition mov_ax (v : Z) : M cpu unit := a ← get RAX; set RAX (a - u16 a + v).

Definition set_tss : M cpu unit :=
  mov_ax 0x28;;
  a ← get RAX;
  modify (λ s, MkCpu (regs s) (segs s) (rflags s) (rip s) (gdtr_limit s) (gdtr_base s) (u16 a) (cpu_mem s));;
  ret.

Definition retfq : M cpu unit := ip ← pop; c ← pop; jump ip;; set_seg CS (u16 c).

(** [reload_CS]: the address of the label. *)
Definition reload_segments (reload_CS : Z) : M cpu unit :=
  push 0x08;;
  set RAX reload_CS;;
  a ← get RAX; push a;;
  retfq;;
  mov_ax 0x10;;
  a ← get RAX;
  set_seg DS (u16 a);; set_seg ES (u16 a);; set_seg FS (u16 a);; set_seg GS (u16 a);; set_seg SS (u16 a);;
  ret.

(** ** Lemmas: registers *)

Lemma set_fn_eq {K} `{EqDecision K} (k : K) v f : set_fn k v f k = v.
Proof. unfold set_fn. by rewrite decide_True. Qed.

Lemma set_fn_ne {K} `{EqDecision K} (k k' : K) v f : k' ≠ k → set_fn k v f k' = f k'.
Proof. intros. unfold set_fn. by rewrite decide_False. Qed.

(** Everything but the general registers and memory. *)
Definition same_control (s s' : cpu) : Prop :=
  (∀ r, segs s' r = segs s r) ∧ rflags s' = rflags s ∧ rip s' = rip s ∧
  gdtr_limit s' = gdtr_limit s ∧ gdtr_base s' = gdtr_base s ∧ tr s' = tr s.

#[export] Instance same_control_equiv : Equivalence same_control.
Proof. unfold same_control. split; red; naive_solver (congruence). Qed.

(** ** Lemmas: the stack *)

(** The words from [sp] on. *)
Fixpoint stack (m : mem) (sp : Z) (vs : list Z) : Prop :=
  match vs with [] => True | v :: vs' => load 8 m sp = Some v ∧ stack m (sp + 8) vs' end.

Lemma stack_app m sp vs ws :
  stack m sp (vs ++ ws) ↔ stack m sp vs ∧ stack m (sp + 8 * Z.of_nat (length vs)) ws.
Proof.
  revert sp. induction vs as [|v vs IH]; intros sp; cbn [app stack length].
  { rewrite Z.mul_0_r, Z.add_0_r. tauto. }
  rewrite IH. replace (sp + 8 + 8 * Z.of_nat (length vs)) with (sp + 8 * Z.of_nat (S (length vs))) by lia. tauto.
Qed.

Lemma stack_agree m m' sp vs :
  (∀ x, sp ≤ x < sp + 8 * Z.of_nat (length vs) → m' x = m x) → stack m sp vs → stack m' sp vs.
Proof.
  revert sp. induction vs as [|v vs IH]; intros sp Ha; cbn [stack length] in *; [done|]. intros [Hl Hs]. split.
  - rewrite <-Hl. apply load_ext. intros. apply Ha. lia.
  - apply IH; [|done]. intros. apply Ha. lia.
Qed.

Lemma stack_lookup m sp vs i v : stack m sp vs → vs !! i = Some v → load 8 m (sp + 8 * Z.of_nat i) = Some v.
Proof.
  revert sp i. induction vs as [|w vs IH]; intros sp i; [done|]. cbn [stack]. intros [Hl Hs] Hi.
  destruct i as [|i]; simplify_eq/=; [by rewrite Z.add_0_r|].
  rewrite <-(IH (sp + 8) i) by done. f_equal. lia.
Qed.

(** Room for [n] words below the stack pointer. *)
Definition room (n : Z) (s : cpu) : Prop :=
  8 * n ≤ regs s RSP < 2 ^ 64 ∧ ∀ x, regs s RSP - 8 * n ≤ x < regs s RSP → is_Some (cpu_mem s x).

(** [s'] is [s] with [vs] pushed, the last on top. *)
Record pushed (vs : list Z) (s s' : cpu) : Prop := {
  pushed_rsp : regs s' RSP = regs s RSP - 8 * Z.of_nat (length vs);
  pushed_regs : ∀ r, r ≠ RSP → regs s' r = regs s r;
  pushed_control : same_control s s';
  pushed_stack : stack (cpu_mem s') (regs s' RSP) (rev vs);
  pushed_above : ∀ x, regs s RSP ≤ x → cpu_mem s' x = cpu_mem s x;
  pushed_below : ∀ x, x < regs s' RSP → cpu_mem s' x = cpu_mem s x;
  pushed_dom : same_dom (cpu_mem s) (cpu_mem s')
}.

Lemma pushed_nil s : pushed [] s s.
Proof. split; simpl; done || lia. Qed.

Lemma pushed_app vs ws s s1 s2 : pushed vs s s1 → pushed ws s1 s2 → pushed (vs ++ ws) s s2.
Proof.
  intros [A1 A2 A3 A4 A5 A6 A7] [B1 B2 B3 B4 B5 B6 B7]. split.
  - rewrite length_app. lia.
  - intros r Hr. rewrite B2, A2 by done. done.
  - by etransitivity.
  - rewrite rev_app_distr. apply stack_app. split; [done|]. rewrite length_rev.
    replace (regs s2 RSP + 8 * Z.of_nat (length ws)) with (regs s1 RSP) by lia.
    eapply stack_agree; [|done]. intros x Hx. apply B5. lia.
  - intros x Hx. rewrite B5, A5 by lia. done.
  - intros x Hx. rewrite B6, A6 by lia. done.
  - by etransitivity.
Qed.

Lemma room_pushed n vs s s' : room n s → pushed vs s s' → room (n - Z.of_nat (length vs)) s'.
Proof.
  intros [Hr Hm] [A1 _ _ _ _ _ A7]. split; [lia|]. intros x Hx. apply A7, Hm. lia.
Qed.

Lemma room_le n n' s : n' ≤ n → room n s → room n' s.
Proof. intros Hn [Hr Hm]. split; [lia|]. intros x Hx. apply Hm. lia. Qed.

Lemma wp_push v s :
  room 1 s → 0 ≤ v < 2 ^ 64 → wp (push v) (λ _ s', pushed [v] s s') s.
Proof.
  intros [Hr Hm] Hv. unfold push. apply wp_bind, wp_gets, wp_bind, wp_modify. rewrite !wrap_small by lia.
  assert (mapped 8 (cpu_mem s) (regs s RSP - 8) = true) as Hmap.
  { apply mapped_spec. intros x Hx. apply Hm. lia. }
  apply wp_wr; [done|]. split; simpl.
  - rewrite set_fn_eq. lia.
  - intros r Hr'. by apply set_fn_ne.
  - done.
  - split; [|done]. rewrite set_fn_eq. by apply load64_store64_eq.
  - intros x Hx. apply store_other. lia.
  - intros x Hx. rewrite set_fn_eq in Hx. apply store_other. lia.
  - by apply store_same_dom.
Qed.

(** Pushing on top of what has been pushed. *)
Lemma wp_push_on n vs v s s1 (Q : unit → cpu → Prop) :
  room n s → pushed vs s s1 → Z.of_nat (length vs) < n → 0 ≤ v < 2 ^ 64 →
  (∀ s2, pushed (vs ++ [v]) s s2 → Q tt s2) → wp (push v) Q s1.
Proof.
  intros Hr Hp Hn Hv HQ. eapply wp_mono.
  - apply wp_push; [|done]. eapply room_le; [|by eapply room_pushed]. lia.
  - intros [] s2 H2. apply HQ. by eapply pushed_app.
Qed.

Lemma wp_push_all n vs rs s s1 (Q : unit → cpu → Prop) :
  room n s → pushed vs s s1 → Z.of_nat (length vs + length rs) ≤ n → RSP ∉ rs →
  (∀ r, 0 ≤ regs s r < 2 ^ 64) →
  (∀ s2, pushed (vs ++ map (regs s) rs) s s2 → Q tt s2) → wp (push_all rs) Q s1.
Proof.
  revert vs s1. induction rs as [|r rs IH]; intros vs s1 Hr Hp Hn Hrs Hv HQ; cbn [push_all map length] in *.
  { apply wp_ret, HQ. by rewrite app_nil_r. }
  apply not_elem_of_cons in Hrs as [Hr1 Hrs].
  apply wp_bind, wp_bind, wp_gets. rewrite (pushed_regs _ _ _ Hp r) by done.
  eapply wp_push_on; [done|done|lia|done|]. intros s2 H2.
  eapply IH; [done|done|rewrite length_app; simpl; lia|done|done|]. intros s3 H3. apply HQ.
  by rewrite <-(assoc_L (++)) in H3.
Qed.

(** [s'] is [s] with the words [vs] popped into the registers [rs]. *)
Record popped (rs : list reg) (vs : list Z) (s s' : cpu) : Prop := {
  popped_rsp : regs s' RSP = regs s RSP + 8 * Z.of_nat (length rs);
  popped_mem : cpu_mem s' = cpu_mem s;
  popped_control : same_control s s';
  popped_val : ∀ i r v, rs !! i = Some r → vs !! i = Some v → regs s' r = v;
  popped_other : ∀ r, r ≠ RSP → r ∉ rs → regs s' r = regs s r
}.

Lemma wp_pop v s (Q : Z → cpu → Prop) :
  load 8 (cpu_mem s) (regs s RSP) = Some v → 0 ≤ regs s RSP → regs s RSP + 8 < 2 ^ 64 →
  (∀ s', regs s' = set_fn RSP (regs s RSP + 8) (regs s) → cpu_mem s' = cpu_mem s →
     same_control s s' → Q v s') → wp pop Q s.
Proof.
  intros Hl H0 H1 HQ. unfold pop. apply wp_bind, wp_gets, wp_bind. eapply wp_rd; [done|].
  apply wp_bind, wp_modify, wp_ret. rewrite wrap_small by lia. by apply HQ.
Qed.

Lemma wp_pop_all rs vs s (Q : unit → cpu → Prop) :
  stack (cpu_mem s) (regs s RSP) vs → length vs = length rs → NoDup rs → RSP ∉ rs →
  0 ≤ regs s RSP → regs s RSP + 8 * Z.of_nat (length rs) < 2 ^ 64 →
  (∀ s', popped rs vs s s' → Q tt s') → wp (pop_all rs) Q s.
Proof.
  revert vs s. induction rs as [|r rs IH]; intros vs s Hs Hl Hd Hsp H0 H1 HQ; cbn [pop_all length] in *.
  { apply wp_ret, HQ. split; simpl; done || lia. }
  destruct vs as [|v vs]; [done|]. cbn [stack length] in *. destruct Hs as [Hv Hs].
  apply NoDup_cons in Hd as [Hr Hd]. apply not_elem_of_cons in Hsp as [Hr' Hsp].
  apply wp_bind, wp_bind. eapply wp_pop; [done|lia|lia|]. intros s1 E1 Em Ec. apply wp_modify.
  set (s2 := MkCpu _ _ _ _ _ _ _ _). assert (regs s2 RSP = regs s RSP + 8) as E2.
  { simpl. rewrite set_fn_ne by done. by rewrite E1, set_fn_eq. }
  apply (IH vs); [simpl cpu_mem; by rewrite E2, Em|lia|done|done|lia|lia|].
  intros s3 [A1 A2 A3 A4 A5]. apply HQ. split.
  - cbn [length]. lia.
  - by rewrite A2.
  - etransitivity; [|done]. by etransitivity.
  - intros [|i] r0 v0 Hi Hv0; simplify_eq/=; [|by eapply A4].
    rewrite A5 by done. apply set_fn_eq.
  - intros r0 Hr0 Hn. apply not_elem_of_cons in Hn as [Hn1 Hn2]. rewrite A5 by done.
    simpl. rewrite set_fn_ne by done. by rewrite E1, set_fn_ne by done.
Qed.

(** ** The interrupt stubs *)

(** The registers of the context, in the order they are popped. *)
Definition ctx_regs : list reg := [R15; R14; R13; R12; R11; R10; R9; R8; RBP; RSI; RDI; RDX; RCX; RBX; RAX].

(** The words of the context of the interrupted state [s], lowest first. *)
Definition ctx_words (s : cpu) (n error : Z) : list Z :=
  map (regs s) ctx_regs ++ [n; error; rip s; segs s CS; rflags s; regs s RSP; segs s SS].

Definition valid_cpu (s : cpu) : Prop :=
  (∀ r, 0 ≤ regs s r < 2 ^ 64) ∧ (∀ r, 0 ≤ segs s r < 2 ^ 64) ∧ 0 ≤ rflags s < 2 ^ 64 ∧ 0 ≤ rip s < 2 ^ 64.

(** The stack pointer from which the processor pushes. *)
Definition entry_top (s : cpu) : Z := Z.land (regs s RSP) (lnot64 15).

(** What [interrupt_dispatch] is called with: the argument points to the
    context, right above the return address; the stack pointer is aligned as
    the calling convention asks. *)
Record dispatched (s : cpu) (n error : Z) (s1 : cpu) : Prop := {
  dispatched_rsp : regs s1 RSP = entry_top s - 184;
  dispatched_aligned : (regs s1 RSP + 8) mod 16 = 0;
  dispatched_arg : regs s1 RDI = regs s1 RSP + 8;
  dispatched_ctx : stack (cpu_mem s1) (regs s1 RDI) (ctx_words s n error);
  dispatched_if : Z.testbit (rflags s1) 9 = false;
  dispatched_dom : same_dom (cpu_mem s) (cpu_mem s1);
  dispatched_mem : ∀ x, x < regs s1 RSP ∨ entry_top s ≤ x → cpu_mem s1 x = cpu_mem s x
}.

(** What a C function leaves as it was: the stack pointer, the segments, and
    the words from its return address up to the end of the context. *)
Definition keeps_frame (s1 s2 : cpu) : Prop :=
  regs s2 RSP = regs s1 RSP ∧ (∀ r, segs s2 r = segs s1 r) ∧
  ∀ x, regs s1 RSP ≤ x < regs s1 RSP + 184 → cpu_mem s2 x = cpu_mem s1 x.

Lemma entry_top_spec s : valid_cpu s → entry_top s mod 16 = 0 ∧ regs s RSP - 16 < entry_top s ≤ regs s RSP.
Proof.
  intros [Hr _]. specialize (Hr RSP). unfold entry_top.
  change (lnot64 15) with (2 ^ 64 - 2 ^ 4). rewrite (land_high_mask 64 4) by lia.
  change (2 ^ 4) with 16. dlia.
Qed.

(** After the delivery of an interrupt in [s], the words [vs] (the lowest
    first) are on the stack. *)
Record on_entry (vs : list Z) (s s' : cpu) : Prop := {
  entry_rsp : regs s' RSP = entry_top s - 8 * Z.of_nat (length vs);
  entry_regs : ∀ r, r ≠ RSP → regs s' r = regs s r;
  entry_segs : ∀ r, r ≠ CS → segs s' r = segs s r;
  entry_stack : stack (cpu_mem s') (regs s' RSP) vs;
  entry_above : ∀ x, entry_top s ≤ x → cpu_mem s' x = cpu_mem s x;
  entry_below : ∀ x, x < regs s' RSP → cpu_mem s' x = cpu_mem s x;
  entry_dom : same_dom (cpu_mem s) (cpu_mem s')
}.

(** The stack has room for the context and the return address. *)
Definition entry_room (s : cpu) : Prop :=
  184 ≤ entry_top s ∧ ∀ x, entry_top s - 184 ≤ x < entry_top s → is_Some (cpu_mem s x).

Lemma wp_entry_push vs v s s1 (Q : unit → cpu → Prop) :
  valid_cpu s → entry_room s → on_entry vs s s1 → (length vs < 23)%nat → 0 ≤ v < 2 ^ 64 →
  (∀ s2, on_entry (v :: vs) s s2 → same_control s1 s2 → Q tt s2) → wp (push v) Q s1.
Proof.
  intros Hv [Hr Hm] He Hl Hv64 HQ. destruct He as [A1 A2 A3 A4 A5 A6 A7].
  destruct (entry_top_spec s Hv) as [_ Ht]. pose proof (proj1 Hv RSP) as Hsp.
  eapply wp_mono; [apply wp_push; [|done]|].
  { split; [lia|]. intros x Hx. apply A7, Hm. lia. }
  intros [] s2 [B1 B2 B3 B4 B5 B6 B7]. simpl in B1. apply HQ; [|done]. split.
  - simpl length. lia.
  - intros r Hr'. rewrite B2, A2 by done. done.
  - intros r Hr'. destruct B3 as [-> _]. by apply A3.
  - simpl in B4. cbn [stack]. split; [apply B4|].
    replace (regs s2 RSP + 8) with (regs s1 RSP) by lia.
    eapply stack_agree; [|done]. intros x Hx. apply B5. lia.
  - intros x Hx. rewrite B5, A5 by lia. done.
  - intros x Hx. rewrite B6, A6 by lia. done.
  - by etransitivity.
Qed.

Lemma wp_deliver n error hcs s (Q : unit → cpu → Prop) :
  valid_cpu s → entry_room s → 0 ≤ error < 2 ^ 64 →
  (∀ s1, on_entry ((if has_error_code n then [error] else []) ++
                   [rip s; segs s CS; rflags s; regs s RSP; segs s SS]) s s1 →
     Z.testbit (rflags s1) 9 = false → Q tt s1) →
  wp (deliver n error hcs) Q s.
Proof.
  intros Hv Hr He HQ. pose proof Hv as (Hreg & Hseg & Hfl & Hip). unfold deliver.
  apply wp_bind, wp_gets, wp_bind, wp_modify. simpl id.
  set (s0 := MkCpu _ _ _ _ _ _ _ _).
  assert (on_entry [] s s0) as H0.
  { split; simpl; try done; [rewrite set_fn_eq; unfold entry_top; lia|intros; by apply set_fn_ne]. }
  apply wp_bind. eapply wp_entry_push; [done|done|exact H0|simpl; lia|apply Hseg|]. intros s1 H1 _.
  apply wp_bind. eapply wp_entry_push; [done|done|exact H1|simpl; lia|apply Hreg|]. intros s2 H2 _.
  apply wp_bind. eapply wp_entry_push; [done|done|exact H2|simpl; lia|done|]. intros s3 H3 _.
  apply wp_bind. eapply wp_entry_push; [done|done|exact H3|simpl; lia|apply Hseg|]. intros s4 H4 _.
  apply wp_bind. eapply wp_entry_push; [done|done|exact H4|simpl; lia|done|]. intros s5 H5 _.
  apply wp_bind.
  assert (∀ s6, on_entry ((if has_error_code n then [error] else []) ++
      [rip s; segs s CS; rflags s; regs s RSP; segs s SS]) s s6 →
    wp (set_rflags (Z.land (rflags s) (lnot64 (Z.shiftl 1 9)));; set_seg CS hcs) Q s6) as Hlast.
  { intros s6 [A1 A2 A3 A4 A5 A6 A7]. apply wp_bind, wp_modify, wp_modify. apply HQ.
    - split; simpl; try done. intros r Hr'. rewrite set_fn_ne by done. by apply A3.
    - cbn [rflags]. rewrite Z.land_spec. apply andb_false_r. }
  destruct (has_error_code n); [|by apply wp_ret, Hlast].
  eapply wp_entry_push; [done|done|exact H5|simpl; lia|done|]. intros s6 H6 _. by apply Hlast.
Qed.

(** The dummy error code and the vector. *)
Lemma wp_stub_head n error s s1 (f : M cpu unit) (Q : unit → cpu → Prop) :
  valid_cpu s → entry_room s → 0 ≤ n < 256 →
  on_entry ((if has_error_code n then [error] else []) ++
            [rip s; segs s CS; rflags s; regs s RSP; segs s SS]) s s1 →
  (∀ s2, on_entry [n; if has_error_code n then error else 0; rip s; segs s CS; rflags s; regs s RSP; segs s SS] s s2 →
     rflags s2 = rflags s1 → wp f Q s2) →
  wp (if has_error_code n then push n;; f else push 0;; push n;; f) Q s1.
Proof.
  intros Hv Hr Hn H1 HQ. destruct (has_error_code n); apply wp_bind.
  - eapply wp_entry_push; [done|done|exact H1|simpl; lia|lia|]. intros s2 H2 (_ & E & _). by apply HQ.
  - eapply wp_entry_push; [done|done|exact H1|simpl; lia|lia|]. intros s2 H2 (_ & E & _).
    apply wp_bind. eapply wp_entry_push; [done|done|exact H2|simpl; lia|lia|]. intros s3 H3 (_ & E' & _).
    apply HQ; [done|]. by rewrite E', E.
Qed.

Lemma wp_entry_push_all rs vs s s1 (Q : unit → cpu → Prop) :
  valid_cpu s → entry_room s → on_entry vs s s1 → (length vs + length rs ≤ 23)%nat → RSP ∉ rs →
  (∀ s2, on_entry (rev (map (regs s) rs) ++ vs) s s2 → rflags s2 = rflags s1 → Q tt s2) →
  wp (push_all rs) Q s1.
Proof.
  intros Hv Hr. revert vs s1. induction rs as [|r rs IH]; intros vs s1 H1 Hl Hsp HQ; cbn [push_all map length rev] in *.
  { by apply wp_ret, HQ. }
  apply not_elem_of_cons in Hsp as [Hr' Hsp]. apply wp_bind, wp_bind, wp_gets.
  rewrite (entry_regs _ _ _ H1 r) by done.
  eapply wp_entry_push; [done|done|exact H1|lia|apply Hv|]. intros s2 H2 (_ & E & _).
  eapply IH; [exact H2|simpl; lia|done|]. intros s3 H3 E3. apply HQ; [|by rewrite E3, E].
  by rewrite <-(assoc_L (++)).
Qed.

(** The state of [s] as far as a program can see it, memory apart. *)
Definition restored (s s' : cpu) : Prop :=
  (∀ r, regs s' r = regs s r) ∧ (∀ r, segs s' r = segs s r) ∧ rflags s' = rflags s ∧ rip s' = rip s.

Lemma wp_iretq ip c fl sp ss s (Q : unit → cpu → Prop) :
  stack (cpu_mem s) (regs s RSP) [ip; c; fl; sp; ss] → 0 ≤ regs s RSP → regs s RSP + 40 < 2 ^ 64 →
  (∀ s', regs s' RSP = sp → (∀ r, r ≠ RSP → regs s' r = regs s r) → segs s' CS = c → segs s' SS = ss →
     (∀ r, r ≠ CS → r ≠ SS → segs s' r = segs s r) → rflags s' = fl → rip s' = ip → cpu_mem s' = cpu_mem s → Q tt s') →
  wp iretq Q s.
Proof.
  intros (H1 & H2 & H3 & H4 & H5 & _) H0 Hmax HQ. unfold iretq.
  apply wp_bind. eapply wp_pop; [done|lia|lia|]. intros s1 R1 M1 C1.
  apply wp_bind. eapply wp_pop; [rewrite M1, R1, set_fn_eq; done|rewrite R1, set_fn_eq; lia|rewrite R1, set_fn_eq; lia|].
  intros s2 R2 M2 C2. rewrite R1, set_fn_eq in R2.
  apply wp_bind. eapply wp_pop; [rewrite M2, M1, R2, set_fn_eq; done|rewrite R2, set_fn_eq; lia|rewrite R2, set_fn_eq; lia|].
  intros s3 R3 M3 C3. rewrite R2, set_fn_eq in R3.
  apply wp_bind. eapply wp_pop; [rewrite M3, M2, M1, R3, set_fn_eq; done|rewrite R3, set_fn_eq; lia|rewrite R3, set_fn_eq; lia|].
  intros s4 R4 M4 C4. rewrite R3, set_fn_eq in R4.
  apply wp_bind. eapply wp_pop; [rewrite M4, M3, M2, M1, R4, set_fn_eq; done|rewrite R4, set_fn_eq; lia|rewrite R4, set_fn_eq; lia|].
  intros s5 R5 M5 C5. rewrite R4, set_fn_eq in R5.
  do 4 (apply wp_bind, wp_modify). apply wp_modify.
  assert (same_control s s5) as (Hseg & _) by (do 4 (etransitivity; [|done]); done).
  apply HQ; simpl; try done.
  - intros r Hr. rewrite set_fn_ne by done. rewrite R5. by rewrite !set_fn_ne by done.
  - intros r Hc Hs. rewrite !set_fn_ne by done. apply Hseg.
  - by rewrite M5, M4, M3, M2.
Qed.

(** From the return of [interrupt_dispatch] on. *)
Lemma wp_stub_tail s n error s1 (Q : unit → cpu → Prop) :
  valid_cpu s → 176 ≤ entry_top s →
  regs s1 RSP = entry_top s - 176 → stack (cpu_mem s1) (regs s1 RSP) (ctx_words s n error) →
  (∀ r, r ≠ CS → segs s1 r = segs s r) →
  (∀ s', restored s s' → cpu_mem s' = cpu_mem s1 → Q tt s') →
  wp (POP_REGS;; sp ← get RSP; set RSP (sp +64 16);; iretq) Q s1.
Proof.
  intros Hv Htop Hsp Hst Hseg HQ. destruct (entry_top_spec s Hv) as [_ Ht]. pose proof (proj1 Hv RSP) as Hr64.
  unfold ctx_words in Hst. apply stack_app in Hst as [Hregs Htail]. rewrite length_map in Htail.
  change (Z.of_nat (length ctx_regs)) with 15 in Htail.
  apply wp_bind. eapply (wp_pop_all ctx_regs); [exact Hregs|done| | |lia| |].
  { apply (bool_decide_eq_true_1 _). vm_compute. reflexivity. }
  { apply (bool_decide_eq_false_1 _). vm_compute. reflexivity. }
  { change (Z.of_nat (length ctx_regs)) with 15. lia. }
  intros s2 [A1 A2 A3 A4 A5]. change (Z.of_nat (length ctx_regs)) with 15 in A1.
  apply wp_bind, wp_gets, wp_bind, wp_modify. set (s3 := MkCpu _ _ _ _ _ _ _ _).
  assert (regs s3 RSP = entry_top s - 40) as E3.
  { unfold s3. cbn [regs]. rewrite set_fn_eq, wrap_small; lia. }
  cbn [stack] in Htail. destruct Htail as (_ & _ & Hret).
  eapply (wp_iretq (rip s) (segs s CS) (rflags s) (regs s RSP) (segs s SS)); [|lia|lia|].
  { unfold s3 at 1. cbn [cpu_mem]. rewrite A2, E3.
    replace (regs s1 RSP + 8 * 15 + 8 + 8) with (entry_top s - 40) in Hret by lia. exact Hret. }
  intros s' B1 B2 B3 B4 B5 B6 B7 B8. apply HQ; [|by rewrite B8].
  split; [|split; [|done]].
  - intros r. destruct (decide (r = RSP)) as [->|Hr]; [done|]. rewrite B2 by done.
    unfold s3. cbn [regs]. rewrite set_fn_ne by done.
    assert (∃ i, ctx_regs !! i = Some r) as [i Hi].
    { apply list_elem_of_lookup, (bool_decide_eq_true_1 _). by destruct r. }
    apply (A4 i); [done|]. by rewrite list_lookup_fmap, Hi.
  - intros r. destruct (decide (r = CS)) as [->|Hc]; [done|]. destruct (decide (r = SS)) as [->|Hs]; [done|].
    rewrite B5 by done. unfold s3. cbn [segs]. destruct A3 as [-> _]. by apply Hseg.
Qed.

(** The state in which [interrupt_dispatch] is entered. *)
Definition with_arg (s : cpu) : cpu :=
  MkCpu (set_fn RDI (regs s RSP) (regs s)) (segs s) (rflags s) (rip s) (gdtr_limit s) (gdtr_base s) (tr s) (cpu_mem s).

Lemma dispatched_intro s n err after s3 s5 :
  valid_cpu s → on_entry (ctx_words s n err) s s3 → Z.testbit (rflags s3) 9 = false →
  pushed [after] (with_arg s3) s5 →
  dispatched s n err s5 ∧ stack (cpu_mem s5) (regs s5 RSP) (after :: ctx_words s n err) ∧
  (∀ r, r ≠ CS → segs s5 r = segs s r).
Proof.
  intros Hv [A1 A2 A3 A4 A5 A6 A7] Hif [B1 B2 B3 B4 B5 B6 B7]. destruct (entry_top_spec s Hv) as [Hal Ht].
  change (Z.of_nat (length (ctx_words s n err))) with 22 in A1.
  assert (regs (with_arg s3) RSP = entry_top s - 176) as E4 by (cbn [with_arg regs]; rewrite set_fn_ne by done; lia).
  assert (regs s5 RDI = entry_top s - 176) as Edi.
  { rewrite B2 by done. cbn [with_arg regs]. rewrite set_fn_eq. lia. }
  cbn [length] in B1. change (Z.of_nat 1) with 1 in B1.
  assert (stack (cpu_mem s5) (entry_top s - 176) (ctx_words s n err)) as Hst.
  { eapply stack_agree; [|replace (entry_top s - 176) with (regs s3 RSP) by lia; exact A4].
    intros x Hx. apply B5. lia. }
  split; [split|split].
  - lia.
  - rewrite B1, E4. dlia.
  - lia.
  - by rewrite Edi.
  - by destruct B3 as (_ & -> & _).
  - by etransitivity.
  - intros x [Hx|Hx]; (etransitivity; [first [apply B6; lia|apply B5; lia]|first [apply A6; lia|apply A5; lia]]).
  - split; [apply B4|]. by replace (regs s5 RSP + 8) with (entry_top s - 176) by lia.
  - intros r Hr. destruct B3 as [-> _]. by apply A3.
Qed.

(** ** Theorems *)

(** C11: an interrupt is transparent to the code it interrupts.  For every
    vector, [interrupt_dispatch] is called with a pointer to the context of
    the interrupted code (its registers, the vector, the error code or zero)
    and an aligned stack, with interrupts disabled; if it keeps the frame of
    its caller, as C functions do, the interrupted code goes on with the
    registers, segments, flags and instruction pointer it had. *)
Theorem isr_transparent interrupt_dispatch after_call n error hcs s (R : cpu → cpu → Prop) :
  valid_cpu s → entry_room s → 0 ≤ n < 256 → 0 ≤ error < 2 ^ 64 → 0 ≤ after_call < 2 ^ 64 →
  (∀ s1, dispatched s n (if has_error_code n then error else 0) s1 →
     wp interrupt_dispatch (λ _ s2, keeps_frame s1 s2 ∧ R s1 s2) s1) →
  wp (deliver n error hcs;; isr_stub interrupt_dispatch after_call n)
    (λ _ s', restored s s' ∧
       ∃ s1 s2, dispatched s n (if has_error_code n then error else 0) s1 ∧ R s1 s2 ∧ cpu_mem s' = cpu_mem s2) s.
Proof.
  intros Hv Hr Hn He Ha Hd. destruct (entry_top_spec s Hv) as [Hal Ht]. pose proof (proj1 Hv RSP) as Hsp.
  apply wp_bind, wp_deliver; [done..|]. intros s1 H1 Hif.
  eapply (wp_stub_head n error s s1); [done|done|done|done|]. intros s2 H2 E2.
  unfold interrupt_stub. apply wp_bind. eapply wp_entry_push_all; [done|done|exact H2|simpl; lia| |].
  { apply (bool_decide_eq_false_1 _). vm_compute. reflexivity. }
  intros s3 H3 E3. change (rev (map (regs s) _) ++ _) with (ctx_words s n (if has_error_code n then error else 0)) in H3.
  set (err := if has_error_code n then error else 0) in *. pose proof H3 as [A1 _ _ _ _ _ A7].
  change (Z.of_nat (length (ctx_words s n err))) with 22 in A1. destruct Hr as [Hr Hm].
  apply wp_bind, wp_gets, wp_bind, wp_modify. change (MkCpu _ _ _ _ _ _ _ _) with (with_arg s3).
  assert (regs (with_arg s3) RSP = entry_top s - 176) as E4 by (cbn [with_arg regs]; rewrite set_fn_ne by done; lia).
  apply wp_bind. unfold call. apply wp_bind.
  eapply wp_mono; [apply wp_push; [|done]|].
  { split; [lia|]. intros x Hx. apply A7, Hm. lia. }
  intros [] s5 Hp. destruct (dispatched_intro s n err after_call s3 s5 Hv H3) as (Hdisp & Hst5 & Hseg5); [by rewrite E3, E2|done|].
  pose proof (dispatched_rsp _ _ _ _ Hdisp) as B1.
  apply wp_bind. eapply wp_mono; [by apply Hd|]. intros [] s6 [(K1 & K2 & K3) HR].
  assert (stack (cpu_mem s6) (regs s5 RSP) (after_call :: ctx_words s n err)) as Hst.
  { eapply stack_agree; [|done]. intros x Hx. apply K3.
    change (Z.of_nat (length (after_call :: ctx_words s n err))) with 23 in Hx. lia. }
  destruct Hst as [Hret Hst]. unfold ret. apply wp_bind.
  eapply wp_pop; [by rewrite K1|lia|lia|]. intros s7 R7 M7 C7. apply wp_modify.
  eapply (wp_stub_tail s n err); [done|lia| | | |].
  - cbn [regs]. rewrite R7, set_fn_eq. lia.
  - cbn [regs cpu_mem]. rewrite R7, set_fn_eq, M7, K1. exact Hst.
  - intros r Hr'. cbn [segs]. destruct C7 as [-> _]. rewrite K2. by apply Hseg5.
  - intros s' Hs' Em. split; [done|]. exists s5, s6. split; [done|]. split; [done|]. by rewrite Em.
Qed.

(** ** The context switch *)

(** The registers in the order of [InitialKStack]. *)
Definition switch_regs : list reg := [R12; R13; R14; R15; RBP; RBX].

(** What [switch_context] leaves on the stack of a thread. *)
Definition switch_words (s : cpu) : list Z := map (regs s) switch_regs ++ [rflags s].

Definition disjoint (a n b k : Z) : Prop := a + n ≤ b ∨ b + k ≤ a.

(** The two threads and the [n] bytes used of the stack of the new one lie
    apart from what is written: the stack of the old thread and its field
    [rsp]. *)
Record switch_apart (s : cpu) (sp' n : Z) : Prop := {
  so_valid : valid_cpu s;
  so_room : room 7 s;
  so_old : mapped 8 (cpu_mem s) (regs s RDI) = true;
  so_old_range : 0 ≤ regs s RDI ∧ regs s RDI + 8 ≤ 2 ^ 64;
  so_sp' : 0 ≤ sp' ∧ sp' + 64 < 2 ^ 64;
  so_old_own : disjoint (regs s RSP - 56) 64 (regs s RDI) 8;
  so_old_new : disjoint (regs s RSI) 8 (regs s RDI) 8;
  so_new_own : disjoint (regs s RSP - 56) 64 (regs s RSI) 8;
  so_new_stack : disjoint sp' n (regs s RDI) 8;
  so_own_stack : disjoint sp' n (regs s RSP - 56) 64
}.

(** The field [rsp] of the new thread is [sp'], where [words] are. *)
Record switch_ok (s : cpu) (sp' : Z) (words : list Z) : Prop := {
  so_apart : switch_apart s sp' (8 * Z.of_nat (length words));
  so_new : load 8 (cpu_mem s) (regs s RSI) = Some sp';
  so_stack : stack (cpu_mem s) sp' words
}.

(** The state after a switch in [s] to a stack at [sp'] that holds the
    registers [vs], the flags and the return address. *)
Record switched (s : cpu) (sp' : Z) (vs : list Z) (fl rt : Z) (s' : cpu) : Prop := {
  sw_rsp : regs s' RSP = sp' + 64;
  sw_rax : regs s' RAX = regs s RDI;
  sw_regs : ∀ i r v, switch_regs !! i = Some r → vs !! i = Some v → regs s' r = v;
  sw_other : ∀ r, r ≠ RSP → r ≠ RAX → r ∉ switch_regs → regs s' r = regs s r;
  sw_flags : rflags s' = fl;
  sw_rip : rip s' = rt;
  sw_segs : ∀ r, segs s' r = segs s r;
  sw_saved : load 8 (cpu_mem s') (regs s RDI) = Some (regs s RSP - 56);
  sw_saved_stack : stack (cpu_mem s') (regs s RSP - 56) (switch_words s);
  sw_mem : ∀ x, ¬ (regs s RSP - 56 ≤ x < regs s RSP) → ¬ (regs s RDI ≤ x < regs s RDI + 8) →
           cpu_mem s' x = cpu_mem s x
}.

Lemma switch_regs_no_rsp : RSP ∉ switch_regs.
Proof. apply (bool_decide_eq_false_1 _). vm_compute. reflexivity. Qed.
Lemma switch_regs_nodup : NoDup switch_regs.
Proof. apply (bool_decide_eq_true_1 _). vm_compute. reflexivity. Qed.

(** The first half: the registers of the old thread are on its stack, its
    stack pointer in its field. *)
Lemma wp_switch_save s sp' words (k : M cpu unit) (Q : unit → cpu → Prop) :
  switch_ok s sp' words →
  (∀ s1, regs s1 RSP = regs s RSP - 56 → (∀ r, r ≠ RSP → regs s1 r = regs s r) → (∀ r, segs s1 r = segs s r) →
     load 8 (cpu_mem s1) (regs s RDI) = Some (regs s RSP - 56) →
     stack (cpu_mem s1) (regs s RSP - 56) (switch_words s) →
     (∀ x, ¬ (regs s RSP - 56 ≤ x < regs s RSP) → ¬ (regs s RDI ≤ x < regs s RDI + 8) → cpu_mem s1 x = cpu_mem s x) →
     wp k Q s1) →
  wp (pushfq;; push_all [RBX; RBP; R15; R14; R13; R12];;
      old ← get RDI; sp ← get RSP; wr64 (old +64 Thread_rsp) sp;; k) Q s.
Proof.
  intros [[[Hreg [Hseg [Hfl Hip]]] Hroom Hmap Holdr _ Hown _ _ _ _] _ _] HQ.
  pose proof (proj1 Hroom) as Hsp. unfold disjoint in Hown.
  apply wp_bind. unfold pushfq. apply wp_bind, wp_gets.
  eapply (wp_push_on 7 []); [done|apply pushed_nil|simpl; lia|done|]. intros s1 H1.
  apply wp_bind. eapply (wp_push_all 7 [rflags s]); [done|exact H1|simpl; lia| |done|].
  { apply (bool_decide_eq_false_1 _). vm_compute. reflexivity. }
  intros s2 [A1 A2 A3 A4 A5 A6 A7].
  change (Z.of_nat (length _)) with 7 in A1. change (rev ([rflags s] ++ _)) with (switch_words s) in A4.
  apply wp_bind, wp_gets, wp_bind, wp_gets, wp_bind. rewrite A2 by done.
  unfold Thread_rsp. rewrite Z.add_0_r, wrap_small by (specialize (Hreg RDI); lia).
  apply wp_wr; [by rewrite (mapped_same_dom 8 (cpu_mem s) (cpu_mem s2))|].
  assert (regs s2 RSP = regs s RSP - 56) as E2 by lia. rewrite E2 in *.
  apply HQ; cbn [regs segs cpu_mem upd cpu_has_mem prj].
  - lia.
  - done.
  - apply A3.
  - apply load64_store64_eq. specialize (Hreg RSP). lia.
  - eapply stack_agree; [|exact A4]. intros x Hx. apply store_other.
    change (Z.of_nat (length (switch_words s))) with 7 in Hx. lia.
  - intros x Hx Ho. rewrite store_other by lia.
    destruct (decide (regs s RSP ≤ x)); [by apply A5|]. apply A6. lia.
Qed.

(** The second half, on the stack of the new thread. *)
Lemma wp_switch_load s vs fl rt (Q : unit → cpu → Prop) :
  stack (cpu_mem s) (regs s RSP) (vs ++ [fl; rt]) → length vs = 6%nat →
  0 ≤ regs s RSP → regs s RSP + 64 < 2 ^ 64 →
  (∀ s', regs s' RSP = regs s RSP + 64 → regs s' RAX = regs s RDI →
     (∀ i r v, switch_regs !! i = Some r → vs !! i = Some v → regs s' r = v) →
     (∀ r, r ≠ RSP → r ≠ RAX → r ∉ switch_regs → regs s' r = regs s r) →
     rflags s' = fl → rip s' = rt → (∀ r, segs s' r = segs s r) → cpu_mem s' = cpu_mem s → Q tt s') →
  wp (pop_all [R12; R13; R14; R15; RBP; RBX];; popfq;; old ← get RDI; set RAX old;; ret) Q s.
Proof.
  intros Hst Hl H0 H1 HQ. apply stack_app in Hst as [Hpop (Hfl & Hrt & _)]. rewrite Hl in Hfl, Hrt.
  apply wp_bind. eapply (wp_pop_all switch_regs vs);
    [done|done|apply switch_regs_nodup|apply switch_regs_no_rsp|lia
    |change (Z.of_nat (length switch_regs)) with 6; lia|].
  intros s3 [A1 A2 A3 A4 A5]. change (Z.of_nat (length switch_regs)) with 6 in A1.
  apply wp_bind, wp_bind. eapply wp_pop; [by rewrite A2, A1|lia|lia|]. intros s4 R4 M4 C4. apply wp_modify.
  apply wp_bind, wp_gets, wp_bind, wp_modify. unfold ret. apply wp_bind.
  cbn [regs]. eapply wp_pop; cbn [regs cpu_mem]; rewrite ?M4, ?A2, ?R4, ?set_fn_eq; rewrite (set_fn_ne RAX RSP) by done;
    rewrite ?R4, ?set_fn_eq; [|lia|lia|].
  { replace (regs s3 RSP + 8) with (regs s RSP + 8 * Z.of_nat 6 + 8) by lia. exact Hrt. }
  intros s5 R5 M5 (C5 & C5f & _). apply wp_modify.
  assert (∀ r, r ≠ RSP → r ≠ RAX → regs s5 r = regs s3 r) as E5.
  { intros r Hr1 Hr2. rewrite R5. cbn [regs]. rewrite ?R4. by rewrite !set_fn_ne by done. }
  apply HQ; cbn [regs segs rflags rip cpu_mem].
  - rewrite R5, set_fn_eq. lia.
  - rewrite R5, set_fn_ne by done. cbn [regs]. rewrite set_fn_eq, ?R4, ?set_fn_ne by done. apply A5; [done|].
    apply (bool_decide_eq_false_1 _). vm_compute. reflexivity.
  - intros i r v Hi Hv. assert (r ∈ switch_regs) as Hin by (by eapply list_elem_of_lookup_2).
    rewrite E5; [by eapply A4|..]; intros ->; revert Hin; apply (bool_decide_eq_false_1 _); vm_compute; reflexivity.
  - intros r Hr1 Hr2 Hr3. rewrite E5 by done. by apply A5.
  - by rewrite C5f.
  - done.
  - intros r. rewrite C5. cbn [segs]. destruct C4 as [-> _]. by destruct A3 as [-> _].
  - by rewrite M5.
Qed.

Lemma wp_switch_context_asm s sp' vs fl rt :
  switch_ok s sp' (vs ++ [fl; rt]) → length vs = 6%nat →
  wp switch_context_asm (λ _ s', switched s sp' vs fl rt s') s.
Proof.
  intros Hok Hlen. apply (wp_switch_save s sp' (vs ++ [fl; rt])); [done|]. intros s1 E1 Er Es Hsv Hst Hmem.
  destruct Hok as [[Hv _ _ Holdr Hsp' Hown Hon Hnown Hns Hos] Hnew Hstk]. unfold disjoint in *.
  apply wp_bind, wp_gets, wp_bind. rewrite Er by done.
  eapply (wp_rd 8 _ sp').
  { cbn [prj cpu_has_mem]. unfold Thread_rsp.
    pose proof (proj1 Hv RSI). rewrite Z.add_0_r, wrap_small by lia.
    rewrite <-Hnew. apply load_ext. intros x Hx. apply Hmem; lia. }
  apply wp_bind, wp_modify. set (s2 := MkCpu _ _ _ _ _ _ _ _).
  assert (regs s2 RSP = sp') as E2 by (unfold s2; cbn [regs]; apply set_fn_eq).
  assert (∀ r, r ≠ RSP → regs s2 r = regs s r) as Er2.
  { intros r Hr. unfold s2. cbn [regs]. rewrite set_fn_ne by done. by apply Er. }
  apply (wp_switch_load s2 vs fl rt); [|done|lia|lia|].
  { rewrite E2. eapply stack_agree; [|exact Hstk]. intros x Hx. apply Hmem; lia. }
  intros s' B1 B2 B3 B4 B5 B6 B7 B8. split.
  - by rewrite B1, E2.
  - rewrite B2. by apply Er2.
  - done.
  - intros r H1 H2 H3. rewrite B4 by done. by apply Er2.
  - done.
  - done.
  - intros r. rewrite B7. apply Es.
  - by rewrite B8.
  - by rewrite B8.
  - intros x H1 H2. rewrite B8. by apply Hmem.
Qed.

(** C12: a thread that was switched from goes on where it was: when
    [switch_context] has switched from a thread to another, and later another
    thread switches back, with the stack of the first and its field [rsp] as
    they were left, the first thread returns from its call with its stack
    pointer, its callee-saved registers and its flags (so with its interrupt
    flag), and gets the thread that switched to it as the result. *)
Theorem switch_context_resumes s sp' vs fl rt ra :
  switch_ok s sp' (vs ++ [fl; rt]) → length vs = 6%nat → load 8 (cpu_mem s) (regs s RSP) = Some ra →
  wp switch_context_asm (λ _ s1,
    switched s sp' vs fl rt s1 ∧
    ∀ s2, regs s2 RSI = regs s RDI → switch_apart s2 (regs s RSP - 56) 64 →
      (∀ x, regs s RSP - 56 ≤ x < regs s RSP + 8 ∨ regs s RDI ≤ x < regs s RDI + 8 → cpu_mem s2 x = cpu_mem s1 x) →
      wp switch_context_asm (λ _ s3,
        regs s3 RSP = regs s RSP + 8 ∧ rip s3 = ra ∧ rflags s3 = rflags s ∧
        (∀ r, r ∈ switch_regs → regs s3 r = regs s r) ∧ regs s3 RAX = regs s2 RDI) s2) s.
Proof.
  intros Hok Hl Hra. eapply wp_mono; [by apply wp_switch_context_asm|]. intros [] s1 Hsw. split; [done|].
  intros s2 Hsi Hap Hmem. destruct Hsw as [_ _ _ _ _ _ _ Hfield Hstk Hkeep].
  destruct (so_apart _ _ _ Hok) as [_ Hroom _ _ _ Hown _ _ _ _]. destruct Hroom as [Hroom _]. unfold disjoint in Hown.
  set (ws := map (regs s) switch_regs).
  assert (switch_ok s2 (regs s RSP - 56) (ws ++ [rflags s; ra])) as Hok2.
  { split; [done| |].
    - rewrite Hsi, <-Hfield. apply load_ext. intros x Hx. apply Hmem. right. lia.
    - eapply stack_agree; [intros x Hx; apply Hmem; left|].
      { change (Z.of_nat (length _)) with 8 in Hx. lia. }
      change (ws ++ [rflags s; ra]) with (switch_words s ++ [ra]). apply stack_app. split; [done|].
      change (Z.of_nat (length (switch_words s))) with 7. split; [|done].
      replace (regs s RSP - 56 + 8 * 7) with (regs s RSP) by lia. rewrite <-Hra.
      apply load_ext. intros x Hx. apply Hkeep; lia. }
  eapply wp_mono; [by apply (wp_switch_context_asm s2 (regs s RSP - 56) ws (rflags s) ra)|]. intros [] s3 [B1 B2 B3 _ B5 B6 _ _ _ _].
  split; [lia|]. split; [done|]. split; [done|]. split; [|done].
  intros r [i Hi]%list_elem_of_lookup. apply (B3 i); [done|]. unfold ws. by rewrite list_lookup_fmap, Hi.
Qed.

(** The words of an [InitialKStack]: the registers are not initialised. *)
Definition initial_kstack (junk : list Z) (init_thread entry : Z) : list Z := junk ++ [0x202; init_thread; entry].

(** The first switch to a thread that [thread_kcreate] made enters
    [init_thread] with the thread that was left as its argument, interrupts
    enabled, and the entry function of the thread as its return address. *)
Theorem switch_context_starts s sp' junk init_thread entry :
  switch_ok s sp' (initial_kstack junk init_thread entry) → length junk = 6%nat →
  wp switch_context_asm (λ _ s1,
    rip s1 = init_thread ∧ regs s1 RDI = regs s RDI ∧ Z.testbit (rflags s1) 9 = true ∧
    load 8 (cpu_mem s1) (regs s1 RSP) = Some entry ∧
    load 8 (cpu_mem s1) (regs s RDI) = Some (regs s RSP - 56) ∧
    stack (cpu_mem s1) (regs s RSP - 56) (switch_words s)) s.
Proof.
  intros [Hap Hnew Hstk] Hl. unfold initial_kstack in *.
  assert (length (junk ++ [0x202; init_thread; entry]) = 9%nat) as H9 by (rewrite length_app, Hl; done).
  rewrite H9 in Hap. destruct Hap as [C1 C2 C3 C4 C5 C6 C7 C8 C9 C10]. unfold disjoint in *.
  pose proof Hstk as Hstk'. change [0x202; init_thread; entry] with ([0x202; init_thread] ++ [entry]) in Hstk'.
  rewrite (assoc_L (++)) in Hstk'. apply stack_app in Hstk' as [Hstk8 [Hentry _]].
  assert (length (junk ++ [0x202; init_thread]) = 8%nat) as H8 by (rewrite length_app, Hl; done).
  rewrite H8 in Hentry. eapply wp_mono.
  - apply (wp_switch_context_asm s sp' junk 0x202 init_thread); [|done]. split; [|done|done].
    rewrite H8. split; done || (unfold disjoint; lia).
  - intros [] s1 [B1 B2 B3 B4 B5 B6 B7 B8 B9 B10]. split; [done|].
    split; [apply B4; [done|done|apply (bool_decide_eq_false_1 _); vm_compute; reflexivity]|].
    split; [by rewrite B5|]. split; [|done].
    rewrite B1, <-Hentry. change (8 * Z.of_nat 8) with 64. apply load_ext. intros x Hx. apply B10; lia.
Qed.

(** ** Loading the descriptor table *)

(** A return to the address on top of the stack. *)
Lemma wp_ret_to v s (Q : unit → cpu → Prop) :
  load 8 (cpu_mem s) (regs s RSP) = Some v → 0 ≤ regs s RSP → regs s RSP + 8 < 2 ^ 64 →
  Q tt (MkCpu (set_fn RSP (regs s RSP + 8) (regs s)) (segs s) (rflags s) v (gdtr_limit s) (gdtr_base s) (tr s)
          (cpu_mem s)) → wp ret Q s.
Proof.
  intros Hl H0 H1 HQ. unfold ret, pop. do 2 apply wp_bind. apply wp_gets, wp_bind. eapply wp_rd; [done|].
  apply wp_bind, wp_modify, wp_ret, wp_modify. by rewrite wrap_small by lia.
Qed.

Lemma wp_set_gdt gdtr ra s s1 (Q : unit → cpu → Prop) :
  pushed [ra] s s1 → valid_cpu s → regs s RSP < 2 ^ 64 → 8 ≤ regs s RSP →
  mapped 10 (cpu_mem s) gdtr = true → 0 ≤ gdtr → gdtr + 10 ≤ 2 ^ 64 → disjoint gdtr 10 (regs s RSP - 8) 8 →
  (∀ s2, (∀ r, regs s2 r = regs s r) → (∀ r, segs s2 r = segs s r) → rflags s2 = rflags s → rip s2 = ra →
     gdtr_limit s2 = u16 (regs s RDI) → gdtr_base s2 = regs s RSI → tr s2 = tr s →
     same_dom (cpu_mem s) (cpu_mem s2) → Q tt s2) →
  wp (set_gdt gdtr) Q s1.
Proof.
  intros Hp [Hreg _] Hsp H8 Hmap H0 H10 Hdis HQ. destruct Hp as [A1 A2 A3 [A4 _] A5 A6 A7].
  destruct A3 as (Cs & Cf & Ci & Cl & Cb & Ct). simpl length in A1. change (Z.of_nat 1) with 1 in A1. unfold disjoint in Hdis.
  pose proof (proj1 (mapped_spec _ _ _) Hmap) as Hm. unfold set_gdt.
  apply wp_bind, wp_gets. rewrite A2 by done. apply wp_bind. apply wp_wr.
  { apply mapped_spec. intros x Hx. apply A7, Hm. lia. }
  set (m1 := store 2 _ _ _). apply wp_bind, wp_gets. cbn [regs upd cpu_has_mem]. rewrite A2 by done.
  rewrite wrap_small by lia. apply wp_bind.
  assert (same_dom (cpu_mem s) m1) as Hd1.
  { etransitivity; [exact A7|]. apply store_same_dom, mapped_spec. intros x Hx. apply A7, Hm. lia. }
  assert (mapped 8 m1 (gdtr + 2) = true) as Hm8.
  { apply mapped_spec. intros x Hx. apply Hd1, Hm. lia. }
  apply wp_wr; [exact Hm8|]. cbn [prj upd cpu_has_mem cpu_mem]. set (m2 := store 8 m1 _ _).
  pose proof (wrap_range 16 (regs s RDI) ltac:(lia)) as Hlim.
  assert (load 2 m2 gdtr = Some (u16 (regs s RDI))) as El.
  { unfold m2. rewrite load_store_ne by lia. unfold m1. rewrite load_store_eq. f_equal.
    apply Z.mod_small. change (256 ^ Z.of_nat 2) with (2 ^ 16). lia. }
  apply wp_bind. eapply (wp_rd 2 _ (u16 (regs s RDI))); [exact El|].
  apply wp_bind. eapply (wp_rd 8 _ (regs s RSI)); [unfold m2; by apply load64_store64_eq|].
  apply wp_bind, wp_modify. eapply (wp_ret_to ra); cbn [regs cpu_mem upd cpu_has_mem]; [|lia|lia|].
  { unfold m2. rewrite load_store_ne by lia. unfold m1. rewrite load_store_ne by lia. exact A4. }
  apply HQ; cbn [regs segs rflags rip gdtr_limit gdtr_base tr cpu_mem]; try done.
  - intros r. destruct (decide (r = RSP)) as [->|]; [rewrite set_fn_eq; lia|]. rewrite set_fn_ne by done. by apply A2.
  - etransitivity; [exact Hd1|]. by apply store_same_dom.
Qed.

Lemma mov_ax_low a v : 0 ≤ v < 2 ^ 16 → u16 (a - u16 a + v) = v.
Proof. intros Hv. unfold wrap. dlia. Qed.

Lemma wp_set_tss ra s s1 (Q : unit → cpu → Prop) :
  pushed [ra] s s1 → 8 ≤ regs s RSP < 2 ^ 64 →
  (∀ s2, (∀ r, r ≠ RAX → regs s2 r = regs s r) → (∀ r, segs s2 r = segs s r) → rflags s2 = rflags s → rip s2 = ra →
     gdtr_limit s2 = gdtr_limit s → gdtr_base s2 = gdtr_base s → tr s2 = 0x28 →
     same_dom (cpu_mem s) (cpu_mem s2) → Q tt s2) →
  wp set_tss Q s1.
Proof.
  intros [A1 A2 (Cs & Cf & Ci & Cl & Cb & Ct) [A4 _] _ _ A7] Hsp HQ. simpl length in A1. change (Z.of_nat 1) with 1 in A1.
  unfold set_tss, mov_ax. apply wp_bind, wp_bind, wp_gets, wp_modify, wp_bind, wp_gets, wp_bind, wp_modify.
  cbn [regs]. rewrite set_fn_eq, mov_ax_low by lia.
  eapply (wp_ret_to ra); cbn [regs cpu_mem]; rewrite (set_fn_ne RAX RSP) by done; [done|lia|lia|].
  apply HQ; try done. cbn [regs]. intros r Hr. destruct (decide (r = RSP)) as [->|].
  - rewrite set_fn_eq. lia.
  - rewrite !set_fn_ne by done. by apply A2.
Qed.

(** Loading data segment registers, one after the other. *)
Definition seg_loaded (f : sreg → Z) (s s' : cpu) : Prop :=
  regs s' = regs s ∧ segs s' = f ∧ rflags s' = rflags s ∧ rip s' = rip s ∧ gdtr_limit s' = gdtr_limit s ∧
  gdtr_base s' = gdtr_base s ∧ tr s' = tr s ∧ cpu_mem s' = cpu_mem s.

Lemma wp_set_seg r v f s s1 (Q : unit → cpu → Prop) :
  seg_loaded f s s1 → (∀ s2, seg_loaded (set_fn r v f) s s2 → Q tt s2) → wp (set_seg r v) Q s1.
Proof.
  intros (H1 & H2 & H3 & H4 & H5 & H6 & H7 & H8) HQ. apply wp_modify, HQ. subst f. done.
Qed.

Lemma wp_reload_segments label ra s s1 (Q : unit → cpu → Prop) :
  pushed [ra] s s1 → room 3 s → 0 ≤ label < 2 ^ 64 →
  (∀ s2, (∀ r, r ≠ RAX → regs s2 r = regs s r) → segs s2 CS = 0x08 → (∀ r, r ≠ CS → segs s2 r = 0x10) →
     rflags s2 = rflags s → rip s2 = ra →
     gdtr_limit s2 = gdtr_limit s → gdtr_base s2 = gdtr_base s → tr s2 = tr s → Q tt s2) →
  wp (reload_segments label) Q s1.
Proof.
  intros H1 Hroom Hlab HQ. unfold reload_segments.
  apply wp_bind. eapply (wp_push_on 3 [ra]); [done|exact H1|simpl; lia|lia|]. intros s2 H2.
  apply wp_bind, wp_modify, wp_bind, wp_gets. cbn [regs]. rewrite set_fn_eq. set (s3 := MkCpu _ _ _ _ _ _ _ _).
  apply wp_bind. destruct Hroom as [Hsp Hm]. destruct H2 as [A1 A2 C2 A4 _ _ A7].
  change (Z.of_nat (length ([ra] ++ [8]))) with 2 in A1. change (rev ([ra] ++ [8])) with [8; ra] in A4.
  assert (regs s3 RSP = regs s RSP - 16) as E3 by (unfold s3; cbn [regs]; rewrite set_fn_ne by done; lia).
  eapply wp_mono; [apply wp_push; [|done]|].
  { split; [lia|]. intros x Hx. apply A7, Hm. lia. }
  intros [] s4 [B1 B2 C4 [B4 _] B5 _ _].
  change (Z.of_nat (length [label])) with 1 in B1.
  assert (stack (cpu_mem s4) (regs s RSP - 24) [label; 0x08; ra]) as Hst.
  { split; [by replace (regs s RSP - 24) with (regs s4 RSP) by lia|].
    eapply stack_agree; [|replace (regs s RSP - 24 + 8) with (regs s2 RSP) by lia; exact A4].
    intros x Hx. change (Z.of_nat (length [8; ra])) with 2 in Hx. etransitivity; [apply B5; lia|done]. }
  destruct Hst as (L1 & L2 & L3 & _).
  apply wp_bind. unfold retfq. apply wp_bind.
  eapply wp_pop; [by replace (regs s4 RSP) with (regs s RSP - 24) by lia|lia|lia|]. intros s5 R5 M5 C5.
  apply wp_bind. eapply wp_pop; [|rewrite R5, set_fn_eq; lia|rewrite R5, set_fn_eq; lia|].
  { rewrite R5, set_fn_eq, M5. by replace (regs s4 RSP + 8) with (regs s RSP - 24 + 8) by lia. }
  intros s6 R6 M6 C6. rewrite R5, set_fn_eq in R6.
  assert (same_control s s6) as (_ & Hf & _ & Hgl & Hgb & Htr).
  { transitivity s5; [|exact C6]. transitivity s4; [|exact C5]. transitivity s2; [exact C2|exact C4]. }
  clear C2 C4 C5 C6. apply wp_bind, wp_modify, wp_modify. unfold mov_ax.
  apply wp_bind, wp_bind, wp_gets, wp_modify, wp_bind, wp_gets. cbn [regs]. rewrite set_fn_eq, mov_ax_low by lia.
  set (a := set_fn RAX _ _). assert (a RSP = regs s RSP - 8) as Ea.
  { unfold a. rewrite set_fn_ne, R6, set_fn_eq by discriminate. lia. }
  assert (∀ r, r ≠ RAX → r ≠ RSP → a r = regs s r) as Er.
  { intros r Hr1 Hr2. unfold a. rewrite set_fn_ne, R6, !set_fn_ne, B2 by done.
    unfold s3. cbn [regs]. rewrite set_fn_ne by done. by apply A2. }
  clearbody a. set (s7 := MkCpu a _ _ _ _ _ _ _).
  apply wp_bind. eapply (wp_set_seg DS 0x10 (segs s7) s7); [done|]. intros s8 H8.
  apply wp_bind. eapply (wp_set_seg ES 0x10); [exact H8|]. intros s9 H9.
  apply wp_bind. eapply (wp_set_seg FS 0x10); [exact H9|]. intros s10 H10.
  apply wp_bind. eapply (wp_set_seg GS 0x10); [exact H10|]. intros s11 H11.
  apply wp_bind. eapply (wp_set_seg SS 0x10); [exact H11|]. intros s12 (G1 & G2 & G3 & _ & G5 & G6 & G7 & G8).
  eapply (wp_ret_to ra); rewrite ?G1; cbn [s7 regs]; [|lia|lia|].
  { rewrite G8, Ea. cbn [s7 cpu_mem]. rewrite M6, M5. by replace (regs s RSP - 8) with (regs s RSP - 24 + 8 + 8) by lia. }
  apply HQ; cbn [regs segs rflags rip gdtr_limit gdtr_base tr]; rewrite ?G2, ?G3, ?G5, ?G6, ?G7;
    [|done| |exact Hf|done|exact Hgl|exact Hgb|exact Htr].
  - intros r Hr. destruct (decide (r = RSP)) as [->|]; [rewrite set_fn_eq; lia|].
    rewrite set_fn_ne by done. by apply Er.
  - intros [] Hr; done.
Qed.

(** The calls of [gdt_init] into this file; the three addresses are those
    after the calls. *)
Definition gdt_load (gdt gdtr ra1 ra2 ra3 label : Z) : M cpu unit :=
  set RDI (8 * 7 - 1);; set RSI gdt;; push ra1;; set_gdt gdtr;;
  push ra2;; set_tss;;
  push ra3;; reload_segments label.

(** The state with room for three words and for the table register. *)
Definition gdt_load_ok (s : cpu) (gdtr : Z) : Prop :=
  valid_cpu s ∧ room 3 s ∧ mapped 10 (cpu_mem s) gdtr = true ∧ 0 ≤ gdtr ∧ gdtr + 10 ≤ 2 ^ 64 ∧
  disjoint gdtr 10 (regs s RSP - 8) 8.

(** After the calls of [gdt_init] the processor uses the new table: the
    table register holds its address and the limit of seven entries, the
    code segment is the kernel code entry, the data segments are the kernel
    data entry and the task register is the TSS entry of the table; the
    stack pointer is as before. *)
Theorem gdt_load_loads tss gdt gdtr ra1 ra2 ra3 label s :
  gdt_load_ok s gdtr → 0 ≤ gdt < 2 ^ 64 → 0 ≤ ra1 < 2 ^ 64 → 0 ≤ ra2 < 2 ^ 64 → 0 ≤ ra3 < 2 ^ 64 → 0 ≤ label < 2 ^ 64 →
  wp (gdt_load gdt gdtr ra1 ra2 ra3 label) (λ _ s',
    let table := (gdt_init tss).1 in
    gdtr_base s' = gdt ∧ gdtr_limit s' = 8 * Z.of_nat (length table) - 1 ∧
    selected table (segs s' CS) = Some kernel_code_entry ∧
    (∀ r, r ≠ CS → selected table (segs s' r) = Some kernel_data_entry) ∧
    selected table (tr s') = Some (tss_entry tss) ∧
    regs s' RSP = regs s RSP ∧ rip s' = ra3) s.
Proof.
  intros ((Hreg & Hseg & Hfl & Hip) & [Hsp Hm] & Hmap & Hg0 & Hg1 & Hdis) Hgdt H1 H2 H3 Hlab. unfold gdt_load.
  apply wp_bind, wp_modify, wp_bind, wp_modify. set (s1 := MkCpu _ _ _ _ _ _ _ _).
  assert (∀ r, r ≠ RDI → r ≠ RSI → regs s1 r = regs s r) as E1.
  { intros r Hr1 Hr2. unfold s1. cbn [regs]. by rewrite !set_fn_ne by done. }
  assert (valid_cpu s1) as Hv1.
  { split; [|done]. intros r. unfold s1. cbn [regs]. unfold set_fn. repeat case_decide; [lia|lia|apply Hreg]. }
  apply wp_bind. eapply wp_mono; [apply wp_push; [|done]|].
  { split; rewrite E1 by done; [lia|]. intros x Hx. apply Hm. lia. }
  intros [] s2 P2. apply wp_bind. eapply (wp_set_gdt gdtr ra1 s1); [done|done|rewrite E1 by done; lia..|exact Hmap|lia|lia
    |by rewrite E1 by done|].
  intros s3 R3 S3 F3 _ L3 B3 T3 D3.
  apply wp_bind. eapply wp_mono; [apply wp_push; [|done]|].
  { split; rewrite R3, E1 by done; [lia|]. intros x Hx. apply D3. cbn [s1 cpu_mem]. apply Hm. lia. }
  intros [] s4 P4. apply wp_bind. eapply (wp_set_tss ra2 s3); [done|rewrite R3, E1 by done; lia|].
  intros s5 R5 S5 F5 _ L5 B5 T5 D5.
  assert (room 3 s5) as Hroom5.
  { split; rewrite R5, R3, E1 by done; [lia|]. intros x Hx. apply D5, D3. cbn [s1 cpu_mem]. apply Hm. lia. }
  apply wp_bind. eapply wp_mono; [apply wp_push; [eapply room_le; [|done]; lia|done]|].
  intros [] s6 P6. eapply (wp_reload_segments label ra3 s5); [done|done|done|].
  intros s7 R7 C7 S7 _ I7 L7 B7 T7. cbv zeta. rewrite B7, B5, B3, L7, L5, L3, C7, T7, T5.
  split; [reflexivity|]. split; [reflexivity|]. split; [reflexivity|].
  split; [intros r Hr; by rewrite S7|]. split; [reflexivity|]. split; [|done].
  by rewrite R7, R5, R3, E1 by done.
Qed.

(** The fields of the context that the dispatcher reads. *)
Lemma dispatched_fields s n error s1 :
  dispatched s n error s1 →
  load 8 (cpu_mem s1) (regs s1 RDI + ctx_vector) = Some n ∧
  load 8 (cpu_mem s1) (regs s1 RDI + ctx_error_code) = Some error ∧
  load 8 (cpu_mem s1) (regs s1 RDI + ctx_rip) = Some (rip s) ∧
  load 8 (cpu_mem s1) (regs s1 RDI + ctx_cs) = Some (segs s CS) ∧
  load 8 (cpu_mem s1) (regs s1 RDI + ctx_rflags) = Some (rflags s) ∧
  load 8 (cpu_mem s1) (regs s1 RDI + ctx_ss) = Some (segs s SS) ∧
  ∀ r, load 8 (cpu_mem s1) (regs s1 RDI + ctx_offset r) = Some (regs s r).
Proof.
  intros Hd. pose proof (dispatched_ctx _ _ _ _ Hd) as Hst.
  assert (∀ i v, ctx_words s n error !! i = Some v → load 8 (cpu_mem s1) (regs s1 RDI + 8 * Z.of_nat i) = Some v) as Hi.
  { intros i v. by apply stack_lookup. }
  split; [by apply (Hi 15%nat)|]. split; [by apply (Hi 16%nat)|]. split; [by apply (Hi 17%nat)|].
  split; [by apply (Hi 18%nat)|]. split; [by apply (Hi 19%nat)|]. split; [by apply (Hi 21%nat)|].
  intros r. destruct r; [by apply (Hi 14%nat)|by apply (Hi 13%nat)|by apply (Hi 12%nat)|by apply (Hi 11%nat)
    |by apply (Hi 10%nat)|by apply (Hi 9%nat)|by apply (Hi 8%nat)|by apply (Hi 20%nat)|by apply (Hi 7%nat)
    |by apply (Hi 6%nat)|by apply (Hi 5%nat)|by apply (Hi 4%nat)|by apply (Hi 3%nat)|by apply (Hi 2%nat)
    |by apply (Hi 1%nat)|by apply (Hi 0%nat)].
Qed.

(** ** A machine for the witnesses: four kilobytes of memory *)

Module demo.
Definition words (l : list (Z * Z)) : mem :=
  foldr (λ p m, store 8 m p.1 p.2) (λ x, if (0 <=? x) && (x <? 4096) then Some 0 else None) l.

Definition start (sp di si : Z) (m : mem) : cpu :=
  MkCpu (λ r, match r with RSP => sp | RDI => di | RSI => si | _ => 7 end) (λ _, 16) 0x202 0x1000 0 0 0 m.

(** A function that uses the registers and the stack below it. *)
Definition clobber : M cpu unit := set RAX 1;; set RDI 2;; set_rflags 0;; sp ← get RSP; wr64 (sp -64 8) 3.

Lemma start_valid sp di si m :
  0 ≤ sp < 2 ^ 64 → 0 ≤ di < 2 ^ 64 → 0 ≤ si < 2 ^ 64 → valid_cpu (start sp di si m).
Proof. intros. split; [intros []; simpl; lia|]. split; [simpl; lia|]. simpl. lia. Qed.

(** Two threads at 256 and 264; the second was switched from with its stack
    at 1024. *)
Definition two_threads : mem :=
  words [(2000, 0x1234); (264, 1024); (1024, 12); (1032, 13); (1040, 14); (1048, 15); (1056, 5); (1064, 3);
         (1072, 0x202); (1080, 0x5000); (1088, 0x6000)].
Definition switch_start : cpu := start 2000 256 264 two_threads.
End demo.

Lemma isr_transparent_witness :
  wp (deliver 13 5 8;; isr_stub demo.clobber 0x2000 13)
    (λ _ s', restored (demo.start 2001 1 2 (demo.words [])) s') (demo.start 2001 1 2 (demo.words [])).
Proof.
  eapply wp_mono;
    [apply (isr_transparent demo.clobber 0x2000 13 5 8 (demo.start 2001 1 2 (demo.words [])) (λ _ _, True))|].
  - apply demo.start_valid; lia.
  - split; [vm_compute; discriminate|]. intros x Hx. change (entry_top _) with 2000 in Hx. simpl.
    rewrite (proj2 (Z.leb_le 0 x)), (proj2 (Z.ltb_lt x 4096)) by lia. by eexists.
  - lia.
  - lia.
  - lia.
  - intros s1 [E1 _ _ _ _ Hdom _]. change (entry_top _) with 2000 in E1.
    unfold demo.clobber. do 3 (apply wp_bind, wp_modify). apply wp_bind, wp_gets. cbn [regs].
    rewrite !set_fn_ne by done. rewrite E1. apply wp_wr.
    { apply mapped_spec. intros x Hx. apply Hdom. change (2000 - 184 -64 8) with 1808 in Hx. simpl.
      rewrite (proj2 (Z.leb_le 0 x)), (proj2 (Z.ltb_lt x 4096)) by lia. by eexists. }
    split; [|done]. split; [cbn; by rewrite !set_fn_ne by done|]. split; [done|]. intros x Hx. rewrite E1 in Hx.
    cbn [cpu_mem upd cpu_has_mem prj]. apply store_other. change (2000 - 184 -64 8) with 1808. lia.
  - by intros [] s' [H _].
Defined.

Lemma demo_mapped l x : 0 ≤ x < 4096 → is_Some (demo.words l x).
Proof.
  intros Hx. induction l as [|[a v] l IH]; simpl.
  - rewrite (proj2 (Z.leb_le 0 x)), (proj2 (Z.ltb_lt x 4096)) by lia. by eexists.
  - by apply store_is_Some.
Qed.

Lemma demo_apart n : 0 ≤ n ≤ 72 → switch_apart demo.switch_start 1024 n.
Proof.
  intros Hn. split; try (simpl; unfold disjoint; simpl; lia).
  - apply demo.start_valid; lia.
  - split; [simpl; lia|]. simpl. intros x Hx. apply demo_mapped. lia.
  - apply mapped_spec. simpl. intros x Hx. apply demo_mapped. lia.
Qed.

Lemma switch_context_resumes_witness :
  wp switch_context_asm (λ _ s1,
    rip s1 = 0x5000 ∧ regs s1 RSP = 1088 ∧ regs s1 RBP = 5 ∧
    ∀ s2, s2 = MkCpu (λ r, match r with RSP => 3000 | RDI => 264 | RSI => 256 | _ => 9 end) (segs s1) 0x2 0x5000 0 0 0
                 (cpu_mem s1) →
      mapped 64 (cpu_mem s1) 2944 = true → mapped 8 (cpu_mem s1) 264 = true →
      wp switch_context_asm (λ _ s3,
        rip s3 = 0x1234 ∧ regs s3 RSP = 2008 ∧ regs s3 RAX = 264 ∧ regs s3 RBX = 7 ∧ rflags s3 = 0x202) s2)
    demo.switch_start.
Proof.
  eapply wp_mono; [apply (switch_context_resumes demo.switch_start 1024 [12; 13; 14; 15; 5; 3] 0x202 0x5000 0x1234)|].
  - split; [apply demo_apart; simpl; lia|vm_compute; reflexivity|vm_compute; repeat split].
  - reflexivity.
  - vm_compute. reflexivity.
  - intros [] s1 [[A1 _ A3 _ _ A6 A7 _ _ _] Hback]. split; [done|]. split; [by rewrite A1|].
    split; [by apply (A3 4%nat RBP 5)|]. intros s2 -> Hm1 Hm2.
    eapply wp_mono; [apply Hback; [done| |done]|].
    + split; try (simpl; unfold disjoint; simpl; lia).
      * split; [intros []; simpl; lia|]. split; [intros r; simpl; rewrite A7; simpl; lia|]. simpl. lia.
      * split; [simpl; lia|]. simpl. intros x Hx. apply (proj1 (mapped_spec _ _ _) Hm1). lia.
      * done.
    + intros [] s3 (B1 & B2 & B3 & B4 & B5). split; [done|]. split; [by rewrite B1|]. split; [done|]. split; [|done].
      apply (B4 RBX). apply (bool_decide_eq_true_1 _). vm_compute. reflexivity.
Defined.

Lemma switch_context_starts_witness :
  wp switch_context_asm (λ _ s1,
    rip s1 = 0x5000 ∧ regs s1 RDI = 256 ∧ Z.testbit (rflags s1) 9 = true ∧
    load 8 (cpu_mem s1) (regs s1 RSP) = Some 0x6000) demo.switch_start.
Proof.
  eapply wp_mono; [apply (switch_context_starts demo.switch_start 1024 [12; 13; 14; 15; 5; 3] 0x5000 0x6000)|].
  - split; [apply demo_apart; simpl; lia|vm_compute; reflexivity|vm_compute; repeat split].
  - reflexivity.
  - intros [] s1 (B1 & B2 & B3 & B4 & _). done.
Defined.

Lemma gdt_load_loads_witness :
  wp (gdt_load 0x800 512 1 2 3 0x40) (λ _ s',
    gdtr_base s' = 0x800 ∧ gdtr_limit s' = 55 ∧ selected (gdt_init 0x900).1 (segs s' SS) = Some kernel_data_entry)
    (demo.start 2000 0 0 (demo.words [])).
Proof.
  eapply wp_mono; [apply (gdt_load_loads 0x900 0x800 512 1 2 3 0x40); [|lia..]|].
  - split; [apply demo.start_valid; lia|]. split.
    { split; [simpl; lia|]. intros x Hx. apply (demo_mapped []). simpl in Hx. lia. }
    split; [apply mapped_spec; intros x Hx; apply (demo_mapped []); lia|]. split; [lia|]. split; [lia|].
    left. simpl. lia.
  - intros [] s' (B1 & B2 & _ & B4 & _). split; [done|]. split; [done|]. by apply B4.
Defined.
