(* ===== verification/Boot.v ===== *)
(** * From the boot loader to the kernel: kernel/boot/entry.c,
      kernel/abi/sysv/elf.c

    [kentry] copies the boot loader's responses into a [BootInfo]; the
    responses (limine.h) are its arguments, a missing one is [None].  The
    array of memory regions and the [BootInfo] are local variables, so what
    is not assigned has the value [junk] or zero.  [elf_read] looks at the
    header of a loaded module. *)

From S2P Require Import Prelude Mem Pmm Paging Vmm.
Local Open Scope Z_scope.

(** ** Data *)

Record Framebuffer := MkFb {
  fb_address : Z; fb_width : Z; fb_height : Z; fb_pitch : Z; fb_bpp : Z; fb_memory_model : Z;
  fb_red_mask_size : Z; fb_red_mask_shift : Z; fb_green_mask_size : Z; fb_green_mask_shift : Z;
  fb_blue_mask_size : Z; fb_blue_mask_shift : Z
}.

Record Module := MkModule { mod_address : Z; mod_size : Z; mod_path : Z; mod_cmdline : Z }.

(** The zero-initialised module of [BootInfo boot_info = {}]. *)
Definition no_module : Module := MkModule 0 0 0 0.
Definition MAX_MODULES : nat := 64.

Record BootInfo := MkBootInfo {
  bi_memory_map : PhysMemoryMap;
  bi_hhdm_offset : Z;
  bi_fb : Framebuffer;
  bi_kernel_address : KernelAddress;
  bi_rsdp_address : Z;
  bi_modules : list Module
}.

(** The boot loader's memory map types. *)
Definition LIMINE_MEMMAP_USABLE : Z := 0.
Definition LIMINE_MEMMAP_RESERVED : Z := 1.
Definition LIMINE_MEMMAP_ACPI_RECLAIMABLE : Z := 2.
Definition LIMINE_MEMMAP_ACPI_NVS : Z := 3.
Definition LIMINE_MEMMAP_BAD_MEMORY : Z := 4.
Definition LIMINE_MEMMAP_BOOTLOADER_RECLAIMABLE : Z := 5.
Definition LIMINE_MEMMAP_KERNEL_AND_MODULES : Z := 6.
Definition LIMINE_MEMMAP_FRAMEBUFFER : Z := 7.

Record limine_memmap_entry := MkLimineEntry { lm_base : Z; lm_length : Z; lm_type : Z }.

(** The responses, [None] for a null pointer. *)
Record responses := MkResponses {
  memmap_response : option (list limine_memmap_entry);
  hhdm_response : option Z;
  framebuffer_response : option (list Framebuffer);
  kernel_address_response : option KernelAddress;
  rsdp_response : option Z;
  module_response : option (list Module)
}.

(** ** entry.c *)

(** The switch over the type; without a matching case the local variable
    keeps what it held. *)
Definition region_type (junk : PhysMemoryRegionType) (type : Z) : PhysMemoryRegionType :=
  if type =? LIMINE_MEMMAP_USABLE then PhysMemType_Usable
  else if type =? LIMINE_MEMMAP_RESERVED then PhysMemType_RESERVED
  else if type =? LIMINE_MEMMAP_ACPI_RECLAIMABLE then PhysMemType_ACPI_RECLAIMABLE
  else if type =? LIMINE_MEMMAP_ACPI_NVS then PhysMemType_ACPI_NVS
  else if type =? LIMINE_MEMMAP_BOOTLOADER_RECLAIMABLE then PhysMemType_BOOTLOADER_RECLAIMABLE
  else if type =? LIMINE_MEMMAP_FRAMEBUFFER then PhysMemType_FRAMEBUFFER
  else if type =? LIMINE_MEMMAP_BAD_MEMORY then PhysMemType_BAD_MEMORY
  else if type =? LIMINE_MEMMAP_KERNEL_AND_MODULES then PhysMemType_KERNEL_AND_MODULES
  else junk.

Definition convert_memmap (junk : nat → PhysMemoryRegionType) (es : list limine_memmap_entry) : PhysMemoryMap :=
  imap (λ i e, MkRegion (lm_base e) (lm_length e) (region_type (junk i) (lm_type e))) es.

(** [boot_info.modules[i] = ...], from [i]: a store behind the last element
    of the array is outside the structure. *)
Fixpoint copy_modules (ms : list Module) (i : nat) (arr : list Module) : M unit (list Module) :=
  match ms with
  | [] => mret arr
  | md :: ms' =>
      if (i <? length arr)%nat then copy_modules ms' (S i) (<[i := md]> arr) else fault (Z.of_nat i)
  end.

(** [kassert(request.response, msg)], and the response that is used below. *)
Definition require {B : Type} (r : option B) (msg : string) : M unit B :=
  match r with Some x => mret x | None => kpanic msg end.

(** The argument of [kinit]. *)
Definition kentry (junk : nat → PhysMemoryRegionType) (r : responses) : M unit BootInfo :=
  mm ← require (memmap_response r) "Unable to get the memory map!";
  off ← require (hhdm_response r) "Unable to get the HHDM response!";
  fbs ← require (framebuffer_response r) "Unable to get the framebuffer!";
  ka ← require (kernel_address_response r) "Unable to get the kernel address info!";
  rsdp ← require (rsdp_response r) "Unable to get the rsdp address!";
  ms ← require (module_response r) "Unable to get the modules";
  match fbs with
  | [] => fault 0
  | fb :: _ =>
      mods ← copy_modules ms 0 (replicate MAX_MODULES no_module);
      mret (MkBootInfo (convert_memmap junk mm) off fb ka rsdp mods)
  end.

(** ** elf.c *)

Definition EM_X86_64 : Z := 62.
Definition EV_CURRENT : Z := 1.
Definition ELFCLASS64 : Z := 2.
Definition ELFDATA2LSB : Z := 1.

(** The offsets of Elf64_Ehdr. *)
Definition off_e_ident : Z := 0.
Definition off_e_machine : Z := 18.
Definition off_e_version : Z := 20.
Definition off_e_entry : Z := 24.
Definition off_e_phoff : Z := 32.
Definition off_e_phentsize : Z := 54.
Definition off_e_phnum : Z := 56.

Inductive ElfResult :=
| ELF_RESULT_OK
| ELF_RESULT_ERR_NOT_ELF
| ELF_RESULT_ERR_INVALID_MACHINE
| ELF_RESULT_ERR_INVALID_CLASS
| ELF_RESULT_ERR_INVALID_ENCODING
| ELF_RESULT_ERR_INVALID_VERSION.

#[export] Instance ElfResult_eq_dec : EqDecision ElfResult.
Proof. solve_decision. Defined.

Record ElfFile := MkElf { entry_point : Z; phdrs_size : Z; phdrs_offset : Z; phdrs_count : Z }.

(** The magic bytes, compared one after the other. *)
Fixpoint ident_is (a : Z) (bs : list Z) : M mem bool :=
  match bs with
  | [] => mret true
  | b :: bs' => x ← rd8 a; if x =? b then ident_is (a + 1) bs' else mret false
  end.

(** The result, and the value [*elf_file] is given when it is OK. *)
Definition elf_read (module : Module) : M mem (ElfResult * option ElfFile) :=
  let header := mod_address module in
  magic ← ident_is (header + off_e_ident) [0x7f; 0x45; 0x4c; 0x46];
  if negb magic then mret (ELF_RESULT_ERR_NOT_ELF, None) else
  class ← rd8 (header + off_e_ident + 4);
  if negb (class =? ELFCLASS64) then mret (ELF_RESULT_ERR_INVALID_CLASS, None) else
  machine ← rd16 (header + off_e_machine);
  if negb (machine =? EM_X86_64) then mret (ELF_RESULT_ERR_INVALID_MACHINE, None) else
  data ← rd8 (header + off_e_ident + 5);
  if negb (data =? ELFDATA2LSB) then mret (ELF_RESULT_ERR_INVALID_ENCODING, None) else
  version ← rd32 (header + off_e_version);
  if negb (version =? EV_CURRENT) then mret (ELF_RESULT_ERR_INVALID_VERSION, None) else
  entry ← rd64 (header + off_e_entry);
  phentsize ← rd16 (header + off_e_phentsize);
  phoff ← rd64 (header + off_e_phoff);
  phnum ← rd16 (header + off_e_phnum);
  mret (ELF_RESULT_OK, Some (MkElf entry phentsize phoff phnum)).

(** ** The header as the ELF specification describes it *)

Record ehdr := MkEhdr {
  e_ident : list Z; e_type : Z; e_machine : Z; e_version : Z; e_entry : Z; e_phoff : Z;
  e_phentsize : Z; e_phnum : Z
}.

(** [h] is in memory at [a]: sixteen identification bytes, then the fields. *)
Definition ehdr_at (m : mem) (a : Z) (h : ehdr) : Prop :=
  length (e_ident h) = 16%nat ∧
  (∀ i b, e_ident h !! i = Some b → load 1 m (a + Z.of_nat i) = Some b) ∧
  load 2 m (a + 18) = Some (e_machine h) ∧ load 4 m (a + 20) = Some (e_version h) ∧
  load 8 m (a + 24) = Some (e_entry h) ∧ load 8 m (a + 32) = Some (e_phoff h) ∧
  load 2 m (a + 54) = Some (e_phentsize h) ∧ load 2 m (a + 56) = Some (e_phnum h).

(** A 64-bit little-endian x86-64 file of the current version. *)
Definition ehdr_valid (h : ehdr) : Prop :=
  take 4 (e_ident h) = [0x7f; 0x45; 0x4c; 0x46] ∧ e_ident h !! 4%nat = Some ELFCLASS64 ∧
  e_ident h !! 5%nat = Some ELFDATA2LSB ∧ e_machine h = EM_X86_64 ∧ e_version h = EV_CURRENT.

Lemma wp_ident_is m a bs xs (Q : bool → mem → Prop) :
  length xs = length bs → (∀ i b, xs !! i = Some b → load 1 m (a + Z.of_nat i) = Some b) →
  Q (bool_decide (xs = bs)) m → wp (ident_is a bs) Q m.
Proof.
  revert a xs. induction bs as [|b bs IH]; intros a [|x xs] Hlen Hm HQ; try done.
  cbn [ident_is]. apply wp_bind. eapply wp_rd.
  { specialize (Hm 0%nat x eq_refl). by rewrite Z.add_0_r in Hm. }
  destruct (Z.eqb_spec x b) as [->|Hne].
  - apply (IH _ xs); [simpl in Hlen; lia| |].
    + intros i y Hy. specialize (Hm (S i) y Hy). replace (a + 1 + Z.of_nat i) with (a + Z.of_nat (S i)) by lia. done.
    + erewrite bool_decide_ext; [exact HQ|]. naive_solver.
  - apply wp_ret. rewrite bool_decide_eq_false_2 in HQ by congruence. done.
Qed.

Lemma ident_byte (l : list Z) i : length l = 16%nat → (i < 16)%nat → ∃ b, l !! i = Some b.
Proof. intros Hl Hi. apply lookup_lt_is_Some. lia. Qed.

Lemma copy_modules_fit ms i arr s :
  (i + length ms ≤ length arr)%nat →
  copy_modules ms i arr s = Ok (take i arr ++ ms ++ drop (i + length ms) arr, s).
Proof.
  revert i arr. induction ms as [|md ms IH]; intros i arr Hi; simpl in *.
  { by rewrite Nat.add_0_r, take_drop. }
  rewrite (proj2 (Nat.ltb_lt i (length arr))) by lia. rewrite IH by (rewrite length_insert; lia).
  do 2 f_equal. rewrite drop_insert_lt by lia. replace (S i + length ms)%nat with (i + S (length ms))%nat by lia.
  rewrite (take_S_r _ _ md) by (apply list_lookup_insert_eq; lia).
  rewrite take_insert_ge by lia. by rewrite <-(assoc_L (++)).
Qed.

Lemma copy_modules_overflow ms i arr s :
  (i ≤ length arr)%nat → (length arr < i + length ms)%nat →
  copy_modules ms i arr s = Fault (Z.of_nat (length arr)).
Proof.
  revert i arr. induction ms as [|md ms IH]; intros i arr Hi Hlt; simpl in *; [lia|].
  destruct (Nat.ltb_spec i (length arr)).
  - rewrite IH by (rewrite length_insert; lia). by rewrite length_insert.
  - by replace (length arr) with i by lia.
Qed.

(** ** Claims *)

(** [elf_read] accepts exactly the 64-bit little-endian x86-64 headers of
    the current version, reads the entry point and the three program header
    fields from their places, and changes nothing. *)
Theorem elf_read_accepts m module h :
  ehdr_at m (mod_address module) h →
  wp (elf_read module) (λ r m', m' = m ∧ (r.1 = ELF_RESULT_OK ↔ ehdr_valid h) ∧
    r.2 = (if bool_decide (r.1 = ELF_RESULT_OK)
           then Some (MkElf (e_entry h) (e_phentsize h) (e_phoff h) (e_phnum h)) else None)) m.
Proof.
  intros (Hlen & Hid & Hmach & Hver & Hent & Hpho & Hphe & Hphn).
  destruct (ident_byte _ 4 Hlen ltac:(lia)) as [c Hc], (ident_byte _ 5 Hlen ltac:(lia)) as [d Hd].
  unfold elf_read. cbv zeta. set (a := mod_address module) in *.
  assert (∀ r f, r ≠ ELF_RESULT_OK → f = None → ¬ ehdr_valid h →
    wp (mret (r, f)) (λ r m', m' = m ∧ (r.1 = ELF_RESULT_OK ↔ ehdr_valid h) ∧
      r.2 = (if bool_decide (r.1 = ELF_RESULT_OK)
           then Some (MkElf (e_entry h) (e_phentsize h) (e_phoff h) (e_phnum h)) else None)) m) as Herr.
  { intros r f Hr -> Hv. apply wp_ret. simpl. rewrite bool_decide_eq_false_2 by done. naive_solver. }
  apply wp_bind. apply (wp_ident_is _ _ _ (take 4 (e_ident h))).
  { rewrite length_take, Hlen. done. }
  { intros i b [Hb _]%lookup_take_Some. unfold off_e_ident. rewrite Z.add_0_r. by apply Hid. }
  case_bool_decide as Emag; cbn [negb]; [|by apply Herr; [..|intros []]].
  apply wp_bind. eapply wp_rd; [unfold off_e_ident; rewrite Z.add_0_r; exact (Hid _ _ Hc)|].
  destruct (Z.eqb_spec c ELFCLASS64) as [->|Ec]; cbn [negb]; [|apply Herr; [done..|]; intros (_ & ? & _); congruence].
  apply wp_bind. eapply wp_rd; [exact Hmach|].
  destruct (Z.eqb_spec (e_machine h) EM_X86_64) as [Em|Em]; cbn [negb]; [|apply Herr; [done..|]; intros (_ & _ & _ & ? & _); done].
  apply wp_bind. eapply wp_rd; [unfold off_e_ident; rewrite Z.add_0_r; exact (Hid _ _ Hd)|].
  destruct (Z.eqb_spec d ELFDATA2LSB) as [->|Ed]; cbn [negb]; [|apply Herr; [done..|]; intros (_ & _ & ? & _); congruence].
  apply wp_bind. eapply wp_rd; [exact Hver|].
  destruct (Z.eqb_spec (e_version h) EV_CURRENT) as [Ev|Ev]; cbn [negb]; [|apply Herr; [done..|]; intros (_ & _ & _ & _ & ?); done].
  apply wp_bind. eapply wp_rd; [exact Hent|]. apply wp_bind. eapply wp_rd; [exact Hphe|].
  apply wp_bind. eapply wp_rd; [exact Hpho|]. apply wp_bind. eapply wp_rd; [exact Hphn|].
  apply wp_ret. split; [done|]. split; [|done].
  split; [|done]. intros _. by split_and!.
Qed.

(** [kentry] passes the boot loader's answers on unchanged: the memory
    map entry by entry with its types translated, the first framebuffer, the
    addresses, and up to 64 modules in order, the rest of the array zero. *)
Theorem kentry_copies junk mm off fb fbs ka rsdp ms :
  (length ms ≤ 64)%nat → Forall (λ e, 0 ≤ lm_type e < 8) mm →
  wp (kentry junk (MkResponses (Some mm) (Some off) (Some (fb :: fbs)) (Some ka) (Some rsdp) (Some ms)))
    (λ bi _, bi_hhdm_offset bi = off ∧ bi_fb bi = fb ∧ bi_kernel_address bi = ka ∧
       bi_rsdp_address bi = rsdp ∧
       bi_modules bi = ms ++ replicate (64 - length ms) no_module ∧
       length (bi_memory_map bi) = length mm ∧
       ∀ i e, mm !! i = Some e → ∃ r, bi_memory_map bi !! i = Some r ∧ base r = lm_base e ∧
         length_ r = lm_length e ∧
         [PhysMemType_Usable; PhysMemType_RESERVED; PhysMemType_ACPI_RECLAIMABLE; PhysMemType_ACPI_NVS;
          PhysMemType_BAD_MEMORY; PhysMemType_BOOTLOADER_RECLAIMABLE; PhysMemType_KERNEL_AND_MODULES;
          PhysMemType_FRAMEBUFFER] !! Z.to_nat (lm_type e) = Some (type r)) tt.
Proof.
  intros Hms Hty. unfold kentry, require. cbn [memmap_response hhdm_response framebuffer_response kernel_address_response
    rsdp_response module_response].
  do 6 (apply wp_bind, wp_ret). apply wp_bind.
  apply wp_ok. eexists _, _. split; [apply copy_modules_fit; rewrite length_replicate; unfold MAX_MODULES; lia|].
  apply wp_ret. cbn [bi_hhdm_offset bi_fb bi_kernel_address bi_rsdp_address bi_modules bi_memory_map].
  split_and!; try done.
  - by rewrite drop_replicate.
  - unfold convert_memmap. by rewrite length_imap.
  - intros i e He. unfold convert_memmap, PhysMemoryMap. rewrite list_lookup_imap, He. simpl. eexists. split; [done|].
    split; [done|]. split; [done|]. simpl. rewrite Forall_forall in Hty.
    specialize (Hty e (list_elem_of_lookup_2 _ _ _ He)).
    assert (lm_type e = 0 ∨ lm_type e = 1 ∨ lm_type e = 2 ∨ lm_type e = 3 ∨ lm_type e = 4 ∨
      lm_type e = 5 ∨ lm_type e = 6 ∨ lm_type e = 7) as Hc by lia.
    destruct Hc as [E|[E|[E|[E|[E|[E|[E|E]]]]]]]; rewrite E; reflexivity.
Qed.

(** A sixty-fifth module is written behind the array: the number of
    modules the boot loader reports is not checked against its size. *)
Theorem kentry_modules_overflow junk mm off fb fbs ka rsdp ms :
  (64 < length ms)%nat →
  kentry junk (MkResponses (Some mm) (Some off) (Some (fb :: fbs)) (Some ka) (Some rsdp) (Some ms)) tt
    = Fault 64.
Proof.
  intros Hms. unfold kentry, require, mbind, M_bind, mret, M_ret. cbn [memmap_response hhdm_response framebuffer_response kernel_address_response
    rsdp_response module_response].
  rewrite copy_modules_overflow; [done|lia|]. rewrite length_replicate. unfold MAX_MODULES. lia.
Qed.

(** ** Witnesses *)

Definition elf_demo_bytes : list Z :=
  [0x7f; 0x45; 0x4c; 0x46; 2; 1; 1; 0; 0; 0; 0; 0; 0; 0; 0; 0; 2; 0; 62; 0; 1; 0; 0; 0;
   0x00; 0x10; 0x40; 0; 0; 0; 0; 0; 64; 0; 0; 0; 0; 0; 0; 0; 0; 0; 0; 0; 0; 0; 0; 0;
   0; 0; 0; 0; 64; 0; 56; 0; 2; 0].
Definition elf_demo_mem : mem := λ a, if a <? 0 then None else elf_demo_bytes !! Z.to_nat a.
Definition elf_demo : ehdr := MkEhdr (take 16 elf_demo_bytes) 2 62 1 0x401000 64 56 2.

Lemma elf_read_accepts_witness :
  wp (elf_read no_module) (λ r _, r = (ELF_RESULT_OK, Some (MkElf 0x401000 56 64 2))) elf_demo_mem.
Proof.
  refine (wp_mono _ _ _ _ (elf_read_accepts elf_demo_mem no_module elf_demo _) _).
  - split; [reflexivity|]. split.
    + intros i b Hb. do 16 (destruct i as [|i]; [injection Hb as <-; reflexivity|]). discriminate.
    + split_and!; reflexivity.
  - intros [r f] m' (_ & Hr & Hf). simpl in *. assert (r = ELF_RESULT_OK) as ->.
    { apply Hr. split_and!; reflexivity. }
    rewrite Hf. reflexivity.
Defined.

Definition demo_fb : Framebuffer := MkFb 0xb8000 640 480 2560 32 1 8 16 8 8 8 0.

Lemma kentry_copies_witness :
  wp (kentry (λ _, PhysMemType_Usable) (MkResponses (Some [MkLimineEntry 0 0x1000 1]) (Some 0)
      (Some [demo_fb]) (Some (MkKernelAddress 0 0)) (Some 0) (Some [])))
    (λ bi _, bi_fb bi = demo_fb ∧ length (bi_memory_map bi) = 1%nat) tt.
Proof.
  refine (wp_mono _ _ _ _ (kentry_copies (λ _, PhysMemType_Usable) [MkLimineEntry 0 0x1000 1] 0 demo_fb []
    (MkKernelAddress 0 0) 0 [] _ _) _).
  - simpl. lia.
  - repeat constructor; simpl; lia.
  - intros bi s (_ & H1 & _ & _ & _ & H2 & _). split; [exact H1|exact H2].
Defined.

Lemma kentry_modules_overflow_witness :
  kentry (λ _, PhysMemType_Usable) (MkResponses (Some []) (Some 0) (Some [demo_fb])
    (Some (MkKernelAddress 0 0)) (Some 0) (Some (replicate 65 no_module))) tt = Fault 64.
Proof. apply kentry_modules_overflow. simpl. lia. Defined.
