(* ===== verification/Digits.v ===== *)
(** * Characters, buffers and digits

    Shared by the two formatted printers (log/tty.c and nanoprintf): a
    character is a byte, a C string the list of its characters, a character
    array a list whose length is its size. *)

From Stdlib Require Export Ascii.
From S2P Require Import Prelude.
Local Open Scope Z_scope.

(** [str[i] = c] in a buffer. *)
Definition buf_set (i : nat) (c : Z) (buf : list Z) : res (list Z) :=
  if (i <? length buf)%nat then Ok (<[i := c]> buf) else Fault (Z.of_nat i).

(** The string at the start of a buffer. *)
Fixpoint cstr (buf : list Z) : list Z :=
  match buf with [] => [] | c :: rest => if c =? 0 then [] else c :: cstr rest end.

(** Characters of a Rocq string, for examples. *)
Definition chars (s : string) : list Z := map (λ a, Z.of_N (Ascii.N_of_ascii a)) (String.list_ascii_of_string s).

(** A character constant. *)
Definition ch (a : Ascii.ascii) : Z := Z.of_N (Ascii.N_of_ascii a).
Arguments ch a%_char_scope.

(** The digits of a number, least significant first. *)
Fixpoint digits (fuel : nat) (base v : Z) : list Z :=
  match fuel with
  | O => []
  | S fuel' => v mod base :: (if v `div` base =? 0 then [] else digits fuel' base (v `div` base))
  end.

Lemma digits_value fuel base v :
  2 ≤ base → 0 ≤ v < base ^ Z.of_nat fuel →
  foldr (λ d n, n * base + d) 0 (digits fuel base v) = v ∧
  Forall (λ d, 0 ≤ d < base) (digits fuel base v).
Proof.
  intros Hb. revert v. induction fuel as [|fuel IH]; intros v Hv; cbn [digits].
  { simpl in *. split; [lia|constructor]. }
  assert (0 < base) as Hb0 by lia. pose proof (Z.mod_pos_bound v base Hb0).
  pose proof (Z.div_mod v base ltac:(lia)).
  destruct (Z.eqb_spec (v `div` base) 0) as [E|E]; simpl.
  { split; [lia|]. by constructor. }
  destruct (IH (v `div` base)) as [I1 I2].
  { split; [apply Z.div_pos; lia|]. apply Z.div_lt_upper_bound; [lia|].
    rewrite Nat2Z.inj_succ, Z.pow_succ_r in Hv by lia. lia. }
  rewrite I1. split; [lia|]. by constructor.
Qed.

Lemma digits_length fuel base v n :
  2 ≤ base → 0 ≤ v < base ^ Z.of_nat n → (0 < n)%nat → (length (digits fuel base v) ≤ n)%nat.
Proof.
  intros Hb. revert v n. induction fuel as [|fuel IH]; intros v n Hv Hn; simpl; [lia|].
  destruct (Z.eqb_spec (v `div` base) 0) as [E|E]; simpl; [lia|].
  destruct n as [|[|n]]; [lia| |].
  { destruct E. apply Z.div_small. rewrite Z.pow_1_r in Hv. lia. }
  apply le_n_S, IH; [|lia]. split; [apply Z.div_pos; lia|]. apply Z.div_lt_upper_bound; [lia|].
  rewrite (Nat2Z.inj_succ (S n)), Z.pow_succ_r in Hv by lia. lia.
Qed.

(** The most significant digit of a positive number is not zero. *)
Lemma digits_last fuel base v :
  2 ≤ base → 0 < v < base ^ Z.of_nat fuel → ∃ d, last (digits fuel base v) = Some d ∧ d ≠ 0.
Proof.
  intros Hb. revert v. induction fuel as [|fuel IH]; intros v Hv; cbn [digits]; [simpl in Hv; lia|].
  pose proof (Z.div_mod v base ltac:(lia)).
  destruct (Z.eqb_spec (v `div` base) 0) as [E|E].
  { exists (v mod base). split; [done|]. rewrite E in *. lia. }
  assert (0 ≤ v `div` base) by (apply Z.div_pos; lia).
  destruct (IH (v `div` base)) as (d & Hd & Hd0).
  { split; [lia|]. apply Z.div_lt_upper_bound; [lia|].
    rewrite Nat2Z.inj_succ, Z.pow_succ_r in Hv by lia. lia. }
  exists d. split; [|done]. destruct (digits fuel base (v `div` base)); [done|]. by rewrite last_cons_cons.
Qed.

Lemma insert_middle (a r : list Z) x c : <[length a := c]> (a ++ x :: r) = a ++ c :: r.
Proof. rewrite insert_app_r_alt by done. by rewrite Nat.sub_diag. Qed.

Lemma buf_set_at i c (a r : list Z) x : length a = i → buf_set i c (a ++ x :: r) = Ok (a ++ c :: r).
Proof.
  intros <-. unfold buf_set. rewrite length_app. simpl.
  rewrite (proj2 (Nat.ltb_lt _ _)) by lia. by rewrite insert_middle.
Qed.

Lemma cstr_app str r : Forall (λ c, c ≠ 0) str → cstr (str ++ 0 :: r) = str.
Proof.
  induction 1 as [|c str Hc _ IH]; simpl; [done|]. by rewrite (proj2 (Z.eqb_neq _ _) Hc), IH.
Qed.

Lemma cstr_take_app l r : cstr (l ++ 0 :: r) = cstr l.
Proof. induction l as [|c l IH]; simpl; [done|]. destruct (c =? 0); [done|]. by rewrite IH. Qed.
