(* ===== verification/Font.v ===== *)
(** * The console font: log/font.h

    The bitmaps of the characters 32 to 255, sixteen bytes each, in two
    halves. *)

From S2P Require Import Prelude.
Local Open Scope Z_scope.

(** Characters 32 to 143. *)
Definition font_low : list (list Z) :=
  [[0; 0; 0; 0; 0; 0; 0; 0; 0; 0; 0; 0; 0; 0; 0; 0];
   [0; 0; 24; 60; 60; 60; 24; 24; 24; 0; 24; 24; 0; 0; 0; 0];
   [0; 102; 102; 34; 34; 0; 0; 0; 0; 0; 0; 0; 0; 0; 0; 0];
   [0; 0; 0; 0; 108; 108; 254; 108; 108; 254; 108; 108; 0; 0; 0; 0];
   [0; 16; 16; 124; 214; 214; 112; 56; 28; 214; 214; 124; 16; 16; 0; 0];
   [0; 0; 96; 146; 150; 108; 24; 48; 108; 210; 146; 12; 0; 0; 0; 0];
   [0; 0; 56; 108; 108; 56; 48; 118; 220; 204; 204; 118; 0; 0; 0; 0];
   [0; 24; 24; 8; 16; 0; 0; 0; 0; 0; 0; 0; 0; 0; 0; 0];
   [0; 0; 12; 24; 48; 48; 48; 48; 48; 48; 24; 12; 0; 0; 0; 0];
   [0; 0; 48; 24; 12; 12; 12; 12; 12; 12; 24; 48; 0; 0; 0; 0];
   [0; 0; 0; 0; 0; 102; 60; 255; 60; 102; 0; 0; 0; 0; 0; 0];
   [0; 0; 0; 0; 0; 24; 24; 126; 24; 24; 0; 0; 0; 0; 0; 0];
   [0; 0; 0; 0; 0; 0; 0; 0; 0; 0; 48; 48; 16; 32; 0; 0];
   [0; 0; 0; 0; 0; 0; 0; 254; 0; 0; 0; 0; 0; 0; 0; 0];
   [0; 0; 0; 0; 0; 0; 0; 0; 0; 0; 48; 48; 0; 0; 0; 0];
   [0; 0; 0; 2; 6; 12; 24; 48; 96; 192; 128; 0; 0; 0; 0; 0];
   [0; 0; 124; 198; 198; 206; 222; 246; 230; 198; 198; 124; 0; 0; 0; 0];
   [0; 0; 24; 56; 120; 24; 24; 24; 24; 24; 24; 126; 0; 0; 0; 0];
   [0; 0; 124; 198; 6; 12; 24; 48; 96; 192; 198; 254; 0; 0; 0; 0];
   [0; 0; 124; 198; 6; 6; 60; 6; 6; 6; 198; 124; 0; 0; 0; 0];
   [0; 0; 12; 28; 60; 108; 204; 204; 254; 12; 12; 30; 0; 0; 0; 0];
   [0; 0; 254; 192; 192; 192; 252; 6; 6; 6; 198; 124; 0; 0; 0; 0];
   [0; 0; 124; 198; 192; 192; 252; 198; 198; 198; 198; 124; 0; 0; 0; 0];
   [0; 0; 254; 198; 6; 6; 12; 24; 48; 48; 48; 48; 0; 0; 0; 0];
   [0; 0; 124; 198; 198; 198; 124; 198; 198; 198; 198; 124; 0; 0; 0; 0];
   [0; 0; 124; 198; 198; 198; 198; 126; 6; 6; 198; 124; 0; 0; 0; 0];
   [0; 0; 0; 0; 24; 24; 0; 0; 0; 24; 24; 8; 0; 0; 0; 0];
   [0; 0; 0; 0; 24; 24; 0; 0; 0; 24; 24; 8; 16; 0; 0; 0];
   [0; 0; 0; 6; 12; 24; 48; 96; 48; 24; 12; 6; 0; 0; 0; 0];
   [0; 0; 0; 0; 0; 126; 0; 0; 126; 0; 0; 0; 0; 0; 0; 0];
   [0; 0; 0; 96; 48; 24; 12; 6; 12; 24; 48; 96; 0; 0; 0; 0];
   [0; 0; 124; 198; 198; 6; 12; 24; 24; 0; 24; 24; 0; 0; 0; 0];
   [0; 0; 0; 60; 66; 157; 165; 165; 173; 182; 64; 60; 0; 0; 0; 0];
   [0; 0; 56; 108; 198; 198; 198; 254; 198; 198; 198; 198; 0; 0; 0; 0];
   [0; 0; 252; 102; 102; 102; 124; 102; 102; 102; 102; 252; 0; 0; 0; 0];
   [0; 0; 124; 198; 198; 192; 192; 192; 192; 198; 198; 124; 0; 0; 0; 0];
   [0; 0; 252; 102; 102; 102; 102; 102; 102; 102; 102; 252; 0; 0; 0; 0];
   [0; 0; 254; 102; 98; 104; 120; 120; 104; 98; 102; 254; 0; 0; 0; 0];
   [0; 0; 254; 102; 98; 104; 120; 120; 104; 96; 96; 240; 0; 0; 0; 0];
   [0; 0; 124; 198; 198; 192; 192; 206; 198; 198; 198; 126; 0; 0; 0; 0];
   [0; 0; 198; 198; 198; 198; 254; 198; 198; 198; 198; 198; 0; 0; 0; 0];
   [0; 0; 60; 24; 24; 24; 24; 24; 24; 24; 24; 60; 0; 0; 0; 0];
   [0; 0; 30; 12; 12; 12; 12; 12; 12; 204; 204; 120; 0; 0; 0; 0];
   [0; 0; 230; 102; 102; 108; 120; 120; 108; 102; 102; 230; 0; 0; 0; 0];
   [0; 0; 240; 96; 96; 96; 96; 96; 96; 98; 102; 254; 0; 0; 0; 0];
   [0; 0; 130; 198; 238; 254; 254; 214; 198; 198; 198; 198; 0; 0; 0; 0];
   [0; 0; 134; 198; 230; 246; 254; 222; 206; 198; 198; 198; 0; 0; 0; 0];
   [0; 0; 124; 198; 198; 198; 198; 198; 198; 198; 198; 124; 0; 0; 0; 0];
   [0; 0; 252; 102; 102; 102; 102; 124; 96; 96; 96; 240; 0; 0; 0; 0];
   [0; 0; 124; 198; 198; 198; 198; 198; 198; 214; 222; 124; 6; 0; 0; 0];
   [0; 0; 252; 102; 102; 102; 102; 124; 108; 102; 102; 230; 0; 0; 0; 0];
   [0; 0; 124; 198; 198; 96; 56; 12; 6; 198; 198; 124; 0; 0; 0; 0];
   [0; 0; 126; 126; 90; 24; 24; 24; 24; 24; 24; 60; 0; 0; 0; 0];
   [0; 0; 198; 198; 198; 198; 198; 198; 198; 198; 198; 124; 0; 0; 0; 0];
   [0; 0; 198; 198; 198; 198; 198; 198; 198; 108; 56; 16; 0; 0; 0; 0];
   [0; 0; 198; 198; 198; 198; 198; 214; 254; 238; 198; 130; 0; 0; 0; 0];
   [0; 0; 198; 198; 108; 124; 56; 56; 124; 108; 198; 198; 0; 0; 0; 0];
   [0; 0; 102; 102; 102; 102; 60; 24; 24; 24; 24; 60; 0; 0; 0; 0];
   [0; 0; 254; 198; 134; 12; 24; 48; 96; 194; 198; 254; 0; 0; 0; 0];
   [0; 0; 60; 48; 48; 48; 48; 48; 48; 48; 48; 60; 0; 0; 0; 0];
   [0; 0; 0; 128; 192; 96; 48; 24; 12; 6; 2; 0; 0; 0; 0; 0];
   [0; 0; 60; 12; 12; 12; 12; 12; 12; 12; 12; 60; 0; 0; 0; 0];
   [0; 0; 16; 56; 108; 198; 0; 0; 0; 0; 0; 0; 0; 0; 0; 0];
   [0; 0; 0; 0; 0; 0; 0; 0; 0; 0; 0; 0; 0; 255; 0; 0];
   [0; 24; 24; 16; 8; 0; 0; 0; 0; 0; 0; 0; 0; 0; 0; 0];
   [0; 0; 0; 0; 0; 120; 12; 124; 204; 204; 204; 118; 0; 0; 0; 0];
   [0; 0; 224; 96; 96; 124; 102; 102; 102; 102; 102; 124; 0; 0; 0; 0];
   [0; 0; 0; 0; 0; 124; 198; 192; 192; 192; 198; 124; 0; 0; 0; 0];
   [0; 0; 28; 12; 12; 124; 204; 204; 204; 204; 204; 118; 0; 0; 0; 0];
   [0; 0; 0; 0; 0; 124; 198; 198; 254; 192; 198; 124; 0; 0; 0; 0];
   [0; 0; 28; 54; 48; 124; 48; 48; 48; 48; 48; 120; 0; 0; 0; 0];
   [0; 0; 0; 0; 0; 118; 204; 204; 204; 204; 204; 124; 12; 204; 120; 0];
   [0; 0; 224; 96; 96; 108; 118; 102; 102; 102; 102; 230; 0; 0; 0; 0];
   [0; 0; 24; 24; 0; 56; 24; 24; 24; 24; 24; 60; 0; 0; 0; 0];
   [0; 0; 12; 12; 0; 28; 12; 12; 12; 12; 12; 12; 204; 204; 120; 0];
   [0; 0; 224; 96; 96; 102; 108; 120; 120; 108; 102; 230; 0; 0; 0; 0];
   [0; 0; 56; 24; 24; 24; 24; 24; 24; 24; 24; 60; 0; 0; 0; 0];
   [0; 0; 0; 0; 0; 236; 254; 214; 214; 214; 214; 198; 0; 0; 0; 0];
   [0; 0; 0; 0; 0; 220; 102; 102; 102; 102; 102; 102; 0; 0; 0; 0];
   [0; 0; 0; 0; 0; 124; 198; 198; 198; 198; 198; 124; 0; 0; 0; 0];
   [0; 0; 0; 0; 0; 220; 102; 102; 102; 102; 102; 124; 96; 96; 240; 0];
   [0; 0; 0; 0; 0; 124; 204; 204; 204; 204; 204; 124; 12; 12; 30; 0];
   [0; 0; 0; 0; 0; 222; 118; 96; 96; 96; 96; 240; 0; 0; 0; 0];
   [0; 0; 0; 0; 0; 124; 198; 96; 56; 12; 198; 124; 0; 0; 0; 0];
   [0; 0; 16; 48; 48; 252; 48; 48; 48; 48; 52; 24; 0; 0; 0; 0];
   [0; 0; 0; 0; 0; 204; 204; 204; 204; 204; 204; 118; 0; 0; 0; 0];
   [0; 0; 0; 0; 0; 198; 198; 198; 198; 108; 56; 16; 0; 0; 0; 0];
   [0; 0; 0; 0; 0; 198; 214; 214; 214; 214; 254; 108; 0; 0; 0; 0];
   [0; 0; 0; 0; 0; 198; 198; 108; 56; 108; 198; 198; 0; 0; 0; 0];
   [0; 0; 0; 0; 0; 198; 198; 198; 198; 198; 198; 126; 6; 12; 248; 0];
   [0; 0; 0; 0; 0; 254; 140; 24; 48; 96; 194; 254; 0; 0; 0; 0];
   [0; 0; 14; 24; 24; 24; 112; 24; 24; 24; 24; 14; 0; 0; 0; 0];
   [0; 0; 24; 24; 24; 24; 0; 0; 24; 24; 24; 24; 0; 0; 0; 0];
   [0; 0; 112; 24; 24; 24; 14; 24; 24; 24; 24; 112; 0; 0; 0; 0];
   [0; 0; 118; 220; 0; 0; 0; 0; 0; 0; 0; 0; 0; 0; 0; 0];
   [0; 0; 0; 0; 16; 56; 108; 198; 198; 198; 254; 0; 0; 0; 0; 0];
   [0; 0; 124; 198; 198; 192; 192; 192; 192; 198; 198; 124; 16; 8; 112; 0];
   [0; 0; 204; 204; 0; 204; 204; 204; 204; 204; 204; 118; 0; 0; 0; 0];
   [0; 6; 12; 16; 0; 124; 198; 198; 254; 192; 198; 124; 0; 0; 0; 0];
   [0; 48; 120; 204; 0; 120; 12; 124; 204; 204; 204; 118; 0; 0; 0; 0];
   [0; 0; 204; 204; 0; 120; 12; 124; 204; 204; 204; 118; 0; 0; 0; 0];
   [0; 192; 96; 16; 0; 120; 12; 124; 204; 204; 204; 118; 0; 0; 0; 0];
   [0; 48; 72; 48; 0; 120; 12; 124; 204; 204; 204; 118; 0; 0; 0; 0];
   [0; 0; 0; 0; 0; 124; 198; 192; 192; 192; 198; 124; 16; 8; 112; 0];
   [0; 24; 60; 102; 0; 124; 198; 198; 254; 192; 198; 124; 0; 0; 0; 0];
   [0; 0; 198; 198; 0; 124; 198; 198; 254; 192; 198; 124; 0; 0; 0; 0];
   [0; 192; 96; 16; 0; 124; 198; 198; 254; 192; 198; 124; 0; 0; 0; 0];
   [0; 0; 102; 102; 0; 56; 24; 24; 24; 24; 24; 60; 0; 0; 0; 0];
   [0; 24; 60; 102; 0; 56; 24; 24; 24; 24; 24; 60; 0; 0; 0; 0];
   [0; 192; 96; 16; 0; 56; 24; 24; 24; 24; 24; 60; 0; 0; 0; 0];
   [198; 198; 0; 56; 108; 198; 198; 254; 198; 198; 198; 198; 0; 0; 0; 0];
   [56; 68; 56; 56; 108; 198; 198; 254; 198; 198; 198; 198; 0; 0; 0; 0]].

(** Characters 144 to 255. *)
Definition font_high : list (list Z) :=
  [[12; 24; 32; 254; 102; 98; 104; 120; 104; 98; 102; 254; 0; 0; 0; 0];
   [0; 0; 0; 0; 0; 124; 18; 114; 158; 144; 146; 124; 0; 0; 0; 0];
   [0; 0; 62; 106; 200; 200; 204; 252; 200; 200; 202; 206; 0; 0; 0; 0];
   [0; 24; 60; 102; 0; 124; 198; 198; 198; 198; 198; 124; 0; 0; 0; 0];
   [0; 0; 198; 198; 0; 124; 198; 198; 198; 198; 198; 124; 0; 0; 0; 0];
   [0; 192; 96; 16; 0; 124; 198; 198; 198; 198; 198; 124; 0; 0; 0; 0];
   [0; 48; 120; 204; 0; 204; 204; 204; 204; 204; 204; 118; 0; 0; 0; 0];
   [0; 192; 96; 16; 0; 204; 204; 204; 204; 204; 204; 118; 0; 0; 0; 0];
   [0; 0; 198; 198; 0; 198; 198; 198; 198; 198; 198; 126; 6; 12; 120; 0];
   [198; 198; 0; 124; 198; 198; 198; 198; 198; 198; 198; 124; 0; 0; 0; 0];
   [198; 198; 0; 198; 198; 198; 198; 198; 198; 198; 198; 124; 0; 0; 0; 0];
   [0; 0; 16; 16; 124; 214; 208; 208; 214; 124; 16; 16; 0; 0; 0; 0];
   [0; 0; 56; 108; 96; 240; 96; 96; 96; 96; 242; 220; 0; 0; 0; 0];
   [0; 0; 102; 102; 102; 60; 24; 126; 24; 126; 24; 24; 0; 0; 0; 0];
   [0; 0; 248; 204; 204; 248; 196; 204; 222; 204; 204; 198; 0; 0; 0; 0];
   [0; 0; 14; 27; 24; 24; 126; 24; 24; 24; 24; 24; 24; 216; 112; 0];
   [0; 6; 12; 16; 0; 120; 12; 124; 204; 204; 204; 118; 0; 0; 0; 0];
   [0; 6; 12; 16; 0; 56; 24; 24; 24; 24; 24; 60; 0; 0; 0; 0];
   [0; 6; 12; 16; 0; 124; 198; 198; 198; 198; 198; 124; 0; 0; 0; 0];
   [0; 6; 12; 16; 0; 204; 204; 204; 204; 204; 204; 118; 0; 0; 0; 0];
   [0; 0; 118; 220; 0; 220; 102; 102; 102; 102; 102; 102; 0; 0; 0; 0];
   [118; 220; 0; 134; 198; 230; 246; 254; 222; 206; 198; 198; 0; 0; 0; 0];
   [0; 56; 12; 60; 108; 54; 0; 126; 0; 0; 0; 0; 0; 0; 0; 0];
   [0; 0; 60; 102; 102; 60; 0; 126; 0; 0; 0; 0; 0; 0; 0; 0];
   [0; 0; 48; 48; 0; 48; 48; 96; 192; 198; 198; 124; 0; 0; 0; 0];
   [0; 0; 0; 0; 0; 0; 0; 254; 192; 192; 192; 0; 0; 0; 0; 0];
   [0; 0; 0; 0; 0; 0; 0; 254; 6; 6; 6; 0; 0; 0; 0; 0];
   [0; 96; 224; 100; 108; 120; 48; 96; 220; 182; 12; 24; 62; 0; 0; 0];
   [0; 96; 224; 100; 108; 120; 48; 108; 220; 172; 62; 12; 12; 0; 0; 0];
   [0; 0; 24; 24; 0; 24; 24; 24; 60; 60; 60; 24; 0; 0; 0; 0];
   [0; 0; 0; 0; 0; 54; 108; 216; 108; 54; 0; 0; 0; 0; 0; 0];
   [0; 0; 0; 0; 0; 216; 108; 54; 108; 216; 0; 0; 0; 0; 0; 0];
   [34; 136; 34; 136; 34; 136; 34; 136; 34; 136; 34; 136; 34; 136; 34; 136];
   [85; 170; 85; 170; 85; 170; 85; 170; 85; 170; 85; 170; 85; 170; 85; 170];
   [221; 119; 221; 119; 221; 119; 221; 119; 221; 119; 221; 119; 221; 119; 221; 127];
   [24; 24; 24; 24; 24; 24; 24; 24; 24; 24; 24; 24; 24; 24; 24; 24];
   [24; 24; 24; 24; 24; 24; 24; 248; 24; 24; 24; 24; 24; 24; 24; 24];
   [24; 24; 24; 24; 24; 248; 24; 248; 24; 24; 24; 24; 24; 24; 24; 24];
   [54; 54; 54; 54; 54; 54; 54; 246; 54; 54; 54; 54; 54; 54; 54; 54];
   [0; 0; 0; 0; 0; 0; 0; 254; 54; 54; 54; 54; 54; 54; 54; 54];
   [0; 0; 0; 0; 0; 248; 24; 248; 24; 24; 24; 24; 24; 24; 24; 24];
   [54; 54; 54; 54; 54; 246; 6; 246; 54; 54; 54; 54; 54; 54; 54; 54];
   [54; 54; 54; 54; 54; 54; 54; 54; 54; 54; 54; 54; 54; 54; 54; 54];
   [0; 0; 0; 0; 0; 254; 6; 246; 54; 54; 54; 54; 54; 54; 54; 54];
   [54; 54; 54; 54; 54; 246; 6; 254; 0; 0; 0; 0; 0; 0; 0; 0];
   [54; 54; 54; 54; 54; 54; 54; 254; 0; 0; 0; 0; 0; 0; 0; 0];
   [24; 24; 24; 24; 24; 248; 24; 248; 0; 0; 0; 0; 0; 0; 0; 0];
   [0; 0; 0; 0; 0; 0; 0; 248; 24; 24; 24; 24; 24; 24; 24; 24];
   [24; 24; 24; 24; 24; 24; 24; 31; 0; 0; 0; 0; 0; 0; 0; 0];
   [24; 24; 24; 24; 24; 24; 24; 255; 0; 0; 0; 0; 0; 0; 0; 0];
   [0; 0; 0; 0; 0; 0; 0; 255; 24; 24; 24; 24; 24; 24; 24; 24];
   [24; 24; 24; 24; 24; 24; 24; 31; 24; 24; 24; 24; 24; 24; 24; 24];
   [0; 0; 0; 0; 0; 0; 0; 255; 0; 0; 0; 0; 0; 0; 0; 0];
   [24; 24; 24; 24; 24; 24; 24; 255; 24; 24; 24; 24; 24; 24; 24; 24];
   [24; 24; 24; 24; 24; 31; 24; 31; 24; 24; 24; 24; 24; 24; 24; 24];
   [54; 54; 54; 54; 54; 54; 54; 55; 54; 54; 54; 54; 54; 54; 54; 54];
   [54; 54; 54; 54; 54; 55; 48; 63; 0; 0; 0; 0; 0; 0; 0; 0];
   [0; 0; 0; 0; 0; 63; 48; 55; 54; 54; 54; 54; 54; 54; 54; 54];
   [54; 54; 54; 54; 54; 247; 0; 255; 0; 0; 0; 0; 0; 0; 0; 0];
   [0; 0; 0; 0; 0; 255; 0; 247; 54; 54; 54; 54; 54; 54; 54; 54];
   [54; 54; 54; 54; 54; 55; 48; 55; 54; 54; 54; 54; 54; 54; 54; 54];
   [0; 0; 0; 0; 0; 255; 0; 255; 0; 0; 0; 0; 0; 0; 0; 0];
   [54; 54; 54; 54; 54; 247; 0; 247; 54; 54; 54; 54; 54; 54; 54; 54];
   [24; 24; 24; 24; 24; 255; 0; 255; 0; 0; 0; 0; 0; 0; 0; 0];
   [54; 54; 54; 54; 54; 54; 54; 255; 0; 0; 0; 0; 0; 0; 0; 0];
   [0; 0; 0; 0; 0; 255; 0; 255; 24; 24; 24; 24; 24; 24; 24; 24];
   [0; 0; 0; 0; 0; 0; 0; 255; 54; 54; 54; 54; 54; 54; 54; 54];
   [54; 54; 54; 54; 54; 54; 54; 63; 0; 0; 0; 0; 0; 0; 0; 0];
   [24; 24; 24; 24; 24; 31; 24; 31; 0; 0; 0; 0; 0; 0; 0; 0];
   [0; 0; 0; 0; 0; 31; 24; 31; 24; 24; 24; 24; 24; 24; 24; 24];
   [0; 0; 0; 0; 0; 0; 0; 63; 54; 54; 54; 54; 54; 54; 54; 54];
   [54; 54; 54; 54; 54; 54; 54; 255; 54; 54; 54; 54; 54; 54; 54; 54];
   [24; 24; 24; 24; 24; 255; 24; 255; 24; 24; 24; 24; 24; 24; 24; 24];
   [24; 24; 24; 24; 24; 24; 24; 248; 0; 0; 0; 0; 0; 0; 0; 0];
   [0; 0; 0; 0; 0; 0; 0; 31; 24; 24; 24; 24; 24; 24; 24; 24];
   [255; 255; 255; 255; 255; 255; 255; 255; 255; 255; 255; 255; 255; 255; 255; 255];
   [0; 0; 0; 0; 0; 0; 0; 255; 255; 255; 255; 255; 255; 255; 255; 255];
   [240; 240; 240; 240; 240; 240; 240; 240; 240; 240; 240; 240; 240; 240; 240; 240];
   [15; 15; 15; 15; 15; 15; 15; 15; 15; 15; 15; 15; 15; 15; 15; 15];
   [255; 255; 255; 255; 255; 255; 255; 255; 0; 0; 0; 0; 0; 0; 0; 0];
   [0; 0; 0; 0; 0; 116; 220; 200; 200; 200; 220; 118; 0; 0; 0; 0];
   [0; 0; 120; 204; 204; 216; 204; 198; 198; 198; 220; 192; 64; 0; 0; 0];
   [0; 0; 254; 98; 96; 96; 96; 96; 96; 96; 96; 240; 0; 0; 0; 0];
   [0; 0; 0; 0; 2; 126; 236; 108; 108; 108; 108; 72; 0; 0; 0; 0];
   [0; 0; 254; 194; 96; 48; 24; 48; 96; 192; 194; 254; 0; 0; 0; 0];
   [0; 0; 0; 0; 0; 126; 208; 200; 200; 200; 200; 112; 0; 0; 0; 0];
   [0; 0; 0; 0; 0; 204; 204; 204; 204; 204; 204; 248; 128; 128; 0; 0];
   [0; 0; 0; 0; 0; 126; 216; 24; 24; 24; 24; 16; 0; 0; 0; 0];
   [0; 0; 56; 16; 124; 214; 214; 214; 214; 124; 16; 56; 0; 0; 0; 0];
   [0; 0; 0; 124; 198; 198; 198; 254; 198; 198; 198; 124; 0; 0; 0; 0];
   [0; 0; 124; 198; 198; 198; 198; 198; 108; 40; 40; 238; 0; 0; 0; 0];
   [0; 0; 60; 98; 48; 24; 124; 204; 204; 204; 204; 120; 0; 0; 0; 0];
   [0; 0; 0; 0; 0; 110; 219; 219; 219; 118; 0; 0; 0; 0; 0; 0];
   [0; 0; 0; 2; 6; 124; 206; 222; 214; 246; 230; 124; 192; 128; 0; 0];
   [0; 0; 0; 0; 0; 60; 96; 192; 248; 192; 96; 60; 0; 0; 0; 0];
   [0; 0; 124; 198; 198; 198; 198; 198; 198; 198; 198; 198; 0; 0; 0; 0];
   [0; 0; 0; 0; 254; 0; 0; 254; 0; 0; 254; 0; 0; 0; 0; 0];
   [0; 0; 0; 0; 24; 24; 126; 24; 24; 0; 0; 255; 0; 0; 0; 0];
   [0; 0; 0; 96; 48; 24; 12; 24; 48; 96; 0; 254; 0; 0; 0; 0];
   [0; 0; 0; 12; 24; 48; 96; 48; 24; 12; 0; 254; 0; 0; 0; 0];
   [0; 0; 14; 27; 27; 24; 24; 24; 24; 24; 24; 24; 24; 24; 24; 24];
   [24; 24; 24; 24; 24; 24; 24; 24; 24; 216; 216; 112; 0; 0; 0; 0];
   [0; 0; 0; 0; 24; 24; 0; 126; 0; 24; 24; 0; 0; 0; 0; 0];
   [0; 0; 0; 0; 0; 118; 220; 0; 118; 220; 0; 0; 0; 0; 0; 0];
   [0; 56; 108; 108; 56; 0; 0; 0; 0; 0; 0; 0; 0; 0; 0; 0];
   [0; 0; 0; 0; 0; 0; 0; 48; 48; 0; 0; 0; 0; 0; 0; 0];
   [0; 0; 0; 0; 0; 0; 0; 0; 48; 0; 0; 0; 0; 0; 0; 0];
   [0; 15; 12; 12; 12; 12; 12; 236; 108; 108; 60; 28; 0; 0; 0; 0];
   [0; 216; 108; 108; 108; 108; 0; 0; 0; 0; 0; 0; 0; 0; 0; 0];
   [0; 56; 76; 12; 24; 48; 124; 0; 0; 0; 0; 0; 0; 0; 0; 0];
   [0; 0; 0; 0; 124; 124; 124; 124; 124; 124; 124; 0; 0; 0; 0; 0];
   [0; 0; 0; 0; 0; 0; 0; 0; 0; 0; 0; 0; 0; 0; 0; 0]].

Definition font_8x16 : list (list Z) := font_low ++ font_high.

(** Every glyph is sixteen bytes. *)
Lemma font_shape :
  forallb (λ g, bool_decide (length g = 16%nat) && forallb (λ b, (0 <=? b) && (b <? 256)) g) font_8x16 = true ∧
  length font_8x16 = 224%nat.
Proof. split; vm_compute; reflexivity. Qed.
