(* ===== verification/Tty.v ===== *)
(** * The console: log/tty.c

    Characters are drawn in cells of 9 by 17 pixels of a linear framebuffer
    of 32-bit pixels, here a map from pixel numbers to colours.  A [char] is
    signed.  [kprintf]'s variable arguments are a list. *)

From S2P Require Import Prelude Digits Font.
Local Open Scope Z_scope.
Local Open Scope kernel_scope.

Record tty := MkTty {
  char_width : Z; char_height : Z; tty_fb_width : Z; tty_fb_height : Z; row : Z; column : Z;
  pixels : gmap Z Z
}.

Definition tty_init (width height : Z) : M tty unit :=
  modify (λ s, MkTty (width `div` 9) (height `div` 17) width height 0 0 (pixels s)).

Definition set_cursor (r c : Z) : M tty unit :=
  modify (λ s, MkTty (char_width s) (char_height s) (tty_fb_width s) (tty_fb_height s) r c (pixels s)).

(** [framebuffer[index] = color]. *)
Definition set_pixel (index color : Z) : M tty unit :=
  modify (λ s, MkTty (char_width s) (char_height s) (tty_fb_width s) (tty_fb_height s) (row s) (column s)
    (<[index := color]> (pixels s))).

(** A byte as a signed char. *)
Definition schar (b : Z) : Z := if b <? 128 then b else b - 256.

(** [font_8x16[c - 32]]; outside the table lies other memory. *)
Definition glyph (c : Z) : M tty (list Z) := λ s,
  if (32 <=? c) then
    match font_8x16 !! Z.to_nat (c - 32) with Some g => Ok (g, s) | None => Fault c end
  else Fault c.

(** The pixels of one row, [i] counting down from [n - 1]. *)
Fixpoint draw_row (byte : Z) (n : nat) (x y : Z) : M tty unit :=
  match n with
  | O => mret tt
  | S i =>
      w ← gets tty_fb_width;
      let index := u32 (u32 (y * w) + x) in
      set_pixel index (if Z.testbit byte (Z.of_nat i) then 0xffffff else 0x0);;
      draw_row byte i (u32 (x + 1)) y
  end.

Fixpoint draw_rows (data : list Z) (x y : Z) : M tty unit :=
  match data with
  | [] => mret tt
  | byte :: rest => draw_row (schar byte) 9 x y;; draw_rows rest x (u32 (y + 1))
  end.

Definition tty_kputchar_at (x y c : Z) : M tty unit :=
  w ← gets tty_fb_width;
  h ← gets tty_fb_height;
  let x := if w <=? x then 0 else x in
  let y := if h <=? y then 0 else y in
  let x := u32 (x * 9) in
  let y := u32 (y * 17) in
  data ← glyph c;
  draw_rows data x y.

Definition newline : Z := 10.

Definition tty_kputchar (c : Z) : M tty unit :=
  s ← gets id;
  (if tty_fb_height s <=? row s then set_cursor 0 (column s) else mret tt);;
  s ← gets id;
  (if tty_fb_width s <=? column s then set_cursor (row s) 0 else mret tt);;
  s ← gets id;
  if c =? newline then
    set_cursor ((if char_height s <? row s then 0 else row s) + 1) 0
  else
    tty_kputchar_at (u32 (column s)) (u32 (row s)) c;;
    s ← gets id;
    if char_width s <? column s + 1 then set_cursor (row s + 1) 0
    else set_cursor (row s) (column s + 1).

Definition kputchar (c : Z) : M tty unit := tty_kputchar c.

(** A C string is the list of its characters. *)
Fixpoint kputs (str : list Z) : M tty unit :=
  match str with [] => mret tt | c :: str' => kputchar c;; kputs str' end.

(** ** Numbers *)

(** The swaps of [reverse]; [n] is the number still to do. *)
Fixpoint reverse_loop (n start stop : nat) (buf : list Z) : list Z :=
  if (start <? stop)%nat then
    match n with
    | O => buf
    | S n' =>
        let a := nth start buf 0 in let b := nth stop buf 0 in
        reverse_loop n' (S start) (pred stop) (<[stop := a]> (<[start := b]> buf))
    end
  else buf.

Definition reverse (buf : list Z) (length : nat) : list Z := reverse_loop length 0 (pred length) buf.

Definition digit_char (r : Z) : Z := if 9 <? r then r - 10 + 97 else r + 48.

(** The do-while loop: a 64-bit value has at most 64 digits. *)
Fixpoint itoa_loop (fuel : nat) (value base : Z) (i : nat) (buf : list Z) : res (nat * list Z) :=
  match fuel with
  | O => NoFuel
  | S fuel' =>
      match buf_set i (digit_char (value mod base)) buf with
      | Ok buf' =>
          if value `div` base =? 0 then Ok (S i, buf') else itoa_loop fuel' (value `div` base) base (S i) buf'
      | Panic m => Panic m
      | Fault a => Fault a
      | NoFuel => NoFuel
      end
  end.

(** The buffer afterwards; the string in it ends at the first zero. *)
Definition itoa (value base : Z) (buf : list Z) : res (list Z) :=
  if (base <? 2) || (36 <? base) then buf_set 0 0 buf else
  match itoa_loop 64 value base 0 buf with
  | Ok (i, buf') => buf_set i 0 (reverse buf' i)
  | Panic m => Panic m
  | Fault a => Fault a
  | NoFuel => NoFuel
  end.

(** ** kprintf *)

Inductive varg := VStr (s : list Z) | VInt (n : Z).

(** [va_arg]: the next argument, read as an integer or as a string. *)
Definition kput_number (buffer : list Z) (base n : Z) : M tty (list Z) := λ s,
  match itoa (u64 n) base buffer with
  | Ok buf => (kputs (cstr buf);; mret buf) s
  | Panic m => Panic m
  | Fault a => Fault a
  | NoFuel => NoFuel
  end.

Fixpoint kprintf (buffer format : list Z) (args : list varg) : M tty unit :=
  match format with
  | [] => mret tt
  | c :: rest =>
      if negb (c =? 37) then kputchar c;; kprintf buffer rest args else
      match rest with
      | [] => mret tt
      | k :: rest' =>
          if k =? 115 then
            match args with VStr s :: args' => kputs s;; kprintf buffer rest' args' | _ => fault 0 end
          else if k =? 99 then
            match args with VInt n :: args' => kputchar (schar (u8 n));; kprintf buffer rest' args' | _ => fault 0 end
          else if k =? 100 then
            match args with
            | VInt n :: args' => buf ← kput_number buffer 10 n; kprintf buf rest' args'
            | _ => fault 0
            end
          else if k =? 120 then
            match args with
            | VInt n :: args' => buf ← kput_number buffer 16 n; kprintf buf rest' args'
            | _ => fault 0
            end
          else kprintf buffer rest' args
      end
  end.

Definition BUFFER_SIZE : nat := 21.

Example run_itoa :
  match itoa 18446744073709551615 10 (replicate BUFFER_SIZE 7) with
  | Ok b => cstr b = chars "18446744073709551615"
  | _ => False
  end.
Proof. vm_compute. reflexivity. Qed.

(** ** Numbers: lemmas *)

Definition number_string (base v : Z) : list Z := rev (map digit_char (digits 64 base v)).

(** The value a string of digits denotes. *)
Definition char_digit (c : Z) : Z := if c <? 58 then c - 48 else c - 97 + 10.
Definition decode (base : Z) (str : list Z) : Z := foldl (λ n c, n * base + char_digit c) 0 str.

Lemma digit_roundtrip d : 0 ≤ d < 36 → char_digit (digit_char d) = d ∧ digit_char d ≠ 0.
Proof.
  intros. unfold char_digit, digit_char. destruct (Z.ltb_spec 9 d).
  - destruct (Z.ltb_spec (d - 10 + 97) 58); lia.
  - destruct (Z.ltb_spec (d + 48) 58); lia.
Qed.

Lemma decode_digits base ds :
  base ≤ 36 → Forall (λ d, 0 ≤ d < base) ds →
  decode base (rev (map digit_char ds)) = foldr (λ d n, n * base + d) 0 ds.
Proof.
  intros Hb. unfold decode. induction 1 as [|d ds Hd _ IH]; simpl; [done|].
  rewrite foldl_app, IH. simpl. destruct (digit_roundtrip d) as [-> _]; [lia|done].
Qed.

Lemma itoa_loop_spec fuel v base i a m r :
  2 ≤ base → 0 ≤ v < base ^ Z.of_nat fuel → (0 < fuel)%nat → length a = i →
  length m = length (digits fuel base v) →
  itoa_loop fuel v base i (a ++ m ++ r) =
    Ok ((i + length m)%nat, a ++ map digit_char (digits fuel base v) ++ r).
Proof.
  intros Hb. revert v i a m. induction fuel as [|fuel IH]; intros v i a m Hv Hf Ha Hm; [lia|].
  cbn [digits itoa_loop] in *. destruct m as [|x m]; [done|]. simpl in Hm. injection Hm as Hm.
  simpl app at 2. rewrite buf_set_at by done. rewrite Nat2Z.inj_succ, Z.pow_succ_r in Hv by lia.
  destruct (Z.eqb_spec (v `div` base) 0) as [E|E].
  - destruct m; [|done]. simpl. do 2 f_equal. lia.
  - destruct fuel as [|fuel]; [simpl in Hv; exfalso; apply E, Z.div_small; lia|].
    change (a ++ digit_char (v mod base) :: m ++ r) with (a ++ [digit_char (v mod base)] ++ m ++ r).
    rewrite (assoc_L (++)). rewrite IH; [|split; [apply Z.div_pos; lia|apply Z.div_lt_upper_bound; lia]|lia| |done].
    + simpl length. rewrite <-(assoc_L (++)). do 2 f_equal. lia.
    + rewrite length_app. simpl. lia.
Qed.

(** The swaps reverse the segment they cover. *)
Lemma reverse_loop_spec n a m r :
  (length m ≤ n)%nat →
  reverse_loop n (length a) (length a + length m - 1) (a ++ m ++ r) = a ++ rev m ++ r.
Proof.
  revert a m r. induction n as [|n IH]; intros a m r Hn.
  { destruct m; [|simpl in Hn; lia]. simpl. destruct (_ <? _)%nat; done. }
  destruct m as [|x m]; [simpl; destruct (Nat.ltb_spec (length a) (length a + 0 - 1)); [lia|done]|].
  destruct m as [|y m _] using rev_ind.
  { simpl. destruct (Nat.ltb_spec (length a) (length a + 1 - 1)); [lia|done]. }
  cbn [reverse_loop]. simpl length. rewrite length_app. simpl length.
  rewrite (proj2 (Nat.ltb_lt _ _)) by lia.
  assert (nth (length a) (a ++ (x :: m ++ [y]) ++ r) 0 = x) as ->.
  { rewrite app_nth2 by lia. by rewrite Nat.sub_diag. }
  assert (nth (length a + S (length m + 1) - 1) (a ++ (x :: m ++ [y]) ++ r) 0 = y) as ->.
  { rewrite app_nth2 by lia. replace (length a + S (length m + 1) - 1 - length a)%nat with (S (length m)) by lia.
    simpl. rewrite <-(assoc_L (++)). rewrite app_nth2 by lia. by rewrite Nat.sub_diag. }
  assert (<[(length a + S (length m + 1) - 1)%nat := x]> (<[length a := y]> (a ++ (x :: m ++ [y]) ++ r)) =
    (a ++ [y]) ++ m ++ x :: r) as ->.
  { simpl. rewrite insert_middle. replace (length a + S (length m + 1) - 1)%nat with (length (a ++ y :: m)) by (rewrite length_app; simpl; lia).
    rewrite <-(assoc_L (++)). simpl.
    replace (a ++ y :: m ++ y :: r) with ((a ++ y :: m) ++ y :: r) by (by rewrite <-(assoc_L (++))).
    rewrite insert_middle. by rewrite <-!(assoc_L (++)). }
  specialize (IH (a ++ [y]) m). rewrite length_app in IH. simpl length in IH.
  replace (S (length a)) with (length a + 1)%nat by lia.
  replace (pred (length a + S (length m + 1) - 1)) with (length a + 1 + length m - 1)%nat by lia.
  rewrite (IH (x :: r)) by (simpl in Hn; rewrite length_app in Hn; simpl in Hn; lia).
  simpl. rewrite rev_app_distr. simpl. by rewrite <-!(assoc_L (++)).
Qed.

Lemma reverse_spec (l r : list Z) : reverse (l ++ r) (length l) = rev l ++ r.
Proof.
  unfold reverse. pose proof (reverse_loop_spec (length l) [] l r ltac:(lia)) as H. simpl in H.
  by replace (pred (length l)) with (length l - 1)%nat by lia.
Qed.

Lemma digits_bound base v : 10 ≤ base → 0 ≤ v < 2 ^ 64 → 0 ≤ v < base ^ 20 ∧ 0 ≤ v < base ^ 64.
Proof.
  intros Hb Hv. assert (10 ^ 20 ≤ base ^ 20) by (apply Z.pow_le_mono_l; lia).
  assert (10 ^ 64 ≤ base ^ 64) by (apply Z.pow_le_mono_l; lia). lia.
Qed.

Lemma number_string_spec base v :
  10 ≤ base ≤ 36 → 0 ≤ v < 2 ^ 64 →
  decode base (number_string base v) = v ∧ (1 ≤ length (number_string base v) ≤ 20)%nat ∧
  Forall (λ c, c ≠ 0) (number_string base v) ∧
  (v ≠ 0 → hd_error (number_string base v) ≠ Some 48).
Proof.
  intros Hb Hv. destruct (digits_bound base v ltac:(lia) Hv) as [H20 H64]. unfold number_string.
  destruct (digits_value 64 base v ltac:(lia) H64) as [Hval Hds].
  pose proof (digits_length 64 base v 20 ltac:(lia) H20 ltac:(lia)) as Hlen.
  split_and!.
  - by rewrite decode_digits by (done || lia).
  - rewrite length_rev, length_map. cbn [digits length]. lia.
  - by rewrite length_rev, length_map.
  - apply Forall_rev, Forall_map. eapply Forall_impl; [exact Hds|]. intros d Hd. cbn beta in Hd |- *.
    apply digit_roundtrip. lia.
  - intros Hv0. assert (0 < v) as Hpos by (clear -Hv Hv0; lia).
    destruct (digits_last 64 base v ltac:(lia) (conj Hpos (proj2 H64))) as (d & Hd & Hd0).
    apply last_Some in Hd as [l' El]. rewrite El in Hds |- *. rewrite map_app, rev_app_distr. simpl.
    apply Forall_app in Hds as [_ [Hd _]%Forall_cons]. intros [= Hc]. unfold digit_char in Hc.
    destruct (Z.ltb_spec 9 d); lia.
Qed.

Lemma itoa_spec base v buf :
  10 ≤ base ≤ 36 → 0 ≤ v < 2 ^ 64 → length buf = BUFFER_SIZE →
  ∃ r, itoa v base buf = Ok (number_string base v ++ 0 :: r) ∧
    length (number_string base v ++ 0 :: r) = BUFFER_SIZE.
Proof.
  intros Hb Hv Hbuf. destruct (digits_bound base v ltac:(lia) Hv) as [H20 H64].
  destruct (number_string_spec base v Hb Hv) as (_ & [_ Hlen] & _ & _).
  unfold number_string in Hlen. rewrite length_rev, length_map in Hlen. unfold BUFFER_SIZE in *.
  unfold itoa. rewrite (proj2 (Z.ltb_ge base 2)), (proj2 (Z.ltb_ge 36 base)) by lia. cbn [orb].
  set (ds := digits 64 base v) in *.
  rewrite <-(take_drop (length ds) buf).
  pose proof (itoa_loop_spec 64 v base 0 [] (take (length ds) buf) (drop (length ds) buf)
    ltac:(lia) H64 ltac:(lia) eq_refl) as E.
  fold ds in E. cbn [app] in E. rewrite E by (rewrite length_take; lia).
  rewrite length_take, Nat.min_l by lia. cbn [Nat.add]. cbv beta iota.
  pose proof (reverse_spec (map digit_char ds) (drop (length ds) buf)) as Er.
  rewrite length_map in Er. rewrite Er. unfold number_string. fold ds. clear E Er. clearbody ds.
  destruct (drop (length ds) buf) as [|x r] eqn:Ed.
  { apply (f_equal length) in Ed. rewrite length_drop in Ed. simpl in Ed. lia. }
  exists r. split.
  - apply buf_set_at. by rewrite length_rev, length_map.
  - apply (f_equal length) in Ed. rewrite length_drop in Ed. rewrite length_app, length_rev, length_map.
    simpl in *. lia.
Qed.

(** ** kprintf: lemmas *)

(** What a format with its arguments expands to. *)
Fixpoint expand (format : list Z) (args : list varg) : option (list Z) :=
  match format with
  | [] => Some []
  | c :: rest =>
      if negb (c =? 37) then (c ::.) <$> expand rest args else
      match rest with
      | [] => Some []
      | k :: rest' =>
          if k =? 115 then
            match args with VStr s :: args' => (s ++.) <$> expand rest' args' | _ => None end
          else if k =? 99 then
            match args with VInt n :: args' => (schar (u8 n) ::.) <$> expand rest' args' | _ => None end
          else if k =? 100 then
            match args with
            | VInt n :: args' => (number_string 10 (u64 n) ++.) <$> expand rest' args'
            | _ => None
            end
          else if k =? 120 then
            match args with
            | VInt n :: args' => (number_string 16 (u64 n) ++.) <$> expand rest' args'
            | _ => None
            end
          else expand rest' args
      end
  end.

Lemma kputs_app a b s : kputs (a ++ b) s = (kputs a;; kputs b) s.
Proof.
  revert s. induction a as [|c a IH]; intros s; simpl; [done|].
  rewrite bind_assoc. unfold mbind, M_bind at 1 2. destruct (kputchar c s) as [[]| | |]; [|done..]. apply IH.
Qed.

(** Running the rest of the format after a common beginning. *)
Lemma bind_cong {B C : Type} (c : M tty B) (k1 k2 : B → M tty C) s :
  (∀ b s', k1 b s' = k2 b s') → (c ≫= k1) s = (c ≫= k2) s.
Proof. intros H. unfold mbind, M_bind. destruct (c s) as [[]| | |]; [apply H|done..]. Qed.

Lemma kput_number_spec base n buf k str s :
  10 ≤ base ≤ 36 → length buf = BUFFER_SIZE →
  (∀ buf' s', length buf' = BUFFER_SIZE → k buf' s' = kputs str s') →
  (kput_number buf base n ≫= k) s = kputs (number_string base (u64 n) ++ str) s.
Proof.
  intros Hb Hbuf Hk. rewrite kputs_app.
  destruct (itoa_spec base (u64 n) buf Hb (wrap_range 64 n ltac:(lia)) Hbuf) as (r & E & Hl).
  destruct (number_string_spec base (u64 n) Hb (wrap_range 64 n ltac:(lia))) as (_ & _ & H0 & _).
  unfold kput_number, mbind at 1, M_bind at 1. rewrite E, cstr_app by done.
  unfold mbind, M_bind, mret, M_ret. destruct (kputs (number_string base (u64 n)) s) as [[]| | |]; [|done..].
  by apply Hk.
Qed.

Lemma kprintf_expand n format args buf str s :
  (length format ≤ n)%nat → length buf = BUFFER_SIZE → expand format args = Some str →
  kprintf buf format args s = kputs str s.
Proof.
  revert format args buf str s. induction n as [|n IH]; intros [|c rest] args buf str s Hn Hbuf;
    cbn [expand kprintf]; simpl in Hn; try lia; try (by intros [= <-]).
  destruct (negb (c =? 37)).
  { intros (str' & E & ->)%fmap_Some. simpl. apply bind_cong. intros _ s'. apply IH; [lia|done..]. }
  destruct rest as [|k rest]; [by intros [= <-]|]. simpl in Hn.
  destruct (k =? 115).
  { destruct args as [|[str0|] args]; [done| |done]. intros (str' & E & ->)%fmap_Some.
    rewrite kputs_app. apply bind_cong. intros _ s'. apply IH; [lia|done..]. }
  destruct (k =? 99).
  { destruct args as [|[|m] args]; [done|done|]. intros (str' & E & ->)%fmap_Some. simpl.
    apply bind_cong. intros _ s'. apply IH; [lia|done..]. }
  destruct (k =? 100).
  { destruct args as [|[|m] args]; [done|done|]. intros (str' & E & ->)%fmap_Some.
    apply kput_number_spec; [lia|done|]. intros buf' s' Hb'. apply IH; [lia|done..]. }
  destruct (k =? 120).
  { destruct args as [|[|m] args]; [done|done|]. intros (str' & E & ->)%fmap_Some.
    apply kput_number_spec; [lia|done|]. intros buf' s' Hb'. apply IH; [lia|done..]. }
  apply IH; [lia|done].
Qed.

(** ** Drawing: lemmas *)

Definition pixel_color (byte : Z) (bit : Z) : Z := if Z.testbit byte bit then 0xffffff else 0x0.

Lemma wp_draw_row byte n x y s (Q : unit → tty → Prop) :
  let w := tty_fb_width s in
  0 ≤ w → 0 ≤ x → 0 ≤ y → y * w + x + Z.of_nat n < 2 ^ 32 →
  (∀ px, (∀ p, px !! p = if decide (y * w + x ≤ p < y * w + x + Z.of_nat n)
                         then Some (pixel_color byte (y * w + x + Z.of_nat n - 1 - p))
                         else pixels s !! p) →
     Q tt (MkTty (char_width s) (char_height s) (tty_fb_width s) (tty_fb_height s) (row s) (column s) px)) →
  wp (draw_row byte n x y) Q s.
Proof.
  intros w Hw Hx Hy. assert (0 ≤ y * w) as Hyw by nia. revert x s Hx w Hw Hyw Q.
  induction n as [|n IH]; intros x s Hx w Hw Hyw Q Hb HQ; cbn [draw_row].
  { apply wp_ret. destruct s. apply HQ. intros p. by rewrite decide_False by lia. }
  apply wp_bind, wp_gets. fold w. cbv zeta. rewrite (wrap_small 32 (y * w)), (wrap_small 32 (y * w + x)) by lia.
  apply wp_bind, wp_modify. rewrite (wrap_small 32) by lia.
  apply IH; cbn [tty_fb_width]; [lia|done|done|fold w; lia|]. fold w. intros px Hpx. apply HQ.
  intros p. rewrite (Hpx p). cbn [pixels].
  destruct (decide (p = y * w + x)) as [->|Hp].
  - rewrite decide_False, lookup_insert_eq by lia. rewrite decide_True by lia.
    f_equal. transitivity (pixel_color byte (Z.of_nat n)); [done|]. f_equal. lia.
  - rewrite lookup_insert_ne by done. repeat case_decide; try lia; try done. do 2 f_equal. lia.
Qed.

(** The pixel of column [k] and line [j] of the cell at pixel ([x], [y]). *)
Definition cell (w x y : Z) (j : nat) (k : Z) : Z := (y + Z.of_nat j) * w + x + k.

Lemma wp_draw_rows data x y s (Q : unit → tty → Prop) :
  let w := tty_fb_width s in
  0 ≤ x → x + 9 ≤ w → 0 ≤ y → (y + Z.of_nat (length data)) * w < 2 ^ 32 → y + Z.of_nat (length data) < 2 ^ 32 →
  (∀ px, (∀ j k b, data !! j = Some b → 0 ≤ k < 9 →
            px !! cell w x y j k = Some (pixel_color (schar b) (8 - k))) →
     (∀ p, (∀ j k, (j < length data)%nat → 0 ≤ k < 9 → p ≠ cell w x y j k) → px !! p = pixels s !! p) →
     Q tt (MkTty (char_width s) (char_height s) (tty_fb_width s) (tty_fb_height s) (row s) (column s) px)) →
  wp (draw_rows data x y) Q s.
Proof.
  intros w Hx Hxw. revert y s w Hxw Q. induction data as [|b data IH]; intros y s w Hxw Q Hy Hb Hb' HQ;
    cbn [draw_rows].
  { apply wp_ret. destruct s. apply HQ; [done|]. done. }
  simpl length in *. apply wp_bind. assert (0 ≤ y * w) by nia.
  apply wp_draw_row; fold w; [lia|lia|lia|nia|]. intros px Hpx.
  rewrite (wrap_small 32) by lia. apply IH; cbn [tty_fb_width]; fold w; [lia|lia|lia|lia|].
  intros px' Hin Hout. apply HQ.
  - intros [|j] k b' Hj Hk.
    + injection Hj as <-. rewrite Hout.
      * cbn [pixels]. rewrite Hpx. unfold cell. rewrite decide_True by nia. do 2 f_equal. unfold cell. lia.
      * intros j' k' _ Hk'. unfold cell. nia.
    + replace (cell w x y (S j) k) with (cell w x (y + 1) j k) by (unfold cell; lia). by apply Hin.
  - intros p Hp. rewrite Hout.
    + cbn [pixels]. rewrite Hpx. rewrite decide_False; [done|]. intros Hr.
      apply (Hp 0%nat (p - (y * w + x))); [lia|lia|]. unfold cell. lia.
    + intros j k Hj Hk ->. apply (Hp (S j) k); [lia|done|]. unfold cell. lia.
Qed.

(** ** Claims *)

(** A character drawn in a cell that lies on the screen sets exactly the
    pixels of that cell, each to the colour of its bit in the font, and no
    pixel outside the framebuffer. *)
Theorem tty_kputchar_at_draws x y c g s :
  let w := tty_fb_width s in let h := tty_fb_height s in
  0 ≤ x → 9 * x + 9 ≤ w → 0 ≤ y → 17 * y + 16 ≤ h → w * h < 2 ^ 32 →
  32 ≤ c → font_8x16 !! Z.to_nat (c - 32) = Some g → length g = 16%nat →
  wp (tty_kputchar_at x y c) (λ _ s',
    (∀ j k b, g !! j = Some b → 0 ≤ k < 9 →
       0 ≤ cell w (9 * x) (17 * y) j k < w * h ∧
       pixels s' !! cell w (9 * x) (17 * y) j k = Some (pixel_color (schar b) (8 - k))) ∧
    (∀ p, (∀ j k, (j < 16)%nat → 0 ≤ k < 9 → p ≠ cell w (9 * x) (17 * y) j k) →
       pixels s' !! p = pixels s !! p)) s.
Proof.
  intros w h Hx Hxw Hy Hyh Hwh Hc Hg Hlen. unfold tty_kputchar_at.
  apply wp_bind, wp_gets. apply wp_bind, wp_gets. fold w h. cbv zeta.
  rewrite (proj2 (Z.leb_gt w x)), (proj2 (Z.leb_gt h y)) by lia.
  assert (w < 2 ^ 32 ∧ h < 2 ^ 32) as [Hw32 Hh32] by nia.
  rewrite !(wrap_small 32) by lia. apply wp_bind.
  unfold glyph, wp at 1. rewrite (proj2 (Z.leb_le 32 c)), Hg by lia.
  rewrite (Z.mul_comm x), (Z.mul_comm y).
  apply wp_draw_rows; fold w; rewrite ?Hlen; [lia|lia|lia| |lia|].
  { apply Z.le_lt_trans with (h * w); [apply Z.mul_le_mono_nonneg_r; lia|lia]. }
  intros px Hin Hout. cbn [pixels]. split; [|exact Hout].
  intros j k b Hj Hk. split; [|by apply Hin].
  apply lookup_lt_Some in Hj as Hj'. rewrite Hlen in Hj'. unfold cell.
  assert ((17 * y + Z.of_nat j) * w ≤ (h - 1) * w) by (apply Z.mul_le_mono_nonneg_r; lia). nia.
Qed.

(** [itoa] prints every 64-bit number in the bases [kprintf] uses: the
    string is at most 20 characters, so that it fits the 21-byte buffer with
    its terminator, it denotes the number, and it has no leading zero. *)
Theorem itoa_prints base v buf :
  10 ≤ base ≤ 36 → 0 ≤ v < 2 ^ 64 → length buf = 21%nat →
  ∃ buf', itoa v base buf = Ok buf' ∧ length buf' = 21%nat ∧ decode base (cstr buf') = v ∧
    (1 ≤ length (cstr buf') ≤ 20)%nat ∧ (v ≠ 0 → hd_error (cstr buf') ≠ Some 48).
Proof.
  intros Hb Hv Hbuf. destruct (itoa_spec base v buf Hb Hv Hbuf) as (r & E & Hl).
  destruct (number_string_spec base v Hb Hv) as (H1 & H2 & H3 & H4).
  eexists. split; [exact E|]. split; [exact Hl|]. rewrite cstr_app by done. done.
Qed.

(** [kprintf] prints the expansion of its format: running it is the same,
    for every state of the console, as printing the format with each
    conversion replaced by its argument. *)
Theorem kprintf_expands buf format args str s :
  length buf = 21%nat → expand format args = Some str → kprintf buf format args s = kputs str s.
Proof. intros Hb He. by apply (kprintf_expand (length format)). Qed.

Definition tty_640 : tty := MkTty 71 28 640 480 0 0 ∅.

(** Whether a pixel was drawn outside the framebuffer. *)
Definition drew_outside (s : tty) : bool :=
  existsb (λ p, (p.1 <? 0) || (tty_fb_width s * tty_fb_height s <=? p.1)) (map_to_list (pixels s)).

(** The cursor leaves the screen.  Rows are compared with the height of
    the framebuffer in pixels, and a new line only after row [char_height]
    starts over: on a 640 by 480 screen, which holds 28 rows, one character
    after 29 new lines is drawn behind the end of the framebuffer. *)
Theorem tty_draws_outside :
  match (kputs (replicate 29 newline ++ [65])) tty_640 with
  | Ok (_, s) => drew_outside s = true
  | _ => False
  end.
Proof. vm_compute. reflexivity. Qed.

(** A control character other than a new line is looked up before the
    start of the font, whatever the state of the console. *)
Theorem tty_control_character c s :
  -128 ≤ c < 32 → c ≠ newline → kputchar c s = Fault c.
Proof.
  intros Hc Hn. unfold kputchar, tty_kputchar, mbind, M_bind, gets, id, set_cursor, modify, mret, M_ret.
  assert (∀ x y s', tty_kputchar_at x y c s' = Fault c) as Hf.
  { intros x y s'. unfold tty_kputchar_at, mbind, M_bind, gets, glyph.
    by rewrite (proj2 (Z.leb_gt 32 c)) by lia. }
  rewrite (proj2 (Z.eqb_neq _ _) Hn).
  by destruct (tty_fb_height s <=? row s); cbn beta iota; cbn [tty_fb_width column];
    destruct (tty_fb_width s <=? column s); rewrite Hf.
Qed.

(** ** Witnesses *)

Lemma tty_kputchar_at_draws_witness :
  wp (tty_kputchar_at 3 2 65) (λ _ s', pixels s' !! cell 640 27 34 2 4 = Some 0xffffff) tty_640.
Proof.
  refine (wp_mono _ _ _ _ (tty_kputchar_at_draws 3 2 65
    [0; 0; 56; 108; 198; 198; 198; 254; 198; 198; 198; 198; 0; 0; 0; 0] tty_640 _ _ _ _ _ _ _ _) _).
  - lia.
  - simpl. lia.
  - lia.
  - simpl. lia.
  - simpl. lia.
  - lia.
  - reflexivity.
  - reflexivity.
  - intros _ s' [H _]. destruct (H 2%nat 4 56 eq_refl ltac:(lia)) as [_ H2]. exact H2.
Defined.

Lemma itoa_prints_witness :
  ∃ buf', itoa (2 ^ 64 - 1) 10 (replicate 21 0) = Ok buf' ∧ decode 10 (cstr buf') = 2 ^ 64 - 1.
Proof.
  destruct (itoa_prints 10 (2 ^ 64 - 1) (replicate 21 0)) as (buf' & H1 & _ & H2 & _).
  - lia.
  - lia.
  - reflexivity.
  - exists buf'. split; [exact H1|exact H2].
Defined.

Lemma kprintf_expands_witness :
  kprintf (replicate 21 0) (chars "v=%d %s %x") [VInt 10; VStr (chars "ok"); VInt 255] tty_640 =
  kputs (chars "v=10 ok ff") tty_640.
Proof.
  apply (kprintf_expands (replicate 21 0) (chars "v=%d %s %x") [VInt 10; VStr (chars "ok"); VInt 255]
    (chars "v=10 ok ff") tty_640).
  - reflexivity.
  - vm_compute. reflexivity.
Defined.

Lemma tty_control_character_witness : kputchar 9 tty_640 = Fault 9.
Proof. apply tty_control_character; [lia|discriminate]. Defined.
