(* ===== verification/Npf.v ===== *)
(** * nanoprintf: include/nanoprintf.h as log.c configures it

    Field widths, precisions, large and binary conversions are compiled in,
    floating point and write-back are not; the compiler is one that provides
    [__builtin_clzll].  Characters are bytes; a C string is the list of its
    characters, so reading [*cur] at the end of the list gives zero.  Signed
    overflow, which C leaves undefined, is a [Fault], as is a missing
    argument.  The formatter writes through a callback [pc] with a state
    of its own. *)

From S2P Require Import Prelude Digits.
Local Open Scope Z_scope.
Local Open Scope kernel_scope.

#[export] Instance res_ret : MRet res := @Ok.
#[export] Instance res_bind : MBind res := λ A B k c,
  match c with
  | Ok a => k a
  | Panic msg => Panic msg
  | Fault addr => Fault addr
  | NoFuel => NoFuel
  end.

Definition lift {S A : Type} (r : res A) : M S A := λ s,
  match r with
  | Ok a => Ok (a, s)
  | Panic msg => Panic msg
  | Fault addr => Fault addr
  | NoFuel => NoFuel
  end.

(** ** Integers of C *)

Definition INT_MIN : Z := - 2 ^ 31.
Definition INT_MAX : Z := 2 ^ 31 - 1.

(** The value of an expression of type [int]. *)
Definition int (v : Z) : res Z := if (INT_MIN <=? v) && (v <=? INT_MAX) then Ok v else Fault v.

(** A conversion to a signed type of [w] bits. *)
Definition sint (w v : Z) : Z := let m := wrap w v in if m <? 2 ^ (w - 1) then m else m - 2 ^ w.

(** ** The format specification *)

Inductive npf_opt :=
| NPF_FMT_SPEC_OPT_NONE
| NPF_FMT_SPEC_OPT_LITERAL
| NPF_FMT_SPEC_OPT_STAR.

Inductive npf_len_mod :=
| NPF_FMT_SPEC_LEN_MOD_NONE
| NPF_FMT_SPEC_LEN_MOD_SHORT
| NPF_FMT_SPEC_LEN_MOD_LONG_DOUBLE
| NPF_FMT_SPEC_LEN_MOD_CHAR
| NPF_FMT_SPEC_LEN_MOD_LONG
| NPF_FMT_SPEC_LEN_MOD_LARGE_LONG_LONG
| NPF_FMT_SPEC_LEN_MOD_LARGE_INTMAX
| NPF_FMT_SPEC_LEN_MOD_LARGE_SIZET
| NPF_FMT_SPEC_LEN_MOD_LARGE_PTRDIFFT.

Inductive npf_conv :=
| NPF_FMT_SPEC_CONV_NONE
| NPF_FMT_SPEC_CONV_PERCENT
| NPF_FMT_SPEC_CONV_CHAR
| NPF_FMT_SPEC_CONV_STRING
| NPF_FMT_SPEC_CONV_SIGNED_INT
| NPF_FMT_SPEC_CONV_BINARY
| NPF_FMT_SPEC_CONV_OCTAL
| NPF_FMT_SPEC_CONV_HEX_INT
| NPF_FMT_SPEC_CONV_UNSIGNED_INT
| NPF_FMT_SPEC_CONV_POINTER.

#[export] Instance npf_opt_eq_dec : EqDecision npf_opt.
Proof. solve_decision. Defined.
#[export] Instance npf_len_mod_eq_dec : EqDecision npf_len_mod.
Proof. solve_decision. Defined.
#[export] Instance npf_conv_eq_dec : EqDecision npf_conv.
Proof. solve_decision. Defined.

(** The two flags are only tested against zero. *)
Record npf_format_spec := MkSpec {
  field_width : Z;
  field_width_opt : npf_opt;
  left_justified : bool;
  leading_zero_pad : bool;
  prec : Z;
  prec_opt : npf_opt;
  prepend : Z;
  alt_form : bool;
  case_adjust : Z;
  length_modifier : npf_len_mod;
  conv_spec : npf_conv
}.

Definition npf_max (x y : Z) : Z := if y <? x then x else y.

(** ** npf_parse_format_spec *)

(** The flags after the percent sign. *)
Fixpoint npf_parse_flags (cur : list Z) (ljust zero : bool) (pre : Z) (alt : bool) :
    list Z * (bool * bool * Z * bool) :=
  match cur with
  | [] => (cur, (ljust, zero, pre, alt))
  | c :: cur' =>
      if c =? ch "-" then npf_parse_flags cur' true false pre alt
      else if c =? ch "0" then npf_parse_flags cur' ljust (negb ljust) pre alt
      else if c =? ch "+" then npf_parse_flags cur' ljust zero (ch "+") alt
      else if c =? ch " " then npf_parse_flags cur' ljust zero (if pre =? 0 then ch " " else pre) alt
      else if c =? ch "#" then npf_parse_flags cur' ljust zero pre true
      else (cur, (ljust, zero, pre, alt))
  end.

Definition is_digit (c : Z) : bool := (ch "0" <=? c) && (c <=? ch "9").

Fixpoint npf_parse_digits (cur : list Z) (v : Z) : res (list Z * Z) :=
  match cur with
  | c :: cur' =>
      if is_digit c then
        v10 ← int (v * 10);
        v' ← int (v10 + (c - ch "0"));
        npf_parse_digits cur' v'
      else Ok (cur, v)
  | [] => Ok (cur, v)
  end.

Definition npf_parse_width (cur : list Z) : res (list Z * (Z * npf_opt)) :=
  if hd 0 cur =? ch "*" then Ok (tail cur, (0, NPF_FMT_SPEC_OPT_STAR))
  else
    r ← npf_parse_digits cur 0;
    Ok (fst r, (snd r, if is_digit (hd 0 cur) then NPF_FMT_SPEC_OPT_LITERAL else NPF_FMT_SPEC_OPT_NONE)).

Definition npf_parse_prec (cur : list Z) : res (list Z * (Z * npf_opt)) :=
  if hd 0 cur =? ch "." then
    let cur := tail cur in
    if hd 0 cur =? ch "*" then Ok (tail cur, (0, NPF_FMT_SPEC_OPT_STAR))
    else if hd 0 cur =? ch "-" then
      r ← npf_parse_digits (tail cur) 0;
      Ok (fst r, (snd r, NPF_FMT_SPEC_OPT_NONE))
    else
      r ← npf_parse_digits cur 0;
      Ok (fst r, (snd r, NPF_FMT_SPEC_OPT_LITERAL))
  else Ok (cur, (0, NPF_FMT_SPEC_OPT_NONE)).

Definition npf_parse_length (cur : list Z) : list Z * npf_len_mod :=
  let c := hd 0 cur in
  let cur' := tail cur in
  if c =? ch "h" then
    if hd 0 cur' =? ch "h" then (tail cur', NPF_FMT_SPEC_LEN_MOD_CHAR)
    else (cur', NPF_FMT_SPEC_LEN_MOD_SHORT)
  else if c =? ch "l" then
    if hd 0 cur' =? ch "l" then (tail cur', NPF_FMT_SPEC_LEN_MOD_LARGE_LONG_LONG)
    else (cur', NPF_FMT_SPEC_LEN_MOD_LONG)
  else if c =? ch "j" then (cur', NPF_FMT_SPEC_LEN_MOD_LARGE_INTMAX)
  else if c =? ch "z" then (cur', NPF_FMT_SPEC_LEN_MOD_LARGE_SIZET)
  else if c =? ch "t" then (cur', NPF_FMT_SPEC_LEN_MOD_LARGE_PTRDIFFT)
  else (cur, NPF_FMT_SPEC_LEN_MOD_NONE).

(** ['a' - 'A']. *)
Definition LOWER : Z := 32.

(** The conversion character: the conversion, the case of letters, the zero
    flag and the precision option that are left; [None] is the default
    case. *)
Definition npf_parse_conv (c : Z) (zero : bool) (popt : npf_opt) : option (npf_conv * Z * bool * npf_opt) :=
  let zero' := match popt with NPF_FMT_SPEC_OPT_NONE => zero | _ => false end in
  if c =? ch "%" then Some (NPF_FMT_SPEC_CONV_PERCENT, LOWER, zero, NPF_FMT_SPEC_OPT_NONE)
  else if c =? ch "c" then Some (NPF_FMT_SPEC_CONV_CHAR, LOWER, zero, NPF_FMT_SPEC_OPT_NONE)
  else if c =? ch "s" then Some (NPF_FMT_SPEC_CONV_STRING, LOWER, false, popt)
  else if (c =? ch "i") || (c =? ch "d") then Some (NPF_FMT_SPEC_CONV_SIGNED_INT, LOWER, zero', popt)
  else if c =? ch "o" then Some (NPF_FMT_SPEC_CONV_OCTAL, LOWER, zero', popt)
  else if c =? ch "u" then Some (NPF_FMT_SPEC_CONV_UNSIGNED_INT, LOWER, zero', popt)
  else if c =? ch "X" then Some (NPF_FMT_SPEC_CONV_HEX_INT, 0, zero', popt)
  else if c =? ch "x" then Some (NPF_FMT_SPEC_CONV_HEX_INT, LOWER, zero', popt)
  else if c =? ch "p" then Some (NPF_FMT_SPEC_CONV_POINTER, LOWER, zero, NPF_FMT_SPEC_OPT_NONE)
  else if c =? ch "B" then Some (NPF_FMT_SPEC_CONV_BINARY, 0, zero, popt)
  else if c =? ch "b" then Some (NPF_FMT_SPEC_CONV_BINARY, LOWER, zero, popt)
  else None.

(** [format] starts with the percent sign.  [None] is the result zero. *)
Definition npf_parse_format_spec (format : list Z) : res (option (Z * npf_format_spec)) :=
  let '(cur, (ljust, zero, pre, alt)) := npf_parse_flags (tail format) false false 0 false in
  r ← npf_parse_width cur;
  let '(cur, (width, wopt)) := r in
  r ← npf_parse_prec cur;
  let '(cur, (prec, popt)) := r in
  let '(cur, len_mod) := npf_parse_length cur in
  match npf_parse_conv (hd 0 cur) zero popt with
  | None => Ok None
  | Some (conv, adj, zero, popt) =>
      Ok (Some (Z.of_nat (length format) - Z.of_nat (length (tail cur)),
                MkSpec width wopt ljust zero prec popt pre alt adj len_mod conv))
  end.

(** ** Numbers *)

Definition npf_digit (case_adj d : Z) : Z :=
  u8 ((if d <? 10 then ch "0" else ch "A" - 10 + case_adj) + d).

(** The do-while loop; [n] digits have been written. *)
Fixpoint npf_utoa_loop (fuel : nat) (val : Z) (buf : list Z) (base case_adj : Z) (n : nat) : res (nat * list Z) :=
  match fuel with
  | O => NoFuel
  | S fuel' =>
      buf' ← buf_set n (npf_digit case_adj (val mod base)) buf;
      if val `div` base =? 0 then Ok (S n, buf') else npf_utoa_loop fuel' (val `div` base) buf' base case_adj (S n)
  end.

(** A 64-bit value has at most 64 digits. *)
Definition npf_utoa_rev (val : Z) (buf : list Z) (base case_adj : Z) : res (nat * list Z) :=
  npf_utoa_loop 64 val buf base case_adj 0.

(** [sizeof(long long) * CHAR_BIT - __builtin_clzll(u)]. *)
Definition builtin_clzll (u : Z) : Z := 63 - Z.log2 u.
Definition npf_bin_len (u : Z) : Z := if u =? 0 then 1 else 64 - builtin_clzll u.

(** ** Arguments: [va_list] as the slots still to be read; a slot holds 64
    bits, or a pointer to a string. *)

Inductive va_slot := VaWord (w : Z) | VaStr (p : Z) (s : list Z).

Definition va_word (args : list va_slot) : res (Z * list va_slot) :=
  match args with
  | VaWord w :: args' => Ok (u64 w, args')
  | VaStr p _ :: args' => Ok (u64 p, args')
  | [] => Fault 0
  end.

Definition va_string (args : list va_slot) : res (list Z * list va_slot) :=
  match args with
  | VaStr _ s :: args' => Ok (s, args')
  | VaWord w :: _ => Fault w
  | [] => Fault 0
  end.

(** ** npf_vpprintf: the pieces of one directive *)

Definition set_width (w : Z) (left : bool) (fs : npf_format_spec) : npf_format_spec :=
  MkSpec w (field_width_opt fs) left (leading_zero_pad fs) (prec fs) (prec_opt fs) (prepend fs) (alt_form fs)
    (case_adjust fs) (length_modifier fs) (conv_spec fs).
Definition set_prec (p : Z) (o : npf_opt) (fs : npf_format_spec) : npf_format_spec :=
  MkSpec (field_width fs) (field_width_opt fs) (left_justified fs) (leading_zero_pad fs) p o (prepend fs)
    (alt_form fs) (case_adjust fs) (length_modifier fs) (conv_spec fs).

(** Star arguments. *)
Definition npf_star_args (fs : npf_format_spec) (args : list va_slot) : res (npf_format_spec * list va_slot) :=
  r ← match field_width_opt fs with
      | NPF_FMT_SPEC_OPT_STAR =>
          a ← va_word args;
          let w := sint 32 (fst a) in
          if w <? 0 then w' ← int (- w); Ok (set_width w' true fs, snd a)
          else Ok (set_width w (left_justified fs) fs, snd a)
      | _ => Ok (fs, args)
      end;
  let '(fs, args) := r in
  match prec_opt fs with
  | NPF_FMT_SPEC_OPT_STAR =>
      a ← va_word args;
      let p := sint 32 (fst a) in
      Ok (set_prec p (if p <? 0 then NPF_FMT_SPEC_OPT_NONE else NPF_FMT_SPEC_OPT_STAR) fs, snd a)
  | _ => Ok (fs, args)
  end.

(** The loop that measures a string argument. *)
Fixpoint npf_str_len (s : list Z) (popt : npf_opt) (p len : Z) : res Z :=
  match s with
  | [] => Ok len
  | c :: s' =>
      if (bool_decide (popt = NPF_FMT_SPEC_OPT_NONE) || (len <? p)) && negb (c =? 0) then
        len' ← int (len + 1); npf_str_len s' popt p len'
      else Ok len
  end.

(** The [NPF_EXTRACT] cases; [int] is 32 bits, [long] and larger 64. *)
Definition npf_extract_signed (lm : npf_len_mod) (w : Z) : Z :=
  match lm with
  | NPF_FMT_SPEC_LEN_MOD_NONE | NPF_FMT_SPEC_LEN_MOD_LONG_DOUBLE => sint 32 w
  | NPF_FMT_SPEC_LEN_MOD_SHORT => sint 16 (sint 32 w)
  | NPF_FMT_SPEC_LEN_MOD_CHAR => sint 8 (sint 32 w)
  | NPF_FMT_SPEC_LEN_MOD_LONG | NPF_FMT_SPEC_LEN_MOD_LARGE_LONG_LONG | NPF_FMT_SPEC_LEN_MOD_LARGE_INTMAX
  | NPF_FMT_SPEC_LEN_MOD_LARGE_SIZET | NPF_FMT_SPEC_LEN_MOD_LARGE_PTRDIFFT => sint 64 w
  end.

Definition npf_extract_unsigned (lm : npf_len_mod) (w : Z) : Z :=
  match lm with
  | NPF_FMT_SPEC_LEN_MOD_NONE | NPF_FMT_SPEC_LEN_MOD_LONG_DOUBLE => u32 w
  | NPF_FMT_SPEC_LEN_MOD_SHORT => u16 (u32 w)
  | NPF_FMT_SPEC_LEN_MOD_CHAR => u8 (u32 w)
  | NPF_FMT_SPEC_LEN_MOD_LONG | NPF_FMT_SPEC_LEN_MOD_LARGE_LONG_LONG | NPF_FMT_SPEC_LEN_MOD_LARGE_INTMAX
  | NPF_FMT_SPEC_LEN_MOD_LARGE_SIZET | NPF_FMT_SPEC_LEN_MOD_LARGE_PTRDIFFT => u64 w
  end.

(** The local variables after the conversion. *)
Record npf_conversion := MkConv {
  cv_fs : npf_format_spec;
  cbuf : list Z;
  binval : Z;
  cbuf_len : Z;
  sign_c : Z;
  need_0x : Z;
  zero : bool
}.

Definition has_prec (fs : npf_format_spec) : bool := bool_decide (prec_opt fs ≠ NPF_FMT_SPEC_OPT_NONE).

Definition npf_convert_signed (junk : list Z) (fs : npf_format_spec) (w : Z) : res npf_conversion :=
  let val := npf_extract_signed (length_modifier fs) w in
  let sign := if val <? 0 then ch "-" else prepend fs in
  if (val =? 0) && has_prec fs && (prec fs =? 0) then Ok (MkConv fs junk 0 0 sign 0 (val =? 0))
  else
    let uval := u64 val in
    let uval := if val <? 0 then 0 -64 uval else uval in
    r ← npf_utoa_rev uval junk 10 (case_adjust fs);
    Ok (MkConv fs (snd r) 0 (Z.of_nat (fst r)) sign 0 (val =? 0)).

Definition npf_base (conv : npf_conv) : Z :=
  match conv with NPF_FMT_SPEC_CONV_OCTAL => 8 | NPF_FMT_SPEC_CONV_HEX_INT => 16 | _ => 10 end.

Definition npf_convert_unsigned (junk : list Z) (fs : npf_format_spec) (w : Z) : res npf_conversion :=
  let val := npf_extract_unsigned (length_modifier fs) w in
  r ← (if (val =? 0) && has_prec fs && (prec fs =? 0) then
         Ok (if bool_decide (conv_spec fs = NPF_FMT_SPEC_CONV_OCTAL) && alt_form fs
             then set_prec 1 (prec_opt fs) fs else fs, junk, 0, 0)
       else if bool_decide (conv_spec fs = NPF_FMT_SPEC_CONV_BINARY) then
         Ok (fs, junk, val, npf_bin_len val)
       else
         r ← npf_utoa_rev val junk (npf_base (conv_spec fs)) (case_adjust fs);
         Ok (fs, snd r, 0, Z.of_nat (fst r)));
  let '(fs, buf, bin, len) := r in
  r ← (if negb (val =? 0) && alt_form fs && bool_decide (conv_spec fs = NPF_FMT_SPEC_CONV_OCTAL) then
         buf' ← buf_set (Z.to_nat len) (ch "0") buf; Ok (buf', len + 1)
       else Ok (buf, len));
  let '(buf, len) := r in
  let x :=
    if negb (val =? 0) && alt_form fs then
      match conv_spec fs with
      | NPF_FMT_SPEC_CONV_HEX_INT => ch "X" + case_adjust fs
      | NPF_FMT_SPEC_CONV_BINARY => ch "B" + case_adjust fs
      | _ => 0
      end
    else 0 in
  Ok (MkConv fs buf bin len 0 x (val =? 0)).

(** The switch over the conversion; [junk] is what the conversion buffer
    holds before it is written. *)
Definition npf_convert (junk : list Z) (fs : npf_format_spec) (args : list va_slot) :
    res (npf_conversion * list va_slot) :=
  match conv_spec fs with
  | NPF_FMT_SPEC_CONV_PERCENT =>
      buf ← buf_set 0 (ch "%") junk; Ok (MkConv fs buf 0 1 0 0 false, args)
  | NPF_FMT_SPEC_CONV_CHAR =>
      a ← va_word args;
      buf ← buf_set 0 (u8 (fst a)) junk; Ok (MkConv fs buf 0 1 0 0 false, snd a)
  | NPF_FMT_SPEC_CONV_STRING =>
      a ← va_string args;
      len ← npf_str_len (fst a) (prec_opt fs) (prec fs) 0;
      Ok (MkConv fs (fst a) 0 len 0 0 false, snd a)
  | NPF_FMT_SPEC_CONV_SIGNED_INT =>
      a ← va_word args;
      cv ← npf_convert_signed junk fs (fst a); Ok (cv, snd a)
  | NPF_FMT_SPEC_CONV_BINARY | NPF_FMT_SPEC_CONV_OCTAL | NPF_FMT_SPEC_CONV_HEX_INT
  | NPF_FMT_SPEC_CONV_UNSIGNED_INT =>
      a ← va_word args;
      cv ← npf_convert_unsigned junk fs (fst a); Ok (cv, snd a)
  | NPF_FMT_SPEC_CONV_POINTER =>
      a ← va_word args;
      r ← npf_utoa_rev (fst a) junk 16 LOWER;
      Ok (MkConv fs (snd r) 0 (Z.of_nat (fst r)) 0 (ch "x") false, snd a)
  | NPF_FMT_SPEC_CONV_NONE => Ok (MkConv fs junk 0 0 0 0 false, args)
  end.

(** The character a field is padded with, zero for none. *)
Definition npf_pad_c (cv : npf_conversion) : Z :=
  let fs := cv_fs cv in
  match field_width_opt fs with
  | NPF_FMT_SPEC_OPT_NONE => 0
  | _ =>
      if leading_zero_pad fs then
        match conv_spec fs with
        | NPF_FMT_SPEC_CONV_STRING | NPF_FMT_SPEC_CONV_CHAR | NPF_FMT_SPEC_CONV_PERCENT => 0
        | _ => if has_prec fs && (prec fs =? 0) && zero cv then ch " " else ch "0"
        end
      else ch " "
  end.

Definition npf_prec_pad (cv : npf_conversion) : res Z :=
  match conv_spec (cv_fs cv) with
  | NPF_FMT_SPEC_CONV_STRING => Ok 0
  | _ => d ← int (prec (cv_fs cv) - cbuf_len cv); Ok (npf_max 0 d)
  end.

Definition npf_field_pad (cv : npf_conversion) (prec_pad : Z) : res Z :=
  p ← int (field_width (cv_fs cv) - cbuf_len cv);
  p ← int (p - (if sign_c cv =? 0 then 0 else 1));
  p ← (if need_0x cv =? 0 then Ok p else int (p - 2));
  p ← int (p - prec_pad);
  Ok (npf_max 0 p).

(** ** Output through the callback *)

Record npf_cnt_putc_ctx (S : Type) := MkCnt { cnt_ctx : S; cnt_n : Z }.
Arguments MkCnt {S} _ _.
Arguments cnt_ctx {S} _.
Arguments cnt_n {S} _.

Section output.
Context {S : Type} (pc : Z → M S unit).

Definition npf_putc_cnt (c : Z) : M (npf_cnt_putc_ctx S) unit := λ s,
  match int (cnt_n s + 1) with
  | Ok n =>
      match pc c (cnt_ctx s) with
      | Ok (_, ctx) => Ok (tt, MkCnt ctx n)
      | Panic msg => Panic msg
      | Fault addr => Fault addr
      | NoFuel => NoFuel
      end
  | _ => Fault (cnt_n s)
  end.

(** [while (n-- > 0) { NPF_PUTC(c); }]. *)
Fixpoint put_pad (n : nat) (c : Z) : M (npf_cnt_putc_ctx S) unit :=
  match n with O => mret tt | Datatypes.S n' => npf_putc_cnt c;; put_pad n' c end.

Definition put_0x (x : Z) : M (npf_cnt_putc_ctx S) unit :=
  if x =? 0 then mret tt else npf_putc_cnt (ch "0");; npf_putc_cnt x.

Definition buf_get (i : nat) (buf : list Z) : res Z :=
  match buf !! i with Some c => Ok c | None => Fault (Z.of_nat i) end.

(** A string, from character [i] on. *)
Fixpoint put_string (n i : nat) (buf : list Z) : M (npf_cnt_putc_ctx S) unit :=
  match n with
  | O => mret tt
  | Datatypes.S n' => c ← lift (buf_get i buf); npf_putc_cnt c;; put_string n' (Datatypes.S i) buf
  end.

(** The digits, which the buffer holds in reverse. *)
Fixpoint put_reversed (n : nat) (buf : list Z) : M (npf_cnt_putc_ctx S) unit :=
  match n with
  | O => mret tt
  | Datatypes.S n' => c ← lift (buf_get n' buf); npf_putc_cnt c;; put_reversed n' buf
  end.

Fixpoint put_binary (n : nat) (v : Z) : M (npf_cnt_putc_ctx S) unit :=
  match n with
  | O => mret tt
  | Datatypes.S n' =>
      npf_putc_cnt (ch "0" + Z.land (Z.shiftr v (Z.of_nat n')) 1);; put_binary n' v
  end.

Definition npf_emit (cv : npf_conversion) : M (npf_cnt_putc_ctx S) unit :=
  let fs := cv_fs cv in
  let pad_c := npf_pad_c cv in
  prec_pad ← lift (npf_prec_pad cv);
  field_pad ← lift (npf_field_pad cv prec_pad);
  sign ← (if negb (left_justified fs) && negb (pad_c =? 0) then
            sign ← (if pad_c =? ch "0" then
                      (if sign_c cv =? 0 then mret tt else npf_putc_cnt (sign_c cv));;
                      put_0x (need_0x cv);;
                      mret 0
                    else mret (sign_c cv));
            put_pad (Z.to_nat field_pad) pad_c;;
            (if negb (pad_c =? ch "0") then put_0x (need_0x cv) else mret tt);;
            mret sign
          else put_0x (need_0x cv);; mret (sign_c cv));
  match conv_spec fs with
  | NPF_FMT_SPEC_CONV_STRING => put_string (Z.to_nat (cbuf_len cv)) 0 (cbuf cv)
  | conv =>
      (if sign =? 0 then mret tt else npf_putc_cnt sign);;
      put_pad (Z.to_nat prec_pad) (ch "0");;
      match conv with
      | NPF_FMT_SPEC_CONV_BINARY => put_binary (Z.to_nat (cbuf_len cv)) (binval cv)
      | _ => put_reversed (Z.to_nat (cbuf_len cv)) (cbuf cv)
      end
  end;;
  if left_justified fs && negb (pad_c =? 0) then put_pad (Z.to_nat field_pad) pad_c else mret tt.

(** One directive: star arguments, conversion, output. *)
Definition npf_directive (junk : list Z) (fs : npf_format_spec) (args : list va_slot) :
    M (npf_cnt_putc_ctx S) (list va_slot) :=
  r ← lift (npf_star_args fs args);
  r ← lift (npf_convert junk (fst r) (snd r));
  npf_emit (fst r);;
  mret (snd r).

(** The loop over the format: each turn consumes at least one character. *)
Fixpoint npf_loop (junk : list Z) (fuel : nat) (cur : list Z) (args : list va_slot) :
    M (npf_cnt_putc_ctx S) unit :=
  match cur, fuel with
  | [], _ => mret tt
  | _, O => nofuel
  | c :: cur', Datatypes.S fuel' =>
      p ← (if negb (c =? ch "%") then mret None else lift (npf_parse_format_spec cur));
      match p with
      | None => npf_putc_cnt c;; npf_loop junk fuel' cur' args
      | Some (fs_len, fs) =>
          args' ← npf_directive junk fs args;
          npf_loop junk fuel' (drop (Z.to_nat fs_len) cur) args'
      end
  end.

Definition npf_vpprintf (junk format : list Z) (args : list va_slot) : M S Z := λ s,
  match npf_loop junk (length format) format args (MkCnt s 0) with
  | Ok (_, t) => Ok (cnt_n t, cnt_ctx t)
  | Panic msg => Panic msg
  | Fault addr => Fault addr
  | NoFuel => NoFuel
  end.

Definition npf_pprintf (junk format : list Z) (args : list va_slot) : M S Z := npf_vpprintf junk format args.
End output.

Definition NANOPRINTF_CONVERSION_BUFFER_SIZE : nat := 23.

(** ** npf_vsnprintf *)

Record npf_bufputc_ctx := MkBpc { dst : list Z; bpc_len : Z; bpc_cur : Z }.

Definition npf_bufputc (c : Z) : M npf_bufputc_ctx unit := λ b,
  if bpc_cur b <? bpc_len b then
    match buf_set (Z.to_nat (bpc_cur b)) (u8 c) (dst b) with
    | Ok d => Ok (tt, MkBpc d (bpc_len b) (bpc_cur b + 1))
    | _ => Fault (bpc_cur b)
    end
  else Ok (tt, b).

Definition npf_bufputc_nop (c : Z) : M npf_bufputc_ctx unit := mret tt.

(** [buffer] is [None] for a null pointer; the result and the buffer. *)
Definition npf_vsnprintf (junk : list Z) (buffer : option (list Z)) (bufsz : Z) (format : list Z)
    (vlist : list va_slot) : res (Z * option (list Z)) :=
  let ctx := MkBpc (default [] buffer) bufsz 0 in
  let pc := match buffer with Some _ => npf_bufputc | None => npf_bufputc_nop end in
  r ← npf_vpprintf pc junk format vlist ctx;
  let '(n, ctx) := r in
  r ← pc 0 ctx;
  let '(_, ctx) := r in
  match buffer with
  | Some _ =>
      if negb (bufsz =? 0) then b ← buf_set (Z.to_nat (bufsz - 1)) 0 (dst ctx); Ok (n, Some b)
      else Ok (n, Some (dst ctx))
  | None => Ok (n, None)
  end.

Definition npf_snprintf (junk : list Z) (buffer : option (list Z)) (bufsz : Z) (format : list Z)
    (vlist : list va_slot) : res (Z * option (list Z)) := npf_vsnprintf junk buffer bufsz format vlist.

(** Concrete runs. *)
Definition sprint (format : string) (args : list va_slot) : res (list Z) :=
  r ← npf_vsnprintf (replicate 23 170) (Some (replicate 64 170)) 64 (chars format) args;
  Ok (cstr (default [] (snd r))).

Example run_formats :
  sprint "[%5d|%-5d|%05d|%+d|% d]" (VaWord <$> [42; 42; -42; 42; 42]) = Ok (chars "[   42|42   |-0042|+42| 42]") ∧
  sprint "[%#x|%#X|%08x|%#10x|%#010x]" (VaWord <$> [255; 255; 255; 255; 255]) =
    Ok (chars "[0xff|0XFF|000000ff|      0xff|0x000000ff]") ∧
  sprint "[%.3d|%5.3d|%-5.3d|%.0d]" (VaWord <$> [7; 7; 7; 0]) = Ok (chars "[007|  007|007  |]") ∧
  sprint "[%#o|%b|%#b|%hhd|%p|%lu]" (VaWord <$> [8; 5; 5; 384; 4096; -1]) =
    Ok (chars "[010|101|0b101|-128|0x1000|18446744073709551615]") ∧
  sprint "[%s|%.2s|%6s|%-6s|%c%%]" [VaStr 1 (chars "abc"); VaStr 1 (chars "abc"); VaStr 1 (chars "abc");
    VaStr 1 (chars "abc"); VaWord 65] = Ok (chars "[abc|ab|   abc|abc   |A%]") ∧
  sprint "[%0*d|%y" [VaWord (-5); VaWord 42] = Ok (chars "[42000|%y").
Proof. vm_compute. done. Qed.

(** ** Bounds of loops: a sequence of calls runs out of its bound only where
    one of them does. *)

Lemma res_bind_bounded {A B} (r : res A) (k : A → res B) :
  r ≠ NoFuel → (∀ a, r = Ok a → k a ≠ NoFuel) → (r ≫= k) ≠ NoFuel.
Proof. destruct r; simpl; intros; try done. by apply H0. Qed.

Lemma buf_set_bounded i c b : buf_set i c b ≠ NoFuel.
Proof. unfold buf_set. by destruct (_ <? _)%nat. Qed.

Lemma va_word_bounded args : va_word args ≠ NoFuel.
Proof. by destruct args as [|[]]. Qed.
