(* ===== verification/NpfThms.v ===== *)
(** * nanoprintf: what it prints

    A reference definition of the directives, after the C standard, and the
    proof that the formatter of Npf.v passes exactly these characters to its
    callback, that the conversion buffer is large enough, and that
    [npf_vsnprintf] truncates the text to its buffer. *)

From S2P Require Import Prelude Digits Npf.
Local Open Scope Z_scope.
Local Open Scope kernel_scope.

(** ** Digits *)

(** The usual notation of [v], most significant digit first. *)
Definition number_text (base adj v : Z) : list Z := rev (map (npf_digit adj) (digits 64 base v)).

Lemma npf_utoa_loop_spec fuel v base adj n a m r :
  2 ≤ base → 0 ≤ v < base ^ Z.of_nat fuel → (0 < fuel)%nat → length a = n →
  length m = length (digits fuel base v) →
  npf_utoa_loop fuel v (a ++ m ++ r) base adj n =
    Ok ((n + length m)%nat, a ++ map (npf_digit adj) (digits fuel base v) ++ r).
Proof.
  intros Hb. revert v n a m. induction fuel as [|fuel IH]; intros v n a m Hv Hf Ha Hm; [lia|].
  cbn [digits npf_utoa_loop] in *. destruct m as [|x m]; [done|]. simpl in Hm. injection Hm as Hm.
  simpl app at 2. rewrite buf_set_at by done. cbn [mbind res_bind].
  rewrite Nat2Z.inj_succ, Z.pow_succ_r in Hv by lia.
  destruct (Z.eqb_spec (v `div` base) 0) as [E|E].
  - destruct m; [|done]. simpl. do 2 f_equal. lia.
  - destruct fuel as [|fuel]; [simpl in Hv; exfalso; apply E, Z.div_small; lia|].
    change (a ++ npf_digit adj (v mod base) :: m ++ r) with (a ++ [npf_digit adj (v mod base)] ++ m ++ r).
    rewrite (assoc_L (++)).
    rewrite IH; [|split; [apply Z.div_pos; lia|apply Z.div_lt_upper_bound; lia]|lia| |done].
    + simpl length. rewrite <-(assoc_L (++)). do 2 f_equal. lia.
    + rewrite length_app. simpl. lia.
Qed.

(** A value below [base ^ k] needs [k] characters of the buffer. *)
Lemma npf_utoa_rev_spec v base adj buf k :
  2 ≤ base → 0 ≤ v < 2 ^ 64 → v < base ^ Z.of_nat k → (0 < k)%nat → (k ≤ length buf)%nat →
  let n := length (number_text base adj v) in
  (1 ≤ n ≤ k)%nat ∧
  npf_utoa_rev v buf base adj = Ok (n, rev (number_text base adj v) ++ drop n buf).
Proof.
  intros Hb Hv Hk Hk0 Hbuf n.
  assert (n = length (digits 64 base v)) as En by (unfold n, number_text; by rewrite length_rev, length_map).
  assert (0 ≤ v < base ^ Z.of_nat 64) as H64.
  { split; [lia|]. eapply Z.lt_le_trans; [apply Hv|]. apply Z.pow_le_mono_l. lia. }
  pose proof (digits_length 64 base v k Hb ltac:(lia) Hk0) as Hlen.
  assert (1 ≤ n)%nat as H1 by (rewrite En; cbn [digits length]; lia).
  split; [lia|]. unfold npf_utoa_rev.
  pose proof (npf_utoa_loop_spec 64 v base adj 0 [] (take n buf) (drop n buf) Hb H64 ltac:(lia) eq_refl) as E.
  cbn [app] in E. rewrite take_drop in E. rewrite E; [|rewrite length_take; lia].
  rewrite length_take, Nat.min_l by lia. unfold number_text. by rewrite rev_involutive.
Qed.

(** Every octal, decimal or hexadecimal 64-bit number fits 22 characters. *)
Lemma number_text_length base adj v :
  8 ≤ base → 0 ≤ v < 2 ^ 64 → (1 ≤ length (number_text base adj v) ≤ 22)%nat.
Proof.
  intros Hb Hv. unfold number_text. rewrite length_rev, length_map.
  split; [cbn [digits length]; lia|]. apply digits_length; [lia| |lia].
  split; [lia|]. eapply Z.lt_le_trans; [apply Hv|]. transitivity (8 ^ 22); [lia|].
  change (Z.of_nat 22) with 22. apply Z.pow_le_mono_l. lia.
Qed.

Lemma npf_utoa_rev_22 v base adj buf :
  8 ≤ base → 0 ≤ v < 2 ^ 64 → (22 ≤ length buf)%nat →
  let n := length (number_text base adj v) in
  npf_utoa_rev v buf base adj = Ok (n, rev (number_text base adj v) ++ drop n buf).
Proof.
  intros Hb Hv Hbuf. apply (npf_utoa_rev_spec v base adj buf 22); [lia|done| |lia|done].
  eapply Z.lt_le_trans; [apply Hv|]. transitivity (8 ^ 22); [lia|].
  change (Z.of_nat 22) with 22. apply Z.pow_le_mono_l. lia.
Qed.

(** The value a string of digits denotes, in either case. *)
Definition npf_char_digit (c : Z) : Z :=
  if c <? ch "A" then c - ch "0" else if c <? ch "a" then c - ch "A" + 10 else c - ch "a" + 10.
Definition npf_decode (base : Z) (str : list Z) : Z := foldl (λ n c, n * base + npf_char_digit c) 0 str.

Lemma npf_digit_roundtrip adj d :
  adj = 0 ∨ adj = LOWER → 0 ≤ d < 16 → npf_char_digit (npf_digit adj d) = d ∧ 0 < npf_digit adj d < 256.
Proof.
  intros Hadj Hd. unfold npf_char_digit, npf_digit, LOWER in *. change (ch "0") with 48.
  change (ch "A") with 65. change (ch "a") with 97. change (2 ^ 8) with 256.
  destruct (Z.ltb_spec d 10).
  - rewrite wrap_small by (change (2 ^ 8) with 256; lia). destruct (Z.ltb_spec (48 + d) 65); lia.
  - rewrite wrap_small by (change (2 ^ 8) with 256; lia).
    destruct (Z.ltb_spec (65 - 10 + adj + d) 65); [lia|]. destruct (Z.ltb_spec (65 - 10 + adj + d) 97); lia.
Qed.

Lemma npf_decode_digits base adj ds :
  adj = 0 ∨ adj = LOWER → base ≤ 16 → Forall (λ d, 0 ≤ d < base) ds →
  npf_decode base (rev (map (npf_digit adj) ds)) = foldr (λ d n, n * base + d) 0 ds.
Proof.
  intros Hadj Hb. unfold npf_decode. induction 1 as [|d ds Hd _ IH]; simpl; [done|].
  rewrite foldl_app, IH. simpl. destruct (npf_digit_roundtrip adj d Hadj) as [-> _]; [lia|done].
Qed.

Lemma number_text_spec base adj v :
  adj = 0 ∨ adj = LOWER → 2 ≤ base ≤ 16 → 0 ≤ v < 2 ^ 64 →
  npf_decode base (number_text base adj v) = v ∧
  Forall (λ c, 0 < c < 256) (number_text base adj v) ∧
  (v ≠ 0 → hd_error (number_text base adj v) ≠ Some (ch "0")) ∧
  (v = 0 → number_text base adj v = [ch "0"]).
Proof.
  intros Hadj Hb Hv. assert (0 ≤ v < base ^ Z.of_nat 64) as H64.
  { split; [lia|]. eapply Z.lt_le_trans; [apply Hv|]. apply Z.pow_le_mono_l. lia. }
  unfold number_text. destruct (digits_value 64 base v ltac:(lia) H64) as [Hval Hds]. split_and!.
  - by rewrite npf_decode_digits by (done || lia).
  - apply Forall_rev, Forall_map. eapply Forall_impl; [exact Hds|]. intros d Hd. cbn beta in Hd |- *.
    apply npf_digit_roundtrip; [done|lia].
  - intros Hv0. assert (0 < v) as Hpos by (clear -Hv Hv0; lia).
    destruct (digits_last 64 base v ltac:(lia) (conj Hpos (proj2 H64))) as (d & Hd & Hd0).
    apply last_Some in Hd as [l' El]. rewrite El in Hds |- *. rewrite map_app, rev_app_distr. simpl.
    apply Forall_app in Hds as [_ [Hd _]%Forall_cons]. intros [= Hc].
    apply (f_equal npf_char_digit) in Hc. destruct (npf_digit_roundtrip adj d Hadj) as [E _]; [lia|].
    rewrite E in Hc. cbv in Hc. lia.
  - intros ->. cbn [digits]. rewrite Z.mod_0_l, Z.div_0_l by lia. destruct Hadj as [-> | ->]; done.
Qed.

(** ** Output as a list of characters *)

Lemma int_ok v : INT_MIN ≤ v ≤ INT_MAX → int v = Ok v.
Proof.
  intros. unfold int. by rewrite (proj2 (Z.leb_le _ _)), (proj2 (Z.leb_le _ _)) by lia.
Qed.

Section emits.
Context {S : Type} (pc : Z → M S unit).

(** The characters of [out], one call of the callback each. *)
Fixpoint put_list (out : list Z) : M (npf_cnt_putc_ctx S) unit :=
  match out with [] => mret tt | c :: out' => npf_putc_cnt pc c;; put_list out' end.

(** [m] prints [out] and returns [a]. *)
Definition emits {A : Type} (m : M (npf_cnt_putc_ctx S) A) (out : list Z) (a : A) : Prop :=
  ∀ s, m s = (put_list out;; mret a) s.

Lemma put_list_bind {A B} o1 (a : A) (k : A → M (npf_cnt_putc_ctx S) B) s :
  ((put_list o1;; mret a) ≫= k) s = (put_list o1;; k a) s.
Proof. rewrite bind_assoc. unfold mbind, M_bind. destruct (put_list o1 s) as [[]| | |]; done. Qed.

Lemma put_list_app o1 o2 s : put_list (o1 ++ o2) s = (put_list o1;; put_list o2) s.
Proof.
  revert s. induction o1 as [|c o1 IH]; intros s; [done|]. simpl. rewrite bind_assoc.
  unfold mbind, M_bind in *. destruct (npf_putc_cnt pc c s) as [[[] s']| | |]; [|done..]. apply IH.
Qed.

Lemma emits_ret {A} (a : A) : emits (mret a) [] a.
Proof. by intros s. Qed.

Lemma emits_bind {A B} (m : M _ A) (k : A → M _ B) o1 o2 a b :
  emits m o1 a → emits (k a) o2 b → emits (m ≫= k) (o1 ++ o2) b.
Proof.
  intros Hm Hk s. transitivity (((put_list o1;; mret a) ≫= k) s).
  { unfold mbind, M_bind in *. by rewrite Hm. }
  rewrite put_list_bind. unfold mbind, M_bind in *. rewrite put_list_app. unfold mbind, M_bind.
  destruct (put_list o1 s) as [[u s']| | |]; [|done..]. apply Hk.
Qed.

(** Without output of its own. *)
Lemma emits_bind_nil {A B} (m : M _ A) (k : A → M _ B) o a b :
  emits m [] a → emits (k a) o b → emits (m ≫= k) o b.
Proof. apply (emits_bind m k [] o). Qed.

Lemma emits_eq {A} (m : M _ A) o o' (a : A) : emits m o a → o = o' → emits m o' a.
Proof. by intros ? <-. Qed.

Lemma emits_lift {A} (r : res A) a : r = Ok a → emits (lift r) [] a.
Proof. intros -> s. done. Qed.

Lemma emits_putc c : emits (npf_putc_cnt pc c) [c] tt.
Proof.
  intros s. unfold put_list, mbind, M_bind. by destruct (npf_putc_cnt pc c s) as [[[] ?]| | |].
Qed.

Lemma emits_pad n c : emits (put_pad pc n c) (replicate n c) tt.
Proof.
  induction n as [|n IH]; [apply emits_ret|]. apply (emits_bind _ _ [c] _ tt); [apply emits_putc|done].
Qed.

(** The prefix [need_0x] asks for, and a sign. *)
Definition prefix_0x (x : Z) : list Z := if x =? 0 then [] else [ch "0"; x].
Definition sign_text (c : Z) : list Z := if c =? 0 then [] else [c].

Lemma emits_0x x : emits (put_0x pc x) (prefix_0x x) tt.
Proof.
  unfold put_0x, prefix_0x. destruct (x =? 0); [apply emits_ret|].
  apply (emits_bind _ _ [_] [_] tt); apply emits_putc.
Qed.

Lemma emits_sign c : emits (if c =? 0 then mret tt else npf_putc_cnt pc c) (sign_text c) tt.
Proof. unfold sign_text. destruct (c =? 0); [apply emits_ret|apply emits_putc]. Qed.

Lemma emits_string a m r : emits (put_string pc (length m) (length a) (a ++ m ++ r)) m tt.
Proof.
  revert a. induction m as [|c m IH]; intros a; [apply emits_ret|]. simpl.
  apply (emits_bind_nil _ _ _ c).
  { apply emits_lift. unfold buf_get. rewrite lookup_app_r by lia. by rewrite Nat.sub_diag. }
  apply (emits_bind _ _ [c] _ tt); [apply emits_putc|].
  specialize (IH (a ++ [c])). rewrite length_app, <-(assoc_L (++)) in IH. simpl in IH.
  by rewrite Nat.add_comm in IH.
Qed.

Lemma emits_reversed m r : emits (put_reversed pc (length m) (m ++ r)) (rev m) tt.
Proof.
  revert r. induction m as [|c m IH] using rev_ind; intros r; [apply emits_ret|].
  rewrite length_app, Nat.add_comm, rev_app_distr, <-(assoc_L (++)). simpl.
  apply (emits_bind_nil _ _ _ c).
  { apply emits_lift. unfold buf_get. rewrite lookup_app_r by lia. by rewrite Nat.sub_diag. }
  apply (emits_bind _ _ [c] _ tt); [apply emits_putc|apply IH].
Qed.

Definition bits_text (n : nat) (v : Z) : list Z :=
  rev (map (λ i, ch "0" + Z.land (Z.shiftr v (Z.of_nat i)) 1) (seq 0 n)).

Lemma emits_binary n v : emits (put_binary pc n v) (bits_text n v) tt.
Proof.
  unfold bits_text. induction n as [|n IH]; [apply emits_ret|].
  rewrite seq_S, map_app, rev_app_distr. simpl.
  apply (emits_bind _ _ [_] _ tt); [apply emits_putc|done].
Qed.

(** The converted text, and the whole field around it. *)
Definition payload (cv : npf_conversion) : list Z :=
  match conv_spec (cv_fs cv) with
  | NPF_FMT_SPEC_CONV_BINARY => bits_text (Z.to_nat (cbuf_len cv)) (binval cv)
  | NPF_FMT_SPEC_CONV_STRING => take (Z.to_nat (cbuf_len cv)) (cbuf cv)
  | _ => rev (take (Z.to_nat (cbuf_len cv)) (cbuf cv))
  end.

Definition field_text (cv : npf_conversion) (prec_pad field_pad : nat) : list Z :=
  let pad_c := npf_pad_c cv in
  let sign := match conv_spec (cv_fs cv) with NPF_FMT_SPEC_CONV_STRING => [] | _ => sign_text (sign_c cv) end in
  let x := prefix_0x (need_0x cv) in
  let body := match conv_spec (cv_fs cv) with
              | NPF_FMT_SPEC_CONV_STRING => payload cv
              | _ => replicate prec_pad (ch "0") ++ payload cv
              end in
  if left_justified (cv_fs cv) then
    x ++ sign ++ body ++ (if pad_c =? 0 then [] else replicate field_pad pad_c)
  else if pad_c =? 0 then x ++ sign ++ body
  else if pad_c =? ch "0" then sign_text (sign_c cv) ++ x ++ replicate field_pad pad_c ++ body
  else replicate field_pad pad_c ++ x ++ sign ++ body.

Lemma emits_payload_digits cv :
  (Z.to_nat (cbuf_len cv) ≤ length (cbuf cv))%nat →
  emits (put_reversed pc (Z.to_nat (cbuf_len cv)) (cbuf cv)) (rev (take (Z.to_nat (cbuf_len cv)) (cbuf cv))) tt.
Proof.
  intros H. pose proof (emits_reversed (take (Z.to_nat (cbuf_len cv)) (cbuf cv)) (drop (Z.to_nat (cbuf_len cv)) (cbuf cv))) as E.
  by rewrite take_drop, length_take, Nat.min_l in E by done.
Qed.

Lemma emits_payload_string cv :
  (Z.to_nat (cbuf_len cv) ≤ length (cbuf cv))%nat →
  emits (put_string pc (Z.to_nat (cbuf_len cv)) 0 (cbuf cv)) (take (Z.to_nat (cbuf_len cv)) (cbuf cv)) tt.
Proof.
  intros H. pose proof (emits_string [] (take (Z.to_nat (cbuf_len cv)) (cbuf cv)) (drop (Z.to_nat (cbuf_len cv)) (cbuf cv))) as E.
  cbn [app] in E. by rewrite take_drop, length_take, Nat.min_l in E by done.
Qed.

(** The payload with the sign still to be printed and the precision. *)
Lemma emits_body cv sign pp :
  (conv_spec (cv_fs cv) = NPF_FMT_SPEC_CONV_BINARY ∨ Z.to_nat (cbuf_len cv) ≤ length (cbuf cv))%nat →
  emits match conv_spec (cv_fs cv) with
        | NPF_FMT_SPEC_CONV_STRING => put_string pc (Z.to_nat (cbuf_len cv)) 0 (cbuf cv)
        | conv =>
            (if sign =? 0 then mret tt else npf_putc_cnt pc sign);;
            put_pad pc pp (ch "0");;
            match conv with
            | NPF_FMT_SPEC_CONV_BINARY => put_binary pc (Z.to_nat (cbuf_len cv)) (binval cv)
            | _ => put_reversed pc (Z.to_nat (cbuf_len cv)) (cbuf cv)
            end
        end
    match conv_spec (cv_fs cv) with
    | NPF_FMT_SPEC_CONV_STRING => payload cv
    | _ => sign_text sign ++ replicate pp (ch "0") ++ payload cv
    end tt.
Proof.
  unfold payload. destruct (conv_spec (cv_fs cv)); intros H;
    try (apply emits_payload_string; by destruct H);
    (eapply emits_bind; [apply emits_sign|]); (eapply emits_bind; [apply emits_pad|]);
    try apply emits_binary; (apply emits_payload_digits; by destruct H).
Qed.

Lemma npf_emit_text cv pp fp :
  (conv_spec (cv_fs cv) = NPF_FMT_SPEC_CONV_BINARY ∨ Z.to_nat (cbuf_len cv) ≤ length (cbuf cv))%nat →
  npf_prec_pad cv = Ok pp → npf_field_pad cv pp = Ok fp →
  emits (npf_emit pc cv) (field_text cv (Z.to_nat pp) (Z.to_nat fp)) tt.
Proof.
  intros Hlen Hpp Hfp. unfold npf_emit.
  apply (emits_bind_nil _ _ _ pp); [by apply emits_lift|].
  apply (emits_bind_nil _ _ _ fp); [by apply emits_lift|].
  pose proof (emits_body cv 0 (Z.to_nat pp) Hlen) as Hbody0.
  pose proof (emits_body cv (sign_c cv) (Z.to_nat pp) Hlen) as Hbody.
  assert (emits (put_0x pc (need_0x cv);; mret (sign_c cv)) (prefix_0x (need_0x cv) ++ []) (sign_c cv)) as Hx.
  { eapply emits_bind; [apply emits_0x|apply emits_ret]. }
  unfold field_text. destruct (left_justified (cv_fs cv)); cbn [negb andb].
  { eapply emits_eq; [eapply emits_bind; [exact Hx|]; eapply emits_bind; [exact Hbody|]|].
    - instantiate (1 := if npf_pad_c cv =? 0 then [] else _). destruct (npf_pad_c cv =? 0); [apply emits_ret|apply emits_pad].
    - destruct (conv_spec (cv_fs cv)); simpl; by rewrite ?app_nil_r, <-?(assoc_L (++)). }
  destruct (Z.eqb_spec (npf_pad_c cv) 0) as [E0|E0]; cbn [negb andb].
  { eapply emits_eq; [eapply emits_bind; [exact Hx|]; eapply emits_bind; [exact Hbody|apply emits_ret]|].
    destruct (conv_spec (cv_fs cv)); simpl; by rewrite ?app_nil_r, <-?(assoc_L (++)). }
  destruct (Z.eqb_spec (npf_pad_c cv) (ch "0")) as [E1|E1]; cbn [negb andb].
  - eapply emits_eq; [eapply (emits_bind _ _ _ _ 0); [|eapply emits_bind; [exact Hbody0|apply emits_ret]]|].
    + eapply emits_bind.
      * eapply emits_bind; [apply emits_sign|]. eapply emits_bind; [apply emits_0x|apply emits_ret].
      * eapply emits_bind; [apply emits_pad|]. eapply emits_bind; apply emits_ret.
    + destruct (conv_spec (cv_fs cv)); simpl; by rewrite ?app_nil_r, <-?(assoc_L (++)).
  - eapply emits_eq; [eapply (emits_bind _ _ _ _ (sign_c cv)); [|eapply emits_bind; [exact Hbody|apply emits_ret]]|].
    + eapply emits_bind; [apply emits_ret|]. eapply emits_bind; [apply emits_pad|].
      eapply emits_bind; [apply emits_0x|apply emits_ret].
    + destruct (conv_spec (cv_fs cv)); simpl; by rewrite ?app_nil_r, <-?(assoc_L (++)).
Qed.
End emits.

(** ** The reference: directives after the C standard *)

(** [pre] (a sign or a base prefix) and [body] in a field. *)
Definition field (fs : npf_format_spec) (pre body : list Z) : list Z :=
  let n := (Z.to_nat (field_width fs) - (length pre + length body))%nat in
  if left_justified fs then pre ++ body ++ replicate n (ch " ")
  else if leading_zero_pad fs then pre ++ replicate n (ch "0") ++ body
  else replicate n (ch " ") ++ pre ++ body.

(** The digits of an integer with at least the precision's number of digits;
    none for zero with an explicit precision of zero; an octal number of the
    alternative form starts with a zero. *)
Definition printf_digits (fs : npf_format_spec) (base v : Z) : list Z :=
  let ds := if (v =? 0) && has_prec fs && (prec fs =? 0) then [] else number_text base (case_adjust fs) v in
  let ds := if bool_decide (conv_spec fs = NPF_FMT_SPEC_CONV_OCTAL) && alt_form fs && negb (hd 0 ds =? ch "0")
            then ch "0" :: ds else ds in
  replicate (Z.to_nat (prec fs) - length ds) (ch "0") ++ ds.

(** What is left of a string argument. *)
Definition printf_string (fs : npf_format_spec) (s : list Z) : list Z :=
  if has_prec fs then take (Z.to_nat (prec fs)) (cstr s) else cstr s.

Definition printf_base (conv : npf_conv) : Z :=
  match conv with NPF_FMT_SPEC_CONV_BINARY => 2 | _ => npf_base conv end.

Definition printf_prefix (fs : npf_format_spec) (v : Z) : list Z :=
  if alt_form fs && negb (v =? 0) then
    match conv_spec fs with
    | NPF_FMT_SPEC_CONV_HEX_INT => [ch "0"; ch "X" + case_adjust fs]
    | NPF_FMT_SPEC_CONV_BINARY => [ch "0"; ch "B" + case_adjust fs]
    | _ => []
    end
  else [].

Definition printf_directive (fs : npf_format_spec) (args : list va_slot) : option (list Z * list va_slot) :=
  match conv_spec fs, args with
  | NPF_FMT_SPEC_CONV_PERCENT, _ => Some (field fs [] [ch "%"], args)
  | NPF_FMT_SPEC_CONV_CHAR, VaWord w :: args' => Some (field fs [] [u8 (u64 w)], args')
  | NPF_FMT_SPEC_CONV_STRING, VaStr _ s :: args' =>
      if Z.of_nat (length s) <=? 2 ^ 30 then Some (field fs [] (printf_string fs s), args') else None
  | NPF_FMT_SPEC_CONV_SIGNED_INT, VaWord w :: args' =>
      let v := npf_extract_signed (length_modifier fs) (u64 w) in
      Some (field fs (sign_text (if v <? 0 then ch "-" else prepend fs)) (printf_digits fs 10 (Z.abs v)), args')
  | NPF_FMT_SPEC_CONV_BINARY, VaWord w :: args' | NPF_FMT_SPEC_CONV_OCTAL, VaWord w :: args'
  | NPF_FMT_SPEC_CONV_HEX_INT, VaWord w :: args' | NPF_FMT_SPEC_CONV_UNSIGNED_INT, VaWord w :: args' =>
      let v := npf_extract_unsigned (length_modifier fs) (u64 w) in
      Some (field fs (printf_prefix fs v) (printf_digits fs (printf_base (conv_spec fs)) v), args')
  | NPF_FMT_SPEC_CONV_POINTER, VaWord w :: args' =>
      Some (field fs [ch "0"; ch "x"] (number_text 16 LOWER (u64 w)), args')
  | _, _ => None
  end.

(** The directives the reference covers: width and precision of at most
    [2 ^ 30], a precision of zero or less where none was given, and the
    zero flag only for numbers that are not left-justified and have no
    precision. *)
Definition no_prec_conv (conv : npf_conv) : bool :=
  match conv with
  | NPF_FMT_SPEC_CONV_PERCENT | NPF_FMT_SPEC_CONV_CHAR | NPF_FMT_SPEC_CONV_POINTER => true
  | _ => false
  end.
Definition text_conv (conv : npf_conv) : bool :=
  match conv with
  | NPF_FMT_SPEC_CONV_PERCENT | NPF_FMT_SPEC_CONV_CHAR | NPF_FMT_SPEC_CONV_STRING => true
  | _ => false
  end.
Definition directive_ok (fs : npf_format_spec) : bool :=
  (0 <=? field_width fs) && (field_width fs <=? 2 ^ 30) && (- 2 ^ 30 <=? prec fs) && (prec fs <=? 2 ^ 30) &&
  (bool_decide (field_width_opt fs ≠ NPF_FMT_SPEC_OPT_NONE) || (field_width fs =? 0)) &&
  (if has_prec fs then 0 <=? prec fs else prec fs <=? 0) &&
  negb (has_prec fs && no_prec_conv (conv_spec fs)) &&
  negb (leading_zero_pad fs && (left_justified fs || has_prec fs || text_conv (conv_spec fs))) &&
  ((prepend fs =? 0) || (prepend fs =? ch "+") || (prepend fs =? ch " ")) &&
  ((case_adjust fs =? 0) || (case_adjust fs =? LOWER)).

Lemma directive_ok_spec fs :
  directive_ok fs = true →
  0 ≤ field_width fs ≤ 2 ^ 30 ∧ - 2 ^ 30 ≤ prec fs ≤ 2 ^ 30 ∧
  (field_width_opt fs = NPF_FMT_SPEC_OPT_NONE → field_width fs = 0) ∧
  (if has_prec fs then 0 ≤ prec fs else prec fs ≤ 0) ∧
  (no_prec_conv (conv_spec fs) = true → prec fs ≤ 0) ∧
  (leading_zero_pad fs = true →
    left_justified fs = false ∧ has_prec fs = false ∧ text_conv (conv_spec fs) = false) ∧
  (prepend fs = 0 ∨ prepend fs = ch "+" ∨ prepend fs = ch " ") ∧
  (case_adjust fs = 0 ∨ case_adjust fs = LOWER).
Proof.
  unfold directive_ok. rewrite !andb_true_iff, !orb_true_iff, !negb_true_iff, !Z.leb_le, !Z.eqb_eq.
  intros (((((((((H1 & H2) & H3) & H4) & H5) & H6) & H7) & H8) & H9) & H10).
  rewrite bool_decide_eq_true in H5. split_and!; try tauto; try lia.
  - destruct (has_prec fs); lia.
  - intros E. rewrite E, andb_true_r in H7. rewrite H7 in H6. lia.
  - intros E. rewrite E in H8. by destruct (left_justified fs), (has_prec fs), (text_conv (conv_spec fs)).
Qed.

Lemma length_sign_text c : Z.of_nat (length (sign_text c)) = if c =? 0 then 0 else 1.
Proof. unfold sign_text. by destruct (c =? 0). Qed.
Lemma length_prefix_0x x : Z.of_nat (length (prefix_0x x)) = if x =? 0 then 0 else 2.
Proof. unfold prefix_0x. by destruct (x =? 0). Qed.

Lemma pad_c_spec cv :
  directive_ok (cv_fs cv) = true →
  npf_pad_c cv =
    if bool_decide (field_width_opt (cv_fs cv) = NPF_FMT_SPEC_OPT_NONE) then 0
    else if leading_zero_pad (cv_fs cv) then ch "0" else ch " ".
Proof.
  intros (_ & _ & _ & _ & _ & Hz & _)%directive_ok_spec. unfold npf_pad_c.
  destruct (field_width_opt (cv_fs cv)); simpl; [done| |];
    (destruct (leading_zero_pad (cv_fs cv)); [|done]; destruct (Hz eq_refl) as (_ & Hp & Ht);
     rewrite Hp; by destruct (conv_spec (cv_fs cv))).
Qed.

Lemma npf_max_spec x y : npf_max x y = Z.max x y.
Proof. unfold npf_max. destruct (Z.ltb_spec y x); lia. Qed.

(** The paddings the code computes are those of [field]. *)
Lemma field_text_field cv body :
  directive_ok (cv_fs cv) = true →
  0 ≤ cbuf_len cv ≤ 2 ^ 30 → length (payload cv) = Z.to_nat (cbuf_len cv) →
  sign_c cv = 0 ∨ need_0x cv = 0 →
  (conv_spec (cv_fs cv) = NPF_FMT_SPEC_CONV_STRING → sign_c cv = 0) →
  body = match conv_spec (cv_fs cv) with
         | NPF_FMT_SPEC_CONV_STRING => payload cv
         | _ => replicate (Z.to_nat (prec (cv_fs cv) - cbuf_len cv)) (ch "0") ++ payload cv
         end →
  ∃ pp fp, npf_prec_pad cv = Ok pp ∧ npf_field_pad cv pp = Ok fp ∧
    field_text cv (Z.to_nat pp) (Z.to_nat fp) =
      field (cv_fs cv) (sign_text (sign_c cv) ++ prefix_0x (need_0x cv)) body.
Proof.
  intros Hok Hlen Hpay Hpre Hstr Hbody. pose proof (pad_c_spec cv Hok) as Hpad.
  apply directive_ok_spec in Hok as (Hw & Hp & Hw0 & Hhp & _ & Hz & _).
  set (fs := cv_fs cv) in *.
  set (pp := match conv_spec fs with NPF_FMT_SPEC_CONV_STRING => 0 | _ => Z.max 0 (prec fs - cbuf_len cv) end).
  set (pre := sign_text (sign_c cv) ++ prefix_0x (need_0x cv)) in *.
  assert (npf_prec_pad cv = Ok pp) as Hpp.
  { unfold npf_prec_pad, pp. fold fs. destruct (conv_spec fs); try done;
      rewrite int_ok by (unfold INT_MIN, INT_MAX; lia); cbn [mbind res_bind];
      by rewrite npf_max_spec. }
  assert (0 ≤ pp ∧ pp + cbuf_len cv ≤ 2 ^ 30) as Hppr by (unfold pp; destruct (conv_spec fs); lia).
  assert (Z.of_nat (length body) = pp + cbuf_len cv) as Hbl.
  { rewrite Hbody. unfold pp. destruct (conv_spec fs); rewrite ?length_app, ?length_replicate; lia. }
  assert (Z.of_nat (length pre) = (if sign_c cv =? 0 then 0 else 1) + (if need_0x cv =? 0 then 0 else 2)) as Hpl.
  { unfold pre. by rewrite length_app, Nat2Z.inj_add, length_sign_text, length_prefix_0x. }
  set (fp := Z.max 0 (field_width fs - Z.of_nat (length pre + length body))).
  assert (npf_field_pad cv pp = Ok fp) as Hfp.
  { unfold npf_field_pad, fp. fold fs. rewrite Nat2Z.inj_add, Hbl, Hpl.
    rewrite int_ok by (unfold INT_MIN, INT_MAX; lia). cbn [mbind res_bind].
    rewrite int_ok by (unfold INT_MIN, INT_MAX; destruct (sign_c cv =? 0); lia). cbn [mbind res_bind].
    destruct (sign_c cv =? 0), (need_0x cv =? 0); cbn [mbind res_bind];
      repeat (rewrite int_ok by (unfold INT_MIN, INT_MAX; lia); cbn [mbind res_bind]);
      rewrite npf_max_spec; f_equal; lia. }
  exists pp, fp. split_and!; [done|done|].
  unfold field_text, field. fold fs. rewrite Hpad. clear Hfp Hpp.
  replace (Z.to_nat (field_width fs) - (length pre + length body))%nat with (Z.to_nat fp) by (unfold fp; lia).
  assert (pre = prefix_0x (need_0x cv) ++ sign_text (sign_c cv)) as Hcomm.
  { unfold pre, sign_text, prefix_0x. destruct Hpre as [-> | ->]; simpl; by rewrite ?app_nil_r. }
  assert (prefix_0x (need_0x cv) ++
    match conv_spec fs with NPF_FMT_SPEC_CONV_STRING => [] | _ => sign_text (sign_c cv) end = pre) as Hx.
  { rewrite Hcomm. destruct (conv_spec fs); try done. by rewrite Hstr. }
  assert (match conv_spec fs with
          | NPF_FMT_SPEC_CONV_STRING => payload cv
          | _ => replicate (Z.to_nat pp) (ch "0") ++ payload cv end = body) as ->.
  { rewrite Hbody. unfold pp. destruct (conv_spec fs); try done; do 2 f_equal; lia. }
  rewrite !(assoc_L (++) (prefix_0x _)), Hx.
  assert (bool_decide (field_width_opt fs = NPF_FMT_SPEC_OPT_NONE) = true → Z.to_nat fp = 0%nat) as Hfp0.
  { rewrite bool_decide_eq_true. intros E. specialize (Hw0 E). unfold fp. lia. }
  destruct (bool_decide _), (left_justified fs), (leading_zero_pad fs); simpl;
    rewrite ?Hfp0 by done; simpl; rewrite ?app_nil_r; try done;
    try (by destruct (Hz eq_refl) as (? & _)).
  change (ch "0" =? 0) with false. change (ch "0" =? ch "0") with true. cbn iota.
  unfold pre. by rewrite <-!(assoc_L (++)).
Qed.

(** ** The conversions *)

Lemma npf_bin_len_half v : 2 ≤ v → npf_bin_len v = npf_bin_len (v `div` 2) + 1.
Proof.
  intros Hv. unfold npf_bin_len, builtin_clzll. assert (1 ≤ v `div` 2) by (apply Z.div_le_lower_bound; lia).
  rewrite (proj2 (Z.eqb_neq v 0)), (proj2 (Z.eqb_neq (v `div` 2) 0)) by lia.
  assert (Z.log2 v = Z.log2 (v `div` 2) + 1); [|lia].
  rewrite <-Z.div2_div. pose proof (Z.div2_odd v) as Hodd.
  assert (0 < Z.div2 v) by (rewrite Z.div2_div; lia).
  destruct (Z.odd v); simpl in Hodd; rewrite Hodd at 1; rewrite ?Z.add_0_r.
  - rewrite Z.log2_succ_double by done. lia.
  - rewrite Z.log2_double by done. lia.
Qed.

(** Digits of base two are the bits below the highest one. *)
Lemma bits_digits adj fuel v :
  0 ≤ v < 2 ^ Z.of_nat fuel → (0 < fuel)%nat →
  map (npf_digit adj) (digits fuel 2 v) =
  map (λ i, ch "0" + Z.land (Z.shiftr v (Z.of_nat i)) 1) (seq 0 (Z.to_nat (npf_bin_len v))).
Proof.
  revert v. induction fuel as [|fuel IH]; intros v Hv Hf; [lia|]. cbn [digits].
  assert (npf_digit adj (v mod 2) = ch "0" + Z.land (Z.shiftr v 0) 1) as Hd.
  { rewrite Z.shiftr_0_r. assert (Z.land v 1 = v mod 2) as -> by (apply (land_ones_mod 1); lia).
    pose proof (Z.mod_pos_bound v 2 ltac:(lia)). unfold npf_digit.
    rewrite (proj2 (Z.ltb_lt _ _)) by lia. change (ch "0") with 48. apply wrap_small.
    change (2 ^ 8) with 256. lia. }
  destruct (Z.eqb_spec (v `div` 2) 0) as [E|E].
  - assert (npf_bin_len v = 1) as ->.
    { assert (v = 0 ∨ v = 1) as [-> | ->] by (pose proof (Z.div_mod v 2); pose proof (Z.mod_pos_bound v 2); lia); done. }
    change (Z.to_nat 1) with 1%nat. cbn [map seq]. by rewrite Hd.
  - assert (0 ≤ v `div` 2) by (apply Z.div_pos; lia).
    assert (2 ≤ v) as H2. { destruct (decide (v < 2)); [|lia]. rewrite Z.div_small in E by lia. lia. }
    rewrite Nat2Z.inj_succ, Z.pow_succ_r in Hv by lia.
    assert (v `div` 2 < 2 ^ Z.of_nat fuel) by (apply Z.div_lt_upper_bound; lia).
    assert (0 < npf_bin_len (v `div` 2)) as Hpos.
    { unfold npf_bin_len, builtin_clzll. pose proof (Z.log2_nonneg (v `div` 2)). destruct (_ =? 0); lia. }
    rewrite npf_bin_len_half, Z2Nat.inj_add by lia. change (Z.to_nat 1) with 1%nat.
    rewrite Nat.add_comm. cbn [Nat.add seq map]. rewrite Hd. f_equal.
    rewrite IH; [|lia|]. 2: { destruct fuel; [simpl in *; lia|lia]. }
    rewrite <-seq_shift, map_map. apply map_ext. intros i.
    rewrite Nat2Z.inj_succ, <-Z.add_1_l, <-Z.shiftr_shiftr by lia. do 2 f_equal.
    f_equal. symmetry. apply (Z.shiftr_div_pow2 v 1). lia.
Qed.

Lemma bits_text_number adj v :
  0 ≤ v < 2 ^ 64 → bits_text (Z.to_nat (npf_bin_len v)) v = number_text 2 adj v.
Proof. intros Hv. unfold bits_text, number_text. by rewrite bits_digits by (done || lia). Qed.

Lemma npf_bin_len_range v : 0 ≤ v < 2 ^ 64 → 1 ≤ npf_bin_len v ≤ 64.
Proof.
  intros Hv. unfold npf_bin_len, builtin_clzll. destruct (Z.eqb_spec v 0); [lia|].
  pose proof (Z.log2_nonneg v). assert (Z.log2 v < 64) by (apply Z.log2_lt_pow2; lia). lia.
Qed.

Lemma sint_range w v : 0 < w → - 2 ^ (w - 1) ≤ sint w v < 2 ^ (w - 1).
Proof.
  intros Hw. unfold sint. pose proof (wrap_range w v ltac:(lia)).
  assert (2 ^ w = 2 * 2 ^ (w - 1)) by (rewrite <-Z.pow_succ_r by lia; f_equal; lia).
  destruct (Z.ltb_spec (wrap w v) (2 ^ (w - 1))); lia.
Qed.

Lemma extract_signed_range lm w : - 2 ^ 63 ≤ npf_extract_signed lm w < 2 ^ 63.
Proof.
  destruct lm; simpl;
    match goal with |- _ ≤ sint ?k ?v < _ => pose proof (sint_range k v ltac:(lia)) end; simpl in *; lia.
Qed.

Lemma extract_unsigned_range lm w : 0 ≤ npf_extract_unsigned lm w < 2 ^ 64.
Proof.
  destruct lm; simpl;
    match goal with |- _ ≤ wrap ?k ?v < _ => pose proof (wrap_range k v ltac:(lia)) end; simpl in *; lia.
Qed.

(** [cv] prints as [out]. *)
Definition prints (cv : npf_conversion) (out : list Z) : Prop :=
  (conv_spec (cv_fs cv) = NPF_FMT_SPEC_CONV_BINARY ∨ Z.to_nat (cbuf_len cv) ≤ length (cbuf cv))%nat ∧
  ∃ pp fp, npf_prec_pad cv = Ok pp ∧ npf_field_pad cv pp = Ok fp ∧
    field_text cv (Z.to_nat pp) (Z.to_nat fp) = out.

(** A buffer that holds the digits [ds] in reverse. *)
Lemma prints_digits fs ds r bin sign x z :
  directive_ok fs = true → Z.of_nat (length ds) ≤ 2 ^ 30 → sign = 0 ∨ x = 0 →
  conv_spec fs ≠ NPF_FMT_SPEC_CONV_STRING → conv_spec fs ≠ NPF_FMT_SPEC_CONV_BINARY →
  prints (MkConv fs (rev ds ++ r) bin (Z.of_nat (length ds)) sign x z)
    (field fs (sign_text sign ++ prefix_0x x)
       (replicate (Z.to_nat (prec fs) - length ds) (ch "0") ++ ds)).
Proof.
  intros Hok Hlen Hpre Hns Hnb. set (cv := MkConv _ _ _ _ _ _ _).
  assert (payload cv = ds) as Hpay.
  { transitivity (rev (take (length ds) (rev ds ++ r))).
    - unfold payload, cv. cbn [cv_fs cbuf_len cbuf]. rewrite Nat2Z.id. by destruct (conv_spec fs).
    - rewrite <-(length_rev ds), take_app_length. apply rev_involutive. }
  split.
  { right. unfold cv. cbn [cbuf_len cbuf]. rewrite length_app, length_rev. lia. }
  apply (field_text_field cv); try done.
  - unfold cv. cbn [cbuf_len]. lia.
  - rewrite Hpay. unfold cv. cbn [cbuf_len]. lia.
  - rewrite Hpay. unfold cv. cbn [cv_fs cbuf_len].
    replace (Z.to_nat (prec fs) - length ds)%nat with (Z.to_nat (prec fs - Z.of_nat (length ds))) by lia.
    by destruct (conv_spec fs).
Qed.

Lemma prints_bits fs v x z :
  directive_ok fs = true → 0 ≤ v < 2 ^ 64 → conv_spec fs = NPF_FMT_SPEC_CONV_BINARY → ∀ buf,
  prints (MkConv fs buf v (npf_bin_len v) 0 x z)
    (field fs (prefix_0x x)
       (replicate (Z.to_nat (prec fs) - length (number_text 2 (case_adjust fs) v)) (ch "0") ++
        number_text 2 (case_adjust fs) v)).
Proof.
  intros Hok Hv Hb buf. set (cv := MkConv _ _ _ _ _ _ _). pose proof (npf_bin_len_range v Hv) as Hr.
  assert (payload cv = number_text 2 (case_adjust fs) v) as Hpay.
  { unfold payload, cv. cbn [cv_fs cbuf_len binval]. rewrite Hb. by apply bits_text_number. }
  assert (length (number_text 2 (case_adjust fs) v) = Z.to_nat (npf_bin_len v)) as Hlen.
  { rewrite <-bits_text_number by done. unfold bits_text. by rewrite length_rev, length_map, length_seq. }
  split; [by left|]. apply (field_text_field cv); try done.
  - unfold cv. cbn [cbuf_len]. lia.
  - by rewrite Hpay.
  - by left.
  - rewrite Hpay, Hlen. unfold cv. cbn [cv_fs cbuf_len]. rewrite Hb. do 2 f_equal. lia.
Qed.

Lemma prints_eq cv out out' : prints cv out → out = out' → prints cv out'.
Proof. by intros ? <-. Qed.

Lemma uval_abs v : - 2 ^ 63 ≤ v < 2 ^ 63 → (if v <? 0 then 0 -64 u64 v else u64 v) = Z.abs v.
Proof.
  intros Hv. destruct (Z.ltb_spec v 0).
  - unfold wrap. rewrite Zminus_mod_idemp_r. rewrite Z.mod_small; lia.
  - rewrite wrap_small; lia.
Qed.

Lemma convert_signed_prints junk fs w :
  length junk = 23%nat → directive_ok fs = true → conv_spec fs = NPF_FMT_SPEC_CONV_SIGNED_INT →
  let v := npf_extract_signed (length_modifier fs) w in
  ∃ cv, npf_convert_signed junk fs w = Ok cv ∧
    prints cv (field fs (sign_text (if v <? 0 then ch "-" else prepend fs)) (printf_digits fs 10 (Z.abs v))).
Proof.
  intros Hj Hok Hc v. pose proof (extract_signed_range (length_modifier fs) w) as Hv. fold v in Hv.
  unfold npf_convert_signed, printf_digits. fold v. rewrite Hc.
  assert ((Z.abs v =? 0) = (v =? 0)) as -> by (destruct (Z.eqb_spec v 0), (Z.eqb_spec (Z.abs v) 0); lia).
  cbn [bool_decide]. rewrite bool_decide_eq_false_2 by done. cbn [andb].
  destruct (_ && _ && _).
  { eexists. split; [reflexivity|]. eapply prints_eq.
    - apply (prints_digits fs [] junk); [done|simpl; lia|by right|by rewrite Hc..].
    - by rewrite (app_nil_r (sign_text _)). }
  rewrite uval_abs by done. rewrite (npf_utoa_rev_22 (Z.abs v) 10) by lia. cbn [mbind res_bind fst snd].
  eexists. split; [reflexivity|]. eapply prints_eq.
  - apply (prints_digits fs (number_text 10 (case_adjust fs) (Z.abs v)));
      [done| |by right|by rewrite Hc..].
    pose proof (number_text_length 10 (case_adjust fs) (Z.abs v)). lia.
  - by rewrite (app_nil_r (sign_text _)).
Qed.

Lemma directive_ok_prec1 fs :
  directive_ok fs = true → has_prec fs = true → conv_spec fs = NPF_FMT_SPEC_CONV_OCTAL →
  directive_ok (set_prec 1 (prec_opt fs) fs) = true.
Proof.
  intros Hok Hp Hc. unfold directive_ok, has_prec in *. simpl in *. rewrite Hp, Hc in *.
  rewrite !andb_true_iff in Hok |- *. intuition done.
Qed.

Lemma number_text_hd base adj v :
  adj = 0 ∨ adj = LOWER → 2 ≤ base ≤ 16 → 0 ≤ v < 2 ^ 64 →
  (hd 0 (number_text base adj v) =? ch "0") = (v =? 0).
Proof.
  intros Hadj Hb Hv. destruct (number_text_spec base adj v Hadj Hb Hv) as (_ & Hpos & Hnz & Hz).
  destruct (Z.eqb_spec v 0) as [E|E].
  - by rewrite Hz.
  - specialize (Hnz E). apply Z.eqb_neq. destruct (number_text base adj v) as [|c l]; [done|].
    simpl in *. congruence.
Qed.

Lemma prints_empty fs junk sign x z :
  directive_ok fs = true → sign = 0 ∨ x = 0 → conv_spec fs ≠ NPF_FMT_SPEC_CONV_STRING →
  prints (MkConv fs junk 0 0 sign x z)
    (field fs (sign_text sign ++ prefix_0x x) (replicate (Z.to_nat (prec fs)) (ch "0"))).
Proof.
  intros Hok Hpre Hns. set (cv := MkConv _ _ _ _ _ _ _).
  assert (payload cv = []) as Hpay by (unfold payload, cv; cbn [cv_fs cbuf_len]; by destruct (conv_spec fs)).
  split; [right; simpl; lia|]. apply (field_text_field cv); try done.
  - by rewrite Hpay.
  - rewrite Hpay. unfold cv. cbn [cv_fs cbuf_len]. rewrite Z.sub_0_r, app_nil_r. by destruct (conv_spec fs).
Qed.

(** The prefix character the code keeps in [need_0x]. *)
Definition code_0x (fs : npf_format_spec) (v : Z) : Z :=
  if negb (v =? 0) && alt_form fs then
    match conv_spec fs with
    | NPF_FMT_SPEC_CONV_HEX_INT => ch "X" + case_adjust fs
    | NPF_FMT_SPEC_CONV_BINARY => ch "B" + case_adjust fs
    | _ => 0
    end
  else 0.

Lemma prefix_code_0x fs v : 0 ≤ case_adjust fs → prefix_0x (code_0x fs v) = printf_prefix fs v.
Proof.
  intros Hadj. unfold prefix_0x, code_0x, printf_prefix.
  destruct (v =? 0), (alt_form fs); cbn [negb andb]; try done. change (ch "X") with 88. change (ch "B") with 66.
  destruct (conv_spec fs); try done; (rewrite (proj2 (Z.eqb_neq _ 0)) by lia; done).
Qed.

(** The digits of a number that is not zero-suppressed, with the octal zero
    added behind them in the reversed buffer. *)
Definition alt_octal (fs : npf_format_spec) (v : Z) : bool :=
  negb (v =? 0) && alt_form fs && bool_decide (conv_spec fs = NPF_FMT_SPEC_CONV_OCTAL).

Lemma octal_zero_stored fs v text junk :
  length junk = 23%nat → (length text ≤ 22)%nat →
  ∃ r, (if alt_octal fs v then
          buf' ← buf_set (Z.to_nat (Z.of_nat (length text))) (ch "0") (rev text ++ drop (length text) junk);
          Ok (buf', Z.of_nat (length text) + 1)
        else Ok (rev text ++ drop (length text) junk, Z.of_nat (length text))) =
    let text' := if alt_octal fs v then ch "0" :: text else text in
    Ok (rev text' ++ r, Z.of_nat (length text')).
Proof.
  intros Hj Ht. destruct (alt_octal fs v); [|by eexists].
  destruct (drop (length text) junk) as [|y r] eqn:Ed.
  { apply (f_equal length) in Ed. rewrite length_drop in Ed. simpl in Ed. lia. }
  exists r. rewrite Nat2Z.id, buf_set_at by (by rewrite length_rev). cbn [mbind res_bind rev length].
  rewrite <-(assoc_L (++)). simpl. do 2 f_equal. lia.
Qed.

Lemma convert_unsigned_prints junk fs w :
  length junk = 23%nat → directive_ok fs = true →
  conv_spec fs = NPF_FMT_SPEC_CONV_BINARY ∨ conv_spec fs = NPF_FMT_SPEC_CONV_OCTAL ∨
  conv_spec fs = NPF_FMT_SPEC_CONV_HEX_INT ∨ conv_spec fs = NPF_FMT_SPEC_CONV_UNSIGNED_INT →
  let v := npf_extract_unsigned (length_modifier fs) w in
  ∃ cv, npf_convert_unsigned junk fs w = Ok cv ∧
    prints cv (field fs (printf_prefix fs v) (printf_digits fs (printf_base (conv_spec fs)) v)).
Proof.
  intros Hj Hok Hc v. pose proof (extract_unsigned_range (length_modifier fs) w) as Hv. fold v in Hv.
  pose proof (directive_ok_spec fs Hok) as (_ & _ & _ & _ & _ & _ & _ & Hadj).
  unfold npf_convert_unsigned, printf_digits. fold v.
  assert (0 ≤ case_adjust fs) as Hadj0 by (unfold LOWER in Hadj; lia).
  assert (conv_spec fs ≠ NPF_FMT_SPEC_CONV_STRING) as Hns.
  { clear -Hc. by destruct Hc as [-> | [-> | [-> | ->]]]. }
  destruct (_ && _ && _) eqn:Ez.
  - rewrite !andb_true_iff, !Z.eqb_eq in Ez. destruct Ez as [[Ev Ep] Ep0].
    cbn [mbind res_bind].
    assert (∀ fs', alt_octal fs' v = false ∧ code_0x fs' v = 0) as Hz.
    { intros fs'. unfold alt_octal, code_0x. by rewrite (proj2 (Z.eqb_eq v 0) Ev). }
    destruct (bool_decide _ && alt_form fs) eqn:Eo; cbn [andb hd].
    + fold (alt_octal (set_prec 1 (prec_opt fs) fs) v). fold (code_0x (set_prec 1 (prec_opt fs) fs) v).
      rewrite (proj1 (Hz _)), (proj2 (Hz _)). cbn [mbind res_bind].
      apply andb_true_iff in Eo as [Eo%bool_decide_eq_true _].
      eexists. split; [reflexivity|]. eapply prints_eq.
      * apply prints_empty; [by apply directive_ok_prec1|by left|done].
      * rewrite <-(prefix_code_0x fs) by done. by rewrite (proj2 (Hz fs)), Ep0.
    + fold (alt_octal fs v). fold (code_0x fs v). rewrite (proj1 (Hz _)), (proj2 (Hz _)). cbn [mbind res_bind].
      eexists. split; [reflexivity|]. eapply prints_eq; [apply prints_empty; [done|by left|done]|].
      rewrite <-(prefix_code_0x fs) by done. rewrite (proj2 (Hz fs)). cbn [length].
      by rewrite Nat.sub_0_r, (app_nil_r (replicate _ _)).
  - assert (2 ≤ printf_base (conv_spec fs) ≤ 16) as Hbase.
    { clear -Hc. by destruct Hc as [-> | [-> | [-> | ->]]]. }
    rewrite number_text_hd by done. rewrite <-(prefix_code_0x fs) by done.
    replace (bool_decide (conv_spec fs = NPF_FMT_SPEC_CONV_OCTAL) && alt_form fs && negb (v =? 0))
      with (alt_octal fs v) by (unfold alt_octal; destruct (v =? 0), (alt_form fs), (bool_decide _); done).
    destruct (decide (conv_spec fs = NPF_FMT_SPEC_CONV_BINARY)) as [Eb|Eb].
    + rewrite bool_decide_eq_true_2 by done. cbn [mbind res_bind]. fold (alt_octal fs v). fold (code_0x fs v).
      assert (alt_octal fs v = false) as ->.
      { unfold alt_octal. rewrite Eb. rewrite (bool_decide_eq_false_2 (_ = _)) by done. apply andb_false_r. }
      cbn [mbind res_bind]. eexists. split; [reflexivity|]. rewrite Eb. by apply prints_bits.
    + rewrite bool_decide_eq_false_2 by done.
      assert (npf_base (conv_spec fs) = printf_base (conv_spec fs)) as -> by (by destruct (conv_spec fs)).
      assert (8 ≤ printf_base (conv_spec fs)) as Hbase8.
      { clear -Hc Eb. by destruct Hc as [E | [-> | [-> | ->]]]. }
      rewrite npf_utoa_rev_22 by lia. cbn [mbind res_bind fst snd]. fold (alt_octal fs v). fold (code_0x fs v).
      pose proof (number_text_length (printf_base (conv_spec fs)) (case_adjust fs) v Hbase8 Hv) as Hlen.
      set (text := number_text (printf_base (conv_spec fs)) (case_adjust fs) v) in *. clearbody text.
      destruct (octal_zero_stored fs v text junk Hj ltac:(lia)) as [r Er]. cbn [mbind res_bind] in Er.
      rewrite Er. clear Er. cbn [res_bind].
      set (text' := if alt_octal fs v then ch "0" :: text else text).
      assert (Z.of_nat (length text') ≤ 2 ^ 30) by (unfold text'; destruct (alt_octal fs v); simpl; lia).
      eexists. split; [reflexivity|]. apply (prints_digits fs text'); [done|done|by left|done|done].
Qed.

Lemma cstr_prefix s : cstr s `prefix_of` s.
Proof. induction s as [|c s IH]; simpl; [done|]. destruct (c =? 0); [apply prefix_nil|by apply prefix_cons]. Qed.

Lemma npf_str_len_spec s popt p len :
  0 ≤ len → len + Z.of_nat (length s) ≤ 2 ^ 30 →
  npf_str_len s popt p len = Ok (len + Z.of_nat (length
    (if bool_decide (popt = NPF_FMT_SPEC_OPT_NONE) then cstr s else take (Z.to_nat (p - len)) (cstr s)))).
Proof.
  revert len. induction s as [|c s IH]; intros len H0 Hlen; simpl.
  { case_match; rewrite ?take_nil; simpl; by rewrite Z.add_0_r. }
  simpl in Hlen.
  assert (npf_str_len s popt p (len + 1) = Ok (len + 1 + Z.of_nat (length
    (if bool_decide (popt = NPF_FMT_SPEC_OPT_NONE) then cstr s else take (Z.to_nat (p - (len + 1))) (cstr s))))) as E.
  { apply IH; lia. }
  assert (int (len + 1) = Ok (len + 1)) as Ei by (apply int_ok; unfold INT_MIN, INT_MAX; lia).
  destruct (Z.eqb_spec c 0) as [Ec|Ec]; cbn [negb]; rewrite ?andb_false_r, ?andb_true_r.
  { case_match; rewrite ?take_nil; simpl; by rewrite Z.add_0_r. }
  destruct (bool_decide _) eqn:Ep; cbn [orb].
  { rewrite Ei. cbn [mbind res_bind]. rewrite E. simpl. f_equal. lia. }
  destruct (Z.ltb_spec len p) as [El|El].
  - rewrite Ei. cbn [mbind res_bind]. rewrite E.
    replace (Z.to_nat (p - len)) with (S (Z.to_nat (p - (len + 1)))) by lia. simpl. f_equal. lia.
  - replace (Z.to_nat (p - len)) with 0%nat by lia. simpl. by rewrite Z.add_0_r.
Qed.

Lemma prints_char fs c junk z :
  length junk = 23%nat → directive_ok fs = true →
  conv_spec fs = NPF_FMT_SPEC_CONV_PERCENT ∨ conv_spec fs = NPF_FMT_SPEC_CONV_CHAR →
  ∃ buf, buf_set 0 c junk = Ok buf ∧ prints (MkConv fs buf 0 1 0 0 z) (field fs [] [c]).
Proof.
  intros Hj Hok Hc. destruct junk as [|y r]; [done|]. exists ([c] ++ r). split; [done|].
  pose proof (directive_ok_spec fs Hok) as (_ & _ & _ & _ & Hp & _).
  eapply prints_eq; [apply (prints_digits fs [c] r); [done|simpl; lia|by left|..]|].
  1, 2: clear -Hc; by destruct Hc as [-> | ->].
  assert (prec fs ≤ 0) by (apply Hp; clear -Hc; by destruct Hc as [-> | ->]).
  by replace (Z.to_nat (prec fs)) with 0%nat by lia.
Qed.

Lemma prints_string fs s z :
  directive_ok fs = true → conv_spec fs = NPF_FMT_SPEC_CONV_STRING → Z.of_nat (length s) ≤ 2 ^ 30 →
  ∃ len, npf_str_len s (prec_opt fs) (prec fs) 0 = Ok len ∧
    prints (MkConv fs s 0 len 0 0 z) (field fs [] (printf_string fs s)).
Proof.
  intros Hok Hc Hs. rewrite npf_str_len_spec by lia. eexists. split; [reflexivity|]. rewrite Z.sub_0_r.
  assert ((if bool_decide (prec_opt fs = NPF_FMT_SPEC_OPT_NONE) then cstr s
           else take (Z.to_nat (prec fs)) (cstr s)) = printf_string fs s) as ->.
  { unfold printf_string, has_prec. by destruct (prec_opt fs). }
  assert (printf_string fs s `prefix_of` s) as [r Hr].
  { unfold printf_string. destruct (has_prec fs); [|apply cstr_prefix].
    etransitivity; [apply prefix_take|apply cstr_prefix]. }
  set (cv := MkConv _ _ _ _ _ _ _).
  assert (payload cv = printf_string fs s) as Hpay.
  { unfold payload, cv. cbn [cv_fs cbuf_len cbuf]. rewrite Hc, Z.add_0_l, Nat2Z.id. rewrite Hr at 2.
    apply take_app_length. }
  apply (f_equal length) in Hr. rewrite length_app in Hr.
  split; [right; unfold cv; cbn [cbuf_len cbuf]; lia|]. apply (field_text_field cv); try done.
  - unfold cv. cbn [cbuf_len]. lia.
  - rewrite Hpay. unfold cv. cbn [cbuf_len]. lia.
  - by left.
  - unfold cv at 1. cbn [cv_fs]. by rewrite Hc, Hpay.
Qed.

Lemma prints_pointer fs w junk z :
  length junk = 23%nat → directive_ok fs = true → conv_spec fs = NPF_FMT_SPEC_CONV_POINTER → 0 ≤ w < 2 ^ 64 →
  ∃ n buf, npf_utoa_rev w junk 16 LOWER = Ok (n, buf) ∧
    prints (MkConv fs buf 0 (Z.of_nat n) 0 (ch "x") z) (field fs [ch "0"; ch "x"] (number_text 16 LOWER w)).
Proof.
  intros Hj Hok Hc Hw. rewrite npf_utoa_rev_22 by lia. do 2 eexists. split; [reflexivity|].
  pose proof (number_text_length 16 LOWER w ltac:(lia) Hw).
  pose proof (directive_ok_spec fs Hok) as (_ & _ & _ & _ & Hp & _).
  eapply prints_eq; [apply (prints_digits fs (number_text 16 LOWER w)); [done|lia|by left|by rewrite Hc..]|].
  rewrite Hc in Hp. specialize (Hp eq_refl). by replace (Z.to_nat (prec fs)) with 0%nat by lia.
Qed.

Lemma npf_convert_prints junk fs args out args' :
  length junk = 23%nat → directive_ok fs = true → printf_directive fs args = Some (out, args') →
  ∃ cv, npf_convert junk fs args = Ok (cv, args') ∧ prints cv out.
Proof.
  intros Hj Hok. unfold printf_directive, npf_convert. destruct (conv_spec fs) eqn:Hc; intros Hd;
    try (destruct args as [|[w|] args]; [done| |done]; injection Hd as [= <- <-]; cbn [mbind res_bind va_word fst snd];
         destruct (convert_unsigned_prints junk fs (u64 w) Hj Hok) as (cv & -> & Hp); [tauto|];
         rewrite Hc in Hp; by eexists).
  - by destruct args.
  - injection Hd as [= <- <-]. destruct (prints_char fs (ch "%") junk false Hj Hok (or_introl Hc)) as (buf & -> & Hp).
    by eexists.
  - destruct args as [|[w|] args]; [done| |done]. injection Hd as [= <- <-]. cbn [mbind res_bind va_word fst snd].
    destruct (prints_char fs (u8 (u64 w)) junk false Hj Hok (or_intror Hc)) as (buf & -> & Hp). by eexists.
  - destruct args as [|[|p s] args]; [done|done|]. destruct (Z.leb_spec (Z.of_nat (length s)) (2 ^ 30)); [|done].
    injection Hd as [= <- <-]. cbn [mbind res_bind va_string fst snd].
    destruct (prints_string fs s false Hok Hc) as (len & -> & Hp); [done|]. by eexists.
  - destruct args as [|[w|] args]; [done| |done]. injection Hd as [= <- <-]. cbn [mbind res_bind va_word fst snd].
    destruct (convert_signed_prints junk fs (u64 w) Hj Hok Hc) as (cv & -> & Hp). by eexists.
  - destruct args as [|[w|] args]; [done| |done]. injection Hd as [= <- <-]. cbn [mbind res_bind va_word fst snd].
    destruct (prints_pointer fs (u64 w) junk false Hj Hok Hc) as (n & buf & -> & Hp).
    { apply wrap_range. lia. }
    by eexists.
Qed.

(** ** The formatter *)

Section formatter.
Context {S : Type} (pc : Z → M S unit).

Lemma npf_directive_emits junk fs args fs' args1 out args' :
  length junk = 23%nat → npf_star_args fs args = Ok (fs', args1) → directive_ok fs' = true →
  printf_directive fs' args1 = Some (out, args') →
  emits pc (npf_directive pc junk fs args) out args'.
Proof.
  intros Hj Hs Hok Hd. destruct (npf_convert_prints junk fs' args1 out args' Hj Hok Hd) as (cv & Hcv & Hl & pp & fp & Hpp & Hfp & <-).
  unfold npf_directive. apply (emits_bind_nil pc _ _ _ (fs', args1)); [by apply emits_lift|].
  apply (emits_bind_nil pc _ _ _ (cv, args')); [by apply emits_lift|]. cbn [fst snd].
  eapply emits_eq; [eapply emits_bind; [by apply npf_emit_text|apply emits_ret]|apply app_nil_r].
Qed.
End formatter.

(** The text of the directives that the parser reads, [None] where the
    reference does not say.  NpfFormat.v gives the text of a format without
    the parser, and proves that this is the same. *)
Fixpoint printf_text (fuel : nat) (format : list Z) (args : list va_slot) : option (list Z) :=
  match format, fuel with
  | [], _ => Some []
  | _, O => None
  | c :: rest, Datatypes.S fuel' =>
      if negb (c =? ch "%") then (c ::.) <$> printf_text fuel' rest args else
      match npf_parse_format_spec format with
      | Ok None => (c ::.) <$> printf_text fuel' rest args
      | Ok (Some (len, fs)) =>
          match npf_star_args fs args with
          | Ok (fs', args1) =>
              if directive_ok fs' then
                match printf_directive fs' args1 with
                | Some (out, args') => (out ++.) <$> printf_text fuel' (drop (Z.to_nat len) format) args'
                | None => None
                end
              else None
          | _ => None
          end
      | _ => None
      end
  end.

(** Printing a whole text. *)
Fixpoint put_all {S : Type} (pc : Z → M S unit) (out : list Z) : M S unit :=
  match out with [] => mret tt | c :: out' => pc c;; put_all pc out' end.

Section formatter.
Context {S : Type} (pc : Z → M S unit).

Lemma npf_loop_emits junk fuel format args out :
  length junk = 23%nat → printf_text fuel format args = Some out → emits pc (npf_loop pc junk fuel format args) out tt.
Proof.
  intros Hj. revert format args out. induction fuel as [|fuel IH]; intros [|c rest] args out Hd; cbn [printf_text npf_loop] in *;
    try (injection Hd as <-; apply emits_ret); [done|].
  assert (∀ o, (c ::.) <$> printf_text fuel rest args = Some o →
    emits pc (npf_putc_cnt pc c;; npf_loop pc junk fuel rest args) o tt) as Hlit.
  { intros o (o' & Ho & ->)%fmap_Some. apply (emits_bind pc _ _ [c] _ tt); [apply emits_putc|by apply IH]. }
  destruct (Z.eqb_spec c (ch "%")) as [Ec|Ec]; cbn [negb] in *.
  2: { apply (emits_bind_nil pc _ _ _ None); [apply emits_ret|by apply Hlit]. }
  destruct (npf_parse_format_spec (c :: rest)) as [[[len fs]|]| | |] eqn:Ep; try done.
  2: { apply (emits_bind_nil pc _ _ _ None); [by apply emits_lift|by apply Hlit]. }
  apply (emits_bind_nil pc _ _ _ (Some (len, fs))); [by apply emits_lift|].
  destruct (npf_star_args fs args) as [[fs' args1]| | |] eqn:Es; try done.
  destruct (directive_ok fs') eqn:Eok; [|done].
  destruct (printf_directive fs' args1) as [[o args']|] eqn:Ed; [|done].
  apply fmap_Some in Hd as (o' & Ho & ->). eapply emits_bind; [by eapply npf_directive_emits|by apply IH].
Qed.

Lemma put_list_all out s n :
  n + Z.of_nat (length out) ≤ INT_MAX → 0 ≤ n →
  put_list pc out (MkCnt s n) =
    match put_all pc out s with
    | Ok (_, s') => Ok (tt, MkCnt s' (n + Z.of_nat (length out)))
    | Panic msg => Panic msg
    | Fault addr => Fault addr
    | NoFuel => NoFuel
    end.
Proof.
  revert s n. induction out as [|c out IH]; intros s n Hn H0; simpl; [by rewrite Z.add_0_r|]. simpl in Hn.
  unfold mbind, M_bind, npf_putc_cnt. cbn [cnt_n cnt_ctx].
  rewrite int_ok by (unfold INT_MIN, INT_MAX in *; lia).
  destruct (pc c s) as [[u s']| | |]; [|done..]. rewrite IH by lia.
  destruct (put_all pc out s') as [[]| | |]; [|done..]. do 3 f_equal. lia.
Qed.

Lemma npf_vpprintf_text junk format args out s :
  length junk = 23%nat → printf_text (length format) format args = Some out → Z.of_nat (length out) ≤ INT_MAX →
  npf_vpprintf pc junk format args s = (put_all pc out;; mret (Z.of_nat (length out))) s.
Proof.
  intros Hj Ht Hlen. unfold npf_vpprintf. rewrite (npf_loop_emits junk _ format args out Hj Ht).
  unfold mbind, M_bind. rewrite put_list_all by lia. by destruct (put_all pc out s) as [[]| | |].
Qed.
End formatter.

(** ** Termination *)

Lemma parse_flags_length cur l z p a : (length (npf_parse_flags cur l z p a).1 ≤ length cur)%nat.
Proof.
  revert l z p a. induction cur as [|c cur IH]; intros; simpl; [lia|].
  repeat case_match; simpl; try (etransitivity; [apply IH|lia]); lia.
Qed.

Lemma parse_digits_length cur v cur' v' : npf_parse_digits cur v = Ok (cur', v') → (length cur' ≤ length cur)%nat.
Proof.
  revert v. induction cur as [|c cur IH]; intros v H; simpl in H; [by simplify_eq|].
  destruct (is_digit c); [|by simplify_eq].
  destruct (int (v * 10)) as [v10| | |]; cbn [mbind res_bind] in H; [|done..].
  destruct (int _) as [v1| | |]; cbn [mbind res_bind] in H; [|done..]. apply IH in H. simpl. lia.
Qed.

Lemma tail_length {A} (l : list A) : (length (tail l) ≤ length l)%nat.
Proof. destruct l; simpl; lia. Qed.

Lemma parse_width_length cur cur' r : npf_parse_width cur = Ok (cur', r) → (length cur' ≤ length cur)%nat.
Proof.
  unfold npf_parse_width. destruct (_ =? _); [intros [= <- _]; apply tail_length|].
  destruct (npf_parse_digits cur 0) as [[c1 v]| | |] eqn:E; cbn [mbind res_bind]; [|done..].
  intros [= <- _]. by eapply parse_digits_length.
Qed.

Lemma parse_prec_length cur cur' r : npf_parse_prec cur = Ok (cur', r) → (length cur' ≤ length cur)%nat.
Proof.
  unfold npf_parse_prec. pose proof (tail_length cur). pose proof (tail_length (tail cur)).
  destruct (hd 0 cur =? _); [|intros [= <- _]; lia].
  destruct (_ =? _); [intros [= <- _]; lia|]. destruct (_ =? _).
  - destruct (npf_parse_digits (tail (tail cur)) 0) as [[c1 v]| | |] eqn:E; cbn [mbind res_bind]; [|done..].
    intros [= <- _]. apply parse_digits_length in E. simpl. lia.
  - destruct (npf_parse_digits (tail cur) 0) as [[c1 v]| | |] eqn:E; cbn [mbind res_bind]; [|done..].
    intros [= <- _]. apply parse_digits_length in E. simpl. lia.
Qed.

Lemma parse_length_length cur : (length (npf_parse_length cur).1 ≤ length cur)%nat.
Proof.
  unfold npf_parse_length. pose proof (tail_length cur). pose proof (tail_length (tail cur)).
  repeat case_match; simpl; lia.
Qed.

(** A directive has at least the percent sign and a conversion character,
    all of them inside the format. *)
Lemma npf_parse_format_spec_length format len fs :
  npf_parse_format_spec format = Ok (Some (len, fs)) → 2 ≤ len ≤ Z.of_nat (length format).
Proof.
  unfold npf_parse_format_spec. pose proof (parse_flags_length (tail format) false false 0 false) as H1.
  destruct (npf_parse_flags _ _ _ _ _) as [c1 [[[l z] p] a]]. simpl in H1.
  destruct (npf_parse_width c1) as [[c2 [w wo]]| | |] eqn:E2; cbn [mbind res_bind]; [|done..].
  destruct (npf_parse_prec c2) as [[c3 [pr po]]| | |] eqn:E3; cbn [mbind res_bind]; [|done..].
  pose proof (parse_length_length c3) as H4. destruct (npf_parse_length c3) as [c4 lm]. simpl in H4.
  apply parse_width_length in E2. apply parse_prec_length in E3.
  destruct (npf_parse_conv (hd 0 c4) z po) as [[[[cv adj] z'] po']|] eqn:E5; [|done].
  intros [= <- _]. destruct c4 as [|c c4]; [done|]. simpl in *.
  destruct format as [|f format]; simpl in *; lia.
Qed.

(** [m] returns or stops with an error, but does not run out of a bound. *)
Definition bounded {S A : Type} (m : M S A) : Prop := ∀ s, m s ≠ NoFuel.

Lemma bounded_bind {S A B} (m : M S A) (k : A → M S B) : bounded m → (∀ a, bounded (k a)) → bounded (m ≫= k).
Proof. intros Hm Hk s. unfold mbind, M_bind. specialize (Hm s). destruct (m s) as [[a s']| | |]; try done. apply Hk. Qed.
Lemma bounded_ret {S A} (a : A) : bounded (mret a : M S A).
Proof. by intros s. Qed.
Lemma bounded_lift {S A} (r : res A) : r ≠ NoFuel → bounded (lift r : M S A).
Proof. intros Hr s. by destruct r. Qed.

Create HintDb bounded.
#[export] Hint Resolve bounded_bind bounded_ret bounded_lift : bounded.


Lemma int_bounded v : int v ≠ NoFuel.
Proof. unfold int. by destruct (_ && _). Qed.

Lemma parse_digits_bounded cur v : npf_parse_digits cur v ≠ NoFuel.
Proof.
  revert v. induction cur as [|c cur IH]; intros v; simpl; [done|]. destruct (is_digit c); [|done].
  apply res_bind_bounded; [apply int_bounded|]. intros. apply res_bind_bounded; [apply int_bounded|]. intros. apply IH.
Qed.

Lemma parse_bounded format : npf_parse_format_spec format ≠ NoFuel.
Proof.
  unfold npf_parse_format_spec. destruct (npf_parse_flags _ _ _ _ _) as [c1 [[[l z] p] a]].
  apply res_bind_bounded.
  { unfold npf_parse_width. case_match; [done|]. apply res_bind_bounded; [apply parse_digits_bounded|done]. }
  intros [c2 [w wo]] _. apply res_bind_bounded.
  { unfold npf_parse_prec. repeat case_match; try done; (apply res_bind_bounded; [apply parse_digits_bounded|done]). }
  intros [c3 [pr po]] _. destruct (npf_parse_length c3) as [c4 lm].
  by destruct (npf_parse_conv _ _ _) as [[[[? ?] ?] ?]|].
Qed.

Lemma star_args_bounded fs args : npf_star_args fs args ≠ NoFuel.
Proof.
  unfold npf_star_args. apply res_bind_bounded.
  - destruct (field_width_opt fs); try done. apply res_bind_bounded; [apply va_word_bounded|].
    intros. case_match; [|done]. apply res_bind_bounded; [apply int_bounded|done].
  - intros [fs' args'] _. destruct (prec_opt fs'); try done. apply res_bind_bounded; [apply va_word_bounded|done].
Qed.

(** The digits of a 64-bit number do not exceed the bound of the loop,
    whatever the buffer. *)
Lemma utoa_loop_bounded fuel v buf base adj n :
  2 ≤ base → 0 ≤ v < base ^ Z.of_nat fuel → (0 < fuel)%nat → npf_utoa_loop fuel v buf base adj n ≠ NoFuel.
Proof.
  intros Hb. revert v buf n. induction fuel as [|fuel IH]; intros v buf n Hv Hf; [lia|]. cbn [npf_utoa_loop].
  apply res_bind_bounded; [apply buf_set_bounded|]. intros buf' _.
  rewrite Nat2Z.inj_succ, Z.pow_succ_r in Hv by lia. destruct (Z.eqb_spec (v `div` base) 0) as [E|E]; [done|].
  apply IH.
  - split; [apply Z.div_pos; lia|apply Z.div_lt_upper_bound; lia].
  - destruct fuel; [|lia]. simpl in Hv. destruct E. apply Z.div_small. lia.
Qed.

Lemma utoa_rev_bounded v buf base adj : 2 ≤ base → 0 ≤ v < 2 ^ 64 → npf_utoa_rev v buf base adj ≠ NoFuel.
Proof.
  intros Hb Hv. apply utoa_loop_bounded; [done| |lia]. split; [lia|].
  eapply Z.lt_le_trans; [apply Hv|]. apply Z.pow_le_mono_l. lia.
Qed.

Lemma str_len_bounded s po p len : npf_str_len s po p len ≠ NoFuel.
Proof.
  revert len. induction s as [|c s IH]; intros len; simpl; [done|]. case_match; [|done].
  apply res_bind_bounded; [apply int_bounded|]. intros. apply IH.
Qed.

Lemma convert_bounded junk fs args : npf_convert junk fs args ≠ NoFuel.
Proof.
  assert (∀ w, npf_convert_unsigned junk fs w ≠ NoFuel) as Hu.
  { intros w. unfold npf_convert_unsigned. pose proof (extract_unsigned_range (length_modifier fs) w) as Hv.
    apply res_bind_bounded.
    - repeat case_match; try done; (apply res_bind_bounded; [|done]); apply utoa_rev_bounded; try done;
        by destruct (conv_spec fs).
    - intros [[[? ?] ?] ?] _. apply res_bind_bounded; [|by intros []].
      case_match; [|done]. apply res_bind_bounded; [apply buf_set_bounded|done]. }
  unfold npf_convert. destruct (conv_spec fs); try done;
    try (apply res_bind_bounded; [apply va_word_bounded|intros a Ha; apply res_bind_bounded; [|done]; try apply Hu]).
  - apply res_bind_bounded; [apply buf_set_bounded|done].
  - apply buf_set_bounded.
  - apply res_bind_bounded; [by destruct args as [|[]]|]. intros. apply res_bind_bounded; [apply str_len_bounded|done].
  - unfold npf_convert_signed. case_match; [done|]. rewrite uval_abs by apply extract_signed_range.
    apply res_bind_bounded; [|done]. apply utoa_rev_bounded; [done|].
    pose proof (extract_signed_range (length_modifier fs) a.1). lia.
  - apply utoa_rev_bounded; [done|]. destruct args as [|[]]; simplify_eq/=; apply wrap_range; lia.
Qed.

Section bounded_output.
Context {S : Type} (pc : Z → M S unit) (pc_bounded : ∀ c, bounded (pc c)).

Lemma putc_bounded c : bounded (npf_putc_cnt pc c).
Proof.
  intros s. unfold npf_putc_cnt. destruct (int _); try done. specialize (pc_bounded c (cnt_ctx s)).
  by destruct (pc c (cnt_ctx s)) as [[]| | |].
Qed.
Hint Resolve putc_bounded : bounded.

Lemma put_0x_bounded x : bounded (put_0x pc x).
Proof. unfold put_0x. case_match; auto with bounded. Qed.
Lemma put_pad_bounded n c : bounded (put_pad pc n c).
Proof. induction n; simpl; auto with bounded. Qed.
Lemma buf_get_bounded i b : buf_get i b ≠ NoFuel.
Proof. unfold buf_get. by case_match. Qed.
Hint Resolve buf_get_bounded : bounded.
Lemma put_string_bounded n i b : bounded (put_string pc n i b).
Proof. revert i. induction n; intros; simpl; auto with bounded. Qed.
Lemma put_reversed_bounded n b : bounded (put_reversed pc n b).
Proof. induction n; simpl; auto with bounded. Qed.
Lemma put_binary_bounded n v : bounded (put_binary pc n v).
Proof. induction n; simpl; auto with bounded. Qed.
Hint Resolve put_0x_bounded put_pad_bounded put_string_bounded put_reversed_bounded put_binary_bounded : bounded.

Lemma emit_bounded cv : bounded (npf_emit pc cv).
Proof.
  unfold npf_emit. apply bounded_bind.
  { apply bounded_lift. unfold npf_prec_pad. destruct (conv_spec _); try done;
      (apply res_bind_bounded; [apply int_bounded|done]). }
  intros pp. apply bounded_bind.
  { apply bounded_lift. unfold npf_field_pad. do 2 (apply res_bind_bounded; [apply int_bounded|intros ? _]).
    apply res_bind_bounded; [case_match; [done|apply int_bounded]|]. intros ? _.
    apply res_bind_bounded; [apply int_bounded|done]. }
  intros fp. apply bounded_bind; [|intros sign; apply bounded_bind; [|intros []]].
  - repeat case_match; eauto 10 with bounded.
  - destruct (conv_spec _); [eauto 10 with bounded..|]; repeat (apply bounded_bind; [case_match; auto with bounded|]); auto with bounded.
  - case_match; auto with bounded.
Qed.
End bounded_output.

Lemma loop_bounded {S} (pc : Z → M S unit) junk fuel format args :
  (∀ c, bounded (pc c)) → (length format ≤ fuel)%nat → bounded (npf_loop pc junk fuel format args).
Proof.
  intros Hpc. revert format args. induction fuel as [|fuel IH]; intros [|c rest] args Hf; cbn [npf_loop]; simpl in Hf;
    [apply bounded_ret|lia|apply bounded_ret|].
  assert (bounded (npf_putc_cnt pc c;; npf_loop pc junk fuel rest args)) as Hlit.
  { apply bounded_bind; [by apply putc_bounded|]. intros _. apply IH. lia. }
  destruct (Z.eqb_spec c (ch "%")); cbn [negb]; [|apply Hlit].
  intros s. destruct (npf_parse_format_spec (c :: rest)) as [p| | |] eqn:Ep;
    [|done|done|by destruct (parse_bounded (c :: rest))].
  change (match p with
          | Some (fs_len, fs) =>
              args' ← npf_directive pc junk fs args;
              npf_loop pc junk fuel (drop (Z.to_nat fs_len) (c :: rest)) args'
          | None => npf_putc_cnt pc c;; npf_loop pc junk fuel rest args
          end s ≠ NoFuel).
  destruct p as [[len fs]|]; [|apply Hlit]. apply npf_parse_format_spec_length in Ep.
  apply bounded_bind.
  - unfold npf_directive. apply bounded_bind; [apply bounded_lift, star_args_bounded|]. intros r.
    apply bounded_bind; [apply bounded_lift, convert_bounded|]. intros r'.
    apply bounded_bind; [by apply emit_bounded|]. intros _. apply bounded_ret.
  - intros args'. apply IH. rewrite length_drop. simpl. lia.
Qed.

(** ** The buffer of npf_vsnprintf *)

Lemma put_all_bufputc out a r :
  put_all npf_bufputc out (MkBpc (a ++ r) (Z.of_nat (length (a ++ r))) (Z.of_nat (length a))) =
  Ok (tt, MkBpc (a ++ take (length r) (map (wrap 8) out) ++ drop (length out) r)
            (Z.of_nat (length (a ++ r))) (Z.of_nat (length a + Nat.min (length r) (length out)))).
Proof.
  revert a r. induction out as [|c out IH]; intros a r; cbn [put_all].
  { rewrite Nat.min_0_r, Nat.add_0_r. simpl. by rewrite take_nil. }
  destruct r as [|x r].
  { unfold mbind, M_bind. unfold npf_bufputc at 1. cbn [bpc_cur bpc_len].
    rewrite app_nil_r, Z.ltb_irrefl. cbn iota beta. specialize (IH a []). rewrite app_nil_r in IH. rewrite IH.
    by rewrite !drop_nil. }
  unfold mbind, M_bind. unfold npf_bufputc at 1. cbn [bpc_cur bpc_len dst].
  rewrite (proj2 (Z.ltb_lt _ _)) by (rewrite length_app; simpl; lia).
  rewrite Nat2Z.id, buf_set_at by done.
  specialize (IH (a ++ [u8 c]) r). rewrite <-!(assoc_L (++)), !length_app in IH. simpl in IH.
  replace (Z.of_nat (length a) + 1) with (Z.of_nat (length a + 1)) by lia.
  rewrite length_app. simpl. rewrite IH. do 3 f_equal. lia.
Qed.

(** The characters that fit, with the terminating zero. *)
Lemma terminated_take (out r : list Z) :
  let L := length r in
  (0 < L)%nat →
  let k := Nat.min (length out) (L - 1) in
  take (S k) (<[(L - 1)%nat := 0]> (take L (out ++ [0]) ++ drop (length (out ++ [0])) r)) = take k out ++ [0].
Proof.
  intros L HL k. rewrite length_app. simpl.
  destruct (decide (length out < L - 1)%nat) as [Hk|Hk].
  - replace k with (length out) by lia. rewrite (take_ge (out ++ [0])) by (rewrite length_app; simpl; lia).
    rewrite take_insert_ge by lia. rewrite <-(assoc_L (++)). simpl.
    rewrite firstn_all. rewrite take_app. rewrite (take_ge out) by lia.
    replace (S (length out) - length out)%nat with 1%nat by lia. done.
  - replace k with (L - 1)%nat by lia. assert (length (take L (out ++ [0])) = L) as Hl.
    { rewrite length_take, length_app. simpl. lia. }
    rewrite (take_S_r _ _ 0).
    + rewrite take_insert_ge by lia. rewrite take_app_le by lia. rewrite take_take, Nat.min_l by lia.
      by rewrite take_app_le by lia.
    + apply list_lookup_insert_eq. rewrite length_app. lia.
Qed.

Lemma npf_vsnprintf_text junk buf format args out :
  length junk = 23%nat → (0 < length buf)%nat →
  printf_text (length format) format args = Some out → Z.of_nat (length out) ≤ INT_MAX →
  ∃ b, npf_vsnprintf junk (Some buf) (Z.of_nat (length buf)) format args = Ok (Z.of_nat (length out), Some b) ∧
    length b = length buf ∧
    let k := Nat.min (length out) (length buf - 1) in
    take (S k) b = take k (map (wrap 8) out) ++ [0].
Proof.
  intros Hj Hb Ht Hlen. unfold npf_vsnprintf. change (default [] (Some buf)) with buf.
  rewrite (npf_vpprintf_text npf_bufputc junk format args out _ Hj Ht Hlen).
  pose proof (put_all_bufputc out [] buf) as E1. cbn [app length] in E1. rewrite Nat2Z.inj_0 in E1.
  pose proof (put_all_bufputc (out ++ [0]) [] buf) as E2. cbn [app length] in E2. rewrite Nat2Z.inj_0 in E2.
  assert (put_all npf_bufputc (out ++ [0]) (MkBpc buf (Z.of_nat (length buf)) 0) =
    (put_all npf_bufputc out;; npf_bufputc 0) (MkBpc buf (Z.of_nat (length buf)) 0)) as E3.
  { clear. generalize (MkBpc buf (Z.of_nat (length buf)) 0). induction out as [|c out IH]; intros s.
    - cbn [app put_all]. unfold mbind, M_bind. cbn [mret M_ret]. unfold mret, M_ret.
      by destruct (npf_bufputc 0 s) as [[[] s']| | |].
    - cbn [app put_all]. rewrite bind_assoc. unfold mbind, M_bind in *. destruct (npf_bufputc c s) as [[u s']| | |]; [|done..].
      apply IH. }
  rewrite E2 in E3. unfold mbind, M_bind in E3. rewrite E1 in E3. unfold mbind, M_bind, res_bind.
  rewrite E1. cbn [mret M_ret]. rewrite <-E3. cbn iota.
  rewrite (proj2 (Z.eqb_neq _ 0)) by lia. cbn [negb].
  set (d := take _ _ ++ _). assert (length d = length buf) as Hd.
  { unfold d. rewrite length_app, length_take, length_drop, length_map. lia. }
  unfold buf_set. cbn [dst]. rewrite (proj2 (Nat.ltb_lt _ _)) by lia.
  eexists. split; [reflexivity|]. split; [by rewrite length_insert|].
  replace (Z.to_nat (Z.of_nat (length buf) - 1)) with (length buf - 1)%nat by lia.
  pose proof (terminated_take (map (wrap 8) out) buf Hb) as E. cbv zeta in E.
  rewrite length_map in E. unfold d. rewrite map_app. rewrite length_app in E |- *. rewrite length_map in E.
  exact E.
Qed.

(** ** The conversion buffer *)

(** A conversion whose characters all lie in the buffer. *)
Definition fits_buffer (cv : npf_conversion) : Prop :=
  if bool_decide (conv_spec (cv_fs cv) = NPF_FMT_SPEC_CONV_BINARY) then 0 ≤ cbuf_len cv ≤ 64
  else length (cbuf cv) = NANOPRINTF_CONVERSION_BUFFER_SIZE ∧
    0 ≤ cbuf_len cv ≤ Z.of_nat NANOPRINTF_CONVERSION_BUFFER_SIZE.

Lemma fits_short fs buf bin len sign x z :
  length buf = 23%nat → 0 ≤ len ≤ 23 → fits_buffer (MkConv fs buf bin len sign x z).
Proof. intros. unfold fits_buffer, NANOPRINTF_CONVERSION_BUFFER_SIZE. simpl. case_match; lia. Qed.

Lemma text_buffer_length text (junk : list Z) :
  length junk = 23%nat → (length text ≤ 22)%nat → length (rev text ++ drop (length text) junk) = 23%nat.
Proof. intros. rewrite length_app, length_rev, length_drop. lia. Qed.

Lemma convert_unsigned_fits junk fs w :
  length junk = 23%nat → ∃ cv, npf_convert_unsigned junk fs w = Ok cv ∧ fits_buffer cv.
Proof.
  intros Hj. pose proof (extract_unsigned_range (length_modifier fs) w) as Hv.
  unfold npf_convert_unsigned. set (v := npf_extract_unsigned _ _) in *. clearbody v.
  destruct (_ && _ && _) eqn:Ez.
  - apply andb_true_iff in Ez as [[->%Z.eqb_eq _]%andb_true_iff _]. cbn [mbind res_bind negb andb].
    eexists. split; [reflexivity|]. by apply fits_short.
  - destruct (decide (conv_spec fs = NPF_FMT_SPEC_CONV_BINARY)) as [Eb|Eb].
    + rewrite bool_decide_eq_true_2 by done. cbn [mbind res_bind].
      rewrite (bool_decide_eq_false_2 (conv_spec fs = NPF_FMT_SPEC_CONV_OCTAL)) by (by rewrite Eb).
      rewrite andb_false_r. eexists. split; [reflexivity|]. unfold fits_buffer. simpl.
      rewrite bool_decide_eq_true_2 by done. pose proof (npf_bin_len_range v Hv). lia.
    + rewrite bool_decide_eq_false_2 by done.
      assert (8 ≤ npf_base (conv_spec fs)) as Hb by (by destruct (conv_spec fs)).
      rewrite npf_utoa_rev_22 by lia. cbn [mbind res_bind fst snd].
      pose proof (number_text_length (npf_base (conv_spec fs)) (case_adjust fs) v Hb Hv) as Hlen.
      set (text := number_text _ _ _) in *. clearbody text.
      destruct (octal_zero_stored fs v text junk Hj ltac:(lia)) as [r Er]. cbn [mbind res_bind] in Er.
      fold (alt_octal fs v). rewrite Er. eexists. split; [reflexivity|].
      pose proof (text_buffer_length text junk Hj ltac:(lia)) as Hl. unfold buf_set in Er.
      destruct (alt_octal fs v); simpl in Er |- *.
      * destruct (_ <? _)%nat; [|done]. injection Er as Er _. apply (f_equal length) in Er.
        rewrite length_insert in Er. apply fits_short; simpl in *; lia.
      * injection Er as Er. apply fits_short; [by rewrite <-Er|lia].
Qed.

Lemma npf_convert_fits_lemma junk fs w args :
  length junk = 23%nat → conv_spec fs ≠ NPF_FMT_SPEC_CONV_STRING →
  ∃ cv args', npf_convert junk fs (VaWord w :: args) = Ok (cv, args') ∧ fits_buffer cv.
Proof.
  intros Hj Hs. destruct (convert_unsigned_fits junk fs (u64 w) Hj) as (cvu & Eu & Hu).
  assert (∀ c, ∃ buf, buf_set 0 c junk = Ok buf ∧ length buf = 23%nat) as Hset.
  { intros c. unfold buf_set. rewrite Hj. simpl. eexists. split; [done|]. by rewrite length_insert. }
  unfold npf_convert. destruct (conv_spec fs) eqn:Hc; cbn [mbind res_bind va_word fst snd];
    try (rewrite Eu; by eauto); try done.
  - do 2 eexists. split; [reflexivity|]. by apply fits_short.
  - destruct (Hset (ch "%")) as (buf & -> & Hl). do 2 eexists. split; [reflexivity|]. by apply fits_short.
  - destruct (Hset (u8 (u64 w))) as (buf & -> & Hl). do 2 eexists. split; [reflexivity|]. by apply fits_short.
  - unfold npf_convert_signed. pose proof (extract_signed_range (length_modifier fs) (u64 w)) as Hv.
    case_match; [do 2 eexists; split; [reflexivity|]; by apply fits_short|].
    rewrite uval_abs by done. set (v := Z.abs _). assert (0 ≤ v < 2 ^ 64) by (unfold v; lia). clearbody v.
    rewrite npf_utoa_rev_22 by lia. do 2 eexists. split; [reflexivity|]. cbn [fst snd].
    pose proof (number_text_length 10 (case_adjust fs) v). apply fits_short; [apply text_buffer_length|]; lia.
  - pose proof (wrap_range 64 w ltac:(lia)) as Hv. rewrite npf_utoa_rev_22 by lia.
    do 2 eexists. split; [reflexivity|]. cbn [fst snd].
    pose proof (number_text_length 16 LOWER (u64 w)). apply fits_short; [apply text_buffer_length|]; lia.
Qed.

(** ** Theorems *)

(** Whatever the flags, width, precision and length modifier of a
    conversion other than a string, and whatever 64 bits the argument holds,
    every character the conversion stores lies in the 23-byte conversion
    buffer (octal numbers with a leading zero fill it); a binary number has
    at most 64 digits, which are not stored. *)
Theorem npf_convert_fits junk fs w args :
  length junk = NANOPRINTF_CONVERSION_BUFFER_SIZE → conv_spec fs ≠ NPF_FMT_SPEC_CONV_STRING →
  ∃ cv args', npf_convert junk fs (VaWord w :: args) = Ok (cv, args') ∧ fits_buffer cv.
Proof. apply npf_convert_fits_lemma. Qed.

Lemma npf_convert_fits_witness :
  let fs := MkSpec 0 NPF_FMT_SPEC_OPT_NONE false false 0 NPF_FMT_SPEC_OPT_NONE 0 true LOWER
    NPF_FMT_SPEC_LEN_MOD_LONG NPF_FMT_SPEC_CONV_OCTAL in
  ∃ cv args', npf_convert (replicate 23 170) fs [VaWord (-1)] = Ok (cv, args') ∧ fits_buffer cv ∧ cbuf_len cv = 23.
Proof.
  intros fs. destruct (npf_convert_fits (replicate 23 170) fs (-1) []) as (cv & args' & E & Hf);
    [reflexivity|discriminate|].
  exists cv, args'. split; [exact E|]. split; [exact Hf|]. revert E. vm_compute. intros [= <- _]. reflexivity.
Defined.

(** [npf_utoa_rev] of any 64-bit value in base 8, 10 or 16 terminates
    with at most 22 characters; read backwards they denote the value, and
    there is no leading zero. *)
Theorem npf_utoa_rev_roundtrip v base adj buf :
  base = 8 ∨ base = 10 ∨ base = 16 → adj = 0 ∨ adj = LOWER → in_range 64 v → (22 ≤ length buf)%nat →
  ∃ n b, npf_utoa_rev v buf base adj = Ok (n, b) ∧ (1 ≤ n ≤ 22)%nat ∧ length b = length buf ∧
    npf_decode base (rev (take n b)) = v ∧ (v ≠ 0 → b !! pred n ≠ Some (ch "0")).
Proof.
  intros Hb Hadj Hv Hbuf. rewrite npf_utoa_rev_22 by (done || lia).
  destruct (number_text_spec base adj v Hadj ltac:(lia) Hv) as (Hd & _ & Hnz & _).
  pose proof (number_text_length base adj v ltac:(lia) Hv) as Hlen.
  set (text := number_text base adj v) in *. clearbody text. do 2 eexists. split; [reflexivity|].
  split; [done|]. split; [rewrite length_app, length_rev, length_drop; lia|].
  rewrite <-(length_rev text), take_app_length, rev_involutive. split; [done|].
  intros H0. destruct text as [|c text]; [simpl in Hlen; lia|]. rewrite length_rev. simpl.
  rewrite lookup_app_l by (rewrite length_app, length_rev; simpl; lia).
  rewrite lookup_app_r by (rewrite length_rev; lia). rewrite length_rev, Nat.sub_diag. simpl.
  exact (Hnz H0).
Qed.

Lemma npf_utoa_rev_roundtrip_witness :
  ∃ n b, npf_utoa_rev 48879 (replicate 22 0) 16 LOWER = Ok (n, b) ∧ rev (take n b) = chars "beef" ∧
    npf_decode 16 (rev (take n b)) = 48879.
Proof.
  destruct (npf_utoa_rev_roundtrip 48879 16 LOWER (replicate 22 0)) as (n & b & E & _ & _ & Hd & _);
    [tauto|tauto|unfold in_range; lia|simpl; lia|].
  exists n, b. split; [exact E|]. split; [|exact Hd]. revert E. vm_compute. intros [= <- <-]. reflexivity.
Defined.

(** C19: the formatter terminates on every format and argument list, well
    formed or not: if the callback does, [npf_vpprintf] returns or stops with
    an error, and its loops stay within their bounds. *)
Theorem npf_vpprintf_terminates {S : Type} (pc : Z → M S unit) junk format args s :
  (∀ c s, pc c s ≠ NoFuel) → npf_vpprintf pc junk format args s ≠ NoFuel.
Proof.
  intros Hpc. unfold npf_vpprintf.
  pose proof (loop_bounded pc junk (length format) format args Hpc ltac:(lia) (MkCnt s 0)) as Hl.
  by destruct (npf_loop _ _ _ _ _ _) as [[]| | |].
Qed.

Lemma npf_vpprintf_terminates_witness :
  npf_vpprintf (λ c, modify (λ l, l ++ [c])) (replicate 23 170) (chars "%*.*q%s%") [VaWord 3] [] ≠ NoFuel.
Proof. apply (npf_vpprintf_terminates (λ c, modify (λ l, l ++ [c]))). intros c s. discriminate. Defined.

(** A negative star width makes the field left-justified, but the zero
    flag stays in force: "%0*d" with -5 and 42 prints 42000, where "%-*d",
    the same directive in C, prints 42 and three spaces. *)
Theorem npf_star_zero_pad :
  sprint "%0*d" [VaWord (-5); VaWord 42] = Ok (chars "42000") ∧
  sprint "%-*d" [VaWord 5; VaWord 42] = Ok (chars "42   ").
Proof. vm_compute. done. Qed.
