(* ===== verification/NpfFormat.v ===== *)
(** * nanoprintf: formats as data, and the text the C standard gives them

    The syntax of formats is a data type with its own printer, and what a
    format prints is computed from that data, the arguments and the widths of
    C's integer types alone: nothing here calls the parser, the argument
    extraction or the digit conversion of Npf.v.  The theorems say that the
    formatter, given the characters of a format, prints this text. *)

From S2P Require Import Prelude Digits Npf NpfThms.
Local Open Scope Z_scope.
Local Open Scope kernel_scope.

(** ** Syntax *)

Inductive pf_flag := FlagMinus | FlagZero | FlagPlus | FlagSpace | FlagAlt.

(** Literal numbers are lists of decimal digits. *)
Inductive pf_width := WidthNone | WidthNum (ds : list Z) | WidthStar.
Inductive pf_prec := PrecNone | PrecNum (ds : list Z) | PrecNeg (ds : list Z) | PrecStar.

Inductive pf_len :=
| LenInt | LenChar | LenShort | LenLong | LenLongLong | LenIntmax | LenSize | LenPtrdiff.

Inductive pf_conv :=
| PfPercent | PfChar | PfString | PfSignedD | PfSignedI | PfOctal | PfUnsigned
| PfHex (upper : bool) | PfBinary (upper : bool) | PfPointer.

(** What stands between the percent sign and the conversion. *)
Record pf_prefix := MkPrefix { x_flags : list pf_flag; x_width : pf_width; x_prec : pf_prec; x_len : pf_len }.

(** A literal character, a directive, or a percent sign (with what looks like
    the start of a directive) that no conversion follows. *)
Inductive pf_item := PfLit (c : Z) | PfDir (x : pf_prefix) (k : pf_conv) | PfStray (x : pf_prefix).

#[export] Instance pf_flag_eq_dec : EqDecision pf_flag.
Proof. solve_decision. Defined.
#[export] Instance pf_width_eq_dec : EqDecision pf_width.
Proof. solve_decision. Defined.

Definition flag_char (f : pf_flag) : Z :=
  match f with
  | FlagMinus => ch "-" | FlagZero => ch "0" | FlagPlus => ch "+" | FlagSpace => ch " " | FlagAlt => ch "#"
  end.

Definition show_number (ds : list Z) : list Z := map (λ d, ch "0" + d) ds.
Definition number_of (ds : list Z) : Z := foldl (λ n d, 10 * n + d) 0 ds.

Definition show_pf_width (w : pf_width) : list Z :=
  match w with WidthNone => [] | WidthNum ds => show_number ds | WidthStar => chars "*" end.
Definition show_pf_prec (p : pf_prec) : list Z :=
  match p with
  | PrecNone => [] | PrecNum ds => ch "." :: show_number ds
  | PrecNeg ds => ch "." :: ch "-" :: show_number ds | PrecStar => chars ".*"
  end.
Definition show_pf_len (l : pf_len) : list Z :=
  match l with
  | LenInt => [] | LenChar => chars "hh" | LenShort => chars "h" | LenLong => chars "l" | LenLongLong => chars "ll"
  | LenIntmax => chars "j" | LenSize => chars "z" | LenPtrdiff => chars "t"
  end.
Definition conv_char (k : pf_conv) : Z :=
  match k with
  | PfPercent => ch "%" | PfChar => ch "c" | PfString => ch "s" | PfSignedD => ch "d" | PfSignedI => ch "i"
  | PfOctal => ch "o" | PfUnsigned => ch "u" | PfHex false => ch "x" | PfHex true => ch "X"
  | PfBinary false => ch "b" | PfBinary true => ch "B" | PfPointer => ch "p"
  end.

Definition show_prefix (x : pf_prefix) : list Z :=
  map flag_char (x_flags x) ++ show_pf_width (x_width x) ++ show_pf_prec (x_prec x) ++ show_pf_len (x_len x).
Definition show_pf_item (i : pf_item) : list Z :=
  match i with
  | PfLit c => [c]
  | PfDir x k => ch "%" :: show_prefix x ++ [conv_char k]
  | PfStray x => ch "%" :: show_prefix x
  end.
Definition show_pf (f : list pf_item) : list Z := concat (map show_pf_item f).

(** ** Which data are formats *)

Definition in_chars (s : string) (c : Z) : bool := existsb (Z.eqb c) (chars s).
Arguments in_chars s%_string_scope c.

Definition number_ok (ds : list Z) : bool :=
  forallb (λ d, (0 <=? d) && (d <=? 9)) ds && (number_of ds <=? INT_MAX).

(** A literal width does not start with a zero, which is a flag. *)
Definition width_ok (w : pf_width) : bool :=
  match w with WidthNum ds => number_ok ds && (1 <=? hd 0 ds) | _ => true end.
Definition prec_ok (p : pf_prec) : bool :=
  match p with PrecNum ds | PrecNeg ds => number_ok ds | _ => true end.
Definition prefix_ok (x : pf_prefix) : bool := width_ok (x_width x) && prec_ok (x_prec x).

(** The character [c] after the prefix would still belong to it. *)
Definition extends (x : pf_prefix) (c : Z) : bool :=
  match x_len x with
  | LenInt =>
      in_chars "hljzt" c ||
      match x_prec x with
      | PrecNone =>
          (c =? ch ".") ||
          match x_width x with
          | WidthNone => in_chars "-0+ #123456789*" c
          | WidthNum _ => in_chars "0123456789" c
          | WidthStar => false
          end
      | PrecNum [] => in_chars "0123456789*-" c
      | PrecNum _ | PrecNeg _ => in_chars "0123456789" c
      | PrecStar => false
      end
  | LenShort => c =? ch "h"
  | LenLong => c =? ch "l"
  | _ => false
  end.

Definition conversions : string := "%csdiouxXbBp".

Fixpoint pf_ok (f : list pf_item) : bool :=
  match f with
  | [] => true
  | PfLit c :: f' => negb (c =? 0) && negb (c =? ch "%") && pf_ok f'
  | PfDir x _ :: f' => prefix_ok x && pf_ok f'
  | PfStray x :: f' =>
      let c := hd 0 (show_pf f') in
      prefix_ok x && negb (extends x c) && negb (in_chars conversions c) && pf_ok f'
  end.

(** ** What formats print *)

(** The value of a [w]-bit signed integer with these low bits. *)
Definition c_signed (w v : Z) : Z := (v + 2 ^ (w - 1)) mod 2 ^ w - 2 ^ (w - 1).

(** The bits of the C types: [int], [char], [short], [long] and larger. *)
Definition len_bits (l : pf_len) : Z :=
  match l with LenInt => 32 | LenChar => 8 | LenShort => 16 | _ => 64 end.

Definition digit_chars (upper : bool) : list Z :=
  chars (if upper then "0123456789ABCDEF" else "0123456789abcdef").
Definition pf_numeral (base : Z) (upper : bool) (v : Z) : list Z :=
  rev (map (λ d, nth (Z.to_nat d) (digit_chars upper) 0) (digits 64 base v)).

(** The layout of a directive: field width and justification, padding with
    zeros, precision, the sign of numbers that are not negative, and the
    alternative form. *)
Record pf_layout := MkLayout {
  l_width : Z; l_left : bool; l_zero : bool; l_prec : option Z; l_sign : list Z; l_alt : bool }.

Definition pf_field (l : pf_layout) (pre body : list Z) : list Z :=
  let n := (Z.to_nat (l_width l) - (length pre + length body))%nat in
  if l_left l then pre ++ body ++ replicate n (ch " ")
  else if l_zero l then pre ++ replicate n (ch "0") ++ body
  else replicate n (ch " ") ++ pre ++ body.

(** At least as many digits as the precision says, none for zero with a
    precision of zero; [octal] asks for a leading zero. *)
Definition pf_digits (base : Z) (upper octal : bool) (p : option Z) (v : Z) : list Z :=
  let ds := if (v =? 0) && bool_decide (p = Some 0) then [] else pf_numeral base upper v in
  let ds := if octal && negb (hd 0 ds =? ch "0") then ch "0" :: ds else ds in
  replicate (Z.to_nat (default 0 p) - length ds) (ch "0") ++ ds.

Definition pf_unsigned (l : pf_layout) (len : pf_len) (base : Z) (upper : bool) (x w : Z) : list Z :=
  let v := w mod 2 ^ len_bits len in
  pf_field l (if l_alt l && negb (v =? 0) && negb (x =? 0) then [ch "0"; x] else [])
    (pf_digits base upper (l_alt l && (base =? 8)) (l_prec l) v).

Definition pf_conv_text (k : pf_conv) (len : pf_len) (l : pf_layout) (args : list va_slot) :
    option (list Z * list va_slot) :=
  match k, args with
  | PfPercent, _ => Some (pf_field l [] [ch "%"], args)
  | PfChar, VaWord w :: args' => Some (pf_field l [] [w mod 256], args')
  | PfString, VaStr _ s :: args' =>
      if Z.of_nat (length s) <=? 2 ^ 30 then
        Some (pf_field l [] (match l_prec l with Some p => take (Z.to_nat p) (cstr s) | None => cstr s end), args')
      else None
  | (PfSignedD | PfSignedI), VaWord w :: args' =>
      let v := c_signed (len_bits len) w in
      Some (pf_field l (if v <? 0 then [ch "-"] else l_sign l) (pf_digits 10 false false (l_prec l) (Z.abs v)), args')
  | PfOctal, VaWord w :: args' => Some (pf_unsigned l len 8 false 0 w, args')
  | PfUnsigned, VaWord w :: args' => Some (pf_unsigned l len 10 false 0 w, args')
  | PfHex upper, VaWord w :: args' =>
      Some (pf_unsigned l len 16 upper (if upper then ch "X" else ch "x") w, args')
  | PfBinary upper, VaWord w :: args' =>
      Some (pf_unsigned l len 2 upper (if upper then ch "B" else ch "b") w, args')
  | PfPointer, VaWord w :: args' => Some (pf_field l (chars "0x") (pf_numeral 16 false (w mod 2 ^ 64)), args')
  | _, _ => None
  end.

(** The [int] of a star. *)
Definition star_arg (args : list va_slot) : option (Z * list va_slot) :=
  match args with
  | VaWord w :: args' => Some (c_signed 32 w, args')
  | VaStr p _ :: args' => Some (c_signed 32 p, args')
  | [] => None
  end.

(** The width, a negative one for a left-justified field. *)
Definition width_arg (w : pf_width) (args : list va_slot) : option (Z * list va_slot) :=
  match w with
  | WidthNone => Some (0, args)
  | WidthNum ds => Some (number_of ds, args)
  | WidthStar => star_arg args
  end.

(** The precision; a negative one counts as none.  Percent signs, characters
    and pointers have none: a star takes no argument there. *)
Definition takes_prec (k : pf_conv) : bool := match k with PfPercent | PfChar | PfPointer => false | _ => true end.
Definition prec_arg (k : pf_conv) (p : pf_prec) (args : list va_slot) : option (option Z * list va_slot) :=
  match p with
  | PrecNone => Some (None, args)
  | PrecNum ds =>
      if takes_prec k then Some (Some (number_of ds), args)
      else if number_of ds =? 0 then Some (None, args) else None
  | PrecNeg ds => if number_of ds =? 0 then Some (None, args) else None
  | PrecStar =>
      if takes_prec k then
        a ← star_arg args;
        if a.1 <? - 2 ^ 30 then None else Some (if a.1 <? 0 then None else Some a.1, a.2)
      else Some (None, args)
  end.

(** The zero flag: not with the minus flag, not for strings, and not where
    the directive of an octal, decimal or hexadecimal number has a
    precision. *)
Definition has (f : pf_flag) (fl : list pf_flag) : bool := bool_decide (f ∈ fl).
Definition zero_flag (x : pf_prefix) (k : pf_conv) : bool :=
  has FlagZero (x_flags x) && negb (has FlagMinus (x_flags x)) &&
  match k with
  | PfString => false
  | PfPercent | PfChar | PfPointer | PfBinary _ => true
  | _ => match x_prec x with PrecNone | PrecNeg _ => true | _ => false end
  end.

Definition layout (x : pf_prefix) (k : pf_conv) (w : Z) (p : option Z) : pf_layout :=
  MkLayout (Z.abs w) (has FlagMinus (x_flags x) || (w <? 0)) (zero_flag x k) p
    (if has FlagPlus (x_flags x) then [ch "+"] else if has FlagSpace (x_flags x) then [ch " "] else [])
    (has FlagAlt (x_flags x)).

(** The layouts the text is given for: a width and a precision of at most
    [2 ^ 30]; the zero flag not with a negative star width, not with the
    precision of a binary number, and not for characters. *)
Definition pf_layout_ok (k : pf_conv) (l : pf_layout) : bool :=
  (l_width l <=? 2 ^ 30) && (default 0 (l_prec l) <=? 2 ^ 30) &&
  negb (l_zero l && (l_left l || bool_decide (is_Some (l_prec l)) ||
    match k with PfPercent | PfChar | PfString => true | _ => false end)).

Definition pf_dir_text (x : pf_prefix) (k : pf_conv) (args : list va_slot) : option (list Z * list va_slot) :=
  w ← width_arg (x_width x) args;
  p ← prec_arg k (x_prec x) w.2;
  let l := layout x k w.1 p.1 in
  if pf_layout_ok k l then pf_conv_text k (x_len x) l p.2 else None.

Fixpoint pf_text (f : list pf_item) (args : list va_slot) : option (list Z) :=
  match f with
  | [] => Some []
  | PfLit c :: f' => (c ::.) <$> pf_text f' args
  | PfDir x k :: f' => o ← pf_dir_text x k args; (o.1 ++.) <$> pf_text f' o.2
  | PfStray x :: f' => (show_pf_item (PfStray x) ++.) <$> pf_text f' args
  end.

(** ** The parser reads what is shown *)

Lemma is_digit_chars c : is_digit c = in_chars "0123456789" c.
Proof.
  unfold is_digit, in_chars. change (ch "0") with 48. change (ch "9") with 57.
  vm_compute chars. cbn [existsb]. apply Bool.eq_true_iff_eq.
  rewrite andb_true_iff, !Z.leb_le, !orb_true_iff, !Z.eqb_eq. split; [lia|].
  intros [|[|[|[|[|[|[|[|[|[|]]]]]]]]]]; by try lia.
Qed.

Lemma in_chars_spec s c : in_chars s c = true ↔ c ∈ chars s.
Proof.
  unfold in_chars. rewrite existsb_exists, list_elem_of_In. split; [by intros (? & ? & ->%Z.eqb_eq)|].
  intros. exists c. by rewrite Z.eqb_refl.
Qed.

(** A character outside a set differs from each of the set. *)
Lemma not_in_chars s c d : in_chars s c = false → in_chars s d = true → (c =? d) = false.
Proof. intros Hc Hd. apply Z.eqb_neq. intros ->. congruence. Qed.

(** [f] counts if it is among the flags read later or was seen before. *)
Lemma has_cons f g fl : has f (g :: fl) = bool_decide (f = g) || has f fl.
Proof.
  unfold has. rewrite <-bool_decide_or. apply bool_decide_ext. apply elem_of_cons.
Qed.

Lemma parse_flags_show fl rest left zero pre alt :
  in_chars "-0+ #" (hd 0 rest) = false → (left = true → zero = false) → pre = 0 ∨ pre = ch "+" ∨ pre = ch " " →
  npf_parse_flags (map flag_char fl ++ rest) left zero pre alt =
  (rest, (left || has FlagMinus fl, (zero || has FlagZero fl) && negb (left || has FlagMinus fl),
    if has FlagPlus fl then ch "+" else if (pre =? 0) && has FlagSpace fl then ch " " else pre,
    alt || has FlagAlt fl)).
Proof.
  intros Hr. revert left zero pre alt. induction fl as [|f fl IH]; intros left zero pre alt Hlz Hpre.
  - cbn [map app].
    assert (npf_parse_flags rest left zero pre alt = (rest, (left, zero, pre, alt))) as ->.
    { destruct rest as [|c rest]; [done|]. cbn [hd] in Hr. cbn [npf_parse_flags].
      by rewrite !(not_in_chars _ c _ Hr) by done. }
    unfold has. cbn. rewrite !orb_false_r, andb_false_r. do 3 f_equal. destruct left, zero; try done.
    by specialize (Hlz eq_refl).
  - assert (∀ l z p a, npf_parse_flags (map flag_char (f :: fl) ++ rest) l z p a =
      npf_parse_flags (map flag_char fl ++ rest)
        (match f with FlagMinus => true | _ => l end)
        (match f with FlagMinus => false | FlagZero => negb l | _ => z end)
        (match f with FlagPlus => ch "+" | FlagSpace => if p =? 0 then ch " " else p | _ => p end)
        (match f with FlagAlt => true | _ => a end)) as -> by (by destruct f).
    rewrite !has_cons, IH.
    + generalize (has FlagMinus fl) (has FlagZero fl) (has FlagPlus fl) (has FlagSpace fl) (has FlagAlt fl).
      intros m z p sp a.
      destruct f, left, zero, m, z, p, sp, a, alt; try (by specialize (Hlz eq_refl));
        destruct Hpre as [->|[->| ->]]; reflexivity.
    + destruct f; try done; by destruct left.
    + destruct f; try tauto. destruct (pre =? 0); tauto.
Qed.

Lemma number_of_app ds d : number_of (ds ++ [d]) = 10 * number_of ds + d.
Proof. unfold number_of. by rewrite foldl_app. Qed.

Lemma number_fold_mono ds n : Forall (λ d, 0 ≤ d ≤ 9) ds → 0 ≤ n → n ≤ foldl (λ n d, 10 * n + d) n ds.
Proof. intros Hds. revert n. induction Hds as [|d ds Hd _ IH]; intros n Hn; simpl; [lia|]. specialize (IH (10 * n + d)). lia. Qed.

Lemma number_ok_spec ds : number_ok ds = true → Forall (λ d, 0 ≤ d ≤ 9) ds ∧ 0 ≤ number_of ds ≤ INT_MAX.
Proof.
  unfold number_ok. rewrite andb_true_iff, forallb_forall, Z.leb_le. intros [Hds Hn].
  assert (Forall (λ d, 0 ≤ d ≤ 9) ds) as Hd.
  { apply List.Forall_forall. intros d Hd. specialize (Hds d Hd). lia. }
  split; [done|]. split; [|done]. by apply (number_fold_mono ds 0).
Qed.

Lemma parse_digits_show ds rest n :
  Forall (λ d, 0 ≤ d ≤ 9) ds → 0 ≤ n → foldl (λ n d, 10 * n + d) n ds ≤ INT_MAX →
  in_chars "0123456789" (hd 0 rest) = false →
  npf_parse_digits (show_number ds ++ rest) n = Ok (rest, foldl (λ n d, 10 * n + d) n ds).
Proof.
  intros Hds Hn Hmax Hr. revert n Hn Hmax. induction Hds as [|d ds Hd Hds IH]; intros n Hn Hmax.
  - cbn. destruct rest as [|c rest]; [done|]. cbn [hd] in Hr. cbn [npf_parse_digits]. by rewrite is_digit_chars, Hr.
  - cbn [show_number map app npf_parse_digits foldl] in *.
    pose proof (number_fold_mono ds (10 * n + d) Hds ltac:(lia)).
    assert (is_digit (ch "0" + d) = true) as ->.
    { unfold is_digit. change (ch "0") with 48. change (ch "9") with 57. lia. }
    rewrite int_ok by (unfold INT_MIN, INT_MAX in *; lia). cbn [mbind res_bind].
    rewrite int_ok by (unfold INT_MIN, INT_MAX in *; lia). cbn [mbind res_bind].
    replace (n * 10 + (ch "0" + d - ch "0")) with (10 * n + d) by lia. apply IH; [lia|done].
Qed.

Definition width_num (w : pf_width) : Z := match w with WidthNum ds => number_of ds | _ => 0 end.
Definition width_opt (w : pf_width) : npf_opt :=
  match w with
  | WidthNone => NPF_FMT_SPEC_OPT_NONE | WidthNum _ => NPF_FMT_SPEC_OPT_LITERAL | WidthStar => NPF_FMT_SPEC_OPT_STAR
  end.
Definition prec_num (p : pf_prec) : Z := match p with PrecNum ds | PrecNeg ds => number_of ds | _ => 0 end.
Definition prec_opt_of (p : pf_prec) : npf_opt :=
  match p with
  | PrecNone | PrecNeg _ => NPF_FMT_SPEC_OPT_NONE | PrecNum _ => NPF_FMT_SPEC_OPT_LITERAL
  | PrecStar => NPF_FMT_SPEC_OPT_STAR
  end.
Definition len_mod_of (l : pf_len) : npf_len_mod :=
  match l with
  | LenInt => NPF_FMT_SPEC_LEN_MOD_NONE | LenChar => NPF_FMT_SPEC_LEN_MOD_CHAR | LenShort => NPF_FMT_SPEC_LEN_MOD_SHORT
  | LenLong => NPF_FMT_SPEC_LEN_MOD_LONG | LenLongLong => NPF_FMT_SPEC_LEN_MOD_LARGE_LONG_LONG
  | LenIntmax => NPF_FMT_SPEC_LEN_MOD_LARGE_INTMAX | LenSize => NPF_FMT_SPEC_LEN_MOD_LARGE_SIZET
  | LenPtrdiff => NPF_FMT_SPEC_LEN_MOD_LARGE_PTRDIFFT
  end.

Lemma digit_char_hd d : 0 ≤ d ≤ 9 → in_chars "0123456789" (ch "0" + d) = true.
Proof. intros. rewrite <-is_digit_chars. unfold is_digit. change (ch "0") with 48. change (ch "9") with 57. lia. Qed.

Lemma in_chars_mono s s' c : chars s ⊆ chars s' → in_chars s' c = false → in_chars s c = false.
Proof.
  intros Hs Hc. apply not_true_is_false. intros H. apply in_chars_spec in H. apply Hs, in_chars_spec in H. congruence.
Qed.

(** The character after a width. *)
Lemma parse_width_show w rest :
  width_ok w = true →
  match w with
  | WidthNone => in_chars "-0+ #123456789*" (hd 0 rest) = false
  | WidthNum _ => in_chars "0123456789" (hd 0 rest) = false
  | WidthStar => True
  end →
  npf_parse_width (show_pf_width w ++ rest) = Ok (rest, (width_num w, width_opt w)).
Proof.
  intros Hw Hr. unfold npf_parse_width. destruct w as [|ds|]; cbn [show_pf_width app width_ok] in *.
  - rewrite (not_in_chars _ _ (ch "*") Hr) by done.
    assert (in_chars "0123456789" (hd 0 rest) = false) as Hd.
    { revert Hr. apply in_chars_mono. intros c. vm_compute chars. rewrite !elem_of_cons. tauto. }
    pose proof (parse_digits_show [] rest 0 (List.Forall_nil _) ltac:(lia) ltac:(done) Hd) as E. cbn [show_number map app foldl] in E.
    rewrite E. cbn [mbind res_bind]. by rewrite is_digit_chars, Hd.
  - apply andb_true_iff in Hw as [[Hds [_ Hn]]%number_ok_spec Hh%Z.leb_le].
    rewrite parse_digits_show by (done || lia). destruct ds as [|d ds]; [done|]. inversion_clear Hds as [|? ? Hd _].
    cbn [hd show_number map app mbind res_bind] in *. rewrite is_digit_chars. rewrite (digit_char_hd d Hd).
    rewrite (proj2 (Z.eqb_neq _ _)); [done|]. change (ch "0") with 48. change (ch "*") with 42. lia.
  - done.
Qed.

Lemma parse_prec_show p rest :
  prec_ok p = true →
  match p with
  | PrecNone => (hd 0 rest =? ch ".") = false
  | PrecNum [] => in_chars "0123456789*-" (hd 0 rest) = false
  | PrecNum _ | PrecNeg _ => in_chars "0123456789" (hd 0 rest) = false
  | PrecStar => True
  end →
  npf_parse_prec (show_pf_prec p ++ rest) = Ok (rest, (prec_num p, prec_opt_of p)).
Proof.
  intros Hp Hr. unfold npf_parse_prec. destruct p as [|ds|ds|]; cbn [show_pf_prec app prec_ok] in *.
  - by rewrite Hr.
  - apply number_ok_spec in Hp as [Hds [_ Hn]]. cbn [hd tail]. rewrite Z.eqb_refl.
    assert (in_chars "0123456789" (hd 0 rest) = false) as Hd.
    { destruct ds; [|done]. revert Hr. apply in_chars_mono. intros c. vm_compute chars. rewrite !elem_of_cons. tauto. }
    rewrite parse_digits_show by (done || lia). cbn [mbind res_bind].
    destruct ds as [|d ds]; cbn [show_number map app hd].
    + by rewrite !(not_in_chars _ _ _ Hr) by done.
    + inversion_clear Hds. rewrite !(proj2 (Z.eqb_neq _ _)); [done|..]; change (ch "0") with 48;
        change (ch "*") with 42; change (ch "-") with 45; lia.
  - apply number_ok_spec in Hp as [Hds [_ Hn]]. cbn [hd tail]. rewrite Z.eqb_refl.
    change (ch "-" =? ch "*") with false. by rewrite Z.eqb_refl, parse_digits_show by (done || lia).
  - done.
Qed.

Lemma parse_length_show l rest :
  match l with
  | LenInt => in_chars "hljzt" (hd 0 rest) = false
  | LenShort => (hd 0 rest =? ch "h") = false
  | LenLong => (hd 0 rest =? ch "l") = false
  | _ => True
  end →
  npf_parse_length (show_pf_len l ++ rest) = (rest, len_mod_of l).
Proof.
  intros Hr. unfold npf_parse_length.
  destruct l; try done; cbn [show_pf_len app hd tail]; try (cbn; cbn in Hr; by rewrite Hr).
  by rewrite !(not_in_chars _ _ _ Hr) by done.
Qed.

(** What follows each part of a prefix does not belong to the part. *)
Lemma extends_len x c :
  extends x c = false →
  match x_len x with
  | LenInt => in_chars "hljzt" c = false
  | LenShort => (c =? ch "h") = false
  | LenLong => (c =? ch "l") = false
  | _ => True
  end.
Proof. unfold extends. destruct (x_len x); try done. by intros [? _]%orb_false_iff. Qed.

Lemma extends_prec x rest :
  extends x (hd 0 rest) = false →
  let c := hd 0 (show_pf_len (x_len x) ++ rest) in
  match x_prec x with
  | PrecNone => (c =? ch ".") = false
  | PrecNum [] => in_chars "0123456789*-" c = false
  | PrecNum _ | PrecNeg _ => in_chars "0123456789" c = false
  | PrecStar => True
  end.
Proof.
  unfold extends. destruct (x_len x); cbn [show_pf_len app]; intros H;
    try (destruct (x_prec x) as [|[|]| |]; vm_compute; done).
  apply orb_false_iff in H as [_ H]. destruct (x_prec x) as [|[|]| |]; try done.
  by apply orb_false_iff in H as [? _].
Qed.

Lemma extends_width x rest :
  extends x (hd 0 rest) = false →
  let c := hd 0 (show_pf_prec (x_prec x) ++ show_pf_len (x_len x) ++ rest) in
  match x_width x with
  | WidthNone => in_chars "-0+ #123456789*" c = false
  | WidthNum _ => in_chars "0123456789" c = false
  | WidthStar => True
  end.
Proof.
  unfold extends. destruct (x_prec x); cbn [show_pf_prec app]; intros H;
    [|destruct (x_width x); vm_compute; done..].
  destruct (x_len x); cbn [show_pf_len app]; [|destruct (x_width x); vm_compute; done..].
  apply orb_false_iff in H as [_ H]. apply orb_false_iff in H as [_ H]. by destruct (x_width x).
Qed.

Lemma extends_flags x rest :
  prefix_ok x = true → extends x (hd 0 rest) = false →
  in_chars "-0+ #" (hd 0 (show_pf_width (x_width x) ++ show_pf_prec (x_prec x) ++ show_pf_len (x_len x) ++ rest)) = false.
Proof.
  intros [Hw _]%andb_true_iff H. pose proof (extends_width x rest H) as Hx. cbv zeta in Hx.
  destruct (x_width x) as [|ds|]; cbn [show_pf_width app]; [|clear Hx|done].
  - revert Hx. apply in_chars_mono. intros c. vm_compute chars. rewrite !elem_of_cons. tauto.
  - apply andb_true_iff in Hw as [[Hds _]%number_ok_spec Hh%Z.leb_le]. destruct ds as [|d ds]; [done|].
    inversion_clear Hds as [|? ? Hd _]. cbn [show_number map app hd] in *. unfold in_chars. change (ch "0") with 48.
    vm_compute chars. cbn [existsb]. rewrite !orb_false_iff, !Z.eqb_neq. lia.
Qed.

Definition spec_zero (x : pf_prefix) : bool := has FlagZero (x_flags x) && negb (has FlagMinus (x_flags x)).
Definition spec_sign (x : pf_prefix) : Z :=
  if has FlagPlus (x_flags x) then ch "+" else if has FlagSpace (x_flags x) then ch " " else 0.

Lemma parse_spec_show x rest :
  prefix_ok x = true → extends x (hd 0 rest) = false →
  npf_parse_format_spec (ch "%" :: show_prefix x ++ rest) =
  match npf_parse_conv (hd 0 rest) (spec_zero x) (prec_opt_of (x_prec x)) with
  | None => Ok None
  | Some (conv, adj, zero, popt) =>
      Ok (Some (Z.of_nat (length (ch "%" :: show_prefix x ++ rest)) - Z.of_nat (length (tail rest)),
        MkSpec (width_num (x_width x)) (width_opt (x_width x)) (has FlagMinus (x_flags x)) zero
          (prec_num (x_prec x)) popt (spec_sign x) (has FlagAlt (x_flags x)) adj (len_mod_of (x_len x)) conv))
  end.
Proof.
  intros Hx Hr. pose proof Hx as [Hw Hp]%andb_true_iff. unfold npf_parse_format_spec. cbn [tail].
  unfold show_prefix at 1. rewrite <-!(assoc_L (++)).
  rewrite parse_flags_show; [|by apply extends_flags|done|by left].
  rewrite (parse_width_show _ _ Hw (extends_width x rest Hr)). cbn [mbind res_bind].
  rewrite (parse_prec_show _ _ Hp (extends_prec x rest Hr)). cbn [mbind res_bind].
  by rewrite (parse_length_show _ rest (extends_len x _ Hr)).
Qed.

(** ** Directives *)

Definition conv_upper (k : pf_conv) : bool := match k with PfHex u | PfBinary u => u | _ => false end.
Definition conv_spec_of (k : pf_conv) : npf_conv :=
  match k with
  | PfPercent => NPF_FMT_SPEC_CONV_PERCENT | PfChar => NPF_FMT_SPEC_CONV_CHAR | PfString => NPF_FMT_SPEC_CONV_STRING
  | PfSignedD | PfSignedI => NPF_FMT_SPEC_CONV_SIGNED_INT | PfOctal => NPF_FMT_SPEC_CONV_OCTAL
  | PfUnsigned => NPF_FMT_SPEC_CONV_UNSIGNED_INT | PfHex _ => NPF_FMT_SPEC_CONV_HEX_INT
  | PfBinary _ => NPF_FMT_SPEC_CONV_BINARY | PfPointer => NPF_FMT_SPEC_CONV_POINTER
  end.

Definition spec_of (x : pf_prefix) (k : pf_conv) : npf_format_spec :=
  MkSpec (width_num (x_width x)) (width_opt (x_width x)) (has FlagMinus (x_flags x)) (zero_flag x k)
    (prec_num (x_prec x)) (if takes_prec k then prec_opt_of (x_prec x) else NPF_FMT_SPEC_OPT_NONE)
    (spec_sign x) (has FlagAlt (x_flags x)) (if conv_upper k then 0 else LOWER) (len_mod_of (x_len x)) (conv_spec_of k).

Lemma parse_conv_show x k :
  npf_parse_conv (conv_char k) (spec_zero x) (prec_opt_of (x_prec x)) =
  Some (conv_spec_of k, if conv_upper k then 0 else LOWER, zero_flag x k,
    if takes_prec k then prec_opt_of (x_prec x) else NPF_FMT_SPEC_OPT_NONE).
Proof.
  unfold zero_flag. fold (spec_zero x).
  destruct k as [| | | | | | |[]|[]|], (spec_zero x), (x_prec x); reflexivity.
Qed.

Lemma conv_extends x k : extends x (conv_char k) = false.
Proof.
  unfold extends. destruct k as [| | | | | | |[]|[]|], (x_len x), (x_prec x) as [|[|]| |], (x_width x); reflexivity.
Qed.

Lemma parse_dir_show x k rest :
  prefix_ok x = true →
  npf_parse_format_spec (show_pf_item (PfDir x k) ++ rest) =
  Ok (Some (Z.of_nat (length (show_pf_item (PfDir x k))), spec_of x k)).
Proof.
  intros Hx. cbn [show_pf_item app]. rewrite <-(assoc_L (++)). cbn [app].
  rewrite parse_spec_show by (done || apply conv_extends). cbn [hd tail]. rewrite parse_conv_show.
  do 3 f_equal. cbn [length]. rewrite !length_app. cbn [length]. lia.
Qed.

Lemma parse_conv_none c zero popt : in_chars conversions c = false → npf_parse_conv c zero popt = None.
Proof. intros Hc. unfold npf_parse_conv. by rewrite !(not_in_chars _ c _ Hc) by done. Qed.

Lemma parse_stray_show x rest :
  prefix_ok x = true → extends x (hd 0 rest) = false → in_chars conversions (hd 0 rest) = false →
  npf_parse_format_spec (show_pf_item (PfStray x) ++ rest) = Ok None.
Proof. intros Hx He Hc. cbn [show_pf_item app]. rewrite parse_spec_show by done. by rewrite parse_conv_none. Qed.

(** A specification, stars replaced, that asks for a layout. *)
Record laid_out (k : pf_conv) (len : pf_len) (l : pf_layout) (fs : npf_format_spec) : Prop := MkLaid {
  lo_width : field_width fs = l_width l;
  lo_width_none : field_width_opt fs = NPF_FMT_SPEC_OPT_NONE → l_width l = 0;
  lo_left : left_justified fs = l_left l;
  lo_zero : leading_zero_pad fs = l_zero l;
  lo_has_prec : has_prec fs = bool_decide (is_Some (l_prec l));
  lo_prec : match l_prec l with Some p => prec fs = p | None => - 2 ^ 30 ≤ prec fs ≤ 0 end;
  lo_sign : sign_text (prepend fs) = l_sign l;
  lo_sign_ok : prepend fs = 0 ∨ prepend fs = ch "+" ∨ prepend fs = ch " ";
  lo_alt : alt_form fs = l_alt l;
  lo_case : case_adjust fs = if conv_upper k then 0 else LOWER;
  lo_len : length_modifier fs = len_mod_of len;
  lo_conv : conv_spec fs = conv_spec_of k }.

Lemma npf_digit_char (upper : bool) d :
  0 ≤ d < 16 → npf_digit (if upper then 0 else LOWER) d = nth (Z.to_nat d) (digit_chars upper) 0.
Proof.
  intros Hd. assert (∀ n : nat, (n < 16)%nat →
    npf_digit (if upper then 0 else LOWER) (Z.of_nat n) = nth n (digit_chars upper) 0) as Hall.
  { intros n Hn. do 16 (destruct n as [|n]; [by destruct upper|]). lia. }
  rewrite <-Hall by lia. f_equal. lia.
Qed.

Lemma numeral_text base (upper : bool) v :
  2 ≤ base ≤ 16 → 0 ≤ v < 2 ^ 64 → number_text base (if upper then 0 else LOWER) v = pf_numeral base upper v.
Proof.
  intros Hb Hv. unfold number_text, pf_numeral. f_equal.
  assert (v < base ^ Z.of_nat 64) as H64.
  { eapply Z.lt_le_trans; [apply Hv|]. apply Z.pow_le_mono_l. lia. }
  destruct (digits_value 64 base v) as [_ Hds]; [lia|lia|].
  apply map_ext_in. intros d Hd. apply npf_digit_char. rewrite List.Forall_forall in Hds. specialize (Hds d Hd). lia.
Qed.

Lemma c_signed_sint w v : 0 < w → sint w v = c_signed w v.
Proof.
  intros Hw. unfold sint, c_signed, wrap.
  assert (2 ^ w = 2 * 2 ^ (w - 1)) as E by (rewrite <-Z.pow_succ_r by lia; f_equal; lia).
  assert (0 < 2 ^ (w - 1)) as H1 by (apply Z.pow_pos_nonneg; lia). rewrite E. set (h := 2 ^ (w - 1)) in *. clearbody h.
  pose proof (Z.mod_pos_bound v (2 * h) ltac:(lia)) as Hm. pose proof (Z.div_mod v (2 * h) ltac:(lia)) as Hq.
  cbv zeta. destruct (Z.ltb_spec (v mod (2 * h)) h).
  - rewrite <-(Z.mod_unique (v + h) (2 * h) (v / (2 * h)) (v mod (2 * h) + h)); lia.
  - rewrite <-(Z.mod_unique (v + h) (2 * h) (v / (2 * h) + 1) (v mod (2 * h) - h)); lia.
Qed.

(** Values keep their low bits when they pass through a wider type. *)
Lemma mod_mod_pow a b v : 0 ≤ a ≤ b → (v mod 2 ^ b) mod 2 ^ a = v mod 2 ^ a.
Proof.
  intros H. symmetry. apply Znumtheory.Zmod_div_mod; [apply Z.pow_pos_nonneg; lia..|].
  exists (2 ^ (b - a)). rewrite <-Z.pow_add_r by lia. f_equal. lia.
Qed.

Lemma c_signed_mod a b v : 0 < a ≤ b → c_signed a (v mod 2 ^ b) = c_signed a v.
Proof.
  intros H. unfold c_signed. f_equal. rewrite <-(Zplus_mod_idemp_l (v mod 2 ^ b) _ (2 ^ a)), mod_mod_pow by lia.
  by rewrite Zplus_mod_idemp_l.
Qed.

Lemma c_signed_signed a b v : 0 < a ≤ b → c_signed a (c_signed b v) = c_signed a v.
Proof.
  intros H. rewrite <-(c_signed_mod a b (c_signed b v)), <-(c_signed_mod a b v) by lia. f_equal. unfold c_signed.
  rewrite Zminus_mod_idemp_l. f_equal. lia.
Qed.

Lemma extract_signed_len l w : npf_extract_signed (len_mod_of l) (u64 w) = c_signed (len_bits l) w.
Proof.
  destruct l; cbn [len_mod_of npf_extract_signed len_bits]; rewrite ?c_signed_sint by lia; unfold wrap;
    rewrite ?c_signed_signed, ?c_signed_mod by lia; done.
Qed.

Lemma extract_unsigned_len l w : npf_extract_unsigned (len_mod_of l) (u64 w) = w mod 2 ^ len_bits l.
Proof.
  destruct l; cbn [len_mod_of npf_extract_unsigned len_bits]; unfold wrap; by rewrite ?mod_mod_pow by lia.
Qed.

Section laid.
Context {k : pf_conv} {len : pf_len} {l : pf_layout} {fs : npf_format_spec}.
Context (Hl : laid_out k len l fs).

Lemma laid_prec_nat : Z.to_nat (prec fs) = Z.to_nat (default 0 (l_prec l)).
Proof. pose proof (lo_prec _ _ _ _ Hl) as E. destruct (l_prec l); simpl in *; [by rewrite E|lia]. Qed.

Lemma laid_zero_prec : has_prec fs && (prec fs =? 0) = bool_decide (l_prec l = Some 0).
Proof.
  rewrite (lo_has_prec _ _ _ _ Hl). pose proof (lo_prec _ _ _ _ Hl) as E. destruct (l_prec l) as [p|].
  - rewrite E, bool_decide_eq_true_2 by done. simpl.
    destruct (Z.eqb_spec p 0) as [->|]; [by rewrite bool_decide_eq_true_2|by rewrite bool_decide_eq_false_2 by congruence].
  - by rewrite bool_decide_eq_false_2 by (by intros []).
Qed.

Lemma laid_field pre body : field fs pre body = pf_field l pre body.
Proof.
  unfold field, pf_field. by rewrite (lo_width _ _ _ _ Hl), (lo_left _ _ _ _ Hl), (lo_zero _ _ _ _ Hl).
Qed.

Lemma laid_digits base v :
  2 ≤ base ≤ 16 → 0 ≤ v < 2 ^ 64 →
  printf_digits fs base v =
  pf_digits base (conv_upper k) (l_alt l && bool_decide (conv_spec_of k = NPF_FMT_SPEC_CONV_OCTAL)) (l_prec l) v.
Proof.
  intros Hb Hv. unfold printf_digits, pf_digits.
  rewrite <-(andb_assoc (v =? 0)), laid_zero_prec, laid_prec_nat, (lo_case _ _ _ _ Hl), numeral_text by done.
  rewrite (lo_conv _ _ _ _ Hl), (lo_alt _ _ _ _ Hl). by rewrite (andb_comm (bool_decide _) (l_alt l)).
Qed.

Lemma laid_unsigned w base x :
  base = printf_base (conv_spec_of k) → 2 ≤ base ≤ 16 →
  (base =? 8) = bool_decide (conv_spec_of k = NPF_FMT_SPEC_CONV_OCTAL) →
  (∀ v, printf_prefix fs v = if l_alt l && negb (v =? 0) && negb (x =? 0) then [ch "0"; x] else []) →
  let v := npf_extract_unsigned (length_modifier fs) (u64 w) in
  field fs (printf_prefix fs v) (printf_digits fs base v) = pf_unsigned l len base (conv_upper k) x w.
Proof.
  intros -> Hb H8 Hx. unfold pf_unsigned. cbv zeta. rewrite (lo_len _ _ _ _ Hl), extract_unsigned_len, Hx, laid_field.
  rewrite laid_digits; [by rewrite H8|done|].
  rewrite <-extract_unsigned_len. apply extract_unsigned_range.
Qed.

Lemma laid_prefix v :
  printf_prefix fs v =
  let x := match k with
           | PfHex u => if u then ch "X" else ch "x" | PfBinary u => if u then ch "B" else ch "b" | _ => 0 end in
  if l_alt l && negb (v =? 0) && negb (x =? 0) then [ch "0"; x] else [].
Proof.
  unfold printf_prefix. rewrite (lo_alt _ _ _ _ Hl), (lo_conv _ _ _ _ Hl), (lo_case _ _ _ _ Hl).
  destruct (l_alt l && negb (v =? 0)); [|done]. by destruct k as [| | | | | | |[]|[]|].
Qed.

Lemma laid_signed w :
  conv_upper k = false → conv_spec_of k ≠ NPF_FMT_SPEC_CONV_OCTAL →
  let v := npf_extract_signed (length_modifier fs) (u64 w) in
  let v' := c_signed (len_bits len) w in
  field fs (sign_text (if v <? 0 then ch "-" else prepend fs)) (printf_digits fs 10 (Z.abs v)) =
  pf_field l (if v' <? 0 then [ch "-"] else l_sign l) (pf_digits 10 false false (l_prec l) (Z.abs v')).
Proof.
  intros Hu Ho. cbv zeta. pose proof (extract_signed_range (length_modifier fs) (u64 w)) as Hr.
  rewrite (lo_len _ _ _ _ Hl), extract_signed_len in *. rewrite laid_field.
  rewrite laid_digits, Hu, (bool_decide_eq_false_2 (conv_spec_of k = _) Ho), andb_false_r by lia.
  f_equal. destruct (_ <? 0); [done|]. apply (lo_sign _ _ _ _ Hl).
Qed.

Lemma laid_string s :
  printf_string fs s = match l_prec l with Some p => take (Z.to_nat p) (cstr s) | None => cstr s end.
Proof.
  unfold printf_string. rewrite (lo_has_prec _ _ _ _ Hl). pose proof (lo_prec _ _ _ _ Hl) as E.
  destruct (l_prec l); [by rewrite E, bool_decide_eq_true_2|by rewrite bool_decide_eq_false_2 by (by intros [])].
Qed.
End laid.

Lemma laid_directive k len l fs args :
  laid_out k len l fs → printf_directive fs args = pf_conv_text k len l args.
Proof.
  intros Hl. unfold printf_directive. rewrite (lo_conv _ _ _ _ Hl).
  destruct k; cbn [conv_spec_of pf_conv_text]; destruct args as [|[w|q s] args]; try done;
    try (by rewrite (laid_field Hl)).
  - rewrite (laid_field Hl). do 4 f_equal. apply (mod_mod_pow 8 64). lia.
  - by rewrite (laid_field Hl), (laid_string Hl).
  - do 2 f_equal. by apply (laid_signed Hl).
  - do 2 f_equal. by apply (laid_signed Hl).
  - do 2 f_equal. apply (laid_unsigned Hl); [done|done|done|apply (laid_prefix Hl)].
  - do 2 f_equal. apply (laid_unsigned Hl); [done|done|done|apply (laid_prefix Hl)].
  - do 2 f_equal. apply (laid_unsigned Hl); [done|done|done|apply (laid_prefix Hl)].
  - do 2 f_equal. apply (laid_unsigned Hl); [done|done|done|apply (laid_prefix Hl)].
  - rewrite (laid_field Hl). do 3 f_equal. apply (numeral_text 16 false); [lia|]. apply wrap_range. lia.
Qed.

Lemma laid_ok k len l fs :
  laid_out k len l fs → 0 ≤ l_width l → 0 ≤ default 0 (l_prec l) → (l_prec l ≠ None → takes_prec k = true) →
  pf_layout_ok k l = true → directive_ok fs = true.
Proof.
  intros Hl Hw Hp Ht. unfold pf_layout_ok, directive_ok. rewrite !andb_true_iff, !Z.leb_le, !negb_true_iff.
  intros [[H1 H2] H3]. rewrite (lo_width _ _ _ _ Hl), (lo_has_prec _ _ _ _ Hl), (lo_conv _ _ _ _ Hl),
    (lo_zero _ _ _ _ Hl), (lo_left _ _ _ _ Hl), (lo_case _ _ _ _ Hl), !orb_true_iff, !Z.eqb_eq, bool_decide_eq_true.
  pose proof (lo_prec _ _ _ _ Hl) as Hprec. pose proof (lo_sign_ok _ _ _ _ Hl) as Hs.
  pose proof (lo_width_none _ _ _ _ Hl) as Hn.
  assert (bool_decide (is_Some (l_prec l)) = match l_prec l with Some _ => true | None => false end) as Ei.
  { destruct (l_prec l); [by apply bool_decide_eq_true_2|by apply bool_decide_eq_false_2; intros []]. }
  rewrite Ei in *. clear Ei. split_and!; try done.
  - destruct (l_prec l); simpl in *; lia.
  - destruct (l_prec l); simpl in *; lia.
  - destruct (decide (field_width_opt fs = NPF_FMT_SPEC_OPT_NONE)); [right; by apply Hn|by left].
  - destruct (l_prec l); simpl in *; apply Z.leb_le; lia.
  - destruct (l_prec l); [|done]. specialize (Ht ltac:(done)). by destruct k.
  - etransitivity; [|exact H3]. do 2 f_equal. by destruct k.
  - tauto.
  - destruct (conv_upper k); tauto.
Qed.

(** ** Stars *)

Lemma star_word args v args' :
  star_arg args = Some (v, args') → ∃ w, va_word args = Ok (w, args') ∧ sint 32 w = v.
Proof.
  destruct args as [|[w|p s] args]; simpl; [done|intros [= <- <-]; eexists; split; [done|]..];
    rewrite c_signed_sint by lia; unfold wrap; by rewrite c_signed_mod by lia.
Qed.

Lemma c_signed_range v : - 2 ^ 31 ≤ c_signed 32 v < 2 ^ 31.
Proof. rewrite <-c_signed_sint by lia. by apply (sint_range 32). Qed.

(** The specification after the width is known. *)
Definition width_done (x : pf_prefix) (k : pf_conv) (w : Z) : npf_format_spec :=
  set_width (Z.abs w) (has FlagMinus (x_flags x) || (w <? 0)) (spec_of x k).

Lemma width_arg_nonneg w args v args' :
  width_ok w = true → width_arg w args = Some (v, args') → w ≠ WidthStar → 0 ≤ v ∧ v = width_num w ∧ args' = args.
Proof.
  intros Hw. destruct w; simpl; try done; intros [= <- <-] _; [done|].
  by apply andb_true_iff in Hw as [[_ [? _]]%number_ok_spec _].
Qed.

Lemma star_width_show x k args w args1 :
  width_ok (x_width x) = true → width_arg (x_width x) args = Some (w, args1) → Z.abs w ≤ 2 ^ 30 →
  (match width_opt (x_width x) with
   | NPF_FMT_SPEC_OPT_STAR =>
       a ← va_word args;
       let w := sint 32 (fst a) in
       if w <? 0 then w' ← int (- w); Ok (set_width w' true (spec_of x k), snd a)
       else Ok (set_width w (left_justified (spec_of x k)) (spec_of x k), snd a)
   | _ => Ok (spec_of x k, args)
   end) = Ok (width_done x k w, args1).
Proof.
  intros Hwo Hw Hb. unfold width_done. destruct (decide (x_width x = WidthStar)) as [E|E].
  - rewrite E in *. cbn [width_opt width_arg] in *. destruct (star_word _ _ _ Hw) as (v & -> & <-).
    cbn [mbind res_bind fst snd]. destruct (Z.ltb_spec (sint 32 v) 0).
    + rewrite int_ok by (unfold INT_MIN, INT_MAX; lia). cbn [mbind res_bind].
      rewrite orb_true_r. by rewrite Z.abs_neq by lia.
    + rewrite orb_false_r. by rewrite Z.abs_eq by lia.
  - destruct (width_arg_nonneg _ _ _ _ Hwo Hw E) as (Hv & -> & ->).
    assert ((width_num (x_width x) <? 0) = false) as -> by lia. rewrite orb_false_r, Z.abs_eq by done.
    clear -E. destruct x as [fl wd pr ln]. by destruct wd.
Qed.

Lemma laid_show x k w p n o :
  (x_width x = WidthNone → w = 0) → bool_decide (o ≠ NPF_FMT_SPEC_OPT_NONE) = bool_decide (is_Some p) →
  match p with Some p => n = p | None => - 2 ^ 30 ≤ n ≤ 0 end →
  laid_out k (x_len x) (layout x k w p) (set_prec n o (width_done x k w)).
Proof.
  intros Hw Ho Hn. split; try done.
  - cbn. intros E. rewrite Hw; [done|]. by destruct (x_width x).
  - change (prepend _) with (spec_sign x). unfold layout, spec_sign. cbn [l_sign].
    by destruct (has FlagPlus (x_flags x)), (has FlagSpace (x_flags x)).
  - change (prepend _) with (spec_sign x). unfold spec_sign.
    destruct (has FlagPlus (x_flags x)), (has FlagSpace (x_flags x)); tauto.
Qed.

Lemma star_prec_show x k w args1 p args2 :
  (x_width x = WidthNone → w = 0) → prec_ok (x_prec x) = true → prec_arg k (x_prec x) args1 = Some (p, args2) →
  ∃ fs, (match prec_opt (width_done x k w) with
         | NPF_FMT_SPEC_OPT_STAR =>
             a ← va_word args1;
             let p := sint 32 (fst a) in
             Ok (set_prec p (if p <? 0 then NPF_FMT_SPEC_OPT_NONE else NPF_FMT_SPEC_OPT_STAR) (width_done x k w), snd a)
         | _ => Ok (width_done x k w, args1)
         end) = Ok (fs, args2) ∧ laid_out k (x_len x) (layout x k w p) fs ∧
    0 ≤ default 0 p ∧ (p ≠ None → takes_prec k = true).
Proof.
  intros Hw Hpo Hp.
  pose proof (laid_show x k w p (prec_num (x_prec x))
    (if takes_prec k then prec_opt_of (x_prec x) else NPF_FMT_SPEC_OPT_NONE) Hw) as Hlaid.
  change (set_prec _ _ (width_done x k w)) with (width_done x k w) in Hlaid.
  change (prec_opt (width_done x k w)) with (if takes_prec k then prec_opt_of (x_prec x) else NPF_FMT_SPEC_OPT_NONE).
  destruct (x_prec x) as [|ds|ds|]; cbn [prec_arg prec_opt_of prec_num prec_ok] in *.
  - injection Hp as <- <-. eexists. split; [by destruct (takes_prec k)|]. split; [|done].
    by apply Hlaid; [destruct (takes_prec k)|].
  - apply number_ok_spec in Hpo as [_ [Hn _]].
    destruct (takes_prec k); [|destruct (Z.eqb_spec (number_of ds) 0) as [E|]; [|done]];
      injection Hp as <- <-; (eexists; split; [done|]; split; [apply Hlaid; [done|]|]); try done. by rewrite E.
  - destruct (Z.eqb_spec (number_of ds) 0) as [E|]; [|done]. injection Hp as <- <-.
    eexists. split; [by destruct (takes_prec k)|]. split; [|done]. apply Hlaid; [by destruct (takes_prec k)|by rewrite E].
  - destruct (takes_prec k); [|injection Hp as <- <-; eexists; split; [done|]; split; [by apply Hlaid|done]].
    apply bind_Some in Hp as ([v a] & Hs & Hp). cbn [fst snd] in Hp.
    destruct (Z.ltb_spec v (- 2 ^ 30)); [done|]. injection Hp as <- <-.
    destruct (star_word _ _ _ Hs) as (wd & -> & Ev). cbn [mbind res_bind fst snd]. rewrite Ev.
    eexists. split; [reflexivity|]. destruct (Z.ltb_spec v 0); (split; [apply laid_show; try done; lia|done || (split; [simpl; lia|done])]).
Qed.

Lemma star_args_show x k args w args1 p args2 :
  prefix_ok x = true → width_arg (x_width x) args = Some (w, args1) → prec_arg k (x_prec x) args1 = Some (p, args2) →
  Z.abs w ≤ 2 ^ 30 →
  ∃ fs, npf_star_args (spec_of x k) args = Ok (fs, args2) ∧ laid_out k (x_len x) (layout x k w p) fs ∧
    0 ≤ default 0 p ∧ (p ≠ None → takes_prec k = true).
Proof.
  intros [Hwo Hpo]%andb_true_iff Hw Hp Hb. unfold npf_star_args.
  change (field_width_opt (spec_of x k)) with (width_opt (x_width x)).
  pose proof (star_width_show x k args w args1 Hwo Hw Hb) as Es. cbv zeta in Es. rewrite Es. cbn [mbind res_bind].
  apply (star_prec_show x k w args1); [|done|done]. intros E. rewrite E in Hw. by injection Hw as <- <-.
Qed.

Lemma dir_show x k args out args' :
  prefix_ok x = true → pf_dir_text x k args = Some (out, args') →
  ∃ fs args1, npf_star_args (spec_of x k) args = Ok (fs, args1) ∧ directive_ok fs = true ∧
    printf_directive fs args1 = Some (out, args').
Proof.
  intros Hx. unfold pf_dir_text. intros ([w a1] & Hw & Hd)%bind_Some.
  apply bind_Some in Hd as ([p a2] & Hp & Hd). cbn [fst snd] in *.
  destruct (pf_layout_ok k (layout x k w p)) eqn:Hok; [|done].
  pose proof Hok as [[Hb%Z.leb_le _]%andb_true_iff _]%andb_true_iff. cbn [layout l_width] in Hb.
  destruct (star_args_show x k args w a1 p a2 Hx Hw Hp Hb) as (fs & E & Hl & Hp0 & Ht).
  exists fs, a2. split; [done|]. split; [|by rewrite (laid_directive _ _ _ _ _ Hl)].
  by apply (laid_ok _ _ _ _ Hl); [apply Z.abs_nonneg|..].
Qed.

(** ** Whole formats *)

Lemma flag_no_percent f : flag_char f ≠ ch "%".
Proof. by destruct f. Qed.
Lemma show_number_no_percent ds : number_ok ds = true → Forall (λ c, c ≠ ch "%") (show_number ds).
Proof.
  intros [Hds _]%number_ok_spec. unfold show_number. apply Forall_map. eapply Forall_impl; [exact Hds|].
  cbn beta. intros d Hd. change (ch "0") with 48. change (ch "%") with 37. lia.
Qed.

(** The start of a directive has no further percent sign. *)
Lemma prefix_no_percent x : prefix_ok x = true → Forall (λ c, c ≠ ch "%") (show_prefix x).
Proof.
  intros [Hw Hp]%andb_true_iff. unfold show_prefix. rewrite !Forall_app. split_and!.
  - apply Forall_map, Forall_true. apply flag_no_percent.
  - destruct (x_width x); [constructor| |by repeat constructor].
    apply andb_true_iff in Hw as [Hn _]. by apply show_number_no_percent.
  - destruct (x_prec x); cbn [show_pf_prec]; [constructor|..|by repeat constructor];
      repeat (constructor; [done|]); by apply show_number_no_percent.
  - destruct (x_len x); by repeat constructor.
Qed.

Lemma printf_text_literal l fuel r args out :
  Forall (λ c, c ≠ ch "%") l → (length l ≤ fuel)%nat → printf_text (fuel - length l) r args = Some out →
  printf_text fuel (l ++ r) args = Some (l ++ out).
Proof.
  intros Hl. revert fuel. induction Hl as [|c l Hc _ IH]; intros fuel Hf Ht; simpl in *; [by rewrite Nat.sub_0_r in Ht|].
  destruct fuel as [|fuel]; [lia|]. cbn [printf_text]. rewrite (proj2 (Z.eqb_neq _ _) Hc). cbn [negb].
  by rewrite (IH fuel) by (done || lia).
Qed.

(** The text of the data is the text of the directives the parser reads. *)
Lemma pf_text_parsed f fuel args out :
  pf_ok f = true → (length (show_pf f) ≤ fuel)%nat → pf_text f args = Some out →
  printf_text fuel (show_pf f) args = Some out.
Proof.
  revert fuel args out. induction f as [|i f IH]; intros fuel args out Hok Hf Ht.
  { injection Ht as <-. by destruct fuel. }
  change (show_pf (i :: f)) with (show_pf_item i ++ show_pf f) in *. rewrite length_app in Hf.
  destruct i as [c|x k|x]; cbn [pf_ok pf_text] in *.
  - rewrite !andb_true_iff, !negb_true_iff in Hok. destruct Hok as [[_ Hc%Z.eqb_neq] Hok]. apply fmap_Some in Ht as (o & Ho & ->).
    cbn [show_pf_item length] in *. apply (printf_text_literal [c]); [by constructor|simpl; lia|].
    apply IH; [done|simpl; lia|done].
  - apply andb_true_iff in Hok as [Hx Hok]. apply bind_Some in Ht as ([o args'] & Hd & Ht). cbn [fst snd] in Ht.
    apply fmap_Some in Ht as (o' & Ho & ->). destruct (dir_show x k args o args' Hx Hd) as (fs & a1 & Es & Hdo & Ed).
    pose proof (parse_dir_show x k (show_pf f) Hx) as Ep. cbn [show_pf_item app length] in *.
    destruct fuel as [|fuel]; [lia|]. cbn [printf_text]. rewrite Z.eqb_refl. cbn [negb]. rewrite Ep, Es, Hdo, Ed.
    rewrite Nat2Z.id. cbn [drop]. rewrite drop_app_length. rewrite (IH fuel _ o') by (done || lia). done.
  - rewrite !andb_true_iff, !negb_true_iff in Hok. destruct Hok as [[[Hx He] Hc] Hok].
    apply fmap_Some in Ht as (o & Ho & ->).
    pose proof (parse_stray_show x (show_pf f) Hx He Hc) as Ep. cbn [show_pf_item app length] in *.
    destruct fuel as [|fuel]; [lia|]. cbn [printf_text]. rewrite Z.eqb_refl. cbn [negb]. rewrite Ep.
    rewrite (printf_text_literal (show_prefix x) fuel (show_pf f) args o); [done|by apply prefix_no_percent|lia|].
    apply IH; [done|lia|done].
Qed.

(** The characters [format] are a format that prints [out] for [args]. *)
Definition format_prints (format : list Z) (args : list va_slot) (out : list Z) : Prop :=
  ∃ f, format = show_pf f ∧ pf_ok f = true ∧ pf_text f args = Some out.

Lemma format_prints_parsed format args out :
  format_prints format args out → printf_text (length format) format args = Some out.
Proof. intros (f & -> & Hok & Ht). by apply pf_text_parsed. Qed.

(** ** Theorems *)


(** "[%5d|%-4s|%#06x|%.3d|%+hhd|%c%%]%5q". *)
Definition plain : pf_prefix := MkPrefix [] WidthNone PrecNone LenInt.
Definition demo : list pf_item :=
  map PfLit (chars "[") ++ [PfDir (MkPrefix [] (WidthNum [5]) PrecNone LenInt) PfSignedD] ++ map PfLit (chars "|") ++
  [PfDir (MkPrefix [FlagMinus] (WidthNum [4]) PrecNone LenInt) PfString] ++ map PfLit (chars "|") ++
  [PfDir (MkPrefix [FlagAlt; FlagZero] (WidthNum [6]) PrecNone LenInt) (PfHex false)] ++ map PfLit (chars "|") ++
  [PfDir (MkPrefix [] WidthNone (PrecNum [3]) LenInt) PfSignedD] ++ map PfLit (chars "|") ++
  [PfDir (MkPrefix [FlagPlus] WidthStar PrecNone LenChar) PfSignedD] ++ map PfLit (chars "|") ++
  [PfDir plain PfChar; PfDir plain PfPercent] ++ map PfLit (chars "]") ++
  [PfStray (MkPrefix [] (WidthNum [5]) PrecNone LenInt)] ++ map PfLit (chars "q").
Definition demo_format : list Z := chars "[%5d|%-4s|%#06x|%.3d|%+*hhd|%c%%]%5q".
Definition demo_args : list va_slot :=
  [VaWord (-42); VaStr 4096 (chars "ab"); VaWord 255; VaWord 7; VaWord (-6); VaWord 260; VaWord 65].
Definition demo_text : list Z := chars "[  -42|ab  |0x00ff|007|+4    |A%]%5q".
Definition collect (c : Z) : M (list Z) unit := modify (λ l, l ++ [c]).


(** C18: [npf_vsnprintf] into a buffer of any size but zero stores the text
    of the format cut to the size less one, followed by a zero, stores nothing
    outside the buffer, and returns the length of the whole text. *)
Theorem npf_vsnprintf_truncates junk buf format args out :
  length junk = NANOPRINTF_CONVERSION_BUFFER_SIZE → (0 < length buf)%nat →
  format_prints format args out → Z.of_nat (length out) ≤ INT_MAX →
  ∃ b, npf_vsnprintf junk (Some buf) (Z.of_nat (length buf)) format args = Ok (Z.of_nat (length out), Some b) ∧
    length b = length buf ∧
    let k := Nat.min (length out) (length buf - 1) in
    take (S k) b = take k (map (wrap 8) out) ++ [0].
Proof. intros Hj Hb Ht. apply npf_vsnprintf_text; [done|done|]. by apply format_prints_parsed. Qed.

Lemma npf_vsnprintf_truncates_witness :
  ∃ b, npf_vsnprintf (replicate 23 170) (Some (replicate 8 170)) 8 demo_format demo_args = Ok (36, Some b) ∧
    cstr b = chars "[  -42|".
Proof.
  destruct (npf_vsnprintf_truncates (replicate 23 170) (replicate 8 170) demo_format demo_args demo_text)
    as (b & E & _ & _); [reflexivity|simpl; lia| |vm_compute; discriminate|].
  { exists demo. split; [vm_compute; reflexivity|]. split; vm_compute; reflexivity. }
  exists b. split; [exact E|]. revert E. vm_compute. intros [= <-]. reflexivity.
Defined.

(** A negative star precision counts as none, but the zero flag, dropped when
    the star was read, stays dropped: "%05.*d" with -1 and 42 is filled with
    spaces, where "%05d", the same directive in C, is filled with zeros. *)
Theorem npf_star_prec_drops_zero :
  sprint "%05.*d" [VaWord (-1); VaWord 42] = Ok (chars "   42") ∧ sprint "%05d" [VaWord 42] = Ok (chars "00042").
Proof. vm_compute. done. Qed.
