(* ===== verification/Log.v ===== *)
(** * The log: log.c

    Messages are formatted by nanoprintf into a buffer of 256 characters on
    the stack and sent, between ANSI colour codes, to QEMU's debug port. *)

From S2P Require Import Prelude Digits Hw Npf NpfThms NpfFormat.
Local Open Scope Z_scope.
Local Open Scope kernel_scope.

Inductive LogLevel := LOG_DEBUG | LOG_INFO | LOG_NORMAL | LOG_ERROR.

Definition QEMU_DEBUG_PORT : Z := 0xE9.

Definition qemu_debug_putc (c : Z) : M hw unit := write_portb QEMU_DEBUG_PORT (u8 c).

(** A C string: the characters up to the first zero. *)
Fixpoint qemu_debug_print (str : list Z) : M hw unit :=
  match str with
  | [] => mret tt
  | c :: str' => if c =? 0 then mret tt else qemu_debug_putc c;; qemu_debug_print str'
  end.

(** The escape character is octal 033. *)
Definition escape (s : string) : list Z := 27 :: chars s.
Definition COLOR_RESET : list Z := escape "[0m".
Definition COLOR_DEBUG : list Z := escape "[90m".
Definition COLOR_INFO : list Z := escape "[36m".
Definition COLOR_NORMAL : list Z := escape "[37m".
Definition COLOR_ERROR : list Z := escape "[31m".

(** The switch over the level. *)
Definition level_color (level : LogLevel) : list Z :=
  match level with
  | LOG_DEBUG => COLOR_DEBUG
  | LOG_INFO => COLOR_INFO
  | LOG_NORMAL => COLOR_NORMAL
  | LOG_ERROR => COLOR_ERROR
  end.
Definition level_str (level : LogLevel) : list Z :=
  match level with
  | LOG_DEBUG => chars "[DEBUG] "
  | LOG_INFO => chars "[INFO] "
  | LOG_NORMAL => []
  | LOG_ERROR => chars "[ERROR] "
  end.

Definition LOG_BUFFER_SIZE : nat := 256.

(** [junk] and [buffer]: what the conversion buffer and the message buffer
    hold before they are written. *)
Section log.
Variables junk buffer : list Z.

Definition qemu_debug_log_internal (level : LogLevel) (append_newline : bool) (fmt : list Z) (args : list va_slot) :
    M hw unit :=
  qemu_debug_print (level_color level);;
  qemu_debug_print (level_str level);;
  r ← lift (npf_vsnprintf junk (Some buffer) (Z.of_nat LOG_BUFFER_SIZE) fmt args);
  qemu_debug_print (default [] (snd r));;
  qemu_debug_print COLOR_RESET;;
  if append_newline then qemu_debug_print [10] else mret tt.

Definition log (level : LogLevel) (fmt : list Z) (args : list va_slot) : M hw unit :=
  qemu_debug_log_internal level false fmt args.

Definition logln (level : LogLevel) (fmt : list Z) (args : list va_slot) : M hw unit :=
  qemu_debug_log_internal level true fmt args.
End log.

(** ** Lemmas *)

(** The hardware after [bs] have been sent to the port, the latest first. *)
Definition sent (bs : list Z) (h : hw) : hw :=
  MkHw (mmio h) (map (pair QEMU_DEBUG_PORT) (rev bs) ++ ports h) (msrs h) (tsc_src h) (tsc_reads h)
    (hpet_src h) (hpet_reads h) (apic_src h) (apic_reads h).

Lemma sent_app bs bs' h : sent bs' (sent bs h) = sent (bs ++ bs') h.
Proof. unfold sent. simpl. by rewrite rev_app_distr, map_app, <-(assoc_L (++)). Qed.

Lemma sent_nil h : sent [] h = h.
Proof. by destruct h. Qed.

Lemma qemu_debug_print_sends str h : qemu_debug_print str h = Ok (tt, sent (map (wrap 8) (cstr str)) h).
Proof.
  revert h. induction str as [|c str IH]; intros h; simpl.
  { by rewrite sent_nil. }
  destruct (c =? 0); [by rewrite sent_nil|]. unfold mbind, M_bind. simpl.
  rewrite wrap_wrap by lia. rewrite IH. do 2 f_equal.
  change (MkHw _ _ _ _ _ _ _ _ _) with (sent [u8 c] h). apply sent_app.
Qed.

Lemma bytes_wrap l : Forall (λ c, 0 ≤ c < 256) l → map (wrap 8) l = l.
Proof. induction 1 as [|c l Hc _ IH]; simpl; [done|]. rewrite wrap_small by done. by rewrite IH. Qed.

Lemma map_wrap_wrap l : map (wrap 8) (map (wrap 8) l) = map (wrap 8) l.
Proof. rewrite map_map. apply map_ext. intros. apply wrap_wrap. lia. Qed.

Lemma cstr_bytes l : map (wrap 8) (cstr (map (wrap 8) l)) = cstr (map (wrap 8) l).
Proof.
  induction l as [|c l IH]; simpl; [done|]. destruct (_ =? _); [done|]. simpl.
  rewrite wrap_wrap by lia. by rewrite IH.
Qed.

(** What is sent of a message with the text [out]. *)
Definition message (level : LogLevel) (newline : bool) (out : list Z) : list Z :=
  level_color level ++ level_str level ++ cstr (take (LOG_BUFFER_SIZE - 1) (map (wrap 8) out)) ++
  COLOR_RESET ++ (if newline then [10] else []).

Lemma cstr_level level : map (wrap 8) (cstr (level_color level)) = level_color level ∧
  map (wrap 8) (cstr (level_str level)) = level_str level.
Proof. destruct level; vm_compute; done. Qed.

Lemma log_internal_sends junk buffer level newline fmt args out h :
  length junk = NANOPRINTF_CONVERSION_BUFFER_SIZE → length buffer = LOG_BUFFER_SIZE →
  format_prints fmt args out → Z.of_nat (length out) ≤ INT_MAX →
  qemu_debug_log_internal junk buffer level newline fmt args h = Ok (tt, sent (message level newline out) h).
Proof.
  intros Hj Hb Ht Hl. destruct (cstr_level level) as [Ec Es]. unfold qemu_debug_log_internal.
  rewrite (bind_ok _ _ _ _ _ (qemu_debug_print_sends _ _)), Ec.
  rewrite (bind_ok _ _ _ _ _ (qemu_debug_print_sends _ _)), Es.
  destruct (npf_vsnprintf_text junk buffer fmt args out Hj ltac:(rewrite Hb; unfold LOG_BUFFER_SIZE; lia)
    (format_prints_parsed _ _ _ Ht) Hl)
    as (b & E & Hlb & Hk). rewrite Hb in E, Hk. cbv zeta in Hk.
  erewrite bind_ok by (by rewrite E). change (default [] _) with b.
  set (k := Nat.min (length out) (LOG_BUFFER_SIZE - 1)) in *.
  assert (cstr b = cstr (take (LOG_BUFFER_SIZE - 1) (map (wrap 8) out))) as Hcb.
  { rewrite <-(take_drop (S k) b), Hk, <-(assoc_L (++)). simpl app at 2. rewrite cstr_take_app.
    f_equal. unfold k. destruct (Nat.min_spec (length out) (LOG_BUFFER_SIZE - 1)) as [[? ->]|[? ->]]; [|done].
    by rewrite !take_ge by (rewrite length_map; lia). }
  rewrite (bind_ok _ _ _ _ _ (qemu_debug_print_sends _ _)), Hcb.
  assert (map (wrap 8) (cstr (take (LOG_BUFFER_SIZE - 1) (map (wrap 8) out))) =
    cstr (take (LOG_BUFFER_SIZE - 1) (map (wrap 8) out))) as ->.
  { rewrite firstn_map. apply cstr_bytes. }
  rewrite (bind_ok _ _ _ _ _ (qemu_debug_print_sends _ _)).
  assert (map (wrap 8) (cstr COLOR_RESET) = COLOR_RESET) as -> by (vm_compute; done).
  unfold message. destruct newline.
  - rewrite qemu_debug_print_sends. rewrite !sent_app. done.
  - unfold mret, M_ret. rewrite !sent_app. done.
Qed.

(** ** Theorems *)

(** [logln] sends to the debug port, in order, the colour and prefix of
    the level, at most 255 characters of the formatted message (up to the
    first zero character), the code that resets the colour and a newline;
    nothing else is written, and longer messages are cut. *)
Theorem logln_sends junk buffer level fmt args out h :
  length junk = NANOPRINTF_CONVERSION_BUFFER_SIZE → length buffer = LOG_BUFFER_SIZE →
  format_prints fmt args out → Z.of_nat (length out) ≤ INT_MAX →
  logln junk buffer level fmt args h = Ok (tt, sent (message level true out) h).
Proof. apply log_internal_sends. Qed.

Definition hw_zero : hw := MkHw [] [] ∅ (λ _, 0) 0 (λ _, 0) 0 (λ _, 0) 0.

Lemma logln_sends_witness :
  logln (replicate 23 170) (replicate 256 170) LOG_ERROR (chars "#GP at %p, code %u")
    [VaWord 0xffff800000001000; VaWord 13] hw_zero =
  Ok (tt, sent (escape "[31m" ++ chars "[ERROR] #GP at 0xffff800000001000, code 13" ++ escape "[0m" ++ [10]) hw_zero).
Proof.
  etransitivity.
  - apply (logln_sends (replicate 23 170) (replicate 256 170) LOG_ERROR (chars "#GP at %p, code %u")
      [VaWord 0xffff800000001000; VaWord 13] (chars "#GP at 0xffff800000001000, code 13") hw_zero);
      [reflexivity|reflexivity| |vm_compute; discriminate].
    exists (map PfLit (chars "#GP at ") ++ [PfDir plain PfPointer] ++ map PfLit (chars ", code ") ++ [PfDir plain PfUnsigned]).
    split; [vm_compute; reflexivity|]. split; vm_compute; reflexivity.
  - reflexivity.
Defined.

(** [log] sends the same without the newline. *)
Lemma log_sends junk buffer level fmt args out h :
  length junk = NANOPRINTF_CONVERSION_BUFFER_SIZE → length buffer = LOG_BUFFER_SIZE →
  format_prints fmt args out → Z.of_nat (length out) ≤ INT_MAX →
  log junk buffer level fmt args h = Ok (tt, sent (message level false out) h).
Proof. apply log_internal_sends. Qed.
