(* ===== verification/Tables.v ===== *)
(** * ACPI tables: uacpi/source/tables.c and kernel/acpi/uacpi_interface.c

    The kernel uses the ACPI library for early table access: [acpi_init]
    hands it a buffer, it walks the RSDT or XSDT and records the header of
    every table, and [madt_init] and [hpet_init] look tables up by signature
    and drop them again.  The library's state is one record; the memory the
    firmware tables lie in is mapped at the offset of the direct map, so
    [uacpi_kernel_map] adds that offset.  Messages to the log are left out.
    A host function that the kernel does not implement panics. *)

From S2P Require Import Prelude Mem Digits.
Local Open Scope Z_scope.
Local Open Scope kernel_scope.

(** ** Constants and data *)

Inductive uacpi_status :=
| UACPI_STATUS_OK
| UACPI_STATUS_MAPPING_FAILED
| UACPI_STATUS_OUT_OF_MEMORY
| UACPI_STATUS_BAD_CHECKSUM
| UACPI_STATUS_INVALID_SIGNATURE
| UACPI_STATUS_INVALID_TABLE_LENGTH
| UACPI_STATUS_NOT_FOUND
| UACPI_STATUS_INVALID_ARGUMENT
| UACPI_STATUS_UNIMPLEMENTED
| UACPI_STATUS_ALREADY_EXISTS
| UACPI_STATUS_INTERNAL_ERROR
| UACPI_STATUS_TYPE_MISMATCH
| UACPI_STATUS_INIT_LEVEL_MISMATCH
| UACPI_STATUS_NAMESPACE_NODE_DANGLING
| UACPI_STATUS_NO_HANDLER
| UACPI_STATUS_NO_RESOURCE_END_TAG
| UACPI_STATUS_COMPILED_OUT
| UACPI_STATUS_HARDWARE_TIMEOUT
| UACPI_STATUS_TIMEOUT
| UACPI_STATUS_OVERRIDDEN
| UACPI_STATUS_DENIED
| UACPI_STATUS_AML_UNDEFINED_REFERENCE
| UACPI_STATUS_AML_INVALID_NAMESTRING
| UACPI_STATUS_AML_OBJECT_ALREADY_EXISTS
| UACPI_STATUS_AML_INVALID_OPCODE
| UACPI_STATUS_AML_INCOMPATIBLE_OBJECT_TYPE
| UACPI_STATUS_AML_BAD_ENCODING
| UACPI_STATUS_AML_OUT_OF_BOUNDS_INDEX
| UACPI_STATUS_AML_SYNC_LEVEL_TOO_HIGH
| UACPI_STATUS_AML_INVALID_RESOURCE
| UACPI_STATUS_AML_LOOP_TIMEOUT
| UACPI_STATUS_AML_CALL_STACK_DEPTH_LIMIT.

#[export] Instance uacpi_status_eq_dec : EqDecision uacpi_status.
Proof. solve_decision. Defined.

Definition ACPI_RSDT_SIGNATURE : list Z := chars "RSDT".
Definition ACPI_XSDT_SIGNATURE : list Z := chars "XSDT".
Definition ACPI_FADT_SIGNATURE : list Z := chars "FACP".
Definition ACPI_FACS_SIGNATURE : list Z := chars "FACS".
Definition ACPI_DSDT_SIGNATURE : list Z := chars "DSDT".
Definition ACPI_MADT_SIGNATURE : list Z := chars "APIC".
Definition ACPI_HPET_SIGNATURE : list Z := chars "HPET".

Record acpi_sdt_hdr := MkHdr {
  signature : list Z;
  hdr_length : Z;
  revision : Z;
  checksum : Z;
  oemid : list Z;
  oem_table_id : list Z;
  oem_revision : Z;
  creator_id : Z;
  creator_revision : Z
}.
Definition sizeof_acpi_sdt_hdr : Z := 36.

Definition off_rsdp_revision : Z := 15.
Definition off_rsdt_addr : Z := 16.
Definition off_xsdt_addr : Z := 24.

Inductive uacpi_table_origin :=
| UACPI_TABLE_ORIGIN_FIRMWARE_VIRTUAL
| UACPI_TABLE_ORIGIN_FIRMWARE_PHYSICAL
| UACPI_TABLE_ORIGIN_HOST_VIRTUAL
| UACPI_TABLE_ORIGIN_HOST_PHYSICAL.

#[export] Instance uacpi_table_origin_eq_dec : EqDecision uacpi_table_origin.
Proof. solve_decision. Defined.

Definition is_physical (o : uacpi_table_origin) : bool :=
  match o with
  | UACPI_TABLE_ORIGIN_HOST_PHYSICAL | UACPI_TABLE_ORIGIN_FIRMWARE_PHYSICAL => true
  | _ => false
  end.

Definition UACPI_TABLE_LOADED : Z := Z.shiftl 1 0.
Definition UACPI_TABLE_CSUM_VERIFIED : Z := Z.shiftl 1 1.
Definition UACPI_TABLE_INVALID : Z := Z.shiftl 1 2.

(** [ptr] is zero for a null pointer. *)
Record uacpi_installed_table := MkTable {
  phys_addr : Z;
  hdr : acpi_sdt_hdr;
  ptr : Z;
  reference_count : Z;
  flags : Z;
  origin : uacpi_table_origin
}.
Definition sizeof_uacpi_installed_table : Z := 64.

Record uacpi_table := MkOut { out_ptr : Z; out_index : Z }.

Record uacpi_table_identifiers := MkId { id_signature : list Z; id_oemid : list Z; id_oem_table_id : list Z }.

Inductive uacpi_table_installation_disposition :=
| UACPI_TABLE_INSTALLATION_DISPOSITON_ALLOW
| UACPI_TABLE_INSTALLATION_DISPOSITON_DENY
| UACPI_TABLE_INSTALLATION_DISPOSITON_VIRTUAL_OVERRIDE
| UACPI_TABLE_INSTALLATION_DISPOSITON_PHYSICAL_OVERRIDE.

(** What a handler decides about the table at an address, and the address of
    an override. *)
Definition uacpi_table_installation_handler : Type := mem → Z → uacpi_table_installation_disposition * Z.

Definition UACPI_FLAG_BAD_CSUM_FATAL : Z := Z.shiftl 1 0.
Definition UACPI_FLAG_BAD_TBL_SIGNATURE_FATAL : Z := Z.shiftl 1 1.
Definition UACPI_FLAG_BAD_XSDT : Z := Z.shiftl 1 2.
Definition UACPI_FLAG_PROACTIVE_TBL_CSUM : Z := Z.shiftl 1 5.

Definition UACPI_INIT_LEVEL_EARLY : Z := 0.
Definition UACPI_INIT_LEVEL_SUBSYSTEM_INITIALIZED : Z := 1.

(** A generic address structure: three fields are used. *)
Record acpi_gas := MkGas { gas_space : Z; gas_width : Z; gas_offset : Z; gas_access : Z; gas_address : Z }.
Definition gas_zero : acpi_gas := MkGas 0 0 0 0 0.

(** The part of [g_uacpi_rt_ctx] the table code uses; the copy of the FADT is
    its 276 bytes. *)
Record uacpi_runtime_context := MkRt {
  rt_fadt : mem;
  pm1a_status_blk : acpi_gas;
  pm1b_status_blk : acpi_gas;
  pm1a_enable_blk : acpi_gas;
  pm1b_enable_blk : acpi_gas;
  rt_flags : Z;
  is_rev1 : bool;
  is_hardware_reduced : bool;
  init_level : Z
}.

(** The array with inline storage: its elements, where the dynamic part is
    and how many elements it holds. *)
Record table_array := MkArray { elems : list uacpi_installed_table; dynamic_storage : Z; dynamic_capacity : Z }.
Definition UACPI_STATIC_TABLE_ARRAY_LEN : Z := 16.

Record acpi := MkAcpi {
  acpi_mem : mem;
  rsdp_address : Z;
  acpi_hhdm_offset : Z;
  tables : table_array;
  early_table_access : bool;
  installation_handler : option uacpi_table_installation_handler;
  table_mutex : Z;
  rt : uacpi_runtime_context
}.

#[export] Instance acpi_has_mem : Has mem acpi := {|
  prj := acpi_mem;
  upd := λ m s, MkAcpi m (rsdp_address s) (acpi_hhdm_offset s) (tables s) (early_table_access s)
    (installation_handler s) (table_mutex s) (rt s) |}.

Definition set_tables (t : table_array) : M acpi unit :=
  modify (λ s, MkAcpi (acpi_mem s) (rsdp_address s) (acpi_hhdm_offset s) t (early_table_access s)
    (installation_handler s) (table_mutex s) (rt s)).
Definition set_early (b : bool) : M acpi unit :=
  modify (λ s, MkAcpi (acpi_mem s) (rsdp_address s) (acpi_hhdm_offset s) (tables s) b
    (installation_handler s) (table_mutex s) (rt s)).
Definition set_handler (h : option uacpi_table_installation_handler) : M acpi unit :=
  modify (λ s, MkAcpi (acpi_mem s) (rsdp_address s) (acpi_hhdm_offset s) (tables s) (early_table_access s)
    h (table_mutex s) (rt s)).
Definition set_mutex (mtx : Z) : M acpi unit :=
  modify (λ s, MkAcpi (acpi_mem s) (rsdp_address s) (acpi_hhdm_offset s) (tables s) (early_table_access s)
    (installation_handler s) mtx (rt s)).
Definition upd_rt (f : uacpi_runtime_context → uacpi_runtime_context) : M acpi unit :=
  modify (λ s, MkAcpi (acpi_mem s) (rsdp_address s) (acpi_hhdm_offset s) (tables s) (early_table_access s)
    (installation_handler s) (table_mutex s) (f (rt s))).

(** ** kernel/acpi/uacpi_interface.c *)

Definition uacpi_kernel_get_rsdp : M acpi (uacpi_status * Z) :=
  a ← gets rsdp_address; mret (UACPI_STATUS_OK, a).
Definition uacpi_kernel_map (addr len : Z) : M acpi Z :=
  off ← gets acpi_hhdm_offset; mret (addr +64 off).
Definition uacpi_kernel_unmap (addr len : Z) : M acpi unit := mret tt.
Definition uacpi_kernel_free (p : Z) : M acpi unit := kassert false "UNIMPLEMENTED: uacpi_kernel_free".
Definition uacpi_kernel_alloc (size : Z) : M acpi Z :=
  kassert false "UNIMPLEMENTED: uacpi_kernel_alloc";; mret 0.
Definition uacpi_kernel_free_mutex (mtx : Z) : M acpi unit :=
  kassert false "UNIMPLEMENTED: uacpi_kernel_free_mutex".
Definition uacpi_kernel_acquire_mutex (mtx timeout : Z) : M acpi uacpi_status :=
  kassert false "UNIMPLEMENTED: uacpi_kernel_acquire_mutex";; mret UACPI_STATUS_OK.
Definition uacpi_kernel_release_mutex (mtx : Z) : M acpi unit :=
  kassert false "UNIMPLEMENTED: uacpi_kernel_release_mutex".

(** ** Helpers of the library *)

Definition uacpi_acquire_native_mutex_may_be_null (mtx : Z) : M acpi uacpi_status :=
  if mtx =? 0 then mret UACPI_STATUS_OK else uacpi_kernel_acquire_mutex mtx 0xFFFF.
Definition uacpi_release_native_mutex_may_be_null (mtx : Z) : M acpi unit :=
  if mtx =? 0 then mret tt else uacpi_kernel_release_mutex mtx.

(** [if (uacpi_unlikely_error(ret)) return ret;] *)
Definition on_ok (ret : uacpi_status) (k : M acpi uacpi_status) : M acpi uacpi_status :=
  match ret with UACPI_STATUS_OK => k | _ => mret ret end.

(** [UACPI_ENSURE_INIT_LEVEL_AT_LEAST] unless early access is on; [b] is the
    second result of a call that is refused. *)
Definition with_access {B : Type} (b : B) (k : M acpi (uacpi_status * B)) : M acpi (uacpi_status * B) :=
  early ← gets early_table_access;
  lvl ← gets (λ s, init_level (rt s));
  if negb early && (lvl <? UACPI_INIT_LEVEL_SUBSYSTEM_INITIALIZED) then mret (UACPI_STATUS_INIT_LEVEL_MISMATCH, b)
  else k.

Definition uacpi_check_flag (flag : Z) : M acpi bool :=
  fl ← gets (λ s, rt_flags (rt s)); mret (Z.land fl flag =? flag).

Fixpoint rd_bytes {S : Type} `{Has mem S} (n : nat) (a : Z) : M S (list Z) :=
  match n with
  | O => mret []
  | Datatypes.S n' => b ← rd8 a; bs ← rd_bytes n' (a + 1); mret (b :: bs)
  end.

(** ** The dynamic array *)

Definition table_array_size (t : table_array) : Z := Z.of_nat (length (elems t)).
Definition table_array_inline_capacity (t : table_array) : Z := UACPI_STATIC_TABLE_ARRAY_LEN.
Definition table_array_capacity (t : table_array) : Z := table_array_inline_capacity t + dynamic_capacity t.
Definition table_array_at (t : table_array) (idx : Z) : option uacpi_installed_table :=
  if table_array_size t <=? idx then None else elems t !! Z.to_nat idx.

(** [table_array_alloc] and the stores to the new element. *)
Definition table_array_alloc (tbl : uacpi_installed_table) : M acpi (option Z) :=
  t ← gets tables;
  let inline_cap := table_array_inline_capacity t in
  let size := table_array_size t in
  if (inline_cap <=? size) && (size - inline_cap =? dynamic_capacity t) then
    let bytes :=
      if dynamic_capacity t =? 0 then sizeof_uacpi_installed_table * inline_cap
      else
        let half := (dynamic_capacity t `div` 2) * sizeof_uacpi_installed_table in
        (if half =? 0 then sizeof_uacpi_installed_table else half) +
        dynamic_capacity t * sizeof_uacpi_installed_table in
    new_buf ← uacpi_kernel_alloc bytes;
    if new_buf =? 0 then mret None
    else
      uacpi_kernel_free (dynamic_storage t);;
      set_tables (MkArray (elems t ++ [tbl]) new_buf (bytes `div` sizeof_uacpi_installed_table));;
      mret (Some size)
  else
    set_tables (MkArray (elems t ++ [tbl]) (dynamic_storage t) (dynamic_capacity t));;
    mret (Some size).

Definition table_array_clear : M acpi unit :=
  t ← gets tables;
  uacpi_kernel_free (dynamic_storage t);;
  set_tables (MkArray [] 0 0).

(** [*table_array_at(&tables, idx) = f(...)]. *)
Definition upd_table (idx : nat) (f : uacpi_installed_table → uacpi_installed_table) : M acpi unit :=
  t ← gets tables;
  set_tables (MkArray (alter f idx (elems t)) (dynamic_storage t) (dynamic_capacity t)).

Definition set_ptr (p : Z) (t : uacpi_installed_table) : uacpi_installed_table :=
  MkTable (phys_addr t) (hdr t) p (reference_count t) (flags t) (origin t).
Definition set_flags (f : Z) (t : uacpi_installed_table) : uacpi_installed_table :=
  MkTable (phys_addr t) (hdr t) (ptr t) (reference_count t) f (origin t).
Definition set_refs (n : Z) (t : uacpi_installed_table) : uacpi_installed_table :=
  MkTable (phys_addr t) (hdr t) (ptr t) n (flags t) (origin t).

(** ** Checksums and signatures *)

Fixpoint table_checksum_loop (n : nat) (a csum : Z) : M acpi Z :=
  match n with
  | O => mret csum
  | S n' => b ← rd8 a; table_checksum_loop n' (a + 1) (u8 (csum + b))
  end.

Definition table_checksum (table size : Z) : M acpi Z := table_checksum_loop (Z.to_nat size) table 0.

Definition uacpi_verify_table_checksum (table size : Z) : M acpi uacpi_status :=
  csum ← table_checksum table size;
  if negb (csum =? 0) then
    fatal ← uacpi_check_flag UACPI_FLAG_BAD_CSUM_FATAL;
    mret (if (fatal : bool) then UACPI_STATUS_BAD_CHECKSUM else UACPI_STATUS_OK)
  else mret UACPI_STATUS_OK.

Definition uacpi_signatures_match (lhs rhs : list Z) : bool := bool_decide (take 4 lhs = take 4 rhs).

Definition uacpi_check_table_signature (sig expect : list Z) : M acpi uacpi_status :=
  if negb (uacpi_signatures_match sig expect) then
    fatal ← uacpi_check_flag UACPI_FLAG_BAD_TBL_SIGNATURE_FATAL;
    mret (if (fatal : bool) then UACPI_STATUS_INVALID_SIGNATURE else UACPI_STATUS_OK)
  else mret UACPI_STATUS_OK.

(** The header at an address. *)
Definition read_hdr (virt : Z) : M acpi acpi_sdt_hdr :=
  sig ← rd_bytes 4 virt;
  len ← rd32 (virt + 4);
  rev ← rd8 (virt + 8);
  sum ← rd8 (virt + 9);
  oem ← rd_bytes 6 (virt + 10);
  oemt ← rd_bytes 8 (virt + 16);
  orev ← rd32 (virt + 24);
  cid ← rd32 (virt + 28);
  crev ← rd32 (virt + 32);
  mret (MkHdr sig len rev sum oem oemt orev cid crev).

Definition get_external_table_header (phys : Z) : M acpi (uacpi_status * acpi_sdt_hdr) :=
  virt ← uacpi_kernel_map phys sizeof_acpi_sdt_hdr;
  if virt =? 0 then mret (UACPI_STATUS_MAPPING_FAILED, MkHdr [] 0 0 0 [] [] 0 0 0)
  else
    h ← read_hdr virt;
    uacpi_kernel_unmap virt sizeof_acpi_sdt_hdr;;
    mret (UACPI_STATUS_OK, h).

(** [table_alloc], with the element that is stored by the caller. *)
Definition table_alloc (tbl : uacpi_installed_table) : M acpi (uacpi_status * Z) :=
  early ← gets early_table_access;
  t ← gets tables;
  if early && (table_array_size t =? table_array_capacity t) then mret (UACPI_STATUS_OUT_OF_MEMORY, 0)
  else
    r ← table_array_alloc tbl;
    match r with
    | None => mret (UACPI_STATUS_OUT_OF_MEMORY, 0)
    | Some idx => mret (UACPI_STATUS_OK, idx)
    end.

(** ** Reference counting *)

Definition table_ref_unlocked (idx : nat) (tbl : uacpi_installed_table) : M acpi uacpi_status :=
  ret ← (if reference_count tbl =? 0 then
           if negb (Z.land (flags tbl) UACPI_TABLE_INVALID =? 0) then mret UACPI_STATUS_INVALID_ARGUMENT
           else if negb (is_physical (origin tbl)) then mret UACPI_STATUS_OK
           else
             p ← uacpi_kernel_map (phys_addr tbl) (hdr_length (hdr tbl));
             upd_table idx (set_ptr p);;
             if p =? 0 then mret UACPI_STATUS_MAPPING_FAILED
             else if Z.land (flags tbl) UACPI_TABLE_CSUM_VERIFIED =? 0 then
               ret ← uacpi_verify_table_checksum p (hdr_length (hdr tbl));
               match ret with
               | UACPI_STATUS_OK =>
                   upd_table idx (λ t, set_flags (Z.lor (flags t) UACPI_TABLE_CSUM_VERIFIED) t);;
                   mret UACPI_STATUS_OK
               | _ =>
                   uacpi_kernel_unmap p (hdr_length (hdr tbl));;
                   upd_table idx (λ t, set_ptr 0 (set_flags (Z.lor (flags t) UACPI_TABLE_INVALID) t));;
                   mret ret
               end
             else mret UACPI_STATUS_OK
         else mret UACPI_STATUS_OK);
  on_ok ret
    (upd_table idx (λ t, if reference_count t =? 0xFFFF then t else set_refs (u16 (reference_count t + 1)) t);;
     mret UACPI_STATUS_OK).

Definition table_unref_unlocked (idx : nat) (tbl : uacpi_installed_table) : M acpi uacpi_status :=
  if reference_count tbl =? 0 then mret UACPI_STATUS_INVALID_ARGUMENT
  else if reference_count tbl =? 0xFFFF then mret UACPI_STATUS_OK
  else
    (if (reference_count tbl =? 1) && is_physical (origin tbl) then
       uacpi_kernel_unmap (ptr tbl) (hdr_length (hdr tbl));; upd_table idx (set_ptr 0)
     else mret tt);;
    upd_table idx (λ t, set_refs (u16 (reference_count t - 1)) t);;
    mret UACPI_STATUS_OK.

(** ** The FADT *)

Definition sizeof_acpi_fadt : Z := 276.
Definition fadt_hdr_length : Z := 4.
Definition fadt_hdr_revision : Z := 8.
Definition fadt_firmware_ctrl : Z := 36.
Definition fadt_dsdt : Z := 40.
Definition fadt_preferred_pm_profile : Z := 45.
Definition fadt_pstate_cnt : Z := 55.
Definition fadt_cst_cnt : Z := 95.
Definition fadt_iapc_boot_arch : Z := 109.
Definition fadt_flags : Z := 112.
Definition fadt_x_firmware_ctrl : Z := 132.
Definition fadt_x_dsdt : Z := 140.
Definition fadt_x_pm1a_evt_blk : Z := 148.
Definition fadt_x_pm1b_evt_blk : Z := 160.
Definition ACPI_HW_REDUCED_ACPI : Z := Z.shiftl 1 20.

Definition set_fadt (m : mem) (r : uacpi_runtime_context) : uacpi_runtime_context :=
  MkRt m (pm1a_status_blk r) (pm1b_status_blk r) (pm1a_enable_blk r) (pm1b_enable_blk r) (rt_flags r)
    (is_rev1 r) (is_hardware_reduced r) (init_level r).
Definition set_is_rev1 (b : bool) (r : uacpi_runtime_context) : uacpi_runtime_context :=
  MkRt (rt_fadt r) (pm1a_status_blk r) (pm1b_status_blk r) (pm1a_enable_blk r) (pm1b_enable_blk r) (rt_flags r)
    b (is_hardware_reduced r) (init_level r).
Definition set_hardware_reduced (b : bool) (r : uacpi_runtime_context) : uacpi_runtime_context :=
  MkRt (rt_fadt r) (pm1a_status_blk r) (pm1b_status_blk r) (pm1a_enable_blk r) (pm1b_enable_blk r) (rt_flags r)
    (is_rev1 r) b (init_level r).

(** A field of [n] bytes of the copy. *)
Definition fget (n : nat) (off : Z) : M acpi Z := λ s,
  match load n (rt_fadt (rt s)) off with Some v => Ok (v, s) | None => Fault off end.
Definition fput (n : nat) (off v : Z) : M acpi unit :=
  upd_rt (λ r, set_fadt (store n (rt_fadt r) off v) r).

Fixpoint fadt_copy (n : nat) (virt off : Z) : M acpi unit :=
  match n with
  | O => mret tt
  | S n' => b ← rd8 (virt + off); fput 1 off b;; fadt_copy n' virt (off + 1)
  end.

Definition fadt_version_sizes : list Z := [116; 132; 244; 244; 268; 276].

Fixpoint fadt_find_rev (sizes : list Z) (len rev : Z) : Z :=
  match sizes with
  | [] => rev
  | sz :: sizes' => if len <=? sz then rev else fadt_find_rev sizes' len (rev + 1)
  end.

Definition fadt_ensure_correct_revision : M acpi unit :=
  current_rev ← fget 1 fadt_hdr_revision;
  len ← fget 4 fadt_hdr_length;
  let rev := fadt_find_rev fadt_version_sizes len 0 in
  if rev =? Z.of_nat (length fadt_version_sizes) then fput 1 fadt_hdr_revision rev
  else
    let rev := rev + 1 in
    if negb (current_rev =? rev) && negb ((rev =? 3) && (current_rev =? 4)) then fput 1 fadt_hdr_revision rev
    else mret tt.

Definition UACPI_ADDRESS_SPACE_SYSTEM_IO : Z := 1.
Definition gas_bit_width (byte_size : Z) : Z := if 255 <? byte_size * 8 then 255 else byte_size * 8.
Definition gas_system_io (address byte_size : Z) : acpi_gas :=
  MkGas UACPI_ADDRESS_SPACE_SYSTEM_IO (gas_bit_width byte_size) 0 0 address.

(** [gas_init_system_io] of a structure inside the FADT. *)
Definition gas_init_system_io (off address byte_size : Z) : M acpi unit :=
  let g := gas_system_io address byte_size in
  fput 8 (off + 4) (gas_address g);;
  fput 1 off (gas_space g);;
  fput 1 (off + 1) (gas_width g);;
  fput 1 (off + 2) (gas_offset g);;
  fput 1 (off + 3) (gas_access g).

(** The offset of the legacy register, of its extended form and of its
    length. *)
Definition fadt_registers : list (Z * Z * Z) :=
  [(56, 148, 88); (60, 160, 88); (64, 172, 89); (68, 184, 89);
   (72, 196, 90); (76, 208, 91); (80, 220, 92); (84, 232, 93)].

Fixpoint convert_registers_loop (regs : list (Z * Z * Z)) : M acpi unit :=
  match regs with
  | [] => mret tt
  | (offset, xoffset, length_offset) :: regs' =>
      legacy_addr ← fget 4 offset;
      len ← fget 1 length_offset;
      address ← fget 8 (xoffset + 4);
      (if negb (address =? 0) then mret tt else gas_init_system_io xoffset legacy_addr len);;
      convert_registers_loop regs'
  end.

Definition convert_registers_to_gas : M acpi unit := convert_registers_loop fadt_registers.

(** The halves of an event block, [None] for a block that is not there. *)
Definition split_one_block (src : Z) : M acpi (option (acpi_gas * acpi_gas)) :=
  address ← fget 8 (src + 4);
  if address =? 0 then mret None
  else
    width ← fget 1 (src + 1);
    let byte_length := (width `div` 8) `div` 2 in
    mret (Some (gas_system_io address byte_length, gas_system_io (address +64 byte_length) byte_length)).

Definition split_event_blocks : M acpi unit :=
  a ← split_one_block fadt_x_pm1a_evt_blk;
  (match a with
   | Some (st, en) => upd_rt (λ r, MkRt (rt_fadt r) st (pm1b_status_blk r) en (pm1b_enable_blk r) (rt_flags r)
       (is_rev1 r) (is_hardware_reduced r) (init_level r))
   | None => mret tt
   end);;
  b ← split_one_block fadt_x_pm1b_evt_blk;
  match b with
  | Some (st, en) => upd_rt (λ r, MkRt (rt_fadt r) (pm1a_status_blk r) st (pm1a_enable_blk r) en (rt_flags r)
      (is_rev1 r) (is_hardware_reduced r) (init_level r))
  | None => mret tt
  end.

(** The first part of [initialize_fadt]: the copy, its repairs and the
    address of the DSDT. *)
Definition fadt_load (virt : Z) : M acpi Z :=
  len ← rd32 (virt + 4);
  fadt_copy (Z.to_nat (Z.min sizeof_acpi_fadt len)) virt 0;;
  fl ← fget 4 fadt_flags;
  upd_rt (set_hardware_reduced (negb (Z.land fl ACPI_HW_REDUCED_ACPI =? 0)));;
  fadt_ensure_correct_revision;;
  rev ← fget 1 fadt_hdr_revision;
  (if rev <=? 2 then
     fput 1 fadt_preferred_pm_profile 0;; fput 1 fadt_pstate_cnt 0;; fput 1 fadt_cst_cnt 0;;
     fput 2 fadt_iapc_boot_arch 0
   else mret tt);;
  x ← fget 8 fadt_x_dsdt;
  (if x =? 0 then d ← fget 4 fadt_dsdt; fput 8 fadt_x_dsdt d else mret tt);;
  fget 8 fadt_x_dsdt.

(** The last part: the FACS address and the register blocks. *)
Definition fadt_finish : M acpi unit :=
  fw ← fget 4 fadt_firmware_ctrl;
  (if negb (fw =? 0) then fput 8 fadt_x_firmware_ctrl fw else mret tt);;
  reduced ← gets (λ s, is_hardware_reduced (rt s));
  if negb reduced then convert_registers_to_gas;; split_event_blocks else mret tt.

(** ** Installing a table *)

(** A call of one of the two installation functions; [want] says whether
    the caller passes an [out_table]. *)
Inductive install_req :=
| IPhysical (phys : Z) (o : uacpi_table_origin) (expected_signature : option (list Z)) (want : bool)
| IVirtual (virt : Z) (o : uacpi_table_origin) (want : bool).

Definition install_result : Type := uacpi_status * option uacpi_table.

(** The functions call each other; [install] is a call of the next level. *)
Section install.
Context (install : install_req → M acpi install_result).

Definition initialize_fadt (virt : Z) : M acpi uacpi_status :=
  x ← fadt_load virt;
  ret ← (if negb (x =? 0) then
           r ← install (IPhysical x UACPI_TABLE_ORIGIN_FIRMWARE_PHYSICAL (Some ACPI_DSDT_SIGNATURE) false);
           mret (match fst r with UACPI_STATUS_OVERRIDDEN => UACPI_STATUS_OK | e => e end)
         else mret UACPI_STATUS_OK);
  on_ok ret (fadt_finish;; mret UACPI_STATUS_OK).

Definition verify_and_install_table (h : acpi_sdt_hdr) (phys virt : Z) (o : uacpi_table_origin) (want : bool) :
    M acpi install_result :=
  let is_fadt := uacpi_signatures_match (signature h) ACPI_FADT_SIGNATURE in
  proactive ← uacpi_check_flag UACPI_FLAG_PROACTIVE_TBL_CSUM;
  r ← (if uacpi_signatures_match (signature h) ACPI_FACS_SIGNATURE then
         mret (UACPI_STATUS_OK, UACPI_TABLE_CSUM_VERIFIED)
       else if proactive || is_fadt || want then
         mapping ← (if virt =? 0 then uacpi_kernel_map phys (hdr_length h) else mret virt);
         if mapping =? 0 then mret (UACPI_STATUS_MAPPING_FAILED, 0)
         else
           ret ← uacpi_verify_table_checksum mapping (hdr_length h);
           match ret with
           | UACPI_STATUS_OK =>
               ret ← (if is_fadt then initialize_fadt mapping else mret UACPI_STATUS_OK);
               mret (ret, UACPI_TABLE_CSUM_VERIFIED)
           | _ => mret (ret, 0)
           end
       else mret (UACPI_STATUS_OK, 0));
  match r with
  | (UACPI_STATUS_OK, fl) =>
      (if uacpi_signatures_match (signature h) ACPI_DSDT_SIGNATURE
       then upd_rt (set_is_rev1 (revision h <? 2)) else mret tt);;
      a ← table_alloc (MkTable phys h virt (if want then 1 else 0) fl o);
      match a with
      | (UACPI_STATUS_OK, idx) => mret (UACPI_STATUS_OK, if want then Some (MkOut virt idx) else None)
      | (e, _) => mret (e, None)
      end
  | (e, _) => mret (e, None)
  end.

Definition handle_table_override (d : uacpi_table_installation_disposition) (address : Z) (want : bool) :
    M acpi install_result :=
  match d with
  | UACPI_TABLE_INSTALLATION_DISPOSITON_VIRTUAL_OVERRIDE =>
      install (IVirtual address UACPI_TABLE_ORIGIN_HOST_VIRTUAL want)
  | UACPI_TABLE_INSTALLATION_DISPOSITON_PHYSICAL_OVERRIDE =>
      install (IPhysical address UACPI_TABLE_ORIGIN_HOST_PHYSICAL None want)
  | _ => mret (UACPI_STATUS_INTERNAL_ERROR, None)
  end.

(** The handler's answer for a table from the firmware, then the
    installation. *)
Definition install_filtered (firmware : uacpi_table_origin) (h : acpi_sdt_hdr) (phys virt : Z)
    (o : uacpi_table_origin) (want : bool) : M acpi install_result :=
  handler ← gets installation_handler;
  m ← gets acpi_mem;
  let verdict :=
    match handler with
    | Some f => if bool_decide (o = firmware) then f m virt else (UACPI_TABLE_INSTALLATION_DISPOSITON_ALLOW, 0)
    | None => (UACPI_TABLE_INSTALLATION_DISPOSITON_ALLOW, 0)
    end in
  match fst verdict with
  | UACPI_TABLE_INSTALLATION_DISPOSITON_ALLOW => verify_and_install_table h phys virt o want
  | UACPI_TABLE_INSTALLATION_DISPOSITON_DENY => mret (UACPI_STATUS_DENIED, None)
  | d =>
      r ← handle_table_override d (snd verdict) want;
      mret (match fst r with UACPI_STATUS_OK => UACPI_STATUS_OVERRIDDEN | e => e end, snd r)
  end.

(** Whatever the installation returned, the last line is
    [return UACPI_STATUS_OK]. *)
Definition table_install_physical_with_origin_unlocked (phys : Z) (o : uacpi_table_origin)
    (expected_signature : option (list Z)) (want : bool) : M acpi install_result :=
  r ← get_external_table_header phys;
  let '(ret, h) := r in
  match ret with
  | UACPI_STATUS_OK =>
      if hdr_length h <? sizeof_acpi_sdt_hdr then mret (UACPI_STATUS_INVALID_TABLE_LENGTH, None)
      else
        ret ← (match expected_signature with
               | Some e => uacpi_check_table_signature (signature h) e
               | None => mret UACPI_STATUS_OK
               end);
        match ret with
        | UACPI_STATUS_OK =>
            handler ← gets installation_handler;
            let need := bool_decide (is_Some handler) || want in
            virt ← (if need then uacpi_kernel_map phys (hdr_length h) else mret 0);
            if need && (virt =? 0) then mret (UACPI_STATUS_MAPPING_FAILED, None)
            else
              r ← install_filtered UACPI_TABLE_ORIGIN_FIRMWARE_PHYSICAL h phys virt o want;
              mret (UACPI_STATUS_OK, snd r)
        | e => mret (e, None)
        end
  | e => mret (e, None)
  end.

Definition table_install_with_origin_unlocked (virt : Z) (o : uacpi_table_origin) (want : bool) :
    M acpi install_result :=
  h ← read_hdr virt;
  if hdr_length h <? sizeof_acpi_sdt_hdr then mret (UACPI_STATUS_INVALID_TABLE_LENGTH, None)
  else install_filtered UACPI_TABLE_ORIGIN_FIRMWARE_VIRTUAL h 0 virt o want.
End install.

(** [fuel] bounds the depth of the calls. *)
Fixpoint table_install (fuel : nat) (req : install_req) : M acpi install_result :=
  match fuel with
  | O => nofuel
  | S fuel' =>
      match req with
      | IPhysical phys o e want => table_install_physical_with_origin_unlocked (table_install fuel') phys o e want
      | IVirtual virt o want => table_install_with_origin_unlocked (table_install fuel') virt o want
      end
  end.

(** The locked entry points: [uacpi_table_install_physical_with_origin] and
    [uacpi_table_install_with_origin]. *)
Definition table_install_locked (fuel : nat) (req : install_req) : M acpi install_result :=
  mtx ← gets table_mutex;
  ret ← uacpi_acquire_native_mutex_may_be_null mtx;
  match ret with
  | UACPI_STATUS_OK =>
      r ← table_install fuel req;
      uacpi_release_native_mutex_may_be_null mtx;;
      mret r
  | e => mret (e, None)
  end.

Definition uacpi_table_install (fuel : nat) (virt : Z) (want : bool) : M acpi install_result :=
  with_access None (table_install_locked fuel (IVirtual virt UACPI_TABLE_ORIGIN_HOST_VIRTUAL want)).
Definition uacpi_table_install_physical (fuel : nat) (addr : Z) (want : bool) : M acpi install_result :=
  with_access None (table_install_locked fuel (IPhysical addr UACPI_TABLE_ORIGIN_HOST_PHYSICAL None want)).

(** ** Initialisation *)

Fixpoint rxsdt_loop (fuel : nat) (n : nat) (a entry_size : Z) : M acpi uacpi_status :=
  match n with
  | O => mret UACPI_STATUS_OK
  | S n' =>
      entry ← rd (Z.to_nat entry_size) a;
      if entry =? 0 then rxsdt_loop fuel n' (a + entry_size) entry_size
      else
        r ← table_install_locked fuel (IPhysical entry UACPI_TABLE_ORIGIN_FIRMWARE_PHYSICAL None false);
        match fst r with
        | UACPI_STATUS_OK | UACPI_STATUS_OVERRIDDEN => rxsdt_loop fuel n' (a + entry_size) entry_size
        | e => mret e
        end
  end.

Definition initialize_from_rxsdt (fuel : nat) (rxsdt_addr entry_size : Z) : M acpi uacpi_status :=
  rxsdt ← uacpi_kernel_map rxsdt_addr sizeof_acpi_sdt_hdr;
  if rxsdt =? 0 then mret UACPI_STATUS_MAPPING_FAILED
  else
    sig ← rd_bytes 4 rxsdt;
    ret ← uacpi_check_table_signature sig (if entry_size =? 8 then ACPI_XSDT_SIGNATURE else ACPI_RSDT_SIGNATURE);
    on_ok ret
      (map_len ← rd32 (rxsdt + 4);
       if map_len <? sizeof_acpi_sdt_hdr + entry_size then mret UACPI_STATUS_INVALID_TABLE_LENGTH
       else
         let entry_bytes := Z.land (map_len - sizeof_acpi_sdt_hdr) (lnot64 (entry_size - 1)) in
         rxsdt ← uacpi_kernel_map rxsdt_addr map_len;
         if rxsdt =? 0 then mret UACPI_STATUS_MAPPING_FAILED
         else
           ret ← uacpi_verify_table_checksum rxsdt map_len;
           on_ok ret
             (rxsdt_loop fuel (Z.to_nat (entry_bytes `div` entry_size)) (rxsdt + sizeof_acpi_sdt_hdr) entry_size)).

Definition initialize_from_rsdp (fuel : nat) : M acpi uacpi_status :=
  upd_rt (set_is_rev1 true);;
  r ← uacpi_kernel_get_rsdp;
  let '(ret, rsdp_phys) := r in
  on_ok ret
    (rsdp ← uacpi_kernel_map rsdp_phys 36;
     if rsdp =? 0 then mret UACPI_STATUS_MAPPING_FAILED
     else
       rev ← rd8 (rsdp + off_rsdp_revision);
       xsdt ← (if 1 <? rev then rd64 (rsdp + off_xsdt_addr) else mret 0);
       bad_xsdt ← uacpi_check_flag UACPI_FLAG_BAD_XSDT;
       if (1 <? rev) && negb (xsdt =? 0) && negb bad_xsdt then initialize_from_rxsdt fuel xsdt 8
       else
         rsdt ← rd32 (rsdp + off_rsdt_addr);
         if rsdt =? 0 then mret UACPI_STATUS_INVALID_ARGUMENT else initialize_from_rxsdt fuel rsdt 4).

(** The loop over the installed tables frees those in memory of the library
    and unmaps the others. *)
Fixpoint deinitialize_loop (ts : list uacpi_installed_table) : M acpi unit :=
  match ts with
  | [] => mret tt
  | t :: ts' =>
      match origin t with
      | UACPI_TABLE_ORIGIN_FIRMWARE_VIRTUAL => uacpi_kernel_free (ptr t)
      | UACPI_TABLE_ORIGIN_FIRMWARE_PHYSICAL | UACPI_TABLE_ORIGIN_HOST_PHYSICAL =>
          if negb (reference_count t =? 0) then uacpi_kernel_unmap (ptr t) (hdr_length (hdr t)) else mret tt
      | _ => mret tt
      end;;
      deinitialize_loop ts'
  end.

Definition uacpi_deinitialize_tables : M acpi unit :=
  t ← gets tables;
  deinitialize_loop (elems t);;
  early ← gets early_table_access;
  (if (early : bool) then set_tables (MkArray [] 0 0);; set_early false else table_array_clear);;
  mtx ← gets table_mutex;
  (if negb (mtx =? 0) then uacpi_kernel_free_mutex mtx else mret tt);;
  set_handler None;;
  set_mutex 0.

Definition uacpi_setup_early_table_access (fuel : nat) (temporary_buffer buffer_size : Z) : M acpi uacpi_status :=
  lvl ← gets (λ s, init_level (rt s));
  if negb (lvl =? UACPI_INIT_LEVEL_EARLY) then mret UACPI_STATUS_INIT_LEVEL_MISMATCH
  else
    early ← gets early_table_access;
    if (early : bool) then mret UACPI_STATUS_INIT_LEVEL_MISMATCH
    else if buffer_size <? sizeof_uacpi_installed_table then mret UACPI_STATUS_INVALID_ARGUMENT
    else
      t ← gets tables;
      set_tables (MkArray (elems t) temporary_buffer (buffer_size `div` sizeof_uacpi_installed_table));;
      set_early true;;
      ret ← initialize_from_rsdp fuel;
      match ret with
      | UACPI_STATUS_OK => mret UACPI_STATUS_OK
      | _ => uacpi_deinitialize_tables;; mret ret
      end.

Definition uacpi_set_table_installation_handler (h : option uacpi_table_installation_handler) : M acpi uacpi_status :=
  mtx ← gets table_mutex;
  ret ← uacpi_acquire_native_mutex_may_be_null mtx;
  on_ok ret
    (old ← gets installation_handler;
     (if bool_decide (is_Some old) && bool_decide (is_Some h) then mret tt else set_handler h);;
     uacpi_release_native_mutex_may_be_null mtx;;
     mret ret).

(** [acpi_init]: [tmp_buf] is the block [kmalloc] returned; the status is
    not looked at. *)
Definition EARLY_BUFFER_SIZE : Z := 4096.
Definition acpi_init (fuel : nat) (tmp_buf rsdp offset : Z) : M acpi unit :=
  modify (λ s, MkAcpi (acpi_mem s) rsdp offset (tables s) (early_table_access s)
    (installation_handler s) (table_mutex s) (rt s));;
  uacpi_setup_early_table_access fuel tmp_buf EARLY_BUFFER_SIZE;;
  mret tt.

(** ** Lookup *)

Inductive uacpi_iteration_decision :=
| UACPI_ITERATION_DECISION_CONTINUE
| UACPI_ITERATION_DECISION_BREAK
| UACPI_ITERATION_DECISION_NEXT_PEER.

(** The callback with its context [C]. *)
Section for_each.
Context {C : Type} (cb : C → uacpi_installed_table → nat → M acpi (uacpi_iteration_decision * C)).

Fixpoint for_each_loop (n idx : nat) (ctx : C) : M acpi C :=
  t ← gets tables;
  match elems t !! idx with
  | None => mret ctx
  | Some tbl =>
      match n with
      | O => nofuel
      | S n' =>
          if negb (Z.land (flags tbl) UACPI_TABLE_INVALID =? 0) then for_each_loop n' (S idx) ctx
          else
            r ← cb ctx tbl idx;
            match fst r with
            | UACPI_ITERATION_DECISION_BREAK => mret (snd r)
            | _ => for_each_loop n' (S idx) (snd r)
            end
      end
  end.

(** The status and the context afterwards. *)
Definition uacpi_for_each_table (base_idx : Z) (ctx : C) : M acpi (uacpi_status * C) :=
  with_access ctx
    (mtx ← gets table_mutex;
     ret ← uacpi_acquire_native_mutex_may_be_null mtx;
     match ret with
     | UACPI_STATUS_OK =>
         t ← gets tables;
         ctx' ← for_each_loop (length (elems t) - Z.to_nat base_idx) (Z.to_nat base_idx) ctx;
         uacpi_release_native_mutex_may_be_null mtx;;
         mret (ret, ctx')
     | e => mret (e, ctx)
     end).
End for_each.

Inductive search_type := SEARCH_TYPE_BY_ID (id : uacpi_table_identifiers) | SEARCH_TYPE_MATCH (f : uacpi_installed_table → bool).

Record table_search_ctx := MkSearch { search : search_type; search_out : option uacpi_table; search_status : uacpi_status }.

Definition search_matches (st : search_type) (tbl : uacpi_installed_table) : bool :=
  match st with
  | SEARCH_TYPE_BY_ID id =>
      uacpi_signatures_match (id_signature id) (signature (hdr tbl)) &&
      ((hd 0 (id_oemid id) =? 0) || bool_decide (id_oemid id = oemid (hdr tbl))) &&
      ((hd 0 (id_oem_table_id id) =? 0) || bool_decide (id_oem_table_id id = oem_table_id (hdr tbl)))
  | SEARCH_TYPE_MATCH f => f tbl
  end.

Definition do_search_tables (ctx : table_search_ctx) (tbl : uacpi_installed_table) (idx : nat) :
    M acpi (uacpi_iteration_decision * table_search_ctx) :=
  if negb (search_matches (search ctx) tbl) then mret (UACPI_ITERATION_DECISION_CONTINUE, ctx)
  else
    ret ← table_ref_unlocked idx tbl;
    match ret with
    | UACPI_STATUS_OK =>
        t ← gets tables;
        match elems t !! idx with
        | Some tbl' =>
            mret (UACPI_ITERATION_DECISION_BREAK,
              MkSearch (search ctx) (Some (MkOut (ptr tbl') (Z.of_nat idx))) ret)
        | None => fault (Z.of_nat idx)
        end
    | UACPI_STATUS_BAD_CHECKSUM => mret (UACPI_ITERATION_DECISION_CONTINUE, ctx)
    | e => mret (UACPI_ITERATION_DECISION_BREAK, MkSearch (search ctx) (search_out ctx) e)
    end.

(** The result of a search: the status, and the table if it was found. *)
Definition search_tables (base_idx : Z) (st : search_type) : M acpi (uacpi_status * option uacpi_table) :=
  r ← uacpi_for_each_table do_search_tables base_idx (MkSearch st None UACPI_STATUS_NOT_FOUND);
  match fst r with
  | UACPI_STATUS_OK => mret (search_status (snd r), search_out (snd r))
  | e => mret (e, None)
  end.

Definition uacpi_table_match (base_idx : Z) (cb : uacpi_installed_table → bool) :
    M acpi (uacpi_status * option uacpi_table) := search_tables base_idx (SEARCH_TYPE_MATCH cb).

Definition find_table (base_idx : Z) (id : uacpi_table_identifiers) :
    M acpi (uacpi_status * option uacpi_table) := search_tables base_idx (SEARCH_TYPE_BY_ID id).

Definition uacpi_table_find (id : uacpi_table_identifiers) : M acpi (uacpi_status * option uacpi_table) :=
  with_access None (find_table 0 id).

Definition uacpi_table_find_by_signature (signature_string : list Z) : M acpi (uacpi_status * option uacpi_table) :=
  with_access None (find_table 0 (MkId (take 4 signature_string) (replicate 6 0) (replicate 8 0))).

(** ** Control of an installed table *)

Definition TABLE_CTL_SET_FLAGS : Z := Z.shiftl 1 0.
Definition TABLE_CTL_CLEAR_FLAGS : Z := Z.shiftl 1 1.
Definition TABLE_CTL_VALIDATE_SET_FLAGS : Z := Z.shiftl 1 2.
Definition TABLE_CTL_VALIDATE_CLEAR_FLAGS : Z := Z.shiftl 1 3.
Definition TABLE_CTL_GET : Z := Z.shiftl 1 4.
Definition TABLE_CTL_PUT : Z := Z.shiftl 1 5.

Record table_ctl_request := MkCtl { type : Z; expect_set : Z; expect_clear : Z; set : Z; clear : Z }.
Definition ctl_request (ty : Z) : table_ctl_request := MkCtl ty 0 0 0 0.

Definition asks (req : table_ctl_request) (bit : Z) : bool := negb (Z.land (type req) bit =? 0).

(** What [table_ctl] does with the table between lock and unlock: the
    status, and [out_tbl]. *)
Definition table_ctl_body (idx : nat) (tbl : uacpi_installed_table) (req : table_ctl_request) :
    M acpi (uacpi_status * Z) :=
  if asks req TABLE_CTL_VALIDATE_SET_FLAGS && negb (Z.land (flags tbl) (expect_set req) =? expect_set req) then
    mret (UACPI_STATUS_INVALID_ARGUMENT, 0)
  else if asks req TABLE_CTL_VALIDATE_CLEAR_FLAGS && negb (Z.land (flags tbl) (expect_clear req) =? 0) then
    mret (UACPI_STATUS_ALREADY_EXISTS, 0)
  else
    ret ← (if asks req TABLE_CTL_GET then table_ref_unlocked idx tbl else mret UACPI_STATUS_OK);
    match ret with
    | UACPI_STATUS_OK =>
        t ← gets tables;
        match elems t !! idx with
        | None => fault (Z.of_nat idx)
        | Some tbl' =>
            ret ← (if asks req TABLE_CTL_PUT then table_unref_unlocked idx tbl' else mret UACPI_STATUS_OK);
            match ret with
            | UACPI_STATUS_OK =>
                (if asks req TABLE_CTL_SET_FLAGS
                 then upd_table idx (λ t, set_flags (Z.lor (flags t) (set req)) t) else mret tt);;
                (if asks req TABLE_CTL_CLEAR_FLAGS
                 then upd_table idx (λ t, set_flags (Z.land (flags t) (u8 (Z.lnot (clear req)))) t) else mret tt);;
                mret (UACPI_STATUS_OK, if asks req TABLE_CTL_GET then ptr tbl' else 0)
            | e => mret (e, if asks req TABLE_CTL_GET then ptr tbl' else 0)
            end
        end
    | e => mret (e, 0)
    end.

Definition table_ctl (idx : Z) (req : table_ctl_request) : M acpi (uacpi_status * Z) :=
  with_access 0
    (mtx ← gets table_mutex;
     ret ← uacpi_acquire_native_mutex_may_be_null mtx;
     match ret with
     | UACPI_STATUS_OK =>
         t ← gets tables;
         match table_array_at t idx with
         | None => uacpi_release_native_mutex_may_be_null mtx;; mret (UACPI_STATUS_INVALID_ARGUMENT, 0)
         | Some tbl =>
             if negb (Z.land (flags tbl) UACPI_TABLE_INVALID =? 0) then mret (UACPI_STATUS_INVALID_ARGUMENT, 0)
             else
               r ← table_ctl_body (Z.to_nat idx) tbl req;
               uacpi_release_native_mutex_may_be_null mtx;;
               mret r
         end
     | e => mret (e, 0)
     end).

Definition uacpi_table_ref (t : uacpi_table) : M acpi uacpi_status :=
  r ← table_ctl (out_index t) (ctl_request TABLE_CTL_GET); mret (fst r).
Definition uacpi_table_unref (t : uacpi_table) : M acpi uacpi_status :=
  r ← table_ctl (out_index t) (ctl_request TABLE_CTL_PUT); mret (fst r).
Definition uacpi_table_mark_as_loaded (idx : Z) : M acpi unit :=
  table_ctl idx (MkCtl TABLE_CTL_SET_FLAGS 0 0 UACPI_TABLE_LOADED 0);; mret tt.

Definition uacpi_table_find_next_with_same_signature (t : uacpi_table) : M acpi (uacpi_status * option uacpi_table) :=
  with_access (Some t)
    (if out_ptr t =? 0 then mret (UACPI_STATUS_INVALID_ARGUMENT, Some t)
     else
       sig ← rd_bytes 4 (out_ptr t);
       uacpi_table_unref t;;
       find_table (out_index t + 1) (MkId sig (replicate 6 0) (replicate 8 0))).
