(* ===== verification/UacpiUtil.v ===== *)
(** * Characters and numbers of the ACPI library: uacpi/source/utilities.c

    The classification of characters, the check of the four-letter names of
    the ACPI namespace, the conversion of compressed EISA identifiers and
    [uacpi_string_to_integer].  A string is the list of the characters from
    the pointer on, followed by a zero: a zero ends every loop below, so
    nothing after it is read. *)

From S2P Require Import Prelude Digits Npf Tables.
Local Open Scope Z_scope.
Local Open Scope kernel_scope.

(** ** Compressed EISA identifiers *)

Definition hex_to_ascii : list Z := chars "0123456789ABCDEF".
Definition hex_ascii (d : Z) : Z := nth (Z.to_nat d) hex_to_ascii 0.

(** The four bytes of [id] in the opposite order. *)
Definition swap32 (id : Z) : Z :=
  let byte i := u8 (Z.shiftr id (8 * i)) in
  byte 3 + Z.shiftl (byte 2) 8 + Z.shiftl (byte 1) 16 + Z.shiftl (byte 0) 24.

(** The eight characters written to [out_string]. *)
Definition uacpi_eisa_id_to_string (id : Z) : list Z :=
  let swapped := swap32 id in
  let letter i := 0x40 + Z.land (Z.shiftr swapped i) 0x1F in
  let digit i := hex_ascii (Z.land (Z.shiftr swapped i) 0x0F) in
  [letter 26; letter 21; letter 16; digit 12; digit 8; digit 4; digit 0; 0].

(** ** Character types *)

Definition CHAR_TYPE_CONTROL : Z := Z.shiftl 1 0.
Definition CHAR_TYPE_SPACE : Z := Z.shiftl 1 1.
Definition CHAR_TYPE_BLANK : Z := Z.shiftl 1 2.
Definition CHAR_TYPE_PUNCTUATION : Z := Z.shiftl 1 3.
Definition CHAR_TYPE_LOWER : Z := Z.shiftl 1 4.
Definition CHAR_TYPE_UPPER : Z := Z.shiftl 1 5.
Definition CHAR_TYPE_DIGIT : Z := Z.shiftl 1 6.
Definition CHAR_TYPE_HEX_DIGIT : Z := Z.shiftl 1 7.
Definition CHAR_TYPE_ALPHA : Z := Z.lor CHAR_TYPE_LOWER CHAR_TYPE_UPPER.
Definition CHAR_TYPE_ALHEX : Z := Z.lor CHAR_TYPE_ALPHA CHAR_TYPE_HEX_DIGIT.
Definition CHAR_TYPE_ALNUM : Z := Z.lor CHAR_TYPE_ALPHA CHAR_TYPE_DIGIT.

(** The array; the entries after 127 are not given and zero. *)
Definition ascii_map : list Z :=
  replicate 9 CHAR_TYPE_CONTROL ++
  [Z.lor (Z.lor CHAR_TYPE_CONTROL CHAR_TYPE_SPACE) CHAR_TYPE_BLANK] ++
  replicate 4 (Z.lor CHAR_TYPE_CONTROL CHAR_TYPE_SPACE) ++
  replicate 18 CHAR_TYPE_CONTROL ++
  [Z.lor CHAR_TYPE_SPACE CHAR_TYPE_BLANK] ++
  replicate 15 CHAR_TYPE_PUNCTUATION ++
  replicate 10 (Z.lor CHAR_TYPE_DIGIT CHAR_TYPE_HEX_DIGIT) ++
  replicate 7 CHAR_TYPE_PUNCTUATION ++
  replicate 6 (Z.lor CHAR_TYPE_UPPER CHAR_TYPE_HEX_DIGIT) ++
  replicate 20 CHAR_TYPE_UPPER ++
  replicate 6 CHAR_TYPE_PUNCTUATION ++
  replicate 6 (Z.lor CHAR_TYPE_LOWER CHAR_TYPE_HEX_DIGIT) ++
  replicate 20 CHAR_TYPE_LOWER ++
  replicate 4 CHAR_TYPE_PUNCTUATION ++
  [CHAR_TYPE_CONTROL] ++
  replicate 128 0.

Definition ascii_type (c : Z) : Z := nth (Z.to_nat (u8 c)) ascii_map 0.

Definition is_valid_name_byte (c : Z) : bool :=
  if c =? 0x5F then true
  else negb (Z.land (ascii_type c) (Z.lor CHAR_TYPE_DIGIT CHAR_TYPE_UPPER) =? 0).

Definition uacpi_is_valid_nameseg (nameseg : list Z) : bool :=
  let at_ i := nth i nameseg 0 in
  is_valid_name_byte (at_ 0%nat) && is_valid_name_byte (at_ 1%nat) &&
  is_valid_name_byte (at_ 2%nat) && is_valid_name_byte (at_ 3%nat).

Definition is_char (c type : Z) : bool := Z.land (ascii_type c) type =? type.

Definition to_lower (c : Z) : Z := if is_char c CHAR_TYPE_UPPER then c + (ch "a" - ch "A") else c.

(** ** Readers: the string and the number of characters left *)

Definition reader : Type := list Z * Z.

Definition peek_one (r : reader) : option Z := if r.2 =? 0 then None else Some (hd 0 r.1).

Definition advance (r : reader) : reader := (tail r.1, u64 (r.2 - 1)).

Definition consume_one (r : reader) : option (Z * reader) :=
  match peek_one r with None => None | Some c => Some (c, advance r) end.

Definition consume_if (r : reader) (type : Z) : option reader :=
  match peek_one r with
  | None => None
  | Some c => if is_char c type then Some (advance r) else None
  end.

Definition consume_if_equals (r : reader) (c : Z) : option reader :=
  match peek_one r with
  | None => None
  | Some c1 => if to_lower c1 =? c then Some (advance r) else None
  end.

(** ** uacpi_string_to_integer *)

Inductive uacpi_base := UACPI_BASE_AUTO | UACPI_BASE_OCT | UACPI_BASE_DEC | UACPI_BASE_HEX.

#[export] Instance uacpi_base_eq_dec : EqDecision uacpi_base.
Proof. solve_decision. Defined.

(** The value of the enumerator. *)
Definition base_value (b : uacpi_base) : Z :=
  match b with UACPI_BASE_AUTO => 0 | UACPI_BASE_OCT => 8 | UACPI_BASE_DEC => 10 | UACPI_BASE_HEX => 16 end.

(** [while (consume_if(&str, &max_chars, CHAR_TYPE_SPACE));]: a zero is no
    space, so the loop ends with the list at the latest. *)
Fixpoint skip_spaces (str : list Z) (n : Z) : reader :=
  match consume_if (str, n) CHAR_TYPE_SPACE, str with
  | Some r, _ :: str' => skip_spaces str' r.2
  | _, _ => (str, n)
  end.

(** The sign, and whether it is negative. *)
Definition consume_sign (r : reader) : bool * reader :=
  match consume_if_equals r (ch "-") with
  | Some r' => (true, r')
  | None => (false, default r (consume_if_equals r (ch "+")))
  end.

(** The base that the prefix chooses. *)
Definition consume_prefix (base : uacpi_base) (r : reader) : uacpi_base * reader :=
  if decide (base = UACPI_BASE_AUTO) then
    match consume_if_equals r (ch "0") with
    | None => (UACPI_BASE_DEC, r)
    | Some r' =>
        match consume_if_equals r' (ch "x") with
        | None => (UACPI_BASE_OCT, r')
        | Some r'' => (UACPI_BASE_HEX, r'')
        end
    end
  else (base, r).

(** The [switch]: the digit that [c] stands for, if it is one of the base. *)
Definition next_digit (base : uacpi_base) (c : Z) : option Z :=
  let ty := Z.land (ascii_type c) (Z.lor CHAR_TYPE_DIGIT CHAR_TYPE_ALHEX) in
  if ty =? Z.lor CHAR_TYPE_DIGIT CHAR_TYPE_HEX_DIGIT then
    let next := c - ch "0" in
    if bool_decide (base = UACPI_BASE_OCT) && (7 <? next) then None else Some next
  else if (ty =? Z.lor CHAR_TYPE_LOWER CHAR_TYPE_HEX_DIGIT) || (ty =? Z.lor CHAR_TYPE_UPPER CHAR_TYPE_HEX_DIGIT) then
    if bool_decide (base ≠ UACPI_BASE_HEX) then None else Some (10 + (to_lower c - ch "a"))
  else None.

(** The loop over the digits: the value, the number of characters left and
    the last character read.  A zero is no digit, so that the loop does not
    run past the end of the list. *)
Fixpoint digit_loop (base : uacpi_base) (str : list Z) (n value c : Z) : Z * Z * Z :=
  match consume_one (str, n) with
  | None => (value, n, c)
  | Some (c, (_, n)) =>
      match next_digit base c with
      | None => (value, n, c)
      | Some d =>
          let next := u64 (u64 (value * base_value base) + d) in
          if negb (next `div` base_value base =? value) then (0xFFFFFFFFFFFFFFFF, n, c)
          else match str with [] => (next, n, c) | _ :: str' => digit_loop base str' n next c end
      end
  end.

(** The status and the number; negating the least signed number overflows. *)
Definition uacpi_string_to_integer (str : list Z) (max_chars : Z) (base : uacpi_base) : res (uacpi_status * Z) :=
  let '(str, n) := skip_spaces str max_chars in
  let '(negative, r) := consume_sign (str, n) in
  let '(base, (str, n)) := consume_prefix base r in
  let '(value, n, c) := digit_loop base str n 0 0 in
  value ← (if (negative : bool) then
             if value =? 2 ^ 63 then Fault value else Ok (u64 (- sint 64 value))
           else Ok value);
  Ok (if (n =? 0) || (c =? 0) then UACPI_STATUS_OK else UACPI_STATUS_INVALID_ARGUMENT, value).

(** ** Lemmas: characters *)

(** A statement about every byte, checked by evaluation. *)
Lemma all_bytes (P : Z → Prop) `{!∀ c, Decision (P c)} c :
  forallb (λ n, bool_decide (P (Z.of_nat n))) (seq 0 256) = true → 0 ≤ c < 256 → P c.
Proof.
  intros Hall Hc. rewrite forallb_forall in Hall. apply (bool_decide_eq_true_1 _).
  rewrite <-(Z2Nat.id c) by lia. apply Hall, in_seq. lia.
Qed.

Definition in_class (lo hi : Ascii.ascii) (c : Z) : bool := (ch lo <=? c) && (c <=? ch hi).
Arguments in_class (lo hi)%_char_scope c.

Lemma is_valid_name_byte_spec c :
  0 ≤ c < 256 →
  is_valid_name_byte c = in_class "A" "Z" c || in_class "0" "9" c || (c =? ch "_").
Proof.
  intros Hc. apply (all_bytes
    (λ c, is_valid_name_byte c = in_class "A" "Z" c || in_class "0" "9" c || (c =? ch "_")) c); [|done].
  vm_compute. reflexivity.
Qed.

(** The digits of a base: [d] is the value of [c]. *)
Definition digit_of (c : Z) : option Z :=
  if in_class "0" "9" c then Some (c - ch "0")
  else if in_class "a" "f" c then Some (c - ch "a" + 10)
  else if in_class "A" "F" c then Some (c - ch "A" + 10)
  else None.

Definition digit_in (b c : Z) : option Z :=
  match digit_of c with Some d => if d <? b then Some d else None | None => None end.

Lemma next_digit_spec base c :
  0 ≤ c < 256 → base ≠ UACPI_BASE_AUTO → next_digit base c = digit_in (base_value base) c.
Proof.
  intros Hc Hb. destruct base; [done|..];
    [apply (all_bytes (λ c, next_digit UACPI_BASE_OCT c = digit_in 8 c) c)
    |apply (all_bytes (λ c, next_digit UACPI_BASE_DEC c = digit_in 10 c) c)
    |apply (all_bytes (λ c, next_digit UACPI_BASE_HEX c = digit_in 16 c) c)];
    done || (vm_compute; reflexivity).
Qed.

Lemma digit_in_range b c d : digit_in b c = Some d → 0 ≤ d < b.
Proof.
  unfold digit_in, digit_of, in_class.
  change (ch "0") with 48; change (ch "9") with 57; change (ch "a") with 97; change (ch "f") with 102;
    change (ch "A") with 65; change (ch "F") with 70.
  repeat case_match; intros; simplify_eq; lia.
Qed.

(** ** Lemmas: the digit loop *)

(** The value of digits, the most significant first. *)
Definition numeral_value (b v : Z) (ds : list Z) : Z := foldl (λ n d, n * b + d) v ds.

Lemma numeral_value_mono b v ds : 1 ≤ b → 0 ≤ v → Forall (λ d, 0 ≤ d) ds → v ≤ numeral_value b v ds.
Proof.
  intros Hb. revert v. induction ds as [|d ds IH]; intros v Hv Hd; simpl; [lia|].
  inversion_clear Hd. etransitivity; [|apply IH; [nia|done]]. nia.
Qed.

(** The check for overflow is exact. *)
Lemma overflow_check v b d :
  0 ≤ v < 2 ^ 64 → 2 ≤ b → 0 ≤ d < b → b < 2 ^ 64 →
  (u64 (u64 (v * b) + d) `div` b = v ↔ v * b + d < 2 ^ 64).
Proof.
  intros Hv Hb Hd Hb64. unfold wrap. rewrite Zplus_mod_idemp_l.
  assert (0 ≤ v * b) by nia.
  split.
  - intros E. destruct (Z_lt_le_dec (v * b + d) (2 ^ 64)) as [|Hge]; [done|].
    pose proof (Z.mod_pos_bound (v * b + d) (2 ^ 64) ltac:(lia)).
    assert (v * b ≤ (v * b + d) mod 2 ^ 64).
    { rewrite <-E at 1. rewrite Z.mul_comm. apply Z.mul_div_le. lia. }
    rewrite (Z.div_mod (v * b + d) (2 ^ 64)) in Hge at 1 by lia.
    pose proof (Z.div_mod (v * b + d) (2 ^ 64) ltac:(lia)).
    assert (1 ≤ (v * b + d) `div` 2 ^ 64) by (apply Z.div_le_lower_bound; lia).
    nia.
  - intros Hlt. rewrite Z.mod_small by lia. rewrite Z.div_add_l by lia.
    rewrite Z.div_small by lia. lia.
Qed.

Definition is_digits (base : uacpi_base) (cs ds : list Z) : Prop :=
  Forall2 (λ c d, 0 ≤ c < 256 ∧ digit_in (base_value base) c = Some d) cs ds.

Lemma is_digits_range base cs ds : is_digits base cs ds → Forall (λ d, 0 ≤ d < base_value base) ds.
Proof. induction 1 as [|c d cs ds [_ H] _ IH]; constructor; [by eapply digit_in_range|done]. Qed.

Lemma base_value_bounds base : base ≠ UACPI_BASE_AUTO → 8 ≤ base_value base ≤ 16.
Proof. destruct base; simpl; done || lia. Qed.

(** One digit. *)
Lemma digit_loop_cons base str n v c c0 d :
  base ≠ UACPI_BASE_AUTO → 0 < n < 2 ^ 64 → 0 ≤ c0 < 256 → digit_in (base_value base) c0 = Some d →
  0 ≤ v < 2 ^ 64 →
  digit_loop base (c0 :: str) n v c =
  if v * base_value base + d <? 2 ^ 64 then digit_loop base str (n - 1) (v * base_value base + d) c0
  else (0xFFFFFFFFFFFFFFFF, n - 1, c0).
Proof.
  intros Hbase Hn Hc0 Hd Hv. pose proof (base_value_bounds base Hbase).
  pose proof (digit_in_range _ _ _ Hd) as Hdr.
  cbn [digit_loop]. unfold consume_one, peek_one, advance. cbn [fst snd hd].
  rewrite (proj2 (Z.eqb_neq n 0)) by lia. rewrite (wrap_small 64 (n - 1)) by lia.
  rewrite next_digit_spec, Hd by done. cbv zeta.
  pose proof (overflow_check v (base_value base) d Hv ltac:(lia) Hdr ltac:(lia)) as Ho.
  destruct (Z.ltb_spec (v * base_value base + d) (2 ^ 64)) as [Hlt|Hge].
  - rewrite (proj2 (Z.eqb_eq _ _)) by tauto. simpl negb. cbv iota.
    unfold wrap. rewrite Zplus_mod_idemp_l, Z.mod_small by nia. done.
  - rewrite (proj2 (Z.eqb_neq _ _)); [done|]. intros E. apply Ho in E. lia.
Qed.

Lemma digit_loop_app base cs ds rest n v c :
  base ≠ UACPI_BASE_AUTO → is_digits base cs ds → Z.of_nat (length cs) ≤ n < 2 ^ 64 → 0 ≤ v →
  numeral_value (base_value base) v ds < 2 ^ 64 →
  digit_loop base (cs ++ rest) n v c =
  digit_loop base rest (n - Z.of_nat (length cs)) (numeral_value (base_value base) v ds) (List.last cs c).
Proof.
  intros Hb H. revert n v c. induction H as [|c0 d cs ds [Hc0 Hd] H IH]; intros n v c Hn Hv Hlt.
  { simpl. by rewrite Z.sub_0_r. }
  pose proof (base_value_bounds base Hb). pose proof (digit_in_range _ _ _ Hd).
  assert (Forall (λ d, 0 ≤ d) ds) as Hds.
  { eapply Forall_impl; [by eapply is_digits_range|]. simpl. lia. }
  pose proof (numeral_value_mono (base_value base) (v * base_value base + d) ds ltac:(lia) ltac:(nia) Hds) as Hm.
  simpl in Hn, Hlt. change (foldl _ _ ds) with (numeral_value (base_value base) (v * base_value base + d) ds) in Hlt.
  simpl app. rewrite (digit_loop_cons base _ n v c c0 d) by (done || lia || nia).
  rewrite (proj2 (Z.ltb_lt _ _)) by lia. rewrite IH by (done || lia || nia).
  cbn [length]. change (numeral_value _ v (d :: ds)) with (numeral_value (base_value base) (v * base_value base + d) ds).
  replace (n - 1 - Z.of_nat (length cs)) with (n - Z.of_nat (S (length cs))) by lia.
  f_equal. destruct cs; [done|]. cbn [List.last]. clear. generalize c. intros. revert z.
  induction cs as [|x cs IH]; intros; [done|]. cbn [List.last]. done.
Qed.

(** The loop stops at the end of the characters and at a zero. *)
Lemma digit_loop_stop base rest n v c :
  base ≠ UACPI_BASE_AUTO → (n = 0 ∨ hd 0 rest = 0) →
  ∃ n' c', digit_loop base rest n v c = (v, n', c') ∧ (n' = 0 ∨ c' = 0).
Proof.
  intros Hb Hn. destruct (Z.eqb_spec n 0) as [->|Hne].
  { exists 0, c. split; [|by left]. by destruct rest. }
  destruct Hn as [|Hz]; [done|]. exists (u64 (n - 1)), 0. split; [|by right].
  destruct rest as [|c0 rest]; cbn [digit_loop]; unfold consume_one, peek_one, advance; cbn [fst snd hd] in *;
    rewrite (proj2 (Z.eqb_neq n 0)) by done; [|subst c0]; rewrite next_digit_spec by (done || lia); done.
Qed.

(** ** Lemmas: spaces, sign and prefix *)

(** The character at which a reader stands; zero when none is left. *)
Definition cur (r : reader) : Z := if r.2 =? 0 then 0 else hd 0 r.1.

Lemma consume_if_equals_none r c : c ≠ 0 → to_lower (cur r) ≠ c → consume_if_equals r c = None.
Proof.
  unfold cur, consume_if_equals, peek_one. intros Hc Hr. destruct (r.2 =? 0); [done|].
  by rewrite (proj2 (Z.eqb_neq _ _)).
Qed.

Lemma consume_if_equals_some c0 str n c :
  0 < n < 2 ^ 64 → to_lower c0 = c → consume_if_equals (c0 :: str, n) c = Some (str, n - 1).
Proof.
  intros Hn Hc. unfold consume_if_equals, peek_one, advance. cbn [fst snd hd tail].
  rewrite (proj2 (Z.eqb_neq n 0)) by lia. rewrite (proj2 (Z.eqb_eq _ _) Hc).
  by rewrite wrap_small by lia.
Qed.

Definition is_space (c : Z) : bool := is_char c CHAR_TYPE_SPACE.

Lemma skip_spaces_app sp str n :
  Forall (λ c, is_space c = true) sp → Z.of_nat (length sp) ≤ n < 2 ^ 64 →
  is_space (cur (str, n - Z.of_nat (length sp))) = false →
  skip_spaces (sp ++ str) n = (str, n - Z.of_nat (length sp)).
Proof.
  intros Hsp. revert n. induction Hsp as [|c sp Hc _ IH]; intros n Hn Hstop.
  { simpl in *. rewrite Z.sub_0_r in *. unfold cur in Hstop. cbn [fst snd] in Hstop.
    destruct str as [|c0 str]; cbn [skip_spaces]; unfold consume_if, peek_one; cbn [fst snd hd] in *;
      destruct (n =? 0); try done; unfold is_space in Hstop; by rewrite Hstop. }
  cbn [length] in *. cbn [app skip_spaces]. unfold consume_if, peek_one, advance. cbn [fst snd hd tail].
  rewrite (proj2 (Z.eqb_neq n 0)) by lia. unfold is_space in Hc. rewrite Hc. cbn [snd].
  rewrite wrap_small by lia.
  replace (n - Z.of_nat (S (length sp))) with (n - 1 - Z.of_nat (length sp)) in * by lia.
  apply IH; [lia|done].
Qed.

(** A sign, if any. *)
Definition sign_chars (sg : option bool) : list Z :=
  match sg with None => [] | Some true => [ch "-"] | Some false => [ch "+"] end.

(** Characters that start neither a sign nor spaces. *)
Definition numeral_start (c : Z) : bool :=
  negb (is_space c) && negb (to_lower c =? ch "-") && negb (to_lower c =? ch "+").

Lemma digit_plain b c d : 0 ≤ c < 256 → digit_in b c = Some d → numeral_start c = true.
Proof.
  intros Hc Hd.
  assert (is_Some (digit_of c)) as Hs.
  { unfold digit_in in Hd. by destruct (digit_of c) as [z|]; [exists z|]. }
  revert Hs. apply (all_bytes (λ c, is_Some (digit_of c) → numeral_start c = true) c); [|done].
  vm_compute. reflexivity.
Qed.

Lemma consume_sign_chars sg str n :
  Z.of_nat (length (sign_chars sg)) ≤ n < 2 ^ 64 →
  numeral_start (cur (str, n - Z.of_nat (length (sign_chars sg)))) = true →
  consume_sign (sign_chars sg ++ str, n) =
  (default false sg, (str, n - Z.of_nat (length (sign_chars sg)))).
Proof.
  intros Hn Hp. unfold consume_sign. destruct sg as [[]|]; cbn [sign_chars app length] in *.
  - rewrite (consume_if_equals_some _ _ _ (ch "-")) by (done || lia). done.
  - rewrite consume_if_equals_none.
    + rewrite (consume_if_equals_some _ _ _ (ch "+")) by (done || lia). done.
    + done.
    + unfold cur. cbn [fst snd hd]. by rewrite (proj2 (Z.eqb_neq n 0)) by lia.
  - rewrite Z.sub_0_r in *. unfold numeral_start in Hp.
    apply andb_true_iff in Hp as [[_ H1]%andb_true_iff H2].
    rewrite !negb_true_iff, !Z.eqb_neq in *.
    by rewrite !consume_if_equals_none.
Qed.

(** The prefixes of the three bases when the base is chosen by the prefix,
    and what may follow them. *)
Inductive prefixed (base : uacpi_base) : uacpi_base → list Z → Z → Prop :=
| prefixed_given c : base ≠ UACPI_BASE_AUTO → prefixed base base [] c
| prefixed_dec c : base = UACPI_BASE_AUTO → c ≠ ch "0" → prefixed base UACPI_BASE_DEC [] c
| prefixed_oct c : base = UACPI_BASE_AUTO → to_lower c ≠ ch "x" → prefixed base UACPI_BASE_OCT [ch "0"] c
| prefixed_hex x c : base = UACPI_BASE_AUTO → to_lower x = ch "x" → prefixed base UACPI_BASE_HEX [ch "0"; x] c.

Lemma prefixed_not_auto base b pre c : prefixed base b pre c → b ≠ UACPI_BASE_AUTO.
Proof. by destruct 1. Qed.

Lemma to_lower_zero c : 0 ≤ c < 256 → to_lower c = ch "0" → c = ch "0".
Proof.
  intros Hc. apply (all_bytes (λ c, to_lower c = ch "0" → c = ch "0") c); [|done].
  vm_compute. reflexivity.
Qed.

Lemma consume_prefix_chars base b pre str n :
  Z.of_nat (length pre) ≤ n < 2 ^ 64 → prefixed base b pre (cur (str, n - Z.of_nat (length pre))) →
  0 ≤ cur (str, n - Z.of_nat (length pre)) < 256 →
  consume_prefix base (pre ++ str, n) = (b, (str, n - Z.of_nat (length pre))).
Proof.
  intros Hn Hp Hc. unfold consume_prefix. inversion Hp as [c Hb|c Hb H0|c Hb Hx|x c Hb Hx]; subst; simplify_eq;
    cbn [length app] in *; rewrite ?Z.sub_0_r in *.
  - by rewrite decide_False.
  - rewrite decide_True by done. rewrite consume_if_equals_none; [done|done|].
    intros E. apply H0. by apply to_lower_zero.
  - rewrite decide_True by done. rewrite (consume_if_equals_some _ _ _ (ch "0")) by (done || lia).
    by rewrite consume_if_equals_none.
  - rewrite decide_True by done. rewrite (consume_if_equals_some _ _ _ (ch "0")) by (done || lia).
    rewrite (consume_if_equals_some _ _ _ (ch "x")) by (done || lia).
    do 2 f_equal. lia.
Qed.

(** The status and the value from the result of the digit loop. *)
Definition finish (negative : bool) (r : Z * Z * Z) : res (uacpi_status * Z) :=
  let '(value, n, c) := r in
  value ← (if negative then
             if value =? 2 ^ 63 then Fault value else Ok (u64 (- sint 64 value))
           else Ok value);
  Ok (if (n =? 0) || (c =? 0) then UACPI_STATUS_OK else UACPI_STATUS_INVALID_ARGUMENT, value).

Lemma cur_app cs rest n :
  Z.of_nat (length cs) ≤ n → (n = Z.of_nat (length cs) ∨ hd 0 rest = 0) → cur (cs ++ rest, n) = hd 0 cs.
Proof.
  unfold cur. cbn [fst snd]. intros Hn He. destruct cs as [|c cs]; cbn [length app hd] in *.
  - destruct (Z.eqb_spec n 0); [done|]. destruct He; [lia|done].
  - by rewrite (proj2 (Z.eqb_neq n 0)) by lia.
Qed.

(** What precedes the digits is skipped. *)
Lemma string_to_integer_parts base b sp sg pre body n :
  Forall (λ c, is_space c = true) sp →
  let m := n - Z.of_nat (length (sp ++ sign_chars sg ++ pre)) in
  0 ≤ m → n < 2 ^ 64 → 0 ≤ cur (body, m) < 256 → numeral_start (cur (body, m)) = true →
  prefixed base b pre (cur (body, m)) →
  uacpi_string_to_integer (sp ++ sign_chars sg ++ pre ++ body) n base =
  finish (default false sg) (digit_loop b body m 0 0).
Proof.
  intros Hsp m Hm Hn Hc Hplain Hpre. unfold uacpi_string_to_integer.
  assert (m = n - Z.of_nat (length sp) - Z.of_nat (length (sign_chars sg)) - Z.of_nat (length pre)) as Em.
  { unfold m. rewrite !length_app. lia. }
  clearbody m.
  assert (numeral_start (cur (pre ++ body, m + Z.of_nat (length pre))) = true) as Hplain'.
  { clear Em. inversion Hpre; subst; cbn [app length]; change (Z.of_nat 0) with 0; rewrite ?Z.add_0_r; try done;
      unfold cur at 1; cbn [fst snd hd]; by rewrite (proj2 (Z.eqb_neq _ 0)) by lia. }
  assert (is_space (cur (sign_chars sg ++ pre ++ body, n - Z.of_nat (length sp))) = false) as Hns.
  { destruct sg as [s|].
    - unfold cur. cbn [fst snd]. assert (length (sign_chars (Some s)) = 1%nat) as El by (by destruct s).
      rewrite El in Em. rewrite (proj2 (Z.eqb_neq _ 0)) by lia. by destruct s.
    - cbn [sign_chars app length] in *. replace (n - _) with (m + Z.of_nat (length pre)) by lia.
      unfold numeral_start in Hplain'. by apply andb_true_iff in Hplain' as [[?%negb_true_iff _]%andb_true_iff _]. }
  rewrite skip_spaces_app by (done || lia).
  rewrite consume_sign_chars; [|lia|].
  2: { replace (n - Z.of_nat (length sp) - Z.of_nat (length (sign_chars sg))) with (m + Z.of_nat (length pre)) by lia. done. }
  rewrite (consume_prefix_chars base b); [|lia|by rewrite <-Em|by rewrite <-Em].
  by rewrite <-Em.
Qed.

Lemma u64_opp_sint v : 0 ≤ v < 2 ^ 64 → u64 (- sint 64 v) = u64 (- v).
Proof.
  intros Hv. unfold sint. rewrite (wrap_small 64 v) by done. case_match; [done|].
  unfold wrap. replace (- (v - 2 ^ 64)) with (- v + 1 * 2 ^ 64) by lia. apply Z_mod_plus_full.
Qed.

Lemma string_to_integer_numeral base b sp sg pre cs ds rest n :
  Forall (λ c, is_space c = true) sp → is_digits b cs ds → prefixed base b pre (hd 0 cs) →
  let text := sp ++ sign_chars sg ++ pre ++ cs in
  let v := numeral_value (base_value b) 0 ds in
  Z.of_nat (length text) ≤ n < 2 ^ 64 → (n = Z.of_nat (length text) ∨ hd 0 rest = 0) →
  v < 2 ^ 64 → (sg = Some true → v ≠ 2 ^ 63) →
  uacpi_string_to_integer (text ++ rest) n base =
  Ok (UACPI_STATUS_OK, if default false sg then u64 (- v) else v).
Proof.
  intros Hsp Hds Hpre text v Hn He Hv Hneg. unfold text in *. rewrite !length_app in Hn, He.
  rewrite <-!(assoc_L (++)). pose proof (prefixed_not_auto _ _ _ _ Hpre) as Hb.
  assert (0 ≤ v) as Hv0.
  { pose proof (base_value_bounds b Hb). apply (numeral_value_mono (base_value b) 0 ds); [lia|lia|].
    eapply Forall_impl; [by eapply is_digits_range|]. simpl. lia. }
  set (m := n - Z.of_nat (length (sp ++ sign_chars sg ++ pre))).
  assert (m = n - Z.of_nat (length sp) - Z.of_nat (length (sign_chars sg)) - Z.of_nat (length pre)) as Em
    by (unfold m; rewrite !length_app; lia).
  assert (cur (cs ++ rest, m) = hd 0 cs) as Ec by (apply cur_app; [lia|destruct He; [left; lia|by right]]).
  assert (0 ≤ hd 0 cs < 256 ∧ numeral_start (hd 0 cs) = true) as [Hr Hp].
  { inversion Hds as [|c d ? ? [Hc Hd]]; subst; simpl; [done|]. split; [done|by eapply digit_plain]. }
  rewrite (string_to_integer_parts base b) by (fold m; rewrite ?Ec; done || lia). fold m.
  rewrite (digit_loop_app b cs ds) by (done || lia).
  destruct (digit_loop_stop b rest (m - Z.of_nat (length cs)) v (List.last cs 0) Hb) as (n' & c' & E & Hend).
  { destruct He; [left; lia|by right]. }
  unfold v in E. rewrite E. unfold finish.
  assert ((n' =? 0) || (c' =? 0) = true) as ->.
  { apply orb_true_iff. rewrite !Z.eqb_eq. done. }
  fold v. destruct sg as [[]|]; cbn [default]; [|done..].
  rewrite (proj2 (Z.eqb_neq _ _)) by auto. unfold mbind, res_bind. by rewrite u64_opp_sint by lia.
Qed.

(** ** Theorems *)

(** [uacpi_string_to_integer] reads a numeral: spaces, a sign, a prefix
    that chooses the base where it is left open, and digits of that base
    whose value fits in 64 bits, up to the last character or a zero.  The
    status is OK and the value that of the digits, negated modulo [2^64]
    after a minus sign (except for [-2^63], where C leaves the negation
    undefined). *)
Theorem uacpi_string_to_integer_reads base b sp sg pre cs ds rest n :
  Forall (λ c, is_space c = true) sp → is_digits b cs ds → prefixed base b pre (hd 0 cs) →
  let text := sp ++ sign_chars sg ++ pre ++ cs in
  let v := numeral_value (base_value b) 0 ds in
  Z.of_nat (length text) ≤ n < 2 ^ 64 → (n = Z.of_nat (length text) ∨ hd 0 rest = 0) →
  v < 2 ^ 64 → (sg = Some true → v ≠ 2 ^ 63) →
  uacpi_string_to_integer (text ++ rest) n base =
  Ok (UACPI_STATUS_OK, if default false sg then u64 (- v) else v).
Proof. apply string_to_integer_numeral. Qed.

(** The status does not depend on the last character: digits whose value
    fits in 64 bits followed by one character of any kind, the last of the
    string, are accepted. *)
Theorem uacpi_string_to_integer_last_unchecked base cs ds c :
  base ≠ UACPI_BASE_AUTO → is_digits base cs ds → cs ≠ [] → 0 ≤ c < 256 → digit_in (base_value base) c = None →
  numeral_value (base_value base) 0 ds < 2 ^ 64 → Z.of_nat (S (length cs)) < 2 ^ 64 →
  uacpi_string_to_integer (cs ++ [c]) (Z.of_nat (S (length cs))) base =
  Ok (UACPI_STATUS_OK, numeral_value (base_value base) 0 ds).
Proof.
  intros Hb Hds Hne Hc Hd Hv Hl.
  assert (cur (cs ++ [c], Z.of_nat (S (length cs))) = hd 0 cs) as Ec.
  { unfold cur. cbn [fst snd]. rewrite (proj2 (Z.eqb_neq _ 0)) by lia. by destruct cs. }
  assert (0 ≤ hd 0 cs < 256 ∧ numeral_start (hd 0 cs) = true) as [Hr Hp].
  { inversion Hds as [|c0 d ? ? [Hc0 Hd0]]; subst; simpl; [done|]. split; [done|by eapply digit_plain]. }
  change (cs ++ [c]) with ([] ++ sign_chars None ++ [] ++ cs ++ [c]).
  assert (∀ k, k - Z.of_nat (length ([] ++ sign_chars None ++ [] : list Z)) = k) as E0 by (intros; simpl; lia).
  rewrite (string_to_integer_parts base base) by (rewrite ?E0, ?Ec; done || lia || by constructor).
  rewrite E0, (digit_loop_app base cs ds) by (done || lia). unfold default.
  replace (Z.of_nat (S (length cs)) - Z.of_nat (length cs)) with 1 by lia.
  cbn [digit_loop]. unfold consume_one, peek_one, advance. cbn [fst snd hd Z.eqb].
  rewrite next_digit_spec, Hd by done. by unfold finish.
Qed.

Lemma uacpi_string_to_integer_reads_witness :
  uacpi_string_to_integer (chars "  -0x1F" ++ [0; 7]) 20 UACPI_BASE_AUTO = Ok (UACPI_STATUS_OK, 2 ^ 64 - 31).
Proof.
  etransitivity.
  - apply (uacpi_string_to_integer_reads UACPI_BASE_AUTO UACPI_BASE_HEX (chars "  ") (Some true) (chars "0x")
      (chars "1F") [1; 15] [0; 7] 20).
    + repeat constructor.
    + repeat constructor; vm_compute; done.
    + apply prefixed_hex; reflexivity.
    + vm_compute. split; [discriminate|reflexivity].
    + by right.
    + vm_compute. reflexivity.
    + vm_compute. discriminate.
  - reflexivity.
Defined.

Lemma uacpi_string_to_integer_last_unchecked_witness :
  uacpi_string_to_integer (chars "12z") 3 UACPI_BASE_DEC = Ok (UACPI_STATUS_OK, 12) ∧
  uacpi_string_to_integer (chars "12zz") 4 UACPI_BASE_DEC = Ok (UACPI_STATUS_INVALID_ARGUMENT, 12).
Proof.
  split; [|reflexivity].
  etransitivity.
  - apply (uacpi_string_to_integer_last_unchecked UACPI_BASE_DEC (chars "12") [1; 2] (ch "z"));
      [done|repeat constructor; vm_compute; done|done|vm_compute; split; [discriminate|reflexivity]
      |reflexivity|vm_compute; reflexivity|vm_compute; reflexivity].
  - reflexivity.
Defined.

Example string_to_integer_runs :
  uacpi_string_to_integer (chars "18446744073709551615") 20 UACPI_BASE_DEC = Ok (UACPI_STATUS_OK, 2 ^ 64 - 1) ∧
  uacpi_string_to_integer (chars "18446744073709551616") 20 UACPI_BASE_DEC = Ok (UACPI_STATUS_OK, 2 ^ 64 - 1) ∧
  uacpi_string_to_integer (chars "184467440737095516150") 21 UACPI_BASE_DEC = Ok (UACPI_STATUS_OK, 2 ^ 64 - 1) ∧
  uacpi_string_to_integer (chars "1844674407370955161500") 22 UACPI_BASE_DEC =
    Ok (UACPI_STATUS_INVALID_ARGUMENT, 2 ^ 64 - 1) ∧
  uacpi_string_to_integer (chars "-9223372036854775808") 20 UACPI_BASE_DEC = Fault (2 ^ 63) ∧
  uacpi_string_to_integer (chars "0755") 4 UACPI_BASE_AUTO = Ok (UACPI_STATUS_OK, 493) ∧
  uacpi_string_to_integer [] 5 UACPI_BASE_AUTO = Ok (UACPI_STATUS_OK, 0).
Proof. vm_compute. repeat split. Qed.

(** ** EISA identifiers *)

(** The identifier of three letters (from 0x40 on) and a product number. *)
Definition eisa_id (a b c p : Z) : Z :=
  swap32 ((a - 0x40) * 2 ^ 26 + (b - 0x40) * 2 ^ 21 + (c - 0x40) * 2 ^ 16 + p).

(** A 32-bit number from its bytes. *)
Definition of_bytes (b0 b1 b2 b3 : Z) : Z := b0 + b1 * 256 + b2 * 65536 + b3 * 16777216.

Lemma swap32_bytes b0 b1 b2 b3 :
  0 ≤ b0 < 256 → 0 ≤ b1 < 256 → 0 ≤ b2 < 256 → 0 ≤ b3 < 256 →
  swap32 (of_bytes b0 b1 b2 b3) = of_bytes b3 b2 b1 b0.
Proof.
  intros H0 H1 H2 H3. unfold swap32, of_bytes. cbv zeta. set (x := b0 + _ + _ + _).
  rewrite !Z.shiftr_div_pow2, !Z.shiftl_mul_pow2 by lia.
  assert (x `div` 2 ^ (8 * 0) = b0 + 256 * (b1 + 256 * b2 + 65536 * b3)) as -> by (unfold x; dlia).
  assert (x `div` 2 ^ (8 * 1) = b1 + 256 * (b2 + 256 * b3)) as -> by (unfold x; dlia).
  assert (x `div` 2 ^ (8 * 2) = b2 + 256 * b3) as -> by (unfold x; dlia).
  assert (x `div` 2 ^ (8 * 3) = b3) as -> by (unfold x; dlia).
  assert (∀ b r, 0 ≤ b < 256 → u8 (b + 256 * r) = b) as E by (intros; unfold wrap; dlia).
  rewrite !E by done. rewrite wrap_small by done. lia.
Qed.

Lemma swap32_involutive x : 0 ≤ x < 2 ^ 32 → swap32 (swap32 x) = x.
Proof.
  intros Hx.
  assert (∃ b0 b1 b2 b3, x = of_bytes b0 b1 b2 b3 ∧ 0 ≤ b0 < 256 ∧ 0 ≤ b1 < 256 ∧ 0 ≤ b2 < 256 ∧ 0 ≤ b3 < 256)
    as (b0 & b1 & b2 & b3 & -> & ? & ? & ? & ?).
  { exists (x mod 256), ((x `div` 256) mod 256), ((x `div` 65536) mod 256), (x `div` 16777216).
    unfold of_bytes. replace (x `div` 16777216) with ((x `div` 65536) `div` 256) by dlia.
    replace (x `div` 65536) with ((x `div` 256) `div` 256) by dlia. dlia. }
  by rewrite !swap32_bytes.
Qed.

(** [uacpi_eisa_id_to_string] decodes a compressed identifier: the three
    letters of the manufacturer, then the product number as four hexadecimal
    digits, then a zero. *)
Theorem uacpi_eisa_id_decodes a b c p :
  0x40 ≤ a < 0x60 → 0x40 ≤ b < 0x60 → 0x40 ≤ c < 0x60 → 0 ≤ p < 2 ^ 16 →
  uacpi_eisa_id_to_string (eisa_id a b c p) =
  [a; b; c] ++
  map hex_ascii [p `div` 4096; (p `div` 256) mod 16; (p `div` 16) mod 16; p mod 16] ++ [0].
Proof.
  intros Ha Hb Hc Hp. unfold uacpi_eisa_id_to_string, eisa_id. rewrite swap32_involutive by lia.
  set (x := _ + p).
  change 0x1F with (2 ^ 5 - 1); change 0x0F with (2 ^ 4 - 1). rewrite !land_ones_mod by lia.
  rewrite !Z.shiftr_div_pow2 by lia. simpl app. simpl map.
  assert ((x `div` 2 ^ 26) mod 2 ^ 5 = a - 0x40) as -> by (unfold x; dlia).
  assert ((x `div` 2 ^ 21) mod 2 ^ 5 = b - 0x40) as -> by (unfold x; dlia).
  assert ((x `div` 2 ^ 16) mod 2 ^ 5 = c - 0x40) as -> by (unfold x; dlia).
  assert ((x `div` 2 ^ 12) mod 2 ^ 4 = p `div` 4096) as -> by (unfold x; dlia).
  assert ((x `div` 2 ^ 8) mod 2 ^ 4 = (p `div` 256) mod 16) as -> by (unfold x; dlia).
  assert ((x `div` 2 ^ 4) mod 2 ^ 4 = (p `div` 16) mod 16) as -> by (unfold x; dlia).
  assert ((x `div` 2 ^ 0) mod 2 ^ 4 = p mod 16) as -> by (unfold x; dlia).
  repeat (f_equal; try lia).
Qed.

Lemma uacpi_eisa_id_decodes_witness : uacpi_eisa_id_to_string 0x030AD041 = chars "PNP0A03" ++ [0].
Proof.
  etransitivity; [|apply (uacpi_eisa_id_decodes (ch "P") (ch "N") (ch "P") 0x0A03);
    vm_compute; split; (discriminate || reflexivity)].
  reflexivity.
Defined.
