(* ===== verification/UacpiFmt.v ===== *)
(** * The formatter of the ACPI library: uacpi/source/stdlib.c

    [uacpi_vsnprintf], which formats the messages of the table code, and the
    string functions around it, for the configuration of the kernel (64-bit
    pointers, [memcpy] and [memcmp] of the compiler).  Strings are lists of
    characters followed by a zero, arguments the slots of Npf.v.  A buffer is
    a list whose length is its size; what it holds before it is written is
    an argument of the definitions. *)

From S2P Require Import Prelude Digits Npf Tables UacpiUtil.
Local Open Scope Z_scope.
Local Open Scope kernel_scope.

(** ** Strings *)

Fixpoint uacpi_strlen (str : list Z) : Z :=
  match str with [] => 0 | c :: str' => if c =? 0 then 0 else uacpi_strlen str' + 1 end.

Fixpoint uacpi_strnlen (str : list Z) (max : Z) : Z :=
  match str with
  | [] => 0
  | c :: str' => if (max =? 0) || (c =? 0) then 0 else uacpi_strnlen str' (max - 1) + 1
  end.

(** The difference of the first characters that differ, as bytes. *)
Fixpoint uacpi_strcmp (lhs rhs : list Z) : Z :=
  match lhs, rhs with
  | l :: lhs', r :: rhs' =>
      if (l =? 0) || (r =? 0) then l - r
      else if negb (l =? r) then l - r
      else uacpi_strcmp lhs' rhs'
  | _, _ => hd 0 lhs - hd 0 rhs
  end.

(** ** The state of the formatter *)

Record fmt_buf_state := MkFb { buffer : list Z; capacity : Z; bytes_written : Z }.

Record fmt_spec := MkFm {
  is_signed : bool;
  prepend : bool;
  uppercase : bool;
  left_justify : bool;
  alternate_form : bool;
  has_precision : bool;
  pad_char : Z;
  prepend_char : Z;
  min_width : Z;
  precision : Z;
  base : Z
}.

(** The initial value in the loop of [uacpi_vsnprintf]. *)
Definition fm_init : fmt_spec := MkFm false false false false false false (ch " ") 0 0 0 10.

Definition with_sign (fm : fmt_spec) : fmt_spec :=
  MkFm true (prepend fm) (uppercase fm) (left_justify fm) (alternate_form fm) (has_precision fm) (pad_char fm)
    (prepend_char fm) (min_width fm) (precision fm) (base fm).
Definition with_prepend (c : Z) (fm : fmt_spec) : fmt_spec :=
  MkFm (is_signed fm) true (uppercase fm) (left_justify fm) (alternate_form fm) (has_precision fm) (pad_char fm)
    c (min_width fm) (precision fm) (base fm).
Definition with_left (fm : fmt_spec) : fmt_spec :=
  MkFm (is_signed fm) (prepend fm) (uppercase fm) true (alternate_form fm) (has_precision fm) (pad_char fm)
    (prepend_char fm) (min_width fm) (precision fm) (base fm).
Definition with_pad (c : Z) (fm : fmt_spec) : fmt_spec :=
  MkFm (is_signed fm) (prepend fm) (uppercase fm) (left_justify fm) (alternate_form fm) (has_precision fm) c
    (prepend_char fm) (min_width fm) (precision fm) (base fm).
Definition with_alternate (fm : fmt_spec) : fmt_spec :=
  MkFm (is_signed fm) (prepend fm) (uppercase fm) (left_justify fm) true (has_precision fm) (pad_char fm)
    (prepend_char fm) (min_width fm) (precision fm) (base fm).
Definition with_width (w : Z) (fm : fmt_spec) : fmt_spec :=
  MkFm (is_signed fm) (prepend fm) (uppercase fm) (left_justify fm) (alternate_form fm) (has_precision fm)
    (pad_char fm) (prepend_char fm) w (precision fm) (base fm).
Definition with_precision (p : Z) (fm : fmt_spec) : fmt_spec :=
  MkFm (is_signed fm) (prepend fm) (uppercase fm) (left_justify fm) (alternate_form fm) true (pad_char fm)
    (prepend_char fm) (min_width fm) p (base fm).
Definition with_base (b : Z) (up : bool) (fm : fmt_spec) : fmt_spec :=
  MkFm (is_signed fm) (prepend fm) up (left_justify fm) (alternate_form fm) (has_precision fm) (pad_char fm)
    (prepend_char fm) (min_width fm) (precision fm) b.

(** ** Writing *)

Definition write_one (fb : fmt_buf_state) (c : Z) : res fmt_buf_state :=
  b ← (if bytes_written fb <? capacity fb then buf_set (Z.to_nat (bytes_written fb)) (u8 c) (buffer fb)
       else Ok (buffer fb));
  Ok (MkFb b (capacity fb) (u64 (bytes_written fb + 1))).

(** [uacpi_memcpy] to the place [i] of a buffer. *)
Fixpoint copy_to (i : nat) (cs b : list Z) : res (list Z) :=
  match cs with
  | [] => Ok b
  | c :: cs' => b ← buf_set i (u8 c) b; copy_to (S i) cs' b
  end.

Definition write_many (fb : fmt_buf_state) (str : list Z) (count : Z) : res fmt_buf_state :=
  b ← (if bytes_written fb <? capacity fb then
         let count_to_write := Z.min count (capacity fb - bytes_written fb) in
         copy_to (Z.to_nat (bytes_written fb)) (take (Z.to_nat count_to_write) str) (buffer fb)
       else Ok (buffer fb));
  Ok (MkFb b (capacity fb) (u64 (bytes_written fb + count))).

Definition upper_hex : list Z := chars "0123456789ABCDEF".
Definition lower_hex : list Z := chars "0123456789abcdef".
Definition hex_char (upper : bool) (value : Z) : Z := nth (Z.to_nat value) (if upper then upper_hex else lower_hex) 0.

Fixpoint write_times (n : nat) (fb : fmt_buf_state) (c : Z) : res fmt_buf_state :=
  match n with O => Ok fb | S n' => fb ← write_one fb c; write_times n' fb c end.

Definition write_padding (fb : fmt_buf_state) (fm : fmt_spec) (repr_size : Z) : res fmt_buf_state :=
  let mw := min_width fm in
  if mw <=? repr_size then Ok fb
  else write_times (Z.to_nat (mw - repr_size)) fb (if left_justify fm then ch " " else pad_char fm).

Definition REPR_BUFFER_SIZE : nat := 32.

(** The digit of a remainder. *)
Definition repr_char (fm : fmt_spec) (remainder : Z) : Z :=
  if base fm =? 16 then hex_char (uppercase fm) remainder
  else if (base fm =? 8) || (base fm =? 10) then remainder + ch "0"
  else ch "?".

(** [repr_buffer[--index] = c]; the index does not go below zero. *)
Definition repr_push (c : Z) (st : list Z * nat) : res (list Z * nat) :=
  match st.2 with
  | O => Fault (-1)
  | S i => b ← buf_set i c st.1; Ok (b, i)
  end.

Fixpoint repr_loop (fuel : nat) (fm : fmt_spec) (value : Z) (st : list Z * nat) : res (list Z * nat) :=
  if value =? 0 then Ok st
  else match fuel with
       | O => NoFuel
       | S fuel' =>
           st ← repr_push (repr_char fm (value mod base fm)) st;
           repr_loop fuel' fm (value `div` base fm) st
       end.

(** The two characters or the one of the alternate form. *)
Definition repr_alternate (fm : fmt_spec) (st : list Z * nat) : res (list Z * nat) :=
  if alternate_form fm then
    if base fm =? 16 then
      st ← repr_push (if uppercase fm then ch "X" else ch "x") st;
      repr_push (ch "0") st
    else if base fm =? 8 then repr_push (ch "0") st
    else Ok st
  else Ok st.

(** [junk]: what [repr_buffer] holds at first.  Negating the least number
    overflows.  [repr_size] is the number of characters pushed. *)
Definition write_integer (junk : list Z) (fb : fmt_buf_state) (fm : fmt_spec) (value : Z) : res fmt_buf_state :=
  let as_ll := sint 64 value in
  let negative := is_signed fm && (as_ll <? 0) in
  value ← (if negative then if as_ll =? - 2 ^ 63 then Fault value else Ok (u64 (- as_ll)) else Ok value);
  fb ← (if prepend fm || negative then write_one fb (if negative then ch "-" else prepend_char fm) else Ok fb);
  st ← repr_loop 64 fm value (junk, REPR_BUFFER_SIZE);
  st ← (if (st.2 =? REPR_BUFFER_SIZE)%nat then repr_push (ch "0") st else Ok st);
  st ← repr_alternate fm st;
  let repr_size := Z.of_nat (REPR_BUFFER_SIZE - st.2) in
  let repr := drop st.2 st.1 in
  if left_justify fm then
    fb ← write_many fb repr repr_size;
    write_padding fb fm repr_size
  else
    fb ← write_padding fb fm repr_size;
    write_many fb repr repr_size.

(** ** Reading the format *)

Fixpoint string_has_at_least (str : list Z) (characters : Z) : bool :=
  match str with
  | [] => false
  | c :: str' =>
      if c =? 0 then false
      else let characters := u64 (characters - 1) in
           if characters =? 0 then true else string_has_at_least str' characters
  end.

(** The number of digits, and what follows them. *)
Fixpoint digit_run (str : list Z) : nat * list Z :=
  match str with
  | c :: str' => if is_digit c then let '(n, rest) := digit_run str' in (S n, rest) else (O, str)
  | [] => (O, str)
  end.

Definition consume_digits (str : list Z) : option (nat * list Z) :=
  let '(size, rest) := digit_run str in if (size =? 0)%nat then None else Some (size, rest).

Inductive parse_number_mode := PARSE_NUMBER_MODE_MAYBE | PARSE_NUMBER_MODE_MUST.

(** What follows the number and the number, or no change ([None] inside) in
    the mode [MAYBE]; [None] is the result false. *)
Definition parse_number (fmt : list Z) (mode : parse_number_mode) : res (option (list Z * option Z)) :=
  match consume_digits fmt with
  | None => Ok (match mode with PARSE_NUMBER_MODE_MUST => None | PARSE_NUMBER_MODE_MAYBE => Some (fmt, None) end)
  | Some (num_digits, rest) =>
      r ← uacpi_string_to_integer fmt (Z.of_nat num_digits) UACPI_BASE_DEC;
      Ok (if decide (r.1 = UACPI_STATUS_OK) then Some (rest, Some r.2) else None)
  end.

Definition consume (str token : list Z) : option (list Z) :=
  let token_size := uacpi_strlen token in
  if negb (string_has_at_least str token_size) then None
  else if bool_decide (take (Z.to_nat token_size) str = token) then Some (drop (Z.to_nat token_size) str)
  else None.

Fixpoint is_one_of (c : Z) (list_ : list Z) : bool :=
  match list_ with
  | [] => false
  | l :: list' => if l =? 0 then false else if c =? l then true else is_one_of c list'
  end.

(** The character and what follows it. *)
Definition consume_one_of (str list_ : list Z) : option (Z * list Z) :=
  let c := hd 0 str in
  if c =? 0 then None else if is_one_of c list_ then Some (c, tail str) else None.

Definition base_from_specifier (specifier : Z) : Z :=
  if (specifier =? ch "x") || (specifier =? ch "X") then 16 else if specifier =? ch "o" then 8 else 10.

Definition is_uppercase_specifier (specifier : Z) : bool := specifier =? ch "X".

(** The offset of the next percent sign, and whether there is one. *)
Fixpoint find_next_conversion (fmt : list Z) : nat * bool :=
  match fmt with
  | [] => (O, false)
  | c :: fmt' =>
      if c =? 0 then (O, false)
      else if c =? ch "%" then (O, true)
      else let '(n, found) := find_next_conversion fmt' in (S n, found)
  end.

(** ** uacpi_vsnprintf

    [None] is the early [return -1]. *)

Definition try {A B : Type} (m : res (option A)) (k : A → res (option B)) : res (option B) :=
  o ← m; match o with None => Ok None | Some a => k a end.

Notation "x ?← m ; k" := (try m (λ x, k)) (at level 20, m at level 100, k at level 200) : kernel_scope.

Definition FLAGS : list Z := chars "+- 0#".

(** The [switch] over the flag. *)
Definition apply_flag (flag : Z) (fm : fmt_spec) : fmt_spec :=
  if (flag =? ch "+") || (flag =? ch " ") then with_prepend flag fm
  else if flag =? ch "-" then with_left fm
  else if flag =? ch "0" then with_pad (ch "0") fm
  else with_alternate fm.

Fixpoint consume_flags (fmt : list Z) (fm : fmt_spec) : list Z * fmt_spec :=
  match consume_one_of fmt FLAGS, fmt with
  | Some (flag, _), _ :: fmt' => consume_flags fmt' (apply_flag flag fm)
  | _, _ => (fmt, fm)
  end.

(** An [int] of the arguments, converted to 64 bits unsigned. *)
Definition va_int (args : list va_slot) : res (Z * list va_slot) :=
  a ← va_word args; Ok (u64 (sint 32 a.1), a.2).

(** A string argument; a null pointer gives the text in its place. *)
Definition va_cstring (args : list va_slot) : res (list Z * list va_slot) :=
  match args with
  | VaStr p s :: args' => Ok (if p =? 0 then chars "<null>" else s, args')
  | VaWord w :: args' => if u64 w =? 0 then Ok (chars "<null>", args') else Fault w
  | [] => Fault 0
  end.

Definition read_width (fmt : list Z) (args : list va_slot) (fm : fmt_spec) :
    res (option (list Z * list va_slot * fmt_spec)) :=
  match consume fmt (chars "*") with
  | Some fmt => a ← va_int args; Ok (Some (fmt, a.2, with_width a.1 fm))
  | None =>
      r ?← parse_number fmt PARSE_NUMBER_MODE_MAYBE;
      Ok (Some (r.1, args, match r.2 with Some w => with_width w fm | None => fm end))
  end.

Definition read_precision (fmt : list Z) (args : list va_slot) (fm : fmt_spec) :
    res (option (list Z * list va_slot * fmt_spec)) :=
  match consume fmt (chars ".") with
  | None => Ok (Some (fmt, args, fm))
  | Some fmt =>
      match consume fmt (chars "*") with
      | Some fmt => a ← va_int args; Ok (Some (fmt, a.2, with_precision a.1 fm))
      | None =>
          r ?← parse_number fmt PARSE_NUMBER_MODE_MUST;
          Ok (Some (r.1, args, with_precision (default 0 r.2) fm))
      end
  end.

(** [for (i = 0; (!fm.has_precision || i < fm.precision) && string[i]; ++i)] *)
Fixpoint write_chars (fb : fmt_buf_state) (fm : fmt_spec) (str : list Z) (i : Z) : res (fmt_buf_state * Z) :=
  match str with
  | [] => Ok (fb, i)
  | c :: str' =>
      if (negb (has_precision fm) || (i <? precision fm)) && negb (c =? 0) then
        fb ← write_one fb c;
        write_chars fb fm str' (i + 1)
      else Ok (fb, i)
  end.

Definition write_string (fb : fmt_buf_state) (fm : fmt_spec) (str : list Z) : res fmt_buf_state :=
  r ← write_chars fb fm str 0;
  if has_precision fm then write_times (Z.to_nat (precision fm - r.2)) r.1 (pad_char fm) else Ok r.1.

(** What the specifier of an integer of [w] bits gives: the rest of the
    format, the other arguments, the specification, the specifier (zero for
    the signed ones) and the value. *)
Definition read_integer (w : Z) (fmt : list Z) (args : list va_slot) (fm : fmt_spec) :
    res (option (list Z * list va_slot * fmt_spec * Z * Z)) :=
  match consume fmt (chars "d"), consume fmt (chars "i") with
  | Some fmt, _ | None, Some fmt =>
      a ← va_word args; Ok (Some (fmt, a.2, with_sign fm, 0, u64 (sint w a.1)))
  | None, None =>
      match consume_one_of fmt (chars "oxXu") with
      | Some (flag, fmt) => a ← va_word args; Ok (Some (fmt, a.2, fm, flag, wrap w a.1))
      | None => Ok None
      end
  end.

(** The length modifier of an integer: its width and what follows; [z] is
    the same as [ll] where a size has 64 bits. *)
Definition consume_length (fmt : list Z) : Z * list Z :=
  match consume fmt (chars "hh") with
  | Some fmt => (8, fmt)
  | None =>
      match consume fmt (chars "h") with
      | Some fmt => (16, fmt)
      | None =>
          match consume fmt (chars "ll") with
          | Some fmt => (64, fmt)
          | None =>
              match consume fmt (chars "z") with
              | Some fmt => (64, fmt)
              | None =>
                  match consume fmt (chars "l") with
                  | Some fmt => (64, fmt)
                  | None => (32, fmt)
                  end
              end
          end
      end
  end.

Definition UACPI_POINTER_SIZE : Z := 8.

(** From [flag = 0] on: the conversion specifier. *)
Definition conversion (junk fmt : list Z) (args : list va_slot) (fm : fmt_spec) (fb : fmt_buf_state) :
    res (option (list Z * list va_slot * fmt_buf_state)) :=
  match consume fmt (chars "c") with
  | Some fmt => a ← va_word args; fb ← write_one fb (u8 a.1); Ok (Some (fmt, a.2, fb))
  | None =>
      match consume fmt (chars "s") with
      | Some fmt => a ← va_cstring args; fb ← write_string fb fm a.1; Ok (Some (fmt, a.2, fb))
      | None =>
          match consume fmt (chars "p") with
          | Some fmt =>
              a ← va_word args;
              let fm := with_pad (ch "0") (with_width (UACPI_POINTER_SIZE * 2) (with_base 16 (uppercase fm) fm)) in
              fb ← write_integer junk fb fm a.1;
              Ok (Some (fmt, a.2, fb))
          | None =>
              let '(w, fmt) := consume_length fmt in
              r ?← read_integer w fmt args fm;
              let '(fmt, args, fm, flag, value) := r in
              let fm := if negb (flag =? 0) then
                          with_base (base_from_specifier flag) (is_uppercase_specifier flag) fm
                        else fm in
              fb ← write_integer junk fb fm value;
              Ok (Some (fmt, args, fb))
          end
      end
  end.

(** The part of the loop after the percent sign. *)
Definition directive (junk fmt : list Z) (args : list va_slot) (fb : fmt_buf_state) :
    res (option (list Z * list va_slot * fmt_buf_state)) :=
  let '(fmt, fm) := consume_flags fmt fm_init in
  r ?← read_width fmt args fm;
  let '(fmt, args, fm) := r in
  r ?← read_precision fmt args fm;
  let '(fmt, args, fm) := r in
  conversion junk fmt args fm fb.

(** Whether the whole format was understood, and the state reached. *)
Fixpoint vsnprintf_loop (fuel : nat) (junk fmt : list Z) (args : list va_slot) (fb : fmt_buf_state) :
    res (bool * fmt_buf_state) :=
  if hd 0 fmt =? 0 then Ok (true, fb)
  else match fuel with
  | O => NoFuel
  | S fuel' =>
      let '(next_offset, found) := find_next_conversion fmt in
      fb ← (if (next_offset =? 0)%nat then Ok fb else write_many fb fmt (Z.of_nat next_offset));
      if negb (found : bool) then Ok (true, fb)
      else
        let fmt := drop next_offset fmt in
        match consume fmt (chars "%%") with
        | Some fmt => fb ← write_one fb (ch "%"); vsnprintf_loop fuel' junk fmt args fb
        | None =>
            r ← directive junk (tail fmt) args fb;
            match r with
            | None => Ok (false, fb)
            | Some (fmt, args, fb) => vsnprintf_loop fuel' junk fmt args fb
            end
        end
  end.

(** The final zero. *)
Definition terminate (fb : fmt_buf_state) : res (list Z) :=
  if negb (capacity fb =? 0) then
    let last_char := Z.min (bytes_written fb) (capacity fb - 1) in
    buf_set (Z.to_nat last_char) 0 (buffer fb)
  else Ok (buffer fb).

(** The result and the buffer. *)
Definition uacpi_vsnprintf (junk buf : list Z) (capacity : Z) (fmt : list Z) (vlist : list va_slot) :
    res (Z * list Z) :=
  r ← vsnprintf_loop (length fmt) junk fmt vlist (MkFb buf capacity 0);
  let '(ok, fb) := r in
  if negb (ok : bool) then Ok (-1, buffer fb)
  else b ← terminate fb; Ok (sint 32 (bytes_written fb), b).

Definition uacpi_snprintf (junk buf : list Z) (capacity : Z) (fmt : list Z) (vlist : list va_slot) :
    res (Z * list Z) := uacpi_vsnprintf junk buf capacity fmt vlist.

Definition sprint_uacpi (size : nat) (fmt : string) (args : list va_slot) : res (Z * list Z) :=
  r ← uacpi_vsnprintf (replicate 32 0) (replicate size 170) (Z.of_nat size) (chars fmt) args;
  Ok (r.1, cstr r.2).

Example sprint_uacpi_runs :
  sprint_uacpi 40 "table '%.4s' (0x%016llX) size %u%%" [VaStr 1 (chars "APIC0000"); VaWord 0xFEC0; VaWord 44] =
    Ok (42, chars "table 'APIC' (0x000000000000FEC0) size ") ∧
  sprint_uacpi 40 "[%5d|%-5d|%05d|%+d]" (VaWord <$> [42; 42; -42; 42]) = Ok (24, chars "[   42|42   |-00042|+42]") ∧
  sprint_uacpi 40 "[%#x|%#o|%p]" (VaWord <$> [255; 8; 4096]) = Ok (27, chars "[0xff|010|0000000000001000]") ∧
  sprint_uacpi 40 "[%6s|%c|%s]" [VaStr 1 (chars "abc"); VaWord 65; VaWord 0] = Ok (14, chars "[abc|A|<null>]") ∧
  sprint_uacpi 40 "[%hhd|%hu|%zu]" (VaWord <$> [384; 65537; -1]) = Ok (29, chars "[-128|1|18446744073709551615]").
Proof. vm_compute. repeat split. Qed.
