(* ===== verification/UacpiFmtThms.v ===== *)
(** * The formatter of the ACPI library: theorems

    A reference definition of what [uacpi_vsnprintf] prints, over formats
    given as literals and directives rather than as characters, and the
    proof that the code prints it, cut to the size of the buffer. *)

From S2P Require Import Prelude Digits Npf Tables UacpiUtil UacpiFmt.
Local Open Scope Z_scope.
Local Open Scope kernel_scope.

(** ** The state after a text has been written

    [overlay t b] is the buffer [b] with [t] written over it from the start,
    as far as there is room. *)

Definition overlay (t b : list Z) : list Z := take (length b) t ++ drop (length t) b.

Definition wrote (b t : list Z) : fmt_buf_state :=
  MkFb (overlay (map (wrap 8) t) b) (Z.of_nat (length b)) (Z.of_nat (length t)).

(** [f] appends [out] to what has been written. *)
Definition appends (f : fmt_buf_state → res fmt_buf_state) (out : list Z) : Prop :=
  ∀ b t, Z.of_nat (length t + length out) < 2 ^ 64 → f (wrote b t) = Ok (wrote b (t ++ out)).

Lemma overlay_length t b : length (overlay t b) = length b.
Proof. unfold overlay. rewrite length_app, length_take, length_drop. lia. Qed.

Lemma overlay_snoc t b c :
  (length t < length b)%nat → overlay (t ++ [c]) b = <[length t := c]> (overlay t b).
Proof.
  intros Hl. unfold overlay. rewrite !take_ge by (rewrite ?length_app; simpl; lia).
  rewrite length_app. simpl length. rewrite Nat.add_1_r.
  destruct (drop (length t) b) as [|x r] eqn:E.
  { apply (f_equal length) in E. rewrite length_drop in E. simpl in E. lia. }
  rewrite insert_middle, <-(assoc_L (++)). simpl. do 2 f_equal.
  change (S (length t)) with (1 + length t)%nat. rewrite <-skipn_skipn. by rewrite E.
Qed.

Lemma overlay_full t b u : (length b ≤ length t)%nat → overlay (t ++ u) b = overlay t b.
Proof.
  intros Hl. unfold overlay. rewrite take_app_le by lia.
  rewrite !drop_ge by (rewrite ?length_app; lia). done.
Qed.

Lemma appends_one c : appends (λ fb, write_one fb c) [c].
Proof.
  intros b t Hl. simpl in Hl. unfold write_one, wrote. cbn [bytes_written capacity buffer].
  rewrite (wrap_small 64) by lia. rewrite map_app, length_app. simpl.
  replace (Z.of_nat (length t + 1)) with (Z.of_nat (length t) + 1) by lia.
  destruct (Z.ltb_spec (Z.of_nat (length t)) (Z.of_nat (length b))) as [H|H].
  - unfold buf_set. rewrite Nat2Z.id, overlay_length. rewrite (proj2 (Nat.ltb_lt _ _)) by lia.
    unfold mbind, res_bind. by rewrite overlay_snoc, length_map by (rewrite length_map; lia).
  - unfold mbind, res_bind. by rewrite overlay_full by (rewrite length_map; lia).
Qed.

Lemma appends_nil : appends Ok [].
Proof. intros b t _. by rewrite app_nil_r. Qed.

Lemma appends_bind f g o1 o2 : appends f o1 → appends g o2 → appends (λ fb, f fb ≫= g) (o1 ++ o2).
Proof.
  intros Hf Hg b t Hl. rewrite length_app in Hl. rewrite Hf by lia. cbn.
  rewrite Hg by (rewrite length_app; lia). by rewrite (assoc_L (++)).
Qed.

Lemma appends_eq f o o' : appends f o → o = o' → appends f o'.
Proof. by intros ? <-. Qed.

Lemma appends_times n c : appends (λ fb, write_times n fb c) (replicate n c).
Proof.
  induction n as [|n IH]; [apply appends_nil|]. simpl.
  apply (appends_bind (λ fb, write_one fb c) (λ fb, write_times n fb c) [c]); [apply appends_one|done].
Qed.

(** Copying a text into the buffer writes what there is room for. *)
Lemma copy_to_overlay cs t b :
  (length t + length cs ≤ length b)%nat →
  copy_to (length t) cs (overlay t b) = Ok (overlay (t ++ map (wrap 8) cs) b).
Proof.
  revert t. induction cs as [|c cs IH]; intros t Hl; simpl.
  { by rewrite app_nil_r. }
  simpl in Hl. unfold buf_set. rewrite overlay_length. rewrite (proj2 (Nat.ltb_lt _ _)) by lia. cbn.
  rewrite <-overlay_snoc by lia.
  replace (S (length t)) with (length (t ++ [u8 c])) by (rewrite length_app; simpl; lia).
  rewrite IH by (rewrite length_app; simpl; lia). by rewrite <-(assoc_L (++)).
Qed.

Lemma overlay_take t u b :
  (length t ≤ length b)%nat → overlay (t ++ take (length b - length t) u) b = overlay (t ++ u) b.
Proof.
  intros Hl. unfold overlay. destruct (decide (length u ≤ length b - length t)%nat) as [Hu|Hu].
  { by rewrite (take_ge u) by lia. }
  rewrite (drop_ge b (length (t ++ take _ u))) by (rewrite length_app, length_take; lia).
  rewrite (drop_ge b (length (t ++ u))) by (rewrite length_app; lia).
  f_equal. rewrite !take_app, take_take. do 2 f_equal. lia.
Qed.

Lemma appends_many str count :
  0 ≤ count ≤ Z.of_nat (length str) → appends (λ fb, write_many fb str count) (take (Z.to_nat count) str).
Proof.
  intros Hc b t Hl. rewrite length_take in Hl. unfold write_many, wrote. cbn [bytes_written capacity buffer].
  rewrite (wrap_small 64) by lia. rewrite map_app, length_app, length_take.
  replace (Z.of_nat (length t + _ `min` _)) with (Z.of_nat (length t) + count) by lia.
  destruct (Z.ltb_spec (Z.of_nat (length t)) (Z.of_nat (length b))) as [H|H].
  - cbv zeta. rewrite Nat2Z.id. set (k := Z.to_nat (Z.min count _)).
    pose proof (copy_to_overlay (take k str) (map (wrap 8) t) b) as E.
    rewrite length_map, length_take in E. rewrite E by lia. cbn. do 2 f_equal.
    rewrite <-(overlay_take (map _ t) (map _ (take (Z.to_nat count) _))) by (rewrite length_map; lia).
    do 2 f_equal. rewrite <-!firstn_map, take_take, length_map. f_equal. lia.
  - cbn. by rewrite overlay_full by (rewrite length_map; lia).
Qed.

(** ** Integers *)

(** The digits of a number in one of the three bases. *)
Definition digit_text (base : Z) (upper : bool) (d : Z) : Z :=
  if base =? 16 then nth (Z.to_nat d) (chars (if upper then "0123456789ABCDEF" else "0123456789abcdef")) 0
  else ch "0" + d.

Definition number_text (base : Z) (upper : bool) (v : Z) : list Z :=
  rev (map (digit_text base upper) (digits 64 base v)).

Definition alternate_text (base : Z) (upper : bool) : list Z :=
  if base =? 16 then [ch "0"; if upper then ch "X" else ch "x"] else if base =? 8 then [ch "0"] else [].

(** A text in a field: padded up to the width. *)
Definition field (left : bool) (pad width : Z) (repr : list Z) : list Z :=
  let n := Z.to_nat (width - Z.of_nat (length repr)) in
  if left then repr ++ replicate n (ch " ") else replicate n pad ++ repr.

(** What [write_integer] prints of the number [v], as a signed number if
    the specification says so: the sign stands before the field. *)
Definition integer_value (fm : fmt_spec) (v : Z) : Z := if is_signed fm then sint 64 v else v.

Definition sign_text (fm : fmt_spec) (v : Z) : list Z :=
  if integer_value fm v <? 0 then [ch "-"] else if prepend fm then [prepend_char fm] else [].

Definition integer_text (fm : fmt_spec) (v : Z) : list Z :=
  sign_text fm v ++
  field (left_justify fm) (pad_char fm) (min_width fm)
    ((if alternate_form fm then alternate_text (base fm) (uppercase fm) else []) ++
     number_text (base fm) (uppercase fm) (Z.abs (integer_value fm v))).

(** The part of [repr_buffer] that has been filled. *)
Definition filled (st : list Z * nat) (text : list Z) : Prop :=
  length st.1 = REPR_BUFFER_SIZE ∧ (st.2 + length text = REPR_BUFFER_SIZE)%nat ∧ drop st.2 st.1 = text.

Lemma repr_push_ok c st text :
  filled st text → (length text < REPR_BUFFER_SIZE)%nat →
  ∃ st', repr_push c st = Ok st' ∧ filled st' (c :: text).
Proof.
  destruct st as [b i]. unfold filled, repr_push. cbn [fst snd]. intros (Hb & Hi & <-) Hl.
  destruct i as [|i]; [lia|]. unfold buf_set. rewrite (proj2 (Nat.ltb_lt _ _)) by lia.
  eexists. split; [reflexivity|]. cbn [fst snd]. rewrite length_insert. split; [done|].
  simpl length. split; [lia|].
  rewrite <-(take_drop i b) at 1. destruct (drop i b) as [|x r] eqn:E.
  { apply (f_equal length) in E. rewrite length_drop in E. simpl in E. lia. }
  assert (length (take i b) = i) as Ei by (rewrite length_take; lia).
  rewrite <-Ei at 2. rewrite insert_middle. rewrite drop_app_length' by done. f_equal.
  change (S i) with (1 + i)%nat. rewrite <-skipn_skipn. by rewrite E.
Qed.

Definition base_ok (fm : fmt_spec) : Prop := base fm = 8 ∨ base fm = 10 ∨ base fm = 16.

Lemma repr_char_text fm d :
  base_ok fm → repr_char fm d = digit_text (base fm) (uppercase fm) d.
Proof.
  intros [E|[E|E]]; unfold repr_char, digit_text; rewrite E; simpl; [lia|lia|].
  unfold hex_char. by destruct (uppercase fm).
Qed.

Lemma repr_loop_ok fuel fm v st text :
  base_ok fm → 0 < v < base fm ^ Z.of_nat fuel → filled st text →
  (length (digits fuel (base fm) v) + length text ≤ REPR_BUFFER_SIZE)%nat →
  ∃ st', repr_loop fuel fm v st = Ok st' ∧
    filled st' (rev (map (digit_text (base fm) (uppercase fm)) (digits fuel (base fm) v)) ++ text).
Proof.
  intros Hb. assert (2 ≤ base fm) as Hb2 by (destruct Hb as [E|[E|E]]; rewrite E; lia).
  revert v st text. induction fuel as [|fuel IH]; intros v st text Hv Hf Hl; [simpl in Hv; lia|].
  rewrite Nat2Z.inj_succ, Z.pow_succ_r in Hv by lia.
  cbn [repr_loop]. rewrite (proj2 (Z.eqb_neq v 0)) by lia.
  cbn [digits length] in Hl.
  destruct (repr_push_ok (repr_char fm (v mod base fm)) st text Hf ltac:(lia)) as (st1 & E1 & Hf1).
  rewrite E1. cbn [mbind res_bind]. rewrite repr_char_text in Hf1 by done.
  cbn [digits map rev].
  destruct (Z.eqb_spec (v `div` base fm) 0) as [E0|E0].
  - rewrite E0. exists st1. split; [by destruct fuel|done].
  - destruct (IH (v `div` base fm) st1 _ ltac:(split; [|apply Z.div_lt_upper_bound; lia];
      assert (0 ≤ v `div` base fm) by (apply Z.div_pos; lia); lia) Hf1 ltac:(simpl in *; lia)) as (st2 & E2 & Hf2).
    exists st2. split; [done|]. by rewrite <-(assoc_L (++)).
Qed.

Lemma digits_fit fm v : base_ok fm → 0 ≤ v < 2 ^ 64 → (length (digits 64 (base fm) v) ≤ 22)%nat.
Proof.
  intros [E|[E|E]] Hv; rewrite E; apply digits_length; try lia; simpl; lia.
Qed.

Lemma digits_length_pos fuel b v : (0 < length (digits (S fuel) b v))%nat.
Proof. simpl. lia. Qed.

Lemma u64_pow64 b : 8 ≤ b → 2 ^ 64 ≤ b ^ Z.of_nat 64.
Proof. intros. etransitivity; [|apply (Z.pow_le_mono_l 8); lia]. vm_compute. discriminate. Qed.

(** The characters in the buffer of [write_integer]. *)
Lemma repr_ok fm v junk :
  base_ok fm → 0 ≤ v < 2 ^ 64 → length junk = REPR_BUFFER_SIZE →
  ∃ st, (st ← repr_loop 64 fm v (junk, REPR_BUFFER_SIZE);
         st ← (if (st.2 =? REPR_BUFFER_SIZE)%nat then repr_push (ch "0") st else Ok st);
         repr_alternate fm st) = Ok st ∧
    filled st ((if alternate_form fm then alternate_text (base fm) (uppercase fm) else []) ++
               number_text (base fm) (uppercase fm) v).
Proof.
  intros Hb Hv Hj. pose proof (digits_fit fm v Hb Hv) as Hd.
  pose proof (u64_pow64 (base fm) ltac:(destruct Hb as [E|[E|E]]; rewrite E; lia)) as Hpow.
  assert (filled (junk, REPR_BUFFER_SIZE) []) as H0.
  { split; [done|]. split; [cbn [snd length]; lia|]. cbn [fst snd]. apply drop_ge. lia. }
  assert (∃ st, (st ← repr_loop 64 fm v (junk, REPR_BUFFER_SIZE);
      if (st.2 =? REPR_BUFFER_SIZE)%nat then repr_push (ch "0") st else Ok st) = Ok st ∧
      filled st (number_text (base fm) (uppercase fm) v)) as (st & E & Hf).
  { destruct (decide (v = 0)) as [->|Hv0].
    - cbn [repr_loop Z.eqb mbind res_bind snd]. rewrite Nat.eqb_refl.
      destruct (repr_push_ok (ch "0") _ _ H0 ltac:(simpl; unfold REPR_BUFFER_SIZE; lia)) as (st & -> & Hf).
      exists st. split; [done|]. destruct Hb as [E|[E|E]]; rewrite E; [exact Hf|exact Hf|].
      by destruct (uppercase fm).
    - destruct (repr_loop_ok 64 fm v _ [] Hb ltac:(lia) H0 ltac:(cbn [length]; unfold REPR_BUFFER_SIZE; lia))
        as (st & -> & Hf).
      rewrite app_nil_r in Hf. exists st. split; [|done]. cbn [mbind res_bind].
      destruct Hf as (Hf1 & Hf2 & Hf3). rewrite (proj2 (Nat.eqb_neq _ _)); [done|].
      rewrite length_rev, length_map in Hf2. pose proof (digits_length_pos 63 (base fm) v). lia. }
  assert (length (number_text (base fm) (uppercase fm) v) ≤ 22)%nat as Hn.
  { unfold number_text. by rewrite length_rev, length_map. }
  revert E. destruct (repr_loop 64 fm v _) as [st0| | |]; [|done..]. cbn [mbind res_bind]. intros ->.
  cbn [mbind res_bind]. unfold repr_alternate, alternate_text.
  destruct (alternate_form fm); [|by exists st].
  destruct Hb as [E|[E|E]]; rewrite E in *; cbn [Z.eqb Pos.eqb].
  - destruct (repr_push_ok (ch "0") _ _ Hf ltac:(unfold REPR_BUFFER_SIZE; lia)) as (st' & E' & Hf'). by exists st'.
  - by exists st.
  - destruct (repr_push_ok (if uppercase fm then ch "X" else ch "x") _ _ Hf ltac:(unfold REPR_BUFFER_SIZE; lia))
      as (st1 & -> & Hf1).
    cbn [mbind res_bind].
    destruct (repr_push_ok (ch "0") _ _ Hf1 ltac:(simpl; unfold REPR_BUFFER_SIZE; lia)) as (st' & E' & Hf').
    by exists st'.
Qed.

Lemma appends_padding fm n :
  appends (λ fb, write_padding fb fm (Z.of_nat n))
    (replicate (Z.to_nat (min_width fm - Z.of_nat n)) (if left_justify fm then ch " " else pad_char fm)).
Proof.
  unfold write_padding. cbv zeta. destruct (Z.leb_spec (min_width fm) (Z.of_nat n)).
  - replace (Z.to_nat _) with O by lia. apply appends_nil.
  - apply appends_times.
Qed.

Lemma appends_repr st text : filled st text → appends (λ fb, write_many fb (drop st.2 st.1) (Z.of_nat (length text))) text.
Proof.
  intros (Hl & Hi & Hd). rewrite Hd. eapply appends_eq; [apply appends_many; lia|].
  rewrite Nat2Z.id. by apply take_ge.
Qed.

Lemma integer_abs fm v :
  0 ≤ v < 2 ^ 64 → integer_value fm v ≠ - 2 ^ 63 →
  (if is_signed fm && (sint 64 v <? 0) then if sint 64 v =? - 2 ^ 63 then Fault v else Ok (u64 (- sint 64 v)) else Ok v) =
  Ok (Z.abs (integer_value fm v)) ∧
  is_signed fm && (sint 64 v <? 0) = (integer_value fm v <? 0) ∧ 0 ≤ Z.abs (integer_value fm v) < 2 ^ 64.
Proof.
  intros Hv Hm. unfold integer_value in *. destruct (is_signed fm); simpl andb.
  - assert (- 2 ^ 63 ≤ sint 64 v < 2 ^ 63) as Hs.
    { unfold sint. rewrite wrap_small by done. destruct (Z.ltb_spec v (2 ^ (64 - 1))); lia. }
    split; [|split; [done|lia]]. destruct (Z.ltb_spec (sint 64 v) 0) as [Hn|Hn].
    + rewrite (proj2 (Z.eqb_neq _ _)) by done. rewrite wrap_small by lia. f_equal. lia.
    + f_equal. rewrite Z.abs_eq by done. unfold sint in *. rewrite wrap_small in * by done.
      destruct (Z.ltb_spec v (2 ^ (64 - 1))); lia.
  - split; [f_equal; lia|]. split; [|lia]. symmetry. apply Z.ltb_ge. lia.
Qed.

Lemma appends_integer junk fm v :
  length junk = REPR_BUFFER_SIZE → base_ok fm → 0 ≤ v < 2 ^ 64 → integer_value fm v ≠ - 2 ^ 63 →
  appends (λ fb, write_integer junk fb fm v) (integer_text fm v).
Proof.
  intros Hj Hb Hv Hm. destruct (integer_abs fm v Hv Hm) as (E1 & E2 & Ha).
  destruct (repr_ok fm _ junk Hb Ha Hj) as (st & E & Hf).
  unfold integer_text. set (repr := _ ++ number_text _ _ _) in *.
  assert (Z.of_nat (REPR_BUFFER_SIZE - st.2) = Z.of_nat (length repr)) as El.
  { destruct Hf as (_ & Hi & _). f_equal. lia. }
  assert (appends (λ fb, if prepend fm || (integer_value fm v <? 0)
                       then write_one fb (if integer_value fm v <? 0 then ch "-" else prepend_char fm) else Ok fb)
            (sign_text fm v)) as Hs.
  { unfold sign_text. destruct (integer_value fm v <? 0); [rewrite orb_true_r; apply appends_one|].
    rewrite orb_false_r. destruct (prepend fm); [apply appends_one|apply appends_nil]. }
  assert (appends (λ fb, if left_justify fm then
                         fb ← write_many fb (drop st.2 st.1) (Z.of_nat (length repr));
                         write_padding fb fm (Z.of_nat (length repr))
                       else
                         fb ← write_padding fb fm (Z.of_nat (length repr));
                         write_many fb (drop st.2 st.1) (Z.of_nat (length repr)))
            (field (left_justify fm) (pad_char fm) (min_width fm) repr)) as Hfield.
  { pose proof (appends_padding fm (length repr)) as Hp. pose proof (appends_repr st repr Hf) as Hr.
    unfold field. destruct (left_justify fm); by apply (appends_bind _ (λ fb, _ fb)). }
  intros b t Hl. rewrite <-(appends_bind _ _ _ _ Hs Hfield b t Hl).
  unfold write_integer. cbv zeta. rewrite E1, E2. cbn [mbind res_bind].
  destruct (if prepend fm || _ then _ else _) as [fb| | |]; [|done..]. cbn [mbind res_bind].
  revert E. destruct (repr_loop 64 fm _ _) as [st0| | |]; [|done..]. cbn [mbind res_bind].
  destruct (if (_ =? _)%nat then _ else _) as [st1| | |]; [|done..]. cbn [mbind res_bind]. intros ->.
  cbn [mbind res_bind]. by rewrite El.
Qed.

(** ** Strings *)

(** A string, cut at a zero and at the precision; when there is a precision
    the text is padded up to it. *)
Definition string_text (fm : fmt_spec) (str : list Z) : list Z :=
  if has_precision fm then
    let out := take (Z.to_nat (precision fm)) (cstr str) in
    out ++ replicate (Z.to_nat (precision fm) - length out) (pad_char fm)
  else cstr str.

Definition cut (fm : fmt_spec) (i : Z) (str : list Z) : list Z :=
  if has_precision fm then take (Z.to_nat (precision fm - i)) str else str.

Lemma cut_cons fm i c str :
  negb (has_precision fm) || (i <? precision fm) = true → cut fm i (c :: str) = c :: cut fm (i + 1) str.
Proof.
  unfold cut. destruct (has_precision fm); simpl; [|done]. intros Hi%Z.ltb_lt.
  replace (Z.to_nat (precision fm - i)) with (S (Z.to_nat (precision fm - (i + 1)))) by lia. done.
Qed.

Lemma cut_nil fm i : cut fm i [] = [].
Proof. unfold cut. destruct (has_precision fm); [apply take_nil|done]. Qed.

Lemma write_chars_ok fm str i b t :
  0 ≤ i → Z.of_nat (length t + length (cut fm i (cstr str))) < 2 ^ 64 →
  write_chars (wrote b t) fm str i =
  Ok (wrote b (t ++ cut fm i (cstr str)), i + Z.of_nat (length (cut fm i (cstr str)))).
Proof.
  revert i t. induction str as [|c str IH]; intros i t Hi Hl; cbn [write_chars cstr] in *.
  { by rewrite cut_nil, app_nil_r, Z.add_0_r. }
  destruct (Z.eqb_spec c 0) as [Hc|Hc].
  { by rewrite andb_false_r, cut_nil, app_nil_r, Z.add_0_r. }
  simpl negb. rewrite andb_true_r.
  destruct (negb (has_precision fm) || (i <? precision fm)) eqn:Ec.
  - rewrite cut_cons in * by done. cbn [length] in *. rewrite appends_one by (cbn [length]; lia).
    cbn [mbind res_bind]. rewrite IH by (rewrite ?length_app; cbn [length]; lia).
    rewrite <-(assoc_L (++)). do 2 f_equal. lia.
  - apply orb_false_iff in Ec as [Ep%negb_false_iff El]. apply Z.ltb_ge in El. unfold cut. rewrite Ep.
    replace (Z.to_nat (precision fm - i)) with O by lia. simpl. by rewrite app_nil_r, Z.add_0_r.
Qed.

Lemma appends_string fm str : 0 ≤ precision fm → appends (λ fb, write_string fb fm str) (string_text fm str).
Proof.
  intros Hp b t Ht. unfold write_string.
  assert (cut fm 0 (cstr str) `prefix_of` string_text fm str) as [suf Hs].
  { unfold cut, string_text. rewrite Z.sub_0_r. destruct (has_precision fm); [by eexists|done]. }
  rewrite write_chars_ok by (rewrite Hs, length_app in Ht; lia). cbn [mbind res_bind fst snd]. clear Hs suf.
  unfold string_text, cut in *. destruct (has_precision fm); [|done].
  rewrite Z.sub_0_r, Z.add_0_l. set (out := take _ _) in *. cbv zeta in *.
  rewrite !length_app, length_replicate in Ht. rewrite appends_times by (rewrite length_app, length_replicate; lia).
  rewrite <-(assoc_L (++)).
  by replace (Z.to_nat (precision fm - Z.of_nat (length out))) with (Z.to_nat (precision fm) - length out)%nat by lia.
Qed.

(** ** Reading the format *)

Lemma string_has_at_least_app tok rest :
  Forall (λ c, c ≠ 0) tok → tok ≠ [] → Z.of_nat (length tok) < 2 ^ 64 →
  string_has_at_least (tok ++ rest) (Z.of_nat (length tok)) = true.
Proof.
  intros Ht. induction Ht as [|c tok Hc Ht IH]; intros Hn Hl; [done|]. clear Hn. cbn [app string_has_at_least length] in *.
  rewrite (proj2 (Z.eqb_neq c 0)) by done. rewrite wrap_small by lia. cbv zeta.
  replace (Z.of_nat (S (length tok)) - 1) with (Z.of_nat (length tok)) by lia.
  destruct (Z.eqb_spec (Z.of_nat (length tok)) 0); [done|]. apply IH; [|lia]. by intros ->.
Qed.

Lemma strlen_length tok : Forall (λ c, c ≠ 0) tok → uacpi_strlen tok = Z.of_nat (length tok).
Proof.
  induction 1 as [|c tok Hc _ IH]; simpl; [done|]. rewrite (proj2 (Z.eqb_neq c 0)) by done. lia.
Qed.

Lemma consume_app tok rest :
  Forall (λ c, c ≠ 0) tok → tok ≠ [] → Z.of_nat (length tok) < 2 ^ 64 → consume (tok ++ rest) tok = Some rest.
Proof.
  intros Ht Hn Hl. unfold consume. rewrite strlen_length by done. cbv zeta.
  rewrite string_has_at_least_app by done. simpl negb. cbv iota. rewrite Nat2Z.id.
  rewrite take_app_length, bool_decide_eq_true_2 by done. by rewrite drop_app_length.
Qed.

(** The conditions on a literal token. *)
Ltac token := first [done | repeat constructor; done].

(** Characters that differ at the start. *)
Lemma consume_hd_none str tok : hd 0 tok ≠ 0 → hd 0 str ≠ hd 0 tok → consume str tok = None.
Proof.
  intros Hc Hh. unfold consume. cbv zeta. destruct (negb _); [done|].
  rewrite bool_decide_eq_false_2; [done|]. intros E. apply Hh. destruct tok as [|c tok]; [done|].
  destruct (Z.to_nat _); [done|]. destruct str; [done|]. by simplify_eq/=.
Qed.

Lemma consume_snd_none str tok :
  hd 0 (tail tok) ≠ 0 → hd 0 (tail str) ≠ hd 0 (tail tok) → consume str tok = None.
Proof.
  intros Hc Hh. unfold consume. cbv zeta. destruct (negb _); [done|].
  rewrite bool_decide_eq_false_2; [done|]. intros E. apply Hh. destruct tok as [|c [|c' tok]]; [done|done|].
  destruct (Z.to_nat _) as [|[|n]]; [done|by destruct str|]. destruct str as [|? [|]]; [done|done|]. by simplify_eq/=.
Qed.

(** ** Formats as data *)

Inductive fmt_num := NoNum | Num (n : Z) | Star.

Inductive len_mod := LenHH | LenH | LenNone | LenL | LenLL | LenZ.

Inductive int_spec := SpecD | SpecI | SpecO | SpecLowerX | SpecUpperX | SpecU.

Inductive fmt_conv := ConvC | ConvS | ConvP | ConvInt (len : len_mod) (spec : int_spec).

Record fmt_dir := MkDir { d_flags : list Z; d_width : fmt_num; d_prec : fmt_num; d_conv : fmt_conv }.

Definition decimal (n : Z) : list Z := number_text 10 false n.

Definition show_width (n : fmt_num) : list Z :=
  match n with NoNum => [] | Num n => decimal n | Star => chars "*" end.
Definition show_prec (n : fmt_num) : list Z :=
  match n with NoNum => [] | _ => ch "." :: show_width n end.

Definition show_len (l : len_mod) : list Z :=
  match l with
  | LenHH => chars "hh" | LenH => chars "h" | LenNone => [] | LenL => chars "l" | LenLL => chars "ll" | LenZ => chars "z"
  end.
Definition len_width (l : len_mod) : Z :=
  match l with LenHH => 8 | LenH => 16 | LenNone => 32 | LenL | LenLL | LenZ => 64 end.

Definition spec_char (s : int_spec) : Z :=
  match s with
  | SpecD => ch "d" | SpecI => ch "i" | SpecO => ch "o" | SpecLowerX => ch "x" | SpecUpperX => ch "X" | SpecU => ch "u"
  end.
Definition spec_signed (s : int_spec) : bool := match s with SpecD | SpecI => true | _ => false end.
Definition spec_base (s : int_spec) : Z := match s with SpecO => 8 | SpecLowerX | SpecUpperX => 16 | _ => 10 end.
Definition spec_upper (s : int_spec) : bool := match s with SpecUpperX => true | _ => false end.

Definition show_conv (c : fmt_conv) : list Z :=
  match c with
  | ConvC => chars "c" | ConvS => chars "s" | ConvP => chars "p"
  | ConvInt len spec => show_len len ++ [spec_char spec]
  end.

(** The characters after the percent sign. *)
Definition show_dir (d : fmt_dir) : list Z :=
  d_flags d ++ show_width (d_width d) ++ show_prec (d_prec d) ++ show_conv (d_conv d).

Definition num_ok (lo : Z) (n : fmt_num) : Prop := match n with Num n => lo ≤ n < 2 ^ 64 | _ => True end.

(** Flags are flags; a literal width does not start with a zero. *)
Definition dir_ok (d : fmt_dir) : Prop :=
  Forall (λ c, c ∈ FLAGS) (d_flags d) ∧ num_ok 1 (d_width d) ∧ num_ok 0 (d_prec d).

(** ** What a directive prints *)

Definition has_flag (c : Ascii.ascii) (fl : list Z) : bool := existsb (Z.eqb (ch c)) fl.
Arguments has_flag c%_char_scope fl.
Definition is_sign_flag (c : Z) : bool := (c =? ch "+") || (c =? ch " ").

(** The specification that the flags give: of several signs the last one
    counts. *)
Definition flag_spec (fl : list Z) : fmt_spec :=
  MkFm false (existsb is_sign_flag fl) false (has_flag "-" fl) (has_flag "#" fl) false
    (if has_flag "0" fl then ch "0" else ch " ") (default 0 (last (List.filter is_sign_flag fl))) 0 0 10.

Definition num_arg (n : fmt_num) (args : list va_slot) : option (Z * list va_slot) :=
  match n with
  | NoNum => Some (0, args)
  | Num n => Some (n, args)
  | Star => match va_int args with Ok r => Some r | _ => None end
  end.

Definition prec_spec (n : fmt_num) (p : Z) (fm : fmt_spec) : fmt_spec :=
  match n with NoNum => fm | _ => with_precision p fm end.

Definition integer_spec (s : int_spec) (fm : fmt_spec) : fmt_spec :=
  let fm := with_base (spec_base s) (spec_upper s) fm in if spec_signed s then with_sign fm else fm.

Definition integer_arg (len : len_mod) (s : int_spec) (w : Z) : Z :=
  if spec_signed s then u64 (sint (len_width len) w) else wrap (len_width len) w.

(** The text of an integer; [-2^63] has none, since its negation overflows. *)
Definition integer_out (fm : fmt_spec) (v : Z) : option (list Z) :=
  if integer_value fm v =? - 2 ^ 63 then None else Some (integer_text fm v).

Definition conv_text (c : fmt_conv) (fm : fmt_spec) (args : list va_slot) : option (list Z * list va_slot) :=
  match c with
  | ConvC => match va_word args with Ok (w, args') => Some ([u8 w], args') | _ => None end
  | ConvS => match va_cstring args with Ok (s, args') => Some (string_text fm s, args') | _ => None end
  | ConvP =>
      match va_word args with
      | Ok (w, args') => (., args') <$> integer_out (with_pad (ch "0") (with_width 16 (with_base 16 false fm))) w
      | _ => None
      end
  | ConvInt len s =>
      match va_word args with
      | Ok (w, args') => (., args') <$> integer_out (integer_spec s fm) (integer_arg len s w)
      | _ => None
      end
  end.

Definition dir_text (d : fmt_dir) (args : list va_slot) : option (list Z * list va_slot) :=
  w ← num_arg (d_width d) args;
  p ← num_arg (d_prec d) w.2;
  conv_text (d_conv d) (prec_spec (d_prec d) p.1 (with_width w.1 (flag_spec (d_flags d)))) p.2.

(** ** Flags *)

Lemma is_one_of_elem c l : Forall (λ x, x ≠ 0) l → is_one_of c l = bool_decide (c ∈ l).
Proof.
  induction 1 as [|x l Hx _ IH]; simpl; [done|]. rewrite (proj2 (Z.eqb_neq x 0)) by done.
  destruct (Z.eqb_spec c x) as [->|Hc].
  - rewrite bool_decide_eq_true_2; [done|]. left.
  - rewrite IH. apply bool_decide_ext. rewrite elem_of_cons. tauto.
Qed.

Lemma flags_nonzero : Forall (λ x, x ≠ 0) FLAGS.
Proof. repeat constructor; done. Qed.

Lemma consume_flags_app fl rest fm :
  Forall (λ c, c ∈ FLAGS) fl → hd 0 rest ∉ FLAGS →
  consume_flags (fl ++ rest) fm = (rest, foldl (λ fm c, apply_flag c fm) fm fl).
Proof.
  intros Hfl Hr. revert fm. induction Hfl as [|c fl Hc _ IH]; intros fm.
  - simpl. assert (consume_one_of rest FLAGS = None) as E.
    { unfold consume_one_of. cbv zeta. destruct (_ =? 0); [done|].
      rewrite is_one_of_elem by apply flags_nonzero. by rewrite bool_decide_eq_false_2. }
    destruct rest; cbn [consume_flags]; by rewrite E.
  - cbn [app consume_flags foldl]. unfold consume_one_of. cbn [hd tail]. cbv zeta.
    assert (c ≠ 0) as Hc0 by (pose proof flags_nonzero as Hnz; rewrite Forall_forall in Hnz; by apply Hnz).
    rewrite (proj2 (Z.eqb_neq c 0)) by done.
    rewrite is_one_of_elem by apply flags_nonzero. rewrite bool_decide_eq_true_2 by done. apply IH.
Qed.

Lemma flag_spec_snoc fl c : c ∈ FLAGS → apply_flag c (flag_spec fl) = flag_spec (fl ++ [c]).
Proof.
  intros Hc. unfold flag_spec, has_flag. rewrite !existsb_app, List.filter_app.
  unfold FLAGS in Hc. vm_compute chars in Hc.
  repeat (apply elem_of_cons in Hc as [->|Hc]); [..|by apply not_elem_of_nil in Hc];
    match goal with |- context [List.filter is_sign_flag [?c]] =>
      let r := eval vm_compute in (List.filter is_sign_flag [c]) in change (List.filter is_sign_flag [c]) with r
    end; rewrite ?last_snoc, ?app_nil_r;
    destruct (existsb is_sign_flag fl), (existsb (Z.eqb (ch "-")) fl), (existsb (Z.eqb (ch "#")) fl),
      (existsb (Z.eqb (ch "0")) fl); reflexivity.
Qed.

Lemma flags_fold fl :
  Forall (λ c, c ∈ FLAGS) fl → foldl (λ fm c, apply_flag c fm) fm_init fl = flag_spec fl.
Proof.
  induction fl as [|c fl IH] using rev_ind; intros Hfl; [done|].
  apply Forall_app in Hfl as [Hfl Hc]. rewrite foldl_app. simpl. rewrite IH by done.
  apply flag_spec_snoc. by inversion Hc.
Qed.

(** ** Numbers *)

Lemma digit_text_in B up d :
  B ≠ UACPI_BASE_AUTO → 0 ≤ d < base_value B →
  0 ≤ digit_text (base_value B) up d < 256 ∧ digit_in (base_value B) (digit_text (base_value B) up d) = Some d.
Proof.
  intros HB Hd. pose proof (base_value_bounds B HB).
  assert (∀ n : nat, (n < 16)%nat → Z.of_nat n < base_value B →
    0 ≤ digit_text (base_value B) up (Z.of_nat n) < 256 ∧
    digit_in (base_value B) (digit_text (base_value B) up (Z.of_nat n)) = Some (Z.of_nat n)) as Hall.
  { intros n Hn Hb. do 16 (destruct n as [|n]; [destruct B, up; simpl in Hb; try lia; try done; vm_compute;
      (split; [split; [discriminate|reflexivity]|reflexivity])|]). lia. }
  rewrite <-(Z2Nat.id d) by lia. apply Hall; lia.
Qed.

Lemma numeral_value_rev b ds : numeral_value b 0 (rev ds) = foldr (λ d n, n * b + d) 0 ds.
Proof. unfold numeral_value. induction ds as [|d ds IH]; simpl; [done|]. rewrite foldl_app. simpl. by rewrite IH. Qed.

Lemma number_text_digits B up v :
  B ≠ UACPI_BASE_AUTO → 0 ≤ v < 2 ^ 64 →
  is_digits B (number_text (base_value B) up v) (rev (digits 64 (base_value B) v)) ∧
  numeral_value (base_value B) 0 (rev (digits 64 (base_value B) v)) = v.
Proof.
  intros HB Hv. pose proof (base_value_bounds B HB). pose proof (u64_pow64 (base_value B) ltac:(lia)).
  destruct (digits_value 64 (base_value B) v) as [Hval Hr]; [lia|lia|]. split; [|by rewrite numeral_value_rev].
  unfold is_digits, number_text. clear Hval. induction Hr as [|d ds Hd _ IH]; cbn [map rev]; [constructor|].
  apply Forall2_app; [done|]. constructor; [by apply digit_text_in|constructor].
Qed.

Lemma digit_run_app cs rest :
  Forall (λ c, is_digit c = true) cs → is_digit (hd 0 rest) = false → digit_run (cs ++ rest) = (length cs, rest).
Proof.
  intros Hcs Hr. induction Hcs as [|c cs Hc _ IH]; cbn [app digit_run length].
  - destruct rest as [|c rest]; [done|]. cbn [digit_run]. cbn [hd] in Hr. by rewrite Hr.
  - by rewrite Hc, IH.
Qed.

Lemma decimal_digits n : 0 ≤ n < 2 ^ 64 → Forall (λ c, is_digit c = true) (decimal n).
Proof.
  intros Hn. unfold decimal. destruct (number_text_digits UACPI_BASE_DEC false n) as [Hd _]; [done|done|].
  change (base_value UACPI_BASE_DEC) with 10 in Hd.
  induction Hd as [|c d cs ds [Hc Hd] _ IH]; constructor; [|done].
  revert Hd. clear. unfold digit_in, digit_of, in_class, is_digit.
  destruct ((ch "0" <=? c) && (c <=? ch "9")) eqn:E; [done|].
  change (ch "a") with 97. change (ch "f") with 102. change (ch "A") with 65. change (ch "F") with 70.
  repeat case_match; intros; simplify_eq; simpl in *; lia.
Qed.

Lemma decimal_length n : (0 < length (decimal n))%nat.
Proof. unfold decimal, number_text. rewrite length_rev, length_map. apply digits_length_pos. Qed.

Lemma decimal_short n : 0 ≤ n < 2 ^ 64 → (length (decimal n) ≤ 22)%nat.
Proof.
  intros. unfold decimal, number_text. rewrite length_rev, length_map.
  apply digits_length; [lia| |lia]. simpl. lia.
Qed.

(** Digits that are printed are read back. *)
Lemma string_to_integer_number B up v rest n :
  B ≠ UACPI_BASE_AUTO → 0 ≤ v < 2 ^ 64 → Z.of_nat (length (number_text (base_value B) up v)) ≤ n < 2 ^ 64 →
  (n = Z.of_nat (length (number_text (base_value B) up v)) ∨ hd 0 rest = 0) →
  uacpi_string_to_integer (number_text (base_value B) up v ++ rest) n B = Ok (UACPI_STATUS_OK, v).
Proof.
  intros HB Hv Hn He. destruct (number_text_digits B up v HB Hv) as [Hd Hval].
  pose proof (string_to_integer_numeral B B [] None [] _ _ rest n (Forall_nil_2 _) Hd (prefixed_given _ _ HB)) as H.
  cbv zeta in H. cbn [sign_chars app] in H. rewrite Hval in H. apply H; [done|done|lia|done].
Qed.

Lemma parse_number_decimal n rest mode :
  0 ≤ n < 2 ^ 64 → is_digit (hd 0 rest) = false →
  parse_number (decimal n ++ rest) mode = Ok (Some (rest, Some n)).
Proof.
  intros Hn Hr. unfold parse_number, consume_digits.
  rewrite digit_run_app by (done || by apply decimal_digits).
  pose proof (decimal_length n). pose proof (decimal_short n Hn).
  rewrite (proj2 (Nat.eqb_neq _ 0)) by lia.
  unfold decimal. rewrite (string_to_integer_number UACPI_BASE_DEC); [done|done|done| |by left].
  unfold decimal in *. change (base_value UACPI_BASE_DEC) with 10. lia.
Qed.

Lemma parse_number_none rest : is_digit (hd 0 rest) = false →
  parse_number rest PARSE_NUMBER_MODE_MAYBE = Ok (Some (rest, None)).
Proof.
  intros Hr. unfold parse_number, consume_digits. pose proof (digit_run_app [] rest (Forall_nil_2 _) Hr) as E. simpl in E. by rewrite E.
Qed.

(** The first character of a literal width. *)
Lemma decimal_hd n : 1 ≤ n < 2 ^ 64 → ∃ d, 1 ≤ d < 10 ∧ hd 0 (decimal n) = ch "0" + d.
Proof.
  intros Hn. pose proof (u64_pow64 10 ltac:(lia)).
  destruct (digits_value 64 10 n) as [_ Hr]; [lia|lia|].
  destruct (digits_last 64 10 n) as (d & Hd & Hd0); [lia|lia|].
  apply last_Some in Hd as [ds Hds].
  exists d. rewrite Hds in Hr. apply Forall_app in Hr as [_ Hr]. inversion_clear Hr.
  split; [lia|]. unfold decimal, number_text. rewrite Hds, map_app, rev_app_distr. done.
Qed.

(** The character after the flags or after the width. *)
Definition stops (c : Z) : Prop := is_digit c = false ∧ (c ∉ FLAGS) ∧ c ≠ ch "*".

Lemma conv_stops cv rest : stops (hd 0 (show_conv cv ++ rest)) ∧ hd 0 (show_conv cv ++ rest) ≠ ch ".".
Proof.
  destruct cv as [| | |[] []]; (split; [split; [reflexivity|split; [|discriminate]]|discriminate]);
    apply (bool_decide_eq_false_1 _); vm_compute; reflexivity.
Qed.

Lemma prec_stops p cv rest : stops (hd 0 (show_prec p ++ show_conv cv ++ rest)).
Proof.
  destruct p; [apply conv_stops|..]; (split; [reflexivity|split; [|discriminate]]);
    apply (bool_decide_eq_false_1 _); vm_compute; reflexivity.
Qed.

Lemma width_no_flag w p cv rest :
  num_ok 1 w → hd 0 (show_width w ++ show_prec p ++ show_conv cv ++ rest) ∉ FLAGS.
Proof.
  intros Hw. destruct w as [|n|]; [apply prec_stops| |apply (bool_decide_eq_false_1 _); vm_compute; reflexivity].
  destruct (decimal_hd n Hw) as (d & Hd & Eh). cbn [show_width].
  assert (hd 0 (decimal n ++ show_prec p ++ show_conv cv ++ rest) = ch "0" + d) as ->.
  { rewrite <-Eh. pose proof (decimal_length n). destruct (decimal n); [simpl in *; lia|done]. }
  change (ch "0") with 48. unfold FLAGS. vm_compute chars. rewrite !elem_of_cons, elem_of_nil. lia.
Qed.

(** ** Directives *)

Lemma consume_star rest : consume (chars "*" ++ rest) (chars "*") = Some rest.
Proof. apply consume_app; [repeat constructor; done|done|done]. Qed.

Lemma with_width_zero fl : with_width 0 (flag_spec fl) = flag_spec fl.
Proof. done. Qed.

Lemma read_width_ok w rest args fl x args' :
  num_ok 1 w → stops (hd 0 rest) → num_arg w args = Some (x, args') →
  read_width (show_width w ++ rest) args (flag_spec fl) = Ok (Some (rest, args', with_width x (flag_spec fl))).
Proof.
  intros Hw (Hd & _ & Hs) Hx. unfold read_width. destruct w as [|n|]; cbn [show_width app num_arg] in *.
  - simplify_eq. rewrite consume_hd_none by done. by rewrite parse_number_none.
  - simplify_eq. destruct (decimal_hd x Hw) as (d & Hd9 & Eh). rewrite consume_hd_none.
    + by rewrite parse_number_decimal by (done || simpl in Hw; lia).
    + done.
    + pose proof (decimal_length x). destruct (decimal x); [simpl in *; lia|].
      simpl in Eh |- *. rewrite Eh. change (ch "0") with 48. lia.
  - change (consume (ch "*" :: rest) _) with (consume (chars "*" ++ rest) (chars "*")). rewrite consume_star.
    destruct (va_int args) as [r| | |]; [|done..]. cbn. by simplify_eq.
Qed.

Lemma read_precision_ok p cv rest args fm x args' :
  num_ok 0 p → num_arg p args = Some (x, args') →
  read_precision (show_prec p ++ show_conv cv ++ rest) args fm =
  Ok (Some (show_conv cv ++ rest, args', prec_spec p x fm)).
Proof.
  intros Hp Hx. destruct (conv_stops cv rest) as [(Hd & _ & Hs) Hdot]. unfold read_precision.
  destruct p as [|n|]; cbn [show_prec show_width app num_arg prec_spec] in *.
  - simplify_eq. by rewrite consume_hd_none.
  - simplify_eq. change (ch "." :: decimal x ++ show_conv cv ++ rest) with (chars "." ++ decimal x ++ show_conv cv ++ rest).
    rewrite consume_app by token.
    rewrite consume_hd_none; [by rewrite parse_number_decimal|done|].
    pose proof (decimal_length x) as Hl. pose proof (decimal_digits x Hp) as Hds.
    destruct (decimal x) as [|c l]; [simpl in Hl; lia|]. simpl. inversion_clear Hds as [|? ? Hc _].
    by intros ->.
  - change (ch "." :: chars "*" ++ show_conv cv ++ rest) with (chars "." ++ chars "*" ++ show_conv cv ++ rest).
    rewrite consume_app by token. rewrite consume_star.
    destruct (va_int args) as [r| | |]; [|done..]. cbn. by simplify_eq.
Qed.

Lemma consume_length_ok len s rest :
  consume_length (show_len len ++ spec_char s :: rest) = (len_width len, spec_char s :: rest).
Proof.
  unfold consume_length. destruct len, s;
    repeat first
      [ reflexivity
      | rewrite consume_hd_none by discriminate
      | rewrite consume_snd_none by discriminate
      | rewrite (consume_app (chars "hh")) by token ].
Qed.

Lemma read_integer_ok len s rest args fm w args' :
  va_word args = Ok (w, args') →
  read_integer (len_width len) (spec_char s :: rest) args fm =
  Ok (Some (rest, args', if spec_signed s then with_sign fm else fm, if spec_signed s then 0 else spec_char s,
    integer_arg len s w)).
Proof.
  intros Hw. unfold read_integer.
  destruct s; cbn [spec_char spec_signed];
    rewrite ?(consume_hd_none _ (chars "d")), ?(consume_hd_none _ (chars "i")) by discriminate;
    try (change (ch "d" :: rest) with (chars "d" ++ rest)); try (change (ch "i" :: rest) with (chars "i" ++ rest));
    rewrite ?consume_app by token; try (rewrite (consume_hd_none _ (chars "d")) by discriminate);
    try (rewrite (consume_hd_none _ (chars "i")) by discriminate); cbn; rewrite Hw; done.
Qed.

Lemma integer_arg_range len s w : 0 ≤ integer_arg len s w < 2 ^ 64.
Proof.
  unfold integer_arg. destruct (spec_signed s); [apply wrap_range; lia|].
  pose proof (wrap_range (len_width len) w ltac:(destruct len; simpl; lia)).
  assert (2 ^ len_width len ≤ 2 ^ 64) by (apply Z.pow_le_mono_r; destruct len; simpl; lia). lia.
Qed.

Lemma va_word_range args w args' : va_word args = Ok (w, args') → 0 ≤ w < 2 ^ 64.
Proof. destruct args as [|[]]; simpl; intros [= <- <-]; apply wrap_range; lia. Qed.

(** The specification of the conversion that the flags, the width and the
    precision leave open. *)
Definition plain_spec (fm : fmt_spec) : Prop := with_base 10 false fm = fm.

Lemma specifier_base s fm :
  spec_signed s = false →
  with_base (base_from_specifier (spec_char s)) (is_uppercase_specifier (spec_char s)) fm = integer_spec s fm.
Proof. by destruct s. Qed.

Lemma integer_spec_base s fm : base_ok (integer_spec s fm).
Proof. unfold base_ok. destruct s; simpl; auto. Qed.

Lemma integer_out_emits junk fm v out :
  length junk = REPR_BUFFER_SIZE → base_ok fm → 0 ≤ v < 2 ^ 64 → integer_out fm v = Some out →
  appends (λ fb, write_integer junk fb fm v) out.
Proof.
  intros Hj Hb Hv. unfold integer_out. destruct (Z.eqb_spec (integer_value fm v) (- 2 ^ 63)); [done|].
  intros [= <-]. by apply appends_integer.
Qed.

Lemma conversion_ok junk cv rest args fm b t out args' :
  length junk = REPR_BUFFER_SIZE → plain_spec fm → 0 ≤ precision fm →
  conv_text cv fm args = Some (out, args') → Z.of_nat (length t + length out) < 2 ^ 64 →
  conversion junk (show_conv cv ++ rest) args fm (wrote b t) = Ok (Some (rest, args', wrote b (t ++ out))).
Proof.
  intros Hj Hplain Hp Ht Hl. unfold conversion.
  assert (uppercase fm = false) as Hup by (rewrite <-Hplain; done).
  destruct cv as [| | |len s]; cbn [show_conv conv_text] in *.
  - rewrite consume_app by token. destruct (va_word args) as [[w a]| | |]; [|done..]. simplify_eq.
    cbn [mbind res_bind fst snd]. by rewrite appends_one.
  - rewrite (consume_hd_none _ (chars "c")), consume_app by token.
    destruct (va_cstring args) as [[w a]| | |]; [|done..]. simplify_eq.
    cbn [mbind res_bind fst snd]. by rewrite appends_string.
  - rewrite (consume_hd_none _ (chars "c")), (consume_hd_none _ (chars "s")), consume_app by token.
    destruct (va_word args) as [[w a]| | |] eqn:Ew; [|done..].
    apply fmap_Some in Ht as (o & Ho & [= -> ->]). cbn [mbind res_bind fst snd]. rewrite Hup.
    change (UACPI_POINTER_SIZE * 2) with 16.
    rewrite (integer_out_emits junk _ w o Hj) by (done || (right; right; done) || by eapply va_word_range). done.
  - destruct (va_word args) as [[w a]| | |] eqn:Ew; [|done..].
    apply fmap_Some in Ht as (o & Ho & [= -> ->]).
    rewrite <-(assoc_L (++)). cbn [app].
    rewrite (consume_hd_none _ (chars "c")), (consume_hd_none _ (chars "s")), (consume_hd_none _ (chars "p"))
      by (destruct len, s; discriminate).
    rewrite consume_length_ok. unfold try. rewrite (read_integer_ok len s rest args fm w a) by done.
    cbn [mbind res_bind].
    assert ((if negb ((if spec_signed s then 0 else spec_char s) =? 0) then
        with_base (base_from_specifier (if spec_signed s then 0 else spec_char s))
          (is_uppercase_specifier (if spec_signed s then 0 else spec_char s)) (if spec_signed s then with_sign fm else fm)
        else (if spec_signed s then with_sign fm else fm)) = integer_spec s fm) as ->.
    { destruct s; cbn; try done; unfold integer_spec; cbn; by rewrite Hplain. }
    by rewrite (integer_out_emits junk _ _ o Hj (integer_spec_base s fm) (integer_arg_range len s w) Ho).
Qed.

Lemma num_arg_range lo n args x args' : 0 ≤ lo → num_ok lo n → num_arg n args = Some (x, args') → 0 ≤ x < 2 ^ 64.
Proof.
  intros Hlo Hn. destruct n as [|n|]; simpl in *; [by intros [= <- <-]|intros [= <- <-]; lia|].
  unfold va_int. destruct (va_word args) as [[w a]| | |]; simpl; [|done..]. intros [= <- <-].
  apply wrap_range. lia.
Qed.

Lemma directive_show_ok junk d rest args b t out args' :
  length junk = REPR_BUFFER_SIZE → dir_ok d → dir_text d args = Some (out, args') →
  Z.of_nat (length t + length out) < 2 ^ 64 →
  directive junk (show_dir d ++ rest) args (wrote b t) = Ok (Some (rest, args', wrote b (t ++ out))).
Proof.
  intros Hj (Hfl & Hw & Hp) Ht Hl. destruct d as [fl w p cv]. cbn [d_flags d_width d_prec d_conv] in *.
  unfold dir_text in Ht. cbn [d_flags d_width d_prec d_conv] in Ht.
  apply bind_Some in Ht as ([x a1] & Hx & Ht). apply bind_Some in Ht as ([y a2] & Hy & Ht). cbn [fst snd] in *.
  unfold directive, show_dir. cbn [d_flags d_width d_prec d_conv]. rewrite <-!(assoc_L (++)).
  rewrite consume_flags_app by (done || by apply width_no_flag). rewrite flags_fold by done.
  unfold try at 1. rewrite (read_width_ok w _ args fl x a1) by (done || apply prec_stops).
  cbn [mbind res_bind]. unfold try. rewrite (read_precision_ok p cv rest a1 _ y a2) by done.
  cbn [mbind res_bind].
  apply conversion_ok; [done|by destruct p| |done|done].
  pose proof (num_arg_range 0 p a1 y a2 ltac:(lia) Hp Hy). destruct p; simpl; lia.
Qed.

(** ** Whole formats *)

Inductive fmt_item := Percent | Dir (d : fmt_dir).

(** Literals, each followed by a percent sign or a directive, and a last
    literal. *)
Record format := MkFormat { items : list (list Z * fmt_item); last_literal : list Z }.

Definition show_item (i : fmt_item) : list Z :=
  ch "%" :: match i with Percent => [ch "%"] | Dir d => show_dir d end.

Fixpoint show_items (l : list (list Z * fmt_item)) (r : list Z) : list Z :=
  match l with [] => r | (lit, i) :: l' => lit ++ show_item i ++ show_items l' r end.

Definition show_format (f : format) : list Z := show_items (items f) (last_literal f).

Definition literal_ok (lit : list Z) : Prop := Forall (λ c, c ≠ 0 ∧ c ≠ ch "%") lit.
Definition item_ok (i : fmt_item) : Prop := match i with Percent => True | Dir d => dir_ok d end.
Definition format_ok (f : format) : Prop :=
  Forall (λ li, literal_ok li.1 ∧ item_ok li.2) (items f) ∧ literal_ok (last_literal f).

Definition item_text (i : fmt_item) (args : list va_slot) : option (list Z * list va_slot) :=
  match i with Percent => Some ([ch "%"], args) | Dir d => dir_text d args end.

Fixpoint items_text (l : list (list Z * fmt_item)) (r : list Z) (args : list va_slot) : option (list Z) :=
  match l with
  | [] => Some r
  | (lit, i) :: l' =>
      o ← item_text i args;
      rest ← items_text l' r o.2;
      Some (lit ++ o.1 ++ rest)
  end.

Definition format_text (f : format) (args : list va_slot) : option (list Z) :=
  items_text (items f) (last_literal f) args.

(** The buffer afterwards: as much of the text as fits before a final zero. *)
Definition stored (out buf : list Z) : list Z :=
  if (length buf =? 0)%nat then buf
  else let k := Nat.min (length out) (length buf - 1) in
       map (wrap 8) (take k out) ++ 0 :: drop (S k) buf.

Lemma find_next_percent lit r :
  literal_ok lit → find_next_conversion (lit ++ ch "%" :: r) = (length lit, true).
Proof.
  induction 1 as [|c lit [H0 Hc] _ IH]; [done|]. cbn [app find_next_conversion length].
  by rewrite (proj2 (Z.eqb_neq c 0)), (proj2 (Z.eqb_neq c _)), IH by done.
Qed.

Lemma find_next_none lit : literal_ok lit → find_next_conversion lit = (length lit, false).
Proof.
  induction 1 as [|c lit [H0 Hc] _ IH]; [done|]. cbn [app find_next_conversion length].
  by rewrite (proj2 (Z.eqb_neq c 0)), (proj2 (Z.eqb_neq c _)), IH by done.
Qed.

Lemma appends_literal lit r :
  appends (λ fb, if (length lit =? 0)%nat then Ok fb else write_many fb (lit ++ r) (Z.of_nat (length lit))) lit.
Proof.
  destruct (Nat.eqb_spec (length lit) 0) as [E|E].
  - destruct lit; [apply appends_nil|done].
  - eapply appends_eq; [apply appends_many; rewrite length_app; lia|].
    by rewrite Nat2Z.id, take_app_length.
Qed.

Lemma show_dir_hd d rest : dir_ok d → hd 0 (show_dir d ++ rest) ≠ ch "%".
Proof.
  intros (Hfl & Hw & Hp). unfold show_dir. rewrite <-!(assoc_L (++)). destruct (d_flags d) as [|c fl].
  - pose proof (width_no_flag (d_width d) (d_prec d) (d_conv d) rest Hw). simpl.
    destruct (d_width d) as [|n|]; cbn [show_width] in *; [|destruct (decimal_hd n Hw) as (x & Hx & E)|done].
    + destruct (d_prec d); [|done..]. by destruct (d_conv d) as [| | |[] []].
    + pose proof (decimal_length n). destruct (decimal n); [simpl in *; lia|]. simpl in E |- *. rewrite E.
      change (ch "0") with 48. change (ch "%") with 37. lia.
  - inversion_clear Hfl. simpl. intros ->. unfold FLAGS in *.
    by match goal with H : _ ∈ _ |- _ => apply (bool_decide_eq_true_2 _) in H; vm_compute in H end.
Qed.

(** The last literal. *)
Lemma loop_last junk r args fuel b t :
  literal_ok r → Z.of_nat (length t + length r) < 2 ^ 64 → (length r ≤ fuel)%nat →
  vsnprintf_loop fuel junk r args (wrote b t) = Ok (true, wrote b (t ++ r)).
Proof.
  intros Hr Hlen Hf. destruct r as [|c r].
  { destruct fuel; cbn [vsnprintf_loop hd Z.eqb]; by rewrite app_nil_r. }
  destruct fuel as [|fuel]; [simpl in Hf; lia|]. cbn [vsnprintf_loop hd].
  inversion Hr as [|? ? [H0 _] _]; subst. rewrite (proj2 (Z.eqb_neq c 0)) by done.
  rewrite find_next_none by done.
  pose proof (appends_literal (c :: r) [] b t Hlen) as E. rewrite app_nil_r in E. by rewrite E.
Qed.

Lemma loop_ok junk l r args out fuel b t :
  length junk = REPR_BUFFER_SIZE →
  Forall (λ li, literal_ok li.1 ∧ item_ok li.2) l → literal_ok r → items_text l r args = Some out →
  Z.of_nat (length t + length out) < 2 ^ 64 → (length (show_items l r) ≤ fuel)%nat →
  vsnprintf_loop fuel junk (show_items l r) args (wrote b t) = Ok (true, wrote b (t ++ out)).
Proof.
  intros Hj Hl Hr. revert args out fuel t. induction Hl as [|[lit i] l [Hlit Hi] _ IH]; intros args out fuel t Ht Hlen Hf.
  { cbn [show_items items_text] in *. simplify_eq. by apply loop_last. }
  cbn [show_items items_text fst snd] in *.
  apply bind_Some in Ht as ([o a] & Ho & Ht). apply bind_Some in Ht as (rest & Ht & [= <-]). cbn [fst snd] in *.
  rewrite !length_app in Hlen. rewrite length_app in Hf.
  destruct fuel as [|fuel]; [simpl in Hf; lia|].
  cbn [vsnprintf_loop]. rewrite (proj2 (Z.eqb_neq _ 0)).
  2: { destruct lit as [|c lit]; [done|]. by inversion Hlit as [|? ? [H0 _] _]; subst. }
  unfold show_item. cbn [app]. rewrite find_next_percent by done.
  rewrite (appends_literal lit _ b t) by lia. cbn [mbind res_bind negb].
  rewrite drop_app_length. cbn [tail].
  assert (Z.of_nat (length ((t ++ lit) ++ o) + length rest) < 2 ^ 64) as Hlen' by (rewrite !length_app; lia).
  rewrite !(assoc_L (++)). unfold show_item in Hf.
  destruct i as [|d]; cbn [item_text] in Ho.
  - simplify_eq. change (ch "%" :: [ch "%"] ++ show_items l r) with (chars "%%" ++ show_items l r).
    rewrite consume_app by token. rewrite appends_one by (rewrite !length_app in *; simpl in *; lia).
    cbn [mbind res_bind]. apply IH; [done|done|]. simpl in Hf. lia.
  - rewrite consume_snd_none by (done || by apply show_dir_hd).
    rewrite (directive_show_ok junk d _ args b _ o a) by (done || rewrite !length_app in *; lia).
    cbn [mbind res_bind]. apply IH; [done|done|]. rewrite length_app in Hf. simpl in Hf.
    rewrite ?length_app in Hf. lia.
Qed.

Lemma terminate_wrote b t : terminate (wrote b t) = Ok (stored t b).
Proof.
  unfold terminate, wrote, stored. cbn [capacity bytes_written buffer].
  destruct (Nat.eqb_spec (length b) 0) as [E|E].
  { rewrite E. simpl negb. cbv iota. f_equal. destruct b; [|done]. unfold overlay. simpl. by rewrite drop_nil. }
  rewrite (proj2 (Z.eqb_neq _ 0)) by lia. simpl negb. cbv iota zeta.
  replace (Z.to_nat (Z.min (Z.of_nat (length t)) (Z.of_nat (length b) - 1))) with (Nat.min (length t) (length b - 1)) by lia.
  set (k := Nat.min _ _). assert (k < length b)%nat as Hk by (unfold k; lia).
  unfold buf_set. rewrite overlay_length. rewrite (proj2 (Nat.ltb_lt _ _)) by done. f_equal.
  assert (take k (overlay (map (wrap 8) t) b) = map (wrap 8) (take k t)) as E1.
  { unfold overlay. rewrite take_app_le by (rewrite length_take, length_map; lia).
    rewrite take_take, Nat.min_l by lia. apply firstn_map. }
  assert (drop (S k) (overlay (map (wrap 8) t) b) = drop (S k) b) as E2.
  { unfold overlay. rewrite length_map. destruct (Nat.le_gt_cases (length b) (length t)) as [Hle|Hgt].
    - rewrite !drop_ge; [done|lia|rewrite length_app, length_take, length_drop; lia].
    - rewrite take_ge by (rewrite length_map; lia). rewrite skipn_app, drop_ge by (rewrite length_map; lia).
      rewrite length_map. simpl. rewrite drop_drop. f_equal. lia. }
  rewrite insert_take_drop by (by rewrite overlay_length). by rewrite E1, E2.
Qed.

Lemma vsnprintf_stores junk buf f args out :
  length junk = REPR_BUFFER_SIZE → format_ok f → format_text f args = Some out →
  Z.of_nat (length out) < 2 ^ 31 →
  uacpi_vsnprintf junk buf (Z.of_nat (length buf)) (show_format f) args =
  Ok (Z.of_nat (length out), stored out buf).
Proof.
  intros Hj [Hi Hr] Ht Hl. unfold uacpi_vsnprintf.
  replace (MkFb buf (Z.of_nat (length buf)) 0) with (wrote buf []).
  2: { unfold wrote, overlay. simpl. by rewrite take_nil. }
  unfold show_format. rewrite (loop_ok junk _ _ args out) by (done || simpl; lia).
  cbn [mbind res_bind negb app]. rewrite terminate_wrote. cbn [mbind res_bind].
  do 2 f_equal. cbn [bytes_written wrote]. unfold sint. rewrite wrap_small by lia.
  by rewrite (proj2 (Z.ltb_lt _ _)) by lia.
Qed.

(** ** Theorems *)

(** C23: [uacpi_vsnprintf] prints what the directives of its format say: for
    every format made of literals and directives, arguments that fit them and
    a buffer of any size (none included), the result is the length of the
    text, and the buffer holds as much of the text as there is room for
    before a final zero; the rest of the buffer does not change. *)
Theorem uacpi_vsnprintf_prints junk buf f args out :
  length junk = REPR_BUFFER_SIZE → format_ok f → format_text f args = Some out →
  Z.of_nat (length out) < 2 ^ 31 →
  uacpi_vsnprintf junk buf (Z.of_nat (length buf)) (show_format f) args =
  Ok (Z.of_nat (length out), stored out buf).
Proof. apply vsnprintf_stores. Qed.

(** ** Termination *)

Lemma write_one_bounded fb c : write_one fb c ≠ NoFuel.
Proof. apply res_bind_bounded; [|done]. case_match; [apply buf_set_bounded|done]. Qed.

Lemma copy_to_bounded i cs b : copy_to i cs b ≠ NoFuel.
Proof.
  revert i b. induction cs as [|c cs IH]; intros i b; simpl; [done|].
  apply res_bind_bounded; [apply buf_set_bounded|intros; apply IH].
Qed.

Lemma write_many_bounded fb str count : write_many fb str count ≠ NoFuel.
Proof. apply res_bind_bounded; [|done]. case_match; [apply copy_to_bounded|done]. Qed.

Lemma write_times_bounded n fb c : write_times n fb c ≠ NoFuel.
Proof.
  revert fb. induction n as [|n IH]; intros fb; simpl; [done|].
  apply res_bind_bounded; [apply write_one_bounded|intros; apply IH].
Qed.

Lemma write_padding_bounded fb fm n : write_padding fb fm n ≠ NoFuel.
Proof. unfold write_padding. cbv zeta. case_match; [done|apply write_times_bounded]. Qed.

Lemma repr_push_bounded c st : repr_push c st ≠ NoFuel.
Proof. unfold repr_push. case_match; [done|]. apply res_bind_bounded; [apply buf_set_bounded|done]. Qed.

Lemma repr_loop_bounded fuel fm v st :
  2 ≤ base fm → 0 ≤ v < 2 ^ Z.of_nat fuel → repr_loop fuel fm v st ≠ NoFuel.
Proof.
  intros Hb. revert v st. induction fuel as [|fuel IH]; intros v st Hv; cbn [repr_loop].
  { simpl in Hv. by rewrite (proj2 (Z.eqb_eq v 0)) by lia. }
  case_match; [done|]. apply res_bind_bounded; [apply repr_push_bounded|]. intros st' _. apply IH.
  rewrite Nat2Z.inj_succ, Z.pow_succ_r in Hv by lia.
  split; [apply Z.div_pos; lia|]. apply Z.div_lt_upper_bound; [lia|].
  assert (0 < 2 ^ Z.of_nat fuel) by (apply Z.pow_pos_nonneg; lia). nia.
Qed.

Lemma repr_alternate_bounded fm st : repr_alternate fm st ≠ NoFuel.
Proof.
  unfold repr_alternate. repeat case_match; try done; try apply repr_push_bounded;
    (apply res_bind_bounded; [apply repr_push_bounded|intros; apply repr_push_bounded]).
Qed.

Lemma write_integer_bounded junk fb fm v :
  2 ≤ base fm → 0 ≤ v < 2 ^ 64 → write_integer junk fb fm v ≠ NoFuel.
Proof.
  intros Hb Hv. unfold write_integer. cbv zeta.
  apply res_bind_bounded; [repeat case_match; done|]. intros v' Ev.
  assert (0 ≤ v' < 2 ^ 64) as Hv'.
  { repeat case_match; simplify_eq; [apply wrap_range; lia|done]. }
  apply res_bind_bounded; [repeat case_match; first [apply write_one_bounded|done]|]. intros fb' _.
  apply res_bind_bounded; [by apply repr_loop_bounded|]. intros st _.
  apply res_bind_bounded; [destruct (_ =? _)%nat; [apply repr_push_bounded|done]|]. intros st' _.
  apply res_bind_bounded; [apply repr_alternate_bounded|]. intros st'' _.
  destruct (left_justify fm); (apply res_bind_bounded; [first [apply write_many_bounded|apply write_padding_bounded]|]);
    intros; first [apply write_many_bounded|apply write_padding_bounded].
Qed.

Lemma write_chars_bounded fb fm str i : write_chars fb fm str i ≠ NoFuel.
Proof.
  revert fb i. induction str as [|c str IH]; intros fb i; simpl; [done|]. case_match; [|done].
  apply res_bind_bounded; [apply write_one_bounded|intros; apply IH].
Qed.

Lemma write_string_bounded fb fm str : write_string fb fm str ≠ NoFuel.
Proof.
  apply res_bind_bounded; [apply write_chars_bounded|]. intros. case_match; [apply write_times_bounded|done].
Qed.

(** What is left of the format is no longer. *)
Lemma consume_length_le str tok rest : consume str tok = Some rest → (length rest ≤ length str)%nat.
Proof.
  unfold consume. cbv zeta. repeat case_match; try done. intros [= <-]. rewrite length_drop. lia.
Qed.

Lemma consume_one_of_le str l c rest : consume_one_of str l = Some (c, rest) → (length rest ≤ length str)%nat.
Proof.
  unfold consume_one_of. cbv zeta. repeat case_match; try done. intros [= <- <-]. destruct str; simpl; lia.
Qed.

Lemma consume_flags_le str fm : (length (consume_flags str fm).1 ≤ length str)%nat.
Proof.
  revert fm. induction str as [|c str IH]; intros fm; simpl.
  { by destruct (consume_one_of [] FLAGS) as [[]|]. }
  destruct (consume_one_of (c :: str) FLAGS) as [[]|]; [etransitivity; [apply IH|]; lia|done].
Qed.

Lemma digit_run_le str : (length (digit_run str).2 ≤ length str)%nat.
Proof.
  induction str as [|c str IH]; simpl; [done|]. case_match; [|done].
  destruct (digit_run str). simpl in *. lia.
Qed.

(** [r] does not run out, and what it leaves is at most [n] long. *)
Definition shrinks {A : Type} (n : nat) (len : A → nat) (r : res (option A)) : Prop :=
  match r with NoFuel => False | Ok (Some a) => (len a ≤ n)%nat | _ => True end.

Lemma shrinks_try {A B} n len len' (r : res (option A)) (k : A → res (option B)) :
  shrinks n len r → (∀ a, r = Ok (Some a) → (len a ≤ n)%nat → shrinks n len' (k a)) → shrinks n len' (try r k).
Proof. intros Hr Hk. destruct r as [[a|]| | |]; try done. by apply Hk. Qed.

Lemma shrinks_bind {A B} n len (r : res A) (k : A → res (option B)) :
  r ≠ NoFuel → (∀ a, r = Ok a → shrinks n len (k a)) → shrinks n len (r ≫= k).
Proof. intros Hr Hk. destruct r; try done. by apply Hk. Qed.

Lemma string_to_integer_bounded str n b : uacpi_string_to_integer str n b ≠ NoFuel.
Proof.
  unfold uacpi_string_to_integer. destruct (skip_spaces str n) as [str1 n1].
  destruct (consume_sign _) as [neg r1]. destruct (consume_prefix b r1) as [b1 [str2 n2]].
  destruct (digit_loop b1 str2 n2 0 0) as [[v n3] c]. destruct neg; [destruct (v =? 2 ^ 63)|]; done.
Qed.

Lemma parse_number_shrinks str mode : shrinks (length str) (λ r, length r.1) (parse_number str mode).
Proof.
  unfold parse_number, consume_digits. pose proof (digit_run_le str) as Hd.
  destruct (digit_run str) as [n rest]. simpl in Hd. destruct (n =? 0)%nat; [destruct mode; simpl; [lia|done]|].
  apply shrinks_bind; [apply string_to_integer_bounded|]. intros [st v] _. cbn [fst snd].
  destruct (decide (st = UACPI_STATUS_OK)); simpl; [lia|done].
Qed.

Lemma va_int_bounded args : va_int args ≠ NoFuel.
Proof. apply res_bind_bounded; [apply va_word_bounded|done]. Qed.

Definition left_len {A B : Type} (r : list Z * A * B) : nat := length r.1.1.

Lemma read_width_shrinks str args fm : shrinks (length str) left_len (read_width str args fm).
Proof.
  unfold read_width. destruct (consume str (chars "*")) as [rest|] eqn:E.
  - apply shrinks_bind; [apply va_int_bounded|]. intros. simpl. by eapply consume_length_le.
  - eapply shrinks_try; [apply parse_number_shrinks|]. intros. done.
Qed.

Lemma read_precision_shrinks str args fm : shrinks (length str) left_len (read_precision str args fm).
Proof.
  unfold read_precision. destruct (consume str (chars ".")) as [rest|] eqn:E; [|unfold shrinks, left_len; simpl; lia].
  apply consume_length_le in E. destruct (consume rest (chars "*")) as [rest'|] eqn:E'.
  - apply consume_length_le in E'. apply shrinks_bind; [apply va_int_bounded|]. intros. unfold shrinks, left_len. simpl. lia.
  - pose proof (parse_number_shrinks rest PARSE_NUMBER_MODE_MUST) as H. unfold try, shrinks in *.
    destruct (parse_number rest _) as [[r|]| | |]; simpl in *; try done. unfold left_len. simpl. lia.
Qed.

Lemma consume_length_shrinks str : (length (consume_length str).2 ≤ length str)%nat.
Proof.
  unfold consume_length.
  repeat match goal with |- context [consume str ?t] =>
    let E := fresh in destruct (consume str t) eqn:E; [apply consume_length_le in E; done|] end. simpl. lia.
Qed.

(** A value of 64 bits and a base that the formatter knows. *)
Lemma read_integer_shrinks w str args fm :
  0 ≤ w ≤ 64 → base fm = 10 →
  match read_integer w str args fm with
  | NoFuel => False
  | Ok (Some (rest, _, fm', flag, v)) =>
      (length rest ≤ length str)%nat ∧ 0 ≤ v < 2 ^ 64 ∧ base fm' = 10
  | _ => True
  end.
Proof.
  intros Hw Hb. unfold read_integer. pose proof (va_word_bounded args) as Hva.
  assert (∀ x, 0 ≤ wrap w x < 2 ^ 64) as Hwr.
  { intros x. pose proof (wrap_range w x ltac:(lia)).
    assert (2 ^ w ≤ 2 ^ 64) by (apply Z.pow_le_mono_r; lia). lia. }
  destruct (consume str (chars "d")) eqn:E1; [|destruct (consume str (chars "i")) eqn:E2].
  - apply consume_length_le in E1. destruct (va_word args) as [[]| | |]; simpl; try done.
    split; [done|]. split; [apply wrap_range; lia|done].
  - apply consume_length_le in E2. destruct (va_word args) as [[]| | |]; simpl; try done.
    split; [done|]. split; [apply wrap_range; lia|done].
  - destruct (consume_one_of str (chars "oxXu")) as [[c rest]|] eqn:E3; [|done].
    apply consume_one_of_le in E3. destruct (va_word args) as [[]| | |]; simpl; try done; auto.
Qed.

Lemma base_from_specifier_bound c : 2 ≤ base_from_specifier c.
Proof. unfold base_from_specifier. repeat case_match; lia. Qed.

Lemma conversion_shrinks junk str args fm fb :
  base fm = 10 → shrinks (length str) left_len (conversion junk str args fm fb).
Proof.
  intros Hb. unfold conversion. pose proof (va_word_bounded args) as Hva.
  destruct (consume str (chars "c")) eqn:E1; [|destruct (consume str (chars "s")) eqn:E2;
    [|destruct (consume str (chars "p")) eqn:E3]].
  - apply consume_length_le in E1. apply shrinks_bind; [done|]. intros a _.
    apply shrinks_bind; [apply write_one_bounded|]. done.
  - apply consume_length_le in E2. apply shrinks_bind; [unfold va_cstring; repeat case_match; done|]. intros a _.
    apply shrinks_bind; [apply write_string_bounded|]. done.
  - apply consume_length_le in E3. apply shrinks_bind; [done|]. intros [w a] Ew.
    apply shrinks_bind; [|done]. apply write_integer_bounded; [simpl; lia|by eapply va_word_range].
  - pose proof (consume_length_shrinks str) as Hl.
    assert (0 ≤ (consume_length str).1 ≤ 64) as Hw by (unfold consume_length; repeat case_match; simpl; lia).
    destruct (consume_length str) as [w rest]. simpl in Hl, Hw.
    pose proof (read_integer_shrinks w rest args fm Hw Hb) as Hr. unfold try.
    destruct (read_integer w rest args fm) as [[[[[[rest' a] fm'] flag] v]|]| | |]; simpl; try done.
    destruct Hr as (Hr & Hv & Hb'). apply shrinks_bind; [|intros; unfold shrinks, left_len; simpl; lia].
    apply write_integer_bounded; [|done]. case_match; [apply base_from_specifier_bound|rewrite Hb'; lia].
Qed.

Lemma consume_flags_base str fm : base (consume_flags str fm).2 = base fm.
Proof.
  revert fm. induction str as [|c str IH]; intros fm; simpl.
  { by destruct (consume_one_of [] FLAGS) as [[]|]. }
  destruct (consume_one_of (c :: str) FLAGS) as [[]|]; [|done]. rewrite IH. unfold apply_flag.
  repeat case_match; done.
Qed.

Lemma directive_shrinks junk str args fb : shrinks (length str) left_len (directive junk str args fb).
Proof.
  unfold directive. pose proof (consume_flags_le str fm_init) as Hl. pose proof (consume_flags_base str fm_init) as Hb.
  destruct (consume_flags str fm_init) as [s1 fm1]. simpl in Hl, Hb.
  pose proof (read_width_shrinks s1 args fm1) as H1. unfold try at 1.
  assert (∀ s a fm, read_width s1 args fm1 = Ok (Some (s, a, fm)) → base fm = 10) as Hb1.
  { unfold read_width, try. intros s a fm. destruct (consume s1 _).
    - destruct (va_int args); simpl; intros; by simplify_eq.
    - destruct (parse_number s1 _) as [[[]|]| | |]; simpl; intros; simplify_eq; by case_match. }
  destruct (read_width s1 args fm1) as [[[[s2 a2] fm2]|]| | |]; simpl; try done.
  specialize (Hb1 _ _ _ eq_refl). simpl in H1.
  pose proof (read_precision_shrinks s2 a2 fm2) as H2. unfold try.
  assert (∀ s a fm, read_precision s2 a2 fm2 = Ok (Some (s, a, fm)) → base fm = 10) as Hb2.
  { unfold read_precision, try. intros s a fm. destruct (consume s2 _); [|intros; by simplify_eq].
    destruct (consume _ _).
    - destruct (va_int a2); simpl; intros; by simplify_eq.
    - destruct (parse_number _ _) as [[[]|]| | |]; simpl; intros; by simplify_eq. }
  destruct (read_precision s2 a2 fm2) as [[[[s3 a3] fm3]|]| | |]; simpl; try done.
  specialize (Hb2 _ _ _ eq_refl). simpl in H2. unfold left_len in H1, H2. simpl in H1, H2.
  pose proof (conversion_shrinks junk s3 a3 fm3 fb Hb2) as H3. unfold shrinks in *.
  destruct (conversion junk s3 a3 fm3 fb) as [[[[s4 a4] fb4]|]| | |]; try done.
  unfold left_len in *. simpl in *. lia.
Qed.

Lemma find_next_conversion_le str : ((find_next_conversion str).1 ≤ length str)%nat ∧
  ((find_next_conversion str).2 = true → ((find_next_conversion str).1 < length str)%nat).
Proof.
  induction str as [|c str [IH1 IH2]]; cbn [find_next_conversion]; [done|].
  repeat case_match; simpl in *; split; try lia; try done. intros ->. specialize (IH2 eq_refl). lia.
Qed.

Lemma vsnprintf_loop_bounded fuel junk str args fb :
  (length str ≤ fuel)%nat → vsnprintf_loop fuel junk str args fb ≠ NoFuel.
Proof.
  revert str args fb. induction fuel as [|fuel IH]; intros str args fb Hl.
  { destruct str; [done|simpl in Hl; lia]. }
  cbn [vsnprintf_loop]. destruct (hd 0 str =? 0); [done|].
  destruct (find_next_conversion_le str) as [_ Hn]. destruct (find_next_conversion str) as [n found]. simpl in Hn.
  apply res_bind_bounded; [destruct (n =? 0)%nat; [done|apply write_many_bounded]|]. intros fb' _.
  destruct found; [|done]. specialize (Hn eq_refl). simpl negb. cbv iota zeta.
  assert (length (tail (drop n str)) < length str)%nat as Ht.
  { pose proof (length_drop str n) as E. destruct (drop n str); simpl in *; lia. }
  destruct (consume (drop n str) (chars "%%")) as [rest|] eqn:E.
  - apply res_bind_bounded; [apply write_one_bounded|]. intros fb'' _. apply IH.
    unfold consume in E. cbv zeta in E. repeat case_match; simplify_eq. rewrite !length_drop.
    change (Z.to_nat (uacpi_strlen (chars "%%"))) with 2%nat. lia.
  - pose proof (directive_shrinks junk (tail (drop n str)) args fb') as Hs. unfold shrinks in Hs.
    destruct (directive junk _ args fb') as [[[[s a] fb'']|]| | |]; try done. simpl in *.
    apply IH. unfold left_len in Hs. simpl in Hs. lia.
Qed.

(** [uacpi_vsnprintf] terminates on every format and all arguments: the
    bound on its loop, the length of the format, and the bound on the digits
    are enough. *)
Theorem uacpi_vsnprintf_terminates junk buf cap fmt args : uacpi_vsnprintf junk buf cap fmt args ≠ NoFuel.
Proof.
  apply res_bind_bounded; [by apply vsnprintf_loop_bounded|]. intros [ok fb] _. destruct ok; simpl; [|done].
  apply res_bind_bounded; [|done]. unfold terminate. cbv zeta. case_match; [apply buf_set_bounded|done].
Qed.

(** The format of an unsigned number of 64 bits. *)
Definition number_format (s : int_spec) : format :=
  MkFormat [([], Dir (MkDir [] NoNum NoNum (ConvInt LenLL s)))] [].

Lemma number_format_text s v :
  spec_signed s = false → 0 ≤ v < 2 ^ 64 →
  format_text (number_format s) [VaWord v] = Some (number_text (spec_base s) (spec_upper s) v).
Proof.
  intros Hs Hv. unfold format_text. cbn [number_format items last_literal items_text item_text]. unfold dir_text.
  cbn [d_flags d_width d_prec d_conv num_arg mbind option_bind fst snd prec_spec conv_text va_word].
  unfold integer_out, integer_arg. rewrite Hs. cbn [len_width].
  rewrite !wrap_small by (rewrite ?wrap_small; done).
  assert (integer_value (integer_spec s (with_width 0 (flag_spec []))) v = v) as Ev
    by (unfold integer_value, integer_spec; by rewrite Hs).
  rewrite Ev, (proj2 (Z.eqb_neq _ _)) by lia. cbn [fmap option_fmap option_map mbind option_bind fst snd app].
  f_equal. rewrite app_nil_r. unfold integer_text, sign_text. rewrite Ev.
  rewrite (proj2 (Z.ltb_ge _ _)), Z.abs_eq by lia.
  unfold integer_spec. rewrite Hs. unfold field. cbn. by rewrite Z2Nat.nonpos by lia.
Qed.

(** C24: a number printed in octal, decimal or hexadecimal into a buffer with
    room for it is read back by [uacpi_string_to_integer]. *)
Theorem uacpi_print_parse_roundtrip junk buf s v B :
  length junk = REPR_BUFFER_SIZE → (23 ≤ length buf)%nat → Z.of_nat (length buf) < 2 ^ 64 → 0 ≤ v < 2 ^ 64 →
  spec_signed s = false → B ≠ UACPI_BASE_AUTO → base_value B = spec_base s →
  ∃ n buf', uacpi_vsnprintf junk buf (Z.of_nat (length buf)) (chars "%ll" ++ [spec_char s]) [VaWord v] = Ok (n, buf') ∧
    uacpi_string_to_integer buf' (Z.of_nat (length buf')) B = Ok (UACPI_STATUS_OK, v).
Proof.
  intros Hj Hb Hb64 Hv Hs HB Hbase. pose proof (number_format_text s v Hs Hv) as Ht.
  set (out := number_text (spec_base s) (spec_upper s) v) in *.
  assert (length out ≤ 22)%nat as Hlen.
  { unfold out, number_text. rewrite length_rev, length_map. apply digits_length; [destruct s; simpl; lia| |lia].
    destruct s; simpl; lia. }
  exists (Z.of_nat (length out)), (stored out buf). split.
  - rewrite <-(vsnprintf_stores junk buf (number_format s) [VaWord v] out Hj); [done| |done|lia].
    split; [|constructor]. repeat constructor.
  - unfold stored. rewrite (proj2 (Nat.eqb_neq _ 0)) by lia. cbv zeta. rewrite Nat.min_l, take_ge by lia.
    assert (map (wrap 8) out = out) as ->.
    { unfold out. rewrite <-Hbase. destruct (number_text_digits B (spec_upper s) v HB Hv) as [Hd _].
      induction Hd as [|c d cs ds [Hc _] _ IH]; simpl; [done|]. by rewrite IH, wrap_small by done. }
    unfold out in *. rewrite <-Hbase in *. rewrite length_app. simpl length. rewrite length_drop.
    apply string_to_integer_number; [done|done|lia|by right].
Qed.

Lemma uacpi_print_parse_roundtrip_witness :
  ∃ n buf', uacpi_vsnprintf (replicate 32 0) (replicate 24 170) 24 (chars "%llX") [VaWord 0xFEC00000] = Ok (n, buf') ∧
    uacpi_string_to_integer buf' (Z.of_nat (length buf')) UACPI_BASE_HEX = Ok (UACPI_STATUS_OK, 0xFEC00000).
Proof.
  apply (uacpi_print_parse_roundtrip (replicate 32 0) (replicate 24 170) SpecUpperX 0xFEC00000 UACPI_BASE_HEX);
    [reflexivity|simpl; lia|reflexivity|lia|reflexivity|discriminate|reflexivity].
Defined.

(** The message of the table code about a table of a bad size. *)
Definition bad_size_format : format :=
  MkFormat
    [(chars "invalid table '", Dir (MkDir [] NoNum (Num 4) ConvS));
     (chars "' (0x016", Dir (MkDir [] NoNum NoNum (ConvInt LenLL SpecUpperX)));
     (chars ") size: ", Dir (MkDir [] NoNum NoNum (ConvInt LenNone SpecU)))] [10].

Lemma uacpi_vsnprintf_prints_witness :
  uacpi_vsnprintf (replicate 32 0) (replicate 128 170) 128 (chars "invalid table '%.4s' (0x016%llX) size: %u" ++ [10])
    [VaStr 1 (chars "APIC0000"); VaWord 0xFEC0; VaWord 12] =
  Ok (42, chars "invalid table 'APIC' (0x016FEC0) size: 12" ++ [10; 0] ++ replicate 85 170).
Proof.
  etransitivity.
  - apply (uacpi_vsnprintf_prints (replicate 32 0) (replicate 128 170) bad_size_format
      [VaStr 1 (chars "APIC0000"); VaWord 0xFEC0; VaWord 12]
      (chars "invalid table 'APIC' (0x016FEC0) size: 12" ++ [10]));
      [reflexivity| |vm_compute; reflexivity|vm_compute; reflexivity].
    split; [|repeat constructor; discriminate].
    repeat constructor; try discriminate; vm_compute; discriminate.
  - vm_compute. reflexivity.
Defined.

(** ** Formats that are not understood *)

(** The characters that can follow a percent sign. *)
Definition dir_start : list Z := FLAGS ++ chars "123456789*.csphlzdioxXu%".

Lemma conversion_rejects junk str args fm fb :
  hd 0 str ∉ dir_start → conversion junk str args fm fb = Ok None.
Proof.
  intros Hc. assert (∀ c tok, c ∈ dir_start → hd 0 (chars tok) = c → consume str (chars tok) = None) as Hn.
  { intros c tok Hin Htok. destruct (decide (c = 0)) as [->|Hc0].
    { by apply (bool_decide_eq_true_2 _) in Hin; vm_compute in Hin. }
    apply consume_hd_none; rewrite Htok; [done|]. by intros E; rewrite E in Hc. }
  assert (∀ c, bool_decide (c ∈ dir_start) = true → c ∈ dir_start) as Hd by (intros c; apply bool_decide_eq_true_1).
  unfold conversion, consume_length, try, read_integer.
  rewrite (Hn (ch "c") "c"), (Hn (ch "s") "s"), (Hn (ch "p") "p"), (Hn (ch "h") "hh"), (Hn (ch "h") "h"),
    (Hn (ch "l") "ll"), (Hn (ch "z") "z"), (Hn (ch "l") "l"), (Hn (ch "d") "d"), (Hn (ch "i") "i")
    by (done || (apply Hd; vm_compute; reflexivity)).
  assert (consume_one_of str (chars "oxXu") = None) as ->; [|done].
  unfold consume_one_of. cbv zeta. destruct (_ =? 0); [done|].
  rewrite is_one_of_elem by (repeat constructor; done). rewrite bool_decide_eq_false_2; [done|].
  intros Hin. apply Hc. unfold dir_start. rewrite !elem_of_app. right.
  revert Hin. generalize (hd 0 str). intros c. vm_compute chars. rewrite !elem_of_cons. tauto.
Qed.

Lemma dir_start_spec c0 :
  c0 ∉ dir_start → (c0 ∉ FLAGS) ∧ is_digit c0 = false ∧ c0 ≠ ch "*" ∧ c0 ≠ ch "." ∧ c0 ≠ ch "%".
Proof.
  intros Hc. assert (∀ c, bool_decide (c ∈ dir_start) = true → c0 ≠ c) as Hne.
  { intros c Hin E. apply Hc. rewrite E. by apply (bool_decide_eq_true_1 _). }
  split_and!; try (apply Hne; vm_compute; reflexivity).
  - intros Hin. apply Hc. unfold dir_start. apply elem_of_app. by left.
  - apply not_true_is_false. unfold is_digit. intros H.
    assert (c0 = ch "0" ∨ ∃ d, 0 ≤ d < 9 ∧ c0 = 49 + d) as [E|(d & Hd & E)].
    { change (ch "0") with 48 in *. change (ch "9") with 57 in *.
      destruct (decide (c0 = 48)); [by left|]. right. exists (c0 - 49). lia. }
    + revert E. apply Hne. vm_compute. reflexivity.
    + apply (Hne (49 + d)); [|done]. assert (d = 0 ∨ d = 1 ∨ d = 2 ∨ d = 3 ∨ d = 4 ∨ d = 5 ∨ d = 6 ∨ d = 7 ∨ d = 8)
        as Hcases by lia. repeat destruct Hcases as [->|Hcases]; subst; vm_compute; reflexivity.
Qed.

(** A percent sign followed by a character that starts no directive (or
    by the end of the format) ends [uacpi_vsnprintf] with the result -1: the
    text before it has been written, and no zero after it. *)
Theorem uacpi_vsnprintf_rejects junk buf lit rest args :
  literal_ok lit → hd 0 rest ∉ dir_start → Z.of_nat (length lit) < 2 ^ 64 →
  uacpi_vsnprintf junk buf (Z.of_nat (length buf)) (lit ++ ch "%" :: rest) args =
  Ok (-1, overlay (map (wrap 8) lit) buf).
Proof.
  intros Hlit Hc Hl. unfold uacpi_vsnprintf.
  replace (MkFb buf (Z.of_nat (length buf)) 0) with (wrote buf []).
  2: { unfold wrote, overlay. simpl. by rewrite take_nil. }
  rewrite length_app. cbn [length]. rewrite Nat.add_succ_r. cbn [vsnprintf_loop].
  rewrite (proj2 (Z.eqb_neq _ 0)).
  2: { destruct lit as [|c lit]; [done|]. by inversion Hlit as [|? ? [H0 _] _]; subst. }
  rewrite find_next_percent by done. rewrite (appends_literal lit _ buf []) by (simpl; lia).
  cbn [mbind res_bind negb app]. rewrite drop_app_length. cbn [tail].
  destruct (dir_start_spec _ Hc) as (Hf & Hd & Hs & Hdot & Hp).
  rewrite consume_snd_none by done.
  unfold directive. pose proof (consume_flags_app [] rest fm_init (Forall_nil_2 _) Hf) as Ef. simpl in Ef. rewrite Ef.
  unfold read_width. rewrite consume_hd_none by done. rewrite parse_number_none by done. cbn.
  unfold read_precision. rewrite consume_hd_none by done. cbn.
  rewrite conversion_rejects by done. done.
Qed.

Lemma uacpi_vsnprintf_rejects_witness :
  uacpi_vsnprintf (replicate 32 0) (replicate 8 170) 8 (chars "ab%y%d") [VaWord 1] =
  Ok (-1, chars "ab" ++ replicate 6 170).
Proof.
  etransitivity.
  - apply (uacpi_vsnprintf_rejects (replicate 32 0) (replicate 8 170) (chars "ab") (chars "y%d") [VaWord 1]).
    + repeat constructor; discriminate.
    + apply (bool_decide_eq_false_1 _). vm_compute. reflexivity.
    + reflexivity.
  - reflexivity.
Defined.
