(* ===== verification/UacpiLog.v ===== *)
(** * Messages of the ACPI library

    From a message of the library to the console: [uacpi_log] of
    uacpi/source/stdlib.c formats it into a buffer of 128 characters, the
    host function [uacpi_kernel_log] of kernel/acpi/uacpi_interface.c prints
    warnings and errors with [kprintf].  The log level is kept by
    uacpi/source/uacpi.c. *)

From S2P Require Import Prelude Digits Npf Tables UacpiUtil UacpiFmt UacpiFmtThms Font Tty.
Local Open Scope Z_scope.
Local Open Scope kernel_scope.

Inductive uacpi_log_level := UACPI_LOG_ERROR | UACPI_LOG_WARN | UACPI_LOG_INFO | UACPI_LOG_TRACE | UACPI_LOG_DEBUG.

Definition level_value (l : uacpi_log_level) : Z :=
  match l with
  | UACPI_LOG_ERROR => 1 | UACPI_LOG_WARN => 2 | UACPI_LOG_INFO => 3 | UACPI_LOG_TRACE => 4 | UACPI_LOG_DEBUG => 5
  end.

Definition UACPI_DEFAULT_LOG_LEVEL : Z := level_value UACPI_LOG_INFO.
Definition UACPI_PLAIN_LOG_BUFFER_SIZE : nat := 128.

(** The log level, the flag of [uacpi_logger_initialize] and the console. *)
Record uacpi_logger := MkLogger { log_level : Z; version_printed : bool; console : tty }.

#[export] Instance logger_has_tty : Has tty uacpi_logger := {|
  prj := console;
  upd := λ t s, MkLogger (log_level s) (version_printed s) t
|}.

Definition uacpi_context_set_log_level (lvl : Z) : M uacpi_logger unit :=
  let lvl := if lvl =? 0 then UACPI_DEFAULT_LOG_LEVEL else lvl in
  modify (λ s, MkLogger (u8 lvl) (version_printed s) (console s)).

Definition uacpi_should_log (lvl : uacpi_log_level) : M uacpi_logger bool :=
  gets (λ s, level_value lvl <=? log_level s).

(** [msg] is the string in the buffer; a [char] is signed. *)
Definition uacpi_kernel_log (kbuf : list Z) (level : uacpi_log_level) (msg : list Z) : M tty unit :=
  match level with
  | UACPI_LOG_INFO | UACPI_LOG_TRACE | UACPI_LOG_DEBUG => mret tt
  | UACPI_LOG_WARN => kprintf kbuf (chars "[UACPI][WARN] %s") [VStr (map schar msg)]
  | UACPI_LOG_ERROR => kprintf kbuf (chars "[UACPI][ERROR] %s") [VStr (map schar msg)]
  end.

(** The end of a message that does not fit. *)
Definition mark_cut (buf : list Z) : res (list Z) :=
  let n := UACPI_PLAIN_LOG_BUFFER_SIZE in
  buf ← buf_set (n - 5) (ch ".") buf;
  buf ← buf_set (n - 4) (ch ".") buf;
  buf ← buf_set (n - 3) (ch ".") buf;
  buf_set (n - 2) 10 buf.

(** [junk], [buf] and [kbuf]: what the three buffers on the stack hold at
    first. *)
Section log.
Variables junk buf kbuf : list Z.

Definition uacpi_log (lvl : uacpi_log_level) (str : list Z) (vlist : list va_slot) : M tty unit :=
  r ← lift (uacpi_vsnprintf junk buf (Z.of_nat UACPI_PLAIN_LOG_BUFFER_SIZE) str vlist);
  let '(ret, buf) := r in
  if ret <? 0 then mret tt
  else
    buf ← (if Z.of_nat UACPI_PLAIN_LOG_BUFFER_SIZE <=? ret then lift (mark_cut buf) else mret buf);
    uacpi_kernel_log kbuf lvl (cstr buf).

Definition uacpi_log_lvl (lvl : uacpi_log_level) (str : list Z) (vlist : list va_slot) : M uacpi_logger unit :=
  should ← uacpi_should_log lvl;
  if (should : bool) then zoom (uacpi_log lvl str vlist) else mret tt.

Definition uacpi_info := uacpi_log_lvl UACPI_LOG_INFO.
Definition uacpi_warn := uacpi_log_lvl UACPI_LOG_WARN.
Definition uacpi_error := uacpi_log_lvl UACPI_LOG_ERROR.

Definition UACPI_MAJOR : Z := 2.
Definition UACPI_MINOR : Z := 0.
Definition UACPI_PATCH : Z := 0.

Definition uacpi_logger_initialize : M uacpi_logger unit :=
  lvl ← gets log_level;
  (if lvl =? 0 then uacpi_context_set_log_level UACPI_DEFAULT_LOG_LEVEL else mret tt);;
  printed ← gets version_printed;
  if (printed : bool) then mret tt
  else
    modify (λ s, MkLogger (log_level s) true (console s));;
    uacpi_info (chars "starting uACPI, version %d.%d.%d" ++ [10])
      [VaWord UACPI_MAJOR; VaWord UACPI_MINOR; VaWord UACPI_PATCH].
End log.

(** ** Lemmas *)

(** What is shown of a text: all of it, or its start with a mark. *)
Definition shown (out : list Z) : list Z :=
  let bytes := map (wrap 8) out in
  cstr (if (length out <? UACPI_PLAIN_LOG_BUFFER_SIZE)%nat then bytes
        else take (UACPI_PLAIN_LOG_BUFFER_SIZE - 5) bytes ++ chars "..." ++ [10]).

Definition log_prefix (lvl : uacpi_log_level) : option (list Z) :=
  match lvl with
  | UACPI_LOG_WARN => Some (chars "[UACPI][WARN] ")
  | UACPI_LOG_ERROR => Some (chars "[UACPI][ERROR] ")
  | _ => None
  end.

Lemma kernel_log_prints kbuf lvl msg t :
  length kbuf = BUFFER_SIZE →
  uacpi_kernel_log kbuf lvl msg t =
  match log_prefix lvl with Some p => kputs (p ++ map schar msg) t | None => Ok (tt, t) end.
Proof.
  intros Hk. destruct lvl; [| |done..]; unfold uacpi_kernel_log, log_prefix.
  - rewrite (kprintf_expand 20 _ _ _ (chars "[UACPI][ERROR] " ++ map schar msg ++ []));
      [by rewrite app_nil_r|apply Nat.leb_le; reflexivity|done|reflexivity].
  - rewrite (kprintf_expand 20 _ _ _ (chars "[UACPI][WARN] " ++ map schar msg ++ []));
      [by rewrite app_nil_r|apply Nat.leb_le; reflexivity|done|reflexivity].
Qed.

Lemma mark_cut_ok bytes r :
  length bytes = 127%nat → mark_cut (bytes ++ 0 :: r) = Ok (take 123 bytes ++ chars "..." ++ [10] ++ 0 :: r).
Proof.
  intros Hl. rewrite <-(take_drop 123 bytes) at 1.
  assert (length (take 123 bytes) = 123%nat) as H123 by (rewrite length_take; lia).
  assert (length (drop 123 bytes) = 4%nat) as H4 by (rewrite length_drop; lia).
  destruct (drop 123 bytes) as [|a [|b [|c [|d [|]]]]]; try done. unfold mark_cut. cbv zeta.
  rewrite <-(assoc_L (++)). cbn [app]. change UACPI_PLAIN_LOG_BUFFER_SIZE with 128%nat. cbn [Nat.sub].
  set (h := take 123 bytes) in *.
  rewrite (buf_set_at 123 (ch ".") h) by done. cbn [mbind res_bind].
  change (h ++ ch "." :: b :: c :: d :: 0 :: r) with (h ++ [ch "."] ++ b :: c :: d :: 0 :: r). rewrite (assoc_L (++)).
  rewrite (buf_set_at 124) by (rewrite length_app; simpl; lia). cbn [mbind res_bind].
  rewrite <-(assoc_L (++)). change ([ch "."] ++ ch "." :: c :: d :: 0 :: r) with ([ch "."; ch "."] ++ c :: d :: 0 :: r).
  rewrite (assoc_L (++)).
  rewrite (buf_set_at 125) by (rewrite length_app; simpl; lia). cbn [mbind res_bind].
  rewrite <-(assoc_L (++)).
  change ([ch "."; ch "."] ++ ch "." :: d :: 0 :: r) with ([ch "."; ch "."; ch "."] ++ d :: 0 :: r).
  rewrite (assoc_L (++)). rewrite (buf_set_at 126) by (rewrite length_app; simpl; lia).
  by rewrite <-(assoc_L (++)).
Qed.

Lemma log_text junk buf kbuf lvl f args out t :
  length junk = REPR_BUFFER_SIZE → length buf = UACPI_PLAIN_LOG_BUFFER_SIZE → length kbuf = BUFFER_SIZE →
  format_ok f → format_text f args = Some out → Z.of_nat (length out) < 2 ^ 31 →
  uacpi_log junk buf kbuf lvl (show_format f) args t =
  match log_prefix lvl with Some p => kputs (p ++ map schar (shown out)) t | None => Ok (tt, t) end.
Proof.
  intros Hj Hb Hk Hf Ht Hl. unfold uacpi_log. rewrite <-Hb.
  erewrite bind_ok; [|unfold lift; by rewrite (vsnprintf_stores junk buf f args out)]. cbv beta iota zeta.
  rewrite (proj2 (Z.ltb_ge _ 0)) by lia. rewrite Hb. unfold stored. rewrite Hb. cbv zeta.
  change (UACPI_PLAIN_LOG_BUFFER_SIZE =? 0)%nat with false. cbv iota. unfold shown. cbv zeta.
  change UACPI_PLAIN_LOG_BUFFER_SIZE with 128%nat in *. change (128 - 1)%nat with 127%nat.
  destruct (Z.leb_spec (Z.of_nat 128) (Z.of_nat (length out))) as [Hc|Hc].
  - rewrite (proj2 (Nat.ltb_ge _ _)) by lia. rewrite Nat.min_r by lia.
    erewrite bind_ok; [|unfold lift; rewrite mark_cut_ok by (rewrite length_map, length_take; lia); reflexivity].
    rewrite kernel_log_prints by done.
    rewrite firstn_map, take_take, Nat.min_l by lia. rewrite !(assoc_L (++)).
    by rewrite cstr_take_app, <-firstn_map.
  - rewrite (proj2 (Nat.ltb_lt _ _)) by lia. rewrite Nat.min_l, take_ge by lia.
    rewrite (bind_ok _ _ _ _ _ eq_refl). rewrite kernel_log_prints by done. by rewrite cstr_take_app.
Qed.

Lemma log_lvl_text junk buf kbuf lvl f args out s :
  length junk = REPR_BUFFER_SIZE → length buf = UACPI_PLAIN_LOG_BUFFER_SIZE → length kbuf = BUFFER_SIZE →
  format_ok f → format_text f args = Some out → Z.of_nat (length out) < 2 ^ 31 →
  uacpi_log_lvl junk buf kbuf lvl (show_format f) args s =
  match log_prefix lvl with
  | Some p => if level_value lvl <=? log_level s then zoom (kputs (p ++ map schar (shown out))) s else Ok (tt, s)
  | None => Ok (tt, s)
  end.
Proof.
  intros Hj Hb Hk Hf Ht Hl. unfold uacpi_log_lvl. rewrite (bind_ok _ _ _ _ _ eq_refl).
  destruct (level_value lvl <=? log_level s); [|by destruct (log_prefix lvl)].
  unfold zoom. rewrite (log_text junk buf kbuf lvl f args out) by done.
  destruct (log_prefix lvl); [done|]. by destruct s.
Qed.

(** ** Theorems *)

(** A message of the ACPI library reaches the console exactly when its
    level is enabled and it is a warning or an error: then [kputs] prints
    the prefix and the formatted text, where a text of 128 characters or more
    is cut after 123 and ends in dots and a newline; other messages change
    nothing. *)
Theorem uacpi_message_shown junk buf kbuf lvl f args out s :
  length junk = REPR_BUFFER_SIZE → length buf = UACPI_PLAIN_LOG_BUFFER_SIZE → length kbuf = BUFFER_SIZE →
  format_ok f → format_text f args = Some out → Z.of_nat (length out) < 2 ^ 31 →
  uacpi_log_lvl junk buf kbuf lvl (show_format f) args s =
  match log_prefix lvl with
  | Some p => if level_value lvl <=? log_level s then zoom (kputs (p ++ map schar (shown out))) s else Ok (tt, s)
  | None => Ok (tt, s)
  end.
Proof. apply log_lvl_text. Qed.

Lemma uacpi_message_shown_witness :
  uacpi_log_lvl (replicate 32 0) (replicate 128 170) (replicate 21 0) UACPI_LOG_ERROR
    (chars "invalid table '%.4s' (0x016%llX) size: %u" ++ [10])
    [VaStr 1 (chars "APIC0000"); VaWord 0xFEC0; VaWord 12] (MkLogger 3 true tty_640) =
  zoom (kputs (chars "[UACPI][ERROR] invalid table 'APIC' (0x016FEC0) size: 12" ++ [10])) (MkLogger 3 true tty_640).
Proof.
  etransitivity.
  - apply (uacpi_message_shown (replicate 32 0) (replicate 128 170) (replicate 21 0) UACPI_LOG_ERROR bad_size_format
      [VaStr 1 (chars "APIC0000"); VaWord 0xFEC0; VaWord 12]
      (chars "invalid table 'APIC' (0x016FEC0) size: 12" ++ [10]) (MkLogger 3 true tty_640));
      [reflexivity|reflexivity|reflexivity| |vm_compute; reflexivity|vm_compute; reflexivity].
    split; [|repeat constructor; discriminate].
    repeat constructor; try discriminate; vm_compute; discriminate.
  - reflexivity.
Defined.

(** [uacpi_logger_initialize] leaves the console as it is: it sets the
    default level where none is set, and the version is a message of the
    level INFO. *)
Lemma logger_initialize_sets junk buf kbuf s :
  length junk = REPR_BUFFER_SIZE → length buf = UACPI_PLAIN_LOG_BUFFER_SIZE → length kbuf = BUFFER_SIZE →
  uacpi_logger_initialize junk buf kbuf s =
  Ok (tt, MkLogger (if log_level s =? 0 then 3 else log_level s) true (console s)).
Proof.
  intros Hj Hb Hk. unfold uacpi_logger_initialize. rewrite (bind_ok _ _ _ _ _ eq_refl).
  assert (∀ s1, (printed ← gets version_printed;
     if (printed : bool) then mret tt
     else modify (λ s, MkLogger (log_level s) true (console s));;
       uacpi_info junk buf kbuf (chars "starting uACPI, version %d.%d.%d" ++ [10])
         [VaWord UACPI_MAJOR; VaWord UACPI_MINOR; VaWord UACPI_PATCH]) s1 =
     Ok (tt, MkLogger (log_level s1) true (console s1))) as H.
  { intros s1. rewrite (bind_ok _ _ _ _ _ eq_refl). destruct (version_printed s1) eqn:E.
    { destruct s1. simpl in E. by subst. }
    rewrite (bind_ok _ _ _ _ _ eq_refl).
    set (d := Dir (MkDir [] NoNum NoNum (ConvInt LenNone SpecD))).
    apply (log_lvl_text junk buf kbuf UACPI_LOG_INFO
      (MkFormat [(chars "starting uACPI, version ", d); (chars ".", d); (chars ".", d)] [10]) _
      (chars "starting uACPI, version 2.0.0" ++ [10])); [done..| |vm_compute; reflexivity|vm_compute; reflexivity].
    split; [|repeat constructor; discriminate].
    repeat constructor; try discriminate; vm_compute; discriminate. }
  destruct (log_level s =? 0) eqn:E.
  - rewrite (bind_ok _ _ _ _ _ eq_refl). by rewrite H.
  - rewrite (bind_ok _ _ _ _ _ eq_refl). by rewrite H.
Qed.
