(* ===== verification/UacpiIo.v ===== *)
(** * Buffer fields: the bit copies of uacpi/source/io.c

    A field of an AML buffer is a range of bits that need not start or end at
    a byte.  This file models the functions that read and write such fields,
    [uacpi_memcpy_zerout] of uacpi/source/stdlib.c and the macros they use, on
    lists of bytes; the source and destination of a copy are different
    objects, as they are where the interpreter calls these functions.  An
    access outside a list is a [Fault]. *)

From S2P Require Import Prelude Digits Npf.
Local Open Scope Z_scope.
Local Open Scope kernel_scope.

(** ** Definitions *)

(** [UACPI_ALIGN_UP] at 64 bits. *)
Definition UACPI_ALIGN_UP (x val : Z) : Z := Z.land (x +64 (val -64 1)) (lnot64 (val -64 1)).

Definition uacpi_round_up_bits_to_bytes (bit_length : Z) : Z := UACPI_ALIGN_UP bit_length 8 `div` 8.

Definition byte_at (data : list Z) (i : Z) : res Z :=
  match data !! Z.to_nat i with Some b => if i <? 0 then Fault i else Ok b | None => Fault i end.

Definition set_byte (data : list Z) (i b : Z) : res (list Z) :=
  if i <? 0 then Fault i else buf_set (Z.to_nat i) (u8 b) data.

Definition cut_misaligned_tail (data : list Z) (offset bit_length : Z) : res (list Z) :=
  let remainder := Z.land bit_length 7 in
  if remainder =? 0 then Ok data
  else b ← byte_at data offset; set_byte data offset (Z.land b (Z.shiftl 1 remainder - 1)).

Record bit_span := MkSpan { span_data : list Z; span_index : Z; span_length : Z }.

Definition bit_span_offset (span : bit_span) (bits : Z) : bit_span :=
  let delta := if span_length span <? bits then span_length span else bits in
  MkSpan (span_data span) (span_index span +64 delta) (span_length span -64 delta).

(** The next bits of the source, and the pointer and count behind them. *)
Definition next_bits (src : list Z) (src_shift src_ptr src_count : Z) : res (Z * Z * Z) :=
  if src_count =? 0 then Ok (0, src_ptr, src_count)
  else
    b ← byte_at src src_ptr;
    let bits := Z.shiftr b src_shift in
    bits ← (if negb (src_shift =? 0) && (8 - src_shift <? src_count)
            then b' ← byte_at src (src_ptr + 1); Ok (u8 (Z.lor bits (Z.shiftl b' (8 - src_shift))))
            else Ok bits);
    Ok (if src_count <? 8 then (Z.land bits (Z.shiftl 1 src_count - 1), src_ptr, 0)
        else (bits, src_ptr + 1, src_count - 8)).

Definition put_bits (dst : list Z) (dst_shift dst_ptr dst_count bits : Z) : res (list Z) :=
  let dst_mask := Z.shiftl (if dst_count <? 8 then Z.shiftl 1 dst_count - 1 else 0xFF) dst_shift in
  b ← byte_at dst dst_ptr;
  dst ← set_byte dst dst_ptr (Z.lor (Z.land b (Z.lnot dst_mask)) (Z.land (Z.shiftl bits dst_shift) dst_mask));
  if negb (dst_shift =? 0) && (8 - dst_shift <? dst_count) then
    let dst_mask := Z.shiftr dst_mask 8 in
    b ← byte_at dst (dst_ptr + 1);
    dst ← set_byte dst (dst_ptr + 1) (Z.land b (Z.lnot dst_mask));
    b ← byte_at dst (dst_ptr + 1);
    set_byte dst (dst_ptr + 1) (Z.lor b (Z.land (Z.shiftr bits (8 - dst_shift)) dst_mask))
  else Ok dst.

Fixpoint bit_copy_loop (fuel : nat) (src : list Z) (src_shift dst_shift src_ptr src_count dst_ptr dst_count : Z)
    (dst : list Z) : res (list Z) :=
  if dst_count =? 0 then Ok dst
  else match fuel with
       | O => NoFuel
       | S fuel' =>
           r ← next_bits src src_shift src_ptr src_count;
           let '(bits, src_ptr, src_count) := r in
           dst ← put_bits dst dst_shift dst_ptr dst_count bits;
           bit_copy_loop fuel' src src_shift dst_shift src_ptr src_count (dst_ptr + 1)
             (if 8 <? dst_count then dst_count - 8 else 0) dst
       end.

Definition bit_copy (dst src : bit_span) : res (list Z) :=
  bit_copy_loop (Z.to_nat (span_length dst)) (span_data src) (Z.land (span_index src) 7) (Z.land (span_index dst) 7)
    (span_index src `div` 8) (span_length src) (span_index dst `div` 8) (span_length dst) (span_data dst).

(** [backing] is the data of the buffer the field points to. *)
Record uacpi_buffer_field := MkField { backing : list Z; bit_index : Z; bit_length : Z }.

Definition do_misaligned_buffer_read (field : uacpi_buffer_field) (dst : list Z) : res (list Z) :=
  bit_copy (MkSpan dst 0 (uacpi_round_up_bits_to_bytes (bit_length field) *64 8))
    (MkSpan (backing field) (bit_index field) (bit_length field)).

(** [memcpy(dst + d, src + s, count)] between two objects. *)
Definition copy_bytes (dst : list Z) (d : Z) (src : list Z) (s count : Z) : res (list Z) :=
  if (d <? 0) || (s <? 0) || (Z.of_nat (length dst) <? d + count) || (Z.of_nat (length src) <? s + count) then Fault d
  else Ok (take (Z.to_nat d) dst ++ take (Z.to_nat count) (drop (Z.to_nat s) src) ++ drop (Z.to_nat (d + count)) dst).

Definition uacpi_read_buffer_field (field : uacpi_buffer_field) (dst : list Z) : res (list Z) :=
  if Z.land (bit_index field) 7 =? 0 then
    let count := uacpi_round_up_bits_to_bytes (bit_length field) in
    dst ← copy_bytes dst 0 (backing field) (bit_index field `div` 8) count;
    cut_misaligned_tail dst (count -64 1) (bit_length field)
  else do_misaligned_buffer_read field dst.

Definition do_write_misaligned_buffer_field (field : uacpi_buffer_field) (src : list Z) (size : Z) : res (list Z) :=
  bit_copy (MkSpan (backing field) (bit_index field) (bit_length field)) (MkSpan src 0 (size *64 8)).

(** [memset(dst + d, 0, count)]. *)
Definition zero_bytes (dst : list Z) (d count : Z) : res (list Z) :=
  if (d <? 0) || (Z.of_nat (length dst) <? d + count) then Fault d
  else Ok (take (Z.to_nat d) dst ++ replicate (Z.to_nat count) 0 ++ drop (Z.to_nat (d + count)) dst).

(** To the address [dst + d]. *)
Definition uacpi_memcpy_zerout (dst : list Z) (d : Z) (src : list Z) (dst_size src_size : Z) : res (list Z) :=
  let bytes_to_copy := if src_size <? dst_size then src_size else dst_size in
  dst ← (if bytes_to_copy =? 0 then Ok dst else copy_bytes dst d src 0 bytes_to_copy);
  if bytes_to_copy <? dst_size then zero_bytes dst (d + bytes_to_copy) (dst_size - bytes_to_copy) else Ok dst.

(** The last byte keeps the bits behind the field. *)
Definition restore_tail (data : list Z) (i last_byte tail_shift : Z) : res (list Z) :=
  let last_shift := 8 - tail_shift in
  b ← byte_at data i;
  data ← set_byte data i (Z.shiftl b last_shift);
  b ← byte_at data i;
  data ← set_byte data i (Z.shiftr b last_shift);
  b ← byte_at data i;
  set_byte data i (Z.lor b (Z.shiftl (Z.shiftr last_byte tail_shift) tail_shift)).

Definition uacpi_write_buffer_field (field : uacpi_buffer_field) (src : list Z) (size : Z) : res (list Z) :=
  if Z.land (bit_index field) 7 =? 0 then
    let dst := bit_index field `div` 8 in
    let count := uacpi_round_up_bits_to_bytes (bit_length field) in
    last_byte ← byte_at (backing field) (dst + count - 1);
    let tail_shift := Z.land (bit_length field) 7 in
    data ← uacpi_memcpy_zerout (backing field) dst src count size;
    if tail_shift =? 0 then Ok data else restore_tail data (dst + count - 1) last_byte tail_shift
  else do_write_misaligned_buffer_field field src size.

Example bit_copy_demo :
  bit_copy (MkSpan [0xFF; 0xFF; 0xFF] 3 14) (MkSpan [0xA5; 0x5A; 0x3C] 5 12) = Ok [0xAF; 0x16; 0xFE].
Proof. vm_compute. reflexivity. Qed.

(** The fast path for fields that start at a byte and the general copy. *)
Example read_field_demo :
  uacpi_read_buffer_field (MkField [0x12; 0xF4; 0x56] 8 11) [9; 9; 9] = Ok [0xF4; 0x06; 9] ∧
  uacpi_read_buffer_field (MkField [0x12; 0xF4; 0x56] 5 11) [9; 9; 9] = Ok [0xA0; 0x07; 9].
Proof. vm_compute. done. Qed.

(** ** Bits of byte lists *)

Definition bytes (d : list Z) : Prop := Forall (λ b, 0 ≤ b < 256) d.

Definition bit (d : list Z) (i : Z) : bool := Z.testbit (nth (Z.to_nat (i `div` 8)) d 0) (i mod 8).

Definition bits_of (d : list Z) : Z := 8 * Z.of_nat (length d).

Lemma byte_at_ok d i : 0 ≤ i < Z.of_nat (length d) → byte_at d i = Ok (nth (Z.to_nat i) d 0).
Proof.
  intros Hi. unfold byte_at. destruct (lookup_lt_is_Some_2 d (Z.to_nat i)) as [b Hb]; [lia|].
  rewrite Hb, (nth_lookup_Some _ _ _ _ Hb). by rewrite (proj2 (Z.ltb_ge i 0)) by lia.
Qed.

Lemma set_byte_ok d i b : 0 ≤ i < Z.of_nat (length d) → set_byte d i b = Ok (<[Z.to_nat i := u8 b]> d).
Proof.
  intros Hi. unfold set_byte, buf_set. rewrite (proj2 (Z.ltb_ge i 0)) by lia.
  by rewrite (proj2 (Nat.ltb_lt (Z.to_nat i) (length d))) by lia.
Qed.

Lemma nth_insert d i j b : (i < length d)%nat → nth j (<[i := b]> d) 0 = if decide (i = j) then b else nth j d 0.
Proof.
  intros Hi. rewrite !nth_lookup, list_lookup_insert. case_decide as Hd; case_decide as Hd'; naive_solver.
Qed.

Lemma bytes_nth d i : bytes d → 0 ≤ nth i d 0 < 256.
Proof.
  intros Hd. rewrite nth_lookup. destruct (d !! i) eqn:E; simpl; [|lia]. by apply (Forall_lookup_1 _ _ _ _ Hd E).
Qed.

Lemma bytes_insert d i b : bytes d → bytes (<[i := u8 b]> d).
Proof. intros Hd. apply Forall_insert; [done|]. apply (wrap_range 8). lia. Qed.

Lemma testbit_u8 b k : 0 ≤ k → Z.testbit (u8 b) k = (k <? 8) && Z.testbit b k.
Proof. intros. unfold wrap. by rewrite Z.testbit_mod_pow2 by lia. Qed.

Lemma testbit_mask n k : 0 ≤ n → 0 ≤ k → Z.testbit (Z.shiftl 1 n - 1) k = (k <? n).
Proof.
  intros. replace (Z.shiftl 1 n - 1) with (Z.ones n) by (unfold Z.ones; lia). by apply Z.testbit_ones_nonneg.
Qed.

Lemma testbit_byte d i k : bytes d → 8 ≤ k → Z.testbit (nth i d 0) k = false.
Proof. intros Hd Hk. apply (testbit_small 8); [|done]. by apply bytes_nth. Qed.

Lemma bit_at d p k : 0 ≤ p → 0 ≤ k < 8 → bit d (8 * p + k) = Z.testbit (nth (Z.to_nat p) d 0) k.
Proof.
  intros. unfold bit. replace ((8 * p + k) `div` 8) with p by dlia. by replace ((8 * p + k) mod 8) with k by dlia.
Qed.

(** Bit [sh + k] behind byte [p] lies in that byte or in the next. *)
Lemma bit_split d p sh k :
  0 ≤ p → 0 ≤ sh < 8 → 0 ≤ k < 8 →
  bit d (8 * p + sh + k) =
  if sh + k <? 8 then Z.testbit (nth (Z.to_nat p) d 0) (sh + k)
  else Z.testbit (nth (Z.to_nat (p + 1)) d 0) (sh + k - 8).
Proof.
  intros. destruct (Z.ltb_spec (sh + k) 8).
  - rewrite <-bit_at by lia. f_equal. lia.
  - rewrite <-bit_at by lia. f_equal. lia.
Qed.

Definition joined (b b' sh n : Z) : Z :=
  if negb (sh =? 0) && (8 - sh <? n) then u8 (Z.lor (Z.shiftr b sh) (Z.shiftl b' (8 - sh))) else Z.shiftr b sh.

Lemma joined_bits d p sh n k :
  bytes d → 0 ≤ p → 0 ≤ sh < 8 → 0 ≤ k < 8 → k < n →
  Z.testbit (joined (nth (Z.to_nat p) d 0) (nth (Z.to_nat (p + 1)) d 0) sh n) k = bit d (8 * p + sh + k).
Proof.
  intros Hd Hp Hsh Hk Hn. rewrite bit_split by done. unfold joined. destruct (Z.eqb_spec sh 0) as [->|]; simpl.
  { rewrite Z.shiftr_spec by lia. destruct (Z.ltb_spec (0 + k) 8); [|lia]. f_equal. lia. }
  destruct (Z.ltb_spec (8 - sh) n).
  - rewrite testbit_u8, Z.lor_spec, Z.shiftr_spec, Z.shiftl_spec by lia. rewrite (proj2 (Z.ltb_lt k 8)) by lia. simpl.
    destruct (Z.ltb_spec (sh + k) 8).
    + rewrite (Z.testbit_neg_r _ (k - (8 - sh))) by lia. rewrite orb_false_r. f_equal. lia.
    + rewrite testbit_byte by (done || lia). simpl. f_equal. lia.
  - rewrite Z.shiftr_spec by lia. rewrite (proj2 (Z.ltb_lt (sh + k) 8)) by lia. f_equal. lia.
Qed.

Lemma joined_range d i j sh n :
  bytes d → 0 ≤ sh → 0 ≤ joined (nth i d 0) (nth j d 0) sh n < 256.
Proof.
  intros Hd Hsh. unfold joined. case_match; [apply (wrap_range 8); lia|].
  pose proof (bytes_nth d i Hd). rewrite Z.shiftr_div_pow2 by done. split; [apply Z.div_pos; lia|].
  pose proof (Z.pow_pos_nonneg 2 sh ltac:(lia) Hsh). apply Z.div_lt_upper_bound; nia.
Qed.

Lemma next_bits_spec src sh p n :
  bytes src → 0 ≤ sh < 8 → 0 ≤ p → 0 ≤ n → 8 * p + sh + n ≤ bits_of src →
  ∃ bits p', next_bits src sh p n = Ok (bits, p', Z.max 0 (n - 8)) ∧ 0 ≤ bits < 256 ∧
    (∀ k, 0 ≤ k < 8 → Z.testbit bits k = (k <? n) && bit src (8 * p + sh + k)) ∧ p' = (if n <? 8 then p else p + 1).
Proof.
  intros Hs Hsh Hp Hn Hb. unfold next_bits, bits_of in *. destruct (Z.eqb_spec n 0) as [->|Hn0].
  { exists 0, p. split; [done|]. split; [lia|]. split; [|done]. intros k Hk. rewrite Z.bits_0.
    by rewrite (proj2 (Z.ltb_ge k 0)) by lia. }
  rewrite (byte_at_ok src p) by lia. cbn [mbind res_bind].
  assert ((if negb (sh =? 0) && (8 - sh <? n)
           then b' ← byte_at src (p + 1); Ok (u8 (Z.lor (Z.shiftr (nth (Z.to_nat p) src 0) sh) (Z.shiftl b' (8 - sh))))
           else Ok (Z.shiftr (nth (Z.to_nat p) src 0) sh)) =
          Ok (joined (nth (Z.to_nat p) src 0) (nth (Z.to_nat (p + 1)) src 0) sh n)) as ->.
  { unfold joined. destruct (Z.eqb_spec sh 0); simpl; [done|]. destruct (Z.ltb_spec (8 - sh) n); [|done].
    by rewrite byte_at_ok by lia. }
  cbn [mbind res_bind]. pose proof (joined_range src (Z.to_nat p) (Z.to_nat (p + 1)) sh n Hs ltac:(lia)) as Hj.
  pose proof (λ k, joined_bits src p sh n k Hs Hp Hsh) as Hbits. set (j := joined _ _ _ _) in *.
  destruct (Z.ltb_spec n 8) as [Hlt|Hge].
  - exists (Z.land j (Z.shiftl 1 n - 1)), p. split; [by rewrite Z.max_l by lia|].
    split; [by apply (land_range 8)|]. split; [|done]. intros k Hk. rewrite Z.land_spec, testbit_mask by lia.
    destruct (Z.ltb_spec k n); [|apply andb_false_r]. by rewrite Hbits, andb_true_r by lia.
  - exists j, (p + 1). split; [by rewrite Z.max_r by lia|]. split; [done|]. split; [|done].
    intros k Hk. rewrite (proj2 (Z.ltb_lt k n)) by lia. apply Hbits; lia.
Qed.

(** The mask of [put_bits] selects the bits of the window. *)
Lemma mask_bits n sh k :
  0 < n → 0 ≤ sh → 0 ≤ k →
  Z.testbit (Z.shiftl (if n <? 8 then Z.shiftl 1 n - 1 else 0xFF) sh) k = (sh <=? k) && (k <? sh + Z.min 8 n).
Proof.
  intros. rewrite Z.shiftl_spec by lia. destruct (Z.leb_spec sh k); [|by rewrite Z.testbit_neg_r by lia]. simpl.
  replace (if n <? 8 then Z.shiftl 1 n - 1 else 0xFF) with (Z.shiftl 1 (Z.min 8 n) - 1).
  - rewrite testbit_mask by lia. apply Bool.eq_iff_eq_true. rewrite !Z.ltb_lt. lia.
  - destruct (Z.ltb_spec n 8); [by rewrite Z.min_r by lia|by rewrite Z.min_l by lia].
Qed.

(** Bits [p] to [p + n] of [d'] are those of the byte [v], the others are
    those of [d]. *)
Definition patched (d d' : list Z) (p n v : Z) : Prop :=
  length d' = length d ∧ bytes d' ∧
  ∀ i, 0 ≤ i → bit d' i = if (p <=? i) && (i <? p + n) then Z.testbit v (i - p) else bit d i.

Lemma first_byte_bits b v m sh k :
  0 ≤ k < 8 → 0 ≤ sh →
  Z.testbit (u8 (Z.lor (Z.land b (Z.lnot m)) (Z.land (Z.shiftl v sh) m))) k =
  if Z.testbit m k then Z.testbit v (k - sh) else Z.testbit b k.
Proof.
  intros. rewrite testbit_u8, (proj2 (Z.ltb_lt k 8)), Z.lor_spec, !Z.land_spec, Z.lnot_spec, Z.shiftl_spec by lia.
  by destruct (Z.testbit m k), (Z.testbit b k), (Z.testbit v (k - sh)).
Qed.

Lemma second_byte_bits b v m sh k :
  0 ≤ k < 8 → 0 < sh < 8 →
  Z.testbit (u8 (Z.lor (u8 (Z.land b (Z.lnot (Z.shiftr m 8)))) (Z.land (Z.shiftr v (8 - sh)) (Z.shiftr m 8)))) k =
  if Z.testbit m (k + 8) then Z.testbit v (k + 8 - sh) else Z.testbit b k.
Proof.
  intros. rewrite testbit_u8, Z.lor_spec, testbit_u8, !Z.land_spec, Z.lnot_spec, !Z.shiftr_spec by lia.
  rewrite (proj2 (Z.ltb_lt k 8)) by lia. replace (k + (8 - sh)) with (k + 8 - sh) by lia.
  by destruct (Z.testbit m (k + 8)), (Z.testbit b k), (Z.testbit v (k + 8 - sh)).
Qed.

(** Splitting the comparisons of a goal. *)
Ltac split_cmp :=
  repeat match goal with
  | |- context [?a <? ?b] => destruct (Z.ltb_spec a b)
  | |- context [?a <=? ?b] => destruct (Z.leb_spec a b)
  end; simpl; try done; try lia.

(** It is enough to look at the bytes one at a time. *)
Lemma patched_bytes d d' p n v :
  length d' = length d → bytes d' →
  (∀ q k, 0 ≤ q → 0 ≤ k < 8 → Z.testbit (nth (Z.to_nat q) d' 0) k =
     if (p <=? 8 * q + k) && (8 * q + k <? p + n) then Z.testbit v (8 * q + k - p)
     else Z.testbit (nth (Z.to_nat q) d 0) k) →
  patched d d' p n v.
Proof.
  intros Hl Hb H. split; [done|]. split; [done|]. intros i Hi. unfold bit.
  specialize (H (i `div` 8) (i mod 8) ltac:(dlia) ltac:(dlia)). by replace (8 * (i `div` 8) + i mod 8) with i in H by dlia.
Qed.

Lemma put_bits_spec dst sh p n v :
  bytes dst → 0 ≤ sh < 8 → 0 ≤ p → 0 < n → 8 * p + sh + n ≤ bits_of dst →
  ∃ dst', put_bits dst sh p n v = Ok dst' ∧ patched dst dst' (8 * p + sh) (Z.min 8 n) v.
Proof.
  intros Hd Hsh Hp Hn Hb. unfold put_bits, bits_of in *. pose proof (λ k, mask_bits n sh k Hn) as Hm.
  set (m := Z.shiftl _ sh) in *. rewrite byte_at_ok by lia. cbn [mbind res_bind]. rewrite set_byte_ok by lia.
  cbn [mbind res_bind]. set (d1 := <[_ := _]> dst).
  assert (length d1 = length dst) as Hl1 by (unfold d1; by rewrite length_insert).
  assert (bytes d1) as Hb1 by (by apply bytes_insert).
  destruct (negb (sh =? 0) && (8 - sh <? n)) eqn:E.
  - apply andb_true_iff in E as [E1 E2]. apply negb_true_iff, Z.eqb_neq in E1. apply Z.ltb_lt in E2.
    rewrite byte_at_ok by lia. cbn [mbind res_bind]. rewrite set_byte_ok by lia. cbn [mbind res_bind].
    rewrite byte_at_ok by (rewrite length_insert; lia). cbn [mbind res_bind].
    rewrite set_byte_ok by (rewrite length_insert; lia). eexists. split; [done|].
    rewrite list_insert_insert_eq, nth_insert, decide_True by lia.
    apply patched_bytes; [by rewrite length_insert|by apply bytes_insert|]. intros q k Hq Hk.
    rewrite nth_insert by lia. case_decide as H2.
    + assert (q = p + 1) as -> by lia. rewrite second_byte_bits, Hm by lia. unfold d1. rewrite nth_insert by lia.
      rewrite decide_False by lia. split_cmp; f_equal; lia.
    + unfold d1. rewrite nth_insert by lia. case_decide as H1.
      * assert (q = p) as -> by lia. rewrite first_byte_bits, Hm by lia. split_cmp; f_equal; lia.
      * split_cmp.
  - apply andb_false_iff in E. rewrite negb_false_iff, Z.eqb_eq, Z.ltb_ge in E. exists d1. split; [done|].
    apply patched_bytes; [done..|]. intros q k Hq Hk. unfold d1. rewrite nth_insert by lia. case_decide as H1.
    + assert (q = p) as -> by lia. rewrite first_byte_bits, Hm by lia. split_cmp; f_equal; lia.
    + split_cmp.
Qed.

(** What a copy of [m] bits from bit [q] of [src] to a window of [n] bits at
    bit [p] leaves: the bits of the source, then zeros, and around the window
    what was there. *)
Definition copied (dst dst' : list Z) (p n : Z) (src : list Z) (q m : Z) : Prop :=
  length dst' = length dst ∧ bytes dst' ∧
  ∀ i, 0 ≤ i →
    bit dst' i = if (p <=? i) && (i <? p + n) then (i - p <? m) && bit src (q + (i - p)) else bit dst i.

Lemma bit_copy_loop_done fuel src ss ds sp sc dp dst : bit_copy_loop fuel src ss ds sp sc dp 0 dst = Ok dst.
Proof. by destruct fuel. Qed.

Lemma copied_nothing dst p src q m : bytes dst → copied dst dst p 0 src q m.
Proof. intros Hd. split; [done|]. split; [done|]. intros i Hi. split_cmp. Qed.

(** Where no bits are left the position in the source does not matter. *)
Lemma copied_exhausted dst dst' p n src q q' m :
  m ≤ 0 → copied dst dst' p n src q m → copied dst dst' p n src q' m.
Proof.
  intros Hm (? & ? & H). split; [done|]. split; [done|]. intros i Hi. rewrite H by done. split_cmp.
Qed.

Lemma bit_copy_loop_spec fuel src ss ds sp sc dp dc dst :
  bytes src → bytes dst → 0 ≤ ss < 8 → 0 ≤ ds < 8 → 0 ≤ sp → 0 ≤ sc → 0 ≤ dp → 0 ≤ dc ≤ Z.of_nat fuel →
  8 * sp + ss + sc ≤ bits_of src → 8 * dp + ds + dc ≤ bits_of dst →
  ∃ dst', bit_copy_loop fuel src ss ds sp sc dp dc dst = Ok dst' ∧
    copied dst dst' (8 * dp + ds) dc src (8 * sp + ss) sc.
Proof.
  revert sp sc dp dc dst. induction fuel as [|fuel IH]; intros sp sc dp dc dst Hs Hd Hss Hds Hsp Hsc Hdp Hdc Hbs Hbd;
    (destruct (decide (dc = 0)) as [->|Hdc0]; [rewrite bit_copy_loop_done; eauto using copied_nothing|]); [lia|].
  simpl. rewrite (proj2 (Z.eqb_neq dc 0)) by done.
  destruct (next_bits_spec src ss sp sc) as (v & sp' & -> & Hv & Hbits & Hsp'); [done..|]. cbn [mbind res_bind].
  destruct (put_bits_spec dst ds dp dc v) as (d1 & -> & Hl1 & Hb1 & Hp1); [done|done|done|lia|done|]. cbn [mbind res_bind].
  assert ((if 8 <? dc then dc - 8 else 0) = Z.max 0 (dc - 8)) as -> by split_cmp.
  assert (∃ d', bit_copy_loop fuel src ss ds sp' (Z.max 0 (sc - 8)) (dp + 1) (Z.max 0 (dc - 8)) d1 = Ok d' ∧
    copied d1 d' (8 * (dp + 1) + ds) (Z.max 0 (dc - 8)) src (8 * (sp + 1) + ss) (Z.max 0 (sc - 8))) as (d' & -> & Hl & Hb & Hc).
  { destruct (decide (dc ≤ 8)).
    { rewrite (Z.max_l 0 (dc - 8)) by lia. rewrite bit_copy_loop_done. eauto using copied_nothing. }
    destruct (Z.ltb_spec sc 8); subst sp'; unfold bits_of in *.
    - destruct (IH sp (Z.max 0 (sc - 8)) (dp + 1) (Z.max 0 (dc - 8)) d1) as (d' & E & Hc); [done || lia..|].
      exists d'. split; [done|]. eapply copied_exhausted; [lia|done].
    - apply IH; (done || lia). }
  exists d'. split; [done|]. split; [lia|]. split; [done|]. intros i Hi. rewrite Hc, Hp1 by done.
  destruct (decide (8 * dp + ds ≤ i < 8 * dp + ds + Z.min 8 dc)).
  - rewrite Hbits by lia. split_cmp.
  - replace (8 * (sp + 1) + ss + (i - (8 * (dp + 1) + ds))) with (8 * sp + ss + (i - (8 * dp + ds))) by lia. split_cmp.
Qed.

Lemma land_7 i : Z.land i 7 = i mod 8.
Proof. apply (land_ones_mod 3). lia. Qed.

Lemma bit_copy_spec dst p n src q m :
  bytes src → bytes dst → 0 ≤ q → 0 ≤ m → 0 ≤ p → 0 ≤ n → q + m ≤ bits_of src → p + n ≤ bits_of dst →
  ∃ dst', bit_copy (MkSpan dst p n) (MkSpan src q m) = Ok dst' ∧ copied dst dst' p n src q m.
Proof.
  intros. unfold bit_copy. cbn [span_index span_data span_length]. rewrite !land_7.
  destruct (bit_copy_loop_spec (Z.to_nat n) src (q mod 8) (p mod 8) (q `div` 8) m (p `div` 8) n dst) as (d' & -> & Hc);
    [done || dlia..|].
  exists d'. split; [done|]. by replace (8 * (p `div` 8) + p mod 8) with p in Hc by dlia;
    replace (8 * (q `div` 8) + q mod 8) with q in Hc by dlia.
Qed.

Lemma round_up_bytes n : 0 ≤ n < 2 ^ 63 → uacpi_round_up_bits_to_bytes n = (n + 7) `div` 8.
Proof.
  intros Hn. unfold uacpi_round_up_bits_to_bytes, UACPI_ALIGN_UP. unwrap.
  assert (lnot64 (8 - 1) = 2 ^ 64 - 2 ^ 3) as -> by reflexivity. rewrite land_high_mask by lia. dlia.
Qed.

(** ** Copies of whole bytes *)

Lemma nth_copy (dst src : list Z) (d s c j : nat) :
  (d + c ≤ length dst)%nat → (s + c ≤ length src)%nat →
  nth j (take d dst ++ take c (drop s src) ++ drop (d + c) dst) 0 =
  if decide (d ≤ j < d + c)%nat then nth (s + (j - d)) src 0 else nth j dst 0.
Proof.
  intros Hd Hs. rewrite !nth_lookup. f_equal. case_decide as Hj.
  - rewrite lookup_app_r by (rewrite length_take; lia). rewrite length_take, Nat.min_l by lia.
    rewrite lookup_app_l by (rewrite length_take, length_drop; lia).
    rewrite lookup_take, lookup_drop. by rewrite decide_True by lia.
  - destruct (decide (j < d)%nat).
    + rewrite lookup_app_l by (rewrite length_take; lia). by rewrite lookup_take, decide_True by lia.
    + rewrite app_assoc, lookup_app_r by (rewrite length_app, !length_take, length_drop; lia).
      rewrite length_app, !length_take, length_drop, lookup_drop, !Nat.min_l by lia.
      by replace (d + c + (j - (d + c)))%nat with j by lia.
Qed.

(** Copying the bytes [s] to [s + c] of [src] copies their bits. *)
Lemma copied_bytes dst src (d s c : nat) :
  bytes dst → bytes src → (d + c ≤ length dst)%nat → (s + c ≤ length src)%nat →
  copied dst (take d dst ++ take c (drop s src) ++ drop (d + c) dst)
    (8 * Z.of_nat d) (8 * Z.of_nat c) src (8 * Z.of_nat s) (8 * Z.of_nat c).
Proof.
  intros Hd Hs Hld Hls. split; [rewrite !length_app, !length_take, !length_drop; lia|]. split.
  { by repeat apply Forall_app_2; repeat first [apply Forall_take|apply Forall_drop]. }
  intros i Hi. assert (∃ j k, i = 8 * Z.of_nat j + k ∧ 0 ≤ k < 8) as (j & k & -> & Hk).
  { exists (Z.to_nat (i `div` 8)), (i mod 8). rewrite Z2Nat.id by dlia. dlia. }
  rewrite !(bit_at _ (Z.of_nat j) k) by lia. rewrite Nat2Z.id, nth_copy by done. case_decide as Hj; [|split_cmp].
  replace (8 * Z.of_nat s + (8 * Z.of_nat j + k - 8 * Z.of_nat d)) with (8 * Z.of_nat (s + (j - d)) + k) by lia.
  rewrite bit_at, Nat2Z.id by lia. split_cmp.
Qed.

Lemma copy_bytes_spec dst d src s c :
  bytes dst → bytes src → 0 ≤ d → 0 ≤ s → 0 ≤ c → d + c ≤ Z.of_nat (length dst) → s + c ≤ Z.of_nat (length src) →
  ∃ dst', copy_bytes dst d src s c = Ok dst' ∧ copied dst dst' (8 * d) (8 * c) src (8 * s) (8 * c).
Proof.
  intros Hd Hs Hd0 Hs0 Hc Hld Hls. unfold copy_bytes.
  rewrite !(proj2 (Z.ltb_ge _ _)) by lia. cbn [orb]. eexists. split; [done|].
  pose proof (copied_bytes dst src (Z.to_nat d) (Z.to_nat s) (Z.to_nat c)) as H. rewrite !Z2Nat.id in H by lia.
  rewrite <-Z2Nat.inj_add in H by lia. apply H; (done || lia).
Qed.

Lemma zero_bytes_spec dst d c :
  bytes dst → 0 ≤ d → 0 ≤ c → d + c ≤ Z.of_nat (length dst) →
  ∃ dst', zero_bytes dst d c = Ok dst' ∧ ∀ src q, copied dst dst' (8 * d) (8 * c) src q 0.
Proof.
  intros Hd Hd0 Hc Hld. unfold zero_bytes. rewrite !(proj2 (Z.ltb_ge _ _)) by lia. cbn [orb]. eexists. split; [done|].
  intros src q. set (z := replicate (Z.to_nat c) 0).
  pose proof (copied_bytes dst z (Z.to_nat d) 0 (Z.to_nat c)) as H. rewrite drop_0, (take_ge z) in H by (unfold z; rewrite length_replicate; lia).
  rewrite !Z2Nat.id in H by lia. rewrite <-Z2Nat.inj_add in H by lia.
  destruct H as (H1 & H2 & H3); [done|by apply Forall_replicate; lia|lia|unfold z; rewrite length_replicate; lia|].
  split; [done|]. split; [done|]. intros i Hi. rewrite H3 by done. case_match; [|done].
  rewrite (proj2 (Z.ltb_ge (i - 8 * d) 0)) by split_cmp. unfold bit. rewrite nth_lookup.
  destruct (z !! _) as [b|] eqn:E; [apply lookup_replicate in E as [-> _]|]; simpl; by rewrite Z.bits_0, andb_false_r.
Qed.

Lemma memcpy_zerout_spec dst d src n m :
  bytes dst → bytes src → 0 ≤ d → 0 ≤ n → 0 ≤ m ≤ Z.of_nat (length src) → d + n ≤ Z.of_nat (length dst) →
  ∃ dst', uacpi_memcpy_zerout dst d src n m = Ok dst' ∧ copied dst dst' (8 * d) (8 * n) src 0 (8 * m).
Proof.
  intros Hd Hs Hd0 Hn Hm Hld. unfold uacpi_memcpy_zerout. set (c := if m <? n then m else n).
  assert (0 ≤ c ≤ n ∧ c ≤ m ∧ (c < n → c = m)) as (Hc & Hcm & Hcn) by (unfold c; split_cmp).
  assert (∃ d1, (if c =? 0 then Ok dst else copy_bytes dst d src 0 c) = Ok d1 ∧
            copied dst d1 (8 * d) (8 * c) src 0 (8 * c)) as (d1 & -> & Hl1 & Hb1 & H1).
  { destruct (Z.eqb_spec c 0) as [->|]; [exists dst; split; [done|by apply copied_nothing]|].
    apply (copy_bytes_spec dst d src 0 c); (done || lia). }
  cbn [mbind res_bind]. destruct (Z.ltb_spec c n).
  - destruct (zero_bytes_spec d1 (d + c) (n - c)) as (d2 & -> & Hz); [done|lia..|].
    destruct (Hz src 0) as (Hl2 & Hb2 & H2). exists d2. split; [done|]. split; [lia|]. split; [done|]. intros i Hi.
    rewrite H2, H1 by done. split_cmp.
  - exists d1. split; [done|]. replace n with c by lia. split; [done|]. split; [done|]. intros i Hi. rewrite H1 by done.
    split_cmp.
Qed.

(** The low [t] bits of byte [i] stay, the others come from [last]. *)
Lemma restore_tail_spec data i last t :
  bytes data → 0 ≤ i < Z.of_nat (length data) → 0 ≤ last < 256 → 0 < t < 8 →
  ∃ data', restore_tail data i last t = Ok data' ∧ length data' = length data ∧ bytes data' ∧
    ∀ q k, 0 ≤ q → 0 ≤ k < 8 → Z.testbit (nth (Z.to_nat q) data' 0) k =
      if (q =? i) && (t <=? k) then Z.testbit last k else Z.testbit (nth (Z.to_nat q) data 0) k.
Proof.
  intros Hd Hi Hlast Ht. unfold restore_tail.
  do 2 (rewrite byte_at_ok by (rewrite ?length_insert; lia); cbn [mbind res_bind];
        rewrite set_byte_ok by (rewrite ?length_insert; lia); cbn [mbind res_bind]).
  rewrite byte_at_ok by (rewrite ?length_insert; lia); cbn [mbind res_bind].
  rewrite set_byte_ok by (rewrite ?length_insert; lia). rewrite !list_insert_insert_eq.
  eexists. split; [done|]. split; [by rewrite length_insert|]. split; [by apply bytes_insert|].
  intros q k Hq Hk. rewrite !nth_insert by (rewrite ?length_insert; lia). rewrite !(decide_True (P := Z.to_nat i = Z.to_nat i)) by done.
  case_decide as E; [|by rewrite (proj2 (Z.eqb_neq q i)) by lia]. assert (q = i) as -> by lia. rewrite Z.eqb_refl. simpl.
  rewrite testbit_u8, Z.lor_spec, testbit_u8, Z.shiftr_spec, testbit_u8, !Z.shiftl_spec by lia.
  rewrite (proj2 (Z.ltb_lt k 8)) by lia. simpl. replace (k + (8 - t) - (8 - t)) with k by lia.
  destruct (Z.leb_spec t k).
  - rewrite (proj2 (Z.ltb_ge (k + (8 - t)) 8)) by lia. simpl. rewrite Z.shiftr_spec by lia. f_equal. lia.
  - rewrite (proj2 (Z.ltb_lt (k + (8 - t)) 8)) by lia. rewrite (Z.testbit_neg_r _ (k - t)) by lia. apply orb_false_r.
Qed.

(** [cut_misaligned_tail] clears the bits behind the first [n]. *)
Lemma cut_tail_spec data c n :
  bytes data → 0 < n < 2 ^ 32 → c = (n + 7) `div` 8 → c ≤ Z.of_nat (length data) →
  ∃ data', cut_misaligned_tail data (c -64 1) n = Ok data' ∧ length data' = length data ∧ bytes data' ∧
    ∀ i, 0 ≤ i → bit data' i = if (n <=? i) && (i <? 8 * c) then false else bit data i.
Proof.
  intros Hd Hn Hc Hl. unfold cut_misaligned_tail. rewrite land_7. rewrite wrap_small by dlia.
  destruct (Z.eqb_spec (n mod 8) 0) as [E|E].
  { exists data. repeat split; [done|]. intros i Hi. assert (n = 8 * c) by dlia. split_cmp. }
  assert (0 ≤ c - 1 < Z.of_nat (length data)) by dlia.
  rewrite byte_at_ok by done. cbn [mbind res_bind]. rewrite set_byte_ok by done. eexists. split; [done|].
  split; [by rewrite length_insert|]. split; [by apply bytes_insert|]. intros i Hi.
  assert (∃ q k, i = 8 * q + k ∧ 0 ≤ q ∧ 0 ≤ k < 8) as (q & k & -> & Hq & Hk) by (exists (i `div` 8), (i mod 8); dlia).
  rewrite !bit_at by done. rewrite nth_insert by lia. case_decide as Hj.
  - assert (q = c - 1) as -> by lia. rewrite testbit_u8, (proj2 (Z.ltb_lt k 8)), Z.land_spec, testbit_mask by dlia.
    assert (n = 8 * (c - 1) + n mod 8) by dlia. simpl. split_cmp; (apply andb_true_r || apply andb_false_r).
  - assert (8 * (c - 1) < n ≤ 8 * c) by dlia. split_cmp.
Qed.

(** ** Reading and writing fields *)

(** The field lies in its buffer. *)
Record field_ok (f : uacpi_buffer_field) : Prop := {
  fo_bytes : bytes (backing f);
  fo_index : 0 ≤ bit_index f;
  fo_length : 0 < bit_length f < 2 ^ 32;
  fo_inside : bit_index f + bit_length f ≤ bits_of (backing f)
}.

(** The number of bytes a field takes when it is read. *)
Definition field_bytes (f : uacpi_buffer_field) : Z := (bit_length f + 7) `div` 8.

(** The bytes of a field that starts at a byte. *)
Lemma field_units f :
  bit_index f mod 8 = 0 →
  bit_index f = 8 * (bit_index f `div` 8) ∧
  8 * ((bit_length f + 7) `div` 8 - 1) < bit_length f ≤ 8 * ((bit_length f + 7) `div` 8).
Proof. dlia. Qed.

Lemma misaligned_read_spec f dst :
  field_ok f → bytes dst → field_bytes f ≤ Z.of_nat (length dst) →
  ∃ dst', do_misaligned_buffer_read f dst = Ok dst' ∧
    copied dst dst' 0 (8 * field_bytes f) (backing f) (bit_index f) (bit_length f).
Proof.
  intros [Hb Hi Hl Hin] Hd Hc. unfold field_bytes, bits_of, do_misaligned_buffer_read in *. rewrite round_up_bytes by lia.
  rewrite wrap_small by dlia. rewrite (Z.mul_comm _ 8). apply bit_copy_spec; unfold bits_of; try done; dlia.
Qed.

Lemma read_spec f dst :
  field_ok f → bytes dst → field_bytes f ≤ Z.of_nat (length dst) →
  ∃ dst', uacpi_read_buffer_field f dst = Ok dst' ∧
    copied dst dst' 0 (8 * field_bytes f) (backing f) (bit_index f) (bit_length f).
Proof.
  intros Hf Hd Hc. unfold uacpi_read_buffer_field. rewrite land_7.
  destruct (Z.eqb_spec (bit_index f mod 8) 0) as [E|E]; [|by apply misaligned_read_spec].
  destruct Hf as [Hb Hi Hl Hin]. unfold bits_of, field_bytes in *. rewrite round_up_bytes by lia.
  destruct (field_units f E) as [Ei Ec]. set (c := (bit_length f + 7) `div` 8) in *. set (d := bit_index f `div` 8) in *.
  destruct (copy_bytes_spec dst 0 (backing f) d c) as (d1 & -> & Hl1 & Hb1 & H1); [done|done|lia..|].
  cbn [mbind res_bind]. destruct (cut_tail_spec d1 c (bit_length f)) as (d2 & -> & Hl2 & Hb2 & H2); [done|done|done|lia|].
  exists d2. split; [done|]. split; [lia|]. split; [done|]. intros i Hi0. rewrite H2, H1 by done.
  rewrite Ei, Z.mul_0_r. split_cmp.
Qed.

Lemma misaligned_write_spec f src size :
  field_ok f → bytes src → 0 ≤ size < 2 ^ 60 → size ≤ Z.of_nat (length src) →
  ∃ b', do_write_misaligned_buffer_field f src size = Ok b' ∧
    copied (backing f) b' (bit_index f) (bit_length f) src 0 (8 * size).
Proof.
  intros [Hb Hi Hl Hin] Hs Hsz Hsl. unfold do_write_misaligned_buffer_field. rewrite wrap_small by lia.
  rewrite (Z.mul_comm size 8). apply bit_copy_spec; unfold bits_of in *; (done || lia).
Qed.

Lemma write_spec f src size :
  field_ok f → bytes src → 0 ≤ size < 2 ^ 60 → size ≤ Z.of_nat (length src) →
  ∃ b', uacpi_write_buffer_field f src size = Ok b' ∧
    copied (backing f) b' (bit_index f) (bit_length f) src 0 (8 * size).
Proof.
  intros Hf Hs Hsz Hsl. unfold uacpi_write_buffer_field. rewrite land_7.
  destruct (Z.eqb_spec (bit_index f mod 8) 0) as [E|E]; [|by apply misaligned_write_spec].
  destruct Hf as [Hb Hi Hl Hin]. unfold bits_of, field_bytes in *. rewrite round_up_bytes by lia. rewrite land_7.
  destruct (field_units f E) as [Ei Ec]. set (c := (bit_length f + 7) `div` 8) in *. set (d := bit_index f `div` 8) in *.
  rewrite byte_at_ok by lia. cbn [mbind res_bind].
  destruct (memcpy_zerout_spec (backing f) d src c size) as (b1 & -> & Hl1 & Hb1 & H1); [done|done|lia..|].
  cbn [mbind res_bind]. destruct (Z.eqb_spec (bit_length f mod 8) 0) as [Et|Et].
  { exists b1. split; [done|]. replace (bit_length f) with (8 * c) by dlia. by rewrite Ei. }
  destruct (restore_tail_spec b1 (d + c - 1) (nth (Z.to_nat (d + c - 1)) (backing f) 0) (bit_length f mod 8))
    as (b2 & -> & Hl2 & Hb2 & H2); [done|lia|by apply bytes_nth|dlia|].
  exists b2. split; [done|]. split; [lia|]. split; [done|]. intros i Hi0.
  assert (∃ q k, i = 8 * q + k ∧ 0 ≤ q ∧ 0 ≤ k < 8) as (q & k & -> & Hq & Hk) by (exists (i `div` 8), (i mod 8); dlia).
  rewrite (bit_at b2), H2 by done. rewrite <-(bit_at b1) by done. rewrite H1 by lia. rewrite Ei.
  assert (bit_length f = 8 * (c - 1) + bit_length f mod 8) as El by dlia.
  destruct (Z.eqb_spec q (d + c - 1)) as [->|]; simpl; [|split_cmp].
  destruct (Z.leb_spec (bit_length f mod 8) k); rewrite <-?bit_at by lia; split_cmp.
Qed.

(** Byte lists with the same bits are equal. *)
Lemma bits_ext a b : bytes a → bytes b → length a = length b → (∀ i, 0 ≤ i → bit a i = bit b i) → a = b.
Proof.
  intros Ha Hb Hl H. apply (list_eq_same_length _ _ (length a)); [done..|]. intros j x y Hj Hx Hy.
  apply nth_lookup_Some with (d := 0) in Hx, Hy. subst x y. apply Z.bits_inj'. intros k Hk.
  destruct (decide (k < 8)).
  - specialize (H (8 * Z.of_nat j + k) ltac:(lia)). by rewrite !bit_at, Nat2Z.id in H by lia.
  - by rewrite !testbit_byte by (done || lia).
Qed.

Lemma copied_unique dst a b p n src q m : copied dst a p n src q m → copied dst b p n src q m → a = b.
Proof.
  intros (Hl1 & Hb1 & H1) (Hl2 & Hb2 & H2). apply bits_ext; [done..|congruence|]. intros i Hi. by rewrite H1, H2.
Qed.

(** ** Theorems *)

(** C28: what was written to a field is what is read from it, for every
    position, length and source: the write fills the field with the bits of
    the source, or zeros behind them, and leaves every other bit of the buffer;
    the read gives exactly these bits, clears the rest of the last byte it
    writes, and leaves the destination behind it. *)
Theorem buffer_field_roundtrip f src size dst :
  field_ok f → bytes src → 0 ≤ size < 2 ^ 60 → size ≤ Z.of_nat (length src) →
  bytes dst → field_bytes f ≤ Z.of_nat (length dst) →
  ∃ data dst',
    uacpi_write_buffer_field f src size = Ok data ∧
    uacpi_read_buffer_field (MkField data (bit_index f) (bit_length f)) dst = Ok dst' ∧
    (∀ i, 0 ≤ i → i < bit_index f ∨ bit_index f + bit_length f ≤ i → bit data i = bit (backing f) i) ∧
    (∀ i, 0 ≤ i < bit_length f → bit dst' i = (i <? 8 * size) && bit src i) ∧
    (∀ i, bit_length f ≤ i < 8 * field_bytes f → bit dst' i = false) ∧
    (∀ i, 8 * field_bytes f ≤ i → bit dst' i = bit dst i).
Proof.
  intros Hf Hs Hsz Hsl Hd Hc. destruct (write_spec f src size) as (data & -> & Hl1 & Hb1 & H1); [done..|].
  destruct Hf as [Hb Hi Hl Hin].
  destruct (read_spec (MkField data (bit_index f) (bit_length f)) dst) as (dst' & E & Hl2 & Hb2 & H2); [|done..|].
  { split; [done..|]. unfold bits_of in *. simpl. by rewrite Hl1. }
  exists data, dst'. split; [done|]. split; [done|]. unfold field_bytes in *. simpl in H2.
  assert (bit_length f ≤ 8 * ((bit_length f + 7) `div` 8)) by dlia.
  split; [intros i Hi0 Hout; rewrite H1 by done; split_cmp|].
  split; [|split; intros i Hi0; rewrite H2 by lia; split_cmp]. intros i Hi0. rewrite H2, H1 by lia.
  replace (0 + (bit_index f + (i - 0) - bit_index f)) with i by lia.
  replace (bit_index f + (i - 0) - bit_index f) with i by lia. split_cmp.
Qed.

Lemma buffer_field_roundtrip_witness :
  let f := MkField [0x11; 0x22; 0x33; 0x44] 5 11 in
  uacpi_write_buffer_field f [0xFF; 0xFA] 2 = Ok [0xF1; 0x5F; 0x33; 0x44] ∧
  uacpi_read_buffer_field (MkField [0xF1; 0x5F; 0x33; 0x44] 5 11) [9; 9; 9] = Ok [0xFF; 0x02; 9] ∧
  ∀ i, 0 ≤ i → i < 5 ∨ 16 ≤ i → bit [0xF1; 0x5F; 0x33; 0x44] i = bit [0x11; 0x22; 0x33; 0x44] i.
Proof.
  intros f. split; [vm_compute; reflexivity|]. split; [vm_compute; reflexivity|].
  destruct (buffer_field_roundtrip f [0xFF; 0xFA] 2 [9; 9; 9]) as (data & dst' & E1 & E2 & H & _).
  - split; [repeat constructor; simpl; lia|simpl; lia|simpl; lia|unfold bits_of; simpl; lia].
  - repeat constructor; lia.
  - lia.
  - simpl. lia.
  - repeat constructor; lia.
  - unfold field_bytes. simpl. vm_compute. discriminate.
  - vm_compute in E1. injection E1 as <-. exact H.
Defined.

(** C29: The fast paths agree with the general copy: for every field, the
    read and the write, which go by whole bytes where the field starts at a
    byte, give byte for byte what the bit copy gives. *)
Theorem buffer_field_fast_paths f src size dst :
  field_ok f → bytes src → 0 ≤ size < 2 ^ 60 → size ≤ Z.of_nat (length src) →
  bytes dst → field_bytes f ≤ Z.of_nat (length dst) →
  uacpi_read_buffer_field f dst = do_misaligned_buffer_read f dst ∧
  uacpi_write_buffer_field f src size = do_write_misaligned_buffer_field f src size.
Proof.
  intros Hf Hs Hsz Hsl Hd Hc. split.
  - destruct (read_spec f dst) as (a & -> & Ha); [done..|].
    destruct (misaligned_read_spec f dst) as (b & -> & Hb); [done..|].
    by rewrite (copied_unique _ _ _ _ _ _ _ _ Ha Hb).
  - destruct (write_spec f src size) as (a & -> & Ha); [done..|].
    destruct (misaligned_write_spec f src size) as (b & -> & Hb); [done..|].
    by rewrite (copied_unique _ _ _ _ _ _ _ _ Ha Hb).
Qed.

Lemma buffer_field_fast_paths_witness :
  let f := MkField [0x11; 0xF2; 0x33] 8 11 in
  uacpi_read_buffer_field f [0; 0] = do_misaligned_buffer_read f [0; 0] ∧
  do_misaligned_buffer_read f [0; 0] = Ok [0xF2; 0x03].
Proof.
  intros f. split; [|vm_compute; reflexivity].
  refine (proj1 (buffer_field_fast_paths f [1] 1 [0; 0] _ _ _ _ _ _)).
  - split; [repeat constructor; simpl; lia|simpl; lia|simpl; lia|unfold bits_of; simpl; lia].
  - repeat constructor; lia.
  - lia.
  - simpl. lia.
  - repeat constructor; lia.
  - vm_compute. discriminate.
Defined.
