(* ===== verification/UacpiGas.v ===== *)
(** * Generic address structures: the register accesses of uacpi/source/io.c

    Firmware describes a hardware register by a generic address structure
    ([acpi_gas]): an address space, an address, a width and an access size.
    This file models how the library checks such a structure, chooses the
    width of its accesses and reads and writes the register piece by piece.

    The functions of kernel_api.h that reach the hardware are operations of
    the interface [AcpiHost]; kernel/acpi/uacpi_interface.c implements
    [uacpi_kernel_map] (modelled in Tables.v), and its port functions only
    stop with an assertion.  A register that behaves like memory is described
    by [window]. *)

From S2P Require Import Prelude Mem Digits Npf Tables UacpiIo.
Local Open Scope Z_scope.
Local Open Scope kernel_scope.

(** ** The host *)

(** The functions the library calls, over a state [S] of the machine.  Ports
    are accessed with a width of 1, 2 or 4 bytes. *)
Class AcpiHost (S : Type) := {
  host_map : Z → Z → M S Z;
  host_unmap : Z → Z → M S unit;
  host_io_map : Z → Z → M S (uacpi_status * Z);
  host_io_unmap : Z → M S unit;
  host_io_read : Z → Z → Z → M S (uacpi_status * Z);
  host_io_write : Z → Z → Z → Z → M S uacpi_status;
  host_load : nat → Z → M S Z;
  host_store : nat → Z → Z → M S unit;
  host_create_spinlock : M S Z;
  host_free_spinlock : Z → M S unit;
  host_lock_spinlock : Z → M S Z;
  host_unlock_spinlock : Z → Z → M S unit
}.

(** ** Helpers of the library *)

Definition uacpi_bit_scan_backward (value : Z) : Z := if value =? 0 then 0 else 64 - builtin_clzll value.

(** [UACPI_IS_ALIGNED] and [UACPI_IS_POWER_OF_TWO]: for [val] zero the mask
    has all bits. *)
Definition UACPI_IS_ALIGNED (x val : Z) : bool := Z.land x (val - 1) =? 0.
Definition UACPI_IS_POWER_OF_TWO (x : Z) : bool := UACPI_IS_ALIGNED x x.

Definition UACPI_ADDRESS_SPACE_SYSTEM_MEMORY : Z := 0.

(** ** Checking a structure *)

(** The width is halved until the address is aligned to it. *)
Fixpoint back_off (fuel : nat) (address width : Z) : Z :=
  match fuel with
  | O => width
  | S fuel' => if UACPI_IS_ALIGNED address (width `div` 8) then width else back_off fuel' address (width `div` 2)
  end.

Definition gas_get_access_bit_width (gas : acpi_gas) : Z :=
  let access_bit_width :=
    if (gas_offset gas =? 0) && UACPI_IS_POWER_OF_TWO (gas_width gas) && UACPI_IS_ALIGNED (gas_width gas) 8
    then gas_width gas
    else if negb (gas_access gas =? 0) then u8 (gas_access gas * 8)
    else
      let msb := uacpi_bit_scan_backward (u64 (gas_offset gas + gas_width gas - 1)) in
      let w := u8 (Z.shiftl 1 msb) in
      if w <=? 8 then 8 else back_off 8 (gas_address gas) w in
  let limit := if gas_space gas =? UACPI_ADDRESS_SPACE_SYSTEM_IO then 32 else 64 in
  if access_bit_width <? limit then access_bit_width else limit.

(** The status, the access width and the total width; [None] is the null
    pointer. *)
Definition gas_validate (gas : option acpi_gas) : uacpi_status * (Z * Z) :=
  match gas with
  | None => (UACPI_STATUS_INVALID_ARGUMENT, (0, 0))
  | Some gas =>
      if gas_address gas =? 0 then (UACPI_STATUS_NOT_FOUND, (0, 0))
      else if negb (gas_space gas =? UACPI_ADDRESS_SPACE_SYSTEM_IO) &&
              negb (gas_space gas =? UACPI_ADDRESS_SPACE_SYSTEM_MEMORY) then (UACPI_STATUS_UNIMPLEMENTED, (0, 0))
      else if 4 <? gas_access gas then (UACPI_STATUS_UNIMPLEMENTED, (0, 0))
      else
        let access_bit_width := gas_get_access_bit_width gas in
        let total_width := gas_offset gas + gas_width gas in
        let aligned_width := UACPI_ALIGN_UP total_width access_bit_width in
        if 64 <? aligned_width then (UACPI_STATUS_UNIMPLEMENTED, (access_bit_width, 0))
        else (UACPI_STATUS_OK, (access_bit_width, u8 total_width))
  end.

(** ** Mapped registers *)

(** Which functions the three pointers of the structure hold. *)
Inductive gas_ops := GAS_SYSTEM_MEMORY | GAS_SYSTEM_IO.

Record uacpi_mapped_gas := MkMapped {
  mapping : Z;
  access_bit_width : Z;
  total_bit_width : Z;
  bit_offset : Z;
  ops : gas_ops
}.

Section gas.
Context {S : Type} `{AcpiHost S}.

Definition uacpi_system_memory_read (ptr offset width : Z) : M S (uacpi_status * Z) :=
  let ptr := ptr +64 offset in
  if (width =? 1) || (width =? 2) || (width =? 4) || (width =? 8)
  then v ← host_load (Z.to_nat width) ptr; mret (UACPI_STATUS_OK, wrap (8 * width) v)
  else mret (UACPI_STATUS_INVALID_ARGUMENT, 0).

Definition uacpi_system_memory_write (ptr offset width in_ : Z) : M S uacpi_status :=
  let ptr := ptr +64 offset in
  if (width =? 1) || (width =? 2) || (width =? 4) || (width =? 8)
  then host_store (Z.to_nat width) ptr (wrap (8 * width) in_);; mret UACPI_STATUS_OK
  else mret UACPI_STATUS_INVALID_ARGUMENT.

Definition uacpi_system_io_read (handle offset width : Z) : M S (uacpi_status * Z) :=
  if (width =? 1) || (width =? 2) || (width =? 4) then r ← host_io_read handle offset width; mret (fst r, wrap (8 * width) (snd r))
  else mret (UACPI_STATUS_INVALID_ARGUMENT, 0).

Definition uacpi_system_io_write (handle offset width in_ : Z) : M S uacpi_status :=
  if (width =? 1) || (width =? 2) || (width =? 4) then host_io_write handle offset width (wrap (8 * width) in_)
  else mret UACPI_STATUS_INVALID_ARGUMENT.

Definition gas_read (gas : uacpi_mapped_gas) (offset width : Z) : M S (uacpi_status * Z) :=
  match ops gas with
  | GAS_SYSTEM_MEMORY => uacpi_system_memory_read (mapping gas) offset width
  | GAS_SYSTEM_IO => uacpi_system_io_read (mapping gas) offset width
  end.

Definition gas_write (gas : uacpi_mapped_gas) (offset width in_ : Z) : M S uacpi_status :=
  match ops gas with
  | GAS_SYSTEM_MEMORY => uacpi_system_memory_write (mapping gas) offset width in_
  | GAS_SYSTEM_IO => uacpi_system_io_write (mapping gas) offset width in_
  end.

Definition unmap_gas_io (io_handle size : Z) : M S unit := host_io_unmap io_handle.

Definition gas_unmap (gas : uacpi_mapped_gas) (size : Z) : M S unit :=
  match ops gas with
  | GAS_SYSTEM_MEMORY => host_unmap (mapping gas) size
  | GAS_SYSTEM_IO => unmap_gas_io (mapping gas) size
  end.

(** The mask of one access. *)
Definition access_mask (gas : uacpi_mapped_gas) : Z :=
  if access_bit_width gas `div` 8 <? 8 then lnot64 (u64 (Z.shiftl (2 ^ 64 - 1) (access_bit_width gas))) else 2 ^ 64 - 1.

(** A shift by the width of the type or more has no meaning in C. *)
Definition shift_ok (n : Z) : M S unit := if n <? 64 then mret tt else fault n.

Fixpoint gas_read_loop (fuel : nat) (gas : uacpi_mapped_gas) (offset index bit_off bits_left out : Z) :
    M S (uacpi_status * Z) :=
  if bits_left =? 0 then mret (UACPI_STATUS_OK, out)
  else match fuel with
       | O => nofuel
       | Datatypes.S fuel' =>
           r ← (if access_bit_width gas <=? bit_off then mret (UACPI_STATUS_OK, 0)
                else gas_read gas offset (access_bit_width gas `div` 8));
           match fst r with
           | UACPI_STATUS_OK =>
               shift_ok (index * access_bit_width gas);;
               gas_read_loop fuel' gas (offset +64 (access_bit_width gas `div` 8)) (u8 (index + 1))
                 (if access_bit_width gas <=? bit_off then bit_off - access_bit_width gas else bit_off)
                 (bits_left - Z.min bits_left (access_bit_width gas))
                 (Z.lor out (u64 (Z.shiftl (Z.land (snd r) (access_mask gas)) (index * access_bit_width gas))))
           | ret => mret (ret, out)
           end
       end.

Definition uacpi_gas_read_mapped (gas : uacpi_mapped_gas) : M S (uacpi_status * Z) :=
  gas_read_loop (Z.to_nat (total_bit_width gas)) gas 0 0 (bit_offset gas) (total_bit_width gas) 0.

Fixpoint gas_write_loop (fuel : nat) (gas : uacpi_mapped_gas) (offset index bit_off bits_left in_value : Z) :
    M S uacpi_status :=
  if bits_left =? 0 then mret UACPI_STATUS_OK
  else match fuel with
       | O => nofuel
       | Datatypes.S fuel' =>
           shift_ok (index * access_bit_width gas);;
           let data := Z.land (Z.shiftr in_value (index * access_bit_width gas)) (access_mask gas) in
           ret ← (if access_bit_width gas <=? bit_off then mret UACPI_STATUS_OK
                  else gas_write gas offset (access_bit_width gas `div` 8) data);
           match ret with
           | UACPI_STATUS_OK =>
               gas_write_loop fuel' gas (offset +64 (access_bit_width gas `div` 8)) (u8 (index + 1))
                 (if access_bit_width gas <=? bit_off then bit_off - access_bit_width gas else bit_off)
                 (bits_left - Z.min bits_left (access_bit_width gas)) in_value
           | _ => mret ret
           end
       end.

Definition uacpi_gas_write_mapped (gas : uacpi_mapped_gas) (in_value : Z) : M S uacpi_status :=
  gas_write_loop (Z.to_nat (total_bit_width gas)) gas 0 0 (bit_offset gas) (total_bit_width gas) in_value.

(** [None]: nothing is stored to [out_mapped] that a caller uses. *)
Definition uacpi_map_gas_noalloc (gas : option acpi_gas) : M S (uacpi_status * option uacpi_mapped_gas) :=
  match gas_validate gas, gas with
  | (UACPI_STATUS_OK, (access, total)), Some g =>
      if gas_space g =? UACPI_ADDRESS_SPACE_SYSTEM_MEMORY then
        p ← host_map (gas_address g) (total `div` 8);
        if p =? 0 then mret (UACPI_STATUS_MAPPING_FAILED, None)
        else mret (UACPI_STATUS_OK, Some (MkMapped p access total (gas_offset g) GAS_SYSTEM_MEMORY))
      else
        r ← host_io_map (gas_address g) (total `div` 8);
        match fst r with
        | UACPI_STATUS_OK => mret (UACPI_STATUS_OK, Some (MkMapped (snd r) access total (gas_offset g) GAS_SYSTEM_IO))
        | ret => mret (ret, None)
        end
  | (ret, _), _ => mret (ret, None)
  end.

Definition uacpi_unmap_gas_nofree (gas : uacpi_mapped_gas) : M S unit := gas_unmap gas (access_bit_width gas `div` 8).

Definition uacpi_gas_read (gas : option acpi_gas) : M S (uacpi_status * Z) :=
  r ← uacpi_map_gas_noalloc gas;
  match r with
  | (_, Some g) => v ← uacpi_gas_read_mapped g; uacpi_unmap_gas_nofree g;; mret v
  | (ret, None) => mret (ret, 0)
  end.

Definition uacpi_gas_write (gas : option acpi_gas) (in_value : Z) : M S uacpi_status :=
  r ← uacpi_map_gas_noalloc gas;
  match r with
  | (_, Some g) => ret ← uacpi_gas_write_mapped g in_value; uacpi_unmap_gas_nofree g;; mret ret
  | (ret, None) => mret ret
  end.
End gas.

(** ** Registers that behave like memory *)

(** The number of bytes of one access. *)
Definition access_bytes (g : uacpi_mapped_gas) : Z := access_bit_width g `div` 8.

Section window.
Context {S : Type} `{AcpiHost S}.

(** The [n] bytes behind [g] are the bytes of [view]: accesses of the
    register's width read and write them. *)
Record window (g : uacpi_mapped_gas) (view : S → mem) (n : Z) : Prop := {
  win_read s off v :
    0 ≤ off → off + access_bytes g ≤ n → load (Z.to_nat (access_bytes g)) (view s) off = Some v →
    gas_read g off (access_bytes g) s = Ok ((UACPI_STATUS_OK, v), s);
  win_write s off v :
    0 ≤ off → off + access_bytes g ≤ n → 0 ≤ v < 256 ^ access_bytes g →
    ∃ s', gas_write g off (access_bytes g) v s = Ok (UACPI_STATUS_OK, s') ∧
      ∀ x, view s' x = store (Z.to_nat (access_bytes g)) (view s) off v x;
  win_mapped s : mapped (Z.to_nat n) (view s) 0 = true
}.
End window.

(** A register read by [k] accesses, of 64 bits at most together, and whose
    bit offset skips none of them. *)
Record in_pieces (g : uacpi_mapped_gas) (k : Z) : Prop := {
  ip_width : access_bit_width g ∈ [8; 16; 32; 64];
  ip_offset : 0 ≤ bit_offset g < access_bit_width g;
  ip_total : access_bit_width g * (k - 1) < total_bit_width g ≤ access_bit_width g * k;
  ip_pieces : 0 < k;
  ip_fits : access_bit_width g * k ≤ 64
}.

Section pieces.
Variables (g : uacpi_mapped_gas) (k : Z).
Hypothesis Hg : in_pieces g k.

Lemma pieces_bytes : access_bit_width g = 8 * access_bytes g ∧ 0 < access_bytes g ≤ 8.
Proof.
  unfold access_bytes. pose proof (ip_width g k Hg) as Hw. rewrite !elem_of_cons, elem_of_nil in Hw.
  destruct Hw as [->|[->|[->|[->|[]]]]]; split; (reflexivity || (split; [reflexivity|discriminate])).
Qed.

Lemma pieces_mask : access_mask g = 2 ^ access_bit_width g - 1.
Proof.
  unfold access_mask. pose proof (ip_width g k Hg) as Hw. rewrite !elem_of_cons, elem_of_nil in Hw.
  by destruct Hw as [->|[->|[->|[->|[]]]]].
Qed.

(** Adding the piece [d] above the [i] pieces [out]. *)
Lemma piece_added i d out :
  0 ≤ i < k → 0 ≤ d < 2 ^ access_bit_width g → 0 ≤ out < 2 ^ (i * access_bit_width g) →
  Z.lor out (u64 (Z.shiftl (Z.land d (access_mask g)) (i * access_bit_width g))) = out + 2 ^ (i * access_bit_width g) * d.
Proof.
  intros Hi Hd Ho. destruct pieces_bytes as [Ea Hb]. pose proof (ip_fits g k Hg).
  rewrite pieces_mask, land_ones_mod, Z.mod_small by (done || lia).
  rewrite Z.shiftl_mul_pow2 by nia. rewrite wrap_small.
  - rewrite Z.lor_comm, (lor_add_disjoint (i * access_bit_width g)); [lia|nia| |done].
    by rewrite Z.mod_mul by (apply Z.pow_nonzero; nia).
  - split; [apply Z.mul_nonneg_nonneg; [lia|by apply Z.pow_nonneg]|].
    apply Z.lt_le_trans with (2 ^ access_bit_width g * 2 ^ (i * access_bit_width g)).
    + apply Z.mul_lt_mono_pos_r; [apply Z.pow_pos_nonneg; nia|lia].
    + rewrite <-Z.pow_add_r by nia. apply Z.pow_le_mono_r; nia.
Qed.
End pieces.

Section transfer.
Context {S : Type} `{AcpiHost S}.
Variables (g : uacpi_mapped_gas) (k : Z) (view : S → mem).
Hypothesis Hg : in_pieces g k.
Hypothesis Hw : window g view (k * access_bytes g).

Lemma bytes_bits i : 0 ≤ i → 256 ^ (i * access_bytes g) = 2 ^ (i * access_bit_width g).
Proof.
  intros Hi. destruct (pieces_bytes g k Hg) as [-> Hb]. change 256 with (2 ^ 8). rewrite <-Z.pow_mul_r by nia.
  f_equal. lia.
Qed.

Lemma piece_load s i :
  0 ≤ i < k → ∃ d, load (Z.to_nat (access_bytes g)) (view s) (i * access_bytes g) = Some d ∧ 0 ≤ d < 2 ^ access_bit_width g.
Proof.
  intros Hi. destruct (pieces_bytes g k Hg) as [Ea Hb].
  assert (mapped (Z.to_nat (access_bytes g)) (view s) (i * access_bytes g) = true) as Hm.
  { apply mapped_spec. intros x Hx. pose proof (proj1 (mapped_spec _ _ _) (win_mapped _ _ _ Hw s)) as Hall.
    apply Hall. nia. }
  apply load_is_Some in Hm as [d Hd]. exists d. split; [done|]. apply load_range in Hd. rewrite Z2Nat.id in Hd by lia.
  pose proof (bytes_bits 1 ltac:(lia)) as E. rewrite !Z.mul_1_l in E. by rewrite <-E.
Qed.

(** One more piece. *)
Lemma load_piece s i out d :
  0 ≤ i < k → load (Z.to_nat (i * access_bytes g)) (view s) 0 = Some out →
  load (Z.to_nat (access_bytes g)) (view s) (i * access_bytes g) = Some d →
  load (Z.to_nat ((i + 1) * access_bytes g)) (view s) 0 = Some (out + 2 ^ (i * access_bit_width g) * d).
Proof.
  intros Hi Ho Hd. destruct (pieces_bytes g k Hg) as [Ea Hb].
  replace (Z.to_nat ((i + 1) * access_bytes g)) with (Z.to_nat (i * access_bytes g) + Z.to_nat (access_bytes g))%nat by nia.
  rewrite (load_app _ _ _ _ _ d Ho) by (by rewrite Z2Nat.id by nia). by rewrite Z2Nat.id, bytes_bits by nia.
Qed.

Lemma gas_read_loop_spec s v (j fuel : nat) i out :
  i + Z.of_nat j = k → 0 ≤ i → (j ≤ fuel)%nat →
  load (Z.to_nat (i * access_bytes g)) (view s) 0 = Some out →
  load (Z.to_nat (k * access_bytes g)) (view s) 0 = Some v →
  gas_read_loop fuel g (i * access_bytes g) i (bit_offset g)
    (Z.max 0 (total_bit_width g - i * access_bit_width g)) out s = Ok ((UACPI_STATUS_OK, v), s).
Proof.
  destruct (pieces_bytes g k Hg) as [Ea Hb]. destruct Hg as [_ Hoff Htot Hk Hfit].
  revert fuel i out. induction j as [|j IH]; intros fuel i out Hij Hi Hf Ho Hv.
  { assert (i = k) as -> by lia. assert (out = v) as -> by congruence.
    rewrite Z.max_l by lia. by destruct fuel. }
  destruct fuel as [|fuel]; [lia|]. cbn [gas_read_loop].
  rewrite (proj2 (Z.eqb_neq _ 0)) by nia. rewrite (proj2 (Z.leb_gt (access_bit_width g) (bit_offset g))) by lia.
  destruct (piece_load s i) as (d & Hd & Hdr); [lia|]. fold (access_bytes g).
  unfold mbind, M_bind. rewrite (win_read _ _ _ Hw s _ d) by (done || nia). cbn [fst snd].
  unfold shift_ok. rewrite (proj2 (Z.ltb_lt (i * access_bit_width g) 64)) by nia.
  assert (0 ≤ out < 2 ^ (i * access_bit_width g)) as Hor.
  { apply load_range in Ho. by rewrite Z2Nat.id, bytes_bits in Ho by nia. }
  cbn [mret M_ret]. rewrite (piece_added g k Hg) by (done || lia).
  rewrite !wrap_small by nia. rewrite <-(IH fuel (i + 1) (out + 2 ^ (i * access_bit_width g) * d));
    [f_equal; nia|lia..|apply load_piece; [lia|done..]|done].
Qed.

(** Reading gives the bytes of the register. *)
Lemma gas_read_mapped_loads s v :
  load (Z.to_nat (k * access_bytes g)) (view s) 0 = Some v →
  uacpi_gas_read_mapped g s = Ok ((UACPI_STATUS_OK, v), s).
Proof.
  intros Hv. unfold uacpi_gas_read_mapped. destruct (pieces_bytes g k Hg) as [Ea Hb]. pose proof Hg as [_ Hoff Htot Hk Hfit].
  rewrite <-(gas_read_loop_spec s v (Z.to_nat k) (Z.to_nat (total_bit_width g)) 0 0); [|nia..|done|done].
  f_equal; nia.
Qed.

Lemma gas_write_loop_spec v (j fuel : nat) i s :
  0 ≤ v → i + Z.of_nat j = k → 0 ≤ i → (j ≤ fuel)%nat →
  ∃ s', gas_write_loop fuel g (i * access_bytes g) i (bit_offset g)
      (Z.max 0 (total_bit_width g - i * access_bit_width g)) v s = Ok (UACPI_STATUS_OK, s') ∧
    ∀ x, view s' x =
      store (j * Z.to_nat (access_bytes g)) (view s) (i * access_bytes g) (v `div` 256 ^ (i * access_bytes g)) x.
Proof.
  destruct (pieces_bytes g k Hg) as [Ea Hb]. pose proof Hg as [_ Hoff Htot Hk Hfit].
  intros Hv. revert fuel i s. induction j as [|j IH]; intros fuel i s Hij Hi Hf.
  { assert (i = k) as -> by lia. rewrite Z.max_l by lia. exists s. by destruct fuel. }
  destruct fuel as [|fuel]; [lia|]. cbn [gas_write_loop].
  rewrite (proj2 (Z.eqb_neq _ 0)) by nia. rewrite (proj2 (Z.leb_gt (access_bit_width g) (bit_offset g))) by lia.
  fold (access_bytes g). unfold shift_ok. rewrite (proj2 (Z.ltb_lt (i * access_bit_width g) 64)) by nia.
  rewrite (pieces_mask g k Hg), land_ones_mod, Z.shiftr_div_pow2, <-bytes_bits by nia.
  pose proof (bytes_bits 1 ltac:(lia)) as E1. rewrite !Z.mul_1_l in E1. rewrite <-E1.
  set (q := v `div` 256 ^ (i * access_bytes g)).
  assert (0 ≤ q mod 256 ^ access_bytes g < 256 ^ access_bytes g) as Hq by (apply Z.mod_pos_bound, Z.pow_pos_nonneg; lia).
  destruct (win_write _ _ _ Hw s (i * access_bytes g) (q mod 256 ^ access_bytes g)) as (s1 & E & Hs1); [nia|nia|done|].
  unfold mbind, M_bind. cbn [mret M_ret]. rewrite E. rewrite !wrap_small by nia.
  destruct (IH fuel (i + 1) s1) as (s' & E' & Hs'); [lia..|]. exists s'. split.
  - rewrite <-E'. f_equal; nia.
  - intros x. rewrite Hs'. change (Datatypes.S j * ?n)%nat with (n + j * n)%nat. rewrite store_app.
    rewrite Z2Nat.id by lia. replace (i * access_bytes g + access_bytes g) with ((i + 1) * access_bytes g) by lia.
    replace (v `div` 256 ^ ((i + 1) * access_bytes g)) with (q `div` 256 ^ access_bytes g).
    + apply store_ext. intros y. rewrite Hs1, <-(store_mod _ _ _ q), Z2Nat.id by lia. done.
    + unfold q. rewrite Z.div_div by (try apply Z.pow_pos_nonneg; try apply Z.pow_nonzero; nia).
      f_equal. rewrite <-Z.pow_add_r by nia. f_equal. lia.
Qed.

(** Writing replaces the bytes of the register. *)
Lemma gas_write_mapped_stores v s :
  0 ≤ v → ∃ s', uacpi_gas_write_mapped g v s = Ok (UACPI_STATUS_OK, s') ∧
    ∀ x, view s' x = store (Z.to_nat (k * access_bytes g)) (view s) 0 v x.
Proof.
  intros Hv. unfold uacpi_gas_write_mapped. destruct (pieces_bytes g k Hg) as [Ea Hb]. pose proof Hg as [_ Hoff Htot Hk Hfit].
  destruct (gas_write_loop_spec v (Z.to_nat k) (Z.to_nat (total_bit_width g)) 0 s) as (s' & E & Hs'); [done|nia..|].
  exists s'. split; [rewrite <-E; f_equal; nia|]. intros x. rewrite Hs', Z.mul_0_l, Z.div_1_r.
  by replace (Z.to_nat k * Z.to_nat (access_bytes g))%nat with (Z.to_nat (k * access_bytes g)) by nia.
Qed.
End transfer.

(** ** Registers of the firmware tables *)

(** A register as the FADT describes it: a number of whole bytes at an
    address, in memory or in port space. *)
Record fixed_register (gas : acpi_gas) : Prop := {
  fr_space : gas_space gas = UACPI_ADDRESS_SPACE_SYSTEM_MEMORY ∨ gas_space gas = UACPI_ADDRESS_SPACE_SYSTEM_IO;
  fr_width : gas_width gas ∈ [8; 16; 32; 64];
  fr_offset : gas_offset gas = 0;
  fr_access : 0 ≤ gas_access gas ≤ 4;
  fr_address : gas_address gas ≠ 0
}.

(** The largest access a space allows. *)
Definition space_limit (gas : acpi_gas) : Z := if gas_space gas =? UACPI_ADDRESS_SPACE_SYSTEM_IO then 32 else 64.

Lemma gas_validate_fixed gas :
  fixed_register gas →
  gas_validate (Some gas) = (UACPI_STATUS_OK, (Z.min (gas_width gas) (space_limit gas), gas_width gas)).
Proof.
  intros [Hs Hw Ho Ha Haddr]. destruct gas as [space width offset access address]. simpl in *. subst offset.
  unfold gas_validate, gas_get_access_bit_width, space_limit. simpl. rewrite (proj2 (Z.eqb_neq address 0)) by done.
  rewrite (proj2 (Z.ltb_ge 4 access)) by lia. rewrite !elem_of_cons, elem_of_nil in Hw.
  destruct Hs as [->| ->], Hw as [->|[->|[->|[->|[]]]]]; reflexivity.
Qed.

Lemma fixed_pieces gas p o :
  fixed_register gas →
  in_pieces (MkMapped p (Z.min (gas_width gas) (space_limit gas)) (gas_width gas) 0 o)
    (gas_width gas `div` Z.min (gas_width gas) (space_limit gas)) ∧
  gas_width gas `div` Z.min (gas_width gas) (space_limit gas) * (Z.min (gas_width gas) (space_limit gas) `div` 8) =
  gas_width gas `div` 8.
Proof.
  intros [Hs Hw _ _ _]. destruct gas as [space width offset access address]. unfold space_limit. simpl in *.
  rewrite !elem_of_cons, elem_of_nil in Hw.
  destruct Hs as [->| ->], Hw as [->|[->|[->|[->|[]]]]]; (split; [|reflexivity]); split; simpl;
    try (apply (bool_decide_unpack _); vm_compute; exact I); lia.
Qed.

Section registers.
Context {S : Type} `{AcpiHost S}.

(** The host maps the register without further effect, and what it maps
    behaves like the bytes of [view], whatever the width of the accesses. *)
Record backed (gas : acpi_gas) (view : S → mem) : Prop := {
  bk_map : if gas_space gas =? UACPI_ADDRESS_SPACE_SYSTEM_MEMORY
    then ∃ p, p ≠ 0 ∧ (∀ s len, host_map (gas_address gas) len s = Ok (p, s)) ∧ (∀ s n, host_unmap p n s = Ok (tt, s)) ∧
         ∀ a t, a ∈ [8; 16; 32; 64] → window (MkMapped p a t 0 GAS_SYSTEM_MEMORY) view (gas_width gas `div` 8)
    else ∃ p, (∀ s len, host_io_map (gas_address gas) len s = Ok ((UACPI_STATUS_OK, p), s)) ∧
         (∀ s, host_io_unmap p s = Ok (tt, s)) ∧
         ∀ a t, a ∈ [8; 16; 32] → window (MkMapped p a t 0 GAS_SYSTEM_IO) view (gas_width gas `div` 8)
}.

(** A fixed register is mapped as a sequence of pieces in its window. *)
Lemma map_fixed gas view :
  fixed_register gas → backed gas view →
  ∃ g k, (∀ s, uacpi_map_gas_noalloc (Some gas) s = Ok ((UACPI_STATUS_OK, Some g), s)) ∧
    (∀ s, uacpi_unmap_gas_nofree g s = Ok (tt, s)) ∧
    in_pieces g k ∧ window g view (k * access_bytes g) ∧ k * access_bytes g = gas_width gas `div` 8.
Proof.
  intros Hf [Hb]. unfold uacpi_map_gas_noalloc. rewrite gas_validate_fixed by done.
  pose proof (fr_offset gas Hf) as Ho. destruct (fr_space gas Hf) as [Es|Es]; rewrite Es in *; simpl in Hb.
  - destruct Hb as (p & Hp & Hmap & Hun & Hwin).
    destruct (fixed_pieces gas p GAS_SYSTEM_MEMORY Hf) as [Hpc Hn]. eexists _, _. split_and!; [|..|exact Hpc| |exact Hn].
    + intros s. simpl. unfold mbind, M_bind. rewrite Hmap. rewrite (proj2 (Z.eqb_neq p 0)) by done. by rewrite Ho.
    + intros s. apply Hun.
    + unfold access_bytes. simpl access_bit_width. rewrite Hn. apply Hwin, Hpc.
  - destruct Hb as (p & Hmap & Hun & Hwin).
    destruct (fixed_pieces gas p GAS_SYSTEM_IO Hf) as [Hpc Hn]. eexists _, _. split_and!; [|..|exact Hpc| |exact Hn].
    + intros s. simpl. unfold mbind, M_bind. rewrite Hmap. by rewrite Ho.
    + intros s. apply Hun.
    + unfold access_bytes. simpl access_bit_width. rewrite Hn. apply Hwin.
      pose proof (ip_width _ _ Hpc) as Hw. unfold space_limit in *. rewrite Es in *. simpl in *.
      rewrite !elem_of_cons in *. destruct Hw as [->|[->|[->|[Hw|[]%elem_of_nil]]]]; [tauto..|]. lia.
Qed.
End registers.

(** ** A host whose devices are memory *)

(** Registers at [p + x] seen from the start of the window. *)
Definition view_at (p n : Z) (m : mem) : mem := λ x, if (0 <=? x) && (x <? n) then m (p + x) else None.

Lemma view_at_in p n m x : 0 ≤ x < n → view_at p n m x = m (p + x).
Proof. intros. unfold view_at. rewrite (proj2 (Z.leb_le 0 x)), (proj2 (Z.ltb_lt x n)) by lia. done. Qed.

Lemma load_shift w p m m' off :
  (∀ x, off ≤ x < off + Z.of_nat w → m' x = m (p + x)) → load w m' off = load w m (p + off).
Proof.
  revert off. induction w as [|w IH]; intros off Hx; [done|]. rewrite !load_S. unfold load8. rewrite Hx by lia.
  rewrite IH by (intros; apply Hx; lia). by replace (p + off + 1) with (p + (off + 1)) by lia.
Qed.

Lemma store_shift w p n m off v x :
  0 ≤ off → off + Z.of_nat w ≤ n → view_at p n (store w m (p + off) v) x = store w (view_at p n m) off v x.
Proof.
  revert m off v. induction w as [|w IH]; intros m off v Ho Hn; [done|]. rewrite !store_S.
  replace (p + off + 1) with (p + (off + 1)) by lia. rewrite IH by lia. apply store_ext. intros y.
  unfold view_at, store8. destruct (Z.eqb_spec y off) as [->|].
  - rewrite (proj2 (Z.leb_le 0 off)), (proj2 (Z.ltb_lt off n)) by lia. simpl. by rewrite Z.eqb_refl.
  - destruct ((0 <=? y) && (y <? n)); [|done]. by rewrite (proj2 (Z.eqb_neq (p + y) (p + off))) by lia.
Qed.

(** A machine in which every byte is there, with the ports at an offset of
    their own. *)
Definition ram : Type := Z → Z.
Definition ram_mem (f : ram) : mem := λ x, Some (f x).
Definition ram_load (w : nat) (a : Z) : M ram Z := λ f, Ok (default 0 (load w (ram_mem f) a), f).
Definition ram_store (w : nat) (a v : Z) : M ram unit := λ f, Ok (tt, λ x, default 0 (store w (ram_mem f) a v x)).

Definition flat_host (direct ports : Z) : AcpiHost ram := {|
  host_map := λ a _, mret (a + direct);
  host_unmap := λ _ _, mret tt;
  host_io_map := λ a _, mret (UACPI_STATUS_OK, a + ports);
  host_io_unmap := λ _, mret tt;
  host_io_read := λ h off w, v ← ram_load (Z.to_nat w) (h + off); mret (UACPI_STATUS_OK, v);
  host_io_write := λ h off w v, ram_store (Z.to_nat w) (h + off) v;; mret UACPI_STATUS_OK;
  host_load := ram_load;
  host_store := ram_store;
  host_create_spinlock := mret 1;
  host_free_spinlock := λ _, mret tt;
  host_lock_spinlock := λ _, mret 0;
  host_unlock_spinlock := λ _ _, mret tt
|}.

Section theorems.
Context {S : Type} `{AcpiHost S}.

(** C30: a fixed register of the firmware tables keeps what is written to it:
    for a generic address structure with bit offset zero and a width of 8, 16,
    32 or 64 bits ([fixed_register]) in memory or port space whose bytes behave
    like memory, [uacpi_gas_write] replaces exactly its bytes by the value, in
    as many accesses as the space needs, and [uacpi_gas_read] gives the value
    back, cut to the width of the register. *)
Theorem gas_write_read gas view v s :
  fixed_register gas → backed gas view → 0 ≤ v →
  ∃ s', uacpi_gas_write (Some gas) v s = Ok (UACPI_STATUS_OK, s') ∧
    (∀ x, view s' x = store (Z.to_nat (gas_width gas `div` 8)) (view s) 0 v x) ∧
    uacpi_gas_read (Some gas) s' = Ok ((UACPI_STATUS_OK, v mod 2 ^ gas_width gas), s').
Proof.
  intros Hf Hb Hv. destruct (map_fixed gas view Hf Hb) as (g & k & Hmap & Hun & Hpc & Hwin & Hn).
  destruct (gas_write_mapped_stores g k view Hpc Hwin v s Hv) as (s' & E & Hs'). rewrite Hn in Hs'. exists s'.
  unfold uacpi_gas_write, uacpi_gas_read, mbind, M_bind. rewrite !Hmap, E, !Hun. split; [done|]. split; [done|].
  rewrite (gas_read_mapped_loads g k view Hpc Hwin s' (v mod 2 ^ gas_width gas)).
  - by rewrite Hun.
  - rewrite Hn, (load_ext _ (store (Z.to_nat (gas_width gas `div` 8)) (view s) 0 v)) by (intros; apply Hs').
    rewrite load_store_eq. do 2 f_equal. pose proof (fr_width gas Hf) as Hw. rewrite !elem_of_cons, elem_of_nil in Hw.
    by destruct Hw as [->|[->|[->|[->|[]]]]].
Qed.
End theorems.

(** The registers of [flat_host] behave like memory. *)
Lemma ram_store_view w p n f off v x :
  0 ≤ off → off + Z.of_nat w ≤ n →
  view_at p n (ram_mem (λ x, default 0 (store w (ram_mem f) (p + off) v x))) x = store w (view_at p n (ram_mem f)) off v x.
Proof.
  intros Ho Hn. rewrite <-store_shift by done. unfold view_at. case_match; [|done]. unfold ram_mem at 1.
  destruct (store_is_Some w (ram_mem f) (p + off) v (p + x)) as [b ->]; [done|]. done.
Qed.

Lemma ram_load_view w p n f off v :
  0 ≤ off → off + Z.of_nat w ≤ n → load w (view_at p n (ram_mem f)) off = Some v →
  default 0 (load w (ram_mem f) (p + off)) = v ∧ 0 ≤ v < 256 ^ Z.of_nat w.
Proof.
  intros Ho Hn Hv. split; [|by eapply load_range]. rewrite (load_shift w p (ram_mem f)) in Hv; [by rewrite Hv|].
  intros x Hx. apply view_at_in. lia.
Qed.

Lemma flat_window direct ports p a t o n :
  a ∈ (if o is GAS_SYSTEM_IO then [8; 16; 32] else [8; 16; 32; 64]) → 0 ≤ p → p + n < 2 ^ 64 →
  window (H := flat_host direct ports) (MkMapped p a t 0 o) (λ f, view_at p n (ram_mem f)) n.
Proof.
  intros Ha Hp Hn. assert (0 < a `div` 8 ≤ 8 ∧ (a `div` 8) ∈ [1; 2; 4; 8] ∧ (o = GAS_SYSTEM_IO → a `div` 8 ≠ 8)) as (Hw & Hin & Hio).
  { destruct o; rewrite !elem_of_cons in Ha; destruct_or! Ha; try (by apply elem_of_nil in Ha); subst a;
      split_and!; try done; apply (bool_decide_unpack _); vm_compute; exact I. }
  set (w := a `div` 8) in *.
  assert ((w =? 1) || (w =? 2) || (w =? 4) || (w =? 8) = true) as E8.
  { rewrite !elem_of_cons, elem_of_nil in Hin. by destruct Hin as [->|[->|[->|[->|[]]]]]. }
  assert (o = GAS_SYSTEM_IO → (w =? 1) || (w =? 2) || (w =? 4) = true) as E4.
  { intros Eo. rewrite !elem_of_cons, elem_of_nil in Hin. specialize (Hio Eo). destruct Hin as [->|[->|[->|[?|[]]]]]; done. }
  split; unfold access_bytes; simpl access_bit_width; fold w.
  - intros s off v Ho Hoff Hv. apply ram_load_view in Hv as [Hv Hr]; [|lia..]. rewrite Z2Nat.id in Hr by lia.
    assert (wrap (8 * w) v = v) as Ew by (apply wrap_small; rewrite Z.pow_mul_r by lia; done).
    unfold gas_read. destruct o; simpl.
    + unfold uacpi_system_memory_read. rewrite E8. unfold mbind, M_bind, ram_load. simpl. rewrite (wrap_small 64 (p + off)) by lia.
      by rewrite Hv, Ew.
    + unfold uacpi_system_io_read. rewrite E4 by done. unfold mbind, M_bind, ram_load. simpl. by rewrite Hv, Ew.
  - intros s off v Ho Hoff Hr.
    assert (wrap (8 * w) v = v) as Ew by (apply wrap_small; rewrite Z.pow_mul_r by lia; done).
    unfold gas_write. destruct o; simpl.
    + unfold uacpi_system_memory_write. rewrite E8. unfold mbind, M_bind, ram_store. simpl. rewrite (wrap_small 64 (p + off)) by lia.
      rewrite Ew. eexists. split; [done|]. intros x. apply ram_store_view; lia.
    + unfold uacpi_system_io_write. rewrite E4 by done. unfold mbind, M_bind, ram_store. simpl.
      rewrite Ew. eexists. split; [done|]. intros x. apply ram_store_view; lia.
  - intros s. apply mapped_spec. intros x Hx. rewrite view_at_in by lia. by eexists.
Qed.

Lemma flat_backed direct ports gas :
  fixed_register gas → 0 ≤ gas_address gas → 0 < direct → 0 ≤ ports →
  gas_address gas + direct + 8 < 2 ^ 64 → gas_address gas + ports + 8 < 2 ^ 64 →
  ∃ p, backed (H := flat_host direct ports) gas (λ f, view_at p (gas_width gas `div` 8) (ram_mem f)).
Proof.
  intros Hf Ha Hd Hp H1 H2. assert (gas_width gas `div` 8 ≤ 8) as Hw.
  { pose proof (fr_width gas Hf) as Hw. rewrite !elem_of_cons, elem_of_nil in Hw.
    by destruct Hw as [->|[->|[->|[->|[]]]]]. }
  destruct (fr_space gas Hf) as [Es|Es].
  - exists (gas_address gas + direct). split. rewrite Es. simpl. exists (gas_address gas + direct).
    split_and!; [lia|done..|]. intros a t Hin. apply flat_window; [done|lia..].
  - exists (gas_address gas + ports). split. rewrite Es. simpl. exists (gas_address gas + ports).
    split_and!; [done..|]. intros a t Hin. apply flat_window; [done|lia..].
Qed.

Lemma gas_write_read_witness :
  let gas := MkGas 1 64 0 0 0x400 in
  ∃ s' : ram,
    uacpi_gas_write (H := flat_host 0x10000 0x20000) (Some gas) 0x1122334455667788 (λ _, 0) = Ok (UACPI_STATUS_OK, s') ∧
    uacpi_gas_read (H := flat_host 0x10000 0x20000) (Some gas) s' = Ok ((UACPI_STATUS_OK, 0x1122334455667788), s').
Proof.
  intros gas. assert (fixed_register gas) as Hf by (split; simpl; try (apply (bool_decide_unpack _); vm_compute; exact I); lia).
  destruct (flat_backed 0x10000 0x20000 gas Hf) as [p Hb]; [simpl; lia..|].
  destruct (gas_write_read (H := flat_host 0x10000 0x20000) gas _ 0x1122334455667788 (λ _, 0) Hf Hb ltac:(lia))
    as (s' & E & _ & E'). exists s'. split; [exact E|exact E'].
Defined.

(** A structure that asks for accesses of 32 bits is not accessed with
    32 bits: the code of the size, 3, is taken as a number of bytes, so a
    register with a bit offset gets accesses of 24 bits, which the accessors
    refuse. *)
Theorem gas_dword_access_refused {S : Type} `{AcpiHost S} p o width offset space address s :
  0 < offset → 0 < width → offset + width ≤ 24 → address ≠ 0 → space = 0 ∨ space = 1 →
  gas_validate (Some (MkGas space width offset 3 address)) = (UACPI_STATUS_OK, (24, offset + width)) ∧
  uacpi_gas_read_mapped (MkMapped p 24 (offset + width) offset o) s = Ok ((UACPI_STATUS_INVALID_ARGUMENT, 0), s).
Proof.
  intros Ho Hw Ht Ha Hs. split.
  - unfold gas_validate, gas_get_access_bit_width. simpl.
    rewrite (proj2 (Z.eqb_neq address 0)), (proj2 (Z.eqb_neq offset 0)) by lia. simpl.
    assert (UACPI_ALIGN_UP (offset + width) 24 < 2 ^ 6) as Hal.
    { unfold UACPI_ALIGN_UP. apply (land_range 6); [lia|]. unwrap. lia. }
    destruct Hs as [->| ->]; simpl; change (u8 (3 * 8)) with 24; rewrite (proj2 (Z.ltb_ge 64 _)) by lia; by rewrite (wrap_small 8 (offset + width)) by lia.
  - unfold uacpi_gas_read_mapped. simpl total_bit_width. destruct (Z.to_nat (offset + width)) as [|fuel] eqn:E; [lia|].
    cbn [gas_read_loop]. rewrite (proj2 (Z.eqb_neq (offset + width) 0)) by lia. simpl access_bit_width.
    rewrite (proj2 (Z.leb_gt 24 _)) by (simpl; lia). by destruct o.
Qed.

Lemma gas_dword_access_refused_witness :
  uacpi_gas_read_mapped (H := flat_host 0x10000 0x20000) (MkMapped 0x20400 24 20 4 GAS_SYSTEM_IO) (λ _, 0) =
  Ok ((UACPI_STATUS_INVALID_ARGUMENT, 0), λ _, 0).
Proof.
  apply (gas_dword_access_refused (H := flat_host 0x10000 0x20000) 0x20400 GAS_SYSTEM_IO 16 4 1 0x400 (λ _, 0)); lia.
Defined.
