(* ===== verification/UacpiRegs.v ===== *)
(** * The fixed hardware registers of ACPI: uacpi/source/registers.c

    The power management registers the FADT describes, most of them in two
    parts, and their fields.  The state is that of the host ([AcpiHost]), the
    lock and the mappings of the registers, and the part of [g_uacpi_rt_ctx]
    modelled in Tables.v.  The registers' hardware is behind the mapped
    structures of UacpiGas.v. *)

From S2P Require Import Prelude Mem Digits Npf Tables UacpiIo UacpiGas.
Local Open Scope Z_scope.
Local Open Scope kernel_scope.

(** ** Bits of the registers: uacpi/acpi.h *)

Definition ACPI_PM1_STS_TMR_STS_IDX : Z := 0.
Definition ACPI_PM1_STS_BM_STS_IDX : Z := 4.
Definition ACPI_PM1_STS_GBL_STS_IDX : Z := 5.
Definition ACPI_PM1_STS_PWRBTN_STS_IDX : Z := 8.
Definition ACPI_PM1_STS_SLPBTN_STS_IDX : Z := 9.
Definition ACPI_PM1_STS_RTC_STS_IDX : Z := 10.
Definition ACPI_PM1_STS_IGN0_IDX : Z := 11.
Definition ACPI_PM1_STS_PCIEXP_WAKE_STS_IDX : Z := 14.
Definition ACPI_PM1_STS_WAKE_STS_IDX : Z := 15.
Definition ACPI_PM1_STS_TMR_STS_MASK : Z := Z.shiftl 1 ACPI_PM1_STS_TMR_STS_IDX.
Definition ACPI_PM1_STS_BM_STS_MASK : Z := Z.shiftl 1 ACPI_PM1_STS_BM_STS_IDX.
Definition ACPI_PM1_STS_GBL_STS_MASK : Z := Z.shiftl 1 ACPI_PM1_STS_GBL_STS_IDX.
Definition ACPI_PM1_STS_PWRBTN_STS_MASK : Z := Z.shiftl 1 ACPI_PM1_STS_PWRBTN_STS_IDX.
Definition ACPI_PM1_STS_SLPBTN_STS_MASK : Z := Z.shiftl 1 ACPI_PM1_STS_SLPBTN_STS_IDX.
Definition ACPI_PM1_STS_RTC_STS_MASK : Z := Z.shiftl 1 ACPI_PM1_STS_RTC_STS_IDX.
Definition ACPI_PM1_STS_IGN0_MASK : Z := Z.shiftl 1 ACPI_PM1_STS_IGN0_IDX.
Definition ACPI_PM1_STS_PCIEXP_WAKE_STS_MASK : Z := Z.shiftl 1 ACPI_PM1_STS_PCIEXP_WAKE_STS_IDX.
Definition ACPI_PM1_STS_WAKE_STS_MASK : Z := Z.shiftl 1 ACPI_PM1_STS_WAKE_STS_IDX.

Definition ACPI_PM1_EN_TMR_EN_IDX : Z := 0.
Definition ACPI_PM1_EN_GBL_EN_IDX : Z := 5.
Definition ACPI_PM1_EN_PWRBTN_EN_IDX : Z := 8.
Definition ACPI_PM1_EN_SLPBTN_EN_IDX : Z := 9.
Definition ACPI_PM1_EN_RTC_EN_IDX : Z := 10.
Definition ACPI_PM1_EN_PCIEXP_WAKE_DIS_IDX : Z := 14.
Definition ACPI_PM1_EN_TMR_EN_MASK : Z := Z.shiftl 1 ACPI_PM1_EN_TMR_EN_IDX.
Definition ACPI_PM1_EN_GBL_EN_MASK : Z := Z.shiftl 1 ACPI_PM1_EN_GBL_EN_IDX.
Definition ACPI_PM1_EN_PWRBTN_EN_MASK : Z := Z.shiftl 1 ACPI_PM1_EN_PWRBTN_EN_IDX.
Definition ACPI_PM1_EN_SLPBTN_EN_MASK : Z := Z.shiftl 1 ACPI_PM1_EN_SLPBTN_EN_IDX.
Definition ACPI_PM1_EN_RTC_EN_MASK : Z := Z.shiftl 1 ACPI_PM1_EN_RTC_EN_IDX.
Definition ACPI_PM1_EN_PCIEXP_WAKE_DIS_MASK : Z := Z.shiftl 1 ACPI_PM1_EN_PCIEXP_WAKE_DIS_IDX.

Definition ACPI_PM1_CNT_SCI_EN_IDX : Z := 0.
Definition ACPI_PM1_CNT_BM_RLD_IDX : Z := 1.
Definition ACPI_PM1_CNT_GBL_RLS_IDX : Z := 2.
Definition ACPI_PM1_CNT_RSVD0_IDX : Z := 3.
Definition ACPI_PM1_CNT_RSVD1_IDX : Z := 4.
Definition ACPI_PM1_CNT_RSVD2_IDX : Z := 5.
Definition ACPI_PM1_CNT_RSVD3_IDX : Z := 6.
Definition ACPI_PM1_CNT_RSVD4_IDX : Z := 7.
Definition ACPI_PM1_CNT_RSVD5_IDX : Z := 8.
Definition ACPI_PM1_CNT_IGN0_IDX : Z := 9.
Definition ACPI_PM1_CNT_SLP_TYP_IDX : Z := 10.
Definition ACPI_PM1_CNT_SLP_EN_IDX : Z := 13.
Definition ACPI_PM1_CNT_RSVD6_IDX : Z := 14.
Definition ACPI_PM1_CNT_RSVD7_IDX : Z := 15.
Definition ACPI_SLP_TYP_MAX : Z := 7.
Definition ACPI_PM1_CNT_SCI_EN_MASK : Z := Z.shiftl 1 ACPI_PM1_CNT_SCI_EN_IDX.
Definition ACPI_PM1_CNT_BM_RLD_MASK : Z := Z.shiftl 1 ACPI_PM1_CNT_BM_RLD_IDX.
Definition ACPI_PM1_CNT_GBL_RLS_MASK : Z := Z.shiftl 1 ACPI_PM1_CNT_GBL_RLS_IDX.
Definition ACPI_PM1_CNT_SLP_EN_MASK : Z := Z.shiftl 1 ACPI_PM1_CNT_SLP_EN_IDX.
Definition ACPI_PM1_CNT_SLP_TYP_MASK : Z := Z.shiftl ACPI_SLP_TYP_MAX ACPI_PM1_CNT_SLP_TYP_IDX.

Definition ACPI_PM2_CNT_ARB_DIS_IDX : Z := 0.
Definition ACPI_PM2_CNT_ARB_DIS_MASK : Z := Z.shiftl 1 ACPI_PM2_CNT_ARB_DIS_IDX.

Definition ACPI_SLP_CNT_RSVD0_IDX : Z := 0.
Definition ACPI_SLP_CNT_IGN0_IDX : Z := 1.
Definition ACPI_SLP_CNT_SLP_TYP_IDX : Z := 2.
Definition ACPI_SLP_CNT_SLP_EN_IDX : Z := 5.
Definition ACPI_SLP_CNT_RSVD1_IDX : Z := 6.
Definition ACPI_SLP_CNT_RSVD2_IDX : Z := 7.
Definition ACPI_SLP_CNT_SLP_EN_MASK : Z := Z.shiftl 1 ACPI_SLP_CNT_SLP_EN_IDX.
Definition ACPI_SLP_CNT_SLP_TYP_MASK : Z := Z.shiftl ACPI_SLP_TYP_MAX ACPI_SLP_CNT_SLP_TYP_IDX.

Definition ACPI_SLP_STS_WAK_STS_IDX : Z := 7.
Definition ACPI_SLP_STS_WAK_STS_MASK : Z := Z.shiftl 1 ACPI_SLP_STS_WAK_STS_IDX.

Definition bits_mask (l : list Z) : Z := foldr (λ i m, Z.lor (Z.shiftl 1 i) m) 0 l.

Definition ACPI_PM1_CNT_PRESERVE_MASK : Z :=
  bits_mask [ACPI_PM1_CNT_RSVD0_IDX; ACPI_PM1_CNT_RSVD1_IDX; ACPI_PM1_CNT_RSVD2_IDX; ACPI_PM1_CNT_RSVD3_IDX;
    ACPI_PM1_CNT_RSVD4_IDX; ACPI_PM1_CNT_RSVD5_IDX; ACPI_PM1_CNT_IGN0_IDX; ACPI_PM1_CNT_RSVD6_IDX; ACPI_PM1_CNT_RSVD7_IDX].
Definition ACPI_PM2_CNT_PRESERVE_MASK : Z := lnot64 ACPI_PM2_CNT_ARB_DIS_MASK.
Definition ACPI_SLP_CNT_PRESERVE_MASK : Z :=
  bits_mask [ACPI_SLP_CNT_RSVD0_IDX; ACPI_SLP_CNT_IGN0_IDX; ACPI_SLP_CNT_RSVD1_IDX; ACPI_SLP_CNT_RSVD2_IDX].
Definition ACPI_SLP_STS_PRESERVE_MASK : Z := lnot64 ACPI_SLP_STS_WAK_STS_MASK.

(** ** The tables *)

Definition UACPI_REGISTER_PM1_STS : Z := 0.
Definition UACPI_REGISTER_PM1_EN : Z := 1.
Definition UACPI_REGISTER_PM1_CNT : Z := 2.
Definition UACPI_REGISTER_PM_TMR : Z := 3.
Definition UACPI_REGISTER_PM2_CNT : Z := 4.
Definition UACPI_REGISTER_SLP_CNT : Z := 5.
Definition UACPI_REGISTER_SLP_STS : Z := 6.
Definition UACPI_REGISTER_RESET : Z := 7.
Definition UACPI_REGISTER_SMI_CMD : Z := 8.
Definition UACPI_REGISTER_MAX : Z := UACPI_REGISTER_SMI_CMD.

Definition UACPI_REGISTER_FIELD_TMR_STS : Z := 0.
Definition UACPI_REGISTER_FIELD_BM_STS : Z := 1.
Definition UACPI_REGISTER_FIELD_GBL_STS : Z := 2.
Definition UACPI_REGISTER_FIELD_PWRBTN_STS : Z := 3.
Definition UACPI_REGISTER_FIELD_SLPBTN_STS : Z := 4.
Definition UACPI_REGISTER_FIELD_RTC_STS : Z := 5.
Definition UACPI_REGISTER_FIELD_PCIEX_WAKE_STS : Z := 6.
Definition UACPI_REGISTER_FIELD_HWR_WAK_STS : Z := 7.
Definition UACPI_REGISTER_FIELD_WAK_STS : Z := 8.
Definition UACPI_REGISTER_FIELD_TMR_EN : Z := 9.
Definition UACPI_REGISTER_FIELD_GBL_EN : Z := 10.
Definition UACPI_REGISTER_FIELD_PWRBTN_EN : Z := 11.
Definition UACPI_REGISTER_FIELD_SLPBTN_EN : Z := 12.
Definition UACPI_REGISTER_FIELD_RTC_EN : Z := 13.
Definition UACPI_REGISTER_FIELD_PCIEXP_WAKE_DIS : Z := 14.
Definition UACPI_REGISTER_FIELD_SCI_EN : Z := 15.
Definition UACPI_REGISTER_FIELD_BM_RLD : Z := 16.
Definition UACPI_REGISTER_FIELD_GBL_RLS : Z := 17.
Definition UACPI_REGISTER_FIELD_SLP_TYP : Z := 18.
Definition UACPI_REGISTER_FIELD_HWR_SLP_TYP : Z := 19.
Definition UACPI_REGISTER_FIELD_SLP_EN : Z := 20.
Definition UACPI_REGISTER_FIELD_HWR_SLP_EN : Z := 21.
Definition UACPI_REGISTER_FIELD_ARB_DIS : Z := 22.
Definition UACPI_REGISTER_FIELD_MAX : Z := UACPI_REGISTER_FIELD_ARB_DIS.

(** The values of both enumerations of kinds, which the code compares. *)
Definition REGISTER_KIND_GAS : Z := 0.
Definition REGISTER_KIND_IO : Z := 1.
Definition REGISTER_ACCESS_KIND_PRESERVE : Z := 0.
Definition REGISTER_ACCESS_KIND_WRITE_TO_CLEAR : Z := 1.
Definition REGISTER_ACCESS_KIND_NORMAL : Z := 2.

(** What an accessor points to: a structure of the context, one in the copy of
    the FADT, or nothing. *)
Inductive accessor :=
| ACC_BLOCK (f : uacpi_runtime_context → acpi_gas)
| ACC_FADT (offset : Z)
| ACC_NULL.

Definition fadt_smi_cmd : Z := 48.
Definition fadt_reset_reg : Z := 116.
Definition fadt_x_pm1a_cnt_blk : Z := 172.
Definition fadt_x_pm1b_cnt_blk : Z := 184.
Definition fadt_x_pm2_cnt_blk : Z := 196.
Definition fadt_x_pm_tmr_blk : Z := 208.
Definition fadt_sleep_control_reg : Z := 244.
Definition fadt_sleep_status_reg : Z := 256.

Record register_spec := MkSpec {
  kind : Z;
  access_kind : Z;
  access_width : Z;
  accessors : accessor * accessor;
  write_only_mask : Z;
  preserve_mask : Z
}.

Definition g_registers : list register_spec := [
  MkSpec REGISTER_KIND_GAS REGISTER_ACCESS_KIND_WRITE_TO_CLEAR 0 (ACC_BLOCK pm1a_status_blk, ACC_BLOCK pm1b_status_blk)
    0 ACPI_PM1_STS_IGN0_MASK;
  MkSpec REGISTER_KIND_GAS REGISTER_ACCESS_KIND_PRESERVE 0 (ACC_BLOCK pm1a_enable_blk, ACC_BLOCK pm1b_enable_blk) 0 0;
  MkSpec REGISTER_KIND_GAS REGISTER_ACCESS_KIND_PRESERVE 0 (ACC_FADT fadt_x_pm1a_cnt_blk, ACC_FADT fadt_x_pm1b_cnt_blk)
    (Z.lor ACPI_PM1_CNT_SLP_EN_MASK ACPI_PM1_CNT_GBL_RLS_MASK) ACPI_PM1_CNT_PRESERVE_MASK;
  MkSpec REGISTER_KIND_GAS REGISTER_ACCESS_KIND_PRESERVE 0 (ACC_FADT fadt_x_pm_tmr_blk, ACC_NULL) 0 0;
  MkSpec REGISTER_KIND_GAS REGISTER_ACCESS_KIND_PRESERVE 0 (ACC_FADT fadt_x_pm2_cnt_blk, ACC_NULL)
    0 ACPI_PM2_CNT_PRESERVE_MASK;
  MkSpec REGISTER_KIND_GAS REGISTER_ACCESS_KIND_PRESERVE 0 (ACC_FADT fadt_sleep_control_reg, ACC_NULL)
    ACPI_SLP_CNT_SLP_EN_MASK ACPI_SLP_CNT_PRESERVE_MASK;
  MkSpec REGISTER_KIND_GAS REGISTER_ACCESS_KIND_WRITE_TO_CLEAR 0 (ACC_FADT fadt_sleep_status_reg, ACC_NULL)
    0 ACPI_SLP_STS_PRESERVE_MASK;
  MkSpec REGISTER_KIND_GAS REGISTER_ACCESS_KIND_NORMAL 0 (ACC_FADT fadt_reset_reg, ACC_NULL) 0 0;
  MkSpec REGISTER_KIND_IO REGISTER_ACCESS_KIND_NORMAL 1 (ACC_FADT fadt_smi_cmd, ACC_NULL) 0 0
].

Record register_field := MkRegField { reg : Z; offset : Z; mask : Z }.

Definition g_fields : list register_field := [
  (* TMR_STS *) MkRegField UACPI_REGISTER_PM1_STS ACPI_PM1_STS_TMR_STS_IDX ACPI_PM1_STS_TMR_STS_MASK;
  (* BM_STS *) MkRegField UACPI_REGISTER_PM1_STS ACPI_PM1_STS_BM_STS_IDX ACPI_PM1_STS_BM_STS_MASK;
  (* GBL_STS *) MkRegField UACPI_REGISTER_PM1_STS ACPI_PM1_STS_GBL_STS_IDX ACPI_PM1_STS_GBL_STS_MASK;
  (* PWRBTN_STS *) MkRegField UACPI_REGISTER_PM1_STS ACPI_PM1_STS_PWRBTN_STS_IDX ACPI_PM1_STS_PWRBTN_STS_MASK;
  (* SLPBTN_STS *) MkRegField UACPI_REGISTER_PM1_STS ACPI_PM1_STS_SLPBTN_STS_IDX ACPI_PM1_STS_SLPBTN_STS_MASK;
  (* RTC_STS *) MkRegField UACPI_REGISTER_PM1_STS ACPI_PM1_STS_RTC_STS_IDX ACPI_PM1_STS_RTC_STS_MASK;
  (* PCIEX_WAKE_STS *) MkRegField UACPI_REGISTER_PM1_STS ACPI_PM1_STS_PCIEXP_WAKE_STS_IDX ACPI_PM1_STS_PCIEXP_WAKE_STS_MASK;
  (* HWR_WAK_STS *) MkRegField UACPI_REGISTER_SLP_STS ACPI_SLP_STS_WAK_STS_IDX ACPI_SLP_STS_WAK_STS_MASK;
  (* WAK_STS *) MkRegField UACPI_REGISTER_PM1_STS ACPI_PM1_STS_WAKE_STS_IDX ACPI_PM1_STS_WAKE_STS_MASK;
  (* TMR_EN *) MkRegField UACPI_REGISTER_PM1_EN ACPI_PM1_EN_TMR_EN_IDX ACPI_PM1_EN_TMR_EN_MASK;
  (* GBL_EN *) MkRegField UACPI_REGISTER_PM1_EN ACPI_PM1_EN_GBL_EN_IDX ACPI_PM1_EN_GBL_EN_MASK;
  (* PWRBTN_EN *) MkRegField UACPI_REGISTER_PM1_EN ACPI_PM1_EN_PWRBTN_EN_IDX ACPI_PM1_EN_PWRBTN_EN_MASK;
  (* SLPBTN_EN *) MkRegField UACPI_REGISTER_PM1_EN ACPI_PM1_EN_SLPBTN_EN_IDX ACPI_PM1_EN_SLPBTN_EN_MASK;
  (* RTC_EN *) MkRegField UACPI_REGISTER_PM1_EN ACPI_PM1_EN_RTC_EN_IDX ACPI_PM1_EN_RTC_EN_MASK;
  (* PCIEXP_WAKE_DIS *) MkRegField UACPI_REGISTER_PM1_EN ACPI_PM1_EN_PCIEXP_WAKE_DIS_IDX ACPI_PM1_EN_PCIEXP_WAKE_DIS_MASK;
  (* SCI_EN *) MkRegField UACPI_REGISTER_PM1_CNT ACPI_PM1_CNT_SCI_EN_IDX ACPI_PM1_CNT_SCI_EN_MASK;
  (* BM_RLD *) MkRegField UACPI_REGISTER_PM1_CNT ACPI_PM1_CNT_BM_RLD_IDX ACPI_PM1_CNT_BM_RLD_MASK;
  (* GBL_RLS *) MkRegField UACPI_REGISTER_PM1_CNT ACPI_PM1_CNT_GBL_RLS_IDX ACPI_PM1_CNT_GBL_RLS_MASK;
  (* SLP_TYP *) MkRegField UACPI_REGISTER_PM1_CNT ACPI_PM1_CNT_SLP_TYP_IDX ACPI_PM1_CNT_SLP_TYP_MASK;
  (* HWR_SLP_TYP *) MkRegField UACPI_REGISTER_SLP_CNT ACPI_SLP_CNT_SLP_TYP_IDX ACPI_SLP_CNT_SLP_TYP_MASK;
  (* SLP_EN *) MkRegField UACPI_REGISTER_PM1_CNT ACPI_PM1_CNT_SLP_EN_IDX ACPI_PM1_CNT_SLP_EN_MASK;
  (* HWR_SLP_EN *) MkRegField UACPI_REGISTER_SLP_CNT ACPI_SLP_CNT_SLP_EN_IDX ACPI_SLP_CNT_SLP_EN_MASK;
  (* ARB_DIS *) MkRegField UACPI_REGISTER_PM2_CNT ACPI_PM2_CNT_ARB_DIS_IDX ACPI_PM2_CNT_ARB_DIS_MASK
].

(** ** The state *)

Inductive register_mapping_state :=
| REGISTER_MAPPING_STATE_NONE
| REGISTER_MAPPING_STATE_NOT_NEEDED
| REGISTER_MAPPING_STATE_MAPPED.

#[export] Instance register_mapping_state_eq_dec : EqDecision register_mapping_state.
Proof. solve_decision. Defined.

(** Part [false] of a register is index 0 of the arrays, part [true] index 1. *)
Definition part {A : Type} (idx : bool) (p : A * A) : A := if idx then snd p else fst p.
Definition set_part {A : Type} (idx : bool) (a : A) (p : A * A) : A * A := if idx then (fst p, a) else (a, snd p).

Record register_mapping := MkMapping {
  mappings : uacpi_mapped_gas * uacpi_mapped_gas;
  states : register_mapping_state * register_mapping_state
}.

Definition mapping_zero : register_mapping :=
  MkMapping (MkMapped 0 0 0 0 GAS_SYSTEM_MEMORY, MkMapped 0 0 0 0 GAS_SYSTEM_MEMORY)
    (REGISTER_MAPPING_STATE_NONE, REGISTER_MAPPING_STATE_NONE).

Record regs (S : Type) := MkRegs {
  host_state : S;
  g_reg_lock : Z;
  g_register_mappings : list register_mapping;
  ctx : uacpi_runtime_context
}.
Arguments MkRegs {S}.
Arguments host_state {S}.
Arguments g_reg_lock {S}.
Arguments g_register_mappings {S}.
Arguments ctx {S}.

#[export] Instance regs_has_host (S : Type) : Has S (regs S) := {|
  prj := host_state;
  upd := λ h s, MkRegs h (g_reg_lock s) (g_register_mappings s) (ctx s) |}.

Section operations.
Context {S : Type} `{AcpiHost S}.

Definition get_mapping (reg : Z) : M (regs S) register_mapping := λ s,
  match g_register_mappings s !! Z.to_nat reg with Some m => Ok (m, s) | None => Fault reg end.

Definition set_mapping (reg : Z) (m : register_mapping) : M (regs S) unit :=
  modify (λ s, MkRegs (host_state s) (g_reg_lock s) (<[Z.to_nat reg := m]> (g_register_mappings s)) (ctx s)).

Definition set_reg_lock (l : Z) : M (regs S) unit :=
  modify (λ s, MkRegs (host_state s) l (g_register_mappings s) (ctx s)).

(** A field of the copy of the FADT. *)
Definition rget (n : nat) (off : Z) : M (regs S) Z := λ s,
  match load n (rt_fadt (ctx s)) off with Some v => Ok (v, s) | None => Fault off end.

(** The structure an accessor points to; its address is at offset 4. *)
Definition read_gas (a : accessor) : M (regs S) acpi_gas :=
  match a with
  | ACC_BLOCK f => c ← gets ctx; mret (f c)
  | ACC_FADT off =>
      space ← rget 1 off; width ← rget 1 (off + 1); bit ← rget 1 (off + 2); access ← rget 1 (off + 3);
      address ← rget 8 (off + 4);
      mret (MkGas space width bit access address)
  | ACC_NULL => fault 4
  end.

Definition read_u32 (a : accessor) : M (regs S) Z :=
  match a with ACC_FADT off => rget 4 off | _ => fault 0 end.

Definition set_state (r : Z) (idx : bool) (st : register_mapping_state) : M (regs S) unit :=
  m ← get_mapping r; set_mapping r (MkMapping (mappings m) (set_part idx st (states m))).

(** Mapping the structure and storing the result. *)
Definition map_gas_to (r : Z) (idx : bool) (gas : acpi_gas) : M (regs S) uacpi_status :=
  res ← zoom (uacpi_map_gas_noalloc (Some gas));
  match snd res with
  | Some g => m ← get_mapping r; set_mapping r (MkMapping (set_part idx g (mappings m)) (states m))
  | None => mret tt
  end;;
  match fst res with
  | UACPI_STATUS_OK => set_state r idx REGISTER_MAPPING_STATE_MAPPED;; mret UACPI_STATUS_OK
  | ret => mret ret
  end.

Definition map_one (r : Z) (spec : register_spec) (idx : bool) : M (regs S) uacpi_status :=
  m ← get_mapping r;
  if bool_decide (part idx (states m) ≠ REGISTER_MAPPING_STATE_NONE) then mret UACPI_STATUS_OK
  else if kind spec =? REGISTER_KIND_GAS then
    gas ← read_gas (part idx (accessors spec));
    if gas_address gas =? 0 then set_state r idx REGISTER_MAPPING_STATE_NOT_NEEDED;; mret UACPI_STATUS_OK
    else map_gas_to r idx gas
  else if idx then set_state r idx REGISTER_MAPPING_STATE_NOT_NEEDED;; mret UACPI_STATUS_OK
  else
    address ← read_u32 (fst (accessors spec));
    map_gas_to r idx (MkGas UACPI_ADDRESS_SPACE_SYSTEM_IO (access_width spec * 8) 0 0 address).

Definition ensure_register_mapped (r : Z) (spec : register_spec) : M (regs S) uacpi_status :=
  m ← get_mapping r;
  if bool_decide (fst (states m) ≠ REGISTER_MAPPING_STATE_NONE) && bool_decide (snd (states m) ≠ REGISTER_MAPPING_STATE_NONE)
  then mret UACPI_STATUS_OK
  else
    lock ← gets g_reg_lock;
    flags ← zoom (host_lock_spinlock lock);
    ret ← map_one r spec false;
    ret ← match ret with UACPI_STATUS_OK => map_one r spec true | _ => mret ret end;
    zoom (host_unlock_spinlock lock flags);;
    mret ret.

Definition get_reg (idx : Z) : option register_spec :=
  if UACPI_REGISTER_MAX <? idx then None else g_registers !! Z.to_nat idx.

(** The value is left as it was if the part is not mapped. *)
Definition do_read_one (r : Z) (idx : bool) (out : Z) : M (regs S) (uacpi_status * Z) :=
  m ← get_mapping r;
  if bool_decide (part idx (states m) ≠ REGISTER_MAPPING_STATE_MAPPED) then mret (UACPI_STATUS_OK, out)
  else zoom (uacpi_gas_read_mapped (part idx (mappings m))).

Definition do_read_register (r : Z) (spec : register_spec) : M (regs S) (uacpi_status * Z) :=
  r0 ← do_read_one r false 0;
  match fst r0 with
  | UACPI_STATUS_OK =>
      r1 ← do_read_one r true 0;
      match fst r1 with
      | UACPI_STATUS_OK =>
          let v := Z.lor (snd r0) (snd r1) in
          mret (UACPI_STATUS_OK,
                if write_only_mask spec =? 0 then v else Z.land v (lnot64 (write_only_mask spec)))
      | ret => mret (ret, 0)
      end
  | ret => mret (ret, 0)
  end.

(** [UACPI_ENSURE_INIT_LEVEL_AT_LEAST(UACPI_INIT_LEVEL_SUBSYSTEM_INITIALIZED)]; [b] is
    the second result of a call that is refused. *)
Definition at_subsystem_level {B : Type} (b : B) (k : M (regs S) (uacpi_status * B)) : M (regs S) (uacpi_status * B) :=
  lvl ← gets (λ s, init_level (ctx s));
  if lvl <? UACPI_INIT_LEVEL_SUBSYSTEM_INITIALIZED then mret (UACPI_STATUS_INIT_LEVEL_MISMATCH, b) else k.

(** The checks and the mapping that precede an access to a register. *)
Definition with_reg {B : Type} (b : B) (reg_enum : Z) (k : Z → register_spec → M (regs S) (uacpi_status * B)) :
    M (regs S) (uacpi_status * B) :=
  match get_reg (u8 reg_enum) with
  | None => mret (UACPI_STATUS_INVALID_ARGUMENT, b)
  | Some spec =>
      ret ← ensure_register_mapped (u8 reg_enum) spec;
      match ret with UACPI_STATUS_OK => k (u8 reg_enum) spec | _ => mret (ret, b) end
  end.

Definition uacpi_read_register (reg_enum : Z) : M (regs S) (uacpi_status * Z) :=
  at_subsystem_level 0 (with_reg 0 reg_enum do_read_register).

Definition do_write_one (r : Z) (idx : bool) (in_value : Z) : M (regs S) uacpi_status :=
  m ← get_mapping r;
  if bool_decide (part idx (states m) ≠ REGISTER_MAPPING_STATE_MAPPED) then mret UACPI_STATUS_OK
  else zoom (uacpi_gas_write_mapped (part idx (mappings m)) in_value).

Definition write_parts (r : Z) (in_value0 in_value1 : Z) : M (regs S) uacpi_status :=
  ret ← do_write_one r false in_value0;
  match ret with UACPI_STATUS_OK => do_write_one r true in_value1 | _ => mret ret end.

Definition do_write_register (r : Z) (spec : register_spec) (in_value : Z) : M (regs S) uacpi_status :=
  if preserve_mask spec =? 0 then write_parts r in_value in_value
  else
    let in_value := Z.land in_value (lnot64 (preserve_mask spec)) in
    if access_kind spec =? REGISTER_ACCESS_KIND_PRESERVE then
      data ← do_read_register r spec;
      match fst data with
      | UACPI_STATUS_OK =>
          let in_value := Z.lor in_value (Z.land (snd data) (preserve_mask spec)) in
          write_parts r in_value in_value
      | ret => mret ret
      end
    else write_parts r in_value in_value.

Definition status_only (c : M (regs S) uacpi_status) : M (regs S) (uacpi_status * unit) := ret ← c; mret (ret, tt).

Definition uacpi_write_register (reg_enum in_value : Z) : M (regs S) (uacpi_status * unit) :=
  at_subsystem_level tt (with_reg tt reg_enum (λ r spec, status_only (do_write_register r spec in_value))).

Definition uacpi_write_registers (reg_enum in_value0 in_value1 : Z) : M (regs S) (uacpi_status * unit) :=
  at_subsystem_level tt (with_reg tt reg_enum (λ r _, status_only (write_parts r in_value0 in_value1))).

Definition uacpi_ininitialize_registers : M (regs S) uacpi_status :=
  l ← zoom host_create_spinlock;
  set_reg_lock l;;
  mret (if l =? 0 then UACPI_STATUS_OUT_OF_MEMORY else UACPI_STATUS_OK).

Definition unmap_part (idx : bool) (m : register_mapping) : M (regs S) unit :=
  if bool_decide (part idx (states m) = REGISTER_MAPPING_STATE_MAPPED)
  then zoom (uacpi_unmap_gas_nofree (part idx (mappings m))) else mret tt.

Fixpoint unmap_all (l : list register_mapping) : M (regs S) unit :=
  match l with [] => mret tt | m :: l' => unmap_part false m;; unmap_part true m;; unmap_all l' end.

Definition uacpi_deinitialize_registers : M (regs S) unit :=
  l ← gets g_reg_lock;
  (if l =? 0 then mret tt else zoom (host_free_spinlock l);; set_reg_lock 0);;
  ms ← gets g_register_mappings;
  unmap_all ms;;
  modify (λ s, MkRegs (host_state s) (g_reg_lock s) (map (λ _, mapping_zero) ms) (ctx s)).

(** The field and its register, with the mapping done. *)
Definition with_field {B : Type} (b : B) (field_idx : Z) (k : register_field → register_spec → M (regs S) (uacpi_status * B)) :
    M (regs S) (uacpi_status * B) :=
  if UACPI_REGISTER_FIELD_MAX <? field_idx then mret (UACPI_STATUS_INVALID_ARGUMENT, b)
  else
    match g_fields !! Z.to_nat field_idx with
    | None => fault field_idx
    | Some field =>
        match g_registers !! Z.to_nat (reg field) with
        | None => fault (reg field)
        | Some spec =>
            ret ← ensure_register_mapped (reg field) spec;
            match ret with UACPI_STATUS_OK => k field spec | _ => mret (ret, b) end
        end
    end.

Definition uacpi_read_register_field (field_enum : Z) : M (regs S) (uacpi_status * Z) :=
  at_subsystem_level 0 (with_field 0 (u8 field_enum) (λ field spec,
    v ← do_read_register (reg field) spec;
    match fst v with
    | UACPI_STATUS_OK => mret (UACPI_STATUS_OK, Z.shiftr (Z.land (snd v) (mask field)) (offset field))
    | ret => mret (ret, 0)
    end)).

Definition uacpi_write_register_field (field_enum in_value : Z) : M (regs S) (uacpi_status * unit) :=
  at_subsystem_level tt (with_field tt (u8 field_enum) (λ field spec,
    let in_value := Z.land (u64 (Z.shiftl in_value (offset field))) (mask field) in
    lock ← gets g_reg_lock;
    flags ← zoom (host_lock_spinlock lock);
    ret ← (if kind spec =? REGISTER_ACCESS_KIND_WRITE_TO_CLEAR then
             if in_value =? 0 then mret UACPI_STATUS_OK else do_write_register (reg field) spec in_value
           else
             data ← do_read_register (reg field) spec;
             match fst data with
             | UACPI_STATUS_OK =>
                 do_write_register (reg field) spec (Z.lor (Z.land (snd data) (lnot64 (mask field))) in_value)
             | ret => mret ret
             end);
    zoom (host_unlock_spinlock lock flags);;
    mret (ret, tt))).
End operations.

(** ** Behaviour of the hardware *)

(** What a write of [v] leaves in a register of [n] bits that holds [old]:
    the value, or what is left when the ones written clear their bits. *)
Definition keeps (n old v : Z) : Z := v mod 2 ^ n.
Definition write_to_clear (old v : Z) : Z := Z.land old (Z.lnot v).

Section behaviour.
Context {S : Type} `{AcpiHost S}.

(** The parts of a register that are mapped hold [n] bits each, which reads
    do not change, which a write changes as [hw] says and which a write to the
    other part does not change; a part that is not there counts as zero. *)
Record cells (m : register_mapping) (val : bool → S → Z) (n : Z) (hw : Z → Z → Z) : Prop := {
  ce_known idx : part idx (states m) ≠ REGISTER_MAPPING_STATE_NONE;
  ce_read idx s : part idx (states m) = REGISTER_MAPPING_STATE_MAPPED →
    uacpi_gas_read_mapped (part idx (mappings m)) s = Ok ((UACPI_STATUS_OK, val idx s), s);
  ce_write idx v s : part idx (states m) = REGISTER_MAPPING_STATE_MAPPED → 0 ≤ v →
    ∃ s', uacpi_gas_write_mapped (part idx (mappings m)) v s = Ok (UACPI_STATUS_OK, s') ∧
      val idx s' = hw (val idx s) v ∧ val (negb idx) s' = val (negb idx) s;
  ce_absent idx s : part idx (states m) ≠ REGISTER_MAPPING_STATE_MAPPED → val idx s = 0;
  ce_range idx s : 0 ≤ val idx s < 2 ^ n;
  ce_width : 0 ≤ n ≤ 64
}.

(** The locks of the host do not touch the registers. *)
Definition quiet_locks : Prop :=
  (∀ l (s : S), ∃ fl, host_lock_spinlock l s = Ok (fl, s)) ∧ ∀ l fl (s : S), host_unlock_spinlock l fl s = Ok (tt, s).

Variables (r : Z) (m : register_mapping) (spec : register_spec) (val : bool → S → Z) (n : Z) (hw : Z → Z → Z).
Hypothesis Hcells : cells m val n hw.

Definition at_register (s : regs S) : Prop := g_register_mappings s !! Z.to_nat r = Some m.

(** The value of the register as the code sees it. *)
Definition seen (s : S) : Z :=
  let v := Z.lor (val false s) (val true s) in
  if write_only_mask spec =? 0 then v else Z.land v (lnot64 (write_only_mask spec)).

Definition with_host (h : S) (s : regs S) : regs S := MkRegs h (g_reg_lock s) (g_register_mappings s) (ctx s).

(** Every mapped part got [v]. *)
Definition got (v : Z) (h h' : S) : Prop :=
  ∀ idx, val idx h' = if bool_decide (part idx (states m) = REGISTER_MAPPING_STATE_MAPPED) then hw (val idx h) v else 0.

Lemma zoom_same {A} (c : M S A) (s : regs S) a : c (host_state s) = Ok (a, host_state s) → zoom c s = Ok (a, s).
Proof. intros E. unfold zoom. simpl. rewrite E. by destruct s. Qed.

Lemma do_read_one_cells idx s :
  at_register s → do_read_one r idx 0 s = Ok ((UACPI_STATUS_OK, val idx (host_state s)), s).
Proof.
  intros Hm. unfold do_read_one, mbind, M_bind, get_mapping. rewrite Hm. case_bool_decide as Hd.
  - by rewrite (ce_absent _ _ _ _ Hcells).
  - apply zoom_same, (ce_read _ _ _ _ Hcells). destruct (decide (part idx (states m) = REGISTER_MAPPING_STATE_MAPPED)); [done|tauto].
Qed.

Lemma do_read_register_cells s :
  at_register s → do_read_register r spec s = Ok ((UACPI_STATUS_OK, seen (host_state s)), s).
Proof.
  intros Hm. unfold do_read_register, mbind, M_bind. rewrite do_read_one_cells by done. cbn [fst snd].
  rewrite do_read_one_cells by done. cbn [fst snd]. unfold seen. by case_match.
Qed.

Lemma do_write_one_cells idx v s :
  at_register s → 0 ≤ v →
  ∃ h, do_write_one r idx v s = Ok (UACPI_STATUS_OK, with_host h s) ∧
    val idx h = (if bool_decide (part idx (states m) = REGISTER_MAPPING_STATE_MAPPED) then hw (val idx (host_state s)) v else 0) ∧
    val (negb idx) h = val (negb idx) (host_state s).
Proof.
  intros Hm Hv. unfold do_write_one, mbind, M_bind, get_mapping. rewrite Hm.
  destruct (decide (part idx (states m) = REGISTER_MAPPING_STATE_MAPPED)) as [E|E].
  - rewrite bool_decide_eq_false_2 by tauto. rewrite bool_decide_eq_true_2 by done.
    destruct (ce_write _ _ _ _ Hcells idx v (host_state s) E Hv) as (h & Eh & H1 & H2). exists h. unfold zoom. simpl.
    by rewrite Eh.
  - rewrite bool_decide_eq_true_2 by done. rewrite bool_decide_eq_false_2 by done. exists (host_state s).
    split; [by destruct s|]. split; [by apply (ce_absent _ _ _ _ Hcells)|done].
Qed.

Lemma write_parts_cells v s :
  at_register s → 0 ≤ v → ∃ h, write_parts r v v s = Ok (UACPI_STATUS_OK, with_host h s) ∧ got v (host_state s) h.
Proof.
  intros Hm Hv. unfold write_parts, mbind, M_bind. destruct (do_write_one_cells false v s Hm Hv) as (h & -> & H1 & H0).
  destruct (do_write_one_cells true v (with_host h s)) as (h' & -> & H2 & H3); [done..|]. exists h'. split; [done|].
  simpl in H0, H2, H3. intros []; simpl; [by rewrite H2, H0|by rewrite H3].
Qed.

(** The value the hardware gets when [v] is written over [old]. *)
Definition written (old v : Z) : Z :=
  if preserve_mask spec =? 0 then v
  else if access_kind spec =? REGISTER_ACCESS_KIND_PRESERVE
  then Z.lor (Z.land v (lnot64 (preserve_mask spec))) (Z.land old (preserve_mask spec))
  else Z.land v (lnot64 (preserve_mask spec)).

Lemma do_write_register_cells v s :
  at_register s → 0 ≤ v →
  ∃ h, do_write_register r spec v s = Ok (UACPI_STATUS_OK, with_host h s) ∧ got (written (seen (host_state s)) v) (host_state s) h.
Proof.
  intros Hm Hv. assert (0 ≤ seen (host_state s)) as Hseen.
  { unfold seen. pose proof (ce_range _ _ _ _ Hcells false (host_state s)). pose proof (ce_range _ _ _ _ Hcells true (host_state s)).
    case_match; [apply Z.lor_nonneg; lia|]. apply Z.land_nonneg. left. apply Z.lor_nonneg. lia. }
  unfold do_write_register, written. destruct (preserve_mask spec =? 0); [by apply write_parts_cells|].
  assert (0 ≤ Z.land v (lnot64 (preserve_mask spec))) by (apply Z.land_nonneg; by left).
  destruct (access_kind spec =? _); [|by apply write_parts_cells].
  unfold mbind, M_bind. rewrite do_read_register_cells by done. cbn [fst snd]. apply write_parts_cells; [done|].
  apply Z.lor_nonneg. split; [done|]. apply Z.land_nonneg. by left.
Qed.

(** A register whose parts are known needs no mapping. *)
Lemma ensure_register_mapped_known s : at_register s → ensure_register_mapped r spec s = Ok (UACPI_STATUS_OK, s).
Proof.
  intros Hm. unfold ensure_register_mapped, mbind, M_bind, get_mapping. rewrite Hm.
  rewrite (bool_decide_eq_true_2 (fst _ ≠ _)) by apply (ce_known _ _ _ _ Hcells false).
  by rewrite (bool_decide_eq_true_2 (snd _ ≠ _)) by apply (ce_known _ _ _ _ Hcells true).
Qed.
End behaviour.

(** ** The tables of fields *)

Definition field_checked (f : register_field) : bool :=
  match g_registers !! Z.to_nat (reg f) with
  | None => false
  | Some spec =>
      (kind spec =? REGISTER_KIND_GAS) && (Z.land (mask f) (preserve_mask spec) =? 0) &&
      (0 <=? mask f) && (mask f <? 2 ^ 16) && (0 <=? offset f) && (offset f <? 16) &&
      (0 <=? preserve_mask spec) && (preserve_mask spec <? 2 ^ 64) &&
      (0 <=? write_only_mask spec) && (write_only_mask spec <? 2 ^ 64)
  end.

Lemma fields_checked : forallb field_checked g_fields = true.
Proof. vm_compute. reflexivity. Qed.

(** Every field lies outside the preserved bits of its register, which is
    described by a generic address structure. *)
Lemma field_facts i f spec :
  g_fields !! i = Some f → g_registers !! Z.to_nat (reg f) = Some spec →
  kind spec = REGISTER_KIND_GAS ∧ Z.land (mask f) (preserve_mask spec) = 0 ∧ 0 ≤ mask f < 2 ^ 16 ∧ 0 ≤ offset f < 16 ∧
  0 ≤ preserve_mask spec < 2 ^ 64 ∧ 0 ≤ write_only_mask spec < 2 ^ 64.
Proof.
  intros Hf Hs. pose proof (proj1 (forallb_forall _ _) fields_checked f (proj1 (list_elem_of_In _ _) (list_elem_of_lookup_2 _ _ _ Hf))) as Hc.
  unfold field_checked in Hc. rewrite Hs in Hc. rewrite !andb_true_iff, !Z.eqb_eq, !Z.leb_le, !Z.ltb_lt in Hc. tauto.
Qed.

Lemma field_index i f : g_fields !! i = Some f → (i < 23)%nat.
Proof. intros Hf. apply lookup_lt_Some in Hf. done. Qed.

Section api.
Context {S : Type} `{AcpiHost S}.

Definition initialized (s : regs S) : Prop := UACPI_INIT_LEVEL_SUBSYSTEM_INITIALIZED ≤ init_level (ctx s).

Lemma at_level {B} (b : B) k (s : regs S) : initialized s → at_subsystem_level b k s = k s.
Proof.
  intros Hi. unfold at_subsystem_level, mbind, M_bind, gets. unfold initialized in Hi.
  by rewrite (proj2 (Z.ltb_ge _ _)).
Qed.

Variables (m : register_mapping) (val : bool → S → Z) (n : Z) (hw : Z → Z → Z).
Hypothesis Hcells : cells m val n hw.

Lemma with_field_known {B} (b : B) (i : nat) f spec k (s : regs S) :
  g_fields !! i = Some f → g_registers !! Z.to_nat (reg f) = Some spec → at_register (reg f) m s →
  with_field b (u8 (Z.of_nat i)) k s = k f spec s.
Proof.
  intros Hf Hs Hm. pose proof (field_index i f Hf). unfold with_field. rewrite wrap_small by lia.
  rewrite (proj2 (Z.ltb_ge _ _)) by (unfold UACPI_REGISTER_FIELD_MAX, UACPI_REGISTER_FIELD_ARB_DIS; lia).
  rewrite Nat2Z.id, Hf, Hs. unfold mbind, M_bind. by rewrite (ensure_register_mapped_known _ m _ val n hw).
Qed.

Lemma read_field_value (i : nat) f spec (s : regs S) :
  g_fields !! i = Some f → g_registers !! Z.to_nat (reg f) = Some spec → at_register (reg f) m s → initialized s →
  uacpi_read_register_field (Z.of_nat i) s =
  Ok ((UACPI_STATUS_OK, Z.shiftr (Z.land (seen spec val (host_state s)) (mask f)) (offset f)), s).
Proof.
  intros Hf Hs Hm Hi. unfold uacpi_read_register_field. rewrite at_level, (with_field_known 0 i f spec) by done.
  unfold mbind, M_bind. by rewrite (do_read_register_cells _ m _ val n hw).
Qed.

(** The value a write of [v] to a field gives to the register. *)
Definition merged (f : register_field) (old v : Z) : Z :=
  Z.lor (Z.land old (lnot64 (mask f))) (Z.land (u64 (Z.shiftl v (offset f))) (mask f)).

Lemma seen_nonneg spec s : 0 ≤ seen spec val s.
Proof.
  unfold seen. pose proof (ce_range _ _ _ _ Hcells false s). pose proof (ce_range _ _ _ _ Hcells true s).
  case_match; [apply Z.lor_nonneg; lia|]. apply Z.land_nonneg. left. apply Z.lor_nonneg. lia.
Qed.

Lemma write_field_effect (i : nat) f spec v (s : regs S) :
  quiet_locks → g_fields !! i = Some f → g_registers !! Z.to_nat (reg f) = Some spec → at_register (reg f) m s →
  initialized s →
  ∃ h, uacpi_write_register_field (Z.of_nat i) v s = Ok ((UACPI_STATUS_OK, tt), with_host h s) ∧
    got m val hw (written spec (seen spec val (host_state s)) (merged f (seen spec val (host_state s)) v)) (host_state s) h.
Proof.
  intros [Hlock Hunlock] Hf Hs Hm Hi. destruct (field_facts i f spec Hf Hs) as (Hk & _ & Hmask & _).
  unfold uacpi_write_register_field. rewrite at_level, (with_field_known tt i f spec) by done.
  destruct (Hlock (g_reg_lock s) (host_state s)) as [fl Hfl].
  unfold mbind, M_bind, gets. rewrite (zoom_same _ _ _ Hfl). rewrite Hk.
  change (REGISTER_KIND_GAS =? REGISTER_ACCESS_KIND_WRITE_TO_CLEAR) with false. cbv beta iota.
  rewrite (do_read_register_cells _ m _ val n hw) by done. cbn [fst snd]. fold (merged f (seen spec val (host_state s)) v).
  destruct (do_write_register_cells (reg f) m spec val n hw Hcells (merged f (seen spec val (host_state s)) v) s) as (h & E & Hg);
    [done| |].
  { apply Z.lor_nonneg. split; apply Z.land_nonneg; [left; apply seen_nonneg|right; lia]. }
  rewrite E. exists h. split; [|done]. by rewrite (zoom_same _ (with_host h s) tt) by apply Hunlock.
Qed.
End api.

(** ** Bits of the registers *)

Lemma testbit_lnot64 x b : 0 ≤ b → Z.testbit (lnot64 x) b = (b <? 64) && negb (Z.testbit x b).
Proof. intros. unfold lnot64, wrap. by rewrite Z.testbit_mod_pow2, Z.lnot_spec by lia. Qed.

Section bits.
Context {S : Type} `{AcpiHost S}.
Variables (m : register_mapping) (val : bool → S → Z) (n : Z) (hw : Z → Z → Z).
Hypothesis Hcells : cells m val n hw.
Implicit Types (spec : register_spec) (h : S).

Lemma seen_bit spec h b :
  0 ≤ b →
  Z.testbit (seen spec val h) b =
  (Z.testbit (val false h) b || Z.testbit (val true h) b) && negb (Z.testbit (write_only_mask spec) b).
Proof.
  intros Hb. unfold seen. destruct (Z.eqb_spec (write_only_mask spec) 0) as [->|_].
  { by rewrite Z.lor_spec, Z.bits_0, andb_true_r. }
  rewrite Z.land_spec, Z.lor_spec, testbit_lnot64 by done. destruct (Z.ltb_spec b 64); [done|].
  pose proof (ce_width _ _ _ _ Hcells).
  by rewrite !(testbit_small n) by (apply (ce_range _ _ _ _ Hcells) || lia).
Qed.

Lemma seen_high spec h b : n ≤ b → 0 ≤ b → Z.testbit (seen spec val h) b = false.
Proof.
  intros Hn Hb. rewrite seen_bit by done.
  by rewrite !(testbit_small n) by (apply (ce_range _ _ _ _ Hcells) || lia).
Qed.

(** The bits of the value that reaches the hardware of a register that
    preserves bits. *)
Lemma written_bit spec f old v b :
  access_kind spec = REGISTER_ACCESS_KIND_PRESERVE → Z.land (mask f) (preserve_mask spec) = 0 → 0 ≤ b < 64 →
  Z.testbit (written spec old (merged f old v)) b =
  if Z.testbit (mask f) b then Z.testbit (u64 (Z.shiftl v (offset f))) b else Z.testbit old b.
Proof.
  intros Hk Hd Hb. assert (Z.testbit (mask f) b && Z.testbit (preserve_mask spec) b = false) as Hdb.
  { by rewrite <-Z.land_spec, Hd, Z.bits_0. }
  assert (Z.testbit (merged f old v) b =
    if Z.testbit (mask f) b then Z.testbit (u64 (Z.shiftl v (offset f))) b else Z.testbit old b) as Hm.
  { unfold merged. rewrite Z.lor_spec, !Z.land_spec, testbit_lnot64, (proj2 (Z.ltb_lt b 64)) by lia.
    by destruct (Z.testbit (mask f) b), (Z.testbit old b), (Z.testbit (u64 (Z.shiftl v (offset f))) b). }
  unfold written. destruct (preserve_mask spec =? 0); [done|]. rewrite Hk. simpl.
  rewrite Z.lor_spec, !Z.land_spec, testbit_lnot64, (proj2 (Z.ltb_lt b 64)), Hm by lia. simpl.
  by destruct (Z.testbit (mask f) b), (Z.testbit (preserve_mask spec) b), (Z.testbit old b), (Z.testbit (u64 (Z.shiftl v (offset f))) b).
Qed.

(** What the code sees of a register after each part got [w]. *)
Lemma seen_got spec w h h' b :
  got m val (keeps n) w h h' → (∃ idx, part idx (states m) = REGISTER_MAPPING_STATE_MAPPED) → 0 ≤ b < n →
  Z.testbit (seen spec val h') b = Z.testbit w b && negb (Z.testbit (write_only_mask spec) b).
Proof.
  intros Hg [idx Hidx] Hb. rewrite seen_bit by lia. f_equal. rewrite !Hg. unfold keeps.
  pose proof (ce_width _ _ _ _ Hcells).
  assert (Z.testbit (w mod 2 ^ n) b = Z.testbit w b) as Hw.
  { rewrite Z.testbit_mod_pow2, (proj2 (Z.ltb_lt b n)) by lia. done. }
  destruct idx; rewrite (bool_decide_eq_true_2 _ Hidx), Hw; case_match; rewrite ?Hw, ?Z.bits_0;
    by destruct (Z.testbit w b).
Qed.
End bits.

(** ** Theorems *)

Section theorems.
Context {S : Type} `{AcpiHost S}.


(** C40: writing one status field clears the others.  The branch for status
    registers compares the kind of the register, not its access kind, and is
    never taken: the code reads the status, and writes back every bit that is
    set.  On hardware where writing a one clears a bit, every event that is
    pending in the register is lost, whichever field was written: afterwards
    every bit outside the field and the preserved bits reads as zero in both
    parts of the register. *)
Theorem status_field_write_clears_others (i : nat) f spec m (val : bool → S → Z) n v s :
  quiet_locks → cells m val n write_to_clear →
  g_fields !! i = Some f → g_registers !! Z.to_nat (reg f) = Some spec →
  access_kind spec = REGISTER_ACCESS_KIND_WRITE_TO_CLEAR → write_only_mask spec = 0 →
  at_register (reg f) m s → initialized s →
  ∃ h, uacpi_write_register_field (Z.of_nat i) v s = Ok ((UACPI_STATUS_OK, tt), with_host h s) ∧
    ∀ idx b, 0 ≤ b → Z.testbit (mask f) b = false → Z.testbit (preserve_mask spec) b = false →
      Z.testbit (val idx h) b = false.
Proof.
  intros Hq Hc Hf Hs Hk Hwo Hm Hi. destruct (write_field_effect m val n write_to_clear Hc i f spec v s) as (h & E & Hg); [done..|].
  exists h. split; [done|]. intros idx b Hb Hmb Hpb. destruct (decide (b < n)) as [Hbn|Hbn].
  2: { apply (testbit_small n); [apply (ce_range _ _ _ _ Hc)|lia]. }
  pose proof (ce_width _ _ _ _ Hc). rewrite Hg. case_match; [|apply Z.bits_0].
  unfold write_to_clear. rewrite Z.land_spec, Z.lnot_spec by done.
  assert (Z.testbit (written spec (seen spec val (host_state s)) (merged f (seen spec val (host_state s)) v)) b =
          Z.testbit (seen spec val (host_state s)) b) as ->.
  { unfold written. rewrite Hk. simpl.
    assert (Z.testbit (merged f (seen spec val (host_state s)) v) b = Z.testbit (seen spec val (host_state s)) b) as Hmg.
    { unfold merged. rewrite Z.lor_spec, !Z.land_spec, testbit_lnot64, (proj2 (Z.ltb_lt b 64)), Hmb by lia.
      by rewrite andb_false_r, orb_false_r, andb_true_r. }
    case_match; [done|]. rewrite Z.land_spec, testbit_lnot64, (proj2 (Z.ltb_lt b 64)), Hmg, Hpb by lia. apply andb_true_r. }
  rewrite (seen_bit m val n _ Hc), Hwo, Z.bits_0, andb_true_r by done. destruct idx;
    by destruct (Z.testbit (val false _) b), (Z.testbit (val true _) b).
Qed.

(** The code changes neither the context nor the state of the second part of
    register [r]. *)
Definition spares (r : Z) {A : Type} (c : M (regs S) A) : Prop :=
  ∀ s a s1, c s = Ok (a, s1) →
    ctx s1 = ctx s ∧
    (snd ∘ states) <$> g_register_mappings s1 !! Z.to_nat r = (snd ∘ states) <$> g_register_mappings s !! Z.to_nat r.

Lemma spares_ret r {A} (a : A) : spares r (mret a).
Proof. by intros s b s1 [= <- <-]. Qed.

Lemma spares_bind r {A B} (c : M (regs S) A) (k : A → M (regs S) B) :
  spares r c → (∀ a, spares r (k a)) → spares r (c ≫= k).
Proof.
  intros Hc Hk s b s2. unfold mbind, M_bind. destruct (c s) as [[a s1]| | |] eqn:E; [|done..]. intros E2.
  destruct (Hc _ _ _ E) as [A1 A2], (Hk _ _ _ _ E2) as [B1 B2]. split; congruence.
Qed.

Lemma spares_zoom r {A} (c : M S A) : spares r (zoom c).
Proof. intros s a s1. unfold zoom. destruct (c _) as [[]| | |]; [|done..]. by intros [= <- <-]. Qed.

Lemma spares_get r r' : spares r (get_mapping r').
Proof. intros s a s1. unfold get_mapping. case_match; [|done]. by intros [= <- <-]. Qed.

Lemma spares_rget r n off : spares r (rget n off).
Proof. intros s a s1. unfold rget. case_match; [|done]. by intros [= <- <-]. Qed.

(** Changing the entry of the register through a function of the old one that
    keeps the second state. *)
Lemma spares_update r f :
  (∀ m, snd (states (f m)) = snd (states m)) → spares r (m ← get_mapping r; set_mapping r (f m)).
Proof.
  intros Hf s a s1. unfold mbind, M_bind, get_mapping, set_mapping, modify.
  destruct (g_register_mappings s !! Z.to_nat r) as [m|] eqn:E; [|done]. intros [= <- <-]. simpl. split; [done|].
  rewrite list_lookup_insert_eq by (by eapply lookup_lt_Some). simpl. by rewrite Hf.
Qed.

Lemma spares_set_state r st : spares r (set_state r false st).
Proof. unfold set_state. by apply (spares_update r (λ m, MkMapping (mappings m) (set_part false st (states m)))). Qed.

Lemma spares_map_gas_to r gas : spares r (map_gas_to r false gas).
Proof.
  unfold map_gas_to. apply spares_bind; [apply spares_zoom|]. intros [st [g|]]; simpl.
  - apply spares_bind.
    + by apply (spares_update r (λ m, MkMapping (set_part false g (mappings m)) (states m))).
    + intros _. destruct st; try apply spares_ret. apply spares_bind; [apply spares_set_state|]. intros _. apply spares_ret.
  - apply spares_bind; [apply spares_ret|].
    intros _. destruct st; try apply spares_ret. apply spares_bind; [apply spares_set_state|]. intros _. apply spares_ret.
Qed.

Lemma spares_read_gas r a : spares r (read_gas a).
Proof.
  destruct a; simpl; [by intros s b s1 [= <- <-]| |done].
  repeat (apply spares_bind; [apply spares_rget|intros ?]). apply spares_ret.
Qed.

(** Mapping the first part leaves the second as it was. *)
Lemma map_one_other r spec : spares r (map_one r spec false).
Proof.
  unfold map_one. apply spares_bind; [apply spares_get|]. intros m. case_bool_decide; [apply spares_ret|].
  case_match.
  - apply spares_bind; [apply spares_read_gas|]. intros gas. case_match; [|apply spares_map_gas_to].
    apply spares_bind; [apply spares_set_state|]. intros _. apply spares_ret.
  - apply spares_bind; [|intros; apply spares_map_gas_to]. destruct (fst (accessors spec)); simpl; try done. apply spares_rget.
Qed.

(** Registers that have one part only cannot be used: when the first
    part has been mapped, [map_one] reads the address of the second structure
    through a null pointer.  This holds for the timer, the second control
    register, the sleep registers and the reset register. *)
Theorem single_part_register_faults r spec m s s1 :
  quiet_locks → 0 ≤ r ≤ UACPI_REGISTER_MAX → g_registers !! Z.to_nat r = Some spec →
  kind spec = REGISTER_KIND_GAS → snd (accessors spec) = ACC_NULL → initialized s →
  g_register_mappings s !! Z.to_nat r = Some m → snd (states m) = REGISTER_MAPPING_STATE_NONE →
  map_one r spec false s = Ok (UACPI_STATUS_OK, s1) →
  uacpi_read_register r s = Fault 4 ∧ ∀ v, uacpi_write_register r v s = Fault 4.
Proof.
  intros [Hlock Hunlock] Hr Hs Hk Ha Hi Hm Hst E. pose proof (map_one_other r spec s _ s1 E) as [_ Hsp]. rewrite Hm in Hsp.
  simpl in Hsp. destruct (g_register_mappings s1 !! Z.to_nat r) as [m1|] eqn:Hm1; [|done]. injection Hsp as Hm1s.
  assert (ensure_register_mapped r spec s = Fault 4) as Hf.
  { unfold ensure_register_mapped, mbind, M_bind at 1, get_mapping at 1. rewrite Hm.
    rewrite (bool_decide_eq_false_2 (snd _ ≠ _)) by tauto. rewrite andb_false_r. unfold M_bind, gets.
    destruct (Hlock (g_reg_lock s) (host_state s)) as [fl Hfl]. rewrite (zoom_same _ _ _ Hfl). rewrite E.
    unfold map_one, mbind, M_bind, get_mapping. rewrite Hm1. unfold part. rewrite Hm1s, Hst.
    rewrite bool_decide_eq_false_2 by tauto. rewrite Hk, Ha. done. }
  assert (get_reg (u8 r) = Some spec) as Hg.
  { unfold UACPI_REGISTER_MAX, UACPI_REGISTER_SMI_CMD in Hr. unfold get_reg. rewrite wrap_small by lia.
    by rewrite (proj2 (Z.ltb_ge _ _)) by (unfold UACPI_REGISTER_MAX, UACPI_REGISTER_SMI_CMD; lia). }
  unfold UACPI_REGISTER_MAX, UACPI_REGISTER_SMI_CMD in Hr. unfold uacpi_read_register, uacpi_write_register.
  split; [|intros v]; rewrite at_level by done; unfold with_reg; rewrite Hg, wrap_small by lia; unfold mbind, M_bind; by rewrite Hf.
Qed.
End theorems.

(** ** Concrete registers *)

Section one_part.
Context {S : Type} `{AcpiHost S}.

(** A register with one part, whose structure is mapped to a window. *)
Lemma window_cells g g1 k view :
  in_pieces g k → window g view (k * access_bytes g) →
  cells (MkMapping (g, g1) (REGISTER_MAPPING_STATE_MAPPED, REGISTER_MAPPING_STATE_NOT_NEEDED))
    (λ idx s, if idx then 0 else default 0 (load (Z.to_nat (k * access_bytes g)) (view s) 0))
    (k * access_bit_width g) (keeps (k * access_bit_width g)).
Proof.
  intros Hg Hw. destruct (pieces_bytes g k Hg) as [Ea Hb]. pose proof Hg as [_ _ _ Hk Hfit].
  assert (∀ s, ∃ v, load (Z.to_nat (k * access_bytes g)) (view s) 0 = Some v ∧ 0 ≤ v < 2 ^ (k * access_bit_width g)) as Hl.
  { intros s. pose proof (win_mapped _ _ _ Hw s) as [v Hv]%load_is_Some. exists v. split; [done|].
    apply load_range in Hv. by rewrite Z2Nat.id, (bytes_bits g k Hg) in Hv by nia. }
  split; [by intros []|..].
  - intros [] s Hst; [done|]. destruct (Hl s) as (v & Hv & _). simpl. rewrite Hv. by apply (gas_read_mapped_loads g k view).
  - intros [] v s Hst Hv; [done|]. destruct (gas_write_mapped_stores g k view Hg Hw v s Hv) as (s' & E & Hs').
    exists s'. split; [done|]. split; [|done]. simpl. rewrite (load_ext _ _ _ _ (λ x _, Hs' x)), load_store_eq.
    simpl. unfold keeps. by rewrite Z2Nat.id, (bytes_bits g k Hg) by nia.
  - by intros [].
  - intros [] s; [split; [done|apply Z.pow_pos_nonneg; nia]|]. destruct (Hl s) as (v & -> & Hv). done.
  - nia.
Qed.
End one_part.

Module demo.
Definition junk : uacpi_mapped_gas := MkMapped 0 0 0 0 GAS_SYSTEM_MEMORY.

(** The control register at port 0x404, one part. *)
Definition pm1_cnt : uacpi_mapped_gas := MkMapped 0x20404 16 16 0 GAS_SYSTEM_IO.
Definition cnt_mapping : register_mapping :=
  MkMapping (pm1_cnt, junk) (REGISTER_MAPPING_STATE_MAPPED, REGISTER_MAPPING_STATE_NOT_NEEDED).
Definition with_level (f : mem) : uacpi_runtime_context := MkRt f gas_zero gas_zero gas_zero gas_zero 0 false false 1.
Definition cnt_state (f : ram) : regs ram :=
  MkRegs f 1 [mapping_zero; mapping_zero; cnt_mapping] (with_level (λ _, None)).

Lemma quiet : quiet_locks (H := flat_host 0x10000 0x20000).
Proof. split; [intros l s; by exists 0|done]. Qed.

Lemma cnt_pieces : in_pieces pm1_cnt 1.
Proof. split; simpl; try (apply (bool_decide_unpack _); vm_compute; exact I); lia. Qed.

(** A status register of 16 bits in which writing a one clears a bit. *)
#[export] Instance sts_host : AcpiHost Z := {|
  host_map := λ _ _, mret 0;
  host_unmap := λ _ _, mret tt;
  host_io_map := λ _ _, mret (UACPI_STATUS_OK, 1);
  host_io_unmap := λ _, mret tt;
  host_io_read := λ _ _ _ s, Ok ((UACPI_STATUS_OK, s), s);
  host_io_write := λ _ _ _ v s, Ok (UACPI_STATUS_OK, Z.land s (Z.lnot v));
  host_load := λ _ _, mret 0;
  host_store := λ _ _ _, mret tt;
  host_create_spinlock := mret 1;
  host_free_spinlock := λ _, mret tt;
  host_lock_spinlock := λ _, mret 0;
  host_unlock_spinlock := λ _ _, mret tt
|}.

Definition pm1_sts : uacpi_mapped_gas := MkMapped 1 16 16 0 GAS_SYSTEM_IO.
Definition sts_mapping : register_mapping :=
  MkMapping (pm1_sts, junk) (REGISTER_MAPPING_STATE_MAPPED, REGISTER_MAPPING_STATE_NOT_NEEDED).
Definition sts_state (v : Z) : regs Z := MkRegs v 1 [sts_mapping] (with_level (λ _, None)).

Lemma sts_read s : uacpi_gas_read_mapped pm1_sts s = Ok ((UACPI_STATUS_OK, s mod 2 ^ 16), s).
Proof.
  assert (uacpi_gas_read_mapped pm1_sts s =
    Ok ((UACPI_STATUS_OK, Z.lor 0 (u64 (Z.shiftl (Z.land (u16 s) (2 ^ 16 - 1)) 0))), s)) as -> by reflexivity.
  rewrite Z.lor_0_l, Z.shiftl_0_r, land_ones_mod by lia. pose proof (wrap_range 16 s).
  unfold wrap at 2. rewrite Z.mod_mod, wrap_small by (unfold wrap in *; lia). done.
Qed.

Lemma sts_write v s :
  0 ≤ v → ∃ s', uacpi_gas_write_mapped pm1_sts v s = Ok (UACPI_STATUS_OK, s') ∧ s' mod 2 ^ 16 = write_to_clear (s mod 2 ^ 16) v.
Proof.
  intros Hv. exists (Z.land s (Z.lnot (u16 (Z.land (Z.shiftr v 0) (2 ^ 16 - 1))))). split; [reflexivity|].
  unfold write_to_clear. apply Z.bits_inj'. intros b Hb. rewrite Z.land_spec, !Z.testbit_mod_pow2, Z.land_spec, !Z.lnot_spec by lia.
  rewrite Z.shiftr_0_r, land_ones_mod by lia. unfold wrap. rewrite Z.mod_mod, Z.testbit_mod_pow2 by lia.
  by destruct (b <? 16).
Qed.

Lemma sts_cells : cells sts_mapping (λ idx s, if idx then 0 else s mod 2 ^ 16) 16 write_to_clear.
Proof.
  split; [by intros []|..].
  - intros [] s Hs; [done|]. apply sts_read.
  - intros [] v s Hs Hv; [done|]. destruct (sts_write v s Hv) as (s' & E & Es). by exists s'.
  - by intros [].
  - intros [] s; [lia|apply Z.mod_pos_bound; lia].
  - lia.
Qed.

(** The copy of a FADT with the timer at port 0x608. *)
Definition fadt_with_timer : mem := λ x,
  Some (if x =? 208 then 1 else if x =? 209 then 32 else if x =? 212 then 8 else if x =? 213 then 6 else 0).
Definition tmr_state : regs ram := MkRegs (λ _, 0) 1 (replicate 9 mapping_zero) (with_level fadt_with_timer).
End demo.


Lemma status_field_write_clears_others_witness :
  ∃ h, uacpi_write_register_field (H := demo.sts_host) UACPI_REGISTER_FIELD_TMR_STS 1 (demo.sts_state 0x0101) =
      Ok ((UACPI_STATUS_OK, tt), with_host h (demo.sts_state 0x0101)) ∧
    Z.testbit (h mod 2 ^ 16) ACPI_PM1_STS_PWRBTN_STS_IDX = false.
Proof.
  destruct (status_field_write_clears_others (H := demo.sts_host) 0
    (MkRegField UACPI_REGISTER_PM1_STS ACPI_PM1_STS_TMR_STS_IDX ACPI_PM1_STS_TMR_STS_MASK)
    (nth 0 g_registers (MkSpec 0 0 0 (ACC_NULL, ACC_NULL) 0 0)) demo.sts_mapping _ 16 1 (demo.sts_state 0x0101)
    ltac:(split; [intros l s; by exists 0|done]) demo.sts_cells) as (h & E & Hb).
  - reflexivity.
  - reflexivity.
  - reflexivity.
  - reflexivity.
  - reflexivity.
  - vm_compute. discriminate.
  - exists h. split; [exact E|]. apply (Hb false); reflexivity || (vm_compute; discriminate).
Defined.

Lemma single_part_register_faults_witness :
  uacpi_read_register (H := flat_host 0x10000 0x20000) UACPI_REGISTER_PM_TMR demo.tmr_state = Fault 4.
Proof.
  apply (single_part_register_faults (H := flat_host 0x10000 0x20000) 3
    (nth 3 g_registers (MkSpec 0 0 0 (ACC_NULL, ACC_NULL) 0 0)) mapping_zero demo.tmr_state
    (MkRegs (λ _, 0) 1 (<[3%nat := MkMapping (MkMapped 0x20608 32 32 0 GAS_SYSTEM_IO, demo.junk)
        (REGISTER_MAPPING_STATE_MAPPED, REGISTER_MAPPING_STATE_NONE)]> (replicate 9 mapping_zero))
        (demo.with_level demo.fadt_with_timer))
    demo.quiet); try reflexivity.
  - vm_compute. split; discriminate.
  - vm_compute. discriminate.
Defined.
