(* ===== verification/UacpiLock.v ===== *)
(** * Locks of the ACPI library: uacpi/source/mutex.c

    The functions are programs over the mutexes of the host and the fields of
    the lock structures: an inductive type with one constructor per action
    another thread can observe, so that the steps of several threads can be
    interleaved at every load, store and mutex operation.  The host's mutex is
    what kernel_api.h describes: an acquisition waits for the mutex to be free
    or fails with a status of the host's choice, and any thread may release.

    The mutex handles of a lock are set by the functions that create it and
    are constants of the programs. *)

From S2P Require Import Prelude Tables.
Local Open Scope Z_scope.
Local Open Scope kernel_scope.

(** ** Programs

    [Update] is a loop around an atomic compare-and-exchange: it replaces a
    value by a function of it in one step.  [Spin] takes a spinlock of the
    host, which does not fail; its release is that of a mutex.  [Wait] waits for an event of the
    host, [Notify] tells the firmware that the lock is free (a write to the
    register field modelled in UacpiRegs.v). *)

(** The fields that change: of a reader-writer lock, of a recursive lock, of
    an AML mutex, of [g_uacpi_rt_ctx] and of the table shared with the
    firmware. *)
Inductive loc :=
| num_readers
| lock_depth
| lock_owner
| mutex_depth
| mutex_owner
| global_lock_seq_num
| global_lock_acquired
| global_lock_pending
| facs_global_lock.

#[export] Instance loc_eq_dec : EqDecision loc.
Proof. solve_decision. Defined.

Inductive prog (A : Type) :=
| Ret (a : A)
| Acquire (mtx timeout : Z) (k : uacpi_status → prog A)
| Release (mtx : Z) (k : prog A)
| Load (x : loc) (k : Z → prog A)
| Store (x : loc) (v : Z) (k : prog A)
| Update (x : loc) (f : Z → Z) (k : Z → prog A)
| ThreadId (k : Z → prog A)
| Spin (lock : Z) (k : prog A)
| Wait (k : prog A)
| Notify (k : prog A).
Arguments Ret {A} _.
Arguments Acquire {A} _ _ _.
Arguments Release {A} _ _.
Arguments Load {A} _ _.
Arguments Store {A} _ _ _.
Arguments Update {A} _ _ _.
Arguments ThreadId {A} _.
Arguments Spin {A} _ _.
Arguments Wait {A} _.
Arguments Notify {A} _.

Definition uacpi_acquire_native_mutex {A : Type} (mtx : Z) (k : uacpi_status → prog A) : prog A :=
  if mtx =? 0 then k UACPI_STATUS_INVALID_ARGUMENT else Acquire mtx 0xFFFF k.

Definition uacpi_release_native_mutex {A : Type} (mtx : Z) (k : uacpi_status → prog A) : prog A :=
  if mtx =? 0 then k UACPI_STATUS_INVALID_ARGUMENT else Release mtx (k UACPI_STATUS_OK).

Definition is_ok (st : uacpi_status) : bool := bool_decide (st = UACPI_STATUS_OK).

(** ** The reader-writer lock *)

Record uacpi_rw_lock := MkRw { read_mutex : Z; write_mutex : Z }.

Definition uacpi_rw_lock_read (l : uacpi_rw_lock) : prog uacpi_status :=
  uacpi_acquire_native_mutex (read_mutex l) (λ ret,
    if negb (is_ok ret) then Ret ret
    else
      Load num_readers (λ n, Store num_readers (u64 (n + 1)) (
        if n =? 0 then
          uacpi_acquire_native_mutex (write_mutex l) (λ ret,
            if negb (is_ok ret) then Store num_readers 0 (Release (read_mutex l) (Ret ret))
            else Release (read_mutex l) (Ret ret))
        else Release (read_mutex l) (Ret ret)))).

Definition uacpi_rw_unlock_read (l : uacpi_rw_lock) : prog uacpi_status :=
  uacpi_acquire_native_mutex (read_mutex l) (λ ret,
    if negb (is_ok ret) then Ret ret
    else
      Load num_readers (λ n, Store num_readers (u64 (n - 1)) (
        if n =? 1 then uacpi_release_native_mutex (write_mutex l) (λ _, Release (read_mutex l) (Ret ret))
        else Release (read_mutex l) (Ret ret)))).

Definition uacpi_rw_lock_write (l : uacpi_rw_lock) : prog uacpi_status :=
  uacpi_acquire_native_mutex (write_mutex l) Ret.

Definition uacpi_rw_unlock_write (l : uacpi_rw_lock) : prog uacpi_status :=
  uacpi_release_native_mutex (write_mutex l) Ret.

(** ** The recursive lock *)

Definition UACPI_THREAD_ID_NONE : Z := 2 ^ 64 - 1.

Definition uacpi_recursive_lock_acquire (mutex : Z) : prog uacpi_status :=
  ThreadId (λ this_id, Load lock_owner (λ owner,
    if owner =? this_id then Load lock_depth (λ d, Store lock_depth (u64 (d + 1)) (Ret UACPI_STATUS_OK))
    else
      uacpi_acquire_native_mutex mutex (λ ret,
        if negb (is_ok ret) then Ret ret
        else Store lock_owner this_id (Store lock_depth 1 (Ret ret))))).

Definition uacpi_recursive_lock_release (mutex : Z) : prog uacpi_status :=
  Load lock_depth (λ d, Store lock_depth (u64 (d - 1)) (
    if 1 <? d then Ret UACPI_STATUS_OK
    else Store lock_owner UACPI_THREAD_ID_NONE (uacpi_release_native_mutex mutex Ret))).

(** ** The global lock *)

Definition GLOBAL_LOCK_PENDING : Z := Z.shiftl 1 0.
Definition GLOBAL_LOCK_OWNED_BIT : Z := 1.
Definition GLOBAL_LOCK_OWNED : Z := Z.shiftl 1 GLOBAL_LOCK_OWNED_BIT.
Definition GLOBAL_LOCK_MASK : Z := 3.

Definition was_owned (value : Z) : bool := negb (Z.land value GLOBAL_LOCK_OWNED =? 0).

Definition acquired_value (value : Z) : Z :=
  let new_value := Z.lor (Z.land value (u32 (Z.lnot GLOBAL_LOCK_MASK))) GLOBAL_LOCK_OWNED in
  if was_owned value then Z.lor new_value GLOBAL_LOCK_PENDING else new_value.

Definition released_value (value : Z) : Z := Z.land value (u32 (Z.lnot GLOBAL_LOCK_MASK)).

Definition try_acquire_global_lock_from_firmware {A : Type} (k : bool → prog A) : prog A :=
  Update facs_global_lock acquired_value (λ value, k (negb (was_owned value))).

Definition do_release_global_lock_to_firmware {A : Type} (k : bool → prog A) : prog A :=
  Update facs_global_lock released_value (λ value, k (negb (Z.land value GLOBAL_LOCK_PENDING =? 0))).

(** The attempts, [left] of them after this one. *)
Fixpoint firmware_attempts {A : Type} (left : nat) (sl : Z) (k : uacpi_status → prog A) : prog A :=
  try_acquire_global_lock_from_firmware (λ success,
    if success then Store global_lock_pending 0 (Release sl (k UACPI_STATUS_OK))
    else
      match left with
      | O => Store global_lock_pending 0 (Release sl (k UACPI_STATUS_HARDWARE_TIMEOUT))
      | S left' => Store global_lock_pending 1 (Release sl (Wait (Spin sl (firmware_attempts left' sl k))))
      end).

(** The first attempt makes [spins] 1; the last is that with 0xFFFF. *)
Definition firmware_retries : nat := Z.to_nat 0xFFFE.

(** What is set up before the locks are used: the mutex and the spinlock of
    the global lock, whether the firmware has one, and the level of the
    library. *)
Record global_locks := MkGlobal {
  global_lock_mutex : Z;
  global_lock_spinlock : Z;
  has_global_lock : bool;
  library_level : Z
}.

Definition uacpi_acquire_global_lock_from_firmware {A : Type} (g : global_locks) (k : uacpi_status → prog A) : prog A :=
  if negb (has_global_lock g) then k UACPI_STATUS_OK
  else Spin (global_lock_spinlock g) (firmware_attempts firmware_retries (global_lock_spinlock g) k).

Definition uacpi_release_global_lock_to_firmware {A : Type} (g : global_locks) (k : prog A) : prog A :=
  if negb (has_global_lock g) then k
  else do_release_global_lock_to_firmware (λ pending, if pending then Notify k else k).

Definition uacpi_acquire_native_mutex_with_timeout {A : Type} (mtx timeout : Z) (k : uacpi_status → prog A) : prog A :=
  if mtx =? 0 then k UACPI_STATUS_INVALID_ARGUMENT else Acquire mtx timeout k.

(** The status and [*out_seq]; [out]: whether the pointer is not null. *)
Definition uacpi_acquire_global_lock (g : global_locks) (timeout : Z) (out : bool) : prog (uacpi_status * Z) :=
  if library_level g <? UACPI_INIT_LEVEL_SUBSYSTEM_INITIALIZED then Ret (UACPI_STATUS_INIT_LEVEL_MISMATCH, 0)
  else if negb out then Ret (UACPI_STATUS_INVALID_ARGUMENT, 0)
  else
  uacpi_acquire_native_mutex_with_timeout (global_lock_mutex g) timeout (λ ret,
    if negb (is_ok ret) then Ret (ret, 0)
    else
      uacpi_acquire_global_lock_from_firmware g (λ ret,
        if negb (is_ok ret) then uacpi_release_native_mutex (global_lock_mutex g) (λ _, Ret (ret, 0))
        else
          Load global_lock_seq_num (λ n,
            (λ k, if n =? 0xFFFFFFFF then Store global_lock_seq_num 0 k else k) (
            Load global_lock_seq_num (λ n,
              Store global_lock_seq_num (u32 (n + 1)) (
              Store global_lock_acquired 1 (Ret (UACPI_STATUS_OK, n)))))))).

Definition uacpi_release_global_lock (g : global_locks) (seq : Z) : prog uacpi_status :=
  if library_level g <? UACPI_INIT_LEVEL_SUBSYSTEM_INITIALIZED then Ret UACPI_STATUS_INIT_LEVEL_MISMATCH
  else Load global_lock_acquired (λ acquired,
    if acquired =? 0 then Ret UACPI_STATUS_INVALID_ARGUMENT
    else
      Load global_lock_seq_num (λ n,
        if negb (seq =? n) then Ret UACPI_STATUS_INVALID_ARGUMENT
        else
          Store global_lock_acquired 0 (
          uacpi_release_global_lock_to_firmware g (
          uacpi_release_native_mutex (global_lock_mutex g) (λ _, Ret UACPI_STATUS_OK))))).

(** ** Mutexes of AML *)

Definition uacpi_this_thread_owns_aml_mutex : prog bool :=
  Load mutex_owner (λ id, ThreadId (λ this_id, Ret (id =? this_id))).

(** [handle] is the mutex of the AML object, [ns] the lock of the namespace,
    which is given up while waiting. *)
Definition uacpi_acquire_aml_mutex (g : global_locks) (ns : uacpi_rw_lock) (handle timeout : Z) : prog uacpi_status :=
  let out ret := uacpi_acquire_native_mutex (write_mutex ns) (λ _, Ret ret) in
  ThreadId (λ this_id, Load mutex_owner (λ owner,
    if owner =? this_id then
      Load mutex_depth (λ d,
        if d =? 0xFFFF then Ret UACPI_STATUS_DENIED
        else Store mutex_depth (u16 (d + 1)) (Ret UACPI_STATUS_OK))
    else
      uacpi_release_native_mutex (write_mutex ns) (λ _,
      uacpi_acquire_native_mutex_with_timeout handle timeout (λ ret,
        if negb (is_ok ret) then out ret
        else
          let own ret := Store mutex_owner this_id (Store mutex_depth 1 (out ret)) in
          if handle =? global_lock_mutex g then
            uacpi_acquire_global_lock_from_firmware g (λ ret,
              if negb (is_ok ret) then uacpi_release_native_mutex handle (λ _, out ret) else own ret)
          else own ret)))).

Definition uacpi_release_aml_mutex (g : global_locks) (handle : Z) : prog uacpi_status :=
  Load mutex_depth (λ d, Store mutex_depth (u16 (d - 1)) (
    if 1 <? d then Ret UACPI_STATUS_OK
    else
      (λ k, if handle =? global_lock_mutex g then uacpi_release_global_lock_to_firmware g k else k) (
      Store mutex_owner UACPI_THREAD_ID_NONE (uacpi_release_native_mutex handle (λ _, Ret UACPI_STATUS_OK))))).

(** ** Threads *)

(** What a thread does with the lock: it runs one of the operations, or is
    between them. *)
Inductive thread :=
| Idle
| Locking_read (p : prog uacpi_status)
| Reading
| Unlocking_read (p : prog uacpi_status)
| Locking_write (p : prog uacpi_status)
| Writing
| Unlocking_write (p : prog uacpi_status).

Record machine := MkMachine { locked : Z → bool; cell : loc → Z; threads : list thread }.

Definition set_fun {K V : Type} `{EqDecision K} (k : K) (v : V) (f : K → V) : K → V :=
  λ x, if decide (x = k) then v else f x.

(** One step of a program of thread [t]. *)
Inductive prog_step {A : Type} (t : Z) : prog A → (Z → bool) → (loc → Z) → prog A → (Z → bool) → (loc → Z) → Prop :=
| step_acquire mtx timeout k lk c :
    lk mtx = false → prog_step t (Acquire mtx timeout k) lk c (k UACPI_STATUS_OK) (set_fun mtx true lk) c
| step_acquire_fails mtx timeout k st lk c :
    st ≠ UACPI_STATUS_OK → prog_step t (Acquire mtx timeout k) lk c (k st) lk c
| step_release mtx k lk c :
    lk mtx = true → prog_step t (Release mtx k) lk c k (set_fun mtx false lk) c
| step_load x k lk c : prog_step t (Load x k) lk c (k (c x)) lk c
| step_store x v k lk c : prog_step t (Store x v k) lk c k lk (set_fun x v c)
| step_update x f k lk c : prog_step t (Update x f k) lk c (k (c x)) lk (set_fun x (f (c x)) c)
| step_thread_id k lk c : prog_step t (ThreadId k) lk c (k t) lk c
| step_spin sl k lk c : lk sl = false → prog_step t (Spin sl k) lk c k (set_fun sl true lk) c
| step_wait k lk c : prog_step t (Wait k) lk c k lk c
| step_notify k lk c : prog_step t (Notify k) lk c k lk c.

Section rw.
Variable l : uacpi_rw_lock.

(** The steps of a thread that are not steps of a program: it starts an
    operation, or leaves one with its result. *)
Inductive life_step : thread → thread → Prop :=
| life_lock_read : life_step Idle (Locking_read (uacpi_rw_lock_read l))
| life_lock_write : life_step Idle (Locking_write (uacpi_rw_lock_write l))
| life_locked_read ret : life_step (Locking_read (Ret ret)) (if is_ok ret then Reading else Idle)
| life_locked_write ret : life_step (Locking_write (Ret ret)) (if is_ok ret then Writing else Idle)
| life_unlock_read : life_step Reading (Unlocking_read (uacpi_rw_unlock_read l))
| life_unlock_write : life_step Writing (Unlocking_write (uacpi_rw_unlock_write l))
| life_unlocked_read ret : life_step (Unlocking_read (Ret ret)) Idle
| life_unlocked_write ret : life_step (Unlocking_write (Ret ret)) Idle.

Inductive thread_step (t : Z) : thread → (Z → bool) → (loc → Z) → thread → (Z → bool) → (loc → Z) → Prop :=
| ts_life th th' lk c : life_step th th' → thread_step t th lk c th' lk c
| ts_locking_read p p' lk c lk' c' :
    prog_step t p lk c p' lk' c' → thread_step t (Locking_read p) lk c (Locking_read p') lk' c'
| ts_unlocking_read p p' lk c lk' c' :
    prog_step t p lk c p' lk' c' → thread_step t (Unlocking_read p) lk c (Unlocking_read p') lk' c'
| ts_locking_write p p' lk c lk' c' :
    prog_step t p lk c p' lk' c' → thread_step t (Locking_write p) lk c (Locking_write p') lk' c'
| ts_unlocking_write p p' lk c lk' c' :
    prog_step t p lk c p' lk' c' → thread_step t (Unlocking_write p) lk c (Unlocking_write p') lk' c'.

(** Any thread may go next. *)
Inductive rw_step : machine → machine → Prop :=
| rw_step_thread i th th' lk c lk' c' ths :
    ths !! i = Some th → thread_step (Z.of_nat i) th lk c th' lk' c' →
    rw_step (MkMachine lk c ths) (MkMachine lk' c' (<[i := th']> ths)).

(** All mutexes free, no reader, [n] threads. *)
Definition rw_initial (n : nat) : machine := MkMachine (λ _, false) (λ _, 0) (replicate n Idle).
End rw.

(** ** Positions of a thread in the operations *)

Inductive position :=
| PIdle | PReading | PWriting
| PR_start | PR_load | PR_store (n : Z) | PR_acquire | PR_fail (st : uacpi_status) | PR_release (st : uacpi_status)
| PR_done (st : uacpi_status)
| PU_start | PU_load | PU_store (n : Z) | PU_free | PU_release | PU_done (st : uacpi_status)
| PW_start | PW_done (st : uacpi_status)
| PV_start | PV_done (st : uacpi_status).

Section rw_positions.
Variable l : uacpi_rw_lock.

(** The programs between the two mutexes. *)
Definition leave (st : uacpi_status) : prog uacpi_status := Release (read_mutex l) (Ret st).
Definition first_reader (ret : uacpi_status) : prog uacpi_status :=
  if negb (is_ok ret) then Store num_readers 0 (leave ret) else leave ret.
Definition count_in (n : Z) : prog uacpi_status :=
  Store num_readers (u64 (n + 1))
    (if n =? 0 then uacpi_acquire_native_mutex (write_mutex l) first_reader else leave UACPI_STATUS_OK).
Definition count_out (n : Z) : prog uacpi_status :=
  Store num_readers (u64 (n - 1))
    (if n =? 1 then uacpi_release_native_mutex (write_mutex l) (λ _, leave UACPI_STATUS_OK) else leave UACPI_STATUS_OK).

Definition thread_of (p : position) : thread :=
  match p with
  | PIdle => Idle
  | PReading => Reading
  | PWriting => Writing
  | PR_start => Locking_read (uacpi_rw_lock_read l)
  | PR_load => Locking_read (Load num_readers count_in)
  | PR_store n => Locking_read (count_in n)
  | PR_acquire => Locking_read (uacpi_acquire_native_mutex (write_mutex l) first_reader)
  | PR_fail st => Locking_read (Store num_readers 0 (leave st))
  | PR_release st => Locking_read (leave st)
  | PR_done st => Locking_read (Ret st)
  | PU_start => Unlocking_read (uacpi_rw_unlock_read l)
  | PU_load => Unlocking_read (Load num_readers count_out)
  | PU_store n => Unlocking_read (count_out n)
  | PU_free => Unlocking_read (uacpi_release_native_mutex (write_mutex l) (λ _, leave UACPI_STATUS_OK))
  | PU_release => Unlocking_read (leave UACPI_STATUS_OK)
  | PU_done st => Unlocking_read (Ret st)
  | PW_start => Locking_write (uacpi_rw_lock_write l)
  | PW_done st => Locking_write (Ret st)
  | PV_start => Unlocking_write (uacpi_rw_unlock_write l)
  | PV_done st => Unlocking_write (Ret st)
  end.

(** The steps between positions, with what they do to the read mutex, the
    write mutex and the count. *)
Inductive pos_step : position → bool → bool → Z → position → bool → bool → Z → Prop :=
| ps_idle_read r w n : pos_step PIdle r w n PR_start r w n
| ps_idle_write r w n : pos_step PIdle r w n PW_start r w n
| ps_start w n : pos_step PR_start false w n PR_load true w n
| ps_start_fails r w n st : st ≠ UACPI_STATUS_OK → pos_step PR_start r w n (PR_done st) r w n
| ps_load r w n : pos_step PR_load r w n (PR_store n) r w n
| ps_store_first r w n : pos_step (PR_store 0) r w n PR_acquire r w (u64 (0 + 1))
| ps_store r w n m : m ≠ 0 → pos_step (PR_store m) r w n (PR_release UACPI_STATUS_OK) r w (u64 (m + 1))
| ps_acquire r n : pos_step PR_acquire r false n (PR_release UACPI_STATUS_OK) r true n
| ps_acquire_fails r w n st : st ≠ UACPI_STATUS_OK → pos_step PR_acquire r w n (PR_fail st) r w n
| ps_fail r w n st : pos_step (PR_fail st) r w n (PR_release st) r w 0
| ps_release w n st : pos_step (PR_release st) true w n (PR_done st) false w n
| ps_done_ok r w n : pos_step (PR_done UACPI_STATUS_OK) r w n PReading r w n
| ps_done r w n st : st ≠ UACPI_STATUS_OK → pos_step (PR_done st) r w n PIdle r w n
| ps_reading r w n : pos_step PReading r w n PU_start r w n
| pu_start w n : pos_step PU_start false w n PU_load true w n
| pu_start_fails r w n st : st ≠ UACPI_STATUS_OK → pos_step PU_start r w n (PU_done st) r w n
| pu_load r w n : pos_step PU_load r w n (PU_store n) r w n
| pu_store_last r w n : pos_step (PU_store 1) r w n PU_free r w (u64 (1 - 1))
| pu_store r w n m : m ≠ 1 → pos_step (PU_store m) r w n PU_release r w (u64 (m - 1))
| pu_free r n : pos_step PU_free r true n PU_release r false n
| pu_release w n : pos_step PU_release true w n (PU_done UACPI_STATUS_OK) false w n
| pu_done r w n st : pos_step (PU_done st) r w n PIdle r w n
| pw_start r n : pos_step PW_start r false n (PW_done UACPI_STATUS_OK) r true n
| pw_start_fails r w n st : st ≠ UACPI_STATUS_OK → pos_step PW_start r w n (PW_done st) r w n
| pw_done_ok r w n : pos_step (PW_done UACPI_STATUS_OK) r w n PWriting r w n
| pw_done r w n st : st ≠ UACPI_STATUS_OK → pos_step (PW_done st) r w n PIdle r w n
| pv_writing r w n : pos_step PWriting r w n PV_start r w n
| pv_start r n : pos_step PV_start r true n (PV_done UACPI_STATUS_OK) r false n
| pv_done r w n st : pos_step (PV_done st) r w n PIdle r w n.

Hypothesis Hread : read_mutex l ≠ 0.
Hypothesis Hwrite : write_mutex l ≠ 0.
Hypothesis Hdiff : read_mutex l ≠ write_mutex l.

Lemma acquire_some {A} m (k : uacpi_status → prog A) : m ≠ 0 → uacpi_acquire_native_mutex m k = Acquire m 0xFFFF k.
Proof. intros Hm. unfold uacpi_acquire_native_mutex. by rewrite (proj2 (Z.eqb_neq m 0)). Qed.

Lemma release_some {A} m (k : uacpi_status → prog A) : m ≠ 0 → uacpi_release_native_mutex m k = Release m (k UACPI_STATUS_OK).
Proof. intros Hm. unfold uacpi_release_native_mutex. by rewrite (proj2 (Z.eqb_neq m 0)). Qed.

Lemma set_fun_eq {K V : Type} `{EqDecision K} (k : K) (v : V) f : set_fun k v f k = v.
Proof. unfold set_fun. by rewrite decide_True. Qed.

Lemma set_fun_ne {K V : Type} `{EqDecision K} (k k' : K) (v : V) f : k' ≠ k → set_fun k v f k' = f k'.
Proof. intros. unfold set_fun. by rewrite decide_False. Qed.

Lemma is_ok_ok : is_ok UACPI_STATUS_OK = true.
Proof. reflexivity. Qed.

Lemma is_ok_false st : st ≠ UACPI_STATUS_OK → is_ok st = false.
Proof. intros. unfold is_ok. by rewrite bool_decide_eq_false_2. Qed.

(** The next position is [p]. *)
Ltac next_position p :=
  exists p; split;
  [ cbn [thread_of]; unfold count_in, count_out, first_reader, leave;
    rewrite ?acquire_some, ?release_some by done; rewrite ?is_ok_false by done; reflexivity
  | rewrite ?set_fun_eq; rewrite ?set_fun_ne by done;
    repeat match goal with E : ?lk _ = _ |- context [?lk _] => rewrite E end; by constructor ].

(** Every step of a thread is a step between positions. *)
Lemma position_step t p lk c th' lk' c' :
  thread_step l t (thread_of p) lk c th' lk' c' →
  ∃ p', th' = thread_of p' ∧
    pos_step p (lk (read_mutex l)) (lk (write_mutex l)) (c num_readers)
      p' (lk' (read_mutex l)) (lk' (write_mutex l)) (c' num_readers).
Proof.
  destruct p; simpl; unfold uacpi_rw_lock_read, uacpi_rw_unlock_read, uacpi_rw_lock_write, uacpi_rw_unlock_write, count_in, count_out;
    rewrite ?acquire_some, ?release_some by done; inversion 1; subst;
    repeat match goal with
    | H : prog_step _ _ _ _ _ _ _ |- _ => inversion H; clear H; subst
    | H : life_step _ _ _ |- _ => inversion H; clear H; subst
    end.
  - next_position PR_start.
  - next_position PW_start.
  - next_position PU_start.
  - next_position PV_start.
  - next_position PR_load.
  - next_position (PR_done st).
  - next_position (PR_store (c' num_readers)).
  - destruct (Z.eqb_spec n 0) as [->|]; [next_position PR_acquire|next_position (PR_release UACPI_STATUS_OK)].
  - next_position (PR_release UACPI_STATUS_OK).
  - next_position (PR_fail st).
  - next_position (PR_release st).
  - next_position (PR_done st).
  - destruct (decide (st = UACPI_STATUS_OK)) as [->|]; [next_position PReading|next_position PIdle].
  - next_position PU_load.
  - next_position (PU_done st).
  - next_position (PU_store (c' num_readers)).
  - destruct (Z.eqb_spec n 1) as [->|]; [next_position PU_free|next_position PU_release].
  - next_position PU_release.
  - next_position (PU_done UACPI_STATUS_OK).
  - next_position PIdle.
  - next_position (PW_done UACPI_STATUS_OK).
  - next_position (PW_done st).
  - destruct (decide (st = UACPI_STATUS_OK)) as [->|]; [next_position PWriting|next_position PIdle].
  - next_position (PV_done UACPI_STATUS_OK).
  - next_position PIdle.
Qed.
End rw_positions.

(** ** The invariant of the reader-writer lock *)

(** Holding the read mutex. *)
Definition in_section (p : position) : bool :=
  match p with
  | PR_load | PR_store _ | PR_acquire | PR_fail _ | PR_release _ | PU_load | PU_store _ | PU_free | PU_release => true
  | _ => false
  end.

(** Counted as a reader. *)
Definition token (p : position) : bool :=
  match p with
  | PR_release st | PR_done st => is_ok st
  | PReading | PU_start | PU_load | PU_store _ => true
  | _ => false
  end.

(** Holding the write mutex as a writer. *)
Definition writer (p : position) : bool :=
  match p with PW_done st => is_ok st | PWriting | PV_start => true | _ => false end.

(** Between a change of the count and the change of the write mutex that goes
    with it. *)
Definition changing (p : position) : bool :=
  match p with PR_acquire | PR_fail _ | PU_free => true | _ => false end.

Definition cnt (f : position → bool) (ps : list position) : Z := Z.of_nat (length (filter (λ p, f p = true) ps)).
Definition b2z (b : bool) : Z := if b then 1 else 0.

Lemma cnt_insert f ps i p p' :
  ps !! i = Some p → cnt f (<[i := p']> ps) + b2z (f p) = cnt f ps + b2z (f p').
Proof.
  revert i. induction ps as [|q ps IH]; intros [|i] H; simplify_eq/=; unfold cnt in *; rewrite !filter_cons.
  - destruct (f p), (f p'); simpl; lia.
  - specialize (IH i H). destruct (f q); simpl in *; lia.
Qed.

Lemma cnt_elem f ps i p : ps !! i = Some p → f p = true → 1 ≤ cnt f ps.
Proof.
  intros Hi Hf. unfold cnt. assert (p ∈ filter (λ p, f p = true) ps) as Hin.
  { apply list_elem_of_filter. split; [done|]. by eapply list_elem_of_lookup_2. }
  destruct (filter _ ps); [by apply elem_of_nil in Hin|]. simpl. lia.
Qed.

Lemma cnt_two f ps i j p q :
  f PIdle = false → i ≠ j → ps !! i = Some p → ps !! j = Some q → f p = true → f q = true → 2 ≤ cnt f ps.
Proof.
  intros Hidle Hij Hi Hj Hp Hq. pose proof (cnt_insert f ps i p PIdle Hi) as E. rewrite Hp, Hidle in E. simpl in E.
  pose proof (cnt_elem f (<[i := PIdle]> ps) j q) as H. rewrite list_lookup_insert_ne in H by done. specialize (H Hj Hq). lia.
Qed.

(** What a position knows: the count [n], whether the readers hold the write
    mutex, and the number of counted readers. *)
Definition knows (p : position) (n : Z) (rd : bool) (toks : Z) : Prop :=
  match p with
  | PR_store m | PU_store m => m = n
  | PR_acquire => n = 1 ∧ toks = 0 ∧ rd = false
  | PR_fail st => n = 1 ∧ toks = 0 ∧ rd = false ∧ st ≠ UACPI_STATUS_OK
  | PU_free => n = 0 ∧ toks = 0 ∧ rd = true
  | _ => True
  end.

(** [r] and [w]: the mutexes; [n]: the count; [rd]: the write mutex belongs to
    the readers; [k]: a bound on the count. *)
Record rw_inv (k : Z) (r w : bool) (n : Z) (rd : bool) (ps : list position) : Prop := {
  ri_section : cnt in_section ps = b2z r;
  ri_writer : cnt writer ps + b2z rd = b2z w;
  ri_count : 0 ≤ n ≤ k;
  ri_stable : cnt changing ps = 0 → cnt token ps ≤ n ∧ (0 < n ↔ rd = true);
  ri_knows i p : ps !! i = Some p → knows p n rd (cnt token ps)
}.

Lemma knows_other p n rd toks n' rd' toks' :
  in_section p = false → knows p n rd toks → knows p n' rd' toks'.
Proof. by destruct p. Qed.

Lemma knows_fewer p n rd toks toks' : 0 ≤ toks' ≤ toks → knows p n rd toks → knows p n rd toks'.
Proof. destruct p; simpl; naive_solver lia. Qed.

Lemma cnt_nonneg f ps : 0 ≤ cnt f ps.
Proof. unfold cnt. lia. Qed.

Lemma changing_section ps : cnt changing ps + cnt (λ p, in_section p && negb (changing p)) ps = cnt in_section ps.
Proof.
  unfold cnt. induction ps as [|p ps IH]; [done|]. rewrite !filter_cons. destruct p; simpl; lia.
Qed.

(** While a thread is in the section and not changing, nobody is. *)
Lemma nobody_changing k r w n rd ps i p :
  rw_inv k r w n rd ps → ps !! i = Some p → in_section p = true → changing p = false → cnt changing ps = 0.
Proof.
  intros [Is _ _ _ _] Hi Hs Hc. pose proof (changing_section ps). pose proof (cnt_nonneg changing ps).
  pose proof (cnt_elem (λ p, in_section p && negb (changing p)) ps i p Hi ltac:(simpl; by rewrite Hs, Hc)). destruct r; simpl in *; lia.
Qed.

(** A step from the section changes what the thread itself knows; nobody
    else is in the section. *)
Lemma knows_after k r w n rd ps i p p' n' rd' :
  rw_inv k r w n rd ps → ps !! i = Some p → 0 ≤ cnt token (<[i := p']> ps) ≤ cnt token ps ∨ in_section p = true ∨ r = false →
  in_section p = true ∨ r = false ∨ (n' = n ∧ rd' = rd) → knows p' n' rd' (cnt token (<[i := p']> ps)) →
  ∀ j q, <[i := p']> ps !! j = Some q → knows q n' rd' (cnt token (<[i := p']> ps)).
Proof.
  intros Hinv Hi Ht Hn Hp j q Hj. destruct (decide (i = j)) as [<-|Hij].
  { rewrite list_lookup_insert_eq in Hj by (by eapply lookup_lt_Some). by injection Hj as <-. }
  rewrite list_lookup_insert_ne in Hj by done. destruct (in_section q) eqn:Hq.
  - pose proof (cnt_elem in_section ps j q Hj Hq). pose proof (ri_section _ _ _ _ _ _ Hinv) as Hs.
    destruct r; simpl in Hs; [|lia].
    destruct (in_section p) eqn:Hps; [pose proof (cnt_two in_section ps i j p q eq_refl Hij Hi Hj Hps Hq); lia|].
    destruct Ht as [Ht|[?|?]], Hn as [?|[?|[-> ->]]]; try done. eapply knows_fewer; [exact Ht|]. by eapply (ri_knows _ _ _ _ _ _ Hinv).
  - eapply knows_other; [done|]. by eapply (ri_knows _ _ _ _ _ _ Hinv).
Qed.

(** The numbers of threads at each kind of position after a step. *)
Ltac count_step ps i p p' Hi :=
  pose proof (cnt_insert in_section ps i p p' Hi) as Cs; pose proof (cnt_insert token ps i p p' Hi) as Ct;
  pose proof (cnt_insert writer ps i p p' Hi) as Cw; pose proof (cnt_insert changing ps i p p' Hi) as Cc;
  pose proof (cnt_nonneg token (<[i := p']> ps)); pose proof (cnt_nonneg writer ps); pose proof (cnt_nonneg writer (<[i := p']> ps));
  pose proof (cnt_nonneg changing ps); pose proof (cnt_nonneg changing (<[i := p']> ps)).

Lemma rw_inv_step k r w n rd ps i p p' r' w' n' :
  rw_inv k r w n rd ps → k + 1 < 2 ^ 64 → ps !! i = Some p → pos_step p r w n p' r' w' n' →
  ∃ rd', rw_inv (k + 1) r' w' n' rd' (<[i := p']> ps).
Proof.
  intros Hinv Hk Hi Hstep. pose proof Hinv as [Is Iw Ic In Ik]. pose proof (Ik i p Hi) as Hknow.
  pose proof (λ n' rd', knows_after k r w n rd ps i p p' n' rd' Hinv Hi) as Hafter.
  pose proof (nobody_changing k r w n rd ps i p Hinv Hi) as Hnobody. pose proof (cnt_elem token ps i p Hi) as Htok.
  count_step ps i p p' Hi.
  destruct Hstep; simpl in Cs, Ct, Cw, Cc, Hknow; destruct_and?; subst;
    rewrite ?is_ok_ok in *; rewrite ?is_ok_false in * by done; simpl in Ct, Cw.
  all: try (exists rd; split;
    [simpl in *; lia|simpl in *; lia|lia|intros; split; [|split]; intros; destruct In; simpl in *; (lia || naive_solver lia)
    |apply Hafter; simpl; (done || lia || naive_solver lia)]).
  - destruct (In (Hnobody eq_refl eq_refl)) as [Hle Hrd]. assert (rd = false) as -> by (destruct rd; [lia|done]).
    rewrite wrap_small by lia. exists false. split; [lia|lia|lia|lia|]. apply Hafter; simpl; auto. lia.
  - destruct (In (Hnobody eq_refl eq_refl)) as [Hle Hrd]. rewrite wrap_small by lia. assert (rd = true) as -> by (apply Hrd; lia).
    exists true. split; [lia|lia|lia|intros; split; [lia|split; [done|lia]]|]. apply Hafter; simpl; auto.
  - exists true. split; [lia|simpl in *; lia|lia|intros; split; [lia|split; [done|lia]]|]. apply Hafter; simpl; auto.
  - exists false. split; [lia|lia|lia|lia|]. apply Hafter; simpl; auto. split_and!; (done || lia).
  - exists false. split; [lia|lia|lia|intros; split; [lia|split; [lia|done]]|]. apply Hafter; simpl; auto.
  - destruct (In (Hnobody eq_refl eq_refl)) as [Hle Hrd]. specialize (Htok eq_refl). rewrite wrap_small by lia.
    assert (rd = true) as -> by (apply Hrd; lia).
    exists true. split; [lia|lia|lia|lia|]. apply Hafter; simpl; auto. split_and!; (done || lia).
  - destruct (In (Hnobody eq_refl eq_refl)) as [Hle Hrd]. specialize (Htok eq_refl). rewrite wrap_small by lia.
    assert (rd = true) as -> by (apply Hrd; lia).
    exists true. split; [lia|lia|lia|intros; split; [lia|split; [done|lia]]|]. apply Hafter; simpl; auto.
  - exists false. split; [lia|simpl in *; lia|lia|intros; split; [lia|split; [lia|done]]|]. apply Hafter; simpl; auto.
Qed.

(** ** Theorems *)

Section rw_theorems.
Variable l : uacpi_rw_lock.
Hypothesis Hread : read_mutex l ≠ 0.
Hypothesis Hwrite : write_mutex l ≠ 0.
Hypothesis Hdiff : read_mutex l ≠ write_mutex l.

Lemma cnt_idle f n : f PIdle = false → cnt f (replicate n PIdle) = 0.
Proof.
  intros Hf. unfold cnt. induction n as [|n IH]; [done|]. simpl replicate. rewrite filter_cons, Hf. exact IH.
Qed.

Lemma cnt_some f ps : cnt f ps ≠ 0 → ∃ i p, ps !! i = Some p ∧ f p = true.
Proof.
  unfold cnt. intros Hc. destruct (filter (λ p, f p = true) ps) as [|p q] eqn:E; [done|].
  assert (p ∈ filter (λ p, f p = true) ps) as [Hp Hin]%list_elem_of_filter by (rewrite E; apply list_elem_of_here).
  apply list_elem_of_lookup in Hin as [i Hi]. eauto.
Qed.

Lemma rw_reachable k n s :
  nsteps (rw_step l) k (rw_initial n) s → Z.of_nat k < 2 ^ 64 →
  ∃ ps rd, threads s = map (thread_of l) ps ∧
    rw_inv (Z.of_nat k) (locked s (read_mutex l)) (locked s (write_mutex l)) (cell s num_readers) rd ps.
Proof.
  revert s. induction k as [|k IH]; intros s Hs Hk.
  - inversion Hs; subst. exists (replicate n PIdle), false. simpl. split; [symmetry; apply fmap_replicate|].
    split; rewrite ?cnt_idle by done; simpl; try done; try lia.
    intros i p [-> _]%lookup_replicate. done.
  - apply nsteps_inv_r in Hs as (s1 & Hs & Hstep). destruct (IH s1 Hs ltac:(lia)) as (ps & rd & Hth & Hinv).
    inversion Hstep as [i th th' lk c lk' c' ths Hi Hts]; subst. simpl in *. subst ths.
    rewrite list_lookup_fmap in Hi. destruct (ps !! i) as [p|] eqn:Hp; [|done]. injection Hi as <-.
    destruct (position_step l Hread Hwrite Hdiff _ _ _ _ _ _ _ Hts) as (p' & -> & Hpos).
    destruct (rw_inv_step _ _ _ _ _ _ _ _ _ _ _ _ Hinv ltac:(lia) Hp Hpos) as [rd' Hinv'].
    exists (<[i := p']> ps), rd'. split; [by rewrite <-list_fmap_insert|].
    by replace (Z.of_nat (Datatypes.S k)) with (Z.of_nat k + 1) by lia.
Qed.

(** While a writer holds the lock nobody is counted as a reader. *)
Lemma writer_alone k r w n rd ps i p :
  rw_inv k r w n rd ps → ps !! i = Some p → writer p = true → cnt token ps = 0 ∧ cnt writer ps = 1.
Proof.
  intros [Is Iw Ic In Ik] Hi Hp. pose proof (cnt_elem writer ps i p Hi Hp). pose proof (cnt_nonneg token ps).
  assert (rd = false ∧ cnt writer ps = 1) as [-> ->] by (destruct rd, w; simpl in *; split; (done || lia)). split; [|done].
  destruct (decide (cnt changing ps = 0)) as [Hc|Hc].
  - destruct (In Hc) as [Hle Hrd]. assert (¬ 0 < n) by (by intros ?%Hrd). lia.
  - apply cnt_some in Hc as (j & q & Hj & Hq). specialize (Ik j q Hj). destruct q; simpl in *; try done; naive_solver.
Qed.

(** C27: the reader-writer lock excludes: in every interleaving of any number
    of threads, also when the host's mutexes fail at any time, while one thread
    is between [uacpi_rw_lock_write] and the end of [uacpi_rw_unlock_write] no
    other thread writes or reads.  (The count of readers has 64 bits, so the
    runs have less than 2^64 steps.) *)
Theorem rw_lock_excludes k n s i j th :
  nsteps (rw_step l) k (rw_initial n) s → Z.of_nat k < 2 ^ 64 →
  threads s !! i = Some Writing → i ≠ j → threads s !! j = Some th → th ≠ Reading ∧ th ≠ Writing.
Proof.
  intros Hs Hk Hi Hij Hj. destruct (rw_reachable k n s Hs Hk) as (ps & rd & Hth & Hinv). rewrite Hth in Hi, Hj.
  rewrite list_lookup_fmap in Hi, Hj. destruct (ps !! i) as [p|] eqn:Hp; [|done]. destruct (ps !! j) as [q|] eqn:Hq; [|done].
  assert (p = PWriting) as -> by (by destruct p). injection Hj as <-.
  destruct (writer_alone _ _ _ _ _ _ i PWriting Hinv Hp eq_refl) as [Ht Hw]. split; intros E.
  - assert (q = PReading) as -> by (by destruct q). pose proof (cnt_elem token ps j PReading Hq eq_refl). lia.
  - assert (q = PWriting) as -> by (by destruct q). pose proof (cnt_two writer ps i j _ _ eq_refl Hij Hp Hq eq_refl eq_refl). lia.
Qed.
End rw_theorems.

Lemma rw_lock_excludes_witness :
  ∃ s, nsteps (rw_step (MkRw 1 2)) 3 (rw_initial 2) s ∧ threads s = [Writing; Idle] ∧ Idle ≠ Reading.
Proof.
  exists (MkMachine (set_fun 2 true (λ _, false)) (λ _, 0) [Writing; Idle]).
  assert (nsteps (rw_step (MkRw 1 2)) 3 (rw_initial 2)
    (MkMachine (set_fun 2 true (λ _, false)) (λ _, 0) [Writing; Idle])) as Hrun.
  { eapply nsteps_l; [eapply (rw_step_thread _ 0); [reflexivity|]; apply ts_life, life_lock_write|].
    eapply nsteps_l; [eapply (rw_step_thread _ 0); [reflexivity|]; apply ts_locking_write, step_acquire; reflexivity|].
    eapply nsteps_l; [eapply (rw_step_thread _ 0); [reflexivity|]; apply ts_life, life_locked_write|].
    apply nsteps_O. }
  split; [exact Hrun|]. split; [reflexivity|].
  refine (proj1 (rw_lock_excludes (MkRw 1 2) _ _ _ 3 2 _ 0 1 Idle Hrun _ eq_refl _ eq_refl)); simpl; lia.
Defined.

(** ** Runs of one thread *)

(** [prog_runs t p lk c p' lk' c']: thread [t] alone gets from [p] to [p']. *)
Inductive prog_runs {A : Type} (t : Z) : prog A → (Z → bool) → (loc → Z) → prog A → (Z → bool) → (loc → Z) → Prop :=
| runs_here p lk c : prog_runs t p lk c p lk c
| runs_step p lk c p1 lk1 c1 p2 lk2 c2 :
    prog_step t p lk c p1 lk1 c1 → prog_runs t p1 lk1 c1 p2 lk2 c2 → prog_runs t p lk c p2 lk2 c2.

(** What holds of every result of a program. *)
Fixpoint results {A : Type} (t : Z) (p : prog A) (Q : A → (Z → bool) → (loc → Z) → Prop) (lk : Z → bool) (c : loc → Z) : Prop :=
  match p with
  | Ret a => Q a lk c
  | Acquire m _ k =>
      (lk m = false → results t (k UACPI_STATUS_OK) Q (set_fun m true lk) c) ∧
      ∀ st, st ≠ UACPI_STATUS_OK → results t (k st) Q lk c
  | Release m k => lk m = true → results t k Q (set_fun m false lk) c
  | Load x k => results t (k (c x)) Q lk c
  | Store x v k => results t k Q lk (set_fun x v c)
  | Update x f k => results t (k (c x)) Q lk (set_fun x (f (c x)) c)
  | ThreadId k => results t (k t) Q lk c
  | Spin sl k => lk sl = false → results t k Q (set_fun sl true lk) c
  | Wait k | Notify k => results t k Q lk c
  end.

Lemma results_runs {A} t (p : prog A) lk c p' lk' c' Q :
  prog_runs t p lk c p' lk' c' → results t p Q lk c → results t p' Q lk' c'.
Proof.
  induction 1 as [|p lk c p1 lk1 c1 p2 lk2 c2 Hstep _ IH]; [done|]. intros H. apply IH. clear IH.
  destruct Hstep; simpl in H; naive_solver.
Qed.

(** ** The sequence number of the global lock *)

(** The attempts end in their continuation, with the sequence number as it
    was. *)
Lemma firmware_attempts_results {A} t left sl (k : uacpi_status → prog A) Q lk c :
  (∀ st lk' c', c' global_lock_seq_num = c global_lock_seq_num → results t (k st) Q lk' c') →
  results t (firmware_attempts left sl k) Q lk c.
Proof.
  revert lk c. induction left as [|left IH]; intros lk c Hk; simpl; destruct (was_owned (c facs_global_lock)); simpl; intros _;
    try (apply Hk; done).
  intros _. apply IH. intros st lk' c' E. apply Hk. by rewrite E.
Qed.

Lemma acquire_firmware_results {A} t g (k : uacpi_status → prog A) Q lk c :
  (∀ st lk' c', c' global_lock_seq_num = c global_lock_seq_num → results t (k st) Q lk' c') →
  results t (uacpi_acquire_global_lock_from_firmware g k) Q lk c.
Proof.
  intros Hk. unfold uacpi_acquire_global_lock_from_firmware. generalize firmware_retries. intros left.
  destruct (has_global_lock g); simpl; [|by apply Hk].
  intros _. by apply firmware_attempts_results.
Qed.

(** A successful acquisition leaves the next number and the mark. *)
Lemma acquire_global_results t g timeout out lk c :
  0 ≤ c global_lock_seq_num < 2 ^ 32 →
  results t (uacpi_acquire_global_lock g timeout out)
    (λ r _ c', fst r = UACPI_STATUS_OK →
       0 ≤ snd r < 2 ^ 32 - 1 ∧ c' global_lock_seq_num = snd r + 1 ∧ c' global_lock_acquired = 1) lk c.
Proof.
  intros Hc. unfold uacpi_acquire_global_lock. case_match; [done|]. destruct out; [|done]. simpl negb. cbv iota.
  unfold uacpi_acquire_native_mutex_with_timeout. case_match; [done|]. simpl. split.
  2: { intros st Hst. rewrite is_ok_false by done. simpl. done. }
  intros _. apply acquire_firmware_results. intros st lk' c' E. destruct (decide (st = UACPI_STATUS_OK)) as [->|Hst].
  - simpl. destruct (Z.eqb_spec (c' global_lock_seq_num) 0xFFFFFFFF) as [En|En]; simpl;
      rewrite ?set_fun_eq; intros _; unfold set_fun; simpl; rewrite wrap_small by lia; lia.
  - rewrite is_ok_false by done. simpl. unfold uacpi_release_native_mutex. case_match; simpl; done.
Qed.

(** The global lock cannot be released: [uacpi_acquire_global_lock] hands
    out the sequence number and then increments it, and
    [uacpi_release_global_lock] compares with the incremented number, so the
    number a caller got is refused, and the lock and the marks stay as they
    are. *)
Theorem global_lock_release_refused t g timeout lk c seq lk1 c1 st lk2 c2 :
  0 ≤ c global_lock_seq_num < 2 ^ 32 →
  prog_runs t (uacpi_acquire_global_lock g timeout true) lk c (Ret (UACPI_STATUS_OK, seq)) lk1 c1 →
  prog_runs t (uacpi_release_global_lock g seq) lk1 c1 (Ret st) lk2 c2 →
  st ≠ UACPI_STATUS_OK ∧ lk2 = lk1 ∧ c2 = c1.
Proof.
  intros Hc Hacq Hrel. pose proof (results_runs _ _ _ _ _ _ _ _ Hacq (acquire_global_results t g timeout true lk c Hc)) as H.
  simpl in H. destruct (H eq_refl) as (Hseq & Hn & Ha).
  apply (results_runs _ _ _ _ _ _ _ (λ st lk' c', st ≠ UACPI_STATUS_OK ∧ lk' = lk1 ∧ c' = c1)) in Hrel; [done|].
  unfold uacpi_release_global_lock. case_match; [done|]. simpl. rewrite Ha. simpl. rewrite Hn.
  by rewrite (proj2 (Z.eqb_neq seq (seq + 1))) by lia.
Qed.

Lemma global_lock_release_refused_witness :
  let g := MkGlobal 7 8 false 1 in
  ∃ lk1 c1, prog_runs 1 (uacpi_acquire_global_lock g 0xFFFF true) (λ _, false) (λ _, 0) (Ret (UACPI_STATUS_OK, 0)) lk1 c1 ∧
    prog_runs 1 (uacpi_release_global_lock g 0) lk1 c1 (Ret UACPI_STATUS_INVALID_ARGUMENT) lk1 c1 ∧
    UACPI_STATUS_INVALID_ARGUMENT ≠ UACPI_STATUS_OK ∧ lk1 7 = true.
Proof.
  intros g.
  set (c1 := set_fun global_lock_acquired 1 (set_fun global_lock_seq_num 1 (λ _, 0)) : loc → Z).
  set (lk1 := set_fun 7 true (λ _, false) : Z → bool).
  assert (prog_runs 1 (uacpi_acquire_global_lock g 0xFFFF true) (λ _, false) (λ _, 0) (Ret (UACPI_STATUS_OK, 0)) lk1 c1) as H1.
  { eapply runs_step; [apply step_acquire; reflexivity|]. eapply runs_step; [apply step_load|].
    eapply runs_step; [apply step_load|]. eapply runs_step; [apply step_store|]. eapply runs_step; [apply step_store|].
    apply runs_here. }
  assert (prog_runs 1 (uacpi_release_global_lock g 0) lk1 c1 (Ret UACPI_STATUS_INVALID_ARGUMENT) lk1 c1) as H2.
  { eapply runs_step; [apply step_load|]. eapply runs_step; [apply step_load|]. apply runs_here. }
  exists lk1, c1. split; [exact H1|]. split; [exact H2|]. split; [|reflexivity].
  exact (proj1 (global_lock_release_refused 1 g 0xFFFF (λ _, false) (λ _, 0) 0 lk1 c1 UACPI_STATUS_INVALID_ARGUMENT lk1 c1
    (conj (Z.le_refl 0) eq_refl) H1 H2)).
Defined.

(** Two readers hold the lock together. *)
Ltac thread_moves i := eapply rtc_l; [eapply (rw_step_thread _ i); [reflexivity|]|].

Example two_readers : ∃ lk c, rtc (rw_step (MkRw 1 2)) (rw_initial 2) (MkMachine lk c [Reading; Reading]).
Proof.
  eexists _, _. unfold rw_initial. simpl replicate.
  thread_moves 0%nat; [apply ts_life, life_lock_read|].
  thread_moves 0%nat; [apply ts_locking_read, step_acquire; reflexivity|].
  thread_moves 0%nat; [apply ts_locking_read, step_load|].
  thread_moves 0%nat; [apply ts_locking_read, step_store|].
  thread_moves 0%nat; [apply ts_locking_read, step_acquire; reflexivity|].
  thread_moves 0%nat; [apply ts_locking_read, step_release; reflexivity|].
  thread_moves 0%nat; [apply ts_life, life_locked_read|].
  thread_moves 1%nat; [apply ts_life, life_lock_read|].
  thread_moves 1%nat; [apply ts_locking_read, step_acquire; reflexivity|].
  thread_moves 1%nat; [apply ts_locking_read, step_load|].
  thread_moves 1%nat; [apply ts_locking_read, step_store|].
  thread_moves 1%nat; [apply ts_locking_read, step_release; reflexivity|].
  thread_moves 1%nat; [apply ts_life, life_locked_read|]. apply rtc_refl.
Qed.
