(* ===== verification/UacpiOpcodes.v ===== *)
(** * The opcodes of AML: uacpi/internal/opcodes.h and uacpi/source/opcodes.c

    Every AML instruction has a program of parse operations that tells the
    interpreter how to take it apart.  The programs are bytes, in which the
    parse operations are mixed with their operands.  The macros of the header
    are definitions with the same parameters (a pasted token is a string), and
    the two tables list their uses in the order of the source. *)

From S2P Require Import Prelude.
Local Open Scope Z_scope.
Local Open Scope string_scope.

(** ** Parse operations *)

Inductive uacpi_parse_op :=
| UACPI_PARSE_OP_END
| UACPI_PARSE_OP_SKIP_WITH_WARN_IF_NULL
| UACPI_PARSE_OP_EMIT_SKIP_WARN
| UACPI_PARSE_OP_SIMPLE_NAME
| UACPI_PARSE_OP_SUPERNAME
| UACPI_PARSE_OP_SUPERNAME_OR_UNRESOLVED
| UACPI_PARSE_OP_TERM_ARG
| UACPI_PARSE_OP_TERM_ARG_UNWRAP_INTERNAL
| UACPI_PARSE_OP_TERM_ARG_OR_NAMED_OBJECT
| UACPI_PARSE_OP_TERM_ARG_OR_NAMED_OBJECT_OR_UNRESOLVED
| UACPI_PARSE_OP_OPERAND
| UACPI_PARSE_OP_STRING
| UACPI_PARSE_OP_COMPUTATIONAL_DATA
| UACPI_PARSE_OP_TARGET
| UACPI_PARSE_OP_PKGLEN
| UACPI_PARSE_OP_TRACKED_PKGLEN
| UACPI_PARSE_OP_CREATE_NAMESTRING
| UACPI_PARSE_OP_CREATE_NAMESTRING_OR_NULL_IF_LOAD
| UACPI_PARSE_OP_EXISTING_NAMESTRING
| UACPI_PARSE_OP_EXISTING_NAMESTRING_OR_NULL
| UACPI_PARSE_OP_EXISTING_NAMESTRING_OR_NULL_IF_LOAD
| UACPI_PARSE_OP_INVOKE_HANDLER
| UACPI_PARSE_OP_OBJECT_ALLOC
| UACPI_PARSE_OP_EMPTY_OBJECT_ALLOC
| UACPI_PARSE_OP_OBJECT_CONVERT_TO_SHALLOW_COPY
| UACPI_PARSE_OP_OBJECT_CONVERT_TO_DEEP_COPY
| UACPI_PARSE_OP_OBJECT_ALLOC_TYPED
| UACPI_PARSE_OP_RECORD_AML_PC
| UACPI_PARSE_OP_LOAD_INLINE_IMM_AS_OBJECT
| UACPI_PARSE_OP_LOAD_INLINE_IMM
| UACPI_PARSE_OP_LOAD_ZERO_IMM
| UACPI_PARSE_OP_LOAD_IMM
| UACPI_PARSE_OP_LOAD_IMM_AS_OBJECT
| UACPI_PARSE_OP_LOAD_FALSE_OBJECT
| UACPI_PARSE_OP_LOAD_TRUE_OBJECT
| UACPI_PARSE_OP_TRUNCATE_NUMBER
| UACPI_PARSE_OP_TYPECHECK
| UACPI_PARSE_OP_INSTALL_NAMESPACE_NODE
| UACPI_PARSE_OP_OBJECT_TRANSFER_TO_PREV
| UACPI_PARSE_OP_OBJECT_COPY_TO_PREV
| UACPI_PARSE_OP_STORE_TO_TARGET
| UACPI_PARSE_OP_STORE_TO_TARGET_INDIRECT
| UACPI_PARSE_OP_UNREACHABLE
| UACPI_PARSE_OP_BAD_OPCODE
| UACPI_PARSE_OP_AML_PC_DECREMENT
| UACPI_PARSE_OP_IMM_DECREMENT
| UACPI_PARSE_OP_ITEM_POP
| UACPI_PARSE_OP_DISPATCH_METHOD_CALL
| UACPI_PARSE_OP_DISPATCH_TABLE_LOAD
| UACPI_PARSE_OP_CONVERT_NAMESTRING
| UACPI_PARSE_OP_IF_HAS_DATA
| UACPI_PARSE_OP_IF_NULL
| UACPI_PARSE_OP_IF_LAST_NULL
| UACPI_PARSE_OP_IF_NOT_NULL
| UACPI_PARSE_OP_IF_LAST_NOT_NULL
| UACPI_PARSE_OP_IF_LAST_EQUALS
| UACPI_PARSE_OP_IF_LAST_FALSE
| UACPI_PARSE_OP_IF_LAST_TRUE
| UACPI_PARSE_OP_SWITCH_TO_NEXT_IF_EQUALS
| UACPI_PARSE_OP_IF_SWITCHED_FROM
| UACPI_PARSE_OP_JMP.

#[export] Instance uacpi_parse_op_eq_dec : EqDecision uacpi_parse_op.
Proof. solve_decision. Defined.

(** The enumeration in the order of its values. *)
Definition parse_ops : list uacpi_parse_op := [
  UACPI_PARSE_OP_END; UACPI_PARSE_OP_SKIP_WITH_WARN_IF_NULL; UACPI_PARSE_OP_EMIT_SKIP_WARN;
  UACPI_PARSE_OP_SIMPLE_NAME; UACPI_PARSE_OP_SUPERNAME; UACPI_PARSE_OP_SUPERNAME_OR_UNRESOLVED;
  UACPI_PARSE_OP_TERM_ARG; UACPI_PARSE_OP_TERM_ARG_UNWRAP_INTERNAL; UACPI_PARSE_OP_TERM_ARG_OR_NAMED_OBJECT;
  UACPI_PARSE_OP_TERM_ARG_OR_NAMED_OBJECT_OR_UNRESOLVED; UACPI_PARSE_OP_OPERAND; UACPI_PARSE_OP_STRING;
  UACPI_PARSE_OP_COMPUTATIONAL_DATA; UACPI_PARSE_OP_TARGET; UACPI_PARSE_OP_PKGLEN; UACPI_PARSE_OP_TRACKED_PKGLEN;
  UACPI_PARSE_OP_CREATE_NAMESTRING; UACPI_PARSE_OP_CREATE_NAMESTRING_OR_NULL_IF_LOAD;
  UACPI_PARSE_OP_EXISTING_NAMESTRING; UACPI_PARSE_OP_EXISTING_NAMESTRING_OR_NULL;
  UACPI_PARSE_OP_EXISTING_NAMESTRING_OR_NULL_IF_LOAD; UACPI_PARSE_OP_INVOKE_HANDLER; UACPI_PARSE_OP_OBJECT_ALLOC;
  UACPI_PARSE_OP_EMPTY_OBJECT_ALLOC; UACPI_PARSE_OP_OBJECT_CONVERT_TO_SHALLOW_COPY;
  UACPI_PARSE_OP_OBJECT_CONVERT_TO_DEEP_COPY; UACPI_PARSE_OP_OBJECT_ALLOC_TYPED; UACPI_PARSE_OP_RECORD_AML_PC;
  UACPI_PARSE_OP_LOAD_INLINE_IMM_AS_OBJECT; UACPI_PARSE_OP_LOAD_INLINE_IMM; UACPI_PARSE_OP_LOAD_ZERO_IMM;
  UACPI_PARSE_OP_LOAD_IMM; UACPI_PARSE_OP_LOAD_IMM_AS_OBJECT; UACPI_PARSE_OP_LOAD_FALSE_OBJECT;
  UACPI_PARSE_OP_LOAD_TRUE_OBJECT; UACPI_PARSE_OP_TRUNCATE_NUMBER; UACPI_PARSE_OP_TYPECHECK;
  UACPI_PARSE_OP_INSTALL_NAMESPACE_NODE; UACPI_PARSE_OP_OBJECT_TRANSFER_TO_PREV;
  UACPI_PARSE_OP_OBJECT_COPY_TO_PREV; UACPI_PARSE_OP_STORE_TO_TARGET; UACPI_PARSE_OP_STORE_TO_TARGET_INDIRECT;
  UACPI_PARSE_OP_UNREACHABLE; UACPI_PARSE_OP_BAD_OPCODE; UACPI_PARSE_OP_AML_PC_DECREMENT;
  UACPI_PARSE_OP_IMM_DECREMENT; UACPI_PARSE_OP_ITEM_POP; UACPI_PARSE_OP_DISPATCH_METHOD_CALL;
  UACPI_PARSE_OP_DISPATCH_TABLE_LOAD; UACPI_PARSE_OP_CONVERT_NAMESTRING; UACPI_PARSE_OP_IF_HAS_DATA;
  UACPI_PARSE_OP_IF_NULL; UACPI_PARSE_OP_IF_LAST_NULL; UACPI_PARSE_OP_IF_NOT_NULL;
  UACPI_PARSE_OP_IF_LAST_NOT_NULL; UACPI_PARSE_OP_IF_LAST_EQUALS; UACPI_PARSE_OP_IF_LAST_FALSE;
  UACPI_PARSE_OP_IF_LAST_TRUE; UACPI_PARSE_OP_SWITCH_TO_NEXT_IF_EQUALS; UACPI_PARSE_OP_IF_SWITCHED_FROM;
  UACPI_PARSE_OP_JMP
].

Definition parse_op_value (op : uacpi_parse_op) : Z :=
  match op with
  | UACPI_PARSE_OP_END => 0
  | UACPI_PARSE_OP_SKIP_WITH_WARN_IF_NULL => 1
  | UACPI_PARSE_OP_EMIT_SKIP_WARN => 2
  | UACPI_PARSE_OP_SIMPLE_NAME => 3
  | UACPI_PARSE_OP_SUPERNAME => 4
  | UACPI_PARSE_OP_SUPERNAME_OR_UNRESOLVED => 5
  | UACPI_PARSE_OP_TERM_ARG => 6
  | UACPI_PARSE_OP_TERM_ARG_UNWRAP_INTERNAL => 7
  | UACPI_PARSE_OP_TERM_ARG_OR_NAMED_OBJECT => 8
  | UACPI_PARSE_OP_TERM_ARG_OR_NAMED_OBJECT_OR_UNRESOLVED => 9
  | UACPI_PARSE_OP_OPERAND => 10
  | UACPI_PARSE_OP_STRING => 11
  | UACPI_PARSE_OP_COMPUTATIONAL_DATA => 12
  | UACPI_PARSE_OP_TARGET => 13
  | UACPI_PARSE_OP_PKGLEN => 14
  | UACPI_PARSE_OP_TRACKED_PKGLEN => 15
  | UACPI_PARSE_OP_CREATE_NAMESTRING => 16
  | UACPI_PARSE_OP_CREATE_NAMESTRING_OR_NULL_IF_LOAD => 17
  | UACPI_PARSE_OP_EXISTING_NAMESTRING => 18
  | UACPI_PARSE_OP_EXISTING_NAMESTRING_OR_NULL => 19
  | UACPI_PARSE_OP_EXISTING_NAMESTRING_OR_NULL_IF_LOAD => 20
  | UACPI_PARSE_OP_INVOKE_HANDLER => 21
  | UACPI_PARSE_OP_OBJECT_ALLOC => 22
  | UACPI_PARSE_OP_EMPTY_OBJECT_ALLOC => 23
  | UACPI_PARSE_OP_OBJECT_CONVERT_TO_SHALLOW_COPY => 24
  | UACPI_PARSE_OP_OBJECT_CONVERT_TO_DEEP_COPY => 25
  | UACPI_PARSE_OP_OBJECT_ALLOC_TYPED => 26
  | UACPI_PARSE_OP_RECORD_AML_PC => 27
  | UACPI_PARSE_OP_LOAD_INLINE_IMM_AS_OBJECT => 28
  | UACPI_PARSE_OP_LOAD_INLINE_IMM => 29
  | UACPI_PARSE_OP_LOAD_ZERO_IMM => 30
  | UACPI_PARSE_OP_LOAD_IMM => 31
  | UACPI_PARSE_OP_LOAD_IMM_AS_OBJECT => 32
  | UACPI_PARSE_OP_LOAD_FALSE_OBJECT => 33
  | UACPI_PARSE_OP_LOAD_TRUE_OBJECT => 34
  | UACPI_PARSE_OP_TRUNCATE_NUMBER => 35
  | UACPI_PARSE_OP_TYPECHECK => 36
  | UACPI_PARSE_OP_INSTALL_NAMESPACE_NODE => 37
  | UACPI_PARSE_OP_OBJECT_TRANSFER_TO_PREV => 38
  | UACPI_PARSE_OP_OBJECT_COPY_TO_PREV => 39
  | UACPI_PARSE_OP_STORE_TO_TARGET => 40
  | UACPI_PARSE_OP_STORE_TO_TARGET_INDIRECT => 41
  | UACPI_PARSE_OP_UNREACHABLE => 42
  | UACPI_PARSE_OP_BAD_OPCODE => 43
  | UACPI_PARSE_OP_AML_PC_DECREMENT => 44
  | UACPI_PARSE_OP_IMM_DECREMENT => 45
  | UACPI_PARSE_OP_ITEM_POP => 46
  | UACPI_PARSE_OP_DISPATCH_METHOD_CALL => 47
  | UACPI_PARSE_OP_DISPATCH_TABLE_LOAD => 48
  | UACPI_PARSE_OP_CONVERT_NAMESTRING => 49
  | UACPI_PARSE_OP_IF_HAS_DATA => 50
  | UACPI_PARSE_OP_IF_NULL => 51
  | UACPI_PARSE_OP_IF_LAST_NULL => 52
  | UACPI_PARSE_OP_IF_NOT_NULL => 53
  | UACPI_PARSE_OP_IF_LAST_NOT_NULL => 54
  | UACPI_PARSE_OP_IF_LAST_EQUALS => 55
  | UACPI_PARSE_OP_IF_LAST_FALSE => 56
  | UACPI_PARSE_OP_IF_LAST_TRUE => 57
  | UACPI_PARSE_OP_SWITCH_TO_NEXT_IF_EQUALS => 58
  | UACPI_PARSE_OP_IF_SWITCHED_FROM => 59
  | UACPI_PARSE_OP_JMP => 60
  end.

Coercion parse_op_value : uacpi_parse_op >-> Z.

(** Bytes of a program; the parse operations stand for their values. *)
Notation "'code[' x ; .. ; y ]" := (@cons Z x .. (@cons Z y (@nil Z)) ..) (only parsing).

Definition UACPI_PARSE_OP_MAX : Z := UACPI_PARSE_OP_JMP.

Definition parse_op_of (b : Z) : option uacpi_parse_op := parse_ops !! Z.to_nat b.

(** ** Properties and specifications *)

Definition UACPI_OP_PROPERTY_TERM_ARG : Z := 1.
Definition UACPI_OP_PROPERTY_SUPERNAME : Z := 2.
Definition UACPI_OP_PROPERTY_SIMPLE_NAME : Z := 4.
Definition UACPI_OP_PROPERTY_TARGET : Z := 8.
Definition UACPI_OP_PROPERTY_OUT_OF_LINE : Z := 16.
Definition UACPI_OP_PROPERTY_RESERVED : Z := 128.

(** Types of objects, which some parse operations have as an operand. *)
Definition UACPI_OBJECT_UNINITIALIZED : Z := 0.
Definition UACPI_OBJECT_INTEGER : Z := 1.
Definition UACPI_OBJECT_STRING : Z := 2.
Definition UACPI_OBJECT_BUFFER : Z := 3.
Definition UACPI_OBJECT_PACKAGE : Z := 4.
Definition UACPI_OBJECT_FIELD_UNIT : Z := 5.
Definition UACPI_OBJECT_DEVICE : Z := 6.
Definition UACPI_OBJECT_EVENT : Z := 7.
Definition UACPI_OBJECT_METHOD : Z := 8.
Definition UACPI_OBJECT_MUTEX : Z := 9.
Definition UACPI_OBJECT_OPERATION_REGION : Z := 10.
Definition UACPI_OBJECT_POWER_RESOURCE : Z := 11.
Definition UACPI_OBJECT_PROCESSOR : Z := 12.
Definition UACPI_OBJECT_THERMAL_ZONE : Z := 13.
Definition UACPI_OBJECT_BUFFER_FIELD : Z := 14.
Definition UACPI_OBJECT_DEBUG : Z := 16.
Definition UACPI_OBJECT_REFERENCE : Z := 20.
Definition UACPI_OBJECT_BUFFER_INDEX : Z := 21.

(** The union of the inline program, 16 bytes, and the pointer to a program. *)
Inductive op_program :=
| Inline (decode_ops : list Z)
| OutOfLine (indirect_decode_ops : list Z).

Record uacpi_op_spec := MkOp {
  op_name : string;
  program : op_program;
  properties : Z;
  op_code : Z
}.

Definition UACPI_OP (opname : string) (opcode : Z) (decode_ops : list Z) (props : Z) : uacpi_op_spec :=
  MkOp opname (Inline (decode_ops ++ replicate (16 - length decode_ops) 0)) props opcode.

Definition UACPI_OUT_OF_LINE_OP (opname : string) (opcode : Z) (out_of_line_buf : list Z) (props : Z) : uacpi_op_spec :=
  MkOp opname (OutOfLine out_of_line_buf) props opcode.

Definition UACPI_EXT_PREFIX : Z := 0x5B.
Definition UACPI_EXT_OP (op : Z) : Z := Z.lor (Z.shiftl UACPI_EXT_PREFIX 8) op.

(** The spelling of a one-byte code and of a one-digit number. *)
Definition nibble_char (d : Z) : string :=
  default "" (["0"; "1"; "2"; "3"; "4"; "5"; "6"; "7"; "8"; "9"; "A"; "B"; "C"; "D"; "E"; "F"] !! Z.to_nat d).
Definition token (code : Z) : string := "0x" ++ nibble_char (code `div` 16) ++ nibble_char (code `mod` 16).

(** ** Macros *)

Definition UACPI_INTERNAL_OP (code : Z) : uacpi_op_spec :=
  UACPI_OP ("Internal_" ++ token code) code code[ UACPI_PARSE_OP_UNREACHABLE ] 0.

Definition UACPI_BAD_OPCODE (code : Z) : uacpi_op_spec :=
  UACPI_OP ("Reserved_" ++ token code) code code[ UACPI_PARSE_OP_BAD_OPCODE ] 0.

Definition UACPI_METHOD_CALL_OPCODE (nargs : Z) : uacpi_op_spec :=
  UACPI_OP ("InternalOpMethodCall" ++ nibble_char nargs ++ "Args") (0xF7 + nargs) code[
    UACPI_PARSE_OP_LOAD_INLINE_IMM; 1; nargs; UACPI_PARSE_OP_IF_NOT_NULL; 1; 6;
    UACPI_PARSE_OP_TERM_ARG_UNWRAP_INTERNAL; UACPI_PARSE_OP_OBJECT_CONVERT_TO_SHALLOW_COPY;
    UACPI_PARSE_OP_IMM_DECREMENT; 1; UACPI_PARSE_OP_JMP; 3; UACPI_PARSE_OP_OBJECT_ALLOC;
    UACPI_PARSE_OP_DISPATCH_METHOD_CALL; UACPI_PARSE_OP_OBJECT_TRANSFER_TO_PREV
  ] (Z.lor UACPI_OP_PROPERTY_TERM_ARG UACPI_OP_PROPERTY_RESERVED).

Definition UACPI_UNRESOLVED_NAME_STRING_OP (character : string) (code : Z) : uacpi_op_spec :=
  UACPI_OP ("UACPI_InternalOpUnresolvedNameString_" ++ character) code code[
    UACPI_PARSE_OP_AML_PC_DECREMENT; UACPI_PARSE_OP_EXISTING_NAMESTRING_OR_NULL;
    UACPI_PARSE_OP_CONVERT_NAMESTRING
  ] (Z.lor UACPI_OP_PROPERTY_SIMPLE_NAME (Z.lor UACPI_OP_PROPERTY_SUPERNAME UACPI_OP_PROPERTY_TERM_ARG)).

Definition UACPI_BUILD_LOCAL_OR_ARG_OP (prefix : string) (base offset : Z) : uacpi_op_spec :=
  UACPI_OP (prefix ++ nibble_char offset ++ "Op") (base + offset) code[
    UACPI_PARSE_OP_EMPTY_OBJECT_ALLOC; UACPI_PARSE_OP_INVOKE_HANDLER; UACPI_PARSE_OP_OBJECT_TRANSFER_TO_PREV
  ] (Z.lor UACPI_OP_PROPERTY_SUPERNAME (Z.lor UACPI_OP_PROPERTY_TERM_ARG UACPI_OP_PROPERTY_SIMPLE_NAME)).

Definition UACPI_LOCALX_OP (idx : Z) : uacpi_op_spec := UACPI_BUILD_LOCAL_OR_ARG_OP "Local" 0x60 idx.
Definition UACPI_ARGX_OP (idx : Z) : uacpi_op_spec := UACPI_BUILD_LOCAL_OR_ARG_OP "Arg" 0x68 idx.

Definition UACPI_BUILD_PACKAGE_OP (name : string) (code jmp_off : Z) (va_args : list Z) : uacpi_op_spec :=
  UACPI_OP (name ++ "Op") code (code[
    UACPI_PARSE_OP_TRACKED_PKGLEN
  ] ++ va_args ++ code[
    UACPI_PARSE_OP_IF_HAS_DATA; 4; UACPI_PARSE_OP_RECORD_AML_PC;
    UACPI_PARSE_OP_TERM_ARG_OR_NAMED_OBJECT_OR_UNRESOLVED; UACPI_PARSE_OP_JMP; jmp_off;
    UACPI_PARSE_OP_OBJECT_ALLOC_TYPED; UACPI_OBJECT_PACKAGE; UACPI_PARSE_OP_INVOKE_HANDLER;
    UACPI_PARSE_OP_OBJECT_TRANSFER_TO_PREV
  ]) UACPI_OP_PROPERTY_TERM_ARG.

Definition UACPI_BUILD_BINARY_MATH_OP (prefix : string) (code : Z) : uacpi_op_spec :=
  UACPI_OP (prefix ++ "Op") code code[
    UACPI_PARSE_OP_OPERAND; UACPI_PARSE_OP_OPERAND; UACPI_PARSE_OP_TARGET; UACPI_PARSE_OP_OBJECT_ALLOC_TYPED;
    UACPI_OBJECT_INTEGER; UACPI_PARSE_OP_INVOKE_HANDLER; UACPI_PARSE_OP_TRUNCATE_NUMBER;
    UACPI_PARSE_OP_STORE_TO_TARGET; 2; UACPI_PARSE_OP_OBJECT_COPY_TO_PREV
  ] UACPI_OP_PROPERTY_TERM_ARG.

Definition UACPI_BUILD_UNARY_MATH_OP (type : string) (code : Z) : uacpi_op_spec :=
  UACPI_OP (type ++ "Op") code code[
    UACPI_PARSE_OP_OPERAND; UACPI_PARSE_OP_TARGET; UACPI_PARSE_OP_OBJECT_ALLOC_TYPED; UACPI_OBJECT_INTEGER;
    UACPI_PARSE_OP_INVOKE_HANDLER; UACPI_PARSE_OP_STORE_TO_TARGET; 1; UACPI_PARSE_OP_OBJECT_TRANSFER_TO_PREV
  ] UACPI_OP_PROPERTY_TERM_ARG.

Definition UACPI_DO_BUILD_BUFFER_FIELD_OP (type : string) (code node_idx : Z) (va_args : list Z) : uacpi_op_spec :=
  UACPI_OP (type ++ "FieldOp") code (code[
    UACPI_PARSE_OP_TERM_ARG_UNWRAP_INTERNAL; UACPI_PARSE_OP_TYPECHECK; UACPI_OBJECT_BUFFER;
    UACPI_PARSE_OP_OPERAND
  ] ++ va_args ++ code[
    UACPI_PARSE_OP_CREATE_NAMESTRING_OR_NULL_IF_LOAD; UACPI_PARSE_OP_SKIP_WITH_WARN_IF_NULL; node_idx;
    UACPI_PARSE_OP_OBJECT_ALLOC_TYPED; UACPI_OBJECT_BUFFER_FIELD; UACPI_PARSE_OP_INVOKE_HANDLER;
    UACPI_PARSE_OP_INSTALL_NAMESPACE_NODE; node_idx
  ]) 0.

Definition UACPI_BUILD_BUFFER_FIELD_OP (type : string) (code : Z) : uacpi_op_spec :=
  UACPI_DO_BUILD_BUFFER_FIELD_OP ("Create" ++ type) code 2 [].

Definition UACPI_INTEGER_LITERAL_OP (type : string) (code bytes : Z) : uacpi_op_spec :=
  UACPI_OP (type ++ "Prefix") code code[
    UACPI_PARSE_OP_LOAD_IMM_AS_OBJECT; bytes; UACPI_PARSE_OP_OBJECT_TRANSFER_TO_PREV
  ] UACPI_OP_PROPERTY_TERM_ARG.

Definition UACPI_BUILD_BINARY_LOGIC_OP (type : string) (code : Z) : uacpi_op_spec :=
  UACPI_OP (type ++ "Op") code code[
    UACPI_PARSE_OP_COMPUTATIONAL_DATA; UACPI_PARSE_OP_COMPUTATIONAL_DATA; UACPI_PARSE_OP_OBJECT_ALLOC_TYPED;
    UACPI_OBJECT_INTEGER; UACPI_PARSE_OP_INVOKE_HANDLER; UACPI_PARSE_OP_OBJECT_TRANSFER_TO_PREV
  ] UACPI_OP_PROPERTY_TERM_ARG.

Definition UACPI_BUILD_TO_OP (kind : string) (code dst_type : Z) : uacpi_op_spec :=
  UACPI_OP ("To" ++ kind ++ "Op") code code[
    UACPI_PARSE_OP_COMPUTATIONAL_DATA; UACPI_PARSE_OP_TARGET; UACPI_PARSE_OP_OBJECT_ALLOC_TYPED; dst_type;
    UACPI_PARSE_OP_INVOKE_HANDLER; UACPI_PARSE_OP_STORE_TO_TARGET; 1; UACPI_PARSE_OP_OBJECT_TRANSFER_TO_PREV
  ] UACPI_OP_PROPERTY_TERM_ARG.

Definition UACPI_BUILD_INC_DEC_OP (prefix : string) (code : Z) : uacpi_op_spec :=
  UACPI_OP (prefix ++ "Op") code code[
    UACPI_PARSE_OP_SUPERNAME; UACPI_PARSE_OP_OBJECT_ALLOC_TYPED; UACPI_OBJECT_INTEGER;
    UACPI_PARSE_OP_INVOKE_HANDLER; UACPI_PARSE_OP_TRUNCATE_NUMBER; UACPI_PARSE_OP_STORE_TO_TARGET; 0;
    UACPI_PARSE_OP_OBJECT_TRANSFER_TO_PREV
  ] UACPI_OP_PROPERTY_TERM_ARG.

(** ** The instructions *)

Definition op_ZeroOp : uacpi_op_spec :=
  UACPI_OP "ZeroOp" 0x00 code[
    UACPI_PARSE_OP_LOAD_INLINE_IMM_AS_OBJECT; 0x00; 0x00; 0x00; 0x00; 0x00; 0x00; 0x00; 0x00;
    UACPI_PARSE_OP_OBJECT_TRANSFER_TO_PREV
  ] (Z.lor UACPI_OP_PROPERTY_TARGET UACPI_OP_PROPERTY_TERM_ARG).

Definition op_OneOp : uacpi_op_spec :=
  UACPI_OP "OneOp" 0x01 code[
    UACPI_PARSE_OP_LOAD_INLINE_IMM_AS_OBJECT; 0x01; 0x00; 0x00; 0x00; 0x00; 0x00; 0x00; 0x00;
    UACPI_PARSE_OP_OBJECT_TRANSFER_TO_PREV
  ] UACPI_OP_PROPERTY_TERM_ARG.

Definition op_AliasOp : uacpi_op_spec :=
  UACPI_OP "AliasOp" 0x06 code[
    UACPI_PARSE_OP_EXISTING_NAMESTRING_OR_NULL_IF_LOAD; UACPI_PARSE_OP_CREATE_NAMESTRING_OR_NULL_IF_LOAD;
    UACPI_PARSE_OP_SKIP_WITH_WARN_IF_NULL; 0; UACPI_PARSE_OP_SKIP_WITH_WARN_IF_NULL; 1;
    UACPI_PARSE_OP_INVOKE_HANDLER; UACPI_PARSE_OP_INSTALL_NAMESPACE_NODE; 1
  ] 0.

Definition op_NameOp : uacpi_op_spec :=
  UACPI_OP "NameOp" 0x08 code[
    UACPI_PARSE_OP_CREATE_NAMESTRING_OR_NULL_IF_LOAD; UACPI_PARSE_OP_TERM_ARG_UNWRAP_INTERNAL;
    UACPI_PARSE_OP_SKIP_WITH_WARN_IF_NULL; 0; UACPI_PARSE_OP_OBJECT_CONVERT_TO_DEEP_COPY;
    UACPI_PARSE_OP_INVOKE_HANDLER; UACPI_PARSE_OP_INSTALL_NAMESPACE_NODE; 0
  ] 0.

Definition op_StringPrefix : uacpi_op_spec :=
  UACPI_OP "StringPrefix" 0x0D code[
    UACPI_PARSE_OP_OBJECT_ALLOC_TYPED; UACPI_OBJECT_STRING; UACPI_PARSE_OP_INVOKE_HANDLER;
    UACPI_PARSE_OP_OBJECT_TRANSFER_TO_PREV
  ] UACPI_OP_PROPERTY_TERM_ARG.

Definition op_ScopeOp : uacpi_op_spec :=
  UACPI_OP "ScopeOp" 0x10 code[
    UACPI_PARSE_OP_TRACKED_PKGLEN; UACPI_PARSE_OP_EXISTING_NAMESTRING_OR_NULL_IF_LOAD;
    UACPI_PARSE_OP_SKIP_WITH_WARN_IF_NULL; 1; UACPI_PARSE_OP_INVOKE_HANDLER
  ] 0.

Definition op_BufferOp : uacpi_op_spec :=
  UACPI_OP "BufferOp" 0x11 code[
    UACPI_PARSE_OP_TRACKED_PKGLEN; UACPI_PARSE_OP_OPERAND; UACPI_PARSE_OP_RECORD_AML_PC;
    UACPI_PARSE_OP_OBJECT_ALLOC_TYPED; UACPI_OBJECT_BUFFER; UACPI_PARSE_OP_INVOKE_HANDLER;
    UACPI_PARSE_OP_OBJECT_TRANSFER_TO_PREV
  ] UACPI_OP_PROPERTY_TERM_ARG.

Definition op_PackageOp : uacpi_op_spec := UACPI_BUILD_PACKAGE_OP "Package" 0x12 3 code[ UACPI_PARSE_OP_LOAD_IMM; 1 ].

Definition op_VarPackageOp : uacpi_op_spec := UACPI_BUILD_PACKAGE_OP "VarPackage" 0x13 2 code[ UACPI_PARSE_OP_OPERAND ].

Definition op_MethodOp : uacpi_op_spec :=
  UACPI_OP "MethodOp" 0x14 code[
    UACPI_PARSE_OP_TRACKED_PKGLEN; UACPI_PARSE_OP_CREATE_NAMESTRING_OR_NULL_IF_LOAD; UACPI_PARSE_OP_LOAD_IMM; 1;
    UACPI_PARSE_OP_SKIP_WITH_WARN_IF_NULL; 1; UACPI_PARSE_OP_RECORD_AML_PC; UACPI_PARSE_OP_OBJECT_ALLOC_TYPED;
    UACPI_OBJECT_METHOD; UACPI_PARSE_OP_INVOKE_HANDLER; UACPI_PARSE_OP_INSTALL_NAMESPACE_NODE; 1
  ] 0.

Definition op_ExternalOp : uacpi_op_spec :=
  UACPI_OP "ExternalOp" 0x15 code[
    UACPI_PARSE_OP_EXISTING_NAMESTRING_OR_NULL; UACPI_PARSE_OP_LOAD_IMM; 1; UACPI_PARSE_OP_LOAD_IMM; 1
  ] 0.

Definition op_StoreOp : uacpi_op_spec :=
  UACPI_OP "StoreOp" 0x70 code[
    UACPI_PARSE_OP_TERM_ARG; UACPI_PARSE_OP_SUPERNAME; UACPI_PARSE_OP_INVOKE_HANDLER; UACPI_PARSE_OP_ITEM_POP;
    UACPI_PARSE_OP_OBJECT_COPY_TO_PREV
  ] UACPI_OP_PROPERTY_TERM_ARG.

Definition op_RefOfOp : uacpi_op_spec :=
  UACPI_OP "RefOfOp" 0x71 code[
    UACPI_PARSE_OP_SUPERNAME; UACPI_PARSE_OP_OBJECT_ALLOC; UACPI_PARSE_OP_INVOKE_HANDLER;
    UACPI_PARSE_OP_OBJECT_TRANSFER_TO_PREV
  ] UACPI_OP_PROPERTY_TERM_ARG.

Definition op_ConcatOp : uacpi_op_spec :=
  UACPI_OP "ConcatOp" 0x73 code[
    UACPI_PARSE_OP_COMPUTATIONAL_DATA; UACPI_PARSE_OP_COMPUTATIONAL_DATA; UACPI_PARSE_OP_TARGET;
    UACPI_PARSE_OP_OBJECT_ALLOC_TYPED; UACPI_OBJECT_BUFFER; UACPI_PARSE_OP_INVOKE_HANDLER;
    UACPI_PARSE_OP_STORE_TO_TARGET; 2; UACPI_PARSE_OP_OBJECT_COPY_TO_PREV
  ] UACPI_OP_PROPERTY_TERM_ARG.

Definition op_DivideOp : uacpi_op_spec :=
  UACPI_OP "DivideOp" 0x78 code[
    UACPI_PARSE_OP_OPERAND; UACPI_PARSE_OP_OPERAND; UACPI_PARSE_OP_TARGET; UACPI_PARSE_OP_TARGET;
    UACPI_PARSE_OP_OBJECT_ALLOC_TYPED; UACPI_OBJECT_INTEGER; UACPI_PARSE_OP_OBJECT_ALLOC_TYPED;
    UACPI_OBJECT_INTEGER; UACPI_PARSE_OP_INVOKE_HANDLER; UACPI_PARSE_OP_STORE_TO_TARGET; 3;
    UACPI_PARSE_OP_OBJECT_COPY_TO_PREV; UACPI_PARSE_OP_STORE_TO_TARGET_INDIRECT; 2; 4
  ] UACPI_OP_PROPERTY_TERM_ARG.

Definition op_DerefOfOp : uacpi_op_spec :=
  UACPI_OP "DerefOfOp" 0x83 code[
    UACPI_PARSE_OP_TERM_ARG_UNWRAP_INTERNAL; UACPI_PARSE_OP_OBJECT_ALLOC; UACPI_PARSE_OP_INVOKE_HANDLER;
    UACPI_PARSE_OP_OBJECT_TRANSFER_TO_PREV
  ] UACPI_OP_PROPERTY_TERM_ARG.

Definition op_ConcatResOp : uacpi_op_spec :=
  UACPI_OP "ConcatResOp" 0x84 code[
    UACPI_PARSE_OP_TERM_ARG_UNWRAP_INTERNAL; UACPI_PARSE_OP_TYPECHECK; UACPI_OBJECT_BUFFER;
    UACPI_PARSE_OP_TERM_ARG_UNWRAP_INTERNAL; UACPI_PARSE_OP_TYPECHECK; UACPI_OBJECT_BUFFER;
    UACPI_PARSE_OP_TARGET; UACPI_PARSE_OP_OBJECT_ALLOC_TYPED; UACPI_OBJECT_BUFFER;
    UACPI_PARSE_OP_INVOKE_HANDLER; UACPI_PARSE_OP_STORE_TO_TARGET; 2; UACPI_PARSE_OP_OBJECT_TRANSFER_TO_PREV
  ] UACPI_OP_PROPERTY_TERM_ARG.

Definition op_NotifyOp : uacpi_op_spec :=
  UACPI_OP "NotifyOp" 0x86 code[
    UACPI_PARSE_OP_EXISTING_NAMESTRING_OR_NULL_IF_LOAD; UACPI_PARSE_OP_OPERAND;
    UACPI_PARSE_OP_SKIP_WITH_WARN_IF_NULL; 0; UACPI_PARSE_OP_INVOKE_HANDLER
  ] 0.

Definition op_SizeOfOp : uacpi_op_spec :=
  UACPI_OP "SizeOfOp" 0x87 code[
    UACPI_PARSE_OP_SUPERNAME; UACPI_PARSE_OP_OBJECT_ALLOC_TYPED; UACPI_OBJECT_INTEGER;
    UACPI_PARSE_OP_INVOKE_HANDLER; UACPI_PARSE_OP_OBJECT_TRANSFER_TO_PREV
  ] UACPI_OP_PROPERTY_TERM_ARG.

Definition op_IndexOp : uacpi_op_spec :=
  UACPI_OP "IndexOp" 0x88 code[
    UACPI_PARSE_OP_TERM_ARG_UNWRAP_INTERNAL; UACPI_PARSE_OP_OPERAND; UACPI_PARSE_OP_TARGET;
    UACPI_PARSE_OP_EMPTY_OBJECT_ALLOC; UACPI_PARSE_OP_INVOKE_HANDLER; UACPI_PARSE_OP_STORE_TO_TARGET; 2;
    UACPI_PARSE_OP_OBJECT_TRANSFER_TO_PREV
  ] (Z.lor UACPI_OP_PROPERTY_TERM_ARG (Z.lor UACPI_OP_PROPERTY_SUPERNAME UACPI_OP_PROPERTY_SIMPLE_NAME)).

Definition op_MatchOp : uacpi_op_spec :=
  UACPI_OP "MatchOp" 0x89 code[
    UACPI_PARSE_OP_TERM_ARG_UNWRAP_INTERNAL; UACPI_PARSE_OP_TYPECHECK; UACPI_OBJECT_PACKAGE;
    UACPI_PARSE_OP_LOAD_IMM; 1; UACPI_PARSE_OP_OPERAND; UACPI_PARSE_OP_LOAD_IMM; 1; UACPI_PARSE_OP_OPERAND;
    UACPI_PARSE_OP_OPERAND; UACPI_PARSE_OP_OBJECT_ALLOC_TYPED; UACPI_OBJECT_INTEGER;
    UACPI_PARSE_OP_INVOKE_HANDLER; UACPI_PARSE_OP_OBJECT_TRANSFER_TO_PREV
  ] UACPI_OP_PROPERTY_TERM_ARG.

Definition op_ObjectTypeOp : uacpi_op_spec :=
  UACPI_OP "ObjectTypeOp" 0x8E code[
    UACPI_PARSE_OP_TERM_ARG_OR_NAMED_OBJECT; UACPI_PARSE_OP_OBJECT_ALLOC_TYPED; UACPI_OBJECT_INTEGER;
    UACPI_PARSE_OP_INVOKE_HANDLER; UACPI_PARSE_OP_OBJECT_TRANSFER_TO_PREV
  ] UACPI_OP_PROPERTY_TERM_ARG.

Definition op_LnotOp : uacpi_op_spec :=
  UACPI_OP "LnotOp" 0x92 code[
    UACPI_PARSE_OP_OPERAND; UACPI_PARSE_OP_OBJECT_ALLOC; UACPI_PARSE_OP_INVOKE_HANDLER;
    UACPI_PARSE_OP_OBJECT_TRANSFER_TO_PREV
  ] UACPI_OP_PROPERTY_TERM_ARG.

Definition op_ToStringOp : uacpi_op_spec :=
  UACPI_OP "ToStringOp" 0x9C code[
    UACPI_PARSE_OP_TERM_ARG_UNWRAP_INTERNAL; UACPI_PARSE_OP_TYPECHECK; UACPI_OBJECT_BUFFER;
    UACPI_PARSE_OP_OPERAND; UACPI_PARSE_OP_TARGET; UACPI_PARSE_OP_OBJECT_ALLOC_TYPED; UACPI_OBJECT_STRING;
    UACPI_PARSE_OP_INVOKE_HANDLER; UACPI_PARSE_OP_STORE_TO_TARGET; 2; UACPI_PARSE_OP_OBJECT_TRANSFER_TO_PREV
  ] UACPI_OP_PROPERTY_TERM_ARG.

Definition op_CopyObjectOp : uacpi_op_spec :=
  UACPI_OP "CopyObjectOp" 0x9D code[
    UACPI_PARSE_OP_TERM_ARG; UACPI_PARSE_OP_OBJECT_COPY_TO_PREV; UACPI_PARSE_OP_SIMPLE_NAME;
    UACPI_PARSE_OP_INVOKE_HANDLER
  ] UACPI_OP_PROPERTY_TERM_ARG.

Definition op_MidOp : uacpi_op_spec :=
  UACPI_OP "MidOp" 0x9E code[
    UACPI_PARSE_OP_TERM_ARG_UNWRAP_INTERNAL; UACPI_PARSE_OP_OPERAND; UACPI_PARSE_OP_OPERAND;
    UACPI_PARSE_OP_TARGET; UACPI_PARSE_OP_OBJECT_ALLOC_TYPED; UACPI_OBJECT_BUFFER;
    UACPI_PARSE_OP_INVOKE_HANDLER; UACPI_PARSE_OP_STORE_TO_TARGET; 3; UACPI_PARSE_OP_OBJECT_TRANSFER_TO_PREV
  ] UACPI_OP_PROPERTY_TERM_ARG.

Definition op_ContinueOp : uacpi_op_spec :=
  UACPI_OP "ContinueOp" 0x9F code[
    UACPI_PARSE_OP_INVOKE_HANDLER
  ] 0.

Definition op_IfOp : uacpi_op_spec :=
  UACPI_OP "IfOp" 0xA0 code[
    UACPI_PARSE_OP_TRACKED_PKGLEN; UACPI_PARSE_OP_OPERAND; UACPI_PARSE_OP_IF_LAST_NULL; 3;
    UACPI_PARSE_OP_EMIT_SKIP_WARN; UACPI_PARSE_OP_JMP; 9; UACPI_PARSE_OP_IF_LAST_FALSE; 4;
    UACPI_PARSE_OP_SWITCH_TO_NEXT_IF_EQUALS; 0xA1; 0x00; UACPI_PARSE_OP_END; UACPI_PARSE_OP_INVOKE_HANDLER
  ] 0.

Definition op_ElseOp : uacpi_op_spec :=
  UACPI_OP "ElseOp" 0xA1 code[
    UACPI_PARSE_OP_IF_SWITCHED_FROM; 0xA0; 0x00; 10; UACPI_PARSE_OP_IF_LAST_NULL; 3;
    UACPI_PARSE_OP_TRACKED_PKGLEN; UACPI_PARSE_OP_EMIT_SKIP_WARN; UACPI_PARSE_OP_END; UACPI_PARSE_OP_ITEM_POP;
    UACPI_PARSE_OP_ITEM_POP; UACPI_PARSE_OP_PKGLEN; UACPI_PARSE_OP_INVOKE_HANDLER; UACPI_PARSE_OP_END;
    UACPI_PARSE_OP_TRACKED_PKGLEN
  ] 0.

Definition op_WhileOp : uacpi_op_spec :=
  UACPI_OP "WhileOp" 0xA2 code[
    UACPI_PARSE_OP_TRACKED_PKGLEN; UACPI_PARSE_OP_OPERAND; UACPI_PARSE_OP_SKIP_WITH_WARN_IF_NULL; 1;
    UACPI_PARSE_OP_IF_LAST_TRUE; 1; UACPI_PARSE_OP_INVOKE_HANDLER
  ] 0.

Definition op_NoopOp : uacpi_op_spec :=
  UACPI_OP "NoopOp" 0xA3 code[
    UACPI_PARSE_OP_END
  ] 0.

Definition op_ReturnOp : uacpi_op_spec :=
  UACPI_OP "ReturnOp" 0xA4 code[
    UACPI_PARSE_OP_TERM_ARG_UNWRAP_INTERNAL; UACPI_PARSE_OP_INVOKE_HANDLER
  ] 0.

Definition op_BreakOp : uacpi_op_spec :=
  UACPI_OP "BreakOp" 0xA5 code[
    UACPI_PARSE_OP_INVOKE_HANDLER
  ] 0.

Definition op_BreakPointOp : uacpi_op_spec :=
  UACPI_OP "BreakPointOp" 0xCC code[
    UACPI_PARSE_OP_INVOKE_HANDLER
  ] 0.

Definition op_InternalOpReadFieldAsBuffer : uacpi_op_spec :=
  UACPI_OP "InternalOpReadFieldAsBuffer" 0xF4 code[
    UACPI_PARSE_OP_OBJECT_ALLOC_TYPED; UACPI_OBJECT_BUFFER; UACPI_PARSE_OP_INVOKE_HANDLER;
    UACPI_PARSE_OP_OBJECT_TRANSFER_TO_PREV
  ] (Z.lor UACPI_OP_PROPERTY_TERM_ARG UACPI_OP_PROPERTY_RESERVED).

Definition op_InternalOpReadFieldAsInteger : uacpi_op_spec :=
  UACPI_OP "InternalOpReadFieldAsInteger" 0xF5 code[
    UACPI_PARSE_OP_OBJECT_ALLOC_TYPED; UACPI_OBJECT_INTEGER; UACPI_PARSE_OP_INVOKE_HANDLER;
    UACPI_PARSE_OP_OBJECT_TRANSFER_TO_PREV
  ] (Z.lor UACPI_OP_PROPERTY_TERM_ARG UACPI_OP_PROPERTY_RESERVED).

Definition op_InternalOpNamedObject : uacpi_op_spec :=
  UACPI_OP "InternalOpNamedObject" 0xF6 code[
    UACPI_PARSE_OP_EMPTY_OBJECT_ALLOC; UACPI_PARSE_OP_INVOKE_HANDLER; UACPI_PARSE_OP_OBJECT_TRANSFER_TO_PREV
  ] (Z.lor UACPI_OP_PROPERTY_SIMPLE_NAME (Z.lor UACPI_OP_PROPERTY_SUPERNAME (Z.lor UACPI_OP_PROPERTY_TERM_ARG UACPI_OP_PROPERTY_RESERVED))).

Definition op_OnesOp : uacpi_op_spec :=
  UACPI_OP "OnesOp" 0xFF code[
    UACPI_PARSE_OP_LOAD_INLINE_IMM_AS_OBJECT; 0xFF; 0xFF; 0xFF; 0xFF; 0xFF; 0xFF; 0xFF; 0xFF;
    UACPI_PARSE_OP_TRUNCATE_NUMBER; UACPI_PARSE_OP_OBJECT_TRANSFER_TO_PREV
  ] UACPI_OP_PROPERTY_TERM_ARG.

Definition opcodes_0 : list uacpi_op_spec := [
  op_ZeroOp; op_OneOp; UACPI_BAD_OPCODE 0x02; UACPI_BAD_OPCODE 0x03; UACPI_BAD_OPCODE 0x04;
  UACPI_BAD_OPCODE 0x05; op_AliasOp; UACPI_BAD_OPCODE 0x07; op_NameOp; UACPI_BAD_OPCODE 0x09;
  UACPI_INTEGER_LITERAL_OP "Byte" 0x0A 1; UACPI_INTEGER_LITERAL_OP "Word" 0x0B 2;
  UACPI_INTEGER_LITERAL_OP "DWord" 0x0C 4; op_StringPrefix; UACPI_INTEGER_LITERAL_OP "QWord" 0x0E 8;
  UACPI_BAD_OPCODE 0x0F; op_ScopeOp; op_BufferOp; op_PackageOp; op_VarPackageOp; op_MethodOp; op_ExternalOp;
  UACPI_BAD_OPCODE 0x16; UACPI_BAD_OPCODE 0x17; UACPI_BAD_OPCODE 0x18; UACPI_BAD_OPCODE 0x19;
  UACPI_BAD_OPCODE 0x1A; UACPI_BAD_OPCODE 0x1B; UACPI_BAD_OPCODE 0x1C; UACPI_BAD_OPCODE 0x1D;
  UACPI_BAD_OPCODE 0x1E; UACPI_BAD_OPCODE 0x1F; UACPI_BAD_OPCODE 0x20; UACPI_BAD_OPCODE 0x21;
  UACPI_BAD_OPCODE 0x22; UACPI_BAD_OPCODE 0x23; UACPI_BAD_OPCODE 0x24; UACPI_BAD_OPCODE 0x25;
  UACPI_BAD_OPCODE 0x26; UACPI_BAD_OPCODE 0x27
].

Definition opcodes_1 : list uacpi_op_spec := [
  UACPI_BAD_OPCODE 0x28; UACPI_BAD_OPCODE 0x29; UACPI_BAD_OPCODE 0x2A; UACPI_BAD_OPCODE 0x2B;
  UACPI_BAD_OPCODE 0x2C; UACPI_BAD_OPCODE 0x2D; UACPI_UNRESOLVED_NAME_STRING_OP "DualNamePrefix" 0x2E;
  UACPI_UNRESOLVED_NAME_STRING_OP "MultiNamePrefix" 0x2F; UACPI_INTERNAL_OP 0x30; UACPI_INTERNAL_OP 0x31;
  UACPI_INTERNAL_OP 0x32; UACPI_INTERNAL_OP 0x33; UACPI_INTERNAL_OP 0x34; UACPI_INTERNAL_OP 0x35;
  UACPI_INTERNAL_OP 0x36; UACPI_INTERNAL_OP 0x37; UACPI_INTERNAL_OP 0x38; UACPI_INTERNAL_OP 0x39;
  UACPI_BAD_OPCODE 0x3A; UACPI_BAD_OPCODE 0x3B; UACPI_BAD_OPCODE 0x3C; UACPI_BAD_OPCODE 0x3D;
  UACPI_BAD_OPCODE 0x3E; UACPI_BAD_OPCODE 0x3F; UACPI_BAD_OPCODE 0x40; UACPI_UNRESOLVED_NAME_STRING_OP "A" 0x41;
  UACPI_UNRESOLVED_NAME_STRING_OP "B" 0x42; UACPI_UNRESOLVED_NAME_STRING_OP "C" 0x43;
  UACPI_UNRESOLVED_NAME_STRING_OP "D" 0x44; UACPI_UNRESOLVED_NAME_STRING_OP "E" 0x45;
  UACPI_UNRESOLVED_NAME_STRING_OP "F" 0x46; UACPI_UNRESOLVED_NAME_STRING_OP "G" 0x47;
  UACPI_UNRESOLVED_NAME_STRING_OP "H" 0x48; UACPI_UNRESOLVED_NAME_STRING_OP "I" 0x49;
  UACPI_UNRESOLVED_NAME_STRING_OP "J" 0x4A; UACPI_UNRESOLVED_NAME_STRING_OP "K" 0x4B;
  UACPI_UNRESOLVED_NAME_STRING_OP "L" 0x4C; UACPI_UNRESOLVED_NAME_STRING_OP "M" 0x4D;
  UACPI_UNRESOLVED_NAME_STRING_OP "N" 0x4E; UACPI_UNRESOLVED_NAME_STRING_OP "O" 0x4F
].

Definition opcodes_2 : list uacpi_op_spec := [
  UACPI_UNRESOLVED_NAME_STRING_OP "P" 0x50; UACPI_UNRESOLVED_NAME_STRING_OP "Q" 0x51;
  UACPI_UNRESOLVED_NAME_STRING_OP "R" 0x52; UACPI_UNRESOLVED_NAME_STRING_OP "S" 0x53;
  UACPI_UNRESOLVED_NAME_STRING_OP "T" 0x54; UACPI_UNRESOLVED_NAME_STRING_OP "U" 0x55;
  UACPI_UNRESOLVED_NAME_STRING_OP "V" 0x56; UACPI_UNRESOLVED_NAME_STRING_OP "W" 0x57;
  UACPI_UNRESOLVED_NAME_STRING_OP "X" 0x58; UACPI_UNRESOLVED_NAME_STRING_OP "Y" 0x59;
  UACPI_UNRESOLVED_NAME_STRING_OP "Z" 0x5A; UACPI_INTERNAL_OP 0x5B;
  UACPI_UNRESOLVED_NAME_STRING_OP "RootChar" 0x5C; UACPI_BAD_OPCODE 0x5D;
  UACPI_UNRESOLVED_NAME_STRING_OP "ParentPrefixChar" 0x5E; UACPI_UNRESOLVED_NAME_STRING_OP "Underscore" 0x5F;
  UACPI_LOCALX_OP 0; UACPI_LOCALX_OP 1; UACPI_LOCALX_OP 2; UACPI_LOCALX_OP 3; UACPI_LOCALX_OP 4;
  UACPI_LOCALX_OP 5; UACPI_LOCALX_OP 6; UACPI_LOCALX_OP 7; UACPI_ARGX_OP 0; UACPI_ARGX_OP 1; UACPI_ARGX_OP 2;
  UACPI_ARGX_OP 3; UACPI_ARGX_OP 4; UACPI_ARGX_OP 5; UACPI_ARGX_OP 6; UACPI_BAD_OPCODE 0x6F; op_StoreOp;
  op_RefOfOp; UACPI_BUILD_BINARY_MATH_OP "Add" 0x72; op_ConcatOp; UACPI_BUILD_BINARY_MATH_OP "Subtract" 0x74;
  UACPI_BUILD_INC_DEC_OP "Increment" 0x75; UACPI_BUILD_INC_DEC_OP "Decrement" 0x76;
  UACPI_BUILD_BINARY_MATH_OP "Multiply" 0x77
].

Definition opcodes_3 : list uacpi_op_spec := [
  op_DivideOp; UACPI_BUILD_BINARY_MATH_OP "ShiftLeft" 0x79; UACPI_BUILD_BINARY_MATH_OP "ShiftRight" 0x7A;
  UACPI_BUILD_BINARY_MATH_OP "And" 0x7B; UACPI_BUILD_BINARY_MATH_OP "Nand" 0x7C;
  UACPI_BUILD_BINARY_MATH_OP "Or" 0x7D; UACPI_BUILD_BINARY_MATH_OP "Nor" 0x7E;
  UACPI_BUILD_BINARY_MATH_OP "Xor" 0x7F; UACPI_BUILD_UNARY_MATH_OP "Not" 0x80;
  UACPI_BUILD_UNARY_MATH_OP "FindSetLeftBit" 0x81; UACPI_BUILD_UNARY_MATH_OP "FindSetRightBit" 0x82;
  op_DerefOfOp; op_ConcatResOp; UACPI_BUILD_BINARY_MATH_OP "Mod" 0x85; op_NotifyOp; op_SizeOfOp; op_IndexOp;
  op_MatchOp; UACPI_BUILD_BUFFER_FIELD_OP "DWord" 0x8A; UACPI_BUILD_BUFFER_FIELD_OP "Word" 0x8B;
  UACPI_BUILD_BUFFER_FIELD_OP "Byte" 0x8C; UACPI_BUILD_BUFFER_FIELD_OP "Bit" 0x8D; op_ObjectTypeOp;
  UACPI_BUILD_BUFFER_FIELD_OP "QWord" 0x8F; UACPI_BUILD_BINARY_LOGIC_OP "Land" 0x90;
  UACPI_BUILD_BINARY_LOGIC_OP "Lor" 0x91; op_LnotOp; UACPI_BUILD_BINARY_LOGIC_OP "LEqual" 0x93;
  UACPI_BUILD_BINARY_LOGIC_OP "LGreater" 0x94; UACPI_BUILD_BINARY_LOGIC_OP "LLess" 0x95;
  UACPI_BUILD_TO_OP "Buffer" 0x96 UACPI_OBJECT_BUFFER;
  UACPI_BUILD_TO_OP "DecimalString" 0x97 UACPI_OBJECT_STRING;
  UACPI_BUILD_TO_OP "HexString" 0x98 UACPI_OBJECT_STRING
].

Definition opcodes_4 : list uacpi_op_spec := [
  UACPI_BUILD_TO_OP "Integer" 0x99 UACPI_OBJECT_INTEGER; UACPI_BAD_OPCODE 0x9A; UACPI_BAD_OPCODE 0x9B;
  op_ToStringOp; op_CopyObjectOp; op_MidOp; op_ContinueOp; op_IfOp; op_ElseOp; op_WhileOp; op_NoopOp;
  op_ReturnOp; op_BreakOp; UACPI_BAD_OPCODE 0xA6; UACPI_BAD_OPCODE 0xA7; UACPI_BAD_OPCODE 0xA8;
  UACPI_BAD_OPCODE 0xA9; UACPI_BAD_OPCODE 0xAA; UACPI_BAD_OPCODE 0xAB; UACPI_BAD_OPCODE 0xAC;
  UACPI_BAD_OPCODE 0xAD; UACPI_BAD_OPCODE 0xAE; UACPI_BAD_OPCODE 0xAF; UACPI_BAD_OPCODE 0xB0;
  UACPI_BAD_OPCODE 0xB1; UACPI_BAD_OPCODE 0xB2; UACPI_BAD_OPCODE 0xB3; UACPI_BAD_OPCODE 0xB4;
  UACPI_BAD_OPCODE 0xB5; UACPI_BAD_OPCODE 0xB6; UACPI_BAD_OPCODE 0xB7; UACPI_BAD_OPCODE 0xB8;
  UACPI_BAD_OPCODE 0xB9; UACPI_BAD_OPCODE 0xBA; UACPI_BAD_OPCODE 0xBB; UACPI_BAD_OPCODE 0xBC;
  UACPI_BAD_OPCODE 0xBD; UACPI_BAD_OPCODE 0xBE; UACPI_BAD_OPCODE 0xBF; UACPI_BAD_OPCODE 0xC0
].

Definition opcodes_5 : list uacpi_op_spec := [
  UACPI_BAD_OPCODE 0xC1; UACPI_BAD_OPCODE 0xC2; UACPI_BAD_OPCODE 0xC3; UACPI_BAD_OPCODE 0xC4;
  UACPI_BAD_OPCODE 0xC5; UACPI_BAD_OPCODE 0xC6; UACPI_BAD_OPCODE 0xC7; UACPI_BAD_OPCODE 0xC8;
  UACPI_BAD_OPCODE 0xC9; UACPI_BAD_OPCODE 0xCA; UACPI_BAD_OPCODE 0xCB; op_BreakPointOp; UACPI_BAD_OPCODE 0xCD;
  UACPI_BAD_OPCODE 0xCE; UACPI_BAD_OPCODE 0xCF; UACPI_BAD_OPCODE 0xD0; UACPI_BAD_OPCODE 0xD1;
  UACPI_BAD_OPCODE 0xD2; UACPI_BAD_OPCODE 0xD3; UACPI_BAD_OPCODE 0xD4; UACPI_BAD_OPCODE 0xD5;
  UACPI_BAD_OPCODE 0xD6; UACPI_BAD_OPCODE 0xD7; UACPI_BAD_OPCODE 0xD8; UACPI_BAD_OPCODE 0xD9;
  UACPI_BAD_OPCODE 0xDA; UACPI_BAD_OPCODE 0xDB; UACPI_BAD_OPCODE 0xDC; UACPI_BAD_OPCODE 0xDD;
  UACPI_BAD_OPCODE 0xDE; UACPI_BAD_OPCODE 0xDF; UACPI_BAD_OPCODE 0xE0; UACPI_BAD_OPCODE 0xE1;
  UACPI_BAD_OPCODE 0xE2; UACPI_BAD_OPCODE 0xE3; UACPI_BAD_OPCODE 0xE4; UACPI_BAD_OPCODE 0xE5;
  UACPI_BAD_OPCODE 0xE6; UACPI_BAD_OPCODE 0xE7; UACPI_BAD_OPCODE 0xE8
].

Definition opcodes_6 : list uacpi_op_spec := [
  UACPI_BAD_OPCODE 0xE9; UACPI_BAD_OPCODE 0xEA; UACPI_BAD_OPCODE 0xEB; UACPI_BAD_OPCODE 0xEC;
  UACPI_BAD_OPCODE 0xED; UACPI_BAD_OPCODE 0xEE; UACPI_BAD_OPCODE 0xEF; UACPI_BAD_OPCODE 0xF0;
  UACPI_BAD_OPCODE 0xF1; UACPI_BAD_OPCODE 0xF2; UACPI_BAD_OPCODE 0xF3; op_InternalOpReadFieldAsBuffer;
  op_InternalOpReadFieldAsInteger; op_InternalOpNamedObject; UACPI_METHOD_CALL_OPCODE 0;
  UACPI_METHOD_CALL_OPCODE 1; UACPI_METHOD_CALL_OPCODE 2; UACPI_METHOD_CALL_OPCODE 3;
  UACPI_METHOD_CALL_OPCODE 4; UACPI_METHOD_CALL_OPCODE 5; UACPI_METHOD_CALL_OPCODE 6;
  UACPI_METHOD_CALL_OPCODE 7; op_OnesOp
].

(** ** Programs out of line *)

Definition PARSE_FIELD_ELEMENTS (parse_loop_pc : Z) : list Z := code[
  UACPI_PARSE_OP_IF_HAS_DATA; 44; UACPI_PARSE_OP_LOAD_IMM; 1; UACPI_PARSE_OP_IF_LAST_EQUALS; 0x00; 3;
  UACPI_PARSE_OP_PKGLEN; UACPI_PARSE_OP_JMP; parse_loop_pc; UACPI_PARSE_OP_IF_LAST_EQUALS; 0x01; 6;
  UACPI_PARSE_OP_LOAD_IMM; 1; UACPI_PARSE_OP_LOAD_IMM; 1; UACPI_PARSE_OP_JMP; parse_loop_pc;
  UACPI_PARSE_OP_IF_LAST_EQUALS; 0x02; 5; UACPI_PARSE_OP_TERM_ARG_UNWRAP_INTERNAL; UACPI_PARSE_OP_TYPECHECK;
  UACPI_OBJECT_BUFFER; UACPI_PARSE_OP_JMP; parse_loop_pc; UACPI_PARSE_OP_IF_LAST_EQUALS; 0x03; 8;
  UACPI_PARSE_OP_LOAD_IMM; 1; UACPI_PARSE_OP_LOAD_IMM; 1; UACPI_PARSE_OP_LOAD_IMM; 1; UACPI_PARSE_OP_JMP;
  parse_loop_pc; UACPI_PARSE_OP_ITEM_POP; UACPI_PARSE_OP_AML_PC_DECREMENT; UACPI_PARSE_OP_CREATE_NAMESTRING;
  UACPI_PARSE_OP_PKGLEN; UACPI_PARSE_OP_OBJECT_ALLOC_TYPED; UACPI_OBJECT_FIELD_UNIT; UACPI_PARSE_OP_JMP;
  parse_loop_pc; UACPI_PARSE_OP_INVOKE_HANDLER; UACPI_PARSE_OP_END
].

Definition uacpi_field_op_decode_ops : list Z := code[
  UACPI_PARSE_OP_TRACKED_PKGLEN; UACPI_PARSE_OP_EXISTING_NAMESTRING; UACPI_PARSE_OP_LOAD_IMM; 1
] ++ PARSE_FIELD_ELEMENTS 4.

Definition uacpi_bank_field_op_decode_ops : list Z := code[
  UACPI_PARSE_OP_TRACKED_PKGLEN; UACPI_PARSE_OP_EXISTING_NAMESTRING; UACPI_PARSE_OP_EXISTING_NAMESTRING;
  UACPI_PARSE_OP_OPERAND; UACPI_PARSE_OP_LOAD_IMM; 1
] ++ PARSE_FIELD_ELEMENTS 6.

Definition uacpi_index_field_op_decode_ops : list Z := code[
  UACPI_PARSE_OP_TRACKED_PKGLEN; UACPI_PARSE_OP_EXISTING_NAMESTRING; UACPI_PARSE_OP_EXISTING_NAMESTRING;
  UACPI_PARSE_OP_LOAD_IMM; 1
] ++ PARSE_FIELD_ELEMENTS 5.

Definition uacpi_load_op_decode_ops : list Z := code[
  UACPI_PARSE_OP_LOAD_ZERO_IMM; UACPI_PARSE_OP_OBJECT_ALLOC_TYPED; UACPI_OBJECT_METHOD;
  UACPI_PARSE_OP_TERM_ARG_UNWRAP_INTERNAL; UACPI_PARSE_OP_TARGET; UACPI_PARSE_OP_INVOKE_HANDLER;
  UACPI_PARSE_OP_IF_NULL; 0; 3; UACPI_PARSE_OP_LOAD_FALSE_OBJECT; UACPI_PARSE_OP_JMP; 15;
  UACPI_PARSE_OP_LOAD_TRUE_OBJECT; UACPI_PARSE_OP_DISPATCH_TABLE_LOAD; UACPI_PARSE_OP_INVOKE_HANDLER;
  UACPI_PARSE_OP_STORE_TO_TARGET; 3; UACPI_PARSE_OP_OBJECT_TRANSFER_TO_PREV; UACPI_PARSE_OP_END
].

Definition uacpi_load_table_op_decode_ops : list Z := code[
  UACPI_PARSE_OP_LOAD_ZERO_IMM; UACPI_PARSE_OP_OBJECT_ALLOC_TYPED; UACPI_OBJECT_METHOD;
  UACPI_PARSE_OP_LOAD_ZERO_IMM; UACPI_PARSE_OP_LOAD_ZERO_IMM; UACPI_PARSE_OP_LOAD_INLINE_IMM; 1; 5;
  UACPI_PARSE_OP_IF_NOT_NULL; 4; 5; UACPI_PARSE_OP_STRING; UACPI_PARSE_OP_IMM_DECREMENT; 4; UACPI_PARSE_OP_JMP;
  8; UACPI_PARSE_OP_TERM_ARG_UNWRAP_INTERNAL; UACPI_PARSE_OP_INVOKE_HANDLER; UACPI_PARSE_OP_IF_NULL; 0; 3;
  UACPI_PARSE_OP_LOAD_FALSE_OBJECT; UACPI_PARSE_OP_OBJECT_TRANSFER_TO_PREV; UACPI_PARSE_OP_END;
  UACPI_PARSE_OP_LOAD_TRUE_OBJECT; UACPI_PARSE_OP_DISPATCH_TABLE_LOAD; UACPI_PARSE_OP_INVOKE_HANDLER;
  UACPI_PARSE_OP_IF_NOT_NULL; 3; 3; UACPI_PARSE_OP_STORE_TO_TARGET_INDIRECT; 3; 10;
  UACPI_PARSE_OP_OBJECT_TRANSFER_TO_PREV; UACPI_PARSE_OP_END
].

(** ** Extended instructions *)

Definition UACPI_BUILD_NAMED_SCOPE_OBJECT_OP (name : string) (code type : Z) (va_args : list Z) : uacpi_op_spec :=
  UACPI_OP (name ++ "Op") (UACPI_EXT_OP code) (code[
    UACPI_PARSE_OP_TRACKED_PKGLEN; UACPI_PARSE_OP_CREATE_NAMESTRING_OR_NULL_IF_LOAD
  ] ++ va_args ++ code[
    UACPI_PARSE_OP_SKIP_WITH_WARN_IF_NULL; 1; UACPI_PARSE_OP_OBJECT_ALLOC_TYPED; type;
    UACPI_PARSE_OP_INVOKE_HANDLER; UACPI_PARSE_OP_INSTALL_NAMESPACE_NODE; 1
  ]) 0.

Definition UACPI_BUILD_TO_FROM_BCD (type : string) (code : Z) : uacpi_op_spec :=
  UACPI_OP (type ++ "BCDOp") (UACPI_EXT_OP code) code[
    UACPI_PARSE_OP_OPERAND; UACPI_PARSE_OP_TARGET; UACPI_PARSE_OP_OBJECT_ALLOC_TYPED; UACPI_OBJECT_INTEGER;
    UACPI_PARSE_OP_INVOKE_HANDLER; UACPI_PARSE_OP_STORE_TO_TARGET; 1; UACPI_PARSE_OP_OBJECT_TRANSFER_TO_PREV
  ] UACPI_OP_PROPERTY_TERM_ARG.

Definition op_ReservedExtOp : uacpi_op_spec :=
  UACPI_OP "ReservedExtOp" (UACPI_EXT_OP 0x00) code[
    UACPI_PARSE_OP_BAD_OPCODE
  ] 0.

Definition op_MutexOp : uacpi_op_spec :=
  UACPI_OP "MutexOp" (UACPI_EXT_OP 0x01) code[
    UACPI_PARSE_OP_CREATE_NAMESTRING_OR_NULL_IF_LOAD; UACPI_PARSE_OP_LOAD_IMM; 1;
    UACPI_PARSE_OP_SKIP_WITH_WARN_IF_NULL; 0; UACPI_PARSE_OP_OBJECT_ALLOC_TYPED; UACPI_OBJECT_MUTEX;
    UACPI_PARSE_OP_INVOKE_HANDLER; UACPI_PARSE_OP_INSTALL_NAMESPACE_NODE; 0
  ] 0.

Definition op_EventOp : uacpi_op_spec :=
  UACPI_OP "EventOp" (UACPI_EXT_OP 0x02) code[
    UACPI_PARSE_OP_CREATE_NAMESTRING_OR_NULL_IF_LOAD; UACPI_PARSE_OP_SKIP_WITH_WARN_IF_NULL; 0;
    UACPI_PARSE_OP_OBJECT_ALLOC_TYPED; UACPI_OBJECT_EVENT; UACPI_PARSE_OP_INVOKE_HANDLER;
    UACPI_PARSE_OP_INSTALL_NAMESPACE_NODE; 0
  ] 0.

Definition op_CondRefOfOp : uacpi_op_spec :=
  UACPI_OP "CondRefOfOp" (UACPI_EXT_OP 0x12) code[
    UACPI_PARSE_OP_SUPERNAME_OR_UNRESOLVED; UACPI_PARSE_OP_TARGET; UACPI_PARSE_OP_IF_NULL; 0; 3;
    UACPI_PARSE_OP_LOAD_FALSE_OBJECT; UACPI_PARSE_OP_OBJECT_TRANSFER_TO_PREV; UACPI_PARSE_OP_END;
    UACPI_PARSE_OP_OBJECT_ALLOC; UACPI_PARSE_OP_INVOKE_HANDLER; UACPI_PARSE_OP_STORE_TO_TARGET; 1;
    UACPI_PARSE_OP_LOAD_TRUE_OBJECT; UACPI_PARSE_OP_OBJECT_TRANSFER_TO_PREV
  ] UACPI_OP_PROPERTY_TERM_ARG.

Definition op_CreateFieldOp : uacpi_op_spec :=
  UACPI_DO_BUILD_BUFFER_FIELD_OP "Create" (UACPI_EXT_OP 0x13) 3 code[ UACPI_PARSE_OP_OPERAND ].

Definition op_LoadTableOp : uacpi_op_spec :=
  UACPI_OUT_OF_LINE_OP "LoadTableOp" (UACPI_EXT_OP 0x1F) uacpi_load_table_op_decode_ops
    (Z.lor UACPI_OP_PROPERTY_TERM_ARG UACPI_OP_PROPERTY_OUT_OF_LINE).

Definition op_LoadOp : uacpi_op_spec :=
  UACPI_OUT_OF_LINE_OP "LoadOp" (UACPI_EXT_OP 0x20) uacpi_load_op_decode_ops
    (Z.lor UACPI_OP_PROPERTY_TERM_ARG UACPI_OP_PROPERTY_OUT_OF_LINE).

Definition op_StallOp : uacpi_op_spec :=
  UACPI_OP "StallOp" (UACPI_EXT_OP 0x21) code[
    UACPI_PARSE_OP_OPERAND; UACPI_PARSE_OP_INVOKE_HANDLER
  ] 0.

Definition op_SleepOp : uacpi_op_spec :=
  UACPI_OP "SleepOp" (UACPI_EXT_OP 0x22) code[
    UACPI_PARSE_OP_OPERAND; UACPI_PARSE_OP_INVOKE_HANDLER
  ] 0.

Definition op_AcquireOp : uacpi_op_spec :=
  UACPI_OP "AcquireOp" (UACPI_EXT_OP 0x23) code[
    UACPI_PARSE_OP_SUPERNAME; UACPI_PARSE_OP_LOAD_IMM; 2; UACPI_PARSE_OP_LOAD_TRUE_OBJECT;
    UACPI_PARSE_OP_INVOKE_HANDLER; UACPI_PARSE_OP_OBJECT_TRANSFER_TO_PREV
  ] UACPI_OP_PROPERTY_TERM_ARG.

Definition op_SignalOp : uacpi_op_spec :=
  UACPI_OP "SignalOp" (UACPI_EXT_OP 0x24) code[
    UACPI_PARSE_OP_SUPERNAME; UACPI_PARSE_OP_INVOKE_HANDLER
  ] 0.

Definition op_WaitOp : uacpi_op_spec :=
  UACPI_OP "WaitOp" (UACPI_EXT_OP 0x25) code[
    UACPI_PARSE_OP_SUPERNAME; UACPI_PARSE_OP_OPERAND; UACPI_PARSE_OP_LOAD_TRUE_OBJECT;
    UACPI_PARSE_OP_INVOKE_HANDLER; UACPI_PARSE_OP_OBJECT_TRANSFER_TO_PREV
  ] UACPI_OP_PROPERTY_TERM_ARG.

Definition op_ResetOp : uacpi_op_spec :=
  UACPI_OP "ResetOp" (UACPI_EXT_OP 0x26) code[
    UACPI_PARSE_OP_SUPERNAME; UACPI_PARSE_OP_INVOKE_HANDLER
  ] 0.

Definition op_ReleaseOp : uacpi_op_spec :=
  UACPI_OP "ReleaseOp" (UACPI_EXT_OP 0x27) code[
    UACPI_PARSE_OP_SUPERNAME; UACPI_PARSE_OP_INVOKE_HANDLER
  ] 0.

Definition op_UnloadOp : uacpi_op_spec :=
  UACPI_OP "UnloadOp" (UACPI_EXT_OP 0x2A) code[
    UACPI_PARSE_OP_SUPERNAME; UACPI_PARSE_OP_INVOKE_HANDLER
  ] 0.

Definition op_RevisionOp : uacpi_op_spec :=
  UACPI_OP "RevisionOp" (UACPI_EXT_OP 0x30) code[
    UACPI_PARSE_OP_LOAD_INLINE_IMM_AS_OBJECT; 0x01; 0x00; 0x00; 0x00; 0x00; 0x00; 0x00; 0x00;
    UACPI_PARSE_OP_OBJECT_TRANSFER_TO_PREV
  ] UACPI_OP_PROPERTY_TERM_ARG.

Definition op_DebugOp : uacpi_op_spec :=
  UACPI_OP "DebugOp" (UACPI_EXT_OP 0x31) code[
    UACPI_PARSE_OP_OBJECT_ALLOC_TYPED; UACPI_OBJECT_DEBUG; UACPI_PARSE_OP_OBJECT_TRANSFER_TO_PREV
  ] (Z.lor UACPI_OP_PROPERTY_TERM_ARG (Z.lor UACPI_OP_PROPERTY_SUPERNAME UACPI_OP_PROPERTY_TARGET)).

Definition op_FatalOp : uacpi_op_spec :=
  UACPI_OP "FatalOp" (UACPI_EXT_OP 0x32) code[
    UACPI_PARSE_OP_LOAD_IMM; 1; UACPI_PARSE_OP_LOAD_IMM; 4; UACPI_PARSE_OP_OPERAND;
    UACPI_PARSE_OP_INVOKE_HANDLER
  ] 0.

Definition op_TimerOp : uacpi_op_spec :=
  UACPI_OP "TimerOp" (UACPI_EXT_OP 0x33) code[
    UACPI_PARSE_OP_OBJECT_ALLOC_TYPED; UACPI_OBJECT_INTEGER; UACPI_PARSE_OP_INVOKE_HANDLER;
    UACPI_PARSE_OP_OBJECT_TRANSFER_TO_PREV
  ] UACPI_OP_PROPERTY_TERM_ARG.

Definition op_OpRegionOp : uacpi_op_spec :=
  UACPI_OP "OpRegionOp" (UACPI_EXT_OP 0x80) code[
    UACPI_PARSE_OP_CREATE_NAMESTRING_OR_NULL_IF_LOAD; UACPI_PARSE_OP_LOAD_IMM; 1; UACPI_PARSE_OP_OPERAND;
    UACPI_PARSE_OP_OPERAND; UACPI_PARSE_OP_SKIP_WITH_WARN_IF_NULL; 0; UACPI_PARSE_OP_OBJECT_ALLOC_TYPED;
    UACPI_OBJECT_OPERATION_REGION; UACPI_PARSE_OP_INVOKE_HANDLER; UACPI_PARSE_OP_INSTALL_NAMESPACE_NODE; 0
  ] 0.

Definition op_FieldOp : uacpi_op_spec :=
  UACPI_OUT_OF_LINE_OP "FieldOp" (UACPI_EXT_OP 0x81) uacpi_field_op_decode_ops
    UACPI_OP_PROPERTY_OUT_OF_LINE.

Definition op_DeviceOp : uacpi_op_spec :=
  UACPI_BUILD_NAMED_SCOPE_OBJECT_OP "Device" 0x82 UACPI_OBJECT_DEVICE [].

Definition op_ProcessorOp : uacpi_op_spec :=
  UACPI_BUILD_NAMED_SCOPE_OBJECT_OP "Processor" 0x83 UACPI_OBJECT_PROCESSOR code[ UACPI_PARSE_OP_LOAD_IMM; 1; UACPI_PARSE_OP_LOAD_IMM; 4; UACPI_PARSE_OP_LOAD_IMM; 1 ].

Definition op_PowerResOp : uacpi_op_spec :=
  UACPI_BUILD_NAMED_SCOPE_OBJECT_OP "PowerRes" 0x84 UACPI_OBJECT_POWER_RESOURCE code[ UACPI_PARSE_OP_LOAD_IMM; 1; UACPI_PARSE_OP_LOAD_IMM; 2 ].

Definition op_ThermalZoneOp : uacpi_op_spec :=
  UACPI_BUILD_NAMED_SCOPE_OBJECT_OP "ThermalZone" 0x85 UACPI_OBJECT_THERMAL_ZONE [].

Definition op_IndexFieldOp : uacpi_op_spec :=
  UACPI_OUT_OF_LINE_OP "IndexFieldOp" (UACPI_EXT_OP 0x86) uacpi_index_field_op_decode_ops
    UACPI_OP_PROPERTY_OUT_OF_LINE.

Definition op_BankFieldOp : uacpi_op_spec :=
  UACPI_OUT_OF_LINE_OP "BankFieldOp" (UACPI_EXT_OP 0x87) uacpi_bank_field_op_decode_ops
    UACPI_OP_PROPERTY_OUT_OF_LINE.

Definition op_DataRegionOp : uacpi_op_spec :=
  UACPI_OP "DataRegionOp" (UACPI_EXT_OP 0x88) code[
    UACPI_PARSE_OP_CREATE_NAMESTRING_OR_NULL_IF_LOAD; UACPI_PARSE_OP_STRING; UACPI_PARSE_OP_STRING;
    UACPI_PARSE_OP_STRING; UACPI_PARSE_OP_SKIP_WITH_WARN_IF_NULL; 0; UACPI_PARSE_OP_OBJECT_ALLOC_TYPED;
    UACPI_OBJECT_OPERATION_REGION; UACPI_PARSE_OP_INVOKE_HANDLER; UACPI_PARSE_OP_INSTALL_NAMESPACE_NODE; 0
  ] 0.

Definition ext_opcodes_0 : list uacpi_op_spec := [
  op_ReservedExtOp; op_MutexOp; op_EventOp; op_CondRefOfOp; op_CreateFieldOp; op_LoadTableOp; op_LoadOp;
  op_StallOp; op_SleepOp; op_AcquireOp; op_SignalOp; op_WaitOp; op_ResetOp; op_ReleaseOp;
  UACPI_BUILD_TO_FROM_BCD "From" 0x28; UACPI_BUILD_TO_FROM_BCD "To" 0x29; op_UnloadOp; op_RevisionOp
].

Definition ext_opcodes_1 : list uacpi_op_spec := [
  op_DebugOp; op_FatalOp; op_TimerOp; op_OpRegionOp; op_FieldOp; op_DeviceOp; op_ProcessorOp; op_PowerResOp;
  op_ThermalZoneOp; op_IndexFieldOp; op_BankFieldOp; op_DataRegionOp
].

(** ** The tables *)

Definition opcode_table : list uacpi_op_spec :=
  opcodes_0 ++ opcodes_1 ++ opcodes_2 ++ opcodes_3 ++ opcodes_4 ++ opcodes_5 ++ opcodes_6.

Definition ext_opcode_table : list uacpi_op_spec := ext_opcodes_0 ++ ext_opcodes_1.

(** The initialisers of [ext_op_to_idx], with the code of the instruction. *)
Definition ext_op_indices : list (Z * Z) := [
  (op_code op_MutexOp, 1); (op_code op_EventOp, 2); (op_code op_CondRefOfOp, 3); (op_code op_CreateFieldOp, 4);
  (op_code op_LoadTableOp, 5); (op_code op_LoadOp, 6); (op_code op_StallOp, 7); (op_code op_SleepOp, 8);
  (op_code op_AcquireOp, 9); (op_code op_SignalOp, 10); (op_code op_WaitOp, 11); (op_code op_ResetOp, 12);
  (op_code op_ReleaseOp, 13); (op_code (UACPI_BUILD_TO_FROM_BCD "From" 0x28), 14);
  (op_code (UACPI_BUILD_TO_FROM_BCD "To" 0x29), 15); (op_code op_UnloadOp, 16); (op_code op_RevisionOp, 17);
  (op_code op_DebugOp, 18); (op_code op_FatalOp, 19); (op_code op_TimerOp, 20); (op_code op_OpRegionOp, 21);
  (op_code op_FieldOp, 22); (op_code op_DeviceOp, 23); (op_code op_ProcessorOp, 24);
  (op_code op_PowerResOp, 25); (op_code op_ThermalZoneOp, 26); (op_code op_IndexFieldOp, 27);
  (op_code op_BankFieldOp, 28); (op_code op_DataRegionOp, 29)
].

(** The array: zero where there is no initialiser. *)
Definition ext_op_to_idx (i : Z) : Z :=
  match list_find (λ p, Z.land (fst p) 0x00FF = i) ext_op_indices with
  | Some (_, (_, idx)) => idx
  | None => 0
  end.

Definition uacpi_get_op_spec (op : Z) : res uacpi_op_spec :=
  let spec :=
    if (0xFF <? op)%Z then ext_opcode_table !! Z.to_nat (ext_op_to_idx (Z.land op 0x00FF))
    else opcode_table !! Z.to_nat op in
  match spec with Some s => Ok s | None => Fault op end.

Definition pop_names : list string := [
  "<END-OF-OP>"; "SKIP_WITH_WARN_IF_NULL"; "EMIT_SKIP_WARN"; "SIMPLE_NAME"; "SUPERNAME";
  "SUPERNAME_OR_UNRESOLVED"; "TERM_ARG"; "TERM_ARG_UNWRAP_INTERNAL"; "TERM_ARG_OR_NAMED_OBJECT";
  "TERM_ARG_OR_NAMED_OBJECT_OR_UNRESOLVED"; "OPERAND"; "STRING"; "COMPUTATIONAL_DATA"; "TARGET"; "PKGLEN";
  "TRACKED_PKGLEN"; "CREATE_NAMESTRING"; "CREATE_NAMESTRING_OR_NULL_IF_LOAD"; "EXISTING_NAMESTRING";
  "EXISTING_NAMESTRING_OR_NULL"; "EXISTING_NAMESTRING_OR_NULL_IF_LOAD"; "INVOKE_HANDLER"; "OBJECT_ALLOC";
  "EMPTY_OBJECT_ALLOC"; "OBJECT_CONVERT_TO_SHALLOW_COPY"; "OBJECT_CONVERT_TO_DEEP_COPY"; "OBJECT_ALLOC_TYPED";
  "RECORD_AML_PC"; "LOAD_INLINE_IMM_AS_OBJECT"; "LOAD_INLINE_IMM"; "LOAD_ZERO_IMM"; "LOAD_IMM";
  "LOAD_IMM_AS_OBJECT"; "LOAD_FALSE_OBJECT"; "LOAD_TRUE_OBJECT"; "TRUNCATE_NUMBER"; "TYPECHECK";
  "INSTALL_NAMESPACE_NODE"; "OBJECT_TRANSFER_TO_PREV"; "OBJECT_COPY_TO_PREV"; "STORE_TO_TARGET";
  "STORE_TO_TARGET_INDIRECT"; "UNREACHABLE"; "BAD_OPCODE"; "AML_PC_DECREMENT"; "IMM_DECREMENT"; "ITEM_POP";
  "DISPATCH_METHOD_CALL"; "DISPATCH_TABLE_LOAD"; "CONVERT_NAMESTRING"; "IF_HAS_DATA"; "IF_NULL"; "IF_LAST_NULL";
  "IF_NOT_NULL"; "IF_NOT_NULL"; "IF_LAST_EQUALS"; "IF_LAST_FALSE"; "IF_LAST_TRUE"; "SWITCH_TO_NEXT_IF_EQUALS";
  "IF_SWITCHED_FROM"; "JMP"
].

Definition uacpi_parse_op_to_string (op : Z) : res string :=
  if (UACPI_PARSE_OP_MAX <? op)%Z then Ok "<INVALID-OP>"
  else match pop_names !! Z.to_nat op with Some s => Ok s | None => Fault op end.

(** ** The tables *)

Definition is_byte (b : Z) : bool := ((0 <=? b)%Z && (b <? 256)%Z)%bool.

(** A program of the kind that its properties tell [op_decode_cursor], of
    bytes, 16 of them if it is in the specification itself, which starts with
    an operation. *)
Definition spec_ok (s : uacpi_op_spec) : bool :=
  match program s with
  | Inline l => ((Z.land (properties s) UACPI_OP_PROPERTY_OUT_OF_LINE =? 0)%Z && bool_decide (length l = 16%nat)
                 && forallb is_byte l && bool_decide (is_Some (parse_op_of (hd 0 l))))%bool
  | OutOfLine l => (negb (Z.land (properties s) UACPI_OP_PROPERTY_OUT_OF_LINE =? 0)%Z && forallb is_byte l
                    && bool_decide (is_Some (parse_op_of (hd 0 l))))%bool
  end.

Definition has_op (code : Z) : bool := existsb (λ s, (op_code s =? code)%Z) ext_opcode_table.

(** What the lookup has to give for the code [op] and for the extended code
    [UACPI_EXT_OP op]. *)
Definition plain_lookup_ok (op : Z) : bool :=
  match uacpi_get_op_spec op with Ok s => ((op_code s =? op)%Z && spec_ok s)%bool | _ => false end.

Definition ext_lookup_ok (op : Z) : bool :=
  match uacpi_get_op_spec (UACPI_EXT_OP op) with
  | Ok s =>
      (spec_ok s &&
       if has_op (UACPI_EXT_OP op) then (op_code s =? UACPI_EXT_OP op)%Z else String.eqb (op_name s) (op_name op_ReservedExtOp))%bool
  | _ => false
  end.

Lemma lookups_ok : forallb (λ n, (plain_lookup_ok (Z.of_nat n) && ext_lookup_ok (Z.of_nat n))%bool) (seq 0 256) = true.
Proof. vm_compute. reflexivity. Qed.

(** C32: Every opcode, and every opcode after the prefix of extended opcodes, has
    a specification: the one with its code, or the reserved one where the
    tables list no extended instruction with the code.  Its program has the
    form that its properties announce, which is what [op_decode_cursor] goes
    by. *)
Theorem uacpi_get_op_spec_ok op :
  (0 ≤ op < 256)%Z →
  (∃ s, uacpi_get_op_spec op = Ok s ∧ op_code s = op ∧ spec_ok s = true) ∧
  (∃ s, uacpi_get_op_spec (UACPI_EXT_OP op) = Ok s ∧ spec_ok s = true ∧
        if has_op (UACPI_EXT_OP op) then op_code s = UACPI_EXT_OP op else op_name s = op_name op_ReservedExtOp).
Proof.
  intros Hop. pose proof lookups_ok as H. rewrite forallb_forall in H.
  specialize (H (Z.to_nat op)). rewrite in_seq, Z2Nat.id in H by lia.
  destruct (andb_prop _ _ (H ltac:(lia))) as [Hp He]. unfold plain_lookup_ok in Hp. unfold ext_lookup_ok in He. split.
  - destruct (uacpi_get_op_spec op) as [s| | |]; [|done..]. apply andb_prop in Hp as [?%Z.eqb_eq ?]. eauto.
  - destruct (uacpi_get_op_spec (UACPI_EXT_OP op)) as [s| | |]; [|done..]. apply andb_prop in He as [? He].
    exists s. split; [done|]. split; [done|]. destruct (has_op _); [by apply Z.eqb_eq|by apply String.eqb_eq].
Qed.

Lemma uacpi_get_op_spec_ok_witness :
  ∃ s, uacpi_get_op_spec (UACPI_EXT_OP 0x82) = Ok s ∧ spec_ok s = true ∧ op_code s = UACPI_EXT_OP 0x82.
Proof. apply (proj2 (uacpi_get_op_spec_ok 0x82 ltac:(lia))). Defined.
