(* ===== verification/UacpiExec.v ===== *)
(** * Taking AML instructions apart: [exec_op] of uacpi/source/interpreter.c

    The interpreter runs the parse programs of UacpiOpcodes.v.  An instruction
    in progress has a context with a program counter and a list of items; an
    operation that needs an argument preempts its context until the argument,
    itself an instruction, has been executed and has delivered an object.

    The model follows the control of [exec_op] and the kinds of the items.
    What depends on data, the contents of objects, the AML bytes and the
    results of the functions called, comes from an [answer], so that a
    theorem for all answers holds for all programs.  An access outside of a
    program or of the items, or to an item that holds something else than what
    is read, is [None]. *)

From S2P Require Import Prelude Tables UacpiOpcodes.
Local Open Scope kernel_scope.
Local Open Scope Z_scope.

(** ** Codes *)

(** The enumeration [uacpi_aml_op] names every instruction of the tables. *)
Definition UACPI_AML_OP (name : string) : Z :=
  match list_find (λ s, op_name s = name) (opcode_table ++ ext_opcode_table) with
  | Some (_, s) => op_code s
  | None => -1
  end.
Arguments UACPI_AML_OP name%_string.

Definition UACPI_AML_OP_IfOp : Z := Eval vm_compute in UACPI_AML_OP "IfOp".
Definition UACPI_AML_OP_WhileOp : Z := Eval vm_compute in UACPI_AML_OP "WhileOp".
Definition UACPI_AML_OP_ExternalOp : Z := Eval vm_compute in UACPI_AML_OP "ExternalOp".
Definition UACPI_AML_OP_VarPackageOp : Z := Eval vm_compute in UACPI_AML_OP "VarPackageOp".
Definition UACPI_AML_OP_DivideOp : Z := Eval vm_compute in UACPI_AML_OP "DivideOp".
Definition UACPI_AML_OP_CondRefOfOp : Z := Eval vm_compute in UACPI_AML_OP "CondRefOfOp".
Definition UACPI_AML_OP_MutexOp : Z := Eval vm_compute in UACPI_AML_OP "MutexOp".
Definition UACPI_AML_OP_CreateFieldOp : Z := Eval vm_compute in UACPI_AML_OP "CreateFieldOp".
Definition UACPI_AML_OP_FieldOp : Z := Eval vm_compute in UACPI_AML_OP "FieldOp".
Definition UACPI_AML_OP_BankFieldOp : Z := Eval vm_compute in UACPI_AML_OP "BankFieldOp".
Definition UACPI_AML_OP_WaitOp : Z := Eval vm_compute in UACPI_AML_OP "WaitOp".
Definition UACPI_AML_OP_AcquireOp : Z := Eval vm_compute in UACPI_AML_OP "AcquireOp".
Definition UACPI_AML_OP_FatalOp : Z := Eval vm_compute in UACPI_AML_OP "FatalOp".
Definition UACPI_AML_OP_ElseOp : Z := Eval vm_compute in UACPI_AML_OP "ElseOp".
Definition UACPI_AML_OP_ScopeOp : Z := Eval vm_compute in UACPI_AML_OP "ScopeOp".
Definition UACPI_AML_OP_ProcessorOp : Z := Eval vm_compute in UACPI_AML_OP "ProcessorOp".
Definition UACPI_AML_OP_PowerResOp : Z := Eval vm_compute in UACPI_AML_OP "PowerResOp".
Definition UACPI_AML_OP_InternalOpNamedObject : Z := Eval vm_compute in UACPI_AML_OP "InternalOpNamedObject".
Definition UACPI_AML_OP_InternalOpMethodCall0Args : Z := Eval vm_compute in UACPI_AML_OP "InternalOpMethodCall0Args".
Definition UACPI_AML_OP_InternalOpReadFieldAsBuffer : Z := Eval vm_compute in UACPI_AML_OP "InternalOpReadFieldAsBuffer".
Definition UACPI_AML_OP_InternalOpReadFieldAsInteger : Z := Eval vm_compute in UACPI_AML_OP "InternalOpReadFieldAsInteger".
Definition EXT_OP_IDX (op : Z) : Z := Z.land op 0xFF.

(** ** Items *)

Inductive item_type :=
| ITEM_NONE
| ITEM_NAMESPACE_NODE
| ITEM_OBJECT
| ITEM_EMPTY_OBJECT
| ITEM_PACKAGE_LENGTH
| ITEM_IMMEDIATE.

(** What the union of an item holds.  [Bits (Some 0)] is the cleared union,
    which is also the null pointer; [Bits None] is a number read from the AML
    code. *)
Inductive content :=
| Obj
| Node
| Pkg
| Bits (v : option Z).

Record item := MkItem { type_of : item_type; holds : content }.

#[export] Instance item_type_eq_dec : EqDecision item_type.
Proof. solve_decision. Defined.

#[export] Instance content_eq_dec : EqDecision content.
Proof. solve_decision. Defined.

#[export] Instance item_eq_dec : EqDecision item.
Proof. solve_decision. Defined.

Definition null : content := Bits (Some 0).

(** Whether the pointer of the union is null; [unknown] if it depends on data.
    A package length is not a pointer. *)
Definition is_null (unknown : bool) (c : content) : option bool :=
  match c with Bits (Some v) => Some (v =? 0) | Bits None => Some unknown | Pkg => None | _ => Some false end.

Definition parse_op_generates_item (op : uacpi_parse_op) : item_type :=
  match op with
  | UACPI_PARSE_OP_SIMPLE_NAME
  | UACPI_PARSE_OP_SUPERNAME
  | UACPI_PARSE_OP_SUPERNAME_OR_UNRESOLVED
  | UACPI_PARSE_OP_TERM_ARG
  | UACPI_PARSE_OP_TERM_ARG_UNWRAP_INTERNAL
  | UACPI_PARSE_OP_TERM_ARG_OR_NAMED_OBJECT
  | UACPI_PARSE_OP_TERM_ARG_OR_NAMED_OBJECT_OR_UNRESOLVED
  | UACPI_PARSE_OP_OPERAND
  | UACPI_PARSE_OP_STRING
  | UACPI_PARSE_OP_COMPUTATIONAL_DATA
  | UACPI_PARSE_OP_TARGET
  | UACPI_PARSE_OP_EMPTY_OBJECT_ALLOC => ITEM_EMPTY_OBJECT
  | UACPI_PARSE_OP_PKGLEN
  | UACPI_PARSE_OP_TRACKED_PKGLEN => ITEM_PACKAGE_LENGTH
  | UACPI_PARSE_OP_CREATE_NAMESTRING
  | UACPI_PARSE_OP_CREATE_NAMESTRING_OR_NULL_IF_LOAD
  | UACPI_PARSE_OP_EXISTING_NAMESTRING
  | UACPI_PARSE_OP_EXISTING_NAMESTRING_OR_NULL
  | UACPI_PARSE_OP_EXISTING_NAMESTRING_OR_NULL_IF_LOAD => ITEM_NAMESPACE_NODE
  | UACPI_PARSE_OP_LOAD_INLINE_IMM_AS_OBJECT
  | UACPI_PARSE_OP_LOAD_IMM_AS_OBJECT
  | UACPI_PARSE_OP_LOAD_FALSE_OBJECT
  | UACPI_PARSE_OP_LOAD_TRUE_OBJECT
  | UACPI_PARSE_OP_OBJECT_ALLOC
  | UACPI_PARSE_OP_OBJECT_ALLOC_TYPED
  | UACPI_PARSE_OP_OBJECT_CONVERT_TO_SHALLOW_COPY
  | UACPI_PARSE_OP_OBJECT_CONVERT_TO_DEEP_COPY => ITEM_OBJECT
  | UACPI_PARSE_OP_LOAD_INLINE_IMM
  | UACPI_PARSE_OP_LOAD_ZERO_IMM
  | UACPI_PARSE_OP_LOAD_IMM
  | UACPI_PARSE_OP_RECORD_AML_PC => ITEM_IMMEDIATE
  | _ => ITEM_NONE
  end.

(** Whether dropping the reference an item holds is in order. *)
Definition releasable (it : item) : bool :=
  match type_of it with
  | ITEM_OBJECT => match holds it with Obj => true | Bits (Some v) => v =? 0 | _ => false end
  | ITEM_NAMESPACE_NODE => match holds it with Node => true | Bits (Some v) => v =? 0 | _ => false end
  | _ => true
  end.

(** ** Contexts *)

(** The items of a context.  The interpreter has an array; the analysis of
    UacpiExecThms.v has a summary of one. *)
Class ItemArray (I : Type) := {
  items_empty : I;
  items_size : I → option nat;
  items_at : nat → I → option item;
  items_last : I → option item;
  items_push : item → I → I;
  items_pop : I → option I;
  items_set : nat → item → I → option I;
  items_set_last : item → I → option I;
  items_releasable : I → bool
}.

#[export] Instance item_list : ItemArray (list item) := {|
  items_empty := [];
  items_size := λ l, Some (length l);
  items_at := λ i l, l !! i;
  items_last := λ l, last l;
  items_push := λ it l, l ++ [it];
  items_pop := λ l, Some (removelast l);
  items_set := λ i it l, if decide (i < length l)%nat then Some (<[i := it]> l) else None;
  items_set_last := λ it l, match l with [] => None | _ => Some (removelast l ++ [it]) end;
  items_releasable := λ l, forallb releasable l
|}.

Record op_context (I : Type) := MkCtx {
  pc : Z;
  preempted : bool;
  tracked_pkg_idx : Z;
  switched_from : Z;
  items : I;
  ctx_op : uacpi_op_spec
}.
Arguments MkCtx {I}.
Arguments pc {I}.
Arguments preempted {I}.
Arguments tracked_pkg_idx {I}.
Arguments switched_from {I}.
Arguments items {I}.
Arguments ctx_op {I}.

(** The pointer [item] of [exec_op].  Operations that change the list set it
    to the last item, so it points there unless it was set to another one.
    [Stale] is the pointer into a context that was removed. *)
Inductive item_ptr :=
| NoItem
| LastItem
| ItemAt (i : nat)
| Stale (it : item).

(** What the step depends on: whether there is memory, the status a called
    function returns, the outcome of a test on data, the type of a named
    object, the number of arguments of a method, the type a field is read as,
    the two bytes at the AML cursor. *)
Record answer := MkAnswer {
  a_memory : bool;
  a_status : uacpi_status;
  a_test : bool;
  a_type : Z;
  a_args : Z;
  a_read_type : Z;
  a_bytes : Z * Z
}.

(** The number of arguments of a method has three bits, a byte has eight. *)
Definition answer_ok (a : answer) : Prop :=
  0 ≤ a_args a < 8 ∧ 0 ≤ fst (a_bytes a) < 256 ∧ 0 ≤ snd (a_bytes a) < 256.

Definition is_error (st : uacpi_status) : bool := bool_decide (st ≠ UACPI_STATUS_OK).

(** What an iteration of the loop of [exec_op] does: it goes on (perhaps
    having stored an object to the last item of the previous context), it
    returns with the context preempted, with the context finished or with a
    call under way, it aborts the condition of a loop or branch, or it returns
    an error. *)
Inductive effect (I : Type) :=
| Continue (c : op_context I) (p : item_ptr) (delivers : bool)
| Preempt (c : op_context I)
| Finish
| Dispatch (c : op_context I)
| AbortCondition (p : item_ptr)
| Error (st : uacpi_status).
Arguments Continue {I}.
Arguments Preempt {I}.
Arguments Finish {I}.
Arguments Dispatch {I}.
Arguments AbortCondition {I}.
Arguments Error {I}.

(** ** Handlers *)

Inductive op_handler :=
| OP_HANDLER_UNINSTALLED
| OP_HANDLER_LOCAL
| OP_HANDLER_ARG
| OP_HANDLER_STRING
| OP_HANDLER_BINARY_MATH
| OP_HANDLER_CONTROL_FLOW
| OP_HANDLER_CODE_BLOCK
| OP_HANDLER_RETURN
| OP_HANDLER_CREATE_METHOD
| OP_HANDLER_COPY_OBJECT_OR_STORE
| OP_HANDLER_INC_DEC
| OP_HANDLER_REF_OR_DEREF_OF
| OP_HANDLER_LOGICAL_NOT
| OP_HANDLER_BINARY_LOGIC
| OP_HANDLER_NAMED_OBJECT
| OP_HANDLER_BUFFER
| OP_HANDLER_PACKAGE
| OP_HANDLER_CREATE_NAMED
| OP_HANDLER_CREATE_BUFFER_FIELD
| OP_HANDLER_READ_FIELD
| OP_HANDLER_ALIAS
| OP_HANDLER_CONCATENATE
| OP_HANDLER_CONCATENATE_RES
| OP_HANDLER_SIZEOF
| OP_HANDLER_UNARY_MATH
| OP_HANDLER_INDEX
| OP_HANDLER_OBJECT_TYPE
| OP_HANDLER_CREATE_OP_REGION
| OP_HANDLER_CREATE_DATA_REGION
| OP_HANDLER_CREATE_FIELD
| OP_HANDLER_TO
| OP_HANDLER_TO_STRING
| OP_HANDLER_TIMER
| OP_HANDLER_MID
| OP_HANDLER_MATCH
| OP_HANDLER_CREATE_MUTEX_OR_EVENT
| OP_HANDLER_BCD
| OP_HANDLER_UNLOAD
| OP_HANDLER_LOAD_TABLE
| OP_HANDLER_LOAD
| OP_HANDLER_STALL_OR_SLEEP
| OP_HANDLER_EVENT_CTL
| OP_HANDLER_MUTEX_CTL
| OP_HANDLER_NOTIFY
| OP_HANDLER_FIRMWARE_REQUEST.

#[export] Instance op_handler_eq_dec : EqDecision op_handler.
Proof. solve_decision. Defined.

Definition op_handler_entries : list (Z * op_handler) := Eval vm_compute in [
  (UACPI_AML_OP "Local0Op", OP_HANDLER_LOCAL); (UACPI_AML_OP "Local1Op", OP_HANDLER_LOCAL);
  (UACPI_AML_OP "Local2Op", OP_HANDLER_LOCAL); (UACPI_AML_OP "Local3Op", OP_HANDLER_LOCAL);
  (UACPI_AML_OP "Local4Op", OP_HANDLER_LOCAL); (UACPI_AML_OP "Local5Op", OP_HANDLER_LOCAL);
  (UACPI_AML_OP "Local6Op", OP_HANDLER_LOCAL); (UACPI_AML_OP "Local7Op", OP_HANDLER_LOCAL);
  (UACPI_AML_OP "Arg0Op", OP_HANDLER_ARG); (UACPI_AML_OP "Arg1Op", OP_HANDLER_ARG);
  (UACPI_AML_OP "Arg2Op", OP_HANDLER_ARG); (UACPI_AML_OP "Arg3Op", OP_HANDLER_ARG);
  (UACPI_AML_OP "Arg4Op", OP_HANDLER_ARG); (UACPI_AML_OP "Arg5Op", OP_HANDLER_ARG);
  (UACPI_AML_OP "Arg6Op", OP_HANDLER_ARG); (UACPI_AML_OP "StringPrefix", OP_HANDLER_STRING);
  (UACPI_AML_OP "AddOp", OP_HANDLER_BINARY_MATH); (UACPI_AML_OP "SubtractOp", OP_HANDLER_BINARY_MATH);
  (UACPI_AML_OP "MultiplyOp", OP_HANDLER_BINARY_MATH); (UACPI_AML_OP "DivideOp", OP_HANDLER_BINARY_MATH);
  (UACPI_AML_OP "ShiftLeftOp", OP_HANDLER_BINARY_MATH); (UACPI_AML_OP "ShiftRightOp", OP_HANDLER_BINARY_MATH);
  (UACPI_AML_OP "AndOp", OP_HANDLER_BINARY_MATH); (UACPI_AML_OP "NandOp", OP_HANDLER_BINARY_MATH);
  (UACPI_AML_OP "OrOp", OP_HANDLER_BINARY_MATH); (UACPI_AML_OP "NorOp", OP_HANDLER_BINARY_MATH);
  (UACPI_AML_OP "XorOp", OP_HANDLER_BINARY_MATH); (UACPI_AML_OP "ModOp", OP_HANDLER_BINARY_MATH);
  (UACPI_AML_OP "IfOp", OP_HANDLER_CODE_BLOCK); (UACPI_AML_OP "ElseOp", OP_HANDLER_CODE_BLOCK);
  (UACPI_AML_OP "WhileOp", OP_HANDLER_CODE_BLOCK); (UACPI_AML_OP "ScopeOp", OP_HANDLER_CODE_BLOCK);
  (UACPI_AML_OP "ContinueOp", OP_HANDLER_CONTROL_FLOW); (UACPI_AML_OP "BreakOp", OP_HANDLER_CONTROL_FLOW);
  (UACPI_AML_OP "ReturnOp", OP_HANDLER_RETURN); (UACPI_AML_OP "MethodOp", OP_HANDLER_CREATE_METHOD);
  (UACPI_AML_OP "StoreOp", OP_HANDLER_COPY_OBJECT_OR_STORE);
  (UACPI_AML_OP "CopyObjectOp", OP_HANDLER_COPY_OBJECT_OR_STORE);
  (UACPI_AML_OP "IncrementOp", OP_HANDLER_INC_DEC); (UACPI_AML_OP "DecrementOp", OP_HANDLER_INC_DEC);
  (UACPI_AML_OP "RefOfOp", OP_HANDLER_REF_OR_DEREF_OF); (UACPI_AML_OP "DerefOfOp", OP_HANDLER_REF_OR_DEREF_OF);
  (UACPI_AML_OP "LnotOp", OP_HANDLER_LOGICAL_NOT); (UACPI_AML_OP "LEqualOp", OP_HANDLER_BINARY_LOGIC);
  (UACPI_AML_OP "LandOp", OP_HANDLER_BINARY_LOGIC); (UACPI_AML_OP "LorOp", OP_HANDLER_BINARY_LOGIC);
  (UACPI_AML_OP "LGreaterOp", OP_HANDLER_BINARY_LOGIC); (UACPI_AML_OP "LLessOp", OP_HANDLER_BINARY_LOGIC);
  (UACPI_AML_OP "InternalOpNamedObject", OP_HANDLER_NAMED_OBJECT); (UACPI_AML_OP "BufferOp", OP_HANDLER_BUFFER);
  (UACPI_AML_OP "PackageOp", OP_HANDLER_PACKAGE); (UACPI_AML_OP "VarPackageOp", OP_HANDLER_PACKAGE);
  (UACPI_AML_OP "NameOp", OP_HANDLER_CREATE_NAMED);
  (UACPI_AML_OP "CreateBitFieldOp", OP_HANDLER_CREATE_BUFFER_FIELD);
  (UACPI_AML_OP "CreateByteFieldOp", OP_HANDLER_CREATE_BUFFER_FIELD);
  (UACPI_AML_OP "CreateWordFieldOp", OP_HANDLER_CREATE_BUFFER_FIELD);
  (UACPI_AML_OP "CreateDWordFieldOp", OP_HANDLER_CREATE_BUFFER_FIELD);
  (UACPI_AML_OP "CreateQWordFieldOp", OP_HANDLER_CREATE_BUFFER_FIELD);
  (UACPI_AML_OP "InternalOpReadFieldAsBuffer", OP_HANDLER_READ_FIELD);
  (UACPI_AML_OP "InternalOpReadFieldAsInteger", OP_HANDLER_READ_FIELD);
  (UACPI_AML_OP "ToIntegerOp", OP_HANDLER_TO); (UACPI_AML_OP "ToBufferOp", OP_HANDLER_TO);
  (UACPI_AML_OP "ToDecimalStringOp", OP_HANDLER_TO); (UACPI_AML_OP "ToHexStringOp", OP_HANDLER_TO);
  (UACPI_AML_OP "ToStringOp", OP_HANDLER_TO_STRING); (UACPI_AML_OP "AliasOp", OP_HANDLER_ALIAS);
  (UACPI_AML_OP "ConcatOp", OP_HANDLER_CONCATENATE); (UACPI_AML_OP "ConcatResOp", OP_HANDLER_CONCATENATE_RES);
  (UACPI_AML_OP "SizeOfOp", OP_HANDLER_SIZEOF); (UACPI_AML_OP "NotOp", OP_HANDLER_UNARY_MATH);
  (UACPI_AML_OP "FindSetLeftBitOp", OP_HANDLER_UNARY_MATH);
  (UACPI_AML_OP "FindSetRightBitOp", OP_HANDLER_UNARY_MATH); (UACPI_AML_OP "IndexOp", OP_HANDLER_INDEX);
  (UACPI_AML_OP "ObjectTypeOp", OP_HANDLER_OBJECT_TYPE); (UACPI_AML_OP "MidOp", OP_HANDLER_MID);
  (UACPI_AML_OP "MatchOp", OP_HANDLER_MATCH); (UACPI_AML_OP "NotifyOp", OP_HANDLER_NOTIFY);
  (UACPI_AML_OP "BreakPointOp", OP_HANDLER_FIRMWARE_REQUEST)
].

Definition ext_op_handler_entries : list (Z * op_handler) := Eval vm_compute in [
  (EXT_OP_IDX (UACPI_AML_OP "CreateFieldOp"), OP_HANDLER_CREATE_BUFFER_FIELD);
  (EXT_OP_IDX (UACPI_AML_OP "CondRefOfOp"), OP_HANDLER_REF_OR_DEREF_OF);
  (EXT_OP_IDX (UACPI_AML_OP "OpRegionOp"), OP_HANDLER_CREATE_OP_REGION);
  (EXT_OP_IDX (UACPI_AML_OP "DeviceOp"), OP_HANDLER_CODE_BLOCK);
  (EXT_OP_IDX (UACPI_AML_OP "ProcessorOp"), OP_HANDLER_CODE_BLOCK);
  (EXT_OP_IDX (UACPI_AML_OP "PowerResOp"), OP_HANDLER_CODE_BLOCK);
  (EXT_OP_IDX (UACPI_AML_OP "ThermalZoneOp"), OP_HANDLER_CODE_BLOCK);
  (EXT_OP_IDX (UACPI_AML_OP "TimerOp"), OP_HANDLER_TIMER);
  (EXT_OP_IDX (UACPI_AML_OP "MutexOp"), OP_HANDLER_CREATE_MUTEX_OR_EVENT);
  (EXT_OP_IDX (UACPI_AML_OP "EventOp"), OP_HANDLER_CREATE_MUTEX_OR_EVENT);
  (EXT_OP_IDX (UACPI_AML_OP "FieldOp"), OP_HANDLER_CREATE_FIELD);
  (EXT_OP_IDX (UACPI_AML_OP "IndexFieldOp"), OP_HANDLER_CREATE_FIELD);
  (EXT_OP_IDX (UACPI_AML_OP "BankFieldOp"), OP_HANDLER_CREATE_FIELD);
  (EXT_OP_IDX (UACPI_AML_OP "FromBCDOp"), OP_HANDLER_BCD);
  (EXT_OP_IDX (UACPI_AML_OP "ToBCDOp"), OP_HANDLER_BCD);
  (EXT_OP_IDX (UACPI_AML_OP "DataRegionOp"), OP_HANDLER_CREATE_DATA_REGION);
  (EXT_OP_IDX (UACPI_AML_OP "LoadTableOp"), OP_HANDLER_LOAD_TABLE);
  (EXT_OP_IDX (UACPI_AML_OP "LoadOp"), OP_HANDLER_LOAD);
  (EXT_OP_IDX (UACPI_AML_OP "UnloadOp"), OP_HANDLER_UNLOAD);
  (EXT_OP_IDX (UACPI_AML_OP "StallOp"), OP_HANDLER_STALL_OR_SLEEP);
  (EXT_OP_IDX (UACPI_AML_OP "SleepOp"), OP_HANDLER_STALL_OR_SLEEP);
  (EXT_OP_IDX (UACPI_AML_OP "SignalOp"), OP_HANDLER_EVENT_CTL);
  (EXT_OP_IDX (UACPI_AML_OP "ResetOp"), OP_HANDLER_EVENT_CTL);
  (EXT_OP_IDX (UACPI_AML_OP "WaitOp"), OP_HANDLER_EVENT_CTL);
  (EXT_OP_IDX (UACPI_AML_OP "AcquireOp"), OP_HANDLER_MUTEX_CTL);
  (EXT_OP_IDX (UACPI_AML_OP "ReleaseOp"), OP_HANDLER_MUTEX_CTL);
  (EXT_OP_IDX (UACPI_AML_OP "FatalOp"), OP_HANDLER_FIRMWARE_REQUEST)
].

Definition handler_of (entries : list (Z * op_handler)) (i : Z) : op_handler :=
  match list_find (λ p, fst p = i) entries with Some (_, (_, h)) => h | None => OP_HANDLER_UNINSTALLED end.

Definition handler_idx_of_op (code : Z) : op_handler := handler_of op_handler_entries code.
Definition handler_idx_of_ext_op (i : Z) : op_handler := handler_of ext_op_handler_entries i.

(** What a handler reads of an item. *)
Inductive want := WObj | WNode | WPkg | WImm.

Definition wanted (w : want) (c : content) : bool :=
  match w, c with
  | WObj, Obj | WNode, Node | WPkg, Pkg | WImm, Bits _ => true
  | _, _ => false
  end.


(** The items a handler reads, by index or, for [None], the last one.  The
    elements of a package and of a field list, which [handle_package] and
    [handle_create_field] go through in a loop, are not among them. *)
Definition package_reads (code : Z) : list (option nat * want) :=
  [(None, WObj); (Some 1%nat, if code =? UACPI_AML_OP_VarPackageOp then WObj else WImm)].

Definition create_field_reads (code : Z) : list (option nat * want) :=
  if code =? UACPI_AML_OP_FieldOp then [(Some 1, WNode); (Some 2, WImm)]%nat
  else if code =? UACPI_AML_OP_BankFieldOp then [(Some 1, WNode); (Some 2, WNode); (Some 3, WObj); (Some 4, WImm)]%nat
  else [(Some 1, WNode); (Some 2, WNode); (Some 3, WImm)]%nat.

Definition load_table_reads (size : nat) : list (option nat * want) :=
  if decide (size = 12)%nat then [(Some 2, WImm); (Some 11, WObj)]%nat
  else [(Some 5, WObj); (Some 6, WObj); (Some 7, WObj); (Some 8, WObj); (Some 9, WObj); (Some 2, WImm); (Some 1, WObj)]%nat.

Definition load_reads (size : nat) : list (option nat * want) :=
  if decide (size = 5)%nat then [(Some 4, WObj)]%nat else [(Some 2, WObj); (Some 1, WObj)]%nat.

(** Blocks: [create_named_scope] for the four named ones, then
    [begin_block_execution]. *)
Definition code_block_reads (code : Z) : list (option nat * want) :=
  (Some 0%nat, WPkg) ::
  if (code =? UACPI_AML_OP_IfOp) || (code =? UACPI_AML_OP_ElseOp) || (code =? UACPI_AML_OP_WhileOp) then []
  else (Some 1%nat, WNode) ::
    if code =? UACPI_AML_OP_ScopeOp then []
    else (None, WObj) ::
      if code =? UACPI_AML_OP_ProcessorOp then [(Some 2, WImm); (Some 3, WImm); (Some 4, WImm)]%nat
      else if code =? UACPI_AML_OP_PowerResOp then [(Some 2, WImm); (Some 3, WImm)]%nat else [].

Definition handler_reads (h : op_handler) (code : Z) (size : nat) : list (option nat * want) :=
  match h with
  | OP_HANDLER_BUFFER => [(Some 2, WImm); (Some 0, WPkg); (Some 1, WObj); (Some 3, WObj)]%nat
  | OP_HANDLER_STRING => [(None, WObj)]
  | OP_HANDLER_PACKAGE => package_reads code
  | OP_HANDLER_NAMED_OBJECT => [(Some 0, WNode)]%nat
  | OP_HANDLER_ALIAS => [(Some 0, WNode); (Some 1, WNode)]%nat
  | OP_HANDLER_CREATE_OP_REGION => [(Some 0, WNode); (Some 4, WObj); (Some 1, WImm); (Some 2, WObj); (Some 3, WObj)]%nat
  | OP_HANDLER_CREATE_DATA_REGION => [(Some 0, WNode); (Some 1, WObj); (Some 2, WObj); (Some 3, WObj); (Some 4, WObj)]%nat
  | OP_HANDLER_LOAD_TABLE => load_table_reads size
  | OP_HANDLER_LOAD => load_reads size
  | OP_HANDLER_CREATE_FIELD => create_field_reads code
  | OP_HANDLER_CODE_BLOCK => code_block_reads code
  | OP_HANDLER_REF_OR_DEREF_OF => 
      [(Some 0, WObj); (Some (if (code =? UACPI_AML_OP_CondRefOfOp)%Z then 2 else 1), WObj)]%nat
  | OP_HANDLER_BINARY_MATH =>
      if code =? UACPI_AML_OP_DivideOp then [(Some 0, WObj); (Some 1, WObj); (Some 4, WObj); (Some 5, WObj)]%nat
      else [(Some 0, WObj); (Some 1, WObj); (Some 3, WObj)]%nat
  | OP_HANDLER_UNARY_MATH | OP_HANDLER_TO | OP_HANDLER_BCD => [(Some 0, WObj); (Some 2, WObj)]%nat
  | OP_HANDLER_INDEX => [(Some 0, WObj); (Some 1, WObj)]%nat
  | OP_HANDLER_TO_STRING | OP_HANDLER_CONCATENATE | OP_HANDLER_CONCATENATE_RES => [(Some 0, WObj); (Some 1, WObj); (Some 3, WObj)]%nat
  | OP_HANDLER_MID => [(Some 0, WObj); (Some 1, WObj); (Some 2, WObj); (Some 4, WObj)]%nat
  | OP_HANDLER_SIZEOF | OP_HANDLER_OBJECT_TYPE | OP_HANDLER_LOGICAL_NOT | OP_HANDLER_INC_DEC
  | OP_HANDLER_COPY_OBJECT_OR_STORE => [(Some 0, WObj); (Some 1, WObj)]%nat
  | OP_HANDLER_TIMER | OP_HANDLER_STALL_OR_SLEEP | OP_HANDLER_RETURN => [(Some 0, WObj)]%nat
  | OP_HANDLER_BINARY_LOGIC => [(Some 0, WObj); (Some 1, WObj); (Some 2, WObj)]%nat
  | OP_HANDLER_MATCH => [(Some 0, WObj); (Some 1, WImm); (Some 2, WObj); (Some 3, WImm); (Some 4, WObj); (Some 5, WObj); (Some 6, WObj)]%nat
  | OP_HANDLER_CREATE_METHOD => [(Some 0, WPkg); (Some 1, WNode); (Some 3, WImm); (Some 4, WObj); (Some 2, WImm)]%nat
  | OP_HANDLER_CREATE_MUTEX_OR_EVENT =>
      if code =? UACPI_AML_OP_MutexOp then [(Some 0, WNode); (Some 2, WObj); (Some 1, WImm)]%nat else [(Some 0, WNode); (Some 1, WObj)]%nat
  | OP_HANDLER_EVENT_CTL =>
      if code =? UACPI_AML_OP_WaitOp then [(Some 0, WObj); (Some 1, WObj); (Some 2, WObj)]%nat else [(Some 0, WObj)]%nat
  | OP_HANDLER_MUTEX_CTL =>
      if code =? UACPI_AML_OP_AcquireOp then [(Some 0, WObj); (Some 2, WObj); (Some 1, WImm)]%nat else [(Some 0, WObj)]%nat
  | OP_HANDLER_NOTIFY => [(Some 0, WNode); (Some 1, WObj)]%nat
  | OP_HANDLER_FIRMWARE_REQUEST =>
      if code =? UACPI_AML_OP_FatalOp then [(Some 0, WImm); (Some 1, WImm); (Some 2, WObj)]%nat else []
  | OP_HANDLER_CREATE_NAMED => [(Some 0, WNode); (Some 1, WObj)]%nat
  | OP_HANDLER_READ_FIELD => [(Some 0, WNode); (Some 1, WObj)]%nat
  | OP_HANDLER_CREATE_BUFFER_FIELD =>
      if code =? UACPI_AML_OP_CreateFieldOp then [(Some 0, WObj); (Some 1, WObj); (Some 2, WObj); (Some 3, WNode); (Some 4, WObj)]%nat
      else [(Some 0, WObj); (Some 1, WObj); (Some 2, WNode); (Some 3, WObj)]%nat
  | OP_HANDLER_LOCAL | OP_HANDLER_ARG | OP_HANDLER_CONTROL_FLOW | OP_HANDLER_UNLOAD | OP_HANDLER_UNINSTALLED => []
  end.

(** ** Classes of parse operations *)

Definition op_wants_supername (op : Z) : bool :=
  match parse_op_of op with
  | Some (UACPI_PARSE_OP_SIMPLE_NAME | UACPI_PARSE_OP_SUPERNAME | UACPI_PARSE_OP_SUPERNAME_OR_UNRESOLVED
         | UACPI_PARSE_OP_TARGET) => true
  | _ => false
  end.

Definition op_wants_term_arg_or_operand (op : Z) : bool :=
  match parse_op_of op with
  | Some (UACPI_PARSE_OP_TERM_ARG | UACPI_PARSE_OP_TERM_ARG_UNWRAP_INTERNAL | UACPI_PARSE_OP_OPERAND
         | UACPI_PARSE_OP_STRING | UACPI_PARSE_OP_COMPUTATIONAL_DATA) => true
  | _ => false
  end.

Definition op_allows_unresolved (op : Z) : bool :=
  match parse_op_of op with
  | Some (UACPI_PARSE_OP_SUPERNAME_OR_UNRESOLVED | UACPI_PARSE_OP_TERM_ARG_OR_NAMED_OBJECT_OR_UNRESOLVED
         | UACPI_PARSE_OP_EXISTING_NAMESTRING_OR_NULL) => true
  | _ => false
  end.

Definition op_allows_unresolved_if_load (op : uacpi_parse_op) : bool :=
  match op with
  | UACPI_PARSE_OP_CREATE_NAMESTRING_OR_NULL_IF_LOAD | UACPI_PARSE_OP_EXISTING_NAMESTRING_OR_NULL_IF_LOAD => true
  | _ => false
  end.

(** The status for an argument with properties [props] where the preempted
    context is at the operation [b]. *)
Definition op_typecheck (b props : Z) : uacpi_status :=
  let check ok_mask :=
    if Z.land props ok_mask =? 0 then UACPI_STATUS_AML_INCOMPATIBLE_OBJECT_TYPE else UACPI_STATUS_OK in
  match parse_op_of b with
  | Some UACPI_PARSE_OP_SIMPLE_NAME => check UACPI_OP_PROPERTY_SIMPLE_NAME
  | Some UACPI_PARSE_OP_TARGET => check (Z.lor UACPI_OP_PROPERTY_TARGET UACPI_OP_PROPERTY_SUPERNAME)
  | Some (UACPI_PARSE_OP_SUPERNAME | UACPI_PARSE_OP_SUPERNAME_OR_UNRESOLVED) => check UACPI_OP_PROPERTY_SUPERNAME
  | Some (UACPI_PARSE_OP_TERM_ARG | UACPI_PARSE_OP_TERM_ARG_UNWRAP_INTERNAL | UACPI_PARSE_OP_TERM_ARG_OR_NAMED_OBJECT
         | UACPI_PARSE_OP_TERM_ARG_OR_NAMED_OBJECT_OR_UNRESOLVED | UACPI_PARSE_OP_OPERAND | UACPI_PARSE_OP_STRING
         | UACPI_PARSE_OP_COMPUTATIONAL_DATA) => check UACPI_OP_PROPERTY_TERM_ARG
  | _ => UACPI_STATUS_INVALID_ARGUMENT
  end.

(** ** The operations *)

Definition op_spec (code : Z) : option uacpi_op_spec :=
  match uacpi_get_op_spec code with Ok spec => Some spec | _ => None end.

Section operations.
Context {I : Type} `{ItemArray I}.

Local Abbreviation ctx := (op_context I).

Definition with_pc (v : Z) (c : ctx) : ctx :=
  MkCtx v (preempted c) (tracked_pkg_idx c) (switched_from c) (items c) (ctx_op c).
Definition with_preempted (b : bool) (c : ctx) : ctx :=
  MkCtx (pc c) b (tracked_pkg_idx c) (switched_from c) (items c) (ctx_op c).
Definition with_tracked (v : Z) (c : ctx) : ctx :=
  MkCtx (pc c) (preempted c) v (switched_from c) (items c) (ctx_op c).
Definition with_switched_from (v : Z) (c : ctx) : ctx :=
  MkCtx (pc c) (preempted c) (tracked_pkg_idx c) v (items c) (ctx_op c).
Definition with_items (its : I) (c : ctx) : ctx :=
  MkCtx (pc c) (preempted c) (tracked_pkg_idx c) (switched_from c) its (ctx_op c).

(** The program counter has 8 bits. *)
Definition skip (n : Z) (c : ctx) : ctx := with_pc (u8 (pc c + n)) c.

Definition op_decode_cursor (c : ctx) : option Z :=
  match program (ctx_op c) with Inline l | OutOfLine l => l !! Z.to_nat (pc c) end.

Definition op_decode_byte (c : ctx) : option (Z * ctx) :=
  b ← op_decode_cursor c; Some (b, skip 1 c).

Definition op_decode_aml_op (c : ctx) : option (Z * ctx) :=
  '(lo, c) ← op_decode_byte c;
  '(hi, c) ← op_decode_byte c;
  Some (Z.lor lo (Z.shiftl hi 8), c).

(** The item at an index of the program, or the one [item] points to. *)
Definition item_array_at (i : Z) (c : ctx) : option item := items_at (Z.to_nat i) (items c).

Definition the_item (p : item_ptr) (c : ctx) : option item :=
  match p with
  | NoItem => None
  | LastItem => items_last (items c)
  | ItemAt i => items_at i (items c)
  | Stale it => Some it
  end.

(** Storing through [item]; a removed context is not written to. *)
Definition set_the_item (p : item_ptr) (it : item) (c : ctx) : option ctx :=
  match p with
  | LastItem => its ← items_set_last it (items c); Some (with_items its c)
  | ItemAt i => its ← items_set i it (items c); Some (with_items its c)
  | NoItem | Stale _ => None
  end.

Definition require_kind (w : want) (it : item) : option unit := if wanted w (holds it) then Some tt else None.

Definition pop_item (c : ctx) : option ctx :=
  it ← items_last (items c);
  if releasable it then its ← items_pop (items c); Some (with_items its c) else None.

(** The package length that ends the instruction has to be one. *)
Definition apply_tracked_pkg (c : ctx) : option unit :=
  if tracked_pkg_idx c =? 0 then Some tt
  else it ← item_array_at (tracked_pkg_idx c - 1) c; require_kind WPkg it.

(** [ret] at the top of the next iteration. *)
Definition continue_with (ret : uacpi_status) (c : ctx) (p : item_ptr) : effect I :=
  if is_error ret then Error ret else Continue c p false.

Definition exec_end (c : ctx) : option (effect I) := _ ← apply_tracked_pkg c; Some Finish.

Definition exec_skip_if_null (a : answer) (p : item_ptr) (c : ctx) : option (effect I) :=
  '(idx, c) ← op_decode_byte c;
  it ← item_array_at idx c;
  null ← is_null (a_test a) (holds it);
  if null : bool then exec_end c else Some (Continue c p false).

(** The context stays at the operation until the argument is there. *)
Definition exec_preempt (c : ctx) : option (effect I) := Some (Preempt (with_preempted true (skip (-1) c))).

(** An item that [item] points to is read, or changed. *)
Definition reading (w : want) (p : item_ptr) (c : ctx) : option unit := it ← the_item p c; require_kind w it.

Definition storing (v : content) (p : item_ptr) (c : ctx) : option ctx :=
  it ← the_item p c; set_the_item p (MkItem (type_of it) v) c.

Definition exec_pkglen (a : answer) (p : item_ptr) (c : ctx) : option (effect I) :=
  c ← storing Pkg p c; Some (continue_with (a_status a) c p).

Definition exec_tracked_pkglen (a : answer) (p : item_ptr) (c : ctx) : option (effect I) :=
  n ← items_size (items c); exec_pkglen a p (with_tracked (u8 (Z.of_nat n)) c).

(** The bytes of an inline immediate, little endian. *)
Fixpoint inline_value (n : nat) (c : ctx) : option (Z * ctx) :=
  match n with
  | O => Some (0, c)
  | S n' => '(b, c) ← op_decode_byte c; '(v, c) ← inline_value n' c; Some (b + 256 * v, c)
  end.

Definition exec_load_inline_imm (p : item_ptr) (c : ctx) : option (effect I) :=
  '(src_width, c) ← op_decode_byte c;
  '(v, c) ← inline_value (Z.to_nat src_width) c;
  c ← storing (Bits (Some v)) p c;
  Some (Continue c p false).

Definition exec_load_inline_imm_as_object (p : item_ptr) (c : ctx) : option (effect I) :=
  _ ← reading WObj p c;
  '(_, c) ← inline_value 8 c;
  Some (Continue c p false).

(** The destination has eight bytes; the test is whether the code is long
    enough. *)
Definition exec_load_imm (as_object : bool) (a : answer) (p : item_ptr) (c : ctx) : option (effect I) :=
  '(width, c) ← op_decode_byte c;
  if negb (a_test a) then Some (Error UACPI_STATUS_AML_BAD_ENCODING)
  else if 8 <? width then None
  else if as_object then _ ← reading WObj p c; Some (Continue c p false)
  else c ← storing (Bits None) p c; Some (Continue c p false).

(** An object is changed in place. *)
Definition exec_object (p : item_ptr) (c : ctx) : option (effect I) :=
  _ ← reading WObj p c; Some (Continue c p false).

Definition exec_record_aml_pc (p : item_ptr) (c : ctx) : option (effect I) :=
  c ← storing (Bits None) p c; Some (Continue c p false).

Definition exec_typecheck (a : answer) (p : item_ptr) (c : ctx) : option (effect I) :=
  '(_, c) ← op_decode_byte c;
  _ ← reading WObj p c;
  Some (if a_test a then Continue c p false else Error UACPI_STATUS_AML_INCOMPATIBLE_OBJECT_TYPE).

Definition exec_imm_decrement (p : item_ptr) (c : ctx) : option (effect I) :=
  '(idx, c) ← op_decode_byte c;
  it ← item_array_at idx c;
  match holds it with
  | Bits v =>
      its ← items_set (Z.to_nat idx) (MkItem (type_of it) (Bits ((λ v, u64 (v - 1)) <$> v))) (items c);
      Some (Continue (with_items its c) p false)
  | _ => None
  end.

Definition exec_item_pop (c : ctx) : option (effect I) := c ← pop_item c; Some (Continue c LastItem false).

Definition exec_if_has_data (a : answer) (p : item_ptr) (c : ctx) : option (effect I) :=
  '(bytes_skip, c) ← op_decode_byte c;
  if tracked_pkg_idx c =? 0 then None
  else
    it ← item_array_at (tracked_pkg_idx c - 1) c;
    _ ← require_kind WPkg it;
    Some (Continue (if a_test a then c else skip bytes_skip c) p false).

(** The operations that look at a pointer, of the last item or of one that is
    named. *)
Definition if_null (skip_if_null : bool) (a : answer) (it : item) (p : item_ptr) (c : ctx) : option (effect I) :=
  null ← is_null (a_test a) (holds it);
  '(bytes_skip, c) ← op_decode_byte c;
  Some (Continue (if eqb null skip_if_null then skip bytes_skip c else c) p false).

Definition exec_if_last_null (skip_if_null : bool) (a : answer) (p : item_ptr) (c : ctx) : option (effect I) :=
  it ← the_item p c; if_null skip_if_null a it p c.

Definition exec_if_null (skip_if_null : bool) (a : answer) (p : item_ptr) (c : ctx) : option (effect I) :=
  '(idx, c) ← op_decode_byte c;
  it ← item_array_at idx c;
  if_null skip_if_null a it p c.

Definition exec_if_last_equals (a : answer) (p : item_ptr) (c : ctx) : option (effect I) :=
  '(value, c) ← op_decode_byte c;
  '(bytes_skip, c) ← op_decode_byte c;
  it ← the_item p c;
  match holds it with
  | Bits v =>
      let equal := match v with Some v => v =? value | None => a_test a end in
      Some (Continue (if equal then c else skip bytes_skip c) p false)
  | _ => None
  end.

(** The test is whether the integer is zero. *)
Definition exec_if_last_false (skip_if_false : bool) (a : answer) (p : item_ptr) (c : ctx) : option (effect I) :=
  '(bytes_skip, c) ← op_decode_byte c;
  _ ← reading WObj p c;
  Some (Continue (if eqb (a_test a) skip_if_false then skip bytes_skip c else c) p false).

Definition exec_jmp (p : item_ptr) (c : ctx) : option (effect I) :=
  '(target, c) ← op_decode_byte c; Some (Continue (with_pc target c) p false).

(** A name is looked up or created.  [abortable] says that the first pending
    instruction is a condition.  The node is null when there is an error. *)
Definition exec_namestring (a : answer) (persist abortable : bool) (prev_op : Z) (op : uacpi_parse_op)
    (p : item_ptr) (c : ctx) : option (effect I) :=
  let create :=
    bool_decide (op = UACPI_PARSE_OP_CREATE_NAMESTRING ∨ op = UACPI_PARSE_OP_CREATE_NAMESTRING_OR_NULL_IF_LOAD) in
  let ret := a_status a in
  c ← storing (if is_error ret then null else Node) p c;
  let is_ok :=
    if prev_op =? 0 then op_code (ctx_op c) =? UACPI_AML_OP_ExternalOp
    else op_allows_unresolved prev_op && op_allows_unresolved (parse_op_value op) in
  let unresolved := bool_decide (ret = UACPI_STATUS_NOT_FOUND) in
  let ret := if unresolved && is_ok then UACPI_STATUS_OK else ret in
  let excusable :=
    persist && bool_decide (ret = UACPI_STATUS_AML_OBJECT_ALREADY_EXISTS ∨ ret = UACPI_STATUS_NOT_FOUND) in
  if excusable && abortable then Some (AbortCondition p)
  else
    let ret := if excusable && op_allows_unresolved_if_load op then UACPI_STATUS_OK else ret in
    let ret := if bool_decide (ret = UACPI_STATUS_NOT_FOUND) then UACPI_STATUS_AML_UNDEFINED_REFERENCE else ret in
    if create && negb persist then
      _ ← reading WNode p c;
      Some (continue_with ret c p)
    else Some (continue_with ret c p).

Definition reads_ok (c : ctx) (l : list (option nat * want)) : bool :=
  forallb (λ r, match match fst r with Some i => items_at i (items c) | None => items_last (items c) end with
                | Some it => wanted (snd r) (holds it)
                | None => false
                end) l.

Definition set_item (i : nat) (it : item) (c : ctx) : option ctx :=
  its ← items_set i it (items c); Some (with_items its c).

(** What handlers change of the context: [handle_arg_or_local],
    [handle_named_object] and [handle_index] put an object into an item, the
    table loads the node and the target, and [begin_block_execution] disarms
    the tracked package. *)
Definition handler_effect (a : answer) (h : op_handler) (size : nat) (c : ctx) : option ctx :=
  match h with
  | OP_HANDLER_LOCAL | OP_HANDLER_ARG =>
      its ← items_set_last (MkItem ITEM_OBJECT Obj) (items c); Some (with_items its c)
  | OP_HANDLER_NAMED_OBJECT => set_item 1 (MkItem ITEM_OBJECT Obj) c
  | OP_HANDLER_INDEX => set_item 3 (MkItem ITEM_OBJECT Obj) c
  | OP_HANDLER_LOAD_TABLE =>
      it3 ← items_at 3 (items c);
      it2 ← items_at 2 (items c);
      if decide (size = 12)%nat then if a_test a then set_item 3 (MkItem (type_of it3) null) c else Some c
      else
        c ← set_item 0 (MkItem ITEM_NAMESPACE_NODE Node) c;
        c ← (if a_test a then set_item 3 (MkItem ITEM_OBJECT Obj) c else Some c);
        set_item 2 (MkItem (type_of it2) (Bits None)) c
  | OP_HANDLER_LOAD =>
      it0 ← items_at 0 (items c);
      if decide (size = 5)%nat then Some c
      else if a_test a then set_item 0 (MkItem (type_of it0) Node) c else Some c
  | OP_HANDLER_CODE_BLOCK => Some (with_tracked 0 c)
  | _ => Some c
  end.

Definition handler_counts (h : op_handler) : bool :=
  match h with OP_HANDLER_LOAD_TABLE | OP_HANDLER_LOAD => true | _ => false end.

Definition exec_install (a : answer) (c : ctx) : option (effect I) :=
  '(idx, c) ← op_decode_byte c;
  it ← item_array_at idx c;
  _ ← require_kind WNode it;
  if is_error (a_status a) then Some (Error (a_status a))
  else c ← set_item (Z.to_nat idx) (MkItem (type_of it) null) c; Some (Continue c (ItemAt (Z.to_nat idx)) false).

Definition exec_invoke (a : answer) (p : item_ptr) (c : ctx) : option (effect I) :=
  let code := op_code (ctx_op c) in
  let h := if code <=? 0xFF then handler_idx_of_op code else handler_idx_of_ext_op (EXT_OP_IDX code) in
  if bool_decide (h = OP_HANDLER_UNINSTALLED) then Some (Error UACPI_STATUS_UNIMPLEMENTED)
  else
    size ← (if handler_counts h then items_size (items c) else Some 0%nat);
    if reads_ok c (handler_reads h code size) then
      c ← handler_effect a h size c;
      Some (continue_with (a_status a) c p)
    else None.

(** The object goes to the last item of the previous context, [None] if the
    operation there does not take one, [Some true] if its type is checked. *)
Definition transfers (prev_op : Z) : option bool :=
  match parse_op_of prev_op with
  | Some (UACPI_PARSE_OP_COMPUTATIONAL_DATA | UACPI_PARSE_OP_OPERAND | UACPI_PARSE_OP_STRING) => Some true
  | Some (UACPI_PARSE_OP_TERM_ARG_UNWRAP_INTERNAL | UACPI_PARSE_OP_SUPERNAME
         | UACPI_PARSE_OP_SUPERNAME_OR_UNRESOLVED | UACPI_PARSE_OP_SIMPLE_NAME | UACPI_PARSE_OP_TERM_ARG
         | UACPI_PARSE_OP_TERM_ARG_OR_NAMED_OBJECT | UACPI_PARSE_OP_TERM_ARG_OR_NAMED_OBJECT_OR_UNRESOLVED
         | UACPI_PARSE_OP_TARGET) => Some false
  | _ => None
  end.

Definition exec_transfer (copy : bool) (a : answer) (has_prev : bool) (prev_op : Z) (p : item_ptr) (c : ctx) :
    option (effect I) :=
  if negb has_prev then Some (Continue c p false)
  else
    match transfers prev_op with
    | None => Some (Error UACPI_STATUS_INVALID_ARGUMENT)
    | Some checked =>
        _ ← reading WObj p c;
        if checked && negb (a_test a) then Some (Error UACPI_STATUS_AML_INCOMPATIBLE_OBJECT_TYPE)
        else if copy && negb (a_memory a) then Some (Error UACPI_STATUS_OUT_OF_MEMORY)
        else if copy && is_error (a_status a) then Some (Error (a_status a))
        else Some (Continue c p true)
    end.

Definition exec_store_to_target (a : answer) (p : item_ptr) (c : ctx) : option (effect I) :=
  '(idx, c) ← op_decode_byte c;
  dst ← item_array_at idx c;
  _ ← require_kind WObj dst;
  _ ← reading WObj p c;
  Some (continue_with (a_status a) c p).

Definition exec_store_to_target_indirect (a : answer) (p : item_ptr) (c : ctx) : option (effect I) :=
  '(idx, c) ← op_decode_byte c;
  dst ← item_array_at idx c;
  _ ← require_kind WObj dst;
  '(idx, c) ← op_decode_byte c;
  src ← item_array_at idx c;
  _ ← require_kind WObj src;
  Some (continue_with (a_status a) c p).

(** The object that was allocated takes the place of the one before it. *)
Definition exec_convert_to_copy (a : answer) (p : item_ptr) (c : ctx) : option (effect I) :=
  _ ← reading WObj p c;
  its ← items_pop (items c);
  it ← items_last its;
  _ ← require_kind WObj it;
  its ← items_set_last (MkItem (type_of it) Obj) its;
  Some (continue_with (a_status a) (with_items its c) LastItem).

(** The arguments of a call are the items from the third to the last but one;
    the last item takes the result. *)
Definition exec_dispatch (method : bool) (a : answer) (c : ctx) : option (effect I) :=
  size ← items_size (items c);
  let reads : list (option nat * want) :=
    if method then (Some 0%nat, WNode) :: (None, WObj) :: ((λ i, (Some i, WObj)) <$> seq 2 (size - 3))
    else [(Some 0, WNode); (Some 1, WObj); (None, WObj)]%nat in
  if reads_ok c reads then Some (if is_error (a_status a) then Error (a_status a) else Dispatch c) else None.

(** The context starts over with another program. *)
Definition switch_op (code : Z) (p : item_ptr) (c : ctx) : option (effect I) :=
  spec ← op_spec code;
  Some (Continue (MkCtx 0 (preempted c) (tracked_pkg_idx c) (switched_from c) (items c) spec) p false).

Definition exec_convert_namestring (a : answer) (prev_op : Z) (p : item_ptr) (c : ctx) : option (effect I) :=
  it ← the_item p c;
  match holds it with
  | Node =>
      if a_type a =? UACPI_OBJECT_METHOD then
        let should_invoke :=
          match parse_op_of prev_op with
          | Some (UACPI_PARSE_OP_TERM_ARG_OR_NAMED_OBJECT | UACPI_PARSE_OP_TERM_ARG_OR_NAMED_OBJECT_OR_UNRESOLVED) => false
          | _ => negb (op_wants_supername prev_op)
          end in
        switch_op (if should_invoke then UACPI_AML_OP_InternalOpMethodCall0Args + a_args a
                   else UACPI_AML_OP_InternalOpNamedObject) p c
      else if ((a_type a =? UACPI_OBJECT_BUFFER_FIELD) || (a_type a =? UACPI_OBJECT_FIELD_UNIT))
              && op_wants_term_arg_or_operand prev_op then
        if is_error (a_status a) then Some (Error (a_status a))
        else if a_read_type a =? UACPI_OBJECT_BUFFER then switch_op UACPI_AML_OP_InternalOpReadFieldAsBuffer p c
        else if a_read_type a =? UACPI_OBJECT_INTEGER then switch_op UACPI_AML_OP_InternalOpReadFieldAsInteger p c
        else Some (Error UACPI_STATUS_INVALID_ARGUMENT)
      else switch_op UACPI_AML_OP_InternalOpNamedObject p c
  | Bits (Some 0) =>
      Some (if op_allows_unresolved prev_op then Continue c p false else Error UACPI_STATUS_NOT_FOUND)
  | _ => None
  end.

(** Whether the instruction after the package is the one looked for depends on
    the AML code. *)
Definition exec_switch_to_next (a : answer) (p : item_ptr) (c : ctx) : option (effect I) :=
  _ ← apply_tracked_pkg c;
  '(target_op, c) ← op_decode_aml_op c;
  if a_test a then switch_op target_op p (with_switched_from (op_code (ctx_op c)) c) else Some (Continue c p false).

Definition exec_if_switched_from (p : item_ptr) (c : ctx) : option (effect I) :=
  '(target_op, c) ← op_decode_aml_op c;
  '(skip_bytes, c) ← op_decode_byte c;
  Some (Continue (if switched_from c =? target_op then c else skip skip_bytes c) p false).

(** The item an operation generates. *)
Definition generate (a : answer) (it : item) (c : ctx) : uacpi_status + item_ptr * ctx :=
  if a_memory a then inr (LastItem, with_items (items_push it (items c)) c) else inl UACPI_STATUS_OUT_OF_MEMORY.

Definition alloc_item (a : answer) (op : uacpi_parse_op) (p : item_ptr) (c : ctx) :
    option (uacpi_status + item_ptr * ctx) :=
  match parse_op_generates_item op with
  | ITEM_NONE => Some (inr (match p with NoItem => LastItem | _ => p end, c))
  | ITEM_OBJECT =>
      c ← (if bool_decide (op = UACPI_PARSE_OP_OBJECT_ALLOC_TYPED) then '(_, c) ← op_decode_byte c; Some c else Some c);
      Some (generate a (MkItem ITEM_OBJECT Obj) c)
  | t => Some (generate a (MkItem t null) c)
  end.

(** ** The loop of [exec_op] *)

Definition exec_parse_op (a : answer) (persist abortable has_prev : bool) (prev_op : Z) (op : uacpi_parse_op)
    (p : item_ptr) (c : ctx) : option (effect I) :=
  match op with
  | UACPI_PARSE_OP_END => exec_end c
  | UACPI_PARSE_OP_SKIP_WITH_WARN_IF_NULL => exec_skip_if_null a p c
  | UACPI_PARSE_OP_SIMPLE_NAME | UACPI_PARSE_OP_SUPERNAME | UACPI_PARSE_OP_SUPERNAME_OR_UNRESOLVED
  | UACPI_PARSE_OP_TERM_ARG | UACPI_PARSE_OP_TERM_ARG_UNWRAP_INTERNAL | UACPI_PARSE_OP_TERM_ARG_OR_NAMED_OBJECT
  | UACPI_PARSE_OP_TERM_ARG_OR_NAMED_OBJECT_OR_UNRESOLVED | UACPI_PARSE_OP_OPERAND | UACPI_PARSE_OP_STRING
  | UACPI_PARSE_OP_COMPUTATIONAL_DATA | UACPI_PARSE_OP_TARGET => exec_preempt c
  | UACPI_PARSE_OP_TRACKED_PKGLEN => exec_tracked_pkglen a p c
  | UACPI_PARSE_OP_PKGLEN => exec_pkglen a p c
  | UACPI_PARSE_OP_LOAD_INLINE_IMM => exec_load_inline_imm p c
  | UACPI_PARSE_OP_LOAD_INLINE_IMM_AS_OBJECT => exec_load_inline_imm_as_object p c
  | UACPI_PARSE_OP_LOAD_IMM => exec_load_imm false a p c
  | UACPI_PARSE_OP_LOAD_IMM_AS_OBJECT => exec_load_imm true a p c
  | UACPI_PARSE_OP_LOAD_FALSE_OBJECT | UACPI_PARSE_OP_LOAD_TRUE_OBJECT | UACPI_PARSE_OP_TRUNCATE_NUMBER => exec_object p c
  | UACPI_PARSE_OP_RECORD_AML_PC => exec_record_aml_pc p c
  | UACPI_PARSE_OP_TYPECHECK => exec_typecheck a p c
  | UACPI_PARSE_OP_BAD_OPCODE | UACPI_PARSE_OP_UNREACHABLE => Some (Error UACPI_STATUS_AML_INVALID_OPCODE)
  | UACPI_PARSE_OP_IMM_DECREMENT => exec_imm_decrement p c
  | UACPI_PARSE_OP_ITEM_POP => exec_item_pop c
  | UACPI_PARSE_OP_IF_HAS_DATA => exec_if_has_data a p c
  | UACPI_PARSE_OP_IF_NULL => exec_if_null false a p c
  | UACPI_PARSE_OP_IF_NOT_NULL => exec_if_null true a p c
  | UACPI_PARSE_OP_IF_LAST_NULL => exec_if_last_null false a p c
  | UACPI_PARSE_OP_IF_LAST_NOT_NULL => exec_if_last_null true a p c
  | UACPI_PARSE_OP_IF_LAST_EQUALS => exec_if_last_equals a p c
  | UACPI_PARSE_OP_IF_LAST_FALSE => exec_if_last_false false a p c
  | UACPI_PARSE_OP_IF_LAST_TRUE => exec_if_last_false true a p c
  | UACPI_PARSE_OP_JMP => exec_jmp p c
  | UACPI_PARSE_OP_CREATE_NAMESTRING | UACPI_PARSE_OP_CREATE_NAMESTRING_OR_NULL_IF_LOAD
  | UACPI_PARSE_OP_EXISTING_NAMESTRING | UACPI_PARSE_OP_EXISTING_NAMESTRING_OR_NULL
  | UACPI_PARSE_OP_EXISTING_NAMESTRING_OR_NULL_IF_LOAD => exec_namestring a persist abortable prev_op op p c
  | UACPI_PARSE_OP_INVOKE_HANDLER => exec_invoke a p c
  | UACPI_PARSE_OP_INSTALL_NAMESPACE_NODE => exec_install a c
  | UACPI_PARSE_OP_OBJECT_TRANSFER_TO_PREV => exec_transfer false a has_prev prev_op p c
  | UACPI_PARSE_OP_OBJECT_COPY_TO_PREV => exec_transfer true a has_prev prev_op p c
  | UACPI_PARSE_OP_STORE_TO_TARGET => exec_store_to_target a p c
  | UACPI_PARSE_OP_STORE_TO_TARGET_INDIRECT => exec_store_to_target_indirect a p c
  | UACPI_PARSE_OP_OBJECT_CONVERT_TO_SHALLOW_COPY | UACPI_PARSE_OP_OBJECT_CONVERT_TO_DEEP_COPY =>
      exec_convert_to_copy a p c
  | UACPI_PARSE_OP_DISPATCH_METHOD_CALL => exec_dispatch true a c
  | UACPI_PARSE_OP_DISPATCH_TABLE_LOAD => exec_dispatch false a c
  | UACPI_PARSE_OP_CONVERT_NAMESTRING => exec_convert_namestring a prev_op p c
  | UACPI_PARSE_OP_SWITCH_TO_NEXT_IF_EQUALS => exec_switch_to_next a p c
  | UACPI_PARSE_OP_IF_SWITCHED_FROM => exec_if_switched_from p c
  | UACPI_PARSE_OP_EMIT_SKIP_WARN | UACPI_PARSE_OP_LOAD_ZERO_IMM | UACPI_PARSE_OP_AML_PC_DECREMENT
  | UACPI_PARSE_OP_OBJECT_ALLOC | UACPI_PARSE_OP_OBJECT_ALLOC_TYPED | UACPI_PARSE_OP_EMPTY_OBJECT_ALLOC =>
      Some (Continue c p false)
  end.

Definition iterate (a : answer) (persist abortable has_prev : bool) (prev_op : Z) (p : item_ptr) (c : ctx) :
    option (effect I) :=
  let ret := if (pc c =? 0) && has_prev then op_typecheck prev_op (properties (ctx_op c)) else UACPI_STATUS_OK in
  if is_error ret then Some (Error ret)
  else
    '(b, c) ← op_decode_byte c;
    match parse_op_of b with
    | None => Some (Error UACPI_STATUS_UNIMPLEMENTED)
    | Some op =>
        r ← alloc_item a op p c;
        match r with
        | inl st => Some (Error st)
        | inr (p, c) => exec_parse_op a persist abortable has_prev prev_op op p c
        end
    end.

End operations.

(** ** A call frame *)

Definition op_ctx : Type := op_context (list item).

(** The pending instructions of a frame, the innermost one first, and, inside
    of [exec_op], its variables [prev_op] and [item]. *)
Record frame_ops := MkFrameOps {
  pending_ops : list op_ctx;
  running : option (Z * item_ptr)
}.

Inductive frame_result :=
| Next (s : frame_ops)
| Returned
| Aborted (st : uacpi_status).

Definition all_releasable (c : op_ctx) : bool := items_releasable (items c).

Definition new_op_context (spec : uacpi_op_spec) : op_ctx := MkCtx 0 false 0 0 [] spec.

(** The instruction at the AML cursor. *)
Definition get_op (a : answer) : option (uacpi_status + uacpi_op_spec) :=
  let '(b0, b1) := a_bytes a in
  let op := if b0 =? UACPI_EXT_PREFIX then Z.lor (Z.shiftl b0 8) b1 else b0 in
  if is_error (a_status a) then Some (inl (a_status a))
  else
    spec ← op_spec op;
    Some (if Z.land (properties spec) UACPI_OP_PROPERTY_RESERVED =? 0 then inr spec
          else inl UACPI_STATUS_AML_INVALID_OPCODE).

Definition ctx_has_non_preempted_op (ops : list op_ctx) : bool :=
  match ops with c :: _ => negb (preempted c) | [] => false end.

(** [prev_op] at the start of [exec_op]. *)
Definition enter (ops : list op_ctx) : option frame_result :=
  prev_op ← match ops with _ :: d :: _ => op_decode_cursor d | _ => Some 0 end;
  Some (Next (MkFrameOps ops (Some (prev_op, NoItem)))).

(** All pending instructions are removed. *)
Definition unwind (st : uacpi_status) (ops : list op_ctx) : option frame_result :=
  if forallb all_releasable ops then Some (Aborted st) else None.

Definition deliver_object (ops : list op_ctx) : option (list op_ctx) :=
  match ops with
  | [] => None
  | d :: rest => its ← items_set_last (MkItem ITEM_OBJECT Obj) (items d); Some (with_items its d :: rest)
  end.

Definition resume {I} (d : op_context I) : op_context I := skip 1 (with_preempted false d).

Definition condition_op (spec : uacpi_op_spec) : bool :=
  (op_code spec =? UACPI_AML_OP_WhileOp) || (op_code spec =? UACPI_AML_OP_IfOp).

(** The pending instructions but the first are removed, and [item] is left
    pointing into the innermost of them. *)
Definition abort_condition (prev_op : Z) (it : item) (p : item_ptr) (ops : list op_ctx) :
    option frame_result :=
  match last ops with
  | None => None
  | Some first =>
      let popped := removelast ops in
      if forallb all_releasable popped then
        Some (Next (MkFrameOps [resume first] (Some (prev_op, match popped with [] => p | _ => Stale it end))))
      else None
  end.

Definition apply_effect (prev_op : Z) (e : effect (list item)) (c : op_ctx)
    (rest : list op_ctx) : option frame_result :=
  match e with
  | Continue c p delivers =>
      rest ← (if delivers then deliver_object rest else Some rest);
      Some (Next (MkFrameOps (c :: rest) (Some (prev_op, p))))
  | Preempt c | Dispatch c => Some (Next (MkFrameOps (c :: rest) None))
  | Finish =>
      if all_releasable c then
        Some (Next (MkFrameOps (match rest with [] => [] | d :: rest => resume d :: rest end) None))
      else None
  | AbortCondition p => abort_condition prev_op (MkItem ITEM_NAMESPACE_NODE null) p (c :: rest)
  | Error st => unwind st (c :: rest)
  end.

(** A step of the loop of [uacpi_execute_control_method] outside of
    [exec_op], or of the loop of [exec_op]. *)
Definition frame_step (persist : bool) (a : answer) (s : frame_ops) : option frame_result :=
  match running s, pending_ops s with
  | None, ops =>
      if ctx_has_non_preempted_op ops then enter ops
      else if negb (a_test a) then Some Returned
      else r ← get_op a;
           match r with
           | inl st => unwind st ops
           | inr spec =>
               if a_memory a then enter (new_op_context spec :: ops) else unwind UACPI_STATUS_OUT_OF_MEMORY ops
           end
  | Some _, [] => None
  | Some (prev_op, p), c :: rest =>
      let abortable := match last (c :: rest) with Some first => condition_op (ctx_op first) | None => false end in
      e ← iterate a persist abortable (bool_decide (rest ≠ [])) prev_op p c;
      apply_effect prev_op e c rest
  end.
