(* ===== verification/UacpiExecSim.v ===== *)
(** * Exploring the parse programs

    The instruction contexts of UacpiExec.v are explored with summaries of
    their items and one answer for every class of answers.  The exploration of
    a program gives a finite set of states that is closed under the steps of
    [exec_op], which the simulation below turns into an invariant of the frame:
    whatever the AML code is and whatever the functions called return, every
    operation finds the items it uses, and every argument delivers the object
    it stands for. *)

From S2P Require Import Prelude Tables UacpiOpcodes UacpiExec.
Local Open Scope Z_scope.

(** ** Summaries of item arrays *)

(** The whole array, or its first items and the last one. *)
Inductive summary :=
| Exact (room : nat) (l : list item)
| Long (pre : list item) (lst : option item)
| Unknown.

#[export] Instance summary_eq_dec : EqDecision summary.
Proof. solve_decision. Defined.

#[export] Instance item_ptr_eq_dec : EqDecision item_ptr.
Proof. solve_decision. Defined.

#[export] Instance item_summary : ItemArray summary := {|
  items_empty := Exact 12 [];
  items_size := λ s, match s with Exact _ l => Some (length l) | _ => None end;
  items_at := λ i s, match s with Exact _ l => l !! i | Long pre _ => pre !! i | Unknown => None end;
  items_last := λ s, match s with Exact _ l => last l | Long _ lst => lst | Unknown => None end;
  items_push := λ it s,
    match s with
    | Exact (S room) l => Exact room (l ++ [it])
    | Exact O l => Long l (Some it)
    | Long pre (Some old) => if releasable old then Long pre (Some it) else Unknown
    | Long pre None => Long pre (Some it)
    | Unknown => Unknown
    end;
  items_pop := λ s,
    match s with
    | Exact room l => Some (Exact (S room) (removelast l))
    | Long pre (Some _) => Some (Long pre None)
    | _ => None
    end;
  items_set := λ i it s,
    match s with
    | Exact room l => if decide (i < length l)%nat then Some (Exact room (<[i := it]> l)) else None
    | Long pre lst => if decide (i < length pre)%nat then Some (Long (<[i := it]> pre) lst) else None
    | Unknown => None
    end;
  items_set_last := λ it s,
    match s with
    | Exact _ [] => None
    | Exact room l => Some (Exact room (removelast l ++ [it]))
    | Long pre (Some _) => Some (Long pre (Some it))
    | _ => None
    end;
  items_releasable := λ s,
    match s with
    | Exact _ l => forallb releasable l
    | Long pre lst => forallb releasable pre && match lst with Some it => releasable it | None => true end
    | Unknown => false
    end
|}.

(** ** States *)

(** An instruction in [exec_op]: its context, the pointer [item] and whether it
    has delivered an object. *)
Record state := MkState {
  s_ctx : op_context summary;
  s_ptr : item_ptr;
  s_delivered : bool
}.

Fixpoint bytes_eqb (k l : list Z) : bool :=
  match k, l with
  | [], [] => true
  | x :: k, y :: l => if x =? y then bytes_eqb k l else false
  | _, _ => false
  end.

Definition program_eqb (p q : op_program) : bool :=
  match p, q with
  | Inline k, Inline l | OutOfLine k, OutOfLine l => bytes_eqb k l
  | _, _ => false
  end.

Definition spec_eqb (s t : uacpi_op_spec) : bool :=
  if op_code s =? op_code t then
  if properties s =? properties t then
  if program_eqb (program s) (program t) then String.eqb (op_name s) (op_name t)
  else false else false else false.

(** The comparison evaluates the costly parts only where the others agree. *)
Definition same (s t : state) : bool :=
  let c := s_ctx s in
  let d := s_ctx t in
  if pc c =? pc d then
  if bool_decide (s_ptr s = s_ptr t) then
  if bool_decide (items c = items d) then
  if bool_decide (preempted c = preempted d ∧ tracked_pkg_idx c = tracked_pkg_idx d ∧
                  switched_from c = switched_from d ∧ s_delivered s = s_delivered t) then
    spec_eqb (ctx_op c) (ctx_op d)
  else false else false else false else false.

Fixpoint mem (s : state) (l : list state) : bool :=
  match l with [] => false | t :: l => if same s t then true else mem s l end.

Definition add (s : state) (l : list state) : list state := if mem s l then l else s :: l.

(** ** Classes of answers *)

Inductive op_class := NameOp | ConvertOp | OtherOp.

Definition class_of (op : uacpi_parse_op) : op_class :=
  match op with
  | UACPI_PARSE_OP_CREATE_NAMESTRING | UACPI_PARSE_OP_CREATE_NAMESTRING_OR_NULL_IF_LOAD
  | UACPI_PARSE_OP_EXISTING_NAMESTRING | UACPI_PARSE_OP_EXISTING_NAMESTRING_OR_NULL
  | UACPI_PARSE_OP_EXISTING_NAMESTRING_OR_NULL_IF_LOAD => NameOp
  | UACPI_PARSE_OP_CONVERT_NAMESTRING => ConvertOp
  | _ => OtherOp
  end.

Definition status_class (st : uacpi_status) : uacpi_status :=
  match st with
  | UACPI_STATUS_OK | UACPI_STATUS_NOT_FOUND | UACPI_STATUS_AML_OBJECT_ALREADY_EXISTS => st
  | _ => UACPI_STATUS_INTERNAL_ERROR
  end.

Definition type_class (t : Z) : Z :=
  if t =? UACPI_OBJECT_METHOD then UACPI_OBJECT_METHOD
  else if (t =? UACPI_OBJECT_BUFFER_FIELD) || (t =? UACPI_OBJECT_FIELD_UNIT) then UACPI_OBJECT_BUFFER_FIELD
  else UACPI_OBJECT_UNINITIALIZED.

Definition read_class (t : Z) : Z := if t =? UACPI_OBJECT_BUFFER then UACPI_OBJECT_BUFFER else UACPI_OBJECT_INTEGER.

(** The answer that stands for [a], and what [abortable] is taken as. *)
Definition digest (k : op_class) (ab : bool) (a : answer) : bool * answer :=
  match k with
  | NameOp => (ab, MkAnswer true (status_class (a_status a)) true 0 0 0 (0, 0))
  | ConvertOp =>
      (false, MkAnswer true UACPI_STATUS_OK true (type_class (a_type a)) (a_args a) (read_class (a_read_type a)) (0, 0))
  | OtherOp => (false, MkAnswer true UACPI_STATUS_OK (a_test a) 0 0 0 (0, 0))
  end.

Definition digests (k : op_class) : list (bool * answer) :=
  match k with
  | NameOp =>
      ab ← [true; false];
      st ← [UACPI_STATUS_OK; UACPI_STATUS_NOT_FOUND; UACPI_STATUS_AML_OBJECT_ALREADY_EXISTS; UACPI_STATUS_INTERNAL_ERROR];
      [(ab, MkAnswer true st true 0 0 0 (0, 0))]
  | ConvertOp =>
      t ← [UACPI_OBJECT_METHOD; UACPI_OBJECT_BUFFER_FIELD; UACPI_OBJECT_UNINITIALIZED];
      n ← [0; 1; 2; 3; 4; 5; 6; 7];
      r ← [UACPI_OBJECT_BUFFER; UACPI_OBJECT_INTEGER];
      [(false, MkAnswer true UACPI_STATUS_OK true t n r (0, 0))]
  | OtherOp => t ← [true; false]; [(false, MkAnswer true UACPI_STATUS_OK t 0 0 0 (0, 0))]
  end.

(** ** Exploration *)

Definition at_op {I} (c : op_context I) : option uacpi_parse_op := b ← op_decode_cursor c; parse_op_of b.

Definition is_create (op : uacpi_parse_op) : bool :=
  match op with
  | UACPI_PARSE_OP_CREATE_NAMESTRING | UACPI_PARSE_OP_CREATE_NAMESTRING_OR_NULL_IF_LOAD => true
  | _ => false
  end.

Definition arg_ops : list Z := parse_op_value <$> [
  UACPI_PARSE_OP_SIMPLE_NAME; UACPI_PARSE_OP_SUPERNAME; UACPI_PARSE_OP_SUPERNAME_OR_UNRESOLVED;
  UACPI_PARSE_OP_TERM_ARG; UACPI_PARSE_OP_TERM_ARG_UNWRAP_INTERNAL; UACPI_PARSE_OP_TERM_ARG_OR_NAMED_OBJECT;
  UACPI_PARSE_OP_TERM_ARG_OR_NAMED_OBJECT_OR_UNRESOLVED; UACPI_PARSE_OP_OPERAND; UACPI_PARSE_OP_STRING;
  UACPI_PARSE_OP_COMPUTATIONAL_DATA; UACPI_PARSE_OP_TARGET].

Definition conditions : list uacpi_op_spec := [op_IfOp; op_WhileOp].

Definition null_name : item := MkItem ITEM_NAMESPACE_NODE null.
Definition object_item : item := MkItem ITEM_OBJECT Obj.
Definition empty_item : item := MkItem ITEM_EMPTY_OBJECT null.

(** A condition that waits for its value, or has it. *)
Definition condition_ctx (served : bool) (spec : uacpi_op_spec) : op_ctx :=
  MkCtx 1 true 1 0 [MkItem ITEM_PACKAGE_LENGTH Pkg; if served then object_item else empty_item] spec.

Definition summarise (room : nat) (c : op_ctx) : op_context summary :=
  MkCtx (pc c) (preempted c) (tracked_pkg_idx c) (switched_from c) (Exact (room - length (items c)) (items c)) (ctx_op c).

Section explore.
Context (persist has_prev : bool) (prev_op : Z).

(** The variable [prev_op] is right when [exec_op] is entered again. *)
Definition steady : bool := has_prev || (prev_op =? 0).

Definition condition_ok (c : op_context summary) : bool :=
  if has_prev then true
  else if condition_op (ctx_op c) then
    existsb (λ spec, same (MkState c NoItem false) (MkState (summarise 12 (condition_ctx false spec)) NoItem false)) conditions
  else true.

(** The states after an effect, [None] if it is not allowed: an object is
    delivered once, and before the end. *)
Definition after_effect (s : state) (abortable : bool) (e : effect summary) : option (list state) :=
  match e with
  | Continue c p delivers =>
      if delivers && (s_delivered s || negb has_prev) then None else Some [MkState c p (delivers || s_delivered s)]
  | Preempt c =>
      b ← op_decode_cursor c;
      its ← items_set_last object_item (items c);
      if steady && bool_decide (b ∈ arg_ops) && preempted c && items_releasable (items c)
         && condition_ok c
      then Some (MkState (resume (with_items its c)) NoItem (s_delivered s) ::
                 if op_allows_unresolved b then [MkState (resume c) NoItem (s_delivered s)] else [])
      else None
  | Dispatch c => if steady && negb (preempted c) then Some [MkState c NoItem (s_delivered s)] else None
  | Finish => if negb has_prev || s_delivered s || op_allows_unresolved prev_op then Some [] else None
  | AbortCondition _ =>
      if abortable then if negb has_prev && condition_op (ctx_op (s_ctx s)) then None else Some [] else None
  | Error _ => Some []
  end.

(** The two defects: the flags of a node that was not created are set, and the
    value of a loop's condition is looked for in an item that was removed. *)
Definition failed_creation (op : uacpi_parse_op) (a : answer) : bool :=
  negb persist && is_create op && is_error (a_status a).

Definition stale_value (op : uacpi_parse_op) (p : item_ptr) : bool :=
  bool_decide (op = UACPI_PARSE_OP_IF_LAST_TRUE ∧ p = Stale null_name).

Definition after (s : state) (op : uacpi_parse_op) (ba : bool * answer) : option (list state) :=
  match iterate (snd ba) persist (fst ba) has_prev prev_op (s_ptr s) (s_ctx s) with
  | None => if failed_creation op (snd ba) || stale_value op (s_ptr s) then Some [] else None
  | Some e => after_effect s (fst ba) e
  end.

Definition successors (s : state) : option (list state) :=
  op ← at_op (s_ctx s);
  if items_releasable (items (s_ctx s)) then
    foldr (λ new acc, foldr add acc new) [] <$> mapM (after s op) (digests (class_of op))
  else None.

Fixpoint explore (fuel : nat) (seen todo : list state) : option (list state) :=
  match fuel with
  | O => None
  | S fuel =>
      match todo with
      | [] => Some seen
      | s :: todo =>
          if mem s seen then explore fuel seen todo
          else new ← successors s; explore fuel (s :: seen) (new ++ todo)
      end
  end.

End explore.

(** Instructions with lists of elements have summaries from the sixth item
    on. *)
Definition room_of (spec : uacpi_op_spec) : nat :=
  if bool_decide (op_name spec ∈ ["PackageOp"; "VarPackageOp"; "FieldOp"; "IndexFieldOp"; "BankFieldOp"]%string) then 5
  else 12.

Definition start (spec : uacpi_op_spec) : state :=
  MkState (summarise (room_of spec) (new_op_context spec)) NoItem false.

Definition aborted_start (served : bool) (spec : uacpi_op_spec) : state :=
  MkState (summarise 12 (resume (condition_ctx served spec))) (Stale null_name) false.

Definition exploration_fuel : nat := 2000.

Definition explored (persist has_prev : bool) (prev_op : Z) (l : list state) : bool :=
  match explore persist has_prev prev_op exploration_fuel [] l with Some _ => true | None => false end.

Definition all_specs : list uacpi_op_spec := opcode_table ++ ext_opcode_table.

Definition unreserved (spec : uacpi_op_spec) : bool := Z.land (properties spec) UACPI_OP_PROPERTY_RESERVED =? 0.

Definition entries : list uacpi_op_spec := List.filter unreserved all_specs.

(** The name strings, which have the same program, are explored together. *)
Definition is_name_string (spec : uacpi_op_spec) : bool :=
  program_eqb (program spec) (program (UACPI_UNRESOLVED_NAME_STRING_OP "A"%string 0x41)).

Definition groups : list (list uacpi_op_spec) :=
  List.filter is_name_string entries :: map (λ spec, [spec]) (List.filter (λ spec, negb (is_name_string spec)) entries).

(** ** Simulation *)

Definition items_rel (l : list item) (s : summary) : Prop :=
  match s with
  | Exact _ l' => l = l'
  | Long pre None => ∃ mid, l = pre ++ mid ∧ forallb releasable mid = true
  | Long pre (Some it) => ∃ mid, l = pre ++ mid ++ [it] ∧ forallb releasable mid = true
  | Unknown => True
  end.

Record ctx_rel (c : op_ctx) (d : op_context summary) : Prop := {
  rel_pc : pc c = pc d;
  rel_preempted : preempted c = preempted d;
  rel_tracked : tracked_pkg_idx c = tracked_pkg_idx d;
  rel_switched : switched_from c = switched_from d;
  rel_op : ctx_op c = ctx_op d;
  rel_items : items_rel (items c) (items d)
}.

(** What the summary allows, the array allows. *)
Definition osim {A B} (R : B → A → Prop) (x : option A) (y : option B) : Prop :=
  match x with None => True | Some a => ∃ b, y = Some b ∧ R b a end.

Definition effect_rel (e : effect (list item)) (d : effect summary) : Prop :=
  match e, d with
  | Error _, _ => True
  | Continue c p x, Continue c' p' x' => ctx_rel c c' ∧ p = p' ∧ x = x'
  | Preempt c, Preempt c' | Dispatch c, Dispatch c' => ctx_rel c c'
  | Finish, Finish => True
  | AbortCondition p, AbortCondition p' => p = p'
  | _, _ => False
  end.

Lemma osim_bind {A B A' B'} (R : B → A → Prop) (S : B' → A' → Prop) x y f g :
  osim R x y → (∀ b a, R b a → osim S (f a) (g b)) → osim S (x ≫= f) (y ≫= g).
Proof. intros Hxy Hfg. destruct x as [a|]; simpl in *; [|done]. destruct Hxy as (b & -> & HR). by apply Hfg. Qed.

Lemma osim_ret {A B} (R : B → A → Prop) a b : R b a → osim R (Some a) (Some b).
Proof. simpl. eauto. Qed.

Lemma osim_refl {A} (x : option A) : osim eq x x.
Proof. destruct x; simpl; eauto. Qed.

Lemma osim_eq {A} (x : option A) y : y = x → osim eq x y.
Proof. intros ->. apply osim_refl. Qed.

Create HintDb osim discriminated.

Ltac sim_items :=
  repeat match goal with
  | H : ∃ _, _ |- _ => destruct H as [? ?]
  | H : _ ∧ _ |- _ => destruct H as [? ?]
  end; subst.

Lemma items_at_sim i l s : items_rel l s → osim eq (items_at i s) (items_at i l).
Proof.
  destruct s as [room l'|pre [it|]|]; simpl; intros H; sim_items; [by apply osim_refl| | |done];
    destruct (pre !! i) eqn:E; simpl; eauto; rewrite (lookup_app_l_Some _ _ _ _ E); eauto.
Qed.

Lemma items_last_sim l s : items_rel l s → osim eq (items_last s) (items_last l).
Proof.
  destruct s as [room l'|pre [it|]|]; simpl; intros H; sim_items; [by apply osim_refl| |done|done].
  rewrite app_assoc, last_snoc. eauto.
Qed.

Lemma items_size_sim l s : items_rel l s → osim eq (items_size s) (items_size l).
Proof. destruct s; simpl; intros H; subst; eauto. Qed.

Lemma items_push_rel it l s : items_rel l s → items_rel (items_push it l) (items_push it s).
Proof.
  destruct s as [[|room] l'|pre [old|]|]; simpl; [|by intros ->| | |done].
  - intros ->. by exists [].
  - intros (mid & -> & Hmid). destruct (releasable old) eqn:E; [|done].
    exists (mid ++ [old]). split; [by rewrite <-!app_assoc|]. rewrite forallb_app. simpl. by rewrite Hmid, E.
  - intros (mid & -> & Hmid). exists mid. by rewrite <-app_assoc.
Qed.

Lemma items_pop_sim l s : items_rel l s → osim items_rel (items_pop s) (items_pop l).
Proof.
  destruct s as [room l'|pre [it|]|]; simpl; [intros ->; eauto| |done|done].
  intros (mid & -> & Hmid). eexists; split; [done|]. exists mid. by rewrite app_assoc, removelast_last.
Qed.

Lemma items_set_sim i it l s : items_rel l s → osim items_rel (items_set i it s) (items_set i it l).
Proof.
  destruct s as [room l'|pre lst|]; simpl; [|destruct (decide _) as [Hi|]; [|done]|done].
  - intros ->. destruct (decide _); simpl; eauto.
  - assert (Hrel : ∀ rest, items_rel (pre ++ rest) (Long pre lst) → items_rel (<[i:=it]> pre ++ rest) (Long (<[i:=it]> pre) lst)).
    { intros rest. destruct lst; simpl; intros (mid & Heq & Hmid); apply app_inv_head in Heq as ->; eauto. }
    intros Hl. assert (∃ rest, l = pre ++ rest) as [rest ->].
    { destruct lst; destruct Hl as (mid & -> & _); eauto. }
    rewrite decide_True by (rewrite length_app; lia). simpl. eexists; split; [done|].
    rewrite insert_app_l by done. by apply Hrel.
Qed.

Lemma items_set_last_sim it l s : items_rel l s → osim items_rel (items_set_last it s) (items_set_last it l).
Proof.
  destruct s as [room [|x l']|pre [old|]|]; simpl; [done|intros ->; eauto| |done|done].
  intros (mid & -> & Hmid). rewrite app_assoc, removelast_last.
  destruct ((pre ++ mid) ++ [old]) eqn:E; [by apply app_nil in E as [_ ?]|].
  eexists; split; [done|]. exists mid. by rewrite <-app_assoc.
Qed.

Lemma items_releasable_sim l s : items_rel l s → items_releasable s = true → items_releasable l = true.
Proof.
  destruct s as [room l'|pre [it|]|]; simpl; [by intros ->| | |done];
    intros (mid & -> & Hmid); rewrite !forallb_app, Hmid, andb_true_iff; simpl; intros [-> Hit]; by rewrite ?Hit.
Qed.

(** *** Contexts *)

#[local] Arguments osim : simpl never.
#[local] Arguments items_size : simpl never.
#[local] Arguments items_at : simpl never.
#[local] Arguments items_last : simpl never.
#[local] Arguments items_push : simpl never.
#[local] Arguments items_pop : simpl never.
#[local] Arguments items_set : simpl never.
#[local] Arguments items_set_last : simpl never.
#[local] Arguments items_releasable : simpl never.

Definition byte_rel {A} (y : A * op_ctx) (x : A * op_context summary) : Prop := fst y = fst x ∧ ctx_rel (snd y) (snd x).

Lemma with_items_rel its its' c d : ctx_rel c d → items_rel its its' → ctx_rel (with_items its c) (with_items its' d).
Proof. intros [] ?. by constructor. Qed.

Lemma with_tracked_rel v c d : ctx_rel c d → ctx_rel (with_tracked v c) (with_tracked v d).
Proof. intros []. by constructor. Qed.

Lemma with_switched_from_rel v c d : ctx_rel c d → ctx_rel (with_switched_from v c) (with_switched_from v d).
Proof. intros []. by constructor. Qed.

Lemma with_preempted_rel v c d : ctx_rel c d → ctx_rel (with_preempted v c) (with_preempted v d).
Proof. intros []. by constructor. Qed.

Lemma with_pc_rel v c d : ctx_rel c d → ctx_rel (with_pc v c) (with_pc v d).
Proof. intros []. by constructor. Qed.

Lemma skip_rel n c d : ctx_rel c d → ctx_rel (skip n c) (skip n d).
Proof. intros H. unfold skip. rewrite (rel_pc _ _ H). by apply with_pc_rel. Qed.

#[local] Hint Resolve with_items_rel with_tracked_rel with_switched_from_rel with_preempted_rel with_pc_rel skip_rel
  items_push_rel rel_items : osim.

Lemma op_decode_cursor_rel c d : ctx_rel c d → op_decode_cursor c = op_decode_cursor d.
Proof. intros H. unfold op_decode_cursor. by rewrite (rel_op _ _ H), (rel_pc _ _ H). Qed.

Lemma op_decode_byte_sim c d : ctx_rel c d → osim byte_rel (op_decode_byte d) (op_decode_byte c).
Proof.
  intros H. unfold op_decode_byte. rewrite (op_decode_cursor_rel _ _ H).
  destruct (op_decode_cursor d); [|done]. apply osim_ret. split; simpl; auto with osim.
Qed.

Lemma the_item_sim p c d : ctx_rel c d → osim eq (the_item p d) (the_item p c).
Proof. intros H%rel_items. destruct p; [done|by apply items_last_sim|by apply items_at_sim|by apply osim_refl]. Qed.

Lemma item_array_at_sim i c d : ctx_rel c d → osim eq (item_array_at i d) (item_array_at i c).
Proof. intros H%rel_items. by apply items_at_sim. Qed.

(** One step through a computation: the first operation is related by [H]. *)
Tactic Notation "sim" uconstr(H) "as" simple_intropattern(b) simple_intropattern(a) simple_intropattern(R) :=
  eapply osim_bind; [eapply H; eauto with osim|intros b a R; cbv beta iota].

Tactic Notation "sim_byte" uconstr(H) "as" ident(b) ident(c) ident(d) ident(R) :=
  let E := fresh in
  eapply osim_bind; [eapply H; eauto with osim|intros [b c] [? d] [E R]; simpl in E, R; subst; cbv beta iota].

Lemma set_the_item_sim p it c d : ctx_rel c d → osim ctx_rel (set_the_item p it d) (set_the_item p it c).
Proof.
  intros H. destruct p; simpl; try done.
  - sim items_set_last_sim as its its' Hits. apply osim_ret. auto with osim.
  - sim items_set_sim as its its' Hits. apply osim_ret. auto with osim.
Qed.

Lemma reading_sim w p c d : ctx_rel c d → osim eq (reading w p d) (reading w p c).
Proof. intros H. unfold reading. sim the_item_sim as it ? <-. apply osim_refl. Qed.

Lemma storing_sim v p c d : ctx_rel c d → osim ctx_rel (storing v p d) (storing v p c).
Proof. intros H. unfold storing. sim the_item_sim as it ? <-. by apply set_the_item_sim. Qed.

Lemma set_item_sim i it c d : ctx_rel c d → osim ctx_rel (set_item i it d) (set_item i it c).
Proof. intros H. unfold set_item. sim items_set_sim as its its' Hits. apply osim_ret. auto with osim. Qed.

Lemma apply_tracked_pkg_sim c d : ctx_rel c d → osim eq (apply_tracked_pkg d) (apply_tracked_pkg c).
Proof.
  intros H. unfold apply_tracked_pkg. rewrite (rel_tracked _ _ H). destruct (_ =? _); [apply osim_refl|].
  sim item_array_at_sim as it ? <-. apply osim_refl.
Qed.

Lemma op_decode_aml_op_sim c d : ctx_rel c d → osim byte_rel (op_decode_aml_op d) (op_decode_aml_op c).
Proof.
  intros H. unfold op_decode_aml_op. sim_byte op_decode_byte_sim as lo c1 d1 H1.
  sim_byte op_decode_byte_sim as hi c2 d2 H2. by apply osim_ret.
Qed.

Lemma inline_value_sim n c d : ctx_rel c d → osim byte_rel (inline_value n d) (inline_value n c).
Proof.
  revert c d. induction n as [|n IH]; simpl; intros c d H; [by apply osim_ret|].
  sim_byte op_decode_byte_sim as lo c1 d1 H1. sim_byte IH as hi c2 d2 H2. by apply osim_ret.
Qed.

Lemma pop_item_sim c d : ctx_rel c d → osim ctx_rel (pop_item d) (pop_item c).
Proof.
  intros H. unfold pop_item. sim items_last_sim as it ? <-. destruct (releasable it); [|done].
  sim items_pop_sim as its its' Hits. apply osim_ret. auto with osim.
Qed.

Lemma reads_ok_sim c d reads : ctx_rel c d → reads_ok d reads = true → reads_ok c reads = true.
Proof.
  intros H%rel_items. unfold reads_ok. rewrite !forallb_forall. intros Hd [[i|] w] Hin; specialize (Hd _ Hin); simpl in *.
  - pose proof (items_at_sim i _ _ H) as Hs. destruct (items_at i (items d)); [|done]. by destruct Hs as (? & -> & ->).
  - pose proof (items_last_sim _ _ H) as Hs. destruct (items_last (items d)); [|done]. by destruct Hs as (? & -> & ->).
Qed.

Lemma handler_effect_sim a a' h size c d :
  ctx_rel c d → a_test a = a_test a' → osim ctx_rel (handler_effect a' h size d) (handler_effect a h size c).
Proof.
  intros H Ht. unfold handler_effect. rewrite Ht.
  destruct h; try (apply osim_ret; auto with osim; fail); try (by apply set_item_sim).
  - sim items_set_last_sim as its its' Hits. apply osim_ret. auto with osim.
  - sim items_set_last_sim as its its' Hits. apply osim_ret. auto with osim.
  - sim items_at_sim as it3 ? <-. sim items_at_sim as it2 ? <-.
    destruct (decide _); [destruct (a_test a'); [by apply set_item_sim|by apply osim_ret]|].
    sim set_item_sim as c1 d1 H1.
    eapply osim_bind; [|intros c2 d2 H2; by apply set_item_sim].
    destruct (a_test a'); [by apply set_item_sim|by apply osim_ret].
  - sim items_at_sim as it0 ? <-.
    destruct (decide _); [by apply osim_ret|]. destruct (a_test a'); [by apply set_item_sim|by apply osim_ret].
Qed.

(** *** Operations *)

#[local] Hint Resolve op_decode_byte_sim op_decode_aml_op_sim inline_value_sim the_item_sim item_array_at_sim
  reading_sim storing_sim set_item_sim apply_tracked_pkg_sim pop_item_sim items_size_sim items_last_sim
  items_pop_sim items_set_sim items_set_last_sim osim_refl : osim.

Ltac use_rel R :=
  match type of R with
  | byte_rel ?y ?x => destruct y, x; let E := fresh in destruct R as [E ?]; cbn [fst snd] in *; subst
  | _ = _ => subst
  | _ => idtac
  end.

(** Goes through the operations two computations have in common. *)
Ltac sim_all :=
  repeat match goal with
  | |- osim _ (_ ≫= _) (_ ≫= _) =>
      let R := fresh "R" in
      eapply osim_bind; [solve [eauto with osim]|intros ? ? R; use_rel R; cbv beta iota]
  | |- osim _ (if ?b then _ else _) (if ?b then _ else _) => destruct b eqn:?
  | |- osim _ (Some _) (Some _) => apply osim_ret
  | |- osim _ None _ => exact I
  end.

Ltac sim_done := repeat case_match; simpl; auto 6 with osim.

Lemma continue_with_rel st st' c d p :
  (is_error st' = false) → ctx_rel c d → effect_rel (continue_with st c p) (continue_with st' d p).
Proof. intros E H. unfold continue_with. rewrite E. by destruct (is_error st). Qed.

Lemma osim_error st x : osim effect_rel x (Some (Error st)).
Proof. destruct x; [|done]. by apply osim_ret. Qed.

Section other_operations.
Context (a a' : answer) (a_ok : is_error (a_status a') = false) (a_mem : a_memory a' = true) (a_same : a_test a = a_test a').

#[local] Hint Resolve continue_with_rel : osim.

Lemma exec_end_sim c d : ctx_rel c d → osim effect_rel (exec_end d) (exec_end c).
Proof. intros H. unfold exec_end. by sim_all. Qed.

Lemma exec_skip_if_null_sim p c d : ctx_rel c d → osim effect_rel (exec_skip_if_null a' p d) (exec_skip_if_null a p c).
Proof.
  intros H. unfold exec_skip_if_null. rewrite a_same. sim_all; [by apply exec_end_sim|done].
Qed.

Lemma exec_preempt_sim c d : ctx_rel c d → osim effect_rel (exec_preempt d) (exec_preempt c).
Proof. intros H. unfold exec_preempt. sim_all. simpl. auto with osim. Qed.

Lemma exec_pkglen_sim p c d : ctx_rel c d → osim effect_rel (exec_pkglen a' p d) (exec_pkglen a p c).
Proof. intros H. unfold exec_pkglen. sim_all. auto with osim. Qed.

Lemma exec_tracked_pkglen_sim p c d :
  ctx_rel c d → osim effect_rel (exec_tracked_pkglen a' p d) (exec_tracked_pkglen a p c).
Proof. intros H. unfold exec_tracked_pkglen. sim_all. apply exec_pkglen_sim. auto with osim. Qed.

Lemma exec_load_inline_imm_sim p c d : ctx_rel c d → osim effect_rel (exec_load_inline_imm p d) (exec_load_inline_imm p c).
Proof. intros H. unfold exec_load_inline_imm. by sim_all. Qed.

Lemma exec_load_inline_imm_as_object_sim p c d :
  ctx_rel c d → osim effect_rel (exec_load_inline_imm_as_object p d) (exec_load_inline_imm_as_object p c).
Proof. intros H. unfold exec_load_inline_imm_as_object. by sim_all. Qed.

Lemma exec_load_imm_sim o p c d : ctx_rel c d → osim effect_rel (exec_load_imm o a' p d) (exec_load_imm o a p c).
Proof. intros H. unfold exec_load_imm. rewrite a_same. by sim_all. Qed.

Lemma exec_object_sim p c d : ctx_rel c d → osim effect_rel (exec_object p d) (exec_object p c).
Proof. intros H. unfold exec_object. by sim_all. Qed.

Lemma exec_record_aml_pc_sim p c d : ctx_rel c d → osim effect_rel (exec_record_aml_pc p d) (exec_record_aml_pc p c).
Proof. intros H. unfold exec_record_aml_pc. by sim_all. Qed.

Lemma exec_typecheck_sim p c d : ctx_rel c d → osim effect_rel (exec_typecheck a' p d) (exec_typecheck a p c).
Proof. intros H. unfold exec_typecheck. rewrite a_same. sim_all. by destruct (a_test a'). Qed.

Lemma exec_imm_decrement_sim p c d : ctx_rel c d → osim effect_rel (exec_imm_decrement p d) (exec_imm_decrement p c).
Proof.
  intros H. unfold exec_imm_decrement. sim_all. destruct (holds _); try done. sim_all. simpl. auto with osim.
Qed.

Lemma exec_item_pop_sim c d : ctx_rel c d → osim effect_rel (exec_item_pop d) (exec_item_pop c).
Proof. intros H. unfold exec_item_pop. by sim_all. Qed.

Lemma exec_if_has_data_sim p c d : ctx_rel c d → osim effect_rel (exec_if_has_data a' p d) (exec_if_has_data a p c).
Proof.
  intros H. unfold exec_if_has_data. rewrite a_same. sim_all. rewrite (rel_tracked _ _ H1). sim_all.
  simpl. destruct (a_test a'); auto with osim.
Qed.

Lemma if_null_sim n it p c d : ctx_rel c d → osim effect_rel (if_null n a' it p d) (if_null n a it p c).
Proof. intros H. unfold if_null. rewrite a_same. sim_all. simpl. destruct (eqb _ _); auto with osim. Qed.

Lemma exec_if_last_null_sim n p c d : ctx_rel c d → osim effect_rel (exec_if_last_null n a' p d) (exec_if_last_null n a p c).
Proof. intros H. unfold exec_if_last_null. sim_all. by apply if_null_sim. Qed.

Lemma exec_if_null_sim n p c d : ctx_rel c d → osim effect_rel (exec_if_null n a' p d) (exec_if_null n a p c).
Proof. intros H. unfold exec_if_null. sim_all. by apply if_null_sim. Qed.

Lemma exec_if_last_equals_sim p c d :
  ctx_rel c d → osim effect_rel (exec_if_last_equals a' p d) (exec_if_last_equals a p c).
Proof.
  intros H. unfold exec_if_last_equals. rewrite a_same. sim_all. destruct (holds _) as [| | |v]; try done. sim_all.
  simpl. destruct (match v with Some _ => _ | None => _ end); auto with osim.
Qed.

Lemma exec_if_last_false_sim n p c d :
  ctx_rel c d → osim effect_rel (exec_if_last_false n a' p d) (exec_if_last_false n a p c).
Proof. intros H. unfold exec_if_last_false. rewrite a_same. sim_all. simpl. destruct (eqb _ _); auto with osim. Qed.

Lemma exec_jmp_sim p c d : ctx_rel c d → osim effect_rel (exec_jmp p d) (exec_jmp p c).
Proof. intros H. unfold exec_jmp. sim_all. simpl. auto with osim. Qed.

Lemma exec_install_sim c d : ctx_rel c d → osim effect_rel (exec_install a' d) (exec_install a c).
Proof.
  intros H. unfold exec_install. sim_all. rewrite a_ok.
  destruct (is_error (a_status a)); [apply osim_error|by sim_all].
Qed.

Lemma exec_invoke_sim p c d : ctx_rel c d → osim effect_rel (exec_invoke a' p d) (exec_invoke a p c).
Proof.
  intros H. unfold exec_invoke. rewrite (rel_op _ _ H). cbv zeta. sim_all; [done|].
  eapply osim_bind with (R := eq).
  { destruct (handler_counts _); auto with osim. }
  intros size ? <-. cbv beta. destruct (reads_ok d _) eqn:E; [|done]. rewrite (reads_ok_sim _ _ _ H E).
  sim handler_effect_sim as c1 d1 H1. apply osim_ret. auto with osim.
Qed.

Lemma exec_transfer_sim copy hp prev p c d :
  ctx_rel c d → osim effect_rel (exec_transfer copy a' hp prev p d) (exec_transfer copy a hp prev p c).
Proof.
  intros H. unfold exec_transfer. rewrite a_same, a_ok, a_mem. destruct hp; cbn [negb]; [|by apply osim_ret].
  destruct (transfers prev) as [checked|]; [|by apply osim_ret]. sim_all; [done|].
  rewrite !andb_false_r.
  destruct (copy && negb (a_memory a)); [by apply osim_ret|]. destruct (copy && _); by apply osim_ret.
Qed.

Lemma exec_store_to_target_sim p c d :
  ctx_rel c d → osim effect_rel (exec_store_to_target a' p d) (exec_store_to_target a p c).
Proof. intros H. unfold exec_store_to_target. sim_all. auto with osim. Qed.

Lemma exec_store_to_target_indirect_sim p c d :
  ctx_rel c d → osim effect_rel (exec_store_to_target_indirect a' p d) (exec_store_to_target_indirect a p c).
Proof. intros H. unfold exec_store_to_target_indirect. sim_all. auto with osim. Qed.

Lemma exec_convert_to_copy_sim p c d :
  ctx_rel c d → osim effect_rel (exec_convert_to_copy a' p d) (exec_convert_to_copy a p c).
Proof. intros H. unfold exec_convert_to_copy. sim_all. auto with osim. Qed.

Lemma exec_dispatch_sim method c d : ctx_rel c d → osim effect_rel (exec_dispatch method a' d) (exec_dispatch method a c).
Proof.
  intros H. unfold exec_dispatch. sim_all. destruct (reads_ok d _) eqn:E; [|done]. rewrite (reads_ok_sim _ _ _ H E), a_ok.
  apply osim_ret. by destruct (is_error (a_status a)).
Qed.

Lemma switch_op_sim code p c d : ctx_rel c d → osim effect_rel (switch_op code p d) (switch_op code p c).
Proof. intros []. unfold switch_op. sim_all. by repeat constructor. Qed.

Lemma exec_switch_to_next_sim p c d :
  ctx_rel c d → osim effect_rel (exec_switch_to_next a' p d) (exec_switch_to_next a p c).
Proof.
  intros H. unfold exec_switch_to_next. rewrite a_same. sim_all; [|done]. rewrite (rel_op _ _ H1).
  apply switch_op_sim. auto with osim.
Qed.

Lemma exec_if_switched_from_sim p c d :
  ctx_rel c d → osim effect_rel (exec_if_switched_from p d) (exec_if_switched_from p c).
Proof.
  intros H. unfold exec_if_switched_from. sim_all. simpl. rewrite (rel_switched _ _ H2).
  destruct (_ =? _); auto with osim.
Qed.

End other_operations.

Lemma status_class_cases st :
  status_class st = st ∨
  status_class st = UACPI_STATUS_INTERNAL_ERROR ∧ st ≠ UACPI_STATUS_OK ∧ st ≠ UACPI_STATUS_NOT_FOUND ∧
  st ≠ UACPI_STATUS_AML_OBJECT_ALREADY_EXISTS.
Proof. destruct st; simpl; auto. Qed.

Lemma is_error_true st : st ≠ UACPI_STATUS_OK → is_error st = true.
Proof. intros. by apply bool_decide_eq_true. Qed.

(** The end of [exec_namestring], with the status that is left. *)
Lemma name_end_sim (create persist : bool) st st' p c d :
  is_error st = is_error st' → ctx_rel c d →
  osim effect_rel
    (if create && negb persist then _ ← reading WNode p d; Some (continue_with st' d p) else Some (continue_with st' d p))
    (if create && negb persist then _ ← reading WNode p c; Some (continue_with st c p) else Some (continue_with st c p)).
Proof. intros E H. unfold continue_with. rewrite E. by sim_all; destruct (is_error st'). Qed.

Lemma exec_namestring_sim a a' persist ab prev op p c d :
  a_status a' = status_class (a_status a) → ctx_rel c d →
  osim effect_rel (exec_namestring a' persist ab prev op p d) (exec_namestring a persist ab prev op p c).
Proof.
  intros Hst H. unfold exec_namestring. rewrite Hst. cbv zeta.
  destruct (status_class_cases (a_status a)) as [->|(-> & Hok & Hnf & Hex)].
  - sim_all. rewrite (rel_op _ _ R). destruct (_ && ab); [by apply osim_ret|]. by apply name_end_sim.
  - rewrite (is_error_true _ Hok). change (is_error UACPI_STATUS_INTERNAL_ERROR) with true. cbv iota. sim_all.
    rewrite (bool_decide_eq_false_2 _ Hnf). simpl andb. cbv iota.
    rewrite (bool_decide_eq_false_2 (a_status a = _ ∨ _)) by tauto. rewrite !andb_false_r. cbn [andb].
    rewrite (bool_decide_eq_false_2 _ Hnf).
    apply name_end_sim; [|done]. by rewrite (is_error_true _ Hok).
Qed.

Lemma exec_convert_namestring_sim a a' prev p c d :
  a_status a' = UACPI_STATUS_OK → a_type a' = type_class (a_type a) → a_args a' = a_args a →
  a_read_type a' = read_class (a_read_type a) → ctx_rel c d →
  osim effect_rel (exec_convert_namestring a' prev p d) (exec_convert_namestring a prev p c).
Proof.
  intros Hst Ht Hn Hr H. unfold exec_convert_namestring. rewrite Hst, Ht, Hn, Hr. sim_all.
  destruct (holds _) as [| | |[[| |]|]]; try done.
  - unfold type_class. destruct (a_type a =? UACPI_OBJECT_METHOD); simpl; [by apply switch_op_sim|].
    destruct ((a_type a =? UACPI_OBJECT_BUFFER_FIELD) || _); simpl; [|by apply switch_op_sim].
    destruct (op_wants_term_arg_or_operand prev); [|by apply switch_op_sim].
    destruct (is_error (a_status a)); [apply osim_error|]. unfold read_class.
    destruct (a_read_type a =? UACPI_OBJECT_BUFFER); simpl; [by apply switch_op_sim|].
    destruct (a_read_type a =? UACPI_OBJECT_INTEGER); [by apply switch_op_sim|apply osim_error].
  - sim_all. by destruct (op_allows_unresolved prev).
Qed.

Definition alloc_rel (y : uacpi_status + item_ptr * op_ctx) (x : uacpi_status + item_ptr * op_context summary) : Prop :=
  match y, x with
  | inl _, _ => True
  | inr (p, c), inr (q, d) => p = q ∧ ctx_rel c d
  | inr _, inl _ => False
  end.

Lemma generate_rel a a' it c d : a_memory a' = true → ctx_rel c d → alloc_rel (generate a it c) (generate a' it d).
Proof. intros Hm H. unfold generate. rewrite Hm. destruct (a_memory a); simpl; auto with osim. Qed.

Lemma alloc_item_sim a a' op p c d :
  a_memory a' = true → ctx_rel c d → osim alloc_rel (alloc_item a' op p d) (alloc_item a op p c).
Proof.
  intros Hm H. unfold alloc_item. destruct (parse_op_generates_item op); try (apply osim_ret; by apply generate_rel).
  - by apply osim_ret.
  - eapply osim_bind with (R := ctx_rel); [by sim_all|]. intros c1 d1 H1. apply osim_ret. by apply generate_rel.
Qed.

(** [a'] stands for [a] at the operation [op]. *)
Lemma exec_parse_op_sim a persist ab hp prev op p c d :
  ctx_rel c d →
  let '(ab', a') := digest (class_of op) ab a in
  osim effect_rel (exec_parse_op a' persist ab' hp prev op p d) (exec_parse_op a persist ab hp prev op p c).
Proof.
  intros H. destruct op; cbn [class_of digest exec_parse_op];
    first [by apply osim_ret | by apply exec_namestring_sim | by apply exec_convert_namestring_sim
          | by apply exec_end_sim | by apply exec_skip_if_null_sim | by apply exec_preempt_sim | by apply exec_tracked_pkglen_sim
          | by apply exec_pkglen_sim | by apply exec_load_inline_imm_sim | by apply exec_load_inline_imm_as_object_sim
          | by apply exec_load_imm_sim | by apply exec_object_sim | by apply exec_record_aml_pc_sim
          | by apply exec_typecheck_sim | by apply exec_imm_decrement_sim | by apply exec_item_pop_sim
          | by apply exec_if_has_data_sim | by apply exec_if_null_sim | by apply exec_if_last_null_sim
          | by apply exec_if_last_equals_sim | by apply exec_if_last_false_sim | by apply exec_jmp_sim
          | by apply exec_invoke_sim | by apply exec_install_sim | by apply exec_transfer_sim
          | by apply exec_store_to_target_sim | by apply exec_store_to_target_indirect_sim
          | by apply exec_convert_to_copy_sim | by apply exec_dispatch_sim | by apply exec_switch_to_next_sim
          | by apply exec_if_switched_from_sim ].
Qed.

Lemma digest_memory k ab a : a_memory (snd (digest k ab a)) = true.
Proof. by destruct k. Qed.

Lemma iterate_sim a persist ab hp prev p op c d :
  ctx_rel c d → at_op d = Some op →
  let '(ab', a') := digest (class_of op) ab a in
  osim effect_rel (iterate a' persist ab' hp prev p d) (iterate a persist ab hp prev p c).
Proof.
  intros H Hop. pose proof (λ p c d H, exec_parse_op_sim a persist ab hp prev op p c d H) as Hexec.
  pose proof (digest_memory (class_of op) ab a) as Hm.
  destruct (digest (class_of op) ab a) as [ab' a'].
  unfold iterate. rewrite (rel_pc _ _ H), (rel_op _ _ H). destruct (is_error _); [by apply osim_ret|].
  unfold at_op in Hop. unfold op_decode_byte. rewrite (op_decode_cursor_rel _ _ H).
  destruct (op_decode_cursor d) as [b|]; [|done]. cbn in Hop. cbn [mbind option_bind]. rewrite Hop.
  sim alloc_item_sim as y x HR. destruct y as [st|[p' c']]; [apply osim_error|].
  destruct x as [st|[q d']]; [done|]. destruct HR as [<- HR]. by apply Hexec.
Qed.

(** ** Soundness of the exploration *)

Lemma bytes_eqb_eq k l : bytes_eqb k l = true → k = l.
Proof.
  revert l. induction k as [|x k IH]; intros [|y l]; simpl; try done.
  destruct (x =? y) eqn:E; [|done]. apply Z.eqb_eq in E as ->. intros H. by rewrite (IH l H).
Qed.

Lemma program_eqb_eq p q : program_eqb p q = true → p = q.
Proof. destruct p, q; simpl; try done; by intros ->%bytes_eqb_eq. Qed.

Ltac if_true H := match type of H with (if ?b then _ else false) = true => destruct b eqn:?; [|done] end.

Lemma spec_eqb_eq s t : spec_eqb s t = true → s = t.
Proof.
  unfold spec_eqb. intros H. repeat if_true H. apply String.eqb_eq in H.
  destruct s, t; simpl in *. f_equal; [done|by apply program_eqb_eq|by apply Z.eqb_eq|by apply Z.eqb_eq].
Qed.

Lemma same_eq s t : same s t = true → s = t.
Proof.
  unfold same. intros H. repeat if_true H. apply spec_eqb_eq in H.
  destruct s as [[] ? ?], t as [[] ? ?]; simpl in *.
  repeat match goal with E : bool_decide _ = true |- _ => apply bool_decide_eq_true in E end.
  apply Z.eqb_eq in Heqb. destruct_and!. by subst.
Qed.

Lemma mem_elem s l : mem s l = true → s ∈ l.
Proof.
  induction l as [|t l IH]; simpl; [done|]. destruct (same s t) eqn:E; [apply same_eq in E as ->; left|right; auto].
Qed.

Lemma add_elem s t l : t = s ∨ t ∈ l → t ∈ add s l.
Proof. unfold add. destruct (mem s l) eqn:E; [apply mem_elem in E|]; set_solver. Qed.

Lemma add_all_elem t new acc : t ∈ new ∨ t ∈ acc → t ∈ foldr add acc new.
Proof. induction new as [|s new IH]; simpl; intros H; [set_solver|]. apply add_elem. set_solver. Qed.

Lemma collect_elem t (ll : list (list state)) new :
  new ∈ ll → t ∈ new → t ∈ foldr (λ new acc, foldr add acc new) [] ll.
Proof. induction ll as [|x ll IH]; simpl; intros H Ht; [set_solver|]. apply add_all_elem. set_solver. Qed.

Section closed.
Context (persist has_prev : bool) (prev_op : Z).

Definition closed (l : list state) : Prop :=
  ∀ s, s ∈ l → ∃ new, successors persist has_prev prev_op s = Some new ∧ ∀ t, t ∈ new → t ∈ l.

Lemma explore_closed fuel seen todo l :
  explore persist has_prev prev_op fuel seen todo = Some l →
  (∀ s, s ∈ seen → ∃ new, successors persist has_prev prev_op s = Some new ∧ ∀ t, t ∈ new → t ∈ seen ∨ t ∈ todo) →
  closed l ∧ (∀ t, t ∈ seen ∨ t ∈ todo → t ∈ l).
Proof.
  revert seen todo. induction fuel as [|fuel IH]; simpl; intros seen todo H Hseen; [done|].
  destruct todo as [|s todo].
  { simplify_eq. split; [|set_solver]. intros s Hs. destruct (Hseen s Hs) as (new & ? & Hnew). exists new. set_solver. }
  destruct (mem s seen) eqn:E.
  - apply mem_elem in E. apply IH in H as [Hcl Hin].
    + split; [done|]. intros t. set_solver.
    + intros t Ht. destruct (Hseen t Ht) as (new & ? & Hnew). exists new. set_solver.
  - destruct (successors persist has_prev prev_op s) as [new|] eqn:Es; [|done]. apply IH in H as [Hcl Hin].
    + split; [done|]. intros t. set_solver.
    + intros t [->|Ht]%elem_of_cons; [exists new; set_solver|].
      destruct (Hseen t Ht) as (new' & ? & Hnew). exists new'. set_solver.
Qed.

Lemma explored_closed starts s :
  explored persist has_prev prev_op starts = true → s ∈ starts → ∃ l, closed l ∧ s ∈ l.
Proof.
  unfold explored. generalize exploration_fuel. intros fuel.
  destruct (explore _ _ _ fuel _ _) as [l|] eqn:E; [|done]. intros _ Hs.
  apply explore_closed in E as [Hcl Hin]; [|by intros ? ?%elem_of_nil]. exists l. split; [done|]. apply Hin. by right.
Qed.

(** The states after each class of answers. *)
Lemma closed_after l s op ba :
  closed l → s ∈ l → at_op (s_ctx s) = Some op → ba ∈ digests (class_of op) →
  ∃ new, after persist has_prev prev_op s op ba = Some new ∧ ∀ t, t ∈ new → t ∈ l.
Proof.
  intros Hcl Hs Hop Hba. destruct (Hcl s Hs) as (all & Hsucc & Hall). unfold successors in Hsucc.
  rewrite Hop in Hsucc. cbn [mbind option_bind] in Hsucc. destruct (items_releasable _); [|done].
  apply fmap_Some in Hsucc as (ll & Hll & ->). apply mapM_Some in Hll.
  apply list_elem_of_lookup in Hba as [i Hi].
  destruct (Forall2_lookup_l _ _ _ _ _ Hll Hi) as (new & Hnew & Hafter). exists new. split; [done|].
  intros t Ht. apply Hall. eapply collect_elem; [|done]. by apply list_elem_of_lookup_2 in Hnew.
Qed.

Lemma closed_releasable l s : closed l → s ∈ l → items_releasable (items (s_ctx s)) = true ∧ ∃ op, at_op (s_ctx s) = Some op.
Proof.
  intros Hcl Hs. destruct (Hcl s Hs) as (all & Hsucc & _). unfold successors in Hsucc.
  destruct (at_op (s_ctx s)); [|done]. cbn [mbind option_bind] in Hsucc.
  destruct (items_releasable _); [eauto|done].
Qed.
End closed.

Lemma small_arg n : 0 ≤ n < 8 → n ∈ [0; 1; 2; 3; 4; 5; 6; 7].
Proof. intros H. assert (n = 0 ∨ n = 1 ∨ n = 2 ∨ n = 3 ∨ n = 4 ∨ n = 5 ∨ n = 6 ∨ n = 7) as Hn by lia. set_solver. Qed.

Lemma digest_elem k ab a : answer_ok a → digest k ab a ∈ digests k.
Proof.
  intros (Hargs & _ & _). destruct k; cbn [digest digests].
  - apply list_elem_of_bind. exists ab. split; [|destruct ab; set_solver].
    apply list_elem_of_bind. exists (status_class (a_status a)). split; [set_solver|].
    destruct (a_status a); simpl; set_solver.
  - apply list_elem_of_bind. exists (type_class (a_type a)). split; [|unfold type_class; repeat case_match; set_solver].
    apply list_elem_of_bind. exists (a_args a). split; [|by apply small_arg].
    apply list_elem_of_bind. exists (read_class (a_read_type a)). split; [set_solver|].
    unfold read_class. case_match; set_solver.
  - apply list_elem_of_bind. exists (a_test a). split; [set_solver|]. destruct (a_test a); set_solver.
Qed.
