(* ===== verification/UacpiExecThms.v ===== *)
(** * The parse programs are safe: the invariant of a call frame

    Every pending instruction of a frame is in a state of a closed set of
    UacpiExecSim.v, and waits at an operation that takes an argument.  The
    closed sets are computed for every instruction of the tables under every
    operation it can be an argument of. *)

From S2P Require Import Prelude Tables UacpiOpcodes UacpiExec UacpiExecSim.
Local Open Scope Z_scope.

(** ** The two defects *)

Definition stuck (r : option (effect (list item))) : Prop := r = None ∨ ∃ st, r = Some (Error st).

Lemma storing_last v it (c : op_ctx) l :
  items c = l ++ [it] → storing v LastItem c = Some (with_items (l ++ [MkItem (type_of it) v]) c).
Proof.
  intros E. unfold storing, the_item, set_the_item, items_last, items_set_last. simpl. rewrite E, last_snoc. simpl.
  destruct (l ++ [it]) eqn:E'; [by apply app_nil in E' as [_ ?]|]. rewrite <-E', removelast_last. done.
Qed.

Lemma reading_last w it (c : op_ctx) l :
  items c = l ++ [it] → reading w LastItem c = if wanted w (holds it) then Some tt else None.
Proof. intros E. unfold reading, the_item, items_last. simpl. rewrite E, last_snoc. done. Qed.

Lemma namestring_failed_stuck a ab prev op (c : op_ctx) l it :
  is_create op = true → is_error (a_status a) = true → items c = l ++ [it] →
  exec_namestring a false ab prev op LastItem c = None.
Proof.
  intros Hcr Hst E. unfold exec_namestring. rewrite Hst. rewrite (storing_last _ it _ l E). cbn [mbind option_bind andb negb].
  rewrite (bool_decide_eq_true_2 (op = _ ∨ op = _)) by (destruct op; try done; auto). cbn [andb].
  by rewrite (reading_last _ (MkItem (type_of it) null) _ l).
Qed.

Lemma failed_creation_stuck a persist ab hp prev p op (c : op_ctx) :
  at_op c = Some op → failed_creation persist op a = true → stuck (iterate a persist ab hp prev p c).
Proof.
  unfold failed_creation. rewrite !andb_true_iff, negb_true_iff. intros Hop [[-> Hcr] Hst].
  unfold iterate. case_match; [right; eauto|].
  unfold at_op in Hop. unfold op_decode_byte. destruct (op_decode_cursor c) as [b|]; [|by left].
  cbn [mbind option_bind] in Hop |- *. rewrite Hop.
  assert (Hgen : alloc_item a op p (skip 1 c) = Some (generate a (MkItem ITEM_NAMESPACE_NODE null) (skip 1 c))) by by destruct op.
  rewrite Hgen. cbn [mbind option_bind]. unfold generate. destruct (a_memory a); [|right; eauto]. left.
  replace (exec_parse_op a false ab hp prev op) with (exec_namestring (H:=item_list) a false ab prev op) by by destruct op.
  by eapply namestring_failed_stuck.
Qed.

Lemma stale_value_stuck a persist ab hp prev p op (c : op_ctx) :
  at_op c = Some op → stale_value op p = true → stuck (iterate a persist ab hp prev p c).
Proof.
  unfold stale_value. rewrite bool_decide_eq_true. intros Hop [-> ->].
  unfold iterate. case_match; [right; eauto|].
  unfold at_op in Hop. unfold op_decode_byte. destruct (op_decode_cursor c) as [b|]; [|by left].
  cbn [mbind option_bind] in Hop |- *. rewrite Hop. left. cbn [alloc_item parse_op_generates_item mbind option_bind exec_parse_op].
  unfold exec_if_last_false. by destruct (op_decode_byte _) as [[]|].
Qed.

Lemma digest_abortable k ab a : fst (digest k ab a) = true → ab = true.
Proof. by destruct k. Qed.

(** The answer that stands for another fails where the other does. *)
Lemma failed_creation_digest persist op ab a :
  failed_creation persist op (snd (digest (class_of op) ab a)) = failed_creation persist op a.
Proof.
  unfold failed_creation. destruct (is_create op) eqn:E; [|by rewrite !andb_false_r]. f_equal.
  assert (class_of op = NameOp) as -> by by destruct op. simpl. by destruct (a_status a).
Qed.

#[local] Opaque iterate.

(** ** One instruction *)

Section good.
Context (persist has_prev : bool) (prev_op : Z).

Definition good (c : op_ctx) (p : item_ptr) (delivered : bool) : Prop :=
  ∃ l s, closed persist has_prev prev_op l ∧ s ∈ l ∧ ctx_rel c (s_ctx s) ∧ s_ptr s = p ∧ s_delivered s = delivered.

(** A context that waits for an argument; [served] if it has got it. *)
Record waiting (served : bool) (d : op_ctx) (delivered : bool) (b : Z) : Prop := {
  w_cursor : op_decode_cursor d = Some b;
  w_arg : b ∈ arg_ops;
  w_preempted : preempted d = true;
  w_releasable : all_releasable d = true;
  w_steady : steady has_prev prev_op = true;
  w_items :
    if served then last (items d) = Some object_item ∧ good (resume d) NoItem delivered
    else (∃ its, items_set_last object_item (items d) = Some its ∧ good (resume (with_items its d)) NoItem delivered)
         ∧ (op_allows_unresolved b = true → good (resume d) NoItem delivered);
  w_condition :
    has_prev = false → condition_op (ctx_op d) = true → ∃ spec, spec ∈ conditions ∧ d = condition_ctx served spec
}.

(** What the closed sets say of the effect of an iteration. *)
Definition effect_good (abortable : bool) (c : op_ctx) (delivered : bool) (e : effect (list item)) : Prop :=
  match e with
  | Continue c p delivers =>
      (delivers = true → delivered = false ∧ has_prev = true) ∧ good c p (delivers || delivered)
  | Preempt c => ∃ b, waiting false c delivered b
  | Dispatch c => steady has_prev prev_op = true ∧ preempted c = false ∧ good c NoItem delivered
  | Finish => has_prev = false ∨ delivered = true ∨ op_allows_unresolved prev_op = true
  | AbortCondition _ => abortable = true ∧ (has_prev = false → condition_op (ctx_op c) = false)
  | Error _ => True
  end.

Lemma at_op_rel c d : ctx_rel c d → at_op c = at_op d.
Proof. intros H. unfold at_op. by rewrite (op_decode_cursor_rel _ _ H). Qed.

Lemma good_releasable c p delivered : good c p delivered → all_releasable c = true ∧ ∃ op, at_op c = Some op.
Proof.
  intros (l & s & Hcl & Hs & Hrel & _). destruct (closed_releasable _ _ _ _ _ Hcl Hs) as [Hr [op Hop]].
  split; [|rewrite (at_op_rel _ _ Hrel); eauto]. eapply items_releasable_sim; [apply (rel_items _ _ Hrel)|done].
Qed.

Lemma resume_rel c d : ctx_rel c d → ctx_rel (resume c) (resume d).
Proof. intros H. by apply skip_rel, with_preempted_rel. Qed.

Lemma good_of_elem l c d p x : closed persist has_prev prev_op l → MkState d p x ∈ l → ctx_rel c d → good c p x.
Proof. intros. by exists l, (MkState d p x). Qed.

(** The summary of a condition is the condition. *)
Lemma condition_ok_sound c d :
  ctx_rel c d → condition_ok has_prev d = true → has_prev = false → condition_op (ctx_op c) = true →
  ∃ spec, spec ∈ conditions ∧ c = condition_ctx false spec.
Proof.
  intros Hrel Hok -> Hc. unfold condition_ok in Hok. rewrite (rel_op _ _ Hrel) in Hc. rewrite Hc in Hok.
  apply existsb_exists in Hok as (spec & Hin & Hsame%same_eq). exists spec. split; [by apply list_elem_of_In|].
  injection Hsame as ->. destruct Hrel as [Hpc Hpre Htr Hsw Hop Hits]. destruct c. simpl in *. by subst.
Qed.

Lemma preempt_waiting l s ab c d new :
  closed persist has_prev prev_op l → after_effect has_prev prev_op s ab (Preempt d) = Some new →
  (∀ t, t ∈ new → t ∈ l) → ctx_rel c d → ∃ b, waiting false c (s_delivered s) b.
Proof.
  intros Hcl Hafter Hnew Hrel. cbn [after_effect] in Hafter.
  destruct (op_decode_cursor d) as [b|] eqn:Hb; [|done]. cbn [mbind option_bind] in Hafter.
  destruct (items_set_last object_item (items d)) as [its|] eqn:Hits; [|done]. cbn [mbind option_bind] in Hafter.
  destruct (_ && _) eqn:Hchk in Hafter; [|done]. rewrite !andb_true_iff, bool_decide_eq_true in Hchk.
  destruct Hchk as [[[[Hst Harg] Hpre] Hr] Hcond]. injection Hafter as <-.
  pose proof (items_set_last_sim object_item _ _ (rel_items _ _ Hrel)) as Hsim. rewrite Hits in Hsim.
  destruct Hsim as (its' & Hits' & Hrel').
  exists b. constructor; try done.
  - by rewrite (op_decode_cursor_rel _ _ Hrel).
  - by rewrite (rel_preempted _ _ Hrel).
  - eapply items_releasable_sim; [apply (rel_items _ _ Hrel)|done].
  - split.
    + exists its'. split; [done|]. eapply good_of_elem; [done|apply Hnew; left|].
      by apply resume_rel, with_items_rel.
    + intros Hb'. eapply good_of_elem; [done| |by apply resume_rel].
      apply Hnew. rewrite Hb'. right. left.
  - eauto using condition_ok_sound.
Qed.

Lemma effect_rel_good l s (ab ab' : bool) c d e new :
  (ab' = true → ab = true) →
  closed persist has_prev prev_op l → after_effect has_prev prev_op s ab' d = Some new → (∀ t, t ∈ new → t ∈ l) →
  ctx_rel c (s_ctx s) → effect_rel e d → effect_good ab c (s_delivered s) e.
Proof.
  intros Hab Hcl Hafter Hnew Hc Hrel. destruct e as [c' p x|c'| |c'|p|st]; [..|done]; destruct d; try done; simpl in Hrel.
  - destruct Hrel as (Hrel & <- & <-). cbn [after_effect] in Hafter. destruct (_ && _) eqn:Hx in Hafter; [done|].
    injection Hafter as <-. split.
    + intros ->. simpl in Hx. apply orb_false_iff in Hx as [? ?%negb_false_iff]. done.
    + eapply good_of_elem; [done|apply Hnew; left|done].
  - by eapply preempt_waiting.
  - cbn [after_effect] in Hafter. destruct (_ || _) eqn:Hx in Hafter; [|done].
    apply orb_true_iff in Hx as [[?%negb_true_iff|?]%orb_true_iff|?]; simpl; auto.
  - cbn [after_effect] in Hafter. destruct (_ && _) eqn:Hx in Hafter; [|done].
    apply andb_true_iff in Hx as [? ?%negb_true_iff]. injection Hafter as <-. split; [done|].
    split; [by rewrite (rel_preempted _ _ Hrel)|]. eapply good_of_elem; [done|apply Hnew; left|done].
  - cbn [after_effect] in Hafter. destruct ab'; [|done]. destruct (_ && _) eqn:Hx in Hafter; [done|].
    split; [auto|]. intros ->. simpl in *. by rewrite (rel_op _ _ Hc).
Qed.

Lemma good_step a ab c p delivered op :
  answer_ok a → good c p delivered → at_op c = Some op →
  match iterate a persist ab has_prev prev_op p c with
  | None => failed_creation persist op a || stale_value op p = true
  | Some e => effect_good ab c delivered e
  end.
Proof.
  intros Ha (l & s & Hcl & Hs & Hrel & <- & <-) Hop. rewrite (at_op_rel _ _ Hrel) in Hop.
  pose proof (iterate_sim a persist ab has_prev prev_op (s_ptr s) op c _ Hrel Hop) as Hsim.
  destruct (closed_after _ _ _ l s op (digest (class_of op) ab a) Hcl Hs Hop) as (new & Hafter & Hnew);
    [by apply digest_elem|].
  pose proof (failed_creation_digest persist op ab a) as Hfail.
  pose proof (digest_abortable (class_of op) ab a) as Hab.
  destruct (digest (class_of op) ab a) as [ab' a']. unfold after in Hafter. cbn [fst snd] in *. rewrite Hfail in Hafter.
  destruct (iterate a' persist ab' _ _ _ _) as [d|].
  - destruct Hsim as (e & -> & He). by eapply effect_rel_good.
  - rewrite <-(at_op_rel _ _ Hrel) in Hop.
    destruct (failed_creation persist op a) eqn:Ef.
    { destruct (failed_creation_stuck a persist ab has_prev prev_op (s_ptr s) op c Hop Ef) as [->|[st ->]]; done. }
    destruct (stale_value op (s_ptr s)) eqn:Es; [|done].
    destruct (stale_value_stuck a persist ab has_prev prev_op (s_ptr s) op c Hop Es) as [->|[st ->]]; done.
Qed.
End good.

(** ** The closed sets *)

Lemma starts_explored :
  forallb (λ persist, forallb (λ g, explored persist false 0 (start <$> g)) groups) [true; false] = true.
Proof. vm_cast_no_check (eq_refl true). Qed.

Lemma argument_starts_explored :
  forallb (λ persist, forallb (λ prev, forallb (λ g, explored persist true prev (start <$> g)) groups) arg_ops)
    [true; false] = true.
Proof. vm_cast_no_check (eq_refl true). Qed.

Lemma aborted_starts_explored :
  forallb (λ persist, forallb (λ prev, forallb (λ served,
    explored persist false prev (aborted_start served <$> conditions)) [true; false]) arg_ops) [true; false] = true.
Proof. vm_cast_no_check (eq_refl true). Qed.

Lemma bool_list b : b ∈ [true; false].
Proof. destruct b; set_solver. Qed.

Lemma forallb_elem {A} (f : A → bool) l x : forallb f l = true → x ∈ l → f x = true.
Proof. rewrite forallb_forall. intros H Hx. apply H. by apply list_elem_of_In. Qed.

Lemma summarise_rel room c : ctx_rel c (summarise room c).
Proof. by constructor. Qed.

Lemma explored_good {A} persist hp prev room (ctx : A → op_ctx) p (l : list A) x :
  explored persist hp prev ((λ x, MkState (summarise (room x) (ctx x)) p false) <$> l) = true → x ∈ l →
  good persist hp prev (ctx x) p false.
Proof.
  intros He Hx. destruct (explored_closed _ _ _ _ (MkState (summarise (room x) (ctx x)) p false) He) as (l' & Hcl & Hin).
  { apply list_elem_of_fmap. eauto. }
  eapply good_of_elem; [done|done|]. apply summarise_rel.
Qed.

Lemma group_of spec : spec ∈ entries → ∃ g, g ∈ groups ∧ spec ∈ g.
Proof.
  intros H%list_elem_of_In. unfold groups. destruct (is_name_string spec) eqn:E.
  - eexists; split; [left|]. apply list_elem_of_In, filter_In. auto.
  - exists [spec]. split; [|by left]. right. apply list_elem_of_In, in_map_iff. exists spec. split; [done|].
    apply filter_In. by rewrite E.
Qed.

Lemma start_good persist (hp : bool) prev spec :
  spec ∈ entries → (if hp then prev ∈ arg_ops else prev = 0) → good persist hp prev (new_op_context spec) NoItem false.
Proof.
  intros (g & Hg & Hspec)%group_of Hprev. apply (explored_good _ _ _ room_of new_op_context _ g); [|done]. destruct hp.
  - pose proof (forallb_elem _ _ _ argument_starts_explored (bool_list persist)) as H.
    exact (forallb_elem _ _ _ (forallb_elem _ _ _ H Hprev) Hg).
  - subst. exact (forallb_elem _ _ _ (forallb_elem _ _ _ starts_explored (bool_list persist)) Hg).
Qed.

Lemma aborted_good persist prev served spec :
  spec ∈ conditions → prev ∈ arg_ops →
  good persist false prev (resume (condition_ctx served spec)) (Stale null_name) false.
Proof.
  intros Hspec Hprev.
  apply (explored_good _ _ _ (λ _, 12%nat) (λ spec, resume (condition_ctx served spec)) _ conditions); [|done].
  pose proof (forallb_elem _ _ _ aborted_starts_explored (bool_list persist)) as H.
  exact (forallb_elem _ _ _ (forallb_elem _ _ _ H Hprev) (bool_list served)).
Qed.

(** The instruction of a code is one of the tables. *)
Lemma op_spec_all :
  forallb (λ code, match op_spec code with Some _ => true | None => false end)
    (map Z.of_nat (seq 0 256) ++ map (λ b, Z.lor (Z.shiftl UACPI_EXT_PREFIX 8) (Z.of_nat b)) (seq 0 256)) = true.
Proof. vm_compute. reflexivity. Qed.

Lemma byte_elem b : 0 ≤ b < 256 → ∃ n, n ∈ seq 0 256 ∧ b = Z.of_nat n.
Proof. intros H. exists (Z.to_nat b). rewrite elem_of_seq. lia. Qed.

Lemma op_spec_elem code spec : op_spec code = Some spec → spec ∈ all_specs.
Proof.
  unfold op_spec, uacpi_get_op_spec. cbv zeta. intros H. apply elem_of_app.
  destruct (0xFF <? code); [right|left]; repeat case_match; simplify_eq; by eapply list_elem_of_lookup_2.
Qed.

Lemma get_op_ok a : answer_ok a → ∃ r, get_op a = Some r ∧ ∀ spec, r = inr spec → spec ∈ entries.
Proof.
  intros (_ & H0 & H1). unfold get_op. destruct (a_bytes a) as [b0 b1]. simpl in H0, H1. cbv zeta.
  destruct (is_error (a_status a)); [eexists; split; [done|done]|].
  set (code := if b0 =? UACPI_EXT_PREFIX then _ else b0).
  assert (∃ spec, op_spec code = Some spec) as [spec Hspec].
  { destruct (byte_elem _ H0) as (n0 & Hn0 & ->), (byte_elem _ H1) as (n1 & Hn1 & ->).
    assert (code ∈ map Z.of_nat (seq 0 256) ++ map (λ b, Z.lor (Z.shiftl UACPI_EXT_PREFIX 8) (Z.of_nat b)) (seq 0 256)) as Hin.
    { subst code. apply elem_of_app. destruct (Z.eqb_spec (Z.of_nat n0) UACPI_EXT_PREFIX) as [->|]; [right|left];
        apply list_elem_of_fmap; eauto. }
    pose proof (forallb_elem _ _ _ op_spec_all Hin) as Hs. cbv beta in Hs.
    destruct (op_spec code); [eauto|done]. }
  rewrite Hspec. cbn [mbind option_bind]. eexists. split; [done|]. intros spec' Hr.
  destruct (_ =? 0) eqn:E in Hr; [|done]. injection Hr as <-.
  unfold entries. apply list_elem_of_In, filter_In. split; [|done]. apply list_elem_of_In. by eapply op_spec_elem.
Qed.

(** ** The invariant *)

Definition has_prev_of (rest : list op_ctx) : bool := bool_decide (rest ≠ []).

Definition prev_of (rest : list op_ctx) : Z :=
  match rest with [] => 0 | d :: _ => default 0 (op_decode_cursor d) end.

Fixpoint chain (persist served : bool) (ops : list op_ctx) : Prop :=
  match ops with
  | [] => served = false
  | d :: rest => ∃ b delivered, waiting persist (has_prev_of rest) (prev_of rest) served d delivered b ∧
                                chain persist delivered rest
  end.

Definition active (persist : bool) (prev_op : Z) (p : item_ptr) (ops : list op_ctx) : Prop :=
  ∃ c rest delivered, ops = c :: rest ∧ good persist (has_prev_of rest) prev_op c p delivered ∧
                      chain persist delivered rest.

Definition frame_inv (persist : bool) (s : frame_ops) : Prop :=
  match running s with
  | None =>
      chain persist false (pending_ops s) ∨
      active persist (prev_of (tail (pending_ops s))) NoItem (pending_ops s) ∧ ctx_has_non_preempted_op (pending_ops s) = true
  | Some (prev_op, p) =>
      active persist prev_op p (pending_ops s) ∧
      (tail (pending_ops s) ≠ [] → prev_op = prev_of (tail (pending_ops s)))
  end.

Lemma chain_releasable persist served ops : chain persist served ops → forallb all_releasable ops = true.
Proof.
  revert served. induction ops as [|d ops IH]; intros served; simpl; [done|].
  intros (b & x & Hw & Hch). by rewrite (w_releasable _ _ _ _ _ _ _ Hw), (IH _ Hch).
Qed.

Lemma chain_prev persist served ops :
  chain persist served ops → if has_prev_of ops then prev_of ops ∈ arg_ops else prev_of ops = 0.
Proof.
  destruct ops as [|d ops]; simpl; [done|]. intros (b & x & Hw & _). rewrite (w_cursor _ _ _ _ _ _ _ Hw).
  apply (w_arg _ _ _ _ _ _ _ Hw).
Qed.

Lemma chain_condition persist served ops first :
  chain persist served ops → last ops = Some first → condition_op (ctx_op first) = true →
  ∃ served' spec, spec ∈ conditions ∧ first = condition_ctx served' spec.
Proof.
  revert served. induction ops as [|d ops IH]; intros served; simpl; [done|].
  intros (b & x & Hw & Hch) Hl Hc. destruct ops as [|d' ops]; [|by eapply IH].
  injection Hl as <-. exists served. by apply (w_condition _ _ _ _ _ _ _ Hw).
Qed.

Lemma enter_ok persist ops :
  active persist (prev_of (tail ops)) NoItem ops →
  ∃ s, enter ops = Some (Next s) ∧ frame_inv persist s ∧ pending_ops s = ops.
Proof.
  intros (c & rest & x & -> & Hg & Hch). simpl in Hg. unfold enter. destruct rest as [|d rest]; simpl.
  - eexists; split; [done|]. split; [|done]. split; [|done]. by exists c, [], x.
  - destruct Hch as (b & y & Hw & Hch'). rewrite (w_cursor _ _ _ _ _ _ _ Hw). simpl.
    eexists; split; [done|]. split; [|done]. split.
    + exists c, (d :: rest), x. split; [done|]. simpl in Hg. rewrite (w_cursor _ _ _ _ _ _ _ Hw) in Hg. split; [done|]. simpl; eauto.
    + intros _. simpl. by rewrite (w_cursor _ _ _ _ _ _ _ Hw).
Qed.

Lemma deliver_waiting persist hp prev d delivered b :
  waiting persist hp prev false d delivered b →
  ∃ its, items_set_last object_item (items d) = Some its ∧ waiting persist hp prev true (with_items its d) delivered b.
Proof.
  intros Hw. destruct (w_items _ _ _ _ _ _ _ Hw) as [(its & Hits & Hg) _]. exists its. split; [done|].
  assert (∃ l, its = l ++ [object_item] ∧ forallb releasable l = true) as (l & -> & Hl).
  { pose proof (w_releasable _ _ _ _ _ _ _ Hw) as Hr. unfold all_releasable, items_releasable in Hr. simpl in Hr.
    unfold items_set_last in Hits. simpl in Hits. destruct (items d) as [|x l] eqn:E using rev_ind; [done|].
    clear IHl. rewrite removelast_last in Hits. exists l. rewrite forallb_app in Hr. apply andb_true_iff in Hr as [Hr _].
    destruct (l ++ [x]) eqn:E'; [by apply app_nil in E' as [_ ?]|]. by simplify_eq. }
  destruct Hw as [Hcur Harg Hpre Hr Hst _ Hcond]. constructor; try done.
  - unfold all_releasable, items_releasable. simpl. rewrite forallb_app, Hl. done.
  - split; [|done]. simpl. by rewrite last_snoc.
  - intros Hhp Hc. destruct (Hcond Hhp Hc) as (spec & Hspec & ->). exists spec. split; [done|].
    simpl in Hits. simplify_eq/=. by rewrite <-Hits.
Qed.

Lemma deliver_chain persist ops :
  chain persist false ops → ops ≠ [] →
  ∃ ops', deliver_object ops = Some ops' ∧ chain persist true ops' ∧ prev_of ops' = prev_of ops ∧ has_prev_of ops' = has_prev_of ops.
Proof.
  destruct ops as [|d rest]; [done|]. intros (b & x & Hw & Hch) _.
  destruct (deliver_waiting _ _ _ _ _ _ Hw) as (its & Hits & Hw'). unfold deliver_object. fold object_item. rewrite Hits.
  eexists; split; [done|]. split; [exists b, x; done|]. done.
Qed.

Lemma finish_active persist delivered d rest :
  chain persist delivered (d :: rest) → delivered = true ∨ op_allows_unresolved (prev_of (d :: rest)) = true →
  active persist (prev_of rest) NoItem (resume d :: rest).
Proof.
  intros (b & x & Hw & Hch) Hok. exists (resume d), rest, x. split; [done|]. split; [|done].
  pose proof (w_items _ _ _ _ _ _ _ Hw) as Hi. destruct delivered; [apply Hi|].
  destruct Hok as [|Hok]; [done|]. apply Hi. simpl in Hok. by rewrite (w_cursor _ _ _ _ _ _ _ Hw) in Hok.
Qed.

(** The condition under which a step goes wrong. *)
Definition defect (persist : bool) (a : answer) (s : frame_ops) : bool :=
  match running s, pending_ops s with
  | Some (_, p), c :: _ =>
      match at_op c with Some op => failed_creation persist op a || stale_value op p | None => false end
  | _, _ => false
  end.

Lemma unwind_ok st ops : forallb all_releasable ops = true → unwind st ops = Some (Aborted st).
Proof. intros H. unfold unwind. by rewrite H. Qed.

Lemma steady_prev rest prev_op :
  (rest ≠ [] → prev_op = prev_of rest) → steady (has_prev_of rest) prev_op = true → prev_op = prev_of rest.
Proof.
  destruct rest as [|d rest]; [|intros H _; by apply H]. unfold steady, has_prev_of. simpl.
  intros _ ?%Z.eqb_eq. done.
Qed.

(** The outcome of a step, which fails only if [d]. *)
Definition step_good (persist d : bool) (r : option frame_result) : Prop :=
  match r with
  | None => d = true
  | Some (Next s) => frame_inv persist s
  | Some _ => True
  end.

Lemma step_good_weaken persist d r : step_good persist false r → step_good persist d r.
Proof. by destruct r. Qed.

Lemma abort_ok persist prev_op p c rest :
  all_releasable c = true → (∃ x, chain persist x rest) → (rest ≠ [] → prev_op ∈ arg_ops) →
  (∃ first, last (c :: rest) = Some first ∧ condition_op (ctx_op first) = true) →
  (rest = [] → condition_op (ctx_op c) = false) →
  step_good persist false (abort_condition prev_op null_name p (c :: rest)).
Proof.
  intros Hc [y Hch] Hprev (first & Hlast & Hcond) Hnil. unfold abort_condition. rewrite Hlast.
  assert (Hrest : rest ≠ []). { intros ->. simpl in *. simplify_eq. by rewrite Hnil in Hcond. }
  assert (forallb all_releasable (removelast (c :: rest)) = true) as ->.
  { apply forallb_forall. intros x Hx. assert (In x (c :: rest)) as [->|Hin].
    { rewrite (app_removelast_last c) by done. apply in_app_iff. by left. } { done. }
    assert (forallb all_releasable rest = true) as Hr by eauto using chain_releasable.
    rewrite forallb_forall in Hr. auto. }
  assert (∃ x l, removelast (c :: rest) = x :: l) as (x & l & ->) by (destruct rest; [done|simpl; eauto]).
  assert (last rest = Some first) as Hlast' by by destruct rest.
  assert (∃ served spec, spec ∈ conditions ∧ first = condition_ctx served spec) as (served & spec & Hspec & ->).
  { eauto using chain_condition. }
  simpl. split; [|done]. eexists _, [], false. split; [done|]. split; [|done]. apply aborted_good; auto.
Qed.

Lemma apply_effect_good persist ab prev_op p c rest x e :
  good persist (has_prev_of rest) prev_op c p x → chain persist x rest → (rest ≠ [] → prev_op = prev_of rest) →
  effect_good persist (has_prev_of rest) prev_op ab c x e →
  (ab = true → ∃ first, last (c :: rest) = Some first ∧ condition_op (ctx_op first) = true) →
  step_good persist false (apply_effect prev_op e c rest).
Proof.
  intros Hg Hch Hprev He Hab. destruct (good_releasable _ _ _ _ _ _ Hg) as [Hr _].
  destruct e as [c' p' y|c'| |c'|p'|st]; cbn [apply_effect].
  - destruct He as [Hy Hg']. destruct y.
    + destruct (Hy eq_refl) as [-> Hp]. apply bool_decide_eq_true in Hp.
      destruct (deliver_chain _ _ Hch Hp) as (rest' & -> & Hch' & Hprev' & Hhp).
      split; [|intros _; change (prev_op = prev_of rest'); by rewrite Hprev', (Hprev Hp)].
      exists c', rest', true. rewrite Hhp. auto.
    + simpl. split; [|done]. by exists c', rest, x.
  - destruct He as [b Hw]. left. simpl. exists b, x. by rewrite <-(steady_prev rest prev_op Hprev (w_steady _ _ _ _ _ _ _ Hw)).
  - rewrite Hr. destruct rest as [|d rest]; [by left|]. right. split; [|done]. simpl.
    apply (finish_active _ x); [done|]. rewrite <-Hprev by done. by destruct He as [?|[?|?]]; auto.
  - destruct He as (Hst & Hpre & Hg'). right. simpl. rewrite Hpre. split; [|done]. exists c', rest, x.
    by rewrite <-(steady_prev rest prev_op Hprev Hst).
  - destruct He as [Habt Hnc]. apply abort_ok; [done|eauto| |auto|].
    + intros Hrest. rewrite (Hprev Hrest). pose proof (chain_prev _ _ _ Hch) as Hp. unfold has_prev_of in Hp.
      by rewrite bool_decide_eq_true_2 in Hp.
    + intros ->. by apply Hnc.
  - cbn. rewrite unwind_ok; [done|]. simpl. by rewrite Hr, (chain_releasable _ _ _ Hch).
Qed.

Lemma running_step persist a prev_op p s :
  running s = Some (prev_op, p) → frame_inv persist s → answer_ok a →
  step_good persist (defect persist a s) (frame_step persist a s).
Proof.
  destruct s as [ops run]. simpl. intros -> [(c & rest & x & Hops & Hg & Hch) Hprev] Ha. simpl in Hops, Hprev. subst ops.
  destruct (good_releasable _ _ _ _ _ _ Hg) as [Hr [op Hop]].
  unfold defect. cbn [running pending_ops]. rewrite Hop.
  unfold frame_step. cbn [running pending_ops]. fold (has_prev_of rest).
  set (ab := match last (c :: rest) with Some first => _ | None => _ end).
  pose proof (good_step _ _ _ a ab _ _ _ _ Ha Hg Hop) as Hstep.
  destruct (iterate a persist ab (has_prev_of rest) prev_op p c) as [e|]; [|done].
  cbn [mbind option_bind]. simpl tail in Hprev. eapply step_good_weaken, apply_effect_good; [done..|].
  subst ab. destruct (last (c :: rest)); [eauto|done].
Qed.

Lemma outside_step persist a s :
  running s = None → frame_inv persist s → answer_ok a → step_good persist (defect persist a s) (frame_step persist a s).
Proof.
  destruct s as [ops run]. simpl. intros -> Hinv Ha. apply step_good_weaken. unfold frame_step. cbn [running pending_ops].
  destruct (ctx_has_non_preempted_op ops) eqn:Hnp.
  - destruct Hinv as [Hch|[Hact _]]; simpl pending_ops in *.
    { destruct ops as [|c rest]; [done|]. destruct Hch as (b & x & Hw & _). simpl in Hnp.
      by rewrite (w_preempted _ _ _ _ _ _ _ Hw) in Hnp. }
    destruct (enter_ok _ _ Hact) as (s & -> & ? & _). done.
  - destruct Hinv as [Hch|[_ Hact]]; [|simpl in Hact; congruence]. simpl in Hch. destruct (a_test a); [|done]. simpl negb. cbv iota.
    destruct (get_op_ok a Ha) as (r & -> & Hr). cbn [mbind option_bind].
    pose proof (chain_releasable _ _ _ Hch) as Hrel.
    destruct r as [st|spec]; [by rewrite unwind_ok|]. destruct (a_memory a); [|by rewrite unwind_ok].
    destruct (enter_ok persist (new_op_context spec :: ops)) as (s & -> & ? & _); [|done].
    eexists _, ops, false. split; [done|]. split; [|done]. apply start_good; [by apply Hr|]. by eapply chain_prev.
Qed.

Lemma frame_step_good persist a s :
  frame_inv persist s → answer_ok a → step_good persist (defect persist a s) (frame_step persist a s).
Proof.
  intros Hinv Ha. destruct (running s) as [[prev_op p]|] eqn:E; [by eapply running_step|by apply outside_step].
Qed.

(** ** The end of an argument *)

Lemma cons_ne_self {A} (x : A) l : x :: l ≠ l.
Proof. intros H. apply (f_equal length) in H. simpl in H. lia. Qed.

Lemma outside_runs persist a ops s' :
  frame_step persist a (MkFrameOps ops None) = Some (Next s') → running s' ≠ None.
Proof.
  assert (Hent : ∀ ops, enter ops = Some (Next s') → running s' ≠ None).
  { intros l. unfold enter. destruct (match l with [] => _ | _ => _ end); simpl; [|done]. intros; by simplify_eq. }
  unfold frame_step. cbn [running pending_ops]. destruct (ctx_has_non_preempted_op ops); [apply Hent|].
  destruct (negb _); [done|]. destruct (get_op a) as [[st|spec]|]; simpl; [|destruct (a_memory a); [apply Hent|]|done];
    unfold unwind; by case_match.
Qed.

Lemma running_delivers persist a prev_op p c d d' rest s' :
  frame_inv persist (MkFrameOps (c :: d :: rest) (Some (prev_op, p))) → answer_ok a →
  frame_step persist a (MkFrameOps (c :: d :: rest) (Some (prev_op, p))) = Some (Next s') →
  pending_ops s' = d' :: rest → running s' = None →
  d' = resume d ∧
  (last (items d') = Some object_item ∨ ∃ b, op_decode_cursor d = Some b ∧ op_allows_unresolved b = true).
Proof.
  intros [(c0 & rest0 & x & Hops & Hg & Hch) Hprev] Ha Hstep Hops' Hrun'. simpl in Hops. simplify_eq.
  destruct (good_releasable _ _ _ _ _ _ Hg) as [Hr [op Hop]]. revert Hstep.
  unfold frame_step. cbn [running pending_ops]. fold (has_prev_of (d :: rest)).
  set (ab := match last (c0 :: d :: rest) with Some first => _ | None => _ end).
  pose proof (good_step _ _ _ a ab _ _ _ _ Ha Hg Hop) as Hstep.
  destruct (iterate a persist ab (has_prev_of (d :: rest)) prev_op p c0) as [e|]; [|done].
  cbn [mbind option_bind]. destruct e as [c' p' y|c'| |c'|p'|st]; cbn [apply_effect].
  - destruct (if y then _ else _); [|done]. intros H. injection H as <-. done.
  - intros H. injection H as <-. injection Hops' as _ Hc. by apply cons_ne_self in Hc.
  - rewrite Hr. intros H. injection H as <-. simpl in Hops'. simplify_eq. split; [done|].
    destruct Hch as (b & z & Hw & _). pose proof (w_cursor _ _ _ _ _ _ _ Hw) as Hb.
    rewrite (Hprev ltac:(done)) in Hstep. simpl in Hstep. rewrite Hb in Hstep.
    destruct Hstep as [?|[->|?]]; [done|left; apply (w_items _ _ _ _ _ _ _ Hw)|right; eauto].
  - intros H. injection H as <-. injection Hops' as _ Hc. by apply cons_ne_self in Hc.
  - unfold abort_condition. destruct (last _); [|done]. case_match; [|done]. intros H'. injection H' as <-. done.
  - cbn. unfold unwind. by case_match.
Qed.

(** ** Reachable states *)

Inductive reachable (persist : bool) : frame_ops → Prop :=
| reach_start : reachable persist (MkFrameOps [] None)
| reach_step a s s' :
    reachable persist s → answer_ok a → frame_step persist a s = Some (Next s') → reachable persist s'.

Lemma reachable_inv persist s : reachable persist s → frame_inv persist s.
Proof.
  induction 1 as [|a s s' _ IH Ha Hs]; [by left|]. pose proof (frame_step_good _ a _ IH Ha) as H. by rewrite Hs in H.
Qed.

(** The frame after a sequence of answers. *)
Fixpoint run (persist : bool) (l : list answer) (s : frame_ops) : option frame_ops :=
  match l with
  | [] => Some s
  | a :: l => match frame_step persist a s with Some (Next s) => run persist l s | _ => None end
  end.

Lemma run_reachable persist l s s' :
  Forall answer_ok l → reachable persist s → run persist l s = Some s' → reachable persist s'.
Proof.
  intros Hl. revert s. induction Hl as [|a l Ha _ IH]; simpl; intros s Hs H; [by simplify_eq|].
  destruct (frame_step persist a s) as [[s1| |]|] eqn:E; try done. eapply IH; [|done]. by eapply reach_step.
Qed.

(** The answers of the examples: all goes well and the next instruction is
    [b], or a name is not found, or there already. *)
Definition fetch (b : Z) : answer := MkAnswer true UACPI_STATUS_OK true 0 0 0 (b, 0).
Definition goes_on : answer := fetch 0.
Definition fails (st : uacpi_status) : answer := MkAnswer true st true 0 0 0 (0, 0).

(** [While (CopyObject (One, MISS))] up to the end of the condition. *)
Definition copy_in_condition : list answer :=
  [fetch 0xA2; goes_on; goes_on; fetch 0x9D; goes_on; fetch 0x01; goes_on; goes_on; goes_on; goes_on; goes_on;
   goes_on; fetch 0x4D; goes_on; fails UACPI_STATUS_NOT_FOUND; goes_on].

(** [Name] of an object there already. *)
Definition name_twice : list answer := [fetch 0x08].

(** [If (One)] up to the handler. *)
Definition if_one : list answer := [fetch 0xA0; goes_on; goes_on; fetch 0x01; goes_on; goes_on; goes_on; goes_on].

Lemma fetch_ok b : 0 ≤ b < 256 → answer_ok (fetch b).
Proof. intros. by repeat split; simpl; lia. Qed.

Lemma fails_ok st : answer_ok (fails st).
Proof. repeat split; simpl; lia. Qed.

Ltac answers_ok := repeat constructor; first [apply fetch_ok; lia | apply fails_ok | apply (fetch_ok 0); lia].

(** ** Theorems *)

(** C9: Whatever the AML code is and whatever the functions that are called
    return, a step of [exec_op], or of the loop around it, never reads outside
    of a parse program or of the items, never finds something else in an item
    than what it uses, never drops a reference that an item does not hold, and
    the handlers find the items they read, except in two cases: the creation of
    a name fails in a method, and the value of the condition of a loop is
    looked for in the item of an instruction that was removed. *)
Theorem exec_op_safe persist s a :
  reachable persist s → answer_ok a → defect persist a s = false → ∃ r, frame_step persist a s = Some r.
Proof.
  intros Hs Ha Hd. pose proof (frame_step_good _ a _ (reachable_inv _ _ Hs) Ha) as H. rewrite Hd in H.
  destruct (frame_step persist a s); [eauto|done].
Qed.

Lemma exec_op_safe_witness :
  ∃ s, run false if_one (MkFrameOps [] None) = Some s ∧ ∃ r, frame_step false goes_on s = Some r.
Proof.
  eexists. split; [vm_compute; reflexivity|].
  apply (exec_op_safe false _ goes_on); [|apply (fetch_ok 0); lia|vm_compute; reflexivity].
  apply (run_reachable false if_one (MkFrameOps [] None)); [answers_ok|apply reach_start|vm_compute; reflexivity].
Defined.

(** C10: When an instruction that is an argument ends, the instruction that
    waits for it goes on after the operation it waited at, and its last item
    holds the object that was delivered, unless the operation accepts a name
    that is not resolved. *)
Theorem exec_op_delivers persist s s' a c d d' rest :
  reachable persist s → answer_ok a → frame_step persist a s = Some (Next s') →
  pending_ops s = c :: d :: rest → pending_ops s' = d' :: rest → running s' = None →
  d' = resume d ∧
  (last (items d') = Some object_item ∨ ∃ b, op_decode_cursor d = Some b ∧ op_allows_unresolved b = true).
Proof.
  intros Hs Ha Hstep Hops Hops' Hrun'. apply reachable_inv in Hs.
  destruct s as [ops [[prev_op p]|]]; simpl in Hops; subst ops.
  - eauto using running_delivers.
  - exfalso. by apply (outside_runs _ _ _ _ Hstep) in Hrun'.
Qed.

(** [If (One)] at the end of [One], and after it. *)
Definition one_ends : frame_ops :=
  Eval vm_compute in default (MkFrameOps [] None) (run false (take 6 if_one) (MkFrameOps [] None)).
Definition one_ended : frame_ops :=
  Eval vm_compute in default (MkFrameOps [] None) (run false (take 7 if_one) (MkFrameOps [] None)).
Definition one_ctx : op_ctx := Eval vm_compute in nth 0 (pending_ops one_ends) (new_op_context op_OneOp).
Definition if_ctx : op_ctx := Eval vm_compute in nth 1 (pending_ops one_ends) (new_op_context op_IfOp).

Lemma exec_op_delivers_witness :
  pending_ops one_ends = [one_ctx; if_ctx] ∧ pending_ops one_ended = [resume if_ctx] ∧
  (last (items (resume if_ctx)) = Some object_item ∨
   ∃ b, op_decode_cursor if_ctx = Some b ∧ op_allows_unresolved b = true).
Proof.
  do 2 (split; [vm_compute; reflexivity|]).
  apply (exec_op_delivers false one_ends one_ended goes_on one_ctx if_ctx (resume if_ctx) []);
    [|apply (fetch_ok 0); lia|vm_compute; reflexivity..].
  apply (run_reachable false (take 6 if_one) (MkFrameOps [] None)); [answers_ok|apply reach_start|vm_compute; reflexivity].
Defined.

(** Both exceptions are reached.  At the top level of a table,
    [While (CopyObject (One, MISS))] with an object [MISS] that does not exist
    makes [exec_op] read the integer of the null object of an item that was
    removed; in a method, [Name] of an object that exists makes it set the
    flags of the node that was not created. *)
Theorem exec_op_defects :
  (∃ s, run true copy_in_condition (MkFrameOps [] None) = Some s ∧ frame_step true goes_on s = None) ∧
  (∃ s, run false name_twice (MkFrameOps [] None) = Some s ∧
        frame_step false (fails UACPI_STATUS_AML_OBJECT_ALREADY_EXISTS) s = None).
Proof. split; eexists; (split; [vm_compute; reflexivity|vm_compute; reflexivity]). Qed.
