(* ===== verification/UacpiNamespace.v ===== *)
(** * The ACPI namespace: uacpi/source/namespace.c and shareable.c

    The namespace is a tree of nodes with a name of four characters each.  A
    node points to its parent, its first child and its next peer.  A pointer
    is the number of a node, zero the null pointer; the predefined nodes, of
    which the root is the first, have the numbers from one on.  An access to a
    node that is not there, or was freed, is a fault.

    Of the objects the nodes have, the types and the internal references are
    modelled, which is what the functions here look at.  Loops that go from
    node to node are bounded by the number of nodes. *)

From S2P Require Import Prelude Tables UacpiOpcodes.
Local Open Scope Z_scope.
Local Open Scope kernel_scope.

Record uacpi_namespace_node := MkNode {
  reference_count : Z;
  nd_name : list Z;
  nd_flags : Z;
  nd_object : Z;
  nd_parent : Z;
  nd_child : Z;
  nd_next : Z
}.

Record uacpi_object := MkObject {
  object_type : Z;
  object_flags : Z;
  inner_object : Z
}.

(** The nodes and objects; the pointers the host's allocator returns next,
    zero where it has no memory; the status the host's lock returns, how many
    readers hold the lock, and the level of initialisation. *)
Record namespace := MkNamespace {
  ns_nodes : gmap Z uacpi_namespace_node;
  ns_objects : gmap Z uacpi_object;
  ns_allocs : list Z;
  ns_lock_status : uacpi_status;
  ns_readers : Z;
  ns_level : Z
}.

Definition with_nodes (m : gmap Z uacpi_namespace_node) (s : namespace) : namespace :=
  MkNamespace m (ns_objects s) (ns_allocs s) (ns_lock_status s) (ns_readers s) (ns_level s).
Definition with_allocs (l : list Z) (s : namespace) : namespace :=
  MkNamespace (ns_nodes s) (ns_objects s) l (ns_lock_status s) (ns_readers s) (ns_level s).
Definition with_readers (n : Z) (s : namespace) : namespace :=
  MkNamespace (ns_nodes s) (ns_objects s) (ns_allocs s) (ns_lock_status s) n (ns_level s).

Definition read_node (p : Z) : M namespace uacpi_namespace_node := λ s,
  match ns_nodes s !! p with Some n => Ok (n, s) | None => Fault p end.

Definition upd_node (p : Z) (f : uacpi_namespace_node → uacpi_namespace_node) : M namespace unit :=
  n ← read_node p; modify (λ s, with_nodes (<[p := f n]> (ns_nodes s)) s).

Definition nd_set_refs (v : Z) (n : uacpi_namespace_node) : uacpi_namespace_node :=
  MkNode v (nd_name n) (nd_flags n) (nd_object n) (nd_parent n) (nd_child n) (nd_next n).
Definition nd_set_flags (v : Z) (n : uacpi_namespace_node) : uacpi_namespace_node :=
  MkNode (reference_count n) (nd_name n) v (nd_object n) (nd_parent n) (nd_child n) (nd_next n).
Definition nd_set_object (v : Z) (n : uacpi_namespace_node) : uacpi_namespace_node :=
  MkNode (reference_count n) (nd_name n) (nd_flags n) v (nd_parent n) (nd_child n) (nd_next n).
Definition nd_set_parent (v : Z) (n : uacpi_namespace_node) : uacpi_namespace_node :=
  MkNode (reference_count n) (nd_name n) (nd_flags n) (nd_object n) v (nd_child n) (nd_next n).
Definition nd_set_child (v : Z) (n : uacpi_namespace_node) : uacpi_namespace_node :=
  MkNode (reference_count n) (nd_name n) (nd_flags n) (nd_object n) (nd_parent n) v (nd_next n).
Definition nd_set_next (v : Z) (n : uacpi_namespace_node) : uacpi_namespace_node :=
  MkNode (reference_count n) (nd_name n) (nd_flags n) (nd_object n) (nd_parent n) (nd_child n) v.

(** ** Locks and levels *)

(** The lock is the one of UacpiLock.v; here it has the status with which it
    is acquired, and its release succeeds. *)

Definition uacpi_namespace_read_lock : M namespace uacpi_status :=
  ret ← gets ns_lock_status;
  if bool_decide (ret = UACPI_STATUS_OK) then modify (λ s, with_readers (ns_readers s + 1) s);; mret ret else mret ret.

Definition uacpi_namespace_read_unlock : M namespace uacpi_status :=
  modify (λ s, with_readers (ns_readers s - 1) s);; mret UACPI_STATUS_OK.

(** [UACPI_ENSURE_INIT_LEVEL_AT_LEAST(UACPI_INIT_LEVEL_SUBSYSTEM_INITIALIZED)]. *)
Definition ensure_level {A : Type} (refused : uacpi_status → A) (k : M namespace A) : M namespace A :=
  lvl ← gets ns_level;
  if lvl <? UACPI_INIT_LEVEL_SUBSYSTEM_INITIALIZED then mret (refused UACPI_STATUS_INIT_LEVEL_MISMATCH) else k.

(** ** Reference counts *)

Definition BUGGED_REFCOUNT : Z := 0xFFFFFFFF.

Definition uacpi_shareable_init (p : Z) : M namespace unit := upd_node p (nd_set_refs 1).

Definition uacpi_make_shareable_bugged (p : Z) : M namespace unit := upd_node p (nd_set_refs BUGGED_REFCOUNT).

Definition uacpi_bugged_shareable (p : Z) : M namespace bool :=
  n ← read_node p;
  (if reference_count n =? 0 then uacpi_make_shareable_bugged p else mret tt);;
  n ← read_node p;
  mret (reference_count n =? BUGGED_REFCOUNT).

Definition uacpi_shareable_ref (p : Z) : M namespace Z :=
  bugged ← uacpi_bugged_shareable p;
  if bugged : bool then mret BUGGED_REFCOUNT
  else
    n ← read_node p;
    upd_node p (nd_set_refs (u32 (reference_count n + 1)));;
    mret (u32 (u32 (reference_count n + 1) - 1)).

Definition uacpi_shareable_unref (p : Z) : M namespace Z :=
  bugged ← uacpi_bugged_shareable p;
  if bugged : bool then mret BUGGED_REFCOUNT
  else
    n ← read_node p;
    upd_node p (nd_set_refs (u32 (reference_count n - 1)));;
    mret (u32 (u32 (reference_count n - 1) + 1)).

Definition uacpi_shareable_unref_and_delete_if_last (p : Z) (do_free : Z → M namespace unit) : M namespace unit :=
  if p =? 0 then mret tt
  else
    bugged ← uacpi_bugged_shareable p;
    if bugged : bool then mret tt
    else
      old ← uacpi_shareable_unref p;
      if old =? 1 then do_free p else mret tt.

Definition uacpi_shareable_refcount (p : Z) : M namespace Z := n ← read_node p; mret (reference_count n).

(** ** Nodes *)

Definition UACPI_NAMESPACE_NODE_FLAG_ALIAS : Z := Z.shiftl 1 0.
Definition UACPI_NAMESPACE_NODE_FLAG_DANGLING : Z := Z.shiftl 1 1.
Definition UACPI_NAMESPACE_NODE_FLAG_TEMPORARY : Z := Z.shiftl 1 2.
Definition UACPI_NAMESPACE_NODE_PREDEFINED : Z := Z.shiftl 1 31.

Definition UACPI_PREDEFINED_NAMESPACE_ROOT : Z := 0.
Definition UACPI_PREDEFINED_NAMESPACE_MAX : Z := 9.

Definition predefined_namespaces (ns : Z) : Z := ns + 1.

Definition uacpi_namespace_root : Z := predefined_namespaces UACPI_PREDEFINED_NAMESPACE_ROOT.

Definition uacpi_namespace_get_predefined (ns : Z) : Z :=
  if UACPI_PREDEFINED_NAMESPACE_MAX <? ns then 0 else predefined_namespaces ns.

Definition uacpi_namespace_node_is_alias (n : uacpi_namespace_node) : bool :=
  negb (Z.land (nd_flags n) UACPI_NAMESPACE_NODE_FLAG_ALIAS =? 0).
Definition uacpi_namespace_node_is_dangling (n : uacpi_namespace_node) : bool :=
  negb (Z.land (nd_flags n) UACPI_NAMESPACE_NODE_FLAG_DANGLING =? 0).
Definition uacpi_namespace_node_is_temporary (n : uacpi_namespace_node) : bool :=
  negb (Z.land (nd_flags n) UACPI_NAMESPACE_NODE_FLAG_TEMPORARY =? 0).
Definition uacpi_namespace_node_is_predefined (n : uacpi_namespace_node) : bool :=
  negb (Z.land (nd_flags n) UACPI_NAMESPACE_NODE_PREDEFINED =? 0).

Definition free_namespace_node (p : Z) : M namespace unit :=
  n ← read_node p;
  if uacpi_namespace_node_is_predefined n then
    upd_node p (λ n, MkNode (reference_count n) (nd_name n) UACPI_NAMESPACE_NODE_PREDEFINED 0 0 0 0)
  else modify (λ s, with_nodes (delete p (ns_nodes s)) s).

Definition uacpi_namespace_node_unref (p : Z) : M namespace unit :=
  uacpi_shareable_unref_and_delete_if_last p free_namespace_node.

(** A zeroed node, if there is memory. *)
Definition uacpi_namespace_node_alloc (name : list Z) : M namespace Z :=
  l ← gets ns_allocs;
  match l with
  | [] => mret 0
  | p :: l =>
      modify (with_allocs l);;
      if p =? 0 then mret 0
      else
        modify (λ s, with_nodes (<[p := MkNode 0 [0; 0; 0; 0] 0 0 0 0 0]> (ns_nodes s)) s);;
        uacpi_shareable_init p;;
        upd_node p (λ n, MkNode (reference_count n) name (nd_flags n) (nd_object n) (nd_parent n) (nd_child n) (nd_next n));;
        mret p
  end.

(** [while (prev->next != UACPI_NULL) prev = prev->next]. *)
Fixpoint last_peer (fuel : nat) (prev : Z) : M namespace Z :=
  match fuel with
  | O => nofuel
  | S fuel => n ← read_node prev; if nd_next n =? 0 then mret prev else last_peer fuel (nd_next n)
  end.

Definition node_bound : M namespace nat := gets (λ s, size (ns_nodes s)).

Definition uacpi_namespace_node_install (parent node : Z) : M namespace uacpi_status :=
  let parent := if parent =? 0 then uacpi_namespace_root else parent in
  n ← read_node node;
  if uacpi_namespace_node_is_dangling n then mret UACPI_STATUS_NAMESPACE_NODE_DANGLING
  else
    pn ← read_node parent;
    (if nd_child pn =? 0 then upd_node parent (nd_set_child node)
     else bound ← node_bound; prev ← last_peer bound (nd_child pn); upd_node prev (nd_set_next node));;
    upd_node node (nd_set_parent parent);;
    mret UACPI_STATUS_OK.

Definition UACPI_REFERENCE_KIND_REFOF : Z := 0.
Definition UACPI_REFERENCE_KIND_PKG_INDEX : Z := 4.

Definition get_object (p : Z) : M namespace uacpi_object := λ s,
  match ns_objects s !! p with Some o => Ok (o, s) | None => Fault p end.

Fixpoint unwrap_loop (fuel : nat) (object : Z) : M namespace Z :=
  match fuel with
  | O => nofuel
  | S fuel =>
      o ← get_object object;
      if negb (object_type o =? UACPI_OBJECT_REFERENCE) || (object_flags o =? UACPI_REFERENCE_KIND_REFOF)
         || (object_flags o =? UACPI_REFERENCE_KIND_PKG_INDEX) then mret object
      else unwrap_loop fuel (inner_object o)
  end.

Definition uacpi_unwrap_internal_reference (object : Z) : M namespace Z :=
  bound ← gets (λ s, size (ns_objects s)); unwrap_loop (S bound) object.

Definition uacpi_namespace_node_get_object (node : Z) : M namespace Z :=
  if node =? 0 then mret 0
  else
    n ← read_node node;
    if nd_object n =? 0 then mret 0 else uacpi_unwrap_internal_reference (nd_object n).

(** The object loses its node.  The reference the node had to the object and
    the handler of an operation region are not part of the model. *)
Definition namespace_node_detach_object (node : Z) : M namespace unit :=
  object ← uacpi_namespace_node_get_object node;
  if negb (object =? 0) then upd_node node (nd_set_object 0) else mret tt.

(** [while (prev != UACPI_NULL && prev->next != node) prev = prev->next]. *)
Fixpoint peer_before (fuel : nat) (prev node : Z) : M namespace Z :=
  match fuel with
  | O => nofuel
  | S fuel =>
      if prev =? 0 then mret 0
      else n ← read_node prev; if nd_next n =? node then mret prev else peer_before fuel (nd_next n) node
  end.

Definition uacpi_namespace_node_uninstall (node : Z) : M namespace uacpi_status :=
  n ← read_node node;
  if uacpi_namespace_node_is_dangling n then mret UACPI_STATUS_INTERNAL_ERROR
  else if negb (nd_child n =? 0) then mret UACPI_STATUS_DENIED
  else
    namespace_node_detach_object node;;
    prev ← (if nd_parent n =? 0 then mret 0 else pn ← read_node (nd_parent n); mret (nd_child pn));
    let unlinked :=
      upd_node node (λ n, nd_set_flags (Z.lor (nd_flags n) UACPI_NAMESPACE_NODE_FLAG_DANGLING) n);;
      uacpi_namespace_node_unref node;;
      mret UACPI_STATUS_OK in
    if prev =? node then upd_node (nd_parent n) (nd_set_child (nd_next n));; unlinked
    else
      bound ← node_bound;
      prev ← peer_before (S bound) prev node;
      if prev =? 0 then mret UACPI_STATUS_INTERNAL_ERROR
      else upd_node prev (nd_set_next (nd_next n));; unlinked.

(** ** Lookup *)

Fixpoint find_peer (fuel : nat) (node : Z) (name : list Z) : M namespace Z :=
  match fuel with
  | O => nofuel
  | S fuel =>
      if node =? 0 then mret 0
      else n ← read_node node; if bool_decide (nd_name n = name) then mret node else find_peer fuel (nd_next n) name
  end.

Definition uacpi_namespace_node_find_sub_node (parent : Z) (name : list Z) : M namespace Z :=
  let parent := if parent =? 0 then uacpi_namespace_root else parent in
  pn ← read_node parent;
  bound ← node_bound;
  find_peer (S bound) (nd_child pn) name.

Definition CHAR_ROOT : Z := 92.
Definition CHAR_PARENT : Z := 94.
Definition CHAR_DOT : Z := 46.
Definition CHAR_UNDERSCORE : Z := 95.

(** The next four characters of the path, padded at its end and at a dot. *)
Fixpoint segment_chars (n : nat) (path : list Z) : list Z * list Z :=
  match n with
  | O => ([], path)
  | S n =>
      match path with
      | [] => let '(name, rest) := segment_chars n path in (CHAR_UNDERSCORE :: name, rest)
      | c :: path' =>
          if c =? CHAR_DOT then let '(name, rest) := segment_chars n path in (CHAR_UNDERSCORE :: name, rest)
          else let '(name, rest) := segment_chars n path' in (c :: name, rest)
      end
  end.

Definition segment_to_name (path : list Z) : list Z * list Z := segment_chars 4 path.

(** The prefix of a path: the root or parents.  [None] is an invalid path;
    otherwise the node, the rest and whether there was no prefix. *)
Fixpoint resolve_prefix (path : list Z) (prev_char cur_node : Z) (single : bool) :
    M namespace (option (Z * list Z * bool)) :=
  match path with
  | [] => mret (Some (cur_node, [], single))
  | c :: path' =>
      if c =? CHAR_ROOT then
        if prev_char =? CHAR_PARENT then mret None else mret (Some (uacpi_namespace_root, path', false))
      else if c =? CHAR_PARENT then
        if cur_node =? uacpi_namespace_root then mret None
        else n ← read_node cur_node; resolve_prefix path' c (nd_parent n) false
      else mret (Some (cur_node, path, single))
  end.

(** [while (parent)]: the search in the scopes above. *)
Fixpoint search_above (fuel : nat) (parent : Z) (name : list Z) : M namespace Z :=
  match fuel with
  | O => nofuel
  | S fuel =>
      if parent =? 0 then mret 0
      else
        cur ← uacpi_namespace_node_find_sub_node parent name;
        if negb (cur =? 0) then mret cur else pn ← read_node parent; search_above fuel (nd_parent pn) name
  end.

(** The segments of a path; every round takes at least one character. *)
Fixpoint resolve_segments (fuel : nat) (path : list Z) (parent cur_node : Z) (single may_search : bool) : M namespace Z :=
  match fuel with
  | O => nofuel
  | S fuel =>
      match path with
      | [] => mret cur_node
      | c :: path' =>
          let '(nameseg, rest) := segment_to_name (if c =? CHAR_DOT then path' else path) in
          let single := single && bool_decide (rest = []) in
          cur ← uacpi_namespace_node_find_sub_node cur_node nameseg;
          if negb (cur =? 0) then resolve_segments fuel rest parent cur single may_search
          else if negb may_search || negb single then mret 0
          else
            pn ← read_node parent;
            bound ← node_bound;
            search_above (S bound) (nd_parent pn) nameseg
      end
  end.

(** The result is the status and the node, which is only stored when the
    status is a success. *)
Definition uacpi_namespace_node_resolve (parent : Z) (path : list Z) (should_lock may_search permanent_only : bool) :
    M namespace (uacpi_status * Z) :=
  let unlock r := (if should_lock then uacpi_namespace_read_unlock;; mret r else mret r) in
  ret ← (if should_lock then uacpi_namespace_read_lock else mret UACPI_STATUS_OK);
  if negb (bool_decide (ret = UACPI_STATUS_OK)) then mret (ret, 0)
  else
    r ← resolve_prefix path 0 (if parent =? 0 then uacpi_namespace_root else parent) true;
    match r with
    | None => unlock (UACPI_STATUS_INVALID_ARGUMENT, 0)
    | Some (cur_node, rest, single) =>
        cur_node ← resolve_segments (S (length rest)) rest parent cur_node single may_search;
        if cur_node =? 0 then unlock (UACPI_STATUS_NOT_FOUND, 0)
        else
          n ← read_node cur_node;
          if uacpi_namespace_node_is_temporary n && permanent_only then unlock (UACPI_STATUS_DENIED, 0)
          else unlock (UACPI_STATUS_OK, cur_node)
    end.

Definition uacpi_namespace_node_find (parent : Z) (path : list Z) : M namespace (uacpi_status * Z) :=
  uacpi_namespace_node_resolve parent path true false true.

Definition uacpi_namespace_node_resolve_from_aml_namepath (scope : Z) (path : list Z) : M namespace (uacpi_status * Z) :=
  uacpi_namespace_node_resolve scope path true true true.

(** ** Objects and types *)

Definition uacpi_object_get_type_bit (o : uacpi_object) : Z := u32 (Z.shiftl 1 (object_type o)).

Definition uacpi_object_is_one_of (o : uacpi_object) (type_mask : Z) : bool :=
  negb (Z.land (uacpi_object_get_type_bit o) type_mask =? 0).

Definition uacpi_namespace_node_get_object_typed (node type_mask : Z) : M namespace Z :=
  obj ← uacpi_namespace_node_get_object node;
  if obj =? 0 then mret 0 else o ← get_object obj; mret (if uacpi_object_is_one_of o type_mask then obj else 0).

Definition uacpi_namespace_node_name (node : Z) : M namespace (list Z) := n ← read_node node; mret (nd_name n).

(** The second result is stored when the status is a success. *)
Definition uacpi_namespace_node_type_unlocked (node : Z) : M namespace (uacpi_status * Z) :=
  if node =? 0 then mret (UACPI_STATUS_INVALID_ARGUMENT, 0)
  else
    obj ← uacpi_namespace_node_get_object node;
    if obj =? 0 then mret (UACPI_STATUS_NOT_FOUND, 0) else o ← get_object obj; mret (UACPI_STATUS_OK, object_type o).

Definition uacpi_namespace_node_is_one_of_unlocked (node type_mask : Z) : M namespace (uacpi_status * bool) :=
  if node =? 0 then mret (UACPI_STATUS_INVALID_ARGUMENT, false)
  else
    obj ← uacpi_namespace_node_get_object node;
    if obj =? 0 then mret (UACPI_STATUS_NOT_FOUND, false)
    else o ← get_object obj; mret (UACPI_STATUS_OK, uacpi_object_is_one_of o type_mask).

Definition with_read_lock {A : Type} (a : A) (k : M namespace (uacpi_status * A)) : M namespace (uacpi_status * A) :=
  ret ← uacpi_namespace_read_lock;
  if negb (bool_decide (ret = UACPI_STATUS_OK)) then mret (ret, a)
  else r ← k; uacpi_namespace_read_unlock;; mret r.

Definition uacpi_namespace_node_type (node : Z) : M namespace (uacpi_status * Z) :=
  with_read_lock 0 (uacpi_namespace_node_type_unlocked node).

Definition uacpi_namespace_node_is_one_of (node type_mask : Z) : M namespace (uacpi_status * bool) :=
  with_read_lock false (uacpi_namespace_node_is_one_of_unlocked node type_mask).

Definition uacpi_namespace_node_is (node type : Z) : M namespace (uacpi_status * bool) :=
  uacpi_namespace_node_is_one_of node (u32 (Z.shiftl 1 type)).

(** ** Iteration *)

Definition UACPI_OBJECT_ANY_BIT : Z := 0xFFFFFFFF.
Definition UACPI_MAX_DEPTH_ANY : Z := 0xFFFFFFFF.

Definition UACPI_ITERATION_DECISION_CONTINUE : Z := 0.
Definition UACPI_ITERATION_DECISION_BREAK : Z := 1.
Definition UACPI_ITERATION_DECISION_NEXT_PEER : Z := 2.

Section iteration.
Context {U : Type}.

(** A callback has the user's data, the node and its depth, and does not
    change the namespace. *)
Definition uacpi_iteration_callback : Type := U → Z → Z → Z * U.

Section walk.
Context (descending_callback ascending_callback : option uacpi_iteration_callback).
Context (type_mask max_depth : Z) (should_lock permanent_only : bool).

(** The call of a callback, with the lock released around it.  [None] ends the
    iteration with the status. *)
Definition call_back (cb : option uacpi_iteration_callback) (user : U) (node depth : Z) :
    M namespace (uacpi_status * option Z * U) :=
  match cb with
  | None => mret (UACPI_STATUS_OK, Some UACPI_ITERATION_DECISION_CONTINUE, user)
  | Some cb =>
      (if should_lock then uacpi_namespace_read_unlock;; mret tt else mret tt);;
      let '(decision, user) := cb user node depth in
      if decision =? UACPI_ITERATION_DECISION_BREAK then mret (UACPI_STATUS_OK, None, user)
      else
        ret ← (if should_lock then uacpi_namespace_read_lock else mret UACPI_STATUS_OK);
        mret (ret, if bool_decide (ret = UACPI_STATUS_OK) then Some decision else None, user)
  end.

Definition unlocked {A : Type} (a : A) : M namespace A :=
  if should_lock then uacpi_namespace_read_unlock;; mret a else mret a.

(** [while (depth)].  [matches] keeps its value when the type is not known. *)
Fixpoint walk_loop (fuel : nat) (node depth : Z) (walking_up matches : bool) (user : U) : M namespace (uacpi_status * U) :=
  match fuel with
  | O => nofuel
  | S fuel =>
      if depth =? 0 then unlocked (UACPI_STATUS_OK, user)
      else
        '(st, is_one) ← uacpi_namespace_node_is_one_of_unlocked node type_mask;
        let matches := if bool_decide (st = UACPI_STATUS_OK) then is_one else matches in
        n ← read_node node;
        '(ret, decision, user) ←
          (if negb matches then mret (UACPI_STATUS_OK, Some UACPI_ITERATION_DECISION_CONTINUE, user)
           else if permanent_only && uacpi_namespace_node_is_temporary n then
             mret (UACPI_STATUS_OK, Some UACPI_ITERATION_DECISION_NEXT_PEER, user)
           else call_back (if walking_up then ascending_callback else descending_callback) user node depth);
        match decision with
        | None => mret (ret, user)
        | Some decision =>
            if walking_up then
              if negb (nd_next n =? 0) then walk_loop fuel (nd_next n) depth false matches user
              else walk_loop fuel (nd_parent n) (u32 (depth - 1)) true matches user
            else if (decision =? UACPI_ITERATION_DECISION_CONTINUE) && negb (depth =? max_depth) && negb (nd_child n =? 0) then
              walk_loop fuel (nd_child n) (u32 (depth + 1)) false matches user
            else if (decision =? UACPI_ITERATION_DECISION_CONTINUE) || (decision =? UACPI_ITERATION_DECISION_NEXT_PEER) then
              walk_loop fuel node depth true matches user
            else unlocked (UACPI_STATUS_INVALID_ARGUMENT, user)
        end
  end.

(** Every node is visited twice. *)
Definition uacpi_namespace_do_for_each_child (node : Z) (user : U) : M namespace (uacpi_status * U) :=
  ensure_level (λ st, (st, user)) (
    match descending_callback, ascending_callback with
    | None, None => mret (UACPI_STATUS_INVALID_ARGUMENT, user)
    | _, _ =>
        if (node =? 0) || (max_depth =? 0) then mret (UACPI_STATUS_INVALID_ARGUMENT, user)
        else
          ret ← (if should_lock then uacpi_namespace_read_lock else mret UACPI_STATUS_OK);
          if negb (bool_decide (ret = UACPI_STATUS_OK)) then mret (ret, user)
          else
            n ← read_node node;
            if nd_child n =? 0 then unlocked (UACPI_STATUS_OK, user)
            else bound ← node_bound; walk_loop (S (2 * bound)) (nd_child n) 1 false false user
    end).
End walk.

Definition uacpi_namespace_for_each_child (parent : Z) (descending ascending : option uacpi_iteration_callback)
    (type_mask max_depth : Z) (user : U) : M namespace (uacpi_status * U) :=
  uacpi_namespace_do_for_each_child descending ascending type_mask max_depth true true parent user.

Definition uacpi_namespace_for_each_child_simple (parent : Z) (callback : option uacpi_iteration_callback) (user : U) :
    M namespace (uacpi_status * U) :=
  uacpi_namespace_do_for_each_child callback None UACPI_OBJECT_ANY_BIT UACPI_MAX_DEPTH_ANY true true parent user.
End iteration.

(** [for (; node != UACPI_NULL; node = node->next)]. *)
Fixpoint next_loop (fuel : nat) (node type_mask : Z) : M namespace (uacpi_status * Z) :=
  match fuel with
  | O => nofuel
  | S fuel =>
      if node =? 0 then mret (UACPI_STATUS_OK, 0)
      else
        n ← read_node node;
        if uacpi_namespace_node_is_temporary n then next_loop fuel (nd_next n) type_mask
        else
          '(ret, is_one) ← uacpi_namespace_node_is_one_of_unlocked node type_mask;
          if negb (bool_decide (ret = UACPI_STATUS_OK)) || is_one then mret (ret, node)
          else next_loop fuel (nd_next n) type_mask
  end.

(** The second result is the new [*iter]. *)
Definition uacpi_namespace_node_next_typed (parent iter type_mask : Z) : M namespace (uacpi_status * Z) :=
  ensure_level (λ st, (st, iter)) (
    if (parent =? 0) && (iter =? 0) then mret (UACPI_STATUS_INVALID_ARGUMENT, iter)
    else
      ret ← uacpi_namespace_read_lock;
      if negb (bool_decide (ret = UACPI_STATUS_OK)) then mret (ret, iter)
      else
        node ← (if iter =? 0 then n ← read_node parent; mret (nd_child n) else n ← read_node iter; mret (nd_next n));
        bound ← node_bound;
        '(ret, node) ← next_loop (S bound) node type_mask;
        uacpi_namespace_read_unlock;;
        if node =? 0 then mret (UACPI_STATUS_NOT_FOUND, iter)
        else mret (ret, if bool_decide (ret = UACPI_STATUS_OK) then node else iter)).

Definition uacpi_namespace_node_next (parent iter : Z) : M namespace (uacpi_status * Z) :=
  uacpi_namespace_node_next_typed parent iter UACPI_OBJECT_ANY_BIT.

(** ** Paths *)

Fixpoint depth_loop (fuel : nat) (node : Z) (depth : Z) : M namespace Z :=
  match fuel with
  | O => nofuel
  | S fuel => n ← read_node node; if nd_parent n =? 0 then mret depth else depth_loop fuel (nd_parent n) (u64 (depth + 1))
  end.

Definition uacpi_namespace_node_depth (node : Z) : M namespace Z := bound ← node_bound; depth_loop bound node 0.

Definition uacpi_namespace_node_parent (node : Z) : M namespace Z := n ← read_node node; mret (nd_parent n).

(** Bytes are stored into the buffer of the path; outside of it is a fault. *)
Definition store_at (offset : Z) (bytes buf : list Z) : M namespace (list Z) :=
  if (0 <=? offset) && (offset + Z.of_nat (length bytes) <=? Z.of_nat (length buf)) then
    mret (take (Z.to_nat offset) buf ++ bytes ++ drop (Z.to_nat offset + length bytes) buf)
  else fault offset.

(** The names from the node up to the root are stored from the end. *)
Fixpoint path_loop (fuel : nat) (node offset : Z) (path : list Z) : M namespace (list Z) :=
  match fuel with
  | O => nofuel
  | S fuel =>
      if node =? uacpi_namespace_root then mret path
      else
        let offset := u64 (offset - 4) in
        n ← read_node node;
        path ← store_at offset (nd_name n) path;
        let node := nd_parent n in
        if node =? uacpi_namespace_root then path_loop fuel node offset path
        else
          let offset := u64 (offset - 1) in
          path ← store_at offset [CHAR_DOT] path;
          path_loop fuel node offset path
  end.

(** The path with its terminator, [None] if there is no memory for it.  What
    fresh memory holds is given by [fresh]. *)
Definition uacpi_namespace_node_generate_absolute_path (fresh : Z → Z) (node : Z) : M namespace (option (list Z)) :=
  depth ← uacpi_namespace_node_depth node;
  let depth := u64 (depth + 1) in
  let bytes_needed := u64 (1 + (depth - 1) * 4) in
  let bytes_needed := u64 (bytes_needed + (if 2 <? depth then depth - 2 else 0)) in
  let bytes_needed := u64 (bytes_needed + 1) in
  l ← gets ns_allocs;
  match l with
  | [] => mret None
  | p :: l =>
      modify (with_allocs l);;
      if p =? 0 then mret None
      else
        let path := map fresh (seqZ 0 bytes_needed) in
        path ← store_at 0 [CHAR_ROOT] path;
        let offset := u64 (bytes_needed - 1) in
        path ← store_at offset [0] path;
        bound ← node_bound;
        path ← path_loop (S bound) node offset path;
        mret (Some path)
  end.
