(* ===== verification/UacpiNamespaceThms.v ===== *)
(** * The namespace is a tree

    The pointers of the nodes represent a function that gives the children of
    every node in order.  Installing a node appends it to the children of its
    parent, uninstalling removes it, the lookups find what a search in the
    lists of children finds, and the iteration without a stack visits the
    nodes as a recursive traversal does. *)

From S2P Require Import Prelude Tables UacpiOpcodes UacpiNamespace.
Local Open Scope Z_scope.
Local Open Scope kernel_scope.

(** ** Representation *)

(** The nodes [l] are linked from [head] to [tail]. *)
Fixpoint linked (m : gmap Z uacpi_namespace_node) (l : list Z) (head tail : Z) : Prop :=
  match l with
  | [] => head = tail
  | p :: l => head = p ∧ p ≠ 0 ∧ ∃ n, m !! p = Some n ∧ linked m l (nd_next n) tail
  end.

Record ns_tree (m : gmap Z uacpi_namespace_node) (kids : Z → list Z) : Prop := {
  t_root : ∃ n, m !! uacpi_namespace_root = Some n ∧ nd_parent n = 0;
  t_null : m !! 0 = None;
  t_kids : ∀ p n, m !! p = Some n → linked m (kids p) (nd_child n) 0;
  t_parent : ∀ p c n, c ∈ kids p → m !! c = Some n → nd_parent n = p;
  t_dom : ∀ p c, c ∈ kids p → is_Some (m !! p);
  t_nodup : ∀ p, NoDup (kids p)
}.

Lemma linked_app m l1 l2 head tail :
  linked m (l1 ++ l2) head tail ↔ ∃ mid, linked m l1 head mid ∧ linked m l2 mid tail.
Proof.
  revert head. induction l1 as [|p l1 IH]; intros head; simpl.
  - split; [eauto|]. by intros (mid & -> & ?).
  - split.
    + intros (-> & Hp & n & Hn & (mid & H1 & H2)%IH). exists mid. eauto 6.
    + intros (mid & (-> & Hp & n & Hn & H1) & H2). split; [done|]. split; [done|]. exists n. rewrite IH. eauto.
Qed.

Lemma linked_elem m l head tail c : linked m l head tail → c ∈ l → c ≠ 0 ∧ is_Some (m !! c).
Proof.
  revert head. induction l as [|p l IH]; intros head; simpl; [set_solver|].
  intros (-> & Hp & n & Hn & Hl) [->|Hc]%elem_of_cons; [eauto|by eapply IH].
Qed.

Lemma linked_frame m m' l head tail :
  (∀ c n, c ∈ l → m !! c = Some n → ∃ n', m' !! c = Some n' ∧ nd_next n' = nd_next n) →
  linked m l head tail → linked m' l head tail.
Proof.
  revert head. induction l as [|p l IH]; intros head Hm; simpl; [done|].
  intros (-> & Hp & n & Hn & Hl). destruct (Hm p n) as (n' & Hn' & E); [set_solver|done|].
  split; [done|]. split; [done|]. exists n'. split; [done|]. rewrite E. apply IH; [|done]. set_solver.
Qed.

Lemma linked_head m l head : linked m l head 0 → head = 0 ↔ l = [].
Proof. destruct l as [|p l]; simpl; [naive_solver|]. intros (-> & ? & _). split; [done|discriminate]. Qed.

Lemma kids_elem m kids p c : ns_tree m kids → c ∈ kids p → c ≠ 0 ∧ ∃ n, m !! c = Some n ∧ nd_parent n = p.
Proof.
  intros Ht Hc. destruct (t_dom _ _ Ht p c Hc) as [pn Hpn].
  destruct (linked_elem _ _ _ _ c (t_kids _ _ Ht p pn Hpn) Hc) as [Hne [n Hn]]. eauto using t_parent.
Qed.

Lemma root_no_kid m kids p : ns_tree m kids → uacpi_namespace_root ∉ kids p.
Proof.
  intros Ht Hc. destruct (kids_elem _ _ _ _ Ht Hc) as (_ & n & Hn & Hp).
  destruct (t_root _ _ Ht) as (n' & Hn' & Hp'). destruct (t_dom _ _ Ht p _ Hc) as [pn Hpn].
  simplify_eq. rewrite Hp' in Hpn. by rewrite (t_null _ _ Ht) in Hpn.
Qed.

(** A list of nodes is no longer than the map. *)
Lemma nodes_bound (m : gmap Z uacpi_namespace_node) l :
  NoDup l → (∀ c, c ∈ l → is_Some (m !! c)) → (length l ≤ size m)%nat.
Proof.
  intros Hnd Hin. rewrite <-(size_list_to_set (C:=gset Z) l Hnd), <-size_dom.
  apply subseteq_size. intros c Hc%elem_of_list_to_set. by apply elem_of_dom, Hin.
Qed.

Lemma kids_bound m kids p : ns_tree m kids → (length (kids p) ≤ size m)%nat.
Proof.
  intros Ht. apply nodes_bound; [by eapply t_nodup|]. intros c Hc.
  destruct (kids_elem _ _ _ _ Ht Hc) as (_ & n & Hn & _). eauto.
Qed.

(** ** Steps of the code *)

Lemma read_node_ok p n s : ns_nodes s !! p = Some n → read_node p s = Ok (n, s).
Proof. intros E. unfold read_node. by rewrite E. Qed.

Lemma upd_node_ok p n f s :
  ns_nodes s !! p = Some n → upd_node p f s = Ok (tt, with_nodes (<[p := f n]> (ns_nodes s)) s).
Proof. intros E. unfold upd_node. by rewrite (bind_ok _ _ _ _ _ (read_node_ok p n s E)). Qed.

(** One access to a node. *)
Ltac node E := rewrite (bind_ok _ _ _ _ _ (read_node_ok _ _ _ E)); cbn beta.

(** ** Lookup *)

Definition name_of (m : gmap Z uacpi_namespace_node) (p : Z) : list Z :=
  match m !! p with Some n => nd_name n | None => [] end.

(** The first of the nodes with a name. *)
Fixpoint first_named (m : gmap Z uacpi_namespace_node) (l : list Z) (name : list Z) : Z :=
  match l with
  | [] => 0
  | p :: l => if bool_decide (name_of m p = name) then p else first_named m l name
  end.

Lemma find_peer_ok s l head name fuel :
  linked (ns_nodes s) l head 0 → (length l < fuel)%nat →
  find_peer fuel head name s = Ok (first_named (ns_nodes s) l name, s).
Proof.
  revert head fuel. induction l as [|p l IH]; intros head fuel H Hf; (destruct fuel as [|fuel]; [simpl in Hf; lia|]);
    simpl in *.
  - by subst head.
  - destruct H as (-> & Hp & n & Hn & Hl). rewrite (proj2 (Z.eqb_neq p 0) Hp). node Hn.
    unfold name_of. rewrite Hn. destruct (bool_decide _); [done|]. apply IH; [done|lia].
Qed.

Definition or_root (p : Z) : Z := if p =? 0 then uacpi_namespace_root else p.

(** A lookup among the children of a node, the root if there is none. *)
Lemma find_sub_node_ok s kids p pn name :
  ns_tree (ns_nodes s) kids → ns_nodes s !! or_root p = Some pn →
  uacpi_namespace_node_find_sub_node p name s = Ok (first_named (ns_nodes s) (kids (or_root p)) name, s).
Proof.
  intros Ht Hp. unfold uacpi_namespace_node_find_sub_node. fold (or_root p). cbv zeta. node Hp.
  unfold node_bound. rewrite (bind_ok _ _ _ _ _ eq_refl). apply find_peer_ok; [by eapply t_kids|].
  pose proof (kids_bound _ _ (or_root p) Ht). lia.
Qed.

Lemma or_root_ne p : p ≠ 0 → or_root p = p.
Proof. intros Hp. unfold or_root. by rewrite (proj2 (Z.eqb_neq p 0) Hp). Qed.

Lemma first_named_unique m l c :
  c ∈ l → (∀ c', c' ∈ l → name_of m c' = name_of m c → c' = c) → first_named m l (name_of m c) = c.
Proof.
  induction l as [|p l IH]; intros Hc Hu; [set_solver|]. simpl. case_bool_decide as E; [apply Hu; [left|done]|].
  apply IH; [|intros; apply Hu; [by right|done]]. apply elem_of_cons in Hc as [->|]; [done|done].
Qed.

(** ** Lineages *)

(** The nodes from the root, which is left out, down to a node. *)
Inductive lineage (kids : Z → list Z) : list Z → Z → Prop :=
| lineage_root : lineage kids [] uacpi_namespace_root
| lineage_kid l p c : lineage kids l p → c ∈ kids p → lineage kids (l ++ [c]) c.

Section lineage.
Context (m : gmap Z uacpi_namespace_node) (kids : Z → list Z) (Ht : ns_tree m kids).

Lemma lineage_node l c : lineage kids l c → ∃ n, m !! c = Some n ∧ c ≠ 0.
Proof.
  destruct 1 as [|l p c _ Hc].
  - destruct (t_root _ _ Ht) as (n & Hn & _). exists n. by split.
  - destruct (kids_elem _ _ _ _ Ht Hc) as (? & n & ? & _). eauto.
Qed.

Lemma lineage_inv l c :
  lineage kids l c →
  (l = [] ∧ c = uacpi_namespace_root) ∨
  (∃ l' p n, l = l' ++ [c] ∧ lineage kids l' p ∧ c ∈ kids p ∧ m !! c = Some n ∧ nd_parent n = p ∧ c ≠ uacpi_namespace_root).
Proof.
  destruct 1 as [|l p c Hl Hc]; [auto|]. right. destruct (kids_elem _ _ _ _ Ht Hc) as (_ & n & Hn & Hp).
  exists l, p, n. repeat split; try done. intros ->. by apply (root_no_kid _ _ _ Ht Hc).
Qed.

Lemma lineage_unique l l' c : lineage kids l c → lineage kids l' c → l = l'.
Proof.
  intros H. revert l'. induction H as [|l p c Hl IH Hc]; intros l' H'.
  - destruct (lineage_inv _ _ H') as [[-> _]|(? & ? & ? & _ & _ & _ & _ & _ & ?)]; done.
  - destruct (kids_elem _ _ _ _ Ht Hc) as (_ & n & Hn & Hp).
    destruct (lineage_inv _ _ H') as [[_ ->]|(l2 & p2 & n2 & -> & Hl2 & Hc2 & Hn2 & Hp2 & _)].
    { by destruct (root_no_kid _ _ _ Ht Hc). }
    simplify_eq. by rewrite (IH l2).
Qed.

Lemma lineage_prefix l1 l2 c : lineage kids (l1 ++ l2) c → ∃ p, lineage kids l1 p.
Proof.
  revert c. induction l2 as [|x l2 IH] using rev_ind; intros c; [rewrite app_nil_r; eauto|].
  rewrite app_assoc. intros [[? _]|(l' & p & n & E & Hl & _)]%lineage_inv; [by destruct (l1 ++ l2)|].
  apply app_inj_tail in E as [<- _]. eauto.
Qed.

Lemma lineage_last l x c : lineage kids (l ++ [x]) c → c = x.
Proof.
  intros [[E _]|(l' & p & n & E & _)]%lineage_inv; [by destruct l|]. by apply app_inj_tail in E as [_ ->].
Qed.

Lemma lineage_nodup l c : lineage kids l c → NoDup (uacpi_namespace_root :: l).
Proof.
  induction 1 as [|l p c Hl IH Hc]; [apply NoDup_singleton|].
  change (NoDup ((uacpi_namespace_root :: l) ++ [c])). apply NoDup_app. split; [done|].
  split; [|apply NoDup_singleton]. intros x Hx ->%list_elem_of_singleton.
  apply elem_of_cons in Hx as [->|Hx]; [by apply (root_no_kid _ _ _ Ht Hc)|].
  apply list_elem_of_split in Hx as (l1 & l2 & ->).
  assert (lineage kids (l1 ++ [c]) c) as H1.
  { replace (l1 ++ c :: l2) with ((l1 ++ [c]) ++ l2) in Hl by by rewrite <-app_assoc.
    destruct (lineage_prefix _ _ _ Hl) as [q Hq]. pose proof (lineage_last _ _ _ Hq) as ->. done. }
  pose proof (lineage_unique _ _ _ H1 (lineage_kid _ _ _ _ Hl Hc)) as E.
  apply (f_equal length) in E. rewrite !length_app in E. simpl in E. lia.
Qed.

Lemma lineage_elem l c x : lineage kids l c → x ∈ l → is_Some (m !! x).
Proof.
  induction 1 as [|l p c Hl IH Hc]; [set_solver|]. intros [Hx| ->%list_elem_of_singleton]%elem_of_app; [auto|].
  destruct (kids_elem _ _ _ _ Ht Hc) as (_ & n & ? & _). eauto.
Qed.

Lemma lineage_bound l c : lineage kids l c → (length l < size m)%nat.
Proof.
  intros Hl. change (length (uacpi_namespace_root :: l) ≤ size m)%nat.
  apply nodes_bound; [by eapply lineage_nodup|]. intros x [->|Hx]%elem_of_cons; [|by eapply lineage_elem].
  destruct (t_root _ _ Ht) as (n & Hn & _). eauto.
Qed.
End lineage.

(** ** Paths *)

Fixpoint dotted (names : list (list Z)) : list Z :=
  match names with
  | [] => []
  | [x] => x
  | x :: names => x ++ CHAR_DOT :: dotted names
  end.

Lemma dotted_cons x names : names ≠ [] → dotted (x :: names) = x ++ CHAR_DOT :: dotted names.
Proof. by destruct names. Qed.

Lemma dotted_snoc names x : names ≠ [] → dotted (names ++ [x]) = dotted names ++ CHAR_DOT :: x.
Proof.
  induction names as [|y names IH]; [done|]. intros _. destruct names as [|z names]; [done|].
  change ((y :: z :: names) ++ [x]) with (y :: ((z :: names) ++ [x])). rewrite dotted_cons by by destruct names.
  rewrite IH, (dotted_cons y (z :: names)) by done. by rewrite <-app_assoc.
Qed.

Lemma length_dotted names :
  Forall (λ x, length x = 4%nat) names → length (dotted names) = (4 * length names + (length names - 1))%nat.
Proof.
  induction names as [|x names IH] using rev_ind; [done|]. intros [H1 H2]%Forall_app. rewrite Forall_singleton in H2.
  destruct names as [|y names]; [simpl in *; lia|]. rewrite dotted_snoc by done. rewrite !length_app, IH by done. simpl in *. lia.
Qed.

(** What the names of nodes look like. *)
Definition name_ok (name : list Z) : Prop := length name = 4%nat ∧ Forall (λ c, c ≠ CHAR_DOT ∧ c ≠ 0) name.

Definition names_ok (m : gmap Z uacpi_namespace_node) (kids : Z → list Z) : Prop :=
  ∀ p c, c ∈ kids p → name_ok (name_of m c) ∧ ∀ c', c' ∈ kids p → name_of m c' = name_of m c → c' = c.

Definition absolute_path (m : gmap Z uacpi_namespace_node) (l : list Z) : list Z :=
  CHAR_ROOT :: dotted (map (name_of m) l).

Section paths.
Context (s : namespace) (kids : Z → list Z) (Ht : ns_tree (ns_nodes s) kids) (Hnames : names_ok (ns_nodes s) kids).
Let m := ns_nodes s.

Lemma lineage_names l c : lineage kids l c → Forall (λ x, length x = 4%nat) (map (name_of m) l).
Proof.
  induction 1 as [|l p c Hl IH Hc]; [constructor|]. rewrite map_app. apply Forall_app. split; [done|].
  apply Forall_singleton. by apply (Hnames p c Hc).
Qed.

Lemma depth_loop_ok l c fuel acc :
  lineage kids l c → (length l < fuel)%nat → 0 ≤ acc → acc + Z.of_nat (length l) < 2 ^ 64 →
  depth_loop fuel c acc s = Ok (acc + Z.of_nat (length l), s).
Proof.
  intros Hl. revert fuel acc. induction Hl as [|l p c Hl IH Hc]; intros fuel acc Hf H0 Hacc;
    (destruct fuel as [|fuel]; [lia|]); simpl.
  - destruct (t_root _ _ Ht) as (n & Hn & Hp). node Hn. rewrite Hp, Z.add_0_r. done.
  - destruct (kids_elem _ _ _ _ Ht Hc) as (_ & n & Hn & Hp). node Hn. rewrite Hp.
    destruct (lineage_node _ _ Ht _ _ Hl) as (pn & _ & Hp0). rewrite (proj2 (Z.eqb_neq p 0) Hp0).
    rewrite length_app in Hf, Hacc |- *. simpl in Hf, Hacc. rewrite (wrap_small _ (acc + 1)) by lia. rewrite IH by lia. simpl. by replace (acc + 1 + Z.of_nat (length l)) with (acc + Z.of_nat (length l + 1)) by lia.
Qed.

Lemma store_at_ok off bytes pre old post :
  Z.of_nat (length pre) = off → length old = length bytes →
  store_at off bytes (pre ++ old ++ post) s = Ok (pre ++ bytes ++ post, s).
Proof.
  intros <- Hlen. unfold store_at. rewrite !length_app.
  rewrite (proj2 (Z.leb_le 0 _)) by lia. rewrite (proj2 (Z.leb_le _ _)) by lia. cbn [andb]. unfold mret, M_ret. do 3 f_equal.
  rewrite Nat2Z.id, take_app_length. f_equal. f_equal.
  rewrite drop_app_ge by lia. by rewrite drop_app_length' by lia.
Qed.

Lemma split_end (l : list Z) k : (k ≤ length l)%nat → ∃ a b, l = a ++ b ∧ length b = k.
Proof.
  intros Hk. exists (take (length l - k) l), (drop (length l - k) l). rewrite take_drop, length_drop. split; [done|lia].
Qed.

(** The names fill the buffer from the end, over what is there. *)
Lemma path_loop_ok l c fuel off pre old post :
  lineage kids l c → (length l < fuel)%nat → length old = length (dotted (map (name_of m) l)) →
  Z.of_nat (length pre + length old) = off → off < 2 ^ 64 →
  path_loop fuel c off (pre ++ old ++ post) s = Ok (pre ++ dotted (map (name_of m) l) ++ post, s).
Proof.
  intros Hl. revert fuel off pre old post. induction Hl as [|l p c Hl IH Hc]; intros fuel off pre old post Hf Hold Hoff Hmax;
    (destruct fuel as [|fuel]; [lia|]); cbn [path_loop].
  { destruct old; [done|simpl in Hold; lia]. }
  destruct (kids_elem _ _ _ _ Ht Hc) as (_ & n & Hn & Hp).
  assert (c =? uacpi_namespace_root = false) as ->.
  { apply Z.eqb_neq. intros ->. by apply (root_no_kid _ _ _ Ht Hc). }
  assert (Hname : name_of m c = nd_name n) by (unfold name_of, m; by rewrite Hn).
  destruct (Hnames p c Hc) as [[Hlen _] _]. fold m in Hlen. rewrite Hname in Hlen.
  pose proof (length_dotted _ (lineage_names _ _ (lineage_kid _ _ _ _ Hl Hc))) as Hdot.
  rewrite map_app in Hold, Hdot |- *. rewrite length_app, length_map in Hdot. simpl in Hdot, Hold |- *. rewrite Hname in *.
  destruct (split_end old 4) as (o1 & o2 & -> & Ho2); [rewrite Hold, Hdot; simpl; lia|].
  rewrite length_app in Hold, Hoff. node Hn.
  assert (Hst : store_at (u64 (off - 4)) (nd_name n) (pre ++ (o1 ++ o2) ++ post) s = Ok (pre ++ o1 ++ nd_name n ++ post, s)).
  { rewrite <-(app_assoc o1), (app_assoc pre), store_at_ok; [by rewrite <-app_assoc| |lia].
    rewrite length_app. rewrite wrap_small by lia. lia. }
  rewrite (bind_ok _ _ _ _ _ Hst), Hp. rewrite length_app in Hf. simpl in Hf.
  destruct l as [|x l] using rev_ind.
  - pose proof (lineage_unique _ _ Ht _ _ _ Hl Hl) as _.
    assert (p = uacpi_namespace_root) as ->.
    { destruct (lineage_inv _ _ Ht _ _ Hl) as [[_ ?]|(? & ? & ? & E & _)]; [done|]. by destruct x. }
    simpl. destruct o1; [|simpl in *; lia]. simpl.
    destruct fuel; [lia|]. simpl. done.
  - clear IHl.
    assert (p ≠ uacpi_namespace_root) as Hpr.
    { intros ->. pose proof (lineage_unique _ _ Ht _ _ _ Hl (lineage_root kids)). by destruct l. }
    rewrite (proj2 (Z.eqb_neq _ _) Hpr). set (l' := l ++ [x]) in *.
    assert (map (name_of m) l' ≠ []) as Hne by (subst l'; by rewrite map_app; destruct (map (name_of m) l)).
    rewrite dotted_snoc in Hold |- * by done. rewrite length_app in Hold. simpl in Hold.
    destruct (split_end o1 1) as (o3 & o4 & -> & Ho4); [lia|]. rewrite length_app in Hold, Hoff.
    assert (Hw : u64 (u64 (off - 4) - 1) = off - 5).
    { rewrite (wrap_small _ (off - 4)) by lia. rewrite wrap_small by lia. lia. }
    assert (Hst2 : store_at (u64 (u64 (off - 4) - 1)) [CHAR_DOT] (pre ++ (o3 ++ o4) ++ nd_name n ++ post) s =
                   Ok (pre ++ o3 ++ [CHAR_DOT] ++ nd_name n ++ post, s)).
    { rewrite <-(app_assoc o3), (app_assoc pre), store_at_ok; [by rewrite <-app_assoc| |by rewrite Ho4].
      rewrite length_app, Hw. lia. }
    rewrite (bind_ok _ _ _ _ _ Hst2). rewrite IH; [by rewrite <-!app_assoc|lia|lia| |].
    + rewrite Hw. lia.
    + rewrite Hw. lia.
Qed.
End paths.

(** ** A path leads back to its node *)

(** What a function sees of a string: the bytes before the first zero. *)
Fixpoint c_string (l : list Z) : list Z :=
  match l with
  | [] => []
  | c :: l => if c =? 0 then [] else c :: c_string l
  end.

Lemma c_string_app l rest : Forall (λ c, c ≠ 0) l → c_string (l ++ 0 :: rest) = l.
Proof. induction 1 as [|c l Hc _ IH]; [done|]. simpl. by rewrite (proj2 (Z.eqb_neq c 0) Hc), IH. Qed.

Lemma segment_chars_ok name rest :
  Forall (λ c, c ≠ CHAR_DOT ∧ c ≠ 0) name → segment_chars (length name) (name ++ rest) = (name, rest).
Proof.
  induction 1 as [|c name [Hc _] _ IH]; [done|]. simpl. by rewrite (proj2 (Z.eqb_neq c _) Hc), IH.
Qed.

Lemma dotted_nonzero names : Forall name_ok names → Forall (λ c, c ≠ 0) (dotted names).
Proof.
  induction names as [|x names IH]; [constructor|]. intros [Hx Hn]%Forall_cons.
  assert (Forall (λ c, c ≠ 0) x) as Hx'. { eapply Forall_impl; [apply Hx|]. by intros c [_ ?]. }
  destruct names as [|y names]; [done|]. rewrite dotted_cons by done. apply Forall_app. split; [done|].
  constructor; [done|]. by apply IH.
Qed.

Section resolve.
Context (s : namespace) (kids : Z → list Z) (Ht : ns_tree (ns_nodes s) kids) (Hnames : names_ok (ns_nodes s) kids).
Let m := ns_nodes s.

Lemma lineage_fun l c c' : lineage kids l c → lineage kids l c' → c = c'.
Proof.
  destruct l as [|x l _] using rev_ind; intros H1 H2.
  - destruct (lineage_inv _ _ Ht _ _ H1) as [[_ ->]|(l' & ? & ? & E & _)]; [|by destruct l'].
    destruct (lineage_inv _ _ Ht _ _ H2) as [[_ ->]|(l' & ? & ? & E & _)]; [done|by destruct l'].
  - by rewrite (lineage_last _ _ Ht _ _ _ H1), (lineage_last _ _ Ht _ _ _ H2).
Qed.

Lemma lineage_step l x c : lineage kids (l ++ [x]) c → c = x ∧ ∃ p, lineage kids l p ∧ x ∈ kids p.
Proof.
  intros H. pose proof (lineage_last _ _ Ht _ _ _ H) as ->. split; [done|].
  destruct (lineage_inv _ _ Ht _ _ H) as [[E _]|(l' & p & n & E & Hl & Hc & _)]; [by destruct l|].
  apply app_inj_tail in E as [-> _]. eauto.
Qed.

Lemma lineage_name_ok l c : lineage kids l c → Forall name_ok (map (name_of m) l).
Proof.
  induction 1 as [|l p c Hl IH Hc]; [constructor|]. rewrite map_app. apply Forall_app. split; [done|].
  apply Forall_singleton. by apply (Hnames p c Hc).
Qed.

(** A segment, after a dot or not, leads to the child with its name. *)
Lemma segment_step p pn x rest dot fuel parent search :
  m !! p = Some pn → p ≠ 0 → x ∈ kids p → dot = [] ∨ dot = [CHAR_DOT] →
  resolve_segments (S fuel) (dot ++ name_of m x ++ rest) parent p false search s =
  resolve_segments fuel rest parent x false search s.
Proof.
  intros Hp Hp0 Hx Hdot. destruct (Hnames p x Hx) as [[Hlen Hchars] Huniq].
  destruct (kids_elem _ _ _ _ Ht Hx) as (Hx0 & _).
  assert (∃ c path', dot ++ name_of m x ++ rest = c :: path' ∧
                     (if c =? CHAR_DOT then path' else c :: path') = name_of m x ++ rest) as (c & path' & E & Epath).
  { destruct Hdot as [-> | ->]; [|by exists CHAR_DOT, (name_of m x ++ rest)].
    fold m in Hchars, Hlen. destruct (name_of m x) as [|c name]; [done|]. exists c, (name ++ rest). split; [done|].
    apply Forall_cons in Hchars as [[Hc _] _]. by rewrite (proj2 (Z.eqb_neq c _) Hc). }
  rewrite E. cbn [resolve_segments]. rewrite Epath. unfold segment_to_name.
  replace 4%nat with (length (name_of m x)) by done. rewrite segment_chars_ok by done. cbn [andb].
  rewrite (bind_ok _ _ _ _ _ (find_sub_node_ok s kids p pn _ Ht ltac:(by rewrite or_root_ne))).
  rewrite or_root_ne by done. fold m. rewrite first_named_unique by done. by rewrite (proj2 (Z.eqb_neq x 0) Hx0).
Qed.

Lemma resolve_segments_ok l2 : ∀ l1 p c dot fuel parent search,
  lineage kids l1 p → lineage kids (l1 ++ l2) c → dot = [] ∨ (dot = [CHAR_DOT] ∧ l2 ≠ []) → (length l2 < fuel)%nat →
  resolve_segments fuel (dot ++ dotted (map (name_of m) l2)) parent p false search s = Ok (c, s).
Proof.
  induction l2 as [|x l2 IH]; intros l1 p c dot fuel parent search Hp Hc Hdot Hf; (destruct fuel as [|fuel]; [simpl in Hf; lia|]).
  { rewrite app_nil_r in Hc. rewrite (lineage_fun _ _ _ Hc Hp). by destruct Hdot as [->|[_ ?]]. }
  replace (l1 ++ x :: l2) with ((l1 ++ [x]) ++ l2) in Hc by by rewrite <-app_assoc.
  destruct (lineage_prefix _ _ Ht _ _ _ Hc) as [q Hq]. destruct (lineage_step _ _ _ Hq) as (-> & p' & Hp' & Hx).
  rewrite (lineage_fun _ _ _ Hp' Hp) in Hx. destruct (lineage_node _ _ Ht _ _ Hp) as (pn & Hpn & Hp0). simpl in Hf.
  assert (dot = [] ∨ dot = [CHAR_DOT]) as Hdot' by naive_solver.
  destruct l2 as [|y l2].
  - change (dotted (map (name_of m) [x])) with (name_of m x).
    rewrite <-(app_nil_r (name_of m x)), (segment_step p pn) by done. apply (IH _ _ _ [] _ _ _ Hq); auto with lia.
  - rewrite map_cons, dotted_cons by done. rewrite (segment_step p pn) by done.
    apply (IH _ _ _ [CHAR_DOT] _ _ _ Hq); [done|by right|lia].
Qed.
End resolve.

Lemma read_lock_ok s :
  ns_lock_status s = UACPI_STATUS_OK →
  uacpi_namespace_read_lock s = Ok (UACPI_STATUS_OK, with_readers (ns_readers s + 1) s).
Proof. intros E. unfold uacpi_namespace_read_lock. by rewrite (bind_ok _ _ _ _ _ eq_refl), E. Qed.

Lemma readers_back s : with_readers (ns_readers s + 1 - 1) (with_readers (ns_readers s + 1) s) = s.
Proof. destruct s. unfold with_readers. simpl. f_equal. lia. Qed.

(** The lookup of an absolute path. *)
Lemma resolve_absolute s kids l c n parent should_lock may_search permanent_only :
  ns_tree (ns_nodes s) kids → names_ok (ns_nodes s) kids → lineage kids l c → ns_nodes s !! c = Some n →
  permanent_only && uacpi_namespace_node_is_temporary n = false → ns_lock_status s = UACPI_STATUS_OK →
  uacpi_namespace_node_resolve parent (absolute_path (ns_nodes s) l) should_lock may_search permanent_only s =
    Ok ((UACPI_STATUS_OK, c), s).
Proof.
  intros Ht Hnames Hl Hn Htemp Hst. rewrite andb_comm in Htemp.
  assert (∀ s' : namespace, ns_nodes s' = ns_nodes s →
    resolve_segments (S (length (dotted (map (name_of (ns_nodes s)) l)))) (dotted (map (name_of (ns_nodes s)) l))
      parent uacpi_namespace_root false may_search s' = Ok (c, s')) as Hseg.
  { intros s' E. rewrite <-E in *.
    apply (resolve_segments_ok s' kids Ht Hnames l [] uacpi_namespace_root c []); auto using lineage_root.
    rewrite (length_dotted _ (lineage_names s' kids Hnames _ _ Hl)), length_map. lia. }
  destruct (lineage_node _ _ Ht _ _ Hl) as (_ & _ & Hc0).
  unfold uacpi_namespace_node_resolve. cbv zeta. destruct should_lock.
  - rewrite (bind_ok _ _ _ _ _ (read_lock_ok s Hst)). rewrite bool_decide_eq_true_2 by done. cbn [negb].
    rewrite (bind_ok _ _ _ _ _ eq_refl). cbn beta iota.
    rewrite (bind_ok _ _ _ _ _ (Hseg (with_readers (ns_readers s + 1) s) eq_refl)), (proj2 (Z.eqb_neq c 0) Hc0).
    assert (Hn' : ns_nodes (with_readers (ns_readers s + 1) s) !! c = Some n) by done. node Hn'. rewrite Htemp.
    rewrite (bind_ok _ _ _ _ _ eq_refl). exact (f_equal (λ s', Ok (UACPI_STATUS_OK, c, s')) (readers_back s)).
  - rewrite (bind_ok _ _ _ _ _ eq_refl). rewrite bool_decide_eq_true_2 by done. cbn [negb].
    rewrite (bind_ok _ _ _ _ _ eq_refl). cbn beta iota.
    rewrite (bind_ok _ _ _ _ _ (Hseg _ eq_refl)), (proj2 (Z.eqb_neq c 0) Hc0). node Hn. by rewrite Htemp.
Qed.

Lemma first_last (l : list Z) k : length l = S (S k) → ∃ a mid b, l = a :: mid ++ [b] ∧ length mid = k.
Proof.
  destruct l as [|a l]; [done|]. destruct l as [|b mid _] using rev_ind; [done|].
  intros E. exists a, mid, b. split; [done|]. simpl in E. rewrite length_app in E. simpl in E. lia.
Qed.

(** The path of a node. *)
Lemma generate_absolute_path_ok s kids l c fresh a rest :
  ns_tree (ns_nodes s) kids → names_ok (ns_nodes s) kids → lineage kids l c →
  5 * Z.of_nat (length l) + 2 < 2 ^ 64 → ns_allocs s = a :: rest → a ≠ 0 →
  uacpi_namespace_node_generate_absolute_path fresh c s =
    Ok (Some (absolute_path (ns_nodes s) l ++ [0]), with_allocs rest s).
Proof.
  intros Ht Hnames Hl Hmax Ha Ha0. pose proof (lineage_bound _ _ Ht _ _ Hl) as Hb.
  set (names := map (name_of (ns_nodes s)) l).
  pose proof (length_dotted names (lineage_names s kids Hnames _ _ Hl)) as Hlen. unfold names in Hlen at 2 3.
  rewrite !length_map in Hlen.
  unfold uacpi_namespace_node_generate_absolute_path, uacpi_namespace_node_depth, node_bound.
  rewrite bind_assoc, (bind_ok _ _ _ _ _ eq_refl).
  rewrite (bind_ok _ _ _ _ _ (depth_loop_ok s kids Ht l c (size (ns_nodes s)) 0 Hl Hb ltac:(lia) ltac:(lia))).
  cbv zeta.
  assert (u64 (u64 (u64 (1 + (u64 (0 + Z.of_nat (length l) + 1) - 1) * 4) +
    (if 2 <? u64 (0 + Z.of_nat (length l) + 1) then u64 (0 + Z.of_nat (length l) + 1) - 2 else 0)) + 1) =
    2 + Z.of_nat (length (dotted names))) as ->.
  { rewrite (wrap_small _ (0 + Z.of_nat (length l) + 1)) by lia. destruct (Z.ltb_spec 2 (0 + Z.of_nat (length l) + 1));
      unwrap; lia. }
  rewrite (wrap_small _ (2 + _ - 1)) by lia.
  rewrite (bind_ok _ _ _ _ _ eq_refl), Ha. rewrite (bind_ok _ _ _ _ _ eq_refl), (proj2 (Z.eqb_neq a 0) Ha0).
  destruct (first_last (map fresh (seqZ 0 (2 + Z.of_nat (length (dotted names))))) (length (dotted names)))
    as (b0 & old & bl & -> & Hold).
  { rewrite length_map, length_seqZ. lia. }
  set (s' := with_allocs rest s).
  rewrite (bind_ok _ _ _ _ _ (store_at_ok s' 0 [CHAR_ROOT] [] [b0] (old ++ [bl]) eq_refl eq_refl)). cbn [app].
  assert (store_at (2 + Z.of_nat (length (dotted names)) - 1) [0] (CHAR_ROOT :: old ++ [bl]) s' =
    Ok (CHAR_ROOT :: old ++ [0], s')) as Hst.
  { rewrite (store_at_ok s' _ [0] (CHAR_ROOT :: old) [bl] []) by (simpl; lia). done. }
  rewrite (bind_ok _ _ _ _ _ Hst), (bind_ok _ _ _ _ _ eq_refl).
  assert (path_loop (S (size (ns_nodes s'))) c (2 + Z.of_nat (length (dotted names)) - 1) (CHAR_ROOT :: old ++ [0]) s' =
    Ok (CHAR_ROOT :: dotted names ++ [0], s')) as Hpath.
  { apply (path_loop_ok s' kids Ht Hnames l c _ _ [CHAR_ROOT] old [0] Hl); [simpl; lia|done|simpl; lia|lia]. }
  by rewrite (bind_ok _ _ _ _ _ Hpath).
Qed.

(** ** Iteration *)

(** The children of a node with what is below them: the first, its children
    and its peers. *)
Inductive forest := Leaf | Tree (p : Z) (below peers : forest).

Fixpoint roots (f : forest) : list Z := match f with Leaf => [] | Tree p _ g => p :: roots g end.
Fixpoint nodes_of (f : forest) : list Z := match f with Leaf => [] | Tree p f g => p :: nodes_of f ++ nodes_of g end.

Fixpoint represents (kids : Z → list Z) (f : forest) : Prop :=
  match f with Leaf => True | Tree p f g => roots f = kids p ∧ represents kids f ∧ represents kids g end.

Section forest.
Context (m : gmap Z uacpi_namespace_node) (kids : Z → list Z) (Ht : ns_tree m kids).

Lemma forest_lineage f : ∀ l q, represents kids f → lineage kids l q → roots f ⊆ kids q →
  ∀ x, x ∈ nodes_of f → ∃ c l', c ∈ roots f ∧ lineage kids (l ++ c :: l') x.
Proof.
  induction f as [|p f IHf g IHg]; intros l q; simpl; [set_solver|]. intros (E & Hf & Hg) Hl Hroots x.
  assert (Hp : lineage kids (l ++ [p]) p) by (eapply lineage_kid; [done|apply Hroots; left]).
  intros [->|[Hx|Hx]%elem_of_app]%elem_of_cons.
  - exists p, []. split; [left|done].
  - destruct (IHf (l ++ [p]) p Hf Hp ltac:(by rewrite E) x Hx) as (c & l' & _ & Hl').
    exists p, (c :: l'). rewrite <-app_assoc in Hl'. split; [left|done].
  - destruct (IHg l q Hg Hl ltac:(set_solver) x Hx) as (c & l' & Hc & Hl'). exists c, l'. split; [by right|done].
Qed.

Lemma forest_nodup f : ∀ l q, represents kids f → lineage kids l q → roots f ⊆ kids q → NoDup (roots f) → NoDup (nodes_of f).
Proof.
  induction f as [|p f IHf g IHg]; intros l q; simpl; [intros; constructor|].
  intros (E & Hf & Hg) Hl Hroots [Hpg Hnd]%NoDup_cons.
  assert (Hroots' : roots g ⊆ kids q) by (intros y Hy; apply Hroots; by right).
  assert (Hp : lineage kids (l ++ [p]) p) by (eapply lineage_kid; [done|apply Hroots; left]).
  pose proof (forest_lineage f _ p Hf Hp ltac:(by rewrite E)) as Lf.
  pose proof (forest_lineage g l q Hg Hl Hroots') as Lg.
  apply NoDup_cons. split.
  - intros [Hx|Hx]%elem_of_app.
    + destruct (Lf _ Hx) as (c & l' & _ & Hl'). pose proof (lineage_unique _ _ Ht _ _ _ Hp Hl') as EE.
      apply (f_equal length) in EE. rewrite !length_app in EE. simpl in EE. lia.
    + destruct (Lg _ Hx) as (c & l' & Hc & Hl'). pose proof (lineage_unique _ _ Ht _ _ _ Hp Hl') as EE.
      apply app_inv_head in EE as [= -> _]. done.
  - apply NoDup_app. split; [|split].
    + eapply IHf; [done|done|by rewrite E|]. rewrite E. by eapply t_nodup.
    + intros x Hxf Hxg. destruct (Lf _ Hxf) as (c & l' & _ & H1). destruct (Lg _ Hxg) as (c' & l'' & Hc' & H2).
      pose proof (lineage_unique _ _ Ht _ _ _ H1 H2) as EE. rewrite <-app_assoc in EE.
      apply app_inv_head in EE. simpl in EE. injection EE as -> _. done.
    + by apply (IHg l q).
Qed.

Lemma forest_bound f l q :
  represents kids f → lineage kids l q → roots f = kids q → (length (nodes_of f) ≤ size m)%nat.
Proof.
  intros Hf Hl E. apply nodes_bound.
  - eapply forest_nodup; [done|done|by rewrite E|]. rewrite E. by eapply t_nodup.
  - intros x Hx. destruct (forest_lineage f l q Hf Hl ltac:(by rewrite E) x Hx) as (c & l' & _ & Hx').
    destruct (lineage_node _ _ Ht _ _ Hx') as (n & ? & _). eauto.
Qed.
End forest.

(** The traversal by recursion.  The result is a status with which it stopped
    or the value of [matches] with which it goes on. *)
Section traversal.
Context {U : Type} (m : gmap Z uacpi_namespace_node) (kind : Z → option bool).
Context (descending ascending : option (@uacpi_iteration_callback U)) (max_depth : Z) (permanent_only : bool).

Definition temporary (p : Z) : bool :=
  match m !! p with Some n => uacpi_namespace_node_is_temporary n | None => false end.

(** One visit: a decision, unless it is to stop. *)
Definition visit (cb : option (@uacpi_iteration_callback U)) (p depth : Z) (matches : bool) (user : U) : option Z * U :=
  if negb matches then (Some UACPI_ITERATION_DECISION_CONTINUE, user)
  else if permanent_only && temporary p then (Some UACPI_ITERATION_DECISION_NEXT_PEER, user)
  else
    match cb with
    | None => (Some UACPI_ITERATION_DECISION_CONTINUE, user)
    | Some cb =>
        let '(decision, user) := cb user p depth in
        (if decision =? UACPI_ITERATION_DECISION_BREAK then None else Some decision, user)
    end.

Definition known (p : Z) (matches : bool) : bool := default matches (kind p).

Fixpoint traverse (f : forest) (depth : Z) (matches : bool) (user : U) : (uacpi_status + bool) * U :=
  match f with
  | Leaf => (inr matches, user)
  | Tree p f g =>
      let matches := known p matches in
      let '(decision, user) := visit descending p depth matches user in
      let '(r, user) :=
        match decision with
        | None => (inl UACPI_STATUS_OK, user)
        | Some decision =>
            if (decision =? UACPI_ITERATION_DECISION_CONTINUE) && negb (depth =? max_depth) then traverse f (depth + 1) matches user
            else if (decision =? UACPI_ITERATION_DECISION_CONTINUE) || (decision =? UACPI_ITERATION_DECISION_NEXT_PEER)
                 then (inr matches, user)
            else (inl UACPI_STATUS_INVALID_ARGUMENT, user)
        end in
      match r with
      | inl st => (inl st, user)
      | inr matches =>
          let matches := known p matches in
          let '(decision, user) := visit ascending p depth matches user in
          match decision with
          | None => (inl UACPI_STATUS_OK, user)
          | Some _ => traverse g depth matches user
          end
      end
  end.
End traversal.

(** ** Reads do not depend on the lock *)

Definition reads {A : Type} (c : M namespace A) : Prop :=
  ∀ s a s', c s = Ok (a, s') → s' = s ∧ ∀ r, c (with_readers r s) = Ok (a, with_readers r s).

Lemma reads_ret {A} (a : A) : reads (mret a).
Proof. by intros s a' s' [= -> ->]. Qed.

Lemma reads_bind {A B} (c : M namespace A) (k : A → M namespace B) : reads c → (∀ a, reads (k a)) → reads (c ≫= k).
Proof.
  intros Hc Hk s b s' E. unfold mbind, M_bind in E. destruct (c s) as [[a s1]| | |] eqn:Ec; try done.
  destruct (Hc _ _ _ Ec) as [-> Hr]. destruct (Hk a _ _ _ E) as [-> Hr']. split; [done|]. intros r.
  by rewrite (bind_ok _ _ _ _ _ (Hr r)).
Qed.

Lemma reads_get_node p : reads (read_node p).
Proof. intros s a s'. unfold read_node. simpl. destruct (_ !! p); [|done]. by intros [= -> ->]. Qed.

Lemma reads_get_object p : reads (get_object p).
Proof. intros s a s'. unfold get_object. simpl. destruct (_ !! p); [|done]. by intros [= -> ->]. Qed.

Lemma reads_if {A} (b : bool) (c1 c2 : M namespace A) : reads c1 → reads c2 → reads (if b then c1 else c2).
Proof. by destruct b. Qed.

Create HintDb namespace.
#[local] Hint Resolve reads_ret reads_bind reads_get_node reads_get_object reads_if : namespace.

Lemma reads_unwrap_loop fuel : ∀ p, reads (unwrap_loop fuel p).
Proof. induction fuel as [|fuel IH]; intros p; simpl; [done|]. auto with namespace. Qed.
#[local] Hint Resolve reads_unwrap_loop : namespace.

Lemma reads_unwrap p : reads (uacpi_unwrap_internal_reference p).
Proof. apply reads_bind; [|auto with namespace]. by intros s a s' [= <- <-]. Qed.
#[local] Hint Resolve reads_unwrap : namespace.

Lemma reads_is_one_of p type_mask : reads (uacpi_namespace_node_is_one_of_unlocked p type_mask).
Proof. unfold uacpi_namespace_node_is_one_of_unlocked, uacpi_namespace_node_get_object. auto 8 with namespace. Qed.

(** ** The iteration is the traversal *)

(** What the type of a node says: nothing when it has no object. *)
Definition kind_of (s : namespace) (type_mask p : Z) : option bool :=
  match uacpi_namespace_node_is_one_of_unlocked p type_mask s with
  | Ok ((st, b), _) => if bool_decide (st = UACPI_STATUS_OK) then Some b else None
  | _ => None
  end.

Definition has_kind (s : namespace) (type_mask p : Z) : Prop :=
  ∃ r s', uacpi_namespace_node_is_one_of_unlocked p type_mask s = Ok (r, s').

(** The state when the lock of the iteration is released. *)
Definition released (should_lock : bool) (s : namespace) : namespace :=
  if should_lock then with_readers (ns_readers s - 1) s else s.

Lemma unlocked_ok {A} should_lock (a : A) s : unlocked should_lock a s = Ok (a, released should_lock s).
Proof. by destruct should_lock. Qed.

Section walk.
Context {U : Type} (descending ascending : option (@uacpi_iteration_callback U)).
Context (type_mask max_depth : Z) (should_lock permanent_only : bool).
(** The state of the walk: the lock is held, and the host gives it again. *)
Context (s : namespace) (Hlock : ns_lock_status s = UACPI_STATUS_OK).
Let m := ns_nodes s.
Let loop := walk_loop descending ascending type_mask max_depth should_lock permanent_only.
Let trav := traverse m (kind_of s type_mask) descending ascending max_depth permanent_only.
Let vis := @visit U m permanent_only.

#[local] Abbreviation done_state := (released should_lock s).

Lemma call_back_ok (cb : option (@uacpi_iteration_callback U)) user p depth :
  call_back should_lock cb user p depth s =
  match cb with
  | None => Ok ((UACPI_STATUS_OK, Some UACPI_ITERATION_DECISION_CONTINUE, user), s)
  | Some cb =>
      let '(decision, user) := cb user p depth in
      if decision =? UACPI_ITERATION_DECISION_BREAK then Ok ((UACPI_STATUS_OK, None, user), done_state)
      else Ok ((UACPI_STATUS_OK, Some decision, user), s)
  end.
Proof.
  destruct cb as [cb|]; [|done]. unfold call_back, released. destruct should_lock.
  - rewrite bind_assoc, (bind_ok _ _ _ _ _ eq_refl), (bind_ok _ _ _ _ _ eq_refl).
    destruct (cb user p depth) as [decision user']. destruct (_ =? _); [done|].
    rewrite (bind_ok _ _ _ _ _ (read_lock_ok (with_readers (ns_readers s - 1) s) Hlock)).
    rewrite bool_decide_eq_true_2 by done. unfold mret, M_ret. do 2 f_equal.
    clear. destruct s. unfold with_readers. simpl. f_equal. lia.
  - rewrite (bind_ok _ _ _ _ _ eq_refl). destruct (cb user p depth) as [decision user']. by destruct (_ =? _).
Qed.

(** The type test of the loop. *)
Lemma is_one_of_known p matches :
  has_kind s type_mask p →
  ∃ st b, uacpi_namespace_node_is_one_of_unlocked p type_mask s = Ok ((st, b), s) ∧
          (if bool_decide (st = UACPI_STATUS_OK) then b else matches) = known (kind_of s type_mask) p matches.
Proof.
  intros ([st b] & s' & E). pose proof (reads_is_one_of p type_mask _ _ _ E) as [-> _].
  exists st, b. split; [done|]. unfold known, kind_of. rewrite E. by case_bool_decide.
Qed.

(** The visit of the loop. *)
Lemma visit_ok (cb : option (@uacpi_iteration_callback U)) p n depth (matches : bool) user :
  m !! p = Some n →
  (if negb matches then mret (UACPI_STATUS_OK, Some UACPI_ITERATION_DECISION_CONTINUE, user)
   else if permanent_only && uacpi_namespace_node_is_temporary n then
     mret (UACPI_STATUS_OK, Some UACPI_ITERATION_DECISION_NEXT_PEER, user)
   else call_back should_lock cb user p depth) s =
  let '(decision, user) := vis cb p depth matches user in
  Ok ((UACPI_STATUS_OK, decision, user), if decision then s else done_state).
Proof.
  intros Hn. unfold vis, visit, temporary. rewrite Hn. destruct matches; [|done]. cbn [negb].
  destruct (permanent_only && _); [done|]. rewrite call_back_ok. destruct cb as [cb|]; [|done].
  destruct (cb user p depth) as [decision user']. by destruct (_ =? _).
Qed.

(** One round of the loop. *)
Definition after (n : uacpi_namespace_node) (fuel : nat) (p depth : Z) (walking_up matches : bool) (decision : Z) (user : U) :
    res (uacpi_status * U * namespace) :=
  if walking_up then
    if negb (nd_next n =? 0) then loop fuel (nd_next n) depth false matches user s
    else loop fuel (nd_parent n) (u32 (depth - 1)) true matches user s
  else if (decision =? UACPI_ITERATION_DECISION_CONTINUE) && negb (depth =? max_depth) && negb (nd_child n =? 0) then
    loop fuel (nd_child n) (u32 (depth + 1)) false matches user s
  else if (decision =? UACPI_ITERATION_DECISION_CONTINUE) || (decision =? UACPI_ITERATION_DECISION_NEXT_PEER) then
    loop fuel p depth true matches user s
  else Ok ((UACPI_STATUS_INVALID_ARGUMENT, user), done_state).

Lemma walk_round fuel p n depth walking_up matches user :
  m !! p = Some n → has_kind s type_mask p → depth ≠ 0 →
  loop (S fuel) p depth walking_up matches user s =
  let matches := known (kind_of s type_mask) p matches in
  let '(decision, user) := vis (if walking_up then ascending else descending) p depth matches user in
  match decision with
  | None => Ok ((UACPI_STATUS_OK, user), done_state)
  | Some decision => after n fuel p depth walking_up matches decision user
  end.
Proof.
  intros Hn Hk Hd. unfold loop at 1. cbn [walk_loop]. rewrite (proj2 (Z.eqb_neq _ _) Hd).
  destruct (is_one_of_known p matches Hk) as (st & b & E & Ek). rewrite (bind_ok _ _ _ _ _ E). cbv zeta. rewrite Ek.
  node Hn. pose proof (visit_ok (if walking_up then ascending else descending) p n depth
    (known (kind_of s type_mask) p matches) user Hn) as Hv.
  destruct (vis _ p depth _ user) as [decision user']. rewrite (bind_ok _ _ _ _ _ Hv).
  destruct decision as [decision|]; [|done]. unfold after, loop.
  destruct walking_up; [by destruct (nd_next n =? 0)|]. destruct (_ && _ && _); [done|]. destruct (_ || _); [done|].
  by rewrite unlocked_ok.
Qed.

Context (kids : Z → list Z) (Ht : ns_tree m kids).

(** How the loop goes on after a part of the traversal: it stops, or goes up
    to the parent with at least the given fuel. *)
Definition goes_on (fuel : nat) (q depth : Z) (r : (uacpi_status + bool) * U) (x : res (uacpi_status * U * namespace)) : Prop :=
  match r with
  | (inl st, user) => x = Ok ((st, user), done_state)
  | (inr matches, user) => ∃ fuel', (fuel ≤ fuel')%nat ∧ x = loop fuel' q (u32 (depth - 1)) true matches user s
  end.

Definition walks (f : forest) : Prop := ∀ q head depth fuel matches user,
  represents kids f → linked m (roots f) head 0 → roots f ⊆ kids q → f ≠ Leaf → Forall (has_kind s type_mask) (nodes_of f) →
  0 < depth → depth + Z.of_nat (length (nodes_of f)) < 2 ^ 32 →
  goes_on fuel q depth (trav f depth matches user)
    (loop (2 * length (nodes_of f) + fuel) head depth false matches user s).

(** From the end of the visit of a node to the end of its peers. *)
Lemma walk_up p n g q depth fuel matches user :
  walks g → m !! p = Some n → nd_parent n = q → has_kind s type_mask p →
  represents kids g → linked m (roots g) (nd_next n) 0 → roots g ⊆ kids q → Forall (has_kind s type_mask) (nodes_of g) →
  0 < depth → depth + Z.of_nat (length (nodes_of g)) < 2 ^ 32 →
  goes_on fuel q depth
    (let matches := known (kind_of s type_mask) p matches in
     let '(decision, user) := vis ascending p depth matches user in
     match decision with None => (inl UACPI_STATUS_OK, user) | Some _ => trav g depth matches user end)
    (loop (S (2 * length (nodes_of g) + fuel)) p depth true matches user s).
Proof.
  intros Hg Hn Hq Hk Hrep Hlink Hroots Hks Hd Hmax. rewrite (walk_round _ p n) by (done || lia). cbv zeta.
  destruct (vis _ _ _ _ _) as [[decision|] user']; [|done]. unfold after.
  destruct g as [|c gf gg].
  - simpl in Hlink. rewrite Hlink, Hq. simpl. exists fuel. split; [lia|done].
  - destruct (Z.eqb_spec (nd_next n) 0) as [E|_]; [by apply (linked_head _ _ _ Hlink) in E|]. cbn [negb]. by apply Hg.
Qed.

Lemma goes_on_weaken fuel fuel' q depth r x : (fuel ≤ fuel')%nat → goes_on fuel' q depth r x → goes_on fuel q depth r x.
Proof. destruct r as [[st|mt] u]; [done|]. intros Hf (k & Hk & ->). exists k. split; [lia|done]. Qed.

Lemma walk_forest f : walks f.
Proof.
  induction f as [|p f IHf g IHg]; intros q head depth fuel matches user; [done|].
  intros (Ef & Hf & Hg) (-> & Hp0 & n & Hn & Hlink) Hroots _ [Hk [Hkf Hkg]%Forall_app]%Forall_cons Hd Hmax.
  assert (Hq : nd_parent n = q) by (eapply t_parent; [done|apply Hroots; left|done]).
  assert (Hrg : roots g ⊆ kids q) by (intros y Hy; apply Hroots; by right).
  cbn [nodes_of length] in Hmax |- *. rewrite length_app in Hmax |- *.
  assert (Hup : ∀ k mt u, (S (2 * length (nodes_of g) + fuel) ≤ k)%nat → goes_on fuel q depth
    (let mt := known (kind_of s type_mask) p mt in
     let '(decision, u) := vis ascending p depth mt u in
     match decision with None => (inl UACPI_STATUS_OK, u) | Some _ => trav g depth mt u end)
    (loop k p depth true mt u s)).
  { intros k mt u Hle. replace k with (S (2 * length (nodes_of g) + (k - S (2 * length (nodes_of g)))))%nat by lia.
    eapply goes_on_weaken; [|apply (walk_up p n g); try done; lia]. lia. }
  replace (2 * S (length (nodes_of f) + length (nodes_of g)) + fuel)%nat
    with (S (2 * length (nodes_of f) + (S (2 * length (nodes_of g) + fuel))))%nat by lia.
  rewrite (walk_round _ p n) by (done || lia). unfold trav. cbn [traverse]. cbv zeta.
  set (mt := known _ p matches). fold vis. destruct (vis descending p depth mt user) as [[decision|] u]; [|done].
  unfold after.
  pose proof (t_kids _ _ Ht p n Hn) as Hkids. rewrite <-Ef in Hkids.
  destruct ((decision =? _) && negb (depth =? max_depth)) eqn:Ego.
  - destruct f as [|c ff fg].
    + cbn in Hkids. rewrite Hkids. change (negb (0 =? 0)) with false. rewrite andb_false_r.
      apply andb_true_iff in Ego as [-> _]. apply Hup. cbn [nodes_of length]. lia.
    + destruct (Z.eqb_spec (nd_child n) 0) as [E|_]; [by apply (linked_head _ _ _ Hkids) in E|]. cbn [negb andb].
      rewrite (wrap_small _ (depth + 1)) by lia.
      pose proof (IHf p (nd_child n) (depth + 1) (S (2 * length (nodes_of g) + fuel)) mt u Hf Hkids
        ltac:(by rewrite Ef) ltac:(done) Hkf ltac:(lia) ltac:(lia)) as Hsub.
      unfold trav in Hsub. destruct (traverse _ _ _ _ _ _ _ (depth + 1) mt u) as [[st|mt'] u']; [done|].
      destruct Hsub as (k & Hle & ->). replace (depth + 1 - 1) with depth by lia. rewrite (wrap_small _ depth) by lia.
      by apply Hup.
  - cbn [andb]. destruct (_ || _); [|done]. apply Hup. lia.
Qed.
End walk.

Lemma traverse_ext {U} m kind kind' (d a : option (@uacpi_iteration_callback U)) max_depth perm f :
  (∀ x, x ∈ nodes_of f → kind x = kind' x) → ∀ depth matches user,
  traverse m kind d a max_depth perm f depth matches user = traverse m kind' d a max_depth perm f depth matches user.
Proof.
  induction f as [|p f IHf g IHg]; intros Hk depth matches user; [done|]. simpl. unfold known. rewrite (Hk p) by left.
  assert (Hf : ∀ x, x ∈ nodes_of f → kind x = kind' x) by (intros; apply Hk; right; apply elem_of_app; by left).
  assert (Hg : ∀ x, x ∈ nodes_of g → kind x = kind' x) by (intros; apply Hk; right; apply elem_of_app; by right).
  destruct (visit _ _ d _ _ _ _) as [[decision|] u]; [|done]. rewrite IHf by done.
  destruct (if _ && _ then _ else _) as [[st|mt] u']; [done|].
  destruct (visit _ _ a _ _ _ _) as [[?|] ?]; [by apply IHg|done].
Qed.

Lemma kind_readers s r type_mask p :
  has_kind s type_mask p →
  has_kind (with_readers r s) type_mask p ∧ kind_of (with_readers r s) type_mask p = kind_of s type_mask p.
Proof.
  intros (x & s' & E). destruct (reads_is_one_of p type_mask _ _ _ E) as [-> Hr]. split.
  - eexists _, _. apply Hr.
  - unfold kind_of. by rewrite E, Hr.
Qed.

(** The walk from the first child, with the lock as it is. *)
Lemma walk_from_child {U} s kids l node n f (d a : option (@uacpi_iteration_callback U)) type_mask max_depth should_lock perm user :
  ns_tree (ns_nodes s) kids → lineage kids l node → ns_nodes s !! node = Some n → represents kids f → roots f = kids node →
  Forall (has_kind s type_mask) (nodes_of f) → ns_lock_status s = UACPI_STATUS_OK → Z.of_nat (size (ns_nodes s)) + 1 < 2 ^ 32 →
  (if nd_child n =? 0 then unlocked should_lock (UACPI_STATUS_OK, user)
   else bound ← node_bound;
        walk_loop d a type_mask max_depth should_lock perm (S (2 * bound)) (nd_child n) 1 false false user) s =
  Ok (match traverse (ns_nodes s) (kind_of s type_mask) d a max_depth perm f 1 false user with
      | (inl st, user) => (st, user)
      | (inr _, user) => (UACPI_STATUS_OK, user)
      end, released should_lock s).
Proof.
  intros Ht Hl Hn Hf Hroots Hk Hlock Hmax. pose proof (t_kids _ _ Ht node n Hn) as Hlink. rewrite <-Hroots in Hlink.
  destruct f as [|p f g].
  { simpl in Hlink. rewrite Hlink. simpl. by rewrite unlocked_ok. }
  destruct (Z.eqb_spec (nd_child n) 0) as [E|_]; [by apply (linked_head _ _ _ Hlink) in E|].
  unfold node_bound. rewrite (bind_ok _ _ _ _ _ eq_refl).
  pose proof (forest_bound _ _ Ht _ _ _ Hf Hl Hroots) as Hb.
  set (k := length (nodes_of (Tree p f g))) in *.
  replace (S (2 * size (ns_nodes s)))%nat with (2 * k + S (2 * (size (ns_nodes s) - k)))%nat by lia.
  pose proof (walk_forest d a type_mask max_depth should_lock perm s Hlock kids Ht (Tree p f g) node (nd_child n) 1
    (S (2 * (size (ns_nodes s) - k))) false user Hf Hlink ltac:(by rewrite Hroots) ltac:(done) Hk ltac:(lia) ltac:(lia)) as Hw.
  fold k in Hw. destruct (traverse _ _ _ _ _ _ _ _ _ _) as [[st|mt] u]; [done|].
  destruct Hw as (k' & Hk' & ->). destruct k' as [|k']; [lia|]. change (u32 (1 - 1)) with 0. apply unlocked_ok.
Qed.

(** C33: The iteration over the nodes below a node, which keeps no stack and
    goes by the links between the nodes, returns in every namespace that is a
    tree, and is the traversal by recursion: it calls the callbacks in the
    same order, with the same nodes and depths, and ends with the same status
    and the same data of the user, for all callbacks and masks of types, also
    where a callback stops it, turns away from a node or gives a decision
    that is not one.  The lock is left as it was. *)
Theorem namespace_walk_is_traversal {U} s kids l node f (d a : option (@uacpi_iteration_callback U)) type_mask max_depth
    should_lock permanent_only user :
  ns_tree (ns_nodes s) kids → lineage kids l node → represents kids f → roots f = kids node →
  Forall (has_kind s type_mask) (nodes_of f) → ns_lock_status s = UACPI_STATUS_OK →
  UACPI_INIT_LEVEL_SUBSYSTEM_INITIALIZED ≤ ns_level s → d ≠ None ∨ a ≠ None → max_depth ≠ 0 →
  Z.of_nat (size (ns_nodes s)) + 1 < 2 ^ 32 →
  uacpi_namespace_do_for_each_child d a type_mask max_depth should_lock permanent_only node user s =
  Ok (match traverse (ns_nodes s) (kind_of s type_mask) d a max_depth permanent_only f 1 false user with
      | (inl st, user) => (st, user)
      | (inr _, user) => (UACPI_STATUS_OK, user)
      end, s).
Proof.
  intros Ht Hl Hf Hroots Hk Hlock Hlevel Hcb Hd Hmax. destruct (lineage_node _ _ Ht _ _ Hl) as (n & Hn & Hnode).
  unfold uacpi_namespace_do_for_each_child, ensure_level. rewrite (bind_ok _ _ _ _ _ eq_refl).
  rewrite (proj2 (Z.ltb_ge _ _) Hlevel).
  trans ((ret ← (if should_lock then uacpi_namespace_read_lock else mret UACPI_STATUS_OK);
          if negb (bool_decide (ret = UACPI_STATUS_OK)) then mret (ret, user)
          else
            n ← read_node node;
            if nd_child n =? 0 then unlocked should_lock (UACPI_STATUS_OK, user)
            else bound ← node_bound;
                 walk_loop d a type_mask max_depth should_lock permanent_only (S (2 * bound)) (nd_child n) 1 false false user) s).
  { rewrite (proj2 (Z.eqb_neq node 0) Hnode), (proj2 (Z.eqb_neq max_depth 0) Hd). destruct d, a; try done. naive_solver. }
  destruct should_lock.
  - rewrite (bind_ok _ _ _ _ _ (read_lock_ok s Hlock)). set (s' := with_readers (ns_readers s + 1) s).
    rewrite bool_decide_eq_true_2 by done. cbn [negb].
    assert (Hn' : ns_nodes s' !! node = Some n) by done. node Hn'.
    assert (Hk' : Forall (has_kind s' type_mask) (nodes_of f)).
    { eapply Forall_impl; [exact Hk|]. intros x Hx. by apply kind_readers. }
    rewrite (walk_from_child s' kids l node n f) by done. unfold released. simpl ns_readers. rewrite readers_back.
    rewrite (traverse_ext _ (kind_of s' type_mask) (kind_of s type_mask)); [done|].
    intros x Hx. apply kind_readers. by eapply Forall_forall in Hk.
  - rewrite (bind_ok _ _ _ _ _ eq_refl), bool_decide_eq_true_2 by done. cbn [negb]. node Hn.
    by rewrite (walk_from_child s kids l node n f).
Qed.

(** C34: The path that is generated for a node leads back to it.  The buffer
    is filled in its bounds whatever the memory held, the string that is read
    from it is the names from the root down to the node after the backslash,
    with dots between them, and its lookup from any scope, with or without
    the search above, finds that node and leaves the namespace as it is. *)
Theorem namespace_path_roundtrip s kids l c n fresh a rest :
  ns_tree (ns_nodes s) kids → names_ok (ns_nodes s) kids → lineage kids l c → ns_nodes s !! c = Some n →
  uacpi_namespace_node_is_temporary n = false → ns_lock_status s = UACPI_STATUS_OK →
  5 * Z.of_nat (length l) + 2 < 2 ^ 64 → ns_allocs s = a :: rest → a ≠ 0 →
  ∃ path s', uacpi_namespace_node_generate_absolute_path fresh c s = Ok (Some path, s') ∧ s' = with_allocs rest s ∧
    c_string path = absolute_path (ns_nodes s) l ∧
    ∀ scope, uacpi_namespace_node_find scope (c_string path) s' = Ok ((UACPI_STATUS_OK, c), s') ∧
             uacpi_namespace_node_resolve_from_aml_namepath scope (c_string path) s' = Ok ((UACPI_STATUS_OK, c), s').
Proof.
  intros Ht Hnames Hl Hn Htemp Hlock Hmax Ha Ha0. exists (absolute_path (ns_nodes s) l ++ [0]), (with_allocs rest s).
  assert (c_string (absolute_path (ns_nodes s) l ++ [0]) = absolute_path (ns_nodes s) l) as ->.
  { apply c_string_app. constructor; [done|]. by eapply dotted_nonzero, lineage_name_ok. }
  split; [by eapply generate_absolute_path_ok|]. split; [done|]. split; [done|]. intros scope.
  split; apply (resolve_absolute (with_allocs rest s) kids l c n); auto.
Qed.

(** ** An example *)

(** The root (1) with "_SB_" (10) and "_GPE" (11); below "_SB_" is "PCI0"
    (12), which has "DEV0" (13). *)
Definition sample_nodes : gmap Z uacpi_namespace_node :=
  <[1 := MkNode 1 [92; 0; 0; 0] UACPI_NAMESPACE_NODE_PREDEFINED 0 0 10 0]>
  (<[10 := MkNode 1 [95; 83; 66; 95] 0 20 1 12 11]>
  (<[11 := MkNode 1 [95; 71; 80; 69] 0 0 1 0 0]>
  (<[12 := MkNode 1 [80; 67; 73; 48] 0 20 10 13 0]>
  (<[13 := MkNode 1 [68; 69; 86; 48] 0 21 12 0 0]> ∅)))).

Definition sample_kids (p : Z) : list Z :=
  if p =? 1 then [10; 11] else if p =? 10 then [12] else if p =? 12 then [13] else [].

Definition sample_forest : forest := Tree 10 (Tree 12 (Tree 13 Leaf Leaf) Leaf) (Tree 11 Leaf Leaf).

Definition sample_namespace : namespace :=
  MkNamespace sample_nodes (<[20 := MkObject UACPI_OBJECT_DEVICE 0 0]> (<[21 := MkObject UACPI_OBJECT_INTEGER 0 0]> ∅)) [77]
    UACPI_STATUS_OK 0 UACPI_INIT_LEVEL_SUBSYSTEM_INITIALIZED.

Lemma sample_cases p n :
  sample_nodes !! p = Some n → p = 1 ∨ p = 10 ∨ p = 11 ∨ p = 12 ∨ p = 13.
Proof. unfold sample_nodes. rewrite !lookup_insert_Some, lookup_empty. naive_solver. Qed.

Lemma sample_kid_cases p c : c ∈ sample_kids p → (p = 1 ∧ (c = 10 ∨ c = 11)) ∨ (p = 10 ∧ c = 12) ∨ (p = 12 ∧ c = 13).
Proof.
  unfold sample_kids. destruct (Z.eqb_spec p 1); [|destruct (Z.eqb_spec p 10); [|destruct (Z.eqb_spec p 12)]]; set_solver.
Qed.

Ltac look H := vm_compute in H; injection H as <-.

Lemma sample_tree : ns_tree sample_nodes sample_kids.
Proof.
  split.
  - eexists. split; vm_compute; reflexivity.
  - reflexivity.
  - intros p n Hp. destruct (sample_cases p n Hp) as [->|[->|[->|[->| ->]]]]; look Hp; cbn; eauto 12.
  - intros p c n Hc Hn. destruct (sample_kid_cases p c Hc) as [[-> [->| ->]]|[[-> ->]|[-> ->]]]; by look Hn.
  - intros p c Hc. destruct (sample_kid_cases p c Hc) as [[-> _]|[[-> _]|[-> _]]]; eexists; reflexivity.
  - intros p. unfold sample_kids. repeat case_match; repeat constructor; set_solver.
Qed.

Lemma sample_lineage : lineage sample_kids [10; 12; 13] 13.
Proof.
  apply (lineage_kid _ [10; 12] 12); [apply (lineage_kid _ [10] 10); [apply (lineage_kid _ [] 1); [constructor|]|]|];
    unfold sample_kids; cbn; set_solver.
Qed.

Lemma sample_names : names_ok sample_nodes sample_kids.
Proof.
  intros p c Hc. destruct (sample_kid_cases p c Hc) as [[-> [->| ->]]|[[-> ->]|[-> ->]]];
    (split; [by split; [|repeat constructor]|]); intros c' Hc'; apply sample_kid_cases in Hc';
    destruct Hc' as [[? [->| ->]]|[[? ->]|[? ->]]]; done.
Qed.

Lemma namespace_path_roundtrip_witness :
  ∃ path s', uacpi_namespace_node_generate_absolute_path (λ i, 7 * i) 13 sample_namespace = Ok (Some path, s') ∧
    s' = with_allocs [] sample_namespace ∧
    c_string path = absolute_path sample_nodes [10; 12; 13] ∧
    ∀ scope, uacpi_namespace_node_find scope (c_string path) s' = Ok ((UACPI_STATUS_OK, 13), s') ∧
             uacpi_namespace_node_resolve_from_aml_namepath scope (c_string path) s' = Ok ((UACPI_STATUS_OK, 13), s').
Proof.
  eapply (namespace_path_roundtrip sample_namespace sample_kids [10; 12; 13] 13 _ (λ i, 7 * i) 77 []).
  - exact sample_tree.
  - exact sample_names.
  - exact sample_lineage.
  - reflexivity.
  - reflexivity.
  - reflexivity.
  - simpl; lia.
  - reflexivity.
  - lia.
Defined.

(** A callback that writes down what it is called with, turns away from
    "PCI0" and goes on. *)
Definition sample_callback : @uacpi_iteration_callback (list (Z * Z)) := λ user p depth,
  (if p =? 12 then UACPI_ITERATION_DECISION_NEXT_PEER else UACPI_ITERATION_DECISION_CONTINUE, user ++ [(p, depth)]).

Lemma namespace_walk_is_traversal_witness :
  uacpi_namespace_do_for_each_child (Some sample_callback) None UACPI_OBJECT_ANY_BIT UACPI_MAX_DEPTH_ANY true true 1 [] sample_namespace =
  Ok ((UACPI_STATUS_OK, [(10, 1); (12, 2); (11, 1)]), sample_namespace).
Proof.
  rewrite (namespace_walk_is_traversal sample_namespace sample_kids [] 1 sample_forest).
  - vm_compute. reflexivity.
  - exact sample_tree.
  - constructor.
  - repeat split.
  - reflexivity.
  - unfold sample_forest. cbn [nodes_of app]. repeat apply Forall_cons_2; [..|constructor]; eexists _, _; reflexivity.
  - reflexivity.
  - done.
  - by left.
  - done.
  - vm_compute. reflexivity.
Defined.
