(* ===== verification/UacpiNamespaceEdit.v ===== *)
(** * Changes of the namespace

    Installing a node appends it to the children of its parent, uninstalling
    removes it from them, and the namespace stays a tree.  What happens to an
    uninstalled node is given by its reference count. *)

From S2P Require Import Prelude Tables UacpiOpcodes UacpiNamespace UacpiNamespaceThms.
Local Open Scope Z_scope.
Local Open Scope kernel_scope.

Definition with_kids (kids : Z → list Z) (P : Z) (l : list Z) (q : Z) : list Z := if decide (q = P) then l else kids q.

Lemma linked_tail m l1 c l2 head :
  linked m (l1 ++ c :: l2) head 0 → linked m l1 head c ∧ ∃ n, m !! c = Some n ∧ linked m l2 (nd_next n) 0.
Proof. intros (mid & H1 & -> & _ & n & Hn & H2)%linked_app. eauto. Qed.

Lemma nil_or_snoc (l : list Z) : l = [] ∨ ∃ l' x, l = l' ++ [x].
Proof. destruct l as [|x l _] using rev_ind; eauto. Qed.

(** ** Installing *)

Lemma last_peer_ok s l x head fuel :
  linked (ns_nodes s) (l ++ [x]) head 0 → (length l < fuel)%nat → last_peer fuel head s = Ok (x, s).
Proof.
  revert head fuel. induction l as [|y l IH]; intros head fuel H Hf; (destruct fuel as [|fuel]; [simpl in Hf; lia|]);
    destruct H as (-> & Hp & n & Hn & Hl); cbn [last_peer]; node Hn.
  - simpl in Hl. by rewrite Hl.
  - assert (nd_next n ≠ 0) as Hne. { intros E%(linked_head _ _ _ Hl). by destruct l. }
    rewrite (proj2 (Z.eqb_neq _ 0) Hne). apply IH; [done|simpl in Hf; lia].
Qed.

(** A node that is the last child of [P] in [m'], where nothing else has
    changed. *)
Section install.
Context (m m' : gmap Z uacpi_namespace_node) (kids : Z → list Z) (P node : Z) (n : uacpi_namespace_node).
Context (Ht : ns_tree m kids) (HP : is_Some (m !! P)) (Hnode : m !! node = Some n) (Hnext : nd_next n = 0).
Context (Hroot : node ≠ uacpi_namespace_root) (Hfree : ∀ p, node ∉ kids p).
Context (Hdom : ∀ q, is_Some (m' !! q) ↔ is_Some (m !! q)).
Context (Hm' : ∀ q nq nq', m !! q = Some nq → m' !! q = Some nq' →
  nd_parent nq' = (if decide (q = node) then P else nd_parent nq) ∧
  nd_child nq' = (if decide (q = P ∧ kids P = []) then node else nd_child nq) ∧
  nd_next nq' = (if decide (last (kids P) = Some q) then node else nd_next nq)).

Lemma install_get q nq : m !! q = Some nq → ∃ nq', m' !! q = Some nq'.
Proof. intros Hq. apply Hdom. eauto. Qed.

Lemma install_back q nq' : m' !! q = Some nq' → ∃ nq, m !! q = Some nq.
Proof. intros Hq. apply Hdom. eauto. Qed.

Lemma install_last : linked m' [node] node 0.
Proof.
  destruct (install_get _ _ Hnode) as (n' & Hn'). simpl. split; [done|].
  split; [intros ->; by rewrite (t_null _ _ Ht) in Hnode|]. exists n'. split; [done|].
  destruct (Hm' _ _ _ Hnode Hn') as (_ & _ & ->). rewrite decide_False; [done|].
  intros E. by apply last_Some_elem_of, Hfree in E.
Qed.

(** The links between nodes other than the last child are as before. *)
Lemma install_frame l head tail :
  (∀ c, c ∈ l → last (kids P) ≠ Some c) → linked m l head tail → linked m' l head tail.
Proof.
  intros Hl. apply linked_frame. intros c nc Hin Hcm. destruct (install_get _ _ Hcm) as (nc' & Hc').
  exists nc'. split; [done|]. destruct (Hm' _ _ _ Hcm Hc') as (_ & _ & ->). by rewrite decide_False by auto.
Qed.

Lemma install_kids nq nq' : m !! P = Some nq → m' !! P = Some nq' → linked m' (kids P ++ [node]) (nd_child nq') 0.
Proof.
  intros Hq Hq'. destruct (Hm' _ _ _ Hq Hq') as (_ & -> & _). pose proof (t_kids _ _ Ht P nq Hq) as Hl.
  pose proof (t_nodup _ _ Ht P) as Hnd. destruct (nil_or_snoc (kids P)) as [EK|(l & y & EK)].
  - rewrite EK, decide_True by done. apply install_last.
  - rewrite EK in Hl, Hnd |- *. rewrite decide_False by (intros [_ ?]; by destruct l). apply linked_tail in Hl as (H1 & ny & Hy & H2).
    apply NoDup_app in Hnd as (_ & Hnd & _). rewrite <-app_assoc. apply linked_app. exists y. split.
    { apply install_frame; [|done]. intros c Hc. rewrite EK, last_snoc. intros [= ->].
      by apply (Hnd c Hc), list_elem_of_singleton. }
    destruct (install_get _ _ Hy) as (ny' & Hy'). cbn [app linked]. split; [done|].
    split; [intros ->; by rewrite (t_null _ _ Ht) in Hy|]. exists ny'. split; [done|].
    destruct (Hm' _ _ _ Hy Hy') as (_ & _ & ->). rewrite EK, last_snoc, decide_True by done. apply install_last.
Qed.

Lemma ns_tree_install : ns_tree m' (with_kids kids P (kids P ++ [node])).
Proof.
  split.
  - destruct (t_root _ _ Ht) as (nr & Hr & Hpr). destruct (install_get _ _ Hr) as (nr' & Hr'). exists nr'. split; [done|].
    destruct (Hm' _ _ _ Hr Hr') as (-> & _). by rewrite decide_False.
  - pose proof (t_null _ _ Ht) as H0. destruct (m' !! 0) eqn:E; [|done]. apply install_back in E as [? E]. congruence.
  - intros q nq' Hq'. destruct (install_back _ _ Hq') as (nq & Hq). unfold with_kids.
    destruct (decide (q = P)) as [->|EP]; [by eapply install_kids|].
    destruct (Hm' _ _ _ Hq Hq') as (_ & -> & _). rewrite decide_False by naive_solver.
    apply install_frame; [|by eapply t_kids]. intros c Hc E%last_Some_elem_of. apply EP.
    destruct (kids_elem _ _ _ _ Ht Hc) as (_ & nc & Hnc & <-). by eapply t_parent.
  - intros p c nc' Hc Hc'. destruct (install_back _ _ Hc') as (nc & Hcm). destruct (Hm' _ _ _ Hcm Hc') as (-> & _).
    unfold with_kids in Hc. destruct (decide (p = P)) as [->|EP].
    + destruct (decide (c = node)); [done|]. apply elem_of_app in Hc as [Hc|Hc%list_elem_of_singleton]; [|done].
      by eapply t_parent.
    + rewrite decide_False; [by eapply t_parent|]. intros ->. by apply (Hfree p).
  - intros p c Hc. apply Hdom. unfold with_kids in Hc. destruct (decide (p = P)) as [->|]; [done|]. by eapply t_dom.
  - intros p. unfold with_kids. destruct (decide _); [|by eapply t_nodup]. apply NoDup_app. split; [by eapply t_nodup|].
    split; [|apply NoDup_singleton]. intros x Hx ->%list_elem_of_singleton. by apply (Hfree P).
Qed.
End install.

(** The parts of a node that do not link it. *)
Definition node_data (n : uacpi_namespace_node) : Z * list Z * Z * Z := (reference_count n, nd_name n, nd_flags n, nd_object n).

(** Two updates, of the node before the place and of the new node. *)
Lemma two_updates (m : gmap Z uacpi_namespace_node) a f an node g n :
  a ≠ node → m !! a = Some an → m !! node = Some n →
  (∀ x, node_data (f x) = node_data x) → (∀ x, node_data (g x) = node_data x) →
  let m' := <[node := g n]> (<[a := f an]> m) in
  (∀ q, is_Some (m' !! q) ↔ is_Some (m !! q)) ∧ (∀ q, node_data <$> m' !! q = node_data <$> m !! q) ∧
  (∀ q nq nq', m !! q = Some nq → m' !! q = Some nq' →
    nq' = (if decide (q = node) then g nq else if decide (q = a) then f nq else nq)).
Proof.
  intros Hne Ha Hn Hf Hg m'.
  assert (Hlook : ∀ q, m' !! q = (λ nq, if decide (q = node) then g nq else if decide (q = a) then f nq else nq) <$> m !! q).
  { intros q. subst m'. destruct (decide (q = node)) as [->|]; [by rewrite lookup_insert, decide_True, Hn by done|].
    rewrite lookup_insert_ne by done. destruct (decide (q = a)) as [->|]; [by rewrite lookup_insert, decide_True, Ha by done|].
    rewrite lookup_insert_ne by done. by destruct (m !! q). }
  split; [|split].
  - intros q. rewrite Hlook. by destruct (m !! q).
  - intros q. rewrite Hlook. destruct (m !! q); [|done]. simpl. f_equal. repeat destruct (decide _); auto.
  - intros q nq nq' Hq. rewrite Hlook, Hq. by intros [= <-].
Qed.

(** C35: Installing a node that is not in the namespace makes it the last
    child of its parent, of the root when no parent is given.  The namespace
    is a tree as before, with this one change, and the names, objects, flags
    and reference counts of all nodes stay. *)
Theorem namespace_install_appends s kids parent node n :
  ns_tree (ns_nodes s) kids → is_Some (ns_nodes s !! or_root parent) → ns_nodes s !! node = Some n →
  uacpi_namespace_node_is_dangling n = false → nd_next n = 0 →
  node ≠ uacpi_namespace_root → node ≠ or_root parent → (∀ p, node ∉ kids p) →
  ∃ m', uacpi_namespace_node_install parent node s = Ok (UACPI_STATUS_OK, with_nodes m' s) ∧
    ns_tree m' (with_kids kids (or_root parent) (kids (or_root parent) ++ [node])) ∧
    ∀ q, node_data <$> m' !! q = node_data <$> ns_nodes s !! q.
Proof.
  intros Ht [pn HP] Hn Hdang Hnext Hroot Hne Hfree. set (P := or_root parent) in *.
  unfold uacpi_namespace_node_install. fold (or_root parent). fold P. cbv zeta. node Hn. rewrite Hdang. node HP.
  pose proof (t_kids _ _ Ht P pn HP) as Hl. destruct (nil_or_snoc (kids P)) as [EK|(l & x & EK)].
  - rewrite EK in Hl. simpl in Hl. rewrite Hl, Z.eqb_refl, (bind_ok _ _ _ _ _ (upd_node_ok P pn _ s HP)).
    rewrite (bind_ok _ _ _ _ _ (upd_node_ok node n _ (with_nodes _ s) ltac:(simpl; by rewrite lookup_insert_ne))).
    destruct (two_updates (ns_nodes s) P (nd_set_child node) pn node (nd_set_parent P) n) as (Hdom & Hdata & Hlook); [done..|].
    eexists. split; [reflexivity|]. split; [|done]. apply (ns_tree_install (ns_nodes s) _ kids P node n); try done.
    intros q nq nq' Hq Hq'. rewrite (Hlook _ _ _ Hq Hq'), EK. simpl. repeat destruct (decide _); naive_solver.
  - assert (nd_child pn =? 0 = false) as ->. { apply Z.eqb_neq. intros E%(linked_head _ _ _ Hl). rewrite EK in E. by destruct l. }
    assert (Hx : x ∈ kids P) by (rewrite EK; apply elem_of_app; right; by apply list_elem_of_singleton).
    destruct (kids_elem _ _ _ _ Ht Hx) as (_ & xn & Hxn & _).
    assert (x ≠ node) as Hxne by (intros ->; by apply (Hfree P)).
    unfold node_bound. rewrite bind_assoc, (bind_ok _ _ _ _ _ eq_refl), bind_assoc.
    assert (Hlp : last_peer (size (ns_nodes s)) (nd_child pn) s = Ok (x, s)).
    { apply last_peer_ok with l; [by rewrite <-EK|]. pose proof (kids_bound _ _ P Ht) as Hb.
      rewrite EK, length_app in Hb. simpl in Hb. lia. }
    rewrite (bind_ok _ _ _ _ _ Hlp), (bind_ok _ _ _ _ _ (upd_node_ok x xn _ s Hxn)).
    rewrite (bind_ok _ _ _ _ _ (upd_node_ok node n _ (with_nodes _ s) ltac:(simpl; by rewrite lookup_insert_ne))).
    destruct (two_updates (ns_nodes s) x (nd_set_next node) xn node (nd_set_parent P) n) as (Hdom & Hdata & Hlook); [done..|].
    eexists. split; [reflexivity|]. split; [|done]. apply (ns_tree_install (ns_nodes s) _ kids P node n); try done.
    intros q nq nq' Hq Hq'. rewrite (Hlook _ _ _ Hq Hq'), EK, last_snoc.
    rewrite (decide_False (P := q = P ∧ _)) by (intros [_ E]; by destruct l).
    destruct (decide (q = node)) as [->|]; [by rewrite decide_False by congruence|].
    destruct (decide (q = x)) as [->|]; [by rewrite decide_True|by rewrite decide_False by congruence].
Qed.

(** ** Uninstalling *)

(** A node [c] without children that is taken out of the children of [P] in
    [m'], where nothing else has changed. *)
Section uninstall.
Context (m m' : gmap Z uacpi_namespace_node) (kids : Z → list Z) (P c : Z) (n : uacpi_namespace_node) (l1 l2 : list Z).
Context (Ht : ns_tree m kids) (EK : kids P = l1 ++ c :: l2) (Hc : m !! c = Some n) (Hleaf : kids c = []).
Context (Hdom : ∀ q, q ≠ c → is_Some (m' !! q) ↔ is_Some (m !! q)) (Hc' : ∀ n', m' !! c = Some n' → nd_child n' = 0).
Context (Hm' : ∀ q nq nq', q ≠ c → m !! q = Some nq → m' !! q = Some nq' →
  nd_parent nq' = nd_parent nq ∧
  nd_child nq' = (if decide (q = P ∧ l1 = []) then nd_next n else nd_child nq) ∧
  nd_next nq' = (if decide (last l1 = Some q) then nd_next n else nd_next nq)).

Lemma uninstall_get q nq : q ≠ c → m !! q = Some nq → ∃ nq', m' !! q = Some nq'.
Proof. intros Hq ?. apply Hdom; eauto. Qed.

Lemma uninstall_back q nq' : q ≠ c → m' !! q = Some nq' → ∃ nq, m !! q = Some nq.
Proof. intros Hq ?. apply Hdom; eauto. Qed.

Lemma uninstall_kid : c ∈ kids P.
Proof. rewrite EK. apply elem_of_app. right. left. Qed.

Lemma uninstall_nodup : NoDup l1 ∧ NoDup l2 ∧ c ∉ l1 ∧ c ∉ l2 ∧ ∀ x, x ∈ l1 → x ∉ l2.
Proof.
  pose proof (t_nodup _ _ Ht P) as Hnd. rewrite EK in Hnd. apply NoDup_app in Hnd as (H1 & H2 & [H3 H4]%NoDup_cons).
  repeat split; try done; [intros Hin; apply (H2 c Hin); left|]. intros x Hx Hx2. apply (H2 x Hx). by right.
Qed.

Lemma uninstall_frame l head tail :
  c ∉ l → (∀ x, x ∈ l → last l1 ≠ Some x) → linked m l head tail → linked m' l head tail.
Proof.
  intros Hcl Hl. apply linked_frame. intros x nx Hin Hx. assert (x ≠ c) as Hxc by (intros ->; done).
  destruct (uninstall_get _ _ Hxc Hx) as (nx' & Hx'). exists nx'. split; [done|].
  destruct (Hm' _ _ _ Hxc Hx Hx') as (_ & _ & ->). by rewrite decide_False by auto.
Qed.

Lemma uninstall_kids nq nq' : P ≠ c → m !! P = Some nq → m' !! P = Some nq' → linked m' (l1 ++ l2) (nd_child nq') 0.
Proof.
  intros HPc Hq Hq'. destruct (Hm' _ _ _ HPc Hq Hq') as (_ & -> & _). pose proof (t_kids _ _ Ht P nq Hq) as Hl.
  destruct uninstall_nodup as (Hnd & _ & Hc1 & Hc2 & Hdis). rewrite EK in Hl.
  apply linked_tail in Hl as (H1 & n' & Hn' & H2). assert (n' = n) as -> by congruence.
  assert (linked m' l2 (nd_next n) 0) as H2'.
  { apply uninstall_frame; [done| |done]. intros x Hx E%last_Some_elem_of. by apply (Hdis x). }
  destruct (nil_or_snoc l1) as [E|(l & x & E)].
  - rewrite decide_True by done. rewrite E. done.
  - rewrite decide_False by (rewrite E; intros [_ ?]; by destruct l). apply linked_app. exists (nd_next n). split; [|done].
    rewrite E in H1, Hnd, Hc1 |- *. apply NoDup_app in Hnd as (_ & Hnd & _).
    apply linked_app in H1 as (mid & H1 & -> & Hx0 & nx & Hx & _). apply linked_app. exists x. split.
    { apply uninstall_frame; [set_solver| |done]. intros y Hy. rewrite E, last_snoc. intros [= ->].
      by apply (Hnd y Hy), list_elem_of_singleton. }
    assert (x ≠ c) as Hxc by set_solver. destruct (uninstall_get _ _ Hxc Hx) as (nx' & Hx').
    split; [done|]. split; [done|]. exists nx'. split; [done|].
    destruct (Hm' _ _ _ Hxc Hx Hx') as (_ & _ & ->). by rewrite E, last_snoc, decide_True.
Qed.

Lemma ns_tree_uninstall : ns_tree m' (with_kids kids P (l1 ++ l2)).
Proof.
  pose proof uninstall_kid as Hin. destruct (kids_elem _ _ _ _ Ht Hin) as (Hc0 & _).
  assert (P ≠ c) as HPc by (intros ->; rewrite Hleaf in Hin; set_solver).
  assert (Hsub : ∀ p x, x ∈ with_kids kids P (l1 ++ l2) p → x ∈ kids p ∧ x ≠ c).
  { intros p x. unfold with_kids. destruct (decide (p = P)) as [->|Hp].
    - destruct uninstall_nodup as (_ & _ & ? & ? & _). rewrite EK. set_solver.
    - intros Hx. split; [done|]. intros ->. apply Hp. destruct (kids_elem _ _ _ _ Ht Hx) as (_ & nc & Hnc & <-). by eapply t_parent. }
  split.
  - destruct (t_root _ _ Ht) as (nr & Hr & Hpr). assert (uacpi_namespace_root ≠ c) as Hrc.
    { intros <-. by apply (root_no_kid _ _ _ Ht Hin). }
    destruct (uninstall_get _ _ Hrc Hr) as (nr' & Hr'). exists nr'. split; [done|]. by destruct (Hm' _ _ _ Hrc Hr Hr') as (-> & _).
  - pose proof (t_null _ _ Ht) as H0. destruct (m' !! 0) eqn:E; [|done]. apply uninstall_back in E as [? E]; [congruence|done].
  - intros q nq' Hq'. destruct (decide (q = c)) as [->|Hqc].
    { unfold with_kids. rewrite decide_False by done. rewrite Hleaf. by apply Hc'. }
    destruct (uninstall_back _ _ Hqc Hq') as (nq & Hq). destruct (decide (q = P)) as [->|EP].
    { unfold with_kids. rewrite decide_True by done. by eapply uninstall_kids. }
    destruct (Hm' _ _ _ Hqc Hq Hq') as (_ & -> & _). rewrite decide_False by naive_solver.
    pose proof (Hsub q) as Hs. unfold with_kids in *. rewrite decide_False in * by done.
    apply uninstall_frame; [intros Hx; by destruct (Hs c Hx)| |by eapply t_kids].
    intros x Hx E%last_Some_elem_of. apply EP. destruct (kids_elem _ _ _ _ Ht Hx) as (_ & nx & Hnx & <-).
    eapply t_parent; [done| |done]. rewrite EK. set_solver.
  - intros p x nx' [Hx Hxc]%Hsub Hx'. destruct (uninstall_back _ _ Hxc Hx') as (nx & Hnx).
    destruct (Hm' _ _ _ Hxc Hnx Hx') as (-> & _). by eapply t_parent.
  - intros p x [Hx Hxc]%Hsub. apply Hdom; [|by eapply t_dom]. intros ->. rewrite Hleaf in Hx. set_solver.
  - intros p. unfold with_kids. destruct (decide _); [|by eapply t_nodup].
    destruct uninstall_nodup as (? & ? & _ & _ & ?). by apply NoDup_app.
Qed.
End uninstall.

(** What a dropped reference leaves of a node. *)
Definition unref_node (n : uacpi_namespace_node) : option uacpi_namespace_node :=
  if decide (reference_count n = 0) then Some (nd_set_refs BUGGED_REFCOUNT n)
  else if decide (reference_count n = BUGGED_REFCOUNT) then Some n
  else if decide (reference_count n = 1) then
    if uacpi_namespace_node_is_predefined n then Some (MkNode 0 (nd_name n) UACPI_NAMESPACE_NODE_PREDEFINED 0 0 0 0) else None
  else Some (nd_set_refs (reference_count n - 1) n).

Lemma with_nodes_same s : with_nodes (ns_nodes s) s = s.
Proof. by destruct s. Qed.

Lemma bugged_false c n s :
  ns_nodes s !! c = Some n → reference_count n ≠ 0 → reference_count n ≠ BUGGED_REFCOUNT →
  uacpi_bugged_shareable c s = Ok (false, s).
Proof.
  intros Hn H0 Hb. unfold uacpi_bugged_shareable. node Hn. rewrite (proj2 (Z.eqb_neq _ 0) H0), (bind_ok _ _ _ _ _ eq_refl).
  node Hn. by rewrite (proj2 (Z.eqb_neq _ _) Hb).
Qed.

Lemma node_unref_ok c n s :
  ns_nodes s !! c = Some n → c ≠ 0 → 0 ≤ reference_count n < 2 ^ 32 →
  uacpi_namespace_node_unref c s = Ok (tt, with_nodes (partial_alter (λ _, unref_node n) c (ns_nodes s)) s).
Proof.
  intros Hn Hc Hr. unfold uacpi_namespace_node_unref, uacpi_shareable_unref_and_delete_if_last, unref_node.
  rewrite (proj2 (Z.eqb_neq c 0) Hc). destruct (decide (reference_count n = 0)) as [E0|E0].
  { assert (uacpi_bugged_shareable c s = Ok (true, with_nodes (<[c := nd_set_refs BUGGED_REFCOUNT n]> (ns_nodes s)) s)) as E.
    { unfold uacpi_bugged_shareable, uacpi_make_shareable_bugged. node Hn. rewrite E0, Z.eqb_refl.
      rewrite (bind_ok _ _ _ _ _ (upd_node_ok c n _ s Hn)).
      by rewrite (bind_ok _ _ _ _ _ (read_node_ok c _ (with_nodes _ s) (lookup_insert_eq _ _ _))). }
    by rewrite (bind_ok _ _ _ _ _ E). }
  destruct (decide (reference_count n = BUGGED_REFCOUNT)) as [Eb|Eb].
  { assert (uacpi_bugged_shareable c s = Ok (true, s)) as E.
    { unfold uacpi_bugged_shareable. node Hn. rewrite Eb. change (BUGGED_REFCOUNT =? 0) with false. cbv iota.
      rewrite (bind_ok _ _ _ _ _ eq_refl). node Hn. by rewrite Eb, Z.eqb_refl. }
    rewrite (bind_ok _ _ _ _ _ E). change (partial_alter (λ _, Some n) c (ns_nodes s)) with (<[c := n]> (ns_nodes s)).
    by rewrite insert_id, with_nodes_same. }
  rewrite (bind_ok _ _ _ _ _ (bugged_false c n s Hn E0 Eb)). unfold uacpi_shareable_unref.
  rewrite bind_assoc, (bind_ok _ _ _ _ _ (bugged_false c n s Hn E0 Eb)), bind_assoc. node Hn.
  rewrite bind_assoc, (bind_ok _ _ _ _ _ (upd_node_ok c n _ s Hn)), (bind_ok _ _ _ _ _ eq_refl). rewrite (wrap_small _ (reference_count n - 1)) by lia.
  replace (reference_count n - 1 + 1) with (reference_count n) by lia. rewrite wrap_small by done.
  destruct (decide (reference_count n = 1)) as [E1|E1]; [|by rewrite (proj2 (Z.eqb_neq _ 1) E1)]. rewrite E1. simpl (1 =? 1).
  unfold free_namespace_node. rewrite (bind_ok _ _ _ _ _ (read_node_ok c _ (with_nodes _ s) (lookup_insert_eq _ _ _))).
  change (uacpi_namespace_node_is_predefined (nd_set_refs (1 - 1) n)) with (uacpi_namespace_node_is_predefined n).
  destruct (uacpi_namespace_node_is_predefined n).
  - rewrite (upd_node_ok c _ _ (with_nodes _ s) (lookup_insert_eq _ _ _)). simpl. by rewrite insert_insert_eq.
  - unfold modify. simpl. by rewrite delete_insert_eq.
Qed.

Lemma peer_before_ok s l y c head fuel :
  linked (ns_nodes s) (l ++ [y]) head c → c ∉ l ++ [y] → (length l < fuel)%nat → peer_before fuel head c s = Ok (y, s).
Proof.
  revert head fuel. induction l as [|z l IH]; intros head fuel H Hc Hf; (destruct fuel as [|fuel]; [simpl in Hf; lia|]);
    destruct H as (-> & Hp & n & Hn & Hl); cbn [peer_before]; rewrite (proj2 (Z.eqb_neq _ 0) Hp); node Hn.
  - simpl in Hl. by rewrite Hl, Z.eqb_refl.
  - assert (nd_next n ≠ c) as Hne. { destruct l; destruct Hl as (-> & _); set_solver. }
    rewrite (proj2 (Z.eqb_neq _ c) Hne). apply IH; [done|set_solver|simpl in Hf; lia].
Qed.

(** The end of the uninstall. *)
Definition dangling_node (n : uacpi_namespace_node) : uacpi_namespace_node :=
  nd_set_flags (Z.lor (nd_flags n) UACPI_NAMESPACE_NODE_FLAG_DANGLING) (nd_set_object 0 n).

(** The updates of an uninstall: of the detached node, of the node before it,
    and what the dropped reference leaves. *)
Definition unlinked_nodes (m : gmap Z uacpi_namespace_node) (c a : Z) (n an : uacpi_namespace_node)
    (f : uacpi_namespace_node → uacpi_namespace_node) : gmap Z uacpi_namespace_node :=
  partial_alter (λ _, unref_node (dangling_node n)) c (<[c := dangling_node n]> (<[a := f an]> (<[c := nd_set_object 0 n]> m))).

Lemma unlinked_self m c a n an f : unlinked_nodes m c a n an f !! c = unref_node (dangling_node n).
Proof. unfold unlinked_nodes. by rewrite lookup_partial_alter_eq. Qed.

Lemma unlinked_lookup m c a n an f q :
  a ≠ c → m !! a = Some an → q ≠ c →
  unlinked_nodes m c a n an f !! q = (λ nq, if decide (q = a) then f nq else nq) <$> m !! q.
Proof.
  intros Hac Ha Hq. unfold unlinked_nodes. rewrite lookup_partial_alter_ne, lookup_insert_ne by done.
  destruct (decide (q = a)) as [->|Hqa]; [by rewrite lookup_insert_eq, Ha|].
  rewrite !lookup_insert_ne by done. by destruct (m !! q).
Qed.

Lemma upd_with_nodes m p n f s :
  m !! p = Some n → upd_node p f (with_nodes m s) = Ok (tt, with_nodes (<[p := f n]> m) s).
Proof. intros E. apply (upd_node_ok p n f (with_nodes m s) E). Qed.

Lemma unlink_ok s c a n an f :
  ns_nodes s !! c = Some n → ns_nodes s !! a = Some an → a ≠ c → c ≠ 0 → 0 ≤ reference_count n < 2 ^ 32 →
  (upd_node a f;;
   upd_node c (λ n, nd_set_flags (Z.lor (nd_flags n) UACPI_NAMESPACE_NODE_FLAG_DANGLING) n);;
   uacpi_namespace_node_unref c;;
   mret UACPI_STATUS_OK) (with_nodes (<[c := nd_set_object 0 n]> (ns_nodes s)) s) =
  Ok (UACPI_STATUS_OK, with_nodes (unlinked_nodes (ns_nodes s) c a n an f) s).
Proof.
  intros Hc Ha Hac Hc0 Hr.
  assert (H1 : <[c := nd_set_object 0 n]> (ns_nodes s) !! a = Some an) by by rewrite lookup_insert_ne.
  rewrite (bind_ok _ _ _ _ _ (upd_with_nodes _ _ _ _ s H1)).
  assert (H2 : <[a := f an]> (<[c := nd_set_object 0 n]> (ns_nodes s)) !! c = Some (nd_set_object 0 n))
    by by rewrite lookup_insert_ne, lookup_insert_eq.
  rewrite (bind_ok _ _ _ _ _ (upd_with_nodes _ _ _ _ s H2)).
  by rewrite (bind_ok _ _ _ _ _ (node_unref_ok c (dangling_node n) (with_nodes _ s) (lookup_insert_eq _ _ _) Hc0 Hr)).
Qed.

(** The object of a node, behind internal references, is there. *)
Definition object_ok (s : namespace) (n : uacpi_namespace_node) : Prop :=
  nd_object n = 0 ∨ (nd_object n ≠ 0 ∧ ∃ o, uacpi_unwrap_internal_reference (nd_object n) s = Ok (o, s) ∧ o ≠ 0).

Lemma detach_ok s c n :
  ns_nodes s !! c = Some n → c ≠ 0 → object_ok s n →
  namespace_node_detach_object c s = Ok (tt, with_nodes (<[c := nd_set_object 0 n]> (ns_nodes s)) s).
Proof.
  intros Hc Hc0 Ho. unfold namespace_node_detach_object, uacpi_namespace_node_get_object.
  rewrite (proj2 (Z.eqb_neq c 0) Hc0), bind_assoc. node Hc. destruct Ho as [E|(E & o & Ho & Hne)].
  - rewrite E, (bind_ok _ _ _ _ _ eq_refl). simpl.
    assert (nd_set_object 0 n = n) as ->; [destruct n; simpl in E; by rewrite E|]. by rewrite insert_id, with_nodes_same.
  - rewrite (proj2 (Z.eqb_neq _ 0) E), (bind_ok _ _ _ _ _ Ho), (proj2 (Z.eqb_neq o 0) Hne). by apply upd_node_ok.
Qed.

(** The tree after the updates. *)
Lemma unlinked_tree m kids P c n l1 l2 a an f :
  ns_tree m kids → kids P = l1 ++ c :: l2 → m !! c = Some n → nd_child n = 0 → a ≠ c → m !! a = Some an →
  (∀ x, node_data (f x) = node_data x) →
  (∀ q nq, nd_parent (if decide (q = a) then f nq else nq) = nd_parent nq ∧
    nd_child (if decide (q = a) then f nq else nq) = (if decide (q = P ∧ l1 = []) then nd_next n else nd_child nq) ∧
    nd_next (if decide (q = a) then f nq else nq) = (if decide (last l1 = Some q) then nd_next n else nd_next nq)) →
  ns_tree (unlinked_nodes m c a n an f) (with_kids kids P (l1 ++ l2)) ∧
  (∀ q, q ≠ c → node_data <$> unlinked_nodes m c a n an f !! q = node_data <$> m !! q).
Proof.
  intros Ht EK Hc Hchild Hac Ha Hf Hsh.
  assert (Hleaf : kids c = []) by (apply (linked_head m _ (nd_child n)); [by eapply t_kids|done]).
  assert (Hlook := unlinked_lookup m c a n an f). split.
  - apply (ns_tree_uninstall m _ kids P c n l1 l2); try done.
    + intros q Hq. rewrite Hlook by done. by destruct (m !! q).
    + intros n'. unfold unlinked_nodes. rewrite lookup_partial_alter_eq. unfold unref_node.
      repeat (case_decide || case_match); try done; by intros [= <-].
    + intros q nq nq' Hq Hnq. rewrite Hlook, Hnq by done. intros [= <-]. apply Hsh.
  - intros q Hq. rewrite Hlook by done. destruct (m !! q); [|done]. simpl. f_equal. by destruct (decide _).
Qed.

(** C36: Uninstalling a node that has no children takes it out of the
    children of its parent, and out of nothing else: the namespace is the tree
    without it, all other nodes keep their data, and the node has lost its
    object, is marked as dangling and has one reference less; it is freed if
    that was the last one. *)
Theorem namespace_uninstall_removes s kids P c n l1 l2 :
  ns_tree (ns_nodes s) kids → kids P = l1 ++ c :: l2 → ns_nodes s !! c = Some n → nd_child n = 0 →
  uacpi_namespace_node_is_dangling n = false → object_ok s n → 0 ≤ reference_count n < 2 ^ 32 →
  ∃ m', uacpi_namespace_node_uninstall c s = Ok (UACPI_STATUS_OK, with_nodes m' s) ∧
    ns_tree m' (with_kids kids P (l1 ++ l2)) ∧
    (∀ q, q ≠ c → node_data <$> m' !! q = node_data <$> ns_nodes s !! q) ∧
    m' !! c = unref_node (dangling_node n).
Proof.
  intros Ht EK Hc Hchild Hdang Hobj Hr.
  assert (Hin : c ∈ kids P) by (rewrite EK; apply elem_of_app; right; left).
  destruct (kids_elem _ _ _ _ Ht Hin) as (Hc0 & n' & Hn' & Hpar). assert (n' = n) as -> by congruence. clear Hn'.
  destruct (t_dom _ _ Ht P c Hin) as [pn HP]. destruct (uninstall_nodup (ns_nodes s) kids P c l1 l2 Ht EK) as (_ & _ & Hc1 & _).
  assert (HPc : P ≠ c). { intros ->. apply (linked_head _ _ _ (t_kids _ _ Ht c n Hc)) in Hchild. rewrite Hchild in EK. by destruct l1. }
  assert (HP0 : P ≠ 0) by (intros ->; by rewrite (t_null _ _ Ht) in HP).
  pose proof (t_kids _ _ Ht P pn HP) as Hl. rewrite EK in Hl. apply linked_tail in Hl as [Hl _].
  set (m1 := <[c := nd_set_object 0 n]> (ns_nodes s)). set (s1 := with_nodes m1 s).
  assert (Hchain : linked m1 l1 (nd_child pn) c).
  { eapply linked_frame; [|exact Hl]. intros x nx Hx Hnx. exists nx. subst m1. rewrite lookup_insert_ne by set_solver. done. }
  assert (HP1 : ns_nodes s1 !! P = Some pn) by (subst s1 m1; simpl; by rewrite lookup_insert_ne).
  unfold uacpi_namespace_node_uninstall. node Hc. rewrite Hdang, Hchild. change (negb (0 =? 0)) with false. cbv iota.
  rewrite (bind_ok _ _ _ _ _ (detach_ok s c n Hc Hc0 Hobj)). fold m1. fold s1. rewrite Hpar, (proj2 (Z.eqb_neq P 0) HP0).
  rewrite bind_assoc. node HP1. rewrite (bind_ok _ _ _ _ _ eq_refl). cbv zeta.
  destruct (nil_or_snoc l1) as [E|(l & x & E)].
  - assert (nd_child pn = c) as -> by by rewrite E in Hl. rewrite Z.eqb_refl.
    exists (unlinked_nodes (ns_nodes s) c P n pn (nd_set_child (nd_next n))). split; [by apply unlink_ok|].
    destruct (unlinked_tree (ns_nodes s) kids P c n l1 l2 P pn (nd_set_child (nd_next n))) as [H1 H2]; try done.
    { intros q nq. rewrite E. simpl. repeat destruct (decide _); naive_solver. }
    split; [done|]. split; [done|]. apply unlinked_self.
  - assert (Hne : nd_child pn ≠ c). { rewrite E in Hl, Hc1. destruct l; destruct Hl as (-> & _); set_solver. }
    rewrite (proj2 (Z.eqb_neq _ c) Hne). unfold node_bound. rewrite (bind_ok _ _ _ _ _ eq_refl).
    rewrite E in Hchain, Hc1.
    assert (Hlen : (length l < S (size (ns_nodes s1)))%nat).
    { pose proof (kids_bound _ _ P Ht) as Hb. rewrite EK, E, !length_app in Hb. subst s1 m1. simpl.
      rewrite map_size_insert_Some by done. simpl in Hb. lia. }
    rewrite (bind_ok _ _ _ _ _ (peer_before_ok s1 l x c _ _ Hchain Hc1 Hlen)).
    assert (Hx : x ∈ kids P) by (rewrite EK, E; set_solver). destruct (kids_elem _ _ _ _ Ht Hx) as (Hx0 & xn & Hxn & _).
    assert (Hxc : x ≠ c) by set_solver. rewrite (proj2 (Z.eqb_neq x 0) Hx0).
    exists (unlinked_nodes (ns_nodes s) c x n xn (nd_set_next (nd_next n))). split; [by apply unlink_ok|].
    destruct (unlinked_tree (ns_nodes s) kids P c n l1 l2 x xn (nd_set_next (nd_next n))) as [H1 H2]; try done.
    { intros q nq. rewrite E, last_snoc. rewrite (decide_False (P := q = P ∧ _)) by (intros [_ ?]; by destruct l).
      destruct (decide (q = x)) as [->|]; [by rewrite decide_True|by rewrite decide_False by congruence]. }
    split; [done|]. split; [done|]. apply unlinked_self.
Qed.

(** ** An example *)

(** The sample namespace with a node that is not installed, "LNKA" (14). *)
Definition sample_free : namespace :=
  with_nodes (<[14 := MkNode 1 [76; 78; 75; 65] 0 0 0 0 0]> sample_nodes) sample_namespace.

Lemma sample_free_tree : ns_tree (ns_nodes sample_free) sample_kids.
Proof.
  pose proof sample_tree as Ht. assert (H14 : sample_nodes !! 14 = None) by reflexivity.
  assert (Hfr : ∀ p, p ≠ 14 → ns_nodes sample_free !! p = sample_nodes !! p) by (intros p Hp; apply lookup_insert_ne; congruence).
  assert (Hkid : ∀ p c, c ∈ sample_kids p → c ≠ 14 ∧ p ≠ 14) by (intros p c Hc%sample_kid_cases; lia).
  split.
  - destruct (t_root _ _ Ht) as (n & ? & ?). exists n. by rewrite Hfr.
  - rewrite Hfr by done. apply (t_null _ _ Ht).
  - intros p n Hp. destruct (decide (p = 14)) as [->|Hne]; [look Hp; reflexivity|]. rewrite Hfr in Hp by done.
    eapply linked_frame; [|by apply (t_kids _ _ Ht)]. intros c nc Hc Hnc. exists nc. rewrite Hfr; [done|]. by apply (Hkid p).
  - intros p c n Hc. destruct (Hkid _ _ Hc). rewrite Hfr by done. by apply (t_parent _ _ Ht).
  - intros p c Hc. destruct (Hkid _ _ Hc). rewrite Hfr by done. by apply (t_dom _ _ Ht p c).
  - apply (t_nodup _ _ Ht).
Qed.

Lemma namespace_install_appends_witness :
  ∃ m', uacpi_namespace_node_install 0 14 sample_free = Ok (UACPI_STATUS_OK, with_nodes m' sample_free) ∧
    ns_tree m' (with_kids sample_kids 1 ([10; 11] ++ [14])) ∧
    ∀ q, node_data <$> m' !! q = node_data <$> ns_nodes sample_free !! q.
Proof.
  eapply (namespace_install_appends sample_free sample_kids 0 14).
  - exact sample_free_tree.
  - eexists. reflexivity.
  - reflexivity.
  - reflexivity.
  - reflexivity.
  - done.
  - done.
  - intros p Hp%sample_kid_cases. lia.
Defined.

Lemma namespace_uninstall_removes_witness :
  ∃ m', uacpi_namespace_node_uninstall 13 sample_namespace = Ok (UACPI_STATUS_OK, with_nodes m' sample_namespace) ∧
    ns_tree m' (with_kids sample_kids 12 ([] ++ [])) ∧
    (∀ q, q ≠ 13 → node_data <$> m' !! q = node_data <$> ns_nodes sample_namespace !! q) ∧
    m' !! 13 = None.
Proof.
  apply (namespace_uninstall_removes sample_namespace sample_kids 12 13 (MkNode 1 [68; 69; 86; 48] 0 21 12 0 0) [] []).
  - exact sample_tree.
  - reflexivity.
  - reflexivity.
  - reflexivity.
  - reflexivity.
  - right. split; [done|]. by exists 21.
  - simpl. lia.
Defined.

(** A node without an object is visited when the node before it matched, and
    the lookup of a name without a scope reads the parent of no node. *)
Lemma namespace_defects :
  (∃ st, uacpi_namespace_node_is_one_of_unlocked 11 UACPI_OBJECT_ANY_BIT sample_namespace = Ok ((st, false), sample_namespace) ∧
         st ≠ UACPI_STATUS_OK) ∧
  uacpi_namespace_for_each_child_simple 1 (Some sample_callback) [] sample_namespace =
    Ok ((UACPI_STATUS_OK, [(10, 1); (12, 2); (11, 1)]), sample_namespace) ∧
  uacpi_namespace_node_resolve_from_aml_namepath 0 [78; 79; 78; 69] sample_namespace = Fault 0.
Proof. split; [eexists; by split; [reflexivity|]|]. split; reflexivity. Qed.
