(* ===== verification/UacpiOsi.v ===== *)
(** * The interfaces of the operating system: uacpi/source/osi.c

    AML code asks with [_OSI] whether an interface is supported.  The library
    keeps a linked list of interfaces: the predefined ones, which are static
    and can only be disabled, and in front of them those that were installed.
    A structure is linked at most once, so the list of the structures stands
    for the links.  Names are strings; [uacpi_strcmp] gives zero for equal
    ones.

    The abstract specification is a map from names to interfaces, and the
    answers of every sequence of calls are those of the map. *)

From S2P Require Import Prelude Tables UacpiOpcodes.
From stdpp Require Import strings gmap.
Local Open Scope string_scope.
Local Open Scope Z_scope.
Local Open Scope kernel_scope.

Record registered_interface := MkInterface {
  if_name : string;
  if_weight : Z;
  if_kind : Z;
  if_host_type : Z;
  if_disabled : bool;
  if_dynamic : bool
}.

Definition set_disabled (b : bool) (i : registered_interface) : registered_interface :=
  MkInterface (if_name i) (if_weight i) (if_kind i) (if_host_type i) b (if_dynamic i).

Definition UACPI_INTERFACE_KIND_VENDOR : Z := Z.shiftl 1 0.
Definition UACPI_INTERFACE_KIND_FEATURE : Z := Z.shiftl 1 1.

Definition WINDOWS (s : string) (interface : Z) : registered_interface :=
  MkInterface ("Windows " ++ s)%string interface UACPI_INTERFACE_KIND_VENDOR 0 false false.

Definition HOST_FEATURE (s : string) (type : Z) : registered_interface :=
  MkInterface s 0 UACPI_INTERFACE_KIND_FEATURE type true false.

(** The weights are the values of [uacpi_vendor_interface], the types those
    of [uacpi_host_interface]. *)
Definition predefined_interfaces : list registered_interface := [
  WINDOWS "2000" 1;
  WINDOWS "2001" 2;
  WINDOWS "2001 SP1" 3;
  WINDOWS "2001.1" 4;
  WINDOWS "2001 SP2" 5;
  WINDOWS "2001.1 SP1" 6;
  WINDOWS "2006" 7;
  WINDOWS "2006.1" 8;
  WINDOWS "2006 SP1" 9;
  WINDOWS "2006 SP2" 10;
  WINDOWS "2009" 11;
  WINDOWS "2012" 12;
  WINDOWS "2013" 13;
  WINDOWS "2015" 14;
  WINDOWS "2016" 15;
  WINDOWS "2017" 16;
  WINDOWS "2017.2" 17;
  WINDOWS "2018" 18;
  WINDOWS "2018.2" 19;
  WINDOWS "2019" 20;
  WINDOWS "2020" 21;
  WINDOWS "2021" 22;
  WINDOWS "2022" 23;
  HOST_FEATURE "Module Device" 1;
  HOST_FEATURE "Processor Device" 2;
  HOST_FEATURE "3.0 Thermal Model" 3;
  HOST_FEATURE "3.0 _SCP Extensions" 4;
  HOST_FEATURE "Processor Aggregator Device" 5;
  MkInterface "Extended Address Space Descriptor" 0 0 0 false false
].

Definition uacpi_interface_handler : Type := string → bool → bool.

(** The static variables, and of the host the pointers its allocator returns
    next, the mutex it creates, the status with which it acquires it, and the
    level of initialisation. *)
Record osi := MkOsi {
  registered_interfaces : list registered_interface;
  interface_mutex : Z;
  interface_handler : option uacpi_interface_handler;
  latest_queried_interface : Z;
  osi_allocs : list Z;
  osi_new_mutex : Z;
  osi_mutex_status : uacpi_status;
  osi_level : Z
}.

Definition with_interfaces (l : list registered_interface) (s : osi) : osi :=
  MkOsi l (interface_mutex s) (interface_handler s) (latest_queried_interface s) (osi_allocs s) (osi_new_mutex s)
    (osi_mutex_status s) (osi_level s).
Definition with_mutex (x : Z) (s : osi) : osi :=
  MkOsi (registered_interfaces s) x (interface_handler s) (latest_queried_interface s) (osi_allocs s) (osi_new_mutex s)
    (osi_mutex_status s) (osi_level s).
Definition with_handler (h : option uacpi_interface_handler) (s : osi) : osi :=
  MkOsi (registered_interfaces s) (interface_mutex s) h (latest_queried_interface s) (osi_allocs s) (osi_new_mutex s)
    (osi_mutex_status s) (osi_level s).
Definition with_latest (x : Z) (s : osi) : osi :=
  MkOsi (registered_interfaces s) (interface_mutex s) (interface_handler s) x (osi_allocs s) (osi_new_mutex s)
    (osi_mutex_status s) (osi_level s).
Definition with_osi_allocs (l : list Z) (s : osi) : osi :=
  MkOsi (registered_interfaces s) (interface_mutex s) (interface_handler s) (latest_queried_interface s) l (osi_new_mutex s)
    (osi_mutex_status s) (osi_level s).

(** The static structures that are linked, which are the first ones of the
    array, with their contents; dynamic ones are in front of them. *)
Definition static_part (l : list registered_interface) : list registered_interface :=
  List.filter (λ i, negb (if_dynamic i)) l.

(** [registered_interfaces] is the first static structure again, with
    whatever is linked behind it; without a mutex the others are not linked. *)
Definition uacpi_initialize_interfaces : M osi uacpi_status :=
  l ← gets (λ s, static_part (registered_interfaces s));
  modify (with_interfaces (match l with [] => take 1 predefined_interfaces | _ => l end));;
  x ← gets osi_new_mutex;
  modify (with_mutex x);;
  if x =? 0 then mret UACPI_STATUS_OUT_OF_MEMORY
  else
    modify (with_interfaces (l ++ drop (length l) predefined_interfaces));;
    mret UACPI_STATUS_OK.

(** The static structures get their first contents back, which is where the
    next initialisation finds them. *)
Definition reset_interface (i : registered_interface) : list registered_interface :=
  if if_dynamic i then [] else [set_disabled (if_kind i =? UACPI_INTERFACE_KIND_FEATURE) i].

Definition uacpi_deinitialize_interfaces : M osi (list registered_interface) :=
  l ← gets registered_interfaces;
  modify (with_interfaces []);;
  modify (with_mutex 0);;
  modify (with_handler None);;
  modify (with_latest 0);;
  mret (l ≫= reset_interface).

Definition uacpi_latest_queried_vendor_interface : M osi Z := gets latest_queried_interface.

(** The interface found, if there is one, and the list with a changed
    interface in its place. *)
Fixpoint find_interface (p : registered_interface → bool) (l : list registered_interface) : option registered_interface :=
  match l with
  | [] => None
  | i :: l => if p i then Some i else find_interface p l
  end.

Fixpoint change_interface (p : registered_interface → bool) (f : registered_interface → registered_interface)
    (l : list registered_interface) : list registered_interface :=
  match l with
  | [] => []
  | i :: l => if p i then f i :: l else i :: change_interface p f l
  end.

Definition find_interface_unlocked (name : string) : list registered_interface → option registered_interface :=
  find_interface (λ i, bool_decide (if_name i = name)).
Definition find_host_interface_unlocked (type : Z) : list registered_interface → option registered_interface :=
  find_interface (λ i, if_host_type i =? type).

(** The checks at the start of the functions: the level, then the mutex. *)
Definition guarded (k : M osi uacpi_status) : M osi uacpi_status :=
  lvl ← gets osi_level;
  if lvl <? UACPI_INIT_LEVEL_SUBSYSTEM_INITIALIZED then mret UACPI_STATUS_INIT_LEVEL_MISMATCH
  else
    ret ← gets osi_mutex_status;
    if negb (bool_decide (ret = UACPI_STATUS_OK)) then mret ret else k.

Definition osi_alloc : M osi Z :=
  l ← gets osi_allocs;
  match l with [] => mret 0 | p :: l => modify (with_osi_allocs l);; mret p end.

Definition uacpi_install_interface (name : string) (kind : Z) : M osi uacpi_status := guarded (
  l ← gets registered_interfaces;
  match find_interface_unlocked name l with
  | Some i =>
      modify (with_interfaces (change_interface (λ i, bool_decide (if_name i = name)) (set_disabled false) l));;
      mret UACPI_STATUS_ALREADY_EXISTS
  | None =>
      interface ← osi_alloc;
      if interface =? 0 then mret UACPI_STATUS_OUT_OF_MEMORY
      else
        name_copy ← osi_alloc;
        if name_copy =? 0 then mret UACPI_STATUS_OUT_OF_MEMORY
        else modify (with_interfaces (MkInterface name 0 (u8 kind) 0 false true :: l));; mret UACPI_STATUS_OK
  end).

(** [while (cur)]: the status and the list. *)
Fixpoint uninstall_loop (name : string) (l : list registered_interface) : uacpi_status * list registered_interface :=
  match l with
  | [] => (UACPI_STATUS_NOT_FOUND, [])
  | cur :: l =>
      if negb (bool_decide (if_name cur = name)) then let '(st, l) := uninstall_loop name l in (st, cur :: l)
      else if if_dynamic cur then (UACPI_STATUS_OK, l)
      else if negb (if_disabled cur) then (UACPI_STATUS_OK, set_disabled true cur :: l)
      else (UACPI_STATUS_NOT_FOUND, cur :: l)
  end.

Definition uacpi_uninstall_interface (name : string) : M osi uacpi_status := guarded (
  l ← gets registered_interfaces;
  let '(ret, l) := uninstall_loop name l in
  modify (with_interfaces l);;
  mret ret).

Definition configure_host_interface (type : Z) (enabled : bool) : M osi uacpi_status := guarded (
  l ← gets registered_interfaces;
  match find_host_interface_unlocked type l with
  | None => mret UACPI_STATUS_NOT_FOUND
  | Some i =>
      modify (with_interfaces (change_interface (λ i, if_host_type i =? type) (set_disabled (negb enabled)) l));;
      mret UACPI_STATUS_OK
  end).

Definition uacpi_enable_host_interface (type : Z) : M osi uacpi_status := configure_host_interface type true.
Definition uacpi_disable_host_interface (type : Z) : M osi uacpi_status := configure_host_interface type false.

Definition uacpi_set_interface_query_handler (handler : option uacpi_interface_handler) : M osi uacpi_status := guarded (
  h ← gets interface_handler;
  match h, handler with
  | Some _, Some _ => mret UACPI_STATUS_ALREADY_EXISTS
  | _, _ => modify (with_handler handler);; mret UACPI_STATUS_OK
  end).

Definition UACPI_INTERFACE_ACTION_DISABLE : Z := 0.
Definition UACPI_INTERFACE_ACTION_ENABLE : Z := 1.

Definition configure_interface (action kind : Z) (i : registered_interface) : registered_interface :=
  if negb (Z.land kind (if_kind i) =? 0) then set_disabled (action =? UACPI_INTERFACE_ACTION_DISABLE) i else i.

Definition uacpi_bulk_configure_interfaces (action kind : Z) : M osi uacpi_status := guarded (
  l ← gets registered_interfaces;
  modify (with_interfaces (map (configure_interface action kind) l));;
  mret UACPI_STATUS_OK).

(** The status, and the answer if it is a success. *)
Definition uacpi_handle_osi (string : string) : M osi (uacpi_status * bool) :=
  ret ← gets osi_mutex_status;
  if negb (bool_decide (ret = UACPI_STATUS_OK)) then mret (ret, false)
  else
    l ← gets registered_interfaces;
    match find_interface_unlocked string l with
    | None => mret (UACPI_STATUS_OK, false)
    | Some interface =>
        latest ← gets latest_queried_interface;
        (if latest <? if_weight interface then modify (with_latest (if_weight interface)) else mret tt);;
        h ← gets interface_handler;
        mret (UACPI_STATUS_OK,
              match h with None => negb (if_disabled interface) | Some h => h string (negb (if_disabled interface)) end)
    end.

(** ** The abstract specification *)

(** The calls the users of the library and the interpreter make. *)
Inductive osi_call :=
| Install (name : string) (kind : Z)
| Uninstall (name : string)
| Host (type : Z) (enabled : bool)
| Handler (h : option uacpi_interface_handler)
| Bulk (action kind : Z)
| Query (name : string)
| Latest.

Definition plain (c : M osi uacpi_status) : M osi (uacpi_status * Z) := st ← c; mret (st, 0).

Definition do_call (c : osi_call) : M osi (uacpi_status * Z) :=
  match c with
  | Install name kind => plain (uacpi_install_interface name kind)
  | Uninstall name => plain (uacpi_uninstall_interface name)
  | Host type true => plain (uacpi_enable_host_interface type)
  | Host type false => plain (uacpi_disable_host_interface type)
  | Handler h => plain (uacpi_set_interface_query_handler h)
  | Bulk action kind => plain (uacpi_bulk_configure_interfaces action kind)
  | Query name => '(st, b) ← uacpi_handle_osi name; mret (st, Z.b2z b)
  | Latest => x ← uacpi_latest_queried_vendor_interface; mret (UACPI_STATUS_OK, x)
  end.

Fixpoint do_calls (cs : list osi_call) : M osi (list (uacpi_status * Z)) :=
  match cs with
  | [] => mret []
  | c :: cs => r ← do_call c; rs ← do_calls cs; mret (r :: rs)
  end.

Record osi_spec := MkOsiSpec {
  sp_known : gmap string registered_interface;
  sp_handler : option uacpi_interface_handler;
  sp_latest : Z
}.

Definition sp_change (f : registered_interface → registered_interface) (p : registered_interface → bool) (t : osi_spec) : osi_spec :=
  MkOsiSpec ((λ i, if p i then f i else i) <$> sp_known t) (sp_handler t) (sp_latest t).

(** What a call does to the map: a name is known once it is installed, a
    predefined one for ever; a query asks whether it is known and enabled. *)
Definition spec_call (c : osi_call) (t : osi_spec) : uacpi_status * Z * osi_spec :=
  match c with
  | Install name kind =>
      match sp_known t !! name with
      | Some i => (UACPI_STATUS_ALREADY_EXISTS, 0, MkOsiSpec (<[name := set_disabled false i]> (sp_known t)) (sp_handler t) (sp_latest t))
      | None => (UACPI_STATUS_OK, 0,
                 MkOsiSpec (<[name := MkInterface name 0 (u8 kind) 0 false true]> (sp_known t)) (sp_handler t) (sp_latest t))
      end
  | Uninstall name =>
      match sp_known t !! name with
      | None => (UACPI_STATUS_NOT_FOUND, 0, t)
      | Some i =>
          if if_dynamic i then (UACPI_STATUS_OK, 0, MkOsiSpec (delete name (sp_known t)) (sp_handler t) (sp_latest t))
          else if if_disabled i then (UACPI_STATUS_NOT_FOUND, 0, t)
          else (UACPI_STATUS_OK, 0, MkOsiSpec (<[name := set_disabled true i]> (sp_known t)) (sp_handler t) (sp_latest t))
      end
  | Host type enabled => (UACPI_STATUS_OK, 0, sp_change (set_disabled (negb enabled)) (λ i, if_host_type i =? type) t)
  | Handler h =>
      match sp_handler t, h with
      | Some _, Some _ => (UACPI_STATUS_ALREADY_EXISTS, 0, t)
      | _, _ => (UACPI_STATUS_OK, 0, MkOsiSpec (sp_known t) h (sp_latest t))
      end
  | Bulk action kind =>
      (UACPI_STATUS_OK, 0,
       sp_change (set_disabled (action =? UACPI_INTERFACE_ACTION_DISABLE)) (λ i, negb (Z.land kind (if_kind i) =? 0)) t)
  | Query name =>
      match sp_known t !! name with
      | None => (UACPI_STATUS_OK, 0, t)
      | Some i =>
          (UACPI_STATUS_OK, Z.b2z (default (λ _ b, b) (sp_handler t) name (negb (if_disabled i))),
           MkOsiSpec (sp_known t) (sp_handler t) (Z.max (sp_latest t) (if_weight i)))
      end
  | Latest => (UACPI_STATUS_OK, sp_latest t, t)
  end.

Fixpoint spec_calls (cs : list osi_call) (t : osi_spec) : list (uacpi_status * Z) * osi_spec :=
  match cs with
  | [] => ([], t)
  | c :: cs => let '(r, t) := spec_call c t in let '(rs, t) := spec_calls cs t in (r :: rs, t)
  end.

(** ** The list is the map *)

Definition by_name (l : list registered_interface) : gmap string registered_interface :=
  list_to_map (map (λ i, (if_name i, i)) l).

Definition keeps_name (f : registered_interface → registered_interface) : Prop := ∀ i, if_name (f i) = if_name i.

Lemma find_by_name name l : find_interface_unlocked name l = by_name l !! name.
Proof.
  induction l as [|i l IH]; [done|]. unfold find_interface_unlocked in *. simpl. unfold by_name in *. simpl.
  case_bool_decide as E; [by rewrite E, lookup_insert_eq|]. by rewrite lookup_insert_ne.
Qed.

Lemma by_name_map f l : keeps_name f → by_name (map f l) = f <$> by_name l.
Proof.
  intros Hf. induction l as [|i l IH]; [symmetry; apply fmap_empty|]. unfold by_name in *. simpl. by rewrite IH, Hf, fmap_insert.
Qed.

Lemma change_by_name name f l i :
  keeps_name f → by_name l !! name = Some i →
  by_name (change_interface (λ i, bool_decide (if_name i = name)) f l) = <[name := f i]> (by_name l).
Proof.
  intros Hf. induction l as [|j l IH]; [done|]. unfold by_name in *. simpl. case_bool_decide as E; simpl.
  - subst name. rewrite lookup_insert_eq. intros [= ->]. by rewrite Hf, insert_insert_eq.
  - rewrite lookup_insert_ne by done. intros Hi. rewrite (IH Hi). by rewrite insert_insert_ne.
Qed.

Lemma change_is_map p f l :
  (length (List.filter p l) ≤ 1)%nat → change_interface p f l = map (λ i, if p i then f i else i) l.
Proof.
  induction l as [|i l IH]; [done|]. simpl. destruct (p i) eqn:E; simpl; intros Hl.
  - f_equal. assert (List.filter p l = []) as Hn by (destruct (List.filter p l); [done|simpl in Hl; lia]).
    clear IH Hl. induction l as [|j l IH]; [done|]. simpl in *. destruct (p j) eqn:Ej; [done|]. f_equal. by apply IH.
  - f_equal. by apply IH.
Qed.

(** ** The invariant *)


(** The predefined interfaces are there, in order, as they were but for being
    enabled or not; those that were installed are no host interfaces; no two
    interfaces have the same name. *)
Record osi_ok (l : list registered_interface) : Prop := {
  ok_static : map (set_disabled false) (static_part l) = map (set_disabled false) predefined_interfaces;
  ok_dynamic : Forall (λ i, if_dynamic i → if_host_type i = 0) l;
  ok_names : NoDup (map if_name l)
}.

(** The invariant does not look at the disabled flags. *)
Definition cleared : list registered_interface → list registered_interface := map (set_disabled false).

Lemma static_cleared l : cleared (static_part l) = static_part (cleared l).
Proof.
  unfold cleared, static_part. induction l as [|i l IH]; [done|]. simpl. destruct (if_dynamic i); simpl; [done|by rewrite IH].
Qed.

Lemma osi_ok_cleared l l' : cleared l = cleared l' → osi_ok l → osi_ok l'.
Proof.
  intros E [H1 H2 H3]. split.
  - fold cleared in *. by rewrite static_cleared, <-E, <-static_cleared.
  - assert (∀ k, Forall (λ i, if_dynamic i → if_host_type i = 0) k ↔ Forall (λ i, if_dynamic i → if_host_type i = 0) (cleared k))
      as Hk by (intros k; unfold cleared; by rewrite Forall_map).
    by rewrite Hk, <-E, <-Hk.
  - assert (∀ k, map if_name k = map if_name (cleared k)) as Hk.
    { intros k. unfold cleared. rewrite map_map. by apply map_ext. }
    by rewrite Hk, <-E, <-Hk.
Qed.

Lemma cleared_change p b l : cleared (change_interface p (set_disabled b) l) = cleared l.
Proof. unfold cleared. induction l as [|i l IH]; [done|]. simpl. destruct (p i); simpl; [done|by rewrite IH]. Qed.

Lemma cleared_map_if p b l : cleared (map (λ i, if p i : bool then set_disabled b i else i) l) = cleared l.
Proof. unfold cleared. rewrite map_map. apply map_ext. intros i. by destruct (p i). Qed.

(** There is one host interface of each type. *)
Lemma one_host l type :
  osi_ok l → 1 ≤ type ≤ 5 → length (List.filter (λ i, if_host_type i =? type) l) = 1%nat.
Proof.
  intros [H1 H2 _] Ht.
  assert (∀ k, length (List.filter (λ i, if_host_type i =? type) (cleared k)) = length (List.filter (λ i, if_host_type i =? type) k)) as Hc.
  { unfold cleared. induction k as [|i k IH]; [done|]. simpl. destruct (if_host_type i =? type); simpl; [by rewrite IH|done]. }
  assert (List.filter (λ i, if_host_type i =? type) l = List.filter (λ i, if_host_type i =? type) (static_part l)) as ->.
  { clear H1. unfold static_part. induction H2 as [|i l Hi _ IH]; [done|]. simpl. destruct (if_dynamic i); simpl.
    - rewrite (proj2 (Z.eqb_neq _ _)); [done|]. rewrite Hi by done. lia.
    - destruct (if_host_type i =? type); [by rewrite IH|done]. }
  rewrite <-Hc. unfold cleared. rewrite H1. fold (cleared predefined_interfaces). rewrite Hc.
  assert (type = 1 ∨ type = 2 ∨ type = 3 ∨ type = 4 ∨ type = 5) as [->|[->|[->|[->| ->]]]] by lia; reflexivity.
Qed.

Lemma find_filter p l : List.filter p l ≠ [] → find_interface p l ≠ None.
Proof. induction l as [|i l IH]; [done|]. simpl. by destruct (p i). Qed.

(** ** The calls *)

Lemma uninstall_by_name name l :
  NoDup (map if_name l) →
  uninstall_loop name l =
  match by_name l !! name with
  | None => (UACPI_STATUS_NOT_FOUND, l)
  | Some i =>
      if if_dynamic i then (UACPI_STATUS_OK, List.filter (λ i, negb (bool_decide (if_name i = name))) l)
      else if if_disabled i then (UACPI_STATUS_NOT_FOUND, l)
      else (UACPI_STATUS_OK, change_interface (λ i, bool_decide (if_name i = name)) (set_disabled true) l)
  end.
Proof.
  induction l as [|i l IH]; [done|]. simpl. intros [Hni Hnd]%NoDup_cons. unfold by_name in *. simpl.
  case_bool_decide as E; simpl.
  - subst name. rewrite lookup_insert_eq. destruct (if_dynamic i); [|by destruct (if_disabled i)]. f_equal.
    clear IH Hnd. induction l as [|j l IH]; [done|]. simpl in *. rewrite bool_decide_eq_false_2; [simpl; f_equal; apply IH|];
      set_solver.
  - rewrite lookup_insert_ne, IH by done. destruct (_ !! name) as [j|]; [|done].
    destruct (if_dynamic j); [done|]. by destruct (if_disabled j).
Qed.

Lemma filter_by_name name l : by_name (List.filter (λ i, negb (bool_decide (if_name i = name))) l) = delete name (by_name l).
Proof.
  induction l as [|i l IH]; [symmetry; apply delete_empty|]. unfold by_name in *. simpl. case_bool_decide as E; simpl.
  - subst name. by rewrite IH, delete_insert_eq.
  - by rewrite IH, delete_insert_ne.
Qed.

Lemma filter_dynamic_static name l :
  NoDup (map if_name l) → (∃ i, by_name l !! name = Some i ∧ if_dynamic i = true) →
  static_part (List.filter (λ i, negb (bool_decide (if_name i = name))) l) = static_part l.
Proof.
  intros Hnd (i & Hi & Hdyn).
  assert (∀ j, j ∈ l → if_name j = name → if_dynamic j = true) as Hall.
  { intros j Hj Ej. revert Hi Hnd Hj. clear -Hdyn Ej. induction l as [|k l IH]; [set_solver|]. unfold by_name in *. simpl.
    intros Hi [Hk Hnd]%NoDup_cons [->|Hj]%elem_of_cons.
    - subst name. rewrite lookup_insert_eq in Hi. by simplify_eq.
    - rewrite lookup_insert_ne in Hi; [by apply IH|]. intros E. apply Hk. rewrite E, <-Ej.
      apply list_elem_of_In, in_map, list_elem_of_In, Hj. }
  clear Hi Hnd. unfold static_part. induction l as [|j l IH]; [done|]. simpl. case_bool_decide as E; simpl.
  - rewrite (Hall j) by (done || left). simpl. apply IH. intros; apply Hall; [by right|done].
  - rewrite IH by (intros; apply Hall; [by right|done]). done.
Qed.

(** ** Simulation *)

Record osi_rel (s : osi) (t : osi_spec) : Prop := {
  rel_ok : osi_ok (registered_interfaces s);
  rel_known : by_name (registered_interfaces s) = sp_known t;
  rel_handler : interface_handler s = sp_handler t;
  rel_latest : latest_queried_interface s = sp_latest t;
  rel_mutex : osi_mutex_status s = UACPI_STATUS_OK;
  rel_level : UACPI_INIT_LEVEL_SUBSYSTEM_INITIALIZED ≤ osi_level s
}.

Lemma guarded_ok k s t : osi_rel s t → guarded k s = k s.
Proof.
  intros [_ _ _ _ Hm Hl]. unfold guarded. rewrite (bind_ok _ _ _ _ _ eq_refl), (proj2 (Z.ltb_ge _ _) Hl).
  by rewrite (bind_ok _ _ _ _ _ eq_refl), Hm, bool_decide_eq_true_2.
Qed.

(** A changed list. *)
Lemma rel_with_interfaces s t l m h x :
  osi_rel s t → osi_ok l → by_name l = m → sp_handler t = h → sp_latest t = x →
  osi_rel (with_interfaces l s) (MkOsiSpec m h x).
Proof. intros [_ _ H3 H4 H5 H6] Hl <- <- <-. by split. Qed.

Lemma rel_allocs s t l : osi_rel s t → osi_rel (with_osi_allocs l s) t.
Proof. intros [H1 H2 H3 H4 H5 H6]. by split. Qed.

(** An interface that was not known is put in front. *)
Lemma osi_ok_cons name kind l :
  osi_ok l → by_name l !! name = None → osi_ok (MkInterface name 0 kind 0 false true :: l).
Proof.
  intros [H1 H2 H3] Hn. split; [done|by constructor|]. simpl. apply NoDup_cons. split; [|done].
  intros Hin. apply list_elem_of_fmap in Hin as (i & -> & Hi). unfold by_name in Hn.
  apply not_elem_of_list_to_map in Hn. apply Hn. rewrite <-list_fmap_compose. apply list_elem_of_fmap. by exists i.
Qed.

Lemma osi_ok_filter name l i :
  osi_ok l → by_name l !! name = Some i → if_dynamic i = true →
  osi_ok (List.filter (λ i, negb (bool_decide (if_name i = name))) l).
Proof.
  intros [H1 H2 H3] Hi Hd. split.
  - rewrite filter_dynamic_static; [done|done|by exists i].
  - clear -H2. induction H2 as [|j l Hj _ IH]; [constructor|]. simpl. destruct (negb _); [by constructor|done].
  - clear -H3. induction l as [|j l IH]; [constructor|]. simpl in *. apply NoDup_cons in H3 as [Hj H3].
    destruct (negb _); [|by apply IH]. simpl. apply NoDup_cons. split; [|by apply IH]. intros Hin. apply Hj.
    apply list_elem_of_fmap in Hin as (k & -> & Hk). apply list_elem_of_fmap. exists k. split; [done|].
    apply list_elem_of_In in Hk. apply filter_In in Hk as [Hk _]. by apply list_elem_of_In.
Qed.

(** What a call may use: the pointers it allocates. *)
Definition sim (c : osi_call) (s : osi) (t : osi_spec) : Prop :=
  ∃ s' k, do_call c s = Ok ((spec_call c t).1, s') ∧ osi_rel s' (spec_call c t).2 ∧ (k ≤ 2)%nat ∧ osi_allocs s' = drop k (osi_allocs s).

Lemma sim_install name kind s t a b rest :
  osi_rel s t → osi_allocs s = a :: b :: rest → a ≠ 0 → b ≠ 0 → sim (Install name kind) s t.
Proof.
  intros R Ha Ha0 Hb0. pose proof R as [Hok Hk Hh Hl _ _]. unfold sim, do_call, plain, uacpi_install_interface. simpl spec_call.
  rewrite <-Hk. destruct (by_name (registered_interfaces s) !! name) as [i|] eqn:E.
  - eexists _, 0%nat. unfold mbind at 1, M_bind at 1. rewrite (guarded_ok _ s t R), (bind_ok _ _ _ _ _ eq_refl), find_by_name, E.
    split; [reflexivity|]. split; [|by split; [lia|]]. eapply rel_with_interfaces; [done| |by apply change_by_name|done|done].
    eapply osi_ok_cleared; [symmetry; apply cleared_change|done].
  - eexists _, 2%nat. unfold mbind at 1, M_bind at 1. rewrite (guarded_ok _ s t R), (bind_ok _ _ _ _ _ eq_refl), find_by_name, E.
    assert (osi_alloc s = Ok (a, with_osi_allocs (b :: rest) s)) as E1.
    { unfold osi_alloc. by rewrite (bind_ok _ _ _ _ _ eq_refl), Ha. }
    rewrite (bind_ok _ _ _ _ _ E1), (proj2 (Z.eqb_neq a 0) Ha0).
    assert (osi_alloc (with_osi_allocs (b :: rest) s) = Ok (b, with_osi_allocs rest s)) as E2 by reflexivity.
    rewrite (bind_ok _ _ _ _ _ E2), (proj2 (Z.eqb_neq b 0) Hb0). split; [reflexivity|]. split; [|split; [lia|by rewrite Ha]].
    eapply rel_with_interfaces; [by apply rel_allocs|by apply osi_ok_cons|done|done|done].
Qed.

Lemma sim_uninstall name s t : osi_rel s t → sim (Uninstall name) s t.
Proof.
  intros R. pose proof R as [Hok Hk Hh Hl _ _]. unfold sim, do_call, plain, uacpi_uninstall_interface. simpl spec_call.
  unfold mbind at 1, M_bind at 1. rewrite (guarded_ok _ s t R), (bind_ok _ _ _ _ _ eq_refl).
  rewrite (uninstall_by_name _ _ (ok_names _ Hok)), <-Hk. destruct (by_name _ !! name) as [i|] eqn:E.
  2: { eexists _, 0%nat. split; [reflexivity|]. split; [|by split; [lia|]]. destruct t. by eapply rel_with_interfaces. }
  destruct (if_dynamic i) eqn:Ed; [|destruct (if_disabled i) eqn:Edis].
  - eexists _, 0%nat. split; [reflexivity|]. split; [|by split; [lia|]]. eapply rel_with_interfaces; [done|by eapply osi_ok_filter| |done|done].
    apply filter_by_name.
  - eexists _, 0%nat. split; [reflexivity|]. split; [|by split; [lia|]]. destruct t. by eapply rel_with_interfaces.
  - eexists _, 0%nat. split; [reflexivity|]. split; [|by split; [lia|]]. eapply rel_with_interfaces; [done| |by apply change_by_name|done|done].
    eapply osi_ok_cleared; [symmetry; apply cleared_change|done].
Qed.

Lemma sim_host type enabled s t : 1 ≤ type ≤ 5 → osi_rel s t → sim (Host type enabled) s t.
Proof.
  intros Ht R. pose proof R as [Hok Hk Hh Hl _ _]. pose proof (one_host _ _ Hok Ht) as H1. unfold sim.
  assert (do_call (Host type enabled) = plain (configure_host_interface type enabled)) as -> by by destruct enabled.
  unfold plain, configure_host_interface. eexists _, 0%nat. unfold mbind at 1, M_bind at 1.
  rewrite (guarded_ok _ s t R), (bind_ok _ _ _ _ _ eq_refl).
  destruct (find_host_interface_unlocked type (registered_interfaces s)) eqn:E.
  2: { exfalso. revert E. apply find_filter. intros E. by rewrite E in H1. }
  rewrite change_is_map by lia. split; [reflexivity|]. split; [|by split; [lia|]]. unfold sp_change.
  eapply rel_with_interfaces; [done| | |done|done].
  - eapply osi_ok_cleared; [symmetry; apply cleared_map_if|done].
  - rewrite <-Hk. apply by_name_map. intros i. by destruct (_ =? _).
Qed.

Lemma sim_bulk action kind s t : osi_rel s t → sim (Bulk action kind) s t.
Proof.
  intros R. pose proof R as [Hok Hk Hh Hl _ _]. unfold sim, do_call, plain, uacpi_bulk_configure_interfaces.
  eexists _, 0%nat. unfold mbind at 1, M_bind at 1. rewrite (guarded_ok _ s t R), (bind_ok _ _ _ _ _ eq_refl).
  split; [reflexivity|]. split; [|by split; [lia|]]. unfold sp_change. eapply rel_with_interfaces; [done| | |done|done].
  - eapply osi_ok_cleared; [symmetry; apply cleared_map_if|done].
  - rewrite <-Hk. apply by_name_map. intros i. unfold configure_interface. by destruct (negb _).
Qed.

Lemma sim_handler h s t : osi_rel s t → sim (Handler h) s t.
Proof.
  intros R. pose proof R as [Hok Hk Hh Hl Hm Hv]. unfold sim, do_call, plain, uacpi_set_interface_query_handler.
  unfold mbind at 1, M_bind at 1. rewrite (guarded_ok _ s t R), (bind_ok _ _ _ _ _ eq_refl). simpl spec_call. rewrite <-Hh.
  destruct (interface_handler s) eqn:E, h; eexists _, 0%nat; (split; [reflexivity|]); (split; [|by split; [lia|]]);
    by (try (split; congruence)).
Qed.

Lemma sim_query name s t : osi_rel s t → sim (Query name) s t.
Proof.
  intros R. pose proof R as [Hok Hk Hh Hl Hm Hv]. unfold sim, do_call, uacpi_handle_osi.
  rewrite bind_assoc, (bind_ok _ _ _ _ _ eq_refl), Hm, bool_decide_eq_true_2 by done. cbn [negb].
  rewrite bind_assoc, (bind_ok _ _ _ _ _ eq_refl), find_by_name. simpl spec_call. rewrite <-Hk.
  destruct (by_name _ !! name) as [i|] eqn:E; [|by eexists s, 0%nat; split; [reflexivity|]; split; [|split; [lia|]]].
  rewrite bind_assoc, (bind_ok _ _ _ _ _ eq_refl). rewrite <-Hl, <-Hh.
  destruct (Z.ltb_spec (latest_queried_interface s) (if_weight i)) as [Hw|Hw].
  - eexists (with_latest (if_weight i) s), 0%nat. rewrite bind_assoc, (bind_ok _ _ _ _ _ eq_refl), bind_assoc, (bind_ok _ _ _ _ _ eq_refl).
    split; [simpl; by destruct (interface_handler s)|]. split; [|by split; [lia|]]. rewrite Z.max_r by lia. split; simpl; try done.
  - eexists s, 0%nat. rewrite bind_assoc, (bind_ok _ _ _ _ _ eq_refl), bind_assoc, (bind_ok _ _ _ _ _ eq_refl).
    split; [simpl; by destruct (interface_handler s)|]. split; [|by split; [lia|]]. rewrite Z.max_l by lia. split; simpl; try done.
Qed.

(** The types of host interfaces are those of [uacpi_host_interface]. *)
Definition call_ok (c : osi_call) : Prop := match c with Host type _ => 1 ≤ type ≤ 5 | _ => True end.

Lemma sim_call c s t a b rest :
  call_ok c → osi_rel s t → osi_allocs s = a :: b :: rest → a ≠ 0 → b ≠ 0 → sim c s t.
Proof.
  intros Hc R Ha Ha0 Hb0. destruct c; eauto using sim_install, sim_uninstall, sim_host, sim_handler, sim_bulk, sim_query.
  exists s, 0%nat. unfold do_call, uacpi_latest_queried_vendor_interface. rewrite (bind_ok _ _ _ _ _ eq_refl), (rel_latest _ _ R).
  split; [reflexivity|]. split; [done|]. split; [lia|done].
Qed.

Lemma sim_calls cs : ∀ s t,
  Forall call_ok cs → osi_rel s t → Forall (λ p, p ≠ 0) (osi_allocs s) → (2 * length cs ≤ length (osi_allocs s))%nat →
  ∃ s', do_calls cs s = Ok ((spec_calls cs t).1, s') ∧ osi_rel s' (spec_calls cs t).2.
Proof.
  induction cs as [|c cs IH]; intros s t Hcs R Hnz Hlen; [by exists s|]. apply Forall_cons in Hcs as [Hc Hcs]. simpl in Hlen.
  destruct (osi_allocs s) as [|a [|b rest]] eqn:Ea; [simpl in Hlen; lia..|].
  pose proof Hnz as [Ha [Hb _]%Forall_cons]%Forall_cons.
  destruct (sim_call c s t a b rest Hc R Ea Ha Hb) as (s1 & k & E1 & R1 & Hk & Ek).
  destruct (IH s1 (spec_call c t).2 Hcs R1) as (s2 & E2 & R2).
  - rewrite Ek, Ea. by apply Forall_drop.
  - rewrite Ek, Ea, length_drop. lia.
  - exists s2. simpl. rewrite (bind_ok _ _ _ _ _ E1), (bind_ok _ _ _ _ _ E2).
    destruct (spec_call c t) as [r t1]. simpl in *. by destruct (spec_calls cs t1).
Qed.

Definition osi_start : osi_spec := MkOsiSpec (by_name predefined_interfaces) None 0.

Lemma predefined_ok : osi_ok predefined_interfaces.
Proof.
  split; [reflexivity| |].
  - apply Forall_forall. intros i Hi. assert (if_dynamic i = false) as ->; [|done].
    assert (forallb (λ i, negb (if_dynamic i)) predefined_interfaces = true) as H by reflexivity.
    rewrite forallb_forall in H. apply list_elem_of_In in Hi. specialize (H i Hi). by destruct (if_dynamic i).
  - refine (bool_decide_unpack (NoDup (map if_name predefined_interfaces)) _). vm_compute. exact I.
Qed.

(** The initialisation, when nothing is linked. *)
Lemma initialize_interfaces_ok s :
  registered_interfaces s = [] → osi_new_mutex s ≠ 0 →
  uacpi_initialize_interfaces s =
    Ok (UACPI_STATUS_OK, with_interfaces predefined_interfaces (with_mutex (osi_new_mutex s) s)).
Proof.
  intros E Hm. unfold uacpi_initialize_interfaces. rewrite (bind_ok _ _ _ _ _ eq_refl), E.
  cbn [static_part List.filter app length drop]. do 3 rewrite (bind_ok _ _ _ _ _ eq_refl).
  change (osi_new_mutex (with_interfaces _ s)) with (osi_new_mutex s). by rewrite (proj2 (Z.eqb_neq _ 0) Hm).
Qed.

(** Without memory for the mutex only the first structure is linked. *)
Lemma initialize_interfaces_no_memory s :
  registered_interfaces s = [] → osi_new_mutex s = 0 →
  uacpi_initialize_interfaces s =
    Ok (UACPI_STATUS_OUT_OF_MEMORY, with_mutex 0 (with_interfaces (take 1 predefined_interfaces) s)).
Proof.
  intros E Hm. unfold uacpi_initialize_interfaces. rewrite (bind_ok _ _ _ _ _ eq_refl), E.
  do 3 rewrite (bind_ok _ _ _ _ _ eq_refl). change (osi_new_mutex (with_interfaces _ s)) with (osi_new_mutex s). by rewrite Hm.
Qed.

Lemma static_reset l : (l ≫= reset_interface) = map (λ i, set_disabled (if_kind i =? UACPI_INTERFACE_KIND_FEATURE) i) (static_part l).
Proof. induction l as [|i l IH]; [done|]. rewrite bind_cons, IH. unfold reset_interface, static_part. simpl. by destruct (if_dynamic i). Qed.

(** Whatever was installed, disabled and enabled, the static structures have
    their first contents after the removal. *)
Lemma reset_predefined l : osi_ok l → (l ≫= reset_interface) = predefined_interfaces.
Proof.
  intros [H1 _ _]. rewrite static_reset.
  assert (∀ k, map (λ i, set_disabled (if_kind i =? UACPI_INTERFACE_KIND_FEATURE) i) k =
               map (λ i, set_disabled (if_kind i =? UACPI_INTERFACE_KIND_FEATURE) i) (map (set_disabled false) k)) as Hk.
  { intros k. rewrite map_map. by apply map_ext. }
  by rewrite Hk, H1, <-Hk.
Qed.

(** C39: After the initialisation every sequence of calls, which install and
    uninstall interfaces, enable and disable them one by one or by kind, set a
    handler and ask for interfaces, is answered as by a map from names to
    interfaces: a name is supported if it is known and enabled, unless the
    handler says otherwise, and the latest interface is the largest weight
    that was asked for.  The predefined interfaces stay whatever is called,
    and the removal leaves them as they were at first. *)
Theorem osi_refines cs s :
  registered_interfaces s = [] → interface_handler s = None → latest_queried_interface s = 0 → osi_new_mutex s ≠ 0 →
  osi_mutex_status s = UACPI_STATUS_OK → UACPI_INIT_LEVEL_SUBSYSTEM_INITIALIZED ≤ osi_level s →
  Forall (λ p, p ≠ 0) (osi_allocs s) → (2 * length cs ≤ length (osi_allocs s))%nat → Forall call_ok cs →
  ∃ s' s'', (uacpi_initialize_interfaces;; do_calls cs) s = Ok ((spec_calls cs osi_start).1, s') ∧
    uacpi_deinitialize_interfaces s' = Ok (predefined_interfaces, s'') ∧ registered_interfaces s'' = [] ∧
    interface_handler s'' = None ∧ latest_queried_interface s'' = 0.
Proof.
  intros E Hh Hl Hm Hst Hlvl Hnz Hlen Hcs.
  rewrite (bind_ok _ _ _ _ _ (initialize_interfaces_ok s E Hm)).
  set (s0 := with_interfaces predefined_interfaces (with_mutex (osi_new_mutex s) s)).
  destruct (sim_calls cs s0 osi_start Hcs) as (s' & Ecs & R); [split; try done; apply predefined_ok|done|done|].
  eexists s', _. split; [exact Ecs|]. unfold uacpi_deinitialize_interfaces. rewrite (bind_ok _ _ _ _ _ eq_refl).
  rewrite (reset_predefined _ (rel_ok _ _ R)). do 4 rewrite (bind_ok _ _ _ _ _ eq_refl). by split.
Qed.

(** Calls of every kind. *)
Definition sample_calls : list osi_call :=
  [Query "Windows 2021"; Query "Windows 2000"; Latest; Uninstall "Windows 2021"; Query "Windows 2021"; Install "Mine" 2;
   Query "Mine"; Bulk UACPI_INTERFACE_ACTION_DISABLE 2; Query "Mine"; Host 3 true; Query "3.0 Thermal Model"; Uninstall "Mine";
   Query "Mine"; Handler (Some (λ _ _, true)); Query "Windows 2021"; Query "Mine"].

Definition sample_osi : osi := MkOsi [] 0 None 0 (repeat 1 32) 5 UACPI_STATUS_OK UACPI_INIT_LEVEL_SUBSYSTEM_INITIALIZED.

Lemma osi_refines_witness :
  ∃ s' s'', (uacpi_initialize_interfaces;; do_calls sample_calls) sample_osi =
      Ok (map (λ x, (x.1 : uacpi_status, x.2)) [(UACPI_STATUS_OK, 1); (UACPI_STATUS_OK, 1); (UACPI_STATUS_OK, 22);
        (UACPI_STATUS_OK, 0); (UACPI_STATUS_OK, 0); (UACPI_STATUS_OK, 0); (UACPI_STATUS_OK, 1); (UACPI_STATUS_OK, 0);
        (UACPI_STATUS_OK, 0); (UACPI_STATUS_OK, 0); (UACPI_STATUS_OK, 1); (UACPI_STATUS_OK, 0); (UACPI_STATUS_OK, 0);
        (UACPI_STATUS_OK, 0); (UACPI_STATUS_OK, 1); (UACPI_STATUS_OK, 0)], s') ∧
    uacpi_deinitialize_interfaces s' = Ok (predefined_interfaces, s'') ∧ registered_interfaces s'' = [] ∧
    interface_handler s'' = None ∧ latest_queried_interface s'' = 0.
Proof.
  apply (osi_refines sample_calls sample_osi).
  - reflexivity.
  - reflexivity.
  - reflexivity.
  - done.
  - reflexivity.
  - done.
  - unfold sample_osi. cbn [osi_allocs repeat]. repeat (apply Forall_cons_2; [done|]). constructor.
  - vm_compute. repeat constructor.
  - unfold sample_calls. repeat (apply Forall_cons_2; [first [exact I|cbn; lia]|]). constructor.
Defined.

(** The handler is not called for a name that is not in the list. *)
Lemma osi_handler_not_called :
  ∃ s', (uacpi_initialize_interfaces;; do_calls [Handler (Some (λ _ _, true)); Query "Linux"]) sample_osi =
    Ok ([(UACPI_STATUS_OK, 0); (UACPI_STATUS_OK, 0)], s').
Proof. eexists. vm_compute. reflexivity. Qed.
