(* ===== verification/UacpiResources.v ===== *)
(** * Resource templates: uacpi/source/resources.c

    A device describes the resources it uses by a buffer of descriptors, which
    firmware supplies: a byte with the type, the length and the contents, up
    to an end tag.  This file has the tables of the descriptors, generated
    from the source line by line, and the iteration over a buffer, which is
    where its bytes are first looked at.  The conversion to the native
    structures is not modelled.

    A read outside the buffer is a fault. *)

From S2P Require Import Prelude Tables UacpiOpcodes UacpiNamespace.
Local Open Scope Z_scope.
Local Open Scope kernel_scope.

(** ** Tables *)

Inductive uacpi_aml_resource :=
| UACPI_AML_RESOURCE_TYPE_INVALID
| UACPI_AML_RESOURCE_IRQ
| UACPI_AML_RESOURCE_DMA
| UACPI_AML_RESOURCE_START_DEPENDENT
| UACPI_AML_RESOURCE_END_DEPENDENT
| UACPI_AML_RESOURCE_IO
| UACPI_AML_RESOURCE_FIXED_IO
| UACPI_AML_RESOURCE_FIXED_DMA
| UACPI_AML_RESOURCE_VENDOR_TYPE0
| UACPI_AML_RESOURCE_END_TAG
| UACPI_AML_RESOURCE_MEMORY24
| UACPI_AML_RESOURCE_GENERIC_REGISTER
| UACPI_AML_RESOURCE_VENDOR_TYPE1
| UACPI_AML_RESOURCE_MEMORY32
| UACPI_AML_RESOURCE_FIXED_MEMORY32
| UACPI_AML_RESOURCE_ADDRESS32
| UACPI_AML_RESOURCE_ADDRESS16
| UACPI_AML_RESOURCE_EXTENDED_IRQ
| UACPI_AML_RESOURCE_ADDRESS64
| UACPI_AML_RESOURCE_ADDRESS64_EXTENDED
| UACPI_AML_RESOURCE_GPIO_CONNECTION
| UACPI_AML_RESOURCE_PIN_FUNCTION
| UACPI_AML_RESOURCE_SERIAL_CONNECTION
| UACPI_AML_RESOURCE_PIN_CONFIGURATION
| UACPI_AML_RESOURCE_PIN_GROUP
| UACPI_AML_RESOURCE_PIN_GROUP_FUNCTION
| UACPI_AML_RESOURCE_PIN_GROUP_CONFIGURATION
| UACPI_AML_RESOURCE_CLOCK_INPUT.

#[export] Instance uacpi_aml_resource_eq_dec : EqDecision uacpi_aml_resource.
Proof. solve_decision. Defined.

Inductive uacpi_resource_type :=
| UACPI_RESOURCE_TYPE_IRQ
| UACPI_RESOURCE_TYPE_EXTENDED_IRQ
| UACPI_RESOURCE_TYPE_DMA
| UACPI_RESOURCE_TYPE_FIXED_DMA
| UACPI_RESOURCE_TYPE_IO
| UACPI_RESOURCE_TYPE_FIXED_IO
| UACPI_RESOURCE_TYPE_ADDRESS16
| UACPI_RESOURCE_TYPE_ADDRESS32
| UACPI_RESOURCE_TYPE_ADDRESS64
| UACPI_RESOURCE_TYPE_ADDRESS64_EXTENDED
| UACPI_RESOURCE_TYPE_MEMORY24
| UACPI_RESOURCE_TYPE_MEMORY32
| UACPI_RESOURCE_TYPE_FIXED_MEMORY32
| UACPI_RESOURCE_TYPE_START_DEPENDENT
| UACPI_RESOURCE_TYPE_END_DEPENDENT
| UACPI_RESOURCE_TYPE_VENDOR_SMALL
| UACPI_RESOURCE_TYPE_VENDOR_LARGE
| UACPI_RESOURCE_TYPE_GENERIC_REGISTER
| UACPI_RESOURCE_TYPE_GPIO_CONNECTION
| UACPI_RESOURCE_TYPE_SERIAL_I2C_CONNECTION
| UACPI_RESOURCE_TYPE_SERIAL_SPI_CONNECTION
| UACPI_RESOURCE_TYPE_SERIAL_UART_CONNECTION
| UACPI_RESOURCE_TYPE_SERIAL_CSI2_CONNECTION
| UACPI_RESOURCE_TYPE_PIN_FUNCTION
| UACPI_RESOURCE_TYPE_PIN_CONFIGURATION
| UACPI_RESOURCE_TYPE_PIN_GROUP
| UACPI_RESOURCE_TYPE_PIN_GROUP_FUNCTION
| UACPI_RESOURCE_TYPE_PIN_GROUP_CONFIGURATION
| UACPI_RESOURCE_TYPE_CLOCK_INPUT
| UACPI_RESOURCE_TYPE_END_TAG.

Definition ACPI_RESOURCE_IRQ : Z := 0x04.
Definition ACPI_RESOURCE_DMA : Z := 0x05.
Definition ACPI_RESOURCE_START_DEPENDENT : Z := 0x06.
Definition ACPI_RESOURCE_END_DEPENDENT : Z := 0x07.
Definition ACPI_RESOURCE_IO : Z := 0x08.
Definition ACPI_RESOURCE_FIXED_IO : Z := 0x09.
Definition ACPI_RESOURCE_FIXED_DMA : Z := 0x0A.
Definition ACPI_RESOURCE_VENDOR_TYPE0 : Z := 0x0E.
Definition ACPI_RESOURCE_END_TAG : Z := 0x0F.
Definition ACPI_RESOURCE_MEMORY24 : Z := 0x01.
Definition ACPI_RESOURCE_GENERIC_REGISTER : Z := 0x02.
Definition ACPI_RESOURCE_VENDOR_TYPE1 : Z := 0x04.
Definition ACPI_RESOURCE_MEMORY32 : Z := 0x05.
Definition ACPI_RESOURCE_FIXED_MEMORY32 : Z := 0x06.
Definition ACPI_RESOURCE_ADDRESS32 : Z := 0x07.
Definition ACPI_RESOURCE_ADDRESS16 : Z := 0x08.
Definition ACPI_RESOURCE_EXTENDED_IRQ : Z := 0x09.
Definition ACPI_RESOURCE_ADDRESS64 : Z := 0x0A.
Definition ACPI_RESOURCE_ADDRESS64_EXTENDED : Z := 0x0B.
Definition ACPI_RESOURCE_GPIO_CONNECTION : Z := 0x0C.
Definition ACPI_RESOURCE_PIN_FUNCTION : Z := 0x0D.
Definition ACPI_RESOURCE_SERIAL_CONNECTION : Z := 0x0E.
Definition ACPI_RESOURCE_PIN_CONFIGURATION : Z := 0x0F.
Definition ACPI_RESOURCE_PIN_GROUP : Z := 0x10.
Definition ACPI_RESOURCE_PIN_GROUP_FUNCTION : Z := 0x11.
Definition ACPI_RESOURCE_PIN_GROUP_CONFIGURATION : Z := 0x12.
Definition ACPI_RESOURCE_CLOCK_INPUT : Z := 0x13.

Definition LARGE_RESOURCE_BASE : Z := ACPI_RESOURCE_END_TAG + 1.
Definition L (x : Z) : Z := x + LARGE_RESOURCE_BASE.

(** The elements of the table that are not zero. *)
Definition aml_resource_entries : list (Z * uacpi_aml_resource) := [
  (ACPI_RESOURCE_IRQ, UACPI_AML_RESOURCE_IRQ);
  (ACPI_RESOURCE_DMA, UACPI_AML_RESOURCE_DMA);
  (ACPI_RESOURCE_START_DEPENDENT, UACPI_AML_RESOURCE_START_DEPENDENT);
  (ACPI_RESOURCE_END_DEPENDENT, UACPI_AML_RESOURCE_END_DEPENDENT);
  (ACPI_RESOURCE_IO, UACPI_AML_RESOURCE_IO);
  (ACPI_RESOURCE_FIXED_IO, UACPI_AML_RESOURCE_FIXED_IO);
  (ACPI_RESOURCE_FIXED_DMA, UACPI_AML_RESOURCE_FIXED_DMA);
  (ACPI_RESOURCE_VENDOR_TYPE0, UACPI_AML_RESOURCE_VENDOR_TYPE0);
  (ACPI_RESOURCE_END_TAG, UACPI_AML_RESOURCE_END_TAG);
  (L ACPI_RESOURCE_MEMORY24, UACPI_AML_RESOURCE_MEMORY24);
  (L ACPI_RESOURCE_GENERIC_REGISTER, UACPI_AML_RESOURCE_GENERIC_REGISTER);
  (L ACPI_RESOURCE_VENDOR_TYPE1, UACPI_AML_RESOURCE_VENDOR_TYPE1);
  (L ACPI_RESOURCE_MEMORY32, UACPI_AML_RESOURCE_MEMORY32);
  (L ACPI_RESOURCE_FIXED_MEMORY32, UACPI_AML_RESOURCE_FIXED_MEMORY32);
  (L ACPI_RESOURCE_ADDRESS32, UACPI_AML_RESOURCE_ADDRESS32);
  (L ACPI_RESOURCE_ADDRESS16, UACPI_AML_RESOURCE_ADDRESS16);
  (L ACPI_RESOURCE_EXTENDED_IRQ, UACPI_AML_RESOURCE_EXTENDED_IRQ);
  (L ACPI_RESOURCE_ADDRESS64_EXTENDED, UACPI_AML_RESOURCE_ADDRESS64_EXTENDED);
  (L ACPI_RESOURCE_ADDRESS64, UACPI_AML_RESOURCE_ADDRESS64);
  (L ACPI_RESOURCE_GPIO_CONNECTION, UACPI_AML_RESOURCE_GPIO_CONNECTION);
  (L ACPI_RESOURCE_PIN_FUNCTION, UACPI_AML_RESOURCE_PIN_FUNCTION);
  (L ACPI_RESOURCE_SERIAL_CONNECTION, UACPI_AML_RESOURCE_SERIAL_CONNECTION);
  (L ACPI_RESOURCE_PIN_CONFIGURATION, UACPI_AML_RESOURCE_PIN_CONFIGURATION);
  (L ACPI_RESOURCE_PIN_GROUP, UACPI_AML_RESOURCE_PIN_GROUP);
  (L ACPI_RESOURCE_PIN_GROUP_FUNCTION, UACPI_AML_RESOURCE_PIN_GROUP_FUNCTION);
  (L ACPI_RESOURCE_PIN_GROUP_CONFIGURATION, UACPI_AML_RESOURCE_PIN_GROUP_CONFIGURATION);
  (L ACPI_RESOURCE_CLOCK_INPUT, UACPI_AML_RESOURCE_CLOCK_INPUT)
].

Definition aml_resource_to_type (i : Z) : uacpi_aml_resource :=
  match find (λ e, fst e =? i) aml_resource_entries with Some e => snd e | None => UACPI_AML_RESOURCE_TYPE_INVALID end.

Definition type_to_aml_resource (t : uacpi_aml_resource) : Z :=
  match t with
  | UACPI_AML_RESOURCE_IRQ => ACPI_RESOURCE_IRQ
  | UACPI_AML_RESOURCE_DMA => ACPI_RESOURCE_DMA
  | UACPI_AML_RESOURCE_START_DEPENDENT => ACPI_RESOURCE_START_DEPENDENT
  | UACPI_AML_RESOURCE_END_DEPENDENT => ACPI_RESOURCE_END_DEPENDENT
  | UACPI_AML_RESOURCE_IO => ACPI_RESOURCE_IO
  | UACPI_AML_RESOURCE_FIXED_IO => ACPI_RESOURCE_FIXED_IO
  | UACPI_AML_RESOURCE_FIXED_DMA => ACPI_RESOURCE_FIXED_DMA
  | UACPI_AML_RESOURCE_VENDOR_TYPE0 => ACPI_RESOURCE_VENDOR_TYPE0
  | UACPI_AML_RESOURCE_END_TAG => ACPI_RESOURCE_END_TAG
  | UACPI_AML_RESOURCE_MEMORY24 => ACPI_RESOURCE_MEMORY24
  | UACPI_AML_RESOURCE_GENERIC_REGISTER => ACPI_RESOURCE_GENERIC_REGISTER
  | UACPI_AML_RESOURCE_VENDOR_TYPE1 => ACPI_RESOURCE_VENDOR_TYPE1
  | UACPI_AML_RESOURCE_MEMORY32 => ACPI_RESOURCE_MEMORY32
  | UACPI_AML_RESOURCE_FIXED_MEMORY32 => ACPI_RESOURCE_FIXED_MEMORY32
  | UACPI_AML_RESOURCE_ADDRESS32 => ACPI_RESOURCE_ADDRESS32
  | UACPI_AML_RESOURCE_ADDRESS16 => ACPI_RESOURCE_ADDRESS16
  | UACPI_AML_RESOURCE_EXTENDED_IRQ => ACPI_RESOURCE_EXTENDED_IRQ
  | UACPI_AML_RESOURCE_ADDRESS64_EXTENDED => ACPI_RESOURCE_ADDRESS64_EXTENDED
  | UACPI_AML_RESOURCE_ADDRESS64 => ACPI_RESOURCE_ADDRESS64
  | UACPI_AML_RESOURCE_GPIO_CONNECTION => ACPI_RESOURCE_GPIO_CONNECTION
  | UACPI_AML_RESOURCE_PIN_FUNCTION => ACPI_RESOURCE_PIN_FUNCTION
  | UACPI_AML_RESOURCE_SERIAL_CONNECTION => ACPI_RESOURCE_SERIAL_CONNECTION
  | UACPI_AML_RESOURCE_PIN_CONFIGURATION => ACPI_RESOURCE_PIN_CONFIGURATION
  | UACPI_AML_RESOURCE_PIN_GROUP => ACPI_RESOURCE_PIN_GROUP
  | UACPI_AML_RESOURCE_PIN_GROUP_FUNCTION => ACPI_RESOURCE_PIN_GROUP_FUNCTION
  | UACPI_AML_RESOURCE_PIN_GROUP_CONFIGURATION => ACPI_RESOURCE_PIN_GROUP_CONFIGURATION
  | UACPI_AML_RESOURCE_CLOCK_INPUT => ACPI_RESOURCE_CLOCK_INPUT
  | UACPI_AML_RESOURCE_TYPE_INVALID => 0
  end.

Definition native_resource_to_type (t : uacpi_resource_type) : uacpi_aml_resource :=
  match t with
  | UACPI_RESOURCE_TYPE_IRQ => UACPI_AML_RESOURCE_IRQ
  | UACPI_RESOURCE_TYPE_EXTENDED_IRQ => UACPI_AML_RESOURCE_EXTENDED_IRQ
  | UACPI_RESOURCE_TYPE_DMA => UACPI_AML_RESOURCE_DMA
  | UACPI_RESOURCE_TYPE_FIXED_DMA => UACPI_AML_RESOURCE_FIXED_DMA
  | UACPI_RESOURCE_TYPE_IO => UACPI_AML_RESOURCE_IO
  | UACPI_RESOURCE_TYPE_FIXED_IO => UACPI_AML_RESOURCE_FIXED_IO
  | UACPI_RESOURCE_TYPE_ADDRESS16 => UACPI_AML_RESOURCE_ADDRESS16
  | UACPI_RESOURCE_TYPE_ADDRESS32 => UACPI_AML_RESOURCE_ADDRESS32
  | UACPI_RESOURCE_TYPE_ADDRESS64 => UACPI_AML_RESOURCE_ADDRESS64
  | UACPI_RESOURCE_TYPE_ADDRESS64_EXTENDED => UACPI_AML_RESOURCE_ADDRESS64_EXTENDED
  | UACPI_RESOURCE_TYPE_MEMORY24 => UACPI_AML_RESOURCE_MEMORY24
  | UACPI_RESOURCE_TYPE_MEMORY32 => UACPI_AML_RESOURCE_MEMORY32
  | UACPI_RESOURCE_TYPE_FIXED_MEMORY32 => UACPI_AML_RESOURCE_FIXED_MEMORY32
  | UACPI_RESOURCE_TYPE_START_DEPENDENT => UACPI_AML_RESOURCE_START_DEPENDENT
  | UACPI_RESOURCE_TYPE_END_DEPENDENT => UACPI_AML_RESOURCE_END_DEPENDENT
  | UACPI_RESOURCE_TYPE_VENDOR_SMALL => UACPI_AML_RESOURCE_VENDOR_TYPE0
  | UACPI_RESOURCE_TYPE_VENDOR_LARGE => UACPI_AML_RESOURCE_VENDOR_TYPE1
  | UACPI_RESOURCE_TYPE_GENERIC_REGISTER => UACPI_AML_RESOURCE_GENERIC_REGISTER
  | UACPI_RESOURCE_TYPE_GPIO_CONNECTION => UACPI_AML_RESOURCE_GPIO_CONNECTION
  | UACPI_RESOURCE_TYPE_SERIAL_I2C_CONNECTION => UACPI_AML_RESOURCE_SERIAL_CONNECTION
  | UACPI_RESOURCE_TYPE_SERIAL_SPI_CONNECTION => UACPI_AML_RESOURCE_SERIAL_CONNECTION
  | UACPI_RESOURCE_TYPE_SERIAL_UART_CONNECTION => UACPI_AML_RESOURCE_SERIAL_CONNECTION
  | UACPI_RESOURCE_TYPE_SERIAL_CSI2_CONNECTION => UACPI_AML_RESOURCE_SERIAL_CONNECTION
  | UACPI_RESOURCE_TYPE_PIN_FUNCTION => UACPI_AML_RESOURCE_PIN_FUNCTION
  | UACPI_RESOURCE_TYPE_PIN_CONFIGURATION => UACPI_AML_RESOURCE_PIN_CONFIGURATION
  | UACPI_RESOURCE_TYPE_PIN_GROUP => UACPI_AML_RESOURCE_PIN_GROUP
  | UACPI_RESOURCE_TYPE_PIN_GROUP_FUNCTION => UACPI_AML_RESOURCE_PIN_GROUP_FUNCTION
  | UACPI_RESOURCE_TYPE_PIN_GROUP_CONFIGURATION => UACPI_AML_RESOURCE_PIN_GROUP_CONFIGURATION
  | UACPI_RESOURCE_TYPE_CLOCK_INPUT => UACPI_AML_RESOURCE_CLOCK_INPUT
  | UACPI_RESOURCE_TYPE_END_TAG => UACPI_AML_RESOURCE_END_TAG
  end.

Inductive uacpi_aml_resource_size_kind :=
| UACPI_AML_RESOURCE_SIZE_KIND_FIXED
| UACPI_AML_RESOURCE_SIZE_KIND_FIXED_OR_ONE_LESS
| UACPI_AML_RESOURCE_SIZE_KIND_VARIABLE.

Inductive uacpi_aml_resource_kind :=
| UACPI_AML_RESOURCE_KIND_SMALL
| UACPI_AML_RESOURCE_KIND_LARGE.

Definition SMALL_ITEM_HEADER_SIZE : Z := 1.
Definition LARGE_ITEM_HEADER_SIZE : Z := 3.

Definition aml_resource_kind_to_header_size (k : uacpi_aml_resource_kind) : Z :=
  match k with
  | UACPI_AML_RESOURCE_KIND_SMALL => SMALL_ITEM_HEADER_SIZE
  | UACPI_AML_RESOURCE_KIND_LARGE => LARGE_ITEM_HEADER_SIZE
  end.

(** The part of a specification that describes the AML side.  The native type
    of a serial connection is not fixed. *)
Record uacpi_resource_spec := MkSpec {
  rs_type : uacpi_aml_resource;
  rs_native_type : option uacpi_resource_type;
  rs_resource_kind : uacpi_aml_resource_kind;
  rs_size_kind : uacpi_aml_resource_size_kind;
  rs_aml_size : Z
}.

(** The sizes of the packed structures of acpi.h. *)
Definition DEFINE_SMALL_AML_RESOURCE (t : uacpi_aml_resource) (n : uacpi_resource_type) (size : Z) (k : uacpi_aml_resource_size_kind) :
    uacpi_resource_spec :=
  MkSpec t (Some n) UACPI_AML_RESOURCE_KIND_SMALL k (size - SMALL_ITEM_HEADER_SIZE).

Definition DEFINE_LARGE_AML_RESOURCE (t : uacpi_aml_resource) (n : option uacpi_resource_type) (size : Z)
    (k : uacpi_aml_resource_size_kind) : uacpi_resource_spec :=
  MkSpec t n UACPI_AML_RESOURCE_KIND_LARGE k (size - LARGE_ITEM_HEADER_SIZE).

Definition aml_resources (t : uacpi_aml_resource) : option uacpi_resource_spec :=
  match t with
  | UACPI_AML_RESOURCE_IRQ => Some (DEFINE_SMALL_AML_RESOURCE UACPI_AML_RESOURCE_IRQ UACPI_RESOURCE_TYPE_IRQ 4 UACPI_AML_RESOURCE_SIZE_KIND_FIXED_OR_ONE_LESS)
  | UACPI_AML_RESOURCE_DMA => Some (DEFINE_SMALL_AML_RESOURCE UACPI_AML_RESOURCE_DMA UACPI_RESOURCE_TYPE_DMA 3 UACPI_AML_RESOURCE_SIZE_KIND_FIXED)
  | UACPI_AML_RESOURCE_START_DEPENDENT => Some (DEFINE_SMALL_AML_RESOURCE UACPI_AML_RESOURCE_START_DEPENDENT UACPI_RESOURCE_TYPE_START_DEPENDENT 2 UACPI_AML_RESOURCE_SIZE_KIND_FIXED_OR_ONE_LESS)
  | UACPI_AML_RESOURCE_END_DEPENDENT => Some (DEFINE_SMALL_AML_RESOURCE UACPI_AML_RESOURCE_END_DEPENDENT UACPI_RESOURCE_TYPE_END_DEPENDENT 1 UACPI_AML_RESOURCE_SIZE_KIND_FIXED)
  | UACPI_AML_RESOURCE_IO => Some (DEFINE_SMALL_AML_RESOURCE UACPI_AML_RESOURCE_IO UACPI_RESOURCE_TYPE_IO 8 UACPI_AML_RESOURCE_SIZE_KIND_FIXED)
  | UACPI_AML_RESOURCE_FIXED_IO => Some (DEFINE_SMALL_AML_RESOURCE UACPI_AML_RESOURCE_FIXED_IO UACPI_RESOURCE_TYPE_FIXED_IO 4 UACPI_AML_RESOURCE_SIZE_KIND_FIXED)
  | UACPI_AML_RESOURCE_FIXED_DMA => Some (DEFINE_SMALL_AML_RESOURCE UACPI_AML_RESOURCE_FIXED_DMA UACPI_RESOURCE_TYPE_FIXED_DMA 6 UACPI_AML_RESOURCE_SIZE_KIND_FIXED)
  | UACPI_AML_RESOURCE_VENDOR_TYPE0 => Some (DEFINE_SMALL_AML_RESOURCE UACPI_AML_RESOURCE_VENDOR_TYPE0 UACPI_RESOURCE_TYPE_VENDOR_SMALL 1 UACPI_AML_RESOURCE_SIZE_KIND_VARIABLE)
  | UACPI_AML_RESOURCE_END_TAG => Some (DEFINE_SMALL_AML_RESOURCE UACPI_AML_RESOURCE_END_TAG UACPI_RESOURCE_TYPE_END_TAG 2 UACPI_AML_RESOURCE_SIZE_KIND_FIXED)
  | UACPI_AML_RESOURCE_MEMORY24 => Some (DEFINE_LARGE_AML_RESOURCE UACPI_AML_RESOURCE_MEMORY24 (Some UACPI_RESOURCE_TYPE_MEMORY24) 12 UACPI_AML_RESOURCE_SIZE_KIND_FIXED)
  | UACPI_AML_RESOURCE_GENERIC_REGISTER => Some (DEFINE_LARGE_AML_RESOURCE UACPI_AML_RESOURCE_GENERIC_REGISTER (Some UACPI_RESOURCE_TYPE_GENERIC_REGISTER) 15 UACPI_AML_RESOURCE_SIZE_KIND_FIXED)
  | UACPI_AML_RESOURCE_VENDOR_TYPE1 => Some (DEFINE_LARGE_AML_RESOURCE UACPI_AML_RESOURCE_VENDOR_TYPE1 (Some UACPI_RESOURCE_TYPE_VENDOR_LARGE) 3 UACPI_AML_RESOURCE_SIZE_KIND_VARIABLE)
  | UACPI_AML_RESOURCE_MEMORY32 => Some (DEFINE_LARGE_AML_RESOURCE UACPI_AML_RESOURCE_MEMORY32 (Some UACPI_RESOURCE_TYPE_MEMORY32) 20 UACPI_AML_RESOURCE_SIZE_KIND_FIXED)
  | UACPI_AML_RESOURCE_FIXED_MEMORY32 => Some (DEFINE_LARGE_AML_RESOURCE UACPI_AML_RESOURCE_FIXED_MEMORY32 (Some UACPI_RESOURCE_TYPE_FIXED_MEMORY32) 12 UACPI_AML_RESOURCE_SIZE_KIND_FIXED)
  | UACPI_AML_RESOURCE_ADDRESS32 => Some (DEFINE_LARGE_AML_RESOURCE UACPI_AML_RESOURCE_ADDRESS32 (Some UACPI_RESOURCE_TYPE_ADDRESS32) 26 UACPI_AML_RESOURCE_SIZE_KIND_VARIABLE)
  | UACPI_AML_RESOURCE_ADDRESS16 => Some (DEFINE_LARGE_AML_RESOURCE UACPI_AML_RESOURCE_ADDRESS16 (Some UACPI_RESOURCE_TYPE_ADDRESS16) 16 UACPI_AML_RESOURCE_SIZE_KIND_VARIABLE)
  | UACPI_AML_RESOURCE_EXTENDED_IRQ => Some (DEFINE_LARGE_AML_RESOURCE UACPI_AML_RESOURCE_EXTENDED_IRQ (Some UACPI_RESOURCE_TYPE_EXTENDED_IRQ) 5 UACPI_AML_RESOURCE_SIZE_KIND_VARIABLE)
  | UACPI_AML_RESOURCE_ADDRESS64 => Some (DEFINE_LARGE_AML_RESOURCE UACPI_AML_RESOURCE_ADDRESS64 (Some UACPI_RESOURCE_TYPE_ADDRESS64) 46 UACPI_AML_RESOURCE_SIZE_KIND_VARIABLE)
  | UACPI_AML_RESOURCE_ADDRESS64_EXTENDED => Some (DEFINE_LARGE_AML_RESOURCE UACPI_AML_RESOURCE_ADDRESS64_EXTENDED (Some UACPI_RESOURCE_TYPE_ADDRESS64_EXTENDED) 56 UACPI_AML_RESOURCE_SIZE_KIND_FIXED)
  | UACPI_AML_RESOURCE_GPIO_CONNECTION => Some (DEFINE_LARGE_AML_RESOURCE UACPI_AML_RESOURCE_GPIO_CONNECTION (Some UACPI_RESOURCE_TYPE_GPIO_CONNECTION) 23 UACPI_AML_RESOURCE_SIZE_KIND_VARIABLE)
  | UACPI_AML_RESOURCE_PIN_FUNCTION => Some (DEFINE_LARGE_AML_RESOURCE UACPI_AML_RESOURCE_PIN_FUNCTION (Some UACPI_RESOURCE_TYPE_PIN_FUNCTION) 18 UACPI_AML_RESOURCE_SIZE_KIND_VARIABLE)
  | UACPI_AML_RESOURCE_SERIAL_CONNECTION => Some (DEFINE_LARGE_AML_RESOURCE UACPI_AML_RESOURCE_SERIAL_CONNECTION None 12 UACPI_AML_RESOURCE_SIZE_KIND_VARIABLE)
  | UACPI_AML_RESOURCE_PIN_CONFIGURATION => Some (DEFINE_LARGE_AML_RESOURCE UACPI_AML_RESOURCE_PIN_CONFIGURATION (Some UACPI_RESOURCE_TYPE_PIN_CONFIGURATION) 20 UACPI_AML_RESOURCE_SIZE_KIND_VARIABLE)
  | UACPI_AML_RESOURCE_PIN_GROUP => Some (DEFINE_LARGE_AML_RESOURCE UACPI_AML_RESOURCE_PIN_GROUP (Some UACPI_RESOURCE_TYPE_PIN_GROUP) 14 UACPI_AML_RESOURCE_SIZE_KIND_VARIABLE)
  | UACPI_AML_RESOURCE_PIN_GROUP_FUNCTION => Some (DEFINE_LARGE_AML_RESOURCE UACPI_AML_RESOURCE_PIN_GROUP_FUNCTION (Some UACPI_RESOURCE_TYPE_PIN_GROUP_FUNCTION) 17 UACPI_AML_RESOURCE_SIZE_KIND_VARIABLE)
  | UACPI_AML_RESOURCE_PIN_GROUP_CONFIGURATION => Some (DEFINE_LARGE_AML_RESOURCE UACPI_AML_RESOURCE_PIN_GROUP_CONFIGURATION (Some UACPI_RESOURCE_TYPE_PIN_GROUP_CONFIGURATION) 20 UACPI_AML_RESOURCE_SIZE_KIND_VARIABLE)
  | UACPI_AML_RESOURCE_CLOCK_INPUT => Some (DEFINE_LARGE_AML_RESOURCE UACPI_AML_RESOURCE_CLOCK_INPUT (Some UACPI_RESOURCE_TYPE_CLOCK_INPUT) 13 UACPI_AML_RESOURCE_SIZE_KIND_VARIABLE)
  | UACPI_AML_RESOURCE_TYPE_INVALID => None
  end.

Definition aml_size_with_header (spec : uacpi_resource_spec) : Z :=
  rs_aml_size spec + aml_resource_kind_to_header_size (rs_resource_kind spec).

(** ** Iteration *)

Definition ACPI_LARGE_ITEM : Z := Z.shiftl 1 7.
Definition ACPI_SMALL_ITEM_NAME_IDX : Z := 3.
Definition ACPI_SMALL_ITEM_NAME_MASK : Z := 0xF.
Definition ACPI_SMALL_ITEM_LENGTH_MASK : Z := 0x7.
Definition ACPI_LARGE_ITEM_NAME_MASK : Z := 0x7F.

Definition is_large (raw_byte : Z) : bool := negb (Z.land raw_byte ACPI_LARGE_ITEM =? 0).

Definition get_aml_resource_type (raw_byte : Z) : uacpi_aml_resource :=
  if is_large raw_byte then aml_resource_to_type (LARGE_RESOURCE_BASE + Z.land raw_byte ACPI_LARGE_ITEM_NAME_MASK)
  else aml_resource_to_type (Z.land (Z.shiftr raw_byte ACPI_SMALL_ITEM_NAME_IDX) ACPI_SMALL_ITEM_NAME_MASK).

Definition ACPI_SERIAL_TYPE_I2C : Z := 1.
Definition ACPI_SERIAL_TYPE_CSI2 : Z := 4.

Definition validate_aml_serial_type (type : Z) : uacpi_status :=
  if (type <? ACPI_SERIAL_TYPE_I2C) || (ACPI_SERIAL_TYPE_CSI2 <? type) then UACPI_STATUS_AML_INVALID_RESOURCE else UACPI_STATUS_OK.

(** The check of the size against the specification. *)
Definition size_accepted (spec : uacpi_resource_spec) (size : Z) : bool :=
  match rs_size_kind spec with
  | UACPI_AML_RESOURCE_SIZE_KIND_FIXED => size =? rs_aml_size spec
  | UACPI_AML_RESOURCE_SIZE_KIND_VARIABLE => rs_aml_size spec <=? size
  | UACPI_AML_RESOURCE_SIZE_KIND_FIXED_OR_ONE_LESS => (size =? rs_aml_size spec) || (size =? rs_aml_size spec - 1)
  end.

(** [offsetof(struct acpi_resource_serial, type)]. *)
Definition serial_type_offset : Z := 5.

Section for_each.
Context {U : Type} (buffer : list Z) (cb : U → Z → Z → uacpi_resource_spec → Z * U).

Definition buffer_byte (off : Z) : M U Z := λ u,
  if off <? 0 then Fault off
  else match buffer !! Z.to_nat off with Some b => Ok (b, u) | None => Fault off end.

(** The status and the size. *)
Definition get_aml_resource_size (data bytes_left : Z) : M U (uacpi_status * Z) :=
  b ← buffer_byte data;
  if is_large b then
    if bytes_left <? 3 then mret (UACPI_STATUS_AML_INVALID_RESOURCE, 0)
    else
      lo ← buffer_byte (data + 1);
      hi ← buffer_byte (data + 2);
      let size := lo + 256 * hi in
      if u64 (bytes_left - aml_resource_kind_to_header_size UACPI_AML_RESOURCE_KIND_LARGE) <? size
      then mret (UACPI_STATUS_AML_INVALID_RESOURCE, 0) else mret (UACPI_STATUS_OK, size)
  else
    let size := Z.land b ACPI_SMALL_ITEM_LENGTH_MASK in
    if u64 (bytes_left - aml_resource_kind_to_header_size UACPI_AML_RESOURCE_KIND_SMALL) <? size
    then mret (UACPI_STATUS_AML_INVALID_RESOURCE, 0) else mret (UACPI_STATUS_OK, size).

(** [while (bytes_left)]. *)
Fixpoint resource_loop (fuel : nat) (data bytes_left : Z) : M U uacpi_status :=
  match fuel with
  | O => nofuel
  | S fuel =>
      if bytes_left =? 0 then mret UACPI_STATUS_NO_RESOURCE_END_TAG
      else
        b ← buffer_byte data;
        let type := get_aml_resource_type b in
        match aml_resources type with
        | None => mret UACPI_STATUS_AML_INVALID_RESOURCE
        | Some spec =>
            '(ret, resource_size) ← get_aml_resource_size data bytes_left;
            if negb (bool_decide (ret = UACPI_STATUS_OK)) then mret ret
            else if negb (size_accepted spec resource_size) then mret UACPI_STATUS_AML_INVALID_RESOURCE
            else
              ret ← (if bool_decide (rs_type spec = UACPI_AML_RESOURCE_SERIAL_CONNECTION)
                     then t ← buffer_byte (data + serial_type_offset); mret (validate_aml_serial_type t)
                     else mret UACPI_STATUS_OK);
              if negb (bool_decide (ret = UACPI_STATUS_OK)) then mret ret
              else
                user ← gets (λ u, u);
                let '(decision, user) := cb user data resource_size spec in
                modify (λ _, user);;
                if decision =? UACPI_ITERATION_DECISION_BREAK then mret UACPI_STATUS_OK
                else if decision =? UACPI_ITERATION_DECISION_CONTINUE then
                  let total_size := resource_size + aml_resource_kind_to_header_size (rs_resource_kind spec) in
                  if bool_decide (type = UACPI_AML_RESOURCE_END_TAG) then mret UACPI_STATUS_OK
                  else resource_loop fuel (data + total_size) (u64 (bytes_left - total_size))
                else mret UACPI_STATUS_INTERNAL_ERROR
        end
  end.

(** A descriptor has at least one byte. *)
Definition uacpi_for_each_aml_resource : M U uacpi_status :=
  resource_loop (S (length buffer)) 0 (Z.of_nat (length buffer)).
End for_each.

(** The pointer starts as the null pointer, here [None]. *)
Definition find_end (end_tag_ptr : option Z) (data resource_size : Z) (spec : uacpi_resource_spec) : Z * option Z :=
  if negb (bool_decide (rs_type spec = UACPI_AML_RESOURCE_END_TAG)) then (UACPI_ITERATION_DECISION_CONTINUE, end_tag_ptr)
  else (UACPI_ITERATION_DECISION_BREAK, Some data).

(** The status and the offset; a difference to the null pointer is a fault. *)
Definition uacpi_find_aml_resource_end_tag (buffer : list Z) : M (option Z) (uacpi_status * Z) :=
  if Z.of_nat (length buffer) =? 0 then mret (UACPI_STATUS_OK, 0)
  else
    modify (λ _, None);;
    ret ← uacpi_for_each_aml_resource buffer find_end;
    if negb (bool_decide (ret = UACPI_STATUS_OK)) then mret (ret, 0)
    else
      p ← gets (λ u, u);
      match p with Some off => mret (UACPI_STATUS_OK, off) | None => fault 0 end.

(** ** The tables fit together *)

(** The kind of the specification is the kind of the first byte. *)
Lemma kind_of_type b spec :
  0 ≤ b < 256 → aml_resources (get_aml_resource_type b) = Some spec →
  rs_type spec = get_aml_resource_type b ∧ 0 ≤ rs_aml_size spec ∧
  rs_resource_kind spec = (if is_large b then UACPI_AML_RESOURCE_KIND_LARGE else UACPI_AML_RESOURCE_KIND_SMALL).
Proof.
  intros Hb E.
  assert (∀ i, (i < 256)%nat → match aml_resources (get_aml_resource_type (Z.of_nat i)) with
    | None => True
    | Some spec => rs_type spec = get_aml_resource_type (Z.of_nat i) ∧ 0 ≤ rs_aml_size spec ∧
        rs_resource_kind spec = (if is_large (Z.of_nat i) then UACPI_AML_RESOURCE_KIND_LARGE else UACPI_AML_RESOURCE_KIND_SMALL)
    end) as H.
  { intros i Hi. do 256 (destruct i as [|i]; [vm_compute; repeat split; discriminate|]). lia. }
  specialize (H (Z.to_nat b) ltac:(lia)). rewrite Z2Nat.id in H by lia. by rewrite E in H.
Qed.

(** ** Safety *)

(** A descriptor of the buffer: it lies inside, its type is known, its size is
    one that the type allows, and the type of a serial connection is known. *)
Record descriptor_at (buffer : list Z) (data size : Z) (spec : uacpi_resource_spec) : Prop := {
  da_start : 0 ≤ data;
  da_size : 0 ≤ size;
  da_end : data + aml_resource_kind_to_header_size (rs_resource_kind spec) + size ≤ Z.of_nat (length buffer);
  da_type : ∃ b, buffer !! Z.to_nat data = Some b ∧ aml_resources (get_aml_resource_type b) = Some spec;
  da_accepted : size_accepted spec size = true;
  da_serial : rs_type spec = UACPI_AML_RESOURCE_SERIAL_CONNECTION →
    ∃ t, buffer !! Z.to_nat (data + serial_type_offset) = Some t ∧ ACPI_SERIAL_TYPE_I2C ≤ t ≤ ACPI_SERIAL_TYPE_CSI2
}.

Section safe.
Context {U : Type} (buffer : list Z) (cb : U → Z → Z → uacpi_resource_spec → Z * U).
Context (Hbytes : Forall (λ b, 0 ≤ b < 256) buffer) (Hlen : Z.of_nat (length buffer) < 2 ^ 64).

Lemma buffer_byte_ok off u :
  0 ≤ off < Z.of_nat (length buffer) →
  ∃ b, buffer !! Z.to_nat off = Some b ∧ 0 ≤ b < 256 ∧ buffer_byte (U := U) buffer off u = Ok (b, u).
Proof.
  intros Ho. destruct (lookup_lt_is_Some_2 buffer (Z.to_nat off)) as [b Hb]; [lia|]. exists b. split; [done|].
  split; [by eapply Forall_lookup_1 in Hbytes|]. unfold buffer_byte. rewrite (proj2 (Z.ltb_ge off 0)) by lia. by rewrite Hb.
Qed.

(** The size is refused, or the descriptor is inside. *)
Lemma get_size_ok data left b u :
  0 ≤ data → 0 < left → data + left = Z.of_nat (length buffer) → buffer !! Z.to_nat data = Some b → 0 ≤ b < 256 →
  ∃ st size, get_aml_resource_size (U := U) buffer data left u = Ok ((st, size), u) ∧
    (st = UACPI_STATUS_OK → 0 ≤ size ∧
      aml_resource_kind_to_header_size (if is_large b then UACPI_AML_RESOURCE_KIND_LARGE else UACPI_AML_RESOURCE_KIND_SMALL) + size ≤ left).
Proof.
  intros Hd Hl Hsum Hb Hr. unfold get_aml_resource_size.
  assert (buffer_byte (U := U) buffer data u = Ok (b, u)) as E.
  { unfold buffer_byte. rewrite (proj2 (Z.ltb_ge data 0)) by lia. by rewrite Hb. }
  rewrite (bind_ok _ _ _ _ _ E). destruct (is_large b); cbn [aml_resource_kind_to_header_size].
  - destruct (Z.ltb_spec left 3) as [H3|H3]; [by eexists _, _|].
    destruct (buffer_byte_ok (data + 1) u ltac:(lia)) as (lo & _ & Hlo & E1).
    destruct (buffer_byte_ok (data + 2) u ltac:(lia)) as (hi & _ & Hhi & E2).
    rewrite (bind_ok _ _ _ _ _ E1), (bind_ok _ _ _ _ _ E2). unfold LARGE_ITEM_HEADER_SIZE. rewrite wrap_small by lia.
    destruct (Z.ltb_spec (left - 3) (lo + 256 * hi)); [by eexists _, _|]. eexists _, _. split; [done|]. intros _. lia.
  - unfold SMALL_ITEM_HEADER_SIZE. rewrite wrap_small by lia.
    assert (0 ≤ Z.land b ACPI_SMALL_ITEM_LENGTH_MASK) by (apply Z.land_nonneg; lia).
    destruct (Z.ltb_spec (left - 1) (Z.land b ACPI_SMALL_ITEM_LENGTH_MASK)); [by eexists _, _|].
    eexists _, _. split; [done|]. intros _. lia.
Qed.

Context (P : U → Prop).
Context (Hcb : ∀ u data size spec, P u → descriptor_at buffer data size spec → P (cb u data size spec).2).

(** The check of a serial connection. *)
Lemma serial_ok data size spec u :
  0 ≤ data → 0 ≤ size → data + aml_resource_kind_to_header_size (rs_resource_kind spec) + size ≤ Z.of_nat (length buffer) →
  (∃ b, 0 ≤ b < 256 ∧ aml_resources (get_aml_resource_type b) = Some spec) → size_accepted spec size = true →
  ∃ st, (if bool_decide (rs_type spec = UACPI_AML_RESOURCE_SERIAL_CONNECTION)
         then t ← buffer_byte (U := U) buffer (data + serial_type_offset); mret (validate_aml_serial_type t)
         else mret UACPI_STATUS_OK) u = Ok (st, u) ∧
    (st = UACPI_STATUS_OK → rs_type spec = UACPI_AML_RESOURCE_SERIAL_CONNECTION →
      ∃ t, buffer !! Z.to_nat (data + serial_type_offset) = Some t ∧ ACPI_SERIAL_TYPE_I2C ≤ t ≤ ACPI_SERIAL_TYPE_CSI2).
Proof.
  intros Hd Hs Hend (b & Hb & Espec) Hacc. case_bool_decide as E; [|by eexists].
  assert (spec = DEFINE_LARGE_AML_RESOURCE UACPI_AML_RESOURCE_SERIAL_CONNECTION None 12 UACPI_AML_RESOURCE_SIZE_KIND_VARIABLE) as ->.
  { destruct (kind_of_type b spec Hb Espec) as (Et & _ & _). rewrite E in Et. rewrite <-Et in Espec. by injection Espec as <-. }
  assert (9 ≤ size) as H9. { unfold size_accepted in Hacc. cbn in Hacc. by apply Z.leb_le in Hacc. }
  cbn in Hend. unfold LARGE_ITEM_HEADER_SIZE in Hend.
  destruct (buffer_byte_ok (data + serial_type_offset) u) as (t & Ht & _ & Et); [unfold serial_type_offset; lia|].
  rewrite (bind_ok _ _ _ _ _ Et). eexists. split; [reflexivity|]. intros Hv _. exists t. split; [done|].
  unfold validate_aml_serial_type in Hv. destruct (_ || _) eqn:Eo; [done|]. apply orb_false_iff in Eo as [H1%Z.ltb_ge H2%Z.ltb_ge].
  lia.
Qed.

Lemma resource_loop_safe fuel : ∀ data left u,
  0 ≤ data → 0 ≤ left → data + left = Z.of_nat (length buffer) → left < Z.of_nat fuel → P u →
  wp (resource_loop buffer cb fuel data left) (λ _, P) u.
Proof.
  induction fuel as [|fuel IH]; intros data left u Hd Hl Hsum Hf HP; [lia|]. cbn [resource_loop].
  destruct (Z.eqb_spec left 0) as [|Hl0]; [by apply wp_ret|].
  destruct (buffer_byte_ok data u ltac:(lia)) as (b & Hb & Hr & E). unfold wp. rewrite (bind_ok _ _ _ _ _ E). cbv zeta.
  destruct (aml_resources (get_aml_resource_type b)) as [spec|] eqn:Es; [|done].
  destruct (kind_of_type b spec Hr Es) as (Ht & Hsz & Hk).
  destruct (get_size_ok data left b u Hd ltac:(lia) Hsum Hb Hr) as (st & size & Eg & Hg). rewrite (bind_ok _ _ _ _ _ Eg).
  case_bool_decide as Est; [|done]. cbn [negb]. destruct (Hg Est) as [Hs0 Hfit]. rewrite <-Hk in Hfit.
  destruct (size_accepted spec size) eqn:Hacc; [|done]. cbn [negb].
  destruct (serial_ok data size spec u Hd Hs0 ltac:(lia) ltac:(by exists b) Hacc) as (st' & Eser & Hser).
  rewrite (bind_ok _ _ _ _ _ Eser). destruct (bool_decide_reflect (st' = UACPI_STATUS_OK)) as [Est'|]; [|done]. cbn [negb]. rewrite (bind_ok _ _ _ _ _ eq_refl).
  assert (descriptor_at buffer data size spec) as Hda. { split; try done; [lia|by exists b|by apply Hser]. }
  pose proof (Hcb u data size spec HP Hda) as HP'. destruct (cb u data size spec) as [decision u']. simpl in HP'.
  rewrite (bind_ok _ _ _ _ _ eq_refl). destruct (decision =? UACPI_ITERATION_DECISION_BREAK); [done|].
  destruct (decision =? UACPI_ITERATION_DECISION_CONTINUE); [|done].
  destruct (bool_decide (get_aml_resource_type b = _)); [done|].
  assert (1 ≤ aml_resource_kind_to_header_size (rs_resource_kind spec)) by (destruct (rs_resource_kind spec); vm_compute; discriminate).
  rewrite wrap_small by lia. apply IH; [lia..|done].
Qed.
End safe.

(** C37: Whatever bytes firmware puts into a buffer, the iteration over its
    resources ends, reads no byte outside the buffer, and calls the callback
    only with descriptors that lie inside the buffer, have a known type and a
    size this type allows, and a known bus if they are serial connections:
    everything that the callback keeps as long as it is called like this holds
    at the end. *)
Theorem for_each_aml_resource_safe {U : Type} (buffer : list Z) (cb : U → Z → Z → uacpi_resource_spec → Z * U) (P : U → Prop) u :
  Forall (λ b, 0 ≤ b < 256) buffer → Z.of_nat (length buffer) < 2 ^ 64 →
  (∀ u data size spec, P u → descriptor_at buffer data size spec → P (cb u data size spec).2) → P u →
  ∃ st u', uacpi_for_each_aml_resource buffer cb u = Ok (st, u') ∧ P u'.
Proof.
  intros Hbytes Hlen Hcb HP. apply wp_ok. apply resource_loop_safe; try done; lia.
Qed.

Lemma for_each_aml_resource_safe_witness :
  ∃ st u', uacpi_for_each_aml_resource [71; 1; 2; 3; 4; 5; 6; 7; 121; 0; 255] find_end None = Ok (st, u') ∧
    (∀ off, u' = Some off → 0 ≤ off < 11).
Proof.
  apply (for_each_aml_resource_safe [71; 1; 2; 3; 4; 5; 6; 7; 121; 0; 255] find_end (λ u, ∀ off, u = Some off → 0 ≤ off < 11) None).
  - repeat (apply Forall_cons_2; [lia|]). constructor.
  - vm_compute. reflexivity.
  - intros u data size spec Hu [H1 H2 H3 _ _ _]. unfold find_end. destruct (negb _); [done|]. simpl. intros off [= <-].
    simpl in H3. destruct (rs_resource_kind spec); cbn in H3; unfold SMALL_ITEM_HEADER_SIZE, LARGE_ITEM_HEADER_SIZE in H3; lia.
  - done.
Defined.

(** ** Templates *)

(** A descriptor by its type and contents, and its bytes. *)
Definition descriptor : Type := uacpi_aml_resource * list Z.

Definition header_bytes (spec : uacpi_resource_spec) (len : Z) : list Z :=
  match rs_resource_kind spec with
  | UACPI_AML_RESOURCE_KIND_SMALL => [Z.lor (Z.shiftl (type_to_aml_resource (rs_type spec)) ACPI_SMALL_ITEM_NAME_IDX) len]
  | UACPI_AML_RESOURCE_KIND_LARGE => [Z.lor ACPI_LARGE_ITEM (type_to_aml_resource (rs_type spec)); len mod 256; len / 256]
  end.

Definition encode (d : descriptor) : list Z :=
  match aml_resources (fst d) with Some spec => header_bytes spec (Z.of_nat (length (snd d))) ++ snd d | None => [] end.

Record descriptor_ok (d : descriptor) (spec : uacpi_resource_spec) : Prop := {
  dk_spec : aml_resources (fst d) = Some spec;
  dk_size : size_accepted spec (Z.of_nat (length (snd d))) = true;
  dk_length : Z.of_nat (length (snd d)) < match rs_resource_kind spec with UACPI_AML_RESOURCE_KIND_SMALL => 8 | _ => 2 ^ 16 end;
  dk_serial : fst d = UACPI_AML_RESOURCE_SERIAL_CONNECTION →
    ∃ t, snd d !! 2%nat = Some t ∧ ACPI_SERIAL_TYPE_I2C ≤ t ≤ ACPI_SERIAL_TYPE_CSI2
}.

Lemma small_header t spec len :
  aml_resources t = Some spec → rs_resource_kind spec = UACPI_AML_RESOURCE_KIND_SMALL → 0 ≤ len < 8 →
  ∃ b, header_bytes spec len = [b] ∧ rs_type spec = t ∧ get_aml_resource_type b = t ∧ is_large b = false ∧
       Z.land b ACPI_SMALL_ITEM_LENGTH_MASK = len.
Proof.
  intros Hs Hk Hl. eexists. unfold header_bytes. rewrite Hk. split; [reflexivity|].
  assert (len = 0 ∨ len = 1 ∨ len = 2 ∨ len = 3 ∨ len = 4 ∨ len = 5 ∨ len = 6 ∨ len = 7) as Hc by lia.
  destruct t; (discriminate Hs || injection Hs as <-); try discriminate Hk; destruct Hc as [->|[->|[->|[->|[->|[->|[->| ->]]]]]]]; vm_compute; done.
Qed.

Lemma large_header t spec len :
  aml_resources t = Some spec → rs_resource_kind spec = UACPI_AML_RESOURCE_KIND_LARGE →
  ∃ b, header_bytes spec len = [b; len mod 256; len / 256] ∧ rs_type spec = t ∧ get_aml_resource_type b = t ∧ is_large b = true.
Proof.
  intros Hs Hk. eexists. unfold header_bytes. rewrite Hk. split; [reflexivity|].
  destruct t; (discriminate Hs || injection Hs as <-); try discriminate Hk; vm_compute; done.
Qed.

Section step.
Context {U : Type} (cb : U → Z → Z → uacpi_resource_spec → Z * U) (pre post : list Z) (d : descriptor) (spec : uacpi_resource_spec).
Context (Hd : descriptor_ok d spec).
Let buffer := pre ++ encode d ++ post.
Let data := Z.of_nat (length pre).
Let size := Z.of_nat (length (snd d)).

Lemma byte_at i b u : (encode d ++ post) !! i = Some b → buffer_byte (U := U) buffer (data + Z.of_nat i) u = Ok (b, u).
Proof.
  intros Hi. unfold buffer_byte. rewrite (proj2 (Z.ltb_ge _ 0)) by lia.
  replace (Z.to_nat (data + Z.of_nat i)) with (length pre + i)%nat by lia. unfold buffer.
  rewrite lookup_app_r by lia. replace (length pre + i - length pre)%nat with i by lia. by rewrite Hi.
Qed.

(** The first byte gives the type, and the size is the length. *)
Lemma encoded_header u left :
  left = Z.of_nat (length (encode d ++ post)) → left < 2 ^ 64 →
  ∃ b, buffer_byte (U := U) buffer data u = Ok (b, u) ∧ get_aml_resource_type b = fst d ∧ rs_type spec = fst d ∧
    get_aml_resource_size (U := U) buffer data left u = Ok ((UACPI_STATUS_OK, size), u).
Proof.
  intros Hl Hmax. pose proof Hd as [Hs _ Hlen _]. unfold encode in Hl. rewrite Hs in Hl.
  assert (Hb : ∀ i b u, (header_bytes spec size ++ snd d ++ post) !! i = Some b →
    buffer_byte (U := U) buffer (data + Z.of_nat i) u = Ok (b, u)).
  { intros i b u' Hi. apply byte_at. unfold encode. rewrite Hs, <-app_assoc. done. }
  fold size in Hl, Hlen. rewrite <-app_assoc, !length_app in Hl. unfold get_aml_resource_size.
  destruct (rs_resource_kind spec) eqn:Hk.
  - destruct (small_header (fst d) spec size Hs Hk ltac:(lia)) as (b & Eh & Ht1 & Ht2 & Hbig & Hmask). rewrite Eh in Hb, Hl.
    exists b. rewrite <-(Z.add_0_r data). pose proof (Hb 0%nat b u eq_refl) as E. split; [done|]. split; [done|]. split; [done|].
    rewrite (bind_ok _ _ _ _ _ E), Hbig, Hmask. cbn [length] in Hl. rewrite wrap_small by (cbn; unfold SMALL_ITEM_HEADER_SIZE; lia).
    cbn [aml_resource_kind_to_header_size]. unfold SMALL_ITEM_HEADER_SIZE.
    by rewrite (proj2 (Z.ltb_ge _ _)) by (unfold size; lia).
  - destruct (large_header (fst d) spec size Hs Hk) as (b & Eh & Ht1 & Ht2 & Hbig). rewrite Eh in Hb, Hl.
    exists b. pose proof (Hb 0%nat b u eq_refl) as E. rewrite Z.add_0_r in E. split; [done|]. split; [done|]. split; [done|].
    rewrite (bind_ok _ _ _ _ _ E), Hbig. cbn [length] in Hl. rewrite (proj2 (Z.ltb_ge left 3)) by lia.
    rewrite (bind_ok _ _ _ _ _ (Hb 1%nat _ u eq_refl)), (bind_ok _ _ _ _ _ (Hb 2%nat _ u eq_refl)).
    replace (size mod 256 + 256 * (size / 256)) with size by (pose proof (Z.div_mod size 256); lia).
    cbn [aml_resource_kind_to_header_size]. unfold LARGE_ITEM_HEADER_SIZE. rewrite wrap_small by lia.
    by rewrite (proj2 (Z.ltb_ge _ _)) by (unfold size; lia).
Qed.

Lemma length_encode : Z.of_nat (length (encode d)) = size + aml_resource_kind_to_header_size (rs_resource_kind spec).
Proof.
  unfold encode. rewrite (dk_spec _ _ Hd), length_app. unfold header_bytes, size. 
  destruct (rs_resource_kind spec); cbn [length aml_resource_kind_to_header_size]; unfold SMALL_ITEM_HEADER_SIZE, LARGE_ITEM_HEADER_SIZE; lia.
Qed.

(** One descriptor of a template. *)
Lemma for_each_step fuel left u :
  left = Z.of_nat (length (encode d ++ post)) → left < 2 ^ 64 →
  resource_loop buffer cb (S fuel) data left u =
  let '(decision, u) := cb u data size spec in
  if decision =? UACPI_ITERATION_DECISION_BREAK then Ok (UACPI_STATUS_OK, u)
  else if decision =? UACPI_ITERATION_DECISION_CONTINUE then
    if bool_decide (fst d = UACPI_AML_RESOURCE_END_TAG) then Ok (UACPI_STATUS_OK, u)
    else resource_loop buffer cb fuel (Z.of_nat (length (pre ++ encode d))) (Z.of_nat (length post)) u
  else Ok (UACPI_STATUS_INTERNAL_ERROR, u).
Proof.
  intros Hl Hmax. pose proof Hd as [Hs Hacc _ Hser]. pose proof length_encode as Hle.
  destruct (encoded_header u left Hl Hmax) as (b & Eb & Ht & Hty & Eg). rewrite length_app in Hl. cbn [resource_loop].
  assert (1 ≤ aml_resource_kind_to_header_size (rs_resource_kind spec)) by (destruct (rs_resource_kind spec); vm_compute; discriminate).
  rewrite (proj2 (Z.eqb_neq left 0)) by lia. rewrite (bind_ok _ _ _ _ _ Eb). cbv zeta. rewrite Ht, Hs, (bind_ok _ _ _ _ _ Eg).
  rewrite bool_decide_eq_true_2 by done. cbn [negb]. fold size in Hacc. rewrite Hacc. cbn [negb].
  assert (Eser : (if bool_decide (rs_type spec = UACPI_AML_RESOURCE_SERIAL_CONNECTION)
           then t ← buffer_byte (U := U) buffer (data + serial_type_offset); mret (validate_aml_serial_type t)
           else mret UACPI_STATUS_OK) u = Ok (UACPI_STATUS_OK, u)).
  { rewrite Hty. destruct (bool_decide_reflect (fst d = UACPI_AML_RESOURCE_SERIAL_CONNECTION)) as [E|]; [|done].
    destruct (Hser E) as (t & H2 & Hr). assert ((encode d ++ post) !! 5%nat = Some t) as H5.
    { rewrite E in Hs. injection Hs as <-. unfold encode. rewrite E. cbn. destruct (snd d) as [|? [|? l]]; [done..|].
      simpl in H2 |- *. apply lookup_app_l_Some, H2. }
    rewrite (bind_ok _ _ _ _ _ (byte_at 5 t u H5)). unfold validate_aml_serial_type.
    by rewrite (proj2 (Z.ltb_ge t _)), (proj2 (Z.ltb_ge _ t)) by lia. }
  rewrite (bind_ok _ _ _ _ _ Eser), bool_decide_eq_true_2 by done. cbn [negb]. rewrite (bind_ok _ _ _ _ _ eq_refl).
  destruct (cb u data size spec) as [decision u']. rewrite (bind_ok _ _ _ _ _ eq_refl).
  destruct (decision =? UACPI_ITERATION_DECISION_BREAK); [done|]. destruct (decision =? UACPI_ITERATION_DECISION_CONTINUE); [|done].
  destruct (bool_decide (fst d = _)); [done|]. rewrite wrap_small by lia. rewrite length_app. f_equal; unfold data; lia.
Qed.
End step.

Definition end_tag (check : Z) : descriptor := (UACPI_AML_RESOURCE_END_TAG, [check]).

(** Descriptors up to the end tag, and what comes behind it. *)
Definition template (ds : list descriptor) (check : Z) (rest : list Z) : list Z :=
  concat (map encode ds) ++ encode (end_tag check) ++ rest.

(** The calls that are due: the offset, the size and the specification. *)
Fixpoint calls (off : Z) (ds : list descriptor) : list (Z * Z * uacpi_resource_spec) :=
  match ds with
  | [] => []
  | d :: ds =>
      match aml_resources (fst d) with
      | Some spec => (off, Z.of_nat (length (snd d)), spec) :: calls (off + Z.of_nat (length (encode d))) ds
      | None => []
      end
  end.

(** A callback that writes down its calls. *)
Definition log_call (u : list (Z * Z * uacpi_resource_spec)) (data size : Z) (spec : uacpi_resource_spec) :
    Z * list (Z * Z * uacpi_resource_spec) := (UACPI_ITERATION_DECISION_CONTINUE, u ++ [(data, size, spec)]).

Definition inner (d : descriptor) : Prop := (∃ spec, descriptor_ok d spec) ∧ fst d ≠ UACPI_AML_RESOURCE_END_TAG.

Lemma end_tag_ok check : ∃ spec, descriptor_ok (end_tag check) spec ∧ rs_type spec = UACPI_AML_RESOURCE_END_TAG.
Proof.
  exists (DEFINE_SMALL_AML_RESOURCE UACPI_AML_RESOURCE_END_TAG UACPI_RESOURCE_TYPE_END_TAG 2 UACPI_AML_RESOURCE_SIZE_KIND_FIXED).
  split; [|reflexivity]. by split.
Qed.

Lemma encode_nonempty d : inner d → (1 ≤ length (encode d))%nat.
Proof.
  intros [[spec Hd] _]. pose proof (length_encode [] d spec Hd) as E.
  assert (1 ≤ aml_resource_kind_to_header_size (rs_resource_kind spec)) by (destruct (rs_resource_kind spec); vm_compute; discriminate). lia.
Qed.

Lemma template_count ds : Forall inner ds → (length ds ≤ length (concat (map encode ds)))%nat.
Proof.
  induction 1 as [|d ds Hd _ IH]; [done|]. simpl. rewrite length_app. pose proof (encode_nonempty d Hd). lia.
Qed.

(** The steps of an iteration over a template, for a callback that goes on up
    to the end tag. *)
Section template.
Context {U : Type} (cb : U → Z → Z → uacpi_resource_spec → Z * U) (check : Z) (rest : list Z).

Lemma template_walk ds : ∀ pre fuel u (Q : res (uacpi_status * U) → Prop) (R : list Z → list descriptor → U → Prop),
  Forall inner ds → (length ds < fuel)%nat → Z.of_nat (length (template ds check rest)) < 2 ^ 64 → R pre ds u →
  (∀ pre d ds u spec, R pre (d :: ds) u → descriptor_ok d spec → fst d ≠ UACPI_AML_RESOURCE_END_TAG →
    let r := cb u (Z.of_nat (length pre)) (Z.of_nat (length (snd d))) spec in
    fst r = UACPI_ITERATION_DECISION_CONTINUE ∧ R (pre ++ encode d) ds (snd r)) →
  (∀ pre u spec fuel, R pre [] u → descriptor_ok (end_tag check) spec → rs_type spec = UACPI_AML_RESOURCE_END_TAG →
    Q (let '(decision, u) := cb u (Z.of_nat (length pre)) 1 spec in
       if decision =? UACPI_ITERATION_DECISION_BREAK then Ok (UACPI_STATUS_OK, u)
       else if decision =? UACPI_ITERATION_DECISION_CONTINUE then
         if bool_decide (fst (end_tag check) = UACPI_AML_RESOURCE_END_TAG) then Ok (UACPI_STATUS_OK, u)
         else resource_loop (pre ++ encode (end_tag check) ++ rest) cb fuel
                (Z.of_nat (length (pre ++ encode (end_tag check)))) (Z.of_nat (length rest)) u
       else Ok (UACPI_STATUS_INTERNAL_ERROR, u))) →
  Q (resource_loop (pre ++ template ds check rest) cb fuel (Z.of_nat (length pre)) (Z.of_nat (length (template ds check rest))) u).
Proof.
  induction ds as [|d ds IH]; intros pre fuel u Q R Hds Hf Hmax HR Hstep Hend; (destruct fuel as [|fuel]; [lia|]).
  - destruct (end_tag_ok check) as (spec & Hok & Hty). unfold template in *. cbn [map concat app] in *.
    rewrite (for_each_step cb pre rest (end_tag check) spec Hok) by done. by apply Hend.
  - apply Forall_cons in Hds as [[[spec Hd] Hne] Hds]. simpl in Hf.
    assert (template (d :: ds) check rest = encode d ++ template ds check rest) as Et.
    { unfold template. simpl. by rewrite <-app_assoc. }
    rewrite Et in *. rewrite (for_each_step cb pre (template ds check rest) d spec Hd) by done.
    destruct (Hstep pre d ds u spec HR Hd Hne) as [Ed HR']. destruct (cb u _ _ spec) as [decision u'] eqn:Ecb. simpl in Ed, HR'.
    rewrite Ed. simpl (_ =? _). cbv iota. rewrite bool_decide_eq_false_2 by done.
    rewrite app_assoc. apply (IH (pre ++ encode d) fuel u' Q R); try done; [lia|].
    rewrite length_app in Hmax. lia.
Qed.
End template.

(** C38: A template that was put together from descriptors is taken apart into
    them: the iteration calls its callback with every descriptor in order, at
    its offset, with the length of its contents and the specification of its
    type, stops behind the end tag, and the end tag is found where it was
    put. *)
Theorem aml_template_roundtrip ds check rest :
  Forall inner ds → Z.of_nat (length (template ds check rest)) < 2 ^ 64 →
  uacpi_for_each_aml_resource (template ds check rest) log_call [] = Ok (UACPI_STATUS_OK, calls 0 (ds ++ [end_tag check])) ∧
  uacpi_find_aml_resource_end_tag (template ds check rest) None =
    Ok ((UACPI_STATUS_OK, Z.of_nat (length (concat (map encode ds)))), Some (Z.of_nat (length (concat (map encode ds))))).
Proof.
  intros Hds Hmax. pose proof (template_count ds Hds) as Hc.
  assert (Hf : (length ds < S (length (template ds check rest)))%nat) by (unfold template; rewrite length_app; lia). split.
  - unfold uacpi_for_each_aml_resource.
    apply (template_walk log_call check rest ds [] _ []
      (λ r, r = Ok (UACPI_STATUS_OK, calls 0 (ds ++ [end_tag check])))
      (λ pre ds' u, u ++ calls (Z.of_nat (length pre)) (ds' ++ [end_tag check]) = calls 0 (ds ++ [end_tag check]))); try done.
    + intros pre d ds' u spec HR Hd _. split; [done|]. simpl. rewrite <-HR. simpl. rewrite (dk_spec _ _ Hd).
      by rewrite <-app_assoc, length_app, Nat2Z.inj_add.
    + intros pre u spec fuel HR Hok _. simpl. f_equal. f_equal. rewrite <-HR. pose proof (dk_spec _ _ Hok) as Es.
      simpl in Es |- *. by injection Es as <-.
  - unfold uacpi_find_aml_resource_end_tag. rewrite (proj2 (Z.eqb_neq _ 0)).
    2: { unfold template. rewrite !length_app. simpl. lia. }
    rewrite (bind_ok _ _ _ _ _ eq_refl).
    assert (uacpi_for_each_aml_resource (template ds check rest) find_end None =
      Ok (UACPI_STATUS_OK, Some (Z.of_nat (length (concat (map encode ds)))))) as E.
    { unfold uacpi_for_each_aml_resource.
      apply (template_walk find_end check rest ds [] _ None
        (λ r, r = Ok (UACPI_STATUS_OK, Some (Z.of_nat (length (concat (map encode ds))))))
        (λ pre ds' u, u = None ∧ (length pre + length (concat (map encode ds')) = length (concat (map encode ds)))%nat)); try done.
      - intros pre d ds' u spec [-> HR] Hd Hne. unfold find_end.
        assert (rs_type spec = fst d) as -> by (destruct d as [[] ?]; pose proof (dk_spec _ _ Hd) as Es; simpl in Es; by simplify_eq).
        rewrite bool_decide_eq_false_2 by done. split; [done|]. split; [done|]. rewrite <-HR. simpl. rewrite !length_app. lia.
      - intros pre u spec fuel [-> HR] _ Hty. unfold find_end. rewrite Hty. simpl. simpl in HR. do 3 f_equal. lia. }
    by rewrite (bind_ok _ _ _ _ _ E).
Qed.

(** An interrupt, a vendor descriptor and a serial connection. *)
Definition sample_descriptors : list descriptor :=
  [(UACPI_AML_RESOURCE_IRQ, [0x10; 0; 1]); (UACPI_AML_RESOURCE_VENDOR_TYPE1, [1; 2; 3; 4]);
   (UACPI_AML_RESOURCE_SERIAL_CONNECTION, [1; 0; 2; 0; 0; 0; 1; 0; 0])].

Lemma aml_template_roundtrip_witness :
  uacpi_for_each_aml_resource (template sample_descriptors 0 [9; 9]) log_call [] =
    Ok (UACPI_STATUS_OK, calls 0 (sample_descriptors ++ [end_tag 0])) ∧
  uacpi_find_aml_resource_end_tag (template sample_descriptors 0 [9; 9]) None = Ok ((UACPI_STATUS_OK, 23), Some 23).
Proof.
  apply (aml_template_roundtrip sample_descriptors 0 [9; 9]).
  - unfold sample_descriptors. repeat (apply Forall_cons_2); [..|constructor];
      (split; [eexists; split; [reflexivity|reflexivity|reflexivity|]|done]); try done. intros _. by exists 2.
  - vm_compute. reflexivity.
Defined.
