(* ===== verification/TablesThms.v ===== *)
(** * ACPI tables: which tables the kernel finds

    For the configuration of the kernel (early table access, no installation
    handler, no flags, no mutex): the tables [acpi_init] records, the table a
    lookup returns, and what a reference costs.  Two theorems show how
    malformed firmware is handled. *)

From S2P Require Import Prelude Mem Digits Tables.
Local Open Scope Z_scope.
Local Open Scope kernel_scope.

(** ** Frames *)

(** The part of the state that no table operation changes. *)
Definition core (s : acpi) :=
  (acpi_mem s, rsdp_address s, acpi_hhdm_offset s, early_table_access s, installation_handler s, table_mutex s,
   rt_flags (rt s), init_level (rt s)).

(** The copy of the FADT is an array of 276 bytes. *)
Definition rt_ok (s : acpi) : Prop := mapped 276 (rt_fadt (rt s)) 0 = true.

(** The kernel's configuration. *)
Record ready (s : acpi) : Prop := {
  ready_early : early_table_access s = true;
  ready_handler : installation_handler s = None;
  ready_mutex : table_mutex s = 0;
  ready_flags : rt_flags (rt s) = 0;
  ready_fadt : rt_ok s
}.

Lemma ready_frame s s' : ready s → core s' = core s → rt_ok s' → ready s'.
Proof. intros [? ? ? ? ?] [= ]. split; congruence. Qed.

(** [m] returns, changes at most the runtime context, and keeps [I]. *)
Definition keeps (I : acpi → Prop) {A : Type} (m : M acpi A) : Prop :=
  ∀ s, rt_ok s → I s → ∃ a s', m s = Ok (a, s') ∧ core s' = core s ∧ rt_ok s' ∧ tables s' = tables s ∧ I s'.

Lemma keeps_bind I {A B} (m : M acpi A) (k : A → M acpi B) : keeps I m → (∀ a, keeps I (k a)) → keeps I (m ≫= k).
Proof.
  intros Hm Hk s Hr HI. destruct (Hm s Hr HI) as (a & s1 & E1 & C1 & R1 & T1 & I1).
  destruct (Hk a s1 R1 I1) as (b & s2 & E2 & C2 & R2 & T2 & I2).
  exists b, s2. rewrite (bind_ok _ _ _ _ _ E1), C2, T2. done.
Qed.

Lemma keeps_ret I {A} (a : A) : keeps I (mret a).
Proof. intros s Hr HI. by exists a, s. Qed.
Lemma keeps_gets I {A} (f : acpi → A) : keeps I (gets f).
Proof. intros s Hr HI. by exists (f s), s. Qed.

Lemma fadt_mapped s n off : rt_ok s → 0 ≤ off → off + Z.of_nat n ≤ 276 → mapped n (rt_fadt (rt s)) off = true.
Proof. unfold rt_ok. rewrite !mapped_spec. intros H ? ? x Hx. apply H. lia. Qed.

Lemma fget_ok s n off : rt_ok s → 0 ≤ off → off + Z.of_nat n ≤ 276 → ∃ v, load n (rt_fadt (rt s)) off = Some v.
Proof. intros. by apply load_is_Some, fadt_mapped. Qed.

Lemma keeps_fget I n off : 0 ≤ off → off + Z.of_nat n ≤ 276 → keeps I (fget n off).
Proof.
  intros ? ? s Hr HI. destruct (fget_ok s n off) as [v E]; [done..|]. exists v, s. unfold fget. by rewrite E.
Qed.

(** The state after [fput]. *)
Definition put_fadt (n : nat) (off v : Z) (s : acpi) : acpi :=
  MkAcpi (acpi_mem s) (rsdp_address s) (acpi_hhdm_offset s) (tables s) (early_table_access s)
    (installation_handler s) (table_mutex s) (set_fadt (store n (rt_fadt (rt s)) off v) (rt s)).

Lemma put_fadt_ok n off v s : rt_ok s → 0 ≤ off → off + Z.of_nat n ≤ 276 → rt_ok (put_fadt n off v s).
Proof. intros. unfold rt_ok. simpl. rewrite mapped_store; [done|]. by apply fadt_mapped. Qed.

Lemma keeps_fput I n off v :
  0 ≤ off → off + Z.of_nat n ≤ 276 → (∀ s, I s → I (put_fadt n off v s)) → keeps I (fput n off v).
Proof.
  intros ? ? HI s Hr Hs. exists tt, (put_fadt n off v s). split_and!; auto. by apply put_fadt_ok.
Qed.

(** The fields with the address of the DSDT. *)
Definition dsdt_fields (xd d : Z) (s : acpi) : Prop :=
  load 8 (rt_fadt (rt s)) fadt_x_dsdt = Some xd ∧ load 4 (rt_fadt (rt s)) fadt_dsdt = Some d.

Lemma dsdt_fields_put xd d n off v s :
  (off + Z.of_nat n ≤ 40 ∨ 44 ≤ off) ∧ (off + Z.of_nat n ≤ 140 ∨ 148 ≤ off) →
  dsdt_fields xd d s → dsdt_fields xd d (put_fadt n off v s).
Proof.
  intros [H1 H2] [E1 E2]. unfold dsdt_fields, fadt_x_dsdt, fadt_dsdt in *. simpl.
  by rewrite !load_store_ne by lia.
Qed.

Lemma keeps_upd_rt I f :
  (∀ r, rt_fadt (f r) = rt_fadt r ∧ rt_flags (f r) = rt_flags r ∧ init_level (f r) = init_level r) →
  (∀ s s', rt_fadt (rt s') = rt_fadt (rt s) → I s → I s') → keeps I (upd_rt f).
Proof.
  intros Hf HI s Hr Hs. eexists tt, _. split; [reflexivity|]. destruct (Hf (rt s)) as (F1 & F2 & F3).
  unfold core, rt_ok. simpl. rewrite F1, F2, F3. split_and!; try done. eapply HI; [|exact Hs]. by simpl.
Qed.

Create HintDb keeps.
#[export] Hint Resolve keeps_bind keeps_ret keeps_gets : keeps.
#[export] Hint Extern 1 (keeps _ (fget _ _)) => apply keeps_fget; vm_compute; discriminate : keeps.

Lemma dsdt_fields_rt xd d s s' : rt_fadt (rt s') = rt_fadt (rt s) → dsdt_fields xd d s → dsdt_fields xd d s'.
Proof. unfold dsdt_fields. by intros ->. Qed.

Lemma keeps_revision xd d : keeps (dsdt_fields xd d) fadt_ensure_correct_revision.
Proof.
  unfold fadt_ensure_correct_revision. apply keeps_bind; [auto with keeps|]. intros cur.
  apply keeps_bind; [auto with keeps|]. intros len.
  assert (∀ v, keeps (dsdt_fields xd d) (fput 1 fadt_hdr_revision v)) as Hput.
  { intros v. apply keeps_fput; [by vm_compute..|]. intros s. apply dsdt_fields_put. unfold fadt_hdr_revision. lia. }
  repeat case_match; auto with keeps.
Qed.

(** The last part of [initialize_fadt] cannot fail. *)
Lemma keeps_true_put n off v : 0 ≤ off → off + Z.of_nat n ≤ 276 → keeps (λ _, True) (fput n off v).
Proof. intros. by apply keeps_fput. Qed.

Lemma keeps_registers regs :
  Forall (λ r, let '(a, b, c) := r in 0 ≤ a ≤ 272 ∧ 0 ≤ b ≤ 264 ∧ 0 ≤ c ≤ 275) regs →
  keeps (λ _, True) (convert_registers_loop regs).
Proof.
  induction 1 as [|[[a b] c] regs Hr _ IH]; simpl; [apply keeps_ret|].
  apply keeps_bind; [apply keeps_fget; simpl; lia|]. intros legacy.
  apply keeps_bind; [apply keeps_fget; simpl; lia|]. intros len.
  apply keeps_bind; [apply keeps_fget; simpl; lia|]. intros address.
  apply keeps_bind; [|done]. case_match; [apply keeps_ret|]. unfold gas_init_system_io.
  repeat (apply keeps_bind; [apply keeps_true_put; simpl; lia|intros _]). apply keeps_true_put; simpl; lia.
Qed.

Lemma keeps_finish : keeps (λ _, True) fadt_finish.
Proof.
  unfold fadt_finish. apply keeps_bind; [auto with keeps|]. intros fw.
  apply keeps_bind. { case_match; [by apply keeps_true_put|apply keeps_ret]. } intros _.
  apply keeps_bind; [auto with keeps|]. intros reduced. case_match; [|apply keeps_ret].
  apply keeps_bind. { apply keeps_registers. repeat constructor; lia. } intros _.
  unfold split_event_blocks, split_one_block.
  assert (∀ off, 0 ≤ off ≤ 264 → keeps (λ _, True) (split_one_block off)) as Hs.
  { intros off Hoff. unfold split_one_block. apply keeps_bind; [apply keeps_fget; simpl; lia|]. intros a.
    case_match; [apply keeps_ret|]. apply keeps_bind; [apply keeps_fget; simpl; lia|]. intros. apply keeps_ret. }
  apply keeps_bind; [by apply Hs|]. intros x.
  apply keeps_bind. { destruct x as [[]|]; [|apply keeps_ret]. by apply keeps_upd_rt. } intros _.
  apply keeps_bind; [by apply Hs|]. intros y. destruct y as [[]|]; [|apply keeps_ret]. by apply keeps_upd_rt.
Qed.

(** ** Reading firmware memory *)

Definition readable (m : mem) (a n : Z) : Prop := ∀ x, a ≤ x < a + n → is_Some (m x).

Lemma readable_load m a n k b : readable m a n → a ≤ b → b + Z.of_nat k ≤ a + n → ∃ v, load k m b = Some v.
Proof. intros H ? ?. apply load_is_Some, mapped_spec. intros x Hx. apply H. lia. Qed.

Fixpoint load_bytes (n : nat) (m : mem) (a : Z) : option (list Z) :=
  match n with
  | O => Some []
  | S n' => b ← load 1 m a; bs ← load_bytes n' m (a + 1); Some (b :: bs)
  end.

Definition hdr_at (m : mem) (virt : Z) : option acpi_sdt_hdr :=
  sig ← load_bytes 4 m virt;
  len ← load 4 m (virt + 4);
  rev ← load 1 m (virt + 8);
  sum ← load 1 m (virt + 9);
  oem ← load_bytes 6 m (virt + 10);
  oemt ← load_bytes 8 m (virt + 16);
  orev ← load 4 m (virt + 24);
  cid ← load 4 m (virt + 28);
  crev ← load 4 m (virt + 32);
  Some (MkHdr sig len rev sum oem oemt orev cid crev).

Lemma rd_ok n a v (s : acpi) : load n (acpi_mem s) a = Some v → rd n a s = Ok (v, s).
Proof. intros E. unfold rd. simpl. by rewrite E. Qed.

Lemma rd_bytes_ok n a bs (s : acpi) : load_bytes n (acpi_mem s) a = Some bs → rd_bytes n a s = Ok (bs, s).
Proof.
  revert a bs. induction n as [|n IH]; intros a bs; simpl; [by intros [= <-]|].
  destruct (load 1 (acpi_mem s) a) as [b|] eqn:Eb; simpl; [|done].
  destruct (load_bytes n (acpi_mem s) (a + 1)) as [bs'|] eqn:E; simpl; [|done]. intros [= <-].
  rewrite (bind_ok _ _ _ _ _ (rd_ok _ _ _ _ Eb)), (bind_ok _ _ _ _ _ (IH _ _ E)). done.
Qed.

(** A chain of reads follows a chain of [load]s. *)
Lemma bind_load {A B} (r : M acpi A) (o : option A) (k : A → M acpi B) (k' : A → option B) b s :
  (∀ a, o = Some a → r s = Ok (a, s)) → (∀ a, k' a = Some b → k a s = Ok (b, s)) →
  o ≫= k' = Some b → (r ≫= k) s = Ok (b, s).
Proof. intros Hr Hk. destruct o as [a|]; simpl; [|done]. intros E. rewrite (bind_ok _ _ _ _ _ (Hr a eq_refl)). auto. Qed.

Lemma read_hdr_ok virt h s : hdr_at (acpi_mem s) virt = Some h → read_hdr virt s = Ok (h, s).
Proof.
  unfold hdr_at, read_hdr.
  do 9 (apply bind_load; [intros ? ?; (by apply rd_ok) || (by apply rd_bytes_ok)|intros ?]).
  intros [= ->]. done.
Qed.

Lemma hdr_at_length m virt h : hdr_at m virt = Some h → load 4 m (virt + 4) = Some (hdr_length h).
Proof.
  unfold hdr_at. intros H. apply bind_Some in H as (sig & _ & H). apply bind_Some in H as (len & El & H).
  repeat (let x := fresh in apply bind_Some in H as (x & _ & H)). injection H as <-. exact El.
Qed.

Lemma checksum_ok n a c s : readable (acpi_mem s) a (Z.of_nat n) → ∃ c', table_checksum_loop n a c s = Ok (c', s).
Proof.
  revert a c. induction n as [|n IH]; intros a c H; simpl; [by eexists|].
  destruct (readable_load _ _ _ 1 a H) as [b Hb]; [lia|simpl; lia|]. rewrite (bind_ok _ _ _ _ _ (rd_ok _ _ _ _ Hb)).
  apply IH. intros x Hx. apply H. lia.
Qed.

Lemma check_flag_zero flag s : rt_flags (rt s) = 0 → flag ≠ 0 → uacpi_check_flag flag s = Ok (false, s).
Proof.
  intros E Hf. unfold uacpi_check_flag. unfold mbind, M_bind, gets. simpl. rewrite E.
  rewrite Z.land_0_l. by rewrite (proj2 (Z.eqb_neq 0 flag)) by done.
Qed.

(** Without the fatal flags a bad checksum or signature is only logged. *)
Lemma verify_ok a n s :
  rt_flags (rt s) = 0 → 0 ≤ n → readable (acpi_mem s) a n → uacpi_verify_table_checksum a n s = Ok (UACPI_STATUS_OK, s).
Proof.
  intros Hf Hn Hr. unfold uacpi_verify_table_checksum, table_checksum.
  destruct (checksum_ok (Z.to_nat n) a 0 s) as [c Hc]; [by rewrite Z2Nat.id|].
  rewrite (bind_ok _ _ _ _ _ Hc). case_match; [|done].
  by rewrite (bind_ok _ _ _ _ _ (check_flag_zero UACPI_FLAG_BAD_CSUM_FATAL s Hf ltac:(done))).
Qed.

Lemma check_signature_ok sig e s : rt_flags (rt s) = 0 → uacpi_check_table_signature sig e s = Ok (UACPI_STATUS_OK, s).
Proof.
  intros Hf. unfold uacpi_check_table_signature. case_match; [|done].
  by rewrite (bind_ok _ _ _ _ _ (check_flag_zero UACPI_FLAG_BAD_TBL_SIGNATURE_FATAL s Hf ltac:(done))).
Qed.

(** ** The FADT *)

Lemma load_same n m m' a a' :
  (∀ i, 0 ≤ i < Z.of_nat n → load8 m' (a' + i) = load8 m (a + i)) → load n m' a' = load n m a.
Proof.
  revert a a'. induction n as [|n IH]; intros a a' H; [done|]. rewrite !load_S.
  pose proof (H 0 ltac:(lia)) as H0. rewrite !Z.add_0_r in H0. rewrite H0.
  destruct (load8 m a); simpl; [|done]. rewrite (IH (a + 1) (a' + 1)); [done|].
  intros i Hi. pose proof (H (i + 1) ltac:(lia)) as Hi1.
  replace (a' + 1 + i) with (a' + (i + 1)) by lia. by replace (a + 1 + i) with (a + (i + 1)) by lia.
Qed.

Lemma fadt_copy_ok n virt off s :
  rt_ok s → 0 ≤ off → off + Z.of_nat n ≤ 276 → readable (acpi_mem s) (virt + off) (Z.of_nat n) →
  ∃ s', fadt_copy n virt off s = Ok (tt, s') ∧ core s' = core s ∧ rt_ok s' ∧ tables s' = tables s ∧
    (∀ i, off ≤ i < off + Z.of_nat n → load8 (rt_fadt (rt s')) i = load8 (acpi_mem s) (virt + i)) ∧
    (∀ i, 0 ≤ i < off → load8 (rt_fadt (rt s')) i = load8 (rt_fadt (rt s)) i).
Proof.
  revert off s. induction n as [|n IH]; intros off s Hr H0 Hn Hm; simpl.
  { exists s. split_and!; try done. intros i Hi. lia. }
  destruct (readable_load _ _ _ 1 (virt + off) Hm) as [b Hb]; [lia|simpl; lia|].
  rewrite (bind_ok _ _ _ _ _ (rd_ok _ _ _ _ Hb)).
  destruct (IH (off + 1) (put_fadt 1 off b s)) as (s' & E & C & R & T & H1 & H2).
  { apply put_fadt_ok; [done|lia|simpl; lia]. }
  { lia. } { lia. } { intros x Hx. apply Hm. lia. }
  exists s'. split_and!; [exact E|exact C|exact R|exact T|..].
  - intros i Hi. destruct (decide (i = off)) as [->|Hne]; [|apply H1; lia].
    rewrite H2 by lia. pose proof (load_store_eq 1 (rt_fadt (rt s)) off b) as El.
    rewrite (load_S 0) in El. simpl in El |- *.
    pose proof (load_range 1 (acpi_mem s) (virt + off) b Hb) as Hbr. change (256 ^ Z.of_nat 1) with 256 in Hbr.
    rewrite (load_S 0) in Hb. destruct (load8 (acpi_mem s) (virt + off)) as [x|]; simpl in Hb; [|done].
    change (load 0 (acpi_mem s) (virt + off + 1)) with (Some 0) in Hb. simpl in Hb.
    destruct (load8 (store 1 (rt_fadt (rt s)) off b) off) as [y|]; simpl in El; [|done].
    change (load 0 _ _) with (Some 0) in El. simpl in El. injection Hb as Hb. injection El as El.
    rewrite Z.mod_small in El by lia. f_equal. lia.
  - intros i Hi. rewrite H2 by lia. simpl. unfold load8. by rewrite store_other by (simpl; lia).
Qed.

(** The address of the DSDT in a FADT in memory. *)
Definition dsdt_addr (m : mem) (virt : Z) : option Z :=
  xd ← load 8 m (virt + fadt_x_dsdt); d ← load 4 m (virt + fadt_dsdt);
  Some (if xd =? 0 then d else xd).

(** One step of a chain that changes at most the runtime context. *)
Definition gives {A : Type} (m : M acpi A) (x : A) (s : acpi) : Prop :=
  ∃ s', m s = Ok (x, s') ∧ core s' = core s ∧ rt_ok s' ∧ tables s' = tables s.

Lemma keeps_then I {A B} (m : M acpi A) (k : A → M acpi B) (x : B) s :
  keeps I m → rt_ok s → I s → (∀ a s', rt_ok s' → I s' → gives (k a) x s') → gives (m ≫= k) x s.
Proof.
  intros Hm Hr HI Hk. destruct (Hm s Hr HI) as (a & s1 & E1 & C1 & R1 & T1 & I1).
  destruct (Hk a s1 R1 I1) as (s2 & E2 & C2 & R2 & T2). exists s2. rewrite (bind_ok _ _ _ _ _ E1), C2, T2. done.
Qed.

Lemma fget_gives n off v s : rt_ok s → load n (rt_fadt (rt s)) off = Some v → gives (fget n off) v s.
Proof. intros Hr E. exists s. unfold fget. by rewrite E. Qed.

Lemma dsdt_choice xd d s :
  rt_ok s → dsdt_fields xd d s →
  gives (x ← fget 8 fadt_x_dsdt;
         (if x =? 0 then d ← fget 4 fadt_dsdt; fput 8 fadt_x_dsdt d else mret tt);;
         fget 8 fadt_x_dsdt) (if xd =? 0 then d else xd) s.
Proof.
  intros Hr [Ex Ed]. unfold gives.
  assert (fget 8 fadt_x_dsdt s = Ok (xd, s)) as E1 by (unfold fget; by rewrite Ex).
  assert (fget 4 fadt_dsdt s = Ok (d, s)) as E2 by (unfold fget; by rewrite Ed).
  rewrite (bind_ok _ _ _ _ _ E1). destruct (xd =? 0) eqn:E0; [|by apply fget_gives].
  assert ((d ← fget 4 fadt_dsdt; fput 8 fadt_x_dsdt d) s = Ok (tt, put_fadt 8 fadt_x_dsdt d s)) as E3
    by by rewrite (bind_ok _ _ _ _ _ E2).
  rewrite (bind_ok _ _ _ _ _ E3).
  change (∃ s', fget 8 fadt_x_dsdt (put_fadt 8 fadt_x_dsdt d s) = Ok (d, s') ∧ core s' = core s ∧ rt_ok s' ∧ tables s' = tables s).
  pose proof (load_range _ _ _ _ Ed) as Hd. change (256 ^ Z.of_nat 4) with 4294967296 in Hd.
  apply (fget_gives 8 fadt_x_dsdt d (put_fadt 8 fadt_x_dsdt d s)); [by apply put_fadt_ok|].
  simpl. rewrite load_store_eq. f_equal. apply Z.mod_small. change (256 ^ Z.of_nat 8) with 18446744073709551616. lia.
Qed.

Lemma fadt_load_ok virt len x s :
  rt_ok s → load 4 (acpi_mem s) (virt + 4) = Some len → 148 ≤ len → readable (acpi_mem s) virt len →
  dsdt_addr (acpi_mem s) virt = Some x → gives (fadt_load virt) x s.
Proof.
  intros Hr Hlen Hl Hm Hx. unfold dsdt_addr in Hx.
  destruct (load 8 (acpi_mem s) (virt + fadt_x_dsdt)) as [xd|] eqn:Exd; simpl in Hx; [|done].
  destruct (load 4 (acpi_mem s) (virt + fadt_dsdt)) as [d|] eqn:Ed; simpl in Hx; [|done]. injection Hx as <-.
  unfold gives, fadt_load. rewrite (bind_ok _ _ _ _ _ (rd_ok _ _ _ _ Hlen)).
  set (n := Z.to_nat (Z.min sizeof_acpi_fadt len)).
  assert (148 ≤ Z.of_nat n ≤ 276) as Hn by (unfold n, sizeof_acpi_fadt; lia).
  destruct (fadt_copy_ok n virt 0 s) as (s1 & E1 & <- & R1 & <- & H1 & _); [done|lia|lia| |].
  { intros y Hy. apply Hm. unfold n, sizeof_acpi_fadt in Hy. lia. }
  rewrite (bind_ok _ _ _ _ _ E1).
  assert (dsdt_fields xd d s1) as HF.
  { unfold dsdt_fields. rewrite <-Exd, <-Ed. split; apply load_same; intros i Hi; rewrite H1;
      try (f_equal; lia); unfold fadt_x_dsdt, fadt_dsdt; lia. }
  apply (keeps_then (dsdt_fields xd d)); [auto with keeps|done..|]. intros fl s2 R2 F2.
  apply (keeps_then (dsdt_fields xd d)); [by apply keeps_upd_rt; [|intros ? ?; apply dsdt_fields_rt]|done..|].
  intros _ s3 R3 F3.
  apply (keeps_then (dsdt_fields xd d)); [apply keeps_revision|done..|]. intros _ s4 R4 F4.
  apply (keeps_then (dsdt_fields xd d)); [auto with keeps|done..|]. intros rev s5 R5 F5.
  apply (keeps_then (dsdt_fields xd d)); [|done..|].
  { case_match; [|apply keeps_ret].
    repeat (apply keeps_bind; [|intros _]); (apply keeps_fput; [done..|]; intros u; apply dsdt_fields_put; 
      unfold fadt_preferred_pm_profile, fadt_pstate_cnt, fadt_cst_cnt, fadt_iapc_boot_arch; simpl; lia). }
  intros _ s6 R6 F6. by apply dsdt_choice.
Qed.

(** ** Installing the tables of the firmware *)

(** The table that is recorded for a header in memory. *)
Definition is_fadt (h : acpi_sdt_hdr) : bool := uacpi_signatures_match (signature h) ACPI_FADT_SIGNATURE.
Definition is_facs (h : acpi_sdt_hdr) : bool := uacpi_signatures_match (signature h) ACPI_FACS_SIGNATURE.

Definition table_entry (m : mem) (off phys : Z) : option uacpi_installed_table :=
  let virt := phys +64 off in
  h ← hdr_at m virt;
  if (virt =? 0) || (hdr_length h <? sizeof_acpi_sdt_hdr) then None
  else Some (MkTable phys h 0 0 (if is_fadt h || is_facs h then UACPI_TABLE_CSUM_VERIFIED else 0)
    UACPI_TABLE_ORIGIN_FIRMWARE_PHYSICAL).

(** The tables an entry of the root table leads to, in the order in which
    they are recorded: the FADT also leads to the DSDT. *)
Definition entry_tables (m : mem) (off phys : Z) : option (list uacpi_installed_table) :=
  t ← table_entry m off phys;
  if is_fadt (hdr t) then
    let virt := phys +64 off in
    let len := hdr_length (hdr t) in
    if (148 <=? len) && mapped (Z.to_nat len) m virt then
      x ← dsdt_addr m virt;
      if x =? 0 then Some [t]
      else d ← table_entry m off x; if is_fadt (hdr d) then None else Some [d; t]
    else None
  else Some [t].

(** Tables beyond the capacity of the array are dropped. *)
Definition push (ta : table_array) (t : uacpi_installed_table) : table_array :=
  if table_array_size ta =? table_array_capacity ta then ta
  else MkArray (elems ta ++ [t]) (dynamic_storage ta) (dynamic_capacity ta).

(** [m] returns a result in [P], and records the tables [ts]. *)
Definition records {A : Type} (m : M acpi A) (P : A → Prop) (ts : list uacpi_installed_table) (s : acpi) : Prop :=
  ∃ a s', m s = Ok (a, s') ∧ P a ∧ core s' = core s ∧ rt_ok s' ∧ tables s' = foldl push (tables s) ts.

Lemma records_bind {A B} (m : M acpi A) (k : A → M acpi B) P Q ts us s :
  ready s → records m P ts s → (∀ a s', P a → core s' = core s → ready s' → records (k a) Q us s') →
  records (m ≫= k) Q (ts ++ us) s.
Proof.
  intros Hs (a & s1 & E1 & Pa & C1 & R1 & T1) Hk.
  destruct (Hk a s1 Pa C1 (ready_frame _ _ Hs C1 R1)) as (b & s2 & E2 & Pb & C2 & R2 & T2).
  exists b, s2. rewrite (bind_ok _ _ _ _ _ E1), C2, T2, T1, foldl_app. done.
Qed.

Lemma records_ret {A} (x : A) (P : A → Prop) s : ready s → P x → records (mret x) P [] s.
Proof. intros [? ? ? ? ?] ?. by exists x, s. Qed.

Lemma records_keeps {A} (m : M acpi A) s : ready s → keeps (λ _, True) m → records m (λ _, True) [] s.
Proof.
  intros Hs Hm. destruct (Hm s (ready_fadt _ Hs) I) as (a & s' & E & C & R & T & _). by exists a, s'.
Qed.

Lemma records_gives {A} (m : M acpi A) x s : gives m x s → records m (λ a, a = x) [] s.
Proof. intros (s' & E & C & R & T). by exists x, s'. Qed.

(** A step that changes nothing. *)
Lemma records_pure {A B} (m : M acpi A) (k : A → M acpi B) a P ts s :
  m s = Ok (a, s) → records (k a) P ts s → records (m ≫= k) P ts s.
Proof. intros E (b & s' & H). exists b, s'. by rewrite (bind_ok _ _ _ _ _ E). Qed.

Lemma bind_gets {A B} (f : acpi → A) (k : A → M acpi B) s : (gets f ≫= k) s = k (f s) s.
Proof. done. Qed.

Definition with_tables (ta : table_array) (s : acpi) : acpi :=
  MkAcpi (acpi_mem s) (rsdp_address s) (acpi_hhdm_offset s) ta (early_table_access s)
    (installation_handler s) (table_mutex s) (rt s).

(** There is room below the capacity, and no allocation is needed. *)
Lemma table_array_alloc_ok t s :
  table_array_size (tables s) ≠ table_array_capacity (tables s) →
  table_array_alloc t s = Ok (Some (table_array_size (tables s)), with_tables (push (tables s) t) s).
Proof.
  intros E. unfold table_array_alloc, push. rewrite bind_gets, (proj2 (Z.eqb_neq _ _) E).
  unfold table_array_capacity in E.
  destruct (Z.eqb_spec (table_array_size (tables s) - table_array_inline_capacity (tables s))
    (dynamic_capacity (tables s))); [lia|]. by rewrite andb_false_r.
Qed.

Lemma table_alloc_records t s : ready s → records (table_alloc t) (λ _, True) [t] s.
Proof.
  intros [Hearly _ _ _ Hrt]. unfold records, table_alloc. rewrite !bind_gets, Hearly. cbn [andb foldl].
  destruct (_ =? _) eqn:E.
  { exists (UACPI_STATUS_OUT_OF_MEMORY, 0), s. unfold push. by rewrite E. }
  apply Z.eqb_neq in E. rewrite (bind_ok _ _ _ _ _ (table_array_alloc_ok t s E)). by eexists _, _.
Qed.

(** The end of [verify_and_install_table]. *)
Lemma install_end h phys fl o s :
  ready s →
  records ((if uacpi_signatures_match (signature h) ACPI_DSDT_SIGNATURE
            then upd_rt (set_is_rev1 (revision h <? 2)) else mret tt);;
           a ← table_alloc (MkTable phys h 0 0 fl o);
           match a with
           | (UACPI_STATUS_OK, idx) => mret (UACPI_STATUS_OK, if false then Some (MkOut 0 idx) else None)
           | (e, _) => mret (e, None)
           end) (λ r, snd r = None) [MkTable phys h 0 0 fl o] s.
Proof.
  intros Hs. apply (records_bind _ _ (λ _, True) _ [] [_]); [done| |].
  { apply records_keeps; [done|]. case_match; [by apply keeps_upd_rt|apply keeps_ret]. }
  intros _ s1 _ _ H1. apply (records_bind _ _ (λ _, True) _ [_] []); [done|by apply table_alloc_records|].
  intros [ret idx] s2 _ _ H2. destruct ret; by apply records_ret.
Qed.

Lemma map_ok phys len s : uacpi_kernel_map phys len s = Ok (phys +64 acpi_hhdm_offset s, s).
Proof. done. Qed.

Section install_level.
Context (install : install_req → M acpi install_result).

Lemma verify_plain h phys o s :
  ready s → is_fadt h = false →
  records (verify_and_install_table install h phys 0 o false) (λ r, snd r = None)
    [MkTable phys h 0 0 (if is_fadt h || is_facs h then UACPI_TABLE_CSUM_VERIFIED else 0) o] s.
Proof.
  intros Hs Hf. unfold verify_and_install_table. unfold is_fadt in Hf |- *. rewrite Hf. cbn [orb].
  eapply records_pure; [apply check_flag_zero; [apply Hs|done]|].
  unfold is_facs. destruct (uacpi_signatures_match (signature h) ACPI_FACS_SIGNATURE); cbn [orb];
    (eapply records_pure; [reflexivity|]); by apply install_end.
Qed.

(** The FADT at [phys]: what follows for the tables is what the call for the
    DSDT records. *)
Lemma verify_fadt h phys x ds s :
  ready s → let virt := phys +64 acpi_hhdm_offset s in
  hdr_at (acpi_mem s) virt = Some h → is_fadt h = true → virt ≠ 0 → 148 ≤ hdr_length h →
  readable (acpi_mem s) virt (hdr_length h) → dsdt_addr (acpi_mem s) virt = Some x →
  (∀ s', core s' = core s → ready s' → x ≠ 0 →
     records (install (IPhysical x UACPI_TABLE_ORIGIN_FIRMWARE_PHYSICAL (Some ACPI_DSDT_SIGNATURE) false))
       (λ r, fst r = UACPI_STATUS_OK) ds s') → (x = 0 → ds = []) →
  records (verify_and_install_table install h phys 0 UACPI_TABLE_ORIGIN_FIRMWARE_PHYSICAL false) (λ r, snd r = None)
    (ds ++ [MkTable phys h 0 0 UACPI_TABLE_CSUM_VERIFIED UACPI_TABLE_ORIGIN_FIRMWARE_PHYSICAL]) s.
Proof.
  intros Hs virt Hh Hf Hv Hl Hr Hx Hinst H0. unfold verify_and_install_table. unfold is_fadt in Hf. rewrite Hf.
  eapply records_pure; [apply check_flag_zero; [apply Hs|done]|]. cbn [orb].
  destruct (uacpi_signatures_match (signature h) ACPI_FACS_SIGNATURE) eqn:E.
  { unfold uacpi_signatures_match in *. apply bool_decide_eq_true in E, Hf. by rewrite E in Hf. }
  apply (records_bind _ _ (λ r, r = (UACPI_STATUS_OK, UACPI_TABLE_CSUM_VERIFIED))); [done| |].
  - cbn [Z.eqb]. eapply records_pure; [apply map_ok|]. fold virt. rewrite (proj2 (Z.eqb_neq _ _) Hv).
    eapply records_pure; [apply verify_ok; [apply Hs|lia|done]|].
    rewrite <-(app_nil_r ds).
    apply (records_bind _ _ (λ r, r = UACPI_STATUS_OK)); [done| |intros ? ? -> ? ?; by apply records_ret].
    unfold initialize_fadt. apply (records_bind _ _ (λ a, a = x) _ [] ds); [done| |].
    { apply records_gives. apply (fadt_load_ok _ (hdr_length h)); [apply Hs|by apply hdr_at_length|done..]. }
    intros ? s1 -> C1 H1. rewrite <-(app_nil_r ds).
    apply (records_bind _ _ (λ r, r = UACPI_STATUS_OK)); [done| |].
    + destruct (Z.eqb_spec x 0) as [->|Hne]; cbn [negb]; [by rewrite H0; [apply records_ret|]|].
      rewrite <-(app_nil_r ds). eapply records_bind; [done|by apply Hinst|].
      intros [ret out] s2 E2 _ H2. simpl in E2. subst ret. by apply records_ret.
    + intros ? s2 -> C2 H2. cbn [on_ok]. apply (records_bind _ _ (λ _, True) _ [] []); [done| |].
      * by apply records_keeps, keeps_finish.
      * intros. by apply records_ret.
  - intros ? s1 -> C1 H1. by apply install_end.
Qed.
End install_level.

(** A call of [table_install] for a table of the firmware. *)
Definition installs (fuel : nat) (phys : Z) (e : option (list Z)) (ts : list uacpi_installed_table) (s : acpi) : Prop :=
  records (table_install fuel (IPhysical phys UACPI_TABLE_ORIGIN_FIRMWARE_PHYSICAL e false))
    (λ r, r = (UACPI_STATUS_OK, None)) ts s.

Lemma table_entry_inv m off phys t :
  table_entry m off phys = Some t →
  ∃ h, hdr_at m (phys +64 off) = Some h ∧ phys +64 off ≠ 0 ∧ sizeof_acpi_sdt_hdr ≤ hdr_length h ∧
    t = MkTable phys h 0 0 (if is_fadt h || is_facs h then UACPI_TABLE_CSUM_VERIFIED else 0)
      UACPI_TABLE_ORIGIN_FIRMWARE_PHYSICAL.
Proof.
  unfold table_entry. intros H. apply bind_Some in H as (h & Eh & H). exists h.
  destruct (Z.eqb_spec (phys +64 off) 0); [done|]. cbn [orb] in H.
  destruct (Z.ltb_spec (hdr_length h) sizeof_acpi_sdt_hdr); [done|]. injection H as <-. done.
Qed.

Lemma get_header_ok phys h s :
  hdr_at (acpi_mem s) (phys +64 acpi_hhdm_offset s) = Some h → phys +64 acpi_hhdm_offset s ≠ 0 →
  get_external_table_header phys s = Ok ((UACPI_STATUS_OK, h), s).
Proof.
  intros Hh Hv. unfold get_external_table_header. rewrite (bind_ok _ _ _ _ _ (map_ok _ _ _)).
  rewrite (proj2 (Z.eqb_neq _ _) Hv). by rewrite (bind_ok _ _ _ _ _ (read_hdr_ok _ _ _ Hh)).
Qed.

Lemma install_physical_records fuel phys e h ts s :
  ready s → hdr_at (acpi_mem s) (phys +64 acpi_hhdm_offset s) = Some h → phys +64 acpi_hhdm_offset s ≠ 0 →
  sizeof_acpi_sdt_hdr ≤ hdr_length h →
  records (verify_and_install_table (table_install fuel) h phys 0 UACPI_TABLE_ORIGIN_FIRMWARE_PHYSICAL false)
    (λ r, snd r = None) ts s →
  installs (S fuel) phys e ts s.
Proof.
  intros Hs Hh Hv Hl Hr. unfold installs. cbn [table_install].
  unfold table_install_physical_with_origin_unlocked.
  pose proof (get_header_ok _ _ _ Hh Hv) as E.
  eapply records_pure; [exact E|]. cbv beta iota. rewrite (proj2 (Z.ltb_ge _ _) Hl).
  eapply (records_pure _ _ UACPI_STATUS_OK).
  { destruct e; [apply check_signature_ok, Hs|done]. }
  eapply records_pure; [reflexivity|]. rewrite (ready_handler _ Hs).
  rewrite (bool_decide_eq_false_2 (is_Some None)) by apply is_Some_None.
  eapply records_pure; [reflexivity|]. cbn [andb orb]. rewrite <-(app_nil_r ts).
  eapply (records_bind _ _ (λ r, snd r = None)); [done| |intros [ret out] s1 E1 _ H1; simpl in E1; subst out; by apply records_ret].
  unfold install_filtered. eapply records_pure; [reflexivity|]. rewrite (ready_handler _ Hs).
  by eapply records_pure.
Qed.

Lemma installs_plain fuel phys e t s :
  ready s → table_entry (acpi_mem s) (acpi_hhdm_offset s) phys = Some t → is_fadt (hdr t) = false →
  installs (S fuel) phys e [t] s.
Proof.
  intros Hs (h & Eh & Hv & Hl & ->)%table_entry_inv Hf. eapply install_physical_records; eauto.
  by apply verify_plain.
Qed.

Lemma core_mem s s' : core s' = core s → acpi_mem s' = acpi_mem s ∧ acpi_hhdm_offset s' = acpi_hhdm_offset s.
Proof. by intros [= -> _ -> _]. Qed.

(** An entry of the root table: two levels of calls are enough. *)
Lemma installs_entry fuel phys ts s :
  ready s → entry_tables (acpi_mem s) (acpi_hhdm_offset s) phys = Some ts → installs (S (S fuel)) phys None ts s.
Proof.
  intros Hs H. unfold entry_tables in H. apply bind_Some in H as (t & Et & H).
  destruct (is_fadt (hdr t)) eqn:Hf; [|injection H as <-; by apply installs_plain].
  destruct (table_entry_inv _ _ _ _ Et) as (h & Eh & Hv & Hl & ->). simpl in Hf, H.
  rewrite Hf in *. cbn [orb] in *.
  destruct (Z.leb_spec 148 (hdr_length h)) as [Hlen|]; [|done]. cbn [andb] in H.
  destruct (mapped _ _ _) eqn:Hm; [|done]. apply bind_Some in H as (x & Ex & H).
  assert (∃ ds, ts = ds ++ [MkTable phys h 0 0 UACPI_TABLE_CSUM_VERIFIED UACPI_TABLE_ORIGIN_FIRMWARE_PHYSICAL] ∧
    (x = 0 → ds = []) ∧ (x ≠ 0 → ∃ d, ds = [d] ∧ is_fadt (hdr d) = false ∧
      table_entry (acpi_mem s) (acpi_hhdm_offset s) x = Some d)) as (ds & -> & H0 & Hd).
  { destruct (Z.eqb_spec x 0); [injection H as <-; by exists []|]. apply bind_Some in H as (d & Ed & H).
    destruct (is_fadt (hdr d)) eqn:Hdf; [done|]. injection H as <-. exists [d]. split_and!; [done..|]. by exists d. }
  eapply install_physical_records; eauto. eapply verify_fadt; eauto.
  - intros a Ha. rewrite mapped_spec in Hm. apply Hm. lia.
  - intros s1 C1 H1 Hx. destruct (Hd Hx) as (d & -> & Hdf & Ed). destruct (core_mem _ _ C1) as [E1 E2].
    destruct (installs_plain fuel x (Some ACPI_DSDT_SIGNATURE) d s1) as (r & s2 & E & -> & ?); [done| |done|].
    { by rewrite E1, E2. }
    by exists (UACPI_STATUS_OK, None), s2.
Qed.

(** ** The root table *)

(** The address of the XSDT, or of the RSDT, with the size of its entries. *)
Definition root_table (m : mem) (off rsdp : Z) : option (Z * Z) :=
  let p := rsdp +64 off in
  rev ← load 1 m (p + off_rsdp_revision);
  xsdt ← (if 1 <? rev then load 8 m (p + off_xsdt_addr) else Some 0);
  if p =? 0 then None
  else if negb (xsdt =? 0) then Some (xsdt, 8)
  else rsdt ← load 4 m (p + off_rsdt_addr); if rsdt =? 0 then None else Some (rsdt, 4).

Fixpoint load_entries (n : nat) (sz : Z) (m : mem) (a : Z) : option (list Z) :=
  match n with
  | O => Some []
  | S n' => e ← load (Z.to_nat sz) m a; es ← load_entries n' sz m (a + sz); Some (e :: es)
  end.

Definition root_entries (m : mem) (off : Z) (root : Z * Z) : option (list Z) :=
  let '(a, sz) := root in
  let virt := a +64 off in
  sig ← load_bytes 4 m virt;
  len ← load 4 m (virt + 4);
  if (virt =? 0) || (len <? sizeof_acpi_sdt_hdr + sz) || negb (mapped (Z.to_nat len) m virt) then None
  else load_entries (Z.to_nat ((len - sizeof_acpi_sdt_hdr) `div` sz)) sz m (virt + sizeof_acpi_sdt_hdr).

(** All tables of the firmware in the order in which they are recorded. *)
Definition firmware_tables (m : mem) (off rsdp : Z) : option (list uacpi_installed_table) :=
  root ← root_table m off rsdp;
  es ← root_entries m off root;
  tss ← mapM (entry_tables m off) (filter (λ e, e ≠ 0) es);
  Some (concat tss).

Lemma root_table_size m off rsdp a sz : root_table m off rsdp = Some (a, sz) → sz = 4 ∨ sz = 8.
Proof.
  unfold root_table. intros H. apply bind_Some in H as (rev & _ & H). apply bind_Some in H as (x & _ & H).
  destruct (_ =? 0); [done|]. destruct (negb _); [injection H as _ <-; by right|].
  apply bind_Some in H as (r & _ & H). destruct (r =? 0); [done|]. injection H as _ <-. by left.
Qed.

(** The entries that are looked at: whole ones. *)
Lemma entry_count n sz :
  0 ≤ n < 2 ^ 32 → sz = 4 ∨ sz = 8 → Z.land n (lnot64 (sz - 1)) `div` sz = n `div` sz.
Proof.
  intros Hn [-> | ->].
  - change (lnot64 (4 - 1)) with (2 ^ 64 - 2 ^ 2). rewrite land_high_mask by lia. change (2 ^ 2) with 4. dlia.
  - change (lnot64 (8 - 1)) with (2 ^ 64 - 2 ^ 3). rewrite land_high_mask by lia. change (2 ^ 3) with 8. dlia.
Qed.

Lemma install_locked_records fuel phys ts s :
  ready s → entry_tables (acpi_mem s) (acpi_hhdm_offset s) phys = Some ts →
  records (table_install_locked (S (S fuel)) (IPhysical phys UACPI_TABLE_ORIGIN_FIRMWARE_PHYSICAL None false))
    (λ r, r = (UACPI_STATUS_OK, None)) ts s.
Proof.
  intros Hs Ht. unfold table_install_locked. eapply records_pure; [reflexivity|]. rewrite (ready_mutex _ Hs).
  eapply records_pure; [reflexivity|]. cbv beta iota. rewrite <-(app_nil_r ts).
  eapply records_bind; [done|by apply installs_entry|]. intros ? s1 -> _ H1.
  eapply records_pure; [reflexivity|]. by apply records_ret.
Qed.

Lemma rxsdt_loop_records fuel n sz a es tss s :
  ready s → load_entries n sz (acpi_mem s) a = Some es →
  mapM (entry_tables (acpi_mem s) (acpi_hhdm_offset s)) (filter (λ e, e ≠ 0) es) = Some tss →
  records (rxsdt_loop (S (S fuel)) n a sz) (λ r, r = UACPI_STATUS_OK) (concat tss) s.
Proof.
  revert a es tss s. induction n as [|n IH]; intros a es tss s Hs He Ht; cbn [rxsdt_loop].
  { injection He as <-. injection Ht as <-. by apply records_ret. }
  cbn [load_entries] in He. apply bind_Some in He as (e & Ee & He). apply bind_Some in He as (es' & Ees & He).
  injection He as <-. eapply records_pure; [by apply rd_ok|].
  destruct (Z.eqb_spec e 0) as [->|Hne].
  { rewrite filter_cons_False in Ht by (by intros []). by eapply IH. }
  rewrite filter_cons_True in Ht by done. cbn [mapM] in Ht. apply bind_Some in Ht as (ts & Ets & Ht).
  apply bind_Some in Ht as (tss' & Etss & Ht). injection Ht as <-. cbn [concat].
  eapply records_bind; [done|by apply install_locked_records|]. intros ? s1 -> C1 H1. cbn [fst].
  destruct (core_mem _ _ C1) as [E1 E2]. eapply IH; [done|by rewrite E1|by rewrite E1, E2].
Qed.

Lemma rxsdt_records fuel a sz es tss s :
  ready s → sz = 4 ∨ sz = 8 → root_entries (acpi_mem s) (acpi_hhdm_offset s) (a, sz) = Some es →
  mapM (entry_tables (acpi_mem s) (acpi_hhdm_offset s)) (filter (λ e, e ≠ 0) es) = Some tss →
  records (initialize_from_rxsdt (S (S fuel)) a sz) (λ r, r = UACPI_STATUS_OK) (concat tss) s.
Proof.
  intros Hs Hsz He Ht. unfold root_entries in He. cbv beta iota in He.
  apply bind_Some in He as (sig & Esig & He). apply bind_Some in He as (len & Elen & He).
  set (virt := a +64 acpi_hhdm_offset s) in *.
  destruct (Z.eqb_spec virt 0) as [|Hv]; [done|]. destruct (Z.ltb_spec len (sizeof_acpi_sdt_hdr + sz)) as [|Hl]; [done|].
  destruct (mapped _ _ virt) eqn:Hm; [|done]. cbn [orb negb] in He.
  pose proof (load_range _ _ _ _ Elen) as Hlen. change (256 ^ Z.of_nat 4) with (2 ^ 32) in Hlen.
  unfold sizeof_acpi_sdt_hdr in Hl.
  unfold initialize_from_rxsdt. eapply records_pure; [apply map_ok|]. fold virt. rewrite (proj2 (Z.eqb_neq _ _) Hv).
  eapply records_pure; [by apply rd_bytes_ok|]. eapply records_pure; [apply check_signature_ok, Hs|]. cbn [on_ok].
  eapply records_pure; [by apply rd_ok|]. rewrite (proj2 (Z.ltb_ge len (sizeof_acpi_sdt_hdr + sz)) Hl).
  eapply records_pure; [apply map_ok|]. fold virt. rewrite (proj2 (Z.eqb_neq _ _) Hv).
  eapply records_pure; [apply verify_ok; [apply Hs|lia|]|].
  { rewrite mapped_spec in Hm. intros x Hx. apply Hm. lia. }
  cbn [on_ok]. rewrite entry_count; [|unfold sizeof_acpi_sdt_hdr; lia|done]. by eapply rxsdt_loop_records.
Qed.

Lemma upd_rt_ready f s :
  (∀ r, rt_fadt (f r) = rt_fadt r ∧ rt_flags (f r) = rt_flags r ∧ init_level (f r) = init_level r) →
  ready s → records (upd_rt f) (λ _, True) [] s.
Proof. intros Hf Hs. apply records_keeps; [done|]. by apply keeps_upd_rt. Qed.

Lemma rsdp_records fuel ts s :
  ready s → firmware_tables (acpi_mem s) (acpi_hhdm_offset s) (rsdp_address s) = Some ts →
  records (initialize_from_rsdp (S (S fuel))) (λ r, r = UACPI_STATUS_OK) ts s.
Proof.
  intros Hs H. unfold firmware_tables in H. apply bind_Some in H as ([a sz] & Hroot & H).
  apply bind_Some in H as (es & Hes & H). apply bind_Some in H as (tss & Htss & H). injection H as <-.
  unfold initialize_from_rsdp. apply (records_bind _ _ (λ _, True) _ [] (concat tss)); [done|by apply upd_rt_ready|].
  intros _ s1 _ C1 H1. assert (rsdp_address s1 = rsdp_address s) as E3 by by injection C1.
  destruct (core_mem _ _ C1) as [E1 E2]. rewrite <-E1, <-E2, <-?E3 in *. clear C1 Hs E1 E2 E3 s. rename s1 into s.
  pose proof (root_table_size _ _ _ _ _ Hroot) as Hsz.
  eapply records_pure; [reflexivity|]. cbv beta iota. cbn [on_ok]. eapply records_pure; [apply map_ok|].
  unfold root_table in Hroot. apply bind_Some in Hroot as (rev & Erev & Hroot).
  apply bind_Some in Hroot as (x & Ex & Hroot). destruct (_ +64 _ =? 0); [done|].
  eapply records_pure; [by apply rd_ok|]. eapply (records_pure _ _ x).
  { destruct (1 <? rev); [by apply rd_ok|]. by injection Ex as <-. }
  eapply records_pure; [apply check_flag_zero; [apply H1|done]|]. rewrite andb_true_r.
  destruct (Z.eqb_spec x 0) as [->|Hx]; cbn [negb] in *.
  - rewrite andb_false_r. apply bind_Some in Hroot as (r & Er & Hroot).
    eapply records_pure; [by apply rd_ok|]. destruct (r =? 0); [done|]. injection Hroot as -> <-.
    by eapply rxsdt_records.
  - injection Hroot as -> <-. destruct (1 <? rev); [|by injection Ex as <-]. by eapply rxsdt_records.
Qed.

(** The state before the first call. *)
Record initial (s : acpi) : Prop := {
  initial_level : init_level (rt s) = UACPI_INIT_LEVEL_EARLY;
  initial_early : early_table_access s = false;
  initial_handler : installation_handler s = None;
  initial_mutex : table_mutex s = 0;
  initial_flags : rt_flags (rt s) = 0;
  initial_fadt : rt_ok s;
  initial_tables : tables s = MkArray [] 0 0
}.

Lemma foldl_push_elems ts ta :
  0 ≤ dynamic_capacity ta → table_array_size ta ≤ table_array_capacity ta →
  elems (foldl push ta ts) = take (Z.to_nat (table_array_capacity ta)) (elems ta ++ ts).
Proof.
  revert ta. induction ts as [|t ts IH]; intros ta Hd Hs; cbn [foldl].
  - rewrite app_nil_r, take_ge; [done|]. unfold table_array_size in Hs. lia.
  - unfold push at 2. destruct (Z.eqb_spec (table_array_size ta) (table_array_capacity ta)) as [E|Hne].
    + rewrite IH by done. unfold table_array_size in E. rewrite !take_app_le by lia. done.
    + rewrite IH; unfold table_array_size, table_array_capacity, table_array_inline_capacity in *; cbn [elems dynamic_capacity] in *;
        [by rewrite <-app_assoc|lia|rewrite length_app; cbn [length]; lia].
Qed.

Lemma setup_records fuel buf size ts s :
  initial s → sizeof_uacpi_installed_table ≤ size →
  firmware_tables (acpi_mem s) (acpi_hhdm_offset s) (rsdp_address s) = Some ts →
  ∃ s', uacpi_setup_early_table_access (S (S fuel)) buf size s = Ok (UACPI_STATUS_OK, s') ∧ ready s' ∧
    acpi_mem s' = acpi_mem s ∧ acpi_hhdm_offset s' = acpi_hhdm_offset s ∧
    elems (tables s') = take (Z.to_nat (UACPI_STATIC_TABLE_ARRAY_LEN + size `div` sizeof_uacpi_installed_table)) ts.
Proof.
  intros [Hlvl Hearly Hh Hm Hf Hrt Ht] Hsz Hts. unfold sizeof_uacpi_installed_table in *.
  pose (s1 := MkAcpi (acpi_mem s) (rsdp_address s) (acpi_hhdm_offset s) (MkArray [] buf (size `div` 64)) true
    (installation_handler s) (table_mutex s) (rt s)).
  assert (ready s1) as H1 by (split; done).
  destruct (rsdp_records fuel ts s1) as (r & s2 & E & -> & C & R & T); [done|exact Hts|].
  exists s2. destruct (core_mem _ _ C) as [E1 E2]. split_and!; [|by eapply ready_frame|done|done|].
  - unfold uacpi_setup_early_table_access. rewrite bind_gets, Hlvl, Z.eqb_refl. cbn [negb].
    rewrite bind_gets, Hearly. unfold sizeof_uacpi_installed_table. rewrite (proj2 (Z.ltb_ge _ _) Hsz), bind_gets, Ht.
    change (initialize_from_rsdp (S (S fuel)) s1 = Ok (UACPI_STATUS_OK, s2)) in E.
    etrans; [apply (bind_ok _ _ s tt (with_tables (MkArray [] buf (size `div` 64)) s)); done|].
    etrans; [by apply (bind_ok _ _ _ tt s1)|]. by rewrite (bind_ok _ _ _ _ _ E).
  - assert (0 ≤ size `div` 64) by (apply Z.div_pos; lia).
    rewrite T, foldl_push_elems; [done|..]; unfold table_array_size, table_array_capacity,
      table_array_inline_capacity, UACPI_STATIC_TABLE_ARRAY_LEN; cbn [s1 tables elems dynamic_capacity length]; lia.
Qed.

(** ** Looking a table up *)

Definition valid (t : uacpi_installed_table) : bool := Z.land (flags t) UACPI_TABLE_INVALID =? 0.
Definition candidate (sig : list Z) (t : uacpi_installed_table) : bool :=
  valid t && uacpi_signatures_match sig (signature (hdr t)).

(** The flags after a look at the checksum. *)
Definition checked (t : uacpi_installed_table) : uacpi_installed_table :=
  set_flags (if Z.land (flags t) UACPI_TABLE_CSUM_VERIFIED =? 0 then Z.lor (flags t) UACPI_TABLE_CSUM_VERIFIED
             else flags t) t.

(** The table with one more reference; the first one maps it. *)
Definition referenced (off : Z) (t : uacpi_installed_table) : uacpi_installed_table :=
  if reference_count t =? 0 then
    set_refs 1 (if is_physical (origin t) then checked (set_ptr (phys_addr t +64 off) t) else t)
  else if reference_count t =? 0xFFFF then t else set_refs (u16 (reference_count t + 1)) t.

(** The tables lie in memory. *)
Definition reachable (s : acpi) (t : uacpi_installed_table) : Prop :=
  reference_count t = 0 → is_physical (origin t) = true →
  phys_addr t +64 acpi_hhdm_offset s ≠ 0 ∧ 0 ≤ hdr_length (hdr t) ∧
  readable (acpi_mem s) (phys_addr t +64 acpi_hhdm_offset s) (hdr_length (hdr t)).

Definition alter_tables (f : uacpi_installed_table → uacpi_installed_table) (i : nat) (ta : table_array) : table_array :=
  MkArray (alter f i (elems ta)) (dynamic_storage ta) (dynamic_capacity ta).

Lemma valid_checked t : valid (checked t) = valid t.
Proof.
  unfold valid, checked, UACPI_TABLE_INVALID. cbn [flags set_flags]. destruct (Z.land (flags t) UACPI_TABLE_CSUM_VERIFIED =? 0); [|done].
  rewrite Z.land_lor_distr_l. by rewrite Z.lor_0_r.
Qed.

Lemma upd_table_ok f i s : upd_table i f s = Ok (tt, with_tables (alter_tables f i (tables s)) s).
Proof. done. Qed.

Lemma alter_tables_twice f g i s :
  with_tables (alter_tables f i (tables (with_tables (alter_tables g i (tables s)) s))) (with_tables (alter_tables g i (tables s)) s) =
  with_tables (alter_tables (f ∘ g) i (tables s)) s.
Proof. unfold with_tables, alter_tables. simpl. by rewrite list_alter_alter_eq. Qed.

Lemma alter_tables_ext f g i t s :
  elems (tables s) !! i = Some t → f t = g t → with_tables (alter_tables f i (tables s)) s = with_tables (alter_tables g i (tables s)) s.
Proof.
  intros Ht E. unfold alter_tables. f_equal. f_equal. apply list_alter_ext; [|done].
  intros x Hx. congruence.
Qed.

Lemma table_ref_ok i t s :
  ready s → elems (tables s) !! i = Some t → valid t = true → reachable s t →
  table_ref_unlocked i t s = Ok (UACPI_STATUS_OK, with_tables (alter_tables (referenced (acpi_hhdm_offset s)) i (tables s)) s).
Proof.
  intros Hs Ht Hv Hr. unfold table_ref_unlocked. unfold valid in Hv. rewrite Hv. cbn [negb].
  destruct (Z.eqb_spec (reference_count t) 0) as [E0|E0].
  - destruct (is_physical (origin t)) eqn:Hp; cbn [negb].
    + destruct (Hr E0 Hp) as (Hnz & Hlen & Hread).
      rewrite bind_assoc, (bind_ok _ _ _ _ _ (map_ok _ _ _)), bind_assoc, (bind_ok _ _ _ _ _ (upd_table_ok _ _ _)).
      rewrite (proj2 (Z.eqb_neq _ _) Hnz). destruct (Z.land (flags t) UACPI_TABLE_CSUM_VERIFIED =? 0) eqn:Hc.
      * rewrite bind_assoc. erewrite (bind_ok _ _ _ UACPI_STATUS_OK); [|by apply verify_ok; [apply Hs|..]].
        rewrite bind_assoc, (bind_ok _ _ _ _ _ (upd_table_ok _ _ _)), alter_tables_twice.
        erewrite (bind_ok (mret _)); [|done]. cbn [on_ok]. rewrite (bind_ok _ _ _ _ _ (upd_table_ok _ _ _)), alter_tables_twice.
        unfold mret, M_ret. do 2 f_equal. eapply alter_tables_ext; [done|]. unfold referenced, checked. simpl.
        by rewrite E0, Hp, Hc.
      * erewrite (bind_ok (mret _)); [|done]. cbn [on_ok]. rewrite (bind_ok _ _ _ _ _ (upd_table_ok _ _ _)), alter_tables_twice.
        unfold mret, M_ret. do 2 f_equal. eapply alter_tables_ext; [done|]. unfold referenced, checked. simpl.
        by rewrite E0, Hp, Hc.
    + erewrite (bind_ok (mret _)); [|done]. cbn [on_ok]. rewrite (bind_ok _ _ _ _ _ (upd_table_ok _ _ _)).
      unfold mret, M_ret. do 2 f_equal. eapply alter_tables_ext; [done|]. unfold referenced. by rewrite E0, Hp.
  - erewrite (bind_ok (mret _)); [|done]. cbn [on_ok]. rewrite (bind_ok _ _ _ _ _ (upd_table_ok _ _ _)).
    unfold mret, M_ret. do 2 f_equal. eapply alter_tables_ext; [done|]. unfold referenced.
    by rewrite (proj2 (Z.eqb_neq _ _) E0).
Qed.

(** What the search returns for the tables from [idx] on. *)
Definition found (sig : list Z) (idx : nat) (s : acpi) : option (nat * uacpi_installed_table) :=
  prod_map (Nat.add idx) id <$> list_find (λ t, candidate sig t = true) (drop idx (elems (tables s))).

Definition by_signature (sig : list Z) : search_type := SEARCH_TYPE_BY_ID (MkId sig (replicate 6 0) (replicate 8 0)).

Lemma search_matches_signature sig t : search_matches (by_signature sig) t = uacpi_signatures_match sig (signature (hdr t)).
Proof. unfold search_matches, by_signature. simpl. by rewrite !andb_true_r. Qed.

(** The context and the state after the search. *)
Definition search_end (ctx : table_search_ctx) (r : option (nat * uacpi_installed_table)) (s : acpi) :
    table_search_ctx * acpi :=
  match r with
  | Some (i, t) =>
      (MkSearch (search ctx) (Some (MkOut (ptr (referenced (acpi_hhdm_offset s) t)) (Z.of_nat i))) UACPI_STATUS_OK,
       with_tables (alter_tables (referenced (acpi_hhdm_offset s)) i (tables s)) s)
  | None => (ctx, s)
  end.

Lemma do_search_ok sig out st idx t s :
  ready s → elems (tables s) !! idx = Some t → valid t = true → reachable s t →
  do_search_tables (MkSearch (by_signature sig) out st) t idx s =
    if uacpi_signatures_match sig (signature (hdr t)) then
      let '(ctx, s') := search_end (MkSearch (by_signature sig) out st) (Some (idx, t)) s in
      Ok ((UACPI_ITERATION_DECISION_BREAK, ctx), s')
    else Ok ((UACPI_ITERATION_DECISION_CONTINUE, MkSearch (by_signature sig) out st), s).
Proof.
  intros Hs Ht Hv Hr. unfold do_search_tables. cbn [search]. rewrite search_matches_signature.
  destruct (uacpi_signatures_match sig (signature (hdr t))); [|done]. cbn [negb].
  rewrite (bind_ok _ _ _ _ _ (table_ref_ok idx t s Hs Ht Hv Hr)). cbv iota beta. rewrite bind_gets.
  cbn [tables with_tables elems alter_tables]. by rewrite list_lookup_alter_eq, Ht.
Qed.

Lemma search_loop sig out st n idx s :
  ready s → Forall (reachable s) (elems (tables s)) → n = (length (elems (tables s)) - idx)%nat →
  for_each_loop do_search_tables n idx (MkSearch (by_signature sig) out st) s =
    Ok (search_end (MkSearch (by_signature sig) out st) (found sig idx s) s).
Proof.
  intros Hs Hr. revert idx. induction n as [|n IH]; intros idx Hn; cbn [for_each_loop].
  - rewrite bind_gets. unfold found. rewrite drop_ge, lookup_ge_None_2 by lia. done.
  - rewrite bind_gets. destruct (lookup_lt_is_Some_2 (elems (tables s)) idx) as [t Ht]; [lia|].
    rewrite Ht. assert (found sig idx s = if candidate sig t then Some (idx, t) else found sig (S idx) s) as Hf.
    { unfold found. rewrite (drop_S _ _ _ Ht). cbn [list_find]. destruct (candidate sig t) eqn:E.
      - rewrite decide_True by done. simpl. by rewrite Nat.add_0_r.
      - rewrite decide_False by done. rewrite <-option_fmap_compose. apply option_fmap_ext. intros [j x]. simpl. f_equal. lia. }
    rewrite Hf. unfold candidate. unfold valid at 1.
    destruct (Z.land (flags t) UACPI_TABLE_INVALID =? 0) eqn:Hv; cbn [negb andb]; [|apply IH; lia].
    assert (reachable s t) as Hreach by (eapply Forall_lookup_1; eauto).
    pose proof (do_search_ok sig out st idx t s Hs Ht Hv Hreach) as E.
    destruct (uacpi_signatures_match sig (signature (hdr t))); rewrite (bind_ok _ _ _ _ _ E); [done|]. apply IH. lia.
Qed.

Lemma with_access_ready {B} (b : B) k s : ready s → with_access b k s = k s.
Proof. intros Hs. unfold with_access. rewrite !bind_gets, (ready_early _ Hs). done. Qed.

Lemma find_table_ok base sig s :
  ready s → Forall (reachable s) (elems (tables s)) →
  find_table base (MkId sig (replicate 6 0) (replicate 8 0)) s =
    Ok (match found sig (Z.to_nat base) s with
        | Some (i, t) =>
            ((UACPI_STATUS_OK, Some (MkOut (ptr (referenced (acpi_hhdm_offset s) t)) (Z.of_nat i))),
             with_tables (alter_tables (referenced (acpi_hhdm_offset s)) i (tables s)) s)
        | None => ((UACPI_STATUS_NOT_FOUND, None), s)
        end).
Proof.
  intros Hs Hr. unfold find_table, search_tables. fold (by_signature sig).
  set (ctx := MkSearch (by_signature sig) None UACPI_STATUS_NOT_FOUND).
  assert (uacpi_for_each_table do_search_tables base ctx s =
    let '(c, s') := search_end ctx (found sig (Z.to_nat base) s) s in Ok ((UACPI_STATUS_OK, c), s')) as E.
  { unfold uacpi_for_each_table. rewrite with_access_ready by done. rewrite bind_gets, (ready_mutex _ Hs).
    rewrite (bind_ok (uacpi_acquire_native_mutex_may_be_null 0) _ s UACPI_STATUS_OK s eq_refl). cbv iota beta. rewrite bind_gets.
    pose proof (search_loop sig None UACPI_STATUS_NOT_FOUND _ (Z.to_nat base) s Hs Hr eq_refl) as E. fold ctx in E.
    destruct (search_end ctx _ s) as [c s1]. by rewrite (bind_ok _ _ _ _ _ E). }
  destruct (found sig (Z.to_nat base) s) as [[i t]|]; cbn [search_end] in E; by rewrite (bind_ok _ _ _ _ _ E).
Qed.

(** ** Dropping a reference *)

Lemma unref_ok i t s :
  ready s → elems (tables s) !! i = Some t → valid t = true → reference_count t = 1 → is_physical (origin t) = true →
  uacpi_table_unref (MkOut (ptr t) (Z.of_nat i)) s =
    Ok (UACPI_STATUS_OK, with_tables (alter_tables (λ t, set_refs 0 (set_ptr 0 t)) i (tables s)) s).
Proof.
  intros Hs Ht Hv H1 Hp. unfold uacpi_table_unref, table_ctl.
  set (s' := with_tables _ s).
  assert (table_unref_unlocked i t s = Ok (UACPI_STATUS_OK, s')) as E.
  { unfold table_unref_unlocked. rewrite H1, Hp. cbn [Z.eqb andb Pos.eqb]. rewrite bind_assoc.
    erewrite (bind_ok (uacpi_kernel_unmap _ _)) by done. rewrite (bind_ok _ _ _ _ _ (upd_table_ok _ _ _)).
    rewrite (bind_ok _ _ _ _ _ (upd_table_ok _ _ _)), alter_tables_twice. unfold mret, M_ret. do 2 f_equal.
    eapply alter_tables_ext; [done|]. simpl. by rewrite H1. }
  assert (table_ctl_body i t (ctl_request TABLE_CTL_PUT) s = Ok ((UACPI_STATUS_OK, 0), s')) as Eb.
  { unfold table_ctl_body. set (req := ctl_request TABLE_CTL_PUT).
    change (asks req TABLE_CTL_VALIDATE_SET_FLAGS) with false. change (asks req TABLE_CTL_VALIDATE_CLEAR_FLAGS) with false.
    change (asks req TABLE_CTL_GET) with false. change (asks req TABLE_CTL_PUT) with true. cbn [andb].
    rewrite (bind_ok (mret UACPI_STATUS_OK) _ s UACPI_STATUS_OK s eq_refl). cbv iota beta.
    rewrite bind_gets, Ht. by rewrite (bind_ok _ _ _ _ _ E). }
  assert (table_ctl (Z.of_nat i) (ctl_request TABLE_CTL_PUT) s = Ok ((UACPI_STATUS_OK, 0), s')) as Ec.
  { unfold table_ctl. rewrite with_access_ready by done. rewrite bind_gets, (ready_mutex _ Hs).
    rewrite (bind_ok (uacpi_acquire_native_mutex_may_be_null 0) _ s UACPI_STATUS_OK s eq_refl). cbv iota beta. rewrite bind_gets.
    unfold table_array_at, table_array_size. pose proof (lookup_lt_Some _ _ _ Ht).
    rewrite (proj2 (Z.leb_gt _ _)) by lia. rewrite Nat2Z.id, Ht. unfold valid in Hv. rewrite Hv. cbn [negb].
    by rewrite (bind_ok _ _ _ _ _ Eb). }
  cbn [out_index]. by rewrite (bind_ok _ _ _ _ _ Ec).
Qed.

(** ** The calls of the kernel *)

Lemma acpi_init_ok fuel buf rsdp off ts s :
  initial s → firmware_tables (acpi_mem s) off rsdp = Some ts →
  ∃ s', acpi_init (S (S fuel)) buf rsdp off s = Ok (tt, s') ∧ ready s' ∧
    acpi_mem s' = acpi_mem s ∧ acpi_hhdm_offset s' = off ∧ elems (tables s') = take 80 ts.
Proof.
  intros [Hlvl Hearly Hh Hm Hf Hrt Ht] Hts.
  destruct (setup_records fuel buf EARLY_BUFFER_SIZE ts
    (MkAcpi (acpi_mem s) rsdp off (tables s) (early_table_access s) (installation_handler s) (table_mutex s) (rt s)))
    as (s' & E & Hs' & E1 & E2 & Hel); [by split|done|exact Hts|].
  exists s'. split_and!; [|done|done|done|exact Hel]. unfold acpi_init.
  etrans; [by apply bind_ok|]. by rewrite (bind_ok _ _ _ _ _ E).
Qed.

Lemma find_by_signature_ok sig s :
  ready s → Forall (reachable s) (elems (tables s)) →
  uacpi_table_find_by_signature sig s =
    Ok (match list_find (λ t, candidate (take 4 sig) t = true) (elems (tables s)) with
        | Some (i, t) =>
            ((UACPI_STATUS_OK, Some (MkOut (ptr (referenced (acpi_hhdm_offset s) t)) (Z.of_nat i))),
             with_tables (alter_tables (referenced (acpi_hhdm_offset s)) i (tables s)) s)
        | None => ((UACPI_STATUS_NOT_FOUND, None), s)
        end).
Proof.
  intros Hs Hr. unfold uacpi_table_find_by_signature. rewrite with_access_ready, find_table_ok by done.
  unfold found. change (Z.to_nat 0) with 0%nat. rewrite drop_0.
  by destruct (list_find _ _) as [[i t]|].
Qed.

(** ** Malformed firmware *)

Lemma bind_nofuel {A B} (m : M acpi A) (k : A → M acpi B) s : m s = NoFuel → (m ≫= k) s = NoFuel.
Proof. unfold mbind, M_bind. by intros ->. Qed.

(** A FADT whose DSDT address is its own address: the signature of what is
    found there is only logged, and the installation calls itself without
    end. *)
Lemma acpi_fadt_recursion fuel phys h e s :
  ready s → let virt := phys +64 acpi_hhdm_offset s in
  hdr_at (acpi_mem s) virt = Some h → is_fadt h = true → virt ≠ 0 → 148 ≤ hdr_length h →
  readable (acpi_mem s) virt (hdr_length h) → dsdt_addr (acpi_mem s) virt = Some phys → phys ≠ 0 →
  table_install fuel (IPhysical phys UACPI_TABLE_ORIGIN_FIRMWARE_PHYSICAL e false) s = NoFuel.
Proof.
  revert e s. induction fuel as [|fuel IH]; intros e s Hs virt Hh Hf Hv Hl Hr Hx Hp; [done|].
  cbn [table_install]. unfold table_install_physical_with_origin_unlocked.
  pose proof (get_header_ok _ _ _ Hh Hv) as E.
  rewrite (bind_ok _ _ _ _ _ E). cbv beta iota. unfold sizeof_acpi_sdt_hdr.
  rewrite (proj2 (Z.ltb_ge (hdr_length h) 36)) by lia.
  rewrite (bind_ok _ _ s UACPI_STATUS_OK s) by (destruct e; [apply check_signature_ok, Hs|done]).
  cbv beta iota. rewrite bind_gets, (ready_handler _ Hs).
  rewrite (bool_decide_eq_false_2 (is_Some None)) by apply is_Some_None. cbn [andb orb].
  rewrite (bind_ok (mret 0) _ s 0 s eq_refl). apply bind_nofuel.
  unfold install_filtered. rewrite !bind_gets, (ready_handler _ Hs). cbn [fst].
  unfold verify_and_install_table. unfold is_fadt in Hf. rewrite Hf.
  rewrite (bind_ok _ _ _ _ _ (check_flag_zero UACPI_FLAG_PROACTIVE_TBL_CSUM s (ready_flags _ Hs) ltac:(done))). cbn [orb].
  destruct (uacpi_signatures_match (signature h) ACPI_FACS_SIGNATURE) eqn:Ef.
  { unfold uacpi_signatures_match in *. apply bool_decide_eq_true in Ef, Hf. by rewrite Ef in Hf. }
  apply bind_nofuel. cbn [Z.eqb]. rewrite (bind_ok _ _ _ _ _ (map_ok _ _ _)). fold virt.
  rewrite (proj2 (Z.eqb_neq _ _) Hv).
  assert (0 ≤ hdr_length h) as Hl0 by lia.
  rewrite (bind_ok _ _ _ _ _ (verify_ok _ _ s (ready_flags _ Hs) Hl0 Hr)). cbv beta iota.
  apply bind_nofuel. unfold initialize_fadt.
  destruct (fadt_load_ok virt (hdr_length h) phys s) as (s1 & E1 & C1 & R1 & T1); [apply Hs|by apply hdr_at_length|done..|].
  rewrite (bind_ok _ _ _ _ _ E1), (proj2 (Z.eqb_neq _ _) Hp). cbn [negb]. apply bind_nofuel, bind_nofuel.
  destruct (core_mem _ _ C1) as [F1 F2]. apply IH; rewrite ?F1, ?F2; [by eapply ready_frame|done..].
Qed.

(** ** The theorems *)

(** C25: For every firmware whose tables are well formed, [acpi_init] returns with
    early access on, and has recorded the tables of the root table in their
    order, the DSDT before the FADT that leads to it.  The array has room
    for 80 tables; the tables beyond that are dropped although every call
    reports success.  Two levels of calls are enough. *)
Theorem acpi_early_tables fuel buf rsdp off ts s :
  initial s → firmware_tables (acpi_mem s) off rsdp = Some ts →
  ∃ s', acpi_init (S (S fuel)) buf rsdp off s = Ok (tt, s') ∧ ready s' ∧
    acpi_mem s' = acpi_mem s ∧ acpi_hhdm_offset s' = off ∧ elems (tables s') = take 80 ts.
Proof. apply acpi_init_ok. Qed.

(** C26: A lookup by signature returns the first table that is not marked invalid
    and carries the signature, with its address in the direct map, and adds a
    reference to that table and no other; it reports that there is none
    exactly when no table qualifies, and then changes nothing. *)
Theorem acpi_find_first sig s :
  ready s → Forall (reachable s) (elems (tables s)) →
  uacpi_table_find_by_signature sig s =
    Ok (match list_find (λ t, candidate (take 4 sig) t = true) (elems (tables s)) with
        | Some (i, t) =>
            ((UACPI_STATUS_OK, Some (MkOut (ptr (referenced (acpi_hhdm_offset s) t)) (Z.of_nat i))),
             with_tables (alter_tables (referenced (acpi_hhdm_offset s)) i (tables s)) s)
        | None => ((UACPI_STATUS_NOT_FOUND, None), s)
        end).
Proof. apply find_by_signature_ok. Qed.

(** The pattern of [madt_init] and [hpet_init], a lookup and then
    [uacpi_table_unref]: of the state only the mark that the checksum of the
    table was looked at remains. *)
Theorem acpi_find_unref sig i t s :
  ready s → Forall (reachable s) (elems (tables s)) →
  list_find (λ t, candidate (take 4 sig) t = true) (elems (tables s)) = Some (i, t) →
  reference_count t = 0 → ptr t = 0 → is_physical (origin t) = true →
  (r ← uacpi_table_find_by_signature sig;
   match snd r with Some o => uacpi_table_unref o | None => mret (fst r) end) s =
    Ok (UACPI_STATUS_OK, with_tables (alter_tables checked i (tables s)) s).
Proof.
  intros Hs Hr Hf H0 Hptr Hp. pose proof Hf as (Ht & Hc & _)%list_find_Some.
  apply andb_true_iff in Hc as [Hv _].
  assert (found (take 4 sig) (Z.to_nat 0) s = Some (i, t)) as Hfound.
  { unfold found. change (Z.to_nat 0) with 0%nat. by rewrite drop_0, Hf. }
  pose proof (find_table_ok 0 (take 4 sig) s Hs Hr) as E. rewrite Hfound in E.
  unfold uacpi_table_find_by_signature. rewrite <-(with_access_ready None _ _ Hs) in E.
  rewrite (bind_ok _ _ _ _ _ E). cbn [snd]. set (s1 := with_tables _ s).
  assert (elems (tables s1) !! i = Some (referenced (acpi_hhdm_offset s) t)) as Ht1.
  { unfold s1. cbn [tables with_tables elems alter_tables]. by rewrite list_lookup_alter_eq, Ht. }
  rewrite (unref_ok i _ s1); [|by destruct Hs|exact Ht1|..].
  - unfold s1. rewrite alter_tables_twice. do 2 f_equal. eapply alter_tables_ext; [done|].
    change (set_refs 0 (set_ptr 0 (referenced (acpi_hhdm_offset s) t)) = checked t).
    unfold referenced, checked. rewrite H0, Hp. destruct t; simpl in *. by subst.
  - unfold referenced. rewrite H0, Hp. exact (eq_trans (valid_checked (set_ptr _ t)) Hv).
  - unfold referenced. by rewrite H0.
  - unfold referenced. rewrite H0, Hp. done.
Qed.

(** ** A firmware with four tables *)

Module example.
(** One page at the offset 0x1000: the RSDP at 0x10, the XSDT at 0x100 with
    the entries 0x200 (FADT), 0 and 0x400 (MADT), and the DSDT at 0x300. *)
Definition zeros (a n : Z) : mem := λ x, if (a <=? x) && (x <? a + n) then Some 0 else None.
Definition put (n : nat) (a v : Z) (m : mem) : mem := store n m a v.
Definition firmware : mem :=
  put 1 0x101F 2 (put 8 0x1028 0x100
  (put 4 0x1100 0x54445358 (put 4 0x1104 60 (put 8 0x1124 0x200 (put 8 0x1134 0x400
  (put 4 0x1200 0x50434146 (put 4 0x1204 148 (put 8 0x128C 0x300
  (put 4 0x1300 0x54445344 (put 4 0x1304 36
  (put 4 0x1400 0x43495041 (put 4 0x1404 44 (zeros 0x1000 0x1000))))))))))))).

Definition start : acpi :=
  MkAcpi firmware 0 0 (MkArray [] 0 0) false None 0
    (MkRt (zeros 0 276) gas_zero gas_zero gas_zero gas_zero 0 false false 0).

Definition recorded : list uacpi_installed_table :=
  Eval vm_compute in default [] (firmware_tables firmware 0x1000 0x10).

Lemma start_initial : initial start.
Proof. by split. Qed.

Lemma recorded_signatures :
  (λ t, (signature (hdr t), phys_addr t)) <$> recorded =
    [(ACPI_DSDT_SIGNATURE, 0x300); (ACPI_FADT_SIGNATURE, 0x200); (ACPI_MADT_SIGNATURE, 0x400)].
Proof. done. Qed.

(** The state after [acpi_init], as far as lookups depend on it. *)
Definition started : acpi :=
  MkAcpi firmware 0x10 0x1000 (MkArray recorded 0x5000 64) true None 0
    (MkRt (zeros 0 276) gas_zero gas_zero gas_zero gas_zero 0 false false 0).

Lemma started_ready : ready started.
Proof. by split. Qed.

Lemma started_reachable : Forall (reachable started) (elems (tables started)).
Proof.
  assert (∀ x, 0x1000 ≤ x < 0x2000 → is_Some (firmware x)) as H.
  { intros x Hx. apply (proj1 (mapped_spec 4096 firmware 0x1000) eq_refl). lia. }
  apply (Forall_impl (λ t, 0 < phys_addr t ∧ 0 ≤ hdr_length (hdr t) ∧ phys_addr t + hdr_length (hdr t) ≤ 0x1000)).
  { cbn [tables elems started]. unfold recorded. repeat (apply Forall_cons_2; [by vm_compute|]). apply Forall_nil_2. }
  intros t (? & ? & ?) _ _. cbn [acpi_hhdm_offset acpi_mem started]. rewrite wrap_small by lia.
  split_and!; [lia..|]. intros x Hx. apply H. lia.
Qed.

End example.
Import example.

Lemma acpi_early_tables_witness :
  ∃ s', acpi_init 2 0x5000 0x10 0x1000 start = Ok (tt, s') ∧ ready s' ∧
    acpi_mem s' = firmware ∧ acpi_hhdm_offset s' = 0x1000 ∧ elems (tables s') = take 80 recorded.
Proof. apply (acpi_early_tables 0 0x5000 0x10 0x1000 recorded start start_initial). vm_compute. reflexivity. Defined.

Lemma acpi_find_first_witness :
  uacpi_table_find_by_signature ACPI_MADT_SIGNATURE started =
    Ok ((UACPI_STATUS_OK, Some (MkOut 0x1400 2)),
        with_tables (alter_tables (referenced 0x1000) 2 (tables started)) started) ∧
  uacpi_table_find_by_signature ACPI_HPET_SIGNATURE started = Ok ((UACPI_STATUS_NOT_FOUND, None), started).
Proof.
  split.
  - exact (acpi_find_first ACPI_MADT_SIGNATURE started started_ready started_reachable).
  - exact (acpi_find_first ACPI_HPET_SIGNATURE started started_ready started_reachable).
Defined.

Lemma acpi_find_unref_witness :
  (r ← uacpi_table_find_by_signature ACPI_MADT_SIGNATURE;
   match snd r with Some o => uacpi_table_unref o | None => mret (fst r) end) started =
    Ok (UACPI_STATUS_OK, with_tables (alter_tables checked 2 (tables started)) started).
Proof.
  refine (acpi_find_unref ACPI_MADT_SIGNATURE 2 _ started started_ready started_reachable eq_refl _ _ _); reflexivity.
Defined.
