(* ===== verification/Main.v ===== *)
(** * The start of the kernel: kernel/main.c, with the initialisation
      functions of kernel/acpi/hpet.c, kernel/acpi/madt.c and
      kernel/time/timer.c that look firmware tables up

    [kinit] runs the initialisation of every component, in the order of the
    source, over one state.  Firmware tables and boot modules are read through
    the page tables of the processor ([virt_mem]).  The heap keeps the memory
    it was given by [kmalloc_init], in frames of its own. *)

From S2P Require Import Prelude Mem Pmm Paging Kmalloc Vmm MemInit Alloc Hw Time Interrupts Madt Lapic Ioapic Events Thread Sched Cpu Boot Tables Tty.
Local Open Scope Z_scope.
Local Open Scope kernel_scope.

(** ** State *)

(** The static data of ioapic.c. *)
Record ioapic_vars := MkIoVars { iv_hhdm_offset : Z; iv_addr : Z; iv_ioapic : option MadtIoApic }.

Record system := MkSystem {
  sys_tty : tty;
  sys_gdt : list Z * Z;
  sys_idt : idt_st;
  sys_kern : kern heap;
  sys_acpi : acpi;
  sys_madt : madt_lists;
  sys_ioapic : ioapic_vars
}.

Definition sys_lapic (s : system) : lapic := k_lapic (sys_kern s).
Definition sys_clocks (s : system) : clocks := lp_clocks (sys_lapic s).
Definition sys_vmm (s : system) : vmm := ck_vmm (sys_clocks s).
Definition sys_paging (s : system) : paging := vm_paging (sys_vmm s).

(** The parts the components work on. *)
#[export] Instance sys_has_tty : Has tty system := {|
  prj := sys_tty;
  upd := λ t s, MkSystem t (sys_gdt s) (sys_idt s) (sys_kern s) (sys_acpi s) (sys_madt s) (sys_ioapic s) |}.
#[export] Instance sys_has_idt : Has idt_st system := {|
  prj := sys_idt;
  upd := λ i s, MkSystem (sys_tty s) (sys_gdt s) i (sys_kern s) (sys_acpi s) (sys_madt s) (sys_ioapic s) |}.
#[export] Instance sys_has_kern : Has (kern heap) system := {|
  prj := sys_kern;
  upd := λ k s, MkSystem (sys_tty s) (sys_gdt s) (sys_idt s) k (sys_acpi s) (sys_madt s) (sys_ioapic s) |}.
#[export] Instance sys_has_lapic : Has lapic system := {|
  prj := sys_lapic; upd := λ l s, upd (upd l (sys_kern s)) s |}.
#[export] Instance sys_has_int : Has interrupts system := {|
  prj := λ s, lp_int (sys_lapic s); upd := λ i s, upd (upd i (sys_lapic s)) s |}.
#[export] Instance sys_has_clocks : Has clocks system := {|
  prj := sys_clocks; upd := λ c s, upd (upd c (sys_lapic s)) s |}.
#[export] Instance sys_has_hw : Has hw system := {|
  prj := λ s, ck_hw (sys_clocks s); upd := λ h s, upd (upd h (sys_clocks s)) s |}.
#[export] Instance sys_has_vmm : Has vmm system := {|
  prj := sys_vmm; upd := λ v s, upd (upd v (sys_clocks s)) s |}.
#[export] Instance sys_has_pmm : Has pmm system := {|
  prj := λ s, pg_pmm (sys_paging s); upd := λ p s, upd (upd p (sys_vmm s)) s |}.
#[export] Instance sys_has_heap : Has heap system := {|
  prj := λ s, k_alloc (sys_kern s); upd := λ h s, upd (upd h (sys_kern s)) s |}.

(** Memory as the running code reads it. *)
#[export] Instance sys_has_mem : Has mem system := {|
  prj := λ s, virt_mem (sys_paging s); upd := λ _ s, s |}.

(** The ACPI library over that memory, which it only reads. *)
#[export] Instance sys_has_acpi : Has acpi system := {|
  prj := λ s, upd (virt_mem (sys_paging s)) (sys_acpi s);
  upd := λ a s, MkSystem (sys_tty s) (sys_gdt s) (sys_idt s) (sys_kern s) a (sys_madt s) (sys_ioapic s) |}.

#[export] Instance sys_has_madt : Has (madt_data heap) system := {|
  prj := λ s, MkMadt (k_alloc (sys_kern s)) (sys_madt s);
  upd := λ d s, MkSystem (sys_tty s) (sys_gdt s) (sys_idt s) (upd (md_alloc d) (sys_kern s)) (sys_acpi s)
    (md_lists d) (sys_ioapic s) |}.
#[export] Instance sys_has_ioapic : Has ioapic_st system := {|
  prj := λ s, MkIoapic (sys_clocks s) (iv_hhdm_offset (sys_ioapic s)) (iv_addr (sys_ioapic s)) (iv_ioapic (sys_ioapic s));
  upd := λ i s, MkSystem (sys_tty s) (sys_gdt s) (sys_idt s) (upd (upd (ia_clocks i) (sys_lapic s)) (sys_kern s)) (sys_acpi s)
    (sys_madt s) (MkIoVars (ioapic_hhdm_offset i) (ioapic_addr i) (ioapic i)) |}.

(** ** What the source does not determine *)

(** The linker's symbols and addresses, the devices, what C leaves open, the
    contents of fresh memory, and the bound on the loops. *)
Record platform := MkPlatform {
  pf_image : KernelImage;
  pf_tss : Z;
  pf_idt : Z;
  pf_isr_array : Z → Z;
  pf_hpet : hpet_device;
  pf_shl32 : Z → Z;
  pf_fresh_thread : Z → Thread;
  pf_fresh_proc : Z → Process;
  pf_fresh_stack : Z → InitialKStack;
  pf_fuel : nat
}.

(** ** Initialisation through firmware tables *)

(** [kassert(uacpi_table_find_by_signature(sig, &table) == UACPI_STATUS_OK, msg)],
    the use of [table.ptr], and [uacpi_table_unref(&table)]. *)
Definition with_table (sig : list Z) (msg : string) (use : Z → M system unit) : M system unit :=
  r ← zoom (uacpi_table_find_by_signature sig);
  match r with
  | (UACPI_STATUS_OK, Some table) => use (out_ptr table);; zoom (uacpi_table_unref table);; mret tt
  | _ => kpanic msg
  end.

(** [address.address] in struct acpi_hpet. *)
Definition off_hpet_address : Z := 44.

Definition hpet_init (dev : hpet_device) (offset : Z) : M system unit :=
  zoom (set_hpet_offset offset);;
  with_table ACPI_HPET_SIGNATURE "[ACPI] HPET table not found" (λ hpet,
    addr ← rd64 (hpet + off_hpet_address);
    zoom (hpet_setup dev addr)).

Definition timer_init (dev : hpet_device) (hhdm_offset : Z) : M system unit :=
  hpet_init dev hhdm_offset;;
  zoom set_timer_hpet.

(** [madt_init] of madt.c: the lookup around the loop of Madt.v. *)
Definition madt_init_table (fuel : nat) : M system unit :=
  with_table ACPI_MADT_SIGNATURE "[ACPI] MADT table not found" (λ madt,
    m ← gets (λ s, virt_mem (sys_paging s));
    zoom (madt_init m fuel (Some madt))).

(** [acpi_init]: the buffer comes from the heap. *)
Definition acpi_init_buffer (fuel : nat) (rsdp offset : Z) : M system unit :=
  tmp_buf ← zoom (kmalloc EARLY_BUFFER_SIZE);
  zoom (acpi_init fuel tmp_buf rsdp offset).

(** ** main.c *)

(** The devices. *)
Definition device_init (pf : platform) (info : BootInfo) : M system unit :=
  acpi_init_buffer (pf_fuel pf) (bi_rsdp_address info) (bi_hhdm_offset info);;
  timer_init (pf_hpet pf) (bi_hhdm_offset info);;
  madt_init_table (pf_fuel pf);;
  madt ← gets sys_madt;
  zoom (lapic_init (pf_shl32 pf) (pf_fuel pf) madt (bi_hhdm_offset info));;
  zoom (ioapic_init madt (bi_hhdm_offset info));;
  zoom (tsc_init (pf_fuel pf)).

(** The console, the descriptor tables and the interrupt handlers. *)
Definition early_init (pf : platform) (info : BootInfo) : M system unit :=
  zoom (tty_init (fb_width (bi_fb info)) (fb_height (bi_fb info)));;
  modify (λ s, MkSystem (sys_tty s) (gdt_init (pf_tss pf)) (sys_idt s) (sys_kern s) (sys_acpi s) (sys_madt s) (sys_ioapic s));;
  zoom (idt_init (pf_idt pf) (pf_isr_array pf));;
  zoom interrupts_init.

(** The result is the stack on which the scheduler goes on. *)
Definition kinit (pf : platform) (info : BootInfo) : M system (list frame) :=
  early_init pf info;;
  h ← zoom (memory_init (pf_image pf) (bi_hhdm_offset info) (bi_memory_map info) (bi_kernel_address info));
  modify (λ s, upd h s);;
  device_init pf info;;
  (match bi_modules info with [] => fault 0 | m :: _ => zoom (elf_read m) end);;
  zoom syscall_init;;
  zoom (sched_init (pf_fresh_thread pf) (pf_fresh_proc pf) (pf_fresh_stack pf)).

(** From the boot loader's responses. *)
Definition kernel_start (pf : platform) (junk : nat → PhysMemoryRegionType) (r : responses) : M system (list frame) := λ s,
  match kentry junk r tt with
  | Ok (info, _) => kinit pf info s
  | Panic msg => Panic msg
  | Fault a => Fault a
  | NoFuel => NoFuel
  end.
