(* ===== verification/DeviceInit.v ===== *)
(** * The start of the devices

    The lemmas behind [kinit]: firmware tables that are well formed in the
    boot loader's memory are found, read through the new page tables and
    released; the clock, the interrupt controllers and the time-stamp counter
    come up as long as the HPET runs. *)

From S2P Require Import Prelude Mem Digits StringC Pmm Paging Kmalloc KmallocInv KmallocThms Vmm VmmThms MemInit Alloc Hw Time Interrupts Madt Lapic Ioapic Events Thread Sched Cpu Boot Tables TablesThms Tty Main.
Local Open Scope Z_scope.
Local Open Scope kernel_scope.

(** ** Firmware tables in a memory with more bytes *)

Lemma stable_load_bytes n a : stable (λ m, load_bytes n m a).
Proof. revert a. induction n as [|n IH]; intros a; cbn [load_bytes]; stable_tac. apply IH. Qed.

Lemma stable_hdr_at virt : stable (λ m, hdr_at m virt).
Proof. unfold hdr_at. stable_tac; apply stable_load_bytes. Qed.

Lemma stable_table_entry off phys : stable (λ m, table_entry m off phys).
Proof.
  unfold table_entry. apply stable_bind; [apply stable_hdr_at|]. intros h. stable_tac.
Qed.

Lemma stable_entry_tables off phys : stable (λ m, entry_tables m off phys).
Proof.
  unfold entry_tables. apply stable_bind; [apply stable_table_entry|]. intros t.
  destruct (is_fadt (hdr t)); [|stable_tac]. cbv zeta. apply stable_if.
  - intros m m' H. rewrite !andb_true_iff. intros [? ?]. split; [done|by eapply mapped_below].
  - unfold dsdt_addr. apply stable_bind; [stable_tac|]. intros x. destruct (x =? 0); [stable_tac|].
    apply stable_bind; [apply stable_table_entry|]. intros d. stable_tac.
Qed.

Lemma stable_mapM {A B} (f : mem → A → option B) l : (∀ x, stable (λ m, f m x)) → stable (λ m, mapM (f m) l).
Proof. intros Hf. induction l as [|x l IH]; [exact (stable_const _)|]. cbn [mapM]. apply stable_bind; [apply Hf|]. intros y. apply stable_bind; [exact IH|]. intros k. exact (stable_const _). Qed.

Lemma stable_load_entries n sz a : stable (λ m, load_entries n sz m a).
Proof. revert a. induction n as [|n IH]; intros a; cbn [load_entries]; stable_tac. apply IH. Qed.

Lemma stable_root_entries off root : stable (λ m, root_entries m off root).
Proof.
  destruct root as [a sz]. unfold root_entries. cbv zeta. apply stable_bind; [apply stable_load_bytes|]. intros sig.
  apply stable_bind; [stable_tac|]. intros len.
  intros m m' v H. destruct ((_ =? 0) || _ || _) eqn:E; [done|]. apply orb_false_iff in E as [E1 E2].
  apply negb_false_iff in E2. rewrite E1, (mapped_below _ _ _ _ H E2). by apply stable_load_entries.
Qed.

Lemma stable_firmware_tables off rsdp : stable (λ m, firmware_tables m off rsdp).
Proof.
  unfold firmware_tables. apply stable_bind.
  - unfold root_table. cbv zeta. apply stable_bind; [stable_tac|]. intros rev.
    apply stable_bind; [destruct (1 <? rev); stable_tac|]. intros x. destruct (_ =? 0); [stable_tac|].
    destruct (negb _); stable_tac.
  - intros root. apply stable_bind; [apply stable_root_entries|]. intros es.
    apply stable_bind; [|intros; stable_tac]. apply stable_mapM, stable_entry_tables.
Qed.

(** ** Tables that no one uses *)

(** A table as [uacpi_setup_early_table_access] records it. *)
Record idle (off : Z) (fw : mem) (t : uacpi_installed_table) : Prop := {
  id_refs : reference_count t = 0;
  id_ptr : ptr t = 0;
  id_origin : is_physical (origin t) = true;
  id_addr : phys_addr t +64 off ≠ 0;
  id_length : 0 ≤ hdr_length (hdr t);
  id_readable : readable fw (phys_addr t +64 off) (hdr_length (hdr t))
}.

Lemma readable_below m m' a n : mem_below m m' → readable m a n → readable m' a n.
Proof. intros H Hr x Hx. destruct (Hr x Hx) as [b Hb]. exists b. by apply H. Qed.

Lemma idle_checked off fw t : idle off fw t → idle off fw (checked t).
Proof. intros []. by split. Qed.

Lemma idle_reachable off fw t a :
  idle off fw t → mem_below fw (acpi_mem a) → acpi_hhdm_offset a = off → reachable a t.
Proof. intros [] Hb <- _ _. split_and!; [done|done|by eapply readable_below]. Qed.

(** The tables of the firmware start idle. *)
Definition recorded (off : Z) (t : uacpi_installed_table) : Prop :=
  reference_count t = 0 ∧ ptr t = 0 ∧ is_physical (origin t) = true ∧ phys_addr t +64 off ≠ 0 ∧
  0 ≤ hdr_length (hdr t).

Lemma table_entry_recorded m off phys t : table_entry m off phys = Some t → recorded off t.
Proof.
  unfold table_entry. cbv zeta. intros H. apply bind_Some in H as (h & _ & H).
  destruct (_ || _) eqn:E; [done|]. injection H as <-. apply orb_false_iff in E as [E1 E2].
  apply Z.eqb_neq in E1. apply Z.ltb_ge in E2. unfold sizeof_acpi_sdt_hdr in E2. split_and!; try done. simpl. lia.
Qed.

Lemma entry_tables_recorded m off phys ts : entry_tables m off phys = Some ts → Forall (recorded off) ts.
Proof.
  unfold entry_tables. cbv zeta. intros H. apply bind_Some in H as (t & Ht%table_entry_recorded & H).
  destruct (is_fadt (hdr t)); [|injection H as <-; by constructor].
  destruct (_ && _); [|done]. apply bind_Some in H as (x & _ & H).
  destruct (x =? 0); [injection H as <-; by constructor|].
  apply bind_Some in H as (d & Hd%table_entry_recorded & H). destruct (is_fadt (hdr d)); [done|].
  injection H as <-. apply Forall_cons; split; [done|]. by apply Forall_cons.
Qed.

Lemma firmware_recorded m off rsdp ts : firmware_tables m off rsdp = Some ts → Forall (recorded off) ts.
Proof.
  unfold firmware_tables. intros H. apply bind_Some in H as (root & _ & H). apply bind_Some in H as (es & _ & H).
  apply bind_Some in H as (tss & Hm & H). injection H as <-. apply mapM_Some_1 in Hm.
  apply List.Forall_concat, Forall_forall. intros l Hl.
  apply list_elem_of_lookup in Hl as [i Hi]. destruct (Forall2_lookup_r _ _ _ _ _ Hm Hi) as (e & _ & He).
  by eapply entry_tables_recorded.
Qed.

(** ** Lookups *)

(** The first table with the signature [sig] is at the address [a]. *)
Definition locates (off : Z) (ts : list uacpi_installed_table) (sig : list Z) (a : Z) : Prop :=
  ∃ i t, list_find (λ t, candidate (take 4 sig) t = true) ts = Some (i, t) ∧ phys_addr t +64 off = a.

Lemma candidate_checked sig t : candidate sig (checked t) = candidate sig t.
Proof. unfold candidate. by rewrite valid_checked. Qed.

Lemma find_checked sig i ts j t :
  list_find (λ t, candidate sig t = true) ts = Some (j, t) →
  ∃ t', list_find (λ t, candidate sig t = true) (alter checked i ts) = Some (j, t') ∧ phys_addr t' = phys_addr t.
Proof.
  revert i j. induction ts as [|u ts IH]; intros i j H; [done|]. cbn [list_find] in H.
  destruct i as [|i].
  - change (alter checked 0%nat (u :: ts)) with (checked u :: ts). cbn [list_find].
    pose proof (candidate_checked sig u) as Ec. repeat case_decide; try congruence;
      [injection H as <- <-; by exists (checked u)|].
    apply fmap_Some in H as ([k v] & Hk & [= -> ->]). exists v. by rewrite Hk.
  - change (alter checked (S i) (u :: ts)) with (u :: alter checked i ts). cbn [list_find].
    case_decide; [injection H as <- <-; by exists u|].
    apply fmap_Some in H as ([k v] & Hk & [= -> ->]). destruct (IH i k Hk) as (t' & -> & E). by exists t'.
Qed.

Lemma locates_checked off i ts sig a : locates off ts sig a → locates off (alter checked i ts) sig a.
Proof.
  intros (j & t & Hf & <-). destruct (find_checked _ i _ _ _ Hf) as (t' & Hf' & E). exists j, t'. by rewrite E.
Qed.

(** The library after [acpi_init], with the tables [ts]. *)
Record acpi_up (off : Z) (fw : mem) (ts : list uacpi_installed_table) (a : acpi) : Prop := {
  up_ready : ready a;
  up_off : acpi_hhdm_offset a = off;
  up_tables : elems (tables a) = ts;
  up_idle : Forall (idle off fw) ts
}.

Definition set_acpi (a : acpi) (s : system) : system := upd a s.

(** A lookup, the use of the table and its release. *)
Lemma wpo_with_table sig msg use off fw ts a s (Q : unit → system → Prop) :
  acpi_up off fw ts (sys_acpi s) → mem_below fw (virt_mem (sys_paging s)) → locates off ts sig a →
  (∀ A, wpo (use a) (λ _ s', sys_acpi s' = A ∧
     ∀ A' ts', acpi_up off fw ts' A' → (∀ sig b, locates off ts sig b → locates off ts' sig b) →
       Q tt (set_acpi A' s')) (set_acpi A s)) →
  wpo (with_table sig msg use) Q s.
Proof.
  intros [Hr Ho Ht Hi] Hb Hl HQ. destruct Hl as (i & t & Hf & <-).
  pose proof Hf as (Hti & Hc & _)%list_find_Some. apply andb_true_iff in Hc as [Hv _].
  set (A0 := upd (virt_mem (sys_paging s)) (sys_acpi s)).
  assert (ready A0) as Hr0 by by destruct Hr.
  assert (Forall (reachable A0) (elems (tables A0))) as Hre.
  { change (elems (tables A0)) with (elems (tables (sys_acpi s))). rewrite Ht.
    eapply Forall_impl; [exact Hi|]. intros u Hu. by eapply idle_reachable. }
  pose proof (find_by_signature_ok sig A0 Hr0 Hre) as E.
  change (elems (tables A0)) with (elems (tables (sys_acpi s))) in E. rewrite Ht, Hf in E.
  change (acpi_hhdm_offset A0) with (acpi_hhdm_offset (sys_acpi s)) in E. rewrite Ho in E.
  assert (idle off fw t) as [I1 I2 I3 I4 I5 I6] by (by eapply Forall_lookup_1).
  unfold with_table. apply wpo_bind, wpo_zoom. unfold wpo at 1. change (prj s) with A0. rewrite E. clear E.
  set (A1 := with_tables _ A0). cbn [fst snd out_ptr].
  assert (ptr (referenced off t) = phys_addr t +64 off) as Hp by (unfold referenced; by rewrite I1, I3).
  rewrite Hp. apply wpo_bind. eapply wpo_mono; [exact (HQ A1)|]. intros _ s' [HA HQ']. apply wpo_bind, wpo_zoom.
  set (A2 := upd (virt_mem (sys_paging s')) A1). unfold wpo at 1. change (prj s') with (upd (virt_mem (sys_paging s')) (sys_acpi s')).
  rewrite HA. fold A2.
  assert (elems (tables A2) !! i = Some (referenced off t)) as Hti2.
  { change (alter (referenced off) i (elems (tables (sys_acpi s))) !! i = Some (referenced off t)).
    by rewrite Ht, list_lookup_alter_eq, Hti. }
  rewrite <-Hp, (unref_ok i (referenced off t) A2); [|by destruct Hr|exact Hti2|..].
  - apply wpo_ret. apply (HQ' _ (alter checked i ts)); [|intros; by apply locates_checked]. split; [by destruct Hr|done| |].
    + change (alter (λ t, set_refs 0 (set_ptr 0 t)) i (alter (referenced off) i (elems (tables (sys_acpi s)))) = alter checked i ts).
      rewrite Ht. apply list_eq. intros j. destruct (decide (i = j)) as [<-|Hne].
      * rewrite !list_lookup_alter_eq, Hti. simpl. f_equal. unfold referenced, checked. rewrite I1, I3. destruct t; simpl in *. by subst.
      * by rewrite !list_lookup_alter_ne.
    + apply Forall_alter; [done|]. intros u _ Hu. by apply idle_checked.
  - unfold referenced. rewrite I1, I3. exact (eq_trans (valid_checked (set_ptr _ t)) Hv).
  - unfold referenced. by rewrite I1.
  - unfold referenced. rewrite I1, I3. done.
Qed.

(** ** The clock *)

(** Within its first [N] reads the clock advances by 100 ms in at most
    [fuel] further reads, and does not wrap around. *)
Definition clock_runs (fuel N : nat) (src : nat → Z) (period : Z) : Prop :=
  let now n := u64 (src n) *64 (period `div` 1000000) in
  ∀ n, (n < N)%nat → now n + 100000000 < 2 ^ 64 ∧
    ∃ k, (k ≤ fuel)%nat ∧ now n + 100000000 ≤ now (S n + k)%nat.

Definition running (fuel N : nat) (c : clocks) : Prop :=
  timer c = timer_hpet ∧ clock_runs fuel N (hpet_src (ck_hw c)) (hpet_period c).

(** A wait of at most 100 ms. *)
Lemma wp_wait_running fuel N value c :
  running fuel N c → (hpet_reads (ck_hw c) < N)%nat → 0 ≤ value ≤ 100000000 →
  wp (timer_wait_ns fuel value) (λ _ c', ∃ j, (j ≤ fuel + 2)%nat ∧ c' = hpet_read j c) c.
Proof.
  intros [Ht Hr] Hn Hv. destruct (Hr _ Hn) as (H1 & k & Hk & H2).
  eapply wp_mono; [apply (wp_timer_wait fuel value k c); [done|done|unfold elapsed_at; lia|lia|unfold elapsed_at; lia]|].
  intros _ c' (j & Hj & -> & _). exists (S (S j)). split; [lia|done].
Qed.

(** ** The local APIC *)

(** [l'] differs from [l] in device registers, handlers and at most [n]
    further reads of the clock. *)
Record lapic_keep (n : nat) (l l' : lapic) : Prop := {
  lk_vmm : ck_vmm (lp_clocks l') = ck_vmm (lp_clocks l);
  lk_timer : timer (lp_clocks l') = timer (lp_clocks l) ∧ hpet_period (lp_clocks l') = hpet_period (lp_clocks l);
  lk_src : hpet_src (ck_hw (lp_clocks l')) = hpet_src (ck_hw (lp_clocks l)) ∧
    tsc_src (ck_hw (lp_clocks l')) = tsc_src (ck_hw (lp_clocks l)) ∧
    tsc_reads (ck_hw (lp_clocks l')) = tsc_reads (ck_hw (lp_clocks l));
  lk_reads : (hpet_reads (ck_hw (lp_clocks l)) ≤ hpet_reads (ck_hw (lp_clocks l')) ≤ hpet_reads (ck_hw (lp_clocks l)) + n)%nat;
  lk_int : length (int_handlers (lp_int l')) = length (int_handlers (lp_int l));
  lk_base : lapic_base l' = lapic_base l
}.

Lemma lapic_keep_refl l : lapic_keep 0 l l.
Proof. split; auto. lia. Qed.

Lemma lapic_keep_trans n1 n2 l1 l2 l3 :
  lapic_keep n1 l1 l2 → lapic_keep n2 l2 l3 → lapic_keep (n1 + n2) l1 l3.
Proof.
  intros [A1 [A2 A2'] (A3 & A4 & A5) A6 A7 A8] [B1 [B2 B2'] (B3 & B4 & B5) B6 B7 B8].
  split; [congruence|split; congruence|repeat split; congruence|lia|congruence|congruence].
Qed.

Lemma lapic_keep_running n fuel N l l' :
  lapic_keep n l l' → running fuel N (lp_clocks l) → running fuel N (lp_clocks l').
Proof. intros [_ [H1 H2] (H3 & _) _ _ _]. unfold running. by rewrite H1, H2, H3. Qed.

(** Steps that touch device registers only. *)
Lemma wp_keep_write reg val l : wp (Lapic.write_reg reg val) (λ _ l', lapic_keep 0 l l') l.
Proof.
  unfold Lapic.write_reg. apply wp_bind, wp_gets, wp_zoom, wp_modify. destruct l as [[]]. split; simpl; auto; lia.
Qed.

Lemma wp_keep_bind {A B} n1 n2 (c : M lapic A) (k : A → M lapic B) l :
  wp c (λ _ l', lapic_keep n1 l l') l →
  (∀ a l', lapic_keep n1 l l' → wp (k a) (λ _ l'', lapic_keep n2 l' l'') l') →
  wp (c ≫= k) (λ _ l', lapic_keep (n1 + n2) l l') l.
Proof.
  intros Hc Hk. apply wp_bind. eapply wp_mono; [exact Hc|]. intros a l1 H1.
  eapply wp_mono; [by apply Hk|]. intros b l2 H2. exact (lapic_keep_trans _ _ _ _ _ H1 H2).
Qed.

(** Port writes. *)
Definition quiet (l l' : lapic) : Prop :=
  lapic_keep 0 l l' ∧ msrs (ck_hw (lp_clocks l')) = msrs (ck_hw (lp_clocks l)) ∧
  lapic_hhdm_offset l' = lapic_hhdm_offset l.

Lemma wp_quiet_outb port val l : wp (outb port val) (λ _ l', quiet l l') l.
Proof.
  unfold outb. apply wp_zoom, wp_modify. destruct l as [[]]. split; [split; simpl; auto; lia|done].
Qed.

Lemma wp_quiet_bind {A B} (c : M lapic A) (k : A → M lapic B) l :
  wp c (λ _ l', quiet l l') l → (∀ a l', wp (k a) (λ _ l'', quiet l' l'') l') →
  wp (c ≫= k) (λ _ l', quiet l l') l.
Proof.
  intros Hc Hk. apply wp_bind. eapply wp_mono; [exact Hc|]. intros a l1 (A1 & A2 & A3).
  eapply wp_mono; [by apply Hk|]. intros b l2 (B1 & B2 & B3).
  split; [exact (lapic_keep_trans _ _ _ _ _ A1 B1)|]. split; congruence.
Qed.

Lemma wp_disable_pic l : wp disable_pic (λ _ l', quiet l l') l.
Proof.
  unfold disable_pic. do 9 (apply wp_quiet_bind; [apply wp_quiet_outb|intros _ ?]). apply wp_quiet_outb.
Qed.

(** A configuration of the non-maskable interrupts reads the first
    processor, so there must be one. *)
Lemma wp_keep_nmis cpus nmis l :
  cpus ≠ [] → wp (configure_nmis cpus nmis) (λ _ l', lapic_keep 0 l l') l.
Proof.
  intros Hc. destruct cpus as [|cpu cpus]; [done|]. clear Hc. revert l.
  induction nmis as [|nmi nmis IH]; intros l; cbn [configure_nmis]; [apply wp_ret, lapic_keep_refl|].
  assert (wp ((if ln_lint nmi =? 0 then
             Lapic.write_reg REG_LVT_LINT0 (Z.lor (Z.lor (nmi_lvt_flags (ln_flags nmi)) LAPIC_DELIV_MODE_NMI) 0x4)
           else if ln_lint nmi =? 1 then
             Lapic.write_reg REG_LVT_LINT1 (Z.lor (Z.lor (nmi_lvt_flags (ln_flags nmi)) LAPIC_DELIV_MODE_NMI) 0x4)
           else mret tt);; configure_nmis (cpu :: cpus) nmis) (λ _ l', lapic_keep 0 l l') l) as Hw.
  { apply (wp_keep_bind 0 0); [|intros _ l' _; apply IH].
    destruct (_ =? 0); [apply wp_keep_write|]. destruct (_ =? 1); [apply wp_keep_write|apply wp_ret, lapic_keep_refl]. }
  destruct (negb (ln_uid nmi =? LAPIC_NMI_ALL_CPUS)); [|exact Hw].
  destruct (negb (ln_uid nmi =? la_acpi_id cpu)); [apply IH|exact Hw].
Qed.

Lemma wp_keep_wait fuel N value l :
  running fuel N (lp_clocks l) → (hpet_reads (ck_hw (lp_clocks l)) < N)%nat → 0 ≤ value ≤ 100000000 →
  wp (zoom (timer_wait_ns fuel value)) (λ _ l', lapic_keep (fuel + 2) l l') l.
Proof.
  intros Hr Hn Hv. apply wp_zoom. eapply wp_mono; [by eapply wp_wait_running|].
  intros _ c' (j & Hj & ->). destruct l as [[]]. split; simpl; auto; lia.
Qed.

Lemma wp_keep_calibrate_loop fuel N n total l :
  running fuel N (lp_clocks l) → (hpet_reads (ck_hw (lp_clocks l)) + n * (fuel + 2) ≤ N)%nat →
  wp (calibrate_loop fuel n total) (λ _ l', lapic_keep (n * (fuel + 2)) l l') l.
Proof.
  revert total l. induction n as [|n IH]; intros total l Hr Hn; cbn [calibrate_loop]; [apply wp_ret, lapic_keep_refl|].
  apply (wp_keep_bind 0 (S n * (fuel + 2))); [apply wp_keep_write|]. intros _ l1 K1.
  pose proof (lapic_keep_running _ _ _ _ _ K1 Hr) as R1. pose proof (lk_reads _ _ _ K1).
  apply (wp_keep_bind (fuel + 2) (n * (fuel + 2))); [apply (wp_keep_wait fuel N); [done|simpl in *; lia|done]|].
  intros _ l2 K2. pose proof (lapic_keep_running _ _ _ _ _ K2 R1) as R2. pose proof (lk_reads _ _ _ K2).
  apply (wp_keep_bind 0 (n * (fuel + 2))).
  { unfold read_curr_count. apply wp_zoom. unfold wp, apic_counter. destruct l2 as [[]]. split; simpl; auto; lia. }
  intros cnt l3 K3. pose proof (lk_reads _ _ _ K3). apply IH; [by eapply lapic_keep_running|simpl in *; lia].
Qed.

Lemma wp_keep_calibrate fuel N l :
  running fuel N (lp_clocks l) → (hpet_reads (ck_hw (lp_clocks l)) + 5 * (fuel + 2) ≤ N)%nat →
  wp (calibrate_timer fuel) (λ _ l', lapic_keep (5 * (fuel + 2)) l l') l.
Proof.
  intros Hr Hn. unfold calibrate_timer. apply (wp_keep_bind 0 (5 * (fuel + 2))); [apply wp_keep_write|]. intros _ l1 K1.
  pose proof (lapic_keep_running _ _ _ _ _ K1 Hr) as R1. pose proof (lk_reads _ _ _ K1).
  rewrite <-(Nat.add_0_r (5 * (fuel + 2))).
  apply (wp_keep_bind (5 * (fuel + 2)) 0); [apply (wp_keep_calibrate_loop fuel N); [done|lia]|].
  intros total l2 _. apply wp_modify. split; simpl; auto. lia.
Qed.

(** The address of the local APIC, as [cpu_get_apic_base] computes it. *)
Definition apic_base (shl32 : Z → Z) (h : hw) : Z :=
  let v := default 0 (msrs h !! IA32_APIC_BASE_MSR) in
  Z.lor (Z.land (u32 v) 0xfffff000) (shl32 (Z.land (u32 (Z.shiftr v 32)) 0x0f)).

(** [l] with another address space and another register base. *)
Definition relocate (v : vmm) (b : Z) (l : lapic) : lapic :=
  MkLapic (upd v (lp_clocks l)) (lp_int l) (lapic_hhdm_offset l) (lapic_phys_base l) b (lapic_calibration_ticks l).

Lemma relocate_keep n v b l l' : lapic_keep n l l' → lapic_keep n (relocate v b l) (relocate v b l').
Proof. intros [? ? ? ? ? ?]. by split. Qed.

(** [lapic_init] from the write of the base register on. *)
Lemma wp_keep_after_map fuel N madt phys l :
  lapics madt ≠ [] → running fuel N (lp_clocks l) → (hpet_reads (ck_hw (lp_clocks l)) + 5 * (fuel + 2) ≤ N)%nat →
  wp (cpu_set_apic_base phys;;
      zoom (interrupts_set_handler LAPIC_SPURIOUS_VECTOR lapic_spurious_handler);;
      lapic_timer_stop;;
      Lapic.write_reg REG_SPURIOUS (Z.lor LAPIC_SOFTWARE_ENABLE LAPIC_SPURIOUS_VECTOR);;
      configure_nmis (lapics madt) (lapic_nmis madt);;
      calibrate_timer fuel) (λ _ l', lapic_keep (5 * (fuel + 2)) l l') l.
Proof.
  intros Hc Hr Hn. 
  assert (∀ {A} (c : M lapic A) (k : M lapic unit) l,
    wp c (λ _ l', lapic_keep 0 l l') l →
    (∀ l', lapic_keep 0 l l' → wp k (λ _ l'', lapic_keep (5 * (fuel + 2)) l' l'') l') →
    wp (c;; k) (λ _ l', lapic_keep (5 * (fuel + 2)) l l') l) as step.
  { intros A c k l0 H1 H2. apply (wp_keep_bind 0 (5 * (fuel + 2))); [exact H1|]. intros _ l1 K. by apply H2. }
  apply step.
  { unfold cpu_set_apic_base. apply wp_zoom, wp_modify. destruct l as [[]]. split; simpl; auto; lia. }
  intros l1 K1. apply step.
  { apply wp_zoom. unfold interrupts_set_handler. apply wp_set_int_handler; [done|].
    split; simpl; auto; [lia|]. apply length_insert. }
  intros l2 K2. apply step; [apply wp_keep_write|]. intros l3 K3. apply step; [apply wp_keep_write|]. intros l4 K4.
  apply step; [by apply wp_keep_nmis|]. intros l5 K5.
  pose proof (lapic_keep_trans _ _ _ _ _ K1 (lapic_keep_trans _ _ _ _ _ K2 (lapic_keep_trans _ _ _ _ _ K3
    (lapic_keep_trans _ _ _ _ _ K4 K5)))) as K.
  apply (wp_keep_calibrate fuel N); [by eapply lapic_keep_running|]. pose proof (lk_reads _ _ _ K). lia.
Qed.

Lemma wp_lapic_init off memmap P m fs D shl32 fuel N madt l own free :
  let phys := apic_base shl32 (ck_hw (lp_clocks l)) in
  memory_ready off memmap P m fs D (ck_vmm (lp_clocks l)) own free → short P →
  upper_paths (phys +64 off) ⊆ P → 0 ≤ phys < 2 ^ 64 → lapics madt ≠ [] →
  running fuel N (lp_clocks l) → (hpet_reads (ck_hw (lp_clocks l)) + 5 * (fuel + 2) ≤ N)%nat →
  wp (lapic_init shl32 fuel madt off) (λ _ l', ∃ v own' free',
    memory_ready off memmap P m fs ((phys +64 off) :: D) v own' free' ∧
    lapic_keep (5 * (fuel + 2)) (relocate v (phys +64 off) l) l') l.
Proof.
  intros phys Hm Hsh HP Hphys Hcpu Hr Hn. unfold lapic_init. apply wp_bind, wp_modify.
  set (l0 := MkLapic (lp_clocks l) (lp_int l) off (lapic_phys_base l) (lapic_base l) (lapic_calibration_ticks l)).
  apply wp_bind. eapply wp_mono; [apply wp_disable_pic|]. intros _ l1 (K1 & M1 & O1).
  apply wp_bind. unfold cpu_get_apic_base. apply wp_bind, wp_zoom, wp_gets, wp_ret. cbv zeta. cbn [fst snd].
  replace (upd (prj l1) l1) with l1 by (by destruct l1 as [[]]).
  change (msrs (prj l1)) with (msrs (ck_hw (lp_clocks l1))). rewrite M1.
  change (Z.lor (Z.land _ _) _) with phys.
  apply wp_bind, wp_modify. apply wp_bind, wp_gets. cbn [lapic_base lapic_hhdm_offset].
  rewrite O1. change (lapic_hhdm_offset l0) with off.
  apply wp_bind, wp_zoom. 
  eapply wp_mono; [eapply wp_kmap_device; [|exact HP|exact Hsh|exact Hphys]|].
  { simpl. rewrite (lk_vmm _ _ _ K1). exact Hm. }
  intros _ v (own' & free' & Hm').
  set (l2 := upd v _).
  assert (lapic_keep 0 (relocate v (phys +64 off) l) l2) as K2 by (destruct K1; split; simpl in *; done).
  assert (running fuel N (lp_clocks l2)) as R2 by exact (lapic_keep_running _ _ _ _ _ K1 Hr).
  clearbody l2. clear K1 M1 O1 l0 l1.
  eapply wp_mono; [apply (wp_keep_after_map fuel N madt phys l2); [done|done|]|].
  { pose proof (lk_reads _ _ _ K2) as H. simpl in *. lia. }
  intros ? l' K'. exists v, own', free'. split; [done|]. exact (lapic_keep_trans _ _ _ _ _ K2 K').
Qed.

(** ** The whole machine *)

(** The parts the devices leave alone. *)
Record frame_keep (s s' : system) : Prop := {
  fk_static : sys_tty s' = sys_tty s ∧ sys_gdt s' = sys_gdt s ∧ sys_idt s' = sys_idt s;
  fk_kern : k_evq (sys_kern s') = k_evq (sys_kern s) ∧ k_objs (sys_kern s') = k_objs (sys_kern s) ∧
    k_vars (sys_kern s') = k_vars (sys_kern s);
  fk_int : length (int_handlers (lp_int (sys_lapic s'))) = length (int_handlers (lp_int (sys_lapic s)));
  fk_tsc : tsc_src (ck_hw (sys_clocks s')) = tsc_src (ck_hw (sys_clocks s)) ∧
    tsc_reads (ck_hw (sys_clocks s')) = tsc_reads (ck_hw (sys_clocks s));
  fk_hpet : hpet_src (ck_hw (sys_clocks s')) = hpet_src (ck_hw (sys_clocks s))
}.

Lemma frame_keep_refl s : frame_keep s s.
Proof. by split. Qed.

Lemma frame_keep_trans s1 s2 s3 : frame_keep s1 s2 → frame_keep s2 s3 → frame_keep s1 s3.
Proof.
  intros [(A1 & A2 & A3) (A4 & A5 & A6) A7 [A8 A9] A10] [(B1 & B2 & B3) (B4 & B5 & B6) B7 [B8 B9] B10].
  split; [repeat split; congruence|repeat split; congruence|congruence|split; congruence|congruence].
Qed.

Section devices.
Context (img : KernelImage) (off : Z) (memmap : PhysMemoryMap) (P : list (list Z)) (m fw : mem) (fs Ds : list Z).
Context (Hl : layout_ok img off memmap) (Hfw : firmware_mem off memmap Ds m fw) (Hsh : short P).

(** The memory with devices at [D], the ACPI library with the tables [ts],
    and the heap. *)
Record devices (D : list Z) (ts : list uacpi_installed_table) (s : system) : Prop := {
  dv_mem : ∃ own free, memory_ready off memmap P m fs D (sys_vmm s) own free;
  dv_acpi : acpi_up off fw ts (sys_acpi s);
  dv_heap : ∃ L, al_rep (k_alloc (sys_kern s)) L
}.

Lemma devices_seen D ts s : D ⊆ Ds → devices D ts s → mem_below fw (virt_mem (sys_paging s)).
Proof. intros HD [(own & free & Hm) _ _]. by eapply (firmware_seen img). Qed.

Lemma wpo_acpi_init_buffer fuel rsdp ts s :
  (∃ own free, memory_ready off memmap P m fs [] (sys_vmm s) own free) → initial (sys_acpi s) →
  (∃ L, al_rep (k_alloc (sys_kern s)) L) → firmware_tables fw off rsdp = Some ts →
  Forall (λ t, readable fw (phys_addr t +64 off) (hdr_length (hdr t))) (take 80 ts) →
  wpo (acpi_init_buffer (S (S fuel)) rsdp off) (λ _ s',
    devices [] (take 80 ts) s' ∧ frame_keep s s' ∧ sys_lapic s' = sys_lapic s ∧
    sys_madt s' = sys_madt s) s.
Proof.
  intros (own & free & Hm) Hi (L & HL) Hts Hrd. unfold acpi_init_buffer. apply wpo_bind, wpo_zoom.
  assert (0 ≤ EARLY_BUFFER_SIZE < 2 ^ 32) as Hsz by (unfold EARLY_BUFFER_SIZE; lia).
  eapply wpo_mono; [exact (al_alloc_spec (A := heap) _ L EARLY_BUFFER_SIZE HL Hsz)|].
  intros buf h (_ & _ & HL'). apply wpo_zoom.
  set (s1 := upd h s). set (A := prj s1).
  assert (mem_below fw (acpi_mem A)) as Hb by (by eapply (firmware_seen img off memmap P m fw fs [] Ds); [..|apply list_subseteq_nil|]).
  destruct (acpi_init_ok fuel buf rsdp off ts A) as (A' & E & Hr & _ & Ho & Ht).
  { by destruct Hi. }
  { by eapply stable_firmware_tables. }
  unfold wpo. rewrite E. split; [split|split_and!; [by split|done|done]].
  - by exists own, free.
  - split; [done|done|done|]. rewrite Forall_forall in Hrd |- *. intros t Hin.
    pose proof (firmware_recorded _ _ _ _ Hts) as Hrec. rewrite Forall_forall in Hrec.
    destruct (Hrec t) as (R1 & R2 & R3 & R4 & R5); [apply elem_of_take in Hin as (i & Hin & _); by eapply list_elem_of_lookup_2|]. split; try done. by apply Hrd.
  - by exists ({[buf]} ∪ L).
Qed.

(** [timer_init] finds the HPET, maps it and makes it the timer. *)
Lemma wpo_timer_init dev ts hpet addr s :
  devices [] ts s → locates off ts ACPI_HPET_SIGNATURE hpet → load 8 fw (hpet + off_hpet_address) = Some addr →
  upper_paths (addr +64 off) ⊆ P →
  wpo (timer_init dev off) (λ _ s', ∃ ts', devices [addr +64 off] ts' s' ∧ frame_keep s s' ∧
    (∀ sig b, locates off ts sig b → locates off ts' sig b) ∧ sys_madt s' = sys_madt s ∧
    timer (sys_clocks s') = timer_hpet ∧ hpet_period (sys_clocks s') = Z.shiftr (hpet_capabilities dev) 32 ∧
    msrs (ck_hw (sys_clocks s')) = msrs (ck_hw (sys_clocks s)) ∧
    hpet_reads (ck_hw (sys_clocks s')) = hpet_reads (ck_hw (sys_clocks s))) s.
Proof.
  intros Hd Hloc Hld HP. unfold timer_init. apply wpo_bind. unfold hpet_init. apply wpo_bind, wpo_zoom, wpo_modify.
  set (s1 := upd _ s).
  assert (devices [] ts s1) as Hd1 by (destruct Hd; by split). pose proof (devices_seen [] ts s1 (list_subseteq_nil _) Hd1) as Hb.
  eapply (wpo_with_table _ _ _ off fw ts hpet); [apply Hd1|exact Hb|exact Hloc|]. intros A.
  apply wpo_bind, wp_wpo. eapply wp_rd; [exact (load_below _ _ _ _ _ Hb Hld)|].
  apply wp_wpo, wp_zoom. unfold hpet_setup. apply wp_bind, wp_gets. apply wp_bind, wp_zoom.
  destruct (dv_mem _ _ _ Hd1) as (own & free & Hm). pose proof (load_range _ _ _ _ Hld) as Hr.
  change (256 ^ Z.of_nat 8) with (2 ^ 64) in Hr.
  eapply wp_mono; [eapply (wp_kmap_device off memmap P m fs []); [exact Hm|exact HP|done|exact Hr]|].
  intros _ v (own' & free' & Hm'). apply wp_bind, wp_modify. apply wp_bind, wp_gets. apply wp_zoom, wp_modify.
  split; [done|]. intros A' ts' HA Hts. apply wpo_zoom, wpo_modify. exists ts'.
  split; [split; [by exists own', free'|exact HA|apply Hd1]|]. split; [by split|]. done.
Qed.

(** [madt_init] reads the table that the firmware left. *)
Lemma wpo_madt_init_table fuel D ts madt es s :
  devices D ts s → D ⊆ Ds → locates off ts ACPI_MADT_SIGNATURE madt → madt_table fw madt es → Forall entry_ok es →
  (length es ≤ fuel)%nat → Z.of_nat (length (mjoin (encode_entry <$> es))) < 2 ^ 31 →
  wpo (madt_init_table fuel) (λ _ s', ∃ ts', devices D ts' s' ∧ frame_keep s s' ∧ sys_lapic s' = sys_lapic s ∧
    sys_madt s' = fold_left (λ l e, add_entry e l) es (sys_madt s)) s.
Proof.
  intros Hd HD Hloc Htab Hok Hf Hlen. pose proof (devices_seen D ts s HD Hd) as Hb. unfold madt_init_table.
  eapply (wpo_with_table _ _ _ off fw ts madt); [apply Hd|exact Hb|exact Hloc|]. intros A.
  apply wpo_bind, wpo_gets, wpo_zoom. destruct (dv_heap _ _ _ Hd) as [L HL].
  eapply wpo_mono.
  { eapply (wpo_madt_loop fuel _ madt es []); [exact Hf|exact Hok| |exact Hlen|exact HL].
    destruct Htab as [H1 H2]. split; [by eapply load_below|]. intros i b Hi. by apply Hb, H2. }
  intros _ d [Hm HL']. split; [done|]. intros A' ts' HA _. exists ts'.
  split; [split; [apply Hd|exact HA|exact HL']|]. split; [by split|]. done.
Qed.

Lemma wpo_lapic_init shl32 fuel N D ts s :
  let base := apic_base shl32 (ck_hw (sys_clocks s)) in
  devices D ts s → upper_paths (base +64 off) ⊆ P → 0 ≤ base < 2 ^ 64 → lapics (sys_madt s) ≠ [] →
  running fuel N (sys_clocks s) → (hpet_reads (ck_hw (sys_clocks s)) + 5 * (fuel + 2) ≤ N)%nat →
  wpo (zoom (lapic_init shl32 fuel (sys_madt s) off)) (λ _ s', devices ((base +64 off) :: D) ts s' ∧ frame_keep s s' ∧
    sys_madt s' = sys_madt s ∧ running fuel N (sys_clocks s') ∧
    (hpet_reads (ck_hw (sys_clocks s')) ≤ hpet_reads (ck_hw (sys_clocks s)) + 5 * (fuel + 2))%nat) s.
Proof.
  intros base Hd HP Hr Hc Hrun Hn. destruct (dv_mem _ _ _ Hd) as (own & free & Hm). apply wpo_zoom, wp_wpo.
  eapply wp_mono; [eapply (wp_lapic_init off memmap P m fs D); [exact Hm|exact Hsh|exact HP|exact Hr|exact Hc|exact Hrun|exact Hn]|].
  intros _ l' (v & own' & free' & Hm' & K).
  assert (running fuel N (lp_clocks l')) as R' by exact (lapic_keep_running _ _ _ _ _ K Hrun).
  destruct K as [K1 [K2 K3] (K4 & K5 & K6) K7 K8 K9]. simpl in *.
  split; [split; [exists own', free'; unfold sys_vmm, sys_clocks, sys_lapic; simpl; by rewrite K1|apply Hd|apply Hd]|].
  split; [split; simpl; auto|]. split_and!; [done|done|]. unfold sys_clocks, sys_lapic in *. simpl in *. lia.
Qed.

Lemma wpo_ioapic_init io rest D ts s :
  devices D ts s → ioapics (sys_madt s) = io :: rest → 0 ≤ io_ioapic_addr io < 2 ^ 64 →
  upper_paths (io_ioapic_addr io +64 off) ⊆ P →
  wpo (zoom (ioapic_init (sys_madt s) off)) (λ _ s', devices ((io_ioapic_addr io +64 off) :: D) ts s' ∧ frame_keep s s' ∧
    sys_madt s' = sys_madt s ∧ sys_ioapic s' = MkIoVars off (io_ioapic_addr io) (Some io) ∧
    timer (sys_clocks s') = timer (sys_clocks s) ∧ hpet_period (sys_clocks s') = hpet_period (sys_clocks s) ∧
    hpet_reads (ck_hw (sys_clocks s')) = hpet_reads (ck_hw (sys_clocks s))) s.
Proof.
  intros Hd Hio Hr HP. destruct (dv_mem _ _ _ Hd) as (own & free & Hm). apply wpo_zoom, wp_wpo.
  unfold ioapic_init. rewrite Hio. apply wp_bind, wp_modify. apply wp_zoom.
  eapply wp_mono; [eapply (wp_kmap_device off memmap P m fs D); [exact Hm|exact HP|exact Hsh|exact Hr]|].
  intros _ v (own' & free' & Hm').
  split; [split; [by exists own', free'|apply Hd|apply Hd]|]. split; [by split|]. done.
Qed.

(** The frequency that [tsc_init] computes from two readings. *)
Definition tsc_rate (h : hw) : Z :=
  (u64 (tsc_src h (S (tsc_reads h))) -64 u64 (tsc_src h (tsc_reads h))) *64 100.

Lemma wpo_tsc_init fuel N D ts s :
  devices D ts s → running fuel N (sys_clocks s) → (hpet_reads (ck_hw (sys_clocks s)) < N)%nat →
  wpo (zoom (tsc_init fuel)) (λ _ s', devices D ts s' ∧ sys_madt s' = sys_madt s ∧ sys_ioapic s' = sys_ioapic s ∧
    sys_tty s' = sys_tty s ∧ sys_gdt s' = sys_gdt s ∧ sys_idt s' = sys_idt s ∧
    k_evq (sys_kern s') = k_evq (sys_kern s) ∧ k_objs (sys_kern s') = k_objs (sys_kern s) ∧
    k_vars (sys_kern s') = k_vars (sys_kern s) ∧ lp_int (sys_lapic s') = lp_int (sys_lapic s) ∧
    tsc_freq (sys_clocks s') = tsc_rate (ck_hw (sys_clocks s))) s.
Proof.
  intros Hd Hrun Hn. apply wpo_zoom, wp_wpo. unfold tsc_init, tsc_read. apply wp_bind, wp_zoom. unfold wp at 1, rdtsc.
  apply wp_bind. eapply wp_mono; [apply (wp_wait_running fuel N); [exact Hrun|exact Hn|done]|].
  intros _ c (j & _ & ->). apply wp_bind, wp_zoom. unfold wp at 1, rdtsc. apply wp_modify.
  split; [destruct Hd; by split|]. done.
Qed.
End devices.
