(* ===== verification/MainThms.v ===== *)
(** * The start of the kernel: theorems

    [kinit] on a machine whose memory map has enough usable memory, whose
    firmware tables are well formed and whose clock runs: it ends in the
    scheduler, on the kernel's own page tables, and the scheduler's invariant
    holds from there on.  [machine_ok] states what is needed of the machine. *)

From S2P Require Import Prelude Mem Digits StringC Pmm Paging Kmalloc KmallocInv KmallocSpec KmallocThms Vmm VmmThms MemInit Alloc Hw Time Interrupts Madt Lapic Ioapic Events Thread Sched ThreadLists SchedInv SchedOps SchedThms Cpu Boot Tables TablesThms Tty Main DeviceInit.
Local Open Scope Z_scope.
Local Open Scope kernel_scope.

(** ** Pieces *)

Lemma ident_is_ok a bs m : readable m a (Z.of_nat (length bs)) → ∃ b, ident_is a bs m = Ok (b, m).
Proof.
  revert a. induction bs as [|b bs IH]; intros a Hr; cbn [ident_is]; [by exists true|].
  destruct (readable_load _ _ _ 1 a Hr) as [x Hx]; [lia|simpl; lia|].
  rewrite (bind_ok _ _ _ x m) by (unfold rd; simpl; by rewrite Hx).
  destruct (x =? b); [|by exists false]. apply IH. intros y Hy. apply Hr. simpl in *. lia.
Qed.

(** A module of at least 64 bytes is read without a fault. *)
Lemma wp_elf_read md m (Q : ElfResult * option ElfFile → mem → Prop) :
  readable m (mod_address md) 64 → (∀ r, Q r m) → wp (elf_read md) Q m.
Proof.
  intros Hr HQ. unfold elf_read.
  assert (∀ n o (k : Z → M mem (ElfResult * option ElfFile)), 0 ≤ o → o + Z.of_nat n ≤ 64 →
    (∀ v, wp (k v) Q m) → wp (rd n (mod_address md + o) ≫= k) Q m) as step.
  { intros n o k H1 H2 Hk. destruct (readable_load _ _ _ n (mod_address md + o) Hr) as [v Hv]; [lia|lia|].
    apply wp_bind. eapply wp_rd; [exact Hv|apply Hk]. }
  apply wp_bind. destruct (ident_is_ok (mod_address md + off_e_ident) [0x7f; 0x45; 0x4c; 0x46] m) as [b E].
  { intros x Hx. apply Hr. unfold off_e_ident in Hx. simpl in Hx. lia. }
  unfold wp at 1. rewrite E. destruct (negb b); [apply wp_ret, HQ|].
  rewrite <-!Z.add_assoc. change (off_e_ident + 4) with 4. change (off_e_ident + 5) with 5.
  apply step; [lia|simpl; lia|]. intros class. destruct (negb (class =? ELFCLASS64)); [apply wp_ret, HQ|].
  apply step; [done|done|]. intros mach. destruct (negb (mach =? EM_X86_64)); [apply wp_ret, HQ|].
  apply step; [lia|simpl; lia|]. intros data. destruct (negb (data =? ELFDATA2LSB)); [apply wp_ret, HQ|].
  apply step; [done|done|]. intros vers. destruct (negb (vers =? EV_CURRENT)); [apply wp_ret, HQ|].
  do 4 (apply step; [done|done|]; intros ?). apply wp_ret, HQ.
Qed.

(** When the boot loader reported no module, [kinit] reads the header at
    address 0, which is not mapped. *)
Theorem elf_read_no_module (m : mem) : m 0 = None → elf_read no_module m = Fault 0.
Proof.
  intros H. assert (rd 1 (mod_address no_module + off_e_ident) m = Fault 0) as E.
  { unfold rd. change (load 1 (prj m) _) with (b ← load8 m 0; r ← Some 0; Some (b + 256 * r)). unfold load8. by rewrite H. }
  unfold elf_read, ident_is, mbind, M_bind. by rewrite E.
Qed.

(** ** The scheduler does not touch the address space *)

Definition keeps_clocks {B : Type} (c : M (kern heap) B) : Prop :=
  ∀ s b s', c s = Ok (b, s') → lp_clocks (k_lapic s') = lp_clocks (k_lapic s).

Lemma kc_bind {B C} (c : M (kern heap) B) (k : B → M (kern heap) C) :
  keeps_clocks c → (∀ b, keeps_clocks (k b)) → keeps_clocks (c ≫= k).
Proof.
  intros Hc Hk s b s'. unfold mbind, M_bind. destruct (c s) as [[x s1]| | |] eqn:E; try done.
  intros E'. etrans; [by eapply Hk|by eapply Hc].
Qed.
Lemma kc_ret {B} (b : B) : keeps_clocks (mret b).
Proof. intros s b' s' [= <- <-]. done. Qed.
Lemma kc_fault {B} a : keeps_clocks (fault a : M (kern heap) B).
Proof. done. Qed.
Lemma kc_gets {B} (f : kern heap → B) : keeps_clocks (gets f).
Proof. intros s b s' [= <- <-]. done. Qed.
Lemma kc_zoom {T B} `{Has T (kern heap)} (c : M T B) :
  (∀ t s, k_lapic (upd t s) = k_lapic s) → keeps_clocks (zoom c).
Proof. intros Hu s b s'. unfold zoom. destruct (c (prj s)) as [[x t]| | |]; intros [= <- <-]. by rewrite Hu. Qed.
Lemma kc_zoom2 {T B} `{Has T lapic} (c : M T B) :
  (∀ t l, lp_clocks (upd t l) = lp_clocks l) → keeps_clocks (zoom (zoom c : M lapic B)).
Proof.
  intros Hu s b s'. unfold zoom. destruct (c (prj (prj s))) as [[x t]| | |]; intros [= <- <-]. simpl. by rewrite Hu.
Qed.
Lemma kc_pml4 : keeps_clocks (zoom (zoom vmm_get_kernel_pml4 : M lapic Z)).
Proof. intros s b s' [= <- <-]. by destruct s as [? [[]]]. Qed.
Lemma kc_get_thread p : keeps_clocks (get_thread p).
Proof. intros s b s'. unfold get_thread. destruct (_ !! p); by intros [= <- <-]. Qed.
Lemma kc_get_list p : keeps_clocks (get_list p).
Proof. intros s b s'. unfold get_list. destruct (_ !! p); by intros [= <- <-]. Qed.
Lemma kc_get_node p : keeps_clocks (get_node p).
Proof. intros s b s'. unfold get_node. destruct (_ !! p); by intros [= <- <-]. Qed.

Create HintDb clocks.
#[local] Hint Resolve kc_ret kc_fault kc_gets kc_pml4 kc_get_thread kc_get_list kc_get_node : clocks.

Ltac keeps_clocks_tac :=
  repeat first
    [ solve [auto with clocks nocore] | apply kc_bind; [|intros ?] | apply kc_zoom; [done]
    | apply kc_zoom2; [done] | progress cbv zeta | case_match ].

Lemma kc_thread_kcreate ft fs name entry proc : keeps_clocks (thread_kcreate (A := heap) ft fs name entry proc).
Proof.
  unfold thread_kcreate, event_create, kmalloc_obj, put_thread, upd_thread, get_var, set_vars, put_stack.
  keeps_clocks_tac.
Qed.

Lemma kc_thread_list_add l t : keeps_clocks (thread_list_add (A := heap) l t).
Proof. unfold thread_list_add, kmalloc_obj, put_nodes, put_list. keeps_clocks_tac. Qed.

#[local] Hint Resolve kc_thread_kcreate kc_thread_list_add : clocks.

Lemma kc_sched_init ft fp fs : keeps_clocks (sched_init (A := heap) ft fp fs).
Proof.
  unfold sched_init, sched_init_data, thread_list_new, process_create, event_create, kmalloc_obj, put_list, put_proc,
    put_thread, upd_thread, get_var, set_vars, set_current.
  keeps_clocks_tac.
Qed.

(** ** The machine *)

(** What the firmware left in memory: the bytes, the tables in the order of
    the root table, where the HPET and MADT tables are, the address of the HPET,
    the entries of the MADT and its I/O APIC. *)
Record firmware_desc := MkFirmware {
  fd_mem : mem;
  fd_tables : list uacpi_installed_table;
  fd_hpet_table : Z;
  fd_hpet : Z;
  fd_madt_table : Z;
  fd_entries : list madt_entry;
  fd_ioapic : MadtIoApic
}.

Definition madt_of (es : list madt_entry) : madt_lists := fold_left (λ l e, add_entry e l) es no_lists.

(** The addresses at which [kinit] maps devices, the last one first. *)
Definition device_pages (pf : platform) (off : Z) (fd : firmware_desc) (s : system) : list Z :=
  [io_ioapic_addr (fd_ioapic fd) +64 off; apic_base (pf_shl32 pf) (ck_hw (sys_clocks s)) +64 off; fd_hpet fd +64 off].

(** The tables the firmware promises. *)
Record firmware_ok (fuel : nat) (off rsdp : Z) (fd : firmware_desc) : Prop := {
  fw_tables : firmware_tables (fd_mem fd) off rsdp = Some (fd_tables fd);
  fw_readable : Forall (λ t, readable (fd_mem fd) (phys_addr t +64 off) (hdr_length (hdr t))) (take 80 (fd_tables fd));
  fw_hpet : locates off (take 80 (fd_tables fd)) ACPI_HPET_SIGNATURE (fd_hpet_table fd) ∧
    load 8 (fd_mem fd) (fd_hpet_table fd + off_hpet_address) = Some (fd_hpet fd);
  fw_madt : locates off (take 80 (fd_tables fd)) ACPI_MADT_SIGNATURE (fd_madt_table fd) ∧
    madt_table (fd_mem fd) (fd_madt_table fd) (fd_entries fd) ∧ Forall entry_ok (fd_entries fd) ∧
    Z.of_nat (length (mjoin (encode_entry <$> fd_entries fd))) < 2 ^ 31;
  fw_cpu : lapics (madt_of (fd_entries fd)) ≠ [] ∧ hd_error (ioapics (madt_of (fd_entries fd))) = Some (fd_ioapic fd);
  fw_fuel : (2 ≤ fuel ∧ length (fd_entries fd) ≤ fuel)%nat
}.

(** The static data of the kernel before [kinit]. *)
Record static_ok (s : system) : Prop := {
  so_pmm : free_list_head (pg_pmm (sys_paging s)) = 0;
  so_idt : length (idt (sys_idt s)) = 256%nat;
  so_int : length (int_handlers (lp_int (sys_lapic s))) = 256%nat;
  so_acpi : initial (sys_acpi s);
  so_madt : sys_madt s = no_lists;
  so_kern : k_evq (sys_kern s) = MkEvq ∅ ev_null ∧ k_objs (sys_kern s) = MkObjs ∅ ∅ ∅ ∅ ∅ ∅ ∧
    IRQ_disable_counter (k_vars (sys_kern s)) = 0
}.

Record machine_ok (pf : platform) (info : BootInfo) (P : list (list Z)) (fd : firmware_desc) (s : system) : Prop := {
  mc_static : static_ok s;
  mc_memory : memory_ok (pf_image pf) (bi_hhdm_offset info) (bi_memory_map info)
    (virt (bi_kernel_address info) -64 phys (bi_kernel_address info)) P (pg_mem (sys_paging s));
  mc_firmware : firmware_ok (pf_fuel pf) (bi_hhdm_offset info) (bi_rsdp_address info) fd;
  mc_firmware_mem : firmware_mem (bi_hhdm_offset info) (bi_memory_map info)
    (device_pages pf (bi_hhdm_offset info) fd s) (pg_mem (sys_paging s)) (fd_mem fd);
  mc_module : ∃ md rest, bi_modules info = md :: rest ∧ readable (fd_mem fd) (mod_address md) 64;
  mc_paths : Forall (λ w, upper_paths w ⊆ P) (device_pages pf (bi_hhdm_offset info) fd s);
  mc_apic : 0 ≤ apic_base (pf_shl32 pf) (ck_hw (sys_clocks s)) < 2 ^ 64;
  mc_clock : clock_runs (pf_fuel pf) (hpet_reads (ck_hw (sys_clocks s)) + 6 * (pf_fuel pf + 2))
    (hpet_src (ck_hw (sys_clocks s))) (Z.shiftr (hpet_capabilities (pf_hpet pf)) 32);
  mc_tsc : tsc_rate (ck_hw (sys_clocks s)) ≠ 0
}.

Lemma madt_ioapic_range es l :
  Forall entry_ok es → Forall (λ io, 0 ≤ io_ioapic_addr io < 2 ^ 64) (ioapics l) →
  Forall (λ io, 0 ≤ io_ioapic_addr io < 2 ^ 64) (ioapics (fold_left (λ l e, add_entry e l) es l)).
Proof.
  revert l. induction es as [|e es IH]; intros l Hok Hl; [done|]. apply Forall_cons in Hok as [He Hok].
  cbn [fold_left]. apply IH; [done|]. destruct e; try exact Hl. simpl in He |- *. apply Forall_cons. split; [|done].
  destruct He as (_ & _ & Ha & _). unfold in_range in Ha. simpl. lia.
Qed.

(** ** The devices together *)

Section devices_up.
Context (pf : platform) (info : BootInfo) (P : list (list Z)) (fd : firmware_desc) (m : mem) (fs : list Z) (s0 : system).
Let off := bi_hhdm_offset info.
Let Ds := device_pages pf off fd s0.
Let fuel := pf_fuel pf.
Context (Hl : layout_ok (pf_image pf) off (bi_memory_map info)) (Hsh : short P).
Context (Hfw : firmware_ok fuel off (bi_rsdp_address info) fd).
Context (Hfm : firmware_mem off (bi_memory_map info) Ds m (fd_mem fd)).
Context (HP : Forall (λ w, upper_paths w ⊆ P) Ds).
Context (Hapic : 0 ≤ apic_base (pf_shl32 pf) (ck_hw (sys_clocks s0)) < 2 ^ 64).

Definition all_devices (s : system) : Prop := ∃ ts, devices off (bi_memory_map info) P m (fd_mem fd) fs Ds ts s.

Lemma wpo_device_init s :
  (∃ own free, memory_ready off (bi_memory_map info) P m fs [] (sys_vmm s) own free) →
  (∃ L, al_rep (k_alloc (sys_kern s)) L) → initial (sys_acpi s) → sys_madt s = no_lists →
  ck_hw (sys_clocks s) = ck_hw (sys_clocks s0) →
  clock_runs fuel (hpet_reads (ck_hw (sys_clocks s)) + 6 * (fuel + 2)) (hpet_src (ck_hw (sys_clocks s)))
    (Z.shiftr (hpet_capabilities (pf_hpet pf)) 32) →
  wpo (device_init pf info) (λ _ s', all_devices s' ∧ sys_madt s' = madt_of (fd_entries fd) ∧
    sys_ioapic s' = MkIoVars off (io_ioapic_addr (fd_ioapic fd)) (Some (fd_ioapic fd)) ∧
    sys_tty s' = sys_tty s ∧ sys_gdt s' = sys_gdt s ∧ sys_idt s' = sys_idt s ∧
    k_evq (sys_kern s') = k_evq (sys_kern s) ∧ k_objs (sys_kern s') = k_objs (sys_kern s) ∧
    k_vars (sys_kern s') = k_vars (sys_kern s) ∧
    length (int_handlers (lp_int (sys_lapic s'))) = length (int_handlers (lp_int (sys_lapic s))) ∧
    tsc_freq (sys_clocks s') = tsc_rate (ck_hw (sys_clocks s))) s.
Proof.
  intros Hm HL Hi Hmd Hhw Hck. destruct Hfw as [F1 F2 [F3 F4] (F5 & F6 & F7 & F8) [F9 F10] [F11 F12]].
  unfold Ds, device_pages in HP. rewrite !Forall_cons in HP. destruct HP as (P1 & P2 & P3 & _).
  set (N := (hpet_reads (ck_hw (sys_clocks s)) + 6 * (fuel + 2))%nat) in *.
  unfold device_init. fold off fuel.
  (* acpi_init *)
  apply wpo_bind. destruct fuel as [|[|f]] eqn:Ef; [lia|lia|]. rewrite <-Ef in *.
  eapply wpo_mono; [rewrite Ef; by eapply (wpo_acpi_init_buffer (pf_image pf) off (bi_memory_map info) P m (fd_mem fd) fs Ds)|].
  intros _ s1 (D1 & K1 & L1 & M1).
  (* timer_init *)
  apply wpo_bind. eapply wpo_mono; [by eapply (wpo_timer_init (pf_image pf) off (bi_memory_map info) P m (fd_mem fd) fs Ds)|].
  intros _ s2 (ts2 & D2 & K2 & Lo2 & M2 & T2 & Pe2 & Ms2 & R2).
  (* madt_init *)
  apply wpo_bind. eapply wpo_mono.
  { eapply (wpo_madt_init_table (pf_image pf) off (bi_memory_map info) P m (fd_mem fd) fs Ds); [exact Hl|exact Hfm|exact D2| |by apply Lo2|exact F6|exact F7|exact F12|exact F8].
    unfold Ds, device_pages. set_solver +. }
  intros _ s3 (ts3 & D3 & K3 & L3 & M3). apply wpo_bind, wpo_gets.
  assert (sys_madt s3 = madt_of (fd_entries fd)) as Emd by (rewrite M3, M2, M1, Hmd; done).
  assert (sys_clocks s3 = sys_clocks s2) as C3 by (unfold sys_clocks; by rewrite L3).
  assert (sys_clocks s1 = sys_clocks s) as C1 by (unfold sys_clocks; by rewrite L1).
  assert (running fuel N (sys_clocks s3)) as R3.
  { rewrite C3. split; [done|]. rewrite Pe2, (fk_hpet _ _ K2), C1. exact Hck. }
  assert (hpet_reads (ck_hw (sys_clocks s3)) = hpet_reads (ck_hw (sys_clocks s))) as N3 by (by rewrite C3, R2, C1).
  assert (apic_base (pf_shl32 pf) (ck_hw (sys_clocks s3)) = apic_base (pf_shl32 pf) (ck_hw (sys_clocks s0))) as Eb.
  { unfold apic_base. by rewrite C3, Ms2, C1, Hhw. }
  (* lapic_init *)
  apply wpo_bind. eapply wpo_mono.
  { eapply (wpo_lapic_init off (bi_memory_map info) P m (fd_mem fd) fs); [exact Hsh|exact D3|..|exact R3|];
      rewrite ?Eb; [exact P2|exact Hapic|by rewrite Emd|rewrite N3; unfold N; lia]. }
  intros _ s4 (D4 & K4 & M4 & R4 & N4). rewrite Eb in D4.
  (* ioapic_init *)
  destruct (ioapics (madt_of (fd_entries fd))) as [|io rest] eqn:Eio; [done|]. injection F10 as ->.
  pose proof (madt_ioapic_range _ no_lists F7 (Forall_nil_2 _)) as Hio.
  change (fold_left _ _ no_lists) with (madt_of (fd_entries fd)) in Hio. rewrite Eio in Hio. apply Forall_cons in Hio as [Hio _].
  apply wpo_bind. rewrite <-M4. eapply wpo_mono.
  { eapply (wpo_ioapic_init off (bi_memory_map info) P m (fd_mem fd) fs); [exact Hsh|exact D4|by rewrite M4, Emd|exact Hio|exact P1]. }
  intros _ s5 (D5 & K5 & M5 & I5 & T5 & Pe5 & N5).
  (* tsc_init *)
  eapply wpo_mono.
  { eapply (wpo_tsc_init off (bi_memory_map info) P m (fd_mem fd) fs fuel N); [exact D5| |].
    - destruct R4 as [R4a R4b]. split; [congruence|]. by rewrite Pe5, (fk_hpet _ _ K5).
    - rewrite N5. unfold N. lia. }
  intros _ s6 (D6 & M6 & I6 & S1 & S2 & S3 & S4 & S5 & S6 & S7 & S8).
  pose proof (frame_keep_trans _ _ _ K1 (frame_keep_trans _ _ _ K2 (frame_keep_trans _ _ _ K3 (frame_keep_trans _ _ _ K4 K5)))) as K.
  destruct K as [(Q1 & Q2 & Q3) (Q4 & Q5 & Q6) Q7 [Q8 Q9] _].
  split; [by exists ts3|]. split_and!; try congruence.
  rewrite S8. unfold tsc_rate. by rewrite Q8, Q9.
Qed.
End devices_up.

(** ** From [kinit] to the scheduler *)

Lemma wpo_strengthen {S B} (c : M S B) (Q Q' : B → S → Prop) s :
  wpo c Q s → (∀ b s', c s = Ok (b, s') → Q b s' → Q' b s') → wpo c Q' s.
Proof. unfold wpo. destruct (c s) as [[b s']| | |]; auto. Qed.

(** [sched_init] on a machine that is up. *)
Lemma wpo_start pf (s : system) :
  boot_ok (sys_kern s) →
  wpo (zoom (sched_init (pf_fresh_thread pf) (pf_fresh_proc pf) (pf_fresh_stack pf))) (λ stk s',
    stk = [FHandle; FBoot] ∧ kinv (sys_kern s') stk ∧ sys_clocks s' = sys_clocks s ∧
    sys_madt s' = sys_madt s ∧ sys_gdt s' = sys_gdt s ∧ sys_ioapic s' = sys_ioapic s) s.
Proof.
  intros Hb. apply wpo_zoom. eapply wpo_strengthen; [by apply wpo_sched_init|]. intros stk k' E Hk.
  split; [|split; [exact Hk|split; [exact (kc_sched_init _ _ _ _ _ _ E)|done]]].
  unfold sched_init, mbind, M_bind, mret, M_ret in E.
  destruct (sched_init_data _ _ _ _) as [[]| | |]; by simplify_eq.
Qed.

Lemma wp_early_init pf info s :
  length (idt (sys_idt s)) = 256%nat → length (int_handlers (lp_int (sys_lapic s))) = 256%nat →
  wp (early_init pf info) (λ _ s', sys_gdt s' = gdt_init (pf_tss pf) ∧ sys_clocks s' = sys_clocks s ∧
    sys_acpi s' = sys_acpi s ∧ sys_madt s' = sys_madt s ∧
    k_evq (sys_kern s') = k_evq (sys_kern s) ∧ k_objs (sys_kern s') = k_objs (sys_kern s) ∧
    k_vars (sys_kern s') = k_vars (sys_kern s) ∧ length (int_handlers (lp_int (sys_lapic s'))) = 256%nat) s.
Proof.
  intros H1 H2. unfold early_init. apply wp_bind, wp_zoom, wp_modify. apply wp_bind, wp_modify.
  apply wp_bind, wp_zoom. unfold idt_init. apply wp_bind, wp_modify. apply wp_bind.
  eapply wp_mono; [apply idt_loop_spec; simpl; [exact H1|lia|lia]|]. intros _ i _. apply wp_modify.
  apply wp_zoom. eapply wp_mono; [apply interrupts_init_handlers; exact H2|]. intros _ ih (_ & Hl & _). done.
Qed.

(** [syscall_init] writes model-specific registers only. *)
Lemma wp_syscall_init h (Q : unit → hw → Prop) :
  (∀ r, Q tt (MkHw (mmio h) (ports h) r (tsc_src h) (tsc_reads h) (hpet_src h) (hpet_reads h) (apic_src h) (apic_reads h))) →
  wp syscall_init Q h.
Proof.
  intros HQ. unfold syscall_init, msr_read, msr_write, read_msr, write_msr.
  repeat (apply wp_bind || apply wp_gets || apply wp_modify || apply wp_ret). apply HQ.
Qed.

(** The end of [kinit], on a machine whose devices are up. *)
Lemma wpo_kinit_end pf info P fd m fs Ds ts s md rest :
  layout_ok (pf_image pf) (bi_hhdm_offset info) (bi_memory_map info) →
  firmware_mem (bi_hhdm_offset info) (bi_memory_map info) Ds m (fd_mem fd) →
  devices (bi_hhdm_offset info) (bi_memory_map info) P m (fd_mem fd) fs Ds ts s →
  bi_modules info = md :: rest → readable (fd_mem fd) (mod_address md) 64 → boot_ok (sys_kern s) →
  wpo ((match bi_modules info with [] => fault 0 | m :: _ => zoom (elf_read m) end);;
       zoom syscall_init;;
       zoom (sched_init (pf_fresh_thread pf) (pf_fresh_proc pf) (pf_fresh_stack pf))) (λ stk s',
    stk = [FHandle; FBoot] ∧ kinv (sys_kern s') stk ∧ sys_vmm s' = sys_vmm s ∧
    tsc_freq (sys_clocks s') = tsc_freq (sys_clocks s) ∧
    sys_madt s' = sys_madt s ∧ sys_gdt s' = sys_gdt s ∧ sys_ioapic s' = sys_ioapic s) s.
Proof.
  intros Hl Hfm Hd -> Hmod Hb. apply wpo_bind, wpo_zoom, wp_wpo.
  apply wp_elf_read; [eapply readable_below; [|exact Hmod]; by eapply (devices_seen (pf_image pf)); [..|exact Hd]|].
  intros r. change (upd _ s) with s. apply wpo_bind, wpo_zoom, wp_wpo, wp_syscall_init. intros msr.
  set (s1 := upd _ s). assert (boot_ok (sys_kern s1)) as Hb1 by exact Hb.
  eapply wpo_mono; [by apply wpo_start|]. intros stk s' (E1 & E2 & E3 & E4 & E5 & E6).
  unfold sys_vmm. rewrite E3, E4, E5, E6. done.
Qed.


(** ** A machine *)

Module demo.
Definition off : Z := UPPER_HALF.
(** The firmware's page: the RSDP at 0x10, the XSDT at 0x100, the HPET table at
    0x200, the MADT at 0x300. *)
Definition entries : list madt_entry := [ELapic 0 0 1; EIoapic 0 0 0xfec00000 0].
Definition pad (n : nat) (l : list Z) : list Z := l ++ replicate (n - length l) 0.
Definition table (sig : list Z) (body : list Z) : list Z :=
  sig ++ le 4 (36 + Z.of_nat (length body)) ++ replicate 28 0 ++ body.
Definition page : list Z :=
  pad 0x10 [] ++
  pad 0xF0 (replicate 15 0 ++ [2] ++ replicate 8 0 ++ le 8 0x100) ++
  pad 0x100 (table ACPI_XSDT_SIGNATURE (le 8 0x200 ++ le 8 0x300)) ++
  pad 0x100 (table ACPI_HPET_SIGNATURE (replicate 8 0 ++ le 8 0xfed00000 ++ replicate 4 0)) ++
  pad 0x100 (table ACPI_MADT_SIGNATURE (replicate 8 0 ++ mjoin (encode_entry <$> entries))).
Definition fw : mem := λ x,
  if (off <=? x) && (x <? off + PAGE_SIZE) then Some (nth (Z.to_nat (x - off)) page 0) else None.

Definition frames : Z := 600.
Definition boot_mem : mem := λ x,
  if (off <=? x) && (x <? off + PAGE_SIZE) then fw x
  else if (off <=? x) && (x <? off + (frames + 1) * PAGE_SIZE) then Some 0 else None.
Definition memmap : PhysMemoryMap :=
  [MkRegion 0 PAGE_SIZE PhysMemType_RESERVED; MkRegion PAGE_SIZE (frames * PAGE_SIZE) PhysMemType_Usable].
Definition image : KernelImage :=
  MkImage 0xffffffff80000000 0xffffffff80001000 0xffffffff80001000 0xffffffff80001000 0xffffffff80001000
    0xffffffff80001000 0xffffffff80001000 0xffffffff80001000.
Definition info : BootInfo :=
  MkBootInfo memmap off (MkFb 0 640 480 0 0 0 0 0 0 0 0 0) (MkKernelAddress 0xffffffff80000000 0x200000) 0x10
    [MkModule (off + 0x800) 64 0 0].

Definition thread0 : Thread := MkThread 0 0 0 0 0 "" THREAD_READY 0 0 0.
Definition pf : platform :=
  MkPlatform image 0 0 (λ _, 0) (MkHpetDevice (Z.shiftl 100000000 32) 0) (λ _, 0) (λ _, thread0)
    (λ _, MkProcess 0 "" 0 0 0) (λ _, MkKStack 0 0 0 0 0 0 0 fn_init_thread fn_idle) 4.

Definition hw0 : hw :=
  MkHw [] [] {[IA32_APIC_BASE_MSR := 0xfee00900]} (λ n, 3000000 * Z.of_nat n) 0 (λ n, 1000000 * Z.of_nat (S n)) 0 (λ _, 0) 0.
Definition clocks0 : clocks :=
  MkClocks hw0 (MkVmm (MkPaging (MkPmm boot_mem 0 0) 0 0 ∅) 0 0) 0 0 0 timer_none 0 0.
Definition start : system :=
  MkSystem (MkTty 0 0 0 0 0 0 ∅) ([], 0) (MkIdtSt (replicate 256 (MkIdt 0 0 0 0 0 0 0)) 0 0 false)
    (MkKern (Heap (λ _, None) NULL) (MkLapic clocks0 interrupts_static 0 0 0 0) (MkEvq ∅ ev_null)
      (MkObjs ∅ ∅ ∅ ∅ ∅ ∅) (MkVars 0 0 0 0 0 0 0 0 true))
    (MkAcpi (λ _, None) 0 0 (MkArray [] 0 0) false None 0
      (MkRt (example.zeros 0 276) gas_zero gas_zero gas_zero gas_zero 0 false false 0))
    no_lists (MkIoVars 0 0 None).

Definition installed : list uacpi_installed_table :=
  Eval vm_compute in default [] (firmware_tables fw off 0x10).
Definition desc : firmware_desc :=
  MkFirmware fw installed (off + 0x200) 0xfed00000 (off + 0x300) entries (MkIoApic 0 0 0xfec00000 0).
Definition paths : list (list Z) :=
  remove_dups (table_paths (boot_requests image off memmap (0xffffffff80000000 -64 0x200000)) ++
    upper_paths HEAP_START ++ mjoin (upper_paths <$> device_pages pf off desc start)).

Lemma firmware_lookup : firmware_tables fw off 0x10 = Some installed.
Proof. vm_compute. reflexivity. Qed.

Lemma fw_dom x b : fw x = Some b → off ≤ x < off + PAGE_SIZE.
Proof. unfold fw. destruct (_ && _) eqn:E; [|done]. intros _. apply andb_true_iff in E as [H1%Z.leb_le H2%Z.ltb_lt]. done. Qed.

Lemma fw_readable a n : off ≤ a → a + n ≤ off + PAGE_SIZE → readable fw a n.
Proof.
  intros H1 H2 x Hx. unfold fw. rewrite (proj2 (Z.leb_le _ _)), (proj2 (Z.ltb_lt _ _)) by lia. eauto.
Qed.

Lemma firmware_ok0 : firmware_ok 4 off 0x10 desc.
Proof.
  split.
  - exact firmware_lookup.
  - change (take 80 (fd_tables desc)) with installed. unfold installed.
    do 2 (apply Forall_cons; split; [cbn [phys_addr hdr hdr_length desc fd_mem]; apply fw_readable; vm_compute; discriminate|]).
    constructor.
  - split; [|vm_compute; reflexivity]. eexists _, _. split; [reflexivity|vm_compute; reflexivity].
  - split; [eexists _, _; split; [reflexivity|vm_compute; reflexivity]|]. split; [split; [vm_compute; reflexivity|]|].
    + change (mjoin (encode_entry <$> fd_entries desc)) with (mjoin (encode_entry <$> entries)).
      let l := eval vm_compute in (mjoin (encode_entry <$> entries)) in
        change (mjoin (encode_entry <$> entries)) with l.
      rewrite !bytes_in_cons. repeat (split; [vm_compute; reflexivity|]). intros i b Hi. by rewrite lookup_nil in Hi.
    + split; [|vm_compute; reflexivity]. repeat (apply Forall_cons; split; [simpl; unfold byte, in_range; lia|]). constructor.
  - split; [discriminate|reflexivity].
  - simpl. lia.
Qed.

Lemma boot_mem_fw x b : fw x = Some b → boot_mem x = Some b.
Proof.
  intros Hx. pose proof (fw_dom _ _ Hx). unfold boot_mem.
  by rewrite (proj2 (Z.leb_le _ _)), (proj2 (Z.ltb_lt _ _)) by lia.
Qed.

Lemma boot_mem_mapped x : off ≤ x < off + (frames + 1) * PAGE_SIZE → is_Some (boot_mem x).
Proof.
  intros Hx. unfold boot_mem, fw. rewrite (proj2 (Z.leb_le _ _)) by lia.
  rewrite (proj2 (Z.ltb_lt x (off + (frames + 1) * PAGE_SIZE))) by lia. destruct (x <? off + PAGE_SIZE); simpl; eauto.
Qed.

Lemma usable : usable_frames memmap = frames_from PAGE_SIZE frames.
Proof. reflexivity. Qed.

Lemma layout0 : layout_ok image off memmap.
Proof.
  split.
  - split; [done|reflexivity].
  - apply Forall_cons. split; [vm_compute; repeat split; discriminate|].
    apply Forall_cons. split; [vm_compute; repeat split; discriminate|constructor].
  - repeat split; vm_compute; discriminate.
  - repeat split; vm_compute; discriminate.
Qed.

Lemma paths_elem path :
  path ∈ paths ↔ path ∈ table_paths (boot_requests image off memmap (0xffffffff80000000 -64 0x200000)) ∨
    path ∈ upper_paths HEAP_START ∨ path ∈ mjoin (upper_paths <$> device_pages pf off desc start).
Proof. unfold paths. by rewrite elem_of_remove_dups, !elem_of_app. Qed.

Lemma memory0 : memory_ok image off memmap (0xffffffff80000000 -64 0x200000) paths boot_mem.
Proof.
  split.
  - exact layout0.
  - apply Forall_cons. split; [|constructor]. intros _. vm_compute. repeat split; discriminate.
  - rewrite usable. apply Forall_forall. intros p (i & -> & Hi)%elem_of_frames_from.
    unfold frames, off, UPPER_HALF, PAGE_SIZE in *. repeat split; unfold PAGE_SIZE; try dlia.
    intros x Hx. apply boot_mem_mapped. unfold off, UPPER_HALF, frames, PAGE_SIZE in *. lia.
  - rewrite usable. unfold frames_from. apply NoDup_fmap; [|apply NoDup_seqZ]. intros x y. unfold PAGE_SIZE. lia.
  - intros path Hp. apply paths_elem. by left.
  - intros path Hp. apply paths_elem. right. by left.
  - apply Forall_forall. intros path [H|[H|H]]%paths_elem.
    + pose proof (table_paths_short (boot_requests image off memmap (0xffffffff80000000 -64 0x200000))) as Hs.
      rewrite Forall_forall in Hs. by apply Hs.
    + pose proof (upper_paths_short HEAP_START) as Hs. rewrite Forall_forall in Hs. by apply Hs.
    + apply list_elem_of_join in H as (l & Hl & (w & -> & _)%list_elem_of_fmap).
      pose proof (upper_paths_short w) as Hs. rewrite Forall_forall in Hs. by apply Hs.
  - apply Nat.leb_le. vm_compute. reflexivity.
Qed.

Lemma clock0 : clock_runs 4 36 (λ n, 1000000 * Z.of_nat (S n)) 100000000.
Proof.
  intros n Hn. change (100000000 `div` 1000000) with 100.
  assert (∀ k, (k ≤ 40)%nat → u64 (1000000 * Z.of_nat (S k)) *64 100 = 100000000 * Z.of_nat (S k)) as Hk.
  { intros k Hk. rewrite (wrap_small 64 (1000000 * _)) by lia. rewrite wrap_small by lia. lia. }
  rewrite Hk by lia. split; [lia|]. exists 0%nat. split; [lia|]. rewrite Hk by lia. lia.
Qed.

Lemma machine0 : machine_ok pf info paths desc start.
Proof.
  split.
  - split; try done.
  - exact memory0.
  - exact firmware_ok0.
  - intros x b Hx. pose proof (fw_dom _ _ Hx) as Hd. split; [by apply boot_mem_fw|]. split.
    + assert (indices x = indices off) as E.
      { apply indices_same_page. unfold off, UPPER_HALF, PAGE_SIZE in *. dlia. }
      unfold apart. rewrite E. repeat (apply Forall_cons; split; [vm_compute; discriminate|]). constructor.
    + exists 0, (x - off). split; [change (bi_hhdm_offset info) with off; lia|]. split; [lia|]. split.
      * exists (MkRegion 0 PAGE_SIZE PhysMemType_RESERVED). split; [by apply list_elem_of_here|].
        apply elem_of_frames_from. exists 0. split; [reflexivity|]. vm_compute. split; [discriminate|reflexivity].
      * simpl bi_memory_map. rewrite usable. intros (i & Hi & ?)%elem_of_frames_from. unfold PAGE_SIZE in *. lia.
  - eexists _, _. split; [reflexivity|]. apply fw_readable; vm_compute; discriminate.
  - apply Forall_forall. intros w Hw path Hp. apply paths_elem. do 2 right. apply list_elem_of_join.
    exists (upper_paths w). split; [done|]. by apply list_elem_of_fmap; exists w.
  - vm_compute. split; [discriminate|reflexivity].
  - exact clock0.
  - vm_compute. discriminate.
Qed.
End demo.


Lemma memory_init_ready_witness :
  wp (memory_init demo.image demo.off demo.memmap (MkKernelAddress 0xffffffff80000000 0x200000)) (λ h s',
    heap_inv heap_empty h ∧
    (∃ f, f ∈ usable_frames demo.memmap ∧
       virt_mem (vm_paging s') (HEAP_START + 4096 + 16) = pg_mem (vm_paging s') (f + demo.off + 16)) ∧
    virt_mem (vm_paging s') (0x200 + demo.off) = pg_mem (vm_paging s') (0x200 + demo.off))
    (sys_vmm demo.start).
Proof.
  refine (wp_mono _ _ _ _ (memory_init_ready demo.image demo.off demo.memmap
    (MkKernelAddress 0xffffffff80000000 0x200000) demo.paths (sys_vmm demo.start) _ _) _).
  - exact demo.memory0.
  - reflexivity.
  - intros h s' (Hh & own & free & fs & Hr & Hf & Hv). split; [exact Hh|]. split.
    { destruct Hr as [_ _ _ _ _ (Hl & _ & _) Hu _].
      destruct (lookup_lt_is_Some_2 fs 1) as [f Hfs]; [rewrite Hl; lia|]. exists f.
      split; [apply Hu; right; by eapply list_elem_of_lookup_2|].
      apply (Hf 1%nat f 16 Hfs). unfold PAGE_SIZE. lia. }
    apply (Hv 0 0x200); [|unfold PAGE_SIZE; lia].
    exists (MkRegion 0 PAGE_SIZE PhysMemType_RESERVED). split; [by apply list_elem_of_here|].
    apply elem_of_frames_from. exists 0. split; [reflexivity|]. vm_compute. split; [discriminate|reflexivity].
Defined.
